(* ===== verification/_CoqProject ===== *)
-Q . S2P
Prelude.v
Doubles.v
BitUtilities.v
SlamBitSet.v
Outcome.v
MDMapping.v
MDMappingProofs.v
MDMappingTheorems.v
ArrayMemory.v
Array.v
ArrayProofs.v
ArrayOperations.v
ArrayTheorems.v
SlamPolicies.v
SlamSets.v
SlamSetTheorems.v
SlamRelations.v
SlamRelationTheorems.v
SlamDynamicRelations.v
SlamBivariate.v
SlamBivariateTheorems.v
SlamMaps.v
SlamMapTheorems.v
Morton.v
OctreeBlocks.v
OctreeLevels.v
Octree.v
OctreeBlockProofs.v
OctreeLevelProofs.v
OctreeProofs.v
OctreeIteration.v
OctreeTheorems.v
FlatTable.v
FlatMap.v
BucketMap.v
BucketMapTheorems.v
PathStrings.v
StdStrings.v
StringUtilities.v
SlicStreams.v
SlicLogger.v
SlicTheorems.v
SlicGeneric.v
SlicSynchronized.v
LumberjackMessage.v
Lumberjack.v
LumberjackTheorems.v
SlicLumberjack.v
SidreCollections.v
SidreState.v
SidreView.v
SidreViewProofs.v
SidreTheorems.v
SidreGroup.v
SidreTree.v
SidreTreeProofs.v
SidreTreeOps.v
SidreTreeTheorems.v
OffsetLists.v
MintCells.v
MintStructured.v
MintStructuredTheorems.v
MintFaces.v
MintFacesTheorems.v
MintMeshFaces.v
MintMeshTheorems.v
MintConnectivity.v
MintConnectivityTheorems.v
MintUnstructured.v
MintUnstructuredTheorems.v
