(* ===== verification/Prelude.v ===== *)
(** * A verification of the core of Axom

    Axom ([src/src/axom]) is a C++ library of infrastructure for simulation codes.  This
    development models the components that carry its own data-structure logic and
    proves that they do what their interfaces promise.  File names below are relative to
    [src/src/axom].

    ** The parts and how they interact

    - [core] has the utilities everything else uses: bit counting, multidimensional
      index mappings, the growing [Array] and its views on top of raw memory, the
      open-addressing hash map [FlatMap] on top of the table metadata [FlatTable],
      the map with buckets of a fixed length, functions on strings, and paths.
    - [slam] has sets, relations and maps.  An ordered set is put together from policies
      for its size, offset, stride, indirection and parent; a relation has a set of
      positions for every element of a set, held in an ordered set of indices and one of
      offsets; a bivariate set numbers the pairs of a product or of a relation, and a map
      attaches values to the elements of a set, or to the pairs of a bivariate set.  Its
      [BitSet] uses the bit counting of [core].
    - [spin] has spatial indexes.  An octree is an array of levels, each of which keeps
      the blocks of one resolution in broods of siblings; sparse levels hash the Morton
      index of a brood.
    - [slic] is the logging layer.  A registry of [Logger]s, one of which is active, sends
      messages to log streams, which it knows by their virtual functions; the stream of
      one process formats them, keeps them in a string until the first flush and then
      writes them to a file.  The functions of the interface and its macros work on the
      active logger, and initialize the library when nobody did.  Two more log streams are
      for parallel programs: one prints the messages of all ranks in their order, the
      other uses [lumberjack].
    - [lumberjack] collects log messages of many ranks over a tree of communicators and
      combines equal ones on the way.
    - [sidre] is the in-memory data store: a [DataStore] owns [Buffer]s of bytes and a
      tree of [Group]s, which own [View]s; views refer to data in buffers, in external
      memory or inside themselves.  Groups and the store keep their items in
      [ItemCollection]s and find them by paths of [core].
    - [mint] has meshes.  A structured mesh computes the relations between cells, faces and
      nodes from their numbers; an unstructured mesh keeps the nodes of its cells in a
      connectivity array and finds its faces by collecting those of the cells, which the
      table of cell types describes.

    ** Files

    - [Prelude] (this file): array accesses, machine words, bit lemmas, tactics and hint
      databases that the components share.
    - [Doubles]: rounding of integers and quotients to [double].
    - [BitUtilities]: [core/utilities/BitUtilities.hpp].
    - [SlamBitSet] (Module [BitSet]): [slam/BitSet.hpp], [slam/BitSet.cpp].
    - [Outcome]: results of code that can abort, counted loops, arithmetic on
      [axom::IndexType].
    - [MDMapping]: [core/MDMapping.hpp] and [core/StackArray.hpp]; its lemmas are in
      [MDMappingProofs] and its theorems in [MDMappingTheorems].
    - [ArrayMemory]: [core/memory_management.hpp] and the operations on ranges of
      elements of [core/ArrayBase.hpp].
    - [Array]: [core/ArrayBase.hpp], [core/Array.hpp] and [core/ArrayView.hpp];
      [ArrayProofs] has the ownership of memory by an array, [ArrayOperations] a lemma
      for each operation, [ArrayTheorems] the theorems.
    - [SlamPolicies]: the policies of [slam/policies], each kind as a class of operations
      with the policies as instances.  [SlamSets]: [Set.hpp], [OrderedSet.hpp],
      [RangeSet.hpp], [DynamicSet.hpp], [ModularInt.hpp] of [slam] and
      [core/IteratorBase.hpp]; [SlamSetTheorems] has the theorems.
    - [SlamRelations]: [CardinalityPolicies.hpp], [StaticRelation.hpp],
      [DynamicConstantRelation.hpp] and [DynamicVariableRelation.hpp] of [slam];
      theorems in [SlamRelationTheorems] and [SlamDynamicRelations].
    - [SlamBivariate]: [BivariateSet.hpp], [ProductSet.hpp], [RelationSet.hpp] of [slam];
      theorems, proved against the representation [bset_repr] that each kind of set of
      pairs satisfies, in [SlamBivariateTheorems].
    - [SlamMaps]: [Map.hpp], [SubMap.hpp], [BivariateMap.hpp], [DynamicMap.hpp] of [slam];
      theorems in [SlamMapTheorems].
    - [Morton]: [spin/MortonIndex.hpp].
    - [OctreeBlocks]: the block indices and block data of [spin/OctreeBase.hpp],
      [quest/detail/inout/BlockData.hpp] and [spin/Brood.hpp].
    - [OctreeLevels]: [spin/OctreeLevel.hpp] with the class [LevelLaws] of what a level
      promises (in [OctreeLevelProofs]), and its two implementations
      [spin/DenseOctreeLevel.hpp] and [spin/SparseOctreeLevel.hpp].
    - [Octree]: [spin/OctreeBase.hpp] and the point queries of [spin/SpatialOctree.hpp];
      proofs are in [OctreeBlockProofs], [OctreeLevelProofs], [OctreeProofs] (the
      invariant) and [OctreeIteration], the theorems in [OctreeTheorems].
    - [FlatTable]: [core/detail/FlatTable.hpp], the groups of bucket bytes, their
      overflow bits and the probe sequences.
    - [FlatMap]: [core/FlatMap.hpp], the map itself, over any key and value type and
      any hash function.
    - [BucketMap]: [core/Map.hpp], the map with fixed buckets, whose elements and free nodes
      are lists threaded through an array; [BucketMapTheorems] has the theorems.
    - [PathStrings]: [core/Path.hpp], [core/Path.cpp] and the functions of
      [core/utilities/StringUtilities] that paths and Sidre use.
    - [StdStrings]: the members of [std::string] that messages use.
    - [StringUtilities]: the rest of [core/utilities/StringUtilities]: suffixes, case,
      splitting from the right, removal and replacement of substrings.
    - [SlicStreams]: [MessageLevel.hpp], [LogStream.cpp] and [GenericOutputStream.cpp] of
      [slic], with the output streams of the C++ library that they write to, and the
      theorems on them.
    - [SlicLogger]: [Logger.cpp], [SimpleLogger.hpp], [slic.cpp] and [slic_macros.hpp].  The
      virtual functions of a log stream are the class [LogStream].
    - [SlicTheorems]: the class [LogStreamLaws] of what a log stream promises, a weakest
      precondition for computations of [slic], its invariant [slic_ok] with a lemma for
      each operation, and the safety of programs.  [SlicGeneric]: [GenericOutputStream] is
      an instance of the laws, and where messages end up.
    - [SlicSynchronized]: [SynchronizedStream.cpp], its collective flush as a step
      relation on the states of all ranks, and its theorem.
    - [LumberjackMessage]: [lumberjack/Message.hpp], [lumberjack/Message.cpp].
    - [Lumberjack]: the combiners, the communicators, [MPIUtility.cpp] and
      [Lumberjack.cpp] of [lumberjack]; [LumberjackTheorems] has the theorems.
    - [SlicLumberjack]: [LumberjackStream.cpp] on top of [Lumberjack], and its theorem.
    - [SidreCollections] (Module [Collections], with a module for each class):
      [ItemCollection.hpp], [IndexedCollection.hpp], [MapCollection.hpp] and
      [ListCollection.hpp] of [sidre/core].  The virtual functions of the base class are
      the type class [ItemCollection], what its clients rely on is [CollectionLaws], and
      each of the three collections is an instance.
    - [SidreState] (Module [Sidre]): the record [DS] of all objects of a [DataStore], with
      a heap for each of buffers, views and groups and one for memory blocks; the
      classes [Conduit] and [Allocator] of what is outside the repository, with the
      documented behaviour that is used as [ConduitLaws] and [AllocatorLaws].
    - [SidreView]: [Buffer.cpp], the buffers of [DataStore.cpp], and [View.cpp], with
      the inline functions of their headers.
    - [SidreViewProofs] (Module [SidreInv]): the invariant of buffers and views, and a
      lemma for each operation.
    - [SidreTheorems]: the theorems on buffers and views.
    - [SidreGroup]: [Group.cpp] and [Group.hpp], the renaming and paths of [View.cpp],
      the constructor and destructor of [DataStore.cpp].
    - [SidreTree]: ownership of items in collections, once for views and groups.
    - [SidreTreeProofs] (Module [SidreTreeInv]) and [SidreTreeOps]: the invariant of the
      tree, and that the operations of [Group] keep it.
    - [SidreTreeTheorems]: the theorems on the tree.
    - [OffsetLists]: lists that are stored one after the other with offsets, for [mint].
    - [MintCells]: [CellTypes.hpp] of [mint/mesh].  [MintStructured]: [StructuredMesh.hpp]
      and [StructuredMesh.cpp], theorems in [MintStructuredTheorems].
    - [MintFaces]: [initFaces] of [internal/MeshHelpers.cpp] over the record [Mesh] of what
      it asks a mesh; theorems in [MintFacesTheorems].  [MintMeshFaces] and
      [MintMeshTheorems]: the structured meshes as such meshes.
    - [MintConnectivity] (Modules [Typed] and [Strided]): [ConnectivityArray.hpp] and
      [internal/ConnectivityArray_typed_indirection.hpp]; theorems in
      [MintConnectivityTheorems].
    - [MintUnstructured]: [UnstructuredMesh.hpp] over the class [CellStore] of connectivity
      arrays; that both satisfy [CellStoreLaws], and the theorems proved from these laws,
      in [MintUnstructuredTheorems].

    A definition has the name of the function it models; an overload or a clash adds a
    suffix ([destroyView_idx]) or the name of the class ([View_allocate]).

    ** How the code is represented

    - Integers are [Z].  Where the code converts to a narrower type or relies on unsigned
      arithmetic, the wrap is written out ([wrap 64], [u32], [to_int32]).  Signed overflow
      is undefined: [int32] and [as_int] check that a result is an [int], [ix] that it is
      an [axom::IndexType].  For index mappings, arrays, sets, relations, maps and meshes
      [axom::IndexType] has 32 or 64 bits (class [IndexBits]); [FlatTable], [FlatMap],
      [BucketMap] and Sidre are modelled in the default build, where it has 32.  The counters
      that the code declares as [int] are 32 bits wide in both.  The theorems bound what
      they are about accordingly: buckets and byte counts below [2^31], collections of
      Sidre with fewer than [2^31] slots, cells and nodes of meshes that the counters of
      [initFaces] and the offsets of connectivity arrays can hold ([mesh_fits],
      [cells_fit]).
    - A vector is a list, a read or write outside its bounds is [None].  So is every
      other undefined behaviour: a null or dangling pointer that is used, a failed cast
      that is used, memory that is freed twice.  A theorem that gives [Some] says that
      none of these happens.  Index mappings and arrays can also abort the process:
      their results are [Done], [Aborted] or [Undefined].
    - The memory of arrays is a map from addresses to blocks of cells; a cell holds an
      element or none.  Addresses are not used again.  What an element does when it is
      constructed by default is a class [Element], and whether [malloc] succeeds a class
      [Malloc].  The contents of storage that is not initialized are arguments of the
      constructors.
    - The growth factor of arrays uses the IEEE arithmetic of the Standard Library's
      [SpecFloat], not real numbers; the halving of grid points and the size of strided
      ranges write out the rounding to 53 bits ([Doubles]).
    - The buffers that sets and relations of [slam] refer to are lists in a heap with
      integer keys, an indirection is a key or null, and reading through a key that is
      not in the heap is undefined.  Maps own their values, which are a list in the map.
      The row array that a product set with the virtual interface points to inside
      itself has a key of its own.
    - In Sidre a pointer is a key of a heap of [DS]; operations pass [DS] on.  Objects
      share and alias exactly as in the code: a view and its buffer hold the keys of
      each other.
    - A push of [lumberjack] is a function on the list of the states of all ranks,
      because the ranks push together between barriers.  The order in which a rank
      receives from several others is the parameter [arrive].
    - A computation of [slic] returns, ends the process or is undefined ([Ret], [Exit],
      [Undef]).  Log streams and loggers are keys of heaps.  A file stream has a position
      and text that is not yet in the file; flushing and closing write it.  What
      [std::asctime] returns and which files can be opened is a class [Platform]; stack
      traces and the abort functions of the user are a class [Environment].
    - In a collective flush of [SynchronizedStream] each rank is at a point of its code
      and has a number of signals that it has not received; a step is one of any rank, and
      printing a message is one step.  The ranks share the console and the files.
    - Structured meshes compute with an [axom::IndexType] that wraps around ([ixw]),
      because their constructor lets offsets overflow that it does not use; the theorems
      are about grids whose nodes and faces can be counted.  [initFaces] and the
      connectivity arrays check every [int] and [axom::IndexType] they count with.  The arrays of [mint] are given by their contents, as the theorems on arrays
      describe them; a map of [std] is an association list ordered by its comparison.
    - Grid points of octrees are lists of coordinates.  Positions in the bounding box are
      rational numbers.
    - A failing assertion is [Aborted] in connectivity arrays and unstructured meshes, and
      no result in [BitSet] and [BucketMap]; theorems about these show that the assertions
      hold, or say when they fail.  The definitions of arrays have no assertions, but the
      programs of [array_refines_list] keep those of [Array.hpp] ([legal]).  In the other
      components, [SLIC_CHECK], [SLIC_WARNING] and [SLIC_ASSERT] only log in the builds that
      are modelled, so a condition that is only checked by them has no effect; an early
      return after them is in the definition.
    - Builds without GPU support and without Umpire are modelled.
    - [new] is assumed to succeed; [axom::allocate] may fail, and then returns null.
    - Scalars and strings are opaque values of Conduit with a data type.

    ** Loops and fuel

    Loops over collections take the number of their slots plus two ([coll_fuel],
    [destroyAllBuffers]), enough for one step per slot and the final test; recursion over
    the tree takes the number of groups plus one ([tree_fuel]), because no path below a
    group repeats a group.  A rehash inside an insertion inserts in turn; two levels of
    this are enough ([max_nesting]), which [emplace_terminates] proves.  The probe loops
    of [FlatTable] visit as many groups as there are, as in the code.  The walks along the
    elements of a bucket take the length of its array plus one ([bucket_fuel]).  The walk to an
    ancestor in an octree takes the level plus one, the binary search over levels the
    number of levels plus one, the iteration over a dense level the number of its places
    ([Dense_fuel]), the iteration over a set or map of [slam] its size.  Removing and
    replacing substrings takes the length of the string plus one.  The initialization of
    [slic] on demand calls functions that ask again whether there is a logger; a depth of
    two is enough ([ensureInitialized]).  The loops of index mappings, arrays, loggers and
    Lumberjack are counted by the code and need no fuel.  The theorems say that
    these bounds suffice: they give a result, not only a property of one.

    ** What the theorems show

    - Bits: [bit_counting_correct] relates the branch-free code to the bits of a word.
      [bitset_update_refines_set], [bitset_queries] and [bitset_valid_and_equal]: the
      bit set refines finite sets of integers.  [morton_interleaves] and
      [morton_roundtrip]: Morton indices interleave bits and can be inverted, for every
      width.
    - Index mappings: [mdmapping_bijection] (the conversions between flat and
      multidimensional indices are inverse and never overflow), [mdmapping_orders],
      [mdmapping_strides].
    - Arrays: [array_refines_list] (every program of operations on a one-dimensional
      array behaves as on a list, without undefined behaviour), [array_lifetime] (copies
      are independent, nothing leaks), [array_multi_index], [array_append].  The
      examples after them show what goes wrong for an element of the array itself as an
      argument, for strided views and for arrays that are not row-major.
    - Sets: [ordered_set_elements] (a valid set is a list, whatever its policies),
      [strided_range], [dynamic_set_refines_list], [modular_int_ring].
    - Relations: [static_relation_rows], [static_relation_sound] (what [isValid] is worth),
      [dynamic_relation_refines_rows], [dynamic_variable_rows].
    - Sets of pairs and maps: [bivariate_set_pairs] (flat indices number the pairs, for
      products and for relations),
      [product_set_complete], [map_read_write], [map_make_valid], [bivariate_map_rows],
      [bivariate_map_write], [bivariate_map_iteration].  The examples at the ends of the
      files show where the code accepts or does what it should not.
    - Octrees: [octree_invariant], [covering_leaf], [refine_leaf_correct],
      [find_leaf_block], [level_iteration], [block_index_laws]; beyond the levels and ids
      they are about, [parent_loses_bits], [zero_id_vanishes], [ids_run_out].
    - Hash map: [flatmap_refines_map] (every program within capacity behaves as on a
      finite map), [flatmap_queries], [emplace_terminates]; where the code does not do
      what its interface says, [erase_keeps_size] and [make_rounds_down].
    - Map with fixed buckets: [bucket_map_refines] (every program that inserts only new keys
      with [insert] behaves as on a finite map with a limit for each bucket, also across
      rehashes); where it does not, [insert_duplicates], [rehash_loses], [cleared_map] and
      [move_forgets_fill].
    - Strings and paths: [path_parse_print], [path_split_join], [rsplit_join],
      [remove_all_instances] and [replace_all_instances]; where the code does not end or
      wraps around, [remove_empty_loops] and [rsplit_leading_delimiter].
    - Logging: [slic_programs_safe] (no program of calls of the interface that adds streams
      to one logger only uses a stream or logger that is gone, and finalizing flushes what
      the loggers send to, then deletes what they own and nothing else), [log_reaches_files] and
      [error_written_before_abort] (what is in the files afterwards), [file_stream_log]
      (a stream writes a log, whatever the order of messages and flushes) and
      [format_message] (what formatting puts in place of the keys).  For parallel programs
      [sync_flush_in_rank_order] (every interleaving of a collective flush prints in the
      order of ranks and ends) and [lumberjack_stream_reports] (what a flush prints is what
      the ranks have logged, each text and tag once).
    - Lumberjack: [lumberjack_flush_delivers] (pushing fully brings every message to the
      root and loses none), [message_roundtrip].
    - Collections: [collection_iteration] and [collection_drain], proved for any instance
      of the interface, and [map_collection_correct].
    - Buffers and views: [sidre_operations_safe] (no sequence of legal operations uses a
      dangling pointer or breaks the invariant), [view_allocate_correct],
      [destroy_buffer_detaches], [destroy_all_buffers]; and what differs from the
      documentation or fails: [allocate_overwrites_description],
      [attach_keeps_undescribed], [reallocate_leaves_dangling_view],
      [importArrayNode_breaks_attachment], [deepCopyView_unallocated_fails],
      [allocate_truncates].
    - The tree: [tree_operations_safe], [create_view_lookup], [group_path_roundtrip],
      [destroy_group_erases_subtree], [datastore_delete_empties], [data_info_partition];
      and what fails: [list_destroyViewsAndData_fails], [moveView_name_clash],
      [moveGroup_makes_cycle], [copyView_onto_group_fails].
    - Meshes: [structured_numbering] (numbers and places of cells, nodes and faces),
      [structured_incidence] and [structured_face_nodes] (the relations computed from
      numbers are those of the grid), [init_faces_result] and [init_faces_relations] (when
      the faces of a mesh are found, and that they are right), [structured_init_faces] (the
      two ways to the faces agree), [connectivity_refines] (a connectivity array is a list
      of cells), [unstructured_faces] and [unstructured_edits] (the composition of the two
      in an unstructured mesh), [cell_info_closed] (the tables of cell types); and what
      fails: [edges_miscounted], [offsets_overflow], [resize_keeps_values],
      [resize_to_empty], [resize_grows_offsets], [faces_stale], [faces_after_failure],
      [offsets_overflow_appendM].

    Each theorem with hypotheses has a witness that applies it to concrete data; for Sidre
    the witnesses use a concrete Conduit and allocator ([SidreTheorems]).

    ** What is not modelled

    Attributes of views; conversion of groups and views to and from Conduit nodes and
    files; printing; Umpire allocator ids and memory on devices; the C and Fortran
    interfaces.  Slices of arrays with fewer indices ([ArraySubslice]); the load
    factor and the locks of the map with fixed buckets; the bounding boxes
    of octree blocks; maps of [slam] over views of foreign data; the coordinates
    and fields of meshes and their storage in Sidre.  The rest of [spin], [core]'s
    numerics, and the components that compute with floating-point geometry or read input
    decks ([primal], [quest], [multimat], [klee], [inlet]) are outside this development.

    ** What could follow

    In order: several cells at once and resizing in unstructured meshes; arrays of Sidre on
    top of [Array] and [View]; attributes; the operations that destroy views and groups together with their data, and
    deep copies of groups, under the invariants of the tree; slices of arrays. *)

From stdpp Require Export base tactics numbers list gmap strings fin_sets sorting.
From Stdlib Require Export ZArith Lia.

#[global] Open Scope Z_scope.

(** ** Notation, hint databases and tactics of the development *)

Declare Scope axom_scope.
Delimit Scope axom_scope with axom.

Create HintDb axom discriminated.
Create HintDb axom_bits discriminated.

(** Decide every boolean comparison on [Z] that a conditional of the goal or of
    a hypothesis branches on. *)
Ltac case_zbool :=
  match goal with
  | |- context [?x <? ?y] => destruct (Z.ltb_spec x y)
  | |- context [?x <=? ?y] => destruct (Z.leb_spec x y)
  | |- context [?x =? ?y] => destruct (Z.eqb_spec x y)
  | H : context [?x <? ?y] |- _ => destruct (Z.ltb_spec x y)
  | H : context [?x <=? ?y] |- _ => destruct (Z.leb_spec x y)
  | H : context [?x =? ?y] |- _ => destruct (Z.eqb_spec x y)
  end.

(** Bitwise extensionality: two integers are equal when all their bits are. *)
Ltac bits_ext i Hi := apply Z.bits_inj'; intros i Hi.

(** ** Array accesses

    An array of the source is a list.  The source indexes it with a signed
    integer and checks the bounds at most in debug builds; an access outside the
    bounds is [None] here, so that a theorem that gives a [Some] also says that
    no access of the code is out of bounds. *)

Definition zlookup {A} (l : list A) (i : Z) : option A :=
  if decide (0 <= i) then l !! Z.to_nat i else None.

Definition zupdate {A} (l : list A) (i : Z) (x : A) : option (list A) :=
  if decide (0 <= i < Z.of_nat (length l)) then Some (<[Z.to_nat i := x]> l) else None.

Notation "l .[ i ]" := (zlookup l i) (at level 1, left associativity, format "l .[ i ]") : axom_scope.
#[global] Open Scope axom_scope.

Section zlookup.
Context {A : Type}.
Implicit Types (l : list A) (i j : Z) (x y : A).

Lemma zlookup_Some_bounds l i x : l.[i] = Some x -> 0 <= i < Z.of_nat (length l).
Proof.
  unfold zlookup. case_decide; [|done]. intros Hl%lookup_lt_Some. lia.
Qed.

Lemma zlookup_is_Some l i : is_Some (l.[i]) <-> 0 <= i < Z.of_nat (length l).
Proof.
  split.
  - intros [x Hx]. by eapply zlookup_Some_bounds.
  - intros Hi. unfold zlookup. rewrite decide_True by lia. apply lookup_lt_is_Some. lia.
Qed.

Lemma zlookup_lt l i : 0 <= i < Z.of_nat (length l) -> exists x, l.[i] = Some x.
Proof. intros Hi. by apply zlookup_is_Some in Hi as [x Hx]; eauto. Qed.

Lemma zlookup_of_nat l (n : nat) : l.[Z.of_nat n] = l !! n.
Proof. unfold zlookup. rewrite decide_True by lia. by rewrite Nat2Z.id. Qed.

Lemma zlookup_to_nat l i : 0 <= i -> l.[i] = l !! Z.to_nat i.
Proof. intros Hi. unfold zlookup. by rewrite decide_True by lia. Qed.

Lemma zlookup_None l i : l.[i] = None <-> i < 0 \/ Z.of_nat (length l) <= i.
Proof.
  rewrite eq_None_not_Some, zlookup_is_Some. lia.
Qed.

Lemma zupdate_Some l i x l' :
  zupdate l i x = Some l' <-> 0 <= i < Z.of_nat (length l) /\ l' = <[Z.to_nat i := x]> l.
Proof. unfold zupdate. case_decide; naive_solver. Qed.

Lemma zupdate_lt l i x :
  0 <= i < Z.of_nat (length l) -> zupdate l i x = Some (<[Z.to_nat i := x]> l).
Proof. intros Hi. unfold zupdate. by rewrite decide_True. Qed.

Lemma zupdate_length l i x l' : zupdate l i x = Some l' -> length l' = length l.
Proof. intros [_ ->]%zupdate_Some. apply length_insert. Qed.

Lemma zlookup_zupdate l i j x l' :
  zupdate l i x = Some l' -> l'.[j] = if decide (i = j) then Some x else l.[j].
Proof.
  intros [Hi ->]%zupdate_Some. unfold zlookup. destruct (decide (i = j)) as [<-|Hij].
  - rewrite decide_True by lia. apply list_lookup_insert_eq. lia.
  - case_decide; [|done]. apply list_lookup_insert_ne. lia.
Qed.

Lemma zlookup_insert l i j x :
  0 <= i < Z.of_nat (length l) ->
  (<[Z.to_nat i := x]> l).[j] = if decide (i = j) then Some x else l.[j].
Proof. intros Hi. eapply zlookup_zupdate. by apply zupdate_lt. Qed.

Lemma zlookup_Forall (P : A -> Prop) l i x : Forall P l -> l.[i] = Some x -> P x.
Proof.
  intros HP Hl. pose proof (zlookup_Some_bounds _ _ _ Hl).
  rewrite zlookup_to_nat in Hl by lia. by eapply Forall_lookup_1.
Qed.

Lemma zlookup_ext l1 l2 :
  length l1 = length l2 ->
  (forall i, 0 <= i < Z.of_nat (length l1) -> l1.[i] = l2.[i]) -> l1 = l2.
Proof.
  intros Hlen Heq. apply list_eq. intros n.
  destruct (decide (n < length l1)%nat) as [Hn|Hn].
  - rewrite <- !zlookup_of_nat. apply Heq. lia.
  - rewrite !lookup_ge_None_2 by lia. done.
Qed.

End zlookup.

Lemma zlookup_fmap {A B} (f : A -> B) (l : list A) i : (f <$> l).[i] = f <$> l.[i].
Proof. unfold zlookup. case_decide; [|done]. apply list_lookup_fmap. Qed.

#[export] Hint Resolve zlookup_Some_bounds : axom.

(** ** Machine words: [w]-bit unsigned integers are integers in [0, 2^w) *)

Definition in_word (w x : Z) : Prop := 0 <= x < 2 ^ w.
Definition wrap (w x : Z) : Z := x mod 2 ^ w.

(** ** [int]

    Signed integers of 32 bits, which [axom::IndexType] is by default.  Conversion to such an
    integer wraps around; arithmetic that leaves the range is undefined, here [None]. *)

Definition in_int (z : Z) : bool := (- 2 ^ 31 <=? z) && (z <? 2 ^ 31).
Definition to_int32 (z : Z) : Z := (z + 2 ^ 31) mod 2 ^ 32 - 2 ^ 31.
Definition int32 (z : Z) : option Z := if in_int z then Some z else None.

Lemma to_int32_id z : - 2 ^ 31 <= z < 2 ^ 31 -> to_int32 z = z.
Proof. intros Hz. unfold to_int32. rewrite Z.mod_small by lia. lia. Qed.

Lemma in_int_true z : - 2 ^ 31 <= z < 2 ^ 31 -> in_int z = true.
Proof. intros Hz. unfold in_int. apply andb_true_intro. split; [apply Z.leb_le|apply Z.ltb_lt]; lia. Qed.

Lemma int32_id z : - 2 ^ 31 <= z < 2 ^ 31 -> int32 z = Some z.
Proof. intros Hz. unfold int32. by rewrite in_int_true. Qed.

Lemma int32_Some z r : int32 z = Some r <-> r = z /\ - 2 ^ 31 <= z < 2 ^ 31.
Proof.
  unfold int32, in_int. destruct (Z.leb_spec (- 2 ^ 31) z), (Z.ltb_spec z (2 ^ 31)); cbn; split;
    try (by intros [= ->]); try done; try (intros [-> ?]; done || lia).
Qed.

(** ** Decidability of ranges *)

#[global] Instance in_word_dec w x : Decision (in_word w x).
Proof. unfold in_word. apply _. Defined.

Section words.
Context (w : Z) (Hw : 0 <= w).

Lemma in_word_testbit_high x i : in_word w x -> w <= i -> Z.testbit x i = false.
Proof using Hw.
  intros [Hx0 Hx] Hi. destruct (decide (x = 0)) as [->|Hne]; [apply Z.bits_0|].
  apply Z.bits_above_log2; [done|]. enough (Z.log2 x < w) by lia.
  apply Z.log2_lt_pow2; lia.
Qed.

Lemma in_word_from_testbit x :
  0 <= x -> (forall i, w <= i -> Z.testbit x i = false) -> in_word w x.
Proof using Hw.
  intros Hx Hbits. split; [done|].
  destruct (decide (x = 0)) as [->|Hne]; [apply Z.pow_pos_nonneg; lia|].
  apply Z.log2_lt_pow2; [lia|].
  destruct (decide (Z.log2 x < w)) as [|Hlog]; [done|].
  pose proof (Hbits (Z.log2 x) ltac:(lia)) as Hb.
  rewrite Z.bit_log2 in Hb by lia. done.
Qed.

Lemma wrap_in_word x : in_word w (wrap w x).
Proof using Hw. apply Z.mod_pos_bound. apply Z.pow_pos_nonneg; lia. Qed.

Lemma wrap_id x : in_word w x -> wrap w x = x.
Proof using Hw. apply Z.mod_small. Qed.

Lemma wrap_testbit x i :
  Z.testbit (wrap w x) i = if decide (0 <= i < w) then Z.testbit x i else false.
Proof using Hw.
  unfold wrap. destruct (decide (0 <= i)) as [Hi|Hi].
  - case_decide as Hd.
    + by rewrite Z.mod_pow2_bits_low by lia.
    + by rewrite Z.mod_pow2_bits_high by lia.
  - rewrite decide_False by lia. apply Z.testbit_neg_r. lia.
Qed.

Lemma in_word_0 : in_word w 0.
Proof using Hw. split; [lia|apply Z.pow_pos_nonneg; lia]. Qed.

Lemma in_word_land_l x y : in_word w x -> 0 <= y -> in_word w (Z.land x y).
Proof using Hw.
  intros Hx Hy. apply in_word_from_testbit.
  - apply Z.land_nonneg. left. apply Hx.
  - intros i Hi. rewrite Z.land_spec, (in_word_testbit_high x i) by done. done.
Qed.

Lemma in_word_land_any x y : in_word w x -> in_word w (Z.land x y).
Proof using Hw.
  intros Hx. apply in_word_from_testbit.
  - apply Z.land_nonneg. left. apply Hx.
  - intros i Hi. rewrite Z.land_spec, (in_word_testbit_high x i) by done. done.
Qed.

Lemma in_word_lor x y : in_word w x -> in_word w y -> in_word w (Z.lor x y).
Proof using Hw.
  intros Hx Hy. apply in_word_from_testbit.
  - apply Z.lor_nonneg. split; [apply Hx|apply Hy].
  - intros i Hi. by rewrite Z.lor_spec, !in_word_testbit_high.
Qed.

Lemma in_word_lxor x y : in_word w x -> in_word w y -> in_word w (Z.lxor x y).
Proof using Hw.
  intros Hx Hy. apply in_word_from_testbit.
  - apply Z.lxor_nonneg. split; intros; [apply Hy|apply Hx].
  - intros i Hi. by rewrite Z.lxor_spec, !in_word_testbit_high.
Qed.

Lemma in_word_pow2 i : 0 <= i < w -> in_word w (2 ^ i).
Proof using Hw.
  intros Hi. split; [apply Z.pow_nonneg; lia|apply Z.pow_lt_mono_r; lia].
Qed.

Lemma in_word_shiftr x n : 0 <= n -> in_word w x -> in_word w (Z.shiftr x n).
Proof using Hw.
  intros Hn Hx. apply in_word_from_testbit.
  - apply Z.shiftr_nonneg, Hx.
  - intros i Hi. rewrite Z.shiftr_spec by lia. apply in_word_testbit_high; [done|lia].
Qed.

End words.

#[export] Hint Resolve in_word_lor in_word_lxor in_word_land_any in_word_0 wrap_in_word
  in_word_shiftr : axom.

(** A non-zero word has a set bit. *)
Lemma nonzero_has_bit w x :
  0 <= w -> in_word w x -> x <> 0 -> exists i, 0 <= i < w /\ Z.testbit x i = true.
Proof.
  intros Hw Hx Hne. exists (Z.log2 x). destruct Hx as [Hx0 Hx].
  assert (0 < x) by lia. split.
  - split; [apply Z.log2_nonneg|]. by apply Z.log2_lt_pow2.
  - by apply Z.bit_log2.
Qed.

Lemma testbit_nonzero x i : Z.testbit x i = true -> x <> 0.
Proof. intros H ->. by rewrite Z.bits_0 in H. Qed.

(** [1 << i] has bit [i] only. *)
Lemma testbit_pow2 i j : 0 <= i -> Z.testbit (2 ^ i) j = bool_decide (i = j).
Proof.
  intros Hi. rewrite Z.pow2_bits_eqb by done.
  destruct (Z.eqb_spec i j); [by rewrite bool_decide_true|by rewrite bool_decide_false].
Qed.

Lemma land_pow2_nonzero x i :
  0 <= i -> Z.land x (2 ^ i) <> 0 <-> Z.testbit x i = true.
Proof.
  intros Hi. split.
  - intros Hne. destruct (Z.testbit x i) eqn:Hb; [done|]. exfalso. apply Hne.
    bits_ext j Hj. rewrite Z.land_spec, testbit_pow2, Z.bits_0 by done.
    case_bool_decide; subst; [by rewrite Hb|by rewrite andb_false_r].
  - intros Hb Hz. assert (Z.testbit (Z.land x (2 ^ i)) i = false) as Hf
      by (rewrite Hz; apply Z.bits_0).
    rewrite Z.land_spec, testbit_pow2, Hb, bool_decide_true in Hf by done. done.
Qed.

(** ** OR-linear functions on words

    The interleaving and spreading routines of the source are compositions of
    shifts, masks and disjunctions.  Such a function is determined by its values
    on the powers of two, which evaluation gives. *)

Class OrLinear (f : Z -> Z) : Prop := {
  or_linear_0 : f 0 = 0;
  or_linear_lor : forall x y, f (Z.lor x y) = Z.lor (f x) (f y)
}.

#[global] Instance or_linear_id : OrLinear (fun x => x).
Proof. split; done. Qed.

#[global] Instance or_linear_comp f g : OrLinear f -> OrLinear g -> OrLinear (fun x => f (g x)).
Proof.
  intros [Hf0 Hf] [Hg0 Hg]. split; [by rewrite Hg0|]. intros. by rewrite Hg, Hf.
Qed.

#[global] Instance or_linear_or f g :
  OrLinear f -> OrLinear g -> OrLinear (fun x => Z.lor (f x) (g x)).
Proof.
  intros [Hf0 Hf] [Hg0 Hg]. split; [by rewrite Hf0, Hg0|]. intros x y.
  rewrite Hf, Hg. bits_ext i Hi. rewrite !Z.lor_spec.
  destruct (Z.testbit (f x) i), (Z.testbit (f y) i), (Z.testbit (g x) i); done.
Qed.

#[global] Instance or_linear_land f b : OrLinear f -> OrLinear (fun x => Z.land (f x) b).
Proof.
  intros [Hf0 Hf]. split; [by rewrite Hf0, Z.land_0_l|]. intros x y.
  by rewrite Hf, Z.land_lor_distr_l.
Qed.

#[global] Instance or_linear_shiftl f s : OrLinear f -> OrLinear (fun x => Z.shiftl (f x) s).
Proof.
  intros [Hf0 Hf]. split; [by rewrite Hf0, Z.shiftl_0_l|]. intros x y.
  by rewrite Hf, Z.shiftl_lor.
Qed.

#[global] Instance or_linear_shiftr f s : OrLinear f -> OrLinear (fun x => Z.shiftr (f x) s).
Proof.
  intros [Hf0 Hf]. split; [by rewrite Hf0, Z.shiftr_0_l|]. intros x y.
  by rewrite Hf, Z.shiftr_lor.
Qed.

#[global] Instance or_linear_wrap f w : OrLinear f -> OrLinear (fun x => wrap w (f x)).
Proof.
  intros [Hf0 Hf]. destruct (decide (0 <= w)) as [Hw|Hw].
  - assert (forall z, wrap w z = Z.land z (Z.ones w)) as Hwr
      by (intros; unfold wrap; by rewrite Z.land_ones).
    split; [by rewrite Hf0, Hwr, Z.land_0_l|]. intros x y.
    by rewrite Hf, !Hwr, Z.land_lor_distr_l.
  - assert (forall z, wrap w z = z) as Hwr
      by (intros; unfold wrap; rewrite Z.pow_neg_r by lia; apply Zmod_0_r).
    split; [by rewrite Hf0, Hwr|]. intros x y. by rewrite Hf, !Hwr.
Qed.

(** A word is its top bit joined with the rest. *)
Lemma word_split_top (n : nat) x :
  in_word (Z.of_nat (S n)) x ->
  x = Z.lor (wrap (Z.of_nat n) x) (if Z.testbit x (Z.of_nat n) then 2 ^ Z.of_nat n else 0).
Proof.
  intros Hx. bits_ext i Hi. rewrite Z.lor_spec, wrap_testbit by lia.
  destruct (Z.testbit x (Z.of_nat n)) eqn:Hb.
  - rewrite testbit_pow2 by lia. destruct (decide (0 <= i < Z.of_nat n)), (decide (Z.of_nat n = i)); subst;
      rewrite ?bool_decide_true, ?bool_decide_false, ?orb_false_r, ?Hb by (done || lia); try done.
    apply (in_word_testbit_high (Z.of_nat (S n))); [lia|done|lia].
  - rewrite Z.bits_0, orb_false_r. case_decide; [done|].
    destruct (decide (i = Z.of_nat n)); subst; [done|].
    apply (in_word_testbit_high (Z.of_nat (S n))); [lia|done|lia].
Qed.

(** Two OR-linear functions that agree on the powers of two below [2^n] agree on
    every [n]-bit word. *)
Lemma or_linear_ext f g (n : nat) :
  OrLinear f -> OrLinear g ->
  (forall i, (i < n)%nat -> f (2 ^ Z.of_nat i) = g (2 ^ Z.of_nat i)) ->
  forall x, in_word (Z.of_nat n) x -> f x = g x.
Proof.
  intros Hf Hg. induction n as [|n IH]; intros Hpow x Hx.
  - assert (x = 0) as -> by (destruct Hx; simpl in *; lia).
    by rewrite !or_linear_0.
  - rewrite (word_split_top n x Hx). rewrite !or_linear_lor. f_equal.
    + apply IH; [intros; apply Hpow; lia|]. apply wrap_in_word. lia.
    + destruct (Z.testbit _ _); [apply Hpow; lia|]. by rewrite !or_linear_0.
Qed.

(** The same with the powers of two checked by evaluation. *)
Definition agree_on_powers (f g : Z -> Z) (n : nat) : bool :=
  forallb (fun i => f (2 ^ Z.of_nat i) =? g (2 ^ Z.of_nat i)) (seq 0 n).

Lemma or_linear_ext_eval f g (n : nat) :
  OrLinear f -> OrLinear g -> agree_on_powers f g n = true ->
  forall x, in_word (Z.of_nat n) x -> f x = g x.
Proof.
  intros Hf Hg Hev. apply or_linear_ext; [done|done|]. intros i Hi.
  unfold agree_on_powers in Hev. rewrite forallb_forall in Hev.
  apply Z.eqb_eq, Hev, in_seq. lia.
Qed.

(** ** Sums *)

Fixpoint sumZ (l : list Z) : Z :=
  match l with [] => 0 | d :: l' => d + sumZ l' end.

Lemma sumZ_app l1 l2 : sumZ (l1 ++ l2) = sumZ l1 + sumZ l2.
Proof. induction l1; cbn [sumZ app]; lia. Qed.

Lemma sumZ_perm l l' : l ≡ₚ l' -> sumZ l = sumZ l'.
Proof. induction 1; cbn [sumZ]; lia. Qed.

(** ** Beginnings and ends of lists

    [take] and [drop] at an index of the source. *)

Definition takeZ {A} (d : Z) (l : list A) : list A := take (Z.to_nat d) l.
Definition dropZ {A} (d : Z) (l : list A) : list A := drop (Z.to_nat d) l.

Lemma zlookup_app {A} (l1 l2 : list A) j :
  (l1 ++ l2).[j] = if decide (j < Z.of_nat (length l1)) then l1.[j] else l2.[j - Z.of_nat (length l1)].
Proof.
  unfold zlookup. destruct (decide (0 <= j)) as [Hj|Hj]; [|repeat case_decide; done || lia]. case_decide.
  - by rewrite lookup_app_l by lia.
  - rewrite decide_True by lia. rewrite lookup_app_r by lia. f_equal. lia.
Qed.

Lemma zlookup_takeZ {A} d (l : list A) j : (takeZ d l).[j] = if decide (j < d) then l.[j] else None.
Proof.
  unfold zlookup, takeZ. destruct (decide (0 <= j)); [|by case_decide]. case_decide.
  - by rewrite lookup_take_lt by lia.
  - by rewrite lookup_take_ge by lia.
Qed.

Lemma zlookup_dropZ {A} d (l : list A) j : 0 <= d -> 0 <= j -> (dropZ d l).[j] = l.[d + j].
Proof. intros Hd Hj. rewrite !zlookup_to_nat by lia. unfold dropZ. rewrite lookup_drop. f_equal. lia. Qed.

Lemma length_takeZ {A} d (l : list A) : 0 <= d <= Z.of_nat (length l) -> Z.of_nat (length (takeZ d l)) = d.
Proof. intros. unfold takeZ. rewrite length_take. lia. Qed.

Lemma length_dropZ {A} d (l : list A) : 0 <= d <= Z.of_nat (length l) -> Z.of_nat (length (dropZ d l)) = Z.of_nat (length l) - d.
Proof. intros. unfold dropZ. rewrite length_drop. lia. Qed.

(** ** Counted loops

    [for_range lo hi body s] is [for(i = lo; i < hi; ++i) s = body(i, s)] with a
    body that may fail; [first_in_range lo hi body] is the loop that returns the
    first result its body gives. *)

Definition for_range {S} (lo hi : Z) (body : Z -> S -> option S) (s : S) : option S :=
  foldl (fun acc i => s ← acc; body i s) (Some s) (seqZ lo (hi - lo)).

Definition first_in_range {R} (lo hi : Z) (body : Z -> option (option R)) : option (option R) :=
  foldr (fun i k => r ← body i; match r with Some v => Some (Some v) | None => k end)
        (Some None) (seqZ lo (hi - lo)).

Section loops.
Context {S R : Type}.

Lemma for_range_nil lo hi (body : Z -> S -> option S) s :
  hi <= lo -> for_range lo hi body s = Some s.
Proof. intros H. unfold for_range. by rewrite seqZ_nil by lia. Qed.

Lemma for_range_cons lo hi (body : Z -> S -> option S) s :
  lo < hi -> for_range lo hi body s = s' ← body lo s; for_range (lo + 1) hi body s'.
Proof.
  intros H. unfold for_range. rewrite seqZ_cons by lia. cbn [foldl].
  replace (Z.pred (hi - lo)) with (hi - (lo + 1)) by lia.
  replace (Z.succ lo) with (lo + 1) by lia.
  change (s0 ← Some s; body lo s0) with (body lo s).
  destruct (body lo s) as [s'|]; [done|]. change (None ≫= _) with (@None S).
  generalize (seqZ (lo + 1) (hi - (lo + 1))). intros l.
  induction l as [|i l IH]; [done|]. exact IH.
Qed.

(** The invariant rule of a counted loop. *)
Lemma for_range_inv (I : Z -> S -> Prop) lo hi (body : Z -> S -> option S) s :
  lo <= hi -> I lo s ->
  (forall i s, lo <= i < hi -> I i s -> exists s', body i s = Some s' /\ I (i + 1) s') ->
  exists s', for_range lo hi body s = Some s' /\ I hi s'.
Proof.
  intros Hle. remember (Z.to_nat (hi - lo)) as n eqn:Hn.
  revert lo s Hle Hn. induction n as [|n IH]; intros lo s Hle Hn HI Hstep.
  - assert (lo = hi) as -> by lia. exists s. by rewrite for_range_nil by lia.
  - rewrite for_range_cons by lia. destruct (Hstep lo s) as (s' & -> & HI'); [lia|done|].
    cbn. apply IH; [lia|lia|done|]. intros i s'' Hi. apply Hstep. lia.
Qed.

(** The rule of a searching loop: the result of the first index whose body gives
    one, or none when no body does. *)
Lemma first_in_range_spec lo hi (body : Z -> option (option R)) :
  (forall i, lo <= i < hi -> is_Some (body i)) ->
  (exists i v, lo <= i < hi /\ body i = Some (Some v) /\
     (forall j, lo <= j < i -> body j = Some None) /\
     first_in_range lo hi body = Some (Some v)) \/
  ((forall j, lo <= j < hi -> body j = Some None) /\
     first_in_range lo hi body = Some None).
Proof.
  intros Hdef. destruct (decide (lo <= hi)) as [Hle|Hgt].
  2: { right. split; [lia|]. unfold first_in_range. by rewrite seqZ_nil by lia. }
  remember (Z.to_nat (hi - lo)) as n eqn:Hn. revert lo Hle Hn Hdef.
  induction n as [|n IH]; intros lo Hle Hn Hdef.
  - assert (lo = hi) as -> by lia. right. split; [lia|].
    unfold first_in_range. by rewrite seqZ_nil by lia.
  - assert (first_in_range lo hi body = r ← body lo;
      match r with Some v => Some (Some v) | None => first_in_range (lo + 1) hi body end) as ->.
    { unfold first_in_range. rewrite seqZ_cons by lia. cbn [foldr].
      by replace (Z.succ lo) with (lo + 1) by lia;
         replace (Z.pred (hi - lo)) with (hi - (lo + 1)) by lia. }
    destruct (Hdef lo) as [[v|] Hv]; [lia|rewrite Hv; cbn..].
    + left. exists lo, v. split_and!; [lia|lia|done|lia|done].
    + destruct (IH (lo + 1)) as [(i & v & Hi & Hb & Hlow & Heq)|[Hall Heq]];
        [lia|lia|intros; apply Hdef; lia|left|right].
      * exists i, v. split_and!; [lia|lia|done| |done]. intros j Hj.
        destruct (decide (j = lo)) as [->|]; [done|]. apply Hlow. lia.
      * split; [|done]. intros j Hj.
        destruct (decide (j = lo)) as [->|]; [done|]. apply Hall. lia.
Qed.

End loops.

(** A loop that updates each array element in its range from its old value. *)
Lemma for_range_update {A} (f : Z -> A -> option A) (h : Z -> A -> A) (l : list A) lo hi :
  0 <= lo <= hi -> hi <= Z.of_nat (length l) ->
  (forall i x, lo <= i < hi -> l.[i] = Some x -> f i x = Some (h i x)) ->
  exists l',
    for_range lo hi (fun i l => x ← l.[i]; x' ← f i x; zupdate l i x') l = Some l' /\
    length l' = length l /\
    forall j, l'.[j] = if decide (lo <= j < hi) then h j <$> l.[j] else l.[j].
Proof.
  intros Hlo Hhi Hf.
  destruct (for_range_inv (fun i l' => length l' = length l /\
    forall j, l'.[j] = if decide (lo <= j < i) then h j <$> l.[j] else l.[j])
    lo hi (fun i l => x ← l.[i]; x' ← f i x; zupdate l i x') l) as (l' & Hl' & Hlen & Hat).
  - lia.
  - split; [done|]. intros j. by rewrite decide_False by lia.
  - intros i s Hi [Hlen Hat].
    destruct (zlookup_lt l i) as [x Hx]; [lia|].
    pose proof (Hat i) as Hati. rewrite decide_False in Hati by lia.
    rewrite Hati, Hx. cbn. rewrite (Hf i x) by (done || lia). cbn.
    rewrite zupdate_lt by lia. eexists. split; [done|]. split.
    + by rewrite length_insert.
    + intros j. rewrite zlookup_insert by lia. case_decide as Hij.
      * subst j. rewrite decide_True by lia. by rewrite Hx.
      * rewrite Hat. destruct (decide (lo <= j < i)).
        -- by rewrite decide_True by lia.
        -- by rewrite decide_False by lia.
  - exists l'. done.
Qed.

(** ** Filtered lists *)

Lemma filter_fmap_length {A B} (P : B -> Prop) (Q : A -> Prop)
    `{!forall x, Decision (P x), !forall x, Decision (Q x)} (f : A -> B) (l : list A) :
  (forall x, x ∈ l -> P (f x) <-> Q x) -> length (filter P (f <$> l)) = length (filter Q l).
Proof.
  induction l as [|x l IH]; intros Heq; [done|]. rewrite fmap_cons, !filter_cons.
  pose proof (Heq x ltac:(left)). repeat case_decide; try tauto; cbn [length];
    rewrite IH; try done; intros; apply Heq; by right.
Qed.

Lemma filter_length_ext {A} (P Q : A -> Prop)
    `{!forall x, Decision (P x), !forall x, Decision (Q x)} (l : list A) :
  (forall x, x ∈ l -> P x <-> Q x) -> length (filter P l) = length (filter Q l).
Proof.
  intros Heq. pose proof (filter_fmap_length P Q id l Heq) as Hl.
  by rewrite list_fmap_id in Hl.
Qed.

Lemma filter_all {A} (P : A -> Prop) `{!forall x, Decision (P x)} (l : list A) :
  (forall x, x ∈ l -> P x) -> filter P l = l.
Proof.
  induction l as [|x l IH]; intros Hn; [done|]. rewrite filter_cons, decide_True.
  - f_equal. apply IH. intros y Hy. apply Hn. by right.
  - apply Hn. by left.
Qed.

Lemma filter_none {A} (P : A -> Prop) `{!forall x, Decision (P x)} (l : list A) :
  (forall x, x ∈ l -> ~ P x) -> filter P l = [].
Proof.
  induction l as [|x l IH]; intros Hn; [done|]. rewrite filter_cons, decide_False.
  - apply IH. intros y Hy. apply Hn. by right.
  - apply Hn. by left.
Qed.

(** ** Arrays of optional elements *)

Section optional_elements.
Context {A : Type}.
Implicit Types (l : list (option A)) (i : nat).

Lemma omap_id_split l i a :
  l !! i = Some a ->
  omap id l = omap id (take i l) ++ omap id [a] ++ omap id (drop (S i) l).
Proof.
  intros Hi. rewrite <- (take_drop_middle l i a Hi) at 1.
  rewrite omap_app. by destruct a.
Qed.

Lemma omap_id_insert l i a b :
  l !! i = Some a ->
  omap id (<[i:=b]> l) = omap id (take i l) ++ omap id [b] ++ omap id (drop (S i) l).
Proof.
  intros Hi. rewrite insert_take_drop by (by eapply lookup_lt_Some).
  rewrite omap_app. by destruct b.
Qed.

Lemma elem_of_omap_id l x : x ∈ omap id l <-> Some x ∈ l.
Proof. rewrite list_elem_of_omap. split; [|eauto].
  intros (y & Hy & Heq). by rewrite <- Heq.
Qed.

Lemma omap_id_not_full l : (length (omap id l) < length l)%nat -> exists i, l !! i = Some None.
Proof.
  induction l as [|[x|] l IH]; cbn; intros Hlt; [lia| |by exists 0%nat].
  destruct IH as [i Hi]; [|by exists (S i)]. unfold omap in *. cbn in Hlt. lia.
Qed.

Lemma omap_id_drop_skip l (a b : nat) :
  (forall i, (a <= i < b)%nat -> l !! i = Some None) ->
  (a <= b)%nat -> omap id (drop a l) = omap id (drop b l).
Proof.
  intros Hraw Hab. remember (b - a)%nat as n eqn:Hn. revert a Hab Hn Hraw.
  induction n as [|n IH]; intros a Hab Hn Hraw.
  - by replace b with a by lia.
  - rewrite (drop_S l None a) by (apply Hraw; lia). cbn. rewrite (IH (S a)); [done|lia|lia|].
    intros i Hi. apply Hraw. lia.
Qed.

Lemma omap_id_replicate_None n : omap id (replicate n (@None A)) = [].
Proof. induction n as [|n IH]; [done|]. cbn. exact IH. Qed.

End optional_elements.

Lemma omap_id_keys_NoDup {K V} (l : list (option (K * V))) :
  (forall i j kv kv', l !! i = Some (Some kv) -> l !! j = Some (Some kv') -> kv.1 = kv'.1 -> i = j) ->
  NoDup (omap id l).*1.
Proof.
  induction l as [|[kv|] l IH]; intros Hu; cbn; [constructor| |].
  - constructor.
    + intros Hin. apply list_elem_of_fmap in Hin as (kv' & Heq & Hkv').
      apply elem_of_omap_id, list_elem_of_lookup in Hkv' as [j Hj].
      by specialize (Hu 0%nat (S j) kv kv' eq_refl Hj Heq).
    + apply IH. intros i j kv1 kv2 Hi Hj Heq. specialize (Hu (S i) (S j) kv1 kv2 Hi Hj Heq). lia.
  - apply IH. intros i j kv1 kv2 Hi Hj Heq. specialize (Hu (S i) (S j) kv1 kv2 Hi Hj Heq). lia.
Qed.

(** ** Lists of results, and joined lists *)

(** A computation that succeeds on every element succeeds on the list. *)
Lemma mapM_Forall2 {A B} (f : A -> option B) (R : A -> B -> Prop) (l : list A) :
  (forall x, x ∈ l -> exists y, f x = Some y /\ R x y) -> exists l', mapM f l = Some l' /\ Forall2 R l l'.
Proof.
  induction l as [|x l IH]; intros Hl; [by exists []|].
  destruct (Hl x) as (y & Hy & HR); [by left|]. destruct IH as (l' & Hl' & HR').
  { intros z Hz. apply Hl. by right. }
  exists (y :: l'). split; [|by constructor]. cbn. by rewrite Hy; cbn; rewrite Hl'.
Qed.

Lemma join_app_perm {A B} (f g : A -> list B) (l : list A) :
  mjoin ((fun x => f x ++ g x) <$> l) ≡ₚ mjoin (f <$> l) ++ mjoin (g <$> l).
Proof.
  induction l as [|x l IH]; [done|]. cbn. rewrite IH, <- !app_assoc. apply Permutation_app_head.
  rewrite !app_assoc. apply Permutation_app_tail, Permutation_app_comm.
Qed.

Lemma join_perm {A B} (f g : A -> list B) (l : list A) :
  (forall x, x ∈ l -> f x ≡ₚ g x) -> mjoin (f <$> l) ≡ₚ mjoin (g <$> l).
Proof.
  induction l as [|x l IH]; intros Hfg; [done|]. cbn. rewrite (Hfg x) by left. rewrite IH; [done|].
  intros y Hy. apply Hfg. by right.
Qed.

Lemma join_Forall2_perm {A B C} (f : A -> list C) (g : B -> list C) (l : list A) (k : list B) :
  Forall2 (fun x y => g y ≡ₚ f x) l k -> mjoin (g <$> k) ≡ₚ mjoin (f <$> l).
Proof. induction 1 as [|x y l k Hxy _ IH]; [done|]. cbn. by rewrite Hxy, IH. Qed.

Lemma join_nil {A B} (f : A -> list B) (l : list A) : (forall x, x ∈ l -> f x = []) -> mjoin (f <$> l) = [].
Proof.
  induction l as [|x l IH]; intros Hf; [done|]. cbn. rewrite Hf by left. apply IH. intros y Hy. apply Hf. by right.
Qed.

(** Grouping the elements of a list by a key and joining the groups. *)
Lemma join_groups {A K} `{EqDecision K} (key : A -> option K) (keys : list K) (l : list A) :
  NoDup keys -> (forall a k, a ∈ l -> key a = Some k -> k ∈ keys) ->
  mjoin ((fun k => filter (fun a => key a = Some k) l) <$> keys) ≡ₚ filter (fun a => is_Some (key a)) l.
Proof.
  intros Hnd. induction l as [|a l IH]; intros Hin.
  { rewrite (join_nil (fun k => filter (fun a => key a = Some k) [])); done. }
  transitivity (mjoin ((fun k => (if decide (key a = Some k) then [a] else []) ++ filter (fun a => key a = Some k) l) <$> keys)).
  { apply join_perm. intros k _. rewrite filter_cons. by case_decide. }
  rewrite join_app_perm, IH by (intros b k Hb; apply Hin; by right). rewrite filter_cons.
  destruct (key a) as [k0|] eqn:Ek.
  - rewrite decide_True by done. assert (k0 ∈ keys) as Hk0 by (by apply (Hin a); [left|]).
    apply list_elem_of_split in Hk0 as (k1 & k2 & ->). apply NoDup_app in Hnd as (_ & Hd1 & [Hd2 _]%NoDup_cons).
    rewrite fmap_app, join_app. cbn. rewrite decide_True by done.
    rewrite !join_nil; [done| |].
    + intros k Hk. rewrite decide_False; [done|]. intros [= ->]. done.
    + intros k Hk. rewrite decide_False; [done|]. intros [= ->]. apply (Hd1 k Hk). left.
  - rewrite decide_False by (by intros [? [=]]). by rewrite join_nil.
Qed.

Lemma join_cons {A} (x : list A) (l : list (list A)) : mjoin (x :: l) = x ++ mjoin l.
Proof. done. Qed.

Lemma join_filter {A B} (P : A -> Prop) `{!forall x, Decision (P x)} (f : A -> list B) (l : list A) :
  mjoin ((fun x => if decide (P x) then f x else []) <$> l) = mjoin (f <$> filter P l).
Proof. induction l as [|x l IH]; [done|]. rewrite filter_cons, fmap_cons, join_cons, IH. by case_decide. Qed.

Lemma join_join {A B D} (f : B -> list D) (g : A -> list B) (l : list A) :
  mjoin (f <$> mjoin (g <$> l)) = mjoin ((fun x => mjoin (f <$> g x)) <$> l).
Proof. induction l as [|x l IH]; [done|]. by rewrite !fmap_cons, !join_cons, fmap_app, join_app, IH. Qed.
