(* ===== verification/Doubles.v ===== *)
(** * Integers in double precision

    Some code computes with integers through [double].  A [double] has 53 significant
    bits, and its operations round the exact result to the nearest such number, ties to
    even.  The numbers here are far from the largest and the smallest doubles, so that
    only the number of bits matters. *)

From S2P Require Import Prelude.

Module Doubles.

(** The conversion of an integer. *)
Definition to_double (x : Z) : Z :=
  let e := Z.log2 (Z.abs x) - 52 in
  if e <=? 0 then x
  else let q := Z.abs x / 2 ^ e in
       let r := Z.abs x mod 2 ^ e in
       let q := if (2 ^ (e - 1) <? r) || ((r =? 2 ^ (e - 1)) && Z.odd q) then q + 1 else q in
       Z.sgn x * (q * 2 ^ e).

(** The integer nearest to [n / d], for a positive [d]; ties to even. *)
Definition nearest_quot (n d : Z) : Z :=
  let q := n / d in let r := n mod d in
  if (d <? 2 * r) || ((2 * r =? d) && Z.odd q) then q + 1 else q.

(** The exponent of the largest power of two that is at most [n / d]. *)
Definition quot_log2 (n d : Z) : Z :=
  let e := Z.log2 n - Z.log2 d in
  if n * 2 ^ Z.max 0 (- e) <? d * 2 ^ Z.max 0 e then e - 1 else e.

(** [ceil(n / d)] for positive doubles [n] and [d] with integer values: the quotient is
    rounded to 53 bits, a multiple of [2 ^ e], before its ceiling is taken. *)
Definition ceil_quot (n d : Z) : Z :=
  let e := quot_log2 n d - 52 in
  if e <=? 0 then let m := nearest_quot (n * 2 ^ (- e)) d in (m + 2 ^ (- e) - 1) / 2 ^ (- e)
  else nearest_quot n (d * 2 ^ e) * 2 ^ e.

Lemma to_double_exact x : Z.abs x < 2 ^ 53 -> to_double x = x.
Proof.
  intros Hx. unfold to_double. destruct (decide (x = 0)) as [->|Hne]; [done|].
  assert (Z.log2 (Z.abs x) < 53) by (apply Z.log2_lt_pow2; lia).
  by destruct (Z.leb_spec (Z.log2 (Z.abs x) - 52) 0); [|lia].
Qed.

Lemma nearest_quot_le n d k : 0 < d -> n <= k * d -> nearest_quot n d <= k.
Proof.
  intros Hd Hn. unfold nearest_quot. pose proof (Z.div_mod n d ltac:(lia)). pose proof (Z.mod_pos_bound n d Hd).
  destruct (Z.ltb_spec d (2 * (n mod d))), (Z.eqb_spec (2 * (n mod d)) d); cbn; [nia..|destruct (Z.odd _)|]; nia.
Qed.

Lemma nearest_quot_gt n d k : 0 < d -> (2 * k + 1) * d < 2 * n -> k < nearest_quot n d.
Proof.
  intros Hd Hn. unfold nearest_quot. pose proof (Z.div_mod n d ltac:(lia)). pose proof (Z.mod_pos_bound n d Hd).
  destruct (Z.ltb_spec d (2 * (n mod d))), (Z.eqb_spec (2 * (n mod d)) d); cbn; [nia..|destruct (Z.odd _)|]; nia.
Qed.

Lemma pow2_split a b : 0 <= a -> 0 <= b -> 2 ^ (a + b) = 2 ^ a * 2 ^ b.
Proof. intros. by apply Z.pow_add_r. Qed.

Lemma quot_log2_spec n d k : 0 < n -> 0 < d -> 0 <= k -> 0 <= k + quot_log2 n d ->
  d * 2 ^ (k + quot_log2 n d) <= n * 2 ^ k.
Proof.
  intros Hn Hd Hk Hkl. unfold quot_log2 in *. set (e := Z.log2 n - Z.log2 d) in *.
  pose proof (Z.log2_spec n Hn) as [Ln Un]. pose proof (Z.log2_spec d Hd) as [Ld Ud].
  pose proof (Z.log2_nonneg n). pose proof (Z.log2_nonneg d).
  destruct (Z.ltb_spec (n * 2 ^ Z.max 0 (- e)) (d * 2 ^ Z.max 0 e)) as [Hc|Hc].
  - (* one less than the difference of the logarithms is always low enough *)
    assert (2 ^ (Z.log2 d + 1) * 2 ^ (k + (e - 1)) <= 2 ^ Z.log2 n * 2 ^ k) as Hp.
    { rewrite <- !pow2_split by lia. apply Z.pow_le_mono_r; lia. }
    replace (Z.succ (Z.log2 d)) with (Z.log2 d + 1) in Ud by lia.
    pose proof (Z.pow_pos_nonneg 2 k ltac:(lia) Hk). pose proof (Z.pow_pos_nonneg 2 (k + (e - 1)) ltac:(lia) Hkl). nia.
  - destruct (Z.le_ge_cases 0 e).
    + rewrite (Z.max_l 0 (- e)), (Z.max_r 0 e), Z.mul_1_r in Hc by lia. rewrite pow2_split by lia.
      pose proof (Z.pow_pos_nonneg 2 k ltac:(lia) Hk). nia.
    + rewrite (Z.max_r 0 (- e)), (Z.max_l 0 e), Z.mul_1_r in Hc by lia.
      replace (2 ^ k) with (2 ^ (k + e) * 2 ^ (- e)) by (rewrite <- pow2_split by lia; f_equal; lia).
      pose proof (Z.pow_pos_nonneg 2 (k + e) ltac:(lia) Hkl). nia.
Qed.

Lemma quot_log2_upper n d : 0 < n -> 0 < d -> quot_log2 n d <= Z.log2 n.
Proof. intros Hn Hd. unfold quot_log2. pose proof (Z.log2_nonneg d). destruct (_ <? _); lia. Qed.

(** Rounding the quotient does not change its ceiling. *)
Lemma ceil_quot_exact n d : 0 < n < 2 ^ 53 -> 0 < d -> ceil_quot n d = (n + d - 1) / d.
Proof.
  intros Hn Hd. unfold ceil_quot. set (l := quot_log2 n d).
  assert (l <= 52) as Hl.
  { pose proof (quot_log2_upper n d ltac:(lia) Hd). assert (Z.log2 n < 53) by (apply Z.log2_lt_pow2; lia). lia. }
  destruct (Z.leb_spec (l - 52) 0) as [_|]; [|lia]. replace (- (l - 52)) with (52 - l) by lia.
  pose proof (quot_log2_spec n d (52 - l) ltac:(lia) Hd ltac:(lia)) as Hs. fold l in Hs.
  replace (52 - l + l) with 52 in Hs by lia. specialize (Hs ltac:(lia)).
  set (K := 2 ^ (52 - l)) in *. assert (0 < K) by (apply Z.pow_pos_nonneg; lia).
  set (q := (n + d - 1) / d). assert ((q - 1) * d < n <= q * d) as Hq.
  { unfold q. pose proof (Z.div_mod (n + d - 1) d ltac:(lia)). pose proof (Z.mod_pos_bound (n + d - 1) d Hd). nia. }
  assert (d < 2 * K) as HK.
  { change (2 ^ 53) with (2 * 2 ^ 52) in Hn. assert (0 < 2 ^ 52) by done. generalize dependent (2 ^ 52). intros. nia. }
  pose proof (nearest_quot_le (n * K) d (q * K) Hd ltac:(nia)) as Hu.
  pose proof (nearest_quot_gt (n * K) d ((q - 1) * K) Hd ltac:(nia)) as Hlow.
  symmetry. apply (Z.div_unique_pos _ _ _ (nearest_quot (n * K) d + K - 1 - K * q)); lia.
Qed.

End Doubles.
