(* ===== verification/BitUtilities.v ===== *)
(** * Bit utilities ([src/axom/core/utilities/BitUtilities.hpp])

    The explicit (non-intrinsic) implementations of [countr_zero], [popcount]
    and [countl_zero] with the widths and masks of the source, and their
    equivalence with the bit-level meaning that the other branches of the
    conditional compilation delegate to compiler intrinsics. *)

From S2P Require Import Prelude.

Module BitUtilities.

(** ** Definitions *)

(** [BitTraits<T>]: number of bytes, bits and log of bits of a word type. *)
Record BitTraits := mkBitTraits {
  NUM_BYTES : Z;
  BITS_PER_WORD : Z;
  LG_BITS_PER_WORD : Z
}.

Definition BitTraits_of (num_bytes lg : Z) : BitTraits :=
  mkBitTraits num_bytes (Z.shiftl num_bytes 3) lg.

Definition BitTraits_u64 : BitTraits := BitTraits_of 8 6.
Definition BitTraits_u32 : BitTraits := BitTraits_of 4 5.
Definition BitTraits_u16 : BitTraits := BitTraits_of 2 4.
Definition BitTraits_u8 : BitTraits := BitTraits_of 1 3.

(** One [if(word & mask) { cnt -= dec; }] of [countr_zero]. *)
Definition dec_if (word mask dec cnt : Z) : Z :=
  if Z.land word mask =? 0 then cnt else cnt - dec.

Definition countr_zero (word : Z) : Z :=
  let cnt := BITS_PER_WORD BitTraits_u64 in
  let word := Z.land word (wrap 64 (- word)) in
  let cnt := if word =? 0 then cnt else cnt - 1 in
  let cnt := dec_if word 0x00000000FFFFFFFF 32 cnt in
  let cnt := dec_if word 0x0000FFFF0000FFFF 16 cnt in
  let cnt := dec_if word 0x00FF00FF00FF00FF 8 cnt in
  let cnt := dec_if word 0x0F0F0F0F0F0F0F0F 4 cnt in
  let cnt := dec_if word 0x3333333333333333 2 cnt in
  let cnt := dec_if word 0x5555555555555555 1 cnt in
  cnt.

Definition popcount (word : Z) : Z :=
  let mask0 := 0x5555555555555555 in
  let mask1 := 0x3333333333333333 in
  let mask2 := 0x0F0F0F0F0F0F0F0F in
  let mask3 := 0x0101010101010101 in
  let word := wrap 64 (word - Z.land (Z.shiftr word 1) mask0) in
  let word := wrap 64 (Z.land word mask1 + Z.land (Z.shiftr word 2) mask1) in
  let word := Z.land (wrap 64 (word + Z.shiftr word 4)) mask2 in
  Z.shiftr (wrap 64 (word * mask3)) 56.

(** One [y = word >> s; if(y != 0) { n -= s; word = y; }] of [countl_zero]. *)
Definition clz_step (s : Z) (nw : Z * Z) : Z * Z :=
  let '(n, word) := nw in
  let y := Z.shiftr word s in
  if y =? 0 then (n, word) else (n - s, y).

Definition countl_zero (word : Z) : Z :=
  let '(n, word) := clz_step 2 (clz_step 4 (clz_step 8 (clz_step 16 (32, word)))) in
  let y := Z.shiftr word 1 in
  if y =? 0 then n - word else n - 2.

(** ** Count trailing zeros *)

(** [i] is the index of the lowest set bit of [x]. *)
Definition lowest_bit (x i : Z) : Prop :=
  0 <= i /\ Z.testbit x i = true /\ forall j, 0 <= j < i -> Z.testbit x j = false.

Lemma lowest_bit_exists w x :
  0 <= w -> in_word w x -> x <> 0 -> exists i, i < w /\ lowest_bit x i.
Proof.
  intros Hw Hx Hne. destruct (nonzero_has_bit w x Hw Hx Hne) as (k & Hk & Hb).
  assert (0 <= k) as Hk0 by lia. revert Hk Hb. pattern k.
  apply Zlt_0_ind; [|done]. clear k Hk0. intros k IH Hk0 Hk Hb.
  destruct (decide (Exists (fun j => Z.testbit x j = true) (seqZ 0 k))) as [He|Hn].
  - apply Exists_exists in He as (j & Hj & Hbj). apply elem_of_seqZ in Hj.
    apply (IH j); [lia|lia|done].
  - exists k. split; [lia|]. split; [lia|]. split; [done|]. intros j Hj.
    destruct (Z.testbit x j) eqn:Hbj; [|done]. exfalso. apply Hn, Exists_exists.
    exists j. split; [apply elem_of_seqZ; lia|done].
Qed.

Lemma lowest_bit_unique x i j : lowest_bit x i -> lowest_bit x j -> i = j.
Proof.
  intros (Hi & Hbi & Hli) (Hj & Hbj & Hlj).
  destruct (Z.lt_trichotomy i j) as [Hlt|[->|Hlt]]; [|done|].
  - by rewrite Hlj in Hbi by lia.
  - by rewrite Hli in Hbj by lia.
Qed.

(** [x & -x] isolates the lowest set bit. *)
Lemma land_opp_lowest x i : lowest_bit x i -> Z.land x (- x) = 2 ^ i.
Proof.
  intros (Hi & Hb & Hlow).
  set (k := Z.shiftr x (i + 1)).
  assert (x = Z.lor (2 ^ i) (Z.shiftl k (i + 1))) as Hx.
  { bits_ext j Hj. rewrite Z.lor_spec, testbit_pow2 by lia.
    destruct (Z.lt_trichotomy j i) as [Hlt|[->|Hgt]].
    - rewrite bool_decide_false, Z.shiftl_spec_low by lia. rewrite Hlow by lia. done.
    - rewrite bool_decide_true by lia. by rewrite Hb.
    - rewrite bool_decide_false, Z.shiftl_spec by lia. unfold k.
      rewrite Z.shiftr_spec by lia. simpl. f_equal. lia. }
  assert (x - 1 = Z.lor (Z.ones i) (Z.shiftl k (i + 1))) as Hx1.
  { assert (Z.land (2 ^ i) (Z.shiftl k (i + 1)) = 0) as Hd1.
    { bits_ext j Hj. rewrite Z.land_spec, testbit_pow2, Z.bits_0 by lia.
      case_bool_decide as Hij; [|done]. by rewrite Z.shiftl_spec_low by lia. }
    assert (Z.land (Z.ones i) (Z.shiftl k (i + 1)) = 0) as Hd2.
    { bits_ext j Hj. rewrite Z.land_spec, Z.bits_0.
      destruct (decide (j < i)).
      - rewrite Z.shiftl_spec_low by lia. apply andb_false_r.
      - by rewrite Z.ones_spec_high by lia. }
    rewrite Hx at 1. rewrite <- Z.lxor_lor, <- Z.add_nocarry_lxor by done.
    rewrite <- Z.lxor_lor, <- Z.add_nocarry_lxor by done.
    rewrite Z.ones_equiv. lia. }
  replace (- x) with (Z.lnot (x - 1)) by (unfold Z.lnot; lia).
  bits_ext j Hj. rewrite Z.land_spec, Z.lnot_spec, Hx1, Z.lor_spec, testbit_pow2 by lia.
  destruct (Z.lt_trichotomy j i) as [Hlt|[->|Hgt]].
  - rewrite Hlow by lia. by rewrite bool_decide_false by lia.
  - rewrite Hb, bool_decide_true, Z.ones_spec_high, Z.shiftl_spec_low by lia. done.
  - rewrite bool_decide_false, Z.ones_spec_high, Z.shiftl_spec by lia. unfold k.
    rewrite Z.shiftr_spec by lia. replace (j - (i + 1) + (i + 1)) with j by lia.
    by destruct (Z.testbit x j).
Qed.

Lemma land_wrap_opp_lowest x i :
  in_word 64 x -> lowest_bit x i -> Z.land x (wrap 64 (- x)) = 2 ^ i.
Proof.
  intros Hx Hl. rewrite <- (land_opp_lowest x i Hl). bits_ext j Hj.
  rewrite !Z.land_spec, wrap_testbit by lia. case_decide; [done|].
  by rewrite (in_word_testbit_high 64) by (done || lia).
Qed.

(** The count on the 64 isolated bits, by evaluation. *)
Lemma countr_zero_pow2 i : 0 <= i < 64 -> countr_zero (2 ^ i) = i.
Proof.
  intros Hi.
  assert (forallb (fun i => countr_zero (2 ^ i) =? i) (seqZ 0 64) = true) as Hall
    by (vm_compute; done).
  rewrite forallb_forall in Hall. apply Z.eqb_eq, Hall.
  apply list_elem_of_In, elem_of_seqZ. lia.
Qed.

Lemma countr_zero_isolate x :
  countr_zero x = countr_zero (Z.land x (wrap 64 (- x))) \/
  Z.land x (wrap 64 (- x)) <>
  Z.land (Z.land x (wrap 64 (- x))) (wrap 64 (- Z.land x (wrap 64 (- x)))).
Proof.
  unfold countr_zero at 1 2. destruct (decide (Z.land x (wrap 64 (- x)) =
    Z.land (Z.land x (wrap 64 (- x))) (wrap 64 (- Z.land x (wrap 64 (- x)))))) as [Heq|];
    [left|by right]. cbv zeta. by rewrite <- Heq.
Qed.

Lemma lowest_bit_pow2 i : 0 <= i -> lowest_bit (2 ^ i) i.
Proof.
  intros Hi. split; [done|]. split; [by rewrite testbit_pow2, bool_decide_true|].
  intros j Hj. by rewrite testbit_pow2, bool_decide_false by lia.
Qed.

Lemma countr_zero_lowest x i :
  in_word 64 x -> lowest_bit x i -> i < 64 -> countr_zero x = i.
Proof.
  intros Hx Hl Hi. assert (0 <= i) by apply Hl.
  pose proof (land_wrap_opp_lowest x i Hx Hl) as Hiso.
  destruct (countr_zero_isolate x) as [->|Hbad].
  - rewrite Hiso. apply countr_zero_pow2. lia.
  - exfalso. apply Hbad. rewrite Hiso. symmetry.
    apply land_wrap_opp_lowest; [apply in_word_pow2; lia|by apply lowest_bit_pow2].
Qed.

Lemma countr_zero_0 : countr_zero 0 = 64.
Proof. reflexivity. Qed.

Lemma countr_zero_nonzero x :
  in_word 64 x -> x <> 0 -> lowest_bit x (countr_zero x) /\ countr_zero x < 64.
Proof.
  intros Hx Hne. destruct (lowest_bit_exists 64 x) as (i & Hi & Hl); [lia|done|done|].
  by rewrite (countr_zero_lowest x i).
Qed.

(** ** Population count *)

(** Digits in base [2^k], least significant first. *)
Fixpoint comb (k : Z) (l : list Z) : Z :=
  match l with
  | [] => 0
  | d :: l' => d + 2 ^ k * comb k l'
  end.

Definition digits_ok (k : Z) (l : list Z) : Prop := Forall (in_word k) l.

(** Neighbouring digits joined: base [2^k] to base [2^(2k)]. *)
Fixpoint pairs (k : Z) (l : list Z) : list Z :=
  match l with
  | a :: b :: l' => (a + 2 ^ k * b) :: pairs k l'
  | _ => l
  end.

(** The bits of a 64-bit word and their number. *)
Definition bits_of (n : nat) (w : Z) : list Z :=
  (fun i => Z.b2z (Z.testbit w (Z.of_nat i))) <$> seq 0 n.

Definition num_set_bits (w : Z) : Z := sumZ (bits_of 64 w).

Lemma digit_lor k d X :
  0 <= k -> in_word k d -> d + 2 ^ k * X = Z.lor d (Z.shiftl X k).
Proof.
  intros Hk Hd.
  assert (Z.land d (Z.shiftl X k) = 0) as Hdis.
  { bits_ext j Hj. rewrite Z.land_spec, Z.bits_0. destruct (decide (j < k)).
    - rewrite Z.shiftl_spec_low by lia. apply andb_false_r.
    - by rewrite (in_word_testbit_high k) by (done || lia). }
  rewrite <- Z.lxor_lor, <- Z.add_nocarry_lxor by done.
  rewrite Z.shiftl_mul_pow2 by done. lia.
Qed.

Lemma digit_testbit k d X i :
  0 <= k -> in_word k d -> 0 <= i ->
  Z.testbit (d + 2 ^ k * X) i = if decide (i < k) then Z.testbit d i else Z.testbit X (i - k).
Proof.
  intros Hk Hd Hi. rewrite digit_lor, Z.lor_spec by done. case_decide.
  - rewrite Z.shiftl_spec_low by lia. apply orb_false_r.
  - by rewrite (in_word_testbit_high k), Z.shiftl_spec by (done || lia).
Qed.

Lemma land_shift_digit k j d X m M :
  0 <= j <= k -> in_word k d -> in_word (k - j) m ->
  Z.land (Z.shiftr (d + 2 ^ k * X) j) (m + 2 ^ k * M) =
  Z.land (Z.shiftr d j) m + 2 ^ k * Z.land (Z.shiftr X j) M.
Proof.
  intros Hj Hd Hm.
  assert (in_word k m) as Hmk.
  { split; [apply Hm|]. destruct Hm as [_ Hm].
    pose proof (Z.pow_le_mono_r 2 (k - j) k). lia. }
  bits_ext i Hi. rewrite digit_testbit.
  2: lia. 2: { rewrite Z.land_comm. apply in_word_land_any; [lia|done]. } 2: done.
  rewrite Z.land_spec, Z.shiftr_spec by done. rewrite digit_testbit by first [done|lia].
  rewrite digit_testbit by first [done|lia].
  destruct (decide (i < k)).
  - rewrite Z.land_spec, Z.shiftr_spec by done. destruct (Z.testbit m i) eqn:Hb.
    + rewrite decide_True; [done|]. destruct (decide (i + j < k)); [done|].
      rewrite (in_word_testbit_high (k - j)) in Hb by (done || lia). done.
    + by rewrite !andb_false_r.
  - rewrite decide_False, Z.land_spec, Z.shiftr_spec by lia. do 2 f_equal. lia.
Qed.

Lemma land_shift_comb k j l m :
  0 <= j <= k -> digits_ok k l -> in_word (k - j) m ->
  Z.land (Z.shiftr (comb k l) j) (comb k (replicate (length l) m)) =
  comb k ((fun d => Z.land (Z.shiftr d j) m) <$> l).
Proof.
  intros Hj Hl Hm. induction Hl as [|d l Hd Hl IH]; [apply Z.land_0_r|].
  cbn [length replicate comb fmap list_fmap]. rewrite land_shift_digit by done.
  f_equal. f_equal. apply IH.
Qed.

Lemma land_comb k l m :
  0 <= k -> length l = length m -> digits_ok k l -> digits_ok k m ->
  Z.land (comb k l) (comb k m) = comb k (zip_with Z.land l m).
Proof.
  intros Hk. revert m. induction l as [|d l IH]; intros [|e m] Hlen Hl Hm; try done.
  inversion Hl as [|?? Hd Hl']; inversion Hm as [|?? He Hm']; subst. cbn [zip_with comb].
  rewrite <- IH by (simpl in *; done || lia).
  pose proof (land_shift_digit k 0 d (comb k l) e (comb k m)) as Hds.
  rewrite !Z.shiftr_0_r, Z.sub_0_r in Hds. apply Hds; (done || lia).
Qed.

Lemma comb_add k l m :
  length l = length m -> comb k l + comb k m = comb k (zip_with Z.add l m).
Proof.
  revert m. induction l as [|d l IH]; intros [|e m] Hlen; try done.
  simpl in *. rewrite <- IH by lia. lia.
Qed.

Lemma comb_sub k l m :
  length l = length m -> comb k l - comb k m = comb k (zip_with Z.sub l m).
Proof.
  revert m. induction l as [|d l IH]; intros [|e m] Hlen; try done.
  simpl in *. rewrite <- IH by lia. lia.
Qed.

Lemma comb_bound k l : 0 <= k -> digits_ok k l -> 0 <= comb k l < 2 ^ (k * Z.of_nat (length l)).
Proof.
  intros Hk Hl. induction Hl as [|d l Hd Hl IH].
  - replace (k * _) with 0 by (simpl; lia). simpl. lia.
  - cbn [comb length]. replace (k * Z.of_nat (S (length l)))
      with (k + k * Z.of_nat (length l)) by lia.
    rewrite Z.pow_add_r by lia. destruct Hd. nia.
Qed.

Lemma shiftr_comb k d l : 0 <= k -> in_word k d -> Z.shiftr (comb k (d :: l)) k = comb k l.
Proof.
  intros Hk Hd. cbn [comb]. rewrite Z.shiftr_div_pow2 by done.
  rewrite Z.mul_comm, Z.div_add by (apply Z.pow_nonzero; lia).
  rewrite Z.div_small by done. lia.
Qed.

Lemma comb_pairs_aux k n l :
  0 <= k -> (length l <= n)%nat -> Nat.Even (length l) -> comb (2 * k) (pairs k l) = comb k l.
Proof.
  intros Hk. revert l. induction n as [|n IH]; intros [|a [|b l]] Hn Hev; simpl in Hn; try done.
  - lia.
  - lia.
  - by destruct Hev as [m Hm]; simpl in Hm; lia.
  - cbn [pairs comb]. rewrite IH.
    + replace (2 * k) with (k + k) by lia. rewrite Z.pow_add_r by lia. lia.
    + lia.
    + destruct Hev as [m Hm]. simpl in Hm. exists (m - 1)%nat. lia.
Qed.

Lemma bits_of_length n w : length (bits_of n w) = n.
Proof. unfold bits_of. by rewrite length_fmap, length_seq. Qed.

Lemma bits_of_ok n w : digits_ok 1 (bits_of n w).
Proof.
  apply Forall_fmap, Forall_forall. intros i _. unfold in_word; simpl.
  destruct (Z.testbit _ _); simpl; lia.
Qed.

Lemma comb_snoc k l d : 0 <= k -> comb k (l ++ [d]) = comb k l + 2 ^ (k * Z.of_nat (length l)) * d.
Proof.
  intros Hk. induction l as [|e l IH]; cbn [app comb length].
  - replace (k * Z.of_nat 0) with 0 by lia. lia.
  - rewrite IH. replace (k * Z.of_nat (S (length l))) with (k + k * Z.of_nat (length l)) by lia.
    rewrite Z.pow_add_r by lia. lia.
Qed.

Lemma comb_bits_of n w : comb 1 (bits_of n w) = wrap (Z.of_nat n) w.
Proof.
  induction n as [|n IH]; [unfold wrap; by rewrite Z.mod_1_r|].
  assert (bits_of (S n) w = bits_of n w ++ [Z.b2z (Z.testbit w (Z.of_nat n))]) as ->.
  { unfold bits_of. by rewrite seq_S, fmap_app. }
  rewrite comb_snoc, IH, bits_of_length by lia. unfold wrap.
  replace (1 * Z.of_nat n) with (Z.of_nat n) by lia.
  rewrite Nat2Z.inj_succ, Z.pow_succ_r by lia.
  rewrite (Z.mul_comm 2), Z.rem_mul_r by lia.
  rewrite (Z.testbit_spec' w (Z.of_nat n)) by lia. done.
Qed.

(** The three masking steps on lists of digits: each maps the digits of one
    base to the digits of the next with the same digit sum. *)
Definition small (b : Z) (l : list Z) : Prop := Forall (fun d => 0 <= d <= b) l.

Lemma small_digits_ok b k l : b < 2 ^ k -> small b l -> digits_ok k l.
Proof. intros Hb Hl. eapply Forall_impl; [exact Hl|]. intros d Hd. unfold in_word. simpl in Hd. lia. Qed.

(** A masking step [f] adds the two halves of every joined digit. *)
Lemma pairs_step (f : Z -> Z) k b l :
  (forall x y, 0 <= x <= b -> 0 <= y <= b -> f (x + 2 ^ k * y) = x + y) ->
  small b l -> forall n, length l = (2 * n)%nat ->
  sumZ (f <$> pairs k l) = sumZ l /\ small (2 * b) (f <$> pairs k l) /\
  length (f <$> pairs k l) = n.
Proof.
  intros Hf Hl n. revert l Hl. induction n as [|n IH]; intros [|x [|y l]] Hl Hlen;
    simpl in Hlen; try lia.
  - repeat split. constructor.
  - inversion_clear Hl as [|?? Hx Hl']. inversion_clear Hl' as [|?? Hy Hl].
    destruct (IH l Hl) as (Hs & Hsm & Hln); [lia|].
    cbn [pairs]. rewrite fmap_cons, Hf by done. cbn [sumZ length]. split_and!.
    + lia.
    + constructor; [lia|done].
    + lia.
Qed.

Lemma pairs_small k b l n :
  0 <= b -> 0 <= k -> length l = (2 * n)%nat -> small b l -> small (b + 2 ^ k * b) (pairs k l).
Proof.
  intros Hb Hk. assert (0 < 2 ^ k) by (apply Z.pow_pos_nonneg; lia).
  revert l. induction n as [|n IH]; intros [|x [|y l]] Hlen Hl; simpl in Hlen; try lia.
  - constructor.
  - inversion_clear Hl as [|?? Hx Hl']. inversion_clear Hl' as [|?? Hy Hl].
    cbn [pairs]. constructor; [nia|]. apply IH; [lia|done].
Qed.

Lemma pairs_length k l n : length l = (2 * n)%nat -> length (pairs k l) = n.
Proof.
  revert l. induction n as [|n IH]; intros [|x [|y l]] Hlen; simpl in Hlen; try lia; [done|].
  cbn [pairs length]. rewrite IH; lia.
Qed.

Lemma comb_fmap_sub k (f g : Z -> Z) (l : list Z) :
  comb k (f <$> l) - comb k (g <$> l) = comb k ((fun d => f d - g d) <$> l).
Proof.
  induction l as [|d l IH]; [done|]. rewrite !fmap_cons.
  cbn [comb]. lia.
Qed.

Lemma comb_fmap_add k (f g : Z -> Z) (l : list Z) :
  comb k (f <$> l) + comb k (g <$> l) = comb k ((fun d => f d + g d) <$> l).
Proof.
  induction l as [|d l IH]; [done|]. rewrite !fmap_cons.
  cbn [comb]. lia.
Qed.

Lemma comb_pairs k n l :
  0 <= k -> length l = (2 * n)%nat -> comb (2 * k) (pairs k l) = comb k l.
Proof. intros Hk Hl. apply (comb_pairs_aux k (length l)); [done|done|]. exists n. lia. Qed.

(** First step: pairs of bits. *)
Lemma popcount_step1 l :
  length l = 64%nat -> small 1 l ->
  let w := comb 1 l in
  let l1 := (fun d => d - Z.land (Z.shiftr d 1) 1) <$> pairs 1 l in
  wrap 64 (w - Z.land (Z.shiftr w 1) 0x5555555555555555) = comb 2 l1 /\
  sumZ l1 = sumZ l /\ small 2 l1 /\ length l1 = 32%nat.
Proof.
  intros Hlen Hl w l1.
  assert (length (pairs 1 l) = 32%nat) as Hlp by (by apply pairs_length).
  destruct (pairs_step (fun d => d - Z.land (Z.shiftr d 1) 1) 1 1 l) with (n := 32%nat)
    as (Hs & Hsm & Hln); [|done|done|].
  { intros x y Hx Hy. assert (x = 0 \/ x = 1) as [->| ->] by lia;
    assert (y = 0 \/ y = 1) as [->| ->] by lia; reflexivity. }
  split; [|done].
  assert (digits_ok 2 (pairs 1 l)) as Hok.
  { apply (small_digits_ok 3); [lia|]. apply (pairs_small 1 1 l 32); (done || lia). }
  assert (w = comb 2 (pairs 1 l)) as Hw by (symmetry; by apply (comb_pairs 1 32)).
  change 0x5555555555555555 with (comb 2 (replicate 32 1)). rewrite <- Hlp, Hw.
  rewrite land_shift_comb by (done || lia || (unfold in_word; lia)).
  rewrite <- (list_fmap_id (pairs 1 l)) at 1. rewrite comb_fmap_sub.
  apply wrap_id; [lia|]. unfold in_word.
  assert (digits_ok 2 l1) as Hok1 by (apply (small_digits_ok 2); [lia|done]).
  pose proof (comb_bound 2 l1 ltac:(lia) Hok1) as Hb. change (length l1) with (length ((fun d => d - Z.land (Z.shiftr d 1) 1) <$> pairs 1 l)) in Hb.
  rewrite Hln in Hb. apply Hb.
Qed.

(** Second step: pairs of 2-bit counts. *)
Lemma popcount_step2 l :
  length l = 32%nat -> small 2 l ->
  let w := comb 2 l in
  let l1 := (fun d => Z.land d 3 + Z.land (Z.shiftr d 2) 3) <$> pairs 2 l in
  wrap 64 (Z.land w 0x3333333333333333 + Z.land (Z.shiftr w 2) 0x3333333333333333)
  = comb 4 l1 /\
  sumZ l1 = sumZ l /\ small 4 l1 /\ length l1 = 16%nat.
Proof.
  intros Hlen Hl w l1.
  assert (length (pairs 2 l) = 16%nat) as Hlp by (by apply pairs_length).
  destruct (pairs_step (fun d => Z.land d 3 + Z.land (Z.shiftr d 2) 3) 2 2 l)
    with (n := 16%nat) as (Hs & Hsm & Hln); [|done|done|].
  { intros x y Hx Hy. assert (x = 0 \/ x = 1 \/ x = 2) as [->|[->| ->]] by lia;
    assert (y = 0 \/ y = 1 \/ y = 2) as [->|[->| ->]] by lia; reflexivity. }
  split; [|done].
  assert (digits_ok 4 (pairs 2 l)) as Hok.
  { apply (small_digits_ok 10); [lia|]. apply (pairs_small 2 2 l 16); (done || lia). }
  assert (w = comb 4 (pairs 2 l)) as Hw by (symmetry; by apply (comb_pairs 2 16)).
  change 0x3333333333333333 with (comb 4 (replicate 16 3)). rewrite <- Hlp, Hw.
  rewrite land_shift_comb by (done || lia || (unfold in_word; lia)).
  pose proof (land_shift_comb 4 0 (pairs 2 l) 3) as Hl0. rewrite Z.shiftr_0_r in Hl0.
  rewrite Hl0 by (done || lia || (unfold in_word; lia)).
  rewrite comb_fmap_add. unfold l1. setoid_rewrite Z.shiftr_0_r.
  apply wrap_id; [lia|]. unfold in_word.
  assert (digits_ok 4 l1) as Hok1 by (apply (small_digits_ok 4); [lia|done]).
  pose proof (comb_bound 4 l1 ltac:(lia) Hok1) as Hb. change (length l1) with (length ((fun d => Z.land d 3 + Z.land (Z.shiftr d 2) 3) <$> pairs 2 l)) in Hb.
  rewrite Hln in Hb. apply Hb.
Qed.

(** Third step: the sums of neighbouring nibbles, kept in the low nibble of
    every byte. *)
Lemma land_15_small x : 0 <= x <= 15 -> Z.land x 15 = x.
Proof.
  intros Hx. change 15 with (Z.ones 4). rewrite Z.land_ones by lia. apply Z.mod_small. lia.
Qed.

Fixpoint nibble_sums (l : list Z) : list Z :=
  match l with
  | a :: b :: l' => (a + b) :: nibble_sums l'
  | _ => []
  end.

Lemma popcount_step3 l :
  length l = 16%nat -> small 4 l ->
  Z.land (wrap 64 (comb 4 l + Z.shiftr (comb 4 l) 4)) 0x0F0F0F0F0F0F0F0F
  = comb 8 (nibble_sums l).
Proof.
  intros Hlen Hl. do 16 (destruct l as [|? l]; [done|]). destruct l; [|done]. clear Hlen.
  assert (digits_ok 4 [z; z0; z1; z2; z3; z4; z5; z6; z7; z8; z9; z10; z11; z12; z13; z14])
    as Hok by (apply (small_digits_ok 4); [lia|done]).
  rewrite shiftr_comb by (lia || by inversion Hok).
  replace (comb 4 [z0; z1; z2; z3; z4; z5; z6; z7; z8; z9; z10; z11; z12; z13; z14])
    with (comb 4 [z0; z1; z2; z3; z4; z5; z6; z7; z8; z9; z10; z11; z12; z13; z14; 0])
    by (cbn [comb]; lia).
  unfold small in Hl. rewrite !Forall_cons in Hl. destruct_and?.
  rewrite comb_add by done. cbn [zip_with].
  match goal with |- context [wrap 64 (comb 4 ?ds)] =>
    assert (digits_ok 4 ds) as Hok'
      by (unfold digits_ok, in_word; rewrite !Forall_cons; split_and!; try lia; constructor);
    assert (wrap 64 (comb 4 ds) = comb 4 ds) as ->
      by (apply wrap_id; [lia|]; apply (comb_bound 4 ds); [lia|done])
  end.
  change 0x0F0F0F0F0F0F0F0F with (comb 4 [15;0;15;0;15;0;15;0;15;0;15;0;15;0;15;0]).
  rewrite land_comb; [|lia|done|done|].
  2: { unfold digits_ok, in_word. rewrite !Forall_cons. split_and!; try lia. constructor. }
  cbn [zip_with nibble_sums]. rewrite !Z.land_0_r, !land_15_small by lia.
  cbn [comb]. lia.
Qed.

(** Last step: the multiplication adds the bytes into the top byte. *)
Lemma popcount_step4 l :
  length l = 8%nat -> small 8 l ->
  Z.shiftr (wrap 64 (comb 8 l * 0x0101010101010101)) 56 = sumZ l.
Proof.
  intros Hlen Hl. do 8 (destruct l as [|? l]; [done|]). destruct l; [|done]. clear Hlen.
  unfold small in Hl. rewrite !Forall_cons in Hl. destruct_and?. cbn [comb sumZ].
  rewrite Z.shiftr_div_pow2 by lia. unfold wrap. change (2 ^ 8) with 256.
  change (2 ^ 64) with 18446744073709551616. change (2 ^ 56) with 72057594037927936.
  set (low := 1 * (z) + 256 * (z + z0) + 65536 * (z + z0 + z1) + 16777216 * (z + z0 + z1 + z2) +
      4294967296 * (z + z0 + z1 + z2 + z3) + 1099511627776 * (z + z0 + z1 + z2 + z3 + z4)
      + 281474976710656 * (z + z0 + z1 + z2 + z3 + z4 + z5)).
  set (top := z + z0 + z1 + z2 + z3 + z4 + z5 + z6).
  set (high := 1 * (z0 + z1 + z2 + z3 + z4 + z5 + z6) + 256 * (z1 + z2 + z3 + z4 + z5 + z6) + 65536
      * (z2 + z3 + z4 + z5 + z6) + 16777216 * (z3 + z4 + z5 + z6) + 4294967296 * (z4 + z5
      + z6) + 1099511627776 * (z5 + z6) + 281474976710656 * (z6)).
  match goal with |- (?e mod _) / _ = _ =>
    replace e with (low + 72057594037927936 * top + high * 18446744073709551616)
      by (unfold low, top, high; lia) end.
  rewrite Z.mod_add, Z.mod_small by (unfold low, top; lia).
  rewrite Z.mul_comm, Z.div_add, Z.div_small by (unfold low; lia). unfold top. lia.
Qed.

Lemma nibble_sums_props l n :
  length l = (2 * n)%nat -> small 4 l ->
  sumZ (nibble_sums l) = sumZ l /\ small 8 (nibble_sums l) /\ length (nibble_sums l) = n.
Proof.
  revert l. induction n as [|n IH]; intros [|x [|y l]] Hlen Hl; simpl in Hlen; try lia.
  - repeat split. constructor.
  - inversion_clear Hl as [|?? Hx Hl']. inversion_clear Hl' as [|?? Hy Hl].
    destruct (IH l) as (Hs & Hsm & Hln); [lia|done|].
    cbn [nibble_sums sumZ length]. split_and!; [lia|constructor; [lia|done]|lia].
Qed.

Lemma popcount_num_set_bits w : in_word 64 w -> popcount w = num_set_bits w.
Proof.
  intros Hw. unfold num_set_bits.
  assert (small 1 (bits_of 64 w)) as Hsm.
  { eapply Forall_impl; [apply bits_of_ok|]. intros d Hd. unfold in_word in Hd. simpl in Hd. lia. }
  pose proof (bits_of_length 64 w) as Hlen.
  assert (w = comb 1 (bits_of 64 w)) as Heq by (by rewrite comb_bits_of, wrap_id).
  clear Hw. generalize dependent (bits_of 64 w). intros l Hsm Hlen ->.
  unfold popcount. cbv zeta.
  destruct (popcount_step1 _ Hlen Hsm) as (-> & Hs1 & Hsm1 & Hlen1).
  destruct (popcount_step2 _ Hlen1 Hsm1) as (-> & Hs2 & Hsm2 & Hlen2).
  rewrite (popcount_step3 _ Hlen2 Hsm2).
  destruct (nibble_sums_props _ 8 Hlen2 Hsm2) as (Hs3 & Hsm3 & Hlen3).
  rewrite (popcount_step4 _ Hlen3 Hsm3), Hs3, Hs2. exact Hs1.
Qed.

(** ** Count leading zeros *)

(** A step keeps [n - log2 word] and halves the width of a positive word. *)
Lemma clz_step_spec s n x :
  0 < s -> 0 < x < 2 ^ (2 * s) ->
  let '(n', x') := clz_step s (n, x) in
  0 < x' < 2 ^ s /\ n' - Z.log2 x' = n - Z.log2 x.
Proof.
  intros Hs Hx. unfold clz_step.
  assert (0 < 2 ^ s) by (apply Z.pow_pos_nonneg; lia).
  assert (2 ^ (2 * s) = 2 ^ s * 2 ^ s) as Hpow
    by (rewrite <- Z.pow_add_r by lia; f_equal; lia).
  pose proof (Z.shiftr_div_pow2 x s ltac:(lia)) as Hdiv. destruct (Z.eqb_spec (Z.shiftr x s) 0) as [Hz|Hz].
  - split; [|done]. rewrite Hz in Hdiv. symmetry in Hdiv.
    apply Z.div_small_iff in Hdiv; lia.
  - assert (0 <= x / 2 ^ s) by (apply Z.div_pos; lia).
    assert (x / 2 ^ s < 2 ^ s) by (apply Z.div_lt_upper_bound; lia).
    split; [lia|]. rewrite Z.log2_shiftr by lia.
    assert (s <= Z.log2 x); [|lia]. apply Z.log2_le_pow2; [lia|].
    destruct (decide (x < 2 ^ s)); [|lia]. rewrite Z.div_small in Hdiv by lia. lia.
Qed.

Lemma clz_step_neg s n x : 0 <= s -> x < 0 -> exists x', clz_step s (n, x) = (n - s, x') /\ x' < 0.
Proof.
  intros Hs Hx. unfold clz_step. assert (Z.shiftr x s < 0) by (by apply Z.shiftr_neg).
  case_zbool; [lia|eauto].
Qed.

Lemma countl_zero_pos x : 0 < x < 2 ^ 31 -> countl_zero x = 31 - Z.log2 x.
Proof.
  intros Hx. unfold countl_zero.
  pose proof (clz_step_spec 16 32 x) as H1. destruct (clz_step 16 _) as [n1 x1].
  destruct H1 as [Hb1 H1]; [lia|lia|].
  pose proof (clz_step_spec 8 n1 x1) as H2. destruct (clz_step 8 _) as [n2 x2].
  destruct H2 as [Hb2 H2]; [lia|lia|].
  pose proof (clz_step_spec 4 n2 x2) as H3. destruct (clz_step 4 _) as [n3 x3].
  destruct H3 as [Hb3 H3]; [lia|lia|].
  pose proof (clz_step_spec 2 n3 x3) as H4. destruct (clz_step 2 _) as [n4 x4].
  destruct H4 as [Hb4 H4]; [lia|lia|].
  assert (x4 = 1 \/ x4 = 2 \/ x4 = 3) as [->|[->| ->]] by lia; simpl in *; lia.
Qed.

Lemma countl_zero_neg x : x < 0 -> countl_zero x = 0.
Proof.
  intros Hx. unfold countl_zero.
  destruct (clz_step_neg 16 32 x) as (x1 & -> & H1); [lia|done|].
  destruct (clz_step_neg 8 (32 - 16) x1) as (x2 & -> & H2); [lia|done|].
  destruct (clz_step_neg 4 (32 - 16 - 8) x2) as (x3 & -> & H3); [lia|done|].
  destruct (clz_step_neg 2 (32 - 16 - 8 - 4) x3) as (x4 & -> & H4); [lia|done|].
  assert (Z.shiftr x4 1 < 0) by (by apply Z.shiftr_neg). case_zbool; lia.
Qed.

(** ** Properties *)

(** Every [BitTraits] specialisation is consistent: the number of bits is eight
    per byte and a power of two with the stated logarithm. *)
Lemma BitTraits_consistent :
  Forall (fun t => BITS_PER_WORD t = 8 * NUM_BYTES t /\
                   BITS_PER_WORD t = 2 ^ LG_BITS_PER_WORD t)
         [BitTraits_u64; BitTraits_u32; BitTraits_u16; BitTraits_u8].
Proof. repeat constructor. Qed.

(** The branch-free bit tricks are exact on every word: [countr_zero] is the
    index of the lowest set bit of a 64-bit word (64 for zero), [popcount] is its
    number of set bits, and [countl_zero] of a 32-bit integer is 31 minus its
    logarithm (32 for zero, 0 when the sign bit is set). *)
Theorem bit_counting_correct w x :
  in_word 64 w -> - 2 ^ 31 <= x < 2 ^ 31 ->
  (w = 0 -> countr_zero w = 64) /\
  (w <> 0 -> lowest_bit w (countr_zero w) /\ countr_zero w < 64) /\
  popcount w = num_set_bits w /\
  countl_zero x = (if decide (x < 0) then 0 else if decide (x = 0) then 32 else 31 - Z.log2 x).
Proof.
  intros Hw Hx. split_and!.
  - by intros ->.
  - by apply countr_zero_nonzero.
  - by apply popcount_num_set_bits.
  - repeat case_decide; [by apply countl_zero_neg|by subst|apply countl_zero_pos; lia].
Qed.

Lemma bit_counting_correct_witness : popcount 44 = num_set_bits 44 /\ countl_zero 44 = 31 - Z.log2 44.
Proof.
  destruct (bit_counting_correct 44 44) as (_ & _ & Hp & Hc); [done|lia|]. split; [exact Hp|exact Hc].
Defined.

End BitUtilities.
