(* ===== verification/SlamBitSet.v ===== *)
(** * The bit set of Slam ([src/axom/slam/BitSet.hpp], [BitSet.cpp])

    A [BitSet] packs [m_numBits] bits into 64-bit words.  Every operation of the
    class is modelled with its word loops, masks and boundary cases.  Failed
    assertions and accesses outside the word array are [None].  The abstract
    specification of a bit set is the finite set of its set bits ([elems]). *)

From S2P Require Import Prelude BitUtilities.

Module BitSet.
Import BitUtilities.

(** ** Definitions *)

Record BitSet := mkBitSet { m_data : list Z; m_numBits : Z }.

Definition npos : Z := -2.
Definition BitsPerWord : Z := BITS_PER_WORD BitTraits_u64.
Definition ones : Z := wrap 64 (Z.lnot 0).

(** The constructor: enough zero words for [numBits] bits, and at least one. *)
Definition numWords (numBits : Z) : Z :=
  if numBits =? 0 then 1 else 1 + Z.quot (numBits - 1) BitsPerWord.

Definition make (numBits : Z) : BitSet :=
  let n := Z.max numBits 0 in
  mkBitSet (replicate (Z.to_nat (numWords n)) 0) n.

Definition size (b : BitSet) : Z := m_numBits b.
Definition data_size (b : BitSet) : Z := Z.of_nat (length (m_data b)).

(** [checkValidIndex] asserts; when the assertion fails there is no result. *)
Definition checkValidIndex (b : BitSet) (idx : Z) : option unit :=
  if (0 <=? idx) && (idx <? m_numBits b) then Some tt else None.

Definition getWord (b : BitSet) (idx : Z) (checkIndexValid : bool) : option Z :=
  _ ← (if checkIndexValid then checkValidIndex b idx else Some tt);
  (m_data b).[Z.quot idx BitsPerWord].

Definition mask (idx : Z) : Z := wrap 64 (Z.shiftl 1 (Z.rem idx BitsPerWord)).
Definition lastWordMask (b : BitSet) : Z := wrap 64 (mask (m_numBits b) - 1).
Definition isLastWordFull (b : BitSet) : bool :=
  let lg := Z.shiftl 1 (LG_BITS_PER_WORD BitTraits_u64) - 1 in
  Z.land (m_numBits b) lg =? 0.

(** Assignment through the reference that [getWord(idx)] returns. *)
Definition updateWord (b : BitSet) (idx : Z) (f : Z -> Z) : option BitSet :=
  w ← getWord b idx true;
  d ← zupdate (m_data b) (Z.quot idx BitsPerWord) (f w);
  Some (mkBitSet d (m_numBits b)).

Definition not64 (x : Z) : Z := wrap 64 (Z.lnot x).

Definition clear_idx (b : BitSet) (idx : Z) : option BitSet :=
  updateWord b idx (fun w => Z.land w (not64 (mask idx))).
Definition set_idx (b : BitSet) (idx : Z) : option BitSet :=
  updateWord b idx (fun w => Z.lor w (mask idx)).
Definition flip_idx (b : BitSet) (idx : Z) : option BitSet :=
  updateWord b idx (fun w => Z.lxor w (mask idx)).

Definition test (b : BitSet) (idx : Z) : option bool :=
  if (0 <=? idx) && (idx <? m_numBits b) then
    w ← getWord b idx true; Some (negb (Z.land w (mask idx) =? 0))
  else Some false.

Definition clear (b : BitSet) : option BitSet :=
  d ← for_range 0 (data_size b)
        (fun i d => x ← d.[i]; x' ← Some 0; zupdate d i x') (m_data b);
  Some (mkBitSet d (m_numBits b)).

Definition set_all (b : BitSet) : option BitSet :=
  if m_numBits b =? 0 then Some b else
  d ← for_range 0 (data_size b - 1)
        (fun i d => x ← d.[i]; x' ← Some ones; zupdate d i x') (m_data b);
  d ← zupdate d (data_size b - 1) (if isLastWordFull b then ones else lastWordMask b);
  Some (mkBitSet d (m_numBits b)).

Definition flip_all (b : BitSet) : option BitSet :=
  if m_numBits b =? 0 then Some b else
  d ← for_range 0 (data_size b - 1)
        (fun i d => x ← d.[i]; x' ← Some (Z.lxor x ones); zupdate d i x') (m_data b);
  w ← d.[data_size b - 1];
  d ← zupdate d (data_size b - 1)
        (Z.lxor w (if isLastWordFull b then ones else lastWordMask b));
  Some (mkBitSet d (m_numBits b)).

Definition count (b : BitSet) : option Z :=
  for_range 0 (data_size b)
    (fun i ctr => w ← (m_data b).[i]; Some (ctr + popcount w)) 0.

Definition isValid (b : BitSet) : option bool :=
  if m_numBits b =? 0 then
    if data_size b =? 1 then w ← (m_data b).[0]; Some (w =? 0) else Some false
  else
    let valid := negb (m_numBits b <? 0) in
    let expWords := Z.quot (m_numBits b - 1) BitsPerWord + 1 in
    let valid := valid && (expWords =? data_size b) in
    if isLastWordFull b then Some valid else
      lastWord ← getWord b (m_numBits b) false;
      let upperMask := not64 (lastWordMask b) in
      Some (valid && (Z.land lastWord upperMask =? 0)).

Definition find_next (b : BitSet) (idx : Z) : option Z :=
  if (idx =? npos) || (m_numBits b <=? idx + 1) then Some npos else
  let scan startWordIdx :=
    r ← first_in_range startWordIdx (data_size b) (fun i =>
          w ← (m_data b).[i];
          Some (if w =? 0 then None else Some (i * BitsPerWord + countr_zero w)));
    Some (default npos r) in
  if 0 <=? idx then
    _ ← checkValidIndex b idx;
    let startIdx := idx + 1 in
    let startWordIdx := Z.quot startIdx BitsPerWord in
    let startOffset := Z.rem startIdx BitsPerWord in
    w ← (m_data b).[startWordIdx];
    let startWord := Z.shiftr w startOffset in
    if startWord =? 0 then scan (startWordIdx + 1)
    else Some (startWordIdx * BitsPerWord
               + countr_zero (wrap 64 (Z.shiftl startWord startOffset)))
  else scan 0.

Definition find_first (b : BitSet) : option Z := find_next b (-1).

(** The compound assignments share their loop over the words. *)
Definition assign_words (op : Z -> Z -> Z) (b other : BitSet) : option BitSet :=
  if size b =? size other then
    d ← for_range 0 (data_size b)
          (fun i d => x ← d.[i]; x' ← (y ← (m_data other).[i]; Some (op x y)); zupdate d i x')
          (m_data b);
    Some (mkBitSet d (m_numBits b))
  else None.

Definition or_assign : BitSet -> BitSet -> option BitSet := assign_words Z.lor.
Definition and_assign : BitSet -> BitSet -> option BitSet := assign_words Z.land.
Definition xor_assign : BitSet -> BitSet -> option BitSet := assign_words Z.lxor.
Definition sub_assign : BitSet -> BitSet -> option BitSet :=
  assign_words (fun x y => Z.land x (not64 y)).

(** The binary operators copy the left operand and assign into the copy. *)
Definition or_op (lhs rhs : BitSet) : option BitSet := or_assign lhs rhs.
Definition and_op (lhs rhs : BitSet) : option BitSet := and_assign lhs rhs.
Definition xor_op (lhs rhs : BitSet) : option BitSet := xor_assign lhs rhs.
Definition sub_op (lhs rhs : BitSet) : option BitSet := sub_assign lhs rhs.

Definition eq_op (a b : BitSet) : bool :=
  if negb (size a =? size b) || negb (m_numBits a =? m_numBits b) then false
  else bool_decide (m_data a = m_data b).

#[local] Arguments BitsPerWord : simpl never.
#[local] Arguments getWord : simpl never.
#[local] Arguments checkValidIndex : simpl never.
#[local] Arguments zlookup : simpl never.

(** ** Abstraction: the set of set bits *)

Definition lbit (l : list Z) (i : Z) : bool :=
  match l.[i / 64] with Some w => Z.testbit w (i mod 64) | None => false end.
Definition bit (b : BitSet) (i : Z) : bool := lbit (m_data b) i.
Definition set_bits (b : BitSet) : list Z := filter (fun i => bit b i = true) (seqZ 0 (m_numBits b)).
Definition elems (b : BitSet) : gset Z := list_to_set (set_bits b).

(** Well-formedness: word count, word range, and no bit above the size. *)
Record wf (b : BitSet) : Prop := {
  wf_nonneg : 0 <= m_numBits b;
  wf_words : data_size b = numWords (m_numBits b);
  wf_word : Forall (in_word 64) (m_data b);
  wf_high : forall i, m_numBits b <= i -> bit b i = false
}.

(** ** Words, masks and indices *)

Lemma quot64 i : 0 <= i -> Z.quot i BitsPerWord = i / 64.
Proof. intros. apply Z.quot_div_nonneg; (done || lia). Qed.

Lemma rem64 i : 0 <= i -> Z.rem i BitsPerWord = i mod 64.
Proof. intros. apply Z.rem_mod_nonneg; (done || lia). Qed.

Lemma mask_pow2 i : 0 <= i -> mask i = 2 ^ (i mod 64).
Proof.
  intros Hi. unfold mask. rewrite rem64, Z.shiftl_1_l by done.
  pose proof (Z.mod_pos_bound i 64). apply wrap_id; [lia|]. apply in_word_pow2; lia.
Qed.

Lemma numWords_spec n : 0 <= n -> 64 * (numWords n - 1) < Z.max 1 n <= 64 * numWords n.
Proof.
  intros Hn. unfold numWords. case_zbool; [lia|].
  rewrite quot64 by lia. pose proof (Z.div_mod (n - 1) 64). pose proof (Z.mod_pos_bound (n - 1) 64).
  lia.
Qed.

Lemma ones_testbit i : 0 <= i -> Z.testbit ones i = bool_decide (i < 64).
Proof.
  intros Hi. unfold ones. rewrite wrap_testbit by lia. case_decide.
  - rewrite bool_decide_true by lia. rewrite Z.lnot_spec, Z.bits_0 by lia. done.
  - by rewrite bool_decide_false by lia.
Qed.

Lemma not64_testbit x i :
  0 <= i -> Z.testbit (not64 x) i = bool_decide (i < 64) && negb (Z.testbit x i).
Proof.
  intros Hi. unfold not64. rewrite wrap_testbit by lia. case_decide.
  - rewrite bool_decide_true by lia. by rewrite Z.lnot_spec by lia.
  - by rewrite bool_decide_false by lia.
Qed.

Lemma isLastWordFull_spec b :
  0 <= m_numBits b -> isLastWordFull b = bool_decide (m_numBits b mod 64 = 0).
Proof.
  intros Hn. unfold isLastWordFull. change (Z.shiftl 1 _ - 1) with (Z.ones 6).
  rewrite Z.land_ones by lia. change (2 ^ 6) with 64.
  destruct (Z.eqb_spec (m_numBits b mod 64) 0);
    [by rewrite bool_decide_true|by rewrite bool_decide_false].
Qed.

Lemma lastWordMask_testbit b i :
  0 <= m_numBits b -> m_numBits b mod 64 <> 0 -> 0 <= i ->
  Z.testbit (lastWordMask b) i = bool_decide (i < m_numBits b mod 64).
Proof.
  intros Hn Hne Hi. unfold lastWordMask. rewrite mask_pow2 by done.
  pose proof (Z.mod_pos_bound (m_numBits b) 64).
  replace (2 ^ (m_numBits b mod 64) - 1) with (Z.ones (m_numBits b mod 64))
    by (rewrite Z.ones_equiv; lia).
  rewrite wrap_testbit by lia. case_decide; [|by rewrite bool_decide_false by lia].
  case_bool_decide; [by apply Z.ones_spec_low|by apply Z.ones_spec_high; lia].
Qed.

Lemma bit_lookup b i w :
  (m_data b).[i / 64] = Some w -> bit b i = Z.testbit w (i mod 64).
Proof. unfold bit, lbit. by intros ->. Qed.

Lemma bit_neg b i : i < 0 -> bit b i = false.
Proof.
  intros Hi. unfold bit, lbit. assert (i / 64 < 0) by (apply Z.div_lt_upper_bound; lia).
  destruct (zlookup _ _) eqn:Hl; [|done]. apply zlookup_Some_bounds in Hl. lia.
Qed.

(** The bit at word [k], offset [r]. *)
Lemma bit_at b k r w :
  (m_data b).[k] = Some w -> 0 <= r < 64 -> bit b (64 * k + r) = Z.testbit w r.
Proof.
  intros Hk Hr. assert ((64 * k + r) / 64 = k) as Hd by (Z.div_mod_to_equations; lia).
  assert ((64 * k + r) mod 64 = r) as Hm by (Z.div_mod_to_equations; lia).
  rewrite (bit_lookup b _ w) by (by rewrite Hd). by rewrite Hm.
Qed.

Lemma wf_lookup b i : wf b -> 0 <= i < m_numBits b -> exists w, (m_data b).[i / 64] = Some w.
Proof.
  intros [Hn Hw _ _] Hi. apply zlookup_lt. unfold data_size in Hw. rewrite Hw.
  pose proof (numWords_spec (m_numBits b) Hn). Z.div_mod_to_equations. lia.
Qed.

Lemma wf_lookup_word b i : wf b -> 0 <= i < data_size b ->
  exists w, (m_data b).[i] = Some w /\ in_word 64 w.
Proof.
  intros Hwf Hi. destruct (zlookup_lt (m_data b) i) as [w Hw]; [done|].
  exists w. split; [done|]. eapply zlookup_Forall; [apply Hwf|done].
Qed.

Lemma set_bits_spec b i : wf b -> i ∈ set_bits b <-> bit b i = true.
Proof.
  intros Hwf. unfold set_bits. rewrite list_elem_of_filter, elem_of_seqZ. split; [naive_solver|].
  intros Hb. split; [done|]. destruct (decide (i < 0)); [by rewrite bit_neg in Hb|].
  destruct (decide (i < m_numBits b)); [lia|]. by rewrite (wf_high b Hwf) in Hb by lia.
Qed.

Lemma elems_spec b i : wf b -> i ∈ elems b <-> bit b i = true.
Proof. intros Hwf. unfold elems. rewrite elem_of_list_to_set. by apply set_bits_spec. Qed.

Lemma elems_ext b1 b2 :
  wf b1 -> wf b2 -> (forall i, bit b1 i = bit b2 i) <-> elems b1 = elems b2.
Proof.
  intros H1 H2. split.
  - intros Heq. apply set_eq. intros i. by rewrite !elems_spec, Heq by done.
  - intros Heq i. apply eq_bool_prop_intro. rewrite !Is_true_true.
    rewrite <- !elems_spec by done. by rewrite Heq.
Qed.

(** A word array with the shape of a well-formed bit set is one when its bits
    stay below the size. *)
Lemma wf_intro b d :
  wf b -> length d = length (m_data b) -> Forall (in_word 64) d ->
  (forall i, m_numBits b <= i -> lbit d i = false) -> wf (mkBitSet d (m_numBits b)).
Proof.
  intros [Hn Hw _ _] Hlen Hwd Hhigh. split; cbn; [done| |done|done].
  unfold data_size in *. cbn. by rewrite Hlen.
Qed.

(** ** Single-bit operations *)

Lemma checkValidIndex_ok b i : 0 <= i < m_numBits b -> checkValidIndex b i = Some tt.
Proof.
  intros Hi. unfold checkValidIndex.
  rewrite (proj2 (Z.leb_le 0 i)), (proj2 (Z.ltb_lt i _)) by lia. done.
Qed.

Lemma checkValidIndex_fail b i : ~ (0 <= i < m_numBits b) -> checkValidIndex b i = None.
Proof.
  intros Hi. unfold checkValidIndex. destruct (Z.leb_spec 0 i), (Z.ltb_spec i (m_numBits b));
    (done || lia).
Qed.

Lemma getWord_ok b i w :
  0 <= i < m_numBits b -> (m_data b).[i / 64] = Some w -> getWord b i true = Some w.
Proof.
  intros Hi Hw. unfold getWord. rewrite checkValidIndex_ok, quot64 by lia. done.
Qed.

Lemma test_bit b i : wf b -> test b i = Some (bit b i).
Proof.
  intros Hwf. unfold test. destruct (Z.leb_spec 0 i); cbn.
  2: { by rewrite bit_neg by lia. }
  destruct (Z.ltb_spec i (m_numBits b)).
  2: { by rewrite (wf_high b Hwf) by lia. }
  destruct (wf_lookup b i Hwf) as [w Hw]; [lia|].
  rewrite (getWord_ok b i w) by (done || lia). cbn. rewrite (bit_lookup b i w Hw), mask_pow2 by lia.
  f_equal. pose proof (Z.mod_pos_bound i 64).
  destruct (Z.testbit w (i mod 64)) eqn:Hb.
  - apply land_pow2_nonzero in Hb; [|lia]. by destruct (Z.eqb_spec (Z.land w (2 ^ (i mod 64))) 0).
  - destruct (Z.eqb_spec (Z.land w (2 ^ (i mod 64))) 0) as [|Hne]; [done|].
    apply land_pow2_nonzero in Hne; [congruence|lia].
Qed.

(** An assignment through [getWord] whose word function changes one bit. *)
Lemma updateWord_spec b i f (v : bool -> bool) :
  wf b -> 0 <= i < m_numBits b ->
  (forall w, in_word 64 w -> in_word 64 (f w)) ->
  (forall w r, in_word 64 w -> 0 <= r < 64 ->
     Z.testbit (f w) r = if decide (r = i mod 64) then v (Z.testbit w r) else Z.testbit w r) ->
  exists b', updateWord b i f = Some b' /\ wf b' /\ m_numBits b' = m_numBits b /\
    forall j, bit b' j = if decide (j = i) then v (bit b i) else bit b j.
Proof.
  intros Hwf Hi Hfw Hf. destruct (wf_lookup b i Hwf Hi) as [w Hw].
  pose proof (zlookup_Some_bounds _ _ _ Hw) as Hr.
  assert (in_word 64 w) as Hww by (eapply zlookup_Forall; [apply Hwf|done]).
  unfold updateWord. rewrite (getWord_ok b i w) by (done || lia). cbn.
  rewrite quot64, zupdate_lt by lia. cbn. eexists. split; [done|].
  assert (forall j, lbit (<[Z.to_nat (i / 64):=f w]> (m_data b)) j =
     if decide (j = i) then v (bit b i) else bit b j) as Hbits.
  { intros j. unfold bit, lbit at 1. rewrite zlookup_insert by lia.
    pose proof (Z.mod_pos_bound j 64). case_decide as Hij.
    - rewrite Hf by (done || lia). unfold lbit. rewrite <- Hij, Hw.
      destruct (decide (j = i)) as [->|Hne]; [by rewrite decide_True|].
      rewrite decide_False; [done|]. intros Hm. apply Hne.
      rewrite (Z.div_mod j 64), (Z.div_mod i 64) by lia. congruence.
    - rewrite decide_False by congruence. done. }
  split; [|done]. apply wf_intro; [done|by rewrite length_insert| |].
  - apply Forall_insert; [apply Hwf|by apply Hfw].
  - intros j Hj. rewrite Hbits, decide_False by lia. by apply Hwf.
Qed.

Lemma set_idx_spec b i :
  wf b -> 0 <= i < m_numBits b ->
  exists b', set_idx b i = Some b' /\ wf b' /\ m_numBits b' = m_numBits b /\
    forall j, bit b' j = if decide (j = i) then true else bit b j.
Proof.
  intros Hwf Hi. apply (updateWord_spec b i _ (fun _ => true)); [done|done|..].
  all: rewrite mask_pow2 by lia; pose proof (Z.mod_pos_bound i 64).
  - intros w Hw. apply in_word_lor; [lia|done|apply in_word_pow2; lia].
  - intros w r Hw Hr. rewrite Z.lor_spec, testbit_pow2 by lia. case_decide.
    + rewrite bool_decide_true by done. apply orb_true_r.
    + rewrite bool_decide_false by done. apply orb_false_r.
Qed.

Lemma clear_idx_spec b i :
  wf b -> 0 <= i < m_numBits b ->
  exists b', clear_idx b i = Some b' /\ wf b' /\ m_numBits b' = m_numBits b /\
    forall j, bit b' j = if decide (j = i) then false else bit b j.
Proof.
  intros Hwf Hi. apply (updateWord_spec b i _ (fun _ => false)); [done|done|..].
  all: rewrite mask_pow2 by lia; pose proof (Z.mod_pos_bound i 64).
  - intros w Hw. apply in_word_land_any; [lia|done].
  - intros w r Hw Hr. rewrite Z.land_spec, not64_testbit, testbit_pow2 by lia.
    rewrite (bool_decide_true (r < 64)) by lia. case_decide.
    + rewrite bool_decide_true by done. apply andb_false_r.
    + rewrite bool_decide_false by done. apply andb_true_r.
Qed.

Lemma flip_idx_spec b i :
  wf b -> 0 <= i < m_numBits b ->
  exists b', flip_idx b i = Some b' /\ wf b' /\ m_numBits b' = m_numBits b /\
    forall j, bit b' j = if decide (j = i) then negb (bit b i) else bit b j.
Proof.
  intros Hwf Hi. apply (updateWord_spec b i _ negb); [done|done|..].
  all: rewrite mask_pow2 by lia; pose proof (Z.mod_pos_bound i 64).
  - intros w Hw. apply in_word_lxor; [lia|done|apply in_word_pow2; lia].
  - intros w r Hw Hr. rewrite Z.lxor_spec, testbit_pow2 by lia. case_decide.
    + rewrite bool_decide_true by done. by destruct (Z.testbit w r).
    + rewrite bool_decide_false by done. apply xorb_false_r.
Qed.

Lemma updateWord_out_of_range b i f : ~ (0 <= i < m_numBits b) -> updateWord b i f = None.
Proof. intros Hi. unfold updateWord, getWord. by rewrite checkValidIndex_fail. Qed.

(** ** Whole-set operations *)

Lemma lbit_ge l i : 64 * Z.of_nat (length l) <= i -> lbit l i = false.
Proof.
  intros Hi. unfold lbit. destruct (zlookup l _) eqn:Hl; [|done].
  apply zlookup_Some_bounds in Hl. Z.div_mod_to_equations. lia.
Qed.

(** A word loop gives a word array whose words are those the body computes. *)
Lemma word_loop_spec b d (h : Z -> Z -> Z) (v : Z -> bool -> bool) :
  wf b -> length d = length (m_data b) ->
  (forall i w, (m_data b).[i] = Some w -> d.[i] = Some (h i w)) ->
  (forall i w, (m_data b).[i] = Some w -> in_word 64 w -> in_word 64 (h i w)) ->
  (forall i w r, (m_data b).[i] = Some w -> in_word 64 w -> 0 <= r < 64 ->
     Z.testbit (h i w) r = v (64 * i + r) (Z.testbit w r)) ->
  (forall i, m_numBits b <= i -> v i false = false) ->
  wf (mkBitSet d (m_numBits b)) /\
  forall j, 0 <= j < 64 * data_size b -> bit (mkBitSet d (m_numBits b)) j = v j (bit b j).
Proof.
  intros Hwf Hlen Hd Hhw Hh Hv.
  assert (forall j, 0 <= j < 64 * data_size b -> lbit d j = v j (bit b j)) as Hbits.
  { intros j Hj. destruct (wf_lookup_word b (j / 64) Hwf) as (w & Hw & Hww).
    { unfold data_size in *. Z.div_mod_to_equations. lia. }
    rewrite (bit_lookup b j w Hw). unfold lbit. rewrite (Hd _ _ Hw).
    pose proof (Z.mod_pos_bound j 64). rewrite (Hh _ _ _ Hw Hww) by lia.
    f_equal. Z.div_mod_to_equations. lia. }
  split; [|done]. apply wf_intro; [done|done| |].
  - apply Forall_lookup_2. intros n x Hx.
    destruct (wf_lookup_word b (Z.of_nat n) Hwf) as (w & Hw & Hww).
    { apply lookup_lt_Some in Hx. unfold data_size. lia. }
    pose proof (Hd _ _ Hw) as Hdw. rewrite zlookup_of_nat, Hx in Hdw.
    injection Hdw as ->. by eapply Hhw.
  - intros i Hi. pose proof (wf_nonneg b Hwf). destruct (decide (i < 64 * data_size b)).
    + rewrite Hbits by lia. rewrite (wf_high b Hwf i) by done. by apply Hv.
    + apply lbit_ge. unfold data_size in *. lia.
Qed.

Lemma wf_data_size b : wf b -> 1 <= data_size b /\ m_numBits b <= 64 * data_size b.
Proof.
  intros [Hn Hw _ _]. rewrite Hw. pose proof (numWords_spec (m_numBits b) Hn). lia.
Qed.

Lemma assign_words_spec op (v : bool -> bool -> bool) b other :
  wf b -> wf other -> m_numBits b = m_numBits other ->
  (forall x y, in_word 64 x -> in_word 64 y -> in_word 64 (op x y)) ->
  (forall x y r, in_word 64 x -> in_word 64 y -> 0 <= r < 64 ->
     Z.testbit (op x y) r = v (Z.testbit x r) (Z.testbit y r)) ->
  v false false = false ->
  exists b', assign_words op b other = Some b' /\ wf b' /\ m_numBits b' = m_numBits b /\
    forall j, bit b' j = v (bit b j) (bit other j).
Proof.
  intros Hb Ho Hn Hopw Hop Hv.
  assert (data_size other = data_size b) as Hds.
  { rewrite (wf_words b Hb), (wf_words other Ho). congruence. }
  unfold assign_words. rewrite (proj2 (Z.eqb_eq _ _)) by exact Hn.
  set (h := fun i x => op x (default 0 ((m_data other).[i]))).
  destruct (for_range_update (fun i x => y ← (m_data other).[i]; Some (op x y)) h
              (m_data b) 0 (data_size b)) as (d & Hd & Hlen & Hat).
  { unfold data_size. lia. } { unfold data_size. lia. }
  { intros i x Hi Hx. unfold h. destruct (wf_lookup_word other i Ho) as (y & -> & _); [lia|done]. }
  rewrite Hd. cbn. eexists. split; [done|].
  destruct (word_loop_spec b d h (fun j x => v x (bit other j))) as [Hwf' Hbits];
    [done|done|..].
  - intros i w Hi. rewrite Hat. pose proof (zlookup_Some_bounds _ _ _ Hi).
    rewrite decide_True by (unfold data_size; lia). by rewrite Hi.
  - intros i w Hi Hw. unfold h. pose proof (zlookup_Some_bounds _ _ _ Hi).
    destruct (wf_lookup_word other i Ho) as (y & -> & Hy); [unfold data_size in *; lia|].
    by apply Hopw.
  - intros i w r Hi Hw Hr. unfold h. pose proof (zlookup_Some_bounds _ _ _ Hi).
    destruct (wf_lookup_word other i Ho) as (y & Hy & Hyw); [unfold data_size in *; lia|].
    rewrite Hy. cbn. rewrite Hop by done. by rewrite (bit_at other i r y).
  - intros i Hi. by rewrite (wf_high other Ho) by lia.
  - split; [done|]. split; [done|]. intros j.
    destruct (decide (0 <= j < 64 * data_size b)); [by apply Hbits|].
    destruct (wf_data_size b Hb), (wf_data_size other Ho).
    destruct (decide (j < 0)); [by rewrite !bit_neg|].
    rewrite !wf_high by (done || cbn; lia). done.
Qed.

(** The mask of the last word selects the bits below the size. *)
Lemma last_mask_testbit b r :
  wf b -> 0 < m_numBits b -> 0 <= r < 64 ->
  Z.testbit (if isLastWordFull b then ones else lastWordMask b) r =
  bool_decide (64 * (data_size b - 1) + r < m_numBits b).
Proof.
  intros Hwf Hn Hr. rewrite isLastWordFull_spec by lia.
  pose proof (numWords_spec (m_numBits b)) as Hnw. rewrite <- (wf_words b Hwf) in Hnw.
  case_bool_decide as Hm.
  - rewrite ones_testbit, !bool_decide_true by (Z.div_mod_to_equations; lia). done.
  - rewrite lastWordMask_testbit by lia. apply bool_decide_ext.
    Z.div_mod_to_equations. lia.
Qed.

Lemma last_mask_word b : in_word 64 (if isLastWordFull b then ones else lastWordMask b).
Proof. destruct (isLastWordFull b); apply wrap_in_word; lia. Qed.

(** The loop of [set()] and [flip()]: all words but the last combined with all
    ones, the last one with its mask. *)
Lemma full_loop_spec op (v : bool -> bool -> bool) b :
  wf b -> m_numBits b <> 0 ->
  (forall x m, in_word 64 x -> in_word 64 m -> in_word 64 (op x m)) ->
  (forall x m r, 0 <= r < 64 -> Z.testbit (op x m) r = v (Z.testbit x r) (Z.testbit m r)) ->
  v false false = false ->
  let lm := if isLastWordFull b then ones else lastWordMask b in
  exists d0 wl d,
    for_range 0 (data_size b - 1)
      (fun i d => x ← d.[i]; x' ← Some (op x ones); zupdate d i x') (m_data b) = Some d0 /\
    d0.[data_size b - 1] = Some wl /\
    zupdate d0 (data_size b - 1) (op wl lm) = Some d /\
    wf (mkBitSet d (m_numBits b)) /\
    forall j, bit (mkBitSet d (m_numBits b)) j =
      bool_decide (0 <= j < m_numBits b) && v (bit b j) true.
Proof.
  intros Hwf H0 Hopw Hop Hv lm.
  pose proof (wf_nonneg b Hwf). destruct (wf_data_size b Hwf) as [Hs1 Hs2].
  destruct (for_range_update (fun _ x => Some (op x ones)) (fun _ x => op x ones)
    (m_data b) 0 (data_size b - 1)) as (d & Hd & Hlen & Hat); [lia|unfold data_size; lia|done|].
  destruct (wf_lookup_word b (data_size b - 1) Hwf) as (wl & Hwl & Hwlw); [lia|].
  exists d, wl, (<[Z.to_nat (data_size b - 1):=op wl lm]> d). split; [done|].
  split; [by rewrite Hat, decide_False by lia|].
  split; [apply zupdate_lt; unfold data_size in *; lia|].
  assert (forall i w r, (m_data b).[i] = Some w -> i <> data_size b - 1 -> 0 <= r < 64 ->
    64 * i + r < m_numBits b) as Hin.
  { intros i w r Hi%zlookup_Some_bounds Hne Hr. pose proof (numWords_spec (m_numBits b)) as Hnw.
    rewrite <- (wf_words b Hwf) in Hnw. unfold data_size in *. lia. }
  destruct (word_loop_spec b (<[Z.to_nat (data_size b - 1):=op wl lm]> d)
    (fun i x => op x (if decide (i = data_size b - 1) then lm else ones))
    (fun j x => v x (bool_decide (j < m_numBits b)))) as [Hwf' Hbits]; [done|..].
  - by rewrite length_insert.
  - intros i w Hi. pose proof (zlookup_Some_bounds _ _ _ Hi).
    rewrite zlookup_insert by (unfold data_size in *; lia). case_decide as Hl.
    + rewrite decide_True by done. congruence.
    + rewrite decide_False, Hat by congruence.
      rewrite decide_True by (unfold data_size in *; lia). by rewrite Hi.
  - intros i w Hi Hw. apply Hopw; [done|].
    case_decide; [apply last_mask_word|apply wrap_in_word; lia].
  - intros i w r Hi Hw Hr. rewrite Hop by done. f_equal. case_decide as Hlast.
    + subst i. apply last_mask_testbit; [done|lia|done].
    + rewrite ones_testbit, !bool_decide_true by (lia || by eapply Hin). done.
  - intros i Hi. by rewrite bool_decide_false by lia.
  - split; [done|]. intros j. destruct (decide (0 <= j < m_numBits b)).
    + rewrite Hbits by lia. by rewrite !bool_decide_true by lia.
    + rewrite (bool_decide_false (0 <= j < _)) by done.
      destruct (decide (j < 0)); [by apply bit_neg|]. apply Hwf'. cbn. lia.
Qed.

Lemma bit_empty b j : wf b -> m_numBits b = 0 -> bit b j = false.
Proof. intros Hwf H0. destruct (decide (j < 0)); [by apply bit_neg|]. apply Hwf. lia. Qed.

Lemma set_all_spec b :
  wf b ->
  exists b', set_all b = Some b' /\ wf b' /\ m_numBits b' = m_numBits b /\
    forall j, bit b' j = bool_decide (0 <= j < m_numBits b).
Proof.
  intros Hwf. unfold set_all. destruct (Z.eqb_spec (m_numBits b) 0) as [H0|H0].
  { exists b. split_and!; [done|done|done|]. intros j.
    rewrite bool_decide_false by lia. by apply bit_empty. }
  destruct (full_loop_spec (fun _ m => m) (fun _ m => m) b)
    as (d0 & wl & d & Hd0 & Hwl & Hd & Hwf' & Hbits); [done|done|done|done|done|].
  rewrite Hd0. cbn. rewrite Hd. cbn. eexists. split_and!; [done|done|done|].
  intros j. rewrite Hbits. apply andb_true_r.
Qed.

Lemma flip_all_spec b :
  wf b ->
  exists b', flip_all b = Some b' /\ wf b' /\ m_numBits b' = m_numBits b /\
    forall j, bit b' j = bool_decide (0 <= j < m_numBits b) && negb (bit b j).
Proof.
  intros Hwf. unfold flip_all. destruct (Z.eqb_spec (m_numBits b) 0) as [H0|H0].
  { exists b. split_and!; [done|done|done|]. intros j.
    rewrite bool_decide_false by lia. by apply bit_empty. }
  destruct (full_loop_spec Z.lxor xorb b)
    as (d0 & wl & d & Hd0 & Hwl & Hd & Hwf' & Hbits); [done|done|..].
  { intros. by apply in_word_lxor. } { intros. apply Z.lxor_spec. } { done. }
  rewrite Hd0. cbn. rewrite Hwl. cbn. rewrite Hd. cbn. eexists. split_and!; [done|done|done|].
  intros j. rewrite Hbits. by rewrite xorb_true_r.
Qed.

Lemma clear_all_spec b :
  wf b ->
  exists b', clear b = Some b' /\ wf b' /\ m_numBits b' = m_numBits b /\
    forall j, bit b' j = false.
Proof.
  intros Hwf. unfold clear.
  destruct (for_range_update (fun _ _ => Some 0) (fun _ _ => 0) (m_data b) 0
    (data_size b)) as (d & Hd & Hlen & Hat); [unfold data_size; lia..|done|].
  rewrite Hd. cbn. eexists. split; [done|].
  destruct (word_loop_spec b d (fun _ _ => 0) (fun _ _ => false)) as [Hwf' Hbits];
    [done|done|..].
  - intros i w Hi. rewrite Hat. pose proof (zlookup_Some_bounds _ _ _ Hi).
    rewrite decide_True by (unfold data_size; lia). by rewrite Hi.
  - intros. apply in_word_0. lia.
  - intros. by rewrite Z.bits_0.
  - done.
  - split; [done|]. split; [done|]. intros j.
    destruct (wf_data_size b Hwf).
    destruct (decide (0 <= j < 64 * data_size b)); [by apply Hbits|].
    destruct (decide (j < 0)); [by apply bit_neg|]. apply Hwf'. cbn. lia.
Qed.

Lemma make_wf n : wf (make n) /\ (forall i, bit (make n) i = false) /\ m_numBits (make n) = Z.max n 0.
Proof.
  assert (forall i, bit (make n) i = false) as Hb.
  { intros i. unfold bit, lbit, make. cbn. destruct (zlookup _ _) eqn:Hl; [|done].
    pose proof (zlookup_Some_bounds _ _ _ Hl). rewrite zlookup_to_nat in Hl by lia.
    apply lookup_replicate in Hl as [-> _]. apply Z.bits_0. }
  split; [|done]. split; [cbn; lia| |cbn|done].
  - unfold data_size, make. cbn. rewrite length_replicate.
    pose proof (numWords_spec (Z.max n 0)). lia.
  - apply Forall_replicate, in_word_0. lia.
Qed.

(** ** Counting *)

Lemma lbit_cons w l i :
  0 <= i -> lbit (w :: l) i = if decide (i < 64) then Z.testbit w i else lbit l (i - 64).
Proof.
  intros Hi. unfold lbit. case_decide.
  - rewrite Z.div_small, Z.mod_small by lia. done.
  - assert (i / 64 = Z.succ ((i - 64) / 64)) as -> by (Z.div_mod_to_equations; lia).
    assert (i mod 64 = (i - 64) mod 64) as -> by (Z.div_mod_to_equations; lia).
    assert (0 <= (i - 64) / 64) by (apply Z.div_pos; lia).
    rewrite !zlookup_to_nat by lia. by rewrite Z2Nat.inj_succ by lia.
Qed.

Lemma num_set_bits_filter w :
  num_set_bits w = Z.of_nat (length (filter (fun i => Z.testbit w i = true) (seqZ 0 64))).
Proof.
  unfold num_set_bits, bits_of, seqZ. change (Z.to_nat 64) with 64%nat.
  generalize (seq 0 64). intros l. induction l as [|n l IH]; [done|].
  rewrite !fmap_cons. cbn [sumZ]. rewrite IH, filter_cons, Z.add_0_r.
  destruct (Z.testbit w (Z.of_nat n)) eqn:Hb.
  - rewrite decide_True by done. cbn [length Z.b2z]. lia.
  - rewrite decide_False by done. cbn [Z.b2z]. lia.
Qed.

Lemma lbit_count l :
  Forall (in_word 64) l ->
  sumZ (num_set_bits <$> l) =
  Z.of_nat (length (filter (fun i => lbit l i = true) (seqZ 0 (64 * Z.of_nat (length l))))).
Proof.
  intros Hl. induction Hl as [|w l Hw Hl IH]; [done|].
  rewrite fmap_cons. cbn [sumZ length].
  replace (64 * Z.of_nat (S (length l))) with (64 + 64 * Z.of_nat (length l)) by lia.
  rewrite seqZ_app by lia. rewrite filter_app, length_app, Nat2Z.inj_add. f_equal.
  - rewrite num_set_bits_filter. apply inj_eq.
    apply filter_length_ext. intros i Hi%elem_of_seqZ.
    by rewrite lbit_cons, decide_True by lia.
  - rewrite IH. apply inj_eq.
    assert (seqZ (0 + 64) (64 * Z.of_nat (length l)) =
            Z.add 64 <$> seqZ 0 (64 * Z.of_nat (length l))) as ->
      by (rewrite fmap_add_seqZ; reflexivity).
    symmetry. apply filter_fmap_length. intros i Hi%elem_of_seqZ.
    rewrite lbit_cons, decide_False by lia. by replace (64 + i - 64) with i by lia.
Qed.

Lemma count_sum b :
  wf b -> count b = Some (sumZ (num_set_bits <$> m_data b)).
Proof.
  intros Hwf. unfold count.
  destruct (for_range_inv (fun i ctr =>
      ctr = sumZ (num_set_bits <$> take (Z.to_nat i) (m_data b)))
    0 (data_size b) (fun i ctr => w ← (m_data b).[i]; Some (ctr + popcount w)) 0)
    as (c & Hc & HI).
  - unfold data_size. lia.
  - done.
  - intros i ctr Hi ->. destruct (wf_lookup_word b i Hwf Hi) as (w & Hw & Hww).
    rewrite Hw. cbn. eexists. split; [done|].
    replace (Z.to_nat (i + 1)) with (S (Z.to_nat i)) by lia.
    rewrite zlookup_to_nat in Hw by lia. rewrite (take_S_r _ _ w Hw), fmap_app, sumZ_app.
    change (num_set_bits <$> [w]) with [num_set_bits w]. cbn [sumZ].
    rewrite popcount_num_set_bits by done. lia.
  - rewrite Hc, HI. unfold data_size. by rewrite Nat2Z.id, firstn_all.
Qed.

Lemma set_bits_NoDup b : NoDup (set_bits b).
Proof. apply NoDup_filter, NoDup_seqZ. Qed.

Lemma elems_size b : stdpp.base.size (elems b) = length (set_bits b).
Proof. unfold elems. apply size_list_to_set, set_bits_NoDup. Qed.

Lemma count_elems b : wf b -> count b = Some (Z.of_nat (stdpp.base.size (elems b))).
Proof.
  intros Hwf. rewrite count_sum, lbit_count, elems_size by (done || apply Hwf).
  apply f_equal, inj_eq. destruct (wf_data_size b Hwf) as [Hs1 Hs2]. pose proof (wf_nonneg b Hwf).
  unfold set_bits, data_size in *.
  replace (64 * Z.of_nat (length (m_data b)))
    with (m_numBits b + (64 * Z.of_nat (length (m_data b)) - m_numBits b)) by lia.
  rewrite seqZ_app, filter_app, length_app by lia.
  assert (filter (fun i => lbit (m_data b) i = true)
    (seqZ (0 + m_numBits b) (64 * Z.of_nat (length (m_data b)) - m_numBits b)) = []) as ->.
  { apply filter_none. intros i Hi%elem_of_seqZ Hb.
    pose proof (wf_high b Hwf i ltac:(lia)) as Hh. unfold bit in Hh. congruence. }
  cbn [length]. rewrite Nat.add_0_r. by apply filter_length_ext.
Qed.

(** ** Finding the next set bit *)

(** [r] is the answer to "the first set bit after [idx]". *)
Definition next_set_bit (b : BitSet) (idx r : Z) : Prop :=
  (r = npos /\ forall j, idx < j -> bit b j = false) \/
  (idx < r < m_numBits b /\ bit b r = true /\ forall j, idx < j < r -> bit b j = false).

Lemma word_first_bit b k w :
  wf b -> (m_data b).[k] = Some w -> w <> 0 ->
  let r := k * 64 + countr_zero w in
  bit b r = true /\ 64 * k <= r < m_numBits b /\
  (forall j, 64 * k <= j < r -> bit b j = false) /\ 0 <= countr_zero w < 64.
Proof.
  intros Hwf Hk Hne r. assert (in_word 64 w) as Hw by (eapply zlookup_Forall; [apply Hwf|done]).
  destruct (countr_zero_nonzero w Hw Hne) as ((H0 & Hb & Hlow) & Hlt).
  assert (bit b r = true) as Hr.
  { unfold r. rewrite Z.mul_comm, (bit_at b k _ w) by (done || lia). done. }
  split_and!; [done|unfold r; lia| |intros j Hj|lia|lia].
  - destruct (decide (r < m_numBits b)); [done|]. by rewrite (wf_high b Hwf) in Hr by lia.
  - replace j with (64 * k + (j - 64 * k)) by lia. unfold r in Hj.
    rewrite (bit_at b k _ w) by (done || lia). apply Hlow. lia.
Qed.

Lemma word_zero_bits b k j :
  (m_data b).[k] = Some 0 -> 64 * k <= j < 64 * (k + 1) -> bit b j = false.
Proof.
  intros Hk Hj. replace j with (64 * k + (j - 64 * k)) by lia.
  rewrite (bit_at b k _ 0) by (done || lia). apply Z.bits_0.
Qed.

(** The remaining-words loop, from word [k] on. *)
Lemma scan_spec b k idx :
  wf b -> 0 <= k -> idx < 64 * k -> (forall j, idx < j < 64 * k -> bit b j = false) ->
  exists r,
    (r ← first_in_range k (data_size b) (fun i =>
          w ← (m_data b).[i];
          Some (if w =? 0 then None else Some (i * BitsPerWord + countr_zero w)));
     Some (default npos r)) = Some r /\ next_set_bit b idx r.
Proof.
  intros Hwf Hk Hidx Hlow.
  set (body := fun i => w ← (m_data b).[i];
    Some (if w =? 0 then None else Some (i * BitsPerWord + countr_zero w))).
  assert (forall i w, (m_data b).[i] = Some w -> body i =
    Some (if w =? 0 then None else Some (i * 64 + countr_zero w))) as Hbody
    by (intros i w Hi; unfold body; by rewrite Hi).
  assert (forall i, k <= i < data_size b -> body i = Some None -> (m_data b).[i] = Some 0) as Hzero.
  { intros i Hi Hb. destruct (wf_lookup_word b i Hwf) as (w & Hw & _); [lia|].
    rewrite (Hbody i w Hw) in Hb. destruct (Z.eqb_spec w 0); congruence. }
  assert (forall j i, 64 * k <= j < 64 * i -> i <= data_size b ->
    (forall i', k <= i' < i -> body i' = Some None) -> bit b j = false) as Hskip.
  { intros j i Hj Hi Hall. assert (k <= j / 64 < i) by (Z.div_mod_to_equations; lia).
    apply (word_zero_bits b (j / 64)); [|Z.div_mod_to_equations; lia].
    apply Hzero; [lia|]. apply Hall. lia. }
  destruct (first_in_range_spec k (data_size b) body)
    as [(i & v & Hi & Hb & Hall & ->)|[Hall ->]]; cbn.
  - intros i Hi. destruct (wf_lookup_word b i Hwf) as (w & Hw & _); [lia|].
    rewrite (Hbody i w Hw). eauto.
  - exists v. split; [done|]. right.
    destruct (wf_lookup_word b i Hwf) as (w & Hw & _); [lia|].
    rewrite (Hbody i w Hw) in Hb. destruct (Z.eqb_spec w 0) as [|Hne]; [congruence|].
    injection Hb as <-. destruct (word_first_bit b i w Hwf Hw Hne) as (Hbr & Hr & Hl & Hc).
    split; [lia|]. split; [done|]. intros j Hj.
    destruct (decide (j < 64 * k)); [apply Hlow; lia|].
    destruct (decide (j < 64 * i)); [apply (Hskip j i); [lia|lia|done]|apply Hl; lia].
  - exists npos. split; [done|]. left. split; [done|]. intros j Hj.
    destruct (decide (j < 64 * k)); [apply Hlow; lia|].
    destruct (decide (j < 64 * data_size b)); [apply (Hskip j (data_size b)); [lia|lia|done]|].
    apply lbit_ge. change (Z.of_nat (length (m_data b))) with (data_size b). lia.
Qed.

(** Dropping and restoring the low bits of a word. *)
Lemma shiftr_shiftl_testbit w off i :
  in_word 64 w -> 0 <= off < 64 -> 0 <= i ->
  Z.testbit (wrap 64 (Z.shiftl (Z.shiftr w off) off)) i = bool_decide (off <= i) && Z.testbit w i.
Proof.
  intros Hw Ho Hi. rewrite wrap_testbit by lia. case_decide as H64.
  - case_bool_decide.
    + rewrite Z.shiftl_spec, Z.shiftr_spec, andb_true_l by lia. f_equal. lia.
    + by rewrite Z.shiftl_spec_low by lia.
  - rewrite (in_word_testbit_high 64) by (done || lia). by rewrite andb_false_r.
Qed.

Lemma find_next_spec b idx :
  wf b -> -1 <= idx -> exists r, find_next b idx = Some r /\ next_set_bit b idx r.
Proof.
  intros Hwf Hidx. unfold find_next. rewrite (proj2 (Z.eqb_neq idx npos)) by (unfold npos; lia).
  cbn. destruct (Z.leb_spec (m_numBits b) (idx + 1)) as [Hge|Hlt].
  { exists npos. split; [done|]. left. split; [done|]. intros j Hj. apply Hwf. lia. }
  destruct (Z.leb_spec 0 idx) as [H0|H0].
  2: { apply scan_spec; [done|lia|lia|lia]. }
  rewrite checkValidIndex_ok by lia. cbn. rewrite quot64, rem64 by lia.
  destruct (wf_lookup b (idx + 1) Hwf) as [w Hw]; [lia|].
  assert (in_word 64 w) as Hww by (eapply zlookup_Forall; [apply Hwf|done]).
  rewrite Hw. cbn. set (k := (idx + 1) / 64). set (off := (idx + 1) mod 64).
  assert (idx + 1 = 64 * k + off /\ 0 <= off < 64) as [Hsplit Hoff]
    by (unfold k, off; Z.div_mod_to_equations; lia).
  assert (forall r, off <= r < 64 -> Z.testbit (Z.shiftr w off) (r - off) = bit b (64 * k + r)) as Hsh.
  { intros r Hr. rewrite (bit_at b k r w), Z.shiftr_spec by (done || lia). f_equal. lia. }
  destruct (Z.eqb_spec (Z.shiftr w off) 0) as [Hz|Hnz].
  - apply scan_spec; [done|lia|lia|]. intros j Hj.
    replace j with (64 * k + (j - 64 * k)) by lia. rewrite <- Hsh by lia.
    rewrite Hz. apply Z.bits_0.
  - set (sw := wrap 64 (Z.shiftl (Z.shiftr w off) off)).
    assert (forall i, 0 <= i -> Z.testbit sw i = bool_decide (off <= i) && Z.testbit w i) as Hswb
      by (intros; by apply shiftr_shiftl_testbit).
    assert (in_word 64 sw) as Hsww by (apply wrap_in_word; lia). clearbody sw.
    destruct (nonzero_has_bit 64 (Z.shiftr w off)) as (i & Hi & Hb);
      [lia|by apply in_word_shiftr; [lia|lia|]|done|].
    rewrite Z.shiftr_spec in Hb by lia.
    assert (i + off < 64).
    { destruct (decide (i + off < 64)); [done|].
      by rewrite (in_word_testbit_high 64) in Hb by (done || lia). }
    assert (sw <> 0) as Hsw.
    { apply (testbit_nonzero sw (i + off)).
      rewrite Hswb, Hb, bool_decide_true by (done || lia). done. }
    destruct (countr_zero_nonzero sw) as ((Hc0 & Hcb & Hclow) & Hc64);
      [done|done|].
    rewrite Hswb in Hcb by done.
    apply andb_true_iff in Hcb as [Hcoff%bool_decide_eq_true Hcb].
    eexists. split; [done|]. right. fold k. change BitsPerWord with 64.
    rewrite (Z.mul_comm k). set (c := countr_zero sw) in *.
    assert (bit b (64 * k + c) = true) as Hr by (by rewrite (bit_at b k c w) by (done || lia)).
    split; [split; [lia|]|split; [done|]].
    + destruct (decide (64 * k + c < m_numBits b)); [done|].
      by rewrite (wf_high b Hwf) in Hr by lia.
    + intros j Hj. replace j with (64 * k + (j - 64 * k)) by lia.
      rewrite (bit_at b k _ w) by (done || lia).
      pose proof (Hclow (j - 64 * k) ltac:(lia)) as Hf.
      rewrite Hswb, bool_decide_true in Hf by lia. done.
Qed.

(** ** Validity and equality *)

Lemma isValid_positive b :
  0 < m_numBits b -> Forall (in_word 64) (m_data b) -> data_size b = numWords (m_numBits b) ->
  isValid b = Some true <-> forall i, m_numBits b <= i -> bit b i = false.
Proof.
  intros Hn Hw Hds. pose proof (numWords_spec (m_numBits b) ltac:(lia)) as Hnw.
  unfold isValid. rewrite (proj2 (Z.eqb_neq _ _)), (proj2 (Z.ltb_ge _ _)) by lia.
  unfold numWords in Hds. rewrite (proj2 (Z.eqb_neq _ _)) in Hds by lia.
  rewrite (proj2 (Z.eqb_eq (Z.quot _ _ + 1) _)) by lia. cbn [negb andb].
  rewrite isLastWordFull_spec by lia. case_bool_decide as Hm.
  - split; [|done]. intros _ i Hi. apply lbit_ge. change (Z.of_nat _) with (data_size b).
    rewrite Hds, quot64 by lia. Z.div_mod_to_equations. lia.
  - unfold getWord. rewrite quot64 in * by lia. cbn [mbind option_bind].
    assert (m_numBits b / 64 = data_size b - 1) as Hk by (rewrite Hds; Z.div_mod_to_equations; lia).
    destruct (zlookup_lt (m_data b) (m_numBits b / 64)) as [w Hwl];
      [unfold data_size in *; Z.div_mod_to_equations; lia|].
    assert (in_word 64 w) as Hww by (by eapply zlookup_Forall).
    rewrite Hwl. cbn. rewrite inj_iff, Z.eqb_eq by apply _.
    assert (forall r, 0 <= r < 64 -> m_numBits b mod 64 <= r ->
      Z.testbit (Z.land w (not64 (lastWordMask b))) r =
      bit b (64 * (m_numBits b / 64) + r)) as Hup.
    { intros r Hr Hge. rewrite Z.land_spec, not64_testbit, lastWordMask_testbit by lia.
      rewrite (bool_decide_true (r < 64)), bool_decide_false by lia.
      rewrite (bit_at b _ r w) by done. apply andb_true_r. }
    split.
    + intros Hz i Hi. destruct (decide (i < 64 * data_size b)) as [Hlt|].
      * replace i with (64 * (m_numBits b / 64) + (i - 64 * (m_numBits b / 64))) by lia.
        rewrite <- Hup by (Z.div_mod_to_equations; lia). rewrite Hz. apply Z.bits_0.
      * apply lbit_ge. change (Z.of_nat _) with (data_size b). lia.
    + intros Hhigh. bits_ext r Hr. rewrite Z.bits_0. destruct (decide (r < 64)).
      2: { by rewrite Z.land_spec, (in_word_testbit_high 64) by (done || lia). }
      destruct (decide (m_numBits b mod 64 <= r)).
      * rewrite Hup by lia. apply Hhigh. Z.div_mod_to_equations. lia.
      * rewrite Z.land_spec, not64_testbit, lastWordMask_testbit by lia.
        rewrite (bool_decide_true (r < m_numBits b mod 64)) by lia. by rewrite !andb_false_r.
Qed.

Lemma isValid_wf b : Forall (in_word 64) (m_data b) -> isValid b = Some true <-> wf b.
Proof.
  intros Hw. destruct (Z.lt_trichotomy (m_numBits b) 0) as [Hn|[Hn|Hn]].
  - split; [|intros Hwf; pose proof (wf_nonneg b Hwf); lia]. intros Hv. exfalso. revert Hv.
    unfold isValid. rewrite (proj2 (Z.eqb_neq _ _)), (proj2 (Z.ltb_lt _ _)) by lia. cbn.
    destruct (isLastWordFull b); [done|]. by destruct (getWord b _ _).
  - unfold isValid. rewrite Hn. cbn. split.
    + destruct (Z.eqb_spec (data_size b) 1) as [Hd|Hd]; [|done]. destruct (m_data b) as [|w [|? ?]] eqn:Hdat;
        try (unfold data_size in *; rewrite Hdat in *; cbn in *; lia).
      change ([w].[0]) with (Some w). cbn. destruct (Z.eqb_spec w 0) as [->|]; [|done].
      intros _. split; [lia| |by rewrite Hdat|].
      * unfold data_size. by rewrite Hdat, Hn.
      * intros i Hi. unfold bit. rewrite Hdat. destruct (decide (i < 64)).
        -- rewrite lbit_cons, decide_True by lia. apply Z.bits_0.
        -- apply lbit_ge. cbn. lia.
    + intros Hwf. pose proof (wf_words b Hwf) as Hd. rewrite Hn in Hd. cbn in Hd.
      rewrite Hd. cbn. destruct (wf_lookup_word b 0 Hwf) as (w & Hw0 & Hww); [lia|].
      rewrite Hw0. cbn. do 2 f_equal. apply Z.eqb_eq. bits_ext r Hr. rewrite Z.bits_0.
      destruct (decide (r < 64)).
      * rewrite <- (bit_at b 0 r w) by (done || lia). apply Hwf. lia.
      * apply (in_word_testbit_high 64); (done || lia).
  - split.
    + intros Hv. assert (data_size b = numWords (m_numBits b)) as Hds.
      { revert Hv. unfold isValid, numWords.
        rewrite !(proj2 (Z.eqb_neq (m_numBits b) 0)) by lia.
        destruct (Z.eqb_spec (Z.quot (m_numBits b - 1) BitsPerWord + 1) (data_size b)); [lia|].
        rewrite andb_false_r. destruct (isLastWordFull b); [done|].
        by destruct (getWord b _ _). }
      split; [lia|done|done|]. by apply isValid_positive.
    + intros Hwf. apply isValid_positive; [done|done|apply Hwf|apply Hwf].
Qed.

Lemma eq_op_spec a b :
  wf a -> wf b -> eq_op a b = true <-> m_numBits a = m_numBits b /\ elems a = elems b.
Proof.
  intros Ha Hb. unfold eq_op, size. rewrite <- elems_ext by done.
  destruct (Z.eqb_spec (m_numBits a) (m_numBits b)) as [Hn|Hn]; cbn; [|naive_solver].
  rewrite bool_decide_eq_true. split.
  - intros Hd. split; [done|]. intros i. unfold bit. by rewrite Hd.
  - intros [_ Hbits].
    assert (data_size a = data_size b) as Hds
      by (rewrite (wf_words a Ha), (wf_words b Hb); congruence).
    apply zlookup_ext; [unfold data_size in Hds; lia|]. intros i Hi.
    destruct (wf_lookup_word a i Ha) as (x & Hx & Hxw); [done|].
    destruct (wf_lookup_word b i Hb) as (y & Hy & Hyw); [rewrite <- Hds; done|].
    rewrite Hx, Hy. f_equal. bits_ext r Hr. destruct (decide (r < 64)).
    + rewrite <- (bit_at a i r x), <- (bit_at b i r y) by (done || lia). apply Hbits.
    + rewrite !(in_word_testbit_high 64) by (done || lia). done.
Qed.

(** ** Specification: operations on the finite set of set bits *)

(** The updates of the class, the compound assignments with their operand. *)
Inductive update :=
  | Clear | Set_ | Flip
  | ClearIdx (idx : Z) | SetIdx (idx : Z) | FlipIdx (idx : Z)
  | OrAssign (o : BitSet) | AndAssign (o : BitSet) | XorAssign (o : BitSet)
  | SubAssign (o : BitSet).

Definition run_update (b : BitSet) (u : update) : option BitSet :=
  match u with
  | Clear => clear b | Set_ => set_all b | Flip => flip_all b
  | ClearIdx i => clear_idx b i | SetIdx i => set_idx b i | FlipIdx i => flip_idx b i
  | OrAssign o => or_op b o | AndAssign o => and_op b o
  | XorAssign o => xor_op b o | SubAssign o => sub_op b o
  end.

Definition universe (n : Z) : gset Z := list_to_set (seqZ 0 n).

(** What an update does to the set of set bits of an [n]-bit set; [None] when
    the index is outside the set or the sizes differ. *)
Definition spec_update (n : Z) (s : gset Z) (u : update) : option (gset Z) :=
  let at_idx i s' := if decide (0 <= i < n) then Some s' else None in
  let with_set o s' := if decide (n = m_numBits o) then Some s' else None in
  match u with
  | Clear => Some ∅
  | Set_ => Some (universe n)
  | Flip => Some (universe n ∖ s)
  | ClearIdx i => at_idx i (s ∖ {[i]})
  | SetIdx i => at_idx i (s ∪ {[i]})
  | FlipIdx i => at_idx i (if decide (i ∈ s) then s ∖ {[i]} else s ∪ {[i]})
  | OrAssign o => with_set o (s ∪ elems o)
  | AndAssign o => with_set o (s ∩ elems o)
  | XorAssign o => with_set o ((s ∖ elems o) ∪ (elems o ∖ s))
  | SubAssign o => with_set o (s ∖ elems o)
  end.

Definition operand_wf (u : update) : Prop :=
  match u with
  | OrAssign o | AndAssign o | XorAssign o | SubAssign o => wf o
  | _ => True
  end.

Lemma universe_spec n i : i ∈ universe n <-> 0 <= i < n.
Proof. unfold universe. rewrite elem_of_list_to_set, elem_of_seqZ. lia. Qed.

(** From bits to sets: the set of a result whose bits satisfy [P]. *)
Lemma elems_intro b (s : gset Z) :
  wf b -> (forall i, bit b i = true <-> i ∈ s) -> elems b = s.
Proof. intros Hwf Hs. apply set_eq. intros i. by rewrite elems_spec. Qed.

Lemma bit_in_range b i : wf b -> bit b i = true -> 0 <= i < m_numBits b.
Proof.
  intros Hwf Hb. destruct (decide (i < 0)); [by rewrite bit_neg in Hb|].
  destruct (decide (i < m_numBits b)); [lia|]. by rewrite (wf_high b Hwf) in Hb by lia.
Qed.

Definition update_ok (b : BitSet) (u : update) : Prop :=
  match run_update b u with
  | Some b' => wf b' /\ m_numBits b' = m_numBits b /\
               spec_update (m_numBits b) (elems b) u = Some (elems b')
  | None => spec_update (m_numBits b) (elems b) u = None
  end.

Lemma update_ok_assign b o op v s' :
  wf b -> wf o ->
  (forall x y, in_word 64 x -> in_word 64 y -> in_word 64 (op x y)) ->
  (forall x y r, in_word 64 x -> in_word 64 y -> 0 <= r < 64 ->
     Z.testbit (op x y) r = v (Z.testbit x r) (Z.testbit y r)) ->
  v false false = false ->
  (forall i, v (bit b i) (bit o i) = true <-> i ∈ s') ->
  match assign_words op b o with
  | Some b' => wf b' /\ m_numBits b' = m_numBits b /\
               (if decide (m_numBits b = m_numBits o) then Some s' else None) = Some (elems b')
  | None => (if decide (m_numBits b = m_numBits o) then Some s' else None) = None
  end.
Proof.
  intros Hb Ho Hw Hop Hv Hs. case_decide as Hn.
  - destruct (assign_words_spec op v b o) as (b' & -> & Hwf & Hn' & Hbits); try done.
    split_and!; [done|done|]. f_equal. symmetry. apply elems_intro; [done|].
    intros i. by rewrite Hbits.
  - unfold assign_words, size. by rewrite (proj2 (Z.eqb_neq _ _)).
Qed.

Lemma update_ok_all b u : wf b -> operand_wf u -> update_ok b u.
Proof.
  intros Hwf Hu. unfold update_ok. destruct u as [| | |i|i|i|o|o|o|o]; cbn in *.
  - destruct (clear_all_spec b Hwf) as (b' & -> & Hwf' & Hn & Hbits).
    split_and!; [done|done|]. f_equal. symmetry. apply elems_intro; [done|].
    intros i. rewrite Hbits. set_solver.
  - destruct (set_all_spec b Hwf) as (b' & -> & Hwf' & Hn & Hbits).
    split_and!; [done|done|]. f_equal. symmetry. apply elems_intro; [done|].
    intros i. by rewrite Hbits, bool_decide_eq_true, universe_spec.
  - destruct (flip_all_spec b Hwf) as (b' & -> & Hwf' & Hn & Hbits).
    split_and!; [done|done|]. f_equal. symmetry. apply elems_intro; [done|].
    intros i. rewrite Hbits, andb_true_iff, bool_decide_eq_true, negb_true_iff.
    rewrite elem_of_difference, universe_spec, elems_spec by done.
    destruct (bit b i); naive_solver.
  - case_decide as Hi; [|by unfold clear_idx; rewrite updateWord_out_of_range].
    destruct (clear_idx_spec b i Hwf Hi) as (b' & -> & Hwf' & Hn & Hbits).
    split_and!; [done|done|]. f_equal. symmetry. apply elems_intro; [done|].
    intros j. rewrite Hbits, elem_of_difference, elem_of_singleton, elems_spec by done.
    case_decide; naive_solver.
  - case_decide as Hi; [|by unfold set_idx; rewrite updateWord_out_of_range].
    destruct (set_idx_spec b i Hwf Hi) as (b' & -> & Hwf' & Hn & Hbits).
    split_and!; [done|done|]. f_equal. symmetry. apply elems_intro; [done|].
    intros j. rewrite Hbits, elem_of_union, elem_of_singleton, elems_spec by done.
    case_decide; naive_solver.
  - case_decide as Hi; [|by unfold flip_idx; rewrite updateWord_out_of_range].
    destruct (flip_idx_spec b i Hwf Hi) as (b' & -> & Hwf' & Hn & Hbits).
    split_and!; [done|done|]. f_equal. symmetry. apply elems_intro; [done|].
    intros j. rewrite Hbits. destruct (decide (i ∈ elems b)) as [He|He];
      rewrite elems_spec in He by done.
    + rewrite elem_of_difference, elem_of_singleton, elems_spec by done.
      rewrite He. case_decide; naive_solver.
    + rewrite elem_of_union, elem_of_singleton, elems_spec by done.
      apply not_true_is_false in He. rewrite He. case_decide; naive_solver.
  - apply (update_ok_assign b o Z.lor orb); try done.
    + intros. by apply in_word_lor. + intros. apply Z.lor_spec.
    + intros i. rewrite elem_of_union, !elems_spec by done. apply orb_true_iff.
  - apply (update_ok_assign b o Z.land andb); try done.
    + intros. by apply in_word_land_any. + intros. apply Z.land_spec.
    + intros i. rewrite elem_of_intersection, !elems_spec by done. apply andb_true_iff.
  - apply (update_ok_assign b o Z.lxor xorb); try done.
    + intros. by apply in_word_lxor. + intros. apply Z.lxor_spec.
    + intros i. rewrite elem_of_union, !elem_of_difference, !elems_spec by done.
      destruct (bit b i), (bit o i); naive_solver.
  - apply (update_ok_assign b o _ (fun x y => x && negb y)); try done.
    + intros. by apply in_word_land_any.
    + intros x y r Hx Hy Hr. rewrite Z.land_spec, not64_testbit by lia.
      by rewrite bool_decide_true by lia.
    + intros i. rewrite elem_of_difference, !elems_spec by done.
      destruct (bit b i), (bit o i); naive_solver.
Qed.

(** ** Properties *)

(** C5: every update of a bit set (clear, set and flip of all bits and of one
    bit, and the four compound assignments) refines the operation on the finite
    set of set bits, keeps the bit set well formed and its size, and fails
    exactly when the index is out of range or the sizes differ. *)
Theorem bitset_update_refines_set b u :
  wf b -> operand_wf u ->
  match run_update b u with
  | Some b' => wf b' /\ m_numBits b' = m_numBits b /\
               spec_update (m_numBits b) (elems b) u = Some (elems b')
  | None => spec_update (m_numBits b) (elems b) u = None
  end.
Proof. apply update_ok_all. Qed.

Lemma bitset_update_refines_set_witness :
  exists b', run_update (make 70) (SetIdx 65) = Some b' /\ elems b' = {[65]}.
Proof.
  destruct (make_wf 70) as (Hwf & Hb & Hn).
  assert (elems (make 70) = ∅) as He
    by (apply elems_intro; [done|]; intros i; rewrite Hb; set_solver).
  pose proof (bitset_update_refines_set (make 70) (SetIdx 65) Hwf I) as H.
  rewrite Hn, He in H. unfold spec_update in H. rewrite decide_True in H by lia.
  destruct (run_update (make 70) (SetIdx 65)) as [b'|]; [|discriminate H].
  exists b'. split; [reflexivity|]. destruct H as (_ & _ & H). injection H as H.
  rewrite <- H. set_solver.
Defined.

(** The queries of a well-formed bit set are those of the finite set of its
    set bits: [test] is membership, [count] the number of elements, and
    [find_next] the least element above the given index, or [npos] when there is
    none. *)
Theorem bitset_queries b :
  wf b ->
  (forall i, test b i = Some (bool_decide (i ∈ elems b))) /\
  count b = Some (Z.of_nat (stdpp.base.size (elems b))) /\
  (forall idx, -1 <= idx -> exists r, find_next b idx = Some r /\
     ((r = npos /\ forall j, idx < j -> j ∉ elems b) \/
      (idx < r /\ r ∈ elems b /\ forall j, idx < j < r -> j ∉ elems b))).
Proof.
  intros Hwf. split_and!.
  - intros i. rewrite test_bit by done. f_equal. destruct (bit b i) eqn:Hb.
    + symmetry. by apply bool_decide_true, elems_spec.
    + symmetry. apply bool_decide_false. rewrite elems_spec by done. congruence.
  - by apply count_elems.
  - intros idx Hidx. destruct (find_next_spec b idx Hwf Hidx) as (r & -> & Hr).
    exists r. split; [done|]. destruct Hr as [[-> Hr]|(Hr & Hb & Hl)]; [left|right].
    + split; [done|]. intros j Hj. rewrite elems_spec, Hr by done. done.
    + split_and!; [lia|by apply elems_spec|]. intros j Hj. by rewrite elems_spec, Hl.
Qed.

Lemma bitset_queries_witness :
  wf (make 70) /\ count (make 70) = Some (Z.of_nat (stdpp.base.size (elems (make 70)))) /\
  (exists r, find_next (make 70) (-1) = Some r).
Proof.
  destruct (make_wf 70) as (Hwf & _). split; [exact Hwf|].
  destruct (bitset_queries (make 70) Hwf) as (_ & Hc & Hf). split; [exact Hc|].
  destruct (Hf (-1) ltac:(lia)) as (r & Hr & _). eauto.
Defined.

(** A newly built bit set is well formed and empty; [isValid] decides
    well-formedness of any array of 64-bit words; and [operator==] decides
    equality of size and of the represented sets. *)
Theorem bitset_valid_and_equal :
  (forall n, wf (make n) /\ elems (make n) = ∅ /\ size (make n) = Z.max n 0) /\
  (forall b, Forall (in_word 64) (m_data b) -> isValid b = Some true <-> wf b) /\
  (forall a b, wf a -> wf b ->
     eq_op a b = true <-> size a = size b /\ elems a = elems b).
Proof.
  split_and!.
  - intros n. destruct (make_wf n) as (Hwf & Hb & Hn). split_and!; [done| |done].
    apply elems_intro; [done|]. intros i. rewrite Hb. set_solver.
  - apply isValid_wf.
  - apply eq_op_spec.
Qed.

Lemma bitset_valid_and_equal_witness :
  isValid (make 100) = Some true /\ eq_op (make 100) (make 100) = true.
Proof.
  destruct bitset_valid_and_equal as (Hm & Hv & He).
  destruct (Hm 100) as (Hwf & _). split.
  - apply Hv; [apply Hwf|exact Hwf].
  - apply He; [exact Hwf|exact Hwf|done].
Defined.

End BitSet.
