(* ===== verification/Outcome.v ===== *)
(** * Results of code that can abort, and arithmetic on [axom::IndexType]

    The array components call [utilities::processAbort] for some errors, which is not
    undefined behaviour.  A computation here therefore ends in one of three ways: with a
    result, in an abort, or in undefined behaviour.

    [axom::IndexType] ([core/Types.hpp]) is a signed integer of 32 or 64 bits.  Signed
    arithmetic that leaves the range is undefined, so each operation of the code on it
    checks the range. *)

From S2P Require Import Prelude.

Module Outcome.

Inductive outcome (A : Type) : Type :=
  | Done (a : A)
  | Aborted
  | Undefined.
Arguments Done {A} a.
Arguments Aborted {A}.
Arguments Undefined {A}.

#[export] Instance outcome_ret : MRet outcome := fun A a => Done a.
#[export] Instance outcome_bind : MBind outcome := fun A B f o =>
  match o with Done a => f a | Aborted => Aborted | Undefined => Undefined end.

(** A partial operation that is undefined outside its domain. *)
Definition ub {A} (o : option A) : outcome A := match o with Some a => Done a | None => Undefined end.

(** An assertion that the build checks. *)
Definition assert_ (b : bool) : outcome unit := if b then Done tt else Aborted.

(** The result of an operation on [int]. *)
Definition as_int (z : Z) : outcome Z := ub (int32 z).

Lemma bind_Done {A B} (f : A -> outcome B) a : (Done a ≫= f) = f a.
Proof. done. Qed.

Lemma bind_inv {A B} (o : outcome A) (f : A -> outcome B) b :
  o ≫= f = Done b -> exists a, o = Done a /\ f a = Done b.
Proof. destruct o as [a| |]; [|done..]. by exists a. Qed.

Lemma bind_assoc {A B C} (o : outcome A) (f : A -> outcome B) (g : B -> outcome C) :
  (o ≫= f) ≫= g = o ≫= (fun a => f a ≫= g).
Proof. by destruct o. Qed.

Lemma as_int_small z : 0 <= z < 2 ^ 31 -> as_int z = Done z.
Proof. intros Hz. unfold as_int. by rewrite int32_id by lia. Qed.

Lemma assert_true b : b = true -> assert_ b = Done tt.
Proof. by intros ->. Qed.

(** ** Loops over the values of an index or the elements of a container *)

Fixpoint for_each {A S} (l : list A) (body : A -> S -> outcome S) (s : S) : outcome S :=
  match l with
  | [] => Done s
  | i :: l => s' ← body i s; for_each l body s'
  end.

(** [for(i = lo; i < hi; ++i)] and [for(i = hi; i >= lo; --i)]. *)
Definition up (lo hi : Z) : list Z := seqZ lo (hi - lo).
Definition down (hi lo : Z) : list Z := reverse (seqZ lo (hi + 1 - lo)).

Lemma for_each_app {S} l1 l2 (body : Z -> S -> outcome S) s :
  for_each (l1 ++ l2) body s = for_each l1 body s ≫= for_each l2 body.
Proof. revert s. induction l1 as [|i l1 IH]; intros s; [done|]. cbn. destruct (body i s); [apply IH|done..]. Qed.

Lemma for_each_fmap {S} (g : Z -> Z) l (body : Z -> S -> outcome S) s :
  for_each (g <$> l) body s = for_each l (fun i => body (g i)) s.
Proof. revert s. induction l as [|i l IH]; intros s; [done|]. cbn. destruct (body (g i) s); [apply IH|done..]. Qed.

Lemma for_each_ext {S} l (body body' : Z -> S -> outcome S) s :
  (forall i s, i ∈ l -> body i s = body' i s) -> for_each l body s = for_each l body' s.
Proof.
  revert s. induction l as [|i l IH]; intros s Hb; [done|]. cbn. rewrite Hb by (left; done).
  destruct (body' i s); [|done..]. apply IH. intros j s' Hj. apply Hb. by right.
Qed.

Lemma up_nil lo hi : hi <= lo -> up lo hi = [].
Proof. intros. unfold up. by rewrite seqZ_nil by lia. Qed.

Lemma up_cons lo hi : lo < hi -> up lo hi = lo :: up (lo + 1) hi.
Proof.
  intros. unfold up. rewrite seqZ_cons by lia. f_equal.
  by replace (Z.succ lo) with (lo + 1) by lia; replace (Z.pred (hi - lo)) with (hi - (lo + 1)) by lia.
Qed.

Lemma down_nil hi lo : hi < lo -> down hi lo = [].
Proof. intros. unfold down. by rewrite seqZ_nil by lia. Qed.

Lemma down_cons hi lo : lo <= hi -> down hi lo = hi :: down (hi - 1) lo.
Proof.
  intros. unfold down. replace (hi + 1 - lo) with ((hi - lo) + 1) by lia.
  rewrite seqZ_app by lia. rewrite reverse_app. replace (lo + (hi - lo)) with hi by lia.
  by replace (hi - 1 + 1 - lo) with (hi - lo) by lia.
Qed.

(** The two loops visit the same indices when one counts from the other end. *)
Lemma up_down a b c : up a b = (fun d => c - d) <$> down (c - a) (c - b + 1).
Proof.
  remember (Z.to_nat (b - a)) as n eqn:Hn. revert a Hn. induction n as [|n IH]; intros a Hn.
  - by rewrite up_nil, down_nil by lia.
  - rewrite up_cons, down_cons by lia. cbn. f_equal; [lia|]. rewrite (IH (a + 1)) by lia. by replace (c - (a + 1)) with (c - a - 1) by lia.
Qed.

Lemma elem_of_up i lo hi : i ∈ up lo hi <-> lo <= i < hi.
Proof. unfold up. rewrite elem_of_seqZ. lia. Qed.

Lemma elem_of_down i hi lo : i ∈ down hi lo <-> lo <= i <= hi.
Proof. unfold down. rewrite elem_of_reverse, elem_of_seqZ. lia. Qed.

(** The invariant rules of the two loops. *)
Lemma for_up_inv {S} (I : Z -> S -> Prop) lo hi body s :
  lo <= hi -> I lo s ->
  (forall i s, lo <= i < hi -> I i s -> exists s', body i s = Done s' /\ I (i + 1) s') ->
  exists s', for_each (up lo hi) body s = Done s' /\ I hi s'.
Proof.
  intros Hle. remember (Z.to_nat (hi - lo)) as n eqn:Hn.
  revert lo s Hle Hn. induction n as [|n IH]; intros lo s Hle Hn HI Hstep.
  - assert (lo = hi) as -> by lia. exists s. by rewrite up_nil by lia.
  - rewrite up_cons by lia. cbn. destruct (Hstep lo s) as (s' & -> & HI'); [lia|done|].
    cbn. apply IH; [lia|lia|done|]. intros i s'' Hi. apply Hstep. lia.
Qed.

Lemma for_down_inv {S} (I : Z -> S -> Prop) hi lo body s :
  lo <= hi + 1 -> I (hi + 1) s ->
  (forall i s, lo <= i <= hi -> I (i + 1) s -> exists s', body i s = Done s' /\ I i s') ->
  exists s', for_each (down hi lo) body s = Done s' /\ I lo s'.
Proof.
  intros Hle. remember (Z.to_nat (hi + 1 - lo)) as n eqn:Hn.
  revert hi s Hle Hn. induction n as [|n IH]; intros hi s Hle Hn HI Hstep.
  - assert (lo = hi + 1) as -> by lia. exists s. by rewrite down_nil by lia.
  - rewrite down_cons by lia. cbn. destruct (Hstep hi s) as (s' & -> & HI'); [lia|done|].
    cbn. apply IH; [lia|lia| |intros i s'' Hi; apply Hstep; lia]. by replace (hi - 1 + 1) with hi by lia.
Qed.

(** ** [axom::IndexType] *)

(** The number of bits, 32 or 64 as the build chooses. *)
Class IndexBits := { index_bits : Z; index_bits_ok : index_bits = 32 \/ index_bits = 64 }.

Definition IndexType32 : IndexBits := {| index_bits := 32; index_bits_ok := or_introl eq_refl |}.
Definition IndexType64 : IndexBits := {| index_bits := 64; index_bits_ok := or_intror eq_refl |}.

Section IndexType.
Context {IB : IndexBits}.

Definition index_max : Z := 2 ^ (index_bits - 1) - 1.

Definition fits (z : Z) : bool := (- index_max - 1 <=? z) && (z <=? index_max).

Definition ix (z : Z) : outcome Z := if fits z then Done z else Undefined.

Definition ix_add (a b : Z) : outcome Z := ix (a + b).
Definition ix_sub (a b : Z) : outcome Z := ix (a - b).
Definition ix_mul (a b : Z) : outcome Z := ix (a * b).

(** [a / b] and [a % b] truncate; dividing by zero is undefined. *)
Definition ix_div (a b : Z) : outcome Z := if b =? 0 then Undefined else ix (Z.quot a b).
Definition ix_rem (a b : Z) : outcome Z :=
  if b =? 0 then Undefined else _ ← ix (Z.quot a b); Done (Z.rem a b).

Lemma index_max_lower : 2 ^ 31 - 1 <= index_max.
Proof. unfold index_max. destruct index_bits_ok as [-> | ->]; done. Qed.

Lemma fits_small z : 0 <= z <= index_max -> fits z = true.
Proof. intros. unfold fits. apply andb_true_intro. split; apply Z.leb_le; lia. Qed.

Lemma ix_small z : 0 <= z <= index_max -> ix z = Done z.
Proof. intros. unfold ix. by rewrite fits_small. Qed.

Lemma ix_inv z r : ix z = Done r -> r = z.
Proof. unfold ix. destruct (fits z); [|done]. by intros [= ->]. Qed.

Lemma ix_add_small a b : 0 <= a + b <= index_max -> ix_add a b = Done (a + b).
Proof. apply ix_small. Qed.

Lemma ix_sub_small a b : 0 <= a - b <= index_max -> ix_sub a b = Done (a - b).
Proof. apply ix_small. Qed.

Lemma ix_mul_small a b : 0 <= a * b <= index_max -> ix_mul a b = Done (a * b).
Proof. apply ix_small. Qed.

Lemma ix_div_small a b : 0 <= a <= index_max -> 0 < b -> ix_div a b = Done (a / b).
Proof.
  intros Ha Hb. unfold ix_div. destruct (Z.eqb_spec b 0); [lia|]. rewrite Z.quot_div_nonneg by lia.
  apply ix_small. pose proof (Z.div_pos a b). pose proof (Z.div_le_upper_bound a b a). nia.
Qed.

Lemma ix_rem_small a b : 0 <= a <= index_max -> 0 < b -> ix_rem a b = Done (a mod b).
Proof.
  intros Ha Hb. unfold ix_rem. destruct (Z.eqb_spec b 0); [lia|]. rewrite Z.quot_div_nonneg, Z.rem_mod_nonneg by lia.
  rewrite ix_small; [done|]. pose proof (Z.div_pos a b). pose proof (Z.div_le_upper_bound a b a). nia.
Qed.
End IndexType.

End Outcome.
