(* ===== verification/MDMapping.v ===== *)
(** * Index mappings of multidimensional arrays ([core/MDMapping.hpp])

    An [MDMapping] has a stride for each of its [DIM] directions and the directions
    ordered from slowest to fastest.  It converts between multidimensional and flat
    indices.  A [StackArray] is a list of its [DIM] elements.

    Storage that is not initialized has arbitrary contents: the constructors take the
    mapping that happens to be in the storage of the new object, and [toMultiIndex] takes
    the contents of its local array. *)

From S2P Require Import Prelude Outcome.

Module MDMapping.
Import Outcome.

(** [StackArray::operator[]], for reading and for writing. *)
Definition get {A} (a : list A) (i : Z) : outcome A := ub a.[i].
Definition put {A} (a : list A) (i : Z) (x : A) : outcome (list A) := ub (zupdate a i x).

(** [axom::utilities::swap] of two elements of an array. *)
Definition swap_elems {A} (a : list A) (i j : Z) : outcome (list A) :=
  x ← get a i; y ← get a j; a' ← put a i y; put a' j x.

Inductive ArrayStrideOrder : Set := ARBITRARY | ROW | COLUMN | BOTH.

#[global] Instance ArrayStrideOrder_eq_dec : EqDecision ArrayStrideOrder.
Proof. solve_decision. Defined.

Definition order_int (o : ArrayStrideOrder) : Z :=
  match o with ARBITRARY => 0 | ROW => 1 | COLUMN => 2 | BOTH => Z.lor 1 2 end.

Definition s_intToOrder : list ArrayStrideOrder := [ARBITRARY; ROW; COLUMN; BOTH].

Record MDMapping : Set := mkMDMapping { m_strides : list Z; m_slowestDirs : list Z }.

#[global] Instance MDMapping_eq_dec : EqDecision MDMapping.
Proof. solve_decision. Defined.

(** [operator==] of [StackArray]: the loop that returns at the first difference. *)
Fixpoint StackArray_eq (a b : list Z) : bool :=
  match a, b with
  | x :: a, y :: b => if negb (x =? y) then false else StackArray_eq a b
  | _, _ => true
  end.

Definition StackArray_ne (a b : list Z) : bool := negb (StackArray_eq a b).

Fixpoint StackArray_lt (a b : list Z) : bool :=
  match a, b with
  | x :: a, y :: b => if x <? y then true else if y <? x then false else StackArray_lt a b
  | _, _ => false
  end.

Section Mapping.
Context {IB : IndexBits} (DIM : Z).

(** ** [numerics::dot_product] ([core/numerics/matvecops.hpp]) *)

Definition dot_product (u v : list Z) (dim : Z) : outcome Z :=
  u0 ← get u 0; v0 ← get v 0; res ← ix_mul u0 v0;
  for_each (up 1 dim) (fun i res => ui ← get u i; vi ← get v i; p ← ix_mul ui vi; ix_add res p) res.

(** ** Initialization *)

Definition with_strides (m : MDMapping) (s : list Z) : MDMapping := mkMDMapping s (m_slowestDirs m).
Definition with_dirs (m : MDMapping) (d : list Z) : MDMapping := mkMDMapping (m_strides m) d.

(** Assigning to [m_slowestDirs[d]] converts to [std::uint16_t]. *)
Definition set_dirs (m : MDMapping) (dir : Z -> outcome Z) : outcome MDMapping :=
  dirs ← for_each (up 0 DIM) (fun d dirs => x ← dir d; put dirs d (wrap 16 x)) (m_slowestDirs m);
  Done (with_dirs m dirs).

(** [initializeShape(shape, arrayStrideOrder, fastestStrideLength)]. *)
Definition initializeShape_order (m : MDMapping) (shape : list Z) (o : ArrayStrideOrder)
    (fastestStrideLength : Z) : outcome MDMapping :=
  if decide (o = COLUMN) then
    m ← set_dirs m (fun d => Done (DIM - 1 - d));
    s ← put (m_strides m) 0 fastestStrideLength;
    s ← for_each (up 1 DIM) (fun d s =>
      x ← get s (d - 1); n ← get shape (d - 1); p ← ix_mul x n; put s d p) s;
    Done (with_strides m s)
  else
    m ← set_dirs m (fun d => Done d);
    s ← put (m_strides m) (DIM - 1) fastestStrideLength;
    s ← for_each (down (DIM - 2) 0) (fun d s =>
      x ← get s (d + 1); n ← get shape (d + 1); p ← ix_mul x n; put s d p) s;
    Done (with_strides m s).

(** [initializeShape(shape, slowestDirs, fastestStrideLength)]. *)
Definition initializeShape_dirs (m : MDMapping) (shape slowestDirs : list Z)
    (fastestStrideLength : Z) : outcome MDMapping :=
  m ← set_dirs m (fun d => get slowestDirs d);
  last ← get (m_slowestDirs m) (DIM - 1);
  s ← put (m_strides m) last fastestStrideLength;
  s ← for_each (down (DIM - 2) 0) (fun d s =>
    dir ← get (m_slowestDirs m) d; fasterDir ← get (m_slowestDirs m) (d + 1);
    x ← get s fasterDir; n ← get shape fasterDir; p ← ix_mul x n; put s dir p) s;
  Done (with_strides m s).

(** [initializeShape(shape, orderSource)]. *)
Definition initializeShape_source (m : MDMapping) (shape : list Z) (orderSource : MDMapping) : outcome MDMapping :=
  initializeShape_dirs m shape (m_slowestDirs orderSource) 1.

Definition stridesAreUnique (strides : list Z) : outcome bool :=
  repeats ← for_each (up 1 DIM) (fun d =>
    for_each (up 0 d) (fun e repeats =>
      x ← get strides d; y ← get strides e; Done (repeats || (x =? y)))) false;
  Done (negb repeats).

(** [initializeStrides(strides, orderPref)]. *)
Definition initializeStrides_pref (m : MDMapping) (strides : list Z) (orderPref : ArrayStrideOrder) : outcome MDMapping :=
  let m := with_strides m strides in
  m ← set_dirs m (fun d => Done (if decide (orderPref = ROW) then d else DIM - 1 - d));
  dirs ← for_each (up 0 DIM) (fun s =>
    for_each (up s DIM) (fun d dirs =>
      ds ← get dirs s; dd ← get dirs d;
      xs ← get strides ds; xd ← get strides dd;
      if xs <? xd then swap_elems dirs s d else Done dirs)) (m_slowestDirs m);
  Done (with_dirs m dirs).

(** [initializeStrides(strides)]: on the host it aborts when strides repeat. *)
Definition initializeStrides (m : MDMapping) (strides : list Z) : outcome MDMapping :=
  unique ← stridesAreUnique strides;
  if negb unique then Aborted else initializeStrides_pref m strides ROW.

(** ** Constructors: [m0] is what the storage holds before *)

Definition MDMapping_order (m0 : MDMapping) := initializeShape_order m0.
Definition MDMapping_dirs (m0 : MDMapping) := initializeShape_dirs m0.
Definition MDMapping_source (m0 : MDMapping) := initializeShape_source m0.
Definition MDMapping_strides (m0 : MDMapping) (strides : list Z) := initializeStrides (with_strides m0 strides) strides.
Definition MDMapping_empty (m0 : MDMapping) (o : ArrayStrideOrder) : outcome MDMapping :=
  shape ← for_each (up 0 DIM) (fun d shape => put shape d 0) (m_strides m0);
  initializeShape_order m0 shape o 1.

(** ** Queries *)

Definition MDMapping_eq (a b : MDMapping) : bool :=
  StackArray_eq (m_slowestDirs a) (m_slowestDirs b) && StackArray_eq (m_strides a) (m_strides b).

Definition fastestStrideLength (m : MDMapping) : outcome Z :=
  last ← get (m_slowestDirs m) (DIM - 1); get (m_strides m) last.

(** [isPermutation]: the loop leaves [None] when it has to return [false]. *)
Definition isPermutation (v : list Z) : outcome bool :=
  found ← for_each (up 0 DIM) (fun d found =>
    match found with
    | None => Done None
    | Some found =>
        x ← get v d;
        if (x <? 0) || (DIM <=? x) then Done None
        else fx ← get found x;
             if eqb fx true then Done None else found ← put found x true; Done (Some found)
    end) (Some (replicate (Z.to_nat DIM) false));
  Done (bool_decide (is_Some found)).

Definition getStrideOrder (m : MDMapping) : outcome ArrayStrideOrder :=
  ord ← for_each (up 0 (DIM - 1)) (fun d ord =>
    x ← get (m_slowestDirs m) d; y ← get (m_slowestDirs m) (d + 1);
    Done (Z.land ord (order_int (if x <? y then ROW else COLUMN)))) (order_int BOTH);
  get s_intToOrder ord.

(** ** Conversions *)

Definition toFlatIndex (m : MDMapping) (multiIndex : list Z) : outcome Z := dot_product multiIndex (m_strides m) DIM.

Definition toMultiIndex (m : MDMapping) (stale : list Z) (flatIndex : Z) : outcome (list Z) :=
  r ← for_each (up 0 DIM) (fun d '(multiIndex, flatIndex) =>
    dir ← get (m_slowestDirs m) d;
    stride ← get (m_strides m) dir;
    q ← ix_div flatIndex stride;
    multiIndex ← put multiIndex dir q;
    p ← ix_mul q stride;
    flatIndex ← ix_sub flatIndex p;
    Done (multiIndex, flatIndex)) (stale, flatIndex);
  Done r.1.

End Mapping.

End MDMapping.
