(* ===== verification/MDMappingProofs.v ===== *)
(** * Proofs on index mappings

    The elements of an array in the order of the directions ([pick]), mixed-radix numbers
    ([prod], [radix], [encode], [decode]), and a lemma for each operation of
    [MDMapping]. *)

From S2P Require Import Prelude Outcome MDMapping.

Module MDMappingProofs.
Import Outcome MDMapping.

(** ** Elements of arrays *)

Definition el (l : list Z) (i : Z) : Z := default 0 l.[i].

(** The elements of [l] in the order of [dirs]. *)
Definition pick (l dirs : list Z) : list Z := el l <$> dirs.

Section arrays.
Context {A : Type}.

Lemma get_ok (l : list A) i x : l.[i] = Some x -> get l i = Done x.
Proof. unfold get. by intros ->. Qed.

Lemma put_ok (l : list A) i x : 0 <= i < Z.of_nat (length l) -> put l i x = Done (<[Z.to_nat i := x]> l).
Proof. intros. unfold put. by rewrite zupdate_lt. Qed.
End arrays.

Lemma get_el l i : 0 <= i < Z.of_nat (length l) -> get l i = Done (el l i).
Proof. intros [x Hx]%zlookup_lt. unfold get, el. by rewrite Hx. Qed.

Lemma zlookup_el l i : 0 <= i < Z.of_nat (length l) -> l.[i] = Some (el l i).
Proof. intros [x Hx]%zlookup_lt. unfold el. by rewrite Hx. Qed.

Lemma el_insert l i x j : 0 <= i < Z.of_nat (length l) ->
  el (<[Z.to_nat i := x]> l) j = if decide (i = j) then x else el l j.
Proof. intros. unfold el. rewrite zlookup_insert by done. by case_decide. Qed.

Lemma el_ext l1 l2 : length l1 = length l2 ->
  (forall i, 0 <= i < Z.of_nat (length l1) -> el l1 i = el l2 i) -> l1 = l2.
Proof. intros Hl He. apply zlookup_ext; [done|]. intros i Hi. rewrite !zlookup_el, He by lia. done. Qed.

Lemma zlookup_seqZ m n i : 0 <= i < n -> (seqZ m n).[i] = Some (m + i).
Proof. intros. rewrite zlookup_to_nat, lookup_seqZ_lt by lia. f_equal. lia. Qed.

Lemma pick_insert l i x dirs : 0 <= i < Z.of_nat (length l) -> i ∉ dirs -> pick (<[Z.to_nat i := x]> l) dirs = pick l dirs.
Proof.
  intros Hi Hn. apply list_fmap_ext. intros k j Hj. cbn. rewrite el_insert by done.
  rewrite decide_False; [done|]. intros ->. apply Hn. by eapply list_elem_of_lookup_2.
Qed.

Lemma pick_cons l d dirs : pick l (d :: dirs) = el l d :: pick l dirs.
Proof. done. Qed.

Lemma length_pick l dirs : length (pick l dirs) = length dirs.
Proof. apply length_fmap. Qed.

Lemma pick_el l dirs d : 0 <= d < Z.of_nat (length dirs) -> el (pick l dirs) d = el l (el dirs d).
Proof. intros Hd. unfold pick, el. rewrite zlookup_fmap. fold (el dirs d). by rewrite zlookup_el. Qed.

Lemma dropZ_step l d : 0 <= d < Z.of_nat (length l) -> dropZ d l = el l d :: dropZ (d + 1) l.
Proof.
  intros Hd. unfold dropZ. rewrite Z2Nat.inj_add by lia. replace (Z.to_nat d + Z.to_nat 1)%nat with (S (Z.to_nat d)) by lia.
  apply drop_S. rewrite <- zlookup_to_nat by lia. by apply zlookup_el.
Qed.

Lemma takeZ_step l d : 0 <= d < Z.of_nat (length l) -> takeZ (d + 1) l = takeZ d l ++ [el l d].
Proof.
  intros Hd. unfold takeZ. rewrite Z2Nat.inj_add by lia. replace (Z.to_nat d + Z.to_nat 1)%nat with (S (Z.to_nat d)) by lia.
  apply take_S_r. rewrite <- zlookup_to_nat by lia. by apply zlookup_el.
Qed.

Lemma pick_dropZ l d dirs : pick l (dropZ d dirs) = dropZ d (pick l dirs).
Proof. unfold pick, dropZ. by rewrite fmap_drop. Qed.

(** ** Permutations of the directions *)

Definition directions (DIM : Z) (dirs : list Z) : Prop := dirs ≡ₚ seqZ 0 DIM.

#[export] Instance directions_dec DIM dirs : Decision (directions DIM dirs).
Proof. unfold directions. apply _. Defined.

Section directions.
Context (DIM : Z) (dirs : list Z) (Hp : directions DIM dirs).

Lemma directions_length : Z.of_nat (length dirs) = Z.max 0 DIM.
Proof. rewrite (Permutation_length Hp), length_seqZ. lia. Qed.

Lemma directions_NoDup : NoDup dirs.
Proof. rewrite Hp. apply NoDup_seqZ. Qed.

Lemma directions_elem i : i ∈ dirs <-> 0 <= i < DIM.
Proof. rewrite Hp, elem_of_seqZ. lia. Qed.

Lemma directions_el d : 0 <= d < DIM -> 0 <= el dirs d < DIM.
Proof.
  intros Hd. apply directions_elem. eapply (list_elem_of_lookup_2 _ (Z.to_nat d)).
  rewrite <- zlookup_to_nat by lia. apply zlookup_el. rewrite directions_length. lia.
Qed.

Lemma directions_inj d e : 0 <= d < DIM -> 0 <= e < DIM -> el dirs d = el dirs e -> d = e.
Proof.
  intros Hd He Heq. apply Z2Nat.inj; [lia..|]. pose proof directions_length.
  eapply (NoDup_lookup dirs _ _ (el dirs d)); [apply directions_NoDup| |rewrite Heq].
  all: rewrite <- zlookup_to_nat by lia; apply zlookup_el; lia.
Qed.

Lemma directions_surj i : 0 <= i < DIM -> exists d, 0 <= d < DIM /\ el dirs d = i.
Proof.
  intros [k Hk]%directions_elem%list_elem_of_lookup_1. pose proof directions_length.
  pose proof (lookup_lt_Some _ _ _ Hk). exists (Z.of_nat k). split; [lia|].
  unfold el. by rewrite zlookup_of_nat, Hk.
Qed.

(** The direction of an index is not among the later ones. *)
Lemma directions_later d e : 0 <= d < e -> d < DIM -> el dirs d ∉ dropZ e dirs.
Proof.
  intros Hd HD [k Hk]%list_elem_of_lookup_1. unfold dropZ in Hk. rewrite lookup_drop in Hk.
  pose proof (lookup_lt_Some _ _ _ Hk). pose proof directions_length.
  assert (d = Z.of_nat (Z.to_nat e + k)) as Hde; [|lia].
  apply directions_inj; [lia..|]. unfold el at 2. by rewrite zlookup_of_nat, Hk.
Qed.

Lemma pick_inj l1 l2 : Z.of_nat (length l1) = DIM -> Z.of_nat (length l2) = DIM ->
  pick l1 dirs = pick l2 dirs -> l1 = l2.
Proof.
  intros H1 H2 Heq. apply el_ext; [lia|]. intros i Hi. destruct (directions_surj i) as (d & Hd & <-); [lia|].
  pose proof directions_length. rewrite <- !pick_el by lia. by rewrite Heq.
Qed.

(** Any list is the pick of some array. *)
Lemma pick_surj Y : length Y = length dirs -> exists l, Z.of_nat (length l) = Z.max 0 DIM /\ pick l dirs = Y.
Proof.
  intros HY. set (M := list_to_map (zip dirs Y) : gmap Z Z).
  exists ((fun i => default 0 (M !! i)) <$> seqZ 0 DIM). split; [rewrite length_fmap, length_seqZ; lia|].
  apply list_eq. intros k. unfold pick. rewrite list_lookup_fmap. destruct (dirs !! k) as [i|] eqn:Hk; cbn.
  - destruct (lookup_lt_is_Some_2 Y k) as [y Hy]; [rewrite HY; by eapply lookup_lt_Some|]. rewrite Hy. f_equal.
    assert (0 <= i < DIM) by (eapply directions_elem, list_elem_of_lookup_2; done).
    unfold el. rewrite zlookup_fmap, zlookup_seqZ by lia. cbn. subst M.
    erewrite elem_of_list_to_map_1; [done| |apply list_elem_of_lookup; exists k; rewrite lookup_zip_with, Hk; cbn; by rewrite Hy].
    rewrite fst_zip by lia. apply directions_NoDup.
  - symmetry. apply lookup_ge_None_2. rewrite HY. by apply lookup_ge_None_1.
Qed.
End directions.

Lemma Forall2_pick DIM (P : Z -> Z -> Prop) l1 l2 dirs :
  directions DIM dirs -> Z.of_nat (length l1) = DIM -> Z.of_nat (length l2) = DIM ->
  Forall2 P l1 l2 <-> Forall2 P (pick l1 dirs) (pick l2 dirs).
Proof.
  intros Hp H1 H2. unfold pick. rewrite Forall2_fmap. split; intros HP.
  - apply Forall2_same_length_lookup_2; [done|]. intros i x y Hx Hy. replace y with x by congruence.
    assert (0 <= x < DIM) by (eapply (directions_elem _ _ Hp), list_elem_of_lookup_2; done).
    apply (Forall2_lookup_lr _ _ _ (Z.to_nat x) _ _ HP); rewrite <- zlookup_to_nat by lia; apply zlookup_el; lia.
  - apply Forall2_same_length_lookup_2; [lia|]. intros i x y Hx Hy.
    pose proof (lookup_lt_Some _ _ _ Hx).
    destruct (directions_surj _ _ Hp (Z.of_nat i)) as (d & Hd & Hi); [lia|]. pose proof (directions_length _ _ Hp).
    assert (dirs !! Z.to_nat d = Some (Z.of_nat i)) as Hdi by (rewrite <- zlookup_to_nat, zlookup_el, Hi by lia; done).
    pose proof (Forall2_lookup_lr _ _ _ _ _ _ HP Hdi Hdi) as HPi. cbn in HPi. unfold el in HPi.
    by rewrite !zlookup_of_nat, Hx, Hy in HPi.
Qed.

(** ** Mixed-radix numbers *)

Definition prod (N : list Z) : Z := foldr Z.mul 1 N.

(** The weights of the digits of a number with the radices [N], slowest first, the
    fastest with weight [f]. *)
Fixpoint radix (f : Z) (N : list Z) : list Z :=
  match N with [] => [] | _ :: N => f * prod N :: radix f N end.

Definition dot (u v : list Z) : Z := sumZ (zip_with Z.mul u v).

Fixpoint encode (N Y : list Z) : Z :=
  match N, Y with _ :: N, y :: Y => y * prod N + encode N Y | _, _ => 0 end.

Fixpoint decode (N : list Z) (k : Z) : list Z :=
  match N with [] => [] | _ :: N => k / prod N :: decode N (k mod prod N) end.

Notation digits := (Forall2 (fun y n => 0 <= y < n)).

Lemma prod_pos N : Forall (Z.lt 0) N -> 0 < prod N.
Proof. induction 1; cbn; [lia|]. unfold prod in *. nia. Qed.

Lemma prod_perm N N' : N ≡ₚ N' -> prod N = prod N'.
Proof. unfold prod. induction 1; cbn; [done|congruence|ring|congruence]. Qed.

Lemma prod_app l1 l2 : prod (l1 ++ l2) = prod l1 * prod l2.
Proof.
  induction l1 as [|x l1 IH]; [cbn; change (foldr Z.mul 1 l2) with (prod l2); lia|].
  change (x * prod (l1 ++ l2) = x * prod l1 * prod l2). rewrite IH. ring.
Qed.

Lemma length_radix f N : length (radix f N) = length N.
Proof. induction N; cbn; congruence. Qed.

Lemma digits_pos Y N : digits Y N -> Forall (Z.lt 0) N.
Proof. induction 1; constructor; [lia|done]. Qed.

Lemma encode_bound N Y : digits Y N -> 0 <= encode N Y < prod N.
Proof.
  induction 1 as [|y n Y N Hy HY IH]; cbn; [lia|]. pose proof (prod_pos N (digits_pos _ _ HY)).
  change (foldr Z.mul 1 N) with (prod N). nia.
Qed.

Lemma decode_digits N k : Forall (Z.lt 0) N -> 0 <= k < prod N -> digits (decode N k) N /\ encode N (decode N k) = k.
Proof.
  intros HN. revert k. induction HN as [|n N Hn HN IH]; intros k Hk; cbn in *; [split; [done|lia]|].
  change (foldr Z.mul 1 N) with (prod N) in *. pose proof (prod_pos N HN).
  destruct (IH (k mod prod N)) as [HD HE]; [apply Z.mod_pos_bound; lia|]. split.
  - constructor; [|done]. split; [apply Z.div_pos; lia|apply Z.div_lt_upper_bound; lia].
  - rewrite HE. pose proof (Z.div_mod k (prod N)). lia.
Qed.

Lemma dot_radix f N Y : length Y = length N -> dot Y (radix f N) = f * encode N Y.
Proof.
  revert Y. induction N as [|n N IH]; intros [|y Y] HL; cbn; try done; [lia|].
  specialize (IH Y ltac:(cbn in HL; lia)). unfold dot in IH |- *. cbn. rewrite IH. lia.
Qed.

Lemma dot_pick DIM u v dirs : directions DIM dirs -> Z.of_nat (length u) = DIM -> Z.of_nat (length v) = DIM ->
  dot u v = dot (pick u dirs) (pick v dirs).
Proof.
  intros Hp Hu Hv. unfold dot, pick.
  assert (forall l, zip_with Z.mul (el u <$> l) (el v <$> l) = (fun i => el u i * el v i) <$> l) as Hz
    by (induction l; cbn; congruence).
  rewrite Hz. erewrite (sumZ_perm ((fun i => el u i * el v i) <$> dirs)) by (by rewrite Hp).
  f_equal. apply zlookup_ext; [rewrite length_zip_with, length_fmap, length_seqZ; lia|].
  intros i Hi. rewrite length_zip_with in Hi. rewrite zlookup_fmap, zlookup_seqZ by lia. cbn [fmap option_fmap option_map].
  rewrite zlookup_to_nat, lookup_zip_with, <- !zlookup_to_nat, !zlookup_el by lia. done.
Qed.

(** ** Operations *)

Section operations.
Context {IB : IndexBits} (DIM : Z) (HD : 1 <= DIM <= 2 ^ 16).

Lemma sumZ_take w i : Forall (Z.le 0) w -> 0 <= sumZ (takeZ i w) <= sumZ w.
Proof.
  unfold takeZ. generalize (Z.to_nat i) as n. intros n Hw. revert n.
  induction Hw as [|x w Hx Hw IH]; intros [|n]; cbn; try lia.
  - specialize (IH 0%nat). cbn in *. lia.
  - specialize (IH n). lia.
Qed.

Lemma dot_product_ok u v :
  Z.of_nat (length u) = DIM -> Z.of_nat (length v) = DIM -> Forall (Z.le 0) u -> Forall (Z.le 0) v ->
  dot u v <= index_max -> dot_product u v DIM = Done (dot u v).
Proof.
  intros Hu Hv Pu Pv Hmax. set (w := zip_with Z.mul u v).
  assert (Z.of_nat (length w) = DIM) as Hw by (subst w; rewrite length_zip_with; lia).
  assert (forall i, 0 <= i < DIM -> el w i = el u i * el v i) as Hel.
  { intros i Hi. unfold el at 1. subst w. rewrite zlookup_to_nat, lookup_zip_with, <- !zlookup_to_nat, !zlookup_el by lia. done. }
  assert (Forall (Z.le 0) w) as Pw.
  { subst w. clear -Pu Pv. revert v Pv. induction Pu; intros v Pv; [done|]. destruct Pv; cbn; constructor; [lia|auto]. }
  assert (forall i, 0 <= i < DIM -> 0 <= sumZ (takeZ i w) /\ 0 <= el w i <= index_max /\ sumZ (takeZ i w) + el w i = sumZ (takeZ (i + 1) w) /\
    sumZ (takeZ (i + 1) w) <= index_max) as Hs.
  { intros i Hi. rewrite takeZ_step, sumZ_app by lia. cbn [sumZ]. pose proof (sumZ_take w (i + 1) Pw) as Ht.
    rewrite takeZ_step, sumZ_app in Ht by lia. cbn [sumZ] in Ht. pose proof (sumZ_take w i Pw).
    pose proof (zlookup_Forall _ w i (el w i) Pw (zlookup_el w i ltac:(lia))). change (sumZ w) with (dot u v) in *. lia. }
  destruct (for_up_inv (fun i res => res = sumZ (takeZ i w)) 1 DIM
    (fun i res => ui ← get u i; vi ← get v i; p ← ix_mul ui vi; ix_add res p) (el w 0)) as (r & Hr & ->).
  - lia.
  - destruct (Hs 0) as (_ & _ & He & _); [lia|]. change (0 + 1) with 1 in He. change (sumZ (takeZ 0 w)) with 0 in He. lia.
  - intros i res Hi ->. rewrite !get_el by lia. cbn [mbind outcome_bind]. rewrite ix_mul_small, <- Hel by (try (rewrite <- Hel by lia; apply Hs); lia).
    cbn [mbind outcome_bind]. destruct (Hs i) as (? & ? & He & ?); [lia|]. rewrite ix_add_small by lia. eauto.
  - unfold dot_product. rewrite !get_el by lia. cbn [mbind outcome_bind].
    rewrite ix_mul_small, <- Hel by (try (rewrite <- Hel by lia; apply Hs); lia).
    cbn [mbind outcome_bind]. rewrite Hr. f_equal. unfold takeZ. by rewrite take_ge by lia.
Qed.

(** The directions that an initializer writes. *)
Lemma set_dirs_ok m dir x :
  Z.of_nat (length (m_slowestDirs m)) = DIM -> (forall d, 0 <= d < DIM -> dir d = Done (x d)) ->
  set_dirs DIM m dir = Done (with_dirs m ((fun d => wrap 16 (x d)) <$> seqZ 0 DIM)).
Proof.
  intros Hl Hx. destruct (for_up_inv (fun i l => Z.of_nat (length l) = DIM /\ forall d, 0 <= d < i -> el l d = wrap 16 (x d)) 0 DIM
    (fun d dirs => x ← dir d; put dirs d (wrap 16 x)) (m_slowestDirs m)) as (l & Hr & Hl' & He).
  - lia.
  - split; [done|lia].
  - intros i l Hi [Hl' He]. rewrite Hx by lia. cbn [mbind outcome_bind]. rewrite put_ok by lia. eexists. split; [done|].
    split; [by rewrite length_insert|]. intros d Hd. rewrite el_insert by lia. case_decide; [by subst|]. apply He. lia.
  - unfold set_dirs. rewrite Hr. cbn. do 2 f_equal. apply el_ext; [rewrite length_fmap, length_seqZ; lia|].
    intros i Hi. rewrite He by lia. unfold el. by rewrite zlookup_fmap, zlookup_seqZ by lia.
Qed.

Lemma wrap16_dirs dirs : directions DIM dirs -> (fun d => wrap 16 (el dirs d)) <$> seqZ 0 DIM = dirs.
Proof.
  intros Hp. pose proof (directions_length _ _ Hp). apply el_ext; [rewrite length_fmap, length_seqZ; lia|].
  rewrite length_fmap, length_seqZ. intros i Hi. unfold el at 1. rewrite zlookup_fmap, zlookup_seqZ by lia. cbn.
  apply wrap_id; [lia|]. pose proof (directions_el _ _ Hp i ltac:(lia)). unfold in_word. lia.
Qed.

(** A mapping that lays out an array of the given shape, direction by direction. *)
Record laid_out (m : MDMapping) (shape dirs : list Z) (f : Z) : Prop := {
  lo_dirs : m_slowestDirs m = dirs;
  lo_length : Z.of_nat (length (m_strides m)) = DIM;
  lo_strides : pick (m_strides m) dirs = radix f (pick shape dirs) }.

Lemma prod_dropZ N d : Forall (Z.lt 0) N -> 1 <= prod (dropZ d N) <= prod N.
Proof.
  intros HN. split; [pose proof (prod_pos (dropZ d N) (Forall_drop _ _ _ HN)); lia|].
  unfold dropZ. generalize (Z.to_nat d) as n. induction HN as [|x N Hx HN IH]; intros [|n]; cbn; try lia.
  specialize (IH n). pose proof (prod_pos _ (Forall_drop _ n _ HN)). unfold prod in *. nia.
Qed.

Lemma radix_dropZ f N d : 0 <= d < Z.of_nat (length N) ->
  radix f (dropZ d N) = f * prod (dropZ (d + 1) N) :: radix f (dropZ (d + 1) N).
Proof. intros. by rewrite dropZ_step. Qed.

Lemma pick_prod shape dirs : directions DIM dirs -> Z.of_nat (length shape) = DIM -> prod (pick shape dirs) = prod shape.
Proof.
  intros Hp Hsh. apply prod_perm. unfold pick. rewrite Hp. apply reflexive_eq. apply el_ext; rewrite ?length_fmap, ?length_seqZ; [lia|].
  intros i Hi. unfold el at 1. by rewrite zlookup_fmap, zlookup_seqZ by lia.
Qed.

Lemma pick_pos shape dirs : directions DIM dirs -> Z.of_nat (length shape) = DIM -> Forall (Z.lt 0) shape ->
  Forall (Z.lt 0) (pick shape dirs).
Proof.
  intros Hp Hsh Psh. apply Forall_fmap, Forall_forall. intros i Hi%(directions_elem _ _ Hp). cbn.
  eapply (zlookup_Forall _ shape i); [done|]. apply zlookup_el. lia.
Qed.

Lemma initializeShape_dirs_ok m0 shape dirs f :
  Z.of_nat (length (m_strides m0)) = DIM -> Z.of_nat (length (m_slowestDirs m0)) = DIM ->
  directions DIM dirs -> Z.of_nat (length shape) = DIM -> Forall (Z.lt 0) shape -> 0 < f -> f * prod shape <= index_max ->
  exists m, initializeShape_dirs DIM m0 shape dirs f = Done m /\ laid_out m shape dirs f.
Proof.
  intros Hs0 Hd0 Hp Hsh Psh Hf Hmax. pose proof (directions_length _ _ Hp) as Hlen.
  unfold initializeShape_dirs. rewrite (set_dirs_ok m0 _ (el dirs)) by (done || intros; apply get_el; lia).
  cbn [mbind outcome_bind]. rewrite wrap16_dirs by done. cbn [m_slowestDirs m_strides with_dirs].
  rewrite get_el by lia. cbn [mbind outcome_bind].
  pose proof (directions_el _ _ Hp (DIM - 1) ltac:(lia)) as Hlast. rewrite put_ok by lia. cbn [mbind outcome_bind].
  set (N := pick shape dirs). assert (length N = length dirs) as HN by apply length_pick.
  pose proof (pick_prod shape dirs Hp Hsh : prod N = _) as HNp. pose proof (pick_pos shape dirs Hp Hsh Psh : Forall _ N) as PN.
  destruct (for_down_inv (fun d s => Z.of_nat (length s) = DIM /\ pick s (dropZ d dirs) = radix f (dropZ d N)) (DIM - 2) 0
    (fun d s => dir ← get dirs d; fasterDir ← get dirs (d + 1); x ← get s fasterDir; n ← get shape fasterDir;
                p ← ix_mul x n; put s dir p) (<[Z.to_nat (el dirs (DIM - 1)):=f]> (m_strides m0))) as (s & Hr & Hl & Hpick).
  - lia.
  - split; [by rewrite length_insert|]. replace (DIM - 2 + 1) with (DIM - 1) by lia.
    rewrite (dropZ_step dirs) by lia. rewrite (radix_dropZ f N) by lia. replace (DIM - 1 + 1) with DIM by lia.
    unfold dropZ. rewrite !drop_ge by lia. cbn. rewrite el_insert, decide_True by (lia || done). f_equal. lia.
  - intros d s Hd [Hl Hpick].
    pose proof (directions_el _ _ Hp d ltac:(lia)). pose proof (directions_el _ _ Hp (d + 1) ltac:(lia)).
    rewrite !get_el by lia. cbn [mbind outcome_bind]. rewrite !get_el by lia. cbn [mbind outcome_bind].
    rewrite (dropZ_step dirs), (radix_dropZ f N) in Hpick by lia. cbn in Hpick. injection Hpick as Hx Hrest.
    rewrite Hx. assert (el shape (el dirs (d + 1)) = el N (d + 1)) as -> by (unfold N; rewrite pick_el by lia; done).
    assert (f * prod (dropZ (d + 1 + 1) N) * el N (d + 1) = f * prod (dropZ (d + 1) N)) as Hmul.
    { rewrite (dropZ_step N (d + 1)) by lia. cbn. change (foldr Z.mul 1 ?l) with (prod l). ring. }
    pose proof (prod_dropZ N (d + 1) PN). rewrite ix_mul_small, Hmul by nia. cbn [mbind outcome_bind]. rewrite put_ok by lia.
    eexists. split; [done|]. split; [by rewrite length_insert|].
    rewrite (dropZ_step dirs d), (radix_dropZ f N d) by lia. rewrite pick_cons, el_insert, decide_True by (lia || done).
    f_equal. rewrite pick_insert by (lia || (apply (directions_later _ _ Hp); lia)).
    rewrite (dropZ_step dirs (d + 1)), (radix_dropZ f N (d + 1)) by lia. cbn. by rewrite Hx, Hrest.
  - rewrite Hr. cbn. eexists. split; [done|]. split; cbn; [done|done|]. exact Hpick.
Qed.

(** The conversions of a mapping that lays out an array. *)
Section conversions.
Context (m : MDMapping) (shape dirs : list Z) (f : Z).
Context (Hp : directions DIM dirs) (Hsh : Z.of_nat (length shape) = DIM) (Psh : Forall (Z.lt 0) shape).
Context (Hf : 0 < f) (Hmax : f * prod shape <= index_max) (Hm : laid_out m shape dirs f).
Let N := pick shape dirs.

Lemma strides_nonneg : Forall (Z.le 0) (m_strides m).
Proof.
  apply Forall_lookup. intros i x Hx. pose proof (lookup_lt_Some _ _ _ Hx). destruct Hm as [_ Hl Hs].
  destruct (directions_surj _ _ Hp (Z.of_nat i)) as (d & Hd & Hi); [lia|]. pose proof (directions_length _ _ Hp).
  assert (el (pick (m_strides m) dirs) d = x) as Hpx by (rewrite pick_el, Hi by lia; unfold el; by rewrite zlookup_of_nat, Hx).
  rewrite Hs in Hpx. assert (Forall (Z.le 0) (radix f N)) as HR.
  { pose proof (pick_pos shape dirs Hp Hsh Psh : Forall _ N) as PN. clear -PN Hf. induction PN as [|n N Hn PN IH]; cbn; constructor; [|done].
    pose proof (prod_pos N PN). nia. }
  rewrite <- Hpx. eapply (zlookup_Forall _ _ d); [exact HR|]. apply zlookup_el. rewrite length_radix, length_pick. lia.
Qed.

Lemma index_digits idx : digits idx shape -> digits (pick idx dirs) N /\ Z.of_nat (length idx) = DIM.
Proof.
  intros Hi. pose proof (Forall2_length _ _ _ Hi). split; [|lia]. by apply (Forall2_pick DIM _ idx shape dirs Hp); [lia..|].
Qed.

Lemma toFlatIndex_ok idx : digits idx shape -> toFlatIndex DIM m idx = Done (f * encode N (pick idx dirs)).
Proof.
  intros Hi. destruct (index_digits idx Hi) as [HY Hl]. pose proof (encode_bound _ _ HY) as Hb.
  pose proof (pick_prod shape dirs Hp Hsh : prod N = _) as HNp. destruct Hm as [Hd Hls Hs].
  assert (dot idx (m_strides m) = f * encode N (pick idx dirs)) as E.
  { rewrite (dot_pick DIM idx _ dirs) by done. rewrite Hs. apply dot_radix. unfold N. by rewrite !length_pick. }
  unfold toFlatIndex. rewrite dot_product_ok; [by rewrite E|done|done| |apply strides_nonneg|rewrite E; nia].
  clear -Hi. induction Hi; constructor; [lia|done].
Qed.

Lemma encode_dropZ Y d : length Y = length N -> 0 <= d < Z.of_nat (length N) ->
  encode (dropZ d N) (dropZ d Y) = el Y d * prod (dropZ (d + 1) N) + encode (dropZ (d + 1) N) (dropZ (d + 1) Y).
Proof. intros. by rewrite (dropZ_step N), (dropZ_step Y) by lia. Qed.

Lemma stride_el d : 0 <= d < DIM -> el (m_strides m) (el dirs d) = f * prod (dropZ (d + 1) N).
Proof.
  intros Hd. pose proof (directions_length _ _ Hp) as Hlen. pose proof (length_pick shape dirs : length N = _) as HN.
  rewrite <- pick_el, (lo_strides _ _ _ _ Hm) by lia. fold N. assert (0 <= d < Z.of_nat (length N)) as HdN by lia. clear -HdN.
  pose proof (radix_dropZ f N d HdN) as HR. replace (radix f (dropZ d N)) with (dropZ d (radix f N)) in HR.
  - rewrite (dropZ_step (radix f N)) in HR by (rewrite length_radix; lia). by injection HR.
  - unfold dropZ. clear HR HdN. generalize (Z.to_nat d). induction N as [|n N' IH]; intros [|k]; cbn; [done..|apply IH].
Qed.

(** What one step of [toMultiIndex] divides, and what it leaves. *)
Lemma digit_step idx d (rest := f * encode (dropZ d N) (dropZ d (pick idx dirs))) (stride := f * prod (dropZ (d + 1) N)) :
  digits idx shape -> 0 <= d < DIM ->
  0 <= rest <= index_max /\ 0 < stride /\ rest / stride = el idx (el dirs d) /\
  0 <= el idx (el dirs d) * stride <= rest /\
  rest - el idx (el dirs d) * stride = f * encode (dropZ (d + 1) N) (dropZ (d + 1) (pick idx dirs)).
Proof.
  intros Hi Hd. destruct (index_digits idx Hi) as [HY Hl]. pose proof (directions_length _ _ Hp) as Hlen.
  pose proof (pick_prod shape dirs Hp Hsh : prod N = _) as HNp. pose proof (pick_pos shape dirs Hp Hsh Psh : Forall _ N) as PN.
  pose proof (length_pick shape dirs : length N = _) as HN. pose proof (length_pick idx dirs) as HYl.
  assert (el (pick idx dirs) d = el idx (el dirs d)) as HYe by (by rewrite pick_el by lia).
  set (Y := pick idx dirs) in *.
  pose proof (encode_bound _ _ (Forall2_drop _ _ _ (Z.to_nat (d + 1)) HY) : 0 <= encode (dropZ (d + 1) N) (dropZ (d + 1) Y) < prod (dropZ (d + 1) N)) as Hb.
  pose proof (encode_bound _ _ (Forall2_drop _ _ _ (Z.to_nat d) HY) : 0 <= encode (dropZ d N) (dropZ d Y) < prod (dropZ d N)) as Hb0.
  pose proof (prod_dropZ N d PN) as Hpb0. pose proof (encode_dropZ Y d ltac:(lia) ltac:(lia)) as HE.
  assert (0 <= el Y d) as HY0.
  { rewrite HYe. assert (Forall (Z.le 0) idx) as Pi by (clear -Hi; induction Hi; constructor; [lia|done]).
    eapply (zlookup_Forall _ _ _ _ Pi). apply zlookup_el. pose proof (directions_el _ _ Hp d Hd). lia. }
  subst rest stride. rewrite <- HYe. split_and!; [nia|nia|apply Z.mul_pos_pos; lia| |apply Z.mul_nonneg_nonneg; [lia|apply Z.mul_nonneg_nonneg; lia]|rewrite HE; nia|rewrite HE; ring].
  rewrite Z.div_mul_cancel_l by lia. rewrite HE, Z.div_add_l by lia. rewrite Z.div_small by lia. lia.
Qed.

Lemma toMultiIndex_ok idx stale : digits idx shape -> Z.of_nat (length stale) = DIM ->
  toMultiIndex DIM m stale (f * encode N (pick idx dirs)) = Done idx.
Proof.
  intros Hi Hst. destruct (index_digits idx Hi) as [_ Hl]. pose proof (directions_length _ _ Hp) as Hlen.
  pose proof (lo_length _ _ _ _ Hm) as Hls.
  destruct (for_up_inv (fun d '(mi, rest) => Z.of_nat (length mi) = DIM /\
      (forall e, 0 <= e < d -> el mi (el dirs e) = el idx (el dirs e)) /\ rest = f * encode (dropZ d N) (dropZ d (pick idx dirs))) 0 DIM
    (fun d '(multiIndex, flatIndex) =>
      dir ← get dirs d; stride ← get (m_strides m) dir; q ← ix_div flatIndex stride;
      multiIndex ← put multiIndex dir q; p ← ix_mul q stride; flatIndex ← ix_sub flatIndex p;
      Done (multiIndex, flatIndex)) (stale, f * encode N (pick idx dirs))) as ([mi rest] & Hr & Hl' & He & _).
  - lia.
  - split_and!; [done|lia|done].
  - intros d [mi rest] Hd (Hl' & He & ->). destruct (digit_step idx d Hi Hd) as (Hb & Hst' & Hq & Hp' & Hrest).
    pose proof (directions_el _ _ Hp d ltac:(lia)) as Hdir. rewrite get_el by lia. cbn [mbind outcome_bind].
    rewrite get_el, stride_el by lia. cbn [mbind outcome_bind]. rewrite ix_div_small by lia. cbn [mbind outcome_bind].
    rewrite Hq, put_ok by lia. cbn [mbind outcome_bind]. rewrite ix_mul_small by lia. cbn [mbind outcome_bind].
    rewrite ix_sub_small by lia. cbn [mbind outcome_bind]. eexists. split; [done|]. split_and!; [by rewrite length_insert| |done].
    intros e He'. rewrite el_insert by lia. case_decide as Hde; [by rewrite <- Hde|]. apply He.
    assert (e <> d) by congruence. lia.
  - unfold toMultiIndex. rewrite (lo_dirs _ _ _ _ Hm), Hr. cbn. f_equal. apply el_ext; [lia|]. intros i Hi'.
    destruct (directions_surj _ _ Hp i) as (d & Hd' & <-); [lia|]. apply He. lia.
Qed.
End conversions.

End operations.

End MDMappingProofs.
