(* ===== verification/MDMappingTheorems.v ===== *)
(** * Theorems on index mappings

    Orders, sorting by stride, and the theorems: the conversions are inverse bijections,
    the three ways to choose an order agree, and strides determine the order of the
    directions. *)

From S2P Require Import Prelude Outcome MDMapping MDMappingProofs.

Module MDMappingTheorems.
Import Outcome MDMapping MDMappingProofs.

(** ** Row- and column-major order *)

Definition row_dirs (DIM : Z) : list Z := seqZ 0 DIM.
Definition column_dirs (DIM : Z) : list Z := (fun d => DIM - 1 - d) <$> seqZ 0 DIM.

Definition order_dirs (DIM : Z) (o : ArrayStrideOrder) : list Z :=
  if decide (o = COLUMN) then column_dirs DIM else row_dirs DIM.

(** The order a list of directions has. *)
Definition stride_order (DIM : Z) (dirs : list Z) : ArrayStrideOrder :=
  if decide (dirs = row_dirs DIM) then if decide (dirs = column_dirs DIM) then BOTH else ROW
  else if decide (dirs = column_dirs DIM) then COLUMN else ARBITRARY.

Lemma row_directions DIM : directions DIM (row_dirs DIM).
Proof. unfold directions, row_dirs. done. Qed.

Lemma column_directions DIM : directions DIM (column_dirs DIM).
Proof.
  unfold directions, column_dirs. apply NoDup_Permutation.
  - apply NoDup_fmap_2; [intros ???; lia|apply NoDup_seqZ].
  - apply NoDup_seqZ.
  - intros x. rewrite list_elem_of_fmap. setoid_rewrite elem_of_seqZ. split; [intros (? & -> & ?); lia|].
    intros ?. exists (DIM - 1 - x). lia.
Qed.

Lemma order_directions DIM o : directions DIM (order_dirs DIM o).
Proof. unfold order_dirs. case_decide; [apply column_directions|apply row_directions]. Qed.

Lemma el_row DIM d : 0 <= d < DIM -> el (row_dirs DIM) d = d.
Proof. intros. unfold el, row_dirs. by rewrite zlookup_seqZ by lia. Qed.

Lemma el_column DIM d : 0 <= d < DIM -> el (column_dirs DIM) d = DIM - 1 - d.
Proof. intros. unfold el, column_dirs. by rewrite zlookup_fmap, zlookup_seqZ by lia. Qed.

(** ** Sorted lists by their elements *)

Lemma el_StronglySorted (R : Z -> Z -> Prop) l :
  (forall a b, 0 <= a < b -> b < Z.of_nat (length l) -> R (el l a) (el l b)) -> StronglySorted R l.
Proof.
  induction l as [|x l IH]; intros HR; constructor.
  - apply IH. intros a b Ha Hb. specialize (HR (a + 1) (b + 1)). unfold el in *.
    rewrite !zlookup_to_nat in HR by lia. replace (Z.to_nat (a + 1)) with (S (Z.to_nat a)) in HR by lia.
    replace (Z.to_nat (b + 1)) with (S (Z.to_nat b)) in HR by lia. rewrite !zlookup_to_nat by lia.
    apply HR; cbn; lia.
  - apply Forall_lookup. intros i y Hi. pose proof (lookup_lt_Some _ _ _ Hi).
    specialize (HR 0 (Z.of_nat (S i))). unfold el in HR. rewrite zlookup_of_nat in HR. change ((x :: l) !! S i) with (l !! i) in HR. rewrite Hi in HR.
    apply HR; cbn; lia.
Qed.

#[local] Instance gt_trans : Transitive Z.gt.
Proof. intros ???. lia. Qed.

#[local] Instance ge_trans : Transitive Z.ge.
Proof. intros ???. lia. Qed.

(** Steps of a transitive relation. *)
Lemma el_steps (R : Z -> Z -> Prop) `{!Transitive R} l n :
  (forall d, 0 <= d < n -> R (el l d) (el l (d + 1))) -> forall a b, 0 <= a < b -> b <= n -> R (el l a) (el l b).
Proof.
  intros Hs a b Ha. remember (Z.to_nat (b - a - 1)) as k eqn:Hk. revert b Ha Hk. induction k as [|k IH]; intros b Ha Hk Hb.
  - replace b with (a + 1) by lia. apply Hs. lia.
  - transitivity (el l (b - 1)); [apply IH; lia|]. replace b with (b - 1 + 1) at 2 by lia. apply Hs. lia.
Qed.

Lemma sorted_directions (R : Z -> Z -> Prop) DIM l1 l2 :
  (forall x y, 0 <= x < DIM -> 0 <= y < DIM -> R x y -> R y x -> x = y) ->
  directions DIM l1 -> directions DIM l2 ->
  (forall a b, 0 <= a < b -> b < DIM -> R (el l1 a) (el l1 b)) ->
  (forall a b, 0 <= a < b -> b < DIM -> R (el l2 a) (el l2 b)) -> l1 = l2.
Proof.
  intros Hanti H1 H2 S1 S2. pose proof (directions_length _ _ H1). pose proof (directions_length _ _ H2).
  apply (StronglySorted_unique_strong R).
  - intros x y Hx%(directions_elem _ _ H1) Hy%(directions_elem _ _ H2). by apply Hanti.
  - apply el_StronglySorted. intros. apply S1; lia.
  - apply el_StronglySorted. intros. apply S2; lia.
  - by rewrite H1, H2.
Qed.

Section operations.
Context {IB : IndexBits} (DIM : Z) (HD : 1 <= DIM <= 2 ^ 16).

(** The two initializers from a shape are the same code on different directions. *)
Lemma initializeShape_order_dirs m shape o f :
  Z.of_nat (length (m_slowestDirs m)) = DIM ->
  initializeShape_order DIM m shape o f = initializeShape_dirs DIM m shape (order_dirs DIM o) f.
Proof.
  intros Hl. unfold initializeShape_order, initializeShape_dirs. pose proof (order_directions DIM o) as Hp.
  pose proof (directions_length _ _ Hp) as Hlen. rewrite (set_dirs_ok DIM HD m (fun d => get _ d) (el (order_dirs DIM o))) by
    (done || (intros; apply get_el; lia)).
  rewrite (wrap16_dirs DIM HD) by done. destruct (decide (o = COLUMN)) as [->|Ho].
  - change (order_dirs DIM COLUMN) with (column_dirs DIM) in *.
    rewrite (set_dirs_ok DIM HD m _ (el (column_dirs DIM))) by (done || (intros; by rewrite el_column)).
    rewrite (wrap16_dirs DIM HD) by done. cbn [mbind outcome_bind m_slowestDirs m_strides with_dirs].
    rewrite get_el, el_column by lia. cbn [mbind outcome_bind]. replace (DIM - 1 - (DIM - 1)) with 0 by lia.
    destruct (put (m_strides m) 0 f) as [s| |]; [|done..]. cbn [mbind outcome_bind].
    rewrite (up_down 1 DIM (DIM - 1)), for_each_fmap. replace (DIM - 1 - 1) with (DIM - 2) by lia.
    replace (DIM - 1 - DIM + 1) with 0 by lia. erewrite for_each_ext; [done|].
    intros i s' Hi%elem_of_down. cbn beta. rewrite !(get_el (column_dirs DIM)), !el_column by lia. cbn [mbind outcome_bind].
    by replace (DIM - 1 - (i + 1)) with (DIM - 1 - i - 1) by lia.
  - replace (order_dirs DIM o) with (row_dirs DIM) in * by (unfold order_dirs; by rewrite decide_False).
    rewrite (set_dirs_ok DIM HD m _ (el (row_dirs DIM))) by (done || (intros; by rewrite el_row)).
    rewrite (wrap16_dirs DIM HD) by done. cbn [mbind outcome_bind m_slowestDirs m_strides with_dirs].
    rewrite get_el, el_row by lia. cbn [mbind outcome_bind].
    destruct (put (m_strides m) (DIM - 1) f) as [s| |]; [|done..]. cbn [mbind outcome_bind].
    erewrite for_each_ext; [done|]. intros i s' Hi%elem_of_down. cbn beta. by rewrite !(get_el (row_dirs DIM)), !el_row by lia.
Qed.

Lemma getStrideOrder_ok m :
  directions DIM (m_slowestDirs m) -> getStrideOrder DIM m = Done (stride_order DIM (m_slowestDirs m)).
Proof.
  intros Hp. set (l := m_slowestDirs m) in *. pose proof (directions_length _ _ Hp) as Hlen.
  destruct (for_up_inv (fun i ord => 0 <= ord < 4 /\
      (Z.testbit ord 0 = true <-> forall d, 0 <= d < i -> el l d < el l (d + 1)) /\
      (Z.testbit ord 1 = true <-> forall d, 0 <= d < i -> el l (d + 1) < el l d)) 0 (DIM - 1)
    (fun d ord => x ← get l d; y ← get l (d + 1); Done (Z.land ord (order_int (if x <? y then ROW else COLUMN)))) (order_int BOTH))
    as (ord & Hr & Hord & Hasc & Hdesc).
  - lia.
  - split_and!; [done|done| |]; split; intros; done || lia.
  - intros i ord Hi (Hord & Hasc & Hdesc). rewrite !get_el by lia. cbn [mbind outcome_bind]. eexists. split; [done|].
    assert (el l i <> el l (i + 1)) as Hne by (intros He%(directions_inj _ _ Hp); lia).
    assert (forall P : Z -> Prop, (forall d, 0 <= d < i + 1 -> P d) <-> (forall d, 0 <= d < i -> P d) /\ P i) as Hsplit.
    { intros P. split; [intros HP; split; intros; apply HP; lia|]. intros [HP HPi] d Hd.
      destruct (decide (d = i)) as [->|]; [done|]. apply HP. lia. }
    rewrite !(Hsplit (fun d => el l d < el l (d + 1))), !(Hsplit (fun d => el l (d + 1) < el l d)).
    rewrite <- Hasc, <- Hdesc. clear Hasc Hdesc Hsplit. destruct (Z.ltb_spec (el l i) (el l (i + 1))) as [Hlt|Hge]; cbn [order_int].
    all: assert (ord = 0 \/ ord = 1 \/ ord = 2 \/ ord = 3) as [->|[->|[->| ->]]] by lia; cbn; naive_solver lia.
  - unfold getStrideOrder. fold l. rewrite Hr. cbn [mbind outcome_bind].
    assert (l = row_dirs DIM <-> Z.testbit ord 0 = true) as Hrow.
    { rewrite Hasc. split; [intros -> d Hd; rewrite !el_row by lia; lia|]. intros Hs.
      eapply (sorted_directions Z.lt DIM); [lia|done|apply row_directions| |intros; rewrite !el_row by lia; lia].
      intros. apply (el_steps Z.lt l (DIM - 1)); [done|lia..]. }
    assert (l = column_dirs DIM <-> Z.testbit ord 1 = true) as Hcol.
    { rewrite Hdesc. split; [intros -> d Hd; rewrite !el_column by lia; lia|]. intros Hs.
      eapply (sorted_directions Z.gt DIM); [lia|done|apply column_directions| |intros; rewrite !el_column by lia; lia].
      intros. apply (el_steps Z.gt l (DIM - 1)); [intros; apply Z.lt_gt, Hs; lia|lia..]. }
    unfold stride_order. rewrite !(decide_ext _ _ _ _ Hrow), !(decide_ext _ _ _ _ Hcol).
    assert (ord = 0 \/ ord = 1 \/ ord = 2 \/ ord = 3) as [->|[->|[->| ->]]] by lia; done.
Qed.

Lemma directions_intro l : NoDup l -> (forall x, x ∈ l -> 0 <= x < DIM) -> Z.of_nat (length l) = DIM -> directions DIM l.
Proof.
  intros Hn Hr Hl. apply submseteq_length_Permutation; [|rewrite length_seqZ; lia].
  apply NoDup_submseteq; [done|]. intros x Hx. apply elem_of_seqZ. specialize (Hr x Hx). lia.
Qed.

Lemma isPermutation_ok v : Z.of_nat (length v) = DIM -> isPermutation DIM v = Done (bool_decide (directions DIM v)).
Proof.
  intros Hl. destruct (for_up_inv (fun d found => match found with
    | Some fd => Z.of_nat (length fd) = DIM /\ NoDup (takeZ d v) /\ (forall x, x ∈ takeZ d v -> 0 <= x < DIM) /\
        forall x, 0 <= x < DIM -> (fd.[x] = Some true <-> x ∈ takeZ d v)
    | None => ~ directions DIM v end) 0 DIM
    (fun d found => match found with
      | None => Done None
      | Some found => x ← get v d; if (x <? 0) || (DIM <=? x) then Done None
          else fx ← get found x; if eqb fx true then Done None else found ← put found x true; Done (Some found) end)
    (Some (replicate (Z.to_nat DIM) false))) as (r & Hr & HI).
  - lia.
  - split_and!; [rewrite length_replicate; lia|constructor|by intros x ?%elem_of_nil|]. intros x Hx. split; [|by intros ?%elem_of_nil].
    rewrite zlookup_to_nat by lia. by intros [[=] _]%lookup_replicate.
  - intros d [fd|] Hd HI; [|eauto]. destruct HI as (Hf & Hn & Hrg & Hin). rewrite get_el by lia. cbn [mbind outcome_bind].
    assert (v.[d] = Some (el v d)) as Hvd by (apply zlookup_el; lia). rewrite zlookup_to_nat in Hvd by lia.
    destruct ((el v d <? 0) || (DIM <=? el v d)) eqn:Hb.
    { eexists. split; [done|]. intros Hp. pose proof (proj1 (directions_elem _ _ Hp _) (list_elem_of_lookup_2 _ _ _ Hvd)). lia. }
    assert (0 <= el v d < DIM) as Hx by lia. destruct (zlookup_lt fd (el v d)) as [b Hfb]; [lia|]. rewrite (get_ok _ _ _ Hfb).
    cbn [mbind outcome_bind]. destruct b; cbn [eqb].
    + eexists. split; [done|]. apply Hin in Hfb as Hm; [|done]. intros Hp%directions_NoDup.
      rewrite <- (take_drop (Z.to_nat d) v), (drop_S v _ _ Hvd) in Hp. apply NoDup_app in Hp as (_ & Hdis & _).
      apply (Hdis _ Hm). by left.
    + rewrite put_ok by lia. cbn [mbind outcome_bind]. eexists. split; [done|]. cbn beta iota. rewrite length_insert, takeZ_step by lia.
      assert (el v d ∉ takeZ d v) as Hni by (rewrite <- Hin by done; congruence). split_and!; [done| | |].
      * apply NoDup_app. split_and!; [done|intros x Hx' He; apply list_elem_of_singleton in He as ->; done|apply NoDup_singleton].
      * intros x [?|He]%elem_of_app; [auto|]. apply list_elem_of_singleton in He as ->. done.
      * intros x Hx'. rewrite zlookup_insert, elem_of_app, list_elem_of_singleton by lia. case_decide; naive_solver.
  - unfold isPermutation. rewrite Hr. cbn [mbind outcome_bind]. f_equal. apply bool_decide_ext. destruct r as [fd|].
    + destruct HI as (_ & Hn & Hrg & _). unfold takeZ in *. rewrite take_ge in * by lia. split; [|eauto]. intros _. by apply directions_intro.
    + split; [by intros [? ?]|done].
Qed.

Lemma stridesAreUnique_ok strides : Z.of_nat (length strides) = DIM ->
  stridesAreUnique DIM strides = Done (bool_decide (NoDup strides)).
Proof.
  intros Hl. set (clash n := exists d e, 0 <= e < d /\ d < n /\ el strides d = el strides e).
  destruct (for_up_inv (fun n r => r = true <-> clash n) 1 DIM
    (fun d => for_each (up 0 d) (fun e repeats => x ← get strides d; y ← get strides e; Done (repeats || (x =? y)))) false)
    as (r & Hr & HI).
  - lia.
  - split; [done|]. intros (d & e & ? & ? & _). lia.
  - intros d r Hd HI. destruct (for_up_inv (fun n r' => r' = true <-> clash d \/ exists e, 0 <= e < n /\ el strides d = el strides e) 0 d
      (fun e repeats => x ← get strides d; y ← get strides e; Done (repeats || (x =? y))) r) as (r' & Hr' & HI').
    + lia.
    + rewrite HI. split; [auto|]. intros [?|(e & ? & _)]; [done|lia].
    + intros e r' He HI'. rewrite !get_el by lia. cbn [mbind outcome_bind]. eexists. split; [done|].
      rewrite orb_true_iff, HI', Z.eqb_eq. split.
      { intros [[?|(e' & ? & ?)]|?]; [by left|right; exists e'|right; exists e]; (split; [lia|done]). }
      intros [?|(e' & ? & ?)]; [by left; left|]. destruct (decide (e' = e)) as [->|]; [by right|left; right; exists e'; split; [lia|done]].
    + exists r'. split; [done|]. rewrite HI'. unfold clash. split.
      * intros [(d' & e & ? & ? & ?)|(e & ? & ?)]; [exists d', e|exists d, e]; split_and!; done || lia.
      * intros (d' & e & ? & ? & ?). destruct (decide (d' = d)) as [->|]; [eauto|left; exists d', e; split_and!; done || lia].
  - unfold stridesAreUnique. rewrite Hr. cbn [mbind outcome_bind]. f_equal.
    enough (NoDup strides <-> r <> true) as Hnd by (destruct r; [rewrite bool_decide_false|rewrite bool_decide_true]; naive_solver).
    rewrite HI, NoDup_alt. split.
    + intros Hn (d & e & ? & ? & Heq). assert (Z.to_nat d = Z.to_nat e); [|lia]. eapply Hn; rewrite <- zlookup_to_nat by lia.
      * apply zlookup_el. lia.
      * rewrite Heq. apply zlookup_el. lia.
    + intros Hn i j x Hi Hj. pose proof (lookup_lt_Some _ _ _ Hi). pose proof (lookup_lt_Some _ _ _ Hj).
      assert (el strides (Z.of_nat i) = el strides (Z.of_nat j)) as Heq by (unfold el; by rewrite !zlookup_of_nat, Hi, Hj).
      destruct (Nat.lt_trichotomy i j) as [?|[?|?]]; [|done|]; destruct Hn; unfold clash;
        [exists (Z.of_nat j), (Z.of_nat i)|exists (Z.of_nat i), (Z.of_nat j)]; split_and!; done || lia.
Qed.

(** ** Sorting the directions by stride *)

Definition flip_index (i j k : Z) : Z := if decide (k = i) then j else if decide (k = j) then i else k.

Lemma swap_elems_ok l i j : 0 <= i < Z.of_nat (length l) -> 0 <= j < Z.of_nat (length l) ->
  exists l', swap_elems l i j = Done l' /\ l' ≡ₚ l /\ forall k, el l' k = el l (flip_index i j k).
Proof.
  intros Hi Hj. unfold swap_elems. rewrite !get_el by done. cbn [mbind outcome_bind]. rewrite put_ok by done. cbn [mbind outcome_bind].
  rewrite put_ok by (by rewrite length_insert). set (l' := <[Z.to_nat j := _]> _).
  assert (forall k, l'.[k] = l.[flip_index i j k]) as Hl'.
  { intros k. unfold l', flip_index. rewrite zlookup_insert by (by rewrite length_insert). rewrite zlookup_insert by done.
    repeat case_decide; subst; try done; by rewrite zlookup_el. }
  exists l'. split; [done|]. split; [|intros k; unfold el; by rewrite Hl'].
  apply Permutation_inj. split; [unfold l'; by rewrite !length_insert|].
  exists (fun k => Z.to_nat (flip_index i j (Z.of_nat k))). split.
  - intros a b. unfold flip_index. repeat case_decide; lia.
  - intros k. rewrite <- zlookup_of_nat, Hl'. apply zlookup_to_nat. unfold flip_index. repeat case_decide; lia.
Qed.

Section sorting.
Context (strides : list Z) (Hl : Z.of_nat (length strides) = DIM).

Let key (dirs : list Z) (d : Z) : Z := el strides (el dirs d).

(** The body of the inner loop, and what it does to sorted prefixes. *)
Let compare (s d : Z) (dirs : list Z) : outcome (list Z) :=
  ds ← get dirs s; dd ← get dirs d; xs ← get strides ds; xd ← get strides dd;
  if xs <? xd then swap_elems dirs s d else Done dirs.

Lemma compare_ok s d dirs : 0 <= s <= d -> d < DIM -> directions DIM dirs ->
  exists dirs', compare s d dirs = Done dirs' /\ directions DIM dirs' /\
    key dirs' s = Z.max (key dirs s) (key dirs d) /\ (forall k, k < s -> key dirs' k = key dirs k) /\
    (forall k, s <= k < DIM -> exists k', s <= k' < DIM /\ key dirs' k = key dirs k') /\
    (forall k, s < k < d -> key dirs' k = key dirs k) /\ key dirs' d <= key dirs' s /\
    (key dirs d <= key dirs s -> dirs' = dirs).
Proof.
  intros Hs Hd Hp. pose proof (directions_length _ _ Hp). pose proof (directions_el _ _ Hp s ltac:(lia)).
  pose proof (directions_el _ _ Hp d ltac:(lia)). unfold compare. rewrite !get_el by lia. cbn [mbind outcome_bind].
  rewrite !get_el by lia. cbn [mbind outcome_bind]. fold (key dirs s) (key dirs d).
  destruct (Z.ltb_spec (key dirs s) (key dirs d)) as [Hlt|Hge].
  - destruct (swap_elems_ok dirs s d) as (dirs' & -> & Hp' & Hel); [lia..|]. exists dirs'. split; [done|].
    assert (forall k, key dirs' k = key dirs (flip_index s d k)) as Hk by (intros; unfold key; by rewrite Hel).
    split; [by unfold directions; rewrite Hp', Hp|]. split_and!.
    + rewrite Hk. unfold flip_index. rewrite decide_True by done. lia.
    + intros k ?. rewrite Hk. unfold flip_index. by rewrite !decide_False by lia.
    + intros k ?. exists (flip_index s d k). split; [|apply Hk]. unfold flip_index. repeat case_decide; lia.
    + intros k ?. rewrite Hk. unfold flip_index. by rewrite !decide_False by lia.
    + rewrite !Hk. unfold flip_index. rewrite (decide_True (P := s = s)) by done. repeat case_decide; subst; lia.
    + lia.
  - exists dirs. split; [done|]. split; [done|]. split_and!; eauto with lia.
Qed.

(** The double loop sorts, and leaves directions alone that are sorted. *)
Lemma sort_ok dirs0 : directions DIM dirs0 ->
  exists dirs, for_each (up 0 DIM) (fun s => for_each (up s DIM) (compare s)) dirs0 = Done dirs /\ directions DIM dirs /\
    (forall a b, 0 <= a < b -> b < DIM -> key dirs b <= key dirs a) /\
    ((forall a b, 0 <= a < b -> b < DIM -> key dirs0 b <= key dirs0 a) -> dirs = dirs0).
Proof.
  intros Hp0. set (sorted dirs n := forall a b, 0 <= a < n -> a < b < DIM -> key dirs b <= key dirs a).
  set (keeps dirs := (forall a b, 0 <= a < b -> b < DIM -> key dirs0 b <= key dirs0 a) -> dirs = dirs0).
  destruct (for_up_inv (fun s dirs => directions DIM dirs /\ sorted dirs s /\ keeps dirs) 0 DIM
    (fun s => for_each (up s DIM) (compare s)) dirs0) as (dirs & Hr & Hp & Hs & Hk).
  - lia.
  - split_and!; [done|intros a b; lia|done].
  - intros s dirs Hs (Hp & Hsort & Hkeep).
    destruct (for_up_inv (fun d dirs => directions DIM dirs /\ sorted dirs s /\ keeps dirs /\
      forall b, s <= b < d -> key dirs b <= key dirs s) s DIM (compare s) dirs) as (dirs' & Hr & Hp' & Hs' & Hk' & Hmax).
    + lia.
    + split_and!; [done..|lia].
    + intros d dirs' Hd (Hp' & Hs' & Hk' & Hmax).
      destruct (compare_ok s d dirs') as (dirs2 & Hc & Hp2 & Hms & Hlow & Hhigh & Hmid & Hds & Hid); [lia..|done|].
      exists dirs2. split; [done|]. split_and!; [done| | |].
      * intros a b Ha Hb. rewrite (Hlow a) by lia. destruct (decide (b < s)); [rewrite Hlow by lia; apply Hs'; lia|].
        destruct (Hhigh b ltac:(lia)) as (k' & ? & ->). apply Hs'; lia.
      * intros Hsrt. specialize (Hk' Hsrt) as ->. apply Hid. destruct (decide (s = d)) as [->|]; [lia|]. apply Hsrt; lia.
      * intros b Hb. destruct (decide (b = d)) as [->|]; [done|]. destruct (decide (b = s)) as [->|]; [lia|].
        rewrite Hmid, Hms by lia. specialize (Hmax b). lia.
    + exists dirs'. split; [done|]. split_and!; [done| |done]. intros a b Ha Hb. destruct (decide (a = s)) as [->|]; [apply Hmax; lia|apply Hs'; lia].
  - exists dirs. split_and!; [done|done| |done]. intros a b Ha Hb. apply Hs; lia.
Qed.

Lemma initializeStrides_pref_ok m0 pref : Z.of_nat (length (m_slowestDirs m0)) = DIM -> pref = ROW \/ pref = COLUMN ->
  exists dirs, initializeStrides_pref DIM m0 strides pref = Done (mkMDMapping strides dirs) /\ directions DIM dirs /\
    (forall a b, 0 <= a < b -> b < DIM -> key dirs b <= key dirs a) /\
    ((forall a b, 0 <= a < b -> b < DIM -> key (order_dirs DIM pref) b <= key (order_dirs DIM pref) a) ->
     dirs = order_dirs DIM pref).
Proof.
  intros Hm0 Hpref. pose proof (order_directions DIM pref) as Hp. pose proof (directions_length _ _ Hp).
  destruct (sort_ok (order_dirs DIM pref) Hp) as (dirs & Hr & Hd & Hs & Hk). exists dirs. split_and!; [|done..].
  unfold initializeStrides_pref. rewrite (set_dirs_ok DIM HD _ _ (el (order_dirs DIM pref))); [|done|].
  - rewrite (wrap16_dirs DIM HD) by done. cbn [mbind outcome_bind with_dirs with_strides m_slowestDirs m_strides].
    unfold compare in Hr. by rewrite Hr.
  - intros d Hd'. destruct Hpref as [-> | ->].
    + change (order_dirs DIM ROW) with (row_dirs DIM). by rewrite el_row.
    + change (order_dirs DIM COLUMN) with (column_dirs DIM). by rewrite el_column.
Qed.
End sorting.

(** The strides of a laid out array do not increase from slow to fast. *)
Lemma laid_out_sorted m shape dirs f : directions DIM dirs -> Z.of_nat (length shape) = DIM -> Forall (Z.lt 0) shape -> 0 < f ->
  laid_out DIM m shape dirs f ->
  forall a b, 0 <= a < b -> b < DIM -> el (m_strides m) (el dirs b) <= el (m_strides m) (el dirs a).
Proof.
  intros Hp Hsh Psh Hf Hm a b Ha Hb. rewrite !(stride_el DIM HD m shape dirs f) by (done || lia).
  pose proof (prod_dropZ (dropZ (a + 1) (pick shape dirs)) (b - a) (Forall_drop _ _ _ (pick_pos DIM shape dirs Hp Hsh Psh))) as Hd.
  unfold dropZ in Hd at 2 4 |- *. unfold dropZ in Hd. rewrite drop_drop in Hd.
  replace (Z.to_nat (a + 1) + Z.to_nat (b - a))%nat with (Z.to_nat (b + 1)) in Hd by lia. nia.
Qed.

Lemma initializeStrides_recovers m0 m shape dirs f :
  Z.of_nat (length (m_slowestDirs m0)) = DIM -> directions DIM dirs -> Z.of_nat (length shape) = DIM -> Forall (Z.lt 0) shape -> 0 < f ->
  laid_out DIM m shape dirs f -> NoDup (m_strides m) -> initializeStrides DIM m0 (m_strides m) = Done m.
Proof.
  intros Hm0 Hp Hsh Psh Hf Hm Hn. pose proof (lo_length _ _ _ _ _ Hm) as Hl.
  unfold initializeStrides. rewrite stridesAreUnique_ok, bool_decide_true by done. cbn.
  destruct (initializeStrides_pref_ok (m_strides m) Hl m0 ROW) as (dirs' & -> & Hp' & Hs' & _); [done|by left|]. f_equal.
  enough (dirs' = dirs) as -> by (destruct m; cbn in *; f_equal; symmetry; apply (lo_dirs _ _ _ _ _ Hm)).
  apply (sorted_directions (fun i j => el (m_strides m) j <= el (m_strides m) i) DIM); try done.
  - intros x y Hx Hy Hxy Hyx. assert (Z.to_nat x = Z.to_nat y); [|lia].
    assert (el (m_strides m) x = el (m_strides m) y) as Heq by lia.
    eapply (proj1 (NoDup_alt _) Hn _ _ (el (m_strides m) x)); [|rewrite Heq]; rewrite <- zlookup_to_nat by lia; apply zlookup_el; lia.
  - by apply (laid_out_sorted m shape dirs f).
Qed.

End operations.

(** ** Theorems *)

(** C28: The two conversions of an index mapping are inverse bijections.  For any order of
    the directions and any shape whose size fits in [axom::IndexType], initializing gives
    a mapping with which every index inside the shape has its own flat index, a multiple
    of the fastest stride below the size, and [toMultiIndex] gives the index back; and
    every such flat index comes from an index inside the shape.  No operation overflows
    or leaves the bounds of an array, whatever uninitialized storage holds. *)
Theorem mdmapping_bijection {IB : IndexBits} DIM m0 stale shape dirs f :
  1 <= DIM <= 2 ^ 16 -> Z.of_nat (length (m_strides m0)) = DIM -> Z.of_nat (length (m_slowestDirs m0)) = DIM ->
  Z.of_nat (length stale) = DIM -> directions DIM dirs ->
  Z.of_nat (length shape) = DIM -> Forall (Z.lt 0) shape -> 0 < f -> f * prod shape <= index_max ->
  exists m, initializeShape_dirs DIM m0 shape dirs f = Done m /\
    (forall idx, Forall2 (fun i n => 0 <= i < n) idx shape ->
       exists k, 0 <= k < prod shape /\ toFlatIndex DIM m idx = Done (f * k) /\ toMultiIndex DIM m stale (f * k) = Done idx) /\
    (forall k, 0 <= k < prod shape ->
       exists idx, Forall2 (fun i n => 0 <= i < n) idx shape /\
         toMultiIndex DIM m stale (f * k) = Done idx /\ toFlatIndex DIM m idx = Done (f * k)).
Proof.
  intros HD Hs0 Hd0 Hst Hp Hsh Psh Hf Hmax. pose proof (directions_length _ _ Hp) as Hlen.
  destruct (initializeShape_dirs_ok DIM HD m0 shape dirs f) as (m & Hm & Hlo); try done. exists m. split; [done|].
  pose proof (pick_prod DIM HD shape dirs Hp Hsh) as HN. split.
  - intros idx Hi. destruct (index_digits DIM shape dirs Hp Hsh idx Hi) as [HY _]. pose proof (encode_bound _ _ HY).
    eexists. split; [|split; [by eapply toFlatIndex_ok|by eapply toMultiIndex_ok]]. lia.
  - intros k Hk. destruct (decode_digits (pick shape dirs) k) as [HD' HE]; [by eapply pick_pos|lia|].
    destruct (pick_surj DIM dirs Hp (decode (pick shape dirs) k)) as (idx & Hil & Hpk).
    { by rewrite (Forall2_length _ _ _ HD'), length_pick. }
    assert (Forall2 (fun i n => 0 <= i < n) idx shape) as Hi by (apply (Forall2_pick DIM _ _ _ dirs Hp); [lia..|by rewrite Hpk]).
    exists idx. split; [done|]. rewrite <- HE, <- Hpk. split; [by eapply toMultiIndex_ok|by eapply toFlatIndex_ok].
Qed.

Lemma mdmapping_bijection_witness : exists m,
  initializeShape_dirs (IB := IndexType32) 3 (mkMDMapping [7; 7; 7] [9; 9; 9]) [2; 3; 4] [1; 2; 0] 5 = Done m /\
  toMultiIndex (IB := IndexType32) 3 m [8; 8; 8] 115 = Done [1; 2; 3].
Proof.
  destruct (mdmapping_bijection (IB := IndexType32) 3 (mkMDMapping [7; 7; 7] [9; 9; 9]) [8; 8; 8] [2; 3; 4] [1; 2; 0] 5)
    as (m & Hm & Hi & _); [lia|done..| |done| |lia|done|].
  - apply (bool_decide_unpack _). vm_compute. exact I.
  - repeat constructor.
  - exists m. split; [exact Hm|]. destruct (Hi [1; 2; 3]) as (k & Hk & Hf & Hmi); [repeat constructor; lia|].
    vm_compute in Hm. injection Hm as <-.
    assert (Done (5 * k) = Done 115) as [= Hk5] by (rewrite <- Hf; by vm_compute). by rewrite <- Hk5.
Defined.

(** The three ways to give an order agree.  Row- and column-major initialization is
    initialization with the directions in increasing or decreasing order, whatever the
    shape; [getStrideOrder] recognizes exactly these two orders, both of them in one
    dimension; and [isPermutation] accepts exactly the orders of the directions. *)
Theorem mdmapping_orders {IB : IndexBits} DIM m shape o f v :
  1 <= DIM <= 2 ^ 16 -> Z.of_nat (length (m_slowestDirs m)) = DIM -> Z.of_nat (length v) = DIM ->
  initializeShape_order DIM m shape o f = initializeShape_dirs DIM m shape (order_dirs DIM o) f /\
  isPermutation DIM v = Done (bool_decide (directions DIM v)) /\
  (directions DIM v -> getStrideOrder DIM (with_dirs m v) = Done (stride_order DIM v)).
Proof.
  intros HD Hm Hv. split; [by apply initializeShape_order_dirs|]. split; [by apply isPermutation_ok|].
  intros Hp. by apply (getStrideOrder_ok DIM HD (with_dirs m v)).
Qed.

Lemma mdmapping_orders_witness :
  getStrideOrder 3 (mkMDMapping [1; 2; 6] [2; 1; 0]) = Done COLUMN /\ isPermutation 3 [2; 1; 0] = Done true.
Proof.
  destruct (mdmapping_orders (IB := IndexType32) 3 (mkMDMapping [1; 2; 6] [9; 9; 9]) [2; 3; 4] COLUMN 1 [2; 1; 0])
    as (_ & Hperm & Hord); [lia|done..|].
  split; [exact (Hord ltac:(apply (bool_decide_unpack _); vm_compute; exact I))|rewrite Hperm; by vm_compute].
Defined.

(** [initializeStrides] aborts exactly when two strides are equal.  Otherwise it gives
    the directions in the order of decreasing stride; from the strides of a mapping that
    was initialized with a shape it recovers that mapping. *)
Theorem mdmapping_strides {IB : IndexBits} DIM m0 strides :
  1 <= DIM <= 2 ^ 16 -> Z.of_nat (length (m_slowestDirs m0)) = DIM -> Z.of_nat (length strides) = DIM ->
  (~ NoDup strides -> initializeStrides DIM m0 strides = Aborted) /\
  (NoDup strides -> exists dirs, initializeStrides DIM m0 strides = Done (mkMDMapping strides dirs) /\ directions DIM dirs /\
     forall a b i j, 0 <= a < b -> dirs.[a] = Some i -> dirs.[b] = Some j -> forall x y,
       strides.[i] = Some x -> strides.[j] = Some y -> y < x) /\
  (forall m1 shape dirs f m, NoDup strides -> Z.of_nat (length (m_slowestDirs m1)) = DIM -> Z.of_nat (length (m_strides m1)) = DIM ->
     directions DIM dirs -> Z.of_nat (length shape) = DIM -> Forall (Z.lt 0) shape -> 0 < f -> f * prod shape <= index_max ->
     initializeShape_dirs DIM m1 shape dirs f = Done m -> m_strides m = strides -> initializeStrides DIM m0 strides = Done m).
Proof.
  intros HD Hm0 Hl. split_and!.
  - intros Hn. unfold initializeStrides. by rewrite stridesAreUnique_ok, bool_decide_false.
  - intros Hn. destruct (initializeStrides_pref_ok DIM HD strides Hl m0 ROW) as (dirs & Hr & Hp & Hs & _); [done|by left|].
    exists dirs. split_and!; [unfold initializeStrides; by rewrite stridesAreUnique_ok, bool_decide_true|done|].
    intros a b i j Ha Hi Hj x y Hx Hy. pose proof (zlookup_Some_bounds _ _ _ Hj). pose proof (directions_length _ _ Hp).
    specialize (Hs a b ltac:(lia) ltac:(lia)). unfold el in Hs. rewrite Hi, Hj in Hs. cbn in Hs. rewrite Hx, Hy in Hs. cbn in Hs.
    assert (x <> y); [|lia]. intros ->. pose proof (zlookup_Some_bounds _ _ _ Hx). pose proof (zlookup_Some_bounds _ _ _ Hy).
    rewrite zlookup_to_nat in Hx, Hy by lia. pose proof (proj1 (NoDup_alt _) Hn _ _ _ Hx Hy).
    assert (i = j) as <- by lia. rewrite zlookup_to_nat in Hi, Hj by lia.
    pose proof (proj1 (NoDup_alt _) (directions_NoDup _ _ Hp) _ _ _ Hi Hj). lia.
  - intros m1 shape dirs f m Hn Hd1 Hs1 Hp Hsh Psh Hf Hmax Hm <-.
    destruct (initializeShape_dirs_ok DIM HD m1 shape dirs f) as (m' & Hm' & Hlo); try done.
    replace m' with m in Hlo by congruence. by eapply initializeStrides_recovers.
Qed.

Lemma mdmapping_strides_witness :
  initializeStrides 3 (mkMDMapping [0; 0; 0] [9; 9; 9]) [1; 8; 2] = Done (mkMDMapping [1; 8; 2] [1; 2; 0]).
Proof.
  destruct (mdmapping_strides (IB := IndexType32) 3 (mkMDMapping [0; 0; 0] [9; 9; 9]) [1; 8; 2]) as (_ & _ & Hr); [lia|done..|].
  eapply (Hr (mkMDMapping [0; 0; 0] [0; 0; 0]) [2; 3; 4] [1; 2; 0] 1); try done.
  - apply (bool_decide_unpack _). vm_compute. exact I.
  - apply (bool_decide_unpack _). vm_compute. exact I.
  - repeat constructor.
Defined.

(** Where strides are equal the order preference is not always used: of the two fast
    directions here the sort puts 1 before 0 although the preference is row-major. *)
Example initializeStrides_ignores_preference :
  initializeStrides_pref 3 (mkMDMapping [0; 0; 0] [0; 0; 0]) [1; 1; 2] ROW = Done (mkMDMapping [1; 1; 2] [2; 1; 0]).
Proof. reflexivity. Qed.

(** An empty extent makes a stride zero, and [toMultiIndex] divides by it. *)
Example toMultiIndex_empty_shape :
  (m ← initializeShape_order (IB := IndexType32) 2 (mkMDMapping [0; 0] [0; 0]) [2; 0] ROW 1; toMultiIndex (IB := IndexType32) 2 m [0; 0] 0) = Undefined.
Proof. reflexivity. Qed.

End MDMappingTheorems.
