(* ===== verification/ArrayMemory.v ===== *)
(** * Memory of arrays and operations on ranges of elements

    [core/memory_management.hpp] without Umpire, and [ArrayOpsBase] and [ArrayOps] of
    [core/ArrayBase.hpp] on the host.

    Memory consists of blocks of cells, each of which holds an element or none: storage
    that was never constructed or was destroyed.  The address of a block is never used
    again, so that a pointer to a block that was freed stays invalid.  Constructing an
    element in a cell that still holds one is allowed, as in C++. *)

From S2P Require Import Prelude Outcome.

Module ArrayMemory.
Import Outcome.

(** What the code uses of the element type [T]: its default constructor if it has one, the
    value a move leaves behind, and whether destroying an element does nothing. *)
Class Element (T : Type) := {
  default_value : option T;
  moved_from : T -> T;
  trivially_destructible : bool }.

(** [std::malloc] of so many elements returns memory, or null. *)
Class Malloc := { malloc_ok : Z -> bool }.

Inductive pointer : Set := Null | Ptr (block : positive) (offset : Z).

#[global] Instance pointer_eq_dec : EqDecision pointer.
Proof. solve_decision. Defined.

Record Mem (T : Type) := mkMem { blocks : gmap positive (list (option T)); next_block : positive }.
Arguments mkMem {T} blocks next_block.
Arguments blocks {T} m.
Arguments next_block {T} m.

(** [p + n] *)
Definition ptr_add (p : pointer) (n : Z) : pointer :=
  match p with Null => Null | Ptr b o => Ptr b (o + n) end.

(** A [const T&] is to an object outside of the blocks, or to an element; a [const T*] is
    to an array outside of the blocks, or into a block. *)
Inductive reference (T : Type) : Type := Temp (v : T) | Elem (p : pointer) (i : Z).
Arguments Temp {T} v.
Arguments Elem {T} p i.

Inductive source (T : Type) : Type := Outside (l : list T) | Inside (p : pointer).
Arguments Outside {T} l.
Arguments Inside {T} p.

Section Memory.
Context {T : Type} {ET : Element T} {ML : Malloc}.

Definition cell (m : Mem T) (p : pointer) (i : Z) : option (option T) :=
  match p with Null => None | Ptr b o => l ← blocks m !! b; l.[o + i] end.

Definition set_cell (m : Mem T) (p : pointer) (i : Z) (c : option T) : outcome (Mem T) :=
  match p with
  | Null => Undefined
  | Ptr b o => l ← ub (blocks m !! b); l' ← ub (zupdate l (o + i) c); Done (mkMem (<[b := l']> (blocks m)) (next_block m))
  end.

(** Reading an element, and constructing one in place. *)
Definition read (m : Mem T) (p : pointer) (i : Z) : outcome T := c ← ub (cell m p i); ub c.
Definition construct (m : Mem T) (p : pointer) (i : Z) (v : T) : outcome (Mem T) := set_cell m p i (Some v).

(** Moving out of an element, for a move constructor. *)
Definition move_out (m : Mem T) (p : pointer) (i : Z) : outcome (T * Mem T) :=
  v ← read m p i; m ← construct m p i (moved_from v); Done (v, m).

Definition deref (m : Mem T) (r : reference T) : outcome T :=
  match r with Temp v => Done v | Elem p i => read m p i end.

Definition read_source (m : Mem T) (s : source T) (i : Z) : outcome T :=
  match s with Outside l => ub l.[i] | Inside p => read m p i end.

(** ** [axom::allocate] and [axom::deallocate] *)

Definition allocate (m : Mem T) (n : Z) : pointer * Mem T :=
  if (0 <=? n) && malloc_ok n then
    (Ptr (next_block m) 0, mkMem (<[next_block m := replicate (Z.to_nat n) None]> (blocks m)) (Pos.succ (next_block m)))
  else (Null, m).

Definition deallocate (m : Mem T) (p : pointer) : outcome (Mem T) :=
  match p with
  | Null => Done m
  | Ptr b o => if decide (o = 0 /\ is_Some (blocks m !! b)) then Done (mkMem (delete b (blocks m)) (next_block m)) else Undefined
  end.

(** ** [ArrayOps] *)

Definition ops_init (m : Mem T) (data : pointer) (begin nelems : Z) : outcome (Mem T) :=
  match default_value with
  | Some v => for_each (up 0 nelems) (fun i m => construct m data (i + begin) v) m
  | None => Done m
  end.

(** [std::uninitialized_fill_n], which copies from the reference each time. *)
Definition ops_fill (m : Mem T) (array : pointer) (begin nelems : Z) (value : reference T) : outcome (Mem T) :=
  for_each (up 0 nelems) (fun i m => v ← deref m value; construct m (ptr_add array begin) i v) m.

(** [std::uninitialized_copy]. *)
Definition ops_fill_range (m : Mem T) (array : pointer) (begin nelems : Z) (values : source T) : outcome (Mem T) :=
  for_each (up 0 nelems) (fun i m => v ← read_source m values i; construct m (ptr_add array begin) i v) m.

(** [args] is the evaluation of the constructor's arguments, when the element is built. *)
Definition ops_emplace (m : Mem T) (array : pointer) (i : Z) (args : Mem T -> outcome (T * Mem T)) : outcome (Mem T) :=
  '(v, m) ← args m; construct m array i v.

Definition ops_destroy (m : Mem T) (array : pointer) (begin nelems : Z) : outcome (Mem T) :=
  if nelems =? 0 then Done m
  else if negb trivially_destructible then
    for_each (up 0 nelems) (fun i m => _ ← read m array (i + begin); set_cell m array (i + begin) None) m
  else Done m.

(** Move-constructs one element from another. *)
Definition move_cell (m : Mem T) (src : pointer) (i : Z) (dst : pointer) (j : Z) : outcome (Mem T) :=
  '(v, m) ← move_out m src i; construct m dst j v.

(** Upwards or downwards, so that no element is overwritten before it is moved. *)
Definition ops_move (m : Mem T) (array : pointer) (src_begin src_end dst : Z) : outcome (Mem T) :=
  if src_end <=? src_begin then Done m
  else if src_begin <? dst then
    for_each (down (src_end - src_begin - 1) 0) (fun i m => move_cell m array (src_begin + i) array (dst + i)) m
  else if dst <? src_begin then
    for_each (up 0 (src_end - src_begin)) (fun i m => move_cell m array (src_begin + i) array (dst + i)) m
  else Done m.

Definition ops_realloc_move (m : Mem T) (array : pointer) (nelems : Z) (values : pointer) : outcome (Mem T) :=
  m ← for_each (up 0 nelems) (fun i m => move_cell m values i array i) m;
  ops_destroy m values 0 nelems.

End Memory.

End ArrayMemory.
