(* ===== verification/Array.v ===== *)
(** * Arrays ([core/ArrayBase.hpp], [core/Array.hpp], [core/ArrayView.hpp])

    [Array] owns a block of memory and keeps its elements at the beginning of it;
    [ArrayView] refers to memory it does not own.  Both inherit their shape and index
    mapping from [ArrayBase], which in one dimension only has a stride.

    The builds without a GPU and without Umpire are modelled: [OpHelper] is [ArrayOps] on
    the host for every memory space, and a memory space given as a template argument has
    no effect.  The allocator id is kept, because comparing arrays looks at it. *)

From Stdlib Require Import SpecFloat.
From S2P Require Import Prelude Outcome MDMapping ArrayMemory.

Module Array.
Import Outcome MDMapping ArrayMemory.

(** ** Doubles: IEEE 754 binary64 *)

Definition dmul : spec_float -> spec_float -> spec_float := SFmul 53 1024.
Definition dadd : spec_float -> spec_float -> spec_float := SFadd 53 1024.
Definition double_of (z : Z) : spec_float := binary_normalize 53 1024 z 0 false.
Definition d_half : spec_float := S754_finite false (2 ^ 52) (-53).
Definition d_one : spec_float := double_of 1.
Definition d_two : spec_float := double_of 2.

(** The conversion to an integer truncates; out of range it is undefined. *)
Definition double_to_index {IB : IndexBits} (d : spec_float) : outcome Z :=
  match d with
  | S754_zero _ => Done 0
  | S754_finite s m e =>
      let z := if 0 <=? e then Z.pos m * 2 ^ e else Z.pos m / 2 ^ (- e) in ix (if s then - z else z)
  | _ => Undefined
  end.

(** The conversion of an [axom::IndexType] to an [int] argument or member. *)
Definition int32 (z : Z) : Z := (z + 2 ^ 31) mod 2 ^ 32 - 2 ^ 31.

(** ** [ArrayBase] *)

(** The specialization for one dimension, and the general one. *)
Inductive ArrayBase : Set :=
  | Base1 (m_stride : Z)
  | BaseN (m_shape : list Z) (m_mapping : MDMapping) (m_minStride : Z).

Section Arrays.
Context {IB : IndexBits} {T : Type} {ET : Element T} {ML : Malloc}.

(** The number of dimensions, and what the storage of a new mapping holds. *)
Context (DIM : Z) (storage : MDMapping).

Definition ArrayBase_default : outcome ArrayBase :=
  if DIM =? 1 then Done (Base1 1)
  else
    m ← MDMapping_empty DIM storage ROW;
    let shape := replicate (Z.to_nat DIM) 0 in
    m ← initializeShape_dirs DIM m shape (m_slowestDirs m) 1;
    f ← fastestStrideLength DIM m;
    Done (BaseN shape m f).

Definition ArrayBase_shape (shape : list Z) (min_stride : Z) : outcome ArrayBase :=
  if DIM =? 1 then Done (Base1 min_stride)
  else
    m ← initializeShape_order DIM storage shape ROW min_stride;
    f ← fastestStrideLength DIM m;
    Done (BaseN shape m f).

Definition ArrayBase_mapping (shape : list Z) (mapping : MDMapping) : outcome ArrayBase :=
  if DIM =? 1 then s ← get (m_strides mapping) 0; Done (Base1 (int32 s))
  else
    f ← fastestStrideLength DIM mapping;
    m ← initializeShape_dirs DIM storage shape (m_slowestDirs mapping) (int32 f);
    f ← fastestStrideLength DIM m;
    Done (BaseN shape m f).

Definition ArrayBase_stride (shape stride : list Z) : outcome ArrayBase :=
  if DIM =? 1 then s ← get stride 0; Done (Base1 (int32 s))
  else
    m ← initializeStrides_pref DIM storage stride ROW;
    f ← fastestStrideLength DIM m;
    Done (BaseN shape m f).

(** The constructor from an array of another type.  In one dimension it copies nothing. *)
Definition ArrayBase_convert (other : ArrayBase) : outcome ArrayBase :=
  match other with
  | Base1 _ => Done (Base1 1)
  | BaseN shape m _ => f ← fastestStrideLength DIM m; Done (BaseN shape m f)
  end.

(** [size] is the size of the derived object. *)
Definition base_shape (b : ArrayBase) (size : Z) : list Z :=
  match b with Base1 _ => [size] | BaseN shape _ _ => shape end.

Definition base_mapping (b : ArrayBase) : outcome MDMapping :=
  match b with Base1 s => MDMapping_strides 1 storage [s] | BaseN _ m _ => Done m end.

Definition base_strides (b : ArrayBase) : list Z :=
  match b with Base1 s => [s] | BaseN _ m _ => m_strides m end.

Definition minStride (b : ArrayBase) : Z := match b with Base1 s => s | BaseN _ _ f => f end.

Definition blockSize (b : ArrayBase) : outcome Z :=
  match b with
  | Base1 s => Done s
  | BaseN _ m _ => slowestDir ← get (m_slowestDirs m) 0; get (m_strides m) slowestDir
  end.

Definition memorySize (b : ArrayBase) (size : Z) : outcome Z :=
  match b with
  | Base1 s => ix_mul s size
  | BaseN shape m _ =>
      slowestDir ← get (m_slowestDirs m) 0; s ← get (m_strides m) slowestDir; n ← get shape slowestDir; ix_mul s n
  end.

Definition updateStrides (shape : list Z) (m : MDMapping) (min_stride : Z) : outcome ArrayBase :=
  m ← initializeShape_dirs DIM m shape (m_slowestDirs m) min_stride;
  f ← fastestStrideLength DIM m;
  Done (BaseN shape m f).

Definition setShape (b : ArrayBase) (shape : list Z) : outcome ArrayBase :=
  match b with Base1 s => Done b | BaseN _ m _ => updateStrides shape m 1 end.

Definition setShapeAndStride (b : ArrayBase) (shape stride : list Z) : outcome ArrayBase :=
  match b with
  | Base1 s => Done b
  | BaseN _ m _ => m ← initializeStrides DIM m stride; f ← fastestStrideLength DIM m; Done (BaseN shape m f)
  end.

Definition updateShapeOnInsert (b : ArrayBase) (range_shape : list Z) : outcome ArrayBase :=
  match b with
  | Base1 s => Done b
  | BaseN shape m _ =>
      n ← get shape 0; r ← get range_shape 0; n' ← ix_add n r; shape ← put shape 0 n'; updateStrides shape m 1
  end.

(** The memory offset of an index. *)
Definition offset (b : ArrayBase) (idx : list Z) : outcome Z :=
  match b with
  | Base1 s => i ← get idx 0; ix_mul i s
  | BaseN _ m _ => toFlatIndex DIM m idx
  end.

(** [detail::packProduct] *)
Definition packProduct (arr : list Z) : outcome Z :=
  for_each (up 0 (Z.of_nat (length arr))) (fun idx prod => x ← get arr idx; ix_mul prod x) 1.

(** ** [Array] *)

Record Array : Set := mkArray {
  a_base : ArrayBase;
  m_data : pointer;
  m_num_elements : Z;
  m_capacity : Z;
  m_resize_ratio : spec_float;
  m_allocator_id : Z }.

Definition DEFAULT_RESIZE_RATIO : spec_float := d_two.
Definition MIN_DEFAULT_CAPACITY : Z := 32.
Definition INVALID_ALLOCATOR_ID : Z := -1.

Definition with_base (a : Array) (b : ArrayBase) : Array :=
  mkArray b (m_data a) (m_num_elements a) (m_capacity a) (m_resize_ratio a) (m_allocator_id a).
Definition with_size (a : Array) (n : Z) : Array :=
  mkArray (a_base a) (m_data a) n (m_capacity a) (m_resize_ratio a) (m_allocator_id a).
Definition with_memory (a : Array) (p : pointer) (cap : Z) : Array :=
  mkArray (a_base a) p (m_num_elements a) cap (m_resize_ratio a) (m_allocator_id a).

Definition size (a : Array) : Z := m_num_elements a.
Definition empty (a : Array) : bool := m_num_elements a =? 0.
Definition capacity (a : Array) : Z := m_capacity a.
Definition setResizeRatio (a : Array) (ratio : spec_float) : Array :=
  mkArray (a_base a) (m_data a) (m_num_elements a) (m_capacity a) ratio (m_allocator_id a).

Definition updateNumElements (a : Array) (n : Z) : Array := with_size a n.

Definition setCapacity (m : Mem T) (a : Array) (new_capacity : Z) : outcome (Mem T * Array) :=
  let a := if new_capacity <? m_num_elements a then updateNumElements a new_capacity else a in
  let '(new_data, m) := allocate m new_capacity in
  m ← ops_realloc_move m new_data (m_num_elements a) (m_data a);
  m ← deallocate m (m_data a);
  Done (m, with_memory a new_data new_capacity).

Definition dynamicRealloc (m : Mem T) (a : Array) (new_num_elements : Z) : outcome (Mem T * Array) :=
  c ← double_to_index (dadd (dmul (double_of (capacity a)) (m_resize_ratio a)) d_half);
  let new_capacity := if new_num_elements <? c then c else new_num_elements in
  block_size ← blockSize (a_base a);
  remainder ← ix_rem new_capacity block_size;
  new_capacity ← (if negb (remainder =? 0) then d ← ix_sub block_size remainder; ix_add new_capacity d else Done new_capacity);
  if SFltb (m_resize_ratio a) d_one then Aborted else setCapacity m a new_capacity.

Definition initialize (m : Mem T) (a : Array) (num_elements capacity : Z) (default_construct : bool) : outcome (Mem T * Array) :=
  let capacity := if (capacity <? 0) || (capacity <? num_elements) then 0 else capacity in
  let capacity := if capacity =? 0 then if MIN_DEFAULT_CAPACITY <? num_elements then num_elements else MIN_DEFAULT_CAPACITY
                  else capacity in
  '(m, a) ← setCapacity m a capacity;
  m ← (if default_construct then ops_init m (m_data a) 0 num_elements else Done m);
  Done (m, updateNumElements a num_elements).

Definition initialize_from_other (m : Mem T) (a : Array) (other_data : source T) (num_elements : Z) : outcome (Mem T * Array) :=
  '(m, a) ← setCapacity m a num_elements;
  m ← ops_fill_range m (m_data a) 0 num_elements other_data;
  Done (m, updateNumElements a num_elements).

(** Makes space for [n] elements at [pos]. *)
Definition reserveForInsert (m : Mem T) (a : Array) (n pos : Z) : outcome (Mem T * Array) :=
  if n =? 0 then Done (m, a)
  else
    new_size ← ix_add (m_num_elements a) n;
    '(m, a) ← (if m_capacity a <? new_size then dynamicRealloc m a new_size else Done (m, a));
    dst ← ix_add pos n;
    m ← ops_move m (m_data a) pos (m_num_elements a) dst;
    Done (m, updateNumElements a new_size).

(** *** Constructors and destructor *)

(** The members before a constructor's body runs. *)
Definition fresh_array (b : ArrayBase) (allocator_id : Z) : Array := mkArray b Null 0 0 DEFAULT_RESIZE_RATIO allocator_id.

Definition Array_default (allocator_id : Z) : outcome Array :=
  b ← ArrayBase_default; Done (fresh_array b allocator_id).

(** [Array(num_elements, capacity, allocator_id)], in one dimension. *)
Definition Array_count (m : Mem T) (num_elements capacity allocator_id : Z) (initialized : bool) : outcome (Mem T * Array) :=
  initialize m (fresh_array (Base1 1) allocator_id) num_elements capacity initialized.

(** [Array(shape, allocator_id)]. *)
Definition Array_shape (m : Mem T) (shape : list Z) (allocator_id : Z) : outcome (Mem T * Array) :=
  b ← ArrayBase_shape shape 1; n ← packProduct shape; initialize m (fresh_array b allocator_id) n n false.

Definition Array_order (m : Mem T) (shape : list Z) (rowOrColumn : ArrayStrideOrder) (allocator_id : Z) : outcome (Mem T * Array) :=
  mp ← MDMapping_order DIM storage shape rowOrColumn 1;
  b ← ArrayBase_mapping shape mp; n ← packProduct shape; initialize m (fresh_array b allocator_id) n n false.

Definition Array_dirs (m : Mem T) (shape slowestDirs : list Z) (allocator_id : Z) : outcome (Mem T * Array) :=
  mp ← MDMapping_dirs DIM storage shape slowestDirs 1;
  b ← ArrayBase_mapping shape mp; n ← packProduct shape; initialize m (fresh_array b allocator_id) n n false.

(** [Array(args...)], with the extents as arguments. *)
Definition Array_args (m : Mem T) (args : list Z) (allocator_id : Z) (initialized : bool) : outcome (Mem T * Array) :=
  b ← ArrayBase_shape args 1; n ← packProduct args; initialize m (fresh_array b allocator_id) n 0 initialized.

Definition Array_list (m : Mem T) (elems : list T) (allocator_id : Z) : outcome (Mem T * Array) :=
  initialize_from_other m (fresh_array (Base1 1) allocator_id) (Outside elems) (Z.of_nat (length elems)).

Definition Array_copy (m : Mem T) (other : Array) : outcome (Mem T * Array) :=
  '(m, a) ← initialize m (fresh_array (a_base other) (m_allocator_id other)) (size other) (capacity other) true;
  m ← ops_fill_range m (m_data a) 0 (m_num_elements a) (Inside (m_data other));
  Done (m, a).

(** What a move leaves of the source. *)
Definition moved_array (other : Array) : Array := mkArray (a_base other) Null 0 0 DEFAULT_RESIZE_RATIO INVALID_ALLOCATOR_ID.

(** The new array and what is left of the source. *)
Definition Array_move (other : Array) : Array * Array :=
  (mkArray (a_base other) (m_data other) (m_num_elements other) (m_capacity other) (m_resize_ratio other) (m_allocator_id other),
   moved_array other).

(** [Array(const ArrayBase<T, DIM, OtherArrayType>&)], from the members of the source. *)
Definition Array_convert (m : Mem T) (other_base : ArrayBase) (other_data : pointer) (other_size allocator_id : Z) : outcome (Mem T * Array) :=
  b ← ArrayBase_convert other_base; initialize_from_other m (fresh_array b allocator_id) (Inside other_data) other_size.

Definition clear (m : Mem T) (a : Array) : outcome (Mem T * Array) :=
  if 0 <? m_num_elements a then
    m ← ops_destroy m (m_data a) 0 (m_num_elements a); Done (m, updateNumElements a 0)
  else Done (m, a).

Definition Array_destroy (m : Mem T) (a : Array) : outcome (Mem T) :=
  '(m, a) ← clear m a;
  if decide (m_data a = Null) then Done m else deallocate m (m_data a).

(** [operator=] from another object. *)
Definition assign_copy (m : Mem T) (a other : Array) : outcome (Mem T * Array) :=
  '(m, a) ← clear m a;
  let a := mkArray (a_base other) (m_data a) (m_num_elements a) (m_capacity a) (m_resize_ratio other) (m_allocator_id other) in
  '(m, a) ← setCapacity m a (capacity other);
  m ← ops_fill_range m (m_data a) 0 (size other) (Inside (m_data other));
  Done (m, updateNumElements a (size other)).

Definition assign_move (m : Mem T) (a other : Array) : outcome (Mem T * Array * Array) :=
  '(m, a) ← clear m a;
  m ← (if decide (m_data a = Null) then Done m else deallocate m (m_data a));
  Done (m, mkArray (a_base other) (m_data other) (m_num_elements other) (m_capacity other) (m_resize_ratio other) (m_allocator_id other),
        moved_array other).

(** *** Modifiers *)

Definition fill (m : Mem T) (a : Array) (value : reference T) : outcome (Mem T) :=
  m ← ops_destroy m (m_data a) 0 (m_num_elements a); ops_fill m (m_data a) 0 (m_num_elements a) value.

Definition fill_n (m : Mem T) (a : Array) (value : reference T) (n pos : Z) : outcome (Mem T) :=
  m ← ops_destroy m (m_data a) pos n; ops_fill m (m_data a) pos n value.

Definition set (m : Mem T) (a : Array) (elements : source T) (n pos : Z) : outcome (Mem T) :=
  m ← ops_destroy m (m_data a) pos n; ops_fill_range m (m_data a) pos n elements.

(** Copying and moving a constructor's argument. *)
Definition by_copy (value : reference T) (m : Mem T) : outcome (T * Mem T) := v ← deref m value; Done (v, m).
Definition by_move (value : reference T) (m : Mem T) : outcome (T * Mem T) :=
  match value with Temp v => Done (v, m) | Elem p i => move_out m p i end.

Definition insert (m : Mem T) (a : Array) (pos : Z) (value : reference T) : outcome (Mem T * Array) :=
  '(m, a) ← reserveForInsert m a 1 pos;
  m ← ops_emplace m (m_data a) pos (by_copy value); Done (m, a).

(** The overloads with iterators convert them and return the position. *)
Definition insert_it (m : Mem T) (a : Array) (pos : Z) (value : reference T) : outcome (Mem T * Array * Z) :=
  '(m, a) ← insert m a pos value; Done (m, a, pos).

Definition insert_range (m : Mem T) (a : Array) (pos n : Z) (values : source T) : outcome (Mem T * Array) :=
  '(m, a) ← reserveForInsert m a n pos;
  m ← ops_fill_range m (m_data a) pos n values; Done (m, a).

Definition insert_range_it (m : Mem T) (a : Array) (pos n : Z) (values : source T) : outcome (Mem T * Array * Z) :=
  '(m, a) ← insert_range m a pos n values; Done (m, a, pos).

Definition insert_n (m : Mem T) (a : Array) (pos n : Z) (value : reference T) : outcome (Mem T * Array) :=
  '(m, a) ← reserveForInsert m a n pos;
  m ← ops_fill m (m_data a) pos n value; Done (m, a).

Definition insert_n_it (m : Mem T) (a : Array) (pos n : Z) (value : reference T) : outcome (Mem T * Array * Z) :=
  '(m, a) ← insert_n m a pos n value; Done (m, a, pos).

Definition emplace (m : Mem T) (a : Array) (pos : Z) (args : Mem T -> outcome (T * Mem T)) : outcome (Mem T * Array) :=
  '(m, a) ← reserveForInsert m a 1 pos;
  m ← ops_emplace m (m_data a) pos args; Done (m, a).

Definition emplace_it (m : Mem T) (a : Array) (pos : Z) (args : Mem T -> outcome (T * Mem T)) : outcome (Mem T * Array * Z) :=
  '(m, a) ← emplace m a pos args; Done (m, a, pos).

Definition emplace_back (m : Mem T) (a : Array) (args : Mem T -> outcome (T * Mem T)) : outcome (Mem T * Array) :=
  emplace m a (size a) args.

(** [push_back] of a [const T&] and of a [T&&]; on the host [push_back_device] is the same. *)
Definition push_back (m : Mem T) (a : Array) (value : reference T) : outcome (Mem T * Array) := emplace_back m a (by_copy value).
Definition push_back_move (m : Mem T) (a : Array) (value : reference T) : outcome (Mem T * Array) := emplace_back m a (by_move value).

(** [erase(pos)]; the result is the iterator's position. *)
Definition erase (m : Mem T) (a : Array) (posIdx : Z) : outcome (Mem T * Array * Z) :=
  m ← ops_destroy m (m_data a) posIdx 1;
  m ← ops_move m (m_data a) (posIdx + 1) (m_num_elements a) posIdx;
  Done (m, updateNumElements a (m_num_elements a - 1), posIdx).

Definition erase_range (m : Mem T) (a : Array) (firstIdx lastIdx : Z) : outcome (Mem T * Array * Z) :=
  if firstIdx =? lastIdx then Done (m, a, lastIdx)
  else
    let nelems := lastIdx - firstIdx in
    m ← ops_destroy m (m_data a) firstIdx nelems;
    m ← ops_move m (m_data a) lastIdx (m_num_elements a) firstIdx;
    let count := lastIdx - firstIdx in
    Done (m, updateNumElements a (m_num_elements a - count), firstIdx).

Definition reserve (m : Mem T) (a : Array) (cap : Z) : outcome (Mem T * Array) :=
  if m_capacity a <? cap then setCapacity m a cap else Done (m, a).

Definition shrink (m : Mem T) (a : Array) : outcome (Mem T * Array) := setCapacity m a (m_num_elements a).

Definition resizeImpl (m : Mem T) (a : Array) (dims : list Z) (construct_with_values : bool) (value : option (reference T)) :
    outcome (Mem T * Array) :=
  new_num_elements ← packProduct dims;
  b ← ArrayBase_shape dims 1;
  let a := with_base a b in
  let prev_num_elements := m_num_elements a in
  '(m, a) ← (if m_capacity a <? new_num_elements then dynamicRealloc m a new_num_elements else Done (m, a));
  m ← (if (prev_num_elements <? new_num_elements) && construct_with_values then
         match value with
         | Some value => ops_fill m (m_data a) prev_num_elements (new_num_elements - prev_num_elements) value
         | None => ops_init m (m_data a) prev_num_elements (new_num_elements - prev_num_elements)
         end
       else if new_num_elements <? prev_num_elements then
         ops_destroy m (m_data a) new_num_elements (prev_num_elements - new_num_elements)
       else Done m);
  Done (m, updateNumElements a new_num_elements).

Definition resize (m : Mem T) (a : Array) (dims : list Z) : outcome (Mem T * Array) := resizeImpl m a dims true None.
Definition resize_uninitialized (m : Mem T) (a : Array) (dims : list Z) : outcome (Mem T * Array) := resizeImpl m a dims false None.
Definition resize_value (m : Mem T) (a : Array) (dims : list Z) (value : reference T) : outcome (Mem T * Array) :=
  resizeImpl m a dims true (Some value).

(** [ArrayBase::swap] exchanges nothing in one dimension. *)
Definition swap (a other : Array) : Array * Array :=
  let '(ba, bo) := match a_base a, a_base other with
                   | Base1 s, Base1 s' => (Base1 s, Base1 s')
                   | b, b' => (b', b)
                   end in
  (mkArray ba (m_data other) (m_num_elements other) (m_capacity other) (m_resize_ratio other) (m_allocator_id other),
   mkArray bo (m_data a) (m_num_elements a) (m_capacity a) (m_resize_ratio a) (m_allocator_id a)).

(** [operator=] from a list of elements. *)
Definition assign_list (m : Mem T) (a : Array) (elems : list T) : outcome (Mem T * Array) :=
  '(m, a) ← clear m a; insert_range m a 0 (Z.of_nat (length elems)) (Outside elems).

(** *** Element access *)

(** [operator[]] and [operator()] with [DIM] indices, for reading and for assigning. *)
Definition at_index (m : Mem T) (b : ArrayBase) (data : pointer) (idx : list Z) : outcome T := o ← offset b idx; read m data o.
Definition set_index (m : Mem T) (b : ArrayBase) (data : pointer) (idx : list Z) (v : T) : outcome (Mem T) :=
  o ← offset b idx; _ ← read m data o; construct m data o v.

Definition flatIndex (m : Mem T) (b : ArrayBase) (data : pointer) (idx : Z) : outcome T :=
  o ← ix_mul idx (minStride b); read m data o.

Definition front (m : Mem T) (a : Array) : outcome T := flatIndex m (a_base a) (m_data a) 0.
Definition back (m : Mem T) (a : Array) : outcome T := flatIndex m (a_base a) (m_data a) (size a - 1).

(** ** [ArrayView] *)

Record ArrayView : Set := mkArrayView { v_base : ArrayBase; v_data : pointer; v_num_elements : Z; v_allocator_id : Z }.

Definition view_default (allocator_id : Z) : outcome ArrayView :=
  b ← ArrayBase_default; Done (mkArrayView b Null 0 allocator_id).

Definition view_count (data : pointer) (shape : list Z) : outcome Z :=
  if decide (data = Null) then Done 0 else packProduct shape.

Definition view_shape (data : pointer) (shape : list Z) (min_stride allocator_id : Z) : outcome ArrayView :=
  b ← ArrayBase_shape shape (int32 min_stride); n ← view_count data shape; Done (mkArrayView b data n allocator_id).

Definition view_stride (data : pointer) (shape stride : list Z) (allocator_id : Z) : outcome ArrayView :=
  b ← ArrayBase_stride shape stride; n ← view_count data shape; Done (mkArrayView b data n allocator_id).

(** From an object of another array type: [Array::view], and a view of [const T]. *)
Definition view_convert (other_base : ArrayBase) (other_data : pointer) (other_size allocator_id : Z) : outcome ArrayView :=
  b ← ArrayBase_convert other_base; Done (mkArrayView b other_data other_size allocator_id).

Definition view (a : Array) : outcome ArrayView := view_convert (a_base a) (m_data a) (size a) (m_allocator_id a).

(** [subspan(offset, count)], in one dimension. *)
Definition subspan1 (v : ArrayView) (off count : Z) : ArrayView :=
  mkArrayView (v_base v) (ptr_add (v_data v) off) (if count <? 0 then v_num_elements v - off else count) (v_allocator_id v).

(** [subspan(offsets, counts)]. *)
Definition subspan (v : ArrayView) (offsets counts : list Z) : outcome ArrayView :=
  off ← dot_product offsets (base_strides (v_base v)) DIM;
  let shape := base_shape (v_base v) (v_num_elements v) in
  newShape ← for_each (up 0 DIM) (fun dim newShape =>
    c ← get counts dim;
    x ← (if c <? 0 then n ← get shape dim; o ← get offsets dim; ix_sub n o else Done c);
    Done (newShape ++ [x])) [];
  n ← packProduct newShape;
  b ← setShapeAndStride (v_base v) newShape (base_strides (v_base v));
  Done (mkArrayView b (ptr_add (v_data v) off) n (v_allocator_id v)).

(** [Array::insert] and [append] of a view. *)
Definition insert_view (m : Mem T) (a : Array) (pos : Z) (other : ArrayView) : outcome (Mem T * Array) :=
  b ← updateShapeOnInsert (a_base a) (base_shape (v_base other) (v_num_elements other));
  insert_range m (with_base a b) pos (v_num_elements other) (Inside (v_data other)).

(** A view of [T] is converted to a view of [const T] first. *)
Definition append (m : Mem T) (a : Array) (other : ArrayView) : outcome (Mem T * Array) :=
  other ← view_convert (v_base other) (v_data other) (v_num_elements other) (v_allocator_id other);
  insert_view m a (size a) other.

(** [operator==] of two array-like objects. *)
Definition array_eq (eqT : T -> T -> bool) (m : Mem T) (lhs rhs : ArrayView) : outcome bool :=
  if negb (v_allocator_id lhs =? v_allocator_id rhs) then Done false
  else if StackArray_ne (base_shape (v_base lhs) (v_num_elements lhs)) (base_shape (v_base rhs) (v_num_elements rhs)) then Done false
  else for_each (up 0 (v_num_elements lhs)) (fun i same =>
    if negb same then Done false
    else x ← flatIndex m (v_base lhs) (v_data lhs) i; y ← flatIndex m (v_base rhs) (v_data rhs) i; Done (eqT x y)) true.

End Arrays.

End Array.
