(* ===== verification/ArrayProofs.v ===== *)
(** * Proofs on arrays

    What the operations on ranges do to a block, the ownership of a block by an array
    ([owns]), and a lemma for each operation of [Array]. *)

From Stdlib Require Import SpecFloat.
From S2P Require Import Prelude Outcome MDMapping ArrayMemory Array.

Module ArrayProofs.
Import Outcome MDMapping ArrayMemory Array.

Section memory.
Context {IB : IndexBits} {T : Type} {ET : Element T} {ML : Malloc}.

Notation cells := (list (option T)).

Definition with_block (m : Mem T) (b : positive) (cs : cells) : Mem T := mkMem (<[b := cs]> (blocks m)) (next_block m).

Lemma with_block_twice m b cs cs' : with_block (with_block m b cs) b cs' = with_block m b cs'.
Proof. unfold with_block. cbn. by rewrite insert_insert_eq. Qed.

Lemma with_block_id m b cs : blocks m !! b = Some cs -> with_block m b cs = m.
Proof. intros Hb. unfold with_block. rewrite insert_id by done. by destruct m. Qed.

Lemma construct_ok m b o i v cs : 0 <= o + i < Z.of_nat (length cs) ->
  construct (with_block m b cs) (Ptr b o) i v = Done (with_block m b (<[Z.to_nat (o + i) := Some v]> cs)).
Proof.
  intros Hi. unfold construct, set_cell, with_block. cbn. rewrite lookup_insert_eq. cbn. rewrite zupdate_lt by done. cbn.
  by rewrite insert_insert_eq.
Qed.

Lemma destruct_ok m b o i cs : 0 <= o + i < Z.of_nat (length cs) ->
  set_cell (with_block m b cs) (Ptr b o) i None = Done (with_block m b (<[Z.to_nat (o + i) := None]> cs)).
Proof.
  intros Hi. unfold set_cell, with_block. cbn. rewrite lookup_insert_eq. cbn. rewrite zupdate_lt by done. cbn.
  by rewrite insert_insert_eq.
Qed.

Lemma read_ok m b o i v cs : cs.[o + i] = Some (Some v) -> read (with_block m b cs) (Ptr b o) i = Done v.
Proof. intros Hi. unfold read, cell, with_block. cbn. rewrite lookup_insert_eq. cbn. by rewrite Hi. Qed.

(** A loop that only changes one block. *)
Lemma block_loop_up (I : Z -> cells -> Prop) m b cs lo hi body :
  lo <= hi -> I lo cs ->
  (forall i cs, lo <= i < hi -> I i cs -> exists cs', body i (with_block m b cs) = Done (with_block m b cs') /\ I (i + 1) cs') ->
  exists cs', for_each (up lo hi) body (with_block m b cs) = Done (with_block m b cs') /\ I hi cs'.
Proof.
  intros Hle HI Hb. destruct (for_up_inv (fun i m' => exists cs, m' = with_block m b cs /\ I i cs) lo hi body (with_block m b cs))
    as (m' & Hr & cs' & -> & HI'); eauto.
  intros i m' Hi (cs1 & -> & HI1). destruct (Hb i cs1 Hi HI1) as (cs2 & ? & ?). eauto.
Qed.

Lemma block_loop_down (I : Z -> cells -> Prop) m b cs hi lo body :
  lo <= hi + 1 -> I (hi + 1) cs ->
  (forall i cs, lo <= i <= hi -> I (i + 1) cs -> exists cs', body i (with_block m b cs) = Done (with_block m b cs') /\ I i cs') ->
  exists cs', for_each (down hi lo) body (with_block m b cs) = Done (with_block m b cs') /\ I lo cs'.
Proof.
  intros Hle HI Hb. destruct (for_down_inv (fun i m' => exists cs, m' = with_block m b cs /\ I i cs) hi lo body (with_block m b cs))
    as (m' & Hr & cs' & -> & HI'); eauto.
  intros i m' Hi (cs1 & -> & HI1). destruct (Hb i cs1 Hi HI1) as (cs2 & ? & ?). eauto.
Qed.

(** [cs'] is [cs] with the values [f 0], [f 1], ... from [begin] on. *)
Definition written (cs cs' : cells) (begin n : Z) (f : Z -> option T) : Prop :=
  length cs' = length cs /\ forall j, cs'.[j] = if decide (begin <= j < begin + n) then Some (f (j - begin)) else cs.[j].

Lemma written_nil cs begin f : written cs cs begin 0 f.
Proof. split; [done|]. intros j. by rewrite decide_False by lia. Qed.

Lemma written_snoc cs cs' begin i f : 0 <= begin + i < Z.of_nat (length cs) -> 0 <= i ->
  written cs cs' begin i f -> written cs (<[Z.to_nat (begin + i) := f i]> cs') begin (i + 1) f.
Proof.
  intros Hi Hi0 [Hl Hj]. split; [by rewrite length_insert|]. intros j. rewrite zlookup_insert by lia. case_decide as Hij.
  - subst j. rewrite decide_True by lia. do 2 f_equal. lia.
  - rewrite Hj. repeat case_decide; done || lia.
Qed.

Section ranges.
Context (m : Mem T) (b : positive) (cs : cells) (begin n : Z).
Context (Hn : 0 <= n) (Hb : 0 <= begin) (Hr : begin + n <= Z.of_nat (length cs)).

Lemma ops_init_ok v : default_value = Some v ->
  exists cs', ops_init (with_block m b cs) (Ptr b 0) begin n = Done (with_block m b cs') /\ written cs cs' begin n (fun _ => Some v).
Proof.
  intros Hv. unfold ops_init. rewrite Hv. apply (block_loop_up (fun i cs' => written cs cs' begin i (fun _ => Some v))); [done|apply written_nil|].
  intros i cs1 Hi Hw. pose proof (proj1 Hw). rewrite construct_ok by lia. eexists. split; [done|].
  replace (0 + (i + begin)) with (begin + i) by lia. apply (written_snoc _ _ _ _ (fun _ => Some v)); [lia..|done].
Qed.

(** Filling from references and sources that stay readable while the block changes. *)
Lemma ops_fill_ok r v : (forall cs', deref (with_block m b cs') r = Done v) ->
  exists cs', ops_fill (with_block m b cs) (Ptr b 0) begin n r = Done (with_block m b cs') /\ written cs cs' begin n (fun _ => Some v).
Proof.
  intros Hv. apply (block_loop_up (fun i cs' => written cs cs' begin i (fun _ => Some v))); [done|apply written_nil|].
  intros i cs1 Hi Hw. pose proof (proj1 Hw). rewrite Hv. cbn [mbind outcome_bind ptr_add]. rewrite construct_ok by lia.
  eexists. split; [done|]. apply (written_snoc _ _ _ _ (fun _ => Some v)); [lia..|done].
Qed.

Lemma ops_fill_range_ok src f : (forall cs' i, 0 <= i < n -> exists v, f i = Some v /\ read_source (with_block m b cs') src i = Done v) ->
  exists cs', ops_fill_range (with_block m b cs) (Ptr b 0) begin n src = Done (with_block m b cs') /\ written cs cs' begin n f.
Proof.
  intros Hv. apply (block_loop_up (fun i cs' => written cs cs' begin i f)); [done|apply written_nil|].
  intros i cs1 Hi Hw. pose proof (proj1 Hw). destruct (Hv cs1 i Hi) as (v & Hf & ->). cbn [mbind outcome_bind ptr_add].
  rewrite construct_ok by lia. eexists. split; [done|]. rewrite <- Hf. apply written_snoc; [lia..|done].
Qed.

Lemma ops_destroy_ok : (forall j, begin <= j < begin + n -> exists v, cs.[j] = Some (Some v)) ->
  exists cs', ops_destroy (with_block m b cs) (Ptr b 0) begin n = Done (with_block m b cs') /\
    length cs' = length cs /\ forall j, j < begin \/ begin + n <= j -> cs'.[j] = cs.[j].
Proof.
  intros Hv. unfold ops_destroy. destruct (n =? 0); [by exists cs|]. destruct trivially_destructible; cbn [negb]; [by exists cs|].
  destruct (block_loop_up (fun i cs' => written cs cs' begin i (fun _ => None)) m b cs 0 n
    (fun i m => _ ← read m (Ptr b 0) (i + begin); set_cell m (Ptr b 0) (i + begin) None)) as (cs' & Hl & Hlen & Hw); [done|apply written_nil| |].
  - intros i cs1 Hi Hw. pose proof (proj1 Hw). destruct (Hv (begin + i)) as (v & Hv'); [lia|].
    rewrite (read_ok _ _ _ _ v). 2: { rewrite (proj2 Hw), decide_False by lia. rewrite <- Hv'. f_equal. lia. }
    cbn [mbind outcome_bind]. rewrite destruct_ok by lia. eexists. split; [done|].
    replace (0 + (i + begin)) with (begin + i) by lia. apply (written_snoc _ _ _ _ (fun _ => None)); [lia..|done].
  - exists cs'. split_and!; [done..|]. intros j Hj. rewrite Hw. by rewrite decide_False by lia.
Qed.
End ranges.

(** Moving one element of a block. *)
Lemma move_cell_ok m b cs i j v : cs.[i] = Some (Some v) -> 0 <= j < Z.of_nat (length cs) ->
  move_cell (with_block m b cs) (Ptr b 0) i (Ptr b 0) j =
    Done (with_block m b (<[Z.to_nat j := Some v]> (<[Z.to_nat i := Some (moved_from v)]> cs))).
Proof.
  intros Hi Hj. pose proof (zlookup_Some_bounds _ _ _ Hi). unfold move_cell, move_out. rewrite (read_ok _ _ _ _ v) by (by rewrite Z.add_0_l).
  cbn [mbind outcome_bind]. rewrite construct_ok by lia. cbn [mbind outcome_bind].
  rewrite construct_ok by (rewrite length_insert; lia). by rewrite !Z.add_0_l.
Qed.

(** [cs'] has the elements of [cs] from [src] on at [dst]; elements outside of both
    ranges are the same. *)
Definition moved (cs cs' : cells) (src n dst : Z) : Prop :=
  length cs' = length cs /\ (forall j, dst <= j < dst + n -> cs'.[j] = cs.[j - dst + src]) /\
  (forall j, j < dst \/ dst + n <= j -> j < src \/ src + n <= j -> cs'.[j] = cs.[j]).

(** One step of a loop that moves elements within a block: the element at the index of
    the step moves, and the invariant of the loop holds for the rest. *)
Ltac move_step Hvi Hl Hm Hk Ho :=
  let j := fresh "j" in let Hj := fresh "Hj" in let Hj' := fresh "Hj'" in let Hc := fresh "Hc" in
  erewrite move_cell_ok by (rewrite ?Hk by lia; (exact Hvi) || lia); eexists; split; [done|]; rewrite !length_insert;
  split; [done|]; split_and!; intros j Hj; [| |intros Hj']; rewrite zlookup_insert by (rewrite length_insert; lia);
  rewrite zlookup_insert by lia;
  [ case_decide as Hc; [subst j; rewrite <- Hvi; f_equal; lia|]; rewrite decide_False by lia; apply Hm; lia
  | rewrite !decide_False by lia; apply Hk; lia
  | rewrite !decide_False by lia; by apply Ho ].

Lemma ops_move_ok m b cs src e dst :
  0 <= src -> 0 <= dst -> src <= e -> e <= Z.of_nat (length cs) -> dst + (e - src) <= Z.of_nat (length cs) ->
  (forall j, src <= j < e -> exists v, cs.[j] = Some (Some v)) ->
  exists cs', ops_move (with_block m b cs) (Ptr b 0) src e dst = Done (with_block m b cs') /\ moved cs cs' src (e - src) dst.
Proof.
  intros Hs Hd Hse He Hde Hv. unfold ops_move. destruct (Z.leb_spec e src) as [Hle|Hlt].
  { exists cs. split; [done|]. split_and!; [done|lia|done]. }
  destruct (Z.ltb_spec src dst) as [Hsd|Hsd]; [|destruct (Z.ltb_spec dst src) as [Hds|Hds]].
  - destruct (block_loop_down (fun i cs' => length cs' = length cs /\
        (forall j, dst + i <= j < dst + (e - src) -> cs'.[j] = cs.[j - dst + src]) /\
        (forall j, j < src + i -> cs'.[j] = cs.[j]) /\
        (forall j, j < dst \/ dst + (e - src) <= j -> j < src \/ e <= j -> cs'.[j] = cs.[j])) m b cs (e - src - 1) 0
      (fun i m => move_cell m (Ptr b 0) (src + i) (Ptr b 0) (dst + i))) as (cs' & Hr & Hl & Hm & _ & Ho); [lia|split_and!; done || lia| |].
    + intros i cs1 Hi (Hl & Hm & Hk & Ho). destruct (Hv (src + i)) as (v & Hvi); [lia|].
      move_step Hvi Hl Hm Hk Ho.
    + exists cs'. split; [done|]. split_and!; [done| |]; intros j Hj; [apply Hm; lia|]. intros Hj'. apply Ho; lia.
  - destruct (block_loop_up (fun i cs' => length cs' = length cs /\
        (forall j, dst <= j < dst + i -> cs'.[j] = cs.[j - dst + src]) /\
        (forall j, src + i <= j -> cs'.[j] = cs.[j]) /\
        (forall j, j < dst \/ dst + (e - src) <= j -> j < src \/ e <= j -> cs'.[j] = cs.[j])) m b cs 0 (e - src)
      (fun i m => move_cell m (Ptr b 0) (src + i) (Ptr b 0) (dst + i))) as (cs' & Hr & Hl & Hm & _ & Ho); [lia|split_and!; done || lia| |].
    + intros i cs1 Hi (Hl & Hm & Hk & Ho). destruct (Hv (src + i)) as (v & Hvi); [lia|].
      move_step Hvi Hl Hm Hk Ho.
    + exists cs'. split; [done|]. split_and!; [done| |]; intros j Hj; [apply Hm; lia|]. intros Hj'. apply Ho; lia.
  - assert (src = dst) as <- by lia. exists cs. split; [done|]. split_and!; [done| |done]. intros j _. f_equal. lia.
Qed.

(** Moving elements to another block, as a reallocation does. *)
Lemma ops_realloc_move_ok m b b2 cs cs2 n : b <> b2 ->
  0 <= n <= Z.of_nat (length cs) -> n <= Z.of_nat (length cs2) ->
  (forall j, 0 <= j < n -> exists v, cs.[j] = Some (Some v)) ->
  exists cs' cs2', ops_realloc_move (with_block (with_block m b2 cs2) b cs) (Ptr b2 0) n (Ptr b 0) =
    Done (with_block (with_block m b2 cs2') b cs') /\
    length cs2' = length cs2 /\ forall j, 0 <= j < n -> cs2'.[j] = cs.[j].
Proof.
  intros Hne Hn Hn2 Hv.
  assert (forall x y, with_block (with_block m b2 x) b y = with_block (with_block m b y) b2 x) as Hcomm.
  { intros x y. unfold with_block. cbn. by rewrite insert_insert_ne. }
  destruct (for_up_inv (fun i m' => exists c1 c2, m' = with_block (with_block m b2 c2) b c1 /\
      length c1 = length cs /\ length c2 = length cs2 /\ (forall j, 0 <= j < n -> exists v, c1.[j] = Some (Some v)) /\
      (forall j, i <= j < n -> c1.[j] = cs.[j]) /\ (forall j, 0 <= j < i -> c2.[j] = cs.[j])) 0 n
    (fun i m => move_cell m (Ptr b 0) i (Ptr b2 0) i) (with_block (with_block m b2 cs2) b cs))
    as (m' & Hr & c1 & c2 & -> & Hl1 & Hl2 & Hlive & _ & Hc2).
  - lia.
  - exists cs, cs2. split_and!; done || lia.
  - intros i m' Hi (c1 & c2 & -> & Hl1 & Hl2 & Hlive & Hc1 & Hc2). destruct (Hlive i) as (v & Hvi); [lia|].
    unfold move_cell, move_out. rewrite (read_ok _ _ _ _ v) by (by rewrite Z.add_0_l). cbn [mbind outcome_bind].
    rewrite construct_ok by lia. cbn [mbind outcome_bind]. rewrite Hcomm, construct_ok by lia. rewrite !Z.add_0_l.
    eexists. split; [done|]. eexists _, _. rewrite Hcomm. split; [done|]. rewrite !length_insert. split_and!; [done..| | |].
    + intros j Hj. rewrite zlookup_insert by lia. case_decide; eauto.
    + intros j Hj. rewrite zlookup_insert, decide_False by lia. apply Hc1. lia.
    + intros j Hj. rewrite zlookup_insert by lia. case_decide; [subst j; rewrite <- (Hc1 i) by lia; congruence|apply Hc2; lia].
  - unfold ops_realloc_move. rewrite Hr. cbn [mbind outcome_bind].
    destruct (ops_destroy_ok (with_block m b2 c2) b c1 0 n) as (c1' & -> & _); [lia..|intros; apply Hlive; lia|].
    exists c1', c2. split_and!; [done..|]. intros j Hj. apply Hc2. lia.
Qed.

(** ** Ownership *)

Definition fresh_above (m : Mem T) : Prop := forall b, is_Some (blocks m !! b) -> (b < next_block m)%positive.

(** The array holds the elements [l]; its block is the only memory besides [rest]. *)
Definition owns (m : Mem T) (a : Array) (l : list T) (rest : gmap positive cells) : Prop :=
  fresh_above m /\ m_num_elements a = Z.of_nat (length l) /\ m_num_elements a <= m_capacity a <= index_max /\
  match m_data a with
  | Null => m_capacity a = 0 /\ blocks m = rest
  | Ptr b o => o = 0 /\ rest !! b = None /\ exists cs, blocks m = <[b := cs]> rest /\
      Z.of_nat (length cs) = m_capacity a /\ forall j, 0 <= j < Z.of_nat (length l) -> cs.[j] = Some <$> l.[j]
  end.

(** The members that a change of memory or size leaves alone. *)
Definition same_kind (a a' : Array) : Prop :=
  a_base a' = a_base a /\ m_resize_ratio a' = m_resize_ratio a /\ m_allocator_id a' = m_allocator_id a.

#[local] Instance same_kind_trans : Transitive same_kind.
Proof. intros a b c (? & ? & ?) (? & ? & ?). repeat split; congruence. Qed.

(** The same at the level of a block. *)
Lemma owns_block m a l rest b o : owns m a l rest -> m_data a = Ptr b o ->
  exists m0 cs, m = with_block m0 b cs /\ o = 0 /\ blocks m0 = rest /\ rest !! b = None /\ Z.of_nat (length cs) = m_capacity a /\
    (forall j, 0 <= j < Z.of_nat (length l) -> cs.[j] = Some <$> l.[j]) /\
    (forall j, 0 <= j < Z.of_nat (length l) -> exists v, cs.[j] = Some (Some v)).
Proof.
  intros (_ & _ & _ & Hm) Hp. rewrite Hp in Hm. destruct Hm as (-> & Hr & cs & Hb & Hl & Hj).
  exists (mkMem rest (next_block m)), cs. split; [unfold with_block; cbn; rewrite <- Hb; by destruct m|]. split_and!; try done.
  intros j Hjr. rewrite Hj by done. destruct (zlookup_lt l j Hjr) as [v ->]. by exists v.
Qed.

Lemma owns_intro m0 b cs a l rest : fresh_above (with_block m0 b cs) -> blocks m0 = rest -> rest !! b = None ->
  m_data a = Ptr b 0 -> m_num_elements a = Z.of_nat (length l) -> m_num_elements a <= m_capacity a <= index_max ->
  Z.of_nat (length cs) = m_capacity a -> (forall j, 0 <= j < Z.of_nat (length l) -> cs.[j] = Some <$> l.[j]) ->
  owns (with_block m0 b cs) a l rest.
Proof.
  intros Hf Hm0 Hr Hd Hn Hc Hl Hj. split; [done|]. split; [done|]. split; [done|]. rewrite Hd. split; [done|]. split; [done|].
  exists cs. split_and!; try done. cbn. by rewrite Hm0.
Qed.

Lemma fresh_with_block m0 b cs cs' : fresh_above (with_block m0 b cs) -> fresh_above (with_block m0 b cs').
Proof.
  intros Hf b' Hb'. apply Hf. cbn in *. destruct (decide (b = b')) as [->|].
  - rewrite lookup_insert_eq. eauto.
  - by rewrite lookup_insert_ne in * by done.
Qed.

Lemma fresh_new bl nb cs : (forall b, is_Some (bl !! b) -> (b < nb)%positive) -> fresh_above (with_block (mkMem bl (Pos.succ nb)) nb cs).
Proof.
  intros Hf b Hb. cbn in *. apply lookup_insert_is_Some' in Hb as [<-|Hb]; [lia|]. specialize (Hf b Hb). lia.
Qed.

(** Freeing the block of an array gives the memory without it. *)
Lemma owns_deallocate m a l rest : owns m a l rest ->
  deallocate m (m_data a) = Done (mkMem rest (next_block m)) /\ fresh_above (mkMem rest (next_block m)).
Proof.
  intros Ho. pose proof Ho as (Hf & _ & _ & Hm). destruct (m_data a) as [|b o] eqn:Hd.
  - destruct Hm as [_ Hm]. cbn. rewrite <- Hm. split; [by destruct m|done].
  - destruct (owns_block _ _ _ _ _ _ Ho Hd) as (m0 & cs & -> & -> & Hrest & Hrb & _). cbn.
    rewrite decide_True by (rewrite lookup_insert_eq; eauto). rewrite delete_insert_id by (by rewrite Hrest). rewrite Hrest. split; [done|].
    intros b' Hb'. apply Hf. cbn in *. rewrite Hrest. destruct (decide (b = b')) as [->|]; [rewrite lookup_insert_eq; eauto|by rewrite lookup_insert_ne].
Qed.

(** Moving the elements to a new block. *)
Lemma realloc_ok m a l rest c (b2 := next_block m) (raw := replicate (Z.to_nat c) (@None T)) :
  owns m a l rest -> Z.of_nat (length l) <= c <= index_max ->
  exists m', (m1 ← ops_realloc_move (mkMem (<[b2 := raw]> (blocks m)) (Pos.succ b2)) (Ptr b2 0) (Z.of_nat (length l)) (m_data a);
              deallocate m1 (m_data a)) = Done m' /\ owns m' (with_memory a (Ptr b2 0) c) l rest.
Proof.
  intros Ho Hc. pose proof Ho as (Hf & Hn & Hcap & Hm). assert (Z.of_nat (length raw) = c) as Hraw by (unfold raw; rewrite length_replicate; lia).
  assert (blocks m !! b2 = None) as Hb2 by (destruct (blocks m !! b2) eqn:He; [specialize (Hf b2 ltac:(eauto)); unfold b2 in *; lia|done]).
  destruct (m_data a) as [|b o] eqn:Hd.
  - destruct Hm as [Hc0 Hm]. replace (Z.of_nat (length l)) with 0 by lia. unfold ops_realloc_move. rewrite up_nil by lia. cbn.
    eexists. split; [done|]. apply (owns_intro (mkMem (blocks m) (Pos.succ b2)) b2 raw); cbn; try done || lia.
    + by apply (fresh_new (blocks m)).
    + by rewrite <- Hm.
  - destruct (owns_block _ _ _ _ _ _ Ho Hd) as (m0 & cs & Em & -> & Hrest & Hrb & Hlen & Hj & Hlive).
    assert (b <> b2) as Hne by (intros <-; rewrite Em in Hb2; cbn in Hb2; by rewrite lookup_insert_eq in Hb2).
    assert (rest !! b2 = None) as Hr2 by (rewrite Em in Hb2; cbn in Hb2; rewrite lookup_insert_ne, Hrest in Hb2; done).
    set (m1 := mkMem rest (Pos.succ b2)).
    assert (mkMem (<[b2 := raw]> (blocks m)) (Pos.succ b2) = with_block (with_block m1 b2 raw) b cs) as ->.
    { unfold with_block, m1. rewrite Em. cbn. rewrite Hrest. by rewrite insert_insert_ne. }
    destruct (ops_realloc_move_ok m1 b b2 cs raw (Z.of_nat (length l)) Hne) as (cs' & raw' & -> & Hl' & Hj'); [lia..|done|].
    cbn [mbind outcome_bind]. unfold deallocate. rewrite decide_True by (cbn; rewrite lookup_insert_eq; eauto).
    eexists. split; [done|]. replace (mkMem _ _) with (with_block m1 b2 raw').
    2: { unfold with_block. cbn. by rewrite delete_insert_id by (by rewrite lookup_insert_ne). }
    apply owns_intro; cbn; try done || lia.
    + apply fresh_new. apply (proj2 (owns_deallocate _ _ _ _ Ho)).
    + intros j Hjr. rewrite Hj' by lia. by apply Hj.
Qed.

Lemma setCapacity_ok m a l rest c : owns m a l rest -> Z.of_nat (length l) <= c <= index_max -> (c = 0 \/ malloc_ok c = true) ->
  exists m' a', setCapacity m a c = Done (m', a') /\ owns m' a' l rest /\ m_capacity a' = c /\ same_kind a a'.
Proof.
  intros Ho Hc Hmal. pose proof Ho as (Hf & Hn & Hcap & _). unfold setCapacity. rewrite Hn, (proj2 (Z.ltb_ge _ _)), Hn by lia.
  unfold allocate. rewrite (proj2 (Z.leb_le 0 c)) by lia. cbn [andb]. destruct (malloc_ok c) eqn:Hok.
  - destruct (realloc_ok m a l rest c Ho Hc) as (m' & Hr & Ho'). apply bind_inv in Hr as (m1 & -> & Hd). cbn [mbind outcome_bind].
    rewrite Hd. cbn. by eexists _, _.
  - destruct Hmal as [->|]; [|done]. replace (Z.of_nat (length l)) with 0 by lia. unfold ops_realloc_move. rewrite up_nil by lia. cbn.
    destruct (owns_deallocate m a l rest Ho) as [-> Hf']. cbn. eexists _, _. split; [done|]. split; [|done].
    repeat split; cbn; try done || lia.
Qed.

(** ** Growing *)

(** The capacity that [dynamicRealloc] asks for. *)
Definition grown (a : Array) (n : Z) : outcome Z :=
  c ← double_to_index (dadd (dmul (double_of (capacity a)) (m_resize_ratio a)) d_half);
  let new_capacity := if n <? c then c else n in
  block_size ← blockSize (a_base a);
  remainder ← ix_rem new_capacity block_size;
  if negb (remainder =? 0) then d ← ix_sub block_size remainder; ix_add new_capacity d else Done new_capacity.

Lemma dynamicRealloc_grown m a n :
  dynamicRealloc m a n = c ← grown a n; if SFltb (m_resize_ratio a) d_one then Aborted else setCapacity m a c.
Proof.
  unfold dynamicRealloc, grown. destruct (double_to_index _) as [c| |]; [|done..]. cbn.
  destruct (blockSize _) as [bs| |]; [|done..]. cbn. by destruct (ix_rem _ _).
Qed.

Lemma ix_Done z z' : ix z = Done z' -> z' = z /\ z' <= index_max.
Proof. unfold ix, fits. destruct (_ && _) eqn:Hb; [|done]. intros [= <-]. lia. Qed.

Lemma double_to_index_bound d c : double_to_index d = Done c -> c <= index_max.
Proof.
  pose proof index_max_lower. destruct d as [sg| | |sg mt e]; cbn -[Z.pow]; [intros [= <-]; lia|done|done|].
  by intros [_ ?]%ix_Done.
Qed.

Lemma grown_bounds a n bs c : blockSize (a_base a) = Done bs -> 0 < bs -> 0 <= n <= index_max -> grown a n = Done c -> n <= c <= index_max.
Proof.
  intros Hbs Hb Hn. unfold grown. destruct (double_to_index _) as [c0| |] eqn:Hc0; [|done..]. cbn [mbind outcome_bind].
  apply double_to_index_bound in Hc0. rewrite Hbs. cbn [mbind outcome_bind]. set (nc := if n <? c0 then c0 else n).
  assert (n <= nc <= index_max) as Hnc by (unfold nc; destruct (Z.ltb_spec n c0); lia).
  rewrite ix_rem_small by lia. cbn [mbind outcome_bind]. destruct (negb _); [|intros [= <-]; lia].
  pose proof (Z.mod_pos_bound nc bs Hb). unfold ix_sub. destruct (ix (bs - _)) as [d| |] eqn:Hd; [|done..]. cbn [mbind outcome_bind].
  apply ix_Done in Hd as [-> _]. intros [-> ?]%ix_Done. lia.
Qed.

(** A ratio that passes the assertion of [dynamicRealloc] passes its test. *)
Lemma ratio_ok r : SFleb d_one r = true -> SFltb r d_one = false.
Proof.
  assert (exists m0 e0, d_one = S754_finite false m0 e0) as (m0 & e0 & ->) by (eexists _, _; vm_compute; reflexivity).
  unfold SFleb, SFltb, SFcompare. destruct r as [[|]|[|]| |[|] m e]; try done.
  rewrite (Z.compare_antisym e0 e). destruct (Z.compare e0 e); try done. cbn [CompOpp].
  fold (Pos.compare m0 m) (Pos.compare m m0). rewrite (Pos.compare_antisym m0 m). by destruct (Pos.compare m0 m).
Qed.

(** The array has space for [n] elements, or can get it. *)
Definition room (a : Array) (n : Z) : Prop :=
  n <= index_max /\ (n <= m_capacity a \/
    exists bs c, blockSize (a_base a) = Done bs /\ 0 < bs /\ grown a n = Done c /\ malloc_ok c = true /\
      SFleb d_one (m_resize_ratio a) = true).

Lemma ensure_room m a l rest n : owns m a l rest -> Z.of_nat (length l) <= n -> room a n ->
  exists m' a', (if m_capacity a <? n then dynamicRealloc m a n else Done (m, a)) = Done (m', a') /\
    owns m' a' l rest /\ n <= m_capacity a' /\ same_kind a a'.
Proof.
  intros Ho Hn [Hmax Hroom]. destruct (Z.ltb_spec (m_capacity a) n) as [Hlt|Hge]; [|by eexists _, _].
  destruct Hroom as [?|(bs & c & Hbs & Hb & Hg & Hm & Hr)]; [lia|]. rewrite dynamicRealloc_grown, Hg. cbn [mbind outcome_bind]. rewrite (ratio_ok _ Hr).
  destruct (grown_bounds a n bs c Hbs Hb ltac:(lia) Hg). destruct (setCapacity_ok m a l rest c Ho) as (m' & a' & ? & ? & Hc & ?); [lia|auto|].
  exists m', a'. split_and!; try done. lia.
Qed.

(** ** Inserting *)

(** The elements [xs] inserted at [pos]. *)
Definition splice {A} (l : list A) (pos : Z) (xs : list A) : list A := takeZ pos l ++ xs ++ dropZ pos l.

Lemma length_splice {A} (l : list A) pos xs : 0 <= pos <= Z.of_nat (length l) ->
  Z.of_nat (length (splice l pos xs)) = Z.of_nat (length l) + Z.of_nat (length xs).
Proof. intros. unfold splice. rewrite !length_app, !Nat2Z.inj_add, length_takeZ, length_dropZ by lia. lia. Qed.

Lemma zlookup_splice {A} (l : list A) pos xs j : 0 <= pos <= Z.of_nat (length l) ->
  (splice l pos xs).[j] = if decide (j < pos) then l.[j]
                          else if decide (j < pos + Z.of_nat (length xs)) then xs.[j - pos] else l.[j - Z.of_nat (length xs)].
Proof.
  intros Hp. unfold splice. rewrite zlookup_app, length_takeZ, zlookup_takeZ by lia. case_decide; [done|].
  rewrite zlookup_app. case_decide; [by rewrite decide_True by lia|]. rewrite decide_False, zlookup_dropZ by lia. f_equal. lia.
Qed.

(** The array has space for [n] more elements at [pos], which are not constructed. *)
Definition gap (m0 : Mem T) (b : positive) (cs : cells) (a : Array) (l : list T) (pos n : Z) (rest : gmap positive cells) : Prop :=
  fresh_above (with_block m0 b cs) /\ blocks m0 = rest /\ rest !! b = None /\ m_data a = Ptr b 0 /\
  m_num_elements a = Z.of_nat (length l) + n /\ m_num_elements a <= m_capacity a <= index_max /\ Z.of_nat (length cs) = m_capacity a /\
  (forall j, 0 <= j < pos -> cs.[j] = Some <$> l.[j]) /\
  (forall j, pos <= j < Z.of_nat (length l) -> cs.[j + n] = Some <$> l.[j]).

Lemma gap_close m0 b cs cs' a l pos xs rest : 0 <= pos <= Z.of_nat (length l) ->
  gap m0 b cs a l pos (Z.of_nat (length xs)) rest -> written cs cs' pos (Z.of_nat (length xs)) (fun i => xs.[i]) ->
  owns (with_block m0 b cs') a (splice l pos xs) rest.
Proof.
  intros Hp (Hf & Hm0 & Hr & Hd & Hn & Hc & Hl & Hlow & Hhigh) [Hl' Hw].
  apply owns_intro; try done; [by eapply fresh_with_block|rewrite length_splice; lia|lia|].
  intros j Hj. rewrite length_splice in Hj by done. rewrite Hw, zlookup_splice by done. case_decide as H1.
  - rewrite decide_False, decide_True by lia. destruct (zlookup_lt xs (j - pos)) as [x Hx]; [lia|]. by rewrite Hx.
  - case_decide; [by apply Hlow; lia|]. rewrite decide_False by lia.
    rewrite <- (Hhigh (j - Z.of_nat (length xs))) by lia. f_equal. lia.
Qed.

Lemma reserveForInsert_ok m a l rest n pos : owns m a l rest -> 0 <= pos <= Z.of_nat (length l) -> 0 < n ->
  room a (Z.of_nat (length l) + n) ->
  exists m0 b cs a', reserveForInsert m a n pos = Done (with_block m0 b cs, a') /\ gap m0 b cs a' l pos n rest /\ same_kind a a'.
Proof.
  intros Ho Hp Hn Hroom. pose proof Ho as (_ & Hsz & _). pose proof (proj1 Hroom) as Hmax. unfold reserveForInsert.
  rewrite (proj2 (Z.eqb_neq n 0)) by lia. rewrite Hsz, (ix_add_small (Z.of_nat _) n) by lia. cbn [mbind outcome_bind].
  destruct (ensure_room m a l rest (Z.of_nat (length l) + n) Ho ltac:(lia) Hroom) as (m1 & a1 & -> & Ho1 & Hcap1 & Hk1). cbn [mbind outcome_bind].
  rewrite ix_add_small by lia. cbn [mbind outcome_bind]. pose proof Ho1 as (Hf1 & Hsz1 & Hc1 & Hm1).
  destruct (m_data a1) as [|b o] eqn:Hd1; [destruct Hm1; lia|].
  destruct (owns_block _ _ _ _ _ _ Ho1 Hd1) as (m0 & cs & -> & -> & Hrest & Hrb & Hlen & Hj & Hlive). rewrite Hsz1.
  destruct (ops_move_ok m0 b cs pos (Z.of_nat (length l)) (pos + n)) as (cs' & -> & Hl' & Hmv & Hot); [lia..|intros; apply Hlive; lia|].
  cbn [mbind outcome_bind]. eexists m0, b, cs', _. split; [done|]. split; [|done]. split_and!; cbn; try done || lia.
  - by eapply fresh_with_block.
  - intros j Hjr. rewrite Hot by lia. apply Hj. lia.
  - intros j Hjr. rewrite Hmv by lia. replace (j + n - (pos + n) + pos) with j by lia. apply Hj. lia.
Qed.

(** ** What references and sources outside of the array's block give *)

Definition cell_val (rest : gmap positive cells) (p : pointer) (i : Z) : option T :=
  match p with Null => None | Ptr b o => cs ← rest !! b; c ← cs.[o + i]; c end.

Definition ref_val (rest : gmap positive cells) (r : reference T) : option T :=
  match r with Temp v => Some v | Elem p i => cell_val rest p i end.

Definition src_val (rest : gmap positive cells) (s : source T) (i : Z) : option T :=
  match s with Outside l => l.[i] | Inside p => cell_val rest p i end.

Definition src_list (rest : gmap positive cells) (s : source T) (n : Z) : option (list T) := mapM (src_val rest s) (seqZ 0 n).

Lemma cell_val_read m0 b p i v cs : cell_val (blocks m0) p i = Some v -> blocks m0 !! b = None -> read (with_block m0 b cs) p i = Done v.
Proof.
  destruct p as [|b' o]; [done|]. intros Hv Hb. cbn in Hv. destruct (blocks m0 !! b') as [cs'|] eqn:Hb'; [|done]. cbn in Hv.
  unfold read, cell. cbn. rewrite lookup_insert_ne by congruence. rewrite Hb'. cbn. destruct (cs'.[o + i]) as [[?|]|]; cbn in *; congruence.
Qed.

Lemma ref_val_deref m0 b r v : ref_val (blocks m0) r = Some v -> blocks m0 !! b = None -> forall cs, deref (with_block m0 b cs) r = Done v.
Proof. destruct r as [w|p i]; [by intros [= ->]|]. intros Hv Hb cs. by apply cell_val_read. Qed.

Lemma src_list_read m0 b s n xs : src_list (blocks m0) s n = Some xs -> blocks m0 !! b = None -> 0 <= n ->
  Z.of_nat (length xs) = n /\ forall cs i, 0 <= i < n -> exists v, xs.[i] = Some v /\ read_source (with_block m0 b cs) s i = Done v.
Proof.
  intros Hxs%mapM_Some Hb Hn. pose proof (Forall2_length _ _ _ Hxs) as Hl. rewrite length_seqZ in Hl. split; [lia|].
  intros cs i Hi. destruct (zlookup_lt xs i) as [v Hv]; [lia|]. exists v. split; [done|]. rewrite zlookup_to_nat in Hv by lia.
  pose proof (Forall2_lookup_lr _ _ _ _ _ _ Hxs (lookup_seqZ_lt 0 n (Z.to_nat i) ltac:(lia)) Hv) as Hsv.
  replace (0 + Z.of_nat (Z.to_nat i)) with i in Hsv by lia. destruct s as [l|p]; cbn in *; [by rewrite Hsv|by apply cell_val_read].
Qed.

End memory.

End ArrayProofs.
