(* ===== verification/ArrayOperations.v ===== *)
(** * The operations of arrays as operations on lists

    A lemma for each operation of [Array]: from an array that owns a block with the
    elements of a list it gives one that owns a block with the elements of the changed
    list; the rest of memory is the same. *)

From Stdlib Require Import SpecFloat.
From S2P Require Import Prelude Outcome MDMapping ArrayMemory Array ArrayProofs.

Module ArrayOperations.
Import Outcome MDMapping ArrayMemory Array ArrayProofs.

(** [n] elements from [pos] on replaced by [xs]. *)
Definition patch {A} (l : list A) (pos : Z) (xs : list A) : list A :=
  takeZ pos l ++ xs ++ dropZ (pos + Z.of_nat (length xs)) l.

(** The elements of [first] to [last] removed. *)
Definition cut {A} (l : list A) (first last : Z) : list A := takeZ first l ++ dropZ last l.

(** The first [n] elements, filled up with [v]. *)
Definition resized {A} (l : list A) (n : Z) (v : A) : list A := takeZ n l ++ replicate (Z.to_nat n - length l) v.

Section lists.
Context {A : Type}.
Implicit Types l xs : list A.

Lemma length_patch l pos xs : 0 <= pos -> pos + Z.of_nat (length xs) <= Z.of_nat (length l) -> length (patch l pos xs) = length l.
Proof. intros. apply Nat2Z.inj. unfold patch. rewrite !length_app, !Nat2Z.inj_add, length_takeZ, length_dropZ by lia. lia. Qed.

Lemma zlookup_patch l pos xs j : 0 <= pos -> pos + Z.of_nat (length xs) <= Z.of_nat (length l) ->
  (patch l pos xs).[j] = if decide (pos <= j < pos + Z.of_nat (length xs)) then xs.[j - pos] else l.[j].
Proof.
  intros Hp Hl. unfold patch. rewrite zlookup_app, length_takeZ, zlookup_takeZ by lia. case_decide; [by rewrite decide_False by lia|].
  rewrite zlookup_app. case_decide; [by rewrite decide_True by lia|]. rewrite decide_False, zlookup_dropZ by lia. f_equal. lia.
Qed.

Lemma length_cut l first last : 0 <= first <= last -> last <= Z.of_nat (length l) ->
  Z.of_nat (length (cut l first last)) = Z.of_nat (length l) - (last - first).
Proof. intros. unfold cut. rewrite length_app, Nat2Z.inj_add, length_takeZ, length_dropZ by lia. lia. Qed.

Lemma zlookup_cut l first last j : 0 <= first <= last -> last <= Z.of_nat (length l) ->
  (cut l first last).[j] = if decide (j < first) then l.[j] else l.[j + (last - first)].
Proof.
  intros Hf Hl. unfold cut. rewrite zlookup_app, length_takeZ, zlookup_takeZ by lia. case_decide; [done|].
  rewrite zlookup_dropZ by lia. f_equal. lia.
Qed.

Lemma length_resized l n v : 0 <= n -> Z.of_nat (length (resized l n v)) = n.
Proof. intros. unfold resized, takeZ. rewrite length_app, length_take, length_replicate. lia. Qed.

Lemma zlookup_resized l n v j : 0 <= n -> 0 <= j < n ->
  (resized l n v).[j] = if decide (j < Z.of_nat (length l)) then l.[j] else Some v.
Proof.
  intros Hn Hj. unfold resized. rewrite zlookup_app, zlookup_takeZ. unfold takeZ. rewrite length_take. case_decide as Hl.
  - by rewrite !decide_True by lia.
  - rewrite decide_False by lia. rewrite zlookup_to_nat by lia. apply lookup_replicate. split; [done|lia].
Qed.

Lemma splice_nil l pos : splice l pos [] = l.
Proof. unfold splice, takeZ, dropZ. cbn. apply take_drop. Qed.

Lemma patch_nil l pos : patch l pos [] = l.
Proof. unfold patch, takeZ, dropZ. cbn. rewrite Z.add_0_r. apply take_drop. Qed.
End lists.

Section operations.
Context {IB : IndexBits} {T : Type} {ET : Element T} {ML : Malloc}.

Notation cells := (list (option T)).
Implicit Types (m : Mem T) (l xs : list T) (rest : gmap positive cells) (a : Array).

(** Operations on no elements do nothing. *)
Lemma ops_fill_0 m p begin r : ops_fill m p begin 0 r = Done m.
Proof. unfold ops_fill. by rewrite up_nil by lia. Qed.

Lemma ops_fill_range_0 m p begin s : ops_fill_range m p begin 0 s = Done m.
Proof. unfold ops_fill_range. by rewrite up_nil by lia. Qed.

(** ** Insertion *)

Lemma insert_ok m a l rest pos r v : owns m a l rest -> 0 <= pos <= Z.of_nat (length l) -> room a (Z.of_nat (length l) + 1) ->
  ref_val rest r = Some v ->
  exists m' a', insert m a pos r = Done (m', a') /\ owns m' a' (splice l pos [v]) rest /\ same_kind a a'.
Proof.
  intros Ho Hp Hroom Hv. unfold insert.
  destruct (reserveForInsert_ok m a l rest 1 pos Ho Hp ltac:(lia) Hroom) as (m0 & b & cs & a' & -> & Hg & Hk).
  pose proof Hg as (_ & Hm0 & Hrb & Hd & Hn & Hc & Hl & _). cbn [mbind outcome_bind]. unfold ops_emplace, by_copy.
  rewrite (ref_val_deref m0 b r v) by congruence. cbn [mbind outcome_bind]. rewrite Hd, construct_ok by lia. cbn [mbind outcome_bind].
  eexists _, a'. split; [done|]. split; [|done]. eapply (gap_close m0 b cs _ a' l pos [v]); [done|done|]. cbn [length].
  replace (Z.of_nat 1) with (0 + 1) by lia. replace (0 + pos) with (pos + 0) by lia. apply (written_snoc cs cs pos 0 (fun i => [v].[i])); [lia..|]. apply written_nil.
Qed.

Lemma insert_range_ok m a l rest pos n s xs : owns m a l rest -> 0 <= pos <= Z.of_nat (length l) -> 0 <= n ->
  (0 < n -> room a (Z.of_nat (length l) + n)) -> src_list rest s n = Some xs ->
  exists m' a', insert_range m a pos n s = Done (m', a') /\ owns m' a' (splice l pos xs) rest /\ same_kind a a'.
Proof.
  intros Ho Hp Hn Hroom Hs. unfold insert_range. destruct (decide (n = 0)) as [->|Hn0].
  { unfold reserveForInsert. cbn. rewrite ops_fill_range_0. cbn. assert (xs = []) as -> by (by vm_compute in Hs; injection Hs).
    eexists _, _. by rewrite splice_nil. }
  destruct (reserveForInsert_ok m a l rest n pos Ho Hp ltac:(lia) ltac:(auto with lia)) as (m0 & b & cs & a' & -> & Hg & Hk).
  pose proof Hg as (_ & Hm0 & Hrb & Hd & Hsz & Hc & Hl & _). cbn [mbind outcome_bind]. rewrite Hd.
  destruct (src_list_read m0 b s n xs) as [Hlx Hread]; [congruence..|lia|].
  destruct (ops_fill_range_ok m0 b cs pos n ltac:(lia) ltac:(lia) ltac:(lia) s (fun i => xs.[i]) Hread) as (cs' & -> & Hw).
  cbn [mbind outcome_bind]. eexists _, a'. split; [done|]. split; [|done]. eapply gap_close; [done|by rewrite Hlx|by rewrite Hlx].
Qed.

Lemma zlookup_replicate_written cs cs' pos n (v : T) : 0 <= n -> written cs cs' pos n (fun _ => Some v) ->
  written cs cs' pos n (fun i => (replicate (Z.to_nat n) v).[i]).
Proof.
  intros Hn [Hl Hw]. split; [done|]. intros j. rewrite Hw. case_decide; [|done]. f_equal. symmetry. rewrite zlookup_to_nat by lia.
  apply lookup_replicate. split; [done|lia].
Qed.

Lemma insert_n_ok m a l rest pos n r v : owns m a l rest -> 0 <= pos <= Z.of_nat (length l) -> 0 <= n ->
  (0 < n -> room a (Z.of_nat (length l) + n)) -> ref_val rest r = Some v ->
  exists m' a', insert_n m a pos n r = Done (m', a') /\ owns m' a' (splice l pos (replicate (Z.to_nat n) v)) rest /\ same_kind a a'.
Proof.
  intros Ho Hp Hn Hroom Hv. unfold insert_n. destruct (decide (n = 0)) as [->|Hn0].
  { unfold reserveForInsert. cbn. rewrite ops_fill_0. cbn. eexists _, _. change (replicate (Z.to_nat 0) v) with (@nil T). by rewrite splice_nil. }
  destruct (reserveForInsert_ok m a l rest n pos Ho Hp ltac:(lia) ltac:(auto with lia)) as (m0 & b & cs & a' & -> & Hg & Hk).
  pose proof Hg as (_ & Hm0 & Hrb & Hd & Hsz & Hc & Hl & _). cbn [mbind outcome_bind]. rewrite Hd.
  destruct (ops_fill_ok m0 b cs pos n ltac:(lia) ltac:(lia) ltac:(lia) r v) as (cs' & -> & Hw); [apply ref_val_deref; congruence|].
  cbn [mbind outcome_bind]. eexists _, a'. split; [done|]. split; [|done].
  eapply gap_close; [done|..]; rewrite length_replicate, Z2Nat.id by lia; [done|]. by apply zlookup_replicate_written.
Qed.

(** The constructor's arguments of [emplace] do not depend on the array's block. *)
Lemma emplace_ok m a l rest pos args v : owns m a l rest -> 0 <= pos <= Z.of_nat (length l) -> room a (Z.of_nat (length l) + 1) ->
  (forall m', args m' = Done (v, m')) ->
  exists m' a', emplace m a pos args = Done (m', a') /\ owns m' a' (splice l pos [v]) rest /\ same_kind a a'.
Proof.
  intros Ho Hp Hroom Hv. pose proof (insert_ok m a l rest pos (Temp v) v Ho Hp Hroom eq_refl) as Hi.
  unfold emplace. unfold insert in Hi. destruct (reserveForInsert m a 1 pos) as [[m1 a1]| |]; [|done..]. cbn [mbind outcome_bind] in *.
  unfold ops_emplace in *. by rewrite Hv.
Qed.

(** ** Changing elements in place *)

(** Destroying a range of elements, and filling it again. *)
Lemma overwrite m a l rest pos n (write : Mem T -> outcome (Mem T)) xs :
  owns m a l rest -> 0 <= pos -> pos + n <= Z.of_nat (length l) -> Z.of_nat (length xs) = n ->
  (n = 0 -> forall m', write m' = Done m') ->
  (forall m0 b cs, blocks m0 = rest -> rest !! b = None -> m_data a = Ptr b 0 -> pos + n <= Z.of_nat (length cs) ->
     exists cs', write (with_block m0 b cs) = Done (with_block m0 b cs') /\ written cs cs' pos n (fun i => xs.[i])) ->
  exists m', (m1 ← ops_destroy m (m_data a) pos n; write m1) = Done m' /\ owns m' a (patch l pos xs) rest.
Proof.
  intros Ho Hp Hn Hx Hw0 Hw. pose proof Ho as (Hf & Hsz & Hc & Hm). destruct (decide (n = 0)) as [->|Hn0].
  { unfold ops_destroy. cbn. rewrite Hw0 by done. exists m. split; [done|]. assert (xs = []) as -> by (apply nil_length_inv; lia). by rewrite patch_nil. }
  destruct (m_data a) as [|b o] eqn:Hd; [destruct Hm; lia|].
  destruct (owns_block _ _ _ _ _ _ Ho Hd) as (m0 & cs & -> & -> & Hrest & Hrb & Hlen & Hj & Hlive).
  destruct (ops_destroy_ok m0 b cs pos n ltac:(lia) ltac:(lia) ltac:(lia)) as (cs1 & -> & Hl1 & Ho1); [intros; apply Hlive; lia|].
  cbn [mbind outcome_bind]. destruct (Hw m0 b cs1) as (cs2 & -> & Hl2 & Hw2); [done..|lia|].
  eexists. split; [done|]. apply owns_intro; try done; [by eapply fresh_with_block|rewrite length_patch; lia|lia|].
  intros j Hjr. rewrite length_patch in Hjr by lia. rewrite Hw2, zlookup_patch, Hx by lia. case_decide.
  - destruct (zlookup_lt xs (j - pos)) as [x ->]; [lia|done].
  - rewrite Ho1 by lia. apply Hj. lia.
Qed.

Lemma fill_n_ok m a l rest r v n pos : owns m a l rest -> 0 <= pos -> 0 <= n -> pos + n <= Z.of_nat (length l) -> ref_val rest r = Some v ->
  exists m', fill_n m a r n pos = Done m' /\ owns m' a (patch l pos (replicate (Z.to_nat n) v)) rest.
Proof.
  intros Ho Hp Hn Hl Hv. unfold fill_n. eapply (overwrite _ _ _ _ _ _ (fun m1 => ops_fill m1 (m_data a) pos n r)); try done.
  - rewrite length_replicate. lia.
  - intros -> m'. apply ops_fill_0.
  - intros m0 b cs Hm0 Hrb Hd Hlen. rewrite Hd. destruct (ops_fill_ok m0 b cs pos n Hn Hp Hlen r v) as (cs' & Hr & Hw).
    + apply ref_val_deref; congruence.
    + exists cs'. split; [done|]. by apply zlookup_replicate_written.
Qed.

Lemma fill_ok m a l rest r v : owns m a l rest -> ref_val rest r = Some v ->
  exists m', fill m a r = Done m' /\ owns m' a (replicate (length l) v) rest.
Proof.
  intros Ho Hv. pose proof Ho as (_ & Hsz & _). destruct (fill_n_ok m a l rest r v (m_num_elements a) 0 Ho) as (m' & Hr & Ho'); [lia..|done|].
  exists m'. split; [done|]. replace (replicate (length l) v) with (patch l 0 (replicate (Z.to_nat (m_num_elements a)) v)); [done|].
  unfold patch, takeZ, dropZ. rewrite length_replicate, Hsz, !Nat2Z.id. cbn. rewrite drop_ge by lia. apply app_nil_r.
Qed.

Lemma set_ok m a l rest s n pos xs : owns m a l rest -> 0 <= pos -> 0 <= n -> pos + n <= Z.of_nat (length l) -> src_list rest s n = Some xs ->
  exists m', set m a s n pos = Done m' /\ owns m' a (patch l pos xs) rest.
Proof.
  intros Ho Hp Hn Hl Hs. unfold set. eapply (overwrite _ _ _ _ _ _ (fun m1 => ops_fill_range m1 (m_data a) pos n s)); try done.
  - apply mapM_Some, Forall2_length in Hs. rewrite length_seqZ in Hs. lia.
  - intros -> m'. apply ops_fill_range_0.
  - intros m0 b cs Hm0 Hrb Hd Hlen. rewrite Hd. apply ops_fill_range_ok; [done..|].
    apply (src_list_read m0 b s n xs); [congruence..|done].
Qed.

(** ** Removing elements *)

Lemma clear_ok m a l rest : owns m a l rest ->
  exists m' a', clear m a = Done (m', a') /\ owns m' a' [] rest /\ same_kind a a' /\ m_capacity a' = m_capacity a /\ m_data a' = m_data a.
Proof.
  intros Ho. pose proof Ho as (Hf & Hsz & Hc & Hm). unfold clear. destruct (Z.ltb_spec 0 (m_num_elements a)) as [Hlt|Hge].
  2: { exists m, a. assert (l = []) as -> by (apply nil_length_inv; lia). done. }
  destruct (m_data a) as [|b o] eqn:Hd; [destruct Hm; lia|].
  destruct (owns_block _ _ _ _ _ _ Ho Hd) as (m0 & cs & -> & -> & Hrest & Hrb & Hlen & Hj & Hlive).
  destruct (ops_destroy_ok m0 b cs 0 (m_num_elements a) ltac:(lia) ltac:(lia) ltac:(lia)) as (cs1 & -> & Hl1 & _); [intros; apply Hlive; lia|].
  cbn [mbind outcome_bind]. eexists _, _. split; [done|]. split; [|done].
  apply owns_intro; cbn; try done || lia. by eapply fresh_with_block.
Qed.

Lemma erase_range_ok m a l rest first last : owns m a l rest -> 0 <= first <= last -> last <= Z.of_nat (length l) ->
  exists m' a', erase_range m a first last = Done (m', a', first) /\ owns m' a' (cut l first last) rest /\ same_kind a a'.
Proof.
  intros Ho Hf Hl. pose proof Ho as (Hfr & Hsz & Hc & Hm). unfold erase_range. destruct (Z.eqb_spec first last) as [->|Hne].
  { eexists _, _. split; [done|]. split; [|done]. unfold cut, takeZ, dropZ. by rewrite take_drop. }
  destruct (m_data a) as [|b o] eqn:Hd; [destruct Hm; lia|].
  destruct (owns_block _ _ _ _ _ _ Ho Hd) as (m0 & cs & -> & -> & Hrest & Hrb & Hlen & Hj & Hlive).
  destruct (ops_destroy_ok m0 b cs first (last - first) ltac:(lia) ltac:(lia) ltac:(lia)) as (cs1 & -> & Hl1 & Ho1); [intros; apply Hlive; lia|].
  cbn [mbind outcome_bind].
  destruct (ops_move_ok m0 b cs1 last (m_num_elements a) first) as (cs2 & -> & Hl2 & Hm2 & Ho2);
    [lia..|intros j Hjr; rewrite Ho1 by lia; apply Hlive; lia|].
  cbn [mbind outcome_bind]. eexists _, _. split; [done|]. split; [|done].
  apply owns_intro; cbn; try done; [by eapply fresh_with_block|rewrite length_cut; lia|lia|lia|].
  intros j Hjr. rewrite length_cut in Hjr by lia. rewrite zlookup_cut by lia. case_decide.
  - rewrite Ho2, Ho1 by lia. apply Hj. lia.
  - rewrite Hm2, Ho1 by lia. replace (j - first + last) with (j + (last - first)) by lia. apply Hj. lia.
Qed.

Lemma erase_ok m a l rest pos : owns m a l rest -> 0 <= pos < Z.of_nat (length l) ->
  exists m' a', erase m a pos = Done (m', a', pos) /\ owns m' a' (cut l pos (pos + 1)) rest /\ same_kind a a'.
Proof.
  intros Ho Hp. destruct (erase_range_ok m a l rest pos (pos + 1) Ho) as (m' & a' & Hr & Ho' & Hk); [lia..|]. exists m', a'.
  split; [|done]. revert Hr. unfold erase_range, erase. rewrite (proj2 (Z.eqb_neq _ _)) by lia. by replace (pos + 1 - pos) with 1 by lia.
Qed.

(** ** Capacity and size *)

Lemma reserve_ok m a l rest c : owns m a l rest -> c <= index_max -> (m_capacity a < c -> malloc_ok c = true) ->
  exists m' a', reserve m a c = Done (m', a') /\ owns m' a' l rest /\ same_kind a a' /\ m_capacity a' = Z.max (m_capacity a) c.
Proof.
  intros Ho Hc Hm. pose proof Ho as (_ & Hsz & Hcap & _). unfold reserve. destruct (Z.ltb_spec (m_capacity a) c).
  - destruct (setCapacity_ok m a l rest c Ho) as (m' & a' & -> & ? & ? & ?); [lia|auto|]. eexists _, _. split_and!; try done. lia.
  - eexists _, _. split_and!; try done. lia.
Qed.

Lemma shrink_ok m a l rest : owns m a l rest -> (l <> [] -> malloc_ok (Z.of_nat (length l)) = true) ->
  exists m' a', shrink m a = Done (m', a') /\ owns m' a' l rest /\ same_kind a a' /\ m_capacity a' = Z.of_nat (length l).
Proof.
  intros Ho Hm. pose proof Ho as (_ & Hsz & Hcap & _). unfold shrink. rewrite Hsz.
  destruct (setCapacity_ok m a l rest (Z.of_nat (length l)) Ho) as (m' & a' & -> & ? & ? & ?); [lia| |eauto 10].
  destruct l; [by left|right; by apply Hm].
Qed.

(** Once there is room, the new elements are written or the old ones destroyed. *)
Lemma resize_elements m a l rest n v (write : Mem T -> outcome (Mem T)) :
  owns m a l rest -> 0 <= n -> n <= m_capacity a ->
  (forall m0 b cs, Z.of_nat (length l) < n -> blocks m0 = rest -> rest !! b = None -> m_data a = Ptr b 0 -> n <= Z.of_nat (length cs) ->
     exists cs', write (with_block m0 b cs) = Done (with_block m0 b cs') /\
       written cs cs' (Z.of_nat (length l)) (n - Z.of_nat (length l)) (fun _ => Some v)) ->
  exists m', (if Z.of_nat (length l) <? n then write m
              else if n <? Z.of_nat (length l) then ops_destroy m (m_data a) n (Z.of_nat (length l) - n) else Done m) = Done m' /\
    owns m' (updateNumElements a n) (resized l n v) rest.
Proof.
  intros Ho Hn Hc Hw. pose proof Ho as (Hf & Hsz & Hcap & Hm). pose proof (length_resized l n v Hn) as Hlr.
  destruct (m_data a) as [|b o] eqn:Hd.
  { destruct Hm as [Hc0 Hm]. assert (n = 0) as -> by lia. assert (l = []) as -> by (apply nil_length_inv; lia). cbn. eexists. split; [done|].
    split_and!; cbn; try done || lia. by rewrite Hd. }
  destruct (owns_block _ _ _ _ _ _ Ho Hd) as (m0 & cs & -> & -> & Hrest & Hrb & Hlen & Hj & Hlive).
  assert (forall cs', length cs' = length cs ->
    (forall j, 0 <= j < n -> cs'.[j] = if decide (j < Z.of_nat (length l)) then cs.[j] else Some (Some v)) ->
    owns (with_block m0 b cs') (updateNumElements a n) (resized l n v) rest) as Hown.
  { intros cs' Hl' Hj'. apply owns_intro; cbn; try done || lia; [by eapply fresh_with_block|]. rewrite Hlr.
    intros j Hjr. rewrite Hj', zlookup_resized by lia. case_decide; [apply Hj; lia|done]. }
  destruct (Z.ltb_spec (Z.of_nat (length l)) n) as [Hlt|Hge].
  - destruct (Hw m0 b cs) as (cs' & -> & Hl' & Hw'); [done..|lia|]. eexists. split; [done|]. apply Hown; [done|].
    intros j Hjr. rewrite Hw'. repeat case_decide; done || lia.
  - destruct (Z.ltb_spec n (Z.of_nat (length l))).
    + destruct (ops_destroy_ok m0 b cs n (Z.of_nat (length l) - n) ltac:(lia) ltac:(lia) ltac:(lia)) as (cs1 & -> & Hl1 & Ho1); [intros; apply Hlive; lia|].
      eexists. split; [done|]. apply Hown; [done|]. intros j Hjr. rewrite decide_True by lia. apply Ho1. lia.
    + eexists. split; [done|]. apply Hown; [done|]. intros j Hjr. by rewrite decide_True by lia.
Qed.

(** ** Construction, copies and destruction *)

Lemma fresh_owns m b id : fresh_above m -> owns m (fresh_array b id) [] (blocks m).
Proof. intros Hf. pose proof index_max_lower. split_and!; cbn; done || lia. Qed.

(** The capacity that [initialize] chooses. *)
Definition initial_capacity (n c : Z) : Z :=
  let c := if (c <? 0) || (c <? n) then 0 else c in
  if c =? 0 then if MIN_DEFAULT_CAPACITY <? n then n else MIN_DEFAULT_CAPACITY else c.

Lemma initial_capacity_bounds n c : 0 <= n -> 0 < initial_capacity n c /\ n <= initial_capacity n c.
Proof.
  intros Hn. unfold initial_capacity, MIN_DEFAULT_CAPACITY.
  destruct (Z.ltb_spec c 0), (Z.ltb_spec c n), (Z.ltb_spec 32 n); cbn; try lia; destruct (Z.eqb_spec c 0); lia.
Qed.

Lemma initialize_ok m a rest n c flag : owns m a [] rest -> 0 <= n -> initial_capacity n c <= index_max ->
  malloc_ok (initial_capacity n c) = true ->
  exists m0 b cs a', initialize m a n c flag = Done (with_block m0 b cs, a') /\ gap m0 b cs a' [] 0 n rest /\ same_kind a a' /\
    m_capacity a' = initial_capacity n c /\
    (forall v, flag = true -> default_value = Some v -> forall j, 0 <= j < n -> cs.[j] = Some (Some v)).
Proof.
  intros Ho Hn Hc Hm. destruct (initial_capacity_bounds n c Hn) as [Hpos Hge]. unfold initialize. fold (initial_capacity n c).
  destruct (setCapacity_ok m a [] rest (initial_capacity n c) Ho) as (m1 & a1 & -> & Ho1 & Hc1 & Hk1); [cbn; lia|auto|].
  cbn [mbind outcome_bind]. pose proof Ho1 as (Hf1 & _ & _ & Hm1). destruct (m_data a1) as [|b o] eqn:Hd1; [destruct Hm1; lia|].
  destruct (owns_block _ _ _ _ _ _ Ho1 Hd1) as (m0 & cs & -> & -> & Hrest & Hrb & Hlen & _).
  assert (forall cs', length cs' = length cs -> gap m0 b cs' (updateNumElements a1 n) [] 0 n rest) as Hgap.
  { intros cs' Hl'. split_and!; cbn; try done || lia. by eapply fresh_with_block. }
  destruct (decide (flag = true /\ is_Some default_value)) as [[-> [v Hv]]|Hno].
  - destruct (ops_init_ok m0 b cs 0 n ltac:(lia) ltac:(lia) ltac:(lia) v Hv) as (cs' & -> & Hl' & Hw). cbn.
    eexists m0, b, cs', _. split_and!; [done|by apply Hgap|done|done|]. intros v' _ Hv' j Hj. rewrite Hw, decide_True by lia. congruence.
  - replace (if flag then ops_init (with_block m0 b cs) (Ptr b 0) 0 n else Done (with_block m0 b cs)) with (Done (with_block m0 b cs)).
    + cbn. eexists m0, b, cs, _. split_and!; [done|by apply Hgap|done|done|]. intros v -> Hv. destruct Hno. eauto.
    + destruct flag; [|done]. unfold ops_init. destruct default_value; [|done]. destruct Hno. eauto.
Qed.

Lemma splice_empty xs : splice [] 0 xs = xs.
Proof. unfold splice, takeZ, dropZ. cbn. apply app_nil_r. Qed.

Lemma initialize_from_other_ok m a rest s n xs : owns m a [] rest -> 0 <= n <= index_max -> (n = 0 \/ malloc_ok n = true) ->
  src_list rest s n = Some xs ->
  exists m' a', initialize_from_other m a s n = Done (m', a') /\ owns m' a' xs rest /\ same_kind a a' /\ m_capacity a' = n.
Proof.
  intros Ho Hn Hm Hs. unfold initialize_from_other.
  destruct (setCapacity_ok m a [] rest n Ho) as (m1 & a1 & -> & Ho1 & Hc1 & Hk1); [cbn; lia|done|]. cbn [mbind outcome_bind].
  pose proof Ho1 as (Hf1 & Hsz1 & Hcap1 & Hm1). destruct (decide (n = 0)) as [->|Hn0].
  - rewrite ops_fill_range_0. cbn. assert (xs = []) as -> by (by vm_compute in Hs; injection Hs).
    eexists _, _. split; [done|]. split; [|done]. unfold updateNumElements. cbn in Hsz1. replace (with_size a1 0) with a1; [done|].
    by destruct a1; cbn in *; subst.
  - destruct (m_data a1) as [|b o] eqn:Hd1; [destruct Hm1; lia|].
    destruct (owns_block _ _ _ _ _ _ Ho1 Hd1) as (m0 & cs & -> & -> & Hrest & Hrb & Hlen & _).
    destruct (src_list_read m0 b s n xs) as [Hlx Hread]; [congruence..|lia|].
    destruct (ops_fill_range_ok m0 b cs 0 n ltac:(lia) ltac:(lia) ltac:(lia) s (fun i => xs.[i]) Hread) as (cs' & -> & Hw). cbn.
    eexists _, _. split; [done|]. split; [|done]. rewrite <- (splice_empty xs). eapply gap_close; [done| |by rewrite Hlx].
    rewrite Hlx. split_and!; cbn; try done || lia.
Qed.

(** The elements of another array are readable when its block is in the rest. *)
Lemma owns_source m a l rest : owns m a l rest -> src_list (blocks m) (Inside (m_data a)) (size a) = Some l.
Proof.
  intros Ho. pose proof Ho as (_ & Hsz & Hcap & Hm). unfold src_list, size. rewrite Hsz. apply mapM_Some.
  apply Forall2_same_length_lookup_2; [rewrite length_seqZ; lia|]. intros k i x [-> Hk]%lookup_seqZ Hx. rewrite Z.add_0_l.
  cbn. destruct (m_data a) as [|b o] eqn:Hd; [destruct Hm; pose proof (lookup_lt_Some _ _ _ Hx); lia|].
  destruct (owns_block _ _ _ _ _ _ Ho Hd) as (m0 & cs & -> & -> & _ & _ & _ & Hj & _). cbn. rewrite lookup_insert_eq. cbn.
  rewrite Z.add_0_l, Hj by lia. by rewrite zlookup_of_nat, Hx.
Qed.

Lemma Array_copy_ok m a l rest : owns m a l rest ->
  initial_capacity (size a) (capacity a) <= index_max -> malloc_ok (initial_capacity (size a) (capacity a)) = true ->
  exists m' a', Array_copy m a = Done (m', a') /\ owns m' a' l (blocks m) /\
    a_base a' = a_base a /\ m_allocator_id a' = m_allocator_id a /\ m_resize_ratio a' = DEFAULT_RESIZE_RATIO.
Proof.
  intros Ho Hc Hm. pose proof Ho as (Hf & Hsz & _). unfold size, capacity in *. unfold Array_copy, size, capacity.
  destruct (initialize_ok m (fresh_array (a_base a) (m_allocator_id a)) (blocks m) (m_num_elements a) (m_capacity a) true)
    as (m0 & b & cs & a1 & -> & Hg & (Hk1 & Hk2 & Hk3) & _); [by apply fresh_owns|lia|done..|]. cbn [mbind outcome_bind].
  pose proof Hg as (_ & Hm0 & Hrb & Hd & Hn & Hcap & Hl & _). rewrite Hd. cbn in Hn.
  replace (m_num_elements a1) with (m_num_elements a) by lia.
  pose proof (owns_source m a l rest Ho) as Hs. unfold size in Hs.
  destruct (src_list_read m0 b (Inside (m_data a)) (m_num_elements a) l) as [Hlx Hread]; [congruence..|lia|].
  destruct (ops_fill_range_ok m0 b cs 0 (m_num_elements a) ltac:(lia) ltac:(lia) ltac:(lia) (Inside (m_data a)) (fun i => l.[i]) Hread) as (cs' & -> & Hw).
  cbn [mbind outcome_bind]. eexists _, a1. split; [done|]. split; [|done]. rewrite <- (splice_empty l).
  eapply (gap_close m0 b cs); [done|by rewrite Hlx|]. by rewrite Hlx.
Qed.

Lemma Array_destroy_ok m a l rest : owns m a l rest -> exists m', Array_destroy m a = Done m' /\ blocks m' = rest /\ fresh_above m'.
Proof.
  intros Ho. destruct (clear_ok m a l rest Ho) as (m1 & a1 & Hc & Ho1 & _ & _ & Hd). unfold Array_destroy. rewrite Hc. cbn [mbind outcome_bind].
  destruct (owns_deallocate m1 a1 [] rest Ho1) as [Hde Hf]. case_decide as Hnull.
  - rewrite Hnull in Hde. cbn in Hde. injection Hde as Hm1. exists m1. split; [done|]. by rewrite Hm1.
  - rewrite Hde. eexists. done.
Qed.

Lemma assign_copy_ok m a l other lo rest : owns m a l rest -> src_list rest (Inside (m_data other)) (size other) = Some lo ->
  0 <= size other <= capacity other -> capacity other <= index_max -> (capacity other = 0 \/ malloc_ok (capacity other) = true) ->
  exists m' a', assign_copy m a other = Done (m', a') /\ owns m' a' lo rest /\ same_kind other a' /\ m_capacity a' = capacity other.
Proof.
  intros Ho Hs Hsz Hc Hm. unfold assign_copy. destruct (clear_ok m a l rest Ho) as (m1 & a1 & -> & Ho1 & _). cbn [mbind outcome_bind].
  set (a2 := mkArray _ _ _ _ _ _).
  destruct (setCapacity_ok m1 a2 [] rest (capacity other)) as (m3 & a3 & -> & Ho3 & Hc3 & Hk3); [exact Ho1|cbn; lia|done|]. cbn [mbind outcome_bind].
  pose proof Ho3 as (Hf3 & Hsz3 & Hcap3 & Hm3). destruct (decide (size other = 0)) as [Hs0|Hs0].
  - rewrite Hs0 in *. rewrite ops_fill_range_0. cbn. assert (lo = []) as -> by (by vm_compute in Hs; injection Hs).
    eexists _, _. split; [done|]. split; [|done]. unfold updateNumElements. cbn in Hsz3. replace (with_size a3 0) with a3; [done|].
    by destruct a3; cbn in *; subst.
  - destruct (m_data a3) as [|b o] eqn:Hd3; [destruct Hm3; lia|].
    destruct (owns_block _ _ _ _ _ _ Ho3 Hd3) as (m0 & cs & -> & -> & Hrest & Hrb & Hlen & _).
    destruct (src_list_read m0 b (Inside (m_data other)) (size other) lo) as [Hlx Hread]; [congruence..|lia|].
    destruct (ops_fill_range_ok m0 b cs 0 (size other) ltac:(lia) ltac:(lia) ltac:(lia) (Inside (m_data other)) (fun i => lo.[i]) Hread) as (cs' & -> & Hw).
    cbn. eexists _, _. split; [done|]. split; [|done]. rewrite <- (splice_empty lo). eapply gap_close; [done| |by rewrite Hlx].
    rewrite Hlx. split_and!; cbn; try done || lia.
Qed.

End operations.

End ArrayOperations.
