(* ===== verification/ArrayTheorems.v ===== *)
(** * Theorems on arrays

    One-dimensional arrays behave as lists, copies are independent and memory is given
    back, and multidimensional arrays are functions of their indices. *)

From Stdlib Require Import SpecFloat.
From S2P Require Import Prelude Outcome MDMapping MDMappingProofs MDMappingTheorems ArrayMemory Array ArrayProofs ArrayOperations.

Module ArrayTheorems.
Import Outcome MDMapping ArrayMemory Array ArrayProofs ArrayOperations.

Section one_dimension.
Context {IB : IndexBits} {T : Type} {ET : Element T} {ML : Malloc} (storage : MDMapping).

Notation cells := (list (option T)).
Implicit Types (m : Mem T) (l xs : list T) (rest : gmap positive cells) (a : Array).

(** ** Programs on one-dimensional arrays *)

Inductive op : Type :=
  | PushBack (r : reference T) | PushBackMove (v : T) | Insert (pos : Z) (r : reference T)
  | InsertN (pos n : Z) (r : reference T) | InsertRange (pos n : Z) (s : source T) | Emplace (pos : Z) (v : T)
  | Erase (pos : Z) | EraseRange (first last : Z) | Resize (n : Z) | ResizeValue (n : Z) (r : reference T)
  | Fill (r : reference T) | FillN (r : reference T) (n pos : Z) | SetRange (s : source T) (n pos : Z)
  | Clear | Reserve (c : Z) | Shrink | SetResizeRatio (ratio : spec_float).

Definition exec (m : Mem T) (a : Array) (o : op) : outcome (Mem T * Array) :=
  match o with
  | PushBack r => push_back m a r
  | PushBackMove v => push_back_move m a (Temp v)
  | Insert pos r => insert m a pos r
  | InsertN pos n r => insert_n m a pos n r
  | InsertRange pos n s => insert_range m a pos n s
  | Emplace pos v => emplace m a pos (fun m => Done (v, m))
  | Erase pos => '(m, a, _) ← erase m a pos; Done (m, a)
  | EraseRange first last => '(m, a, _) ← erase_range m a first last; Done (m, a)
  | Resize n => resize 1 storage m a [n]
  | ResizeValue n r => resize_value 1 storage m a [n] r
  | Fill r => m ← fill m a r; Done (m, a)
  | FillN r n pos => m ← fill_n m a r n pos; Done (m, a)
  | SetRange s n pos => m ← set m a s n pos; Done (m, a)
  | Clear => clear m a
  | Reserve c => reserve m a c
  | Shrink => shrink m a
  | SetResizeRatio ratio => Done (m, setResizeRatio a ratio)
  end.

(** The same operations on lists; [rest] is the memory that references may refer to. *)
Definition exec_list (rest : gmap positive cells) (l : list T) (o : op) : option (list T) :=
  match o with
  | PushBack r => v ← ref_val rest r; Some (l ++ [v])
  | PushBackMove v => Some (l ++ [v])
  | Insert pos r => v ← ref_val rest r; Some (splice l pos [v])
  | InsertN pos n r => v ← ref_val rest r; Some (splice l pos (replicate (Z.to_nat n) v))
  | InsertRange pos n s => xs ← src_list rest s n; Some (splice l pos xs)
  | Emplace pos v => Some (splice l pos [v])
  | Erase pos => Some (cut l pos (pos + 1))
  | EraseRange first last => Some (cut l first last)
  | Resize n => if decide (n <= Z.of_nat (length l)) then Some (takeZ n l) else v ← default_value; Some (resized l n v)
  | ResizeValue n r => v ← ref_val rest r; Some (resized l n v)
  | Fill r => v ← ref_val rest r; Some (replicate (length l) v)
  | FillN r n pos => v ← ref_val rest r; Some (patch l pos (replicate (Z.to_nat n) v))
  | SetRange s n pos => xs ← src_list rest s n; Some (patch l pos xs)
  | Clear => Some []
  | Reserve _ | Shrink | SetResizeRatio _ => Some l
  end.

(** [values != nullptr] *)
Definition not_nullptr (s : source T) : Prop := s <> Inside Null.

(** The preconditions, with those that the code asserts: positions are in range, sources are
    not null, references refer to live objects outside of the array, the size fits, and
    memory for it can be had with a resize ratio that is not below 1. *)
Definition legal (rest : gmap positive cells) (a : Array) (l : list T) (o : op) : Prop :=
  let len := Z.of_nat (length l) in
  is_Some (exec_list rest l o) /\
  match o with
  | PushBack _ | PushBackMove _ => room a (len + 1)
  | Insert pos _ | Emplace pos _ => 0 <= pos <= len /\ room a (len + 1)
  | InsertN pos n _ => 0 <= pos <= len /\ 0 <= n /\ (0 < n -> room a (len + n))
  | InsertRange pos n s => (0 <= pos <= len /\ 0 <= n /\ (0 < n -> room a (len + n))) /\ not_nullptr s
  | Erase pos => 0 <= pos < len
  | EraseRange first last => (0 <= first <= last /\ last <= len) /\ first < len
  | Resize n | ResizeValue n _ => 0 <= n /\ room a n
  | Fill _ | Clear | SetResizeRatio _ => True
  | FillN _ n pos => 0 <= pos /\ 0 <= n /\ pos + n <= len
  | SetRange s n pos => (0 <= pos /\ 0 <= n /\ pos + n <= len) /\ not_nullptr s
  | Reserve c => c <= index_max /\ (m_capacity a < c -> malloc_ok c = true)
  | Shrink => l <> [] -> malloc_ok len = true
  end.

Fixpoint run (m : Mem T) (a : Array) (ops : list op) : outcome (Mem T * Array) :=
  match ops with [] => Done (m, a) | o :: ops => '(m, a) ← exec m a o; run m a ops end.

Fixpoint run_list (rest : gmap positive cells) (l : list T) (ops : list op) : option (list T) :=
  match ops with [] => Some l | o :: ops => l ← exec_list rest l o; run_list rest l ops end.

Fixpoint legal_run (rest : gmap positive cells) (m : Mem T) (a : Array) (l : list T) (ops : list op) : Prop :=
  match ops with
  | [] => True
  | o :: ops => legal rest a l o /\
      forall m' a' l', exec m a o = Done (m', a') -> exec_list rest l o = Some l' -> legal_run rest m' a' l' ops
  end.

(** ** The step *)

Lemma splice_end l v : splice l (Z.of_nat (length l)) [v] = l ++ [v].
Proof. unfold splice, takeZ, dropZ. by rewrite Nat2Z.id, take_ge, drop_ge by lia. Qed.

Lemma packProduct_1 n : 0 <= n <= index_max -> packProduct [n] = Done n.
Proof.
  intros Hn. unfold packProduct. cbn [length]. rewrite up_cons, up_nil by lia. cbn [for_each]. change (get [n] 0) with (Done n).
  cbn [mbind outcome_bind]. rewrite ix_mul_small by lia. cbn [mbind outcome_bind]. f_equal. lia.
Qed.

Lemma resize_ok m a l rest n v value : owns m a l rest -> a_base a = Base1 1 -> 0 <= n -> room a n ->
  (Z.of_nat (length l) < n -> match value with Some r => ref_val rest r = Some v | None => default_value = Some v end) ->
  exists m' a', resizeImpl 1 storage m a [n] true value = Done (m', a') /\ owns m' a' (resized l n v) rest /\ a_base a' = Base1 1.
Proof.
  intros Ho Hb Hn Hroom Hv. pose proof (proj1 Hroom) as Hmax. unfold resizeImpl. rewrite packProduct_1 by lia. cbn [mbind outcome_bind].
  change (ArrayBase_shape 1 storage [n] 1) with (Done (Base1 1)). cbn [mbind outcome_bind].
  replace (with_base a (Base1 1)) with a by (rewrite <- Hb; by destruct a).
  assert (exists m1 a1, (if m_capacity a <? n then dynamicRealloc m a n else Done (m, a)) = Done (m1, a1) /\
    owns m1 a1 l rest /\ n <= m_capacity a1 /\ same_kind a a1) as (m1 & a1 & -> & Ho1 & Hc1 & Hk1).
  { destruct (decide (Z.of_nat (length l) <= n)); [by apply ensure_room|]. pose proof Ho as (_ & ? & ? & _).
    rewrite (proj2 (Z.ltb_ge _ _)) by lia. exists m, a. split_and!; done || lia. }
  cbn [mbind outcome_bind]. rewrite (proj1 (proj2 Ho)), andb_true_r.
  destruct (resize_elements m1 a1 l rest n v (fun m => match value with
    | Some r => ops_fill m (m_data a1) (Z.of_nat (length l)) (n - Z.of_nat (length l)) r
    | None => ops_init m (m_data a1) (Z.of_nat (length l)) (n - Z.of_nat (length l)) end)) as (m2 & -> & Ho2); [done..| |].
  - intros m0 b cs Hlt Hm0 Hrb -> Hlen. specialize (Hv Hlt). destruct value as [r|].
    + apply ops_fill_ok; [lia..|]. apply ref_val_deref; congruence.
    + apply ops_init_ok; [lia..|done].
  - cbn. eexists _, _. split; [done|]. split; [done|]. cbn. by rewrite (proj1 Hk1).
Qed.

Lemma resized_shorter l n v : n <= Z.of_nat (length l) -> resized l n v = takeZ n l.
Proof. intros. unfold resized. replace (Z.to_nat n - length l)%nat with 0%nat by lia. apply app_nil_r. Qed.

(** The array that an operation's lemma gives. *)
Ltac step_done Hk := eexists _, _; split_and!; [eassumption || reflexivity|eassumption|done || (by apply Hk)].

(** Every legal operation does to the array what it does to the list. *)
Lemma exec_ok m a l rest o : owns m a l rest -> a_base a = Base1 1 -> legal rest a l o ->
  exists m' a' l', exec m a o = Done (m', a') /\ exec_list rest l o = Some l' /\ owns m' a' l' rest /\ a_base a' = Base1 1.
Proof.
  intros Ho Hb [[l' Hl'] Hleg]. pose proof Ho as (Hf & Hsz & Hcap & _).
  enough (exists m' a', exec m a o = Done (m', a') /\ owns m' a' l' rest /\ a_base a' = Base1 1) by naive_solver.
  assert (forall a1, same_kind a a1 -> a_base a1 = Base1 1) as Hk by (intros a1 (-> & _); done).
  destruct o as [r|v|pos r|pos n r|pos n s|pos v|pos|first last|n|n r|r|r n pos|s n pos| |c| |q]; cbn [exec exec_list] in *; cbn beta iota zeta in Hleg.
  - destruct (ref_val rest r) as [v|] eqn:Hv; [injection Hl' as <-|done]. rewrite <- splice_end.
    destruct (insert_ok m a l rest (Z.of_nat (length l)) r v) as (m' & a' & Hr & ? & ?); [done|lia|done..|].
    exists m', a'. unfold push_back, emplace_back, size. rewrite Hsz. split_and!; [exact Hr|done|by apply Hk].
  - injection Hl' as <-. rewrite <- splice_end.
    destruct (insert_ok m a l rest (Z.of_nat (length l)) (Temp v) v) as (m' & a' & Hr & ? & ?); [done|lia|done..|].
    exists m', a'. unfold push_back_move, emplace_back, size. rewrite Hsz. split_and!; [exact Hr|done|by apply Hk].
  - destruct (ref_val rest r) as [v|] eqn:Hv; [injection Hl' as <-|done].
    destruct (insert_ok m a l rest pos r v) as (m' & a' & ? & ? & ?); [naive_solver..|]. step_done Hk.
  - destruct (ref_val rest r) as [v|] eqn:Hv; [injection Hl' as <-|done].
    destruct (insert_n_ok m a l rest pos n r v) as (m' & a' & ? & ? & ?); [naive_solver..|]. step_done Hk.
  - destruct (src_list rest s n) as [xs|] eqn:Hv; [injection Hl' as <-|done].
    destruct (insert_range_ok m a l rest pos n s xs) as (m' & a' & ? & ? & ?); [naive_solver..|]. step_done Hk.
  - injection Hl' as <-. destruct (emplace_ok m a l rest pos (fun m => Done (v, m)) v) as (m' & a' & ? & ? & ?); [naive_solver..|]. step_done Hk.
  - injection Hl' as <-. destruct (erase_ok m a l rest pos) as (m' & a' & -> & ? & ?); [done..|]. cbn. step_done Hk.
  - injection Hl' as <-. destruct (erase_range_ok m a l rest first last) as (m' & a' & -> & ? & ?); [naive_solver..|]. cbn. step_done Hk.
  - destruct Hleg as [Hn Hroom]. case_decide as Hle.
    + injection Hl' as <-. destruct l as [|x l0].
      * assert (n = 0) as -> by (cbn in Hle; lia). unfold resize, resizeImpl. rewrite packProduct_1 by lia. cbn.
        replace (with_base a (Base1 1)) with a by (rewrite <- Hb; by destruct a). rewrite Hsz in *. cbn in Hcap.
        rewrite (proj2 (Z.ltb_ge (m_capacity a) 0)) by lia. cbn. eexists _, _. split; [done|].
        unfold updateNumElements. replace (with_size a 0) with a; [done|]. by destruct a; cbn in *; subst.
      * rewrite <- (resized_shorter (x :: l0) n x) by done. by apply resize_ok; [..|lia].
    + destruct default_value as [v|] eqn:Hv; [injection Hl' as <-|done]. by apply resize_ok.
  - destruct (ref_val rest r) as [v|] eqn:Hv; [injection Hl' as <-|done]. by apply resize_ok; try apply Hleg.
  - destruct (ref_val rest r) as [v|] eqn:Hv; [injection Hl' as <-|done].
    destruct (fill_ok m a l rest r v) as (m' & -> & ?); [done..|]. cbn. step_done Hk.
  - destruct (ref_val rest r) as [v|] eqn:Hv; [injection Hl' as <-|done].
    destruct (fill_n_ok m a l rest r v n pos) as (m' & -> & ?); [naive_solver..|]. cbn. step_done Hk.
  - destruct (src_list rest s n) as [xs|] eqn:Hv; [injection Hl' as <-|done].
    destruct (set_ok m a l rest s n pos xs) as (m' & -> & ?); [naive_solver..|]. cbn. step_done Hk.
  - injection Hl' as <-. destruct (clear_ok m a l rest) as (m' & a' & ? & ? & ? & _); [done|]. step_done Hk.
  - injection Hl' as <-. destruct (reserve_ok m a l rest c) as (m' & a' & ? & ? & ? & _); [naive_solver..|]. step_done Hk.
  - injection Hl' as <-. destruct (shrink_ok m a l rest) as (m' & a' & ? & ? & ? & _); [naive_solver..|]. step_done Hk.
  - injection Hl' as <-. eexists _, _. split; [done|]. split; [|done]. destruct a; exact Ho.
Qed.

(** Reading an element. *)
Lemma at_index_1 m a l rest i x : owns m a l rest -> a_base a = Base1 1 -> l.[i] = Some x ->
  at_index 1 m (a_base a) (m_data a) [i] = Done x.
Proof.
  intros Ho Hb Hi. pose proof (zlookup_Some_bounds _ _ _ Hi). pose proof Ho as (_ & ? & ? & Hm). rewrite Hb. unfold at_index. cbn [offset].
  change (get [i] 0) with (Done i). cbn [mbind outcome_bind]. rewrite ix_mul_small by lia. cbn [mbind outcome_bind].
  replace (i * 1) with i by lia.
  destruct (m_data a) as [|b o] eqn:Hd; [destruct Hm; lia|].
  destruct (owns_block _ _ _ _ _ _ Ho Hd) as (m0 & cs & -> & -> & _ & _ & _ & Hj & _). apply read_ok. rewrite Z.add_0_l, Hj by lia. by rewrite Hi.
Qed.

(** A legal program runs to its end, and the list it leaves is the array's. *)
Lemma run_ok ops : forall m a l rest, owns m a l rest -> a_base a = Base1 1 -> legal_run rest m a l ops ->
  exists m' a' l', run m a ops = Done (m', a') /\ run_list rest l ops = Some l' /\ owns m' a' l' rest /\ a_base a' = Base1 1.
Proof.
  induction ops as [|o ops IH]; intros m a l rest Ho Hb; cbn; [intros _; by eexists _, _, _|]. intros [Hleg Hrest].
  destruct (exec_ok m a l rest o Ho Hb Hleg) as (m1 & a1 & l1 & He & Hl & Ho1 & Hb1). rewrite He, Hl. cbn. eauto.
Qed.

End one_dimension.

Arguments op : clear implicits.

(** ** Several dimensions *)

Section dimensions.
Context {IB : IndexBits} {T : Type} {ET : Element T} {ML : Malloc} (DIM : Z) (HD : 2 <= DIM <= 2 ^ 16).
Import MDMappingProofs MDMappingTheorems.

Notation cells := (list (option T)).
Implicit Types (m : Mem T) (l xs : list T) (rest : gmap positive cells) (a : Array) (shape dirs idx : list Z).

Let HD1 : 1 <= DIM <= 2 ^ 16.
Proof. lia. Qed.

(** Indices inside a shape. *)
Definition inside idx shape : Prop := Forall2 (fun i n => 0 <= i < n) idx shape.

(** An array-like object of the given shape, laid out without gaps. *)
Definition dense (b : ArrayBase) (n : Z) shape dirs : Prop :=
  exists mp, b = BaseN shape mp 1 /\ laid_out DIM mp shape dirs 1 /\ directions DIM dirs /\ Z.of_nat (length shape) = DIM /\
    Forall (Z.lt 0) shape /\ prod shape <= index_max /\ n = prod shape.

Lemma packProduct_ok shape : Forall (Z.lt 0) shape -> prod shape <= index_max -> packProduct shape = Done (prod shape).
Proof.
  intros Hp Hmax. unfold packProduct.
  destruct (for_up_inv (fun i r => r = prod (takeZ i shape)) 0 (Z.of_nat (length shape))
    (fun k r => x ← get shape k; ix_mul r x) 1) as (r & -> & ->); [lia|done| |].
  - intros i r Hi ->. rewrite get_el by lia. cbn [mbind outcome_bind]. eexists. rewrite takeZ_step by lia.
    rewrite prod_app. cbn [prod foldr]. rewrite Z.mul_1_r. split; [|done]. apply ix_mul_small.
    pose proof (prod_app (takeZ (i + 1) shape) (dropZ (i + 1) shape)) as Hs.
    assert (takeZ (i + 1) shape ++ dropZ (i + 1) shape = shape) as Htd by apply take_drop.
    rewrite Htd, takeZ_step, prod_app in Hs by lia. cbn [prod foldr] in Hs. rewrite Z.mul_1_r in Hs.
    pose proof (prod_dropZ shape (i + 1) Hp). pose proof (prod_pos _ (Forall_take _ (Z.to_nat i) _ Hp)) as Ht.
    change (take (Z.to_nat i) shape) with (takeZ i shape) in Ht.
    assert (0 < el shape i) by (apply (zlookup_Forall _ _ i _ Hp), zlookup_el; lia). nia.
  - unfold takeZ. by rewrite take_ge by lia.
Qed.

Lemma fastest_ok mp shape dirs f : directions DIM dirs -> Z.of_nat (length shape) = DIM -> laid_out DIM mp shape dirs f ->
  fastestStrideLength DIM mp = Done f.
Proof.
  intros Hp Hsh Hlo. pose proof (directions_length _ _ Hp). pose proof (directions_el _ _ Hp (DIM - 1) ltac:(lia)).
  unfold fastestStrideLength. rewrite (lo_dirs _ _ _ _ _ Hlo), get_el by lia. cbn [mbind outcome_bind].
  rewrite get_el by (rewrite (lo_length _ _ _ _ _ Hlo); lia). rewrite (stride_el DIM HD1 mp shape dirs f) by (done || lia).
  unfold dropZ. rewrite drop_ge by (rewrite length_pick; lia). cbn. f_equal. lia.
Qed.

Lemma base_shape_ok storage shape : Z.of_nat (length (m_strides storage)) = DIM -> Z.of_nat (length (m_slowestDirs storage)) = DIM ->
  Z.of_nat (length shape) = DIM -> Forall (Z.lt 0) shape -> prod shape <= index_max ->
  exists b, ArrayBase_shape DIM storage shape 1 = Done b /\ dense b (prod shape) shape (row_dirs DIM).
Proof.
  intros Hs Hd Hsh Hp Hmax. unfold ArrayBase_shape. rewrite (proj2 (Z.eqb_neq _ _)) by lia.
  rewrite (initializeShape_order_dirs DIM HD1) by done. change (order_dirs DIM ROW) with (row_dirs DIM).
  destruct (initializeShape_dirs_ok DIM HD1 storage shape (row_dirs DIM) 1) as (mp & -> & Hlo); try done || lia. { apply row_directions. }
  cbn [mbind outcome_bind]. rewrite (fastest_ok mp shape (row_dirs DIM) 1) by (done || apply row_directions). cbn [mbind outcome_bind].
  eexists. split; [done|]. exists mp. split_and!; try done. apply row_directions.
Qed.

(** The position of an index. *)
Definition position shape dirs idx : Z := encode (pick shape dirs) (pick idx dirs).

Lemma offset_ok b n shape dirs idx : dense b n shape dirs -> inside idx shape ->
  offset DIM b idx = Done (position shape dirs idx) /\ 0 <= position shape dirs idx < n.
Proof.
  intros (mp & -> & Hlo & Hp & Hsh & Hpos & Hmax & ->) Hi. split.
  - cbn. rewrite (toFlatIndex_ok DIM HD1 mp shape dirs 1) by (done || lia). f_equal. unfold position. lia.
  - destruct (index_digits DIM shape dirs Hp Hsh idx Hi) as [HY _]. rewrite <- (pick_prod DIM HD1 shape dirs Hp Hsh). by apply encode_bound.
Qed.

Lemma position_inj b n shape dirs idx idx' : dense b n shape dirs -> inside idx shape -> inside idx' shape ->
  position shape dirs idx = position shape dirs idx' -> idx = idx'.
Proof.
  intros (mp & -> & Hlo & Hp & Hsh & Hpos & Hmax & ->) Hi Hi' Heq.
  assert (0 < 1) as H01 by lia. assert (1 * prod shape <= index_max) as Hm1 by lia.
  pose proof (toMultiIndex_ok DIM HD1 mp shape dirs 1 Hp Hsh Hpos H01 Hm1 Hlo idx shape Hi Hsh) as H1.
  pose proof (toMultiIndex_ok DIM HD1 mp shape dirs 1 Hp Hsh Hpos H01 Hm1 Hlo idx' shape Hi' Hsh) as H2.
  unfold position in Heq. rewrite Heq in H1. congruence.
Qed.

(** Reading and assigning the element at an offset. *)
Lemma owns_read m a l rest k : owns m a l rest -> 0 <= k < Z.of_nat (length l) ->
  exists x, l.[k] = Some x /\ read m (m_data a) k = Done x.
Proof.
  intros Ho Hk. pose proof Ho as (_ & ? & ? & Hm). destruct (m_data a) as [|b o] eqn:Hd; [destruct Hm; lia|].
  destruct (owns_block _ _ _ _ _ _ Ho Hd) as (m0 & cs & -> & -> & _ & _ & _ & Hj & _). destruct (zlookup_lt l k Hk) as [x Hx].
  exists x. split; [done|]. apply read_ok. rewrite Z.add_0_l, Hj by lia. by rewrite Hx.
Qed.

Lemma owns_write m a l rest k v : owns m a l rest -> 0 <= k < Z.of_nat (length l) ->
  exists m', construct m (m_data a) k v = Done m' /\ owns m' a (<[Z.to_nat k := v]> l) rest.
Proof.
  intros Ho Hk. pose proof Ho as (Hf & ? & ? & Hm). destruct (m_data a) as [|b o] eqn:Hd; [destruct Hm; lia|].
  destruct (owns_block _ _ _ _ _ _ Ho Hd) as (m0 & cs & -> & -> & Hrest & Hrb & Hlen & Hj & _).
  rewrite construct_ok by lia. eexists. split; [done|]. apply owns_intro; rewrite ?length_insert; try done; [by eapply fresh_with_block|].
  intros j Hjr. rewrite !zlookup_insert by lia. rewrite Z.add_0_l. case_decide; [done|]. by apply Hj.
Qed.

Lemma at_index_ok m a l rest shape dirs idx : owns m a l rest -> dense (a_base a) (Z.of_nat (length l)) shape dirs -> inside idx shape ->
  exists x, l.[position shape dirs idx] = Some x /\ at_index DIM m (a_base a) (m_data a) idx = Done x.
Proof.
  intros Ho Hd Hi. destruct (offset_ok _ _ _ _ _ Hd Hi) as [Hoff Hk]. unfold at_index. rewrite Hoff. by apply (owns_read m a l rest).
Qed.

(** A new array of the given extents has default elements in row-major order. *)
Lemma Array_args_ok storage m shape id v : fresh_above m -> default_value = Some v ->
  Z.of_nat (length (m_strides storage)) = DIM -> Z.of_nat (length (m_slowestDirs storage)) = DIM ->
  Z.of_nat (length shape) = DIM -> Forall (Z.lt 0) shape ->
  initial_capacity (prod shape) 0 <= index_max -> malloc_ok (initial_capacity (prod shape) 0) = true ->
  exists m' a, Array_args DIM storage m shape id true = Done (m', a) /\
    owns m' a (replicate (Z.to_nat (prod shape)) v) (blocks m) /\ dense (a_base a) (prod shape) shape (row_dirs DIM).
Proof.
  intros Hf Hv Hs Hd Hsh Hp Hmax Hmal. pose proof (prod_pos shape Hp) as Hpp. destruct (initial_capacity_bounds (prod shape) 0) as [_ Hic]; [lia|].
  unfold Array_args. destruct (base_shape_ok storage shape) as (b & -> & Hde); [done..|lia|]. cbn [mbind outcome_bind].
  rewrite packProduct_ok by (done || lia). cbn [mbind outcome_bind].
  destruct (initialize_ok m (fresh_array b id) (blocks m) (prod shape) 0 true) as (m0 & b0 & cs & a & -> & Hg & (Hk & _) & _ & Hcs);
    [by apply fresh_owns|lia|done..|].
  eexists _, a. split; [done|]. split; [|by rewrite Hk].
  rewrite <- (splice_empty (replicate _ v)). eapply (gap_close m0 b0 cs); [done|..]; rewrite length_replicate, Z2Nat.id by lia; [done|].
  split; [done|]. intros j. case_decide; [|done]. rewrite (Hcs v) by (done || lia). f_equal. symmetry. rewrite zlookup_to_nat by lia.
  apply lookup_replicate. split; [done|lia].
Qed.

Lemma pick_row (s : list Z) : Z.of_nat (length s) = DIM -> pick s (row_dirs DIM) = s.
Proof.
  intros Hl. unfold row_dirs, pick. apply el_ext; rewrite ?length_fmap, ?length_seqZ; [lia|].
  intros i Hi. unfold el at 1. by rewrite zlookup_fmap, zlookup_seqZ by lia.
Qed.

(** In row-major order the leading index has the largest weight. *)
Lemma position_row n tail i idx : Z.of_nat (length (n :: tail)) = DIM -> length idx = length tail ->
  position (n :: tail) (row_dirs DIM) (i :: idx) = i * prod tail + encode tail idx.
Proof. intros Hn Hl. unfold position. by rewrite !pick_row by (cbn in *; lia). Qed.

Lemma updateShapeOnInsert_ok n0 r0 tail b n : dense b n (n0 :: tail) (row_dirs DIM) -> 0 < r0 -> prod ((n0 + r0) :: tail) <= index_max ->
  exists b', updateShapeOnInsert DIM b (r0 :: tail) = Done b' /\ dense b' (prod ((n0 + r0) :: tail)) ((n0 + r0) :: tail) (row_dirs DIM).
Proof.
  intros (mp & -> & Hlo & Hp & Hsh & Hpos & Hmax & ->) Hr0 Hmax'. inversion Hpos as [|? ? Hn0 Hpt]; subst.
  assert (0 < prod tail) as Htp by (by apply prod_pos). cbn [prod foldr] in Hmax'. fold (prod tail) in Hmax'. cbn [updateShapeOnInsert].
  change (get (n0 :: tail) 0) with (Done n0). change (get (r0 :: tail) 0) with (Done r0). cbn [mbind outcome_bind].
  rewrite ix_add_small by nia. cbn [mbind outcome_bind]. change (put (n0 :: tail) 0 (n0 + r0)) with (Done ((n0 + r0) :: tail)).
  cbn [mbind outcome_bind]. unfold updateStrides. rewrite (lo_dirs _ _ _ _ _ Hlo).
  pose proof (directions_length _ _ Hp). pose proof (lo_length _ _ _ _ _ Hlo). pose proof (lo_dirs _ _ _ _ _ Hlo) as Hdirs.
  destruct (initializeShape_dirs_ok DIM HD1 mp ((n0 + r0) :: tail) (row_dirs DIM) 1) as (mp' & -> & Hlo');
    [done|rewrite Hdirs; lia|done|done|constructor; [lia|done]|lia|cbn [prod foldr]; fold (prod tail); lia|].
  cbn [mbind outcome_bind]. rewrite (fastest_ok mp' ((n0 + r0) :: tail) (row_dirs DIM) 1) by done. cbn [mbind outcome_bind].
  eexists. split; [done|]. exists mp'. split_and!; try done. constructor; [lia|done].
Qed.

(** Reading an element of a dense view of other memory. *)
Lemma view_index_ok m a l rest (v : ArrayView) shape dirs xs idx : owns m a l rest -> l <> [] ->
  dense (v_base v) (v_num_elements v) shape dirs -> src_list rest (Inside (v_data v)) (v_num_elements v) = Some xs -> inside idx shape ->
  exists y, xs.[position shape dirs idx] = Some y /\ at_index DIM m (v_base v) (v_data v) idx = Done y.
Proof.
  intros Ho Hl Hdv Hs Hi. destruct (offset_ok _ _ _ _ _ Hdv Hi) as [Hoff Hk]. pose proof Ho as (_ & Hsz & Hcap & Hm).
  destruct (m_data a) as [|b o] eqn:Hd; [destruct l; [done|cbn in Hsz; destruct Hm; lia]|].
  destruct (owns_block _ _ _ _ _ _ Ho Hd) as (m0 & cs & -> & -> & Hrest & Hrb & _).
  destruct (src_list_read m0 b (Inside (v_data v)) (v_num_elements v) xs) as [_ Hread]; [congruence..|lia|].
  destruct (Hread cs _ Hk) as (y & Hy & Hrd). exists y. split; [done|]. unfold at_index. by rewrite Hoff.
Qed.

(** The elements of two row-major arrays, one after the other. *)
Lemma joined_index (T' : Type) (l1 l2 : list T') n0 r0 tail i idx : inside (i :: idx) ((n0 + r0) :: tail) ->
  Z.of_nat (length ((n0 + r0) :: tail)) = DIM -> Z.of_nat (length l1) = n0 * prod tail ->
  (l1 ++ l2).[position ((n0 + r0) :: tail) (row_dirs DIM) (i :: idx)] =
    if decide (i < n0) then l1.[position (n0 :: tail) (row_dirs DIM) (i :: idx)]
    else l2.[position (r0 :: tail) (row_dirs DIM) ((i - n0) :: idx)].
Proof.
  intros Hi. inversion Hi as [|? ? ? ? Hi0 Hidx]; subst. intros Hd Hl. pose proof (Forall2_length _ _ _ Hidx) as Hil.
  pose proof (encode_bound _ _ Hidx) as Hb. rewrite !position_row by done. rewrite zlookup_app.
  destruct (decide (i < n0)); [by rewrite decide_True by nia|]. rewrite decide_False by nia. f_equal. nia.
Qed.

End dimensions.

(** ** Theorems *)

(** C3: A one-dimensional array behaves as a list.  Every program of insertions, removals,
    assignments, resizing and changes of capacity that is within its preconditions (those
    the code asserts, references to live objects outside of the array, sizes in the range
    of [axom::IndexType], memory that can be had) runs to its end without undefined behaviour, for any element type and whatever moving an
    element leaves behind; the array then has the size and the elements that the same
    program gives for a list, its block is the only memory besides the rest, which is
    unchanged, and its capacity is at least its size. *)
Theorem array_refines_list {IB : IndexBits} {T : Type} {ET : Element T} {ML : Malloc} storage (m : Mem T) a l rest ops :
  owns m a l rest -> a_base a = Base1 1 -> legal_run storage rest m a l ops ->
  exists m' a' l', run storage m a ops = Done (m', a') /\ run_list rest l ops = Some l' /\ owns m' a' l' rest /\
    size a' = Z.of_nat (length l') /\ size a' <= capacity a' /\
    (forall i x, l'.[i] = Some x -> at_index 1 m' (a_base a') (m_data a') [i] = Done x).
Proof.
  intros Ho Hb Hl. destruct (run_ok storage ops m a l rest Ho Hb Hl) as (m' & a' & l' & Hr & Hrl & Ho' & Hb').
  exists m', a', l'. pose proof Ho' as (_ & Hsz & Hc & _). split_and!; [done..|apply Hc|]. intros i x. by apply (at_index_1 m' a' l' rest).
Qed.

(** C29: Copies are independent and no memory is lost.  The copy of an array has the same
    elements in memory of its own, next to the unchanged original; copying over an array
    gives it the other's elements in place of its own; and destroying an array frees
    exactly its block. *)
Theorem array_lifetime {IB : IndexBits} {T : Type} {ET : Element T} {ML : Malloc} (m : Mem T) a l rest :
  owns m a l rest ->
  (exists m', Array_destroy m a = Done m' /\ blocks m' = rest) /\
  (initial_capacity (size a) (capacity a) <= index_max -> malloc_ok (initial_capacity (size a) (capacity a)) = true ->
   exists m' c, Array_copy m a = Done (m', c) /\ owns m' c l (blocks m) /\
     exists m'', Array_destroy m' c = Done m'' /\ blocks m'' = blocks m) /\
  (forall other lo mo resto, owns mo other lo resto -> blocks mo ⊆ rest ->
     (capacity other = 0 \/ malloc_ok (capacity other) = true) ->
     exists m' a', assign_copy m a other = Done (m', a') /\ owns m' a' lo rest /\ m_capacity a' = capacity other /\ a_base a' = a_base other).
Proof.
  intros Ho. split_and!.
  - destruct (Array_destroy_ok m a l rest Ho) as (m' & ? & ? & _). eauto.
  - intros Hc Hm. destruct (Array_copy_ok m a l rest Ho Hc Hm) as (m' & c & Hcp & Hoc & _). exists m', c. split; [done|]. split; [done|].
    destruct (Array_destroy_ok m' c l (blocks m) Hoc) as (m'' & ? & ? & _). eauto.
  - intros other lo mo resto Hoo Hsub Hm. pose proof Hoo as (_ & Hsz & Hcap & _). pose proof (owns_source mo other lo resto Hoo) as Hs.
    destruct (assign_copy_ok m a l other lo rest Ho) as (m' & a' & ? & ? & (? & _) & ?); unfold size, capacity in *; [|lia|lia|done|by eexists _, _].
    unfold src_list in *. apply mapM_Some in Hs. apply mapM_Some. eapply Forall2_impl; [exact Hs|]. intros i x. cbn.
    destruct (m_data other) as [|b o]; [done|]. cbn. destruct (blocks mo !! b) as [cs|] eqn:Hb; [|done].
    by rewrite (lookup_weaken _ _ _ _ Hb Hsub).
Qed.

(** A multidimensional array is a function of its indices.  An array made from its
    extents holds the default value at every index inside them; assigning at an index
    changes the value there and at no other index.  This holds for any order of the
    directions, and no access leaves the array's block. *)
Theorem array_multi_index {IB : IndexBits} {T : Type} {ET : Element T} {ML : Malloc} DIM :
  2 <= DIM <= 2 ^ 16 ->
  (forall storage (m : Mem T) shape id v, fresh_above m -> default_value = Some v ->
     Z.of_nat (length (m_strides storage)) = DIM -> Z.of_nat (length (m_slowestDirs storage)) = DIM ->
     Z.of_nat (length shape) = DIM -> Forall (Z.lt 0) shape ->
     initial_capacity (MDMappingProofs.prod shape) 0 <= index_max -> malloc_ok (initial_capacity (MDMappingProofs.prod shape) 0) = true ->
     exists m' a l, Array_args DIM storage m shape id true = Done (m', a) /\ owns m' a l (blocks m) /\
       dense DIM (a_base a) (size a) shape (MDMappingTheorems.row_dirs DIM) /\
       forall idx, inside idx shape -> at_index DIM m' (a_base a) (m_data a) idx = Done v) /\
  (forall (m : Mem T) a l rest shape dirs idx v, owns m a l rest -> dense DIM (a_base a) (size a) shape dirs -> inside idx shape ->
     exists m' l', set_index DIM m (a_base a) (m_data a) idx v = Done m' /\ owns m' a l' rest /\
       at_index DIM m' (a_base a) (m_data a) idx = Done v /\
       forall idx', inside idx' shape -> idx' <> idx ->
         at_index DIM m' (a_base a) (m_data a) idx' = at_index DIM m (a_base a) (m_data a) idx').
Proof.
  intros HD. split.
  - intros storage m shape id v Hf Hv Hs Hd Hsh Hp Hmax Hmal.
    destruct (Array_args_ok DIM HD storage m shape id v) as (m' & a & Hr & Ho & Hde); [done..|]. exists m', a, (replicate (Z.to_nat (MDMappingProofs.prod shape)) v).
    pose proof (MDMappingProofs.prod_pos shape Hp). assert (size a = MDMappingProofs.prod shape) as Hsz.
    { unfold size. rewrite (proj1 (proj2 Ho)), length_replicate. lia. }
    rewrite Hsz. split_and!; [done..|]. intros idx Hi.
    destruct (at_index_ok DIM HD m' a _ _ shape (MDMappingTheorems.row_dirs DIM) idx Ho) as (x & Hx & Hat); [rewrite length_replicate, Z2Nat.id by lia; done|done|].
    rewrite Hat. pose proof (zlookup_Some_bounds _ _ _ Hx). rewrite zlookup_to_nat in Hx by lia. by apply lookup_replicate in Hx as [-> _].
  - intros m a l rest shape dirs idx v Ho Hde Hi. unfold size in Hde. rewrite (proj1 (proj2 Ho)) in Hde.
    destruct (offset_ok DIM HD _ _ _ _ _ Hde Hi) as [Hoff Hk]. set (k := position shape dirs idx) in *.
    destruct (owns_read m a l rest k Ho Hk) as (x & _ & Hrd). destruct (owns_write m a l rest k v Ho Hk) as (m' & Hw & Ho').
    exists m', (<[Z.to_nat k := v]> l). unfold set_index. rewrite Hoff. cbn [mbind outcome_bind]. rewrite Hrd. cbn [mbind outcome_bind].
    assert (dense DIM (a_base a) (Z.of_nat (length (<[Z.to_nat k := v]> l))) shape dirs) as Hde' by (by rewrite length_insert).
    split_and!; [done..| |].
    + destruct (at_index_ok DIM HD m' a _ rest shape dirs idx Ho' Hde' Hi) as (y & Hy & ->). fold k in Hy.
      rewrite zlookup_insert, decide_True in Hy by (lia || done). congruence.
    + intros idx' Hi' Hne. destruct (at_index_ok DIM HD m' a _ rest shape dirs idx' Ho' Hde' Hi') as (y & Hy & ->).
      destruct (at_index_ok DIM HD m a l rest shape dirs idx' Ho Hde Hi') as (y' & Hy' & ->). rewrite zlookup_insert, decide_False in Hy; [congruence|..].
      * intros Heq. apply Hne. symmetry. by apply (position_inj DIM HD _ _ _ _ _ _ Hde).
      * lia.
Qed.

(** Appending to a row-major array adds to its leading dimension.  When the other
    extents agree and the appended view is dense and refers to other memory, the array
    has the sum of the leading extents, keeps its elements, and has those of the view
    after them. *)
Theorem array_append {IB : IndexBits} {T : Type} {ET : Element T} {ML : Malloc} DIM (m : Mem T) a l rest n0 r0 tail (v : ArrayView) xs :
  2 <= DIM <= 2 ^ 16 -> owns m a l rest ->
  dense DIM (a_base a) (size a) (n0 :: tail) (MDMappingTheorems.row_dirs DIM) ->
  dense DIM (v_base v) (v_num_elements v) (r0 :: tail) (MDMappingTheorems.row_dirs DIM) ->
  src_list rest (Inside (v_data v)) (v_num_elements v) = Some xs ->
  MDMappingProofs.prod ((n0 + r0) :: tail) <= index_max ->
  (forall b, updateShapeOnInsert DIM (a_base a) (r0 :: tail) = Done b -> room (with_base a b) (size a + v_num_elements v)) ->
  exists m' a', append DIM m a v = Done (m', a') /\ owns m' a' (l ++ xs) rest /\
    dense DIM (a_base a') (size a') ((n0 + r0) :: tail) (MDMappingTheorems.row_dirs DIM) /\
    forall i idx, inside (i :: idx) ((n0 + r0) :: tail) ->
      at_index DIM m' (a_base a') (m_data a') (i :: idx) =
        if decide (i < n0) then at_index DIM m (a_base a) (m_data a) (i :: idx)
        else at_index DIM m (v_base v) (v_data v) ((i - n0) :: idx).
Proof.
  intros HD Ho Hda Hdv Hs Hmax Hroom. pose proof Ho as (_ & Hsz & Hcap & Hm). pose proof Hdv as (mpv & Hvb & Hvlo & Hvp & Hvsh & Hvpos & Hvmax & Hvn).
  destruct (proj1 (Forall_cons _ _ _) Hvpos) as [Hr0 Hpt]. pose proof (MDMappingProofs.prod_pos tail Hpt) as Htp.
  cbn [MDMappingProofs.prod foldr] in Hvn, Hmax. fold (MDMappingProofs.prod tail) in Hvn, Hmax.
  assert (src_list rest (Inside (v_data v)) (v_num_elements v) = Some xs /\ Z.of_nat (length xs) = v_num_elements v) as [_ Hlx].
  { split; [done|]. apply mapM_Some, Forall2_length in Hs. rewrite length_seqZ in Hs. nia. }
  assert (size a = n0 * MDMappingProofs.prod tail) as Hsa by (destruct Hda as (? & _ & _ & _ & _ & _ & _ & ->); done).
  unfold append, view_convert. rewrite Hvb. cbn [ArrayBase_convert]. rewrite (fastest_ok DIM HD mpv (r0 :: tail) (MDMappingTheorems.row_dirs DIM) 1) by done.
  cbn [mbind outcome_bind]. unfold insert_view. cbn [v_base v_data v_num_elements base_shape].
  destruct (updateShapeOnInsert_ok DIM HD n0 r0 tail (a_base a) (size a) Hda Hr0 Hmax) as (b & Hb & Hdb). rewrite Hb. cbn [mbind outcome_bind].
  unfold size in *. destruct (insert_range_ok m (with_base a b) l rest (m_num_elements a) (v_num_elements v) (Inside (v_data v)) xs) as (m' & a' & Hr & Ho' & Hk).
  { exact Ho. } { lia. } { nia. } { intros _. rewrite <- Hsz. by apply Hroom. } { done. }
  rewrite Hsz in Ho'. unfold splice, takeZ, dropZ in Ho'. rewrite Nat2Z.id, take_ge, drop_ge, app_nil_r in Ho' by lia.
  exists m', a'. rewrite Hr. split; [done|]. split; [done|]. pose proof Ho' as (_ & Hsz' & _). rewrite length_app in Hsz'.
  assert (b = a_base a') as -> by (by rewrite (proj1 Hk)).
  assert (dense DIM (a_base a') (m_num_elements a') ((n0 + r0) :: tail) (MDMappingTheorems.row_dirs DIM)) as Hdb'.
  { destruct Hdb as (mp & ? & ? & ? & ? & ? & ? & ?). exists mp. split_and!; try done. cbn. fold (MDMappingProofs.prod tail). lia. }
  split; [done|]. intros i idx Hi. rewrite Hsz', <- length_app in Hdb'. rewrite Hsz in Hda. destruct (proj1 (Forall2_cons _ _ _ _ _) Hi) as [Hi0 Hidx].
  destruct (at_index_ok DIM HD m' a' _ rest _ _ _ Ho' Hdb' Hi) as (y & Hy & ->).
  rewrite (joined_index DIM HD) in Hy by (done || lia). case_decide as Hlt.
  - destruct (at_index_ok DIM HD m a l rest _ _ (i :: idx) Ho Hda) as (y' & Hy' & ->); [constructor; [lia|done]|congruence].
  - rewrite Hvb in Hdv. destruct (view_index_ok DIM HD m a l rest v (r0 :: tail) (MDMappingTheorems.row_dirs DIM) xs ((i - n0) :: idx) Ho) as (y' & Hy' & Hat).
    + destruct l; [|done]. destruct Hda as (? & _ & _ & _ & _ & Hpa & _). inversion Hpa. cbn in Hsz. nia.
    + by rewrite Hvb.
    + done.
    + constructor; [lia|done].
    + rewrite Hvb in Hat. rewrite Hat. congruence.
Qed.

(** ** Witnesses *)

(** Concrete data for the witnesses: elements that are integers with a destructor, whose
    moves leave [-1] behind, and an allocator of up to 1000 elements. *)
Module Sample.
#[export] Instance sample_element : Element Z := {| default_value := Some 0; moved_from := fun _ => -1; trivially_destructible := false |}.
#[export] Instance sample_malloc : Malloc := {| malloc_ok := fun n => n <=? 1000 |}.
#[export] Existing Instance IndexType32.

Definition no_memory : Mem Z := mkMem ∅ 1.
Definition storage1 : MDMapping := mkMDMapping [7] [9].
Definition storage2 : MDMapping := mkMDMapping [7; 7] [9; 9].

Definition memory : Mem Z := mkMem {[1%positive := [Some 1; Some 2; Some 3]]} 2.
Definition array : Array := mkArray (Base1 1) (Ptr 1 0) 3 3 d_two 0.

Lemma no_memory_fresh : fresh_above no_memory.
Proof. intros b. cbn. rewrite lookup_empty. by intros [? ?]. Defined.

Lemma array_owns : owns memory array [1; 2; 3] ∅.
Proof.
  split; [|split; [done|split; [by vm_compute|split; [done|split; [done|]]]]].
  - intros b [x Hx]. cbn in Hx. apply lookup_singleton_Some in Hx as [<- _]. done.
  - exists [Some 1; Some 2; Some 3]. split_and!; [done|done|]. intros j Hj. cbn in Hj.
    assert (j = 0 \/ j = 1 \/ j = 2) as [->|[->| ->]] by lia; done.
Defined.

(** A row of two elements and a view of two rows after it. *)
Definition memory2 : Mem Z := mkMem (<[1%positive := [Some 5; Some 6]]> {[2%positive := [Some 7; Some 8; Some 9; Some 10]]}) 3.
Definition rest2 : gmap positive (list (option Z)) := {[2%positive := [Some 7; Some 8; Some 9; Some 10]]}.
Definition rows : Array := mkArray (BaseN [1; 2] (mkMDMapping [2; 1] [0; 1]) 1) (Ptr 1 0) 2 2 d_two 0.
Definition more_rows : ArrayView := mkArrayView (BaseN [2; 2] (mkMDMapping [2; 1] [0; 1]) 1) (Ptr 2 0) 4 0.

Lemma rows_own : owns memory2 rows [5; 6] rest2.
Proof.
  split; [|split; [done|split; [by vm_compute|split; [done|split; [done|]]]]].
  - intros b [x Hx]. cbn in Hx. apply lookup_insert_Some in Hx as [[<- _]|[_ Hx]]; [done|]. apply lookup_singleton_Some in Hx as [<- _]. done.
  - exists [Some 5; Some 6]. split_and!; [done|done|]. intros j Hj. cbn in Hj. assert (j = 0 \/ j = 1) as [->| ->] by lia; done.
Defined.

Lemma dense2 n0 n : 0 < n0 <= 10 -> n = 2 * n0 -> dense 2 (BaseN [n0; 2] (mkMDMapping [2; 1] [0; 1]) 1) n [n0; 2] (MDMappingTheorems.row_dirs 2).
Proof.
  intros Hn ->. eexists. split; [done|]. split_and!; [by split|apply MDMappingTheorems.row_directions|done|repeat constructor; lia| |].
  - cbn. assert (20 <= index_max) by done. lia.
  - cbn. lia.
Defined.
End Sample.
Import Sample.

Lemma array_refines_list_witness : exists m' a',
  run Sample.storage1 Sample.memory Sample.array [PushBack (Temp 4); Insert 0 (Temp 9); EraseRange 1 3; Resize 5] = Done (m', a') /\
  owns m' a' [9; 3; 4; 0; 0] ∅.
Proof.
  destruct (array_refines_list Sample.storage1 Sample.memory Sample.array [1; 2; 3] ∅
    [PushBack (Temp 4); Insert 0 (Temp 9); EraseRange 1 3; Resize 5]) as (m' & a' & l' & Hr & Hl & Ho & _).
  - exact Sample.array_owns.
  - reflexivity.
  - split; [split; [by eexists|split; [by vm_compute|right; exists 1, 6; split_and!; by vm_compute]]|].
    intros m1 a1 l1 Hm1 Hl1. vm_compute in Hm1, Hl1. injection Hm1 as <- <-. injection Hl1 as <-.
    split; [split; [by eexists|split; [by vm_compute|split; [by vm_compute|left; by vm_compute]]]|].
    intros m1 a1 l1 Hm1 Hl1. vm_compute in Hm1, Hl1. injection Hm1 as <- <-. injection Hl1 as <-.
    split; [split; [by eexists|split; by vm_compute]|].
    intros m1 a1 l1 Hm1 Hl1. vm_compute in Hm1, Hl1. injection Hm1 as <- <-. injection Hl1 as <-.
    split; [split; [by eexists|split; [by vm_compute|split; [by vm_compute|left; by vm_compute]]]|]. by intros.
  - exists m', a'. split; [exact Hr|]. vm_compute in Hl. injection Hl as <-. exact Ho.
Defined.

Lemma array_lifetime_witness : exists m' c, Array_copy Sample.memory Sample.array = Done (m', c) /\ owns m' c [1; 2; 3] (blocks Sample.memory).
Proof.
  destruct (array_lifetime Sample.memory Sample.array [1; 2; 3] ∅ Sample.array_owns) as (_ & Hcopy & _).
  destruct Hcopy as (m' & c & Hc & Ho & _); [by vm_compute|reflexivity|]. exists m', c. split; [exact Hc|exact Ho].
Defined.

Lemma array_multi_index_witness : exists m' a l, Array_args 2 Sample.storage2 Sample.no_memory [2; 3] 0 true = Done (m', a) /\
  owns m' a l ∅ /\ exists m'', set_index 2 m' (a_base a) (m_data a) [1; 2] 7 = Done m'' /\
    at_index 2 m'' (a_base a) (m_data a) [1; 2] = Done 7 /\ at_index 2 m'' (a_base a) (m_data a) [0; 2] = Done 0.
Proof.
  destruct (array_multi_index (T := Z) 2 ltac:(lia)) as [Hnew Hset].
  destruct (Hnew Sample.storage2 Sample.no_memory [2; 3] 0 0) as (m' & a & l & Hr & Ho & Hd & Hat);
    [exact Sample.no_memory_fresh|reflexivity|reflexivity|reflexivity|reflexivity|repeat constructor|by vm_compute|reflexivity|].
  assert (inside [0; 2] [2; 3]) as Hi0 by (repeat constructor; lia).
  destruct (Hset m' a l ∅ [2; 3] _ [1; 2] 7 Ho Hd) as (m'' & l' & Hs & _ & H7 & Hother); [repeat constructor; lia|].
  exists m', a, l. split; [exact Hr|]. split; [exact Ho|]. exists m''. split; [exact Hs|]. split; [exact H7|].
  rewrite Hother; [by apply Hat|exact Hi0|discriminate].
Defined.

Lemma array_append_witness : exists m' a', append 2 Sample.memory2 Sample.rows Sample.more_rows = Done (m', a') /\
  owns m' a' [5; 6; 7; 8; 9; 10] Sample.rest2 /\ at_index 2 m' (a_base a') (m_data a') [2; 1] = Done 10.
Proof.
  destruct (array_append 2 Sample.memory2 Sample.rows [5; 6] Sample.rest2 1 2 [2] Sample.more_rows [7; 8; 9; 10])
    as (m' & a' & Hr & Ho & _ & Hat); [lia|exact Sample.rows_own|by apply Sample.dense2|by apply Sample.dense2|reflexivity|by vm_compute| |].
  - intros b Hb. vm_compute in Hb. injection Hb as <-. split; [by vm_compute|right]. exists 2, 6. split_and!; by vm_compute.
  - exists m', a'. split; [exact Hr|]. split; [exact Ho|]. rewrite Hat by (repeat constructor; lia). by vm_compute.
Defined.

(** ** What the interface does not say *)

(** [push_back] of an element of the array itself reads freed memory when it reallocates. *)
Example push_back_own_element : push_back Sample.memory Sample.array (Elem (m_data Sample.array) 0) = Undefined.
Proof. reflexivity. Qed.

(** Without a reallocation an insertion of an own element inserts the one before it. *)
Example insert_own_element :
  ('(m, a) ← reserve Sample.memory Sample.array 10;
   '(m, a) ← insert m a 0 (Elem (m_data a) 2);
   at_index 1 m (a_base a) (m_data a) [0]) = Done 2.
Proof. reflexivity. Qed.

(** [fill] with an own element reads it after it was destroyed. *)
Example fill_own_element : fill Sample.memory Sample.array (Elem (m_data Sample.array) 0) = Undefined.
Proof. reflexivity. Qed.

(** An array made from a [StackArray] of extents does not construct its elements, but
    destroys them. *)
Example shape_constructor_unconstructed :
  ('(m, a) ← Array_shape 2 Sample.storage2 Sample.no_memory [2; 2] 0; Array_destroy m a) = Undefined.
Proof. reflexivity. Qed.

(** [subspan] of a view aborts when two strides are equal: here one column. *)
Example subspan_one_column :
  ('(m, a) ← Array_args 2 Sample.storage2 Sample.no_memory [5; 1] 0 true; v ← view 2 a; subspan 2 v [1; 0] [2; 1]) = Aborted.
Proof. reflexivity. Qed.

(** An array made from a view of a part of an array has the strides of the whole: the last
    element of the part is outside of its memory. *)
Example array_of_subspan :
  ('(m, a) ← Array_args 2 Sample.storage2 Sample.no_memory [4; 4] 0 true; v ← view 2 a; s ← subspan 2 v [1; 1] [2; 2];
   '(m, c) ← Array_convert 2 m (v_base s) (v_data s) (v_num_elements s) 0; at_index 2 m (a_base c) (m_data c) [1; 1]) = Undefined.
Proof. reflexivity. Qed.

(** Converting a view of every second element to a view of constants loses the stride:
    index 1 is the second element, not the third; and a subspan from index 1 also starts
    at the second. *)
Example strided_view_conversion :
  ('(m, a) ← Array_list Sample.no_memory [0; 1; 2; 3; 4; 5] 0; v ← view_shape 1 Sample.storage1 (m_data a) [3] 2 0;
   c ← view_convert 1 (v_base v) (v_data v) (v_num_elements v) 0;
   x ← at_index 1 m (v_base v) (v_data v) [1]; y ← at_index 1 m (v_base c) (v_data c) [1];
   z ← at_index 1 m (v_base v) (v_data (subspan1 v 1 2)) [0]; Done (x, y, z)) = Done (2, 1, 1).
Proof. reflexivity. Qed.

(** Resizing a column-major array makes it row-major. *)
Example resize_column_major :
  ('(m, a) ← Array_order 2 Sample.storage2 Sample.no_memory [2; 3] COLUMN 0; '(m, a') ← resize 2 Sample.storage2 m a [2; 3];
   Done (base_strides (a_base a), base_strides (a_base a'))) = Done ([1; 2], [3; 1]).
Proof. reflexivity. Qed.

End ArrayTheorems.
