(* ===== verification/SlamPolicies.v ===== *)
(** * Policies of slam ([slam/policies])

    Sets, relations and maps of slam are class templates over policies for their size,
    offset, stride, indirection and parent.  A kind of policy is a type class here, and
    a policy a type with an instance; constructing a policy from a value ignores the
    value where the policy is fixed at compile time, because the check is an assertion.

    Positions are [axom::IndexType].  Indirection buffers are outside the sets: a buffer
    of elements is a key of the heap, and a set reads the current elements. *)

From S2P Require Import Prelude Outcome.

Module SlamPolicies.
Import Outcome.

(** ** Size ([SizePolicies.hpp]) *)

Class SizePolicy (P : Type) := {
  size_default : Z;
  size_make : Z -> P;
  size_of : P -> Z;
  size_empty : P -> bool;
  size_isValid : P -> bool }.

Record RuntimeSize := mkRuntimeSize { m_sz : Z }.

#[export] Instance RuntimeSize_policy : SizePolicy RuntimeSize := {
  size_default := 0;
  size_make := mkRuntimeSize;
  size_of := m_sz;
  size_empty p := m_sz p =? 0;
  size_isValid p := 0 <=? m_sz p }.

(** [DynamicRuntimeSize] adds functions that change the size. *)
Record DynamicRuntimeSize := mkDynamicRuntimeSize { dyn_sz : RuntimeSize }.

#[export] Instance DynamicRuntimeSize_policy : SizePolicy DynamicRuntimeSize := {
  size_default := 0;
  size_make sz := mkDynamicRuntimeSize (mkRuntimeSize sz);
  size_of p := m_sz (dyn_sz p);
  size_empty p := m_sz (dyn_sz p) =? 0;
  size_isValid p := 0 <=? m_sz (dyn_sz p) }.

Record CompileTimeSize (INT_VAL : Z) := mkCompileTimeSize { }.
Arguments mkCompileTimeSize {INT_VAL}.

#[export] Instance CompileTimeSize_policy v : SizePolicy (CompileTimeSize v) := {
  size_default := v;
  size_make _ := mkCompileTimeSize;
  size_of _ := v;
  size_empty _ := v =? 0;
  size_isValid _ := 0 <=? v }.

Record ZeroSize := mkZeroSize { }.

#[export] Instance ZeroSize_policy : SizePolicy ZeroSize := {
  size_default := 0;
  size_make _ := mkZeroSize;
  size_of _ := 0;
  size_empty _ := true;
  size_isValid _ := true }.

(** ** Offset ([OffsetPolicies.hpp]) *)

Class OffsetPolicy (P : Type) := {
  offset_default : Z;
  offset_make : Z -> P;
  offset_of : P -> Z;
  offset_isValid : P -> bool }.

Record RuntimeOffset := mkRuntimeOffset { m_off : Z }.

#[export] Instance RuntimeOffset_policy : OffsetPolicy RuntimeOffset := {
  offset_default := 0;
  offset_make := mkRuntimeOffset;
  offset_of := m_off;
  offset_isValid _ := true }.

Record CompileTimeOffset (INT_VAL : Z) := mkCompileTimeOffset { }.
Arguments mkCompileTimeOffset {INT_VAL}.

#[export] Instance CompileTimeOffset_policy v : OffsetPolicy (CompileTimeOffset v) := {
  offset_default := v;
  offset_make _ := mkCompileTimeOffset;
  offset_of _ := v;
  offset_isValid _ := true }.

Notation ZeroOffset := (CompileTimeOffset 0).

(** ** Stride ([StridePolicies.hpp]) *)

Class StridePolicy (P : Type) := {
  stride_default : Z;
  stride_make : Z -> P;
  stride_of : P -> Z;
  stride_isValid : P -> bool }.

Record RuntimeStride := mkRuntimeStride { m_stride : Z }.

#[export] Instance RuntimeStride_policy : StridePolicy RuntimeStride := {
  stride_default := 1;
  stride_make := mkRuntimeStride;
  stride_of := m_stride;
  stride_isValid p := negb (m_stride p =? 0) }.

Record CompileTimeStride (INT_VAL : Z) := mkCompileTimeStride { }.
Arguments mkCompileTimeStride {INT_VAL}.

#[export] Instance CompileTimeStride_policy v : StridePolicy (CompileTimeStride v) := {
  stride_default := v;
  stride_make _ := mkCompileTimeStride;
  stride_of _ := v;
  stride_isValid _ := negb (v =? 0) }.

Notation StrideOne := (CompileTimeStride 1).

(** ** Indirection ([IndirectionPolicies.hpp]) *)

(** The buffers of elements; a null pointer is [None]. *)
Notation Heap := (gmap Z (list Z)).

Definition buffer (h : Heap) (p : option Z) : outcome (list Z) := b ← ub p; ub (h !! b).

(** [buf[pos]]. *)
Definition read (h : Heap) (p : option Z) (pos : Z) : outcome Z := l ← buffer h p; ub l.[pos].

(** Writing through the reference that the indirection of a mutable set returns. *)
Definition write (h : Heap) (p : option Z) (pos x : Z) : outcome Heap :=
  b ← ub p; l ← ub (h !! b); l ← ub (zupdate l pos x); Done (<[b := l]> h).

Section Indirection.
Context {IB : IndexBits}.

Class IndirectionPolicy (P : Type) := {
  IndirectionPtr : Type;
  ind_null : IndirectionPtr;
  ind_make : IndirectionPtr -> P;
  ind_ptr : P -> IndirectionPtr;
  hasIndirection : P -> bool;
  indirection : Heap -> P -> Z -> outcome Z;
  ind_isValid : Heap -> P -> Z -> Z -> Z -> outcome bool }.

(** [IndexedIndirection::isValid], given whether there is a buffer and its size. *)
Definition IndexedIndirection_isValid (has : bool) (bufsize : outcome Z) (size offset stride : Z) : outcome bool :=
  if size =? 0 then Done true
  else if negb has then Done false
  else
    s1 ← ix_sub size 1; m ← ix_mul s1 stride; lastEltInd ← ix_add m offset; vecSize ← bufsize;
    Done ((0 <=? offset) && (offset <? vecSize) && (0 <=? lastEltInd) && (lastEltInd <? vecSize)).

Definition not_null (p : option Z) : bool := match p with Some _ => true | None => false end.

Definition buffer_size (h : Heap) (p : option Z) : outcome Z := l ← buffer h p; Done (Z.of_nat (length l)).

Record NoIndirection := mkNoIndirection { }.

#[export] Instance NoIndirection_policy : IndirectionPolicy NoIndirection := {
  IndirectionPtr := unit;
  ind_null := ();
  ind_make _ := mkNoIndirection;
  ind_ptr _ := ();
  hasIndirection _ := false;
  indirection _ _ pos := Done pos;
  ind_isValid _ _ _ _ _ := Done true }.

(** The pointer to the first element; the policy knows no size. *)
Record CArrayIndirection := mkCArrayIndirection { m_arrBuf : option Z }.

#[export] Instance CArrayIndirection_policy : IndirectionPolicy CArrayIndirection := {
  IndirectionPtr := option Z;
  ind_null := None;
  ind_make := mkCArrayIndirection;
  ind_ptr := m_arrBuf;
  hasIndirection p := not_null (m_arrBuf p);
  indirection h p pos := read h (m_arrBuf p) pos;
  ind_isValid h p := IndexedIndirection_isValid (not_null (m_arrBuf p)) (Done index_max) }.

(** A pointer to a [std::vector]. *)
Record STLVectorIndirection := mkSTLVectorIndirection { m_vecBuf : option Z }.

#[export] Instance STLVectorIndirection_policy : IndirectionPolicy STLVectorIndirection := {
  IndirectionPtr := option Z;
  ind_null := None;
  ind_make := mkSTLVectorIndirection;
  ind_ptr := m_vecBuf;
  hasIndirection p := not_null (m_vecBuf p);
  indirection h p pos := read h (m_vecBuf p) pos;
  ind_isValid h p := IndexedIndirection_isValid (not_null (m_vecBuf p)) (buffer_size h (m_vecBuf p)) }.

(** A pointer to an [axom::Array]. *)
Record ArrayIndirection := mkArrayIndirection { m_arrayBuf : option Z }.

#[export] Instance ArrayIndirection_policy : IndirectionPolicy ArrayIndirection := {
  IndirectionPtr := option Z;
  ind_null := None;
  ind_make := mkArrayIndirection;
  ind_ptr := m_arrayBuf;
  hasIndirection p := not_null (m_arrayBuf p);
  indirection h p pos := read h (m_arrayBuf p) pos;
  ind_isValid h p := IndexedIndirection_isValid (not_null (m_arrayBuf p)) (buffer_size h (m_arrayBuf p)) }.

(** A view: the pointer to the first element and the number of elements. *)
Record ArrayViewIndirection := mkArrayViewIndirection { m_viewBuf : option Z * Z }.

#[export] Instance ArrayViewIndirection_policy : IndirectionPolicy ArrayViewIndirection := {
  IndirectionPtr := option Z * Z;
  ind_null := (None, 0);
  ind_make := mkArrayViewIndirection;
  ind_ptr := m_viewBuf;
  hasIndirection p := not_null (m_viewBuf p).1;
  indirection h p pos := read h (m_viewBuf p).1 pos;
  ind_isValid h p := IndexedIndirection_isValid (not_null (m_viewBuf p).1) (Done (m_viewBuf p).2) }.

(** Policies with a buffer object: its size, and writing through the reference that the
    indirection of a set that is not constant returns. *)
Class BufferIndirection (P : Type) := {
  buf_size : Heap -> P -> outcome Z;
  buf_write : Heap -> P -> Z -> Z -> outcome Heap }.

#[export] Instance STLVectorIndirection_buffer : BufferIndirection STLVectorIndirection := {
  buf_size h p := buffer_size h (m_vecBuf p);
  buf_write h p := write h (m_vecBuf p) }.

#[export] Instance ArrayIndirection_buffer : BufferIndirection ArrayIndirection := {
  buf_size h p := buffer_size h (m_arrayBuf p);
  buf_write h p := write h (m_arrayBuf p) }.

#[export] Instance ArrayViewIndirection_buffer : BufferIndirection ArrayViewIndirection := {
  buf_size h p := Done (m_viewBuf p).2;
  buf_write h p := write h (m_viewBuf p).1 }.

(** ** The functions of policies that change them *)

Definition DynamicRuntimeSize_setSize (p : DynamicRuntimeSize) (s : Z) : DynamicRuntimeSize :=
  if 0 <=? s then mkDynamicRuntimeSize (mkRuntimeSize s) else p.

Definition DynamicRuntimeSize_add (p : DynamicRuntimeSize) (s : Z) : outcome DynamicRuntimeSize :=
  if 0 <=? s then z ← ix_add (m_sz (dyn_sz p)) s; Done (mkDynamicRuntimeSize (mkRuntimeSize z)) else Done p.

Definition DynamicRuntimeSize_subtract (p : DynamicRuntimeSize) (s : Z) : outcome DynamicRuntimeSize :=
  if 0 <=? s then z ← ix_sub (m_sz (dyn_sz p)) s; Done (mkDynamicRuntimeSize (mkRuntimeSize z)) else Done p.

Definition RuntimeStride_setStride (p : RuntimeStride) (str : Z) : RuntimeStride := mkRuntimeStride str.

End Indirection.

(** What the clients of a size, offset or stride policy rely on: a policy made from a
    value it accepts has this value.  The assertions of the code check that it does. *)
Class SizeLaws (P : Type) `{SizePolicy P} := {
  size_accepts : Z -> Prop;
  size_of_make v : size_accepts v -> size_of (size_make (P := P) v) = v;
  size_empty_spec p : size_empty p = (size_of p =? 0);
  size_isValid_spec p : size_isValid p = (0 <=? size_of p) }.

Class OffsetLaws (P : Type) `{OffsetPolicy P} := {
  offset_accepts : Z -> Prop;
  offset_of_make v : offset_accepts v -> offset_of (offset_make (P := P) v) = v;
  offset_isValid_spec p : offset_isValid p = true }.

Class StrideLaws (P : Type) `{StridePolicy P} := {
  stride_accepts : Z -> Prop;
  stride_of_make v : stride_accepts v -> stride_of (stride_make (P := P) v) = v;
  stride_isValid_spec p : stride_isValid p = negb (stride_of p =? 0) }.

#[export] Program Instance RuntimeSize_laws : SizeLaws RuntimeSize := { size_accepts _ := True }.
Solve Obligations with done.
#[export] Program Instance DynamicRuntimeSize_laws : SizeLaws DynamicRuntimeSize := { size_accepts _ := True }.
Solve Obligations with done.
#[export] Program Instance CompileTimeSize_laws v : SizeLaws (CompileTimeSize v) := { size_accepts x := x = v }.
Solve Obligations with naive_solver.
#[export] Program Instance ZeroSize_laws : SizeLaws ZeroSize := { size_accepts x := x = 0 }.
Solve Obligations with naive_solver.
#[export] Program Instance RuntimeOffset_laws : OffsetLaws RuntimeOffset := { offset_accepts _ := True }.
Solve Obligations with done.
#[export] Program Instance CompileTimeOffset_laws v : OffsetLaws (CompileTimeOffset v) := { offset_accepts x := x = v }.
Solve Obligations with naive_solver.
#[export] Program Instance RuntimeStride_laws : StrideLaws RuntimeStride := { stride_accepts _ := True }.
Solve Obligations with done.
#[export] Program Instance CompileTimeStride_laws v : StrideLaws (CompileTimeStride v) := { stride_accepts x := x = v }.
Solve Obligations with naive_solver.

(** A policy that reads.  [ind_backed] says that the buffer has at least as many
    elements as the policy believes; then every position of a set that the policy
    considers valid can be read.  A [CArrayIndirection] knows no size, and is not an
    instance. *)
Class IndirectionLaws {IB : IndexBits} (P : Type) `{!IndirectionPolicy P} := {
  ind_backed : Heap -> P -> Prop;
  ind_make_ptr p : ind_make (ind_ptr p) = p;
  ind_readable h p size offset stride k :
    ind_backed h p -> ind_isValid h p size offset stride = Done true -> 0 <= k < size ->
    exists x, indirection h p (k * stride + offset) = Done x }.

Section Readable.
Context {IB : IndexBits}.

Lemma IndexedIndirection_range has n size offset stride k :
  IndexedIndirection_isValid has (Done n) size offset stride = Done true -> 0 <= k < size ->
  has = true /\ 0 <= k * stride + offset < n.
Proof.
  intros Hv Hk. unfold IndexedIndirection_isValid in Hv. destruct (Z.eqb_spec size 0); [lia|].
  destruct has; [|done]. cbn [negb] in Hv.
  apply bind_inv in Hv as (s1 & H1 & Hv). apply bind_inv in Hv as (m & H2 & Hv). apply bind_inv in Hv as (la & H3 & Hv).
  apply ix_inv in H1 as ->. apply ix_inv in H2 as ->. apply ix_inv in H3 as ->. cbn in Hv. injection Hv as Hv.
  rewrite !andb_true_iff, !Z.leb_le, !Z.ltb_lt in Hv. split; [done|].
  destruct (Z.le_ge_cases 0 stride).
  - pose proof (Z.mul_le_mono_nonneg_r k (size - 1) stride). nia.
  - pose proof (Z.mul_le_mono_nonpos_r k (size - 1) stride). nia.
Qed.

Lemma read_in h b l pos : h !! b = Some l -> 0 <= pos < Z.of_nat (length l) -> exists x, read h (Some b) pos = Done x.
Proof. intros Hb Hp. unfold read, buffer. cbn. rewrite Hb. cbn. destruct (zlookup_lt l pos Hp) as [x ->]. by exists x. Qed.

(** A buffer that a pointer to a vector or an array refers to. *)
Definition buffer_exists (h : Heap) (p : option Z) : Prop := forall b, p = Some b -> is_Some (h !! b).

Lemma vector_readable h p size offset stride k :
  buffer_exists h p ->
  IndexedIndirection_isValid (not_null p) (buffer_size h p) size offset stride = Done true -> 0 <= k < size ->
  exists x, read h p (k * stride + offset) = Done x.
Proof.
  intros Hb Hv Hk. destruct p as [b|].
  - destruct (Hb b eq_refl) as [l Hl]. unfold buffer_size, buffer in Hv. cbn in Hv. rewrite Hl in Hv. cbn in Hv.
    apply IndexedIndirection_range with (k := k) in Hv as [_ Hr]; [|done]. by eapply read_in.
  - unfold IndexedIndirection_isValid in Hv. destruct (Z.eqb_spec size 0); [lia|done].
Qed.

#[export] Program Instance NoIndirection_laws : IndirectionLaws NoIndirection := { ind_backed _ _ := True }.
Next Obligation. by intros []. Qed.
Next Obligation. intros. eexists. done. Qed.

#[export] Program Instance STLVectorIndirection_laws : IndirectionLaws STLVectorIndirection :=
  { ind_backed h p := buffer_exists h (m_vecBuf p) }.
Next Obligation. by intros []. Qed.
Next Obligation. intros h p size offset stride k Hb Hv Hk. exact (vector_readable _ _ _ _ _ _ Hb Hv Hk). Qed.

#[export] Program Instance ArrayIndirection_laws : IndirectionLaws ArrayIndirection :=
  { ind_backed h p := buffer_exists h (m_arrayBuf p) }.
Next Obligation. by intros []. Qed.
Next Obligation. intros h p size offset stride k Hb Hv Hk. exact (vector_readable _ _ _ _ _ _ Hb Hv Hk). Qed.

#[export] Program Instance ArrayViewIndirection_laws : IndirectionLaws ArrayViewIndirection :=
  { ind_backed h p := forall b, (m_viewBuf p).1 = Some b ->
      exists l, h !! b = Some l /\ (m_viewBuf p).2 <= Z.of_nat (length l) }.
Next Obligation. by intros []. Qed.
Next Obligation.
  intros h [[[b|] n]] size offset stride k Hb Hv Hk; cbn in *.
  - destruct (Hb b eq_refl) as (l & Hl & Hn). apply IndexedIndirection_range with (k := k) in Hv as [_ Hr]; [|done].
    eapply read_in; [done|lia].
  - apply IndexedIndirection_range with (k := k) in Hv as [Hr _]; done.
Qed.

(** A policy with a buffer reads and writes the buffer that it points to. *)
Class BufferLaws (P : Type) `{!IndirectionPolicy P, !BufferIndirection P} := {
  buf_key : P -> option Z;
  indirection_read h p pos : indirection h p pos = read h (buf_key p) pos;
  ind_isValid_frame h h' p size offset stride : (forall k, buf_key p = Some k -> h !! k = h' !! k) ->
    ind_isValid h p size offset stride = ind_isValid h' p size offset stride;
  buf_write_write h p pos x : buf_write h p pos x = write h (buf_key p) pos x }.

Lemma buffer_size_frame (h h' : Heap) p : (forall k, p = Some k -> h !! k = h' !! k) -> buffer_size h p = buffer_size h' p.
Proof. intros Hk. unfold buffer_size, buffer. destruct p as [k|]; [|done]. cbn. by rewrite (Hk k eq_refl). Qed.

#[export] Program Instance STLVectorIndirection_buffer_laws : BufferLaws STLVectorIndirection := { buf_key := m_vecBuf }.
Next Obligation. done. Qed.
Next Obligation. intros h h' p size offset stride Hk. cbn. by rewrite (buffer_size_frame h h' _ Hk). Qed.
Next Obligation. done. Qed.
#[export] Program Instance ArrayIndirection_buffer_laws : BufferLaws ArrayIndirection := { buf_key := m_arrayBuf }.
Next Obligation. done. Qed.
Next Obligation. intros h h' p size offset stride Hk. cbn. by rewrite (buffer_size_frame h h' _ Hk). Qed.
Next Obligation. done. Qed.
#[export] Program Instance ArrayViewIndirection_buffer_laws : BufferLaws ArrayViewIndirection := { buf_key p := (m_viewBuf p).1 }.
Solve Obligations with done.

Lemma read_Some h b pos x : read h (Some b) pos = Done x <-> exists l, h !! b = Some l /\ l.[pos] = Some x.
Proof.
  unfold read, buffer. cbn. destruct (h !! b) as [l|]; cbn; [|by split; [|intros (? & ? & ?)]].
  split.
  - destruct (l.[pos]) as [y|] eqn:E; cbn; [intros [= ->]; eauto|done].
  - by intros (l' & [= <-] & ->).
Qed.

(** Writing changes one cell. *)
Lemma buffer_write_spec h b l pos x : h !! b = Some l -> 0 <= pos < Z.of_nat (length l) ->
  write h (Some b) pos x = Done (<[b := <[Z.to_nat pos := x]> l]> h).
Proof. intros Hb Hp. unfold write. cbn. rewrite Hb. cbn. by rewrite zupdate_lt. Qed.
End Readable.

End SlamPolicies.
