(* ===== verification/SlamSets.v ===== *)
(** * Sets of slam

    The abstract interface [Set.hpp], [NullSet.hpp], [OrderedSet.hpp] with its builder
    and iterator, [RangeSet.hpp], [SubsettingPolicies.hpp], [DynamicSet.hpp] and
    [ModularInt.hpp].

    The sets are over [axom::IndexType] for positions and elements, as by default. *)

From S2P Require Import Prelude Doubles Outcome SlamPolicies.

Module SlamSets.
Import Doubles Outcome SlamPolicies.

Section Sets.
Context {IB : IndexBits}.

(** ** [Set]: what a client sees of a set behind a pointer to the base class *)

Record Set_ := mkSet {
  set_size : Z;
  set_at : Z -> outcome Z;
  set_isEmpty : bool;
  set_isValid : outcome bool }.

(** [operator==]: the loop returns at the first difference. *)
Fixpoint set_eq_loop (s1 s2 : Set_) (l : list Z) : outcome bool :=
  match l with
  | [] => Done true
  | pos :: l =>
    e1 ← set_at s1 pos; e2 ← set_at s2 pos;
    if negb (e1 =? e2) then Done false else set_eq_loop s1 s2 l
  end.

Definition set_eq (s1 s2 : Set_) : outcome bool :=
  let numElts := set_size s1 in
  if negb (set_size s2 =? numElts) then Done false else set_eq_loop s1 s2 (up 0 numElts).

Definition set_ne (s1 s2 : Set_) : outcome bool := b ← set_eq s1 s2; Done (negb b).

(** [NullSet]: subscripting is asserted against, and gives 0. *)
Definition NullSet : Set_ := mkSet 0 (fun _ => Done 0) true (Done true).

(** ** Subsetting policies *)

(** The loop over the child, from [beg] to [end_] in steps of the iterator, as far as
    the fuel goes. *)
Fixpoint all_in_parent (fuel : nat) (pSet : list Z) (deref : Z -> outcome Z) (stride beg end_ : Z) : outcome bool :=
  if beg =? end_ then Done true
  else match fuel with
       | O => Undefined
       | S fuel =>
         x ← deref beg;
         if bool_decide (x ∈ pSet) then
           beg ← ix_add beg stride; all_in_parent fuel pSet deref stride beg end_
         else Done false
       end.

(** [std::set] of the elements of the parent; the position of the loop is an [int]. *)
Definition parent_elements (parent : Set_) : outcome (list Z) :=
  for_each (up 0 (set_size parent)) (fun pos pSet => x ← set_at parent pos; _ ← as_int (pos + 1); Done (x :: pSet)) [].

Definition subset_check (fuel : nat) (parent : Set_) (deref : Z -> outcome Z) (stride beg end_ : Z) : outcome bool :=
  if beg =? end_ then Done true
  else pSet ← parent_elements parent; all_in_parent fuel pSet deref stride beg end_.

Class SubsettingPolicy (P : Type) := {
  ParentPtr : Type;
  parent_default : ParentPtr;
  sub_make : ParentPtr -> P;
  isSubset : P -> outcome bool;
  sub_isValid : nat -> P -> (Z -> outcome Z) -> Z -> Z -> Z -> outcome bool }.

Record NoSubset := mkNoSubset { }.

#[export] Instance NoSubset_policy : SubsettingPolicy NoSubset := {
  ParentPtr := option Set_;
  parent_default := None;
  sub_make _ := mkNoSubset;
  isSubset _ := Done false;
  sub_isValid _ _ _ _ _ _ := Done true }.

(** The null set is recognized by its contents; the pointer is dereferenced before it is
    compared to null. *)
Record VirtualParentSubset := mkVirtualParentSubset { v_parentSet : option Set_ }.

Definition VirtualParentSubset_isSubset (p : VirtualParentSubset) : outcome bool :=
  s ← ub (v_parentSet p); set_ne s NullSet.

#[export] Instance VirtualParentSubset_policy : SubsettingPolicy VirtualParentSubset := {
  ParentPtr := option Set_;
  parent_default := Some NullSet;
  sub_make := mkVirtualParentSubset;
  isSubset := VirtualParentSubset_isSubset;
  sub_isValid fuel p deref stride beg end_ :=
    b ← VirtualParentSubset_isSubset p;
    if negb b then Done true else
    match v_parentSet p with
    | None => Done true
    | Some parent => subset_check fuel parent deref stride beg end_
    end }.

Record ConcreteParentSubset := mkConcreteParentSubset { c_parentSet : option Set_ }.

#[export] Instance ConcreteParentSubset_policy : SubsettingPolicy ConcreteParentSubset := {
  ParentPtr := option Set_;
  parent_default := None;
  sub_make := mkConcreteParentSubset;
  isSubset p := Done (match c_parentSet p with Some _ => true | None => false end);
  sub_isValid fuel p deref stride beg end_ :=
    match c_parentSet p with
    | None => Done true
    | Some parent => subset_check fuel parent deref stride beg end_
    end }.

(** ** [OrderedSet] *)

Record OrderedSet (Sz Off Str Ind Sub : Type) := mkOrderedSet {
  os_size : Sz; os_offset : Off; os_stride : Str; os_ind : Ind; os_sub : Sub }.

End Sets.

Arguments mkOrderedSet {Sz Off Str Ind Sub}.
Arguments os_size {Sz Off Str Ind Sub}.
Arguments os_offset {Sz Off Str Ind Sub}.
Arguments os_stride {Sz Off Str Ind Sub}.
Arguments os_ind {Sz Off Str Ind Sub}.
Arguments os_sub {Sz Off Str Ind Sub}.

Section OrderedSet.
Context {IB : IndexBits} {Sz Off Str Ind Sub : Type}.
Context `{!SizePolicy Sz, !OffsetPolicy Off, !StridePolicy Str, !IndirectionPolicy Ind, !SubsettingPolicy Sub}.
Notation OSet := (OrderedSet Sz Off Str Ind Sub).

(** The constructor from a size, an offset and a stride. *)
Definition OrderedSet_make (size offset stride : Z) : OSet :=
  mkOrderedSet (size_make size) (offset_make offset) (stride_make stride) (ind_make (ind_null (P := Ind))) (sub_make (parent_default (P := Sub))).

Definition OrderedSet_of_size (size : Z) : OSet := OrderedSet_make size (offset_default (P := Off)) (stride_default (P := Str)).

Definition OrderedSet_default : OSet := OrderedSet_of_size (size_default (P := Sz)).

Definition size (s : OSet) : Z := size_of (os_size s).
Definition offset (s : OSet) : Z := offset_of (os_offset s).
Definition stride (s : OSet) : Z := stride_of (os_stride s).
Definition empty (s : OSet) : bool := size_empty (os_size s).
Definition ptr (s : OSet) : IndirectionPtr := ind_ptr (os_ind s).

(** [operator[]] and [at]: positions are checked by an assertion only. *)
Definition at_ (h : Heap) (s : OSet) (pos : Z) : outcome Z :=
  m ← ix_mul pos (stride s); p ← ix_add m (offset s); indirection h (os_ind s) p.

Definition isValidIndex (s : OSet) (pos : Z) : bool := (0 <=? pos) && (pos <? size s).

(** *** The iterator, which has a position in the index space and a copy of the set *)

Record OrderedSetIterator := mkIterator { m_pos : Z; m_orderedSet : OSet }.

Definition begin_ (s : OSet) : OrderedSetIterator := mkIterator (offset s) s.

Definition end_ (s : OSet) : outcome OrderedSetIterator :=
  m ← ix_mul (size s) (stride s); p ← ix_add m (offset s); Done (mkIterator p s).

Definition advance (it : OrderedSetIterator) (n : Z) : outcome OrderedSetIterator :=
  d ← ix_mul n (stride (m_orderedSet it)); p ← ix_add (m_pos it) d; Done (mkIterator p (m_orderedSet it)).

Definition deref (h : Heap) (it : OrderedSetIterator) : outcome Z := indirection h (os_ind (m_orderedSet it)) (m_pos it).

Definition index (it : OrderedSetIterator) : outcome Z :=
  d ← ix_sub (m_pos it) (offset (m_orderedSet it)); ix_div d (stride (m_orderedSet it)).

(** The operators of [IteratorBase]. *)
Definition it_eq (a b : OrderedSetIterator) : bool := m_pos a =? m_pos b.
Definition it_ne (a b : OrderedSetIterator) : bool := negb (m_pos a =? m_pos b).
Definition it_lt (a b : OrderedSetIterator) : bool := m_pos a <? m_pos b.
Definition it_le (a b : OrderedSetIterator) : bool := m_pos a <=? m_pos b.
Definition it_incr (a : OrderedSetIterator) : outcome OrderedSetIterator := advance a 1.
Definition it_decr (a : OrderedSetIterator) : outcome OrderedSetIterator := advance a (-1).
Definition it_add (a : OrderedSetIterator) (n : Z) : outcome OrderedSetIterator := advance a n.
Definition it_sub (a : OrderedSetIterator) (n : Z) : outcome OrderedSetIterator := m ← ix_sub 0 n; advance a m.
Definition it_diff (a b : OrderedSetIterator) : outcome Z := ix_sub (m_pos a) (m_pos b).

(** [for(it = begin(); it != end(); ++it) *it]: the elements that a loop over the set
    visits, as far as the fuel goes. *)
Fixpoint iterate (fuel : nat) (h : Heap) (it last : OrderedSetIterator) : outcome (list Z) :=
  if it_ne it last then
    match fuel with
    | O => Undefined
    | S fuel => x ← deref h it; it ← it_incr it; l ← iterate fuel h it last; Done (x :: l)
    end
  else Done [].

Definition elements (h : Heap) (s : OSet) : outcome (list Z) :=
  e ← end_ s; iterate (Z.to_nat (size s)) h (begin_ s) e.

Definition isValid (h : Heap) (s : OSet) : outcome bool :=
  if negb (size_isValid (os_size s)) then Done false
  else if negb (offset_isValid (os_offset s)) then Done false
  else if negb (stride_isValid (os_stride s)) then Done false
  else
    b ← ind_isValid h (os_ind s) (size s) (offset s) (stride s);
    if negb (b : bool) then Done false
    else e ← end_ s;
         sub_isValid (Z.to_nat (size s)) (os_sub s) (fun p => indirection h (os_ind s) p) (stride s) (offset s) (m_pos e).

(** The set behind a pointer to the base class. *)
Definition OrderedSet_as_Set (h : Heap) (s : OSet) : Set_ := mkSet (size s) (at_ h s) (empty s) (isValid h s).

(** *** [SetBuilder] *)

Record SetBuilder := mkSetBuilder {
  b_size : Sz; b_offset : Off; b_stride : Str; b_data : Ind; b_parent : Sub;
  m_hasRange : bool; m_rangeLower : Z; m_rangeUpper : Z }.

Definition SetBuilder_new : SetBuilder :=
  mkSetBuilder (size_make (size_default (P := Sz))) (offset_make (offset_default (P := Off))) (stride_make (stride_default (P := Str)))
    (ind_make (ind_null (P := Ind))) (sub_make (parent_default (P := Sub))) false 0 0.

Definition with_size (b : SetBuilder) (s : Sz) : SetBuilder :=
  mkSetBuilder s (b_offset b) (b_stride b) (b_data b) (b_parent b) (m_hasRange b) (m_rangeLower b) (m_rangeUpper b).

Definition builder_size (b : SetBuilder) (sz : Z) : SetBuilder := with_size b (size_make sz).

Definition builder_offset (b : SetBuilder) (off : Z) : SetBuilder :=
  mkSetBuilder (b_size b) (offset_make off) (b_stride b) (b_data b) (b_parent b) (m_hasRange b) (m_rangeLower b) (m_rangeUpper b).

Definition builder_data (b : SetBuilder) (bufPtr : IndirectionPtr) : SetBuilder :=
  mkSetBuilder (b_size b) (b_offset b) (b_stride b) (ind_make bufPtr) (b_parent b) (m_hasRange b) (m_rangeLower b) (m_rangeUpper b).

Definition builder_parent (b : SetBuilder) (parSet : ParentPtr) : SetBuilder :=
  mkSetBuilder (b_size b) (b_offset b) (b_stride b) (b_data b) (sub_make parSet) (m_hasRange b) (m_rangeLower b) (m_rangeUpper b).

(** The stride and the difference are converted to [double]; a quotient that is not
    positive is not computed. *)
Definition recomputeSize (b : SetBuilder) : outcome Z :=
  if m_hasRange b then
    let str := to_double (stride_of (b_stride b)) in
    diff ← ix_sub (m_rangeUpper b) (m_rangeLower b);
    if (diff =? 0) || negb (Bool.eqb (0 <? diff) (0 <? str)) then Done 0
    else if str =? 0 then Undefined
    else ix (ceil_quot (Z.abs (to_double diff)) (Z.abs str))
  else Done (size_of (b_size b)).

Definition builder_stride (b : SetBuilder) (str : Z) : outcome SetBuilder :=
  let b := mkSetBuilder (b_size b) (b_offset b) (stride_make str) (b_data b) (b_parent b)
             (m_hasRange b) (m_rangeLower b) (m_rangeUpper b) in
  if m_hasRange b then n ← recomputeSize b; Done (with_size b (size_make n)) else Done b.

Definition builder_range (b : SetBuilder) (lower upper : Z) : outcome SetBuilder :=
  let b := mkSetBuilder (b_size b) (offset_make lower) (b_stride b) (b_data b) (b_parent b) true lower upper in
  n ← recomputeSize b; Done (with_size b (size_make n)).

Definition OrderedSet_build (b : SetBuilder) : OSet :=
  mkOrderedSet (b_size b) (b_offset b) (b_stride b) (b_data b) (b_parent b).

End OrderedSet.

(** ** [RangeSet] and [PositionSet] *)

Notation PositionSet := (OrderedSet RuntimeSize ZeroOffset StrideOne NoIndirection NoSubset).
Notation RangeSet := (OrderedSet RuntimeSize RuntimeOffset StrideOne NoIndirection NoSubset).

Section RangeSets.
Context {IB : IndexBits}.

Definition PositionSet_make (size : Z) : PositionSet := OrderedSet_make size 0 1.
Definition RangeSet_make (size : Z) : RangeSet := OrderedSet_make size 0 1.

Definition RangeSet_range (lowerIndex upperIndex : Z) : outcome RangeSet :=
  n ← ix_sub upperIndex lowerIndex; Done (OrderedSet_make n lowerIndex 1).

Definition positions {Sz Off Str Ind Sub} `{!SizePolicy Sz} (s : OrderedSet Sz Off Str Ind Sub) : PositionSet :=
  PositionSet_make (size s).

(** ** [DynamicSet] *)

Definition INVALID_ENTRY : Z := -1.

(** The size policy is [DynamicRuntimeSize]. *)
Record DynamicSet := mkDynamicSet { d_size : Z; d_data : list Z }.


(** [m_data.resize(sz)] and the loop that sets every entry to its index, an [int]. *)
Definition fill_array_default (data : list Z) (sz : Z) : outcome (list Z) :=
  if sz <? 0 then Done data
  else for_each (up 0 sz) (fun i l => if i <? 2 ^ 31 then ub (zupdate l i i) else Undefined)
          (take (Z.to_nat sz) data ++ replicate (Z.to_nat sz - length data) 0).

Definition DynamicSet_make (size : Z) : outcome DynamicSet :=
  l ← fill_array_default [] size; Done (mkDynamicSet size l).

Definition DynamicSet_at (s : DynamicSet) (pos : Z) : outcome Z := ub (d_data s).[pos].

Definition DynamicSet_update (s : DynamicSet) (pos x : Z) : outcome DynamicSet :=
  l ← ub (zupdate (d_data s) pos x); Done (mkDynamicSet (d_size s) l).

Fixpoint findIndex_loop (s : DynamicSet) (e : Z) (l : list Z) : outcome Z :=
  match l with
  | [] => Done INVALID_ENTRY
  | i :: l => x ← DynamicSet_at s i; if x =? e then Done i else findIndex_loop s e l
  end.

Definition findIndex (s : DynamicSet) (e : Z) : outcome Z := findIndex_loop s e (up 0 (to_int32 (d_size s))).

Fixpoint contains_loop (s : DynamicSet) (e : Z) (l : list Z) : outcome bool :=
  match l with
  | [] => Done false
  | i :: l => x ← DynamicSet_at s i; if x =? e then Done true else contains_loop s e l
  end.

Definition contains (s : DynamicSet) (e : Z) : outcome bool := contains_loop s e (up 0 (to_int32 (d_size s))).

Definition DynamicSet_numberOfValidEntries (s : DynamicSet) : outcome Z :=
  for_each (up 0 (to_int32 (d_size s))) (fun i nvalid =>
    x ← DynamicSet_at s i; ix_add nvalid (if negb (x =? INVALID_ENTRY) then 1 else 0)) 0.

Definition DynamicSet_isValidEntry (s : DynamicSet) (i : Z) : outcome bool :=
  if (0 <=? i) && (i <? d_size s) then x ← DynamicSet_at s i; Done (negb (x =? INVALID_ENTRY)) else Done false.

Definition DynamicSet_isValid (s : DynamicSet) : bool := 0 <=? d_size s.

(** Insertion returns the index of the new entry. *)
Definition DynamicSet_insert (s : DynamicSet) (val : Z) : outcome (DynamicSet * Z) :=
  let l := d_data s ++ [val] in
  n ← ix (Z.of_nat (length l)); Done (mkDynamicSet n l, n - 1).

Definition DynamicSet_insert_next (s : DynamicSet) : outcome (DynamicSet * Z) := DynamicSet_insert s (d_size s).

Definition DynamicSet_remove (s : DynamicSet) (idx : Z) : outcome DynamicSet := DynamicSet_update s idx INVALID_ENTRY.

Definition DynamicSet_reset (s : DynamicSet) (sz : Z) : outcome DynamicSet :=
  l ← fill_array_default (d_data s) sz; Done (mkDynamicSet sz l).

Definition DynamicSet_as_Set (s : DynamicSet) : Set_ :=
  mkSet (d_size s) (DynamicSet_at s) (d_size s =? 0) (Done (DynamicSet_isValid s)).

End RangeSets.

(** ** [ModularInt], over [int] *)

#[local] Instance int_bits : IndexBits := IndexType32.

Section ModularInt.
Context {Sz : Type} `{!SizePolicy Sz}.

Record ModularInt := mkModularInt { mi_size : Sz; m_val : Z }.

Definition modulus (m : ModularInt) : Z := size_of (mi_size m).

Definition normalize (m : ModularInt) : outcome ModularInt :=
  let sz := modulus m in
  v ← ix_rem (m_val m) sz;
  v ← (if v <? 0 then ix_add v sz else Done v);
  Done (mkModularInt (mi_size m) v).

Definition ModularInt_make (val modulusVal : Z) : outcome ModularInt := normalize (mkModularInt (size_make modulusVal) val).

(** Assignment keeps the modulus. *)
Definition ModularInt_assign (m other : ModularInt) : ModularInt := mkModularInt (mi_size m) (m_val other).

Definition mi_add (m : ModularInt) (val : Z) : outcome ModularInt := v ← ix_add (m_val m) val; normalize (mkModularInt (mi_size m) v).
Definition mi_subtract (m : ModularInt) (val : Z) : outcome ModularInt := v ← ix_sub (m_val m) val; normalize (mkModularInt (mi_size m) v).
Definition mi_multiply (m : ModularInt) (val : Z) : outcome ModularInt := v ← ix_mul (m_val m) val; normalize (mkModularInt (mi_size m) v).

Definition mi_incr (m : ModularInt) : outcome ModularInt := mi_add m 1.
Definition mi_decr (m : ModularInt) : outcome ModularInt := mi_subtract m 1.

(** The postfix operators also return the old value. *)
Definition mi_post_incr (m : ModularInt) : outcome (ModularInt * ModularInt) :=
  tmp ← ModularInt_make (m_val m) (modulus m); m ← mi_add m 1; Done (m, tmp).
Definition mi_post_decr (m : ModularInt) : outcome (ModularInt * ModularInt) :=
  tmp ← ModularInt_make (m_val m) (modulus m); m ← mi_subtract m 1; Done (m, tmp).

Definition mi_eq (a b : ModularInt) : bool := (modulus a =? modulus b) && (m_val a =? m_val b).

(** The binary operators, with the integer on the right and on the left. *)
Definition mi_plus (zn : ModularInt) (n : Z) : outcome ModularInt := mi_add zn n.
Definition mi_plus_l (n : Z) (zn : ModularInt) : outcome ModularInt := mi_add zn n.
Definition mi_minus (zn : ModularInt) (n : Z) : outcome ModularInt := mi_subtract zn n.
Definition mi_minus_l (n : Z) (zn : ModularInt) : outcome ModularInt := mi_subtract zn n.
Definition mi_times (zn : ModularInt) (n : Z) : outcome ModularInt := mi_multiply zn n.
Definition mi_times_l (n : Z) (zn : ModularInt) : outcome ModularInt := mi_multiply zn n.

End ModularInt.
Arguments ModularInt : clear implicits.

End SlamSets.
