(* ===== verification/SlamSetTheorems.v ===== *)
(** * Theorems on the sets of slam

    An ordered set is the list of its elements: iteration, random access, equality and
    subset checks agree.  Ranges with a stride have the elements they should have, and
    modular integers compute in the ring of residues. *)

From S2P Require Import Prelude Doubles Outcome SlamPolicies SlamSets.

Module SlamSetTheorems.
Import Doubles Outcome SlamPolicies SlamSets.

(** Sets and builders with a stride chosen at run time. *)
Notation StridedSet := (OrderedSet RuntimeSize RuntimeOffset RuntimeStride NoIndirection NoSubset).
Notation StridedBuilder := (SetBuilder (Sz := RuntimeSize) (Off := RuntimeOffset) (Str := RuntimeStride)
  (Ind := NoIndirection) (Sub := NoSubset)).

Section Sets.
Context {IB : IndexBits}.

Lemma fits_iff z : fits z = true <-> - index_max - 1 <= z <= index_max.
Proof. unfold fits. rewrite andb_true_iff, !Z.leb_le. lia. Qed.

Lemma ix_fits z : fits z = true -> ix z = Done z.
Proof. intros Hz. unfold ix. by rewrite Hz. Qed.

Lemma ix_Done_fits z r : ix z = Done r -> r = z /\ fits z = true.
Proof. unfold ix. destruct (fits z); [|done]. by intros [= ->]. Qed.

(** A number between two representable ones is representable. *)
Lemma fits_between a b z : fits a = true -> fits b = true -> Z.min a b <= z <= Z.max a b -> fits z = true.
Proof. rewrite !fits_iff. lia. Qed.

Lemma mul_between k n s : 0 <= k <= n -> Z.min 0 (n * s) <= k * s <= Z.max 0 (n * s).
Proof. intros Hk. destruct (Z.le_ge_cases 0 s); nia. Qed.

Lemma fits_0 : fits 0 = true.
Proof. apply fits_iff. pose proof index_max_lower. lia. Qed.

(** [l] lists the values of [f] from [0] on. *)
Definition lists {A} (f : Z -> outcome A) (l : list A) : Prop := forall k, 0 <= k < Z.of_nat (length l) -> exists x, f k = Done x /\ l.[k] = Some x.

Lemma lists_nil {A} (f : Z -> outcome A) : lists f [].
Proof. intros k Hk. cbn in Hk. lia. Qed.

Lemma lists_cons {A} (f : Z -> outcome A) x l : lists f (x :: l) <-> f 0 = Done x /\ lists (fun k => f (k + 1)) l.
Proof.
  split.
  - intros Hl. split; [destruct (Hl 0) as (y & -> & Hy); [cbn; lia|]; by injection Hy as ->|].
    intros k Hk. destruct (Hl (k + 1)) as (y & Hy & Hyl); [cbn; lia|]. exists y. split; [done|].
    rewrite zlookup_to_nat in Hyl |- * by lia. by replace (Z.to_nat (k + 1)) with (S (Z.to_nat k)) in Hyl by lia.
  - intros [H0 Hl] k Hk. destruct (decide (k = 0)) as [->|Hne]; [by exists x|].
    destruct (Hl (k - 1)) as (y & Hy & Hyl); [cbn in Hk; lia|]. replace (k - 1 + 1) with k in Hy by lia. exists y.
    split; [done|]. rewrite zlookup_to_nat in Hyl |- * by lia. by replace (Z.to_nat k) with (S (Z.to_nat (k - 1))) by lia.
Qed.

Lemma lists_ext {A} (f g : Z -> outcome A) l : (forall k, 0 <= k < Z.of_nat (length l) -> f k = g k) -> lists f l -> lists g l.
Proof. intros Hfg Hl k Hk. rewrite <- Hfg by done. by apply Hl. Qed.

Lemma lists_unique {A} (f : Z -> outcome A) l l' : lists f l -> lists f l' -> length l = length l' -> l = l'.
Proof.
  revert f l'. induction l as [|x l IH]; intros f [|x' l'] Hl Hl' Hn; [done..|].
  apply lists_cons in Hl as [Hx Hl], Hl' as [Hx' Hl']. rewrite Hx in Hx'. injection Hx' as ->. f_equal. injection Hn as Hn.
  by eapply IH.
Qed.

Lemma lists_exists {A} (f : Z -> outcome A) n : (forall k, 0 <= k < Z.of_nat n -> exists x, f k = Done x) ->
  exists l, lists f l /\ length l = n.
Proof.
  revert f. induction n as [|n IH]; intros f Hf; [exists []; by split; [apply lists_nil|]|].
  destruct (Hf 0) as [x Hx]; [lia|]. destruct (IH (fun k => f (k + 1))) as (l & Hl & Hn).
  { intros k Hk. apply Hf. lia. }
  exists (x :: l). split; [by apply lists_cons|cbn; lia].
Qed.

(** ** Equality of sets *)

Definition set_lists (s : Set_) (l : list Z) : Prop := set_size s = Z.of_nat (length l) /\ lists (set_at s) l.

Lemma set_eq_loop_spec s1 s2 l1 l2 i : lists (fun k => set_at s1 (k + i)) l1 -> lists (fun k => set_at s2 (k + i)) l2 ->
  length l1 = length l2 ->
  set_eq_loop s1 s2 (up i (i + Z.of_nat (length l1))) = Done (bool_decide (l1 = l2)).
Proof.
  revert i l2. induction l1 as [|x l1 IH]; intros i [|y l2] H1 H2 Hn; [|done..|].
  - cbn. by rewrite up_nil by lia.
  - cbn [length]. rewrite up_cons by lia. cbn [set_eq_loop]. apply lists_cons in H1 as [Hx H1], H2 as [Hy H2].
    rewrite !Z.add_0_l in *. rewrite Hx, Hy. cbn [mbind outcome_bind]. destruct (Z.eqb_spec x y) as [->|Hne]; cbn [negb].
    + replace (i + Z.of_nat (S (length l1))) with (i + 1 + Z.of_nat (length l1)) by lia. rewrite (IH (i + 1) l2).
      * by rewrite (bool_decide_ext (y :: l1 = y :: l2) (l1 = l2)) by naive_solver.
      * eapply lists_ext, H1. intros k Hk. cbn. f_equal. lia.
      * eapply lists_ext, H2. intros k Hk. cbn. f_equal. lia.
      * by injection Hn.
    + by rewrite bool_decide_false by naive_solver.
Qed.

Lemma set_eq_spec s1 s2 l1 l2 : set_lists s1 l1 -> set_lists s2 l2 -> set_eq s1 s2 = Done (bool_decide (l1 = l2)).
Proof.
  intros [Hn1 H1] [Hn2 H2]. unfold set_eq. rewrite Hn1, Hn2.
  destruct (Z.eqb_spec (Z.of_nat (length l2)) (Z.of_nat (length l1))) as [He|Hne]; cbn [negb].
  - rewrite <- (Z.add_0_l (Z.of_nat (length l1))). apply set_eq_loop_spec; [..|lia].
    + eapply lists_ext, H1. intros. f_equal. lia.
    + eapply lists_ext, H2. intros. f_equal. lia.
  - rewrite bool_decide_false; [done|]. intros ->. done.
Qed.

(** ** Walking over positions *)

(** Stepping from one position to another yields the values [l]. *)
Inductive walk (f : Z -> outcome Z) (step : Z) : Z -> Z -> list Z -> Prop :=
  | walk_nil p : walk f step p p []
  | walk_cons p last x l : p <> last -> f p = Done x -> fits (p + step) = true ->
      walk f step (p + step) last l -> walk f step p last (x :: l).

Lemma all_in_parent_walk fuel pSet f step p last l : walk f step p last l -> (length l <= fuel)%nat ->
  all_in_parent fuel pSet f step p last = Done (bool_decide (Forall (.∈ pSet) l)).
Proof.
  intros Hw. revert fuel. induction Hw as [p|p last x l Hne Hx Hp Hw IH]; intros fuel Hf.
  { destruct fuel; cbn; by rewrite Z.eqb_refl. }
  destruct fuel as [|fuel]; [cbn in Hf; lia|]. cbn [all_in_parent]. destruct (Z.eqb_spec p last); [done|].
  rewrite Hx. cbn [mbind outcome_bind]. destruct (bool_decide_reflect (x ∈ pSet)) as [Hin|Hin].
  - unfold ix_add. rewrite (ix_fits _ Hp). cbn [mbind outcome_bind]. cbn in Hf. rewrite (IH fuel) by lia.
    f_equal. apply bool_decide_ext. rewrite Forall_cons. tauto.
  - rewrite bool_decide_false; [done|]. by intros [? _]%Forall_cons.
Qed.

Lemma parent_elements_spec s l : set_lists s l -> Z.of_nat (length l) < 2 ^ 31 -> parent_elements s = Done (reverse l).
Proof.
  intros [Hn Hl] Hmax. unfold parent_elements. rewrite Hn.
  destruct (for_up_inv (fun i acc => acc = reverse (take (Z.to_nat i) l)) 0 (Z.of_nat (length l))
    (fun pos pSet => x ← set_at s pos; _ ← as_int (pos + 1); Done (x :: pSet)) []) as (r & -> & ->); [lia|done| |by rewrite Nat2Z.id, firstn_all].
  intros i acc Hi ->. destruct (Hl i Hi) as (x & -> & Hx). rewrite bind_Done, as_int_small by lia. eexists. split; [done|]. rewrite zlookup_to_nat in Hx by lia.
  replace (Z.to_nat (i + 1)) with (S (Z.to_nat i)) by lia. by rewrite (take_S_r _ _ x Hx), reverse_snoc.
Qed.

Lemma subset_check_walk fuel s lp f step p last l : set_lists s lp -> Z.of_nat (length lp) < 2 ^ 31 -> walk f step p last l -> (length l <= fuel)%nat ->
  subset_check fuel s f step p last = Done (bool_decide (Forall (.∈ lp) l)).
Proof.
  intros Hs Hmax Hw Hf. unfold subset_check. destruct (Z.eqb_spec p last) as [->|Hne].
  { inversion Hw; [|done]. by rewrite bool_decide_true by constructor. }
  rewrite (parent_elements_spec s lp Hs Hmax). cbn [mbind outcome_bind]. rewrite (all_in_parent_walk _ _ _ _ _ _ l) by done.
  f_equal. apply bool_decide_ext. apply Forall_iff. intros x. apply elem_of_reverse.
Qed.

(** What a subsetting policy promises: [sub_bound p b] says that the elements must come
    from the list [b], or may be any when there is none.  A parent is copied in a loop
    over an [int], so that it has fewer than 2^31 elements. *)
Class SubsettingLaws (P : Type) `{!SubsettingPolicy P} := {
  sub_bound : P -> option (list Z) -> Prop;
  sub_isValid_spec fuel p b f step pos last l :
    sub_bound p b -> walk f step pos last l -> (length l <= fuel)%nat ->
    sub_isValid fuel p f step pos last =
      Done (match b with None => true | Some lp => bool_decide (Forall (.∈ lp) l) end) }.

#[export] Program Instance NoSubset_laws : SubsettingLaws NoSubset := { sub_bound _ b := b = None }.
Next Obligation. by intros ??? ????? -> ??. Qed.

Definition concrete_bound (p : ConcreteParentSubset) (b : option (list Z)) : Prop :=
  match c_parentSet p, b with
  | None, None => True
  | Some s, Some lp => set_lists s lp /\ Z.of_nat (length lp) < 2 ^ 31
  | _, _ => False
  end.

#[export] Program Instance ConcreteParentSubset_laws : SubsettingLaws ConcreteParentSubset := { sub_bound := concrete_bound }.
Next Obligation.
  intros fuel [c] b f step pos last l Hb Hw Hf. unfold concrete_bound in Hb. cbn in *.
  destruct c, b; cbn in *; [destruct Hb; by apply subset_check_walk|done..].
Qed.

(** An empty parent is no parent. *)
Definition virtual_bound (p : VirtualParentSubset) (b : option (list Z)) : Prop :=
  exists s lp, v_parentSet p = Some s /\ set_lists s lp /\ Z.of_nat (length lp) < 2 ^ 31 /\ b = match lp with [] => None | _ => Some lp end.

#[export] Program Instance VirtualParentSubset_laws : SubsettingLaws VirtualParentSubset := { sub_bound := virtual_bound }.
Next Obligation.
  intros fuel [v] b f step pos last l (s & lp & Hv & Hs & Hmax & ->) Hw Hf. cbn in *. subst v. unfold VirtualParentSubset_isSubset, set_ne. cbn.
  rewrite (set_eq_spec s NullSet lp [] Hs) by (split; [done|apply lists_nil]). cbn [mbind outcome_bind].
  destruct lp as [|x lp]; [by rewrite bool_decide_true|]. rewrite bool_decide_false by done. cbn [negb].
  by apply subset_check_walk.
Qed.

(** ** Ordered sets *)

Section Ordered.
Context {Sz Off Str Ind Sub : Type}.
Context `{!SizePolicy Sz, !SizeLaws Sz, !OffsetPolicy Off, !OffsetLaws Off, !StridePolicy Str, !StrideLaws Str}.
Context `{!IndirectionPolicy Ind, !IndirectionLaws Ind, !SubsettingPolicy Sub, !SubsettingLaws Sub}.
Notation OSet := (OrderedSet Sz Off Str Ind Sub).
Implicit Types (s : OSet) (h : Heap).

(** The offset and the stride are values of the position type. *)
Definition typed (s : OSet) : Prop := fits (offset s) = true /\ fits (stride s) = true.

Lemma end_Done s e : end_ s = Done e ->
  e = mkIterator (size s * stride s + offset s) s /\ fits (size s * stride s) = true /\ fits (size s * stride s + offset s) = true.
Proof.
  intros He. unfold end_, ix_mul, ix_add in He. apply bind_inv in He as (m & [-> Hm]%ix_Done_fits & He).
  apply bind_inv in He as (p & [-> Hp]%ix_Done_fits & He). by injection He as <-.
Qed.

Lemma set_at_spec h s e k : typed s -> end_ s = Done e -> 0 <= k <= size s ->
  at_ h s k = indirection h (os_ind s) (k * stride s + offset s).
Proof.
  intros [Ho Hs] (_ & Hm & Hp)%end_Done Hk. unfold at_, ix_mul, ix_add. pose proof (mul_between k (size s) (stride s) Hk).
  rewrite (ix_fits (k * stride s)) by (eapply fits_between; [apply fits_0|apply Hm|lia]). cbn [mbind outcome_bind].
  by rewrite ix_fits by (eapply fits_between; [apply Ho|apply Hp|lia]).
Qed.

Lemma walk_spec h s e k l : typed s -> end_ s = Done e -> stride s <> 0 -> 0 <= k <= size s ->
  size s = k + Z.of_nat (length l) -> lists (fun j => at_ h s (j + k)) l ->
  walk (indirection h (os_ind s)) (stride s) (k * stride s + offset s) (m_pos e) l.
Proof.
  intros Ht He Hst. pose proof (end_Done s e He) as (Ee & Hm & Hp). rewrite Ee. cbn [m_pos]. revert k.
  induction l as [|x l IH]; intros k Hk Hn Hl.
  { cbn in Hn. replace k with (size s) by lia. constructor. }
  cbn [length] in *. apply lists_cons in Hl as [Hx Hl]. rewrite Z.add_0_l, (set_at_spec h s e k Ht He Hk) in Hx.
  assert (0 <= k + 1 <= size s) as Hk1 by lia. pose proof (mul_between (k + 1) (size s) (stride s) Hk1). destruct Ht as [Ho Hsf].
  constructor; [|done| |].
  - intros Heq%Z.add_cancel_r%Z.mul_cancel_r; lia.
  - eapply fits_between; [apply Ho|apply Hp|lia].
  - replace (k * stride s + offset s + stride s) with ((k + 1) * stride s + offset s) by lia.
    apply IH; [lia..|]. eapply lists_ext, Hl. intros j Hj. cbn. f_equal. lia.
Qed.

Lemma iterate_walk h s e fuel p l : fits (stride s) = true -> (length l <= fuel)%nat ->
  walk (indirection h (os_ind s)) (stride s) p (m_pos e) l -> iterate fuel h (mkIterator p s) e = Done l.
Proof.
  intros Hs Hf Hw. remember (m_pos e) as last eqn:El. revert fuel Hf. induction Hw as [p|p last x l Hne Hx Hp Hw IH]; intros fuel Hf.
  { destruct fuel; cbn; unfold it_ne; cbn; by rewrite El, Z.eqb_refl. }
  destruct fuel as [|fuel]; [cbn in Hf; lia|]. cbn [iterate]. unfold it_ne. cbn [m_pos].
  rewrite <- El. destruct (Z.eqb_spec p last); [done|]. cbn [negb]. unfold deref. cbn [m_orderedSet m_pos]. rewrite Hx. cbn [mbind outcome_bind].
  unfold it_incr, advance, ix_mul, ix_add. cbn [m_orderedSet m_pos]. rewrite Z.mul_1_l, (ix_fits _ Hs). cbn [mbind outcome_bind].
  rewrite (ix_fits _ Hp). cbn [mbind outcome_bind]. cbn in Hf. by rewrite (IH El fuel) by lia.
Qed.

Lemma set_walk h s e l : typed s -> end_ s = Done e -> stride s <> 0 -> size s = Z.of_nat (length l) -> lists (at_ h s) l ->
  walk (indirection h (os_ind s)) (stride s) (offset s) (m_pos e) l.
Proof.
  intros Ht He Hst Hn Hl. replace (offset s) with (0 * stride s + offset s) by lia.
  apply walk_spec; [done..|lia|lia|]. eapply lists_ext, Hl. intros. f_equal. lia.
Qed.

Lemma elements_spec h s e l : typed s -> end_ s = Done e -> stride s <> 0 -> size s = Z.of_nat (length l) ->
  lists (at_ h s) l -> elements h s = Done l.
Proof.
  intros Ht He Hst Hn Hl. unfold elements. rewrite He. cbn [mbind outcome_bind].
  apply iterate_walk; [apply Ht|lia|by apply set_walk].
Qed.

Lemma isValid_inv h s : isValid h s = Done true ->
  0 <= size s /\ stride s <> 0 /\ ind_isValid h (os_ind s) (size s) (offset s) (stride s) = Done true /\
  exists e, end_ s = Done e /\
    sub_isValid (Z.to_nat (size s)) (os_sub s) (indirection h (os_ind s)) (stride s) (offset s) (m_pos e) = Done true.
Proof.
  unfold isValid. rewrite size_isValid_spec, offset_isValid_spec, stride_isValid_spec. fold (size s) (stride s).
  destruct (Z.leb_spec 0 (size s)); [|done]. destruct (Z.eqb_spec (stride s) 0); [done|]. cbn [negb].
  intros Hv. apply bind_inv in Hv as (b & Hb & Hv). destruct b; [|done]. cbn [negb] in Hv.
  apply bind_inv in Hv as (e & He & Hv). eauto 10.
Qed.

(** A valid set lists its elements, and they come from its parent. *)
Lemma valid_elements h s b : typed s -> ind_backed h (os_ind s) -> sub_bound (os_sub s) b -> isValid h s = Done true ->
  exists l, elements h s = Done l /\ size s = Z.of_nat (length l) /\ lists (at_ h s) l /\
    match b with None => True | Some lp => Forall (.∈ lp) l end.
Proof.
  intros Ht Hb Hsub (Hsz & Hst & Hi & e & He & Hv)%isValid_inv.
  destruct (lists_exists (at_ h s) (Z.to_nat (size s))) as (l & Hl & Hn).
  { intros k Hk. rewrite (set_at_spec h s e k Ht He) by lia. eapply ind_readable; [done|done|lia]. }
  assert (size s = Z.of_nat (length l)) as Hsl by lia.
  exists l. split_and!; [by eapply elements_spec|done..|].
  rewrite (sub_isValid_spec _ _ b _ _ _ _ l) in Hv; [|done|by eapply set_walk|lia].
  destruct b; [|done]. injection Hv as Hv. by apply bool_decide_eq_true in Hv.
Qed.

(** C20: An ordered set is the list of its elements, for every choice of the size, offset,
    stride and subsetting policies and for no indirection or indirection through a
    [std::vector], an [Array] or an [ArrayView] (through a C array, whose length [isValid]
    does not know, it is not).  When [isValid] holds of a set over a buffer that is still
    there, the loop from begin to end ends and visits [size] elements, random access gives
    the same elements without leaving the buffer or overflowing, and comparing with any
    other set compares the lists.  All elements are elements of the parent set if there is
    one with fewer than 2^31 elements, except that an empty set behind a
    [VirtualParentSubset] counts as no parent. *)
Theorem ordered_set_elements h s b : typed s -> ind_backed h (os_ind s) -> sub_bound (os_sub s) b ->
  isValid h s = Done true ->
  exists l, elements h s = Done l /\ size s = Z.of_nat (length l) /\ empty s = bool_decide (l = []) /\
    (forall k, 0 <= k < size s -> exists x, at_ h s k = Done x /\ l.[k] = Some x) /\
    match b with None => True | Some lp => Forall (.∈ lp) l end /\
    forall t lt, set_lists t lt -> set_eq (OrderedSet_as_Set h s) t = Done (bool_decide (l = lt)).
Proof.
  intros Ht Hb Hsub Hv. destruct (valid_elements h s b Ht Hb Hsub Hv) as (l & He & Hn & Hl & Hp).
  exists l. split_and!; [done|done| |by rewrite Hn|done|].
  - unfold empty. rewrite size_empty_spec. fold (size s). rewrite Hn. destruct l; cbn [length].
    + by rewrite bool_decide_true.
    + rewrite bool_decide_false by done. by destruct (Z.eqb_spec (Z.of_nat (S (length l))) 0); [lia|].
  - intros t lt Htl. by apply set_eq_spec.
Qed.
End Ordered.


(** ** Ranges with a stride *)

(** The number of steps of length [str] that stay before the end of a range. *)
Definition range_size (lower upper str : Z) : Z :=
  if (upper - lower =? 0) || negb (Bool.eqb (0 <? upper - lower) (0 <? str)) then 0
  else (Z.abs (upper - lower) + Z.abs str - 1) / Z.abs str.

Lemma range_size_spec lower upper str k : str <> 0 -> 0 <= k ->
  (k < range_size lower upper str <-> (if 0 <? str then lower + k * str < upper else upper < lower + k * str)).
Proof.
  intros Hs Hk. unfold range_size.
  assert (forall d s, 0 < d -> 0 < s -> (k < (d + s - 1) / s <-> k * s < d)) as Hc.
  { intros d s Hd Hs'. pose proof (Z.div_mod (d + s - 1) s ltac:(lia)). pose proof (Z.mod_pos_bound (d + s - 1) s Hs'). nia. }
  destruct (Z.eqb_spec (upper - lower) 0) as [Hd|Hd]; cbn [orb]; [destruct (Z.ltb_spec 0 str); nia|].
  destruct (Z.ltb_spec 0 (upper - lower)), (Z.ltb_spec 0 str); cbn [Bool.eqb negb]; [rewrite Hc by lia|nia..|rewrite Hc by lia].
  - rewrite !Z.abs_eq by lia. lia.
  - rewrite !Z.abs_neq by lia. lia.
Qed.

Lemma range_size_bound lower upper str : str <> 0 -> 0 <= range_size lower upper str <= Z.abs (upper - lower).
Proof.
  intros Hs. unfold range_size. destruct (_ || _) eqn:E; [lia|]. apply orb_false_iff in E as [E%Z.eqb_neq _].
  split; [apply Z.div_pos; lia|]. apply Z.div_le_upper_bound; nia.
Qed.

Definition in_doubles (lower upper str : Z) : Prop :=
  str <> 0 /\ Z.abs str < 2 ^ 53 /\ Z.abs (upper - lower) < 2 ^ 53 /\
  Z.abs lower + Z.abs upper + Z.abs str <= index_max.

Lemma recomputeSize_spec (b : StridedBuilder) : m_hasRange b = true ->
  in_doubles (m_rangeLower b) (m_rangeUpper b) (m_stride (b_stride b)) ->
  recomputeSize b = Done (range_size (m_rangeLower b) (m_rangeUpper b) (m_stride (b_stride b))).
Proof.
  intros Hr (Hs & Hs53 & Hd53 & Hmax). unfold recomputeSize. rewrite Hr. cbn [stride_of RuntimeStride_policy].
  set (lo := m_rangeLower b) in *. set (up_ := m_rangeUpper b) in *. set (str := m_stride (b_stride b)) in *.
  unfold ix_sub. rewrite ix_fits by (apply fits_iff; lia). cbn [mbind outcome_bind].
  rewrite (to_double_exact str), (to_double_exact (up_ - lo)) by done.
  pose proof (range_size_bound lo up_ str Hs) as Hb. unfold range_size in *. destruct (_ || _) eqn:E; [done|].
  apply orb_false_iff in E as [E%Z.eqb_neq _]. destruct (Z.eqb_spec str 0); [done|].
  rewrite ceil_quot_exact by lia. rewrite ix_fits; [done|]. apply fits_iff. lia.
Qed.

(** The set that both orders of [range] and [stride] build. *)
Definition strided_set (lower upper str : Z) : StridedSet :=
  mkOrderedSet (mkRuntimeSize (range_size lower upper str)) (mkRuntimeOffset lower) (mkRuntimeStride str)
    mkNoIndirection mkNoSubset.

(** A set built from a range and a stride, in either order, has exactly the elements
    of the arithmetic progression from the lower end that lie before the upper end, in
    the direction of the stride, although its size is computed in floating point. *)
Theorem strided_range h lower upper str :
  in_doubles lower upper str ->
  exists b1 b2,
    (b ← builder_range (SetBuilder_new : StridedBuilder) lower upper; builder_stride b str) = Done b1 /\
    (b ← builder_stride (SetBuilder_new : StridedBuilder) str; builder_range b lower upper) = Done b2 /\
    OrderedSet_build b1 = strided_set lower upper str /\ OrderedSet_build b2 = strided_set lower upper str /\
    elements h (strided_set lower upper str) =
      Done ((fun k => lower + k * str) <$> seqZ 0 (size (strided_set lower upper str))) /\
    forall k, 0 <= k ->
      (k < size (strided_set lower upper str) <-> (if 0 <? str then lower + k * str < upper else upper < lower + k * str)).
Proof.
  intros Hr. pose proof Hr as (Hs & _ & _ & Hmax).
  assert (in_doubles lower upper 1) as H1 by (destruct Hr as (? & ? & ? & ?); unfold in_doubles; lia). unfold builder_range, builder_stride.
  rewrite !recomputeSize_spec by done. cbn [mbind outcome_bind m_hasRange SetBuilder_new].
  rewrite !recomputeSize_spec by done. cbn [mbind outcome_bind].
  do 2 eexists. split_and!; [done..| |by intros; apply range_size_spec].
  set (s := strided_set lower upper str). set (n := range_size lower upper str).
  pose proof (range_size_bound lower upper str Hs) as Hn. fold n in Hn.
  assert (n * Z.abs str <= Z.abs (upper - lower) + Z.abs str - 1) as Hlast.
  { unfold n, range_size. destruct (_ || _) eqn:E; [lia|]. rewrite Z.mul_comm. apply Z.mul_div_le. lia. }
  assert (fits (n * str) = true /\ fits (n * str + lower) = true) as [Hf1 Hf2].
  { rewrite !fits_iff. unfold n, range_size in *. destruct (_ || _) eqn:E; [lia|]. apply orb_false_iff in E as [E%Z.eqb_neq E2].
    apply negb_false_iff, eqb_prop in E2. destruct (Z.ltb_spec 0 (upper - lower)), (Z.ltb_spec 0 str); try done; lia. }
  assert (end_ s = Done (mkIterator (n * str + lower) s)) as He.
  { unfold end_, ix_mul, ix_add. cbn. fold n. rewrite (ix_fits _ Hf1). cbn. by rewrite (ix_fits _ Hf2). }
  assert (typed s) as Ht by (split; apply fits_iff; cbn; lia).
  apply (elements_spec h s _ _ Ht He Hs).
  - rewrite length_fmap, length_seqZ. cbn. fold n. lia.
  - intros k Hk. rewrite length_fmap, length_seqZ in Hk. cbn in Hk. fold n in Hk. exists (k * str + lower).
    rewrite (set_at_spec h s _ k Ht He) by (cbn; fold n; lia). split; [done|].
    rewrite zlookup_fmap, zlookup_to_nat by lia. rewrite lookup_seqZ_lt by (cbn; fold n; lia). cbn. f_equal. lia.
Qed.

(** ** Dynamic sets *)

(** The number of entries fits an [int], which the loops over a dynamic set count with. *)
Definition dynamic_ok (s : DynamicSet) : Prop := d_size s = Z.of_nat (length (d_data s)) /\ d_size s < 2 ^ 31.

(** The index of the first entry that equals [e]. *)
Fixpoint first_index (e : Z) (l : list Z) : option Z :=
  match l with
  | [] => None
  | x :: l => if x =? e then Some 0 else Z.succ <$> first_index e l
  end.

Lemma first_index_lookup e l i : first_index e l = Some i -> l.[i] = Some e /\ forall j, 0 <= j < i -> l.[j] <> Some e.
Proof.
  revert i. induction l as [|x l IH]; intros i; [done|]. cbn. destruct (Z.eqb_spec x e) as [->|Hne].
  { intros [= <-]. split; [done|]. lia. }
  destruct (first_index e l) as [i'|]; [|done]. cbn. intros [= <-]. destruct (IH i' eq_refl) as [Hi Hm].
  pose proof (zlookup_Some_bounds _ _ _ Hi). split.
  - rewrite zlookup_to_nat in Hi |- * by lia. by replace (Z.to_nat (Z.succ i')) with (S (Z.to_nat i')) by lia.
  - intros j Hj. destruct (decide (j = 0)) as [->|]; [by intros [= ->]|]. specialize (Hm (j - 1) ltac:(lia)).
    rewrite zlookup_to_nat in Hm |- * by lia. by replace (Z.to_nat j) with (S (Z.to_nat (j - 1))) by lia.
Qed.

Lemma first_index_None e l : first_index e l = None <-> e ∉ l.
Proof.
  induction l as [|x l IH]; [set_solver|]. cbn. destruct (Z.eqb_spec x e) as [->|Hne]; [set_solver|].
  destruct (first_index e l); cbn in *; set_solver.
Qed.

Lemma drop_lookup (l : list Z) i x : l.[i] = Some x -> drop (Z.to_nat i) l = x :: drop (Z.to_nat (i + 1)) l.
Proof.
  intros Hx. pose proof (zlookup_Some_bounds _ _ _ Hx). rewrite zlookup_to_nat in Hx by lia.
  replace (Z.to_nat (i + 1)) with (S (Z.to_nat i)) by lia. by apply drop_S.
Qed.

Lemma findIndex_loop_spec s e i : 0 <= i <= Z.of_nat (length (d_data s)) ->
  findIndex_loop s e (up i (Z.of_nat (length (d_data s)))) =
    Done (match first_index e (drop (Z.to_nat i) (d_data s)) with Some j => i + j | None => INVALID_ENTRY end).
Proof.
  intros Hi. remember (Z.to_nat (Z.of_nat (length (d_data s)) - i)) as n eqn:Hn. revert i Hi Hn.
  induction n as [|n IH]; intros i Hi Hn; [by rewrite up_nil, drop_ge by lia|].
  rewrite up_cons by lia. cbn [findIndex_loop]. unfold DynamicSet_at. destruct (zlookup_lt (d_data s) i) as [x Hx]; [lia|].
  rewrite Hx, (drop_lookup _ _ _ Hx). cbn [ub mbind outcome_bind first_index]. destruct (x =? e); [by rewrite Z.add_0_r|].
  rewrite IH by lia. destruct (first_index _ _); cbn; [f_equal; lia|done].
Qed.

Lemma findIndex_spec s e : dynamic_ok s ->
  findIndex s e = Done (match first_index e (d_data s) with Some j => j | None => INVALID_ENTRY end).
Proof.
  intros [Hs Hn]. unfold findIndex. rewrite to_int32_id by lia. rewrite Hs.
  rewrite (findIndex_loop_spec s e 0) by lia. by destruct (first_index e _).
Qed.

Lemma dynamic_contains_spec s e : dynamic_ok s -> contains s e = Done (bool_decide (e ∈ d_data s)).
Proof.
  intros [Hs Hn]. unfold contains. rewrite to_int32_id by lia. rewrite Hs. clear Hs Hn.
  assert (forall n i, n = Z.to_nat (Z.of_nat (length (d_data s)) - i) -> 0 <= i <= Z.of_nat (length (d_data s)) ->
    contains_loop s e (up i (Z.of_nat (length (d_data s)))) = Done (bool_decide (e ∈ drop (Z.to_nat i) (d_data s)))) as Hl.
  { induction n as [|n IH]; intros i Hn Hi.
    - rewrite up_nil, drop_ge by lia. by rewrite bool_decide_false by apply not_elem_of_nil.
    - rewrite up_cons by lia. cbn [contains_loop]. unfold DynamicSet_at. destruct (zlookup_lt (d_data s) i) as [x Hx]; [lia|].
      rewrite Hx, (drop_lookup _ _ _ Hx). cbn [ub mbind outcome_bind]. destruct (Z.eqb_spec x e) as [->|Hne].
      + by rewrite bool_decide_true by (left; done).
      + rewrite IH by lia. f_equal. apply bool_decide_ext. rewrite elem_of_cons. clear -Hne. intuition congruence. }
  by rewrite (Hl _ 0 eq_refl) by lia.
Qed.

Lemma numberOfValidEntries_spec s : dynamic_ok s ->
  DynamicSet_numberOfValidEntries s = Done (Z.of_nat (length (filter (fun x => x <> INVALID_ENTRY) (d_data s)))).
Proof.
  intros [Hs Hn]. unfold DynamicSet_numberOfValidEntries. rewrite to_int32_id by lia. pose proof index_max_lower.
  destruct (for_up_inv (fun i c => c = Z.of_nat (length (filter (fun x => x <> INVALID_ENTRY) (take (Z.to_nat i) (d_data s))))) 0 (d_size s)
    (fun i nvalid => x ← DynamicSet_at s i; ix_add nvalid (if negb (x =? INVALID_ENTRY) then 1 else 0)) 0) as (r & -> & ->).
  - lia.
  - done.
  - intros i c Hi ->. destruct (zlookup_lt (d_data s) i) as [x Hx]; [lia|]. unfold DynamicSet_at. rewrite Hx. cbn [ub mbind outcome_bind].
    rewrite zlookup_to_nat in Hx by lia. replace (Z.to_nat (i + 1)) with (S (Z.to_nat i)) by lia.
    rewrite (take_S_r _ _ x Hx), filter_app, length_app.
    pose proof (length_filter (fun x => x <> INVALID_ENTRY) (take (Z.to_nat i) (d_data s))) as Hle. rewrite length_take in Hle.
    unfold ix_add. destruct (Z.eqb_spec x INVALID_ENTRY) as [->|Hne]; cbn [negb];
      rewrite ix_small by lia; (eexists; split; [done|]); rewrite filter_cons, filter_nil; case_decide; try done; cbn; lia.
  - by rewrite Hs, Nat2Z.id, firstn_all.
Qed.

Lemma fill_array_default_spec l n : 0 <= n < 2 ^ 31 -> fill_array_default l n = Done (seqZ 0 n).
Proof.
  intros Hn. unfold fill_array_default. destruct (Z.ltb_spec n 0); [lia|]. set (l0 := take _ l ++ _).
  assert (Z.of_nat (length l0) = n) as Hl0 by (unfold l0; rewrite length_app, length_take, length_replicate; lia).
  destruct (for_up_inv (fun i r => length r = length l0 /\ take (Z.to_nat i) r = seqZ 0 i) 0 n
    (fun i l => if i <? 2 ^ 31 then ub (zupdate l i i) else Undefined) l0) as (r & -> & Hr & Ht).
  - lia.
  - done.
  - intros i r Hi [Hr Ht]. destruct (Z.ltb_spec i (2 ^ 31)); [|lia].
    rewrite zupdate_lt by lia. cbn. eexists. split; [done|]. rewrite length_insert. split; [done|].
    replace (Z.to_nat (i + 1)) with (S (Z.to_nat i)) by lia.
    rewrite (take_S_r _ _ i) by (apply list_lookup_insert_eq; lia). rewrite take_insert_ge by lia. rewrite Ht, seqZ_app by lia. done.
  - f_equal. rewrite <- Ht. rewrite take_ge; [done|lia].
Qed.

Lemma DynamicSet_insert_spec s v : dynamic_ok s -> d_size s + 1 < 2 ^ 31 ->
  DynamicSet_insert s v = Done (mkDynamicSet (d_size s + 1) (d_data s ++ [v]), d_size s) /\
  dynamic_ok (mkDynamicSet (d_size s + 1) (d_data s ++ [v])).
Proof.
  intros [Hs Hn] Hb. pose proof index_max_lower. unfold DynamicSet_insert. rewrite length_app. cbn [length].
  rewrite ix_small by lia. cbn. replace (Z.of_nat (length (d_data s) + 1)) with (d_size s + 1) by lia.
  split; [by replace (d_size s + 1 - 1) with (d_size s) by lia|]. split; cbn; [|lia]. rewrite length_app. cbn. lia.
Qed.

Lemma DynamicSet_update_spec s i x : dynamic_ok s -> 0 <= i < d_size s ->
  DynamicSet_update s i x = Done (mkDynamicSet (d_size s) (<[Z.to_nat i := x]> (d_data s))) /\
  dynamic_ok (mkDynamicSet (d_size s) (<[Z.to_nat i := x]> (d_data s))).
Proof.
  intros [Hs Hn] Hi. unfold DynamicSet_update. rewrite zupdate_lt by lia. split; [done|]. split; cbn; [|done].
  by rewrite length_insert.
Qed.

Lemma DynamicSet_isValidEntry_spec s i : dynamic_ok s ->
  DynamicSet_isValidEntry s i = Done (match (d_data s).[i] with Some x => negb (x =? INVALID_ENTRY) | None => false end).
Proof.
  intros [Hs Hn]. unfold DynamicSet_isValidEntry, DynamicSet_at. destruct (Z.leb_spec 0 i), (Z.ltb_spec i (d_size s)); cbn [andb].
  - destruct (zlookup_lt (d_data s) i) as [x ->]; [lia|done].
  - by rewrite (proj2 (zlookup_None (d_data s) i)) by lia.
  - by rewrite (proj2 (zlookup_None (d_data s) i)) by lia.
  - by rewrite (proj2 (zlookup_None (d_data s) i)) by lia.
Qed.

(** The operations that change a dynamic set. *)
Inductive set_op := OpInsert (v : Z) | OpInsertNext | OpRemove (i : Z) | OpAssign (i x : Z) | OpReset (n : Z).

Definition set_exec (s : DynamicSet) (op : set_op) : outcome DynamicSet :=
  match op with
  | OpInsert v => '(s, _) ← DynamicSet_insert s v; Done s
  | OpInsertNext => '(s, _) ← DynamicSet_insert_next s; Done s
  | OpRemove i => DynamicSet_remove s i
  | OpAssign i x => DynamicSet_update s i x
  | OpReset n => DynamicSet_reset s n
  end.

Fixpoint set_run (s : DynamicSet) (ops : list set_op) : outcome DynamicSet :=
  match ops with [] => Done s | op :: ops => s ← set_exec s op; set_run s ops end.

(** The same on lists, where indices are in range and the length fits an [int]. *)
Definition list_exec (l : list Z) (op : set_op) : option (list Z) :=
  let n := Z.of_nat (length l) in
  match op with
  | OpInsert v => if n + 1 <? 2 ^ 31 then Some (l ++ [v]) else None
  | OpInsertNext => if n + 1 <? 2 ^ 31 then Some (l ++ [n]) else None
  | OpRemove i => zupdate l i (-1)
  | OpAssign i x => zupdate l i x
  | OpReset n => if (0 <=? n) && (n <? 2 ^ 31) then Some (seqZ 0 n) else None
  end.

Fixpoint list_run (l : list Z) (ops : list set_op) : option (list Z) :=
  match ops with [] => Some l | op :: ops => l ← list_exec l op; list_run l ops end.

Lemma set_exec_spec s op l : dynamic_ok s -> list_exec (d_data s) op = Some l ->
  exists s', set_exec s op = Done s' /\ d_data s' = l /\ dynamic_ok s'.
Proof.
  intros Hok Hl. pose proof Hok as [Hs Hn]. destruct op as [v| |i|i x|n]; cbn [list_exec set_exec] in *.
  1, 2: destruct (Z.ltb_spec (Z.of_nat (length (d_data s)) + 1) (2 ^ 31)); [|done]; injection Hl as <-.
  - destruct (DynamicSet_insert_spec s v Hok ltac:(lia)) as [-> Hok']. by eexists.
  - unfold DynamicSet_insert_next. destruct (DynamicSet_insert_spec s (d_size s) Hok ltac:(lia)) as [-> Hok'].
    eexists. split; [done|]. cbn. by rewrite Hs in *.
  - apply zupdate_Some in Hl as [Hi ->]. unfold DynamicSet_remove.
    destruct (DynamicSet_update_spec s i INVALID_ENTRY Hok ltac:(lia)) as [-> Hok']. by eexists.
  - apply zupdate_Some in Hl as [Hi ->]. destruct (DynamicSet_update_spec s i x Hok ltac:(lia)) as [-> Hok']. by eexists.
  - destruct (Z.leb_spec 0 n), (Z.ltb_spec n (2 ^ 31)); cbn in Hl; try done. injection Hl as <-.
    unfold DynamicSet_reset. rewrite fill_array_default_spec by lia. eexists. split; [done|]. split; [done|].
    split; cbn; [rewrite length_seqZ|]; lia.
Qed.

(** C23: A dynamic set behaves as a list of entries in which removed entries are marked.
    Every program of insertions, removals, assignments and resets whose indices are in
    range gives the list that the same program on lists gives; [findIndex] finds the first
    entry with a value, [contains] decides membership, the number of valid entries is
    that of the entries not marked, and [isValidEntry] decides for any index. *)
Theorem dynamic_set_refines_list n ops l : 0 <= n < 2 ^ 31 -> list_run (seqZ 0 n) ops = Some l ->
  exists s, (s0 ← DynamicSet_make n; set_run s0 ops) = Done s /\ set_lists (DynamicSet_as_Set s) l /\
    (forall e, findIndex s e = Done (match first_index e l with Some i => i | None => INVALID_ENTRY end)) /\
    (forall e, contains s e = Done (bool_decide (e ∈ l))) /\
    DynamicSet_numberOfValidEntries s = Done (Z.of_nat (length (filter (fun x => x <> INVALID_ENTRY) l))) /\
    (forall i, DynamicSet_isValidEntry s i =
      Done (match l.[i] with Some x => negb (x =? INVALID_ENTRY) | None => false end)).
Proof.
  intros Hn Hrun. unfold DynamicSet_make. rewrite fill_array_default_spec by done. cbn [mbind outcome_bind].
  assert (dynamic_ok (mkDynamicSet n (seqZ 0 n))) as Hok by (split; cbn; [rewrite length_seqZ|]; lia).
  assert (forall ops s, dynamic_ok s -> list_run (d_data s) ops = Some l ->
    exists s', set_run s ops = Done s' /\ d_data s' = l /\ dynamic_ok s') as Hr.
  { clear. induction ops as [|op ops IH]; intros s Hok Hl; cbn in *; [injection Hl as <-; eauto|].
    destruct (list_exec (d_data s) op) as [l'|] eqn:E; [|done]. destruct (set_exec_spec s op l' Hok E) as (s' & -> & <- & Hok').
    by apply IH. }
  destruct (Hr ops _ Hok Hrun) as (s & -> & <- & Hs). exists s. split; [done|]. split_and!.
  - pose proof Hs as [Hsz _]. split; [done|]. intros k Hk. cbn. unfold DynamicSet_at.
    destruct (zlookup_lt (d_data s) k Hk) as [x ->]. by exists x.
  - intros e. by apply findIndex_spec.
  - intros e. by apply dynamic_contains_spec.
  - by apply numberOfValidEntries_spec.
  - intros i. by apply DynamicSet_isValidEntry_spec.
Qed.

End Sets.

(** ** Modular integers *)

#[local] Existing Instance int_bits.

Section Modular.
Context {Sz : Type} `{!SizePolicy Sz}.
Implicit Types m : ModularInt Sz.

(** The modulus is positive, the value an [int]. *)
Lemma normalize_spec m : 0 < modulus m <= index_max -> fits (m_val m) = true ->
  normalize m = Done (mkModularInt (mi_size m) (m_val m mod modulus m)).
Proof.
  intros Hm Hv%fits_iff. unfold normalize, ix_rem. cbv zeta. set (v := m_val m) in *. set (n := modulus m) in *. clearbody v n.
  destruct (Z.eqb_spec n 0); [lia|]. pose proof (Z.quot_rem v n ltac:(lia)) as Hq.
  pose proof (Z.rem_bound_abs v n ltac:(lia)) as Hr. rewrite (Z.abs_eq n) in Hr by lia.
  assert (fits (Z.quot v n) = true) as Hf.
  { apply fits_iff. destruct (Z.le_ge_cases 0 v).
    - pose proof (Z.rem_bound_pos v n). pose proof (Z.quot_pos v n). nia.
    - replace v with (- - v) by lia. rewrite Z.quot_opp_l by lia. pose proof (Z.quot_pos (- v) n).
      pose proof (Z.quot_rem (- v) n). pose proof (Z.rem_bound_pos (- v) n). nia. }
  rewrite (ix_fits _ Hf). cbn [mbind outcome_bind]. destruct (Z.ltb_spec (Z.rem v n) 0) as [Hlt|Hge].
  - unfold ix_add. rewrite ix_fits by (apply fits_iff; lia). cbn [mbind outcome_bind]. do 2 f_equal.
    apply (Z.mod_unique _ _ (Z.quot v n - 1)); [left|]; lia.
  - cbn [mbind outcome_bind]. do 2 f_equal. apply (Z.mod_unique _ _ (Z.quot v n)); [left|]; lia.
Qed.

(** Modular integers compute in the ring of residues.  For a positive modulus and an
    operation whose intermediate result is an [int], adding, subtracting and multiplying
    give the result reduced to the range from 0 to the modulus; an intermediate result
    that is not an [int] is undefined. *)
Theorem modular_int_ring m n : 0 < modulus m <= index_max ->
  let canonical v := Done (mkModularInt (mi_size m) (v mod modulus m)) in
  (fits (m_val m + n) = true -> mi_plus m n = canonical (m_val m + n)) /\
  (fits (m_val m - n) = true -> mi_minus m n = canonical (m_val m - n)) /\
  (fits (m_val m * n) = true -> mi_times m n = canonical (m_val m * n)) /\
  (fits (m_val m * n) = false -> mi_times m n = Undefined) /\
  (0 <= m_val m < modulus m -> mi_decr m = canonical (m_val m - 1) /\
    (m_val m < index_max -> mi_incr m = canonical (m_val m + 1))).
Proof.
  intros Hm canonical.
  assert (forall v, fits v = true -> (v' ← ix v; normalize (mkModularInt (mi_size m) v')) = canonical v) as Hc.
  { intros v Hv. rewrite (ix_fits _ Hv). cbn [mbind outcome_bind].
    by rewrite (normalize_spec (mkModularInt (mi_size m) v) Hm Hv). }
  split_and!; [apply Hc..| |].
  - intros Hf. unfold mi_times, mi_multiply, ix_mul, ix. by rewrite Hf.
  - intros Hv. split; [|intros Hlt]; apply Hc, fits_iff; lia.
Qed.
End Modular.

(** *** Examples *)

Definition residue (n v : Z) : outcome (ModularInt RuntimeSize) := ModularInt_make v n.

(** With the integer on the left, subtraction still subtracts the integer: 1 - 3 modulo 5
    is 3, and the operator gives 2. *)
Example modular_minus_left :
  (zn ← residue 5 3; r ← mi_minus_l 1 zn; Done (m_val r)) = Done 2 /\ (1 - 3) mod 5 = 3.
Proof. by vm_compute. Qed.

Lemma modular_int_ring_witness :
  mi_times (mkModularInt (mkRuntimeSize 7) 5) (-4) = Done (mkModularInt (mkRuntimeSize 7) 1).
Proof.
  destruct (modular_int_ring (mkModularInt (mkRuntimeSize 7) 5) (-4)) as (_ & _ & Ht & _); [by vm_compute|].
  by rewrite Ht.
Defined.

Lemma strided_range_witness :
  exists b1 b2, (b ← builder_range (SetBuilder_new : StridedBuilder) 10 2; builder_stride b (-3)) = Done b1 /\
    (b ← builder_stride (SetBuilder_new : StridedBuilder) (-3); builder_range b 10 2) = Done b2 /\
    OrderedSet_build b1 = strided_set 10 2 (-3) /\ elements ∅ (strided_set 10 2 (-3)) = Done [10; 7; 4].
Proof.
  destruct (strided_range ∅ 10 2 (-3)) as (b1 & b2 & H1 & H2 & H3 & _ & H5 & _); [by vm_compute|]. eauto 10.
Defined.

Lemma dynamic_set_refines_list_witness :
  exists s, (s0 ← DynamicSet_make 3; set_run s0 [OpInsert 7; OpRemove 1; OpInsertNext]) = Done s /\
    set_lists (DynamicSet_as_Set s) [0; -1; 2; 7; 4].
Proof.
  destruct (dynamic_set_refines_list 3 [OpInsert 7; OpRemove 1; OpInsertNext] [0; -1; 2; 7; 4]) as (s & Hs & Hl & _);
    [done|by vm_compute|]. by exists s.
Defined.

(** Every third entry of a buffer, from the end, as a subset of the set of positions. *)
Definition every_third : OrderedSet RuntimeSize RuntimeOffset RuntimeStride STLVectorIndirection ConcreteParentSubset :=
  mkOrderedSet (mkRuntimeSize 3) (mkRuntimeOffset 7) (mkRuntimeStride (-3)) (mkSTLVectorIndirection (Some 1))
    (mkConcreteParentSubset (Some (OrderedSet_as_Set ∅ (PositionSet_make 8)))).

Definition eight : Heap := {[ 1 := [7; 6; 5; 4; 3; 2; 1; 0] ]}.

Lemma ordered_set_elements_witness :
  exists l, elements eight every_third = Done l /\ Forall (.∈ seqZ 0 8) l.
Proof.
  destruct (ordered_set_elements eight every_third (Some (seqZ 0 8))) as (l & Hl & _ & _ & _ & Hp & _).
  - by vm_compute.
  - intros b [= <-]. by eexists.
  - split; [|by vm_compute]. split; [done|]. intros k Hk. change (Z.of_nat (length (seqZ 0 8))) with 8 in Hk. exists k.
    assert (k = 0 \/ k = 1 \/ k = 2 \/ k = 3 \/ k = 4 \/ k = 5 \/ k = 6 \/ k = 7) as Hc by lia.
    by destruct Hc as [->|[->|[->|[->|[->|[->|[->| ->]]]]]]].
  - by vm_compute.
  - by exists l.
Defined.

(** A child of an empty parent passes the check of [VirtualParentSubset], because an
    empty parent counts as none. *)
Example empty_parent_accepts :
  isValid ∅ (mkOrderedSet (mkRuntimeSize 2) (mkRuntimeOffset 0) (mkCompileTimeStride (INT_VAL := 1)) mkNoIndirection
    (mkVirtualParentSubset (Some (OrderedSet_as_Set ∅ (PositionSet_make 0))))) = Done true.
Proof. by vm_compute. Qed.

(** A null parent is dereferenced before it is tested. *)
Example null_parent_undefined :
  isValid ∅ (mkOrderedSet (mkRuntimeSize 2) (mkRuntimeOffset 0) (mkCompileTimeStride (INT_VAL := 1)) mkNoIndirection
    (mkVirtualParentSubset None)) = Undefined.
Proof. by vm_compute. Qed.

(** The difference of two iterators is in the index space, not in positions. *)
Example iterator_difference :
  (e ← end_ (strided_set 0 10 5); it_diff e (begin_ (strided_set 0 10 5))) = Done 10 /\ size (strided_set 0 10 5) = 2.
Proof. by vm_compute. Qed.

End SlamSetTheorems.
