(* ===== verification/SlamRelations.v ===== *)
(** * Relations of slam

    [CardinalityPolicies.hpp], [StaticRelation.hpp], [DynamicConstantRelation.hpp] and
    [DynamicVariableRelation.hpp].  A relation gives for every position of its from-set
    the positions of its to-set that are related.

    A static relation keeps the related positions of all elements in one buffer and finds
    those of an element by its cardinality policy.  The dynamic relations own their data.
    Relations never change their sets; the dynamic ones, whose sets may change, take the
    current sets as arguments. *)

From S2P Require Import Prelude Outcome SlamPolicies SlamSets.

Module SlamRelations.
Import Outcome SlamPolicies SlamSets.

(** [EmptySetTraits]: the empty set is a null pointer, and for the abstract base class
    the null set. *)
Definition emptySet (abstract : bool) : option Set_ := if abstract then Some NullSet else None.

Definition ptr_isEmpty (s : option Set_) : bool := match s with None => true | Some s => set_isEmpty s end.

(** [StrideToSize]: the size policy of a row, given the stride policy of a constant
    cardinality. *)
Class StrideToSize (Str : Type) := { SizeType : Type; SizeType_policy :: SizePolicy SizeType }.

#[export] Instance RuntimeStride_to_size : StrideToSize RuntimeStride := { SizeType := RuntimeSize }.
#[export] Instance CompileTimeStride_to_size v : StrideToSize (CompileTimeStride v) := { SizeType := CompileTimeSize v }.

Section Relations.
Context {IB : IndexBits}.

(** A loop variable of type [int]. *)
Definition int_index (i : Z) : outcome Z := if i <? 2 ^ 31 then Done i else Undefined.

(** ** Cardinality policies *)

Class CardinalityPolicy (C : Type) := {
  RowSize : Type;
  RowSize_policy :: SizePolicy RowSize;
  BeginsBuilder : Type;
  card_default : C;
  card_make : Z -> C;
  card_build : Z -> BeginsBuilder -> outcome C;
  card_size : Heap -> C -> Z -> outcome Z;
  card_offset : Heap -> C -> Z -> outcome Z;
  firstIndex : Heap -> C -> Z -> outcome Z;
  totalSize : Heap -> C -> outcome Z;
  card_isValid : Heap -> C -> Z -> outcome bool }.

(** *** The same number of related elements for all *)

Section Constant.
Context {Str : Type} `{!StridePolicy Str, !StrideToSize Str}.
Notation BeginsSet := (OrderedSet RuntimeSize ZeroOffset Str NoIndirection NoSubset).

Record ConstantCardinality := mkConstantCardinality { c_begins : BeginsSet }.

Definition ConstantCardinality_size (c : ConstantCardinality) : Z := stride (c_begins c).

Definition ConstantCardinality_bindBeginOffsets (fromSetSize str : Z) : outcome ConstantCardinality :=
  b ← builder_stride (builder_size SetBuilder_new fromSetSize) str; Done (mkConstantCardinality (OrderedSet_build b)).

#[export] Instance ConstantCardinality_policy : CardinalityPolicy ConstantCardinality := {
  RowSize := SizeType;
  BeginsBuilder := SetBuilder (Sz := RuntimeSize) (Off := ZeroOffset) (Str := Str) (Ind := NoIndirection) (Sub := NoSubset);
  card_default := mkConstantCardinality OrderedSet_default;
  card_make n := mkConstantCardinality (OrderedSet_of_size n);
  card_build n b := Done (mkConstantCardinality (OrderedSet_build (builder_size b n)));
  card_size _ c _ := Done (stride (c_begins c));
  card_offset h c fromPos := at_ h (c_begins c) fromPos;
  firstIndex _ c off := ix_div off (stride (c_begins c));
  totalSize _ c := ix_mul (stride (c_begins c)) (size (c_begins c));
  card_isValid _ c n := Done (size (c_begins c) =? n) }.
End Constant.

(** *** Begin offsets of all elements, and the end *)

Section Variable_.
Context {Ind : Type} `{!IndirectionPolicy Ind}.
Notation BeginsSet := (OrderedSet RuntimeSize ZeroOffset StrideOne Ind NoSubset).

Definition begins_offset (h : Heap) (begins : BeginsSet) (fromPos : Z) : outcome Z := at_ h begins fromPos.

Definition begins_size (h : Heap) (begins : BeginsSet) (fromPos : Z) : outcome Z :=
  p ← ix_add fromPos 1; b ← begins_offset h begins p; a ← begins_offset h begins fromPos; ix_sub b a.

Definition begins_total (h : Heap) (begins : BeginsSet) : outcome Z :=
  if empty begins then Done 0 else last ← ix_sub (size begins) 1; begins_offset h begins last.

Definition begins_isValid (h : Heap) (begins : BeginsSet) (fromSetSize : Z) : outcome bool :=
  n ← ix_add fromSetSize 1;
  if negb (size begins =? n) then Done false
  else ind_isValid h (os_ind begins) (size begins) (offset begins) (stride begins).

Definition bind_set (n : Z) (data : IndirectionPtr) : BeginsSet := OrderedSet_build (builder_data (builder_size SetBuilder_new n) data).

Record VariableCardinality := mkVariableCardinality { v_begins : BeginsSet }.

Definition VariableCardinality_bindBeginOffsets (fromSetSize : Z) (data : IndirectionPtr) : outcome VariableCardinality :=
  n ← ix_add fromSetSize 1; Done (mkVariableCardinality (bind_set n data)).

(** The search of [firstIndex]. *)
Fixpoint firstIndex_loop (h : Heap) (begins : BeginsSet) (relationOffset : Z) (l : list Z) : outcome Z :=
  match l with
  | [] => Done (-1)
  | firstIdx :: l =>
    p ← ix_add firstIdx 1; o ← begins_offset h begins p;
    if relationOffset <? o then Done firstIdx else firstIndex_loop h begins relationOffset l
  end.

#[export] Instance VariableCardinality_policy : CardinalityPolicy VariableCardinality := {
  RowSize := RuntimeSize;
  BeginsBuilder := SetBuilder (Sz := RuntimeSize) (Off := ZeroOffset) (Str := StrideOne) (Ind := Ind) (Sub := NoSubset);
  card_default := mkVariableCardinality OrderedSet_default;
  card_make n := mkVariableCardinality (OrderedSet_of_size n);
  card_build n b := n ← ix_add n 1; Done (mkVariableCardinality (OrderedSet_build (builder_size b n)));
  card_size h c := begins_size h (v_begins c);
  card_offset h c := begins_offset h (v_begins c);
  firstIndex h c off := n ← ix_sub (size (v_begins c)) 1; firstIndex_loop h (v_begins c) off (up 0 n);
  totalSize h c := begins_total h (v_begins c);
  card_isValid h c := begins_isValid h (v_begins c) }.

(** *** With the element of every related position in a second buffer *)

Record MappedVariableCardinality := mkMapped { m_firstIndexes : BeginsSet; m_begins : BeginsSet }.

Definition Mapped_bindBeginOffsets (c : MappedVariableCardinality) (fromSetSize : Z) (data : IndirectionPtr) :
    outcome MappedVariableCardinality :=
  n ← ix_add fromSetSize 1; Done (mkMapped (m_firstIndexes c) (bind_set n data)).

#[export] Instance MappedVariableCardinality_policy : CardinalityPolicy MappedVariableCardinality := {
  RowSize := RuntimeSize;
  BeginsBuilder := SetBuilder (Sz := RuntimeSize) (Off := ZeroOffset) (Str := StrideOne) (Ind := Ind) (Sub := NoSubset);
  card_default := mkMapped OrderedSet_default OrderedSet_default;
  card_make n := mkMapped OrderedSet_default (OrderedSet_of_size n);
  card_build n b := n ← ix_add n 1; Done (mkMapped OrderedSet_default (OrderedSet_build (builder_size b n)));
  card_size h c := begins_size h (m_begins c);
  card_offset h c := begins_offset h (m_begins c);
  firstIndex h c off := at_ h (m_firstIndexes c) off;
  totalSize h c := begins_total h (m_begins c);
  card_isValid h c := begins_isValid h (m_begins c) }.

Context `{!BufferIndirection Ind}.

(** Writing an element of a set. *)
Definition assign (h : Heap) (s : BeginsSet) (pos x : Z) : outcome Heap :=
  m ← ix_mul pos (stride s); p ← ix_add m (offset s); buf_write h (os_ind s) p x.

(** The loops of [bindFirstIndices] count in [int]; a begin offset is converted to [int]. *)
Definition Mapped_bindFirstIndices (h : Heap) (c : MappedVariableCardinality) (relationSize : Z) (data : IndirectionPtr)
    (fillIndices : bool) : outcome (Heap * MappedVariableCardinality) :=
  n ← ix_add relationSize 1;
  let c := mkMapped (bind_set n data) (m_begins c) in
  if fillIndices then
    last ← ix_sub (size (m_begins c)) 1;
    h ← for_each (up 0 last) (fun fromIdx h =>
      fromIdx ← int_index fromIdx;
      off ← begins_offset h (m_begins c) fromIdx;
      let beginIdx := to_int32 off in
      n ← begins_size h (m_begins c) fromIdx;
      for_each (up 0 n) (fun slotIdx h =>
        slotIdx ← int_index slotIdx;
        p ← int_index (slotIdx + beginIdx);
        assign h (m_firstIndexes c) p fromIdx) h) h;
    Done (h, c)
  else Done (h, c).
End Variable_.

(** The set of the elements related to one, as [operator[]] builds it. *)
Definition build_row {Sz Ind : Type} `{!SizePolicy Sz, !IndirectionPolicy Ind} (n o : Z) (data : IndirectionPtr (P := Ind)) :
    OrderedSet Sz RuntimeOffset StrideOne Ind NoSubset :=
  OrderedSet_build (builder_data (builder_offset (builder_size SetBuilder_new n) o) data).

(** ** [StaticRelation] *)

Section Static.
Context {C Ind : Type} `{!CardinalityPolicy C, !IndirectionPolicy Ind}.
Notation IndicesSet := (OrderedSet RuntimeSize ZeroOffset StrideOne Ind NoSubset).
Notation RelationSubset := (OrderedSet RowSize RuntimeOffset StrideOne Ind NoSubset).

Record StaticRelation := mkStaticRelation {
  r_card : C; r_fromSet : option Set_; r_toSet : option Set_; m_relationIndices : IndicesSet }.

Definition StaticRelation_default (abstract : bool) : StaticRelation :=
  mkStaticRelation card_default (emptySet abstract) (emptySet abstract) OrderedSet_default.

Definition StaticRelation_make (fromSet toSet : option Set_) : outcome StaticRelation :=
  n ← (if ptr_isEmpty fromSet then Done 0 else s ← ub fromSet; Done (set_size s));
  Done (mkStaticRelation (card_make n) fromSet toSet OrderedSet_default).

Record RelationBuilder := mkRelationBuilder {
  rb_fromSet : option Set_; rb_toSet : option Set_; rb_card : C;
  rb_indices : SetBuilder (Sz := RuntimeSize) (Off := ZeroOffset) (Str := StrideOne) (Ind := Ind) (Sub := NoSubset) }.

Definition RelationBuilder_new (abstract : bool) : RelationBuilder :=
  mkRelationBuilder (emptySet abstract) (emptySet abstract) card_default SetBuilder_new.

Definition builder_fromSet (h : Heap) (b : RelationBuilder) (pFromSet : option Set_) : outcome RelationBuilder :=
  n ← totalSize h (rb_card b);
  if (n =? 0) && negb (ptr_isEmpty pFromSet) then
    s ← ub pFromSet; Done (mkRelationBuilder pFromSet (rb_toSet b) (card_make (set_size s)) (rb_indices b))
  else Done (mkRelationBuilder pFromSet (rb_toSet b) (rb_card b) (rb_indices b)).

Definition builder_toSet (b : RelationBuilder) (pToSet : option Set_) : RelationBuilder :=
  mkRelationBuilder (rb_fromSet b) pToSet (rb_card b) (rb_indices b).

Definition builder_begins (b : RelationBuilder) (beginsBuilder : BeginsBuilder) : outcome RelationBuilder :=
  s ← ub (rb_fromSet b); c ← card_build (set_size s) beginsBuilder;
  Done (mkRelationBuilder (rb_fromSet b) (rb_toSet b) c (rb_indices b)).

Definition builder_indices (b : RelationBuilder)
    (i : SetBuilder (Sz := RuntimeSize) (Off := ZeroOffset) (Str := StrideOne) (Ind := Ind) (Sub := NoSubset)) : RelationBuilder :=
  mkRelationBuilder (rb_fromSet b) (rb_toSet b) (rb_card b) i.

Definition StaticRelation_build (b : RelationBuilder) : StaticRelation :=
  mkStaticRelation (rb_card b) (rb_fromSet b) (rb_toSet b) (OrderedSet_build (rb_indices b)).

(** [operator[]]: the set of elements related to an element, over the same buffer. *)
Definition row (h : Heap) (r : StaticRelation) (fromSetInd : Z) : outcome RelationSubset :=
  n ← card_size h (r_card r) fromSetInd; o ← card_offset h (r_card r) fromSetInd;
  Done (build_row n o (ptr (m_relationIndices r))).

Definition hasFromSet (r : StaticRelation) : bool := negb (ptr_isEmpty (r_fromSet r)).
Definition hasToSet (r : StaticRelation) : bool := negb (ptr_isEmpty (r_toSet r)).

Definition bindIndices (r : StaticRelation) (n : Z) (data : IndirectionPtr) : StaticRelation :=
  mkStaticRelation (r_card r) (r_fromSet r) (r_toSet r) (OrderedSet_build (builder_data (builder_size SetBuilder_new n) data)).

Definition StaticRelation_isValid (h : Heap) (r : StaticRelation) : outcome bool :=
  if ptr_isEmpty (r_fromSet r) || ptr_isEmpty (r_toSet r) then Done false
  else
    from ← ub (r_fromSet r); to ← ub (r_toSet r);
    cardinalityIsValid ← card_isValid h (r_card r) (set_size from);
    if negb (cardinalityIsValid : bool) then Done false
    else
      let indices := m_relationIndices r in
      total ← totalSize h (r_card r);
      let ok := size indices =? total in
      ok ← (if negb (empty indices) then
              for_each (up 0 (set_size from)) (fun pos ok =>
                off ← card_offset h (r_card r) pos;
                Done (ok && (isValidIndex indices off || (off =? size indices)))) ok
            else Done ok);
      for_each (up 0 (size indices)) (fun pos ok =>
        el ← at_ h indices pos; Done (ok && negb ((el <? 0) || (set_size to <=? el)))) ok.
End Static.

(** ** [DynamicVariableRelation] *)

Record DynamicVariableRelation := mkDynamicVariable { dv_relationsVec : list (list Z) }.

Definition DynamicVariable_make (fromSet : option Set_) : outcome DynamicVariableRelation :=
  match fromSet with
  | None => Done (mkDynamicVariable [])
  | Some s => if set_size s <? 0 then Aborted else Done (mkDynamicVariable (replicate (Z.to_nat (set_size s)) []))
  end.

Definition DynamicVariable_row (r : DynamicVariableRelation) (fromSetIndex : Z) : outcome (list Z) :=
  ub (dv_relationsVec r).[fromSetIndex].

Definition DynamicVariable_size (r : DynamicVariableRelation) (fromSetIndex : Z) : outcome Z :=
  l ← DynamicVariable_row r fromSetIndex; Done (Z.of_nat (length l)).

Definition DynamicVariable_totalSize (r : DynamicVariableRelation) : outcome Z :=
  foldl (fun acc vec => sz ← acc; ix_add sz (Z.of_nat (length vec))) (Done 0) (dv_relationsVec r).

Definition DynamicVariable_fromSetSize (r : DynamicVariableRelation) : Z := Z.of_nat (length (dv_relationsVec r)).

Definition DynamicVariable_insert (r : DynamicVariableRelation) (fromSetIndex toSetIndex : Z) : outcome DynamicVariableRelation :=
  l ← DynamicVariable_row r fromSetIndex;
  v ← ub (zupdate (dv_relationsVec r) fromSetIndex (l ++ [toSetIndex])); Done (mkDynamicVariable v).

(** Assigning to the vector that [operator[]] or [data] refers to. *)
Definition DynamicVariable_assign (r : DynamicVariableRelation) (fromSetIndex : Z) (l : list Z) : outcome DynamicVariableRelation :=
  v ← ub (zupdate (dv_relationsVec r) fromSetIndex l); Done (mkDynamicVariable v).

Definition DynamicVariable_isValid (r : DynamicVariableRelation) (fromSet toSet : option Set_) : outcome bool :=
  match fromSet, toSet with
  | Some from, Some to =>
    if set_isEmpty from || set_isEmpty to then Done (bool_decide (dv_relationsVec r = []))
    else
      for_each (up 0 (set_size from)) (fun fromIdx ok =>
        l ← DynamicVariable_row r fromIdx;
        Done (ok && forallb (fun x => negb (set_size to <=? x)) l)) (DynamicVariable_fromSetSize r =? set_size from)
  | _, _ => Done (bool_decide (dv_relationsVec r = []))
  end.

(** ** [DynamicConstantRelation] *)

Section DynamicConstant.
Context {Str : Type} `{!StridePolicy Str, !StrideToSize Str}.

Definition INVALID_INDEX : Z := -1.

Record DynamicConstantRelation := mkDynamicConstant {
  dc_card : ConstantCardinality (Str := Str); m_relationsVec : list Z; m_currentFromSize : Z }.

Definition relationCardinality (r : DynamicConstantRelation) : Z := ConstantCardinality_size (dc_card r).

(** [std::vector::resize(n, value)]; a negative number becomes a size that is too large. *)
Definition vector_resize {A} (l : list A) (n : Z) (value : A) : outcome (list A) :=
  if n <? 0 then Aborted else Done (take (Z.to_nat n) l ++ replicate (Z.to_nat n - length l) value).

Definition updateSizes (r : DynamicConstantRelation) (from : option DynamicSet) : outcome DynamicConstantRelation :=
  s ← ub from; n ← ix_mul (d_size s) (relationCardinality r);
  v ← vector_resize (m_relationsVec r) n INVALID_INDEX; Done (mkDynamicConstant (dc_card r) v (d_size s)).

Definition DynamicConstant_make (from : option DynamicSet) : outcome DynamicConstantRelation :=
  n ← (if ptr_isEmpty (DynamicSet_as_Set <$> from) then Done 0 else s ← ub from; Done (d_size s));
  cur ← (match from with None => Done 0 | Some s => Done (d_size s) end);
  updateSizes (mkDynamicConstant (card_make n) [] cur) from.

Definition expandSizeIfNeeded (r : DynamicConstantRelation) (from : option DynamicSet) (s : Z) : outcome DynamicConstantRelation :=
  if m_currentFromSize r <? s then updateSizes r from else Done r.

(** [operator[]]: a set over the vector of the relation, which has the key [self]. *)
Definition self : Z := 0.

Definition dc_heap (r : DynamicConstantRelation) : Heap := {[ self := m_relationsVec r ]}.

Notation DynamicRow := (OrderedSet (SizeType (Str := Str)) RuntimeOffset StrideOne STLVectorIndirection NoSubset).

Definition dc_row (r : DynamicConstantRelation) (fromSetIndex : Z) : outcome DynamicRow :=
  o ← ix_mul fromSetIndex (relationCardinality r); 
  Done (build_row (Sz := SizeType (Str := Str)) (Ind := STLVectorIndirection) (relationCardinality r) o (Some self)).

Fixpoint any_valid (vec : list Z) (l : list Z) : outcome bool :=
  match l with
  | [] => Done false
  | idx :: l => x ← ub vec.[idx]; if negb (x =? INVALID_INDEX) then Done true else any_valid vec l
  end.

Definition isValidEntry (r : DynamicConstantRelation) (from : option DynamicSet) (idx : Z) : outcome bool :=
  s ← ub from; b ← DynamicSet_isValidEntry s idx;
  if (b : bool) then
    let SZ := relationCardinality r in
    beg_idx ← ix_mul idx SZ; end_idx ← ix_add beg_idx SZ; any_valid (m_relationsVec r) (up beg_idx end_idx)
  else Done false.

Definition numberOfValidEntries (r : DynamicConstantRelation) (from : option DynamicSet) : outcome Z :=
  for_each (up 0 (to_int32 (m_currentFromSize r))) (fun i nvalid =>
    b ← isValidEntry r from i; ix_add nvalid (if (b : bool) then 1 else 0)) 0.

(** The first free slot of an element takes the value; with none, there is a warning. *)
Fixpoint insert_slot (vec : list Z) (SZ fromSetIndex toSetIndex : Z) (l : list Z) : outcome (list Z) :=
  match l with
  | [] => Done vec
  | i :: l =>
    i ← int_index i; b ← ix_mul SZ fromSetIndex; idx ← ix_add b i;
    x ← ub vec.[idx];
    if x =? INVALID_INDEX then ub (zupdate vec idx toSetIndex)
    else insert_slot vec SZ fromSetIndex toSetIndex l
  end.

Definition insert (r : DynamicConstantRelation) (from : option DynamicSet) (fromSetIndex toSetIndex : Z) :
    outcome DynamicConstantRelation :=
  n ← ix_add fromSetIndex 1; r ← expandSizeIfNeeded r from n;
  let SZ := relationCardinality r in
  v ← insert_slot (m_relationsVec r) SZ fromSetIndex toSetIndex (up 0 SZ);
  Done (mkDynamicConstant (dc_card r) v (m_currentFromSize r)).

Definition modify (r : DynamicConstantRelation) (from : option DynamicSet) (fromSetIndex off toSetIndex : Z) :
    outcome DynamicConstantRelation :=
  n ← ix_add fromSetIndex 1; r ← expandSizeIfNeeded r from n;
  b ← ix_mul (relationCardinality r) fromSetIndex; idx ← ix_add b off;
  v ← ub (zupdate (m_relationsVec r) idx toSetIndex);
  Done (mkDynamicConstant (dc_card r) v (m_currentFromSize r)).

Definition remove (r : DynamicConstantRelation) (from : option DynamicSet) (fromSetIndex : Z) : outcome DynamicConstantRelation :=
  b ← isValidEntry r from fromSetIndex;
  if negb (b : bool) then Done r
  else
    let SZ := relationCardinality r in
    v ← for_each (up 0 SZ) (fun i vec =>
      i ← int_index i; b ← ix_mul SZ fromSetIndex; idx ← ix_add b i; ub (zupdate vec idx INVALID_INDEX)) (m_relationsVec r);
    Done (mkDynamicConstant (dc_card r) v (m_currentFromSize r)).

Definition DynamicConstant_isValid (r : DynamicConstantRelation) (from to : option DynamicSet) : outcome bool :=
  match from, to with
  | Some f, Some t =>
    let SZ := relationCardinality r in
    n ← ix_mul (d_size f) SZ;
    if negb ((d_size f =? m_currentFromSize r) && (n =? to_int32 (Z.of_nat (length (m_relationsVec r))))) then Done false
    else
      ok ← for_each (up 0 (d_size f)) (fun pos ok =>
        x ← DynamicSet_at f pos;
        bad ← (if x =? INVALID_ENTRY then isValidEntry r from pos else Done false);
        Done (ok && negb (bad : bool))) true;
      for_each (up 0 (d_size f)) (fun from_idx ok =>
        b ← DynamicSet_isValidEntry f from_idx;
        if (b : bool) then
          for_each (up 0 SZ) (fun idx ok =>
            idx ← int_index idx; p ← ix_mul from_idx SZ; pos ← ix_add p idx; val ← ub (m_relationsVec r).[pos];
            bad ← (if negb (val =? INVALID_INDEX) then v ← DynamicSet_isValidEntry t val; Done (negb (v : bool)) else Done false);
            Done (ok && negb (bad : bool))) ok
        else Done ok) ok
  | _, _ => Done false
  end.
End DynamicConstant.

End Relations.
Arguments ConstantCardinality : clear implicits.
Arguments VariableCardinality : clear implicits.
Arguments MappedVariableCardinality : clear implicits.
Arguments StaticRelation : clear implicits.
Arguments DynamicConstantRelation : clear implicits.

End SlamRelations.
