(* ===== verification/SlamRelationTheorems.v ===== *)
(** * Theorems on the relations of slam

    A static relation is a list of rows: the related positions of every element.  What the
    cardinality policies promise is the class [CardinalityLaws]; the theorems on static
    relations are proved for any policy with these laws. *)

From S2P Require Import Prelude Outcome SlamPolicies SlamSets SlamSetTheorems SlamRelations.

Module SlamRelationTheorems.
Import Outcome SlamPolicies SlamSets SlamSetTheorems SlamRelations.

(** ** Partial sums *)

(** The begin offsets of rows of the given sizes, and the end. *)
Fixpoint offsets (start : Z) (sizes : list Z) : list Z :=
  start :: match sizes with [] => [] | n :: sizes => offsets (start + n) sizes end.

Lemma length_offsets start sizes : length (offsets start sizes) = S (length sizes).
Proof. revert start. induction sizes as [|n sizes IH]; intros start; [done|]. cbn. by rewrite IH. Qed.

Lemma offsets_lookup start sizes i : 0 <= i <= Z.of_nat (length sizes) ->
  (offsets start sizes).[i] = Some (start + sumZ (takeZ i sizes)).
Proof.
  intros Hi. rewrite zlookup_to_nat by lia. unfold takeZ. remember (Z.to_nat i) as n eqn:Hn.
  assert (n <= length sizes)%nat as Hle by lia. clear i Hi Hn. revert start n Hle.
  induction sizes as [|s sizes IH]; intros start [|n] Hle; cbn in *; [f_equal; lia|lia|f_equal; lia|].
  rewrite IH by lia. f_equal. lia.
Qed.

Lemma sumZ_nonneg l : Forall (Z.le 0) l -> 0 <= sumZ l.
Proof. induction 1; cbn; lia. Qed.

Lemma sumZ_takeZ_le l i : Forall (Z.le 0) l -> 0 <= sumZ (takeZ i l) <= sumZ l.
Proof.
  intros Hl. rewrite <- (take_drop (Z.to_nat i) l) in Hl |- * at 3. apply Forall_app in Hl as [H1 H2].
  rewrite sumZ_app. unfold takeZ. pose proof (sumZ_nonneg _ H1). pose proof (sumZ_nonneg _ H2). lia.
Qed.

Lemma sumZ_takeZ_succ l i n : l.[i] = Some n -> sumZ (takeZ (i + 1) l) = sumZ (takeZ i l) + n.
Proof.
  intros Hn. pose proof (zlookup_Some_bounds _ _ _ Hn). rewrite zlookup_to_nat in Hn by lia. unfold takeZ.
  replace (Z.to_nat (i + 1)) with (S (Z.to_nat i)) by lia. rewrite (take_S_r _ _ n Hn), sumZ_app. cbn. lia.
Qed.

Lemma sumZ_takeZ_mono l i j : Forall (Z.le 0) l -> 0 <= i <= j -> sumZ (takeZ i l) <= sumZ (takeZ j l).
Proof.
  intros Hl Hij. replace (takeZ i l) with (takeZ i (takeZ j l)).
  - apply sumZ_takeZ_le. by apply Forall_take.
  - unfold takeZ. rewrite take_take. f_equal. lia.
Qed.

Lemma sumZ_replicate n x : sumZ (replicate n x) = Z.of_nat n * x.
Proof. induction n as [|n IH]; [done|]. cbn [replicate sumZ]. rewrite IH. lia. Qed.

Lemma takeZ_all {A} (l : list A) i : Z.of_nat (length l) <= i -> takeZ i l = l.
Proof. intros. unfold takeZ. apply take_ge. lia. Qed.

(** ** Loops that check a condition *)

Lemma for_each_check {A} (f : Z -> outcome A) (g : A -> bool) l ok :
  (forall p, p ∈ l -> exists x, f p = Done x /\ g x = true) ->
  for_each l (fun p ok => x ← f p; Done (ok && g x)) ok = Done ok.
Proof.
  revert ok. induction l as [|p l IH]; intros ok Hf; [done|]. cbn. destruct (Hf p) as (x & -> & Hx); [left|].
  cbn. rewrite Hx, andb_true_r. apply IH. intros q Hq. apply Hf. by right.
Qed.

Lemma for_each_check_inv {A} (f : Z -> outcome A) (g : A -> bool) l ok b :
  for_each l (fun p ok => x ← f p; Done (ok && g x)) ok = Done b ->
  (forall p, p ∈ l -> exists x, f p = Done x) /\
  (b = true <-> ok = true /\ forall p x, p ∈ l -> f p = Done x -> g x = true).
Proof.
  revert ok. induction l as [|p l IH]; intros ok Hb; cbn in Hb.
  { injection Hb as <-. split; [by intros p ?%elem_of_nil|]. split; [|tauto]. intros ->. split; [done|]. by intros p x ?%elem_of_nil. }
  apply bind_inv in Hb as (s & Hs & Hb). apply bind_inv in Hs as (x & Hx & Hs). injection Hs as <-.
  destruct (IH _ Hb) as [Hall Hiff]. split.
  - intros q [->|Hq]%elem_of_cons; eauto.
  - rewrite Hiff, andb_true_iff. split.
    + intros [[Hok Hg] Hl]. split; [done|]. intros q y [->|Hq]%elem_of_cons Hy; [|by eapply Hl].
      rewrite Hx in Hy. by injection Hy as <-.
    + intros [Hok Hl]. split_and!; [done|by eapply (Hl p); [left|]|]. intros q y Hq. apply Hl. by right.
Qed.

Lemma for_each_lists {A} (f : Z -> outcome A) (g : A -> bool) l ok : lists f l ->
  for_each (up 0 (Z.of_nat (length l))) (fun p ok => x ← f p; Done (ok && g x)) ok = Done (ok && forallb g l).
Proof.
  intros Hl. destruct (for_up_inv (fun i b => b = ok && forallb g (take (Z.to_nat i) l)) 0 (Z.of_nat (length l))
    (fun p ok => x ← f p; Done (ok && g x)) ok) as (b & -> & ->); [lia|by rewrite andb_true_r| |by rewrite Nat2Z.id, firstn_all].
  intros i b Hi ->. destruct (Hl i Hi) as (x & -> & Hx). eexists. split; [done|]. rewrite zlookup_to_nat in Hx by lia.
  replace (Z.to_nat (i + 1)) with (S (Z.to_nat i)) by lia. rewrite (take_S_r _ _ x Hx), forallb_app. cbn. by rewrite andb_true_r, andb_assoc.
Qed.

(** The values at the positions, computed. *)
Lemma lists_compute {A} (f : Z -> outcome A) l : (f <$> up 0 (Z.of_nat (length l))) = (Done <$> l) -> lists f l.
Proof.
  intros Hf k Hk. destruct (zlookup_lt l k Hk) as [x Hx]. exists x. split; [|done].
  assert ((f <$> up 0 (Z.of_nat (length l))).[k] = (Done <$> l).[k]) as He by (by rewrite Hf). rewrite !zlookup_fmap, Hx in He.
  unfold up in He. rewrite zlookup_to_nat, lookup_seqZ_lt in He by lia. cbn in He. injection He as <-. f_equal. lia.
Qed.

(** ** What a cardinality policy promises *)

Section Cardinality.
Context {IB : IndexBits}.

Lemma int_index_small i : i < 2 ^ 31 -> int_index i = Done i.
Proof. intros Hi. unfold int_index. by destruct (Z.ltb_spec i (2 ^ 31)); [|lia]. Qed.

(** [card_repr h c sizes]: the relation has a row of each of these sizes. *)
Class CardinalityLaws (C : Type) `{!CardinalityPolicy C} := {
  RowSize_laws :: SizeLaws (RowSize (C := C));
  card_repr : Heap -> C -> list Z -> Prop;
  card_repr_bounds h c sizes : card_repr h c sizes -> Forall (Z.le 0) sizes /\ sumZ sizes <= index_max;
  card_accepts h c sizes i n : card_repr h c sizes -> sizes.[i] = Some n -> size_accepts (P := RowSize (C := C)) n;
  card_size_spec h c sizes i n : card_repr h c sizes -> sizes.[i] = Some n -> card_size h c i = Done n;
  card_offset_spec h c sizes i : card_repr h c sizes -> 0 <= i < Z.of_nat (length sizes) ->
    card_offset h c i = Done (sumZ (takeZ i sizes));
  totalSize_spec h c sizes : card_repr h c sizes -> totalSize h c = Done (sumZ sizes);
  firstIndex_spec h c sizes i n j : card_repr h c sizes -> sizes.[i] = Some n -> 0 <= j < n ->
    firstIndex h c (sumZ (takeZ i sizes) + j) = Done i;
  card_isValid_spec h c sizes n : card_repr h c sizes -> n + 1 <= index_max -> 0 <= n ->
    card_isValid h c n = Done (Z.of_nat (length sizes) =? n) }.

(** *** Constant cardinality *)

Section Constant.
Context {Str : Type} `{!StridePolicy Str, !StrideToSize Str}.

(** The size policy of a row accepts the stride of the relation. *)
Class StrideToSizeLaws (Str : Type) `{!StridePolicy Str, !StrideToSize Str} := {
  SizeType_laws :: SizeLaws (SizeType (Str := Str));
  stride_accepted (p : Str) : size_accepts (P := SizeType (Str := Str)) (stride_of p) }.

Context `{!StrideToSizeLaws Str}.
Notation ConstantCardinality := (ConstantCardinality Str).

Record constant_repr (c : ConstantCardinality) (sizes : list Z) : Prop := {
  cr_size : size (c_begins c) = Z.of_nat (length sizes);
  cr_sizes : sizes = replicate (length sizes) (stride (c_begins c));
  cr_stride : 0 <= stride (c_begins c) <= index_max;
  cr_max : Z.of_nat (length sizes) * stride (c_begins c) <= index_max }.

Lemma constant_lookup c sizes i n : constant_repr c sizes -> sizes.[i] = Some n -> n = stride (c_begins c).
Proof.
  intros [_ Hs _ _] Hn. rewrite Hs in Hn. pose proof (zlookup_Some_bounds _ _ _ Hn).
  rewrite zlookup_to_nat in Hn by lia. by apply lookup_replicate in Hn as [-> _].
Qed.

Lemma constant_sum c sizes i : constant_repr c sizes -> 0 <= i <= Z.of_nat (length sizes) ->
  sumZ (takeZ i sizes) = i * stride (c_begins c).
Proof.
  intros [_ Hs _ _] Hi. rewrite Hs. unfold takeZ. rewrite take_replicate, sumZ_replicate. f_equal. lia.
Qed.

Lemma constant_total c sizes : constant_repr c sizes -> sumZ sizes = Z.of_nat (length sizes) * stride (c_begins c).
Proof. intros Hr. rewrite <- (constant_sum c sizes) by (done || lia). by rewrite takeZ_all. Qed.

#[export] Program Instance ConstantCardinality_laws : CardinalityLaws ConstantCardinality := {
  card_repr _ c sizes := constant_repr c sizes }.
Next Obligation.
  intros h c sizes Hr. pose proof (constant_total c sizes Hr) as Ht. destruct Hr as [_ Hs Hst Hmax]. split; [|lia].
  rewrite Hs. apply Forall_replicate. lia.
Qed.
Next Obligation. intros h c sizes i n Hr ->%(constant_lookup c). apply stride_accepted. done. Qed.
Next Obligation. intros h c sizes i n Hr ->%(constant_lookup c); [|done]. done. Qed.
Next Obligation.
  intros h c sizes i Hr Hi. rewrite (constant_sum c) by (done || lia). destruct Hr as [_ _ Hst Hmax].
  cbn. unfold at_. change (offset (c_begins c)) with 0. cbn. unfold ix_mul, ix_add.
  rewrite ix_small by nia. cbn [mbind outcome_bind]. rewrite Z.add_0_r, ix_small by nia. done.
Qed.
Next Obligation.
  intros h c sizes Hr. rewrite (constant_total c) by done. destruct Hr as [Hn _ Hst Hmax].
  change (totalSize h c) with (ix_mul (stride (c_begins c)) (size (c_begins c))). rewrite Hn. unfold ix_mul. rewrite Z.mul_comm, ix_small by nia. done.
Qed.
Next Obligation.
  intros h c sizes i n j Hr Hi Hj. pose proof (zlookup_Some_bounds _ _ _ Hi). pose proof (constant_lookup c sizes i n Hr Hi) as ->.
  rewrite (constant_sum c) by (done || lia). destruct Hr as [_ _ Hst Hmax]. cbn. rewrite ix_div_small by nia.
  f_equal. rewrite Z.add_comm, Z.div_add, Z.div_small by lia. lia.
Qed.
Next Obligation. intros h c sizes n [Hn _ _ _] _ _. change (Done (size (c_begins c) =? n) = Done (Z.of_nat (length sizes) =? n)). by rewrite Hn. Qed.
End Constant.

#[export] Program Instance RuntimeStride_to_size_laws : StrideToSizeLaws RuntimeStride := {}.
Next Obligation. done. Qed.
#[export] Program Instance CompileTimeStride_to_size_laws v : StrideToSizeLaws (CompileTimeStride v) := {}.
Next Obligation. done. Qed.

(** *** Variable cardinality *)

Section Begins.
Context {Ind : Type} `{!IndirectionPolicy Ind}.
Notation BeginsSet := (OrderedSet RuntimeSize ZeroOffset StrideOne Ind NoSubset).
Implicit Types (begins : BeginsSet) (h : Heap).

Record begins_repr h begins (sizes : list Z) : Prop := {
  br_size : size begins = Z.of_nat (length sizes) + 1;
  br_lists : lists (at_ h begins) (offsets 0 sizes);
  br_nonneg : Forall (Z.le 0) sizes;
  br_max : sumZ sizes <= index_max;
  br_length : Z.of_nat (length sizes) + 1 <= index_max;
  br_valid : ind_isValid h (os_ind begins) (size begins) (offset begins) (stride begins) = Done true }.

Lemma begins_offset_spec h begins sizes i : begins_repr h begins sizes -> 0 <= i <= Z.of_nat (length sizes) ->
  begins_offset h begins i = Done (sumZ (takeZ i sizes)).
Proof.
  intros Hr Hi. destruct (br_lists _ _ _ Hr i) as (x & Hx & Hl); [rewrite length_offsets; lia|].
  rewrite offsets_lookup in Hl by lia. by injection Hl as <-.
Qed.

Lemma begins_size_spec h begins sizes i n : begins_repr h begins sizes -> sizes.[i] = Some n ->
  begins_size h begins i = Done n.
Proof.
  intros Hr Hn. pose proof (zlookup_Some_bounds _ _ _ Hn). pose proof (br_length _ _ _ Hr). unfold begins_size, ix_add.
  rewrite ix_small by lia. cbn [mbind outcome_bind]. rewrite !(begins_offset_spec h begins sizes) by (done || lia).
  cbn [mbind outcome_bind]. rewrite (sumZ_takeZ_succ sizes i n Hn).
  pose proof (zlookup_Forall _ _ _ _ (br_nonneg _ _ _ Hr) Hn). pose proof (sumZ_takeZ_le sizes i (br_nonneg _ _ _ Hr)).
  pose proof (sumZ_takeZ_le sizes (i + 1) (br_nonneg _ _ _ Hr)) as Hs. rewrite (sumZ_takeZ_succ sizes i n Hn) in Hs.
  pose proof (br_max _ _ _ Hr). unfold ix_sub. rewrite ix_small by lia. f_equal. lia.
Qed.

Lemma begins_total_spec h begins sizes : begins_repr h begins sizes -> begins_total h begins = Done (sumZ sizes).
Proof.
  intros Hr. unfold begins_total, empty. rewrite size_empty_spec. fold (size begins). rewrite (br_size _ _ _ Hr).
  destruct (Z.eqb_spec (Z.of_nat (length sizes) + 1) 0); [lia|]. pose proof (br_length _ _ _ Hr).
  unfold ix_sub. rewrite ix_small by lia. cbn [mbind outcome_bind].
  rewrite (begins_offset_spec h begins sizes) by (done || lia). by rewrite takeZ_all by lia.
Qed.

Lemma begins_isValid_spec h begins sizes n : begins_repr h begins sizes -> n + 1 <= index_max -> 0 <= n ->
  begins_isValid h begins n = Done (Z.of_nat (length sizes) =? n).
Proof.
  intros Hr Hn Hn0. unfold begins_isValid, ix_add. rewrite ix_small by lia. cbn [mbind outcome_bind].
  rewrite (br_valid _ _ _ Hr), (br_size _ _ _ Hr).
  destruct (Z.eqb_spec (Z.of_nat (length sizes) + 1) (n + 1)), (Z.eqb_spec (Z.of_nat (length sizes)) n); [done|lia..|done].
Qed.

Lemma firstIndex_loop_spec h begins sizes i n j k : begins_repr h begins sizes -> sizes.[i] = Some n -> 0 <= j < n -> 0 <= k <= i ->
  firstIndex_loop h begins (sumZ (takeZ i sizes) + j) (up k (Z.of_nat (length sizes))) = Done i.
Proof.
  intros Hr Hn Hj Hk. pose proof (zlookup_Some_bounds _ _ _ Hn) as Hi. pose proof (br_length _ _ _ Hr).
  remember (Z.to_nat (i - k)) as m eqn:Hm. revert k Hk Hm. induction m as [|m IH]; intros k Hk Hm;
    rewrite up_cons by lia; cbn [firstIndex_loop]; unfold ix_add; rewrite ix_small by lia; cbn [mbind outcome_bind];
    rewrite (begins_offset_spec h begins sizes) by (done || lia); cbn [mbind outcome_bind].
  - replace k with i by lia. rewrite (sumZ_takeZ_succ sizes i n Hn).
    by destruct (Z.ltb_spec (sumZ (takeZ i sizes) + j) (sumZ (takeZ i sizes) + n)); [|lia].
  - pose proof (sumZ_takeZ_mono sizes (k + 1) i (br_nonneg _ _ _ Hr)).
    destruct (Z.ltb_spec (sumZ (takeZ i sizes) + j) (sumZ (takeZ (k + 1) sizes))); [lia|]. apply IH; lia.
Qed.

#[export] Program Instance VariableCardinality_laws : CardinalityLaws (VariableCardinality Ind) := {
  card_repr h c sizes := begins_repr h (v_begins c) sizes }.
Next Obligation. intros h c sizes Hr. split; apply Hr. Qed.
Next Obligation. done. Qed.
Next Obligation. intros h c sizes i n. apply begins_size_spec. Qed.
Next Obligation. intros h c sizes i Hr Hi. apply begins_offset_spec; [done|lia]. Qed.
Next Obligation. intros h c sizes. apply begins_total_spec. Qed.
Next Obligation.
  intros h c sizes i n j Hr Hn Hj. pose proof (zlookup_Some_bounds _ _ _ Hn). pose proof (br_length _ _ _ Hr).
  change (firstIndex h c ?o) with (n ← ix_sub (size (v_begins c)) 1; firstIndex_loop h (v_begins c) o (up 0 n)).
  rewrite (br_size _ _ _ Hr). unfold ix_sub. rewrite ix_small by lia. cbn [mbind outcome_bind].
  replace (Z.of_nat (length sizes) + 1 - 1) with (Z.of_nat (length sizes)) by lia.
  apply (firstIndex_loop_spec _ _ _ i n); [done..|lia].
Qed.
Next Obligation. intros h c sizes n. apply begins_isValid_spec. Qed.

(** *** With first indices *)

Definition mapped_repr h (c : MappedVariableCardinality Ind) (sizes : list Z) : Prop :=
  begins_repr h (m_begins c) sizes /\
  forall i n j, sizes.[i] = Some n -> 0 <= j < n -> at_ h (m_firstIndexes c) (sumZ (takeZ i sizes) + j) = Done i.

#[export] Program Instance MappedVariableCardinality_laws : CardinalityLaws (MappedVariableCardinality Ind) := {
  card_repr := mapped_repr }.
Next Obligation. intros h c sizes [Hr _]. split; apply Hr. Qed.
Next Obligation. done. Qed.
Next Obligation. intros h c sizes i n [Hr _]. by apply begins_size_spec. Qed.
Next Obligation. intros h c sizes i [Hr _] Hi. apply begins_offset_spec; [done|lia]. Qed.
Next Obligation. intros h c sizes [Hr _]. by apply begins_total_spec. Qed.
Next Obligation. intros h c sizes i n j [_ Hf]. apply Hf. Qed.
Next Obligation. intros h c sizes n [Hr _]. by apply begins_isValid_spec. Qed.

(** *** Filling the first indices *)

Context `{!BufferIndirection Ind, !BufferLaws Ind}.

Lemma at_frame (h h' : Heap) begins p : (forall k, buf_key (os_ind begins) = Some k -> h !! k = h' !! k) ->
  at_ h begins p = at_ h' begins p.
Proof.
  intros Hk. unfold at_. destruct (ix_mul _ _) as [m| |]; [|done..]. cbn. destruct (ix_add _ _) as [q| |]; [|done..]. cbn.
  rewrite !indirection_read. unfold read, buffer. destruct (buf_key _) as [k|]; [|done]. cbn. by rewrite (Hk k eq_refl).
Qed.

Lemma begins_repr_frame (h h' : Heap) begins sizes : (forall k, buf_key (os_ind begins) = Some k -> h !! k = h' !! k) ->
  begins_repr h begins sizes -> begins_repr h' begins sizes.
Proof.
  intros Hk [H1 H2 H3 H4 H5 H6]. constructor; try done.
  - eapply lists_ext, H2. intros. by apply at_frame.
  - rewrite <- H6. symmetry. by apply ind_isValid_frame.
Qed.

(** Writing and reading a set that starts at the beginning of its buffer. *)
Lemma assign_spec h begins kf l p x : buf_key (os_ind begins) = Some kf -> h !! kf = Some l ->
  0 <= p < Z.of_nat (length l) -> p <= index_max ->
  assign h begins p x = Done (<[kf := <[Z.to_nat p := x]> l]> h).
Proof.
  intros Hk Hl Hp Hm. unfold assign, ix_mul, ix_add. change (stride begins) with 1. change (offset begins) with 0.
  rewrite Z.mul_1_r, ix_small by lia. cbn [mbind outcome_bind]. rewrite Z.add_0_r, ix_small by lia. cbn [mbind outcome_bind].
  rewrite buf_write_write, Hk. by apply buffer_write_spec.
Qed.

Lemma at_buffer h begins kf l p x : buf_key (os_ind begins) = Some kf -> h !! kf = Some l -> l.[p] = Some x -> p <= index_max ->
  at_ h begins p = Done x.
Proof.
  intros Hk Hl Hx Hm. pose proof (zlookup_Some_bounds _ _ _ Hx). unfold at_, ix_mul, ix_add. change (stride begins) with 1. change (offset begins) with 0.
  rewrite Z.mul_1_r, ix_small by lia. cbn [mbind outcome_bind]. rewrite Z.add_0_r, ix_small by lia. cbn [mbind outcome_bind].
  rewrite indirection_read, Hk. apply read_Some. eauto.
Qed.

(** The entries of the rows before [i], and the first [k] of row [i], are filled. *)
Definition filled (sizes l : list Z) (i k : Z) : Prop :=
  forall i' n j, sizes.[i'] = Some n -> 0 <= j < n -> i' < i \/ (i' = i /\ j < k) -> l.[sumZ (takeZ i' sizes) + j] = Some i'.

Lemma filled_step sizes l i k n : Forall (Z.le 0) sizes -> sizes.[i] = Some n -> 0 <= k < n ->
  sumZ sizes <= Z.of_nat (length l) -> filled sizes l i k ->
  filled sizes (<[Z.to_nat (sumZ (takeZ i sizes) + k) := i]> l) i (k + 1).
Proof.
  intros Hs Hn Hk Hl Hf i' n' j Hn' Hj Hij. pose proof (zlookup_Some_bounds _ _ _ Hn') as Hi'.
  pose proof (sumZ_takeZ_le sizes i' Hs). pose proof (sumZ_takeZ_le sizes i Hs). pose proof (sumZ_takeZ_le sizes (i + 1) Hs) as H1.
  rewrite (sumZ_takeZ_succ sizes i n Hn) in H1. rewrite zlookup_to_nat by lia.
  destruct (decide (i' = i /\ j = k)) as [[-> ->]|Hne]; [apply list_lookup_insert_eq; lia|].
  assert (i' < i \/ (i' = i /\ j < k)) as Hij' by lia. rewrite list_lookup_insert_ne.
  - rewrite <- zlookup_to_nat by lia. by eapply Hf.
  - intros Heq. apply Z2Nat.inj in Heq; [|lia..]. destruct Hij' as [Hlt|[-> Hlt]]; [|lia].
    pose proof (sumZ_takeZ_mono sizes (i' + 1) i Hs ltac:(lia)) as Hm. rewrite (sumZ_takeZ_succ sizes i' n' Hn') in Hm. lia.
Qed.

Section Fill.
Context (h0 : Heap) (begins firsts : BeginsSet) (sizes : list Z) (kf len : Z).
Context (Hrepr : begins_repr h0 begins sizes) (Hkf : buf_key (os_ind firsts) = Some kf).
Context (Hdistinct : buf_key (os_ind begins) <> Some kf).
Context (Hsum : sumZ sizes <= len) (Hint : sumZ sizes < 2 ^ 31) (Hlen : Z.of_nat (length sizes) < 2 ^ 31).

(** The heap while the first indices are filled. *)
Definition filling (i k : Z) (h : Heap) : Prop :=
  (forall b, b <> kf -> h !! b = h0 !! b) /\ exists l, h !! kf = Some l /\ Z.of_nat (length l) = len /\ filled sizes l i k.

Lemma filling_repr i k h : filling i k h -> begins_repr h begins sizes.
Proof.
  intros [Hfr _]. eapply begins_repr_frame, Hrepr. intros b Hb. symmetry. apply Hfr. by intros ->.
Qed.

Lemma fill_row i n h : sizes.[i] = Some n -> filling i 0 h ->
  exists h', for_each (up 0 n) (fun slotIdx h =>
    slotIdx ← int_index slotIdx; p ← int_index (slotIdx + to_int32 (sumZ (takeZ i sizes))); assign h firsts p i) h = Done h' /\
    filling (i + 1) 0 h'.
Proof.
  intros Hn Hh. pose proof (br_nonneg _ _ _ Hrepr) as Hnn. pose proof (zlookup_Forall _ _ _ _ Hnn Hn) as Hn0.
  pose proof (sumZ_takeZ_le sizes i Hnn). pose proof (sumZ_takeZ_le sizes (i + 1) Hnn) as H1. rewrite (sumZ_takeZ_succ sizes i n Hn) in H1.
  rewrite to_int32_id by lia. pose proof index_max_lower.
  destruct (for_up_inv (fun k h => filling i k h) 0 n (fun slotIdx h =>
    slotIdx ← int_index slotIdx; p ← int_index (slotIdx + sumZ (takeZ i sizes)); assign h firsts p i) h) as (h' & -> & Hh'); [lia|done| |].
  - intros k h1 Hk [Hfr (l & Hl & Hll & Hfl)]. rewrite (int_index_small k) by lia. cbn [mbind outcome_bind].
    rewrite int_index_small by lia. cbn [mbind outcome_bind]. rewrite (Z.add_comm k).
    rewrite (assign_spec h1 firsts kf l) by (done || lia). eexists. split; [done|]. split.
    + intros b Hb. rewrite lookup_insert_ne by done. by apply Hfr.
    + eexists. rewrite lookup_insert_eq. split; [done|]. rewrite length_insert. split; [done|]. apply (filled_step _ _ _ _ n); [done..|lia|done].
  - exists h'. split; [done|]. destruct Hh' as [Hfr (l & Hl & Hll & Hfl)]. split; [done|]. exists l. split_and!; [done..|].
    intros i' n' j Hn' Hj [Hlt|[_ ?]]; [|lia]. apply (Hfl i' n' j Hn' Hj). destruct (decide (i' = i)) as [->|]; [|lia].
    rewrite Hn in Hn'. injection Hn' as <-. lia.
Qed.

Lemma fill_all : filling 0 0 h0 ->
  exists h', for_each (up 0 (Z.of_nat (length sizes))) (fun fromIdx h =>
      fromIdx ← int_index fromIdx; off ← begins_offset h begins fromIdx; n ← begins_size h begins fromIdx;
      for_each (up 0 n) (fun slotIdx h => slotIdx ← int_index slotIdx; p ← int_index (slotIdx + to_int32 off);
        assign h firsts p fromIdx) h) h0 = Done h' /\ filling (Z.of_nat (length sizes)) 0 h'.
Proof.
  intros H0. apply (for_up_inv (fun i h => filling i 0 h)); [lia|done|].
  intros i h Hi Hh. destruct (zlookup_lt sizes i Hi) as [n Hn]. rewrite (int_index_small i) by lia. cbn [mbind outcome_bind].
  rewrite (begins_offset_spec h begins sizes) by (by eapply filling_repr || lia). cbn [mbind outcome_bind].
  rewrite (begins_size_spec h begins sizes i n) by (by eapply filling_repr || done). cbn [mbind outcome_bind].
  by apply fill_row.
Qed.
End Fill.

(** Binding a buffer of its own to the first indices and filling it makes them right. *)
Lemma bindFirstIndices_spec h c sizes data kf l :
  begins_repr h (m_begins c) sizes -> buf_key (ind_make (P := Ind) data) = Some kf -> buf_key (os_ind (m_begins c)) <> Some kf ->
  h !! kf = Some l -> sumZ sizes <= Z.of_nat (length l) -> sumZ sizes < 2 ^ 31 - 1 -> Z.of_nat (length sizes) < 2 ^ 31 ->
  exists h' c', Mapped_bindFirstIndices h c (sumZ sizes) data true = Done (h', c') /\ mapped_repr h' c' sizes /\
    forall b, b <> kf -> h' !! b = h !! b.
Proof.
  intros Hr Hkf Hd Hl Hsl Hint Hlen. pose proof index_max_lower. pose proof (sumZ_nonneg _ (br_nonneg _ _ _ Hr)).
  pose proof (br_length _ _ _ Hr). unfold Mapped_bindFirstIndices, ix_add, ix_sub. rewrite ix_small by lia. cbn [mbind outcome_bind m_begins].
  rewrite (br_size _ _ _ Hr), ix_small by lia. cbn [mbind outcome_bind].
  replace (Z.of_nat (length sizes) + 1 - 1) with (Z.of_nat (length sizes)) by lia.
  set (c' := mkMapped _ _). destruct (fill_all h (m_begins c) (m_firstIndexes c') sizes kf (Z.of_nat (length l)) Hr Hkf Hd Hsl) as (h' & He & Hh'); [lia|done| |].
  { split; [done|]. exists l. split_and!; [done..|]. intros i' n j Hn Hj [Hlt|[_ ?]]; [|lia].
    pose proof (zlookup_Some_bounds _ _ _ Hn). lia. }
  cbn [m_firstIndexes m_begins c'] in He |- *. setoid_rewrite He. cbn [mbind outcome_bind].
  exists h', c'. split; [done|]. pose proof (filling_repr h (m_begins c) sizes kf _ Hr Hd _ _ _ Hh') as Hr'. destruct Hh' as [Hfr (l' & Hl' & Hll & Hfl)].
  split; [|done]. split; [done|]. intros i n j Hn Hj. pose proof (zlookup_Some_bounds _ _ _ Hn).
  pose proof (sumZ_takeZ_le sizes (i + 1) (br_nonneg _ _ _ Hr)) as Hs1. rewrite (sumZ_takeZ_succ sizes i n Hn) in Hs1.
  apply (at_buffer h' (m_firstIndexes c') kf l'); [done|done| |lia]. apply (Hfl i n j Hn Hj). lia.
Qed.
End Begins.

(** ** Rows *)

Definition row_sizes (rows : list (list Z)) : list Z := (fun l => Z.of_nat (length l)) <$> rows.

Lemma sum_row_sizes rows : sumZ (row_sizes rows) = Z.of_nat (length (mjoin rows)).
Proof.
  induction rows as [|l rows IH]; [done|].
  rewrite join_cons, length_app. change (row_sizes (l :: rows)) with (Z.of_nat (length l) :: row_sizes rows). cbn [sumZ]. lia.
Qed.

Lemma row_sizes_lookup rows i l : rows.[i] = Some l -> (row_sizes rows).[i] = Some (Z.of_nat (length l)).
Proof. intros Hl. unfold row_sizes. by rewrite zlookup_fmap, Hl. Qed.

Lemma row_sizes_lookup_inv rows i n : (row_sizes rows).[i] = Some n -> exists l, rows.[i] = Some l /\ n = Z.of_nat (length l).
Proof. unfold row_sizes. rewrite zlookup_fmap. destruct (rows.[i]) as [l|]; [|done]. intros [= <-]. eauto. Qed.

Lemma row_sizes_takeZ rows i : takeZ i (row_sizes rows) = row_sizes (takeZ i rows).
Proof. unfold row_sizes, takeZ. by rewrite fmap_take. Qed.

(** The rows one after the other. *)
Lemma join_lookup rows i l k : rows.[i] = Some l -> 0 <= k < Z.of_nat (length l) ->
  (mjoin rows).[sumZ (takeZ i (row_sizes rows)) + k] = l.[k].
Proof.
  intros Hl Hk. pose proof (zlookup_Some_bounds _ _ _ Hl) as Hi. rewrite zlookup_to_nat in Hl by lia.
  rewrite row_sizes_takeZ, sum_row_sizes. unfold takeZ.
  rewrite <- (take_drop_middle rows _ l Hl) at 1. rewrite join_app, join_cons.
  set (pre := mjoin (take (Z.to_nat i) rows)). rewrite zlookup_to_nat, (zlookup_to_nat l) by lia.
  rewrite lookup_app_r by lia. replace (Z.to_nat (Z.of_nat (length pre) + k) - length pre)%nat with (Z.to_nat k) by lia.
  by rewrite lookup_app_l by lia.
Qed.

Lemma flat_bound rows i l k : rows.[i] = Some l -> 0 <= k <= Z.of_nat (length l) ->
  0 <= sumZ (takeZ i (row_sizes rows)) /\ sumZ (takeZ i (row_sizes rows)) + k <= Z.of_nat (length (mjoin rows)).
Proof.
  intros Hl Hk. assert (Forall (Z.le 0) (row_sizes rows)) as Hp by (apply Forall_fmap, Forall_true; intros; cbn; lia).
  pose proof (sumZ_takeZ_le (row_sizes rows) i Hp). pose proof (sumZ_takeZ_le (row_sizes rows) (i + 1) Hp) as Hs.
  rewrite (sumZ_takeZ_succ _ i _ (row_sizes_lookup rows i l Hl)), sum_row_sizes in Hs. lia.
Qed.

(** ** Static relations *)

(** A pointer to a set with a number of elements. *)
Definition set_of_size (s : option Set_) (n : Z) : Prop := exists s', s = Some s' /\ set_size s' = n /\ set_isEmpty s' = (n =? 0).

Section Static.
Context {C Ind : Type} `{!CardinalityPolicy C, !CardinalityLaws C, !IndirectionPolicy Ind, !IndirectionLaws Ind}.
Implicit Types (r : StaticRelation C Ind) (h : Heap).

(** [relation_repr h r n rows]: the relation has these rows over a to-set of size [n]. *)
Record relation_repr h r (n : Z) (rows : list (list Z)) : Prop := {
  rr_from : set_of_size (r_fromSet r) (Z.of_nat (length rows));
  rr_to : set_of_size (r_toSet r) n;
  rr_card : card_repr h (r_card r) (row_sizes rows);
  rr_size : size (m_relationIndices r) = Z.of_nat (length (mjoin rows));
  rr_data : lists (at_ h (m_relationIndices r)) (mjoin rows);
  rr_length : Z.of_nat (length rows) + 1 <= index_max }.

Lemma relation_total h r n rows : relation_repr h r n rows -> Z.of_nat (length (mjoin rows)) <= index_max.
Proof. intros Hr. rewrite <- sum_row_sizes. apply (card_repr_bounds h (r_card r)), Hr. Qed.

(** Reading the index buffer. *)
Lemma indices_at h r p : 0 <= p <= index_max ->
  at_ h (m_relationIndices r) p = indirection h (os_ind (m_relationIndices r)) p.
Proof.
  intros Hp. unfold at_, ix_mul, ix_add. change (stride (m_relationIndices r)) with 1. change (offset (m_relationIndices r)) with 0.
  rewrite Z.mul_1_r, ix_small by done. cbn [mbind outcome_bind]. by rewrite Z.add_0_r, ix_small.
Qed.

Lemma row_spec h r n rows i l : relation_repr h r n rows -> rows.[i] = Some l ->
  exists s, row h r i = Done s /\ elements h s = Done l /\ size s = Z.of_nat (length l) /\
    offset s = sumZ (takeZ i (row_sizes rows)) /\ lists (at_ h s) l.
Proof.
  intros Hr Hl. pose proof (row_sizes_lookup rows i l Hl) as Hn. pose proof (zlookup_Some_bounds _ _ _ Hl) as Hi.
  unfold row. rewrite (card_size_spec h _ _ i _ (rr_card _ _ _ _ Hr) Hn). cbn [mbind outcome_bind].
  rewrite (card_offset_spec h _ _ i (rr_card _ _ _ _ Hr)) by (unfold row_sizes; rewrite length_fmap; lia). cbn [mbind outcome_bind].
  set (o := sumZ (takeZ i (row_sizes rows))). set (s := build_row _ o _). exists s.
  pose proof (card_accepts h _ _ i _ (rr_card _ _ _ _ Hr) Hn) as Ha.
  assert (size s = Z.of_nat (length l)) as Hsz by exact (size_of_make _ Ha).
  assert (os_ind s = os_ind (m_relationIndices r)) as Hind by exact (ind_make_ptr _).
  pose proof (relation_total h r n rows Hr) as Htot. pose proof (flat_bound rows i l _ Hl (conj (Zle_0_nat (length l)) (Z.le_refl _))) as Hb.
  fold o in Hb. pose proof index_max_lower as Hmax.
  assert (offset s = o) as Ho by done. assert (stride s = 1) as Hst by done.
  assert (end_ s = Done (mkIterator (size s * stride s + offset s) s)) as He.
  { unfold end_, ix_mul, ix_add. rewrite Hsz, Hst, Ho, Z.mul_1_r, ix_small by lia. cbn [mbind outcome_bind].
    by rewrite ix_small by lia. }
  assert (typed s) as Ht by (split; apply fits_iff; rewrite ?Ho, ?Hst; lia).
  assert (lists (at_ h s) l) as Hls.
  { intros k Hk. pose proof (flat_bound rows i l k Hl ltac:(lia)) as Hbk. fold o in Hbk.
    destruct (rr_data _ _ _ _ Hr (o + k)) as (x & Hx & Hxl).
    { pose proof (flat_bound rows i l (k + 1) Hl ltac:(lia)) as Hbk1. fold o in Hbk1. lia. }
    unfold o in Hxl. rewrite (join_lookup rows i l k Hl Hk) in Hxl. exists x. split; [|done].
    rewrite (set_at_spec h s _ k Ht He) by lia. rewrite Hst, Ho, Hind, Z.mul_1_r, <- indices_at by lia. by rewrite Z.add_comm. }
  split_and!; [done| |done|done|done]. apply (elements_spec h s _ l Ht He); [by rewrite Hst|done|done].
Qed.

(** [isValid] checks the entries and that neither set is empty. *)
Lemma static_isValid_spec h r n rows : relation_repr h r n rows -> 0 <= n ->
  StaticRelation_isValid h r =
    Done (bool_decide (rows <> [] /\ n <> 0 /\ Forall (fun x => 0 <= x < n) (mjoin rows))).
Proof.
  intros Hr Hn. unfold StaticRelation_isValid. destruct (rr_from _ _ _ _ Hr) as (f & Hf & Hfs & Hfe).
  destruct (rr_to _ _ _ _ Hr) as (t & Ht & Hts & Hte). rewrite Hf, Ht. cbn [ptr_isEmpty]. rewrite Hfe, Hte.
  pose proof (rr_length _ _ _ _ Hr) as Hlen. pose proof (relation_total _ _ _ _ Hr) as Htot.
  destruct (Z.eqb_spec (Z.of_nat (length rows)) 0) as [H0|Hne]; cbn [orb].
  { rewrite bool_decide_false; [done|]. intros [Hnil _]. by destruct rows. }
  destruct (Z.eqb_spec n 0) as [->|Hn0]; [by rewrite bool_decide_false by naive_solver|].
  cbn [ub mbind outcome_bind]. rewrite Hfs, Hts.
  rewrite (card_isValid_spec h _ _ _ (rr_card _ _ _ _ Hr)) by lia. unfold row_sizes at 1. rewrite length_fmap, Z.eqb_refl.
  cbn [mbind outcome_bind negb]. rewrite (totalSize_spec h _ _ (rr_card _ _ _ _ Hr)). cbn [mbind outcome_bind].
  rewrite (rr_size _ _ _ _ Hr), sum_row_sizes, Z.eqb_refl.
  assert ((if negb (empty (m_relationIndices r)) then
     for_each (up 0 (Z.of_nat (length rows))) (fun pos ok => off ← card_offset h (r_card r) pos;
       Done (ok && (isValidIndex (m_relationIndices r) off || (off =? Z.of_nat (length (mjoin rows)))))) true
     else Done true) = Done true) as ->.
  { destruct (negb _); [|done]. apply for_each_check. intros p Hp%elem_of_up.
    eexists. split; [apply (card_offset_spec h _ _ p (rr_card _ _ _ _ Hr)); unfold row_sizes; rewrite length_fmap; lia|].
    destruct (zlookup_lt rows p) as [l Hl]; [lia|]. pose proof (flat_bound rows p l 0 Hl ltac:(lia)).
    unfold isValidIndex. rewrite (rr_size _ _ _ _ Hr). rewrite orb_true_iff, andb_true_iff, Z.leb_le, Z.ltb_lt, Z.eqb_eq. lia. }
  cbn [mbind outcome_bind].
  rewrite (for_each_lists _ (fun el => negb ((el <? 0) || (n <=? el))) (mjoin rows)) by apply Hr. cbn [andb]. f_equal. apply eq_true_iff_eq.
  rewrite bool_decide_eq_true, forallb_forall, Forall_forall. setoid_rewrite <- list_elem_of_In.
  setoid_rewrite negb_true_iff. setoid_rewrite orb_false_iff. setoid_rewrite Z.ltb_ge. setoid_rewrite Z.leb_gt.
  split; [intros Hall; split_and!; [by intros ->|done|exact Hall]|]. by intros (_ & _ & Hall).
Qed.

(** C18: A static relation is the list of its rows, for every cardinality policy and
    buffer.  The set that subscripting builds for an element iterates over exactly its
    row; each entry is at the flat position that is its place in the row after the begin
    offset, and the first index of this flat position is the element.  The total size is
    the number of entries, and [isValid] holds exactly when neither set is empty and all
    entries are positions of the to-set.  No access leaves a buffer. *)
Theorem static_relation_rows h r n rows : relation_repr h r n rows -> 0 <= n ->
  (forall i l, rows.[i] = Some l -> exists s, row h r i = Done s /\ elements h s = Done l /\ size s = Z.of_nat (length l) /\
    forall j x, l.[j] = Some x -> at_ h s j = Done x /\ at_ h (m_relationIndices r) (offset s + j) = Done x /\
      firstIndex h (r_card r) (offset s + j) = Done i) /\
  totalSize h (r_card r) = Done (Z.of_nat (length (mjoin rows))) /\
  StaticRelation_isValid h r =
    Done (bool_decide (rows <> [] /\ n <> 0 /\ Forall (fun x => 0 <= x < n) (mjoin rows))).
Proof.
  intros Hr Hn. split_and!; [|by rewrite (totalSize_spec h _ _ (rr_card _ _ _ _ Hr)), sum_row_sizes|by apply static_isValid_spec].
  intros i l Hl. destruct (row_spec h r n rows i l Hr Hl) as (s & Hs & He & Hsz & Ho & Hat).
  exists s. split_and!; [done..|]. intros j x Hx. pose proof (zlookup_Some_bounds _ _ _ Hx) as Hj. rewrite Ho. split_and!.
  - destruct (Hat j Hj) as (y & -> & Hy). rewrite Hx in Hy. by injection Hy as ->.
  - pose proof (flat_bound rows i l (j + 1) Hl ltac:(lia)). destruct (rr_data _ _ _ _ Hr (sumZ (takeZ i (row_sizes rows)) + j)) as (y & -> & Hy); [lia|].
    rewrite (join_lookup rows i l j Hl Hj), Hx in Hy. by injection Hy as ->.
  - apply (firstIndex_spec h _ _ i (Z.of_nat (length l)) j (rr_card _ _ _ _ Hr)); [by apply row_sizes_lookup|done].
Qed.
End Static.

(** ** Reading rows off valid data *)

Fixpoint diffs (start : Z) (l : list Z) : list Z :=
  match l with [] => [] | x :: l => x - start :: diffs x l end.

Lemma offsets_diffs start l : offsets start (diffs start l) = start :: l.
Proof. revert start. induction l as [|x l IH]; intros start; [done|]. cbn. by replace (start + (x - start)) with x by lia; rewrite IH. Qed.

Lemma length_diffs start l : length (diffs start l) = length l.
Proof. revert start. induction l as [|x l IH]; intros start; [done|]. cbn. by rewrite IH. Qed.

Lemma diffs_nonneg start l : (forall i a b, (start :: l).[i] = Some a -> l.[i] = Some b -> a <= b) -> Forall (Z.le 0) (diffs start l).
Proof.
  revert start. induction l as [|x l IH]; intros start Hl; [constructor|]. cbn. constructor.
  - specialize (Hl 0 start x eq_refl eq_refl). lia.
  - apply IH. intros i a b Ha Hb. pose proof (zlookup_Some_bounds _ _ _ Hb). apply (Hl (i + 1)).
    + rewrite zlookup_to_nat in Ha |- * by lia. by replace (Z.to_nat (i + 1)) with (S (Z.to_nat i)) by lia.
    + rewrite zlookup_to_nat in Hb |- * by lia. by replace (Z.to_nat (i + 1)) with (S (Z.to_nat i)) by lia.
Qed.

Fixpoint split_rows (sizes il : list Z) : list (list Z) :=
  match sizes with [] => [] | n :: sizes => takeZ n il :: split_rows sizes (dropZ n il) end.

Lemma split_rows_spec sizes il : Forall (Z.le 0) sizes -> sumZ sizes = Z.of_nat (length il) ->
  mjoin (split_rows sizes il) = il /\ row_sizes (split_rows sizes il) = sizes.
Proof.
  intros Hs. revert il. induction Hs as [|n sizes Hn Hs IH]; intros il Hsum; cbn in Hsum.
  { by destruct il. }
  pose proof (sumZ_nonneg _ Hs). cbn [split_rows]. destruct (IH (dropZ n il)) as [Hj Hr].
  { unfold dropZ. rewrite length_drop. lia. }
  split.
  - rewrite join_cons, Hj. unfold takeZ, dropZ. apply take_drop.
  - change (row_sizes (?x :: ?y)) with (Z.of_nat (length x) :: row_sizes y). rewrite Hr. f_equal.
    unfold takeZ. rewrite length_take. lia.
Qed.

Section Sound.
Context {Ind Ind2 : Type} `{!IndirectionPolicy Ind, !IndirectionLaws Ind, !IndirectionPolicy Ind2, !IndirectionLaws Ind2}.
Implicit Types (r : StaticRelation (VariableCardinality Ind) Ind2) (h : Heap).

(** The begin offsets start at zero and do not decrease. *)
Definition sorted_begins h (begins : OrderedSet RuntimeSize ZeroOffset StrideOne Ind NoSubset) (n : Z) : Prop :=
  at_ h begins 0 = Done 0 /\
  forall i a b, 0 <= i < n -> at_ h begins i = Done a -> at_ h begins (i + 1) = Done b -> a <= b.

(** The sizes of the rows that valid begin offsets describe. *)
Lemma sorted_begins_repr h begins n : 0 <= n -> n + 1 <= index_max -> ind_backed h (os_ind begins) ->
  begins_isValid h begins n = Done true -> sorted_begins h begins n ->
  (forall t, begins_total h begins = Done t -> t <= index_max) ->
  exists sizes, begins_repr h begins sizes /\ Z.of_nat (length sizes) = n.
Proof.
  intros Hn Hmax Hb Hv [H0 Hmono] Htot. unfold begins_isValid, ix_add in Hv. rewrite ix_small in Hv by lia. cbn [mbind outcome_bind] in Hv.
  destruct (Z.eqb_spec (size begins) (n + 1)) as [Hsz|]; [|done]. cbn [negb] in Hv.
  assert (forall p, 0 <= p <= n -> at_ h begins p = indirection h (os_ind begins) (p * stride begins + offset begins)) as Hat.
  { intros p Hp. unfold at_, ix_mul, ix_add. change (stride begins) with 1. change (offset begins) with 0.
    rewrite Z.mul_1_r, Z.add_0_r, !ix_small by lia. cbn [mbind outcome_bind]. by rewrite Z.add_0_r, ix_small by lia. }
  destruct (lists_exists (at_ h begins) (Z.to_nat (n + 1))) as (bl & Hbl & Hlen).
  { intros k Hk. rewrite Hat by lia. eapply ind_readable; [done|exact Hv|lia]. }
  destruct bl as [|b0 bl]; [cbn in Hlen; lia|]. pose proof Hbl as [Hb0 _]%lists_cons. rewrite H0 in Hb0. injection Hb0 as <-.
  cbn in Hlen. exists (diffs 0 bl). rewrite length_diffs. split; [|lia].
  assert (Forall (Z.le 0) (diffs 0 bl)) as Hnn.
  { apply diffs_nonneg. intros i a b Ha Hbi. pose proof (zlookup_Some_bounds _ _ _ Hbi) as Hi.
    destruct (Hbl i) as (x & Hx & Hxl); [cbn; lia|]. destruct (Hbl (i + 1)) as (y & Hy & Hyl); [cbn; lia|].
    rewrite Ha in Hxl. injection Hxl as <-. apply (Hmono i a b); [lia|done|]. rewrite Hy. f_equal.
    rewrite zlookup_to_nat in Hyl, Hbi by lia. replace (Z.to_nat (i + 1)) with (S (Z.to_nat i)) in Hyl by lia.
    change (bl !! Z.to_nat i = Some y) in Hyl. congruence. }
  constructor; rewrite ?length_diffs, ?offsets_diffs; [lia|done|done| |lia|done].
  apply Htot. unfold begins_total, empty. rewrite size_empty_spec. fold (size begins). rewrite Hsz.
  destruct (Z.eqb_spec (n + 1) 0); [lia|]. unfold ix_sub. rewrite ix_small by lia. cbn [mbind outcome_bind]. unfold begins_offset.
  destruct (Hbl (n + 1 - 1)) as (x & -> & Hx); [cbn; lia|]. rewrite <- (offsets_diffs 0 bl), offsets_lookup in Hx by (rewrite length_diffs; lia).
  injection Hx as <-. by rewrite takeZ_all by (rewrite length_diffs; lia).
Qed.

(** C24: [isValid] of a relation with begin offsets is sound: when it holds, and the begin
    offsets start at zero and do not decrease, which it does not check, the relation is a
    list of rows with an entry for every element of the from-set. *)
Theorem static_relation_sound h r nf nt : set_of_size (r_fromSet r) nf -> set_of_size (r_toSet r) nt ->
  0 <= nf -> nf + 1 <= index_max -> size (m_relationIndices r) <= index_max ->
  ind_backed h (os_ind (v_begins (r_card r))) -> sorted_begins h (v_begins (r_card r)) nf ->
  StaticRelation_isValid h r = Done true ->
  exists rows, relation_repr h r nt rows /\ Z.of_nat (length rows) = nf.
Proof.
  intros (f & Hf & Hfs & Hfe) (t & Ht & Hts & Hte) Hnf Hmax Hszm Hb Hsort Hv.
  unfold StaticRelation_isValid in Hv. rewrite Hf, Ht in Hv. cbn [ptr_isEmpty] in Hv. destruct (_ || _); [done|].
  cbn [ub mbind outcome_bind] in Hv. rewrite Hfs, Hts in Hv. apply bind_inv in Hv as (cv & Hcv & Hv). destruct cv; [|done].
  cbn [negb] in Hv. apply bind_inv in Hv as (tot & Htot & Hv). apply bind_inv in Hv as (ok & Hok & Hv).
  apply for_each_check_inv in Hv as [Hread Hv]. destruct Hv as [Hv _]. specialize (Hv eq_refl) as [-> _].
  assert (size (m_relationIndices r) = tot) as Hst.
  { destruct (negb _); [apply for_each_check_inv in Hok as [_ [Hok _]]; specialize (Hok eq_refl) as [Hok _]|injection Hok as Hok]; by apply Z.eqb_eq. }
  destruct (sorted_begins_repr h (v_begins (r_card r)) nf) as (sizes & Hrepr & Hlen); [done..| |].
  { intros t' Ht'. change (begins_total h (v_begins (r_card r))) with (totalSize h (r_card r)) in Ht'. rewrite Htot in Ht'. injection Ht' as <-. lia. }
  pose proof (totalSize_spec h (r_card r) sizes Hrepr) as Ht2. rewrite Htot in Ht2. injection Ht2 as Ht2.
  pose proof (sumZ_nonneg _ (br_nonneg _ _ _ Hrepr)).
  destruct (lists_exists (at_ h (m_relationIndices r)) (Z.to_nat (size (m_relationIndices r)))) as (il & Hil & Hlil).
  { intros k Hk. apply Hread, elem_of_up. lia. }
  destruct (split_rows_spec sizes il (br_nonneg _ _ _ Hrepr) ltac:(lia)) as [Hj Hrs].
  assert (length (split_rows sizes il) = length sizes) as Hls by (rewrite <- Hrs at 2; unfold row_sizes; by rewrite length_fmap).
  exists (split_rows sizes il). rewrite Hls. split; [|done]. constructor; rewrite ?Hls, ?Hj, ?Hrs.
  - exists f. split; [done|]. by rewrite Hlen.
  - by exists t.
  - done.
  - lia.
  - done.
  - lia.
Qed.
End Sound.

End Cardinality.

(** ** Examples *)

#[local] Instance long_bits : IndexBits := IndexType64.

(** Three elements with two, no and one related positions, of a to-set of size 4. *)
Definition crs_heap : Heap := {[ 1 := [0; 2; 2; 3]; 2 := [3; 1; 0] ]}.

Definition crs_card : VariableCardinality STLVectorIndirection := mkVariableCardinality (bind_set (Ind := STLVectorIndirection) 4 (Some 1)).

Definition crs_relation : StaticRelation (VariableCardinality STLVectorIndirection) STLVectorIndirection :=
  bindIndices (Ind := STLVectorIndirection) (mkStaticRelation crs_card (Some (OrderedSet_as_Set ∅ (PositionSet_make 3))) (Some (OrderedSet_as_Set ∅ (PositionSet_make 4)))
    OrderedSet_default) 3 (Some 2).

Lemma crs_relation_repr : relation_repr crs_heap crs_relation 4 [[3; 1]; []; [0]].
Proof.
  constructor; [by eexists|by eexists| |done|by apply lists_compute|done].
  constructor; [done|by apply lists_compute|by repeat constructor|done..].
Qed.

Lemma static_relation_rows_witness :
  (exists s, row crs_heap crs_relation 0 = Done s /\ elements crs_heap s = Done [3; 1]) /\
  StaticRelation_isValid crs_heap crs_relation = Done true.
Proof.
  destruct (static_relation_rows crs_heap crs_relation 4 [[3; 1]; []; [0]] crs_relation_repr ltac:(lia)) as (Hrow & _ & ->).
  split; [|by vm_compute]. destruct (Hrow 0 [3; 1] eq_refl) as (s & Hs & He & _). by exists s.
Defined.

Lemma static_relation_sound_witness :
  exists rows, relation_repr crs_heap crs_relation 4 rows /\ Z.of_nat (length rows) = 3.
Proof.
  apply (static_relation_sound crs_heap crs_relation 3 4); [by eexists|by eexists|lia|done|done| | |by vm_compute].
  - intros b [= <-]. by eexists.
  - split; [done|]. intros i a b Hi. assert (i = 0 \/ i = 1 \/ i = 2) as [->|[->| ->]] by lia; vm_compute; intros [= <-] [= <-]; discriminate.
Defined.

(** [isValid] accepts begin offsets that decrease: the row of the second element has the
    size -1. *)
Example isValid_accepts_decreasing :
  let h : Heap := {[ 1 := [0; 2; 1; 3]; 2 := [3; 1; 0] ]} in
  StaticRelation_isValid h crs_relation = Done true /\ card_size h (r_card crs_relation) 1 = Done (-1).
Proof. by vm_compute. Qed.

(** With no related positions the begin offsets are not looked at. *)
Example isValid_accepts_offsets_of_empty :
  let h : Heap := {[ 1 := [7; 5; 9; 0]; 2 := [] ]} in
  let r := bindIndices (Ind := STLVectorIndirection) crs_relation 0 (Some 2) in
  StaticRelation_isValid h r = Done true.
Proof. by vm_compute. Qed.

End SlamRelationTheorems.
