(* ===== verification/SlamDynamicRelations.v ===== *)
(** * Theorems on the dynamic relations of slam

    A relation with constant cardinality over dynamic sets is a list of rows of slots; a
    relation with variable cardinality is a list of lists. *)

From S2P Require Import Prelude Outcome SlamPolicies SlamSets SlamSetTheorems SlamRelations SlamRelationTheorems.

Module SlamDynamicRelations.
Import Outcome SlamPolicies SlamSets SlamSetTheorems SlamRelations SlamRelationTheorems.

(** ** Rows of the same size *)

Definition all_of_size (n : Z) (rows : list (list Z)) : Prop := Forall (fun l => Z.of_nat (length l) = n) rows.

Lemma uniform_sizes n rows : all_of_size n rows -> row_sizes rows = replicate (length rows) n.
Proof. induction 1 as [|l rows Hl _ IH]; [done|]. cbn. by rewrite Hl, <- IH. Qed.

Lemma uniform_offset n rows i : all_of_size n rows -> 0 <= i <= Z.of_nat (length rows) -> sumZ (takeZ i (row_sizes rows)) = i * n.
Proof. intros Hn Hi. rewrite (uniform_sizes n) by done. unfold takeZ. rewrite take_replicate, sumZ_replicate. f_equal. lia. Qed.

Lemma uniform_length n rows : all_of_size n rows -> Z.of_nat (length (mjoin rows)) = Z.of_nat (length rows) * n.
Proof. intros Hn. by rewrite <- sum_row_sizes, (uniform_sizes n), sumZ_replicate. Qed.

Lemma uniform_lookup n rows i l j : all_of_size n rows -> rows.[i] = Some l -> 0 <= j < n -> (mjoin rows).[i * n + j] = l.[j].
Proof.
  intros Hn Hl Hj. pose proof (zlookup_Some_bounds _ _ _ Hl). rewrite <- (uniform_offset n rows i) by (done || lia).
  apply join_lookup; [done|]. by rewrite (zlookup_Forall _ _ _ _ Hn Hl).
Qed.

Lemma uniform_row n rows i l : all_of_size n rows -> rows.[i] = Some l -> Z.of_nat (length l) = n.
Proof. intros Hn Hl. exact (zlookup_Forall _ _ _ _ Hn Hl). Qed.

Lemma uniform_update n rows i l j x : all_of_size n rows -> rows.[i] = Some l -> 0 <= j < n ->
  zupdate (mjoin rows) (i * n + j) x = Some (mjoin (<[Z.to_nat i := <[Z.to_nat j := x]> l]> rows)).
Proof.
  intros Hn Hl Hj. pose proof (zlookup_Some_bounds _ _ _ Hl) as Hi. pose proof (uniform_row n rows i l Hn Hl) as Hll.
  pose proof (uniform_length n rows Hn). rewrite zupdate_lt by nia. f_equal. rewrite zlookup_to_nat in Hl by lia.
  assert (Z.of_nat (length (mjoin (take (Z.to_nat i) rows))) = i * n) as Hpre.
  { rewrite (uniform_length n) by (by apply Forall_take). rewrite length_take. f_equal. lia. }
  rewrite <- (take_drop_middle rows _ l Hl) at 1. rewrite (insert_take_drop rows) by lia. rewrite !join_app, !join_cons.
  rewrite insert_app_r_alt by lia. replace (Z.to_nat (i * n + j) - length (mjoin (take (Z.to_nat i) rows)))%nat with (Z.to_nat j) by lia.
  by rewrite insert_app_l by lia.
Qed.

Lemma uniform_insert n rows i l : all_of_size n rows -> Z.of_nat (length l) = n -> all_of_size n (<[i := l]> rows).
Proof. intros Hn Hl. by apply Forall_insert. Qed.

(** ** Constant cardinality *)

Section Constant.
Context {IB : IndexBits} {Str : Type} `{!StridePolicy Str, !StrideToSize Str, !StrideToSizeLaws Str}.
Implicit Types (r : DynamicConstantRelation Str) (f : DynamicSet).

(** The relation has these rows of slots. *)
Record dynamic_repr r (SZ : Z) (rows : list (list Z)) : Prop := {
  dy_card : relationCardinality r = SZ;
  dy_pos : 0 < SZ < 2 ^ 31;
  dy_vec : m_relationsVec r = mjoin rows;
  dy_rows : all_of_size SZ rows;
  dy_size : m_currentFromSize r = Z.of_nat (length rows);
  dy_max : Z.of_nat (length rows) * SZ <= index_max }.

(** *** Operations on rows *)

Definition free_row (SZ : Z) : list Z := replicate (Z.to_nat SZ) INVALID_INDEX.

Definition grow_rows (SZ n : Z) (rows : list (list Z)) : list (list Z) :=
  rows ++ replicate (Z.to_nat (n - Z.of_nat (length rows))) (free_row SZ).

(** A new entry takes the first free slot. *)
Definition row_insert (x : Z) (l : list Z) : list Z :=
  match first_index INVALID_INDEX l with Some j => <[Z.to_nat j := x]> l | None => l end.

Definition row_valid (l : list Z) : bool := existsb (fun x => negb (x =? INVALID_INDEX)) l.

Lemma updateSizes_spec r f SZ rows : dynamic_repr r SZ rows -> dynamic_ok f -> Z.of_nat (length rows) <= d_size f -> d_size f * SZ <= index_max ->
  exists r', updateSizes r (Some f) = Done r' /\ dynamic_repr r' SZ (grow_rows SZ (d_size f) rows).
Proof.
  intros [H1 H2 H3 H4 H5 H6] [Hf Hf31] Hle Hmax. unfold updateSizes. cbn [ub mbind outcome_bind]. rewrite H1.
  unfold ix_mul. rewrite ix_small by nia. cbn [mbind outcome_bind]. unfold vector_resize.
  destruct (Z.ltb_spec (d_size f * SZ) 0); [nia|]. cbn [mbind outcome_bind]. eexists. split; [done|].
  pose proof (uniform_length SZ rows H4) as Hlen.
  assert (Z.of_nat (length (grow_rows SZ (d_size f) rows)) = d_size f) as Hg by (unfold grow_rows; rewrite length_app, length_replicate; lia).
  constructor; cbn [dc_card m_relationsVec m_currentFromSize]; [done|done| | |lia|lia].
  - rewrite H3, take_ge by nia. unfold grow_rows. rewrite join_app. f_equal.
    assert (forall k, mjoin (replicate k (free_row SZ)) = replicate (k * Z.to_nat SZ) INVALID_INDEX) as Hrep.
    { induction k as [|k IH]; [done|]. cbn [replicate]. rewrite join_cons, IH. unfold free_row. by rewrite <- replicate_add. }
    rewrite Hrep. f_equal. nia.
  - apply Forall_app. split; [done|]. apply Forall_replicate. unfold free_row. rewrite length_replicate. lia.
Qed.

Lemma expand_spec r f SZ rows i : dynamic_repr r SZ rows -> dynamic_ok f -> Z.of_nat (length rows) <= d_size f -> d_size f * SZ <= index_max ->
  0 <= i < d_size f ->
  exists r' rows', expandSizeIfNeeded r (Some f) (i + 1) = Done r' /\ dynamic_repr r' SZ rows' /\
    rows' = (if Z.of_nat (length rows) <? i + 1 then grow_rows SZ (d_size f) rows else rows) /\
    Z.of_nat (length rows') <= d_size f /\ i < Z.of_nat (length rows').
Proof.
  intros Hr Hf Hle Hmax Hi. unfold expandSizeIfNeeded. rewrite (dy_size _ _ _ Hr). destruct (Z.ltb_spec (Z.of_nat (length rows)) (i + 1)).
  - destruct (updateSizes_spec r f SZ rows) as (r' & -> & Hr'); [done..|]. exists r', (grow_rows SZ (d_size f) rows).
    unfold grow_rows in *. rewrite length_app, length_replicate. split_and!; [done|done|done|lia|lia].
  - exists r, rows. split_and!; [done|done|done|lia|lia].
Qed.

Lemma insert_slot_spec SZ rows i l x k : all_of_size SZ rows -> rows.[i] = Some l -> 0 < SZ < 2 ^ 31 -> (Z.of_nat (length rows)) * SZ <= index_max ->
  0 <= k <= SZ ->
  insert_slot (mjoin rows) SZ i x (up k SZ) =
    Done (mjoin (match first_index INVALID_INDEX (drop (Z.to_nat k) l) with
                 | Some j => <[Z.to_nat i := <[Z.to_nat (k + j) := x]> l]> rows | None => rows end)).
Proof.
  intros Hn Hl HSZ Hmax Hk. pose proof (zlookup_Some_bounds _ _ _ Hl) as Hi. pose proof (uniform_row SZ rows i l Hn Hl) as Hll.
  remember (Z.to_nat (SZ - k)) as m eqn:Hm. revert k Hk Hm. induction m as [|m IH]; intros k Hk Hm.
  { rewrite up_nil, drop_ge by lia. done. }
  rewrite up_cons by lia. cbn [insert_slot]. rewrite int_index_small by lia. cbn [mbind outcome_bind]. unfold ix_mul, ix_add.
  rewrite (Z.mul_comm SZ i), ix_small by nia. cbn [mbind outcome_bind]. rewrite ix_small by nia. cbn [mbind outcome_bind].
  rewrite (uniform_lookup SZ rows i l) by (done || lia). destruct (zlookup_lt l k) as [y Hy]; [lia|]. rewrite Hy, (drop_lookup l k y Hy).
  cbn [ub mbind outcome_bind first_index]. destruct (Z.eqb_spec y INVALID_INDEX) as [->|Hne].
  - rewrite (uniform_update SZ rows i l) by (done || lia). cbn [ub]. by rewrite Z.add_0_r.
  - rewrite (IH (k + 1)) by lia. destruct (first_index _ _) as [j|]; [|done]. cbn. by replace (k + Z.succ j) with (k + 1 + j) by lia.
Qed.

Lemma dynamic_insert_spec r f SZ rows i x : dynamic_repr r SZ rows -> dynamic_ok f -> Z.of_nat (length rows) <= d_size f ->
  d_size f * SZ <= index_max -> 0 <= i < d_size f ->
  exists r' rows' l, insert r (Some f) i x = Done r' /\ dynamic_repr r' SZ (<[Z.to_nat i := row_insert x l]> rows') /\
    rows' = (if Z.of_nat (length rows) <? i + 1 then grow_rows SZ (d_size f) rows else rows) /\
    Z.of_nat (length rows') <= d_size f /\ rows'.[i] = Some l.
Proof.
  intros Hr Hf Hle Hmax Hi. pose proof Hf as [_ Hf31]. pose proof index_max_lower. unfold insert, ix_add. rewrite ix_small by lia.
  cbn [mbind outcome_bind]. destruct (expand_spec r f SZ rows i) as (r1 & rows1 & -> & Hr1 & Hrows & Hle1 & Hi1); [done..|].
  cbn [mbind outcome_bind]. pose proof Hr1 as [H1 H2 H3 H4 H5 H6]. destruct (zlookup_lt rows1 i) as [l Hl]; [lia|]. rewrite H1, H3.
  rewrite (insert_slot_spec SZ rows1 i l x 0) by (done || lia). cbn [mbind outcome_bind].
  replace (match first_index INVALID_INDEX (drop (Z.to_nat 0) l) with
           | Some j => <[Z.to_nat i := <[Z.to_nat (0 + j) := x]> l]> rows1 | None => rows1 end)
    with (<[Z.to_nat i := row_insert x l]> rows1).
  2: { unfold row_insert. change (drop (Z.to_nat 0) l) with l. destruct (first_index _ l); [done|].
       rewrite zlookup_to_nat in Hl by lia. by rewrite list_insert_id. }
  pose proof (uniform_row SZ rows1 i l H4 Hl) as Hll.
  eexists _, rows1, l. split; [done|]. split_and!; [|done..].
  constructor; cbn [dc_card m_relationsVec m_currentFromSize]; [done|done|done| |by rewrite length_insert|by rewrite length_insert].
  apply uniform_insert; [done|]. unfold row_insert. destruct (first_index _ l); by rewrite ?length_insert.
Qed.

Lemma dynamic_modify_spec r f SZ rows i j x : dynamic_repr r SZ rows -> dynamic_ok f -> Z.of_nat (length rows) <= d_size f ->
  d_size f * SZ <= index_max -> 0 <= i < d_size f -> 0 <= j < SZ ->
  exists r' rows' l, modify r (Some f) i j x = Done r' /\ dynamic_repr r' SZ (<[Z.to_nat i := <[Z.to_nat j := x]> l]> rows') /\
    rows' = (if Z.of_nat (length rows) <? i + 1 then grow_rows SZ (d_size f) rows else rows) /\
    Z.of_nat (length rows') <= d_size f /\ rows'.[i] = Some l.
Proof.
  intros Hr Hf Hle Hmax Hi Hj. pose proof Hf as [_ Hf31]. pose proof index_max_lower. unfold modify, ix_add, ix_mul. rewrite ix_small by lia.
  cbn [mbind outcome_bind]. destruct (expand_spec r f SZ rows i) as (r1 & rows1 & -> & Hr1 & Hrows & Hle1 & Hi1); [done..|].
  cbn [mbind outcome_bind]. pose proof Hr1 as [H1 H2 H3 H4 H5 H6]. destruct (zlookup_lt rows1 i) as [l Hl]; [lia|]. rewrite H1, H3.
  rewrite (Z.mul_comm SZ i), ix_small by nia. cbn [mbind outcome_bind]. rewrite ix_small by nia. cbn [mbind outcome_bind].
  rewrite (uniform_update SZ rows1 i l) by (done || lia). cbn [ub mbind outcome_bind]. pose proof (uniform_row SZ rows1 i l H4 Hl) as Hll.
  eexists _, rows1, l. split; [done|]. split_and!; [|done..].
  constructor; cbn [dc_card m_relationsVec m_currentFromSize]; [done|done|done| |by rewrite length_insert|by rewrite length_insert].
  apply uniform_insert; [done|]. by rewrite length_insert.
Qed.
Lemma any_valid_spec SZ rows i l k : all_of_size SZ rows -> rows.[i] = Some l -> 0 <= k <= SZ ->
  any_valid (mjoin rows) (up (i * SZ + k) (i * SZ + SZ)) = Done (row_valid (drop (Z.to_nat k) l)).
Proof.
  intros Hn Hl Hk. pose proof (zlookup_Some_bounds _ _ _ Hl) as Hi. pose proof (uniform_row SZ rows i l Hn Hl) as Hll.
  remember (Z.to_nat (SZ - k)) as m eqn:Hm. revert k Hk Hm. induction m as [|m IH]; intros k Hk Hm.
  { by rewrite up_nil, drop_ge by lia. }
  rewrite up_cons by lia. cbn [any_valid]. rewrite (uniform_lookup SZ rows i l) by (done || lia).
  destruct (zlookup_lt l k) as [y Hy]; [lia|]. rewrite Hy, (drop_lookup l k y Hy). cbn [ub mbind outcome_bind row_valid existsb].
  destruct (negb (y =? INVALID_INDEX)); [done|]. rewrite <- Z.add_assoc. by apply IH; lia.
Qed.

(** An entry is valid when the element is, and one of its slots is taken. *)
Definition entry_valid (fl : list Z) (rows : list (list Z)) (i : Z) : bool :=
  match fl.[i], rows.[i] with
  | Some x, Some l => negb (x =? INVALID_ENTRY) && row_valid l
  | _, _ => false
  end.

Lemma isValidEntry_spec r f SZ rows i : dynamic_repr r SZ rows -> dynamic_ok f -> i < Z.of_nat (length rows) -> Z.of_nat (length rows) <= d_size f ->
  isValidEntry r (Some f) i = Done (entry_valid (d_data f) rows i).
Proof.
  intros [H1 H2 H3 H4 H5 H6] Hf Hi Hle. unfold isValidEntry, entry_valid. cbn [ub mbind outcome_bind].
  rewrite DynamicSet_isValidEntry_spec by done. cbn [mbind outcome_bind]. destruct ((d_data f).[i]) as [x|] eqn:Hx; [|done].
  pose proof (zlookup_Some_bounds _ _ _ Hx). destruct (zlookup_lt rows i) as [l Hl]; [lia|]. rewrite Hl.
  destruct (negb (x =? INVALID_ENTRY)); [|done]. rewrite H1, H3. unfold ix_mul, ix_add. rewrite ix_small by nia. cbn [mbind outcome_bind].
  rewrite ix_small by nia. cbn [mbind outcome_bind andb]. rewrite <- (Z.add_0_r (i * SZ)) at 1. by rewrite (any_valid_spec SZ rows i l 0) by (done || lia).
Qed.

Lemma remove_loop_spec SZ rows i l : all_of_size SZ rows -> rows.[i] = Some l -> 0 < SZ < 2 ^ 31 -> (Z.of_nat (length rows)) * SZ <= index_max ->
  for_each (up 0 SZ) (fun j vec => j ← int_index j; b ← ix_mul SZ i; idx ← ix_add b j; ub (zupdate vec idx INVALID_INDEX)) (mjoin rows) =
    Done (mjoin (<[Z.to_nat i := free_row SZ]> rows)).
Proof.
  intros Hn Hl HSZ Hmax. pose proof (zlookup_Some_bounds _ _ _ Hl) as Hi. pose proof (uniform_row SZ rows i l Hn Hl) as Hll.
  set (row_at := fun k => replicate (Z.to_nat k) INVALID_INDEX ++ drop (Z.to_nat k) l).
  destruct (for_up_inv (fun k vec => vec = mjoin (<[Z.to_nat i := row_at k]> rows)) 0 SZ
    (fun j vec => j ← int_index j; b ← ix_mul SZ i; idx ← ix_add b j; ub (zupdate vec idx INVALID_INDEX)) (mjoin rows)) as (v & -> & ->).
  - lia.
  - rewrite zlookup_to_nat in Hl by lia. by rewrite list_insert_id.
  - intros k vec Hk ->. rewrite int_index_small by lia. cbn [mbind outcome_bind]. unfold ix_mul, ix_add.
    rewrite (Z.mul_comm SZ i), ix_small by nia. cbn [mbind outcome_bind]. rewrite ix_small by nia. cbn [mbind outcome_bind].
    assert (Z.of_nat (length (row_at k)) = SZ) as Hrl by (unfold row_at; rewrite length_app, length_replicate, length_drop; lia).
    rewrite (uniform_update SZ (<[Z.to_nat i := row_at k]> rows) i (row_at k)).
    2: by apply uniform_insert. 2: { rewrite zlookup_to_nat by lia. apply list_lookup_insert_eq. lia. } 2: done.
    cbn [ub]. eexists. split; [done|]. rewrite list_insert_insert_eq. f_equal. f_equal.
    destruct (zlookup_lt l k) as [y Hy]; [lia|]. unfold row_at. rewrite (drop_lookup l k y Hy).
    rewrite insert_app_r_alt by (rewrite length_replicate; lia). rewrite length_replicate, Nat.sub_diag. cbn [insert list_insert].
    replace (Z.to_nat (k + 1)) with (Z.to_nat k + 1)%nat by lia. by rewrite replicate_add, <- app_assoc.
  - do 2 f_equal. unfold row_at, free_row. by rewrite drop_ge, app_nil_r by lia.
Qed.

(** Removing frees the slots of a valid entry and does nothing otherwise. *)
Definition remove_row (SZ : Z) (fl : list Z) (rows : list (list Z)) (i : Z) : list (list Z) :=
  if entry_valid fl rows i then <[Z.to_nat i := free_row SZ]> rows else rows.

Lemma dynamic_remove_spec r f SZ rows i : dynamic_repr r SZ rows -> dynamic_ok f -> i < Z.of_nat (length rows) -> Z.of_nat (length rows) <= d_size f ->
  exists r', remove r (Some f) i = Done r' /\ dynamic_repr r' SZ (remove_row SZ (d_data f) rows i).
Proof.
  intros Hr Hf Hi Hle. unfold remove. rewrite (isValidEntry_spec r f SZ rows) by done. cbn [mbind outcome_bind].
  unfold remove_row. destruct (entry_valid _ _ _) eqn:Ev; cbn [negb]; [|by exists r].
  unfold entry_valid in Ev. destruct ((d_data f).[i]), (rows.[i]) as [l|] eqn:Hl; try done.
  pose proof Hr as [H1 H2 H3 H4 H5 H6]. rewrite H1, H3, (remove_loop_spec SZ rows i l) by done. cbn [mbind outcome_bind].
  eexists. split; [done|]. constructor; cbn [dc_card m_relationsVec m_currentFromSize]; [done|done|done| |by rewrite length_insert|by rewrite length_insert].
  apply uniform_insert; [done|]. unfold free_row. rewrite length_replicate. lia.
Qed.

Lemma dynamic_count_spec r f SZ rows : dynamic_repr r SZ rows -> dynamic_ok f -> Z.of_nat (length rows) <= d_size f ->
  numberOfValidEntries r (Some f) =
    Done (Z.of_nat (length (filter (fun i => entry_valid (d_data f) rows i = true) (up 0 (Z.of_nat (length rows)))))).
Proof.
  intros Hr Hf Hle. pose proof Hf as [_ Hf31]. pose proof index_max_lower. unfold numberOfValidEntries. rewrite (dy_size _ _ _ Hr), to_int32_id by lia.
  destruct (for_up_inv (fun k c => c = Z.of_nat (length (filter (fun i => entry_valid (d_data f) rows i = true) (up 0 k)))) 0 (Z.of_nat (length rows))
    (fun i nvalid => b ← isValidEntry r (Some f) i; ix_add nvalid (if (b : bool) then 1 else 0)) 0) as (c & -> & ->); [lia|done| |done].
  intros k c Hk ->. rewrite (isValidEntry_spec r f SZ rows) by (done || lia). cbn [mbind outcome_bind].
  assert (up 0 (k + 1) = up 0 k ++ [k]) as ->.
  { unfold up. rewrite !Z.sub_0_r, seqZ_app by lia. done. }
  rewrite filter_app, length_app. unfold ix_add.
  pose proof (length_filter (fun i => entry_valid (d_data f) rows i = true) (up 0 k)) as Hfl. unfold up in Hfl at 2. rewrite length_seqZ in Hfl.
  destruct (entry_valid (d_data f) rows k) eqn:Ev; rewrite ix_small by lia; (eexists; split; [done|]); rewrite filter_cons, filter_nil; case_decide; try congruence; cbn; lia.
Qed.

(** Subscripting gives a set over the slots of an element. *)
Lemma dynamic_row_spec r SZ rows i l : dynamic_repr r SZ rows -> rows.[i] = Some l ->
  exists s, dc_row r i = Done s /\ elements (dc_heap r) s = Done l.
Proof.
  intros [H1 H2 H3 H4 H5 H6] Hl. pose proof (zlookup_Some_bounds _ _ _ Hl) as Hi. pose proof (uniform_row SZ rows i l H4 Hl) as Hll.
  pose proof index_max_lower. unfold dc_row, ix_mul. rewrite H1, ix_small by nia. cbn [mbind outcome_bind]. eexists. split; [done|].
  set (s := build_row _ _ _).
  assert (size s = SZ) as Hsz.
  { change (size s) with (size_of (P := SizeType) (size_make SZ)). rewrite <- H1. apply size_of_make, stride_accepted. }
  assert (end_ s = Done (mkIterator (size s * stride s + offset s) s)) as He.
  { unfold end_, ix_mul, ix_add. rewrite Hsz. change (stride s) with 1. change (offset s) with (i * SZ).
    rewrite Z.mul_1_r, ix_small by nia. cbn [mbind outcome_bind]. by rewrite ix_small by nia. }
  assert (typed s) as Ht by (split; apply fits_iff; [change (offset s) with (i * SZ)|change (stride s) with 1]; nia).
  apply (elements_spec (dc_heap r) s _ l Ht He); [done|lia|]. intros k Hk.
  rewrite (set_at_spec (dc_heap r) s _ k Ht He) by lia. change (k * stride s + offset s) with (k * 1 + i * SZ).
  destruct (zlookup_lt l k Hk) as [x Hx]. exists x. split; [|done]. change (os_ind s) with (mkSTLVectorIndirection (Some self)).
  cbn [indirection STLVectorIndirection_policy m_vecBuf]. apply read_Some. exists (mjoin rows). unfold dc_heap. rewrite lookup_singleton_eq, H3.
  split; [done|]. rewrite Z.mul_1_r, Z.add_comm. rewrite (uniform_lookup SZ rows i l) by (done || lia). done.
Qed.

(** A new relation has a row of free slots for every element. *)
Lemma dynamic_make_spec f SZ : dynamic_ok f -> stride_of (stride_make (P := Str) stride_default) = SZ -> 0 < SZ < 2 ^ 31 ->
  0 <= d_size f -> d_size f * SZ <= index_max ->
  exists r, DynamicConstant_make (Str := Str) (Some f) = Done r /\ dynamic_repr r SZ (grow_rows SZ (d_size f) []).
Proof.
  intros Hf Hst HSZ Hn Hmax. unfold DynamicConstant_make.
  assert (forall n cur, updateSizes (mkDynamicConstant (card_make n) [] cur : DynamicConstantRelation Str) (Some f) =
    updateSizes (mkDynamicConstant (card_make n) [] 0) (Some f)) as Hcur by done.
  assert (exists n : Z, (if ptr_isEmpty (DynamicSet_as_Set <$> Some f) then Done 0 else s ← ub (Some f); Done (d_size s)) = Done n) as [n ->].
  { destruct (ptr_isEmpty _); cbn; eauto. }
  cbn [mbind outcome_bind]. rewrite Hcur. apply updateSizes_spec; [|done|cbn; lia|done].
  constructor; cbn [relationCardinality dc_card m_relationsVec m_currentFromSize]; [done|done|done|constructor|done|].
  cbn. pose proof index_max_lower. lia.
Qed.

(** *** Programs *)

(** The operations on a relation and on its from-set. *)
Inductive rel_op := FromInsert (v : Z) | FromRemove (i : Z) | RelInsert (i x : Z) | RelModify (i j x : Z) | RelRemove (i : Z) | RelUpdateSizes.

Definition rel_exec (st : DynamicSet * DynamicConstantRelation Str) (op : rel_op) : outcome (DynamicSet * DynamicConstantRelation Str) :=
  let '(f, r) := st in
  match op with
  | FromInsert v => '(f, _) ← DynamicSet_insert f v; Done (f, r)
  | FromRemove i => f ← DynamicSet_remove f i; Done (f, r)
  | RelInsert i x => r ← insert r (Some f) i x; Done (f, r)
  | RelModify i j x => r ← modify r (Some f) i j x; Done (f, r)
  | RelRemove i => r ← remove r (Some f) i; Done (f, r)
  | RelUpdateSizes => r ← updateSizes r (Some f); Done (f, r)
  end.

Fixpoint rel_run (st : DynamicSet * DynamicConstantRelation Str) (ops : list rel_op) : outcome (DynamicSet * DynamicConstantRelation Str) :=
  match ops with [] => Done st | op :: ops => st ← rel_exec st op; rel_run st ops end.

(** The same on the entries of the from-set and the rows.  Indices must be in range; an
    element that was added to the from-set must have been reached by an insertion, a
    modification or [updateSizes] before it is removed from the relation. *)
Definition rows_exec (SZ : Z) (st : list Z * list (list Z)) (op : rel_op) : option (list Z * list (list Z)) :=
  let '(fl, rows) := st in let n := Z.of_nat (length fl) in
  let reach i := if Z.of_nat (length rows) <? i + 1 then grow_rows SZ n rows else rows in
  match op with
  | FromInsert v => if (n + 1 <? 2 ^ 31) && ((n + 1) * SZ <=? index_max) then Some (fl ++ [v], rows) else None
  | FromRemove i => fl' ← zupdate fl i (-1); Some (fl', rows)
  | RelInsert i x => if (0 <=? i) && (i <? n) then l ← (reach i).[i]; Some (fl, <[Z.to_nat i := row_insert x l]> (reach i)) else None
  | RelModify i j x => if (0 <=? i) && (i <? n) && (0 <=? j) && (j <? SZ) then
                         l ← (reach i).[i]; Some (fl, <[Z.to_nat i := <[Z.to_nat j := x]> l]> (reach i)) else None
  | RelRemove i => if i <? Z.of_nat (length rows) then Some (fl, remove_row SZ fl rows i) else None
  | RelUpdateSizes => Some (fl, grow_rows SZ n rows)
  end.

Fixpoint rows_run (SZ : Z) (st : list Z * list (list Z)) (ops : list rel_op) : option (list Z * list (list Z)) :=
  match ops with [] => Some st | op :: ops => st ← rows_exec SZ st op; rows_run SZ st ops end.

(** The from-set and the relation have these entries and rows. *)
Definition state_repr (SZ : Z) (st : DynamicSet * DynamicConstantRelation Str) (fl : list Z) (rows : list (list Z)) : Prop :=
  dynamic_ok st.1 /\ d_data st.1 = fl /\ dynamic_repr st.2 SZ rows /\ Z.of_nat (length rows) <= d_size st.1 /\ d_size st.1 * SZ <= index_max.

Lemma rel_exec_spec SZ st op fl rows fl' rows' : state_repr SZ st fl rows -> rows_exec SZ (fl, rows) op = Some (fl', rows') ->
  exists st', rel_exec st op = Done st' /\ state_repr SZ st' fl' rows'.
Proof.
  destruct st as [f r]. intros (Hf & <- & Hr & Hle & Hmax) He. cbn [fst snd] in *. pose proof Hf as [Hs Hf31].
  destruct op as [v|i|i x|i j x|i|]; cbn [rows_exec rel_exec] in *.
  - destruct (Z.ltb_spec (Z.of_nat (length (d_data f)) + 1) (2 ^ 31)), (Z.leb_spec ((Z.of_nat (length (d_data f)) + 1) * SZ) index_max); try done.
    injection He as <- <-. destruct (DynamicSet_insert_spec f v Hf ltac:(lia)) as [-> Hok]. eexists. split; [done|]. unfold state_repr; cbn. split_and!; [done..|lia|lia].
  - destruct (zupdate (d_data f) i (-1)) as [l|] eqn:Hu; [|done]. injection He as <- <-. apply zupdate_Some in Hu as [Hi ->].
    unfold DynamicSet_remove. destruct (DynamicSet_update_spec f i INVALID_ENTRY Hf ltac:(lia)) as [-> Hok]. eexists. split; [done|]. by unfold state_repr; cbn.
  - destruct (Z.leb_spec 0 i), (Z.ltb_spec i (Z.of_nat (length (d_data f)))); try done. cbn [andb] in He.
    destruct (dynamic_insert_spec r f SZ rows i x) as (r' & rows1 & l & -> & Hr' & Hrows & Hle1 & Hl); [done..|lia|]. rewrite Hs in Hrows.
    rewrite <- Hrows, Hl in He. cbn in He. injection He as <- <-. eexists. split; [done|]. unfold state_repr; cbn. rewrite length_insert. by split_and!.
  - destruct (Z.leb_spec 0 i), (Z.ltb_spec i (Z.of_nat (length (d_data f)))), (Z.leb_spec 0 j), (Z.ltb_spec j SZ); try done. cbn [andb] in He.
    destruct (dynamic_modify_spec r f SZ rows i j x) as (r' & rows1 & l & -> & Hr' & Hrows & Hle1 & Hl); [done..|lia|lia|]. rewrite Hs in Hrows.
    rewrite <- Hrows, Hl in He. cbn in He. injection He as <- <-. eexists. split; [done|]. unfold state_repr; cbn. rewrite length_insert. by split_and!.
  - destruct (Z.ltb_spec i (Z.of_nat (length rows))); [|done]. injection He as <- <-.
    destruct (dynamic_remove_spec r f SZ rows i) as (r' & -> & Hr'); [done..|]. eexists. split; [done|]. unfold state_repr; cbn. split_and!; [done..| |done].
    unfold remove_row. destruct (entry_valid _ _ _); by rewrite ?length_insert.
  - injection He as <- <-. destruct (updateSizes_spec r f SZ rows) as (r' & -> & Hr'); [done..|]. rewrite Hs in Hr'. eexists. split; [done|].
    unfold state_repr; cbn. split_and!; [done..| |done]. unfold grow_rows. rewrite length_app, length_replicate. lia.
Qed.

(** C22: A dynamic relation with constant cardinality is a list of rows of slots.  Every
    program of insertions into and removals from the from-set and the relation, whose
    indices are in range, gives the rows that the same program on lists gives: a new entry
    takes the first free slot of its row, rows appear for new elements, and removing the
    entries of an element frees its row if the element is still in the from-set and does
    nothing otherwise, where the documentation of [remove] says that all its values are
    marked as invalid.  Then subscripting iterates over the row, an entry is valid when its element
    is and a slot is taken, and the number of valid entries counts these. *)
Theorem dynamic_relation_refines_rows SZ st fl rows ops fl' rows' :
  state_repr SZ st fl rows -> rows_run SZ (fl, rows) ops = Some (fl', rows') ->
  exists f r, rel_run st ops = Done (f, r) /\ state_repr SZ (f, r) fl' rows' /\
    (forall i l, rows'.[i] = Some l -> exists s, dc_row r i = Done s /\ elements (dc_heap r) s = Done l) /\
    (forall i, i < Z.of_nat (length rows') -> isValidEntry r (Some f) i = Done (entry_valid fl' rows' i)) /\
    numberOfValidEntries r (Some f) =
      Done (Z.of_nat (length (filter (fun i => entry_valid fl' rows' i = true) (up 0 (Z.of_nat (length rows')))))).
Proof.
  revert st fl rows. induction ops as [|op ops IH]; intros st fl rows Hst Hrun; cbn [rows_run] in Hrun.
  - injection Hrun as <- <-. destruct st as [f r]. exists f, r. split; [done|]. split; [done|].
    destruct Hst as (Hf & <- & Hr & Hle & _). cbn [fst snd] in *. split_and!.
    + intros i l Hl. by eapply dynamic_row_spec.
    + intros i Hi. by apply (isValidEntry_spec r f SZ).
    + by apply (dynamic_count_spec r f SZ).
  - destruct (rows_exec SZ (fl, rows) op) as [[fl1 rows1]|] eqn:E; [|done]. cbn [mbind option_bind] in Hrun.
    destruct (rel_exec_spec SZ st op fl rows fl1 rows1 Hst E) as (st1 & He & Hst1). cbn [rel_run]. rewrite He. cbn [mbind outcome_bind].
    by eapply IH.
Qed.
End Constant.

(** ** Variable cardinality *)

Section Variable_.
Context {IB : IndexBits}.

(** Insertions into a relation, in order. *)
Fixpoint insert_all (r : DynamicVariableRelation) (ins : list (Z * Z)) : outcome DynamicVariableRelation :=
  match ins with [] => Done r | (i, x) :: ins => r ← DynamicVariable_insert r i x; insert_all r ins end.

(** What was inserted for one element. *)
Definition inserted (ins : list (Z * Z)) (i : Z) : list Z := snd <$> filter (fun p => p.1 = i) ins.

Lemma insert_all_spec ins r : Forall (fun p => 0 <= p.1 < Z.of_nat (length (dv_relationsVec r))) ins ->
  exists r', insert_all r ins = Done r' /\ length (dv_relationsVec r') = length (dv_relationsVec r) /\
    forall i l, (dv_relationsVec r).[i] = Some l -> (dv_relationsVec r').[i] = Some (l ++ inserted ins i).
Proof.
  revert r. induction ins as [|[j x] ins IH]; intros r Hins.
  { exists r. split_and!; [done..|]. intros i l ->. unfold inserted. cbn. by rewrite app_nil_r. }
  inversion_clear Hins as [|? ? Hj Hins']. cbn [fst] in Hj. cbn [insert_all]. unfold DynamicVariable_insert, DynamicVariable_row.
  destruct (zlookup_lt (dv_relationsVec r) j Hj) as [lj Hlj]. rewrite Hlj. cbn [ub mbind outcome_bind]. rewrite zupdate_lt by done.
  cbn [ub mbind outcome_bind]. destruct (IH (mkDynamicVariable (<[Z.to_nat j := lj ++ [x]]> (dv_relationsVec r)))) as (r' & -> & Hlen & Hr').
  { cbn [dv_relationsVec]. by rewrite length_insert. }
  exists r'. cbn [dv_relationsVec] in *. rewrite length_insert in Hlen. split_and!; [done..|]. intros i l Hl.
  pose proof (zlookup_Some_bounds _ _ _ Hl). unfold inserted in *. rewrite filter_cons. cbn [fst]. destruct (decide (j = i)) as [->|Hne].
  - rewrite Hl in Hlj. injection Hlj as <-. rewrite (Hr' i (l ++ [x])); [by rewrite <- app_assoc|].
    rewrite zlookup_to_nat by lia. apply list_lookup_insert_eq. lia.
  - apply Hr'. rewrite zlookup_to_nat by lia. rewrite list_lookup_insert_ne by lia. by rewrite <- zlookup_to_nat by lia.
Qed.

Lemma total_size_spec rows : Z.of_nat (length (mjoin rows)) <= index_max ->
  DynamicVariable_totalSize (mkDynamicVariable rows) = Done (Z.of_nat (length (mjoin rows))).
Proof.
  intros Hmax. unfold DynamicVariable_totalSize. cbn [dv_relationsVec].
  assert (forall a, 0 <= a -> a + Z.of_nat (length (mjoin rows)) <= index_max ->
    foldl (fun acc (vec : list Z) => sz ← acc; ix_add sz (Z.of_nat (length vec))) (Done a) rows = Done (a + Z.of_nat (length (mjoin rows)))) as Hf.
  { clear Hmax. induction rows as [|l rows IH]; intros a Ha Hm; [cbn; f_equal; lia|].
    rewrite join_cons, length_app in *. cbn [foldl mbind outcome_bind]. unfold ix_add at 2. rewrite ix_small by lia. rewrite IH by lia. f_equal. lia. }
  by rewrite Hf by lia.
Qed.

(** The rows have all that was inserted. *)
Lemma inserted_perm ins n : Forall (fun p => 0 <= p.1 < n) ins -> mjoin (inserted ins <$> up 0 n) ≡ₚ snd <$> ins.
Proof.
  intros Hins. rewrite (join_perm _ (fun k => snd <$> filter (fun p : Z * Z => Some p.1 = Some k) ins)).
  2: { intros k Hk. unfold inserted. apply Permutation_refl'. f_equal. apply list_filter_iff. intros p. split; [by intros ->|by intros [= ->]]. }
  assert (forall (F : Z -> list (Z * Z)) l, mjoin ((fun k => snd <$> F k) <$> l) = snd <$> mjoin (F <$> l)) as ->.
  { intros F l. induction l as [|k l IH]; [done|]. by rewrite !fmap_cons, !join_cons, fmap_app, IH. }
  apply fmap_Permutation.
  rewrite (join_groups (fun p : Z * Z => Some p.1)); [|apply NoDup_seqZ|].
  - apply Permutation_refl', filter_all. intros p _. by eexists.
  - intros p k Hp [= <-]. apply elem_of_up. rewrite Forall_forall in Hins. by apply Hins.
Qed.

(** A dynamic relation with variable cardinality keeps for every element what was
    inserted for it, in order.  After any insertions in range the total size is the
    number of insertions, and [isValid] holds exactly when all that was inserted is below
    the size of the to-set; it does not look for negative positions. *)
Theorem dynamic_variable_rows from to ins n nt : set_of_size (Some from) n -> set_of_size (Some to) nt -> 0 < n -> 0 < nt ->
  Z.of_nat (length ins) <= index_max ->
  Forall (fun p => 0 <= p.1 < n) ins ->
  exists r, (r ← DynamicVariable_make (Some from); insert_all r ins) = Done r /\
    (forall i, 0 <= i < n -> DynamicVariable_row r i = Done (inserted ins i)) /\
    DynamicVariable_totalSize r = Done (Z.of_nat (length ins)) /\
    DynamicVariable_isValid r (Some from) (Some to) = Done (forallb (fun p => p.2 <? nt) ins).
Proof.
  intros (f & [= <-] & Hf & Hfe) (t & [= <-] & Ht & Hte) Hn Hnt Hmax Hins.
  unfold DynamicVariable_make. rewrite Hf. destruct (Z.ltb_spec n 0); [lia|]. cbn [mbind outcome_bind].
  destruct (insert_all_spec ins (mkDynamicVariable (replicate (Z.to_nat n) []))) as (r & -> & Hlen & Hr).
  { cbn [dv_relationsVec]. rewrite length_replicate. rewrite Z2Nat.id by lia. done. }
  cbn [dv_relationsVec] in *. rewrite length_replicate in Hlen. exists r. split; [done|].
  assert (forall i, 0 <= i < n -> (dv_relationsVec r).[i] = Some (inserted ins i)) as Hrow.
  { intros i Hi. apply (Hr i []). rewrite zlookup_to_nat by lia. apply lookup_replicate. split; [done|lia]. }
  assert (dv_relationsVec r = inserted ins <$> up 0 n) as Hvec.
  { apply zlookup_ext; [rewrite length_fmap; unfold up; rewrite length_seqZ; lia|]. intros i Hi. rewrite Hlen in Hi.
    rewrite Hrow, zlookup_fmap by lia. unfold up. rewrite zlookup_to_nat, lookup_seqZ_lt by lia. cbn. do 2 f_equal. lia. }
  pose proof (inserted_perm ins n Hins) as Hperm. rewrite <- Hvec in Hperm.
  assert (length (mjoin (dv_relationsVec r)) = length ins) as Hj by (rewrite Hperm; apply length_fmap).
  split_and!.
  - intros i Hi. unfold DynamicVariable_row. by rewrite Hrow.
  - destruct r as [rows]. cbn [dv_relationsVec] in Hj. by rewrite total_size_spec, Hj by lia.
  - unfold DynamicVariable_isValid. rewrite Hfe, Hte, Hf, Ht. destruct (Z.eqb_spec n 0); [lia|]. destruct (Z.eqb_spec nt 0); [lia|]. cbn [orb].
    unfold DynamicVariable_fromSetSize. rewrite Hlen, Z2Nat.id, Z.eqb_refl by lia.
    assert (lists (DynamicVariable_row r) (dv_relationsVec r)) as Hl.
    { intros k Hk. unfold DynamicVariable_row. destruct (zlookup_lt _ k Hk) as [l ->]. by exists l. }
    pose proof (for_each_lists _ (forallb (fun x => negb (nt <=? x))) (dv_relationsVec r) true Hl) as Hc.
    rewrite Hlen, Z2Nat.id in Hc by lia. rewrite Hc. cbn [andb]. f_equal. apply eq_true_iff_eq.
    rewrite !forallb_forall. setoid_rewrite forallb_forall. setoid_rewrite negb_true_iff. setoid_rewrite Z.leb_gt. setoid_rewrite Z.ltb_lt.
    setoid_rewrite <- list_elem_of_In. split.
    + intros Hall p Hp. assert (p.2 ∈ mjoin (dv_relationsVec r)) as Hin by (rewrite Hperm; apply list_elem_of_fmap; eauto).
      apply list_elem_of_join in Hin as (l & Hpl & Hl'). by apply (Hall l).
    + intros Hall l Hl' x Hx. assert (x ∈ snd <$> ins) as Hin by (rewrite <- Hperm; apply list_elem_of_join; eauto).
      apply list_elem_of_fmap in Hin as (p & -> & Hp). by apply Hall.
Qed.
End Variable_.

(** ** Examples *)

#[local] Instance long_bits : IndexBits := IndexType64.

(** Two elements, with two slots each. *)
Definition two_slots : DynamicSet * DynamicConstantRelation (CompileTimeStride 2) :=
  (mkDynamicSet 2 [0; 1], mkDynamicConstant (card_make 2) [-1; -1; -1; -1] 2).

Definition slot_program : list rel_op := [RelInsert 0 5; FromInsert 2; RelInsert 0 6; RelInsert 2 7; RelRemove 0; RelInsert 0 8].

Lemma dynamic_relation_refines_rows_witness :
  exists f r, rel_run two_slots slot_program = Done (f, r) /\ m_relationsVec r = [8; -1; -1; -1; 7; -1] /\
    numberOfValidEntries r (Some f) = Done 2.
Proof.
  destruct (dynamic_relation_refines_rows 2 two_slots [0; 1] [[-1; -1]; [-1; -1]] slot_program [0; 1; 2] [[8; -1]; [-1; -1]; [7; -1]])
    as (f & r & Hrun & (_ & _ & Hr & _) & _ & _ & Hn).
  - unfold state_repr. cbn. split_and!; [done|done| |done|done].
    constructor; [done|done|done|by repeat constructor|done|done].
  - by vm_compute.
  - exists f, r. split; [done|]. split; [exact (dy_vec _ _ _ Hr)|exact Hn].
Defined.

Lemma dynamic_variable_rows_witness :
  let from := OrderedSet_as_Set ∅ (PositionSet_make 3) in let to := OrderedSet_as_Set ∅ (PositionSet_make 5) in
  exists r, (r ← DynamicVariable_make (Some from); insert_all r [(2, 4); (0, 1); (2, 0)]) = Done r /\
    DynamicVariable_row r 2 = Done [4; 0] /\ DynamicVariable_isValid r (Some from) (Some to) = Done true.
Proof.
  intros from to. destruct (dynamic_variable_rows from to [(2, 4); (0, 1); (2, 0)] 3 5) as (r & Hr & Hrow & _ & Hv);
    [by eexists|by eexists|lia|lia|done|by repeat constructor|].
  exists r. split; [done|]. split; [apply (Hrow 2); lia|exact Hv].
Defined.

(** A negative position passes [isValid]. *)
Example dynamic_variable_accepts_negative :
  DynamicVariable_isValid (mkDynamicVariable [[-3]]) (Some (OrderedSet_as_Set ∅ (PositionSet_make 1)))
    (Some (OrderedSet_as_Set ∅ (PositionSet_make 5))) = Done true.
Proof. by vm_compute. Qed.

(** When the from-set has grown, [isValid] finds the different size and goes on to read a
    row that is not there. *)
Example dynamic_variable_grown_from_set :
  DynamicVariable_isValid (mkDynamicVariable [[0]]) (Some (OrderedSet_as_Set ∅ (PositionSet_make 2)))
    (Some (OrderedSet_as_Set ∅ (PositionSet_make 5))) = Undefined.
Proof. by vm_compute. Qed.

(** An element that was removed from the from-set and still has entries passes [isValid]
    of the relation with constant cardinality. *)
Example dynamic_constant_accepts_removed :
  DynamicConstant_isValid (mkDynamicConstant (card_make 2) [0; 0; 0; 0] 2 : DynamicConstantRelation (CompileTimeStride 2))
    (Some (mkDynamicSet 2 [0; -1])) (Some (mkDynamicSet 1 [0])) = Done true.
Proof. by vm_compute. Qed.

(** Removing the entry of an element that has been removed from the from-set leaves its
    values. *)
Example remove_keeps_values :
  SlamRelations.remove (mkDynamicConstant (card_make 2) [0; 1; 2; 3] 2 : DynamicConstantRelation (CompileTimeStride 2))
    (Some (mkDynamicSet 2 [0; -1])) 1 = Done (mkDynamicConstant (card_make 2) [0; 1; 2; 3] 2).
Proof. by vm_compute. Qed.

(** The entry of an element that was added to the from-set is read past the end of the
    relation. *)
Example dynamic_constant_reads_past_end :
  isValidEntry (mkDynamicConstant (card_make 1) [0; 0] 1 : DynamicConstantRelation (CompileTimeStride 2)) (Some (mkDynamicSet 2 [0; 1])) 1 = Undefined.
Proof. by vm_compute. Qed.

End SlamDynamicRelations.
