(* ===== verification/SlamBivariate.v ===== *)
(** * Sets of pairs of slam

    [BivariateSet.hpp] with its iterator, [ProductSet.hpp], [RelationSet.hpp] and
    [BivariateSetInterfacePolicies.hpp].  A bivariate set has pairs of a position of a
    first and a position of a second set, numbered row by row by a flat index.

    Positions are checked by assertions only.  The assertions on flat indices have a
    string as their condition and never fail; what they compute is here. *)

From S2P Require Import Prelude Outcome SlamPolicies SlamSets SlamRelations.

Module SlamBivariate.
Import Outcome SlamPolicies SlamSets SlamRelations.

Definition INVALID_POS : Z := -1.

Section Bivariate.
Context {IB : IndexBits}.

(** ** [BivariateSet] *)

Class BivariateSet (B : Type) := {
  getFirstSet : B -> option Set_;
  getSecondSet : B -> option Set_;
  findElementIndex : Heap -> B -> Z -> Z -> outcome Z;
  findElementFlatIndex : Heap -> B -> Z -> Z -> outcome Z;
  findRowFlatIndex : Heap -> B -> Z -> outcome Z;
  flatToFirstIndex : Heap -> B -> Z -> outcome Z;
  flatToSecondIndex : Heap -> B -> Z -> outcome Z;
  elementRangeSet : Heap -> B -> Z -> outcome RangeSet;
  bset_size : Heap -> B -> outcome Z;
  bset_row_size : Heap -> B -> Z -> outcome Z;
  bset_at : Heap -> B -> Z -> outcome Z;
  bset_isValid : Heap -> B -> outcome bool;
  indices_use_indirection : bool }.

Definition getSize (s : option Set_) : outcome Z := s ← ub s; Done (set_size s).

Definition firstSetSize {B} `{!BivariateSet B} (s : B) : outcome Z := getSize (getFirstSet s).
Definition secondSetSize {B} `{!BivariateSet B} (s : B) : outcome Z := getSize (getSecondSet s).

(** [isValid] of the base class. *)
Definition BivariateSet_isValid (s1 s2 : option Set_) : outcome bool :=
  match s1, s2 with
  | Some s1, Some s2 => b ← set_isValid s1; if (b : bool) then set_isValid s2 else Done false
  | _, _ => Done false
  end.

(** *** The iterator, which has a flat index *)

Section Iterator.
Context {B : Type} `{!BivariateSet B}.

Record BivariateSetIterator := mkBivariateIterator { bi_pos : Z; bi_bset : B }.

Definition bi_flatIndex (it : BivariateSetIterator) : Z := bi_pos it.
Definition bi_firstIndex (h : Heap) (it : BivariateSetIterator) : outcome Z := flatToFirstIndex h (bi_bset it) (bi_flatIndex it).
Definition bi_secondIndex (h : Heap) (it : BivariateSetIterator) : outcome Z := flatToSecondIndex h (bi_bset it) (bi_flatIndex it).

Definition bi_deref (h : Heap) (it : BivariateSetIterator) : outcome (Z * Z) :=
  i ← bi_firstIndex h it; j ← bi_secondIndex h it; Done (i, j).

Definition bi_advance (it : BivariateSetIterator) (n : Z) : outcome BivariateSetIterator :=
  p ← ix_add (bi_pos it) n; Done (mkBivariateIterator p (bi_bset it)).

Definition bset_begin (s : B) : BivariateSetIterator := mkBivariateIterator 0 s.
Definition bset_end (h : Heap) (s : B) : outcome BivariateSetIterator := n ← bset_size h s; Done (mkBivariateIterator n s).

(** The pairs that a loop from one iterator to another visits, as far as the fuel goes. *)
Fixpoint bset_iterate (fuel : nat) (h : Heap) (it last : BivariateSetIterator) : outcome (list (Z * Z)) :=
  if negb (bi_pos it =? bi_pos last) then
    match fuel with
    | O => Undefined
    | S fuel => x ← bi_deref h it; it ← bi_advance it 1; l ← bset_iterate fuel h it last; Done (x :: l)
    end
  else Done [].

Definition bset_elements (h : Heap) (s : B) : outcome (list (Z * Z)) :=
  e ← bset_end h s; bset_iterate (Z.to_nat (bi_pos e)) h (bset_begin s) e.
End Iterator.

(** *** [NullBivariateSet]: every function returns the default value *)

Record NullBivariateSet := mkNullBivariateSet { }.

#[export] Instance NullBivariateSet_bset : BivariateSet NullBivariateSet := {
  getFirstSet _ := emptySet true;
  getSecondSet _ := emptySet true;
  findElementIndex _ _ _ _ := Done 0;
  findElementFlatIndex _ _ _ _ := Done 0;
  findRowFlatIndex _ _ _ := Done 0;
  flatToFirstIndex _ _ _ := Done 0;
  flatToSecondIndex _ _ _ := Done 0;
  elementRangeSet _ _ _ := Done OrderedSet_default;
  bset_size _ _ := Done 0;
  bset_row_size _ _ _ := Done 0;
  bset_at _ _ _ := Done 0;
  bset_isValid _ _ := BivariateSet_isValid (emptySet true) (emptySet true);
  indices_use_indirection := true }.

(** ** [ProductSet] *)

(** The row that [getElements] returns.  With the virtual interface it is a set over an
    array that the product set owns; with the concrete one it is a set of positions. *)
Class RowSet (R : Type) := {
  RowOffset : Type;
  RowOffset_policy :: OffsetPolicy RowOffset;
  RowIndirection : Type;
  RowIndirection_policy :: IndirectionPolicy RowIndirection;
  row_make : Heap -> Z -> outcome (Heap * R);
  row_copy : Heap -> R -> outcome (Heap * R);
  row_destroy : Heap -> R -> Heap;
  row_get : R -> Z -> OrderedSet RuntimeSize RowOffset StrideOne RowIndirection NoSubset }.

Record ConcreteRow := mkConcreteRow { }.

#[export] Instance ConcreteRow_row : RowSet ConcreteRow := {
  RowOffset := ZeroOffset;
  RowIndirection := NoIndirection;
  row_make h _ := Done (h, mkConcreteRow);
  row_copy h r := Done (h, r);
  row_destroy h _ := h;
  row_get _ secondSetSize := PositionSet_make secondSetSize }.

(** The key of the array, and the set over a view of it. *)
Record VirtualRow := mkVirtualRow {
  vr_data : Z; vr_set : OrderedSet RuntimeSize RuntimeOffset StrideOne ArrayViewIndirection NoSubset }.

(** An array that is not in use. *)
Definition new_array (h : Heap) : Z := fresh (dom h).

(** A negative size leaves [std::iota] with no end. *)
Definition VirtualRow_make (h : Heap) (secondSetSize : Z) : outcome (Heap * VirtualRow) :=
  if secondSetSize <? 0 then Undefined
  else
    let b := new_array h in
    Done (<[b := up 0 secondSetSize]> h,
          mkVirtualRow b (build_row (Sz := RuntimeSize) (Ind := ArrayViewIndirection) secondSetSize 0 (Some b, secondSetSize))).

(** The array is copied; the set, and with it the view, refers to the first array. *)
Definition VirtualRow_copy (h : Heap) (r : VirtualRow) : outcome (Heap * VirtualRow) :=
  l ← ub (h !! vr_data r); let b := new_array h in Done (<[b := l]> h, mkVirtualRow b (vr_set r)).

#[export] Instance VirtualRow_row : RowSet VirtualRow := {
  RowOffset := RuntimeOffset;
  RowIndirection := ArrayViewIndirection;
  row_make := VirtualRow_make;
  row_copy := VirtualRow_copy;
  row_destroy h r := delete (vr_data r) h;
  row_get r _ := vr_set r }.

Section Product.
Context {R : Type} `{!RowSet R}.

Record ProductSet := mkProductSet { p_set1 : option Set_; p_set2 : option Set_; m_rowSet : R }.

Definition ProductSet_default (h : Heap) (abstract : bool) : outcome (Heap * ProductSet) :=
  '(h, r) ← row_make h 0; Done (h, mkProductSet (emptySet abstract) (emptySet abstract) r).

Definition ProductSet_make (h : Heap) (set1 set2 : option Set_) : outcome (Heap * ProductSet) :=
  n ← getSize set2; '(h, r) ← row_make h n; Done (h, mkProductSet set1 set2 r).

Definition ProductSet_copy (h : Heap) (p : ProductSet) : outcome (Heap * ProductSet) :=
  '(h, r) ← row_copy h (m_rowSet p); Done (h, mkProductSet (p_set1 p) (p_set2 p) r).

Definition ProductSet_destroy (h : Heap) (p : ProductSet) : Heap := row_destroy h (m_rowSet p).

Definition product_flat (p : ProductSet) (pos1 pos2 : Z) : outcome Z :=
  size2 ← getSize (p_set2 p); m ← ix_mul size2 pos1; ix_add m pos2.

Definition product_size (p : ProductSet) : outcome Z :=
  n1 ← getSize (p_set1 p); n2 ← getSize (p_set2 p); ix_mul n1 n2.

(** The condition before the assertion on a flat index. *)
Definition flat_check (size : outcome Z) (flatIndex : Z) : outcome bool :=
  if flatIndex <? 0 then Done true else n ← size; Done (n <? flatIndex).

Definition product_second (p : ProductSet) (flatIndex : Z) : outcome Z :=
  _ ← flat_check (product_size p) flatIndex; n ← getSize (p_set2 p); ix_rem flatIndex n.

Definition product_first (p : ProductSet) (flatIndex : Z) : outcome Z :=
  _ ← flat_check (product_size p) flatIndex; n ← getSize (p_set2 p); ix_div flatIndex n.

Definition product_range (p : ProductSet) (pos1 : Z) : outcome RangeSet :=
  sz ← getSize (p_set2 p); o ← ix_mul sz pos1; Done (OrderedSet_build (builder_offset (builder_size SetBuilder_new sz) o)).

Definition product_isValidIndex (p : ProductSet) (s1 s2 : Z) : outcome bool :=
  size1 ← getSize (p_set1 p); size2 ← getSize (p_set2 p);
  Done ((0 <=? s1) && (s1 <? size1) && (0 <=? s2) && (s2 <? size2)).

Definition product_getElements (p : ProductSet) (pos1 : Z) :
    outcome (OrderedSet RuntimeSize RowOffset StrideOne RowIndirection NoSubset) :=
  n ← getSize (p_set2 p); Done (row_get (m_rowSet p) n).

#[export] Instance ProductSet_bset : BivariateSet ProductSet := {
  getFirstSet := p_set1;
  getSecondSet := p_set2;
  findElementIndex _ _ _ pos2 := Done pos2;
  findElementFlatIndex _ p := product_flat p;
  findRowFlatIndex _ p pos1 := product_flat p pos1 0;
  flatToFirstIndex _ := product_first;
  flatToSecondIndex _ := product_second;
  elementRangeSet _ := product_range;
  bset_size _ := product_size;
  bset_row_size _ p _ := getSize (p_set2 p);
  bset_at _ p pos := n ← getSize (p_set2 p); ix_rem pos n;
  bset_isValid _ p := BivariateSet_isValid (p_set1 p) (p_set2 p);
  indices_use_indirection := false }.
End Product.

(** ** [RelationSet] *)

Section RelationSet.
Context {C Ind : Type} `{!CardinalityPolicy C, !IndirectionPolicy Ind, !BufferIndirection Ind}.
Notation Relation := (StaticRelation C Ind).

Record RelationSet := mkRelationSet { rs_set1 : option Set_; rs_set2 : option Set_; m_relation : option Relation }.

Definition RelationSet_make (abstract1 abstract2 : bool) (relation : option Relation) : RelationSet :=
  match relation with
  | Some r => mkRelationSet (r_fromSet r) (r_toSet r) relation
  | None => mkRelationSet (emptySet abstract1) (emptySet abstract2) None
  end.

(** The search of a row. *)
Fixpoint find_in (h : Heap) {Sz : Type} `{!SizePolicy Sz} (ls : OrderedSet Sz RuntimeOffset StrideOne Ind NoSubset) (pos2 : Z) (l : list Z) :
    outcome (option Z) :=
  match l with
  | [] => Done None
  | i :: l => x ← at_ h ls i; if x =? pos2 then Done (Some i) else find_in h ls pos2 l
  end.

Definition relation_find (h : Heap) (s : RelationSet) (pos1 pos2 : Z) : outcome Z :=
  r ← ub (m_relation s); ls ← row h r pos1; o ← find_in h ls pos2 (up 0 (size ls));
  Done (match o with Some i => i | None => INVALID_POS end).

Definition relation_flat (h : Heap) (s : RelationSet) (s1 s2 : Z) : outcome Z :=
  r ← ub (m_relation s); ls ← row h r s1; o ← find_in h ls s2 (up 0 (size ls));
  match o with Some i => ix_add (offset ls) i | None => Done INVALID_POS end.

Definition relation_row_flat (h : Heap) (s : RelationSet) (pos1 : Z) : outcome Z :=
  r ← ub (m_relation s); ls ← row h r pos1; Done (if 0 <? size ls then offset ls else INVALID_POS).

(** [relationData()] is the whole buffer. *)
Definition relation_totalSize (h : Heap) (s : RelationSet) : outcome Z :=
  r ← ub (m_relation s); buf_size h (os_ind (m_relationIndices r)).

Definition relation_data (h : Heap) (s : RelationSet) (pos : Z) : outcome Z :=
  r ← ub (m_relation s); indirection h (os_ind (m_relationIndices r)) pos.

Definition relation_second (h : Heap) (s : RelationSet) (flatIndex : Z) : outcome Z :=
  _ ← flat_check (relation_totalSize h s) flatIndex; relation_data h s flatIndex.

Definition relation_first (h : Heap) (s : RelationSet) (flatIndex : Z) : outcome Z :=
  _ ← flat_check (relation_totalSize h s) flatIndex; r ← ub (m_relation s); firstIndex h (r_card r) flatIndex.

Definition relation_range (h : Heap) (s : RelationSet) (pos1 : Z) : outcome RangeSet :=
  r ← ub (m_relation s); n ← card_size h (r_card r) pos1; o ← card_offset h (r_card r) pos1;
  Done (OrderedSet_build (builder_offset (builder_size SetBuilder_new n) o)).

Definition relation_row_size (h : Heap) (s : RelationSet) (pos : Z) : outcome Z :=
  r ← ub (m_relation s); card_size h (r_card r) pos.

Definition relation_getElements (h : Heap) (s : RelationSet) (s1 : Z) :
    outcome (OrderedSet RowSize RuntimeOffset StrideOne Ind NoSubset) :=
  r ← ub (m_relation s); row h r s1.

Definition relation_isValid (h : Heap) (s : RelationSet) : outcome bool :=
  match m_relation s with None => Done false | Some r => StaticRelation_isValid h r end.

#[export] Instance RelationSet_bset : BivariateSet RelationSet := {
  getFirstSet := rs_set1;
  getSecondSet := rs_set2;
  findElementIndex := relation_find;
  findElementFlatIndex := relation_flat;
  findRowFlatIndex := relation_row_flat;
  flatToFirstIndex := relation_first;
  flatToSecondIndex := relation_second;
  elementRangeSet := relation_range;
  bset_size := relation_totalSize;
  bset_row_size := relation_row_size;
  bset_at := relation_data;
  bset_isValid := relation_isValid;
  indices_use_indirection := true }.
End RelationSet.

End Bivariate.
Arguments BivariateSetIterator : clear implicits.
Arguments ProductSet : clear implicits.
Arguments RelationSet : clear implicits.

End SlamBivariate.
