(* ===== verification/SlamBivariateTheorems.v ===== *)
(** * Theorems on the sets of pairs of slam

    A bivariate set is a list of rows: the second indices that go with every first
    index.  The class [BivariateLaws] says what a bivariate set promises; the theorem on
    flat indices and on iteration is proved against it, and the product set and the
    relation set are instances. *)

From S2P Require Import Prelude Outcome SlamPolicies SlamSets SlamSetTheorems SlamRelations SlamRelationTheorems SlamDynamicRelations SlamBivariate.

Module SlamBivariateTheorems.
Import Outcome SlamPolicies SlamSets SlamSetTheorems SlamRelations SlamRelationTheorems SlamDynamicRelations SlamBivariate.

(** ** Flat indices *)

(** The flat index of the first pair of a row. *)
Definition start (rows : list (list Z)) (i : Z) : Z := sumZ (takeZ i (row_sizes rows)).

Lemma start_zero rows : start rows 0 = 0.
Proof. done. Qed.

Lemma start_cons l rows i : 0 < i -> start (l :: rows) i = Z.of_nat (length l) + start rows (i - 1).
Proof. intros Hi. unfold start, takeZ. by replace (Z.to_nat i) with (S (Z.to_nat (i - 1))) by lia. Qed.

Lemma zlookup_cons_pos {A} (x : A) l i : 0 < i -> (x :: l).[i] = l.[i - 1].
Proof. intros Hi. rewrite !zlookup_to_nat by lia. by replace (Z.to_nat i) with (S (Z.to_nat (i - 1))) by lia. Qed.

(** Every flat index is that of a pair. *)
Lemma flat_split rows f : 0 <= f < Z.of_nat (length (mjoin rows)) ->
  exists i l k, rows.[i] = Some l /\ 0 <= k < Z.of_nat (length l) /\ f = start rows i + k.
Proof.
  revert f. induction rows as [|l rows IH]; intros f Hf; [cbn in Hf; lia|]. rewrite join_cons, length_app in Hf.
  destruct (decide (f < Z.of_nat (length l))); [exists 0, l, f; rewrite start_zero; split_and!; [done|lia..]|].
  destruct (IH (f - Z.of_nat (length l))) as (i & l' & k & Hl & Hk & Hfk); [lia|]. pose proof (zlookup_Some_bounds _ _ _ Hl).
  exists (i + 1), l', k. rewrite zlookup_cons_pos, start_cons by lia. replace (i + 1 - 1) with i by lia. split_and!; [done|lia..].
Qed.

Fixpoint pairs_from (i : Z) (rows : list (list Z)) : list (Z * Z) :=
  match rows with [] => [] | l :: rows => (pair i <$> l) ++ pairs_from (i + 1) rows end.

(** The pairs, row by row. *)
Definition pairs (rows : list (list Z)) : list (Z * Z) := pairs_from 0 rows.

Lemma pairs_from_length i rows : length (pairs_from i rows) = length (mjoin rows).
Proof. revert i. induction rows as [|l rows IH]; intros i; [done|]. cbn [pairs_from]. by rewrite join_cons, !length_app, length_fmap, IH. Qed.

Lemma pairs_from_lookup i0 rows i l k j : rows.[i] = Some l -> l.[k] = Some j ->
  (pairs_from i0 rows).[start rows i + k] = Some (i0 + i, j).
Proof.
  revert i0 i. induction rows as [|l0 rows IH]; intros i0 i Hl Hk; [by apply zlookup_Some_bounds in Hl; cbn in Hl; lia|].
  pose proof (zlookup_Some_bounds _ _ _ Hl). pose proof (zlookup_Some_bounds _ _ _ Hk). cbn [pairs_from]. rewrite zlookup_app, length_fmap.
  destruct (decide (i = 0)) as [->|Hne].
  - injection Hl as ->. rewrite start_zero, Z.add_0_l, decide_True by lia. by rewrite zlookup_fmap, Hk, Z.add_0_r.
  - rewrite zlookup_cons_pos in Hl by lia. rewrite start_cons by lia.
    pose proof (flat_bound rows (i - 1) l k Hl ltac:(lia)) as [Hb _]. fold (start rows (i - 1)) in Hb.
    rewrite decide_False by lia. replace (Z.of_nat (length l0) + start rows (i - 1) + k - Z.of_nat (length l0)) with (start rows (i - 1) + k) by lia.
    rewrite (IH (i0 + 1) (i - 1) Hl Hk). do 2 f_equal. lia.
Qed.

Lemma first_index_NoDup l k j : NoDup l -> l.[k] = Some j -> first_index j l = Some k.
Proof.
  intros Hnd Hk. destruct (first_index j l) as [k'|] eqn:E.
  - apply first_index_lookup in E as [Hk' _]. pose proof (zlookup_Some_bounds _ _ _ Hk). pose proof (zlookup_Some_bounds _ _ _ Hk').
    rewrite zlookup_to_nat in Hk, Hk' by lia. f_equal. pose proof (NoDup_lookup _ _ _ _ Hnd Hk Hk'). lia.
  - apply first_index_None in E. destruct E. pose proof (zlookup_Some_bounds _ _ _ Hk). rewrite zlookup_to_nat in Hk by lia.
    by eapply list_elem_of_lookup_2.
Qed.

Lemma first_index_seqZ n j : 0 <= j < n -> first_index j (seqZ 0 n) = Some j.
Proof. intros Hj. apply first_index_NoDup; [apply NoDup_seqZ|]. rewrite zlookup_to_nat, lookup_seqZ_lt by lia. f_equal. lia. Qed.

Section Bivariate.
Context {IB : IndexBits}.

(** [bset_repr h s n rows]: the pairs of the set are those of the rows, over a second set
    of size [n]. *)
Class BivariateLaws (B : Type) `{!BivariateSet B} := {
  bset_repr : Heap -> B -> Z -> list (list Z) -> Prop;
  bset_max h s n rows : bset_repr h s n rows -> Z.of_nat (length (mjoin rows)) <= index_max;
  bset_size_spec h s n rows : bset_repr h s n rows -> bset_size h s = Done (Z.of_nat (length (mjoin rows)));
  bset_first_spec h s n rows : bset_repr h s n rows -> firstSetSize s = Done (Z.of_nat (length rows));
  bset_second_spec h s n rows : bset_repr h s n rows -> secondSetSize s = Done n;
  bset_row_size_spec h s n rows i l : bset_repr h s n rows -> rows.[i] = Some l -> bset_row_size h s i = Done (Z.of_nat (length l));
  bset_flat_spec h s n rows i l k j : bset_repr h s n rows -> rows.[i] = Some l -> l.[k] = Some j ->
    flatToFirstIndex h s (start rows i + k) = Done i /\ flatToSecondIndex h s (start rows i + k) = Done j /\
    bset_at h s (start rows i + k) = Done j;
  bset_find_spec h s n rows i l j : bset_repr h s n rows -> rows.[i] = Some l -> 0 <= j < n ->
    findElementIndex h s i j = Done (match first_index j l with Some k => k | None => INVALID_POS end) /\
    findElementFlatIndex h s i j = Done (match first_index j l with Some k => start rows i + k | None => INVALID_POS end);
  bset_find_row_spec h s n rows i l : bset_repr h s n rows -> rows.[i] = Some l -> l <> [] ->
    findRowFlatIndex h s i = Done (start rows i);
  bset_range_spec h s n rows i l : bset_repr h s n rows -> rows.[i] = Some l ->
    exists r, elementRangeSet h s i = Done r /\ size r = Z.of_nat (length l) /\ offset r = start rows i;
  bset_dense_spec h s n rows i l k j : bset_repr h s n rows -> indices_use_indirection (B := B) = false -> rows.[i] = Some l -> l.[k] = Some j -> j = k }.

Section Generic.
Context {B : Type} `{!BivariateSet B, !BivariateLaws B}.
Implicit Types (s : B) (h : Heap).

Lemma bset_deref_spec h s n rows f x : bset_repr h s n rows -> (pairs rows).[f] = Some x ->
  bi_deref h (mkBivariateIterator f s) = Done x.
Proof.
  intros Hr Hx. pose proof (zlookup_Some_bounds _ _ _ Hx) as Hf. unfold pairs in Hf. rewrite pairs_from_length in Hf.
  destruct (flat_split rows f Hf) as (i & l & k & Hl & Hk & ->). destruct (zlookup_lt l k Hk) as [j Hj].
  unfold pairs in Hx. rewrite (pairs_from_lookup 0 rows i l k j Hl Hj) in Hx. injection Hx as <-.
  destruct (bset_flat_spec h s n rows i l k j Hr Hl Hj) as (H1 & H2 & _). unfold bi_deref, bi_firstIndex, bi_secondIndex. cbn.
  by rewrite H1, H2.
Qed.

Lemma bset_iterate_spec h s n rows p fuel : bset_repr h s n rows -> 0 <= p <= Z.of_nat (length (pairs rows)) ->
  (Z.to_nat (Z.of_nat (length (pairs rows)) - p) <= fuel)%nat ->
  bset_iterate fuel h (mkBivariateIterator p s) (mkBivariateIterator (Z.of_nat (length (pairs rows))) s) = Done (dropZ p (pairs rows)).
Proof.
  intros Hr. pose proof (bset_max h s n rows Hr) as Hmax. rewrite <- (pairs_from_length 0) in Hmax. fold (pairs rows) in Hmax.
  revert p. induction fuel as [|fuel IH]; intros p Hp Hf; cbn [bset_iterate bi_pos].
  { assert (p = Z.of_nat (length (pairs rows))) as -> by lia. rewrite Z.eqb_refl. unfold dropZ. by rewrite drop_ge by lia. }
  destruct (Z.eqb_spec p (Z.of_nat (length (pairs rows)))) as [->|Hne]; cbn [negb].
  { unfold dropZ. by rewrite drop_ge by lia. }
  destruct (zlookup_lt (pairs rows) p) as [x Hx]; [lia|]. rewrite (bset_deref_spec h s n rows p x Hr Hx).
  cbn [mbind outcome_bind]. unfold bi_advance, ix_add. cbn [bi_pos bi_bset]. rewrite ix_small by lia. cbn [mbind outcome_bind].
  rewrite IH by lia. cbn [mbind outcome_bind]. f_equal. rewrite zlookup_to_nat in Hx by lia. unfold dropZ.
  replace (Z.to_nat (p + 1)) with (S (Z.to_nat p)) by lia. by rewrite <- drop_S.
Qed.

Lemma bset_elements_spec h s n rows : bset_repr h s n rows -> bset_elements h s = Done (pairs rows).
Proof.
  intros Hr. unfold bset_elements, bset_end. rewrite (bset_size_spec h s n rows Hr). cbn [mbind outcome_bind bi_pos].
  rewrite <- (pairs_from_length 0). fold (pairs rows). unfold bset_begin. by rewrite (bset_iterate_spec h s n rows) by (done || lia).
Qed.

(** The range of a row. *)
Lemma bset_range_lists h s n rows i l : bset_repr h s n rows -> rows.[i] = Some l ->
  exists r, elementRangeSet h s i = Done r /\ size r = Z.of_nat (length l) /\
    (forall k, 0 <= k < Z.of_nat (length l) -> at_ h r k = Done (start rows i + k)) /\
    elements h r = Done (seqZ (start rows i) (Z.of_nat (length l))).
Proof.
  intros Hr Hl. pose proof (bset_max h s n rows Hr) as Hmax. destruct (bset_range_spec h s n rows i l Hr Hl) as (r & Hrange & Hsz & Ho). exists r.
  pose proof (flat_bound rows i l _ Hl (conj (Zle_0_nat (length l)) (Z.le_refl _))) as Hb. fold (start rows i) in Hb.
  pose proof index_max_lower as Hmx. assert (stride r = 1) as Hst by done.
  assert (end_ r = Done (mkIterator (size r * stride r + offset r) r)) as He.
  { unfold end_, ix_mul, ix_add. rewrite Hsz, Hst, Ho, Z.mul_1_r, ix_small by lia. cbn [mbind outcome_bind]. by rewrite ix_small by lia. }
  assert (typed r) as Ht by (split; apply fits_iff; rewrite ?Ho, ?Hst; lia).
  assert (forall k, 0 <= k < Z.of_nat (length l) -> at_ h r k = Done (start rows i + k)) as Hat.
  { intros k Hk. rewrite (set_at_spec h r _ k Ht He) by lia. rewrite Hst, Ho, Z.mul_1_r, Z.add_comm. done. }
  split_and!; [done..|]. eapply (elements_spec h r _ _ Ht He); [by rewrite Hst|rewrite Hsz, length_seqZ; lia|].
  intros k Hk. rewrite length_seqZ in Hk. exists (start rows i + k). split; [apply Hat; lia|]. rewrite zlookup_to_nat, lookup_seqZ_lt by lia. f_equal. lia.
Qed.

(** What follows for every set of pairs that keeps the promises. *)
Lemma bivariate_pairs h s n rows : bset_repr h s n rows ->
  bset_elements h s = Done (pairs rows) /\
  (forall i l j, rows.[i] = Some l -> 0 <= j < n -> exists f, findElementFlatIndex h s i j = Done f /\
    (j ∈ l -> flatToFirstIndex h s f = Done i /\ flatToSecondIndex h s f = Done j) /\ (j ∉ l -> f = INVALID_POS)) /\
  (Forall NoDup rows -> Forall (Forall (fun j => 0 <= j < n)) rows ->
    forall f, 0 <= f < Z.of_nat (length (mjoin rows)) -> exists i j,
      flatToFirstIndex h s f = Done i /\ flatToSecondIndex h s f = Done j /\ findElementFlatIndex h s i j = Done f) /\
  (forall i l, rows.[i] = Some l -> exists r, elementRangeSet h s i = Done r /\ elements h r = Done (seqZ (start rows i) (Z.of_nat (length l)))).
Proof.
  intros Hr. pose proof (bset_max h s n rows Hr) as Hmax. split_and!.
  - by apply (bset_elements_spec h s n).
  - intros i l j Hl Hj. destruct (bset_find_spec h s n rows i l j Hr Hl Hj) as [_ ->]. eexists. split; [done|].
    destruct (first_index j l) as [k|] eqn:E; split.
    + intros _. apply first_index_lookup in E as [Hk _]. by destruct (bset_flat_spec h s n rows i l k j Hr Hl Hk) as (? & ? & _).
    + intros Hnin. by apply first_index_None in Hnin as Hn; rewrite Hn in E.
    + intros Hin. by apply first_index_None in E.
    + done.
  - intros Hnd Hb f Hf. destruct (flat_split rows f Hf) as (i & l & k & Hl & Hk & ->). destruct (zlookup_lt l k Hk) as [j Hj].
    destruct (bset_flat_spec h s n rows i l k j Hr Hl Hj) as (H1 & H2 & _). exists i, j. split_and!; [done..|].
    destruct (bset_find_spec h s n rows i l j Hr Hl (zlookup_Forall _ _ _ _ (zlookup_Forall _ _ _ _ Hb Hl) Hj)) as [_ ->].
    by rewrite (first_index_NoDup l k j (zlookup_Forall _ _ _ _ Hnd Hl) Hj).
  - intros i l Hl. destruct (bset_range_lists h s n rows i l Hr Hl) as (r & Hrange & _ & _ & He). by exists r.
Qed.
End Generic.

(** ** Product sets *)

Lemma getSize_spec s n : set_of_size s n -> getSize s = Done n.
Proof. intros (s' & -> & <- & _). done. Qed.

Lemma flat_check_spec size n f : size = Done n -> exists b, flat_check size f = Done b.
Proof. intros ->. unfold flat_check. destruct (f <? 0); by eexists. Qed.

Section Product.
Context {R : Type} `{!RowSet R}.
Implicit Types (p : ProductSet R).

Definition product_rows (n1 n2 : Z) : list (list Z) := replicate (Z.to_nat n1) (seqZ 0 n2).

Record product_repr p (n : Z) (rows : list (list Z)) : Prop := {
  pr_first : set_of_size (p_set1 p) (Z.of_nat (length rows));
  pr_second : set_of_size (p_set2 p) n;
  pr_rows : rows = product_rows (Z.of_nat (length rows)) n;
  pr_nonneg : 0 <= n <= index_max;
  pr_max : Z.of_nat (length rows) * n <= index_max }.

Lemma product_uniform p n rows : product_repr p n rows -> all_of_size n rows.
Proof.
  intros Hr. rewrite (pr_rows _ _ _ Hr). pose proof (pr_nonneg _ _ _ Hr). unfold product_rows, all_of_size. apply Forall_replicate. rewrite length_seqZ. lia.
Qed.

Lemma product_row p n rows i l : product_repr p n rows -> rows.[i] = Some l -> l = seqZ 0 n /\ start rows i = i * n /\ 0 <= i * n /\ i * n + n <= index_max.
Proof.
  intros Hr Hl. pose proof (zlookup_Some_bounds _ _ _ Hl). pose proof (pr_max _ _ _ Hr). pose proof (pr_nonneg _ _ _ Hr). split_and!.
  - rewrite (pr_rows _ _ _ Hr) in Hl. unfold product_rows in Hl. rewrite zlookup_to_nat in Hl by lia. by apply lookup_replicate in Hl as [-> _].
  - apply uniform_offset; [by eapply product_uniform|lia].
  - nia.
  - nia.
Qed.

Lemma product_size_spec p n rows : product_repr p n rows -> product_size p = Done (Z.of_nat (length rows) * n).
Proof.
  intros Hr. unfold product_size. rewrite (getSize_spec _ _ (pr_first _ _ _ Hr)), (getSize_spec _ _ (pr_second _ _ _ Hr)).
  pose proof (pr_max _ _ _ Hr). pose proof (pr_nonneg _ _ _ Hr). cbn [mbind outcome_bind]. unfold ix_mul. by rewrite ix_small by nia.
Qed.

Lemma product_flat_spec p n rows i l j : product_repr p n rows -> rows.[i] = Some l -> 0 <= j < n \/ j = 0 ->
  product_flat p i j = Done (start rows i + j).
Proof.
  intros Hr Hl Hj. destruct (product_row p n rows i l Hr Hl) as (_ & -> & Hi & Hm). pose proof (pr_nonneg _ _ _ Hr). unfold product_flat.
  rewrite (getSize_spec _ _ (pr_second _ _ _ Hr)). cbn [mbind outcome_bind]. unfold ix_mul, ix_add.
  rewrite (Z.mul_comm n i), ix_small by lia. cbn [mbind outcome_bind]. by rewrite ix_small by lia.
Qed.

#[export] Program Instance ProductSet_laws : BivariateLaws (ProductSet R) := { bset_repr _ p n rows := product_repr p n rows }.
Next Obligation. intros h p n rows Hr. rewrite (uniform_length n) by (by eapply product_uniform). apply Hr. Qed.
Next Obligation.
  intros h p n rows Hr. cbn. rewrite (product_size_spec p n rows Hr). by rewrite (uniform_length n) by (by eapply product_uniform).
Qed.
Next Obligation. intros h p n rows Hr. apply getSize_spec, Hr. Qed.
Next Obligation. intros h p n rows Hr. apply getSize_spec, Hr. Qed.
Next Obligation.
  intros h p n rows i l Hr Hl. cbn. rewrite (getSize_spec _ _ (pr_second _ _ _ Hr)). destruct (product_row p n rows i l Hr Hl) as (-> & _).
  pose proof (pr_nonneg _ _ _ Hr). rewrite length_seqZ. f_equal. lia.
Qed.
Next Obligation.
  intros h p n rows i l k j Hr Hl Hj. destruct (product_row p n rows i l Hr Hl) as (-> & -> & Hi & Hm).
  pose proof (zlookup_Some_bounds _ _ _ Hj) as Hk. rewrite length_seqZ in Hk. rewrite zlookup_to_nat, lookup_seqZ_lt in Hj by lia.
  injection Hj as <-. cbn. unfold product_first, product_second.
  destruct (flat_check_spec _ _ (i * n + k) (product_size_spec p n rows Hr)) as [b ->]. cbn [mbind outcome_bind].
  rewrite (getSize_spec _ _ (pr_second _ _ _ Hr)). cbn [mbind outcome_bind]. rewrite ix_div_small, ix_rem_small by lia.
  rewrite (Z.add_comm (i * n)), Z.div_add, Z.mod_add, Z.div_small, Z.mod_small by lia. split_and!; f_equal; lia.
Qed.
Next Obligation.
  intros h p n rows i l j Hr Hl Hj. cbn. rewrite (product_flat_spec p n rows i l j Hr Hl) by lia.
  destruct (product_row p n rows i l Hr Hl) as (-> & _). by rewrite first_index_seqZ.
Qed.
Next Obligation. intros h p n rows i l Hr Hl _. cbn. rewrite (product_flat_spec p n rows i l 0 Hr Hl) by lia. f_equal. lia. Qed.
Next Obligation.
  intros h p n rows i l Hr Hl. cbn. destruct (product_row p n rows i l Hr Hl) as (-> & -> & Hi & Hm). pose proof (pr_nonneg _ _ _ Hr).
  unfold product_range. rewrite (getSize_spec _ _ (pr_second _ _ _ Hr)). cbn [mbind outcome_bind]. unfold ix_mul.
  rewrite (Z.mul_comm n i), ix_small by lia. eexists. split; [done|]. rewrite length_seqZ, Z2Nat.id by lia. done.
Qed.
Next Obligation.
  intros h p n rows i l k j Hr _ Hl Hj. destruct (product_row p n rows i l Hr Hl) as (-> & _). pose proof (zlookup_Some_bounds _ _ _ Hj) as Hk.
  rewrite length_seqZ in Hk. rewrite zlookup_to_nat, lookup_seqZ_lt in Hj by lia. injection Hj as <-. lia.
Qed.

(** What the stored row promises. *)
Class RowLaws := {
  row_make_spec h n : 0 <= n <= index_max -> exists h' r, row_make h n = Done (h', r) /\ h ⊆ h' /\ elements h' (row_get r n) = Done (seqZ 0 n) }.

Lemma pairs_replicate i m l : pairs_from i (replicate m l) = seqZ i (Z.of_nat m) ≫= (fun i => pair i <$> l).
Proof.
  revert i. induction m as [|m IH]; intros i; [done|]. rewrite (seqZ_cons i) by lia. cbn [replicate pairs_from mbind list_bind].
  rewrite IH. do 2 f_equal. f_equal; lia.
Qed.

(** A product set has all pairs.  Building it over two sets leaves the other arrays
    alone and gives a set of pairs whose iterator visits every pair of a first and a second
    position once, in order, and whose every row lists all second positions. *)
Theorem product_set_complete `{!RowLaws} h s1 s2 n1 n2 : set_of_size s1 n1 -> set_of_size s2 n2 ->
  0 <= n1 -> 0 <= n2 <= index_max -> n1 * n2 <= index_max ->
  exists h' p, ProductSet_make h s1 s2 = Done (h', p) /\ h ⊆ h' /\ bset_repr h' p n2 (product_rows n1 n2) /\
    bset_elements h' p = Done (seqZ 0 n1 ≫= (fun i => pair i <$> seqZ 0 n2)) /\
    (forall i, exists row, product_getElements p i = Done row /\ elements h' row = Done (seqZ 0 n2)).
Proof.
  intros H1 H2 Hn1 Hn2 Hmax. unfold ProductSet_make. rewrite (getSize_spec _ _ H2). cbn [mbind outcome_bind].
  destruct (row_make_spec h n2 Hn2) as (h' & r & -> & Hsub & Hrow). cbn [mbind outcome_bind]. exists h', (mkProductSet s1 s2 r).
  assert (product_repr (mkProductSet s1 s2 r) n2 (product_rows n1 n2)) as Hr.
  { unfold product_rows. constructor; rewrite ?length_replicate, ?Z2Nat.id by lia; done. }
  split_and!; [done..| |].
  - rewrite (bset_elements_spec h' _ n2 (product_rows n1 n2)) by exact Hr. unfold pairs, product_rows.
    by rewrite pairs_replicate, Z2Nat.id by lia.
  - intros i. unfold product_getElements. cbn. rewrite (getSize_spec _ _ H2). by eexists.
Qed.
End Product.

(** ** Relation sets *)

Section Relation.
Context {C Ind : Type} `{!CardinalityPolicy C, !CardinalityLaws C, !IndirectionPolicy Ind, !IndirectionLaws Ind, !BufferIndirection Ind}.
Implicit Types (s : RelationSet C Ind) (r : StaticRelation C Ind).

(** The buffer of the relation has its entries and nothing else. *)
Record relation_set_repr h s (n : Z) (rows : list (list Z)) : Prop := {
  rsr_relation : exists r, m_relation s = Some r /\ relation_repr h r n rows /\
    rs_set1 s = r_fromSet r /\ rs_set2 s = r_toSet r /\
    buf_size h (os_ind (m_relationIndices r)) = Done (Z.of_nat (length (mjoin rows))) }.

Lemma relation_data_spec h s n rows f x : relation_set_repr h s n rows -> (mjoin rows).[f] = Some x -> relation_data h s f = Done x.
Proof.
  intros [(r & Hs & Hr & _)] Hx. pose proof (zlookup_Some_bounds _ _ _ Hx) as Hf. pose proof (relation_total h r n rows Hr).
  unfold relation_data. rewrite Hs. cbn [ub mbind outcome_bind]. rewrite <- indices_at by lia.
  destruct (rr_data _ _ _ _ Hr f Hf) as (y & -> & Hy). rewrite Hx in Hy. by injection Hy as <-.
Qed.

Lemma find_in_spec h {Sz : Type} `{!SizePolicy Sz} (ls : OrderedSet Sz RuntimeOffset StrideOne Ind NoSubset) l j k : lists (at_ h ls) l ->
  0 <= k <= Z.of_nat (length l) ->
  find_in h ls j (up k (Z.of_nat (length l))) = Done (Z.add k <$> first_index j (drop (Z.to_nat k) l)).
Proof.
  intros Hl Hk. remember (Z.to_nat (Z.of_nat (length l) - k)) as m eqn:Hm. revert k Hk Hm. induction m as [|m IH]; intros k Hk Hm.
  { by rewrite up_nil, drop_ge by lia. }
  rewrite up_cons by lia. cbn [find_in]. destruct (Hl k) as (x & -> & Hx); [lia|]. cbn [mbind outcome_bind].
  rewrite (drop_lookup l k x Hx). cbn [first_index]. destruct (Z.eqb_spec x j); [cbn; do 2 f_equal; lia|].
  rewrite IH by lia. destruct (first_index j _) as [i|]; [|done]. cbn. do 2 f_equal. lia.
Qed.

Lemma relation_row h s n rows i l : relation_set_repr h s n rows -> rows.[i] = Some l ->
  exists r ls, m_relation s = Some r /\ row h r i = Done ls /\ size ls = Z.of_nat (length l) /\ offset ls = start rows i /\
    (forall j, find_in h ls j (up 0 (size ls)) = Done (first_index j l)) /\ elements h ls = Done l.
Proof.
  intros [(r & Hs & Hr & _)] Hl. destruct (row_spec h r n rows i l Hr Hl) as (ls & Hrow & He & Hsz & Ho & Hls). exists r, ls.
  split_and!; [done..| |done]. intros j. rewrite Hsz, (find_in_spec h ls l j 0 Hls) by lia. change (drop (Z.to_nat 0) l) with l. by destruct (first_index j l).
Qed.

(** Finding works for any second index, also one that is not in the second set. *)
Lemma relation_flat_spec h s n rows i l j : relation_set_repr h s n rows -> rows.[i] = Some l ->
  relation_find h s i j = Done (default INVALID_POS (first_index j l)) /\
  relation_flat h s i j = Done (match first_index j l with Some k => start rows i + k | None => INVALID_POS end).
Proof.
  intros Hr Hl. destruct (relation_row h s n rows i l Hr Hl) as (r & ls & Hs & Hrow & Hsz & Ho & Hfind & _).
  unfold relation_find, relation_flat. rewrite Hs. cbn [ub mbind outcome_bind]. rewrite Hrow. cbn [mbind outcome_bind].
  rewrite Hfind. cbn [mbind outcome_bind]. split; [by destruct (first_index j l)|]. destruct (first_index j l) as [k|] eqn:E; [|done]. rewrite Ho.
  apply first_index_lookup in E as [Hk _]. pose proof (zlookup_Some_bounds _ _ _ Hk). destruct Hr as [(r' & _ & Hr & _)].
  pose proof (relation_total h r' n rows Hr). pose proof (flat_bound rows i l k Hl ltac:(lia)) as Hb. fold (start rows i) in Hb.
  unfold ix_add. by rewrite ix_small by lia.
Qed.

#[export] Program Instance RelationSet_laws : BivariateLaws (RelationSet C Ind) := { bset_repr := relation_set_repr }.
Next Obligation. intros h s n rows [(r & _ & Hr & _)]. by eapply relation_total. Qed.
Next Obligation. intros h s n rows [(r & Hs & _ & _ & _ & Hb)]. cbn. unfold relation_totalSize. by rewrite Hs. Qed.
Next Obligation. intros h s n rows [(r & Hs & Hr & H1 & H2 & Hb)]. apply getSize_spec. cbn. rewrite H1. apply Hr. Qed.
Next Obligation. intros h s n rows [(r & Hs & Hr & H1 & H2 & Hb)]. apply getSize_spec. cbn. rewrite H2. apply Hr. Qed.
Next Obligation.
  intros h s n rows i l [(r & Hs & Hr & _)] Hl. cbn. unfold relation_row_size. rewrite Hs. cbn [ub mbind outcome_bind].
  by rewrite (card_size_spec h _ _ i _ (rr_card _ _ _ _ Hr) (row_sizes_lookup rows i l Hl)).
Qed.
Next Obligation.
  intros h s n rows i l k j Hr Hl Hj. pose proof (zlookup_Some_bounds _ _ _ Hj) as Hk.
  assert ((mjoin rows).[start rows i + k] = Some j) as Hf by (unfold start; by rewrite (join_lookup rows i l k Hl Hk)).
  pose proof (relation_data_spec h s n rows _ _ Hr Hf) as Hd. destruct Hr as [(r & Hs & Hr & _ & _ & Hb)].
  cbn. unfold relation_first, relation_second. destruct (flat_check_spec (relation_totalSize h s) (Z.of_nat (length (mjoin rows))) (start rows i + k)) as [b ->].
  { unfold relation_totalSize. by rewrite Hs. }
  cbn [mbind outcome_bind]. rewrite Hd, Hs. cbn [ub mbind outcome_bind]. split; [|done].
  exact (firstIndex_spec h _ _ i _ k (rr_card _ _ _ _ Hr) (row_sizes_lookup rows i l Hl) Hk).
Qed.
Next Obligation.
  intros h s n rows i l j Hr Hl _. by apply (relation_flat_spec h s n).
Qed.
Next Obligation.
  intros h s n rows i l Hr Hl Hne. destruct (relation_row h s n rows i l Hr Hl) as (r & ls & Hs & Hrow & Hsz & Ho & _).
  cbn. unfold relation_row_flat. rewrite Hs. cbn [ub mbind outcome_bind]. rewrite Hrow. cbn [mbind outcome_bind]. rewrite Hsz, Ho.
  destruct (Z.ltb_spec 0 (Z.of_nat (length l))); [done|]. destruct l; [done|]. cbn in *. lia.
Qed.
Next Obligation.
  intros h s n rows i l [(r & Hs & Hr & _)] Hl. pose proof (zlookup_Some_bounds _ _ _ Hl). cbn. unfold relation_range. rewrite Hs. cbn [ub mbind outcome_bind].
  rewrite (card_size_spec h _ _ i _ (rr_card _ _ _ _ Hr) (row_sizes_lookup rows i l Hl)). cbn [mbind outcome_bind].
  rewrite (card_offset_spec h _ _ i (rr_card _ _ _ _ Hr)) by (unfold row_sizes; rewrite length_fmap; lia). cbn [mbind outcome_bind]. by eexists.
Qed.
Next Obligation. done. Qed.
End Relation.

(** ** The pairs of the two sets *)

(** C21: The flat indices of a set of pairs number its pairs.  In a product set over two sets
    whose numbers of pairs are values of the [IndexType], iterating visits all pairs in
    order, the flat index of a pair maps back to its first and second index, every flat
    index up to the size is the one of a pair, and the range of a row has the flat indices
    of its pairs, one after the other.  In a relation set over a static relation whose
    buffer holds its entries and nothing else, iterating visits the pairs row by row; for
    an element of a row, the flat index that is found is the one of its first occurrence
    and maps back to the two indices, and for an element that is not in the row none is
    found; when no row has an element twice, finding is also the inverse on flat indices;
    and the range of a row has the flat indices of its pairs. *)
Theorem bivariate_set_pairs {R : Type} `{!RowSet R} {C Ind : Type} `{!CardinalityPolicy C, !CardinalityLaws C, !IndirectionPolicy Ind, !IndirectionLaws Ind, !BufferIndirection Ind}
    h (p : ProductSet R) n1 n2 (s : RelationSet C Ind) n rows :
  (set_of_size (p_set1 p) n1 -> set_of_size (p_set2 p) n2 -> 0 <= n1 -> 0 <= n2 <= index_max -> n1 * n2 <= index_max ->
    bset_elements h p = Done (seqZ 0 n1 ≫= (fun i => pair i <$> seqZ 0 n2)) /\
    (forall i j, 0 <= i < n1 -> 0 <= j < n2 -> product_flat p i j = Done (i * n2 + j) /\
      product_first p (i * n2 + j) = Done i /\ product_second p (i * n2 + j) = Done j) /\
    (forall f, 0 <= f < n1 * n2 -> exists i j, 0 <= i < n1 /\ 0 <= j < n2 /\
      product_first p f = Done i /\ product_second p f = Done j /\ product_flat p i j = Done f) /\
    (forall i, 0 <= i < n1 -> exists r, product_range p i = Done r /\ elements h r = Done (seqZ (i * n2) n2))) /\
  (relation_set_repr h s n rows ->
    bset_elements h s = Done (pairs rows) /\
    (forall i l j, rows.[i] = Some l -> exists f, relation_flat h s i j = Done f /\
      (j ∈ l -> (exists k, first_index j l = Some k /\ f = start rows i + k) /\
        relation_first h s f = Done i /\ relation_second h s f = Done j) /\ (j ∉ l -> f = INVALID_POS)) /\
    (Forall NoDup rows -> forall f, 0 <= f < Z.of_nat (length (mjoin rows)) -> exists i j,
      relation_first h s f = Done i /\ relation_second h s f = Done j /\ relation_flat h s i j = Done f) /\
    (forall i l, rows.[i] = Some l -> exists r, relation_range h s i = Done r /\
      elements h r = Done (seqZ (start rows i) (Z.of_nat (length l))))).
Proof.
  split.
  - intros H1 H2 Hn1 Hn2 Hmax. assert (product_repr p n2 (product_rows n1 n2)) as Hr.
    { unfold product_rows. constructor; rewrite ?length_replicate, ?Z2Nat.id by lia; done. }
    assert (bset_repr h p n2 (product_rows n1 n2)) as Hb by exact Hr.
    assert (forall i, 0 <= i < n1 -> (product_rows n1 n2).[i] = Some (seqZ 0 n2)) as Hrow.
    { intros i Hi. rewrite zlookup_to_nat by lia. apply lookup_replicate. split; [done|lia]. }
    assert (forall i j, 0 <= i < n1 -> 0 <= j < n2 -> product_flat p i j = Done (i * n2 + j) /\
      product_first p (i * n2 + j) = Done i /\ product_second p (i * n2 + j) = Done j) as Hflat.
    { intros i j Hi Hj. destruct (product_row _ _ _ _ _ Hr (Hrow i Hi)) as (_ & E & _). rewrite <- E. split.
      - apply (product_flat_spec p n2 _ i (seqZ 0 n2) j Hr (Hrow i Hi)). by left.
      - assert ((seqZ 0 n2).[j] = Some j) as Hs by (rewrite zlookup_to_nat, lookup_seqZ_lt by lia; f_equal; lia).
        by destruct (bset_flat_spec h p n2 (product_rows n1 n2) i (seqZ 0 n2) j j Hb (Hrow i Hi) Hs) as (? & ? & _). }
    split_and!; [|done| |].
    + rewrite (bset_elements_spec h p n2 (product_rows n1 n2) Hb). unfold pairs, product_rows. by rewrite pairs_replicate, Z2Nat.id by lia.
    + intros f Hf. assert (0 < n2) by nia. exists (f / n2), (f mod n2). pose proof (Z.mod_pos_bound f n2). assert (0 <= f / n2 < n1) as Hi.
      { split; [apply Z.div_pos; lia|apply Z.div_lt_upper_bound; lia]. }
      destruct (Hflat (f / n2) (f mod n2) Hi) as (E1 & E2 & E3); [lia|].
      assert (f / n2 * n2 + f mod n2 = f) as Ef by (pose proof (Z.div_mod f n2); lia). rewrite Ef in E1, E2, E3. split_and!; (done || lia).
    + intros i Hi. destruct (bset_range_lists h p n2 _ i _ Hb (Hrow i Hi)) as (r & Hrange & _ & _ & He). exists r. split; [exact Hrange|].
      destruct (product_row _ _ _ _ _ Hr (Hrow i Hi)) as (_ & E & _). rewrite E, length_seqZ, Z2Nat.id in He by lia. exact He.
  - intros Hr. assert (bset_repr h s n rows) as Hb by exact Hr. destruct (bivariate_pairs h s n rows Hb) as (He & _ & Hinv & Hrange). split_and!; [done| | |done].
    + intros i l j Hl. destruct (relation_flat_spec h s n rows i l j Hr Hl) as [_ E]. eexists. split; [exact E|].
      destruct (first_index j l) as [k|] eqn:Ek; split.
      * intros _. split; [by exists k|]. apply first_index_lookup in Ek as [Hk _]. by destruct (bset_flat_spec h s n rows i l k j Hb Hl Hk) as (? & ? & _).
      * intros Hnin. by apply first_index_None in Hnin as Hn; rewrite Hn in Ek.
      * intros Hin. by apply first_index_None in Ek.
      * done.
    + intros Hnd f Hf. destruct (flat_split rows f Hf) as (i & l & k & Hl & Hk & ->). destruct (zlookup_lt l k Hk) as [j Hj].
      destruct (bset_flat_spec h s n rows i l k j Hb Hl Hj) as (H1 & H2 & _). exists i, j. split; [done|]. split; [done|].
      destruct (relation_flat_spec h s n rows i l j Hr Hl) as [_ E]. rewrite (first_index_NoDup l k j (zlookup_Forall _ _ _ _ Hnd Hl) Hj) in E. exact E.
Qed.

(** ** The rows of product sets *)

#[export] Program Instance ConcreteRow_laws : RowLaws (R := ConcreteRow).
Next Obligation.
  intros h n Hn. exists h, mkConcreteRow. split_and!; [done..|]. pose proof index_max_lower.
  apply (elements_spec h _ (mkIterator (n * 1 + 0) (PositionSet_make n))); [split; apply fits_iff; cbn; lia| |done|cbn; rewrite length_seqZ; lia|].
  - unfold end_, ix_mul, ix_add. cbn. rewrite ix_small by lia. cbn [mbind outcome_bind]. by rewrite ix_small by lia.
  - intros k Hk. rewrite length_seqZ in Hk. exists k. split; [|rewrite zlookup_to_nat, lookup_seqZ_lt by lia; f_equal; lia].
    unfold at_, ix_mul, ix_add. cbn. rewrite ix_small by lia. cbn [mbind outcome_bind]. rewrite ix_small by lia. cbn. f_equal. lia.
Qed.

#[export] Program Instance VirtualRow_laws : RowLaws (R := VirtualRow).
Next Obligation.
  intros h n Hn. pose proof index_max_lower. cbn. unfold VirtualRow_make. destruct (Z.ltb_spec n 0); [lia|]. do 2 eexists. split; [done|].
  assert (h !! new_array h = None) as Hf by (apply not_elem_of_dom; unfold new_array; apply is_fresh). split; [by apply insert_subseteq|]. cbn [vr_set].
  set (s := build_row _ _ _).
  apply (elements_spec _ _ (mkIterator (n * 1 + 0) s)); [split; apply fits_iff; cbn; lia| |done|cbn; rewrite length_seqZ; lia|].
  - unfold end_, ix_mul, ix_add. cbn. rewrite ix_small by lia. cbn [mbind outcome_bind]. by rewrite ix_small by lia.
  - intros k Hk. rewrite length_seqZ in Hk. exists k. assert ((seqZ 0 n).[k] = Some k) as Hl by (rewrite zlookup_to_nat, lookup_seqZ_lt by lia; f_equal; lia).
    split; [|done]. unfold at_, ix_mul, ix_add. cbn. rewrite ix_small by lia. cbn [mbind outcome_bind]. rewrite ix_small by lia. cbn.
    unfold read, buffer. cbn. rewrite lookup_insert_eq. cbn. unfold up. replace (k * 1 + 0) with k by lia. by rewrite Z.sub_0_r, Hl.
Qed.

End Bivariate.

(** ** Examples *)

#[local] Instance long_bits : IndexBits := IndexType64.

Definition crs_set : RelationSet (VariableCardinality STLVectorIndirection) STLVectorIndirection :=
  RelationSet_make true true (Some crs_relation).

Lemma crs_set_repr : relation_set_repr crs_heap crs_set 4 [[3; 1]; []; [0]].
Proof. constructor. exists crs_relation. split_and!; [done|apply crs_relation_repr|done..]. Qed.

(** Pairs of two and three positions, and three entries in three rows. *)
Definition two_by_three : ProductSet ConcreteRow :=
  mkProductSet (Some (OrderedSet_as_Set ∅ (PositionSet_make 2))) (Some (OrderedSet_as_Set ∅ (PositionSet_make 3))) mkConcreteRow.

Lemma bivariate_set_pairs_witness :
  bset_elements crs_heap two_by_three = Done [(0, 0); (0, 1); (0, 2); (1, 0); (1, 1); (1, 2)] /\
  bset_elements crs_heap crs_set = Done [(0, 3); (0, 1); (2, 0)] /\
  (exists f, relation_flat crs_heap crs_set 0 1 = Done f /\ relation_first crs_heap crs_set f = Done 0).
Proof.
  destruct (bivariate_set_pairs crs_heap two_by_three 2 3 crs_set 4 [[3; 1]; []; [0]]) as [H1 H2].
  destruct H1 as [Hp _]; [by eexists|by eexists|lia|done|done|]. destruct (H2 crs_set_repr) as (He & Hfind & _). split; [exact Hp|]. split; [exact He|].
  destruct (Hfind 0 [3; 1] 1 eq_refl) as (f & Hf & Hin & _). exists f. split; [done|]. apply Hin. by right; left.
Defined.

Lemma product_set_complete_witness :
  let s1 := Some (OrderedSet_as_Set ∅ (PositionSet_make 2)) in let s2 := Some (OrderedSet_as_Set ∅ (PositionSet_make 3)) in
  exists h' p, ProductSet_make (R := VirtualRow) ∅ s1 s2 = Done (h', p) /\
    bset_elements h' p = Done [(0, 0); (0, 1); (0, 2); (1, 0); (1, 1); (1, 2)].
Proof.
  intros s1 s2. destruct (product_set_complete (R := VirtualRow) ∅ s1 s2 2 3) as (h' & p & Hp & _ & _ & He & _); [by eexists|by eexists|lia|done|done|].
  exists h', p. split; [done|exact He].
Defined.

(** The row of a copy of a product set with the virtual interface is read from the array
    of the original, which may be gone. *)
Example product_copy_dangles :
  let s := Some (OrderedSet_as_Set ∅ (PositionSet_make 2)) in
  ('(h, p) ← ProductSet_make (R := VirtualRow) ∅ s s; '(h, q) ← ProductSet_copy h p;
   row ← product_getElements q 0; l ← elements h row; Done (l, elements (ProductSet_destroy h p) row)) = Done ([0; 1], Undefined).
Proof. by vm_compute. Qed.

(** The size of a relation set is that of the buffer, also when the relation uses only a
    part of it; the relation is valid. *)
Example relation_set_counts_buffer :
  let h : Heap := {[ 1 := [0; 2; 2; 3]; 2 := [3; 1; 0; 9; 9] ]} in
  bset_isValid h crs_set = Done true /\ bset_size h crs_set = Done 5 /\ totalSize h crs_card = Done 3.
Proof. by vm_compute. Qed.

(** A row with no pairs has no first flat index in a relation set, and has one in a
    product set. *)
Example empty_row_flat_index :
  findRowFlatIndex crs_heap crs_set 1 = Done INVALID_POS /\
  findRowFlatIndex ∅ (mkProductSet (Some (OrderedSet_as_Set ∅ (PositionSet_make 2))) (Some (OrderedSet_as_Set ∅ (PositionSet_make 0))) mkConcreteRow) 1 = Done 0.
Proof. by vm_compute. Qed.

End SlamBivariateTheorems.
