(* ===== verification/SlamMaps.v ===== *)
(** * Maps of slam

    [Map.hpp] with its builder and iterators, [SubMap.hpp], [BivariateMap.hpp],
    [DynamicMap.hpp] and the policy [MultiDimStride] of [StridePolicies.hpp].  A map has
    for every position of a set a fixed number of values, its components.

    The values are in one [std::vector] that the map owns.  A submap refers to the map
    that it is a part of; its operations take the current state of this map.  The values
    a function returns by reference can be read and written, so there is an operation for
    each. *)

From S2P Require Import Prelude Outcome SlamPolicies SlamSets SlamRelations SlamBivariate.

Module SlamMaps.
Import Outcome SlamPolicies SlamSets SlamRelations SlamBivariate.

Section Maps.
Context {IB : IndexBits}.

(** Converting a size to the position type. *)
Definition to_index (z : Z) : Z := (z + 2 ^ (index_bits - 1)) mod 2 ^ index_bits - 2 ^ (index_bits - 1).

(** ** Components of an element *)

Class MapStride (P : Type) := {
  ElementShape : Type;
  DefaultSize : ElementShape;
  stride_construct : ElementShape -> outcome P;
  numComp : P -> outcome Z;
  ComponentIndex : Type;
  componentOffset : P -> ComponentIndex -> outcome Z }.

(** The policies with one dimension. *)
#[export] Instance OneDim_stride (P : Type) `{!StridePolicy P} : MapStride P := {
  ElementShape := Z;
  DefaultSize := stride_default (P := P);
  stride_construct n := Done (stride_make n);
  numComp p := Done (stride_of p);
  ComponentIndex := Z;
  componentOffset _ c := Done c }.

Record MultiDimStride (Dims : Z) := mkMultiDimStride { md_shape : list Z; md_strides : list Z }.
Arguments mkMultiDimStride {Dims}.
Arguments md_shape {Dims}.
Arguments md_strides {Dims}.

Definition MultiDimStride_make (Dims : Z) (shape : list Z) : outcome (MultiDimStride Dims) :=
  strides ← ub (zupdate (replicate (Z.to_nat Dims) 0) (Dims - 1) 1);
  strides ← for_each (down (Dims - 2) 0) (fun i strides =>
    a ← ub strides.[i + 1]; b ← ub shape.[i + 1]; v ← ix_mul a b; ub (zupdate strides i v)) strides;
  Done (mkMultiDimStride shape strides).

Definition MultiDimStride_stride {Dims} (p : MultiDimStride Dims) : outcome Z :=
  a ← ub (md_shape p).[0]; b ← ub (md_strides p).[0]; ix_mul a b.

Definition MultiDim_offset {Dims} (p : MultiDimStride Dims) (indexArray : list Z) : outcome Z :=
  for_each (up 0 Dims) (fun dim offset =>
    a ← ub indexArray.[dim]; b ← ub (md_strides p).[dim]; m ← ix_mul a b; ix_add offset m) 0.

#[export] Instance MultiDim_stride Dims : MapStride (MultiDimStride Dims) := {
  ElementShape := list Z;
  DefaultSize := replicate (Z.to_nat Dims) 1;
  stride_construct := MultiDimStride_make Dims;
  numComp := MultiDimStride_stride;
  ComponentIndex := list Z;
  componentOffset := MultiDim_offset }.

(** The set of a map, behind a pointer or by value; a set type that is abstract has no
    value. *)
Record SetContainer := mkSetContainer { m_pSet : option Set_; m_setValue : option Set_ }.

Definition container_get (c : SetContainer) : option Set_ :=
  match m_pSet c with Some p => Some p | None => m_setValue c end.

(** ** [Map] *)

Section Map.
Context {T P : Type} `{!MapStride P}.

Record Map := mkMap { m_str : P; m_setc : SetContainer; m_mapData : list T }.

Definition Map_size (m : Map) : Z :=
  match container_get (m_setc m) with
  | Some s => if set_isEmpty s then 0 else set_size s
  | None => 0
  end.

(** [IndirectionPolicy::create]; a negative size is too large for a vector. *)
Definition vector_create (n : Z) (value : T) : outcome (list T) :=
  if n <? 0 then Aborted else Done (replicate (Z.to_nat n) value).

Definition Map_make (theSet : SetContainer) (defaultValue : T) (shape : ElementShape) : outcome Map :=
  str ← stride_construct shape; let m := mkMap str theSet [] in
  k ← numComp str; n ← ix_mul (Map_size m) k; data ← vector_create n defaultValue; Done (mkMap str theSet data).

(** The constructor from data, which is extended by [DataType()] if it is too short. *)
Definition Map_make_data (zero : T) (theSet : SetContainer) (data : list T) (shape : ElementShape) : outcome Map :=
  str ← stride_construct shape; let m := mkMap str theSet data in
  k ← numComp str; neededSize ← ix_mul (Map_size m) k;
  if (Z.of_nat (length data) <? neededSize) || (neededSize <? 0) then
    data ← vector_resize data neededSize zero; Done (mkMap str theSet data)
  else Done m.

(** [operator[]], to read and to write. *)
Definition Map_at (m : Map) (setIndex : Z) : outcome T := ub (m_mapData m).[setIndex].

Definition Map_put (m : Map) (setIndex : Z) (x : T) : outcome Map :=
  l ← ub (zupdate (m_mapData m) setIndex x); Done (mkMap (m_str m) (m_setc m) l).

Definition elemIndex (m : Map) (setIdx : Z) (compIdx : ComponentIndex) : outcome Z :=
  k ← numComp (m_str m); e ← ix_mul setIdx k; o ← componentOffset (m_str m) compIdx; ix_add e o.

(** [value] and [operator()]. *)
Definition Map_value (m : Map) (setIdx : Z) (compIdx : ComponentIndex) : outcome T :=
  e ← elemIndex m setIdx compIdx; Map_at m e.

Definition Map_assign (m : Map) (setIdx : Z) (compIdx : ComponentIndex) (x : T) : outcome Map :=
  e ← elemIndex m setIdx compIdx; Map_put m e x.

Definition Map_index (m : Map) (idx : Z) : outcome Z := s ← ub (container_get (m_setc m)); set_at s idx.

Definition Map_fill (m : Map) (val : T) : outcome Map :=
  l ← for_each (up 0 (to_index (Z.of_nat (length (m_mapData m))))) (fun idx l => ub (zupdate l idx val)) (m_mapData m);
  Done (mkMap (m_str m) (m_setc m) l).

Definition Map_clear (zero : T) (m : Map) : outcome Map := Map_fill m zero.

Definition Map_copy (m other : Map) : outcome Map :=
  k ← numComp (m_str m); sz ← ix_mul (Map_size m) k;
  l ← for_each (up 0 sz) (fun idx l => x ← Map_at other idx; ub (zupdate l idx x)) (m_mapData m);
  Done (mkMap (m_str m) (m_setc m) l).

Definition Map_isValid (m : Map) : outcome bool :=
  if ptr_isEmpty (container_get (m_setc m)) then Done (bool_decide (m_mapData m = []))
  else
    s ← ub (container_get (m_setc m)); k ← numComp (m_str m); n ← ix_mul (set_size s) k;
    Done (to_index (Z.of_nat (length (m_mapData m))) =? n).

(** *** The iterator over all values *)

Definition mit_index (m : Map) (pos : Z) : outcome Z := k ← numComp (m_str m); i ← ix_div pos k; Map_index m i.
Definition mit_compIndex (m : Map) (pos : Z) : outcome Z := k ← numComp (m_str m); ix_rem pos k.
Definition Map_end (m : Map) : outcome Z := k ← numComp (m_str m); ix_mul (Map_size m) k.

(** *** The iterator over the elements: an array view of the values of an element *)

Definition Map_range (m : Map) (pos : Z) : outcome (list T) :=
  k ← numComp (m_str m); b ← ix_mul pos k;
  mapM (fun c => p ← ix_add b c; Map_at m p) (up 0 k).

End Map.
Arguments Map : clear implicits.

(** The loop of an iterator that has a position, from one to another, as far as the fuel
    goes. *)
Fixpoint visit {A} (fuel : nat) (f : Z -> outcome A) (pos last : Z) : outcome (list A) :=
  if negb (pos =? last) then
    match fuel with
    | O => Undefined
    | S fuel => x ← f pos; p ← ix_add pos 1; l ← visit fuel f p last; Done (x :: l)
    end
  else Done [].

Definition Map_values {T P} `{!MapStride P} (m : Map T P) : outcome (list T) :=
  e ← Map_end m; visit (Z.to_nat e) (Map_at m) 0 e.

Definition Map_set_elements {T P} `{!MapStride P} (m : Map T P) : outcome (list (list T)) :=
  visit (Z.to_nat (Map_size m)) (Map_range m) 0 (Map_size m).

(** *** [MapBuilder], for strides with one dimension *)

Section Builder.
Context {T Str : Type} `{!StridePolicy Str}.

Record MapBuilder := mkMapBuilder { mb_set : SetContainer; mb_stride : Str; mb_data : option (list T); mb_default : T }.

Definition MapBuilder_new (abstract : bool) (value : option Set_) (zero : T) : MapBuilder :=
  mkMapBuilder (mkSetContainer (emptySet abstract) value) (stride_make (stride_default (P := Str))) None zero.

Definition mapbuilder_set (b : MapBuilder) (s : option Set_) : MapBuilder :=
  mkMapBuilder (mkSetContainer s (m_setValue (mb_set b))) (mb_stride b) (mb_data b) (mb_default b).
Definition mapbuilder_stride (b : MapBuilder) (str : Z) : MapBuilder := mkMapBuilder (mb_set b) (stride_make str) (mb_data b) (mb_default b).
Definition mapbuilder_data (b : MapBuilder) (bufPtr : option (list T)) : MapBuilder := mkMapBuilder (mb_set b) (mb_stride b) bufPtr (mb_default b).

(** The copy goes over the elements of the set. *)
Definition Map_build (b : MapBuilder) : outcome (Map T Str) :=
  m ← Map_make (P := Str) (mb_set b) (mb_default b) (stride_of (mb_stride b));
  match mb_data b with
  | None => Done m
  | Some buf =>
    n ← getSize (m_pSet (mb_set b));
    for_each (up 0 n) (fun idx m => x ← ub buf.[idx]; Map_put m idx x) m
  end.
End Builder.

(** ** [SubMap] *)

(** What a submap uses of the map that it is a part of. *)
Class SuperMap (M T : Type) := {
  super_at : M -> Z -> outcome T;
  super_put : M -> Z -> T -> outcome M;
  super_size : Heap -> M -> outcome Z;
  super_set_at : Heap -> M -> Z -> outcome Z;
  super_range : M -> Z -> outcome (list T) }.

#[export] Instance Map_super {T P} `{!MapStride P} : SuperMap (Map T P) T := {
  super_at := Map_at;
  super_put := Map_put;
  super_size _ m := Done (Map_size m);
  super_set_at _ := Map_index;
  super_range := Map_range }.

Section SubMap.
Context {P Sz Off Str Ind Sub : Type} `{!MapStride P}.
Context `{!SizePolicy Sz, !OffsetPolicy Off, !StridePolicy Str, !IndirectionPolicy Ind, !SubsettingPolicy Sub}.
Notation Subset := (OrderedSet Sz Off Str Ind Sub).

Record SubMap := mkSubMap { sm_str : P; m_subsetIdx : Subset; m_indicesHaveIndirection : bool }.

Definition getMapElemFlatIndex (h : Heap) (sm : SubMap) (idx : Z) : outcome Z := at_ h (m_subsetIdx sm) idx.

Definition getMapCompFlatIndex (h : Heap) (sm : SubMap) (idx : Z) : outcome Z :=
  comp ← numComp (sm_str sm); s ← ix_rem idx comp; e ← ix_div idx comp;
  f ← getMapElemFlatIndex h sm e; m ← ix_mul f comp; ix_add m s.

(** The flat index of a component of an element. *)
Definition submap_elem (h : Heap) (sm : SubMap) (idx : Z) (comp : ComponentIndex) : outcome Z :=
  f ← getMapElemFlatIndex h sm idx; k ← numComp (sm_str sm); elemBegin ← ix_mul f k;
  o ← componentOffset (sm_str sm) comp; ix_add elemBegin o.

Definition SubMap_size (sm : SubMap) : Z := size (m_subsetIdx sm).

Section Super.
Context {M T : Type} `{!SuperMap M T}.

Definition SubMap_at (h : Heap) (sup : M) (sm : SubMap) (idx : Z) : outcome T := f ← getMapCompFlatIndex h sm idx; super_at sup f.

Definition SubMap_put (h : Heap) (sup : M) (sm : SubMap) (idx : Z) (x : T) : outcome M := f ← getMapCompFlatIndex h sm idx; super_put sup f x.

Definition SubMap_value (h : Heap) (sup : M) (sm : SubMap) (idx : Z) (comp : ComponentIndex) : outcome T :=
  f ← submap_elem h sm idx comp; super_at sup f.

Definition SubMap_assign (h : Heap) (sup : M) (sm : SubMap) (idx : Z) (comp : ComponentIndex) (x : T) : outcome M :=
  f ← submap_elem h sm idx comp; super_put sup f x.

(** The size of the map and the loop variable are [int]s. *)
Definition SubMap_isValid (h : Heap) (sup : option M) (sm : SubMap) : outcome bool :=
  match sup with
  | None => Done (negb (0 <? SubMap_size sm))
  | Some sup =>
    n ← super_size h sup; let map_size := to_int32 n in
    for_each (up 0 (SubMap_size sm)) (fun i ok =>
      i ← int_index i; pos ← at_ h (m_subsetIdx sm) i; Done (ok && negb ((pos <? 0) || (map_size <=? pos)))) true
  end.

Definition SubMap_end (sm : SubMap) : outcome Z := k ← numComp (sm_str sm); ix_mul (SubMap_size sm) k.

Definition SubMap_values (h : Heap) (sup : M) (sm : SubMap) : outcome (list T) :=
  e ← SubMap_end sm; visit (Z.to_nat e) (SubMap_at h sup sm) 0 e.

(** *** The iterator over the elements, with the position in the map *)

Record SubMapRange := mkSubMapRange { sr_pos : Z; sr_mapIter : Z }.

Definition getParentPosition (h : Heap) (sm : SubMap) (subset_pos : Z) : outcome Z :=
  subsetEnd ← ix_sub (SubMap_size sm) 1; x ← at_ h (m_subsetIdx sm) subsetEnd; parentIndex ← ix_add x 1;
  if subset_pos <? SubMap_size sm then at_ h (m_subsetIdx sm) subset_pos else Done parentIndex.

Definition sr_make (h : Heap) (sm : SubMap) (pos : Z) : outcome SubMapRange :=
  p ← getParentPosition h sm pos; Done (mkSubMapRange pos p).

Definition sr_advance (h : Heap) (sm : SubMap) (it : SubMapRange) (n : Z) : outcome SubMapRange :=
  let currIndex := sr_mapIter it in
  pos ← ix_add (sr_pos it) n; nextIndex ← getParentPosition h sm pos;
  d ← ix_sub nextIndex currIndex; p ← ix_add currIndex d; Done (mkSubMapRange pos p).

Definition sr_deref (sup : M) (it : SubMapRange) : outcome (list T) := super_range sup (sr_mapIter it).

Fixpoint sr_visit (fuel : nat) (h : Heap) (sup : M) (sm : SubMap) (it last : SubMapRange) : outcome (list (list T)) :=
  if negb (sr_pos it =? sr_pos last) then
    match fuel with
    | O => Undefined
    | S fuel => x ← sr_deref sup it; it ← sr_advance h sm it 1; l ← sr_visit fuel h sup sm it last; Done (x :: l)
    end
  else Done [].

Definition SubMap_set_elements (h : Heap) (sup : M) (sm : SubMap) : outcome (list (list T)) :=
  b ← sr_make h sm 0; e ← sr_make h sm (SubMap_size sm); sr_visit (Z.to_nat (SubMap_size sm)) h sup sm b e.
End Super.

Definition SubMap_index {M T} `{!SuperMap M T} (h : Heap) (sup : M) (sm : SubMap) (idx : Z) : outcome Z :=
  if m_indicesHaveIndirection sm then e ← at_ h (m_subsetIdx sm) idx; super_set_at h sup e else Done idx.
End SubMap.
Arguments SubMap : clear implicits.

(** ** [BivariateMap] *)

Section BivariateMap.
Context {T P B : Type} `{!MapStride P, !BivariateSet B}.

Record BivariateMap := mkBivariateMap { bm_str : P; m_bset : B; m_map : Map T P }.

(** The set of the map is a range, by value. *)
Definition flat_container (h : Heap) (n : Z) : SetContainer :=
  mkSetContainer None (Some (OrderedSet_as_Set h (RangeSet_make n))).

Definition BivariateMap_make (h : Heap) (bSet : B) (defaultValue : T) (shape : ElementShape) : outcome BivariateMap :=
  str ← stride_construct shape; n ← bset_size h bSet;
  m ← Map_make (flat_container h n) defaultValue shape; Done (mkBivariateMap str bSet m).

Definition BivariateMap_make_data (h : Heap) (zero : T) (bSet : B) (data : list T) (shape : ElementShape) : outcome BivariateMap :=
  str ← stride_construct shape; n ← bset_size h bSet;
  m ← Map_make_data zero (flat_container h n) data shape; Done (mkBivariateMap str bSet m).

Definition bm_at (m : BivariateMap) (setIndex : Z) : outcome T := Map_at (m_map m) setIndex.
Definition bm_put (m : BivariateMap) (setIndex : Z) (x : T) : outcome BivariateMap :=
  m' ← Map_put (m_map m) setIndex x; Done (mkBivariateMap (bm_str m) (m_bset m) m').

Definition flatValue (m : BivariateMap) (flatIndex : Z) (comp : ComponentIndex) : outcome T := Map_value (m_map m) flatIndex comp.
Definition flatAssign (m : BivariateMap) (flatIndex : Z) (comp : ComponentIndex) (x : T) : outcome BivariateMap :=
  m' ← Map_assign (m_map m) flatIndex comp x; Done (mkBivariateMap (bm_str m) (m_bset m) m').

Definition flatIndex (h : Heap) (m : BivariateMap) (s1 s2 : Z) : outcome Z := findElementFlatIndex h (m_bset m) s1 s2.

(** [operator()] with two positions. *)
Definition bm_call (h : Heap) (m : BivariateMap) (s1 s2 : Z) (comp : ComponentIndex) : outcome T :=
  idx ← flatIndex h m s1 s2; flatValue m idx comp.
Definition bm_assign (h : Heap) (m : BivariateMap) (s1 s2 : Z) (comp : ComponentIndex) (x : T) : outcome BivariateMap :=
  idx ← flatIndex h m s1 s2; flatAssign m idx comp x.

(** The value behind the pointer that [findValue] returns; [None] is the null pointer. *)
Definition findValue (h : Heap) (m : BivariateMap) (s1 s2 : Z) (comp : ComponentIndex) : outcome (option T) :=
  i ← findElementFlatIndex h (m_bset m) s1 s2;
  if i =? INVALID_POS then Done None else x ← Map_value (m_map m) i comp; Done (Some x).

Definition bm_index (h : Heap) (m : BivariateMap) (s1 s2 : Z) : outcome Z := findElementIndex h (m_bset m) s1 s2.

Definition bm_size (h : Heap) (m : BivariateMap) : outcome Z := bset_size h (m_bset m).
Definition bm_row_size (h : Heap) (m : BivariateMap) (s : Z) : outcome Z := bset_row_size h (m_bset m) s.

#[export] Instance BivariateMap_super : SuperMap BivariateMap T := {
  super_at := bm_at;
  super_put := bm_put;
  super_size := bm_size;
  super_set_at h m := bset_at h (m_bset m);
  super_range m pos := Map_range (m_map m) pos }.

Notation RowMap := (SubMap P RuntimeSize RuntimeOffset StrideOne NoIndirection NoSubset).

(** [operator()] with a position of the first set. *)
Definition submap (h : Heap) (m : BivariateMap) (firstIdx : Z) : outcome RowMap :=
  s ← elementRangeSet h (m_bset m) firstIdx; Done (mkSubMap (bm_str m) s (indices_use_indirection (B := B))).

Definition bm_isValid (h : Heap) (m : BivariateMap) : outcome bool :=
  b ← bset_isValid h (m_bset m); if (b : bool) then Map_isValid (m_map m) else Done false.

(** The loop variable is an [int]. *)
Definition bm_copy (m : BivariateMap) (data_arr : list T) : outcome BivariateMap :=
  k ← numComp (bm_str m); n ← ix_mul (Map_size (m_map m)) k;
  for_each (up 0 n) (fun i m => i ← int_index i; x ← ub data_arr.[i]; bm_put m i x) m.

Definition bm_clear (zero : T) (m : BivariateMap) : outcome BivariateMap :=
  m' ← Map_clear zero (m_map m); Done (mkBivariateMap (bm_str m) (m_bset m) m').

(** *** The iterator over all values, with the iterator of the set *)

Record FlatIterator := mkFlatIterator { fi_pos : Z; fi_bset : Z }.

Definition fi_make (m : BivariateMap) (pos : Z) : outcome FlatIterator :=
  k ← numComp (bm_str m); b ← ix_div pos k; Done (mkFlatIterator pos b).

Definition fi_advance (m : BivariateMap) (it : FlatIterator) (n : Z) : outcome FlatIterator :=
  pos ← ix_add (fi_pos it) n; let oldBsetIndex := fi_bset it in
  k ← numComp (bm_str m); newBsetIndex ← ix_div pos k; d ← ix_sub newBsetIndex oldBsetIndex;
  b ← ix_add oldBsetIndex d; Done (mkFlatIterator pos b).

Definition fi_compIndex (m : BivariateMap) (it : FlatIterator) : outcome Z := k ← numComp (bm_str m); ix_rem (fi_pos it) k.
Definition fi_firstIndex (h : Heap) (m : BivariateMap) (it : FlatIterator) : outcome Z := flatToFirstIndex h (m_bset m) (fi_bset it).
Definition fi_secondIndex (h : Heap) (m : BivariateMap) (it : FlatIterator) : outcome Z := flatToSecondIndex h (m_bset m) (fi_bset it).
End BivariateMap.
Arguments BivariateMap : clear implicits.

(** Dereferencing needs a stride with one dimension. *)
Section FlatIteration.
Context {T Str B : Type} `{!StridePolicy Str, !BivariateSet B}.
Implicit Types (m : BivariateMap T Str B).

Definition fi_deref m (it : FlatIterator) : outcome T :=
  fi_compIndex m it ≫= (fun c : Z => flatValue (P := Str) m (fi_bset it) c).

(** The value, its first and second index and its component. *)
Definition fi_visit1 (h : Heap) m (it : FlatIterator) : outcome (Z * Z * Z * T) :=
  i ← fi_firstIndex h m it; j ← fi_secondIndex h m it; c ← fi_compIndex m it; x ← fi_deref m it; Done (i, j, c, x).

Fixpoint fi_visit (fuel : nat) (h : Heap) m (it last : FlatIterator) : outcome (list (Z * Z * Z * T)) :=
  if negb (fi_pos it =? fi_pos last) then
    match fuel with
    | O => Undefined
    | S fuel => x ← fi_visit1 h m it; it ← fi_advance m it 1; l ← fi_visit fuel h m it last; Done (x :: l)
    end
  else Done [].

Definition bm_values (h : Heap) m : outcome (list (Z * Z * Z * T)) :=
  n ← bm_size h m; k ← numComp (bm_str m); e ← ix_mul n k;
  b ← fi_make m 0; last ← fi_make m e; fi_visit (Z.to_nat e) h m b last.
End FlatIteration.

(** ** [DynamicMap] *)

Section DynamicMap.
Context {T : Type} (zero : T).

Record DynamicMap := mkDynamicMap { dm_data : list T }.

Definition DynamicMap_make (theSet : option DynamicSet) : outcome DynamicMap :=
  match theSet with None => Done (mkDynamicMap []) | Some s => l ← vector_resize [] (d_size s) zero; Done (mkDynamicMap l) end.

Definition DynamicMap_make_value (theSet : option DynamicSet) (defaultValue : T) : outcome DynamicMap :=
  match theSet with None => Done (mkDynamicMap []) | Some s => l ← vector_resize [] (d_size s) defaultValue; Done (mkDynamicMap l) end.

Definition DynamicMap_size (m : DynamicMap) : Z := to_index (Z.of_nat (length (dm_data m))).

(** [operator[]] of a constant map. *)
Definition DynamicMap_at (m : DynamicMap) (setIndex : Z) : outcome T := ub (dm_data m).[setIndex].

Definition DynamicMap_resize (m : DynamicMap) (s : Z) : outcome DynamicMap :=
  l ← vector_resize (dm_data m) s zero; Done (mkDynamicMap l).

(** [operator[]] of a map that can change: the map grows to have the position. *)
Definition DynamicMap_reach (m : DynamicMap) (position : Z) : outcome DynamicMap :=
  n ← ix_add position 1; if DynamicMap_size m <? n then DynamicMap_resize m n else Done m.

Definition DynamicMap_ref (m : DynamicMap) (position : Z) : outcome (DynamicMap * T) :=
  m ← DynamicMap_reach m position; x ← ub (dm_data m).[position]; Done (m, x).

Definition DynamicMap_insert (m : DynamicMap) (position : Z) (value : T) : outcome DynamicMap :=
  m ← DynamicMap_reach m position; l ← ub (zupdate (dm_data m) position value); Done (mkDynamicMap l).

Definition DynamicMap_numberOfValidEntries (theSet : option DynamicSet) : outcome Z :=
  match theSet with Some s => DynamicSet_numberOfValidEntries s | None => Done 0 end.

Definition DynamicMap_isValidEntry (theSet : option DynamicSet) (pos : Z) : outcome bool :=
  match theSet with Some s => DynamicSet_isValidEntry s pos | None => Done false end.

Definition DynamicMap_isValid (m : DynamicMap) (theSet : option DynamicSet) : bool :=
  match theSet with
  | None => bool_decide (dm_data m = [])
  | Some s => to_index (Z.of_nat (length (dm_data m))) =? d_size s
  end.
End DynamicMap.

End Maps.
Arguments mkMultiDimStride {Dims}.
Arguments md_shape {Dims}.
Arguments md_strides {Dims}.
Arguments Map : clear implicits.
Arguments SubMap : clear implicits.
Arguments BivariateMap : clear implicits.
Arguments DynamicMap : clear implicits.

End SlamMaps.
