(* ===== verification/SlamMapTheorems.v ===== *)
(** * Theorems on the maps of slam

    The class [MapStrideLaws] says what a stride policy promises to a map: the components
    of an element are numbered by offsets.  Reading and writing maps is proved against
    it, for one and for several dimensions; the theorem on maps over sets of pairs is
    proved against [BivariateLaws]. *)

From S2P Require Import Prelude Outcome MDMapping MDMappingProofs SlamPolicies SlamSets SlamSetTheorems SlamRelations SlamRelationTheorems SlamBivariate SlamBivariateTheorems SlamMaps.

Module SlamMapTheorems.
Import Outcome MDMappingProofs SlamPolicies SlamSets SlamSetTheorems SlamRelations SlamRelationTheorems SlamBivariate SlamBivariateTheorems SlamMaps.

Lemma encode_inj N Y Y' : digits Y N -> digits Y' N -> encode N Y = encode N Y' -> Y = Y'.
Proof.
  intros HY. revert Y'. induction HY as [|y n Y N Hy HY IH]; intros Y' HY'; inversion_clear HY' as [|y' ? Y0 ? Hy' HY0]; intros He; [done|].
  cbn in He. change (foldr Z.mul 1 N) with (prod N) in He. pose proof (encode_bound _ _ HY). pose proof (encode_bound _ _ HY0).
  assert (y = y') as -> by nia. f_equal. apply IH; [done|lia].
Qed.

Lemma insert_dropZ {A} (l : list A) i x : 0 <= i < Z.of_nat (length l) -> dropZ i (<[Z.to_nat i := x]> l) = x :: dropZ (i + 1) l.
Proof.
  intros Hi. unfold dropZ. replace (Z.to_nat (i + 1)) with (S (Z.to_nat i)) by lia.
  rewrite (drop_S _ x) by (apply list_lookup_insert_eq; lia). by rewrite drop_insert_lt by lia.
Qed.

Lemma zlookup_head {A} (l : list A) i x l' : 0 <= i -> dropZ i l = x :: l' -> l.[i] = Some x.
Proof. intros Hi Hd. rewrite zlookup_to_nat by lia. rewrite <- (Nat.add_0_r (Z.to_nat i)), <- lookup_drop. unfold dropZ in Hd. by rewrite Hd. Qed.

Section Maps.
Context {IB : IndexBits}.

Lemma to_index_id z : 0 <= z <= index_max -> to_index z = z.
Proof.
  unfold to_index, index_max. destruct index_bits_ok as [-> | ->].
  - change (2 ^ (32 - 1)) with 2147483648. change (2 ^ 32) with 4294967296. intros Hz. rewrite Z.mod_small by lia. lia.
  - change (2 ^ (64 - 1)) with 9223372036854775808. change (2 ^ 64) with 18446744073709551616. intros Hz. rewrite Z.mod_small by lia. lia.
Qed.

(** ** What a stride policy promises *)

Class MapStrideLaws (P : Type) `{!MapStride P} := {
  stride_ok : P -> Z -> Prop;
  comp_ok : P -> ComponentIndex (P := P) -> Prop;
  numComp_spec p k : stride_ok p k -> numComp p = Done k /\ 0 < k <= index_max;
  comp_offset_spec p k c : stride_ok p k -> comp_ok p c -> exists o, componentOffset p c = Done o /\ 0 <= o < k;
  comp_offset_inj p k c c' : stride_ok p k -> comp_ok p c -> comp_ok p c' -> componentOffset p c = componentOffset p c' -> c = c';
  comp_offset_surj p k o : stride_ok p k -> 0 <= o < k -> exists c, comp_ok p c /\ componentOffset p c = Done o }.

#[export] Program Instance OneDim_laws (P : Type) `{!StridePolicy P} : MapStrideLaws P := {
  stride_ok p k := stride_of p = k /\ 0 < k <= index_max;
  comp_ok p c := 0 <= c < stride_of p }.
Next Obligation. intros P ? p k [<- Hk]. done. Qed.
Next Obligation. intros P ? p k c [<- Hk] Hc. by exists c. Qed.
Next Obligation. intros P ? p k c c' _ _ _ [= ->]. done. Qed.
Next Obligation. intros P ? p k o [<- Hk] Ho. by exists o. Qed.

Section MultiDim.
Context {Dims : Z}.
Implicit Types (p : MultiDimStride Dims).

Record multi_ok p (k : Z) : Prop := {
  mo_length : Z.of_nat (length (md_shape p)) = Dims;
  mo_dims : 0 < Dims;
  mo_pos : Forall (Z.lt 0) (md_shape p);
  mo_strides : md_strides p = radix 1 (md_shape p);
  mo_prod : prod (md_shape p) = k;
  mo_max : k <= index_max }.

(** The constructor computes the strides of the row-major order. *)
Lemma MultiDimStride_make_spec shape : 0 < Dims -> Z.of_nat (length shape) = Dims -> Forall (Z.lt 0) shape -> prod shape <= index_max ->
  exists p, MultiDimStride_make Dims shape = Done p /\ md_shape p = shape /\ multi_ok p (prod shape).
Proof.
  intros HD Hlen Hpos Hmax. unfold MultiDimStride_make. rewrite zupdate_lt by (rewrite length_replicate; lia). cbn [ub mbind outcome_bind].
  destruct (for_down_inv (fun i s => Z.of_nat (length s) = Dims /\ dropZ i s = radix 1 (dropZ i shape)) (Dims - 2) 0
    (fun i strides => a ← ub strides.[i + 1]; b ← ub shape.[i + 1]; v ← ix_mul a b; ub (zupdate strides i v))
    (<[Z.to_nat (Dims - 1) := 1]> (replicate (Z.to_nat Dims) 0))) as (s & -> & Hs & Hr); [lia| | |].
  - rewrite length_insert, length_replicate. split; [lia|]. replace (Dims - 2 + 1) with (Dims - 1) by lia.
    rewrite insert_dropZ by (rewrite length_replicate; lia). rewrite (dropZ_step shape) by lia. replace (Dims - 1 + 1) with Dims by lia.
    unfold dropZ. rewrite !drop_ge by (rewrite ?length_replicate; lia). done.
  - intros i s Hi [Hs Hr]. rewrite radix_dropZ in Hr by lia. rewrite (zlookup_head s (i + 1) _ _ ltac:(lia) Hr). rewrite (zlookup_el shape) by lia.
    cbn [ub mbind outcome_bind]. unfold ix_mul. assert (1 * prod (dropZ (i + 1 + 1) shape) * el shape (i + 1) = prod (dropZ (i + 1) shape)) as ->.
    { rewrite (dropZ_step shape (i + 1)) by lia. cbn. unfold prod. lia. }
    pose proof (prod_dropZ shape (i + 1) Hpos). rewrite ix_small by lia. cbn [mbind outcome_bind]. rewrite zupdate_lt by lia.
    eexists. split; [done|]. rewrite length_insert. split; [done|]. rewrite insert_dropZ by lia. rewrite radix_dropZ by lia.
    rewrite Hr, <- radix_dropZ by lia. f_equal. lia.
  - eexists. split; [done|]. split; [done|]. by constructor.
Qed.

Lemma multi_offset_spec p k c : multi_ok p k -> digits c (md_shape p) -> MultiDim_offset p c = Done (encode (md_shape p) c).
Proof.
  intros Hp Hc. pose proof (Forall2_length _ _ _ Hc) as Hl. pose proof (mo_length _ _ Hp) as Hd. pose proof (encode_bound _ _ Hc) as Hb.
  pose proof (dot_radix 1 _ _ Hl) as Hdot. rewrite <- (mo_strides _ _ Hp) in Hdot. pose proof (mo_max _ _ Hp). rewrite (mo_prod _ _ Hp) in Hb.
  assert (length (md_strides p) = length (md_shape p)) as Hls by (rewrite (mo_strides _ _ Hp); apply length_radix).
  unfold dot in Hdot. set (w := zip_with Z.mul c (md_strides p)) in *.
  assert (length w = length c) as Hw by (unfold w; rewrite length_zip_with; lia).
  assert (Forall (Z.le 0) w) as Hnn.
  { unfold w. rewrite (mo_strides _ _ Hp). clear - Hc. induction Hc as [|y n Y N Hy HY IH]; [constructor|]. cbn. constructor; [|done].
    pose proof (prod_pos N (digits_pos _ _ HY)). unfold prod in *. nia. }
  unfold MultiDim_offset. destruct (for_up_inv (fun i acc => acc = sumZ (takeZ i w)) 0 Dims
    (fun dim offset => a ← ub c.[dim]; b ← ub (md_strides p).[dim]; m ← ix_mul a b; ix_add offset m) 0) as (r & -> & ->); [lia|done| |].
  - intros i acc Hi ->. destruct (zlookup_lt c i) as [a Ha]; [lia|]. destruct (zlookup_lt (md_strides p) i) as [b Hbi]; [lia|]. rewrite Ha, Hbi.
    assert (w.[i] = Some (a * b)) as Hwi.
    { unfold w. rewrite zlookup_to_nat in Ha, Hbi |- * by lia. by rewrite lookup_zip_with, Ha, Hbi. }
    cbn [ub mbind outcome_bind]. pose proof (zlookup_Forall _ _ _ _ Hnn Hwi). pose proof (sumZ_takeZ_succ w i _ Hwi).
    pose proof (sumZ_takeZ_le w i Hnn). pose proof (sumZ_takeZ_le w (i + 1) Hnn).
    unfold ix_mul, ix_add. rewrite ix_small by lia. cbn [mbind outcome_bind]. rewrite ix_small by lia. eexists. split; [done|]. lia.
  - rewrite takeZ_all by lia. f_equal. lia.
Qed.

#[export] Program Instance MultiDim_laws : MapStrideLaws (MultiDimStride Dims) := {
  stride_ok := multi_ok;
  comp_ok p c := digits c (md_shape p) }.
Next Obligation.
  intros p k Hp. cbn. unfold MultiDimStride_stride. pose proof (mo_length _ _ Hp). pose proof (mo_dims _ _ Hp).
  destruct (md_shape p) as [|n N] eqn:E; [cbn in *; lia|]. rewrite (mo_strides _ _ Hp), E. cbn [radix].
  pose proof (mo_prod _ _ Hp) as Hk. rewrite E in Hk. pose proof (mo_pos _ _ Hp) as Hpos. rewrite E in Hpos. pose proof (prod_pos _ Hpos).
  pose proof (mo_max _ _ Hp). change (prod (n :: N)) with (n * prod N) in *. split; [|lia].
  change ((n :: N).[0]) with (Some n). change ((?x :: radix 1 N).[0]) with (Some x). cbn [ub mbind outcome_bind]. unfold ix_mul.
  rewrite Z.mul_1_l, ix_small by lia. by f_equal.
Qed.
Next Obligation. intros p k c Hp Hc. cbn. rewrite (multi_offset_spec p k c Hp Hc). eexists. split; [done|]. rewrite <- (mo_prod _ _ Hp). by apply encode_bound. Qed.
Next Obligation.
  intros p k c c' Hp Hc Hc'. cbn. rewrite (multi_offset_spec p k c Hp Hc), (multi_offset_spec p k c' Hp Hc'). intros [= He]. exact (encode_inj _ _ _ Hc Hc' He).
Qed.
Next Obligation.
  intros p k o Hp Ho. rewrite <- (mo_prod _ _ Hp) in Ho. destruct (decode_digits _ o (mo_pos _ _ Hp) Ho) as [HD HE].
  exists (decode (md_shape p) o). split; [done|]. cbn. by rewrite (multi_offset_spec p k), HE.
Qed.
End MultiDim.

(** ** Iteration over positions *)

Lemma position_visit_spec {A} (f : Z -> outcome A) l fuel p : lists f l -> Z.of_nat (length l) <= index_max -> 0 <= p <= Z.of_nat (length l) ->
  (Z.to_nat (Z.of_nat (length l) - p) <= fuel)%nat -> visit fuel f p (Z.of_nat (length l)) = Done (dropZ p l).
Proof.
  intros Hl Hmax. revert p. induction fuel as [|fuel IH]; intros p Hp Hf; cbn [visit].
  { assert (p = Z.of_nat (length l)) as -> by lia. rewrite Z.eqb_refl. unfold dropZ. by rewrite drop_ge by lia. }
  destruct (Z.eqb_spec p (Z.of_nat (length l))) as [->|Hne]; cbn [negb]; [unfold dropZ; by rewrite drop_ge by lia|].
  destruct (Hl p) as (x & -> & Hx); [lia|]. cbn [mbind outcome_bind]. unfold ix_add. rewrite ix_small by lia. cbn [mbind outcome_bind].
  rewrite IH by lia. cbn [mbind outcome_bind]. f_equal. rewrite zlookup_to_nat in Hx by lia. unfold dropZ.
  replace (Z.to_nat (p + 1)) with (S (Z.to_nat p)) by lia. by rewrite <- drop_S.
Qed.

Lemma visit_all {A} (f : Z -> outcome A) l n : lists f l -> Z.of_nat (length l) <= index_max -> n = Z.of_nat (length l) ->
  visit (Z.to_nat n) f 0 n = Done l.
Proof. intros Hl Hmax ->. rewrite position_visit_spec by (done || lia). done. Qed.

(** ** Maps *)

Section Map.
Context {T P : Type} `{!MapStride P, !MapStrideLaws P}.
Implicit Types (m : Map T P).

(** The map has [k] values for each of [n] elements. *)
Record map_ok m (n k : Z) : Prop := {
  mk_size : Map_size m = n;
  mk_stride : stride_ok (m_str m) k;
  mk_nonneg : 0 <= n;
  mk_data : Z.of_nat (length (m_mapData m)) = n * k;
  mk_max : n * k <= index_max }.

Lemma map_numComp m n k : map_ok m n k -> numComp (m_str m) = Done k /\ 0 < k <= index_max.
Proof. intros Hm. apply numComp_spec, Hm. Qed.

Lemma flat_in n k i o : 0 < k -> 0 <= i < n -> 0 <= o < k -> 0 <= i * k /\ 0 <= i * k + o < n * k.
Proof. nia. Qed.

Lemma flat_unique k i o i' o' : 0 <= o < k -> 0 <= o' < k -> i * k + o = i' * k + o' -> i = i' /\ o = o'.
Proof. intros. assert (i = i') as -> by nia. lia. Qed.

Lemma elemIndex_spec m n k i c : map_ok m n k -> 0 <= i < n -> comp_ok (m_str m) c ->
  exists o, componentOffset (m_str m) c = Done o /\ 0 <= o < k /\ elemIndex m i c = Done (i * k + o).
Proof.
  intros Hm Hi Hc. destruct (map_numComp m n k Hm) as [Hk Hkp]. destruct (comp_offset_spec (m_str m) k c (mk_stride _ _ _ Hm) Hc) as (o & Ho & Hor).
  exists o. split_and!; [done|lia|lia|]. pose proof (flat_in n k i o ltac:(lia) Hi Hor). pose proof (mk_max _ _ _ Hm).
  unfold elemIndex. rewrite Hk. cbn [mbind outcome_bind]. unfold ix_mul, ix_add. rewrite ix_small by lia. cbn [mbind outcome_bind]. rewrite Ho.
  cbn [mbind outcome_bind]. by rewrite ix_small by lia.
Qed.

Lemma map_at_ok m n k q : map_ok m n k -> 0 <= q < n * k -> exists y, Map_at m q = Done y /\ (m_mapData m).[q] = Some y.
Proof. intros Hm Hq. unfold Map_at. destruct (zlookup_lt (m_mapData m) q) as [y Hy]; [rewrite (mk_data _ _ _ Hm); lia|]. rewrite Hy. by exists y. Qed.

Lemma map_put_spec m n k q x : map_ok m n k -> 0 <= q < n * k ->
  exists m', Map_put m q x = Done m' /\ map_ok m' n k /\ m_str m' = m_str m /\ m_setc m' = m_setc m /\ m_mapData m' = <[Z.to_nat q := x]> (m_mapData m) /\
    Map_at m' q = Done x /\ forall q', q' <> q -> Map_at m' q' = Map_at m q'.
Proof.
  intros Hm Hq. unfold Map_put. rewrite zupdate_lt by (rewrite (mk_data _ _ _ Hm); lia). cbn [ub mbind outcome_bind]. eexists. split; [done|].
  split_and!; [|done..| |].
  - destruct Hm as [H1 H2 H3 H4 H5]. constructor; cbn [m_str m_mapData]; [done..|by rewrite length_insert|done].
  - unfold Map_at. cbn [m_mapData]. rewrite zlookup_insert by (rewrite (mk_data _ _ _ Hm); lia). by rewrite decide_True.
  - intros q' Hne. unfold Map_at. cbn [m_mapData]. rewrite zlookup_insert by (rewrite (mk_data _ _ _ Hm); lia). by rewrite decide_False.
Qed.

Lemma map_assign_spec m n k i c x : map_ok m n k -> 0 <= i < n -> comp_ok (m_str m) c ->
  exists m', Map_assign m i c x = Done m' /\ map_ok m' n k /\ m_str m' = m_str m /\ m_setc m' = m_setc m /\
    Map_value m' i c = Done x /\
    forall i' c', 0 <= i' < n -> comp_ok (m_str m) c' -> (i', c') <> (i, c) -> Map_value m' i' c' = Map_value m i' c'.
Proof.
  intros Hm Hi Hc. destruct (elemIndex_spec m n k i c Hm Hi Hc) as (o & Ho & Hor & He). destruct (map_numComp m n k Hm) as [_ Hk].
  unfold Map_assign. rewrite He. cbn [mbind outcome_bind].
  destruct (map_put_spec m n k (i * k + o) x Hm) as (m' & -> & Hm' & Hs & Hc0 & _ & Hat & Hoth); [apply flat_in; lia|].
  assert (forall i' c', elemIndex m' i' c' = elemIndex m i' c') as Hel by (intros; unfold elemIndex; by rewrite Hs).
  exists m'. split_and!; [done..| |].
  - unfold Map_value. by rewrite Hel, He.
  - intros i' c' Hi' Hc' Hne. unfold Map_value. rewrite Hel. destruct (elemIndex_spec m n k i' c' Hm Hi' Hc') as (o' & Ho' & Hor' & ->).
    cbn [mbind outcome_bind]. apply Hoth. intros [-> ->]%flat_unique; [|lia..]. apply Hne. f_equal.
    apply (comp_offset_inj (m_str m) k); [apply Hm|done..|congruence].
Qed.

Lemma map_value_ok m n k i c : map_ok m n k -> 0 <= i < n -> comp_ok (m_str m) c -> exists y, Map_value m i c = Done y.
Proof.
  intros Hm Hi Hc. destruct (elemIndex_spec m n k i c Hm Hi Hc) as (o & Ho & Hor & He). destruct (map_numComp m n k Hm) as [_ Hk].
  unfold Map_value. rewrite He. cbn [mbind outcome_bind]. destruct (map_at_ok m n k (i * k + o) Hm) as (y & -> & _); [apply flat_in; lia|]. by exists y.
Qed.

(** A map is a table of its elements and components, with one or several dimensions of
    components.  Every component of every element can be read and written in the buffer;
    after a write, the component has the new value and every other component of every
    element has its old value. *)
Theorem map_read_write m n k i c x : map_ok m n k -> 0 <= i < n -> comp_ok (m_str m) c ->
  (exists y, Map_value m i c = Done y) /\
  exists m', Map_assign m i c x = Done m' /\ map_ok m' n k /\ Map_value m' i c = Done x /\
    forall i' c', 0 <= i' < n -> comp_ok (m_str m) c' -> (i', c') <> (i, c) -> Map_value m' i' c' = Map_value m i' c'.
Proof.
  intros Hm Hi Hc. split; [by apply (map_value_ok m n k)|].
  destruct (map_assign_spec m n k i c x Hm Hi Hc) as (m' & Ha & Hm' & _ & _ & Hv & Hoth). by exists m'.
Qed.

Lemma container_size s n (str : P) (data : list T) : set_of_size (container_get s) n -> Map_size (mkMap str s data) = n.
Proof. intros (s' & Hs & Hn & He). unfold Map_size. cbn. rewrite Hs, He. destruct (Z.eqb_spec n 0); [done|exact Hn]. Qed.

Lemma map_make_ok s n p k shape v : set_of_size (container_get s) n -> 0 <= n -> stride_construct shape = Done p -> stride_ok p k -> n * k <= index_max ->
  exists m, Map_make s v shape = Done m /\ map_ok m n k /\ m_str m = p /\ m_setc m = s /\ m_mapData m = replicate (Z.to_nat (n * k)) v.
Proof.
  intros Hs Hn Hc Hp Hmax. destruct (numComp_spec p k Hp) as [Hk Hkp]. unfold Map_make. rewrite Hc. cbn [mbind outcome_bind].
  rewrite Hk, (container_size s n) by done. cbn [mbind outcome_bind]. unfold ix_mul. rewrite ix_small by nia. cbn [mbind outcome_bind].
  unfold vector_create. destruct (Z.ltb_spec (n * k) 0); [nia|]. cbn [mbind outcome_bind]. eexists. split; [done|]. split; [|done].
  constructor; cbn [m_str m_mapData]; [by apply container_size|done|done|rewrite length_replicate; nia|done].
Qed.

(** The values in order, and grouped by element. *)
Lemma map_values_spec m n k : map_ok m n k -> Map_values m = Done (m_mapData m).
Proof.
  intros Hm. destruct (map_numComp m n k Hm) as [Hk Hkp]. pose proof (mk_max _ _ _ Hm). pose proof (mk_nonneg _ _ _ Hm). unfold Map_values, Map_end.
  rewrite Hk, (mk_size _ _ _ Hm). cbn [mbind outcome_bind]. unfold ix_mul. rewrite ix_small by nia. cbn [mbind outcome_bind].
  apply visit_all; rewrite ?(mk_data _ _ _ Hm); [|done..]. intros q Hq. rewrite (mk_data _ _ _ Hm) in Hq. destruct (map_at_ok m n k q Hm Hq) as (y & ? & ?). eauto.
Qed.

Lemma mapM_lists {A B} (f : A -> outcome B) l l' : Forall2 (fun x y => f x = Done y) l l' -> mapM f l = Done l'.
Proof. induction 1 as [|x y l l' Hx _ IH]; [done|]. cbn. rewrite Hx. cbn. by rewrite IH. Qed.

Lemma map_range_spec m n k i : map_ok m n k -> 0 <= i < n -> Map_range m i = Done (takeZ k (dropZ (i * k) (m_mapData m))).
Proof.
  intros Hm Hi. destruct (map_numComp m n k Hm) as [Hk Hkp]. pose proof (mk_max _ _ _ Hm). pose proof (mk_data _ _ _ Hm) as Hd.
  pose proof (flat_in n k i 0 ltac:(lia) Hi ltac:(lia)). pose proof (flat_in n k i (k - 1) ltac:(lia) Hi ltac:(lia)).
  unfold Map_range. rewrite Hk. cbn [mbind outcome_bind]. unfold ix_mul. rewrite ix_small by lia. cbn [mbind outcome_bind]. apply mapM_lists.
  assert (Z.of_nat (length (dropZ (i * k) (m_mapData m))) = n * k - i * k) as Hld by (rewrite length_dropZ; lia).
  apply Forall2_lookup. intros j. destruct (decide (Z.of_nat j < k)) as [Hj|Hj].
  - unfold up. rewrite lookup_seqZ_lt by lia. rewrite <- (zlookup_of_nat (takeZ _ _)), zlookup_takeZ, decide_True, zlookup_dropZ by lia.
    destruct (map_at_ok m n k (i * k + Z.of_nat j) Hm) as (y & Hy & ->); [lia|]. constructor. rewrite Z.add_0_l. unfold ix_add. rewrite ix_small by lia. done.
  - unfold up. rewrite lookup_seqZ_ge by lia. rewrite lookup_ge_None_2; [constructor|]. unfold takeZ. rewrite length_take. lia.
Qed.

(** A new map over a set is valid and has the given value for every component of
    every element; its iterator visits a value for each component of each element, and
    the iterator over the elements groups them by element. *)
Theorem map_make_valid s n p k shape v : set_of_size (container_get s) n -> 0 <= n -> stride_construct shape = Done p -> stride_ok p k -> n * k <= index_max ->
  exists m, Map_make s v shape = Done m /\ map_ok m n k /\ Map_isValid m = Done true /\
    (forall i c, 0 <= i < n -> comp_ok p c -> Map_value m i c = Done v) /\
    Map_values m = Done (replicate (Z.to_nat (n * k)) v) /\
    Map_set_elements m = Done (replicate (Z.to_nat n) (replicate (Z.to_nat k) v)).
Proof.
  intros Hs Hn Hc Hp Hmax. destruct (map_make_ok s n p k shape v Hs Hn Hc Hp Hmax) as (m & Hm & Hok & Hstr & Hset & Hdata). exists m.
  destruct (map_numComp m n k Hok) as [Hk Hkp]. split_and!; [done|done| | | |].
  - unfold Map_isValid. rewrite Hset. destruct Hs as (s' & Hs & Hsz & He). rewrite Hs. cbn [ptr_isEmpty]. rewrite He. destruct (Z.eqb_spec n 0) as [->|].
    + by rewrite Hdata.
    + cbn [ub mbind outcome_bind]. rewrite Hk, Hsz. cbn [mbind outcome_bind]. unfold ix_mul. rewrite ix_small by nia. cbn [mbind outcome_bind].
      rewrite to_index_id, (mk_data _ _ _ Hok), Z.eqb_refl by (rewrite (mk_data _ _ _ Hok); nia). done.
  - intros i c Hi Hcc. rewrite <- Hstr in Hcc. destruct (elemIndex_spec m n k i c Hok Hi Hcc) as (o & _ & Hor & He). unfold Map_value. rewrite He.
    cbn [mbind outcome_bind]. destruct (map_at_ok m n k (i * k + o) Hok) as (y & -> & Hy); [apply flat_in; lia|]. f_equal.
    pose proof (zlookup_Some_bounds _ _ _ Hy). rewrite Hdata, zlookup_to_nat in Hy by lia. by apply lookup_replicate in Hy as [-> _].
  - by rewrite (map_values_spec m n k), Hdata.
  - unfold Map_set_elements. rewrite (mk_size _ _ _ Hok). apply visit_all; rewrite ?length_replicate; [|nia|lia].
    intros i Hi. rewrite length_replicate in Hi. eexists. split; [apply (map_range_spec m n k); [done|lia]|].
    pose proof (flat_in n k i (k - 1) ltac:(lia) ltac:(lia) ltac:(lia)).
    rewrite zlookup_to_nat, lookup_replicate_2 by lia. rewrite Hdata. unfold takeZ, dropZ. rewrite drop_replicate, take_replicate. f_equal. f_equal. lia.
Qed.
End Map.

(** ** Maps over sets of pairs *)

(** The values of the rows, with [k] values for every pair. *)
Fixpoint chunks {A} (k : Z) (rows : list (list Z)) (data : list A) : list (list A) :=
  match rows with
  | [] => []
  | l :: rows => takeZ (Z.of_nat (length l) * k) data :: chunks k rows (dropZ (Z.of_nat (length l) * k) data)
  end.

Lemma length_chunks {A} k rows (data : list A) : length (chunks k rows data) = length rows.
Proof. revert data. induction rows as [|l rows IH]; intros data; [done|]. cbn. by rewrite IH. Qed.

Lemma chunks_join {A} k rows (data : list A) : 0 <= k -> Z.of_nat (length data) = Z.of_nat (length (mjoin rows)) * k ->
  mjoin (chunks k rows data) = data.
Proof.
  intros Hk. revert data. induction rows as [|l rows IH]; intros data Hd; [by destruct data|].
  rewrite join_cons, length_app in Hd. cbn [chunks]. rewrite join_cons, IH by (rewrite length_dropZ; nia). apply take_drop.
Qed.

Lemma chunks_lookup {A} k rows (data : list A) i l : 0 <= k -> rows.[i] = Some l ->
  (chunks k rows data).[i] = Some (takeZ (Z.of_nat (length l) * k) (dropZ (start rows i * k) data)).
Proof.
  intros Hk. revert data i. induction rows as [|l0 rows IH]; intros data i Hl; [apply zlookup_Some_bounds in Hl; cbn in Hl; lia|].
  pose proof (zlookup_Some_bounds _ _ _ Hl). cbn [chunks]. destruct (decide (i = 0)) as [->|Hne]; [by injection Hl as ->|].
  rewrite zlookup_cons_pos in Hl by lia. rewrite zlookup_cons_pos by lia. rewrite (IH _ _ Hl), start_cons by lia. do 2 f_equal. unfold dropZ. rewrite drop_drop. f_equal.
  pose proof (flat_bound rows (i - 1) l 0 Hl ltac:(lia)) as [Hb _]. fold (start rows (i - 1)) in Hb. nia.
Qed.

Section BivariateMap.
Context {T P B : Type} `{!MapStride P, !MapStrideLaws P, !BivariateSet B, !BivariateLaws B}.
Notation RowMap := (SubMap P RuntimeSize RuntimeOffset StrideOne NoIndirection NoSubset).
Implicit Types (bm : BivariateMap T P B) (h : Heap) (sm : RowMap).

Record bmap_ok h bm (n : Z) (rows : list (list Z)) (k : Z) : Prop := {
  bo_bset : bset_repr h (m_bset bm) n rows;
  bo_map : map_ok (m_map bm) (Z.of_nat (length (mjoin rows))) k;
  bo_str : bm_str bm = m_str (m_map bm) }.

Lemma start_in rows i l j : rows.[i] = Some l -> 0 <= j < Z.of_nat (length l) -> 0 <= start rows i /\ 0 <= start rows i + j < Z.of_nat (length (mjoin rows)).
Proof. intros Hl Hj. pose proof (flat_bound rows i l (j + 1) Hl ltac:(lia)) as Hb. fold (start rows i) in Hb. lia. Qed.

(** The submap of a row. *)
Lemma submap_spec h bm n rows k i l : bmap_ok h bm n rows k -> rows.[i] = Some l ->
  exists sm, submap h bm i = Done sm /\ sm_str sm = bm_str bm /\ SubMap_size sm = Z.of_nat (length l) /\
    m_indicesHaveIndirection sm = indices_use_indirection (B := B) /\
    (forall j, 0 <= j < Z.of_nat (length l) -> getMapElemFlatIndex h sm j = Done (start rows i + j)).
Proof.
  intros Hb Hl. destruct (bset_range_lists h (m_bset bm) n rows i l (bo_bset _ _ _ _ _ Hb) Hl) as (r & Hr & Hsz & Hat & _).
  unfold submap. rewrite Hr. cbn [mbind outcome_bind]. eexists. split; [done|]. by split_and!.
Qed.

Lemma submap_at_spec h bm n rows k i l sm q : bmap_ok h bm n rows k -> rows.[i] = Some l -> sm_str sm = bm_str bm ->
  (forall j, 0 <= j < Z.of_nat (length l) -> getMapElemFlatIndex h sm j = Done (start rows i + j)) ->
  0 <= q < Z.of_nat (length l) * k -> SubMap_at h bm sm q = Map_at (m_map bm) (start rows i * k + q).
Proof.
  intros Hb Hl Hs Hat Hq. destruct (map_numComp _ _ _ (bo_map _ _ _ _ _ Hb)) as [Hk Hkp]. pose proof (mk_max _ _ _ (bo_map _ _ _ _ _ Hb)) as Hmax.
  unfold SubMap_at, getMapCompFlatIndex. rewrite Hs, (bo_str _ _ _ _ _ Hb), Hk. cbn [mbind outcome_bind].
  assert (0 <= q / k < Z.of_nat (length l)) as Hqk by (split; [apply Z.div_pos; lia|apply Z.div_lt_upper_bound; lia]).
  pose proof (Z.mod_pos_bound q k ltac:(lia)). pose proof (Z.div_mod q k ltac:(lia)). destruct (start_in rows i l (q / k) Hl Hqk) as [Hs0 Hin].
  pose proof (flat_in _ k (start rows i + q / k) (q mod k) ltac:(lia) Hin ltac:(lia)).
  assert (start rows i * k + q = (start rows i + q / k) * k + q mod k) as Heq by lia.
  assert (0 <= start rows i * k) by nia. rewrite ix_rem_small, ix_div_small by lia. cbn [mbind outcome_bind]. rewrite Hat by done. cbn [mbind outcome_bind].
  unfold ix_mul, ix_add. rewrite ix_small by lia. cbn [mbind outcome_bind]. rewrite ix_small by lia. cbn [mbind outcome_bind].
  cbn. unfold bm_at. by rewrite Heq.
Qed.

Lemma submap_values_spec h bm n rows k i l sm : bmap_ok h bm n rows k -> rows.[i] = Some l -> sm_str sm = bm_str bm ->
  SubMap_size sm = Z.of_nat (length l) ->
  (forall j, 0 <= j < Z.of_nat (length l) -> getMapElemFlatIndex h sm j = Done (start rows i + j)) ->
  SubMap_values h bm sm = Done (takeZ (Z.of_nat (length l) * k) (dropZ (start rows i * k) (m_mapData (m_map bm)))).
Proof.
  intros Hb Hl Hs Hsz Hat. pose proof (bo_map _ _ _ _ _ Hb) as Hm. destruct (map_numComp _ _ _ Hm) as [Hk Hkp]. pose proof (mk_max _ _ _ Hm) as Hmax.
  pose proof (mk_data _ _ _ Hm) as Hd.
  pose proof (flat_bound rows i l _ Hl (conj (Zle_0_nat (length l)) (Z.le_refl _))) as Hfb. fold (start rows i) in Hfb.
  assert (0 <= start rows i * k /\ 0 <= Z.of_nat (length l) * k /\ start rows i * k + Z.of_nat (length l) * k <= Z.of_nat (length (mjoin rows)) * k) as Hmul by nia.
  unfold SubMap_values, SubMap_end. rewrite Hs, (bo_str _ _ _ _ _ Hb), Hk, Hsz. cbn [mbind outcome_bind]. unfold ix_mul. rewrite ix_small by lia.
  cbn [mbind outcome_bind]. assert (Z.of_nat (length (dropZ (start rows i * k) (m_mapData (m_map bm)))) = Z.of_nat (length (mjoin rows)) * k - start rows i * k) as Hld
    by (rewrite length_dropZ; lia).
  assert (Z.of_nat (length (takeZ (Z.of_nat (length l) * k) (dropZ (start rows i * k) (m_mapData (m_map bm))))) = Z.of_nat (length l) * k) as Hlt
    by (rewrite length_takeZ; lia).
  apply visit_all; rewrite ?Hlt; [|lia|done]. intros q Hq. rewrite Hlt in Hq.
  rewrite (submap_at_spec h bm n rows k i l) by done. destruct (map_at_ok _ _ _ (start rows i * k + q) Hm) as (y & Hy & Hyl); [lia|]. exists y. split; [done|].
  by rewrite zlookup_takeZ, decide_True, zlookup_dropZ by lia.
Qed.

(** The value found for a pair. *)
Lemma findValue_spec h bm n rows k i l e c : bmap_ok h bm n rows k -> rows.[i] = Some l -> 0 <= e < n ->
  findValue h bm i e c =
    match first_index e l with
    | Some j => x ← Map_value (m_map bm) (start rows i + j) c; Done (Some x)
    | None => Done None
    end.
Proof.
  intros Hb Hl He. unfold findValue. destruct (bset_find_spec h (m_bset bm) n rows i l e (bo_bset _ _ _ _ _ Hb) Hl He) as [_ ->].
  cbn [mbind outcome_bind]. destruct (first_index e l) as [j|] eqn:E; [|done]. apply first_index_lookup in E as [Hj _].
  pose proof (start_in rows i l j Hl (zlookup_Some_bounds _ _ _ Hj)). unfold INVALID_POS. by destruct (Z.eqb_spec (start rows i + j) (-1)); [lia|].
Qed.

Lemma bivariate_map_make_ok h s n rows p k shape (v : T) : bset_repr h s n rows -> stride_construct shape = Done p -> stride_ok p k ->
  Z.of_nat (length (mjoin rows)) * k <= index_max ->
  exists bm, BivariateMap_make h s v shape = Done bm /\ bmap_ok h bm n rows k.
Proof.
  intros Hr Hc Hp Hmax. unfold BivariateMap_make. rewrite Hc, (bset_size_spec h s n rows Hr). cbn [mbind outcome_bind].
  destruct (map_make_ok (flat_container h (Z.of_nat (length (mjoin rows)))) (Z.of_nat (length (mjoin rows))) p k shape v) as (m & -> & Hm & Hstr & _); [|lia|done..|].
  { eexists. split; [done|]. split; [done|]. done. }
  cbn [mbind outcome_bind]. eexists. split; [done|]. by constructor.
Qed.

(** A map over a set of pairs is a list of rows of values.  The submap of a first
    index has the values of its row, its elements are the second indices of the row, and
    the rows together are all values in order.  [findValue] finds a value exactly for the
    pairs of the set. *)
Theorem bivariate_map_rows h bm n rows k : bmap_ok h bm n rows k ->
  (exists vals, mjoin vals = m_mapData (m_map bm) /\ length vals = length rows /\
    forall i l, rows.[i] = Some l -> exists sm v, submap h bm i = Done sm /\ vals.[i] = Some v /\ Z.of_nat (length v) = Z.of_nat (length l) * k /\
      SubMap_values h bm sm = Done v /\ forall j e, l.[j] = Some e -> SubMap_index h bm sm j = Done e) /\
  (forall i l e c, rows.[i] = Some l -> 0 <= e < n -> comp_ok (bm_str bm) c ->
    exists o, findValue h bm i e c = Done o /\ (is_Some o <-> e ∈ l)).
Proof.
  intros Hb. pose proof (bo_map _ _ _ _ _ Hb) as Hm. destruct (map_numComp _ _ _ Hm) as [Hk Hkp]. pose proof (mk_data _ _ _ Hm) as Hd. split.
  - exists (chunks k rows (m_mapData (m_map bm))). split_and!; [by apply chunks_join; [lia|]|apply length_chunks|]. intros i l Hl.
    destruct (submap_spec h bm n rows k i l Hb Hl) as (sm & Hsm & Hs & Hsz & Hind & Hat). do 2 eexists. split; [exact Hsm|].
    split; [apply (chunks_lookup k rows _ i l); [lia|done]|]. split; [|split; [by apply (submap_values_spec h bm n rows k i l)|]].
    + pose proof (flat_bound rows i l _ Hl (conj (Zle_0_nat (length l)) (Z.le_refl _))) as Hfb. fold (start rows i) in Hfb.
      rewrite length_takeZ; [done|]. rewrite length_dropZ by nia. nia.
    + intros j e Hj. pose proof (zlookup_Some_bounds _ _ _ Hj) as Hjb. unfold SubMap_index. rewrite Hind. destruct indices_use_indirection eqn:E.
      * change (at_ h (m_subsetIdx sm) j) with (getMapElemFlatIndex h sm j). rewrite Hat by done. cbn [mbind outcome_bind].
        by destruct (bset_flat_spec h (m_bset bm) n rows i l j e (bo_bset _ _ _ _ _ Hb) Hl Hj) as (_ & _ & ?).
      * f_equal. symmetry. by eapply (bset_dense_spec h (m_bset bm) n rows i l); [apply Hb|..].
  - intros i l e c Hl He Hc. rewrite (findValue_spec h bm n rows k i l e c Hb Hl He). destruct (first_index e l) as [j|] eqn:E.
    + apply first_index_lookup in E as [Hj _]. pose proof (zlookup_Some_bounds _ _ _ Hj) as Hjb. rewrite (bo_str _ _ _ _ _ Hb) in Hc.
      destruct (map_value_ok _ _ _ (start rows i + j) c Hm) as [y ->]; [by apply (start_in rows i l)|done|]. eexists. split; [done|].
      split; [|by eexists]. intros _. rewrite zlookup_to_nat in Hj by lia. by eapply list_elem_of_lookup_2.
    + eexists. split; [done|]. apply first_index_None in E. split; [by intros [? ?]|done].
Qed.

Lemma flat_pair_inj rows i l j i' l' j' : rows.[i] = Some l -> rows.[i'] = Some l' -> 0 <= j < Z.of_nat (length l) -> 0 <= j' < Z.of_nat (length l') ->
  start rows i + j = start rows i' + j' -> i = i' /\ j = j'.
Proof.
  intros Hl Hl' Hj Hj' He. destruct (zlookup_lt l j Hj) as [e Hje]. destruct (zlookup_lt l' j' Hj') as [e' Hje'].
  pose proof (pairs_from_lookup 0 rows i l j e Hl Hje) as H1. pose proof (pairs_from_lookup 0 rows i' l' j' e' Hl' Hje') as H2.
  rewrite He, H2 in H1. injection H1 as ? ?. assert (i = i') as -> by lia. split; [done|]. lia.
Qed.

(** C19: In a bivariate map over a set whose rows have no element twice and only elements of
    the second set, writing a component of an element of a submap writes the map:
    [findValue] then finds the new value for this pair and component, and the old one for
    all others.  The same holds for a write with the two indices of the pair. *)
Theorem bivariate_map_write h bm n rows k i l j e c x : bmap_ok h bm n rows k -> Forall NoDup rows -> Forall (Forall (fun e => 0 <= e < n)) rows ->
  rows.[i] = Some l -> l.[j] = Some e -> comp_ok (bm_str bm) c ->
  exists sm bm', submap h bm i = Done sm /\ SubMap_assign h bm sm j c x = Done bm' /\ bm_assign h bm i e c x = Done bm' /\
    bmap_ok h bm' n rows k /\ findValue h bm' i e c = Done (Some x) /\
    forall i' l' e' c', rows.[i'] = Some l' -> 0 <= e' < n -> comp_ok (bm_str bm) c' -> (i', e', c') <> (i, e, c) ->
      findValue h bm' i' e' c' = findValue h bm i' e' c'.
Proof.
  intros Hb Hnd Hrng Hl Hj Hc. pose proof (bo_map _ _ _ _ _ Hb) as Hm. pose proof (zlookup_Some_bounds _ _ _ Hj) as Hjb. rewrite (bo_str _ _ _ _ _ Hb) in Hc |- *.
  pose proof (zlookup_Forall _ _ _ _ (zlookup_Forall _ _ _ _ Hrng Hl) Hj) as He. cbn in He.
  pose proof (first_index_NoDup l j e (zlookup_Forall _ _ _ _ Hnd Hl) Hj) as Hfi. pose proof (start_in rows i l j Hl Hjb) as Hin.
  destruct (submap_spec h bm n rows k i l Hb Hl) as (sm & Hsm & Hs & Hsz & Hind & Hat).
  destruct (map_assign_spec _ _ _ (start rows i + j) c x Hm (proj2 Hin) Hc) as (m' & Ha & Hm' & Hstr & _ & Hv & Hoth).
  exists sm, (mkBivariateMap (bm_str bm) (m_bset bm) m').
  assert (bmap_ok h (mkBivariateMap (bm_str bm) (m_bset bm) m') n rows k) as Hb'.
  { constructor; [apply Hb|done|]. cbn. by rewrite Hstr, <- (bo_str _ _ _ _ _ Hb). }
  split_and!; [done| | |done| |].
  - unfold SubMap_assign, submap_elem. rewrite Hat by done. cbn [mbind outcome_bind].
    rewrite Hs, (bo_str _ _ _ _ _ Hb). unfold Map_assign, elemIndex in Ha. destruct (map_numComp _ _ _ Hm) as [Hk _]. rewrite Hk in Ha |- *. cbn [mbind outcome_bind] in *.
    apply bind_inv in Ha as (q & Hq & Ha). apply bind_inv in Hq as (eb & -> & Hq). cbn [mbind outcome_bind]. rewrite Hq. cbn [mbind outcome_bind].
    cbn. unfold bm_put. rewrite Ha. cbn. by rewrite (bo_str _ _ _ _ _ Hb).
  - unfold bm_assign, flatIndex. destruct (bset_find_spec h (m_bset bm) n rows i l e (bo_bset _ _ _ _ _ Hb) Hl He) as [_ ->]. rewrite Hfi.
    cbn [mbind outcome_bind]. unfold flatAssign. by rewrite Ha.
  - rewrite (findValue_spec h _ n rows k i l e c Hb' Hl He), Hfi. cbn [m_map]. by rewrite Hv.
  - intros i' l' e' c' Hl' He' Hc' Hne. rewrite (findValue_spec h _ n rows k i' l' e' c' Hb' Hl' He'), (findValue_spec h bm n rows k i' l' e' c' Hb Hl' He').
    destruct (first_index e' l') as [j'|] eqn:E; [|done]. cbn [m_map]. apply first_index_lookup in E as [Hj' _]. pose proof (zlookup_Some_bounds _ _ _ Hj') as Hjb'.
    rewrite Hoth; [done|apply (start_in rows i' l'); done|done|]. intros [= Heq ->]. apply Hne.
    destruct (flat_pair_inj rows i' l' j' i l j Hl' Hl Hjb' Hjb Heq) as [-> ->]. rewrite Hl in Hl'. injection Hl' as <-. rewrite Hj in Hj'. by injection Hj' as ->.
Qed.
End BivariateMap.

(** *** Iteration over all values *)

Section FlatIteration.
Context {T Str B : Type} `{!StridePolicy Str, !BivariateSet B, !BivariateLaws B}.
Implicit Types (bm : BivariateMap T Str B) (h : Heap).

Definition flat_at (k q : Z) : FlatIterator := mkFlatIterator q (q / k).

Lemma fi_visit_visit h bm k fuel p e : stride_of (bm_str bm) = k -> 0 < k -> 0 <= p <= e -> e <= index_max ->
  fi_visit fuel h bm (flat_at k p) (flat_at k e) = visit fuel (fun q => fi_visit1 h bm (flat_at k q)) p e.
Proof.
  intros Hk Hkp. revert p. induction fuel as [|fuel IH]; intros p Hp He; cbn [fi_visit visit fi_pos flat_at]; [done|].
  destruct (Z.eqb_spec p e) as [->|Hne]; cbn [negb]; [done|]. destruct (fi_visit1 h bm (mkFlatIterator p (p / k))) as [x| |] eqn:E; unfold flat_at; rewrite ?E; [|done..].
  cbn [mbind outcome_bind]. unfold fi_advance. cbn [fi_pos fi_bset]. unfold ix_sub, ix_add. rewrite !(ix_small (p + 1)) by lia. cbn [mbind outcome_bind numComp OneDim_stride].
  rewrite Hk, ix_div_small by lia. cbn [mbind outcome_bind]. pose proof (Z.div_le_mono p (p + 1) k ltac:(lia) ltac:(lia)).
  pose proof (Z.div_pos p k ltac:(lia) ltac:(lia)). pose proof (Z.div_le_upper_bound (p + 1) k (p + 1) ltac:(lia) ltac:(nia)).
  rewrite ix_small by lia. cbn [mbind outcome_bind]. rewrite ix_small by lia. cbn [mbind outcome_bind].
  replace (p / k + ((p + 1) / k - p / k)) with ((p + 1) / k) by lia. fold (flat_at k (p + 1)) (flat_at k e). by rewrite IH by lia.
Qed.

(** Iterating over a map on a set of pairs visits all values in order, and gives for
    each the two indices of its pair and its component. *)
Theorem bivariate_map_iteration h bm n rows k : bmap_ok h bm n rows k ->
  exists l, bm_values h bm = Done l /\ snd <$> l = m_mapData (m_map bm) /\
    forall q i j c x, l.[q] = Some (i, j, c, x) -> (pairs rows).[q / k] = Some (i, j) /\ c = q mod k.
Proof.
  intros Hb. pose proof (bo_map _ _ _ _ _ Hb) as Hm. destruct (mk_stride _ _ _ Hm) as [Hk Hkp]. pose proof (mk_max _ _ _ Hm) as Hmax. pose proof (mk_data _ _ _ Hm) as Hd.
  set (N := Z.of_nat (length (mjoin rows))) in *. rewrite <- (bo_str _ _ _ _ _ Hb) in Hk.
  assert (forall q, 0 <= q < N * k -> exists i j x, fi_visit1 h bm (flat_at k q) = Done (i, j, q mod k, x) /\ (pairs rows).[q / k] = Some (i, j) /\
    (m_mapData (m_map bm)).[q] = Some x) as Hvis.
  { intros q Hq. assert (0 <= q / k < N) as Hqk by (split; [apply Z.div_pos; lia|apply Z.div_lt_upper_bound; lia]).
    pose proof (Z.mod_pos_bound q k ltac:(lia)) as Hc. destruct (zlookup_lt (pairs rows) (q / k)) as [[i j] Hij]; [unfold pairs; rewrite pairs_from_length; lia|].
    destruct (map_at_ok _ _ _ q Hm Hq) as (x & Hx & Hxl). exists i, j, x. split; [|done].
    pose proof (bset_deref_spec h (m_bset bm) n rows (q / k) (i, j) (bo_bset _ _ _ _ _ Hb) Hij) as Hder. unfold bi_deref, bi_firstIndex, bi_secondIndex in Hder. cbn in Hder.
    unfold fi_visit1, fi_deref, fi_firstIndex, fi_secondIndex, fi_compIndex, flat_at. cbn [fi_bset fi_pos].
    apply bind_inv in Hder as (i' & -> & Hder). apply bind_inv in Hder as (j' & -> & [= -> ->]). cbn [mbind outcome_bind numComp OneDim_stride]. rewrite Hk, ix_rem_small by lia.
    cbn [mbind outcome_bind]. unfold flatValue, Map_value. rewrite (bo_str _ _ _ _ _ Hb) in Hk.
    pose proof (fun c => elemIndex_spec (m_map bm) N k (q / k) c Hm Hqk) as Hel. destruct (Hel (q mod k)) as (o & [= <-] & _ & ->); [cbn; lia|]. cbn [mbind outcome_bind].
    replace (q / k * k + q mod k) with q by (pose proof (Z.div_mod q k); lia). by rewrite Hx. }
  destruct (lists_exists (fun q => fi_visit1 h bm (flat_at k q)) (Z.to_nat (N * k))) as (l & Hl & Hlen).
  { intros q Hq. destruct (Hvis q) as (i & j & x & Hv & _); [lia|]. eauto. }
  exists l. assert (0 <= N * k) by nia. split_and!.
  - unfold bm_values, bm_size. rewrite (bset_size_spec h (m_bset bm) n rows (bo_bset _ _ _ _ _ Hb)). fold N. cbn [mbind outcome_bind numComp OneDim_stride]. rewrite Hk.
    unfold ix_mul. rewrite ix_small by lia. cbn [mbind outcome_bind]. unfold fi_make. cbn [mbind outcome_bind numComp OneDim_stride]. rewrite Hk, !ix_div_small by lia.
    cbn [mbind outcome_bind]. fold (flat_at k 0) (flat_at k (N * k)). rewrite (fi_visit_visit h bm k) by lia. by apply visit_all; [|lia|lia].
  - apply zlookup_ext; [rewrite length_fmap; lia|]. intros q Hq. rewrite length_fmap in Hq. rewrite zlookup_fmap. destruct (Hl q Hq) as (v & Hv & ->).
    destruct (Hvis q) as (i & j & x & Hv' & _ & ->); [lia|]. rewrite Hv in Hv'. by injection Hv' as ->.
  - intros q i j c x Hq. pose proof (zlookup_Some_bounds _ _ _ Hq) as Hqb. destruct (Hl q Hqb) as (v & Hv & Hqv). rewrite Hq in Hqv. injection Hqv as <-.
    destruct (Hvis q) as (i' & j' & x' & Hv' & Hp & _); [lia|]. rewrite Hv in Hv'. by injection Hv' as -> -> -> ->.
Qed.
End FlatIteration.

(** ** Dynamic maps *)

Section DynamicMap.
Context {T : Type} (zero : T).

(** Inserting at a position past the end fills the positions before it. *)
Lemma dynamic_map_insert_spec m pos x : 0 <= pos < index_max -> Z.of_nat (length (dm_data m)) <= index_max ->
  exists m', DynamicMap_insert zero m pos x = Done m' /\
    Z.of_nat (length (dm_data m')) = Z.max (Z.of_nat (length (dm_data m))) (pos + 1) /\
    forall q, 0 <= q < Z.of_nat (length (dm_data m')) ->
      DynamicMap_at m' q = Done (if decide (q = pos) then x else default zero (dm_data m).[q]).
Proof.
  intros Hp Hl. unfold DynamicMap_insert, DynamicMap_reach, ix_add. rewrite ix_small by lia. cbn [mbind outcome_bind].
  unfold DynamicMap_size. rewrite to_index_id by lia.
  assert (exists l, (if Z.of_nat (length (dm_data m)) <? pos + 1 then DynamicMap_resize zero m (pos + 1) else Done m) = Done (mkDynamicMap l) /\
    Z.of_nat (length l) = Z.max (Z.of_nat (length (dm_data m))) (pos + 1) /\ forall q, 0 <= q < Z.of_nat (length l) -> l.[q] = Some (default zero (dm_data m).[q])) as (l & -> & Hlen & Hq).
  { destruct (Z.ltb_spec (Z.of_nat (length (dm_data m))) (pos + 1)).
    - unfold DynamicMap_resize, vector_resize. destruct (Z.ltb_spec (pos + 1) 0); [lia|]. cbn [mbind outcome_bind]. eexists. split; [done|].
      rewrite take_ge by lia. rewrite length_app, length_replicate. split; [lia|]. intros q Hq. rewrite zlookup_app. case_decide.
      + by destruct (zlookup_lt (dm_data m) q) as [y ->]; [lia|].
      + destruct ((dm_data m).[q]) eqn:E; [apply zlookup_Some_bounds in E; lia|]. rewrite zlookup_to_nat by lia. apply lookup_replicate_2. lia.
    - exists (dm_data m). destruct m as [l]. cbn in *. split_and!; [done|lia|]. intros q Hq. by destruct (zlookup_lt l q) as [y ->]. }
  cbn [mbind outcome_bind dm_data]. rewrite zupdate_lt by lia. cbn [ub mbind outcome_bind]. eexists. split; [done|]. cbn [dm_data]. rewrite length_insert. split; [done|].
  intros q Hqb. unfold DynamicMap_at. cbn [dm_data]. rewrite zlookup_insert by lia. destruct (decide (pos = q)) as [->|]; [by rewrite decide_True|].
  rewrite decide_False by done. by rewrite Hq by lia.
Qed.
End DynamicMap.

End Maps.

(** ** Examples *)

#[local] Instance long_bits : IndexBits := IndexType64.

Definition three : SetContainer := mkSetContainer (Some (OrderedSet_as_Set ∅ (PositionSet_make 3))) None.

(** A map with a matrix of 2 by 4 components for each of three elements. *)
Lemma map_make_valid_witness :
  exists p m, MultiDimStride_make 2 [2; 4] = Done p /\ Map_make (P := MultiDimStride 2) three 7 [2; 4] = Done m /\
    Map_value m 2 [1; 3] = Done 7 /\ Map_values m = Done (replicate 24 7).
Proof.
  destruct (MultiDimStride_make_spec (Dims := 2) [2; 4]) as (p & Hp & Hsh & Hok); [done|done|by repeat constructor|done|].
  pose proof (fun shape => map_make_valid (P := MultiDimStride 2) three 3 p 8 shape 7) as Hmake.
  destruct (Hmake [2; 4]) as (m & Hm & _ & _ & Hv & Hvs & _); [by eexists|lia|exact Hp|exact Hok|done|].
  exists p, m. split_and!; [done|done| |exact Hvs]. apply (Hv 2 [1; 3]); [lia|]. cbn. rewrite Hsh. repeat constructor; lia.
Defined.

Lemma map_read_write_witness :
  exists p m, MultiDimStride_make 2 [2; 4] = Done p /\ Map_assign (mkMap p three (replicate 24 7)) 2 [1; 3] 9 = Done m /\
    Map_value m 2 [1; 3] = Done 9 /\ Map_value m 2 [1; 2] = Done 7.
Proof.
  destruct (MultiDimStride_make_spec (Dims := 2) [2; 4]) as (p & Hp & Hsh & Hok); [done|done|by repeat constructor|done|].
  set (m0 := mkMap p three (replicate 24 7)).
  assert (forall c, digits c [2; 4] -> comp_ok (m_str m0) c) as Hc by (intros c Hc; cbn; by rewrite Hsh).
  pose proof (fun c => map_read_write m0 3 8 2 c 9) as Hrw. destruct (Hrw [1; 3]) as (_ & m & Hm & _ & Hx & Hoth); [by constructor|lia|apply Hc; repeat constructor; lia|].
  exists p, m. split_and!; [done|done|done|]. rewrite Hoth; [|lia|apply Hc; repeat constructor; lia|done].
  vm_compute in Hp. injection Hp as Hp. unfold m0. rewrite <- Hp. by vm_compute.
Defined.

(** Two values for each of the three pairs of a relation. *)
Definition crs_map : BivariateMap Z (CompileTimeStride 2) (RelationSet (VariableCardinality STLVectorIndirection) STLVectorIndirection) :=
  mkBivariateMap mkCompileTimeStride crs_set (mkMap mkCompileTimeStride (flat_container crs_heap 3) [10; 11; 12; 13; 14; 15]).

Lemma crs_map_ok : bmap_ok crs_heap crs_map 4 [[3; 1]; []; [0]] 2.
Proof.
  constructor; [|by constructor|done]. constructor. exists crs_relation. split_and!; [done|apply crs_relation_repr|done..].
Qed.

Lemma bivariate_map_rows_witness :
  exists sm, submap crs_heap crs_map 0 = Done sm /\ SubMap_values crs_heap crs_map sm = Done [10; 11; 12; 13] /\ SubMap_index crs_heap crs_map sm 1 = Done 1.
Proof.
  destruct (bivariate_map_rows crs_heap crs_map 4 [[3; 1]; []; [0]] 2 crs_map_ok) as [(vals & Hj & Hl & Hrow) _].
  destruct (Hrow 0 [3; 1] eq_refl) as (sm & v & Hsm & Hv & Hlen & Hval & Hidx). exists sm. split; [done|]. split; [|by apply Hidx].
  rewrite Hval. f_equal. destruct vals as [|v0 vals]; [done|]. injection Hv as ->. change (v ++ mjoin vals = [10; 11; 12; 13; 14; 15]) in Hj. cbn in Hlen.
  destruct v as [|a [|b [|c [|d [|? ?]]]]]; cbn in Hlen; try lia. by injection Hj as -> -> -> -> _.
Defined.

Lemma bivariate_map_write_witness :
  exists sm bm', submap crs_heap crs_map 0 = Done sm /\ SubMap_assign crs_heap crs_map sm 1 1 99 = Done bm' /\
    findValue crs_heap bm' 0 1 1 = Done (Some 99).
Proof.
  pose proof (fun c => bivariate_map_write crs_heap crs_map 4 [[3; 1]; []; [0]] 2 0 [3; 1] 1 1 c 99 crs_map_ok) as Hw.
  destruct (Hw 1) as (sm & bm' & Hsm & Ha & _ & _ & Hf & _).
  - repeat constructor; set_solver.
  - repeat constructor; lia.
  - done.
  - done.
  - cbn. lia.
  - by exists sm, bm'.
Defined.

Lemma bivariate_map_iteration_witness :
  exists l, bm_values crs_heap crs_map = Done l /\ snd <$> l = [10; 11; 12; 13; 14; 15].
Proof.
  destruct (bivariate_map_iteration crs_heap crs_map 4 [[3; 1]; []; [0]] 2 crs_map_ok) as (l & Hl & Hd & _). by exists l.
Defined.

(** The builder copies one value for each element, also when the stride is larger. *)
Example builder_copies_one_component :
  (m ← Map_build (Str := RuntimeStride) (mapbuilder_data (mapbuilder_stride (mapbuilder_set (MapBuilder_new true None 0) (m_pSet three)) 2)
     (Some [1; 2; 3; 4; 5; 6])); Done (m_mapData m)) = Done [1; 2; 3; 0; 0; 0].
Proof. by vm_compute. Qed.

(** Subscripting with a pair that is not in the set reads before the first value. *)
Example missing_pair_undefined :
  bm_call crs_heap crs_map 0 2 (0 : ComponentIndex (P := CompileTimeStride 2)) = Undefined /\
  findValue crs_heap crs_map 0 2 (0 : ComponentIndex (P := CompileTimeStride 2)) = Done None.
Proof. by vm_compute. Qed.

End SlamMapTheorems.
