(* ===== verification/Morton.v ===== *)
(** * Morton indices ([src/axom/spin/MortonIndex.hpp])

    Bit interleaving of 2D, 3D and 4D integer points with the shift and mask
    tables of the source, for every width [w] of the index type.  The expansion
    and contraction loops are OR-linear, so evaluation on the powers of two
    determines them; the theorems give the bit-level meaning of an index and the
    two round trips. *)

From S2P Require Import Prelude.

Module Morton.

(** ** Definitions *)

(** [NumReps<T>] by the number of bits of [T]. *)
Definition NumReps (w : Z) : Z :=
  if w =? 8 then 2 else if w =? 16 then 3 else if w =? 32 then 4 else 5.

(** A coordinate type: its value bits ([numeric_limits::digits]) and whether it
    is signed; the conversion of an integer to it. *)
Record CoordType := mkCoordType { digits : Z; is_signed : bool }.

Definition cast (t : CoordType) (x : Z) : Z :=
  if is_signed t then (x + 2 ^ digits t) mod 2 ^ (digits t + 1) - 2 ^ digits t
  else x mod 2 ^ digits t.

(** The magic numbers of the 2D and of the 3D specialisation. *)
Definition table_B2 : list Z :=
  [0x5555555555555555; 0x3333333333333333; 0x0F0F0F0F0F0F0F0F;
   0x00FF00FF00FF00FF; 0x0000FFFF0000FFFF; 0x00000000FFFFFFFF].
Definition table_S2 : list Z := [1; 2; 4; 8; 16; 32].

Definition table_B3 : list Z :=
  [0x9249249249249249; 0x30C30C30C30C30C3; 0xF00F00F00F00F00F;
   0x00FF0000FF0000FF; 0xFFFF00000000FFFF; 0x00000000FFFFFFFF].
Definition table_S3 : list Z := [2; 4; 8; 16; 32; 0].

Definition GetB2 (w i : Z) : Z := wrap w (default 0 (table_B2.[i])).
Definition GetS2 (i : Z) : Z := default 0 (table_S2.[i]).
Definition GetB3 (w i : Z) : Z := wrap w (default 0 (table_B3.[i])).
Definition GetS3 (i : Z) : Z := default 0 (table_S3.[i]).

(** [for(i = EXPAND_MAX_ITER; i >= 0; --i) x = (x | (x << S(i))) & B(i)] *)
Definition expandBits (w : Z) (GetS GetB : Z -> Z) (max_iter : Z) (x : Z) : Z :=
  foldl (fun x i => Z.land (Z.lor x (wrap w (Z.shiftl x (GetS i)))) (GetB i)) x
        (reverse (seqZ 0 (max_iter + 1))).

(** [for(i = 0; i < CONTRACT_MAX_ITER; ++i) x = (x | (x >> S(i))) & B(i + 1)] *)
Definition contractBits (GetS GetB : Z -> Z) (max_iter : Z) (x : Z) : Z :=
  foldl (fun x i => Z.land (Z.lor x (Z.shiftr x (GetS i))) (GetB (i + 1))) x
        (seqZ 0 max_iter).

Definition table_MaxBit_B : list Z :=
  [0x2; 0xC; 0xF0; 0xFF00; 0xFFFF0000; 0xFFFFFFFF00000000].
Definition table_MaxBit_S : list Z := [1; 2; 4; 8; 16; 32].

(** [maxSetBit], on the non-negative values of the coordinate type. *)
Definition maxSetBit (w : Z) (t : CoordType) (x : Z) : Z :=
  snd (foldl (fun '(x, res) i =>
        if Z.land x (cast t (default 0 (table_MaxBit_B.[i]))) =? 0 then (x, res)
        else (Z.shiftr x (default 0 (table_MaxBit_S.[i])),
              Z.lor res (default 0 (table_MaxBit_S.[i]))))
      (x, 0) (reverse (seqZ 0 (NumReps w + 1)))).

(** 2D *)
Definition MB_PER_DIM (ndim w : Z) : Z := w / ndim.
Definition maxBitsPerCoord (ndim w : Z) (t : CoordType) : Z :=
  if MB_PER_DIM ndim w <? digits t then MB_PER_DIM ndim w else digits t.

Definition expand2 (w x : Z) : Z := expandBits w GetS2 (GetB2 w) (NumReps w) (wrap w x).
Definition contract2 (w x : Z) : Z := contractBits GetS2 (GetB2 w) (NumReps w) x.

Definition mortonize2 (w x y : Z) : Z :=
  Z.lor (expand2 w x) (wrap w (Z.shiftl (expand2 w y) 1)).

Definition demortonize2 (w : Z) (t : CoordType) (morton : Z) : Z * Z :=
  let b0 := GetB2 w 0 in
  (cast t (contract2 w (Z.land morton b0)),
   cast t (contract2 w (Z.land (Z.shiftr morton 1) b0))).

(** 3D *)
Definition expand3 (w x : Z) : Z := expandBits w GetS3 (GetB3 w) (NumReps w - 1) (wrap w x).
Definition contract3 (w x : Z) : Z := contractBits GetS3 (GetB3 w) (NumReps w) x.

Definition mortonize3 (w x y z : Z) : Z :=
  let b5 := GetB3 w 5 in
  Z.lor (Z.lor (expand3 w (Z.land x b5)) (wrap w (Z.shiftl (expand3 w (Z.land y b5)) 1)))
        (wrap w (Z.shiftl (expand3 w (Z.land z b5)) 2)).

Definition demortonize3 (w : Z) (t : CoordType) (morton : Z) : Z * Z * Z :=
  let b0 := GetB3 w 0 in
  (cast t (contract3 w (Z.land morton b0)),
   cast t (contract3 w (Z.land (Z.shiftr morton 1) b0)),
   cast t (contract3 w (Z.land (Z.shiftr morton 2) b0))).

(** [PointHash]: 64-bit indices; a 4D point is interleaved in two stages. *)
Definition PointHash1 (x : Z) : Z := wrap 64 x.
Definition PointHash2 (x y : Z) : Z := mortonize2 64 x y.
Definition PointHash3 (x y z : Z) : Z := mortonize3 64 x y z.
Definition PointHash4 (p0 p1 p2 p3 : Z) : Z :=
  mortonize2 64 (mortonize2 64 p0 p2) (mortonize2 64 p1 p3).

(** ** The loops are OR-linear *)

Definition morton_width (w : Z) : Prop := w = 8 \/ w = 16 \/ w = 32 \/ w = 64.

Lemma or_linear_foldl (step : Z -> Z -> Z) (l : list Z) :
  (forall i, OrLinear (fun x => step x i)) -> OrLinear (fun x => foldl step x l).
Proof.
  intros Hstep. induction l as [|i l IH]; [apply or_linear_id|].
  apply (or_linear_comp (fun x => foldl step x l) (fun x => step x i)); auto.
Qed.

#[global] Instance or_linear_expandBits w S B m : OrLinear (expandBits w S B m).
Proof. apply (or_linear_foldl (fun x i => _)). intros i. apply _. Qed.

#[global] Instance or_linear_contractBits S B m : OrLinear (contractBits S B m).
Proof. apply (or_linear_foldl (fun x i => _)). intros i. apply _. Qed.

#[global] Instance or_linear_expand2 w : OrLinear (expand2 w).
Proof. apply (or_linear_comp (expandBits _ _ _ _) (wrap w)); apply _. Qed.

#[global] Instance or_linear_contract2 w : OrLinear (contract2 w).
Proof. apply _. Qed.

#[global] Instance or_linear_expand3 w : OrLinear (expand3 w).
Proof. apply (or_linear_comp (expandBits _ _ _ _) (wrap w)); apply _. Qed.

#[global] Instance or_linear_contract3 w : OrLinear (contract3 w).
Proof. apply _. Qed.

(** ** Spreading bits: the reference definition

    [spread D n x] moves bit [i] of the [n]-bit word [x] to position [D * i]. *)
Definition spread (D : Z) (n : nat) (x : Z) : Z :=
  foldr (fun i acc => Z.lor (if Z.testbit x (Z.of_nat i) then 2 ^ (D * Z.of_nat i) else 0) acc)
        0 (seq 0 n).

#[global] Instance or_linear_spread D n : OrLinear (spread D n).
Proof.
  unfold spread. generalize (seq 0 n). intros l. split.
  - induction l as [|i l IH]; [done|]. cbn. by rewrite IH, Z.bits_0.
  - intros x y. induction l as [|i l IH]; [done|]. cbn. rewrite IH, Z.lor_spec.
    bits_ext j Hj. rewrite !Z.lor_spec.
    destruct (Z.testbit x _), (Z.testbit y _); rewrite ?Z.bits_0; cbn;
      repeat match goal with |- context [Z.testbit ?a j] => destruct (Z.testbit a j) end; done.
Qed.

Lemma spread_testbit D n x j :
  0 < D -> 0 <= j ->
  Z.testbit (spread D n x) j =
  bool_decide (j mod D = 0 /\ j / D < Z.of_nat n) && Z.testbit x (j / D).
Proof.
  intros HD Hj.
  assert (forall l, Z.testbit (foldr (fun i acc =>
      Z.lor (if Z.testbit x (Z.of_nat i) then 2 ^ (D * Z.of_nat i) else 0) acc) 0 l) j =
    bool_decide (j mod D = 0 /\ Z.to_nat (j / D) ∈ l) && Z.testbit x (j / D)) as Hgen.
  { assert (0 <= j / D) by (apply Z.div_pos; lia).
    induction l as [|i l IH]; cbn [foldr].
    - rewrite Z.bits_0, bool_decide_false; [done|]. intros [_ Hin]. by apply not_elem_of_nil in Hin.
    - rewrite Z.lor_spec, IH.
      assert (Z.testbit (if Z.testbit x (Z.of_nat i) then 2 ^ (D * Z.of_nat i) else 0) j =
        bool_decide (j = D * Z.of_nat i) && Z.testbit x (j / D)) as ->.
      { destruct (decide (j = D * Z.of_nat i)) as [->|Hne].
        - rewrite bool_decide_true by done. rewrite Z.mul_comm, Z.div_mul by lia.
          destruct (Z.testbit x (Z.of_nat i)); [|apply Z.bits_0].
          by rewrite testbit_pow2, bool_decide_true by nia.
        - rewrite bool_decide_false by done.
          destruct (Z.testbit x (Z.of_nat i)); [|apply Z.bits_0].
          by rewrite testbit_pow2, bool_decide_false by nia. }
      rewrite <- andb_orb_distrib_l. f_equal.
      destruct (decide (j = D * Z.of_nat i)) as [Hji|Hne].
      + rewrite (bool_decide_true (j = _)) by done. symmetry. apply bool_decide_true. split.
        * rewrite Hji, Z.mul_comm. apply Z.mod_mul. lia.
        * rewrite Hji, Z.mul_comm, Z.div_mul, Nat2Z.id by lia. left.
      + rewrite (bool_decide_false (j = _)) by done. cbn. apply bool_decide_ext.
        rewrite elem_of_cons. split; [naive_solver|]. intros [Hm [Hi|Hi]]; [|done].
        exfalso. apply Hne. rewrite (Z.div_mod j D) by lia. lia. }
  unfold spread. rewrite Hgen. f_equal. apply bool_decide_ext.
  rewrite elem_of_seq. assert (0 <= j / D) by (apply Z.div_pos; lia). lia.
Qed.

(** ** Interleaving

    On the coordinates that fit, the loops of the source spread the bits, and
    contraction undoes it; both by evaluation on the powers of two. *)

Definition bits2 (w : Z) : nat := Z.to_nat (w / 2).
Definition bits3 (w : Z) : nat := Z.to_nat (w / 3).

Ltac by_width Hw := destruct Hw as [->|[->|[->| ->]]].

Lemma expand2_spread w x :
  morton_width w -> in_word (Z.of_nat (bits2 w)) x -> expand2 w x = spread 2 (bits2 w) x.
Proof.
  intros Hw. by_width Hw; apply (or_linear_ext_eval (expand2 _) (spread 2 _) (bits2 _));
    (apply _ || (vm_compute; reflexivity)).
Qed.

Lemma expand3_spread w x :
  morton_width w -> in_word (Z.of_nat (bits3 w)) x ->
  expand3 w (Z.land x (GetB3 w 5)) = spread 3 (bits3 w) x.
Proof.
  intros Hw. by_width Hw;
    apply (or_linear_ext_eval (fun x => expand3 _ (Z.land x (GetB3 _ 5))) (spread 3 _) (bits3 _));
    (apply _ || (vm_compute; reflexivity)).
Qed.

(** The three stages a coordinate goes through: expanded, shifted into place,
    and extracted again. *)
Definition lane2 (w k k' x : Z) : Z :=
  contract2 w (Z.land (Z.shiftr (wrap w (Z.shiftl (expand2 w x) k)) k') (GetB2 w 0)).
Definition lane3 (w k k' x : Z) : Z :=
  contract3 w (Z.land (Z.shiftr
    (wrap w (Z.shiftl (expand3 w (Z.land x (GetB3 w 5))) k)) k') (GetB3 w 0)).

#[global] Instance or_linear_lane2 w k k' : OrLinear (lane2 w k k').
Proof.
  apply (or_linear_comp (contract2 w) (fun x =>
    Z.land (Z.shiftr (wrap w (Z.shiftl (expand2 w x) k)) k') (GetB2 w 0))); apply _.
Qed.

#[global] Instance or_linear_lane3 w k k' : OrLinear (lane3 w k k').
Proof.
  apply (or_linear_comp (contract3 w) (fun x => Z.land (Z.shiftr
    (wrap w (Z.shiftl (expand3 w (Z.land x (GetB3 w 5))) k)) k') (GetB3 w 0))); [apply _|].
  apply or_linear_land, or_linear_shiftr, or_linear_wrap, or_linear_shiftl.
  apply (or_linear_comp (expand3 w) (fun x => Z.land x (GetB3 w 5))); apply _.
Qed.

#[global] Instance or_linear_zero : OrLinear (fun _ => 0).
Proof. split; done. Qed.

Definition keep (k k' x : Z) : Z := if decide (k = k') then x else 0.

#[global] Instance or_linear_keep k k' : OrLinear (keep k k').
Proof. unfold keep. case_decide; apply _. Qed.

Lemma lane2_spec w k k' x :
  morton_width w -> (k = 0 \/ k = 1) -> (k' = 0 \/ k' = 1) ->
  in_word (Z.of_nat (bits2 w)) x -> lane2 w k k' x = keep k k' x.
Proof.
  intros Hw Hk Hk'. by_width Hw; destruct Hk as [->| ->], Hk' as [->| ->];
    apply (or_linear_ext_eval (lane2 _ _ _) (keep _ _) (bits2 _));
    (apply _ || (vm_compute; reflexivity)).
Qed.

Lemma lane3_spec w k k' x :
  morton_width w -> (k = 0 \/ k = 1 \/ k = 2) -> (k' = 0 \/ k' = 1 \/ k' = 2) ->
  in_word (Z.of_nat (bits3 w)) x -> lane3 w k k' x = keep k k' x.
Proof.
  intros Hw Hk Hk'. by_width Hw;
    destruct Hk as [->|[->| ->]], Hk' as [->|[->| ->]];
    apply (or_linear_ext_eval (lane3 _ _ _) (keep _ _) (bits3 _));
    (apply _ || (vm_compute; reflexivity)).
Qed.

Lemma morton_width_nonneg w : morton_width w -> 0 <= w.
Proof. intros Hw. by_width Hw; lia. Qed.

(** Expansion stays inside the index type. *)
Lemma expandBits_word w S B m x :
  0 <= w -> in_word w x -> in_word w (expandBits w S B m x).
Proof.
  intros Hw Hx. unfold expandBits. generalize (reverse (seqZ 0 (m + 1))). intros l.
  revert x Hx. induction l as [|i l IH]; intros x Hx; [done|]. apply IH.
  auto using in_word_land_any, in_word_lor, wrap_in_word.
Qed.

Lemma expand2_word w x : morton_width w -> in_word w (expand2 w x).
Proof.
  intros Hw%morton_width_nonneg. apply expandBits_word; [done|]. by apply wrap_in_word.
Qed.

Lemma expand3_word w x : morton_width w -> in_word w (expand3 w x).
Proof.
  intros Hw%morton_width_nonneg. apply expandBits_word; [done|]. by apply wrap_in_word.
Qed.

Lemma mortonize2_lanes w x y k' :
  morton_width w ->
  contract2 w (Z.land (Z.shiftr (mortonize2 w x y) k') (GetB2 w 0)) =
  Z.lor (lane2 w 0 k' x) (lane2 w 1 k' y).
Proof.
  intros Hw. unfold mortonize2, lane2. rewrite Z.shiftl_0_r.
  rewrite (wrap_id w (morton_width_nonneg w Hw) (expand2 w x)) by (by apply expand2_word).
  by rewrite Z.shiftr_lor, Z.land_lor_distr_l, or_linear_lor.
Qed.

Lemma cast_id t x : 0 <= digits t -> 0 <= x < 2 ^ digits t -> cast t x = x.
Proof.
  intros Hd Hx. unfold cast. destruct (is_signed t); [|by apply Z.mod_small].
  rewrite Z.pow_add_r by lia. rewrite Z.mod_small; lia.
Qed.

Lemma mortonize3_lanes w x y z k' :
  morton_width w ->
  contract3 w (Z.land (Z.shiftr (mortonize3 w x y z) k') (GetB3 w 0)) =
  Z.lor (Z.lor (lane3 w 0 k' x) (lane3 w 1 k' y)) (lane3 w 2 k' z).
Proof.
  intros Hw. unfold mortonize3, lane3. rewrite Z.shiftl_0_r.
  rewrite (wrap_id w (morton_width_nonneg w Hw) (expand3 w (Z.land x (GetB3 w 5))))
    by (by apply expand3_word).
  by rewrite !Z.shiftr_lor, !Z.land_lor_distr_l, !or_linear_lor.
Qed.

Lemma maxBits_word ndim w t x :
  0 < ndim -> 0 <= w -> in_word (maxBitsPerCoord ndim w t) x ->
  in_word (Z.of_nat (Z.to_nat (w / ndim))) x /\ 0 <= x < 2 ^ digits t.
Proof.
  intros Hn Hw [Hx0 Hx]. unfold maxBitsPerCoord, MB_PER_DIM in Hx.
  assert (0 <= w / ndim) by (apply Z.div_pos; lia). rewrite Z2Nat.id by done.
  unfold in_word. destruct (Z.ltb_spec (w / ndim) (digits t)).
  - pose proof (Z.pow_le_mono_r 2 (w / ndim) (digits t)). lia.
  - destruct (decide (0 <= digits t)).
    + pose proof (Z.pow_le_mono_r 2 (digits t) (w / ndim)). lia.
    + rewrite Z.pow_neg_r in Hx by lia. lia.
Qed.

(** The bit of an index at position [D * i + k] is bit [i] of coordinate [k]. *)
Lemma spread_shift_testbit D k n w x i r :
  0 <= k < D -> 0 <= r < D -> 0 <= i -> D * i + r < w ->
  Z.testbit (wrap w (Z.shiftl (spread D n x) k)) (D * i + r) =
  bool_decide (r = k /\ i < Z.of_nat n) && Z.testbit x i.
Proof.
  intros Hk Hr Hi Hw. rewrite wrap_testbit, decide_True by nia.
  destruct (decide (D * i + r < k)).
  { rewrite Z.shiftl_spec_low by done. rewrite bool_decide_false by nia. done. }
  rewrite Z.shiftl_spec, spread_testbit by nia.
  destruct (decide (r = k)) as [->|Hne].
  - replace (D * i + k - k) with (i * D) by lia. rewrite Z.mod_mul, Z.div_mul by lia.
    f_equal. apply bool_decide_ext. naive_solver.
  - rewrite (bool_decide_false (r = k /\ _)) by naive_solver.
    rewrite bool_decide_false; [done|]. intros [Hm _]. apply Hne.
    apply Z.mod_divide in Hm as [q Hq]; [|lia].
    assert (q - i = 0); [|nia]. apply Z.le_antisymm; nia.
Qed.

Lemma mortonize2_testbit w x y i r :
  morton_width w -> in_word (Z.of_nat (bits2 w)) x -> in_word (Z.of_nat (bits2 w)) y ->
  0 <= r < 2 -> 0 <= i < Z.of_nat (bits2 w) ->
  Z.testbit (mortonize2 w x y) (2 * i + r) = Z.testbit (if decide (r = 0) then x else y) i.
Proof.
  intros Hw Hx Hy Hr Hi. pose proof (morton_width_nonneg w Hw) as Hw0.
  assert (2 * i + r < w) by (unfold bits2 in Hi; Z.div_mod_to_equations; lia).
  unfold mortonize2. rewrite Z.lor_spec.
  rewrite <- (wrap_id w Hw0 (expand2 w x)) by (by apply expand2_word).
  rewrite <- (Z.shiftl_0_r (expand2 w x)). rewrite !expand2_spread by done.
  rewrite !spread_shift_testbit by lia.
  case_decide as H0; subst.
  - rewrite bool_decide_true, bool_decide_false by lia. by rewrite orb_false_r.
  - rewrite bool_decide_false, bool_decide_true by lia. done.
Qed.

Lemma mortonize3_testbit w x y z i r :
  morton_width w -> in_word (Z.of_nat (bits3 w)) x -> in_word (Z.of_nat (bits3 w)) y ->
  in_word (Z.of_nat (bits3 w)) z -> 0 <= r < 3 -> 0 <= i < Z.of_nat (bits3 w) ->
  Z.testbit (mortonize3 w x y z) (3 * i + r) =
  Z.testbit (if decide (r = 0) then x else if decide (r = 1) then y else z) i.
Proof.
  intros Hw Hx Hy Hz Hr Hi. pose proof (morton_width_nonneg w Hw) as Hw0.
  assert (3 * i + r < w) by (unfold bits3 in Hi; Z.div_mod_to_equations; lia).
  unfold mortonize3. rewrite !Z.lor_spec.
  rewrite <- (wrap_id w Hw0 (expand3 w (Z.land x _))) by (by apply expand3_word).
  rewrite <- (Z.shiftl_0_r (expand3 w (Z.land x _))). rewrite !expand3_spread by done.
  rewrite !spread_shift_testbit by lia.
  destruct (decide (r = 0)), (decide (r = 1)); subst; try lia;
    repeat first [rewrite bool_decide_true by lia|rewrite bool_decide_false by lia];
    by rewrite ?orb_false_r.
Qed.

(** Beyond the coordinates' bits an index has none. *)
Lemma mortonize2_bits w x y i r :
  morton_width w -> in_word (Z.of_nat (bits2 w)) x -> in_word (Z.of_nat (bits2 w)) y -> 0 <= r < 2 -> 0 <= i ->
  Z.testbit (mortonize2 w x y) (2 * i + r) = Z.testbit (if decide (r = 0) then x else y) i.
Proof.
  intros Hw Hx Hy Hr Hi. destruct (decide (i < Z.of_nat (bits2 w))) as [Hl|Hl]; [by apply mortonize2_testbit|].
  pose proof (morton_width_nonneg w Hw) as Hw0.
  rewrite (in_word_testbit_high (Z.of_nat (bits2 w)) ltac:(lia) (if decide _ then x else y)) by (by case_decide || lia).
  apply (in_word_testbit_high w Hw0).
  - unfold mortonize2. apply in_word_lor; [done|by apply expand2_word|by apply wrap_in_word].
  - unfold bits2 in Hl. destruct Hw as [-> |[-> |[-> | ->]]]; vm_compute (Z.of_nat _) in Hl; lia.
Qed.

Lemma mortonize3_bits w x y z i r :
  morton_width w -> in_word (Z.of_nat (bits3 w)) x -> in_word (Z.of_nat (bits3 w)) y ->
  in_word (Z.of_nat (bits3 w)) z -> 0 <= r < 3 -> 0 <= i ->
  Z.testbit (mortonize3 w x y z) (3 * i + r) =
  Z.testbit (if decide (r = 0) then x else if decide (r = 1) then y else z) i.
Proof.
  intros Hw Hx Hy Hz Hr Hi. destruct (decide (i < Z.of_nat (bits3 w))) as [Hl|Hl]; [by apply mortonize3_testbit|].
  pose proof (morton_width_nonneg w Hw) as Hw0.
  rewrite (in_word_testbit_high (Z.of_nat (bits3 w)) ltac:(lia) (if decide _ then x else _))
    by (by repeat case_decide || lia).
  destruct (decide (3 * i + r < w)) as [Hlt|Hge].
  - unfold mortonize3. rewrite !Z.lor_spec.
    rewrite <- (wrap_id w Hw0 (expand3 w (Z.land x _))) by (by apply expand3_word).
    rewrite <- (Z.shiftl_0_r (expand3 w (Z.land x _))). rewrite !expand3_spread by done.
    rewrite !spread_shift_testbit by lia. rewrite !bool_decide_false by lia. done.
  - apply (in_word_testbit_high w Hw0); [|lia].
    unfold mortonize3. repeat apply in_word_lor; try done; [by apply expand3_word|by apply wrap_in_word..].
Qed.

(** ** The most significant bit *)

Lemma maxSetBit_step e s m x res :
  0 <= e -> s = 2 ^ e -> 0 < x < 2 ^ (2 * s) -> 0 <= res -> 2 * s * (res / (2 * s)) = res ->
  (forall i, 0 <= i -> Z.testbit m i = bool_decide (s <= i < 2 * s)) ->
  let '(x', res') := if Z.land x m =? 0 then (x, res) else (Z.shiftr x s, Z.lor res s) in
  0 < x' < 2 ^ s /\ 0 <= res' /\ s * (res' / s) = res' /\ res' + Z.log2 x' = res + Z.log2 x.
Proof.
  intros He Hpow Hx Hres Hdiv Hm.
  assert (0 < s) as Hs0 by (rewrite Hpow; apply Z.pow_pos_nonneg; lia).
  assert (0 <= s) as Hs by lia.
  destruct (Z.eqb_spec (Z.land x m) 0) as [Hz|Hnz].
  - split_and!; [lia| |done| |done].
    + assert (in_word s x) as Hw; [|apply Hw].
      apply in_word_from_testbit; [lia|lia|]. intros i Hi.
      destruct (decide (i < 2 * s)); [|by apply (in_word_testbit_high (2 * s)); [lia|split; lia|lia]].
      assert (Z.testbit (Z.land x m) i = false) as Hb by (rewrite Hz; apply Z.bits_0).
      rewrite Z.land_spec, Hm, bool_decide_true, andb_true_r in Hb by lia. done.
    + symmetry. apply Z.div_exact, Z.mod_divide; [lia..|].
      exists (2 * (res / (2 * s))). lia.
  - assert (2 ^ s <= x) as Hge.
    { destruct (decide (2 ^ s <= x)); [done|]. exfalso. apply Hnz. bits_ext i Hi.
      rewrite Z.land_spec, Hm, Z.bits_0 by done. case_bool_decide; [|apply andb_false_r].
      rewrite (in_word_testbit_high s); [done|lia|split; lia|lia]. }
    assert (Z.lor res s = res + s) as ->.
    { set (q := res / (2 * s)) in *.
      assert (Z.land res s = 0) as Hd.
      { rewrite Hpow. bits_ext i Hi. rewrite Z.land_spec, Z.bits_0, testbit_pow2 by done.
        case_bool_decide; [subst i|apply andb_false_r]. rewrite andb_true_r.
        rewrite <- Hdiv. rewrite Hpow at 1.
        replace (2 * 2 ^ e * q) with (Z.shiftl q (e + 1)).
        - apply Z.shiftl_spec_low. lia.
        - rewrite Z.shiftl_mul_pow2, Z.pow_add_r by lia. lia. }
      rewrite <- Z.lxor_lor by done. by rewrite <- Z.add_nocarry_lxor. }
    assert (2 ^ (2 * s) = 2 ^ s * 2 ^ s) as Hp2 by (rewrite <- Z.pow_add_r by lia; f_equal; lia).
    pose proof (Z.shiftr_div_pow2 x s Hs) as Hsh.
    assert (1 <= x / 2 ^ s) by (apply Z.div_le_lower_bound; lia).
    assert (x / 2 ^ s < 2 ^ s) by (apply Z.div_lt_upper_bound; lia).
    split_and!; [lia|lia|lia| |].
    + symmetry. apply Z.div_exact, Z.mod_divide; [lia..|].
      exists (2 * (res / (2 * s)) + 1). lia.
    + rewrite Z.log2_shiftr by lia. apply Z.log2_le_pow2 in Hge; lia.
Qed.

(** Converting a mask to the coordinate type keeps the bits a coordinate can
    have. *)
Lemma cast_testbit t m i : 0 <= i < digits t -> Z.testbit (cast t m) i = Z.testbit m i.
Proof.
  intros Hi. assert (cast t m mod 2 ^ digits t = m mod 2 ^ digits t) as Hc.
  { assert (0 < 2 ^ digits t) by (apply Z.pow_pos_nonneg; lia).
    unfold cast. destruct (is_signed t); [|by rewrite Z.mod_mod by lia].
    rewrite Z.pow_add_r, <- Zminus_mod_idemp_l by lia. change (2 ^ 1) with 2.
    rewrite (Z.rem_mul_r _ (2 ^ digits t) 2) by lia.
    rewrite (Z.mul_comm (2 ^ digits t)), Z.mod_add, Z.mod_mod by lia.
    rewrite Zminus_mod_idemp_l. f_equal. lia. }
  rewrite <- (Z.mod_pow2_bits_low (cast t m) (digits t)) by lia.
  rewrite Hc. apply Z.mod_pow2_bits_low. lia.
Qed.

Lemma land_cast t m x : in_word (digits t) x -> 0 <= digits t -> Z.land x (cast t m) = Z.land x m.
Proof.
  intros Hx Hd. bits_ext i Hi. rewrite !Z.land_spec. destruct (decide (i < digits t)).
  - by rewrite cast_testbit by lia.
  - by rewrite (in_word_testbit_high (digits t)) by (done || lia).
Qed.

Lemma MaxBit_table (n : nat) :
  (n <= 5)%nat ->
  default 0 (table_MaxBit_S.[Z.of_nat n]) = 2 ^ Z.of_nat n /\
  forall i, 0 <= i -> Z.testbit (default 0 (table_MaxBit_B.[Z.of_nat n])) i =
                    bool_decide (2 ^ Z.of_nat n <= i < 2 * 2 ^ Z.of_nat n).
Proof.
  intros Hn. split.
  - do 6 (destruct n as [|n]; [reflexivity|]). lia.
  - intros i Hi.
    assert (default 0 (table_MaxBit_B.[Z.of_nat n]) =
            Z.shiftl (Z.ones (2 ^ Z.of_nat n)) (2 ^ Z.of_nat n)) as ->
      by (do 6 (destruct n as [|n]; [reflexivity|]); lia).
    assert (0 < 2 ^ Z.of_nat n) by (apply Z.pow_pos_nonneg; lia).
    case_bool_decide as Hc.
    + rewrite Z.shiftl_spec by lia. apply Z.ones_spec_low. lia.
    + destruct (decide (i < 2 ^ Z.of_nat n)); [by apply Z.shiftl_spec_low|].
      rewrite Z.shiftl_spec by lia. apply Z.ones_spec_high. lia.
Qed.

Lemma maxSetBit_loop t (n : nat) x res :
  (n <= 5)%nat -> 0 <= digits t -> in_word (digits t) x ->
  0 < x < 2 ^ (2 * 2 ^ Z.of_nat n) -> 0 <= res ->
  2 * 2 ^ Z.of_nat n * (res / (2 * 2 ^ Z.of_nat n)) = res ->
  snd (foldl (fun '(x, res) i =>
        if Z.land x (cast t (default 0 (table_MaxBit_B.[i]))) =? 0 then (x, res)
        else (Z.shiftr x (default 0 (table_MaxBit_S.[i])),
              Z.lor res (default 0 (table_MaxBit_S.[i]))))
      (x, res) (reverse (seqZ 0 (Z.of_nat n + 1)))) = res + Z.log2 x.
Proof.
  revert x res. induction n as [|n IH]; intros x res Hn Hd Hxw Hx Hres Hdiv.
  - change (reverse (seqZ 0 (Z.of_nat 0 + 1))) with [0]. cbn [foldl].
    destruct (MaxBit_table 0 Hn) as [HS HB]. rewrite land_cast by done.
    pose proof (maxSetBit_step 0 1 (default 0 (table_MaxBit_B.[0])) x res) as Hs.
    change (default 0 (table_MaxBit_S.[0])) with 1.
    destruct (if _ =? 0 then _ else _) as [x' res'].
    destruct Hs as (Hx' & _ & _ & Hsum); [lia|done|done|done|done|done|].
    assert (x' = 1) by lia. subst x'. cbn [snd]. rewrite Z.log2_1 in Hsum. lia.
  - assert (reverse (seqZ 0 (Z.of_nat (S n) + 1)) =
            Z.of_nat (S n) :: reverse (seqZ 0 (Z.of_nat n + 1))) as ->.
    { replace (Z.of_nat n + 1) with (Z.of_nat (S n)) by lia.
      rewrite seqZ_app by lia. by rewrite reverse_app. }
    cbn [foldl]. destruct (MaxBit_table (S n) Hn) as [HS HB].
    assert (2 ^ Z.of_nat (S n) = 2 * 2 ^ Z.of_nat n) as Hp
      by (rewrite Nat2Z.inj_succ, Z.pow_succ_r by lia; done).
    pose proof (maxSetBit_step (Z.of_nat (S n)) (2 ^ Z.of_nat (S n))
      (default 0 (table_MaxBit_B.[Z.of_nat (S n)])) x res) as Hs.
    rewrite HS, land_cast by done.
    assert (in_word (digits t) (fst (if Z.land x (default 0 (table_MaxBit_B.[Z.of_nat (S n)])) =? 0
      then (x, res) else (Z.shiftr x (2 ^ Z.of_nat (S n)), Z.lor res (2 ^ Z.of_nat (S n)))))) as Hw'.
    { case_zbool; [done|]. apply in_word_shiftr; [done|lia|done]. }
    destruct (if _ =? 0 then _ else _) as [x' res'].
    destruct Hs as (Hx' & Hres' & Hdiv' & Hsum); [lia|done|done|done|done|done|].
    rewrite <- Hsum. rewrite Hp in Hx', Hdiv'. apply IH; (done || lia).
Qed.

Lemma NumReps_width w : morton_width w ->
  exists n : nat, (n <= 5)%nat /\ NumReps w = Z.of_nat n /\ w = 2 * 2 ^ Z.of_nat n.
Proof. intros Hw. by_width Hw; [exists 2%nat|exists 3%nat|exists 4%nat|exists 5%nat]; cbn; lia. Qed.

Lemma word16_bits2 z : in_word 16 z -> in_word (Z.of_nat (bits2 64)) z.
Proof. change (Z.of_nat (bits2 64)) with 32. unfold in_word. lia. Qed.

(** Two 16-bit coordinates interleave to a 32-bit word. *)
Lemma mortonize2_16_word x y : in_word 16 x -> in_word 16 y -> in_word 32 (mortonize2 64 x y).
Proof.
  intros Hx Hy.
  assert (morton_width 64) as Hw by (unfold morton_width; tauto).
  pose proof word16_bits2 as Hup.
  assert (in_word 64 (mortonize2 64 x y)) as Hm64
    by (apply in_word_lor; [lia|by apply expand2_word|apply wrap_in_word; lia]).
  apply in_word_from_testbit; [lia|apply Hm64|]. intros j Hj.
  destruct (decide (j < 64)); [|by apply (in_word_testbit_high 64); [lia|done|lia]].
  replace j with (2 * (j / 2) + j mod 2) by (Z.div_mod_to_equations; lia).
  rewrite mortonize2_testbit; [|done|by apply Hup|by apply Hup| |].
  - case_decide; apply (in_word_testbit_high 16); (done || Z.div_mod_to_equations; lia).
  - Z.div_mod_to_equations; lia.
  - change (Z.of_nat (bits2 64)) with 32. Z.div_mod_to_equations; lia.
Qed.

Lemma PointHash4_testbit p0 p1 p2 p3 i :
  in_word 16 p0 -> in_word 16 p1 -> in_word 16 p2 -> in_word 16 p3 -> 0 <= i < 16 ->
  Z.testbit (PointHash4 p0 p1 p2 p3) (4 * i) = Z.testbit p0 i /\
  Z.testbit (PointHash4 p0 p1 p2 p3) (4 * i + 1) = Z.testbit p1 i /\
  Z.testbit (PointHash4 p0 p1 p2 p3) (4 * i + 2) = Z.testbit p2 i /\
  Z.testbit (PointHash4 p0 p1 p2 p3) (4 * i + 3) = Z.testbit p3 i.
Proof.
  intros H0 H1 H2 H3 Hi. assert (morton_width 64) as Hw by (unfold morton_width; tauto).
  pose proof word16_bits2 as Hup.
  pose proof (mortonize2_16_word p0 p2 H0 H2) as Ha.
  pose proof (mortonize2_16_word p1 p3 H1 H3) as Hb.
  change 32 with (Z.of_nat (bits2 64)) in Ha, Hb.
  assert (forall a b r, 0 <= r < 2 -> 0 <= a < 2 -> b = 2 * (2 * i + a) + r ->
    Z.testbit (PointHash4 p0 p1 p2 p3) b =
    Z.testbit (if decide (r = 0) then if decide (a = 0) then p0 else p2
               else if decide (a = 0) then p1 else p3) i) as Hall.
  { intros a b r Hr Ha' ->. unfold PointHash4.
    assert (Z.of_nat (bits2 64) = 32) as H32 by done.
    rewrite mortonize2_testbit by (done || lia).
    case_decide; (rewrite mortonize2_testbit; [|done|by apply Hup|by apply Hup|done|lia]);
      by case_decide. }
  split_and!.
  - by rewrite (Hall 0 _ 0) by lia.
  - by rewrite (Hall 0 _ 1) by lia.
  - by rewrite (Hall 1 _ 0) by lia.
  - by rewrite (Hall 1 _ 1) by lia.
Qed.

(** ** From an index back to the point *)

Lemma demortonize2_mortonize2 w t x y :
  morton_width w -> 0 <= digits t ->
  in_word (maxBitsPerCoord 2 w t) x -> in_word (maxBitsPerCoord 2 w t) y ->
  demortonize2 w t (mortonize2 w x y) = (x, y).
Proof.
  intros Hw Hd Hx Hy. pose proof (morton_width_nonneg w Hw) as Hw0.
  apply maxBits_word in Hx as [Hx Hxd]; [|lia|done].
  apply maxBits_word in Hy as [Hy Hyd]; [|lia|done]. unfold demortonize2.
  rewrite <- (Z.shiftr_0_r (mortonize2 w x y)) at 1. rewrite !mortonize2_lanes by done.
  rewrite !lane2_spec by (done || lia). unfold keep. cbn.
  by rewrite Z.lor_0_r, !cast_id.
Qed.

Lemma demortonize3_mortonize3 w t x y z :
  morton_width w -> 0 <= digits t ->
  in_word (maxBitsPerCoord 3 w t) x -> in_word (maxBitsPerCoord 3 w t) y -> in_word (maxBitsPerCoord 3 w t) z ->
  demortonize3 w t (mortonize3 w x y z) = (x, y, z).
Proof.
  intros Hw Hd Hx Hy Hz. pose proof (morton_width_nonneg w Hw) as Hw0.
  apply maxBits_word in Hx as [Hx Hxd]; [|lia|done].
  apply maxBits_word in Hy as [Hy Hyd]; [|lia|done].
  apply maxBits_word in Hz as [Hz Hzd]; [|lia|done]. unfold demortonize3.
  rewrite <- (Z.shiftr_0_r (mortonize3 w x y z)) at 1. rewrite !mortonize3_lanes by done.
  rewrite !lane3_spec by (done || lia). unfold keep. cbn.
  by rewrite !Z.lor_0_r, !cast_id.
Qed.

(** ** Properties *)

(** C30: in two and in three dimensions, converting a grid point whose
    coordinates fit the supported number of bits to a Morton index and back
    gives the point, for every width of the index type and every coordinate
    type. *)
Theorem morton_roundtrip w t :
  morton_width w -> 0 <= digits t ->
  (forall x y,
     in_word (maxBitsPerCoord 2 w t) x -> in_word (maxBitsPerCoord 2 w t) y ->
     demortonize2 w t (mortonize2 w x y) = (x, y)) /\
  (forall x y z,
     in_word (maxBitsPerCoord 3 w t) x -> in_word (maxBitsPerCoord 3 w t) y ->
     in_word (maxBitsPerCoord 3 w t) z ->
     demortonize3 w t (mortonize3 w x y z) = (x, y, z)).
Proof.
  intros Hw Hd. split; intros; [by apply demortonize2_mortonize2|by apply demortonize3_mortonize3].
Qed.

Lemma morton_roundtrip_witness :
  demortonize2 64 (mkCoordType 31 true) (mortonize2 64 6 3) = (6, 3) /\
  mortonize2 64 6 3 = 30 /\
  demortonize3 32 (mkCoordType 16 false) (mortonize3 32 5 6 7) = (5, 6, 7).
Proof.
  split_and!; [|reflexivity|].
  - apply (morton_roundtrip 64 (mkCoordType 31 true)); [|cbn; lia|by split..].
    unfold morton_width. tauto.
  - apply (morton_roundtrip 32 (mkCoordType 16 false)); [|cbn; lia|by split..].
    unfold morton_width. tauto.
Defined.

(** The bits of a Morton index are the bits of the coordinates interleaved,
    the first coordinate in the lowest position; the two-stage hash of a 4D
    point interleaves its four coordinates in order. *)
Theorem morton_interleaves w :
  morton_width w ->
  (forall x y i r, in_word (Z.of_nat (bits2 w)) x -> in_word (Z.of_nat (bits2 w)) y ->
     0 <= r < 2 -> 0 <= i < Z.of_nat (bits2 w) ->
     Z.testbit (mortonize2 w x y) (2 * i + r) = Z.testbit (if decide (r = 0) then x else y) i) /\
  (forall x y z i r, in_word (Z.of_nat (bits3 w)) x -> in_word (Z.of_nat (bits3 w)) y ->
     in_word (Z.of_nat (bits3 w)) z -> 0 <= r < 3 -> 0 <= i < Z.of_nat (bits3 w) ->
     Z.testbit (mortonize3 w x y z) (3 * i + r) =
     Z.testbit (if decide (r = 0) then x else if decide (r = 1) then y else z) i) /\
  (forall p0 p1 p2 p3 i, in_word 16 p0 -> in_word 16 p1 -> in_word 16 p2 -> in_word 16 p3 ->
     0 <= i < 16 ->
     Z.testbit (PointHash4 p0 p1 p2 p3) (4 * i) = Z.testbit p0 i /\
     Z.testbit (PointHash4 p0 p1 p2 p3) (4 * i + 1) = Z.testbit p1 i /\
     Z.testbit (PointHash4 p0 p1 p2 p3) (4 * i + 2) = Z.testbit p2 i /\
     Z.testbit (PointHash4 p0 p1 p2 p3) (4 * i + 3) = Z.testbit p3 i).
Proof.
  intros Hw. split_and!; [intros; by apply mortonize2_testbit|intros; by apply mortonize3_testbit|].
  intros p0 p1 p2 p3 i H0 H1 H2 H3 Hi. apply PointHash4_testbit; done.
Qed.

Lemma morton_interleaves_witness :
  Z.testbit (mortonize2 64 6 3) (2 * 1 + 1) = Z.testbit 3 1 /\
  Z.testbit (PointHash4 1 2 3 4) (4 * 1 + 2) = Z.testbit 3 1.
Proof.
  destruct (morton_interleaves 64) as (H2 & _ & H4); [unfold morton_width; tauto|]. split.
  - apply (H2 6 3 1 1); by split.
  - apply (H4 1 2 3 4 1); by split.
Defined.

(** [maxSetBit] is the index of the most significant set bit of a positive
    coordinate that fits both the coordinate type and the index width. *)
Theorem maxSetBit_log2 w t x :
  morton_width w -> 0 <= digits t -> 0 < x -> in_word (digits t) x -> in_word w x ->
  maxSetBit w t x = Z.log2 x.
Proof.
  intros Hw Hd Hx Hxd Hxw. destruct (NumReps_width w Hw) as (n & Hn & Hr & Hp).
  unfold maxSetBit. rewrite Hr. rewrite maxSetBit_loop; [lia|done|done|done| |lia|].
  - rewrite <- Hp. split; [done|apply Hxw].
  - by rewrite Z.div_0_l, Z.mul_0_r by (rewrite <- Hp; by_width Hw; lia).
Qed.

Lemma maxSetBit_log2_witness : maxSetBit 64 (mkCoordType 31 true) 1000 = Z.log2 1000.
Proof. apply (maxSetBit_log2 64 (mkCoordType 31 true)); [unfold morton_width; tauto|cbn; lia|lia|by split..]. Defined.

End Morton.
