(* ===== verification/OctreeBlocks.v ===== *)
(** * Blocks of an octree ([src/axom/spin/OctreeBase.hpp], [Brood.hpp])

    Grid points, block indices with their parents, children and neighbours, the data of a
    block, and broods: the addresses of the [2^DIM] children of a block.

    A grid point has the coordinates of a cell in the grid of [2^level] cells per
    dimension, as a list.  Coordinates are [axom::IndexType], 32 or 64 bits wide. *)

From S2P Require Import Prelude Doubles Morton.

Module OctreeBlocks.
Import Doubles Morton.

(** ** Grid points *)

Notation GridPt := (list Z).

(** [primal::Point], equality: [NumericArray.hpp]. *)
Definition pt_eqb (p q : GridPt) : bool := bool_decide (p = q).

(** [array / 2]: [NumericArray::operator/=(double)] multiplies by [1. / 2], which is exact,
    and converts back to an integer, towards zero. *)
Definition half (x : Z) : Z := Z.quot (to_double x) 2.

Section Blocks.
Context (DIM : nat).

(** ** [OctreeBase::BlockIndex] *)

Record BlockIndex := mkBlockIndex { pt : GridPt; level : Z }.

#[global] Instance BlockIndex_eq_dec : EqDecision BlockIndex.
Proof. solve_decision. Defined.

Definition NUM_CHILDREN : Z := Z.shiftl 1 (Z.of_nat DIM).
Definition NUM_FACE_NEIGHBORS : Z := 2 * Z.of_nat DIM.

Definition GridPt_zero : GridPt := replicate DIM 0.
Definition BlockIndex_default : BlockIndex := mkBlockIndex GridPt_zero 0.
Definition parentLevel (b : BlockIndex) : Z := level b - 1.
Definition childLevel (b : BlockIndex) : Z := level b + 1.
Definition parentPt (b : BlockIndex) : GridPt := half <$> pt b.

Definition childPt (b : BlockIndex) (childIndex : Z) : GridPt :=
  imap (fun dim x => Z.shiftl x 1 + (if Z.land childIndex (Z.shiftl 1 (Z.of_nat dim)) =? 0 then 0 else 1)) (pt b).

Definition neighborPt (b : BlockIndex) (offset : GridPt) : GridPt := zip_with Z.add (pt b) offset.

Definition parent (b : BlockIndex) : BlockIndex := mkBlockIndex (parentPt b) (parentLevel b).
Definition child (b : BlockIndex) (childIndex : Z) : BlockIndex := mkBlockIndex (childPt b childIndex) (childLevel b).

(** The offset is out of its array when the neighbour index is not below [2 * DIM]. *)
Definition faceNeighbor (b : BlockIndex) (neighborIndex : Z) : option BlockIndex :=
  offset ← zupdate GridPt_zero (Z.quot neighborIndex 2) (if Z.rem neighborIndex 2 =? 0 then -1 else 1);
  Some (mkBlockIndex (neighborPt b offset) (level b)).

Definition block_eqb (a b : BlockIndex) : bool := (level a =? level b) && pt_eqb (pt a) (pt b).

Fixpoint pt_ltb (p q : GridPt) : bool :=
  match p, q with
  | x :: p, y :: q => if x <? y then true else if y <? x then false else pt_ltb p q
  | _, _ => false
  end.

Definition block_ltb (a b : BlockIndex) : bool :=
  if level a <? level b then true else if level b <? level a then false else pt_ltb (pt a) (pt b).

(** [(CoordType(1) << level) - 1]; undefined when the shift leaves the type. *)
Definition maxCoordAtLevel (t : CoordType) (lev : Z) : option Z :=
  if decide (0 <= lev < digits t) then Some (Z.shiftl 1 lev - 1) else None.

Definition pt_inBounds (maxVal : Z) (p : GridPt) : bool := forallb (fun x => (0 <=? x) && (x <=? maxVal)) p.

Definition block_inBounds (t : CoordType) (b : BlockIndex) : option bool :=
  maxVal ← maxCoordAtLevel t (level b); Some (pt_inBounds maxVal (pt b)).

Definition block_isValid (t : CoordType) (b : BlockIndex) : option bool :=
  if level b <? 0 then Some false else block_inBounds t b.

Definition isDescendantOf (b ancestor : BlockIndex) : bool :=
  let levelDiff := level b - level ancestor in
  if (levelDiff <? 0) || (level b <? 0) || (level ancestor <? 0) then false
  else pt_eqb (pt (Nat.iter (Z.to_nat levelDiff) parent b)) (pt ancestor).

Definition invalid_index : BlockIndex := mkBlockIndex GridPt_zero (-1).

End Blocks.

(** ** Data of a block

    What [OctreeBase] requires of its [BlockDataType].  A default constructor may use a
    static counter; its value is passed on.  [None] is a counter that leaves its type. *)

Class BlockDataType (B : Type) := {
  default_block : Z -> option (B * Z);
  isLeaf : B -> bool;
  isBlock : B -> bool;
  setInternal : B -> B;
  setNonBlock : B -> B
}.

(** [BlockData]: one id, complemented for internal blocks; ids come from a static [int]. *)
Definition NON_BLOCK : Z := Z.lnot 0.
Record BlockData := mkBlockData { m_id : Z }.

#[export] Instance BlockData_ops : BlockDataType BlockData := {
  default_block idGenerator := next ← int32 (idGenerator + 1); Some (mkBlockData idGenerator, next);
  isLeaf b := 0 <=? m_id b;
  isBlock b := negb (m_id b =? NON_BLOCK);
  setInternal b := if 0 <=? m_id b then mkBlockData (Z.lnot (m_id b)) else b;
  setNonBlock _ := mkBlockData NON_BLOCK
}.

Definition getID (b : BlockData) : Z := if isLeaf b then m_id b else Z.lnot (m_id b).
Definition setData (b : BlockData) (blockID : Z) : BlockData := mkBlockData blockID.

(** [quest::InOutBlockData]: the colour of a leaf, or the index of its data. *)
Definition LEAF_BLOCK_UNCOLORED : Z := -1.
Definition LEAF_BLOCK_WHITE : Z := -2.
Definition LEAF_BLOCK_BLACK : Z := -3.
Definition INTERNAL_BLOCK : Z := -4.
Definition INOUT_NON_BLOCK : Z := -5.
Record InOutBlockData := mkInOut { m_idx : Z }.
Inductive LeafColor := Undetermined | White | Gray | Black.

#[export] Instance InOutBlockData_ops : BlockDataType InOutBlockData := {
  default_block g := Some (mkInOut LEAF_BLOCK_UNCOLORED, g);
  isLeaf b := INTERNAL_BLOCK <? m_idx b;
  isBlock b := negb (m_idx b =? INOUT_NON_BLOCK);
  setInternal _ := mkInOut INTERNAL_BLOCK;
  setNonBlock _ := mkInOut INOUT_NON_BLOCK
}.

Definition hasData (b : InOutBlockData) : bool := 0 <=? m_idx b.
Definition setGray (b : InOutBlockData) (idx : Z) : InOutBlockData := mkInOut idx.
Definition setBlack (b : InOutBlockData) : InOutBlockData := mkInOut LEAF_BLOCK_BLACK.
Definition setWhite (b : InOutBlockData) : InOutBlockData := mkInOut LEAF_BLOCK_WHITE.
Definition setUncoloredLeaf (b : InOutBlockData) : InOutBlockData := mkInOut LEAF_BLOCK_UNCOLORED.
Definition color (b : InOutBlockData) : LeafColor :=
  if hasData b then Gray
  else if m_idx b =? LEAF_BLOCK_BLACK then Black
  else if m_idx b =? LEAF_BLOCK_WHITE then White else Undetermined.
Definition isColored (b : InOutBlockData) : bool := match color b with Undetermined => false | _ => true end.

(** ** Broods *)

(** [Brood] for one key type: the key of the brood a point is in, its place there, and
    the point again; [convertPoint] is the key of the brood of the children of a point
    ([BroodRepresentationTraits]). *)
Record Brood (K : Type) := mkBrood {
  base : GridPt -> K;
  offset : GridPt -> Z;
  convertPoint : GridPt -> K;
  reconstructGridPt : K -> Z -> GridPt
}.
#[global] Arguments base {_} _.
#[global] Arguments offset {_} _.
#[global] Arguments convertPoint {_} _.
#[global] Arguments reconstructGridPt {_} _.

Definition mortonize (w : Z) (p : GridPt) : Z :=
  match p with
  | [x; y] => mortonize2 w x y
  | [x; y; z] => mortonize3 w x y z
  | _ => 0
  end.

Definition demortonize (DIM : nat) (w : Z) (t : CoordType) (m : Z) : GridPt :=
  match DIM with
  | 2%nat => let '(x, y) := demortonize2 w t m in [x; y]
  | 3%nat => let '(x, y, z) := demortonize3 w t m in [x; y; z]
  | _ => []
  end.

Definition BROOD_BITMASK (DIM : nat) : Z := Z.shiftl 1 (Z.of_nat DIM) - 1.

(** The general template, keys are Morton indices of [w] bits. *)
Definition MortonBrood (DIM : nat) (w : Z) (t : CoordType) : Brood Z := {|
  base p := Z.shiftr (mortonize w p) (Z.of_nat DIM);
  offset p := Z.land (mortonize w p) (BROOD_BITMASK DIM);
  convertPoint p := mortonize w p;
  reconstructGridPt m o := demortonize DIM w t (wrap w (Z.shiftl m (Z.of_nat DIM) + o))
|}.

(** The specialisation whose keys are grid points. *)
Definition PointBrood : Brood GridPt := {|
  base p := half <$> p;
  offset p := foldl Z.lor 0 (imap (fun i x => Z.shiftl (Z.land x 1) (Z.of_nat i)) p);
  convertPoint p := p;
  reconstructGridPt p o :=
    imap (fun i x => Z.shiftl x 1 + (if Z.land o (Z.shiftl 1 (Z.of_nat i)) =? 0 then 0 else 1)) p
|}.

End OctreeBlocks.
