(* ===== verification/OctreeLevels.v ===== *)
(** * Levels of an octree ([OctreeLevel.hpp], [DenseOctreeLevel.hpp], [SparseOctreeLevel.hpp])

    A level holds the blocks of one resolution by broods.  A dense level has an array of
    all broods, a sparse level a hash map from the key of a brood.  The references that
    the accessors return are modelled by the update that is made through them. *)

From S2P Require Import Prelude Morton OctreeBlocks.

Module OctreeLevels.
Import Morton OctreeBlocks.

Inductive TreeBlockStatus := BlockNotInTree | LeafBlock | InternalBlock.

#[global] Instance TreeBlockStatus_eq_dec : EqDecision TreeBlockStatus.
Proof. solve_decision. Defined.

Section Levels.
Context (DIM : nat) (t : CoordType) {B : Type} `{!BlockDataType B}.

Definition BROOD_SIZE : nat := Z.to_nat (Z.shiftl 1 (Z.of_nat DIM)).

Notation BroodData := (list B).

(** The counter after [n] blocks have been default constructed. *)
Fixpoint default_blocks (n : nat) (g : Z) : option Z :=
  match n with O => Some g | S n => '(_, g) ← default_block (B := B) g; default_blocks n g end.

(** [BroodData()]: [NumericArray(T val = T(), int sz = SIZE)].  The argument and every
    component are default constructed, then the argument is copied to the components. *)
Definition new_brood (g : Z) : option (BroodData * Z) :=
  '(val, g) ← default_block g;
  g ← default_blocks BROOD_SIZE g;
  Some (replicate BROOD_SIZE val, g).

(** [for(j = 1; j < BROOD_SIZE; ++j) bd[j].setNonBlock()] *)
Definition only_first (bd : BroodData) : BroodData :=
  match bd with [] => [] | b :: rest => b :: (setNonBlock <$> rest) end.

(** [OctreeLevel]: the bound of coordinates at a level. *)
Definition maxCoord (level : Z) : option Z := maxCoordAtLevel t level.

Definition status_of (b : B) : TreeBlockStatus :=
  if isBlock b then (if isLeaf b then LeafBlock else InternalBlock) else BlockNotInTree.

(** ** Dense levels, with Morton keys of 16 bits *)

Record DenseOctreeLevel := mkDense {
  d_level : Z;
  m_data : list BroodData;
  m_broodCapacity : Z;
  m_blockCount : Z
}.

(** [new BroodData[n]] *)
Fixpoint new_broods (n : nat) (g : Z) : option (list BroodData * Z) :=
  match n with
  | O => Some ([], g)
  | S n => '(bd, g) ← new_brood g; '(bds, g) ← new_broods n g; Some (bd :: bds, g)
  end.

Definition Dense_new (level g : Z) : option (DenseOctreeLevel * Z) :=
  if level <? 0 then Some (mkDense level [] 0 0, g)
  else let rowsize := if 0 <? level then Z.shiftl 1 (level - 1) else 1 in
       let capacity := Nat.iter DIM (Z.mul rowsize) 1 in
       '(data, g) ← new_broods (Z.to_nat capacity) g;
       Some (mkDense level (fmap (M := list) setNonBlock <$> data) capacity 0, g).

Definition dense_brood : Brood Z := MortonBrood DIM 16 t.

(** [m_data[brood.base()][brood.offset()]] *)
Definition Dense_at (l : DenseOctreeLevel) (p : GridPt) : option B :=
  bd ← (m_data l).[base dense_brood p]; bd.[offset dense_brood p].

Definition Dense_hasBlock (l : DenseOctreeLevel) (p : GridPt) : option bool :=
  b ← Dense_at l p; Some (isBlock b).

Definition Dense_getBroodData (l : DenseOctreeLevel) (p : GridPt) : option BroodData :=
  (m_data l).[convertPoint dense_brood p].

Definition Dense_addAllChildren (l : DenseOctreeLevel) (g : Z) (p : GridPt) : option (DenseOctreeLevel * Z) :=
  '(bd, g) ← new_brood g;
  data ← zupdate (m_data l) (convertPoint dense_brood p) bd;
  if d_level l =? 0 then
    bd0 ← data.[0];
    data ← zupdate data 0 (only_first bd0);
    Some (mkDense (d_level l) data (m_broodCapacity l) (m_blockCount l + 1), g)
  else Some (mkDense (d_level l) data (m_broodCapacity l) (m_blockCount l + Z.of_nat BROOD_SIZE), g).

(** A change [f] made through [operator[]]. *)
Definition Dense_update (l : DenseOctreeLevel) (p : GridPt) (f : B -> B) : option DenseOctreeLevel :=
  bd ← (m_data l).[base dense_brood p];
  b ← bd.[offset dense_brood p];
  bd ← zupdate bd (offset dense_brood p) (f b);
  data ← zupdate (m_data l) (base dense_brood p) bd;
  Some (mkDense (d_level l) data (m_broodCapacity l) (m_blockCount l)).

Definition Dense_empty (l : DenseOctreeLevel) : bool := m_blockCount l =? 0.
Definition Dense_numBlocks (l : DenseOctreeLevel) : Z := m_blockCount l.

Definition count_leaves (bds : list BroodData) : Z :=
  Z.of_nat (length (List.filter isLeaf (mjoin bds))).

Definition Dense_numLeafBlocks (l : DenseOctreeLevel) : Z :=
  if Dense_empty l then 0 else count_leaves (m_data l).
Definition Dense_numInternalBlocks (l : DenseOctreeLevel) : Z := Dense_numBlocks l - Dense_numLeafBlocks l.

Definition Dense_blockStatus (l : DenseOctreeLevel) (p : GridPt) : option TreeBlockStatus :=
  maxVal ← maxCoord (d_level l);
  if negb (pt_inBounds maxVal p) then Some BlockNotInTree
  else b ← Dense_at l p; Some (status_of b).

(** [IteratorHelper]: [m_currentIdx] and [m_offset]. *)
Definition Dense_data (l : DenseOctreeLevel) (it : Z * Z) : option B :=
  bd ← (m_data l).[it.1]; bd.[it.2].

Definition Dense_advance (l : DenseOctreeLevel) (it : Z * Z) : Z * Z :=
  let '(currentIdx, offset) := it in
  let offset := offset + 1 in
  if (offset =? Z.of_nat BROOD_SIZE) || (d_level l =? 0) then (currentIdx + 1, 0) else (currentIdx, offset).

(** The loop of [increment]; each round moves on, so the number of places bounds it. *)
Fixpoint Dense_increment (fuel : nat) (l : DenseOctreeLevel) (it : Z * Z) : option (Z * Z) :=
  match fuel with
  | O => None
  | S fuel =>
    let it := Dense_advance l it in
    if it.1 <? m_broodCapacity l then
      b ← Dense_data l it;
      if isBlock b then Some it else Dense_increment fuel l it
    else Some it
  end.

Definition Dense_fuel (l : DenseOctreeLevel) : nat := S (length (m_data l) * BROOD_SIZE).

Definition Dense_begin (l : DenseOctreeLevel) : option (Z * Z) :=
  b ← Dense_data l (0, 0);
  if isBlock b then Some (0, 0) else Dense_increment (Dense_fuel l) l (0, 0).
Definition Dense_end (l : DenseOctreeLevel) : Z * Z := (m_broodCapacity l, 0).
Definition Dense_pt (it : Z * Z) : GridPt := reconstructGridPt dense_brood it.1 it.2.

(** [for(it = begin(); it != end(); ++it)]: the points and data visited. *)
Fixpoint Dense_iterate_from (fuel : nat) (l : DenseOctreeLevel) (it : Z * Z) : option (list (GridPt * B)) :=
  if bool_decide (it = Dense_end l) then Some []
  else match fuel with
       | O => None
       | S fuel =>
         b ← Dense_data l it;
         it' ← Dense_increment (Dense_fuel l) l it;
         rest ← Dense_iterate_from fuel l it';
         Some ((Dense_pt it, b) :: rest)
       end.
Definition Dense_iterate (l : DenseOctreeLevel) : option (list (GridPt * B)) :=
  it ← Dense_begin l; Dense_iterate_from (Dense_fuel l) l it.

(** ** Sparse levels, over any kind of keys *)

Section Sparse.
Context {K : Type} `{Countable K} (rep : Brood K).

Record SparseOctreeLevel := mkSparse { s_level : Z; m_map : gmap K BroodData }.

Definition Sparse_new (level : Z) : SparseOctreeLevel := mkSparse level ∅.

Definition Sparse_hasBlock (l : SparseOctreeLevel) (p : GridPt) : bool :=
  match m_map l !! base rep p with Some _ => true | None => false end.

(** [m_map[key]] inserts a default brood under a new key. *)
Definition map_index (m : gmap K BroodData) (g : Z) (k : K) : option (BroodData * gmap K BroodData * Z) :=
  match m !! k with
  | Some bd => Some (bd, m, g)
  | None => '(bd, g) ← new_brood g; Some (bd, <[k := bd]> m, g)
  end.

Definition Sparse_addAllChildren (l : SparseOctreeLevel) (g : Z) (p : GridPt) : option (SparseOctreeLevel * Z) :=
  let k := convertPoint rep p in
  '(bd, m, g) ← map_index (m_map l) g k;
  Some (mkSparse (s_level l) (if s_level l =? 0 then <[k := only_first bd]> m else m), g).

Definition Sparse_update (l : SparseOctreeLevel) (g : Z) (p : GridPt) (f : B -> B) : option (SparseOctreeLevel * Z) :=
  let k := base rep p in
  '(bd, m, g) ← map_index (m_map l) g k;
  b ← bd.[offset rep p];
  bd ← zupdate bd (offset rep p) (f b);
  Some (mkSparse (s_level l) (<[k := bd]> m), g).

(** The const accessors dereference the iterator that [find] returns. *)
Definition Sparse_at (l : SparseOctreeLevel) (p : GridPt) : option B :=
  bd ← m_map l !! base rep p; bd.[offset rep p].

Definition Sparse_getBroodData (l : SparseOctreeLevel) (p : GridPt) : option BroodData :=
  m_map l !! convertPoint rep p.

Definition Sparse_empty (l : SparseOctreeLevel) : bool := bool_decide (m_map l = ∅).

Definition Sparse_numBlocks (l : SparseOctreeLevel) : Z :=
  if Sparse_empty l then 0
  else if s_level l =? 0 then 1 else Z.of_nat (Datatypes.length (map_to_list (m_map l))) * Z.of_nat BROOD_SIZE.

Definition Sparse_numLeafBlocks (l : SparseOctreeLevel) : Z :=
  if Sparse_empty l then 0 else count_leaves (map_to_list (m_map l)).*2.
Definition Sparse_numInternalBlocks (l : SparseOctreeLevel) : Z := Sparse_numBlocks l - Sparse_numLeafBlocks l.

Definition Sparse_blockStatus (l : SparseOctreeLevel) (p : GridPt) : option TreeBlockStatus :=
  match m_map l !! base rep p with
  | None => Some BlockNotInTree
  | Some bd => b ← bd.[offset rep p]; Some (if isLeaf b then LeafBlock else InternalBlock)
  end.

(** Iteration follows the iterator of the hash map, whose order is not specified, and
    the offsets within a brood. *)
Definition Sparse_iterate (l : SparseOctreeLevel) : list (GridPt * B) :=
  '(k, bd) ← map_to_list (m_map l);
  imap (fun o b => (reconstructGridPt rep k (Z.of_nat o), b)) (if s_level l =? 0 then take 1 bd else bd).

End Sparse.

(** ** A level of any kind: the virtual functions of [OctreeLevel] *)

Inductive OctreeLevel :=
  | DenseLev (l : DenseOctreeLevel)
  | SparseLev (w : Z) (l : SparseOctreeLevel (K := Z))
  | SparsePtLev (l : SparseOctreeLevel (K := GridPt)).

Notation mrep w := (MortonBrood DIM w t).

Definition lev_level (l : OctreeLevel) : Z :=
  match l with DenseLev l => d_level l | SparseLev _ l => s_level l | SparsePtLev l => s_level l end.

Definition lev_blockStatus (l : OctreeLevel) (p : GridPt) : option TreeBlockStatus :=
  match l with
  | DenseLev l => Dense_blockStatus l p
  | SparseLev w l => Sparse_blockStatus (mrep w) l p
  | SparsePtLev l => Sparse_blockStatus PointBrood l p
  end.

Definition lev_hasBlock (l : OctreeLevel) (p : GridPt) : option bool :=
  match l with
  | DenseLev l => Dense_hasBlock l p
  | SparseLev w l => Some (Sparse_hasBlock (mrep w) l p)
  | SparsePtLev l => Some (Sparse_hasBlock PointBrood l p)
  end.

Definition lev_addAllChildren (l : OctreeLevel) (g : Z) (p : GridPt) : option (OctreeLevel * Z) :=
  match l with
  | DenseLev l => '(l, g) ← Dense_addAllChildren l g p; Some (DenseLev l, g)
  | SparseLev w l => '(l, g) ← Sparse_addAllChildren (mrep w) l g p; Some (SparseLev w l, g)
  | SparsePtLev l => '(l, g) ← Sparse_addAllChildren PointBrood l g p; Some (SparsePtLev l, g)
  end.

Definition lev_at (l : OctreeLevel) (p : GridPt) : option B :=
  match l with
  | DenseLev l => Dense_at l p
  | SparseLev w l => Sparse_at (mrep w) l p
  | SparsePtLev l => Sparse_at PointBrood l p
  end.

Definition lev_update (l : OctreeLevel) (g : Z) (p : GridPt) (f : B -> B) : option (OctreeLevel * Z) :=
  match l with
  | DenseLev l => l ← Dense_update l p f; Some (DenseLev l, g)
  | SparseLev w l => '(l, g) ← Sparse_update (mrep w) l g p f; Some (SparseLev w l, g)
  | SparsePtLev l => '(l, g) ← Sparse_update PointBrood l g p f; Some (SparsePtLev l, g)
  end.

Definition lev_numBlocks (l : OctreeLevel) : Z :=
  match l with DenseLev l => Dense_numBlocks l | SparseLev _ l => Sparse_numBlocks l | SparsePtLev l => Sparse_numBlocks l end.
Definition lev_numLeafBlocks (l : OctreeLevel) : Z :=
  match l with
  | DenseLev l => Dense_numLeafBlocks l | SparseLev _ l => Sparse_numLeafBlocks l | SparsePtLev l => Sparse_numLeafBlocks l
  end.
Definition lev_numInternalBlocks (l : OctreeLevel) : Z :=
  match l with
  | DenseLev l => Dense_numInternalBlocks l
  | SparseLev _ l => Sparse_numInternalBlocks l
  | SparsePtLev l => Sparse_numInternalBlocks l
  end.
Definition lev_iterate (l : OctreeLevel) : option (list (GridPt * B)) :=
  match l with
  | DenseLev l => Dense_iterate l
  | SparseLev w l => Some (Sparse_iterate (mrep w) l)
  | SparsePtLev l => Some (Sparse_iterate PointBrood l)
  end.

Definition lev_isLeaf (l : OctreeLevel) (p : GridPt) : option bool :=
  s ← lev_blockStatus l p; Some (bool_decide (s = LeafBlock)).
Definition lev_isInternal (l : OctreeLevel) (p : GridPt) : option bool :=
  s ← lev_blockStatus l p; Some (bool_decide (s = InternalBlock)).

End Levels.
#[global] Arguments DenseOctreeLevel : clear implicits.
#[global] Arguments SparseOctreeLevel _ _ {_ _}.
#[global] Arguments OctreeLevel : clear implicits.

End OctreeLevels.
