(* ===== verification/Octree.v ===== *)
(** * Octrees ([src/axom/spin/OctreeBase.hpp], [SpatialOctree.hpp])

    An octree is an array of levels.  [None] is an access outside that array, a shift
    that leaves the coordinate type, a read through an end iterator, or the overflow of
    the counter of block ids. *)

From S2P Require Import Prelude Morton OctreeBlocks OctreeLevels.
From Stdlib Require Import QArith.

Module Octree.
Import Morton OctreeBlocks OctreeLevels.
#[local] Open Scope Z_scope.

Section Octree.
Context (DIM : nat) (t : CoordType) {B : Type} `{!BlockDataType B}.

(** The levels, and the counter of the block data's default constructor. *)
Record OctreeBase := mkOctree { m_leavesLevelMap : list (OctreeLevel B); m_idGenerator : Z }.

Definition MAX_DENSE_LEV : Z := 4.
Definition MAX_SPARSE16_LEV : Z := 16 / Z.of_nat DIM.
Definition MAX_SPARSE32_LEV : Z := 32 / Z.of_nat DIM.
Definition MAX_SPARSE64_LEV : Z := 64 / Z.of_nat DIM.

(** The size of [OctreeLevels], [numeric_limits<CoordType>::digits]. *)
Definition maxLeafLevel : Z := digits t.
Definition maxInternalLevel : Z := digits t - 1.

Definition new_level (i g : Z) : option (OctreeLevel B * Z) :=
  if i <=? MAX_DENSE_LEV then '(l, g) ← Dense_new DIM i g; Some (DenseLev l, g)
  else if i <=? MAX_SPARSE16_LEV then Some (SparseLev 16 (Sparse_new i), g)
  else if i <=? MAX_SPARSE32_LEV then Some (SparseLev 32 (Sparse_new i), g)
  else if i <=? MAX_SPARSE64_LEV then Some (SparseLev 64 (Sparse_new i), g)
  else Some (SparsePtLev (Sparse_new i), g).

(** [for(int i = 0; i < maxLeafLevel(); ++i)] *)
Definition append_level (acc : option (list (OctreeLevel B) * Z)) (i : Z) : option (list (OctreeLevel B) * Z) :=
  '(ls, g) ← acc; '(l, g) ← new_level i g; Some (ls ++ [l], g).
Definition new_levels (g : Z) : option (list (OctreeLevel B) * Z) :=
  foldl append_level (Some ([], g)) (seqZ 0 maxLeafLevel).

Definition root : BlockIndex := BlockIndex_default DIM.

Definition set_level (o : OctreeBase) (lev : Z) (l : OctreeLevel B) (g : Z) : option OctreeBase :=
  ls ← zupdate (m_leavesLevelMap o) lev l; Some (mkOctree ls g).

Definition getOctreeLevel (o : OctreeBase) (lev : Z) : option (OctreeLevel B) := (m_leavesLevelMap o).[lev].

Definition OctreeBase_new (g : Z) : option OctreeBase :=
  '(ls, g) ← new_levels g;
  let o := mkOctree ls g in
  l ← getOctreeLevel o (level root);
  '(l, g) ← lev_addAllChildren DIM t l g (pt root);
  set_level o (level root) l g.

Definition isLevelValid (lev : Z) : bool := (0 <=? lev) && (lev <=? maxLeafLevel).

Definition octree_isLeaf (o : OctreeBase) (b : BlockIndex) : option bool :=
  if isLevelValid (level b) then l ← getOctreeLevel o (level b); lev_isLeaf DIM t l (pt b) else Some false.
Definition octree_isInternal (o : OctreeBase) (b : BlockIndex) : option bool :=
  if isLevelValid (level b) then l ← getOctreeLevel o (level b); lev_isInternal DIM t l (pt b) else Some false.

(** The static casts of [hasBlock], [operator[]] and [blockStatus]: by the level, to the
    type the constructor made; the cast of another type is not defined. *)
Definition has_type (lev : Z) (l : OctreeLevel B) : bool :=
  match l with
  | DenseLev _ => lev <=? MAX_DENSE_LEV
  | SparseLev w _ =>
    if lev <=? MAX_DENSE_LEV then false
    else if lev <=? MAX_SPARSE16_LEV then w =? 16
    else if lev <=? MAX_SPARSE32_LEV then w =? 32
    else if lev <=? MAX_SPARSE64_LEV then w =? 64
    else false
  | SparsePtLev _ =>
    if lev <=? MAX_DENSE_LEV then false
    else if lev <=? MAX_SPARSE16_LEV then false
    else if lev <=? MAX_SPARSE32_LEV then false
    else if lev <=? MAX_SPARSE64_LEV then false
    else true
  end.

Definition cast_level (o : OctreeBase) (lev : Z) : option (OctreeLevel B) :=
  l ← getOctreeLevel o lev; if has_type lev l then Some l else None.

Definition hasBlock (o : OctreeBase) (b : BlockIndex) : option bool :=
  if isLevelValid (level b) then l ← cast_level o (level b); lev_hasBlock DIM t l (pt b) else Some false.

Definition octree_inBounds (b : BlockIndex) : option bool :=
  if isLevelValid (level b) then block_inBounds t b else Some false.

Definition refineLeaf (o : OctreeBase) (leafBlock : BlockIndex) : option OctreeBase :=
  l ← getOctreeLevel o (level leafBlock);
  '(l, g) ← lev_update DIM t l (m_idGenerator o) (pt leafBlock) setInternal;
  o ← set_level o (level leafBlock) l g;
  c ← getOctreeLevel o (childLevel leafBlock);
  '(c, g) ← lev_addAllChildren DIM t c (m_idGenerator o) (pt leafBlock);
  set_level o (childLevel leafBlock) c g.

(** [operator[]]: the data of a block, and a change of it. *)
Definition octree_at (o : OctreeBase) (b : BlockIndex) : option B :=
  l ← cast_level o (level b); lev_at DIM t l (pt b).
Definition octree_update (o : OctreeBase) (b : BlockIndex) (f : B -> B) : option OctreeBase :=
  l ← cast_level o (level b);
  '(l, g) ← lev_update DIM t l (m_idGenerator o) (pt b) f;
  set_level o (level b) l g.

Definition blockStatus (o : OctreeBase) (b : BlockIndex) : option TreeBlockStatus :=
  if isLevelValid (level b) then l ← cast_level o (level b); lev_blockStatus DIM t l (pt b)
  else Some BlockNotInTree.

(** [while(!hasBlock(ancBlk)) ancBlk = ancBlk.parent();] *)
Fixpoint nearest_ancestor (fuel : nat) (o : OctreeBase) (ancBlk : BlockIndex) : option BlockIndex :=
  match fuel with
  | O => None
  | S fuel =>
    h ← hasBlock o ancBlk;
    if (h : bool) then Some ancBlk else nearest_ancestor fuel o (parent ancBlk)
  end.

Definition coveringLeafBlock (o : OctreeBase) (blk : BlockIndex) (checkInBounds : bool) : option BlockIndex :=
  ok ← (if checkInBounds then octree_inBounds blk else Some true);
  if negb ok then Some (invalid_index DIM)
  else s ← blockStatus o blk;
       match s with
       | BlockNotInTree => nearest_ancestor (S (Z.to_nat (level blk))) o (parent blk)
       | LeafBlock => Some blk
       | InternalBlock => Some (invalid_index DIM)
       end.

(** ** [SpatialOctree]

    A point in space is given by the coordinates [(pt[i] - bbMin[i]) * invDelta[0][i]] in
    the unit cube; the widths of the cells of the other levels differ by powers of two, by
    which scaling is exact. *)

(** [static_cast<CoordType>]: truncation, undefined when the value is out of range. *)
Definition quantize (q : Q) : option Z :=
  let z := Z.quot (Qnum q) (Z.pos (Qden q)) in
  if decide (- 2 ^ digits t <= z < 2 ^ digits t) then Some z else None.

Definition findGridCellAtLevel (x : list Q) (lev : Z) : option GridPt :=
  highestCell ← maxCoordAtLevel t lev;
  mapM (fun q : Q => quantCell ← quantize (q * inject_Z (2 ^ lev)); Some (Z.min quantCell highestCell)) x.

(** The binary search over levels; the interval shrinks in every round. *)
Fixpoint find_loop (fuel : nat) (o : OctreeBase) (x : list Q) (minLev maxLev lev : Z) : option BlockIndex :=
  if maxLev <? minLev then Some (invalid_index DIM)
  else match fuel with
       | O => None
       | S fuel =>
         gridPt ← findGridCellAtLevel x lev;
         s ← blockStatus o (mkBlockIndex gridPt lev);
         match s with
         | BlockNotInTree => find_loop fuel o x minLev (lev - 1) (Z.shiftr (lev - 1 + minLev) 1)
         | InternalBlock => find_loop fuel o x (lev + 1) maxLev (Z.shiftr (maxLev + (lev + 1)) 1)
         | LeafBlock => Some (mkBlockIndex gridPt lev)
         end
       end.

Definition findLeafBlock (o : OctreeBase) (x : list Q) (startingLevel : Z) : option BlockIndex :=
  let maxLev := maxLeafLevel in
  find_loop (S (Z.to_nat (maxLev + 1))) o x 0 maxLev
    (if startingLevel =? -1 then Z.shiftr maxLev 1 else startingLevel).

End Octree.
#[global] Arguments OctreeBase : clear implicits.

End Octree.
