(* ===== verification/OctreeBlockProofs.v ===== *)
(** * Lemmas on blocks and broods

    Parents and children of grid points, and what a level relies on for each kind of
    brood keys ([brood_ok]): a key and an offset determine a point. *)

From S2P Require Import Prelude Doubles Morton OctreeBlocks.

Module OctreeBlockProofs.
Import Doubles Morton OctreeBlocks.

(** ** Halving through a double *)

Lemma half_div2 x : 0 <= x < 2 ^ 53 -> half x = x / 2.
Proof. intros Hx. unfold half. rewrite to_double_exact by lia. apply Z.quot_div_nonneg; lia. Qed.

(** ** Points of a grid *)

Section Grid.
Context (DIM : nat).

(** The points of the grid at a level. *)
Definition in_grid (lev : Z) (p : GridPt) : Prop := length p = DIM /\ Forall (in_word lev) p.

#[global] Instance in_grid_dec lev p : Decision (in_grid lev p).
Proof. unfold in_grid. apply _. Defined.

Definition halve (p : GridPt) : GridPt := (fun x => x / 2) <$> p.
Definition child_pt (p : GridPt) (o : Z) : GridPt := childPt (mkBlockIndex p 0) o.
Definition child_index (p : GridPt) : Z := offset PointBrood p.

Definition coarser (lev : Z) : Z := Z.max 0 (lev - 1).

Lemma in_word_half lev x : 0 <= lev -> in_word lev x -> in_word (coarser lev) (x / 2).
Proof.
  unfold coarser. intros Hl [H0 H]. destruct (decide (lev = 0)) as [->|Hne].
  - assert (x = 0) as -> by (cbn in H; lia). by split.
  - rewrite Z.max_r by lia. split; [apply Z.div_pos; lia|]. apply Z.div_lt_upper_bound; [lia|].
    rewrite <- Z.pow_succ_r by lia. by replace (Z.succ (lev - 1)) with lev by lia.
Qed.

Lemma in_word_mono lev lev' x : lev <= lev' -> in_word lev x -> in_word lev' x.
Proof.
  intros Hl [H0 H]. split; [done|]. destruct (decide (0 <= lev)).
  - eapply Z.lt_le_trans; [done|]. apply Z.pow_le_mono_r; lia.
  - rewrite Z.pow_neg_r in H by lia. lia.
Qed.

Lemma in_grid_mono lev lev' p : lev <= lev' -> in_grid lev p -> in_grid lev' p.
Proof. intros Hl [H1 H2]. split; [done|]. eapply Forall_impl; [done|]. intros x. by apply in_word_mono. Qed.

Lemma in_grid_halve lev p : 0 <= lev -> in_grid lev p -> in_grid (coarser lev) (halve p).
Proof.
  intros Hl [H1 H2]. split; [unfold halve; by rewrite length_fmap|].
  apply Forall_fmap. eapply Forall_impl; [done|]. intros x. by apply in_word_half.
Qed.

Lemma parentPt_halve lev b : lev <= 53 -> in_grid lev (pt b) -> parentPt b = halve (pt b).
Proof.
  intros Hl [_ H]. unfold parentPt, halve. apply list_fmap_ext. intros i x Hi.
  pose proof (Forall_lookup_1 _ _ _ _ H Hi) as Hx. apply half_div2. by apply (in_word_mono lev 53).
Qed.

Lemma in_grid_zero lev : 0 <= lev -> in_grid lev (GridPt_zero DIM).
Proof.
  intros Hl. unfold GridPt_zero. split; [apply length_replicate|]. apply Forall_replicate. by apply in_word_0.
Qed.

Lemma in_grid_0 p : in_grid 0 p -> p = GridPt_zero DIM.
Proof.
  intros [Hlen Hp]. unfold GridPt_zero. eapply list_eq_same_length; [reflexivity|by rewrite length_replicate|].
  intros i x y _ Hx Hy. apply lookup_replicate in Hy as [-> _].
  pose proof (Forall_lookup_1 _ _ _ _ Hp Hx) as [H0 H]. cbn in H. lia.
Qed.

Lemma land_1 x : Z.land x 1 = x mod 2.
Proof. change 1 with (Z.ones 1). by rewrite Z.land_ones by lia. Qed.

Lemma lor_bit0 a b : (a = 0 \/ a = 1) -> Z.lor a (Z.shiftl b 1) = a + 2 * b.
Proof.
  intros Ha. rewrite Z.shiftl_mul_pow2 by lia. rewrite <- Z.lxor_lor, <- Z.add_nocarry_lxor; [lia| |];
  bits_ext i Hi; rewrite Z.land_spec, Z.bits_0; destruct Ha as [-> | ->]; rewrite ?Z.bits_0; try done;
  (destruct (decide (i = 0)) as [->|]; [|rewrite (Z.bits_above_log2 1) by (cbn; lia); done]);
  change (2 ^ 1) with 2; rewrite Z.mul_comm, Z.testbit_even_0; done.
Qed.

Lemma child_index_2 x y : child_index [x; y] = x mod 2 + 2 * (y mod 2).
Proof.
  unfold child_index. cbn [offset PointBrood imap]. cbn -[Z.land Z.lor Z.shiftl]. rewrite !land_1.
  rewrite Z.shiftl_0_r. apply lor_bit0. pose proof (Z.mod_pos_bound x 2). lia.
Qed.

Lemma child_index_3 x y z : child_index [x; y; z] = x mod 2 + 2 * (y mod 2) + 4 * (z mod 2).
Proof.
  unfold child_index. cbn [offset PointBrood imap]. cbn -[Z.land Z.lor Z.shiftl]. rewrite !land_1.
  rewrite Z.shiftl_0_r. pose proof (Z.mod_pos_bound x 2). pose proof (Z.mod_pos_bound y 2).
  change (Z.lor (Z.lor (x mod 2) (Z.shiftl (y mod 2) 1)) (Z.shiftl (z mod 2) 2) =
    x mod 2 + 2 * (y mod 2) + 4 * (z mod 2)).
  rewrite <- Z.lor_assoc. replace (Z.shiftl (z mod 2) 2) with (Z.shiftl (Z.shiftl (z mod 2) 1) 1)
    by (by rewrite Z.shiftl_shiftl by lia).
  rewrite <- Z.shiftl_lor. rewrite !lor_bit0 by lia. lia.
Qed.

(** ** Children *)

(** Compare two lists of coordinates one by one. *)
Ltac coordinates := repeat match goal with |- _ :: _ = _ :: _ => apply (f_equal2 cons) end; try reflexivity.

Lemma child_bits o d : 0 <= o -> (if Z.land o (Z.shiftl 1 (Z.of_nat d)) =? 0 then 0 else 1) = (o / 2 ^ Z.of_nat d) mod 2.
Proof.
  intros Ho. rewrite Z.shiftl_1_l, <- Z.testbit_spec' by lia.
  pose proof (land_pow2_nonzero o (Z.of_nat d) ltac:(lia)) as Hb.
  destruct (Z.eqb_spec (Z.land o (2 ^ Z.of_nat d)) 0) as [H0|H0], (Z.testbit o (Z.of_nat d)); cbn; naive_solver.
Qed.

Lemma child_pt_2 x y o : 0 <= o -> child_pt [x; y] o = [2 * x + o mod 2; 2 * y + (o / 2) mod 2].
Proof.
  intros Ho. unfold child_pt, childPt. cbn [pt imap]. unfold compose. rewrite !child_bits by done.
  change (2 ^ Z.of_nat 0) with 1. change (2 ^ Z.of_nat 1) with 2.
  rewrite Z.div_1_r, !Z.shiftl_mul_pow2 by lia. coordinates; lia.
Qed.

Lemma child_pt_3 x y z o :
  0 <= o -> child_pt [x; y; z] o = [2 * x + o mod 2; 2 * y + (o / 2) mod 2; 2 * z + (o / 4) mod 2].
Proof.
  intros Ho. unfold child_pt, childPt. cbn [pt imap]. unfold compose. rewrite !child_bits by done.
  change (2 ^ Z.of_nat 0) with 1. change (2 ^ Z.of_nat 1) with 2. change (2 ^ Z.of_nat 2) with 4.
  rewrite Z.div_1_r, !Z.shiftl_mul_pow2 by lia. coordinates; lia.
Qed.

(** ** Bits of Morton keys *)

Lemma mod4_bits m : m mod 4 = Z.b2z (Z.testbit m 0) + 2 * Z.b2z (Z.testbit m 1).
Proof. rewrite !Z.testbit_spec' by lia. change (2 ^ 0) with 1. change (2 ^ 1) with 2. Z.div_mod_to_equations; lia. Qed.

Lemma mod8_bits m :
  m mod 8 = Z.b2z (Z.testbit m 0) + 2 * Z.b2z (Z.testbit m 1) + 4 * Z.b2z (Z.testbit m 2).
Proof.
  rewrite !Z.testbit_spec' by lia. change (2 ^ 0) with 1. change (2 ^ 1) with 2. change (2 ^ 2) with 4.
  Z.div_mod_to_equations; lia.
Qed.

Lemma testbit_half x i : 0 <= i -> Z.testbit (x / 2) i = Z.testbit x (i + 1).
Proof. intros Hi. rewrite Z.div2_bits by done. by rewrite Z.add_1_r. Qed.

Lemma bits_fit2 w lev x : morton_width w -> lev <= w / 2 -> in_word lev x -> in_word (Z.of_nat (bits2 w)) x.
Proof.
  intros Hw Hl. apply in_word_mono. unfold bits2. rewrite Z2Nat.id; [done|].
  apply Z.div_pos; [by apply morton_width_nonneg|lia].
Qed.

Lemma bits_fit3 w lev x : morton_width w -> lev <= w / 3 -> in_word lev x -> in_word (Z.of_nat (bits3 w)) x.
Proof.
  intros Hw Hl. apply in_word_mono. unfold bits3. rewrite Z2Nat.id; [done|].
  apply Z.div_pos; [by apply morton_width_nonneg|lia].
Qed.

Lemma in_word_div2 n x : 0 <= n -> in_word n x -> in_word n (x / 2).
Proof. intros Hn [H0 H]. split; [apply Z.div_pos; lia|]. apply Z.div_lt_upper_bound; lia. Qed.

Lemma mortonize2_step w x y :
  morton_width w -> in_word (Z.of_nat (bits2 w)) x -> in_word (Z.of_nat (bits2 w)) y ->
  mortonize2 w x y = 4 * mortonize2 w (x / 2) (y / 2) + child_index [x; y].
Proof.
  intros Hw Hx Hy. rewrite (Z.div_mod (mortonize2 w x y) 4) by lia. f_equal; [f_equal|].
  - change 4 with (2 ^ 2). rewrite <- Z.shiftr_div_pow2 by lia. bits_ext j Hj. rewrite Z.shiftr_spec by done.
    rewrite (Z.div_mod j 2) by lia. set (i := j / 2). set (r := j mod 2).
    assert (0 <= i) by (apply Z.div_pos; lia). pose proof (Z.mod_pos_bound j 2 ltac:(lia)).
    replace (2 * i + r + 2) with (2 * (i + 1) + r) by lia.
    rewrite !mortonize2_bits by (done || lia || by apply in_word_div2; [lia|]).
    by case_decide; rewrite testbit_half.
  - rewrite mod4_bits, child_index_2. change 0 with (2 * 0 + 0) at 1. change 1 with (2 * 0 + 1) at 1.
    rewrite !mortonize2_bits by (done || lia). rewrite decide_True, decide_False by lia.
    by rewrite <- !Z.bit0_mod.
Qed.

Lemma mortonize3_step w x y z :
  morton_width w -> in_word (Z.of_nat (bits3 w)) x -> in_word (Z.of_nat (bits3 w)) y -> in_word (Z.of_nat (bits3 w)) z ->
  mortonize3 w x y z = 8 * mortonize3 w (x / 2) (y / 2) (z / 2) + child_index [x; y; z].
Proof.
  intros Hw Hx Hy Hz. rewrite (Z.div_mod (mortonize3 w x y z) 8) by lia. f_equal; [f_equal|].
  - change 8 with (2 ^ 3). rewrite <- Z.shiftr_div_pow2 by lia. bits_ext j Hj. rewrite Z.shiftr_spec by done.
    rewrite (Z.div_mod j 3) by lia. set (i := j / 3). set (r := j mod 3).
    assert (0 <= i) by (apply Z.div_pos; lia). pose proof (Z.mod_pos_bound j 3 ltac:(lia)).
    replace (3 * i + r + 3) with (3 * (i + 1) + r) by lia.
    rewrite !mortonize3_bits by (done || lia || by apply in_word_div2; [lia|]).
    by repeat case_decide; rewrite testbit_half.
  - rewrite mod8_bits, child_index_3. change 0 with (3 * 0 + 0) at 1. change 1 with (3 * 0 + 1) at 1. change (Z.testbit _ 2) with (Z.testbit (mortonize3 w x y z) (3 * 0 + 2)).
    rewrite !mortonize3_bits by (done || lia). rewrite decide_True, !decide_False, decide_True by lia.
    by rewrite <- !Z.bit0_mod.
Qed.


(** ** Two and three dimensions *)

Context (HD : DIM = 2%nat \/ DIM = 3%nat).

(** A property of points in terms of their coordinates. *)
Lemma in_grid_ind (P : GridPt -> Prop) lev :
  (DIM = 2%nat -> forall x y, in_word lev x -> in_word lev y -> P [x; y]) ->
  (DIM = 3%nat -> forall x y z, in_word lev x -> in_word lev y -> in_word lev z -> P [x; y; z]) ->
  forall p, in_grid lev p -> P p.
Proof using HD.
  intros H2 H3 p [Hlen Hp]. destruct HD as [HD'|HD']; rewrite HD' in Hlen.
  - destruct p as [|x [|y [|]]]; try done. decompose_Forall_hyps. by apply H2.
  - destruct p as [|x [|y [|z [|]]]]; try done. decompose_Forall_hyps. by apply H3.
Qed.

Definition brood_size : Z := 2 ^ Z.of_nat DIM.

Lemma child_index_range lev p : in_grid lev p -> 0 <= child_index p < brood_size.
Proof using HD.
  unfold brood_size. revert p. apply in_grid_ind; intros ->.
  - intros x y _ _. rewrite child_index_2. change (2 ^ Z.of_nat 2) with 4. Z.div_mod_to_equations; lia.
  - intros x y z _ _ _. rewrite child_index_3. change (2 ^ Z.of_nat 3) with 8. Z.div_mod_to_equations; lia.
Qed.

Lemma child_of_halve lev p : in_grid lev p -> child_pt (halve p) (child_index p) = p.
Proof using HD.
  revert p. apply in_grid_ind; intros ->; unfold halve; cbn -[child_index child_pt Z.div].
  - intros x y _ _. rewrite child_index_2. rewrite child_pt_2 by (Z.div_mod_to_equations; lia).
    coordinates; Z.div_mod_to_equations; lia.
  - intros x y z _ _ _. rewrite child_index_3. rewrite child_pt_3 by (Z.div_mod_to_equations; lia).
    coordinates; Z.div_mod_to_equations; lia.
Qed.

Lemma halve_child lev p o : in_grid lev p -> 0 <= o < brood_size -> halve (child_pt p o) = p.
Proof using HD.
  unfold brood_size. intros Hp [Ho Ho']. revert p Hp. apply in_grid_ind; intros E; rewrite E in Ho'; unfold halve.
  - intros x y _ _. rewrite child_pt_2 by done. cbn -[Z.div Z.mul]. coordinates; Z.div_mod_to_equations; lia.
  - intros x y z _ _ _. rewrite child_pt_3 by done. cbn -[Z.div Z.mul]. coordinates; Z.div_mod_to_equations; lia.
Qed.

Lemma child_index_child lev p o : in_grid lev p -> 0 <= o < brood_size -> child_index (child_pt p o) = o.
Proof using HD.
  unfold brood_size. intros Hp Ho. revert p Hp. apply in_grid_ind; intros E; rewrite E in Ho.
  - change (2 ^ Z.of_nat 2) with 4 in Ho. intros x y _ _. rewrite child_pt_2, child_index_2 by lia.
    Z.div_mod_to_equations; lia.
  - change (2 ^ Z.of_nat 3) with 8 in Ho. intros x y z _ _ _. rewrite child_pt_3, child_index_3 by lia.
    Z.div_mod_to_equations; lia.
Qed.

Lemma in_word_double lev x b : 0 <= lev -> in_word lev x -> 0 <= b < 2 -> in_word (lev + 1) (2 * x + b).
Proof. intros Hl [H0 H] Hb. unfold in_word. rewrite Z.pow_add_r by lia. lia. Qed.

Lemma in_grid_child lev p o : 0 <= lev -> 0 <= o -> in_grid lev p -> in_grid (lev + 1) (child_pt p o).
Proof using HD.
  intros Hl Ho. revert p. apply in_grid_ind; intros E.
  - intros x y Hx Hy. rewrite child_pt_2 by done. split; [done|].
    repeat apply Forall_cons_2; try by apply Forall_nil_2.
    all: apply in_word_double; [done..|apply Z.mod_pos_bound; lia].
  - intros x y z Hx Hy Hz. rewrite child_pt_3 by done. split; [done|].
    repeat apply Forall_cons_2; try by apply Forall_nil_2.
    all: apply in_word_double; [done..|apply Z.mod_pos_bound; lia].
Qed.

(** The index of a point from that of its parent. *)
Lemma mortonize_step w lev p :
  morton_width w -> lev <= w / Z.of_nat DIM -> in_grid lev p ->
  mortonize w p = brood_size * mortonize w (halve p) + child_index p.
Proof using HD.
  unfold brood_size. intros Hw Hl. revert p. apply in_grid_ind; intros ->; unfold halve; cbn -[Z.mul Z.pow Z.div child_index].
  - intros x y Hx Hy. apply mortonize2_step; [done|by eapply bits_fit2..].
  - intros x y z Hx Hy Hz. apply mortonize3_step; [done|by eapply bits_fit3..].
Qed.

Lemma mortonize_zero w : morton_width w -> mortonize w (GridPt_zero DIM) = 0.
Proof using HD. intros Hw. unfold GridPt_zero. by destruct HD as [-> | ->], Hw as [-> |[-> |[-> | ->]]]. Qed.

Lemma DIM_pos : 0 < Z.of_nat DIM.
Proof using HD. lia. Qed.

Lemma brood_size_pos : 0 < brood_size.
Proof using HD. apply Z.pow_pos_nonneg; lia. Qed.

(** Induction over the levels of a grid. *)
Lemma grid_levels (P : Z -> GridPt -> Prop) :
  P 0 (GridPt_zero DIM) ->
  (forall lev p, 0 <= lev -> in_grid (lev + 1) p -> P lev (halve p) -> P (lev + 1) p) ->
  forall lev p, 0 <= lev -> in_grid lev p -> P lev p.
Proof using HD.
  intros H0 HS lev p Hl. revert p. pattern lev. apply natlike_ind; [|clear lev Hl; intros lev Hl IH|done]; intros p Hp.
  - apply in_grid_0 in Hp as ->. done.
  - change (Z.succ lev) with (lev + 1) in *. apply HS; [done..|]. apply IH.
    pose proof (in_grid_halve (lev + 1) p ltac:(lia) Hp) as Hh. unfold coarser in Hh.
    by rewrite Z.max_r, Z.add_simpl_r in Hh by lia.
Qed.

Lemma mortonize_bound w lev p :
  morton_width w -> 0 <= lev <= w / Z.of_nat DIM -> in_grid lev p -> 0 <= mortonize w p < 2 ^ (Z.of_nat DIM * lev).
Proof using HD.
  intros Hw [Hl Hl'] Hp. revert Hl'. pattern lev, p. eapply grid_levels; [| |done..]; clear lev p Hl Hp.
  - intros _. rewrite (mortonize_zero w Hw), Z.mul_0_r. done.
  - intros lev p Hl Hp IH Hl'. specialize (IH ltac:(lia)).
    rewrite (mortonize_step w (lev + 1) p) by done. pose proof (child_index_range _ p Hp). unfold brood_size in *.
    rewrite Z.mul_add_distr_l, Z.mul_1_r, Z.pow_add_r by lia. nia.
Qed.

Lemma mortonize_inj w lev p q :
  morton_width w -> 0 <= lev <= w / Z.of_nat DIM -> in_grid lev p -> in_grid lev q ->
  mortonize w p = mortonize w q -> p = q.
Proof using HD.
  intros Hw [Hl Hl'] Hp. revert Hl' q. pattern lev, p. eapply grid_levels; [| |done..]; clear lev p Hl Hp.
  - intros _ q Hq _. symmetry. by apply in_grid_0.
  - intros lev p Hl Hp IH Hl' q Hq. rewrite (mortonize_step w (lev + 1) p), (mortonize_step w (lev + 1) q) by done.
    pose proof (child_index_range _ p Hp). pose proof (child_index_range _ q Hq). pose proof brood_size_pos.
    intros E. rewrite <- (child_of_halve _ p Hp), <- (child_of_halve _ q Hq).
    apply Z.div_mod_unique in E as [E1 ->]; [|lia..]. f_equal. apply IH; [lia| |done].
    pose proof (in_grid_halve (lev + 1) q ltac:(lia) Hq) as Hh. unfold coarser in Hh.
    by rewrite Z.max_r, Z.add_simpl_r in Hh by lia.
Qed.

(** Every index below the size of a level is that of a point. *)
Lemma mortonize_surj w lev i :
  morton_width w -> 0 <= lev <= w / Z.of_nat DIM -> 0 <= i < 2 ^ (Z.of_nat DIM * lev) ->
  exists p, in_grid lev p /\ mortonize w p = i.
Proof using HD.
  intros Hw [Hl Hl']. revert i Hl'. pattern lev. apply natlike_ind; [| |done]; clear lev Hl.
  - intros i _ Hi. rewrite Z.mul_0_r in Hi. exists (GridPt_zero DIM). split; [by apply in_grid_zero|].
    rewrite mortonize_zero by done. cbn in Hi. lia.
  - intros lev Hl IH i Hl' Hi. pose proof brood_size_pos as Hb. change (Z.succ lev) with (lev + 1) in *.
    rewrite Z.mul_add_distr_l, Z.mul_1_r, Z.pow_add_r in Hi by lia. fold brood_size in Hi.
    destruct (IH (i / brood_size)) as (p & Hp & E); [lia| |].
    { split; [apply Z.div_pos; lia|]. apply Z.div_lt_upper_bound; lia. }
    pose proof (Z.mod_pos_bound i brood_size Hb) as Hm. exists (child_pt p (i mod brood_size)).
    assert (in_grid (lev + 1) (child_pt p (i mod brood_size))) as Hc by (apply in_grid_child; [done|lia|done]).
    split; [done|]. rewrite (mortonize_step w (lev + 1)) by done. erewrite halve_child, child_index_child by done. rewrite E.
    pose proof (Z.div_mod i brood_size). lia.
Qed.

Lemma demortonize_mortonize w t lev p :
  morton_width w -> 0 <= lev <= w / Z.of_nat DIM -> lev <= digits t -> in_grid lev p ->
  demortonize DIM w t (mortonize w p) = p.
Proof using HD.
  intros Hw [Hl Hl'] Hd.
  assert (forall x, in_word lev x -> in_word (maxBitsPerCoord (Z.of_nat DIM) w t) x) as Hfit.
  { intros x. apply in_word_mono. unfold maxBitsPerCoord, MB_PER_DIM. case_zbool; lia. }
  revert p. apply in_grid_ind; intros E; rewrite E in *; unfold demortonize, mortonize.
  - intros x y Hx Hy. rewrite demortonize2_mortonize2; [done|done|lia|by apply Hfit..].
  - intros x y z Hx Hy Hz. rewrite demortonize3_mortonize3; [done|done|lia|by apply Hfit..].
Qed.

(** ** What a level relies on *)

Record brood_ok {K} (rep : Brood K) (lev : Z) : Prop := {
  ok_base p : in_grid lev p -> base rep p = convertPoint rep (halve p);
  ok_offset p : in_grid lev p -> offset rep p = child_index p;
  ok_inj p q : in_grid (coarser lev) p -> in_grid (coarser lev) q -> convertPoint rep p = convertPoint rep q -> p = q;
  ok_reconstruct p o : in_grid (coarser lev) p -> 0 <= o < brood_size -> in_grid lev (child_pt p o) ->
    reconstructGridPt rep (convertPoint rep p) o = child_pt p o
}.

Lemma MortonBrood_ok w t lev :
  morton_width w -> 0 <= lev <= w / Z.of_nat DIM -> lev <= digits t -> brood_ok (MortonBrood DIM w t) lev.
Proof using HD.
  intros Hw Hl Hd. assert (0 <= coarser lev <= w / Z.of_nat DIM) by (unfold coarser; lia).
  pose proof brood_size_pos. pose proof DIM_pos.
  split; cbn [base offset convertPoint reconstructGridPt MortonBrood].
  - intros p Hp. rewrite (mortonize_step w lev) by (done || lia). pose proof (child_index_range _ p Hp).
    rewrite Z.shiftr_div_pow2 by lia. fold brood_size. rewrite Z.mul_comm, Z.div_add_l by lia.
    rewrite Z.div_small by done. lia.
  - intros p Hp. rewrite (mortonize_step w lev) by (done || lia). pose proof (child_index_range _ p Hp).
    unfold BROOD_BITMASK. rewrite Z.shiftl_1_l, Z.sub_1_r, <- Z.ones_equiv. rewrite Z.land_ones by lia. fold brood_size.
    rewrite Z.mul_comm, Z.add_comm, Z.mod_add by lia. by apply Z.mod_small.
  - intros p q Hp Hq. by eapply mortonize_inj.
  - intros p o Hp Ho Hc.
    assert (Z.shiftl (mortonize w p) (Z.of_nat DIM) + o = mortonize w (child_pt p o)) as ->.
    { rewrite (mortonize_step w lev (child_pt p o)) by (done || lia).
      erewrite halve_child, child_index_child by done. rewrite Z.shiftl_mul_pow2 by lia. fold brood_size. lia. }
    pose proof (mortonize_bound w lev _ Hw Hl Hc) as Hb. pose proof (morton_width_nonneg w Hw).
    rewrite wrap_id; [by apply (demortonize_mortonize w t lev)|done|]. split; [lia|]. eapply Z.lt_le_trans; [apply Hb|].
    apply Z.pow_le_mono_r; [lia|]. pose proof (Z.mul_div_le w (Z.of_nat DIM)). nia.
Qed.

Lemma PointBrood_ok lev : lev <= 53 -> brood_ok PointBrood lev.
Proof using HD.
  intros Hl. split; cbn.
  - intros p Hp. by apply (parentPt_halve lev (mkBlockIndex p lev)).
  - done.
  - done.
  - done.
Qed.

End Grid.
#[global] Arguments child_index : simpl never.
#[global] Arguments child_pt : simpl never.

End OctreeBlockProofs.
