(* ===== verification/OctreeLevelProofs.v ===== *)
(** * What a level of an octree promises

    [LevelLaws] states the virtual functions of [OctreeLevel] in terms of the partial map
    from grid points to block data that a level represents.  Dense levels and sparse
    levels over any good brood keys are instances, and so is a level of any kind. *)

From S2P Require Import Prelude Morton OctreeBlocks OctreeLevels OctreeBlockProofs.

Module OctreeLevelProofs.
Import Morton OctreeBlocks OctreeLevels OctreeBlockProofs.

(** ** Block data *)

(** [valid]: a block of the tree in a consistent state; [gen_ok]: a value of the static
    counter from which the default constructor makes leaves; [room g n]: from [g] on, [n]
    blocks can be constructed. *)
Class BlockDataLaws (B : Type) `{!BlockDataType B} := {
  valid : B -> Prop;
  gen_ok : Z -> Prop;
  room : Z -> Z -> Prop;
  default_ok g b g' : gen_ok g -> default_block g = Some (b, g') -> valid b /\ isLeaf b = true /\ gen_ok g';
  default_room g n : gen_ok g -> room g n -> 0 < n -> exists b g', default_block g = Some (b, g') /\ room g' (n - 1);
  valid_block b : valid b -> isBlock b = true;
  internal_valid b : valid b -> valid (setInternal b);
  internal_not_leaf b : isLeaf (setInternal b) = false;
  nonblock_block b : isBlock (setNonBlock b) = false;
  nonblock_leaf b : isLeaf (setNonBlock b) = false
}.

(** A default constructed id is positive; the complement of 0 would mark no block. *)
#[export, refine] Instance BlockData_laws : BlockDataLaws BlockData := {
  valid b := 0 < m_id b \/ m_id b < -1;
  gen_ok g := 0 < g;
  room g n := g + n < 2 ^ 31
}.
Proof.
  all: cbn; try (intros; lia).
  - intros g b g' Hg (n & [-> _]%int32_Some & [= <- <-])%bind_Some. cbn. split_and!; [lia|by apply Z.leb_le; lia|lia].
  - intros g n Hg Hn H0. rewrite int32_id by lia. do 2 eexists. split; [done|]. lia.
  - intros [i] H. cbn in *. apply negb_true_iff, Z.eqb_neq. unfold NON_BLOCK. rewrite Z.lnot_0. lia.
  - intros [i] H. cbn in *. case_zbool; cbn; rewrite ?Z.lnot_eq_pred_opp; lia.
  - intros [i]. cbn. destruct (Z.leb_spec 0 i); cbn; apply Z.leb_gt; rewrite ?Z.lnot_eq_pred_opp; lia.
  - done.
Defined.

#[export, refine] Instance InOutBlockData_laws : BlockDataLaws InOutBlockData := {
  valid b := INTERNAL_BLOCK <= m_idx b;
  gen_ok g := True;
  room g n := True
}.
Proof.
  all: cbn; try done.
  - by intros g b g' _ [= <- <-].
  - by eauto.
  - intros [i] H. unfold INTERNAL_BLOCK, INOUT_NON_BLOCK in *. cbn in *. apply negb_true_iff, Z.eqb_neq. lia.
Defined.

Section Laws.
Context (DIM : nat) (t : CoordType) {B : Type} `{HBL : BlockDataLaws B}.
Implicit Types (p q : GridPt) (b : B) (bd : list B).

Notation in_grid := (in_grid DIM).
Notation brood_size := (brood_size DIM).
Notation SIZE := (BROOD_SIZE DIM).

(** ** The interface *)

Class LevelOps (L : Type) := {
  l_hasBlock : L -> GridPt -> option bool;
  l_blockStatus : L -> GridPt -> option TreeBlockStatus;
  l_at : L -> GridPt -> option B;
  l_addAllChildren : L -> Z -> GridPt -> option (L * Z);
  l_update : L -> Z -> GridPt -> (B -> B) -> option (L * Z)
}.

Definition status (b : option B) : TreeBlockStatus :=
  match b with None => BlockNotInTree | Some b => if isLeaf b then LeafBlock else InternalBlock end.

(** [l_get]: the block at a point of the grid, [l_ok lev]: the invariant of a level. *)
Class LevelLaws (L : Type) `{!LevelOps L} := {
  l_get : L -> GridPt -> option B;
  l_ok : Z -> L -> Prop;
  l_valid lev l p b : l_ok lev l -> in_grid lev p -> l_get l p = Some b -> valid b;
  l_has lev l p : l_ok lev l -> in_grid lev p -> l_hasBlock l p = Some (bool_decide (is_Some (l_get l p)));
  l_status lev l p : l_ok lev l -> in_grid lev p -> l_blockStatus l p = Some (status (l_get l p));
  l_read lev l p b : l_ok lev l -> in_grid lev p -> l_get l p = Some b -> l_at l p = Some b;
  l_write lev l g p b f : l_ok lev l -> in_grid lev p -> l_get l p = Some b -> valid (f b) ->
    exists l', l_update l g p f = Some (l', g) /\ l_ok lev l' /\
      forall q, in_grid lev q -> l_get l' q = if decide (q = p) then Some (f b) else l_get l q;
  l_add lev l g p l' g' : l_ok lev l -> gen_ok g -> in_grid (coarser lev) p ->
    (forall q, in_grid lev q -> halve q = p -> l_get l q = None) -> l_addAllChildren l g p = Some (l', g') ->
    exists d, valid d /\ isLeaf d = true /\ l_ok lev l' /\ gen_ok g' /\
      forall q, in_grid lev q -> l_get l' q = if decide (halve q = p) then Some d else l_get l q;
  l_room lev l g p : l_ok lev l -> gen_ok g -> in_grid (coarser lev) p -> room g (1 + brood_size) -> is_Some (l_addAllChildren l g p)
}.

(** ** Broods *)

Definition nonblock b : Prop := isBlock b = false /\ isLeaf b = false.

Definition present (lev : Z) bd : Prop :=
  length bd = SIZE /\
  if lev =? 0 then match bd with [] => False | b :: rest => valid b /\ Forall nonblock rest end else Forall valid bd.
Definition absent bd : Prop := length bd = SIZE /\ Forall nonblock bd.

(** The offsets of points of a level: level 0 has one point only. *)
Definition place (lev o : Z) : Prop := 0 <= o < brood_size /\ (lev = 0 -> o = 0).

Lemma SIZE_brood : Z.of_nat SIZE = brood_size.
Proof. unfold BROOD_SIZE, OctreeBlockProofs.brood_size. rewrite Z.shiftl_1_l, Z2Nat.id; [done|]. apply Z.pow_nonneg. lia. Qed.

Context (HD : DIM = 2%nat \/ DIM = 3%nat).

Lemma SIZE_pos : exists n, SIZE = S n.
Proof using HD. unfold BROOD_SIZE. destruct HD as [-> | ->]; by eexists. Qed.

Lemma child_index_place lev p : in_grid lev p -> place lev (child_index p).
Proof using HD.
  intros Hp. split; [by eapply child_index_range|]. intros ->. apply in_grid_0 in Hp as ->.
  unfold GridPt_zero. by destruct HD as [-> | ->].
Qed.

Lemma present_at lev bd o : present lev bd -> place lev o -> exists b, bd.[o] = Some b /\ valid b.
Proof using HD.
  intros [Hlen Hp] [Ho H0]. rewrite <- SIZE_brood, <- Hlen in Ho. destruct (zlookup_lt bd o Ho) as [b Hb].
  exists b. split; [done|]. destruct (Z.eqb_spec lev 0) as [Hl|Hl].
  - rewrite H0 in Hb by done. destruct bd as [|b' rest]; [done|]. change (Some b' = Some b) in Hb. destruct Hp. by simplify_eq.
  - by eapply zlookup_Forall.
Qed.

Lemma absent_at bd o : absent bd -> 0 <= o < brood_size -> exists b, bd.[o] = Some b /\ nonblock b.
Proof using HD.
  intros [Hlen Hp] Ho. rewrite <- SIZE_brood, <- Hlen in Ho. destruct (zlookup_lt bd o Ho) as [b Hb].
  exists b. split; [done|]. by eapply zlookup_Forall.
Qed.

Lemma present_update lev bd o b :
  present lev bd -> place lev o -> valid b -> present lev (<[Z.to_nat o := b]> bd).
Proof using HD.
  intros [Hlen Hp] [Ho H0] Hb. split; [by rewrite length_insert|]. destruct (Z.eqb_spec lev 0) as [Hl|Hl].
  - rewrite H0 by done. by destruct bd as [|b' rest]; [|destruct Hp].
  - by apply Forall_insert.
Qed.

Lemma default_blocks_gen n g g' : gen_ok g -> default_blocks (B := B) n g = Some g' -> gen_ok g'.
Proof.
  revert g. induction n as [|n IH]; intros g Hg; cbn; [by intros [= <-]|]. intros ([b g1] & E & H)%bind_Some.
  destruct (default_ok g b g1 Hg E) as (_ & _ & Hg1). by eapply IH.
Qed.

Lemma default_blocks_room n g : gen_ok g -> room g (Z.of_nat n) -> is_Some (default_blocks (B := B) n g).
Proof.
  revert g. induction n as [|n IH]; intros g Hg Hr; cbn -[Z.of_nat]; [by eexists|].
  destruct (default_room g _ Hg Hr ltac:(lia)) as (b & g1 & E & Hr1). rewrite E. cbn -[Z.of_nat].
  destruct (default_ok g b g1 Hg E) as (_ & _ & Hg1). apply IH; [done|]. by replace (Z.of_nat (S n) - 1) with (Z.of_nat n) in Hr1 by lia.
Qed.

Lemma new_brood_room g : gen_ok g -> room g (1 + brood_size) -> is_Some (new_brood DIM (B := B) g).
Proof using HD.
  intros Hg Hr. rewrite <- SIZE_brood in Hr. destruct (default_room g _ Hg Hr ltac:(lia)) as (b & g1 & E & Hr1).
  destruct (default_ok g b g1 Hg E) as (_ & _ & Hg1). unfold new_brood. rewrite E. cbn [mbind option_bind].
  replace (1 + Z.of_nat SIZE - 1) with (Z.of_nat SIZE) in Hr1 by lia. destruct (default_blocks_room SIZE g1 Hg1 Hr1) as [g2 ->]. by eexists.
Qed.

Lemma new_brood_spec lev g bd g' : gen_ok g -> new_brood DIM (B := B) g = Some (bd, g') ->
  gen_ok g' /\ exists d, valid d /\ isLeaf d = true /\ present lev (if lev =? 0 then only_first bd else bd) /\
    forall o, place lev o -> (if lev =? 0 then only_first bd else bd).[o] = Some d.
Proof using HD.
  intros Hg ([b g1] & E & (g2 & Hg2 & [= <- <-])%bind_Some)%bind_Some. destruct (default_ok g b g1 Hg E) as (Hv & Hleaf & Hg1).
  destruct SIZE_pos as [n Hn]. split; [by eapply default_blocks_gen|]. exists b. split; [done|]. split; [done|]. split.
  - split; [|destruct (lev =? 0)]; [destruct (lev =? 0)| |].
    + rewrite Hn. cbn. by rewrite length_fmap, length_replicate.
    + by rewrite length_replicate.
    + rewrite Hn. cbn. split; [done|]. apply Forall_fmap, Forall_true. intros x. cbn. split; [apply nonblock_block|apply nonblock_leaf].
    + by apply Forall_replicate.
  - intros o [Ho H0]. destruct (Z.eqb_spec lev 0) as [Hl|Hl].
    + rewrite H0 by done. by rewrite Hn.
    + rewrite zlookup_to_nat by lia. apply lookup_replicate. split; [done|]. rewrite <- SIZE_brood in Ho. lia.
Qed.

(** ** Dense levels *)

Definition blocks_in bd : Z := Z.of_nat (length (List.filter isBlock bd)).
Definition total (bds : list (list B)) : Z := foldr (fun bd n => blocks_in bd + n) 0 bds.
Definition brood_blocks (lev : Z) : Z := if lev =? 0 then 1 else Z.of_nat SIZE.

Lemma filter_block_none bd : Forall nonblock bd -> List.filter isBlock bd = [].
Proof. induction 1 as [|b bd [Hb _] _ IH]; [done|]. cbn. by rewrite Hb. Qed.

Lemma filter_block_all bd : Forall valid bd -> List.filter isBlock bd = bd.
Proof. induction 1 as [|b bd Hb _ IH]; [done|]. cbn. rewrite valid_block by done. by rewrite IH. Qed.

Lemma present_blocks lev bd : present lev bd -> blocks_in bd = brood_blocks lev.
Proof.
  intros [Hlen Hp]. unfold blocks_in, brood_blocks. destruct (lev =? 0).
  - destruct bd as [|b rest]; [done|]. destruct Hp as [Hb Hr]. cbn. rewrite valid_block by done. cbn.
    by rewrite filter_block_none.
  - by rewrite filter_block_all, Hlen.
Qed.

Lemma absent_blocks bd : absent bd -> blocks_in bd = 0.
Proof. intros [_ H]. unfold blocks_in. by rewrite filter_block_none. Qed.

Lemma total_app bds bds' : total (bds ++ bds') = total bds + total bds'.
Proof. induction bds as [|bd bds IH]; [done|]. cbn -[Z.add]. fold (total (bds ++ bds')). rewrite IH. unfold total. lia. Qed.

Lemma total_insert bds (i : nat) bd bd' :
  bds !! i = Some bd -> total (<[i := bd']> bds) = total bds - blocks_in bd + blocks_in bd'.
Proof.
  intros Hi. rewrite insert_take_drop by (by eapply lookup_lt_Some).
  rewrite <- (take_drop_middle bds i bd Hi) at 3. rewrite !total_app. cbn -[Z.add]. lia.
Qed.

Record Dense_ok (lev : Z) (l : DenseOctreeLevel B) : Prop := {
  dok_level : d_level l = lev;
  dok_range : 0 <= lev <= 16 / Z.of_nat DIM;
  dok_digits : lev < digits t;
  dok_capacity : m_broodCapacity l = 2 ^ (Z.of_nat DIM * coarser lev);
  dok_length : Z.of_nat (length (m_data l)) = m_broodCapacity l;
  dok_broods : Forall (fun bd => present lev bd \/ absent bd) (m_data l);
  dok_count : m_blockCount l = total (m_data l)
}.

Definition Dense_get (l : DenseOctreeLevel B) p : option B :=
  b ← Dense_at DIM t l p; if isBlock b then Some b else None.

#[export] Instance Dense_ops : LevelOps (DenseOctreeLevel B) := {
  l_hasBlock := Dense_hasBlock DIM t;
  l_blockStatus := Dense_blockStatus DIM t;
  l_at := Dense_at DIM t;
  l_addAllChildren := Dense_addAllChildren DIM t;
  l_update l g p f := l ← Dense_update DIM t l p f; Some (l, g)
}.

Lemma morton16 : morton_width 16.
Proof. unfold morton_width. tauto. Qed.

Lemma dense_brood_ok lev l : Dense_ok lev l -> brood_ok DIM (dense_brood DIM t) lev.
Proof using HD. intros []. apply MortonBrood_ok; [done|apply morton16|done|lia]. Qed.

Lemma dense_key lev l p : Dense_ok lev l -> in_grid (coarser lev) p ->
  exists bd, (m_data l).[convertPoint (dense_brood DIM t) p] = Some bd /\ (present lev bd \/ absent bd).
Proof using HD.
  intros Hl Hp. pose proof (dok_range _ _ Hl).
  pose proof (mortonize_bound DIM HD 16 (coarser lev) p morton16 ltac:(unfold coarser; lia) Hp) as Hb.
  rewrite <- (dok_capacity _ _ Hl), <- (dok_length _ _ Hl) in Hb. destruct (zlookup_lt _ _ Hb) as [bd Hbd].
  exists bd. split; [done|]. eapply (zlookup_Forall (fun bd => present lev bd \/ absent bd)); [apply Hl|done].
Qed.

(** The place of a point of the grid in the array. *)
Lemma dense_place lev l p : Dense_ok lev l -> in_grid lev p ->
  base (dense_brood DIM t) p = convertPoint (dense_brood DIM t) (halve p) /\
  offset (dense_brood DIM t) p = child_index p /\ in_grid (coarser lev) (halve p).
Proof using HD.
  intros Hl Hp. destruct (dense_brood_ok lev l Hl) as [Hb Ho _ _]. split_and!; [by apply Hb|by apply Ho|].
  apply in_grid_halve; [apply Hl|done].
Qed.

Lemma dense_at lev l p : Dense_ok lev l -> in_grid lev p ->
  exists bd, (m_data l).[convertPoint (dense_brood DIM t) (halve p)] = Some bd /\
    Dense_at DIM t l p = bd.[child_index p] /\
    (present lev bd /\ (exists b, bd.[child_index p] = Some b /\ valid b /\ Dense_get l p = Some b) \/
     absent bd /\ (exists b, bd.[child_index p] = Some b /\ nonblock b /\ Dense_get l p = None)).
Proof using HD.
  intros Hl Hp. destruct (dense_place lev l p Hl Hp) as (Hb & Ho & Hh).
  destruct (dense_key lev l _ Hl Hh) as (bd & Hbd & Hs). exists bd. split; [done|].
  assert (Dense_at DIM t l p = bd.[child_index p]) as Hat by (unfold Dense_at; by rewrite Hb, Ho, Hbd).
  split; [done|]. unfold Dense_get. rewrite Hat. pose proof (child_index_place lev p Hp) as Hpl.
  destruct Hs as [Hs|Hs]; [left|right]; (split; [done|]).
  - destruct (present_at _ _ _ Hs Hpl) as (b & Hbo & Hv). exists b. rewrite Hbo. cbn. by rewrite valid_block.
  - destruct (absent_at _ _ Hs (proj1 Hpl)) as (b & Hbo & Hv). exists b. rewrite Hbo. cbn. by rewrite (proj1 Hv).
Qed.

(** Replacing the brood of a point. *)
Definition dense_with (l : DenseOctreeLevel B) p bd' (n : Z) : DenseOctreeLevel B :=
  mkDense (d_level l) (<[Z.to_nat (convertPoint (dense_brood DIM t) p) := bd']> (m_data l)) (m_broodCapacity l) n.

Lemma dense_replace lev l p bd bd' n :
  Dense_ok lev l -> in_grid (coarser lev) p -> (m_data l).[convertPoint (dense_brood DIM t) p] = Some bd ->
  present lev bd' -> n = m_blockCount l - blocks_in bd + brood_blocks lev ->
  Dense_ok lev (dense_with l p bd' n) /\
  forall q, in_grid lev q -> Dense_get (dense_with l p bd' n) q =
    if decide (halve q = p) then bd'.[child_index q] else Dense_get l q.
Proof using HD.
  intros Hl Hp Hbd Hp' ->. pose proof (zlookup_Some_bounds _ _ _ Hbd) as Hk.
  assert (Dense_ok lev (dense_with l p bd' (m_blockCount l - blocks_in bd + brood_blocks lev))) as Hl'.
  { destruct Hl. split; cbn; [done..|by rewrite length_insert| |].
    - apply Forall_insert; [done|by left].
    - rewrite zlookup_to_nat in Hbd by lia. erewrite total_insert by done.
      rewrite (present_blocks lev bd') by done. lia. }
  split; [done|]. intros q Hq. destruct (dense_at lev _ q Hl' Hq) as (bq & Hbq & _ & Hget).
  destruct (dense_at lev _ q Hl Hq) as (cq & Hcq & _ & Hcget).
  destruct (dense_place lev l q Hl Hq) as (_ & _ & Hh). destruct (dense_brood_ok lev l Hl) as [_ _ Hinj _].
  cbn [m_data dense_with] in Hbq. rewrite zlookup_insert in Hbq by done.
  destruct (decide (halve q = p)) as [<-|Hne].
  - rewrite decide_True in Hbq by done. injection Hbq as <-.
    destruct Hget as [(_ & b & -> & _ & ->)|([_ Ha] & b & Hb & Hn & _)]; [done|].
    destruct (present_at lev bd' _ Hp' (child_index_place lev q Hq)) as (b' & Hb' & Hv).
    apply valid_block in Hv. destruct Hn. congruence.
  - rewrite decide_False in Hbq by naive_solver. assert (bq = cq) as -> by congruence.
    destruct Hget as [(Hpr & b & Hb & Hv & ->)|(Ha & b & Hb & Hv & ->)],
      Hcget as [(Hpr' & b' & Hb' & Hv' & ->)|(Ha' & b' & Hb' & Hv' & ->)]; try done; [congruence|..];
      assert (b = b') as -> by congruence; exfalso;
      [apply valid_block in Hv; destruct Hv'|apply valid_block in Hv'; destruct Hv]; congruence.
Qed.

Lemma Dense_valid lev l p b : Dense_ok lev l -> in_grid lev p -> Dense_get l p = Some b -> valid b.
Proof using HD.
  intros Hl Hp Hb.
  destruct (dense_at lev l p Hl Hp) as (bd & _ & _ & [(_ & b' & _ & Hv & E)|(_ & b' & _ & _ & E)]); [congruence|by rewrite E in Hb].
Qed.

Lemma Dense_has lev l p :
  Dense_ok lev l -> in_grid lev p -> Dense_hasBlock DIM t l p = Some (bool_decide (is_Some (Dense_get l p))).
Proof using HD.
  intros Hl Hp. unfold Dense_hasBlock.
  destruct (dense_at lev l p Hl Hp) as (bd & _ & -> & [(_ & b & -> & Hv & ->)|(_ & b & -> & Hv & ->)]); cbn.
  - by rewrite valid_block.
  - by rewrite (proj1 Hv).
Qed.

Lemma in_grid_inBounds lev p : 0 <= lev -> in_grid lev p -> pt_inBounds (Z.shiftl 1 lev - 1) p = true.
Proof using HD.
  intros Hl [_ Hp]. unfold pt_inBounds. apply forallb_forall. intros x Hx. rewrite Forall_forall in Hp.
  apply list_elem_of_In in Hx. apply Hp in Hx as [H1 H2]. rewrite Z.shiftl_1_l. apply andb_true_intro. lia.
Qed.

Lemma Dense_status lev l p :
  Dense_ok lev l -> in_grid lev p -> Dense_blockStatus DIM t l p = Some (status (Dense_get l p)).
Proof using HD.
  intros Hl Hp. unfold Dense_blockStatus, maxCoord, maxCoordAtLevel.
  pose proof (dok_range _ _ Hl). pose proof (dok_digits _ _ Hl). rewrite (dok_level _ _ Hl), decide_True by lia.
  cbn -[Z.shiftl]. rewrite in_grid_inBounds by (done || lia). cbn.
  destruct (dense_at lev l p Hl Hp) as (bd & _ & -> & [(_ & b & -> & Hv & ->)|(_ & b & -> & Hv & ->)]); cbn; unfold status_of.
  - by rewrite valid_block.
  - by rewrite (proj1 Hv).
Qed.

Lemma Dense_read lev l p b : Dense_ok lev l -> in_grid lev p -> Dense_get l p = Some b -> Dense_at DIM t l p = Some b.
Proof using HD.
  intros Hl Hp Hb.
  destruct (dense_at lev l p Hl Hp) as (bd & _ & -> & [(_ & b' & -> & _ & E)|(_ & b' & _ & _ & E)]); congruence.
Qed.

(** The points of one brood are all in the level or none is. *)
Lemma dense_sibling lev l p q b :
  Dense_ok lev l -> in_grid lev p -> in_grid lev q -> halve q = halve p -> Dense_get l p = Some b ->
  exists bd, (m_data l).[convertPoint (dense_brood DIM t) (halve p)] = Some bd /\ present lev bd /\
    Dense_get l q = bd.[child_index q].
Proof using HD.
  intros Hl Hp Hq Eh Hb. destruct (dense_at lev l p Hl Hp) as (bd & Hbd & _ & [(Hpr & _)|(_ & b' & _ & _ & E)]); [|congruence].
  exists bd. split_and!; [done..|]. destruct (dense_at lev l q Hl Hq) as (bd' & Hbd' & _ & Hq').
  rewrite Eh in Hbd'. assert (bd' = bd) as -> by congruence.
  destruct Hq' as [(_ & c & -> & _ & ->)|([_ Ha] & c & Hc & Hn & _)]; [done|].
  destruct (present_at lev bd _ Hpr (child_index_place lev q Hq)) as (c' & Hc' & Hcv).
  apply valid_block in Hcv. destruct Hn. congruence.
Qed.

Lemma same_place lev p q :
  in_grid lev p -> in_grid lev q -> halve q = halve p -> child_index q = child_index p -> q = p.
Proof using HD.
  intros Hp Hq Eh Ec. rewrite <- (child_of_halve DIM HD lev q Hq), <- (child_of_halve DIM HD lev p Hp). congruence.
Qed.

Lemma Dense_write lev l (g : Z) p b f :
  Dense_ok lev l -> in_grid lev p -> Dense_get l p = Some b -> valid (f b) ->
  exists l', (l ← Dense_update DIM t l p f; Some (l, g)) = Some (l', g) /\ Dense_ok lev l' /\
    forall q, in_grid lev q -> Dense_get l' q = if decide (q = p) then Some (f b) else Dense_get l q.
Proof using HD.
  intros Hl Hp Hb Hf. destruct (dense_sibling lev l p p b Hl Hp Hp eq_refl Hb) as (bd & Hbd & Hpr & E).
  rewrite Hb in E. symmetry in E. destruct (dense_place lev l p Hl Hp) as (Hba & Hof & Hh).
  pose proof (zlookup_Some_bounds _ _ _ E) as Hco.
  pose proof (present_update lev bd _ (f b) Hpr (child_index_place lev p Hp) Hf) as Hpr'.
  destruct (dense_replace lev l (halve p) bd _ _ Hl Hh Hbd Hpr' eq_refl) as [Hl' Hget'].
  eexists. split; [|split; [exact Hl'|]].
  - unfold Dense_update. rewrite Hba, Hof, Hbd. cbn. rewrite E. cbn. rewrite zupdate_lt by done. cbn.
    rewrite zupdate_lt by eauto with axom. cbn. unfold dense_with. do 3 f_equal.
    rewrite (present_blocks lev bd) by done. lia.
  - intros q Hq. rewrite Hget' by done. destruct (decide (halve q = halve p)) as [Eh|Eh].
    + rewrite zlookup_insert by done. destruct (decide (q = p)) as [->|Hne]; [by rewrite decide_True|].
      rewrite decide_False by (intros Ec; apply Hne; by eapply same_place).
      destruct (dense_sibling lev l p q b Hl Hp Hq Eh Hb) as (bd' & Hbd' & _ & ->). congruence.
    + rewrite decide_False; [done|]. congruence.
Qed.

(** A point of the level under each point of the coarser one. *)
Lemma a_child lev p : 0 <= lev -> in_grid (coarser lev) p ->
  in_grid lev (child_pt p 0) /\ halve (child_pt p 0) = p /\ child_index (child_pt p 0) = 0.
Proof using HD.
  intros Hl Hp. pose proof (brood_size_pos DIM HD). unfold coarser in *. split_and!.
  - destruct (decide (lev = 0)) as [->|Hne].
    + apply in_grid_0 in Hp as ->. unfold GridPt_zero. destruct HD as [-> | ->]; split; [done| |done|]; by repeat constructor.
    + replace lev with (Z.max 0 (lev - 1) + 1) by lia. apply in_grid_child; [done|lia|lia|done].
  - eapply halve_child; [done|done|lia].
  - eapply child_index_child; [done|done|lia].
Qed.

Lemma Dense_add lev l g p l' g' :
  Dense_ok lev l -> gen_ok g -> in_grid (coarser lev) p ->
  (forall q, in_grid lev q -> halve q = p -> Dense_get l q = None) -> Dense_addAllChildren DIM t l g p = Some (l', g') ->
  exists d, valid d /\ isLeaf d = true /\ Dense_ok lev l' /\ gen_ok g' /\
    forall q, in_grid lev q -> Dense_get l' q = if decide (halve q = p) then Some d else Dense_get l q.
Proof using HD.
  intros Hl Hg Hp Hno ([nb g1] & En & Hrun)%bind_Some. destruct (new_brood_spec lev g nb g1 Hg En) as (Hg' & d & Hv & Hleaf & Hpr & Hval).
  destruct (a_child lev p (proj1 (dok_range _ _ Hl)) Hp) as (Hc & Hhc & Hcc).
  destruct (dense_at lev l _ Hl Hc) as (bd & Hbd & _ & [(_ & b & _ & _ & E)|(Ha & _)]);
    [by rewrite Hno in E|]. rewrite Hhc in Hbd.
  destruct (dense_replace lev l p bd _ _ Hl Hp Hbd Hpr eq_refl) as [Hl' Hget'].
  assert (dense_with l p (if lev =? 0 then only_first nb else nb) (m_blockCount l - blocks_in bd + brood_blocks lev) = l' /\ g1 = g') as [<- <-].
  { pose proof (zlookup_Some_bounds _ _ _ Hbd) as Hk. rewrite zupdate_lt in Hrun by done. cbn in Hrun.
    rewrite (dok_level _ _ Hl) in Hrun. unfold dense_with, brood_blocks. rewrite (absent_blocks bd) by done.
    rewrite (dok_level _ _ Hl), Z.sub_0_r.
    destruct (Z.eqb_spec lev 0) as [->|Hne]; [|by injection Hrun as <- <-].
    assert (p = GridPt_zero DIM) as -> by (by apply in_grid_0).
    cbn [convertPoint dense_brood MortonBrood] in *. rewrite (mortonize_zero DIM HD 16 morton16) in *.
    rewrite zlookup_insert, decide_True in Hrun by done. cbn in Hrun. rewrite zupdate_lt in Hrun by (by rewrite length_insert). cbn in Hrun.
    rewrite list_insert_insert_eq in Hrun. by injection Hrun as <- <-. }
  exists d. split_and!; [done|done|exact Hl'|done|].
  - intros q Hq. rewrite Hget' by done. case_decide; [|done]. apply Hval. by apply child_index_place.
Qed.

Lemma Dense_room lev l g p : Dense_ok lev l -> gen_ok g -> in_grid (coarser lev) p -> room g (1 + brood_size) ->
  is_Some (Dense_addAllChildren DIM t l g p).
Proof using HD.
  intros Hl Hg Hp Hr. destruct (new_brood_room g Hg Hr) as [[nb g1] En]. unfold Dense_addAllChildren. rewrite En. cbn [mbind option_bind].
  destruct (a_child lev p (proj1 (dok_range _ _ Hl)) Hp) as (Hc & Hhc & _). destruct (dense_at lev l _ Hl Hc) as (bd & Hbd & _). rewrite Hhc in Hbd.
  pose proof (zlookup_Some_bounds _ _ _ Hbd) as Hk. rewrite zupdate_lt by done. cbn [mbind option_bind]. destruct (d_level l =? 0); [|by eexists].
  destruct (zlookup_lt (<[Z.to_nat (convertPoint (dense_brood DIM t) p) := nb]> (m_data l)) 0) as [bd0 ->]; [rewrite length_insert; lia|].
  cbn [mbind option_bind]. rewrite zupdate_lt by (rewrite length_insert; lia). by eexists.
Qed.

#[export] Instance Dense_laws : LevelLaws (DenseOctreeLevel B) := {
  l_get := Dense_get;
  l_ok := Dense_ok;
  l_valid := Dense_valid;
  l_has := Dense_has;
  l_status := Dense_status;
  l_read := Dense_read;
  l_write := Dense_write;
  l_add := Dense_add;
  l_room := Dense_room
}.

Lemma new_broods_spec n g bds g' : gen_ok g -> new_broods DIM (B := B) n g = Some (bds, g') ->
  gen_ok g' /\ length bds = n /\ Forall (fun bd => length bd = SIZE) bds.
Proof using HD.
  revert g bds. induction n as [|n IH]; intros g bds Hg; [by intros [= <- <-]|].
  intros ([bd g1] & E & ([bds1 g2] & E2 & [= <- <-])%bind_Some)%bind_Some.
  destruct (new_brood_spec 1 g bd g1 Hg E) as (Hg1 & d & _ & _ & [Hlen _] & _). destruct (IH g1 bds1 Hg1 E2) as (H1 & H2 & H3).
  split_and!; [done|cbn; by rewrite H2|by constructor].
Qed.

Lemma iter_mul (n : nat) x : Nat.iter n (Z.mul x) 1 = x ^ Z.of_nat n.
Proof using HD.
  induction n as [|n IH]; [done|].
  rewrite Nat2Z.inj_succ, Z.pow_succ_r by lia. by rewrite <- IH.
Qed.

Lemma total_absent bds : Forall absent bds -> total bds = 0.
Proof using HD. induction 1 as [|bd bds Hb _ IH]; [done|].
  change (blocks_in bd + total bds = 0). by rewrite IH, absent_blocks. Qed.

Lemma Dense_new_ok lev g l' g' : 0 <= lev <= 16 / Z.of_nat DIM -> lev < digits t -> gen_ok g ->
  Dense_new DIM (B := B) lev g = Some (l', g') ->
  Dense_ok lev l' /\ gen_ok g' /\ forall p, in_grid lev p -> Dense_get l' p = None.
Proof using HD.
  intros Hl Hd Hg. unfold Dense_new. destruct (Z.ltb_spec lev 0); [lia|]. rewrite iter_mul.
  set (rowsize := if 0 <? lev then _ else _).
  assert (rowsize ^ Z.of_nat DIM = 2 ^ (Z.of_nat DIM * coarser lev)) as Hcap.
  { rewrite Z.mul_comm, Z.pow_mul_r by (unfold coarser; lia). f_equal. unfold rowsize, coarser.
    destruct (Z.ltb_spec 0 lev); [by rewrite Z.shiftl_1_l, Z.max_r by lia|by rewrite Z.max_l by lia]. }
  intros ([data g1] & Enew & [= <- <-])%bind_Some. destruct (new_broods_spec _ g data g1 Hg Enew) as (Hg' & Hlen & Hbds).
  assert (Forall absent (fmap (M := list) setNonBlock <$> data)) as Ha.
  { apply Forall_fmap. eapply Forall_impl; [done|]. intros bd Hb. split; [cbn; by rewrite length_fmap|].
    apply Forall_fmap, Forall_true. intros b. split; [apply nonblock_block|apply nonblock_leaf]. }
  set (l := mkDense _ _ _ _). assert (Dense_ok lev l) as Hok.
  { split; cbn; [done..| | |by rewrite total_absent].
    - rewrite length_fmap, Hlen, Z2Nat.id; [done|]. rewrite Hcap. by apply Z.pow_nonneg.
    - eapply Forall_impl; [done|]. by right. }
  split_and!; [done..|]. intros p Hp.
  destruct (dense_at lev l p Hok Hp) as (bd & Hbd & _ & [([_ Hpr] & b & Hb & Hv & _)|(_ & b & _ & _ & E)]); [|done].
  apply (zlookup_Forall absent) in Hbd; [|done].
  destruct (absent_at _ _ Hbd (proj1 (child_index_place lev p Hp))) as (b' & Hb' & Hn & _).
  apply valid_block in Hv. congruence.
Qed.

(** ** Sparse levels *)

Section Sparse.
Context {K : Type} `{Countable K} (rep : Brood K).

Record Sparse_ok (lev : Z) (l : SparseOctreeLevel B K) : Prop := {
  sok_level : s_level l = lev;
  sok_range : 0 <= lev;
  sok_brood : brood_ok DIM rep lev;
  sok_broods k bd : m_map l !! k = Some bd ->
    present lev bd /\ exists p, in_grid (coarser lev) p /\ k = convertPoint rep p
}.

#[export] Instance Sparse_ops : LevelOps (SparseOctreeLevel B K) := {
  l_hasBlock l p := Some (Sparse_hasBlock rep l p);
  l_blockStatus := Sparse_blockStatus rep;
  l_at := Sparse_at rep;
  l_addAllChildren := Sparse_addAllChildren DIM rep;
  l_update := Sparse_update DIM rep
}.

Lemma sparse_place lev l p : Sparse_ok lev l -> in_grid lev p ->
  base rep p = convertPoint rep (halve p) /\ offset rep p = child_index p /\ in_grid (coarser lev) (halve p).
Proof using HD.
  intros [_ Hr [Hb Ho _ _] _] Hp. split_and!; [by apply Hb|by apply Ho|by apply in_grid_halve].
Qed.

Lemma sparse_at lev l p : Sparse_ok lev l -> in_grid lev p ->
  match m_map l !! convertPoint rep (halve p) with
  | None => Sparse_at rep l p = None
  | Some bd => present lev bd /\
    exists b, bd.[child_index p] = Some b /\ valid b /\ Sparse_at rep l p = Some b
  end.
Proof using HD.
  intros Hl Hp. destruct (sparse_place lev l p Hl Hp) as (Hb & Ho & _). unfold Sparse_at. rewrite Hb, Ho.
  destruct (m_map l !! _) as [bd|] eqn:E; [|done]. destruct (sok_broods _ _ Hl _ _ E) as [Hpr _]. split; [done|].
  destruct (present_at _ _ _ Hpr (child_index_place lev p Hp)) as (b & Hbo & Hv). by exists b.
Qed.

Lemma Sparse_valid lev l p b : Sparse_ok lev l -> in_grid lev p -> Sparse_at rep l p = Some b -> valid b.
Proof using HD. intros Hl Hp Hb. pose proof (sparse_at lev l p Hl Hp). case_match; naive_solver. Qed.

Lemma Sparse_has lev l p : Sparse_ok lev l -> in_grid lev p ->
  Some (Sparse_hasBlock rep l p) = Some (bool_decide (is_Some (Sparse_at rep l p))).
Proof using HD.
  intros Hl Hp. pose proof (sparse_at lev l p Hl Hp) as Ha. destruct (sparse_place lev l p Hl Hp) as (Hb & _ & _).
  unfold Sparse_hasBlock. rewrite Hb. case_match; [destruct Ha as (_ & b & _ & _ & ->)|rewrite Ha]; done.
Qed.

Lemma Sparse_status lev l p :
  Sparse_ok lev l -> in_grid lev p -> Sparse_blockStatus rep l p = Some (status (Sparse_at rep l p)).
Proof using HD.
  intros Hl Hp. pose proof (sparse_at lev l p Hl Hp) as Ha. destruct (sparse_place lev l p Hl Hp) as (Hb & Ho & _).
  unfold Sparse_blockStatus. rewrite Hb, Ho. case_match; [destruct Ha as (_ & b & -> & _ & ->)|rewrite Ha]; done.
Qed.

(** Setting the brood of a point. *)
Lemma sparse_replace lev l p bd :
  Sparse_ok lev l -> in_grid (coarser lev) p -> present lev bd ->
  let l' := mkSparse (s_level l) (<[convertPoint rep p := bd]> (m_map l)) in
  Sparse_ok lev l' /\
  forall q, in_grid lev q -> Sparse_at rep l' q =
    if decide (halve q = p) then bd.[child_index q] else Sparse_at rep l q.
Proof using HD.
  intros Hl Hp Hpr l'.
  assert (Sparse_ok lev l') as Hl'.
  { split; [apply Hl..|]. intros k bd'. cbn. intros [[<- <-]|[Hne Hk]]%lookup_insert_Some; [by eauto|]. by apply Hl. }
  split; [done|]. intros q Hq. pose proof (sparse_place lev l q Hl Hq) as (Hb & Ho & Hh).
  unfold Sparse_at. rewrite Hb, Ho. cbn. destruct (decide (halve q = p)) as [<-|Hne]; [by rewrite lookup_insert_eq|].
  rewrite lookup_insert_ne; [done|]. intros E. apply Hne. symmetry. by apply (ok_inj _ _ _ (sok_brood _ _ Hl)).
Qed.

Lemma Sparse_write lev l g p b f :
  Sparse_ok lev l -> in_grid lev p -> Sparse_at rep l p = Some b -> valid (f b) ->
  exists l', Sparse_update DIM rep l g p f = Some (l', g) /\ Sparse_ok lev l' /\
    forall q, in_grid lev q -> Sparse_at rep l' q = if decide (q = p) then Some (f b) else Sparse_at rep l q.
Proof using HD.
  intros Hl Hp Hb Hf. pose proof (sparse_at lev l p Hl Hp) as Ha. destruct (sparse_place lev l p Hl Hp) as (Hba & Ho & Hh).
  destruct (m_map l !! _) as [bd|] eqn:E; [|congruence]. destruct Ha as (Hpr & b' & Hb' & Hv & E').
  assert (b' = b) as -> by congruence. pose proof (zlookup_Some_bounds _ _ _ Hb') as Hco.
  pose proof (present_update lev bd _ (f b) Hpr (child_index_place lev p Hp) Hf) as Hpr'.
  destruct (sparse_replace lev l _ _ Hl Hh Hpr') as [Hl' Hget]. eexists. split; [|split; [exact Hl'|]].
  - unfold Sparse_update, map_index. rewrite Hba, Ho, E. cbn. rewrite Hb'. cbn. by rewrite zupdate_lt.
  - intros q Hq. rewrite Hget by done. destruct (decide (halve q = halve p)) as [Eh|Eh].
    + rewrite zlookup_insert by done. destruct (decide (q = p)) as [->|Hne]; [by rewrite decide_True|].
      rewrite decide_False by (intros Ec; apply Hne; by eapply same_place).
      destruct (sparse_place lev l q Hl Hq) as (Hba' & Ho' & _). unfold Sparse_at. by rewrite Hba', Ho', Eh, E.
    + rewrite decide_False; [done|]. congruence.
Qed.

Lemma Sparse_add lev l g p l' g' :
  Sparse_ok lev l -> gen_ok g -> in_grid (coarser lev) p ->
  (forall q, in_grid lev q -> halve q = p -> Sparse_at rep l q = None) -> Sparse_addAllChildren DIM rep l g p = Some (l', g') ->
  exists d, valid d /\ isLeaf d = true /\ Sparse_ok lev l' /\ gen_ok g' /\
    forall q, in_grid lev q -> Sparse_at rep l' q = if decide (halve q = p) then Some d else Sparse_at rep l q.
Proof using HD.
  intros Hl Hg Hp Hno. destruct (a_child lev p (sok_range _ _ Hl) Hp) as (Hc & Hhc & _). pose proof (sparse_at lev l _ Hl Hc) as Ha.
  rewrite Hhc in Ha. unfold Sparse_addAllChildren, map_index. destruct (m_map l !! _) as [bd|] eqn:E.
  { destruct Ha as (_ & b & _ & _ & Eb). by rewrite Hno in Eb. }
  intros ([[x m] g2] & ([nb g1] & En & [= <- <- <-])%bind_Some & [= <- <-])%bind_Some.
  destruct (new_brood_spec lev g nb g1 Hg En) as (Hg' & d & Hv & Hleaf & Hpr & Hval).
  destruct (sparse_replace lev l _ _ Hl Hp Hpr) as [Hl' Hget].
  rewrite (sok_level _ _ Hl) in *. exists d. split; [done|]. split; [done|]. rewrite insert_insert_eq.
  assert (forall m : gmap K (list B), (if lev =? 0 then <[convertPoint rep p := only_first nb]> m else <[convertPoint rep p := nb]> m)
    = <[convertPoint rep p := if lev =? 0 then only_first nb else nb]> m) as -> by (intros; by destruct (lev =? 0)).
  split_and!; [done..|]. intros q Hq. rewrite Hget by done. case_decide; [|done]. apply Hval. by apply child_index_place.
Qed.

Lemma Sparse_room lev l g p : Sparse_ok lev l -> gen_ok g -> in_grid (coarser lev) p -> room g (1 + brood_size) ->
  is_Some (Sparse_addAllChildren DIM rep l g p).
Proof using HD.
  intros Hl Hg Hp Hr. destruct (new_brood_room g Hg Hr) as [[nb g1] En]. unfold Sparse_addAllChildren, map_index.
  destruct (m_map l !! _) as [bd|]; [by eexists|]. rewrite En. by eexists.
Qed.

#[export] Instance Sparse_laws : LevelLaws (SparseOctreeLevel B K) := {
  l_get := Sparse_at rep;
  l_ok := Sparse_ok;
  l_valid := Sparse_valid;
  l_has := Sparse_has;
  l_status := Sparse_status;
  l_read _ _ _ _ _ _ Hb := Hb;
  l_write := Sparse_write;
  l_add := Sparse_add;
  l_room := Sparse_room
}.

Lemma Sparse_new_ok lev : 0 <= lev -> brood_ok DIM rep lev -> Sparse_ok lev (Sparse_new lev).
Proof using HD. intros Hl Hb. split; [done..|]. intros k bd. cbn. by rewrite lookup_empty. Qed.

Lemma Sparse_new_empty lev p : Sparse_at rep (Sparse_new (B := B) lev) p = None.
Proof using HD. unfold Sparse_at. cbn. by rewrite lookup_empty. Qed.

End Sparse.

(** ** A level of any kind *)

#[export] Instance Level_ops : LevelOps (OctreeLevel B) := {
  l_hasBlock := lev_hasBlock DIM t;
  l_blockStatus := lev_blockStatus DIM t;
  l_at := lev_at DIM t;
  l_addAllChildren := lev_addAllChildren DIM t;
  l_update := lev_update DIM t
}.

Definition lev_get (l : OctreeLevel B) p : option B :=
  match l with
  | DenseLev l => Dense_get l p
  | SparseLev w l => Sparse_at (MortonBrood DIM w t) l p
  | SparsePtLev l => Sparse_at PointBrood l p
  end.

Definition lev_ok (lev : Z) (l : OctreeLevel B) : Prop :=
  match l with
  | DenseLev l => Dense_ok lev l
  | SparseLev w l => Sparse_ok (MortonBrood DIM w t) lev l
  | SparsePtLev l => Sparse_ok PointBrood lev l
  end.

Lemma Level_write lev l g p b f :
  lev_ok lev l -> in_grid lev p -> lev_get l p = Some b -> valid (f b) ->
  exists l', lev_update DIM t l g p f = Some (l', g) /\ lev_ok lev l' /\
    forall q, in_grid lev q -> lev_get l' q = if decide (q = p) then Some (f b) else lev_get l q.
Proof using HD.
  destruct l as [l|w l|l]; cbn -[Dense_update]; intros Hl Hp Hb Hf.
  - destruct (Dense_write lev l g p b f Hl Hp Hb Hf) as (l' & E & Hl' & Hget). exists (DenseLev l').
    split_and!; [|done..]. destruct (Dense_update DIM t l p f); cbn in *; congruence.
  - destruct (Sparse_write _ lev l g p b f Hl Hp Hb Hf) as (l' & E & Hl' & Hget). exists (SparseLev w l').
    by rewrite E.
  - destruct (Sparse_write _ lev l g p b f Hl Hp Hb Hf) as (l' & E & Hl' & Hget). exists (SparsePtLev l').
    by rewrite E.
Qed.

Lemma Level_add lev l g p l' g' :
  lev_ok lev l -> gen_ok g -> in_grid (coarser lev) p ->
  (forall q, in_grid lev q -> halve q = p -> lev_get l q = None) -> lev_addAllChildren DIM t l g p = Some (l', g') ->
  exists d, valid d /\ isLeaf d = true /\ lev_ok lev l' /\ gen_ok g' /\
    forall q, in_grid lev q -> lev_get l' q = if decide (halve q = p) then Some d else lev_get l q.
Proof using HD.
  destruct l as [l|w l|l]; intros Hl Hg Hp Hno ([l1 g1] & E & [= <- <-])%bind_Some.
  - by apply (Dense_add lev l g p l1 g1).
  - by apply (Sparse_add _ lev l g p l1 g1).
  - by apply (Sparse_add _ lev l g p l1 g1).
Qed.

Lemma Level_room lev l g p : lev_ok lev l -> gen_ok g -> in_grid (coarser lev) p -> room g (1 + brood_size) ->
  is_Some (lev_addAllChildren DIM t l g p).
Proof using HD.
  intros Hl Hg Hp Hr. destruct l as [l|w l|l]; unfold lev_addAllChildren.
  - destruct (Dense_room lev l g p Hl Hg Hp Hr) as [[l1 g1] ->]. by eexists.
  - destruct (Sparse_room _ lev l g p Hl Hg Hp Hr) as [[l1 g1] ->]. by eexists.
  - destruct (Sparse_room _ lev l g p Hl Hg Hp Hr) as [[l1 g1] ->]. by eexists.
Qed.

#[export, refine] Instance Level_laws : LevelLaws (OctreeLevel B) := {
  l_get := lev_get;
  l_ok := lev_ok;
  l_write := Level_write;
  l_add := Level_add;
  l_room := Level_room
}.
Proof using HD.
  - intros lev [l|w l|l]; [apply Dense_valid|apply Sparse_valid|apply Sparse_valid].
  - intros lev [l|w l|l]; [apply Dense_has|apply Sparse_has|apply Sparse_has].
  - intros lev [l|w l|l]; [apply Dense_status|apply Sparse_status|apply Sparse_status].
  - intros lev [l|w l|l]; [apply Dense_read|done|done].
Defined.

End Laws.
End OctreeLevelProofs.
