(* ===== verification/OctreeProofs.v ===== *)
(** * The invariant of octrees

    An octree stores a partial map from blocks to data; every block of it other than the
    root is a child of an internal block, and internal blocks have all their children. *)

From S2P Require Import Prelude Morton OctreeBlocks OctreeLevels Octree OctreeBlockProofs OctreeLevelProofs.

Module OctreeProofs.
Import Morton OctreeBlocks OctreeLevels Octree OctreeBlockProofs OctreeLevelProofs.

Section Tree.
Context (DIM : nat) (HD : DIM = 2%nat \/ DIM = 3%nat).
Context (t : CoordType) {B : Type} `{HBL : BlockDataLaws B}.
Implicit Types (o : OctreeBase B) (b : BlockIndex) (d : B).

Notation in_grid := (in_grid DIM).
Notation brood_size := (brood_size DIM).
Notation lev_ok := (lev_ok DIM t).
Notation lev_get := (lev_get DIM t).

(** The deepest level with exact coordinates: the levels the array has, and those whose
    coordinates a double represents. *)
Definition deepest : Z := Z.min (digits t - 1) 53.

(** The blocks of the grids down to that level. *)
Definition cell b : Prop := 0 <= level b <= deepest /\ in_grid (level b) (pt b).

#[global] Instance cell_dec b : Decision (cell b).
Proof. unfold cell. apply _. Defined.

(** The block of the octree at an index. *)
Definition block o b : option B := l ← getOctreeLevel o (level b); lev_get l (pt b).

Definition internal o b : Prop := exists d, block o b = Some d /\ isLeaf d = false.

(** The levels are as the constructor chose them, each with its own invariant, and
    those beyond [deepest] are empty. *)
Record store_ok o : Prop := {
  so_length : Z.of_nat (length (m_leavesLevelMap o)) = digits t;
  so_levels lev l : 0 <= lev <= deepest -> getOctreeLevel o lev = Some l -> lev_ok lev l /\ has_type DIM lev l = true;
  so_beyond lev l : deepest < lev -> getOctreeLevel o lev = Some l ->
    has_type DIM lev l = true /\ forall p, lev_blockStatus DIM t l p = Some BlockNotInTree;
  so_gen : gen_ok (m_idGenerator o)
}.

Record tree_ok o : Prop := {
  tk_store : store_ok o;
  tk_root : is_Some (block o (root DIM));
  tk_children b : cell b -> 0 < level b -> is_Some (block o b) <-> internal o (parent b);
  tk_internal b : cell b -> internal o b -> level b < deepest
}.

(** ** Blocks *)

Lemma parent_cell b : cell b -> 0 < level b -> cell (parent b) /\ pt (parent b) = halve (pt b).
Proof.
  intros [Hl Hp] H0. pose proof (parentPt_halve DIM (level b) b ltac:(unfold deepest in Hl; lia) Hp) as Hh.
  unfold cell, parent, parentLevel. cbn [pt level]. split; [split; [lia|]|done]. rewrite Hh.
  pose proof (in_grid_halve DIM (level b) _ ltac:(lia) Hp) as Hg. unfold coarser in Hg. by rewrite Z.max_r in Hg by lia.
Qed.

Lemma child_cell b i : cell b -> level b < deepest -> 0 <= i < brood_size ->
  cell (child b i) /\ parent (child b i) = b /\ pt (child b i) = child_pt (pt b) i.
Proof using HD.
  intros [Hl Hp] Hd Hi. assert (pt (child b i) = child_pt (pt b) i) as Hc by done.
  assert (cell (child b i)) as Hcell.
  { unfold cell, child, childLevel. cbn [level]. split; [lia|]. apply in_grid_child; [done|lia..|done]. }
  split_and!; [done| |done]. destruct (parent_cell _ Hcell) as [_ Hh]; [cbn; unfold childLevel; lia|].
  rewrite Hc in Hh. erewrite halve_child in Hh by done. destruct b as [p lev], (parent _) as [p' lev'] eqn:E. cbn in Hh.
  apply (f_equal level) in E. unfold parent, parentLevel, child, childLevel in E. cbn in E. f_equal; [done|lia].
Qed.

Lemma cell_eq b p lev : b = mkBlockIndex p lev <-> pt b = p /\ level b = lev.
Proof. destruct b; cbn. naive_solver. Qed.

Lemma cell_level o b : store_ok o -> cell b ->
  exists l, getOctreeLevel o (level b) = Some l /\ lev_ok (level b) l /\ cast_level DIM o (level b) = Some l /\
    block o b = lev_get l (pt b).
Proof.
  intros Ho [Hl Hp]. pose proof (so_length o Ho). unfold deepest in Hl.
  destruct (zlookup_lt (m_leavesLevelMap o) (level b)) as [l E]; [lia|]. exists l.
  destruct (so_levels o Ho (level b) l) as [Hok Ht]; [done..|]. unfold block, cast_level, getOctreeLevel in *. rewrite E. cbn.
  by rewrite Ht.
Qed.

Lemma cell_valid_level b : cell b -> isLevelValid t (level b) = true.
Proof. intros [Hl _]. unfold isLevelValid, maxLeafLevel, deepest in *. apply andb_true_intro. lia. Qed.

Lemma root_cell : 0 < digits t -> cell (root DIM).
Proof. intros Hd. split; [unfold deepest; cbn; lia|]. by apply in_grid_zero. Qed.

Lemma level0_root b : cell b -> level b = 0 -> b = root DIM.
Proof. intros [_ Hp] H0. rewrite H0 in Hp. apply in_grid_0 in Hp. destruct b; cbn in *. by subst. Qed.

#[local] Instance tree_ops : LevelOps (B := B) (OctreeLevel B) := Level_ops DIM t.
#[local] Instance tree_laws : LevelLaws DIM (B := B) (OctreeLevel B) := Level_laws DIM t HD.

(** ** Queries *)

Lemma hasBlock_spec o b : store_ok o -> cell b -> hasBlock DIM t o b = Some (bool_decide (is_Some (block o b))).
Proof using HD.
  intros Ho Hb. destruct (cell_level o b Ho Hb) as (l & _ & Hl & Hc & ->).
  unfold hasBlock. rewrite cell_valid_level, Hc by done. cbn. exact (l_has DIM (level b) l (pt b) Hl (proj2 Hb)).
Qed.

Lemma blockStatus_spec o b : store_ok o -> cell b -> blockStatus DIM t o b = Some (status (block o b)).
Proof using HD.
  intros Ho Hb. destruct (cell_level o b Ho Hb) as (l & _ & Hl & Hc & ->).
  unfold blockStatus. rewrite cell_valid_level, Hc by done. cbn. exact (l_status DIM (level b) l (pt b) Hl (proj2 Hb)).
Qed.

Lemma isLeaf_spec o b : store_ok o -> cell b ->
  octree_isLeaf DIM t o b = Some (bool_decide (status (block o b) = LeafBlock)).
Proof using HD.
  intros Ho Hb. destruct (cell_level o b Ho Hb) as (l & E & Hl & _ & ->).
  unfold octree_isLeaf. rewrite cell_valid_level, E by done. cbn. unfold lev_isLeaf.
  pose proof (l_status DIM (level b) l (pt b) Hl (proj2 Hb)) as Hs. cbn in Hs. by rewrite Hs.
Qed.

Lemma isInternal_spec o b : store_ok o -> cell b ->
  octree_isInternal DIM t o b = Some (bool_decide (status (block o b) = InternalBlock)).
Proof using HD.
  intros Ho Hb. destruct (cell_level o b Ho Hb) as (l & E & Hl & _ & ->).
  unfold octree_isInternal. rewrite cell_valid_level, E by done. cbn. unfold lev_isInternal.
  pose proof (l_status DIM (level b) l (pt b) Hl (proj2 Hb)) as Hs. cbn in Hs. by rewrite Hs.
Qed.

Lemma octree_at_spec o b d : store_ok o -> cell b -> block o b = Some d -> octree_at DIM t o b = Some d.
Proof using HD.
  intros Ho Hb. destruct (cell_level o b Ho Hb) as (l & _ & Hl & Hc & ->). intros Hd.
  unfold octree_at. rewrite Hc. cbn. exact (l_read DIM (level b) l (pt b) d Hl (proj2 Hb) Hd).
Qed.

Lemma block_valid o b d : store_ok o -> cell b -> block o b = Some d -> valid d.
Proof using HD.
  intros Ho Hb. destruct (cell_level o b Ho Hb) as (l & _ & Hl & _ & ->). exact (l_valid DIM (level b) l (pt b) d Hl (proj2 Hb)).
Qed.

Lemma internal_status o b : status (block o b) = InternalBlock <-> internal o b.
Proof.
  unfold status, internal. destruct (block o b) as [d|]; [destruct (isLeaf d) eqn:E|].
  all: split; [intros H; try discriminate H|intros (d' & H & ?); simplify_eq]; eauto; congruence.
Qed.

Lemma leaf_status o b : status (block o b) = LeafBlock <-> exists d, block o b = Some d /\ isLeaf d = true.
Proof.
  unfold status. destruct (block o b) as [d|]; [destruct (isLeaf d) eqn:E|].
  all: split; [intros H; try discriminate H|intros (d' & H & ?); simplify_eq]; eauto; congruence.
Qed.

Lemma absent_status o b : status (block o b) = BlockNotInTree <-> block o b = None.
Proof. unfold status. destruct (block o b) as [d|]; [destruct (isLeaf d) eqn:E|]; split; congruence. Qed.

(** ** Changes of a level *)

Lemma set_level_spec o lev l0 l g : getOctreeLevel o lev = Some l0 ->
  exists o', set_level o lev l g = Some o' /\ m_idGenerator o' = g /\
    length (m_leavesLevelMap o') = length (m_leavesLevelMap o) /\
    forall lev', getOctreeLevel o' lev' = if decide (lev = lev') then Some l else getOctreeLevel o lev'.
Proof.
  intros E. unfold set_level, getOctreeLevel in *. pose proof (zlookup_Some_bounds _ _ _ E) as Hb.
  rewrite zupdate_lt by done. eexists. split_and!; [done|done|apply length_insert|]. intros lev'. cbn.
  by apply zlookup_insert.
Qed.

(** A level replaced by one with the same type that is in order. *)
Lemma store_replace o lev l0 l g :
  store_ok o -> 0 <= lev <= deepest -> getOctreeLevel o lev = Some l0 ->
  lev_ok lev l -> has_type DIM lev l = has_type DIM lev l0 -> gen_ok g ->
  exists o', set_level o lev l g = Some o' /\ store_ok o' /\ m_idGenerator o' = g /\
    forall b, block o' b = if decide (lev = level b) then lev_get l (pt b) else block o b.
Proof.
  intros Ho Hl E Hok Hty Hg. destruct (set_level_spec o lev l0 l g E) as (o' & Es & Hgen & Hlen & Hget).
  exists o'. split; [done|]. split; [|split; [done|]].
  - destruct Ho as [H1 H2 H3 H4]. split.
    + by rewrite Hlen.
    + intros lev' l' Hl' E'. rewrite Hget in E'. case_decide as Ed; [|by apply H2]. subst lev'. injection E' as <-.
      split; [done|]. rewrite Hty. by apply (H2 lev l0).
    + intros lev' l' Hl' E'. rewrite Hget, decide_False in E' by lia. by apply H3.
    + by rewrite Hgen.
  - intros b. unfold block. rewrite Hget. by case_decide.
Qed.

Lemma update_type l g p f l' g' lev :
  lev_update DIM t l g p f = Some (l', g') -> has_type DIM lev l' = has_type (B := B) DIM lev l.
Proof.
  destruct l; cbn; intros E; repeat (case_match || simplify_option_eq); simplify_eq; done.
Qed.

Lemma add_type l g p l' g' lev :
  lev_addAllChildren DIM t l g p = Some (l', g') -> has_type DIM lev l' = has_type (B := B) DIM lev l.
Proof.
  destruct l; cbn; intros E; repeat (case_match || simplify_option_eq); simplify_eq; done.
Qed.

(** Writing the data of a block. *)
Definition level_write o b (f : B -> B) : option (OctreeBase B) :=
  l ← getOctreeLevel o (level b);
  '(l, g) ← lev_update DIM t l (m_idGenerator o) (pt b) f;
  set_level o (level b) l g.

Lemma write_spec o b d f : store_ok o -> cell b -> block o b = Some d -> valid (f d) ->
  exists o', level_write o b f = Some o' /\ store_ok o' /\ m_idGenerator o' = m_idGenerator o /\
    forall c, cell c -> block o' c = if decide (c = b) then Some (f d) else block o c.
Proof using HD.
  intros Ho Hb Hd Hf. destruct (cell_level o b Ho Hb) as (l & E & Hl & _ & Eb). rewrite Eb in Hd.
  destruct (l_write DIM (LevelLaws := tree_laws) (level b) l (m_idGenerator o) (pt b) d f Hl (proj2 Hb) Hd Hf) as (l' & Ew & Hl' & Hget). cbn in Ew.
  destruct (store_replace o (level b) l l' (m_idGenerator o) Ho (proj1 Hb) E Hl') as (o' & Es & Ho' & Hgen & Hbl).
  { by eapply update_type. } { apply Ho. }
  exists o'. unfold level_write. rewrite E. cbn. rewrite Ew. cbn. split_and!; [done..|].
  intros c Hc. rewrite Hbl. destruct (decide (level b = level c)) as [El|El].
  - rewrite El in *. pose proof (Hget (pt c) (proj2 Hc)) as Hg. cbn in Hg. rewrite Hg.
    destruct (decide (c = b)) as [->|Hne]; [by rewrite decide_True|]. rewrite decide_False.
    + unfold block. rewrite E. done.
    + intros Ep. apply Hne. destruct c, b; cbn in *; congruence.
  - rewrite decide_False; [done|]. congruence.
Qed.

(** Adding the children of a point at a level. *)
Definition level_add o lev p : option (OctreeBase B) :=
  l ← getOctreeLevel o lev;
  '(l, g) ← lev_addAllChildren DIM t l (m_idGenerator o) p;
  set_level o lev l g.

Lemma add_spec o lev p o' : store_ok o -> 0 <= lev <= deepest -> in_grid (coarser lev) p ->
  (forall c, cell c -> level c = lev -> halve (pt c) = p -> block o c = None) -> level_add o lev p = Some o' ->
  exists d, store_ok o' /\ valid d /\ isLeaf d = true /\
    forall c, cell c -> block o' c = if decide (level c = lev /\ halve (pt c) = p) then Some d else block o c.
Proof using HD.
  intros Ho Hlev Hp Hno (l & E & ([l' g'] & Ea & Es')%bind_Some)%bind_Some. pose proof (so_gen o Ho) as Hg.
  destruct (so_levels o Ho lev l Hlev E) as [Hl Hty].
  destruct (l_add DIM (LevelLaws := tree_laws) lev l (m_idGenerator o) p l' g' Hl Hg Hp) as (d & Hv & Hleaf & Hl' & Hg' & Hget); [|done|].
  { intros q Hq Hh. specialize (Hno (mkBlockIndex q lev)). unfold block, cell, getOctreeLevel in Hno. cbn in Hno.
    unfold getOctreeLevel in E. rewrite E in Hno. by apply Hno. }
  destruct (store_replace o lev l l' g' Ho Hlev E Hl') as (o1 & Es & Ho' & _ & Hbl).
  { by eapply add_type. } { done. }
  rewrite Es in Es'. injection Es' as <-. exists d. unfold getOctreeLevel in E. split_and!; [done..|].
  intros c Hc. rewrite Hbl. destruct (decide (lev = level c)) as [->|Hne].
  - pose proof (Hget (pt c) (proj2 Hc)) as Hgc. cbn in Hgc. rewrite Hgc. unfold block, getOctreeLevel. rewrite E. cbn.
    by repeat case_decide; naive_solver.
  - rewrite decide_False; [done|]. naive_solver.
Qed.

Lemma add_room o lev p : store_ok o -> 0 <= lev <= deepest -> in_grid (coarser lev) p ->
  room (m_idGenerator o) (1 + brood_size) -> is_Some (level_add o lev p).
Proof using HD.
  intros Ho Hlev Hp Hr. pose proof (so_length o Ho). unfold level_add.
  destruct (zlookup_lt (m_leavesLevelMap o) lev) as [l E]; [unfold deepest in Hlev; lia|]. unfold getOctreeLevel. rewrite E. cbn [mbind option_bind].
  destruct (so_levels o Ho lev l Hlev E) as [Hl _].
  destruct (l_room DIM (LevelLaws := tree_laws) lev l (m_idGenerator o) p Hl (so_gen o Ho) Hp Hr) as [[l' g'] Ea]. cbn in Ea. rewrite Ea. cbn [mbind option_bind].
  destruct (set_level_spec o lev l l' g' E) as (o' & -> & _). by eexists.
Qed.

(** ** Refinement of a leaf *)

Lemma refineLeaf_steps o b :
  refineLeaf DIM t o b = o ← level_write o b setInternal; level_add o (childLevel b) (pt b).
Proof.
  unfold refineLeaf, level_write, level_add. destruct (getOctreeLevel o (level b)) as [l|]; [|done]. cbn.
  by destruct (lev_update DIM t l (m_idGenerator o) (pt b) setInternal) as [[l' g]|].
Qed.

Lemma child_iff b c : cell b -> cell c -> 0 < level c /\ parent c = b <-> level c = childLevel b /\ halve (pt c) = pt b.
Proof.
  intros Hb Hc. unfold childLevel. split.
  - intros [H0 <-]. destruct (parent_cell c Hc H0) as [_ ->]. unfold parent, parentLevel. cbn. split; [lia|done].
  - intros [Hl Hh]. assert (0 < level c) as H0 by (destruct Hb; lia). split; [done|].
    destruct (parent_cell c Hc H0) as [_ Hp]. destruct b as [p lev]. cbn in *. rewrite Hh in Hp.
    unfold parent, parentLevel in *. cbn in *. f_equal; [done|lia].
Qed.

Lemma leaf_no_children o b d c : tree_ok o -> cell c -> 0 < level c -> parent c = b ->
  block o b = Some d -> isLeaf d = true -> block o c = None.
Proof.
  intros Ho Hc H0 Hp Hb Hd. apply eq_None_not_Some. rewrite (tk_children o Ho c Hc H0), Hp. intros (d' & E & Hd'). congruence.
Qed.

Definition refined o b d d' o' : Prop :=
  forall c, cell c -> block o' c =
    if decide (c = b) then Some (setInternal d)
    else if decide (0 < level c /\ parent c = b) then Some d' else block o c.

Lemma refined_tree o b d d' o' :
  tree_ok o -> cell b -> block o b = Some d -> isLeaf d = true -> level b < deepest -> isLeaf d' = true ->
  store_ok o' -> refined o b d d' o' -> tree_ok o'.
Proof.
  intros Ho Hb Hd Hleaf Hlev Hd' Ho' Hr.
  assert (forall c, cell c -> internal o' c <-> c = b \/ internal o c) as Hint.
  { intros c Hc. unfold internal. rewrite (Hr c Hc). destruct (decide (c = b)) as [->|Hne].
    - split; [by left|]. intros _. eexists. split; [done|apply internal_not_leaf].
    - destruct (decide (0 < level c /\ parent c = b)) as [[H0 Hp]|_]; [|naive_solver].
      split; [intros (x & [= <-] & Hx); congruence|]. intros [?|(x & Hx & _)]; [done|].
      by rewrite (leaf_no_children o b d c Ho Hc H0 Hp Hd Hleaf) in Hx. }
  split.
  - done.
  - destruct (tk_root o Ho) as [r Hroot]. rewrite Hr by (apply root_cell; destruct Hb; unfold deepest in *; lia).
    case_decide; [by eexists|]. case_decide as Hc; [destruct Hc; cbn in *; lia|by eexists].
  - intros c Hc H0. pose proof (parent_cell c Hc H0) as [Hpc _]. rewrite Hint by done. rewrite <- tk_children by done.
    rewrite (Hr c Hc). destruct (decide (c = b)) as [->|Hne].
    { split; [|by eexists]. intros _. right. by rewrite Hd. }
    destruct (decide (0 < level c /\ parent c = b)) as [[_ Hp]|Hnp]; naive_solver.
  - intros c Hc. rewrite Hint by done. intros [->|Hi]; [done|]. by apply (tk_internal o Ho).
Qed.

Lemma refine_room o b d : tree_ok o -> cell b -> block o b = Some d -> level b < deepest ->
  room (m_idGenerator o) (1 + brood_size) -> is_Some (refineLeaf DIM t o b).
Proof using HD.
  intros Ho Hb Hd Hlev Hr. pose proof (tk_store o Ho) as Hso. pose proof (block_valid o b d Hso Hb Hd) as Hv.
  destruct (write_spec o b d setInternal Hso Hb Hd (internal_valid d Hv)) as (o1 & E1 & Hs1 & Hgen & _).
  rewrite refineLeaf_steps, E1. cbn [mbind option_bind]. destruct Hb as [Hl Hp]. apply add_room; [done|unfold childLevel; lia| |by rewrite Hgen].
  unfold coarser, childLevel. by replace (Z.max 0 (level b + 1 - 1)) with (level b) by lia.
Qed.

Lemma refine_spec o b d o2 : tree_ok o -> cell b -> block o b = Some d -> isLeaf d = true -> level b < deepest ->
  refineLeaf DIM t o b = Some o2 -> exists d', tree_ok o2 /\ isLeaf d' = true /\ refined o b d d' o2.
Proof using HD.
  intros Ho Hb Hd Hleaf Hlev Hrun. pose proof (tk_store o Ho) as Hso. pose proof (block_valid o b d Hso Hb Hd) as Hv.
  destruct (write_spec o b d setInternal Hso Hb Hd (internal_valid d Hv)) as (o1 & E1 & Hs1 & _ & Hb1).
  assert (level b = coarser (childLevel b)) as Hco by (destruct Hb; unfold coarser, childLevel; lia).
  rewrite refineLeaf_steps, E1 in Hrun.
  destruct (add_spec o1 (childLevel b) (pt b) o2 Hs1) as (d' & Hs2 & _ & Hd' & Hb2); [..|done|].
  { unfold childLevel. destruct Hb. lia. } { rewrite <- Hco. apply Hb. }
  { intros c Hc Hlc Hhc. rewrite Hb1, decide_False by (done || intros ->; unfold childLevel in *; lia).
    destruct (proj2 (child_iff b c Hb Hc)) as [H0 Hp]; [done|]. by eapply leaf_no_children. }
  assert (refined o b d d' o2) as Hr.
  { intros c Hc. rewrite Hb2, Hb1 by done. destruct (decide (c = b)) as [->|Hne].
    - rewrite decide_False; [done|]. unfold childLevel. lia.
    - destruct (decide (0 < level c /\ parent c = b)) as [Hp|Hp].
      + apply child_iff in Hp; [|done..]. by rewrite decide_True.
      + rewrite decide_False; [done|]. by rewrite <- child_iff. }
  exists d'. split_and!; [by eapply refined_tree|done|done].
Qed.

Lemma update_spec o b d f : tree_ok o -> cell b -> block o b = Some d -> valid (f d) -> isLeaf (f d) = isLeaf d ->
  exists o', octree_update DIM t o b f = Some o' /\ tree_ok o' /\
    forall c, cell c -> block o' c = if decide (c = b) then Some (f d) else block o c.
Proof using HD.
  intros Ho Hb Hd Hv Hl. pose proof (tk_store o Ho) as Hso.
  destruct (write_spec o b d f Hso Hb Hd Hv) as (o' & E & Hs & _ & Hbl). exists o'.
  split; [|split; [|done]].
  - rewrite <- E. unfold octree_update, level_write. destruct (cell_level o b Hso Hb) as (l & -> & _ & -> & _). done.
  - assert (forall c, cell c -> (internal o' c <-> internal o c) /\ (is_Some (block o' c) <-> is_Some (block o c))) as Hiff.
    { intros c Hc. unfold internal. rewrite Hbl by done. case_decide as E'; [subst c|done]. rewrite Hd. split; [|done].
      split; intros (x & [= <-] & Hx); eexists; (split; [done|congruence]). }
    split; [done|..].
    + apply Hiff; [|apply Ho]. apply root_cell. destruct Hb. unfold deepest in *. lia.
    + intros c Hc H0. rewrite (proj2 (Hiff c Hc)), (proj1 (Hiff _ (proj1 (parent_cell c Hc H0)))). by apply (tk_children o Ho).
    + intros c Hc. rewrite (proj1 (Hiff c Hc)). by apply (tk_internal o Ho).
Qed.

(** ** Construction *)

Lemma dense_levels : MAX_DENSE_LEV <= 16 / Z.of_nat DIM.
Proof using HD. by destruct HD as [-> | ->]. Qed.

Lemma new_level_gen i g l g' : 0 <= i < digits t -> gen_ok g -> new_level DIM (B := B) i g = Some (l, g') -> gen_ok g'.
Proof using HD.
  intros Hi Hg. unfold new_level. destruct (Z.leb_spec i MAX_DENSE_LEV) as [H4|H4]; [|repeat case_match; by intros [= _ <-]].
  intros ([l1 g1] & E & [= _ <-])%bind_Some. pose proof dense_levels. by apply (Dense_new_ok DIM t HD i g l1 g1) in E as (_ & ? & _); [|lia|lia|].
Qed.

Lemma morton_levels i w : (w = 16 \/ w = 32 \/ w = 64) -> 0 <= i <= w / Z.of_nat DIM -> i < digits t ->
  brood_ok DIM (MortonBrood DIM w t) i.
Proof using HD. intros Hw Hi Hd. apply MortonBrood_ok; [done|unfold morton_width; naive_solver|done|lia]. Qed.

Lemma new_level_ok i g l g' : 0 <= i <= deepest -> gen_ok g -> new_level DIM (B := B) i g = Some (l, g') ->
  lev_ok i l /\ has_type DIM i l = true /\ forall p, in_grid i p -> lev_get l p = None.
Proof using HD.
  intros Hi Hg. assert (i < digits t) as Hd by (unfold deepest in Hi; lia). unfold new_level.
  destruct (i <=? MAX_DENSE_LEV) eqn:E4.
  { intros ([l1 g1] & E & [= <- _])%bind_Some. apply Z.leb_le in E4 as H4. pose proof dense_levels.
    by apply (Dense_new_ok DIM t HD i g l1 g1) in E as (? & _ & ?); [|lia|lia|]. }
  destruct (i <=? MAX_SPARSE16_LEV DIM) eqn:E16; [|destruct (i <=? MAX_SPARSE32_LEV DIM) eqn:E32;
    [|destruct (i <=? MAX_SPARSE64_LEV DIM) eqn:E64]]; intros [= <- _]; cbn; rewrite E4, ?E16, ?E32, ?E64.
  - apply Z.leb_le in E16. split_and!; [apply Sparse_new_ok; [done|lia|apply morton_levels; [lia|split; [lia|exact E16]|lia]]|done|].
    intros p _. by apply (Sparse_new_empty DIM HD).
  - apply Z.leb_le in E32. split_and!; [apply Sparse_new_ok; [done|lia|apply morton_levels; [lia|split; [lia|exact E32]|lia]]|done|].
    intros p _. by apply (Sparse_new_empty DIM HD).
  - apply Z.leb_le in E64. split_and!; [apply Sparse_new_ok; [done|lia|apply morton_levels; [lia|split; [lia|exact E64]|lia]]|done|].
    intros p _. by apply (Sparse_new_empty DIM HD).
  - split_and!; [apply Sparse_new_ok; [done|lia|apply PointBrood_ok; [done|unfold deepest in Hi; lia]]|done|].
    intros p _. by apply (Sparse_new_empty DIM HD).
Qed.

Lemma new_level_beyond i g l g' : deepest < i -> i < digits t -> new_level DIM (B := B) i g = Some (l, g') ->
  has_type DIM i l = true /\ forall p, lev_blockStatus DIM t l p = Some BlockNotInTree.
Proof using HD.
  intros Hi Hd. assert (53 < i) by (unfold deepest in Hi; lia).
  assert (16 / Z.of_nat DIM < i /\ 32 / Z.of_nat DIM < i /\ 64 / Z.of_nat DIM < i) as (H16 & H32 & H64).
  { destruct HD as [-> | ->]; split_and!; eapply Z.le_lt_trans; try exact H; by vm_compute. }
  unfold new_level, has_type, MAX_SPARSE16_LEV, MAX_SPARSE32_LEV, MAX_SPARSE64_LEV, MAX_DENSE_LEV.
  rewrite !(proj2 (Z.leb_gt _ _)) by lia. intros [= <- _]. split; [done|]. intros p. cbn. unfold Sparse_blockStatus. cbn. by rewrite lookup_empty.
Qed.

Lemma new_levels_spec (n : nat) g ls' g2 : (Z.of_nat n <= digits t) -> gen_ok g ->
  foldl (append_level DIM (B := B)) (Some ([], g)) (seqZ 0 (Z.of_nat n)) = Some (ls', g2) ->
  gen_ok g2 /\ length ls' = n /\
  forall i l, ls'.[i] = Some l -> exists gi gi', gen_ok gi /\ new_level DIM i gi = Some (l, gi').
Proof using HD.
  intros Hn Hg. revert ls' g2. induction n as [|n IH]; intros ls' g2.
  { intros [= <- <-]. split_and!; [done..|]. intros i l Hl. apply zlookup_Some_bounds in Hl. cbn in Hl. lia. }
  rewrite seqZ_S, foldl_app, Z.add_0_l. cbn [foldl].
  intros ([ls g'] & Ef & ([l g''] & El & [= <- <-])%bind_Some)%bind_Some. destruct (IH ltac:(lia) ls g' Ef) as (Hg' & Hlen & Hls).
  pose proof (new_level_gen (Z.of_nat n) g' l g'' ltac:(lia) Hg' El) as Hg''.
  split_and!; [done|rewrite length_app; cbn; lia|]. intros i l' Hl'.
  pose proof (zlookup_Some_bounds _ _ _ Hl') as Hi. rewrite length_app in Hi. cbn in Hi.
  rewrite zlookup_to_nat in Hl' by lia. destruct (decide (i = Z.of_nat n)) as [->|Hne].
  - rewrite Nat2Z.id, lookup_app_r, Hlen, Nat.sub_diag in Hl' by lia. injection Hl' as <-. by exists g', g''.
  - rewrite lookup_app_l in Hl' by lia. apply Hls. by rewrite zlookup_to_nat by lia.
Qed.

Lemma new_spec g o : 0 < digits t -> gen_ok g -> OctreeBase_new DIM t g = Some o ->
  exists d, tree_ok o /\ isLeaf d = true /\
    forall c, cell c -> block o c = if decide (c = root DIM) then Some d else None.
Proof using HD.
  intros Hdig Hg ([ls g'] & Ef & Hrun)%bind_Some. unfold new_levels, maxLeafLevel in Ef.
  destruct (new_levels_spec (Z.to_nat (digits t)) g ls g' ltac:(lia) Hg) as (Hg' & Hlen & Hls); [by rewrite Z2Nat.id by lia|].
  set (o0 := mkOctree ls g') in *.
  assert (store_ok o0) as Hs.
  { split; cbn; [lia| | |done].
    - intros lev l Hlev E. destruct (Hls lev l E) as (gi & gi' & Hgi & El). by destruct (new_level_ok lev gi l gi' Hlev Hgi El) as (? & ? & _).
    - intros lev l Hlev E. destruct (Hls lev l E) as (gi & gi' & Hgi & El). eapply new_level_beyond; [done| |exact El].
      pose proof (zlookup_Some_bounds ls _ _ E). lia. }
  assert (forall c, cell c -> block o0 c = None) as Hempty.
  { intros c Hc. destruct (cell_level o0 c Hs Hc) as (l & E & _ & _ & ->). destruct (Hls _ l E) as (gi & gi' & Hgi & El).
    apply (new_level_ok (level c) gi l gi' (proj1 Hc) Hgi El), Hc. }
  pose proof (root_cell Hdig) as Hroot.
  destruct (add_spec o0 0 (GridPt_zero DIM) o Hs) as (d & Ho & _ & Hd & Hbl); [..|exact Hrun|].
  { unfold deepest. lia. } { by apply in_grid_zero. } { intros c Hc _ _. by apply Hempty. }
  assert (forall c, cell c -> block o c = if decide (c = root DIM) then Some d else None) as Hbl'.
  { intros c Hc. rewrite Hbl by done. destruct (decide (c = root DIM)) as [->|Hne].
    - rewrite decide_True; [done|]. split; [done|]. by destruct HD as [-> | ->].
    - rewrite decide_False; [by apply Hempty|]. intros [H0 _]. apply Hne. by apply level0_root. }
  exists d. split_and!; [|done|done].
  assert (forall c, cell c -> ~ internal o c) as Hni.
  { intros c Hc (x & Hx & Hxl). rewrite Hbl' in Hx by done. case_decide; congruence. }
  split; [done| | |].
  - rewrite Hbl', decide_True by done. by eexists.
  - intros c Hc H0. destruct (parent_cell c Hc H0) as [Hpc _]. rewrite Hbl' by done. rewrite decide_False.
    + split; [by intros []|]. intros Hi. by destruct (Hni _ Hpc).
    + intros ->. by cbn in H0.
  - intros c Hc Hi. by destruct (Hni c Hc).
Qed.

End Tree.
End OctreeProofs.
