(* ===== verification/OctreeIteration.v ===== *)
(** * Iteration over a level of an octree

    The traversals of dense and of sparse levels visit every block once, and the numbers
    of blocks that a level reports are those of the traversal. *)

From S2P Require Import Prelude Morton OctreeBlocks OctreeLevels OctreeBlockProofs OctreeLevelProofs.

Module OctreeIteration.
Import Morton OctreeBlocks OctreeLevels OctreeBlockProofs OctreeLevelProofs.

(** ** Lists *)

Lemma filter_join {A} (f : A -> bool) (l : list (list A)) :
  List.filter f (mjoin l) = mjoin (List.filter f <$> l).
Proof. induction l as [|x l IH]; [done|]. by rewrite fmap_cons, !join_cons, List.filter_app, IH. Qed.

Lemma filter_split {A} (f : A -> bool) (l : list A) :
  (length (List.filter f l) + length (List.filter (fun x => negb (f x)) l) = length l)%nat.
Proof. induction l as [|x l IH]; [done|]. cbn. destruct (f x); cbn; lia. Qed.

Lemma filter_fmap {A B} (g : A -> B) (f : B -> bool) (l : list A) :
  g <$> List.filter (fun x => f (g x)) l = List.filter f (g <$> l).
Proof. induction l as [|x l IH]; [done|]. cbn. destruct (f (g x)); cbn; by rewrite <- IH. Qed.

Lemma elem_of_filter_b {A} (f : A -> bool) (l : list A) x : x ∈ List.filter f l <-> f x = true /\ x ∈ l.
Proof. rewrite !list_elem_of_In, List.filter_In. tauto. Qed.

(** The elements of lists of one length by quotient and remainder. *)
Lemma lookup_join_div {A} (w : nat) (l : list (list A)) (k : nat) : (0 < w)%nat -> Forall (fun x => length x = w) l ->
  mjoin l !! k = x ← l !! (k / w)%nat; x !! (k mod w)%nat.
Proof.
  intros Hw Hl. revert k. induction Hl as [|x l Hx _ IH]; intros k; [done|]. rewrite join_cons.
  destruct (decide (k < w)%nat) as [Hk|Hk].
  - rewrite lookup_app_l by lia. rewrite Nat.div_small, Nat.mod_small by lia. done.
  - rewrite lookup_app_r by lia. rewrite IH, Hx. remember (k - w)%nat as j eqn:Ej. assert (k = (j + 1 * w)%nat) as -> by lia.
    rewrite Nat.div_add, Nat.Div0.mod_add by lia. by rewrite Nat.add_1_r.
Qed.

Lemma length_join_const {A} (w : nat) (l : list (list A)) :
  Forall (fun x => length x = w) l -> length (mjoin l) = (length l * w)%nat.
Proof. induction 1 as [|x l Hx _ IH]; [done|]. rewrite join_cons, length_app, IH, Hx. cbn. lia. Qed.

Lemma imap_const_id {A} (f : nat -> A -> A) (l : list A) : (forall i x, f i x = x) -> imap f l = l.
Proof. intros Hf. apply list_eq. intros i. rewrite list_lookup_imap. destruct (l !! i); [|done]. cbn. by rewrite Hf. Qed.

Lemma NoDup_filter_imap {A C} (f : C -> bool) (g : nat -> A -> C) (l : list A) :
  (forall k1 k2 x1 x2, l !! k1 = Some x1 -> l !! k2 = Some x2 -> f (g k1 x1) = true -> f (g k2 x2) = true ->
     g k1 x1 = g k2 x2 -> k1 = k2) ->
  NoDup (List.filter f (imap g l)).
Proof.
  revert g. induction l as [|x l IH]; intros g Hg; [constructor|].
  assert (NoDup (List.filter f (imap (g ∘ S) l))) as Hnd.
  { apply IH. intros k1 k2 x1 x2 H1 H2 F1 F2 E. by specialize (Hg (S k1) (S k2) x1 x2 H1 H2 F1 F2 E) as [= ?]. }
  cbn. destruct (f (g O x)) eqn:Ef; [|done]. constructor; [|done].
  intros [Hf (k & y & E & Hk)%elem_of_lookup_imap]%elem_of_filter_b. cbn in E.
  specialize (Hg O (S k) x y eq_refl Hk Ef). unfold compose in *. rewrite <- E in Hg. by specialize (Hg Ef eq_refl).
Qed.

Section Iteration.
Context (DIM : nat) (HD : DIM = 2%nat \/ DIM = 3%nat) (t : CoordType) {B : Type} `{HBL : BlockDataLaws B}.
Implicit Types (p q : GridPt) (b : B) (bd : list B).

Notation in_grid := (in_grid DIM).
Notation SIZE := (BROOD_SIZE DIM).
Notation present := (present DIM).
Notation absent := (absent DIM).

(** ** The blocks of a brood that belong to the level *)

Definition used (lev : Z) bd : list B := if lev =? 0 then take 1 bd else bd.
Definition width (lev : Z) : nat := if lev =? 0 then 1%nat else SIZE.

Lemma width_pos lev : (0 < width lev)%nat.
Proof using HD. destruct (SIZE_pos DIM HD) as [n Hn]. unfold width. case_match; lia. Qed.

Lemma used_length lev bd : length bd = SIZE -> length (used lev bd) = width lev.
Proof using HD.
  intros H. destruct (SIZE_pos DIM HD) as [n Hn]. unfold used, width. case_match; [|done]. rewrite length_take. lia.
Qed.

Lemma width_blocks lev : Z.of_nat (width lev) = brood_blocks DIM lev.
Proof using Type. unfold width, brood_blocks. by case_match. Qed.

Lemma used_valid lev bd : present lev bd -> Forall valid (used lev bd).
Proof using Type.
  intros [_ H]. unfold used. destruct (lev =? 0); [|done]. destruct bd; [done|]. cbn. constructor; [apply H|done].
Qed.

Lemma used_nonblock lev bd : absent bd -> Forall nonblock (used lev bd).
Proof using Type. intros [_ H]. unfold used. case_match; [by apply Forall_take|done]. Qed.

Lemma filter_leaf_none bd : Forall nonblock bd -> List.filter isLeaf bd = [].
Proof using Type. induction 1 as [|b bd [_ Hb] _ IH]; [done|]. cbn. by rewrite Hb. Qed.

Lemma used_leaves lev bd : present lev bd \/ absent bd -> List.filter isLeaf (used lev bd) = List.filter isLeaf bd.
Proof using Type.
  intros [[_ H]|[_ H]]; unfold used; destruct (lev =? 0); try done.
  - destruct bd as [|b rest]; [done|]. destruct H as [_ H]. cbn. by rewrite (filter_leaf_none rest).
  - rewrite !filter_leaf_none; [done|done|by apply Forall_take].
Qed.

Lemma used_blocks lev bd : present lev bd \/ absent bd -> length (List.filter isBlock (used lev bd)) = Z.to_nat (blocks_in bd).
Proof using HD.
  intros [H|H].
  - rewrite (present_blocks DIM lev bd H), <- width_blocks, Nat2Z.id. rewrite filter_block_all by (by apply used_valid).
    apply used_length, H.
  - rewrite (absent_blocks DIM bd H). by rewrite filter_block_none by (by apply used_nonblock).
Qed.

(** ** Sparse levels *)

Section Sparse.
Context {K : Type} `{Countable K} (rep : Brood K).

Lemma used_at lev bd (o : nat) b : present lev bd ->
  used lev bd !! o = Some b <-> bd.[Z.of_nat o] = Some b /\ place DIM lev (Z.of_nat o).
Proof using HD.
  intros [Hlen _]. unfold used, place. rewrite zlookup_of_nat. pose proof (SIZE_brood DIM) as HS.
  destruct (Z.eqb_spec lev 0) as [->|Hne]; (split; [intros Hb|intros [Hb [Ho H0]]]).
  - pose proof (lookup_lt_Some _ _ _ Hb) as Ho. rewrite length_take in Ho. assert (o = O) as -> by lia.
    rewrite lookup_take_lt in Hb by lia. split; [done|]. pose proof (brood_size_pos DIM HD). lia.
  - assert (o = O) as -> by lia. by rewrite lookup_take_lt by lia.
  - pose proof (lookup_lt_Some _ _ _ Hb). split; [done|]. lia.
  - done.
Qed.

(** Where an offset of a brood is in the grid. *)
Lemma place_child lev q (o : Z) : 0 <= lev -> in_grid (coarser lev) q -> place DIM lev o ->
  in_grid lev (child_pt q o) /\ halve (child_pt q o) = q /\ child_index (child_pt q o) = o.
Proof using HD.
  intros Hl Hq [Ho H0]. destruct (decide (lev = 0)) as [E|E].
  - rewrite H0 by done. by apply (a_child DIM HD lev q).
  - split_and!; [|by eapply halve_child|by eapply child_index_child]. unfold coarser in Hq.
    replace lev with (Z.max 0 (lev - 1) + 1) by lia. apply in_grid_child; [done|lia|lia|done].
Qed.

Lemma sparse_mem lev l p b : Sparse_ok DIM rep lev l ->
  (p, b) ∈ Sparse_iterate rep l <-> in_grid lev p /\ Sparse_at rep l p = Some b.
Proof using HD.
  intros Hl. unfold Sparse_iterate. rewrite (sok_level _ _ _ _ Hl). split.
  - intros ([k bd] & Hin & Hk)%list_elem_of_bind. apply elem_of_map_to_list in Hk.
    apply elem_of_lookup_imap in Hin as (o & b' & [= -> ->] & Hb').
    destruct (sok_broods _ _ _ _ Hl k bd Hk) as (Hpr & q & Hq & ->). apply (used_at lev bd o b' Hpr) in Hb' as [Hb Ho].
    destruct (place_child lev q _ (sok_range _ _ _ _ Hl) Hq Ho) as (Hg & Hh & Hi).
    rewrite (ok_reconstruct _ _ _ (sok_brood _ _ _ _ Hl) q _ Hq (proj1 Ho) Hg). split; [done|].
    destruct (sparse_place DIM HD rep lev l _ Hl Hg) as (Hba & Hof & _). unfold Sparse_at. by rewrite Hba, Hof, Hh, Hi, Hk.
  - intros [Hp Hb]. destruct (sparse_place DIM HD rep lev l p Hl Hp) as (Hba & Hof & Hh). unfold Sparse_at in Hb.
    rewrite Hba, Hof in Hb. destruct (m_map l !! _) as [bd|] eqn:Hk; [|done]. cbn in Hb.
    destruct (sok_broods _ _ _ _ Hl _ bd Hk) as [Hpr _]. pose proof (child_index_place DIM HD lev p Hp) as Hpl.
    apply list_elem_of_bind. exists (convertPoint rep (halve p), bd). split; [|by apply elem_of_map_to_list].
    apply elem_of_lookup_imap. exists (Z.to_nat (child_index p)), b. destruct Hpl as [Hi H0].
    rewrite Z2Nat.id by lia. split.
    + rewrite (ok_reconstruct _ _ _ (sok_brood _ _ _ _ Hl)); [|done|done|].
      * by rewrite (child_of_halve DIM HD lev p Hp).
      * by rewrite (child_of_halve DIM HD lev p Hp).
    + apply (used_at lev bd _ b Hpr). rewrite Z2Nat.id by lia. by split.
Qed.

Lemma sparse_nodup lev l : Sparse_ok DIM rep lev l -> NoDup (Sparse_iterate rep l).
Proof using HD.
  intros Hl. unfold Sparse_iterate. rewrite (sok_level _ _ _ _ Hl).
  assert (forall k bd (o : nat) b, m_map l !! k = Some bd -> used lev bd !! o = Some b ->
    exists q, k = convertPoint rep q /\ reconstructGridPt rep k (Z.of_nat o) = child_pt q (Z.of_nat o) /\
      halve (child_pt q (Z.of_nat o)) = q /\ child_index (child_pt q (Z.of_nat o)) = Z.of_nat o) as Hpos.
  { intros k bd o b Hk Hb. destruct (sok_broods _ _ _ _ Hl k bd Hk) as (Hpr & q & Hq & ->). apply (used_at lev bd o b Hpr) in Hb as [_ Ho].
    destruct (place_child lev q _ (sok_range _ _ _ _ Hl) Hq Ho) as (Hg & Hh & Hi). exists q.
    by rewrite (ok_reconstruct _ _ _ (sok_brood _ _ _ _ Hl) q _ Hq (proj1 Ho) Hg). }
  apply NoDup_bind; [| |apply NoDup_map_to_list].
  - intros [k1 bd1] [k2 bd2] y Hk1%elem_of_map_to_list Hk2%elem_of_map_to_list (o1 & b1 & -> & Hb1)%elem_of_lookup_imap
      (o2 & b2 & [= E _] & Hb2)%elem_of_lookup_imap.
    destruct (Hpos _ _ _ _ Hk1 Hb1) as (q1 & -> & R1 & H1 & _), (Hpos _ _ _ _ Hk2 Hb2) as (q2 & -> & R2 & H2 & _).
    rewrite R1, R2 in E. assert (q1 = q2) as <- by congruence. congruence.
  - intros [k bd] Hk%elem_of_map_to_list. apply NoDup_alt. intros o1 o2 x Hx1 Hx2. rewrite list_lookup_imap in Hx1, Hx2.
    fold (used lev bd) in Hx1, Hx2. destruct (used lev bd !! o1) as [b1|] eqn:Hb1; [|done]. destruct (used lev bd !! o2) as [b2|] eqn:Hb2; [|done].
    cbn in *. destruct (Hpos _ _ _ _ Hk Hb1) as (q1 & -> & R1 & H1 & I1), (Hpos _ _ _ _ Hk Hb2) as (q2 & E & R2 & H2 & I2).
    assert (child_pt q1 (Z.of_nat o1) = child_pt q2 (Z.of_nat o2)) as Ec by congruence.
    apply (f_equal child_index) in Ec. rewrite I1, I2 in Ec. lia.
Qed.

Lemma sparse_data lev l : Sparse_ok DIM rep lev l ->
  (Sparse_iterate rep l).*2 = mjoin (used lev <$> (map_to_list (m_map l)).*2).
Proof using Type.
  intros Hl. unfold Sparse_iterate. rewrite (sok_level _ _ _ _ Hl).
  induction (map_to_list (m_map l)) as [|[k bd] kbs IH]; [done|]. rewrite bind_cons, fmap_app, IH, !fmap_cons, join_cons. f_equal.
  fold (used lev bd). rewrite fmap_imap. by apply imap_const_id.
Qed.

Lemma sparse_present lev l : Sparse_ok DIM rep lev l -> Forall (present lev) (map_to_list (m_map l)).*2.
Proof using Type.
  intros Hl. apply Forall_fmap, Forall_forall. intros [k bd] Hk%elem_of_map_to_list. by apply (sok_broods _ _ _ _ Hl k bd).
Qed.

Lemma sparse_counts lev l : Sparse_ok DIM rep lev l ->
  Sparse_numBlocks DIM l = Z.of_nat (length (Sparse_iterate rep l)) /\
  Sparse_numLeafBlocks l = Z.of_nat (length (List.filter isLeaf (Sparse_iterate rep l).*2)).
Proof using HD.
  intros Hl. pose proof (sparse_present lev l Hl) as Hpr. pose proof (sparse_data lev l Hl) as Hd.
  assert (length (Sparse_iterate rep l) = (length (map_to_list (m_map l)) * width lev)%nat) as Hlen.
  { rewrite <- (length_fmap snd), Hd, (length_join_const (width lev)), !length_fmap; [done|].
    apply Forall_fmap. eapply Forall_impl; [done|]. intros bd [Hb _]. by apply used_length. }
  unfold Sparse_numBlocks, Sparse_numLeafBlocks, Sparse_empty, count_leaves. case_bool_decide as E.
  { assert (Sparse_iterate rep l = []) as ->; [|done]. unfold Sparse_iterate. by rewrite E, map_to_list_empty. }
  split.
  - rewrite (sok_level _ _ _ _ Hl). destruct (Z.eqb_spec lev 0) as [E0|E0].
    + assert (Sparse_iterate rep l <> []) as Hne.
      { intros Hn. rewrite Hn in Hlen. pose proof (width_pos lev). apply E, map_to_list_empty_iff.
        destruct (map_to_list (m_map l)); [done|]. cbn in Hlen. lia. }
      subst lev. pose proof (sparse_nodup 0 l Hl) as Hnd. pose proof (fun p b => proj1 (sparse_mem 0 l p b Hl)) as Hmem.
      destruct (Sparse_iterate rep l) as [|[p b] [|[p' b'] tr]]; [done|done|]. exfalso.
      destruct (Hmem p b) as [Hp Hb]; [by left|]. destruct (Hmem p' b') as [Hp' Hb']; [by right; left|].
      apply in_grid_0 in Hp as ->. apply in_grid_0 in Hp' as ->.
      assert (b = b') as -> by congruence. apply NoDup_cons in Hnd as [Hnd _]. destruct Hnd. by left.
    + rewrite Hlen. unfold width. rewrite (proj2 (Z.eqb_neq lev 0)) by done. lia.
  - rewrite Hd, !filter_join. generalize dependent (map_to_list (m_map l)).*2. intros bds Hpr _.
    rewrite <- (list_fmap_compose _ _ bds). do 3 f_equal. apply list_fmap_ext. intros i bd Hi. symmetry. apply used_leaves. left. by eapply Forall_lookup_1.
Qed.

End Sparse.
(** ** Dense levels *)

Section Dense.
Context (lev : Z) (l : DenseOctreeLevel B) (Hl : Dense_ok DIM t lev l).

(** The places of the array in the order of the iterator, and the blocks there. *)
Definition pos (k : nat) : Z * Z := (Z.of_nat (k / width lev), Z.of_nat (k mod width lev)).
Definition places : list B := mjoin (used lev <$> m_data l).
Definition trail : list (GridPt * B) := imap (fun k b => (Dense_pt DIM t (pos k), b)) places.
Definition at_block (x : GridPt * B) : bool := isBlock (snd x).

Lemma broods_length : Forall (fun bd => length bd = SIZE) (m_data l).
Proof using Hl. eapply Forall_impl; [apply Hl|]. by intros bd [[? _]|[? _]]. Qed.

Lemma used_lengths : Forall (fun bd => length bd = width lev) (used lev <$> m_data l).
Proof using HD Hl. apply Forall_fmap. eapply Forall_impl; [apply broods_length|]. intros bd. apply used_length. Qed.

Lemma places_length : length places = (length (m_data l) * width lev)%nat.
Proof using HD Hl. unfold places. by rewrite (length_join_const (width lev)), length_fmap by apply used_lengths. Qed.

Lemma data_pos k : (k < length places)%nat -> Dense_data l (pos k) = places !! k.
Proof using HD Hl.
  intros Hk. unfold Dense_data, pos, places. rewrite places_length in Hk. pose proof (width_pos lev) as Hw. cbn.
  rewrite zlookup_of_nat, (lookup_join_div (width lev)), list_lookup_fmap by (done || apply used_lengths).
  destruct (m_data l !! _) as [bd|] eqn:E; [|done]. cbn. rewrite zlookup_of_nat.
  pose proof (Nat.mod_upper_bound k (width lev)). unfold used, width in *. destruct (lev =? 0); [|done]. rewrite lookup_take_lt by lia. done.
Qed.

Lemma advance_pos k : Dense_advance DIM l (pos k) = pos (S k).
Proof using HD Hl.
  unfold Dense_advance, pos, width. rewrite (dok_level _ _ _ _ Hl). destruct (Z.eqb_spec lev 0) as [E|E].
  - rewrite orb_true_r, !Nat.div_1_r, !Nat.mod_1_r. f_equal. lia.
  - rewrite orb_false_r. destruct (SIZE_pos DIM HD) as [n Hn]. pose proof (Nat.div_mod_eq k SIZE) as Hk.
    pose proof (Nat.mod_upper_bound k SIZE) as Hm. destruct (Z.eqb_spec (Z.of_nat (k mod SIZE) + 1) (Z.of_nat SIZE)) as [E1|E1].
    + rewrite <- (Nat.div_unique (S k) SIZE (S (k / SIZE)) 0), <- (Nat.mod_unique (S k) SIZE (S (k / SIZE)) 0) by lia. f_equal; lia.
    + rewrite <- (Nat.div_unique (S k) SIZE (k / SIZE) (S (k mod SIZE))), <- (Nat.mod_unique (S k) SIZE (k / SIZE) (S (k mod SIZE))) by lia.
      f_equal. lia.
Qed.

Lemma pos_inside k : ((pos k).1 <? m_broodCapacity l) = bool_decide (k < length places)%nat.
Proof using HD Hl.
  rewrite places_length, <- (dok_length _ _ _ _ Hl). cbn. pose proof (width_pos lev). apply eq_true_iff_eq.
  rewrite Z.ltb_lt, bool_decide_eq_true, <- Nat2Z.inj_lt. split.
  - intros Hq. pose proof (Nat.div_mod_eq k (width lev)). pose proof (Nat.mod_upper_bound k (width lev)). nia.
  - intros Hk. apply Nat.Div0.div_lt_upper_bound. lia.
Qed.

Lemma trail_drop k b : places !! k = Some b -> drop k trail = (Dense_pt DIM t (pos k), b) :: drop (S k) trail.
Proof using Type. intros Hb. apply drop_S. unfold trail. by rewrite list_lookup_imap, Hb. Qed.

Lemma trail_length : length trail = length places.
Proof using Type. apply length_imap. Qed.

Lemma increment_spec fuel k : (k < length places)%nat -> (length places - k <= fuel)%nat ->
  exists k', (k < k' <= length places)%nat /\ Dense_increment DIM fuel l (pos k) = Some (pos k') /\
    List.filter at_block (drop (S k) trail) = List.filter at_block (drop k' trail) /\
    ((k' < length places)%nat -> exists b, places !! k' = Some b /\ isBlock b = true).
Proof using HD Hl.
  revert k. induction fuel as [|fuel IH]; intros k Hk Hf; [lia|]. cbn -[pos]. rewrite advance_pos, pos_inside.
  case_bool_decide as Hin.
  - rewrite (data_pos (S k)) by done. destruct (lookup_lt_is_Some_2 places (S k) Hin) as [b Hb]. rewrite Hb. cbn.
    destruct (isBlock b) eqn:E.
    + exists (S k). split_and!; [lia|lia|done|done|by eauto].
    + destruct (IH (S k)) as (k' & Hk' & Ei & Ef & Hb'); [done|lia|]. exists k'. split_and!; [lia|lia|done| |done].
      rewrite (trail_drop (S k) b Hb). cbn. unfold at_block at 1. cbn. by rewrite E.
  - exists (S k). split_and!; [lia|lia|done|done|lia].
Qed.

Lemma pos_end : pos (length places) = Dense_end l.
Proof using HD Hl.
  unfold pos, Dense_end. rewrite places_length, <- (dok_length _ _ _ _ Hl). pose proof (width_pos lev).
  by rewrite Nat.div_mul, Nat.Div0.mod_mul by lia.
Qed.

Lemma Dense_iterate_spec fuel k : (k <= length places)%nat -> (length places - k <= fuel)%nat ->
  ((k < length places)%nat -> exists b, places !! k = Some b /\ isBlock b = true) ->
  Dense_iterate_from DIM t fuel l (pos k) = Some (List.filter at_block (drop k trail)).
Proof using HD Hl.
  revert k. induction fuel as [|fuel IH]; intros k Hk Hf Hb.
  { assert (k = length places) as -> by lia. cbn -[pos Dense_end Dense_fuel Dense_increment]. rewrite pos_end, bool_decide_true by done.
    by rewrite drop_ge by (rewrite trail_length; lia). }
  destruct (decide (k = length places)) as [->|Hne].
  { cbn -[pos Dense_end Dense_fuel Dense_increment]. rewrite pos_end, bool_decide_true by done. by rewrite drop_ge by (rewrite trail_length; lia). }
  cbn -[pos Dense_end Dense_fuel Dense_increment]. rewrite bool_decide_false.
  2:{ intros E. pose proof (pos_inside k) as Hin. rewrite E in Hin. cbn in Hin. rewrite Z.ltb_irrefl, bool_decide_true in Hin by lia. done. }
  destruct Hb as (b & Hb & Eb); [lia|]. rewrite data_pos, Hb by lia. cbn -[pos Dense_end Dense_fuel Dense_increment].
  destruct (increment_spec (Dense_fuel DIM l) k) as (k' & Hk' & Ei & Ef & Hb'); [lia| |].
  { unfold Dense_fuel. rewrite places_length. pose proof (width_pos lev). destruct (SIZE_pos DIM HD) as [n Hn].
    assert (width lev <= SIZE)%nat by (unfold width; case_match; lia). nia. }
  rewrite Ei. cbn -[pos Dense_end Dense_fuel Dense_increment]. rewrite (IH k') by (done || lia). cbn -[pos Dense_end Dense_fuel Dense_increment].
  rewrite (trail_drop k b Hb). cbn. unfold at_block at 2. cbn. by rewrite Eb, Ef.
Qed.

Lemma places_pos : (0 < length places)%nat.
Proof using HD Hl.
  rewrite places_length. pose proof (width_pos lev). pose proof (dok_length _ _ _ _ Hl) as Hlen.
  rewrite (dok_capacity _ _ _ _ Hl) in Hlen. assert (0 < 2 ^ (Z.of_nat DIM * coarser lev)) by (apply Z.pow_pos_nonneg; unfold coarser; lia). nia.
Qed.

Lemma dense_iterate : Dense_iterate DIM t l = Some (List.filter at_block trail).
Proof using HD Hl.
  pose proof places_pos as H0. pose proof (width_pos lev). unfold Dense_iterate, Dense_begin.
  assert ((0, 0) = pos 0) as ->. { unfold pos. rewrite Nat.Div0.div_0_l, Nat.Div0.mod_0_l. done. }
  destruct (lookup_lt_is_Some_2 places 0 H0) as [b Hb]. rewrite data_pos, Hb by done. cbn -[pos Dense_fuel Dense_iterate_from Dense_increment].
  assert (length places <= Dense_fuel DIM l)%nat as Hf.
  { unfold Dense_fuel. rewrite places_length. destruct (SIZE_pos DIM HD) as [n Hn].
    assert (width lev <= SIZE)%nat by (unfold width; case_match; lia). nia. }
  destruct (isBlock b) eqn:E; cbn -[pos Dense_fuel Dense_iterate_from Dense_increment].
  - rewrite (Dense_iterate_spec _ 0) by (lia || eauto). by rewrite drop_0.
  - destruct (increment_spec (Dense_fuel DIM l) 0) as (k' & Hk' & -> & Ef & Hb'); [lia|lia|]. cbn -[pos Dense_fuel Dense_iterate_from Dense_increment].
    rewrite Dense_iterate_spec by (done || lia). rewrite <- Ef. f_equal. rewrite <- (drop_0 trail) at 2. rewrite (trail_drop 0 b Hb). cbn -[drop].
    unfold at_block at 2. cbn -[drop]. by rewrite E.
Qed.

Lemma dense_trail_data : (List.filter at_block trail).*2 = List.filter isBlock places.
Proof using Type. unfold at_block. rewrite filter_fmap. f_equal. unfold trail. rewrite fmap_imap. by apply imap_const_id. Qed.

Lemma dense_counts :
  Dense_numBlocks l = Z.of_nat (length (List.filter at_block trail)) /\
  Dense_numLeafBlocks l = Z.of_nat (length (List.filter isLeaf (List.filter at_block trail).*2)).
Proof using HD Hl.
  assert (Dense_numBlocks l = Z.of_nat (length (List.filter at_block trail))) as Hn.
  { rewrite <- (length_fmap snd), dense_trail_data. unfold places. rewrite filter_join. unfold Dense_numBlocks. rewrite (dok_count _ _ _ _ Hl).
    pose proof (dok_broods _ _ _ _ Hl) as Hb. induction Hb as [|bd bds Hbd _ IH]; [done|].
    rewrite !fmap_cons, join_cons, length_app, Nat2Z.inj_add, <- IH, (used_blocks lev bd Hbd).
    change (total (bd :: bds)) with (blocks_in bd + total bds). unfold blocks_in. lia. }
  split; [done|]. rewrite dense_trail_data. unfold Dense_numLeafBlocks, Dense_empty, count_leaves. fold (Dense_numBlocks l).
  assert (List.filter isLeaf (List.filter isBlock places) = List.filter isLeaf (mjoin (m_data l))) as E.
  { unfold places. rewrite !filter_join. pose proof (dok_broods _ _ _ _ Hl) as Hb. induction Hb as [|bd bds Hbd _ IH]; [done|].
    rewrite !fmap_cons, !join_cons, IH. f_equal. rewrite <- (used_leaves lev bd Hbd). destruct Hbd as [Hp|Ha].
    - by rewrite filter_block_all by (by apply used_valid).
    - rewrite filter_block_none by (by apply used_nonblock). by rewrite (filter_leaf_none (used lev bd)) by (by apply used_nonblock). }
  destruct (Z.eqb_spec (Dense_numBlocks l) 0) as [E0|_]; [|by rewrite E].
  rewrite Hn, <- (length_fmap snd), dense_trail_data in E0. destruct (List.filter isBlock places); [done|]. cbn in E0. lia.
Qed.

(** A place that holds a block, as a point of the grid. *)
Lemma trail_point k b : places !! k = Some b -> isBlock b = true ->
  in_grid lev (Dense_pt DIM t (pos k)) /\ Dense_get DIM t l (Dense_pt DIM t (pos k)) = Some b /\
  convertPoint (dense_brood DIM t) (halve (Dense_pt DIM t (pos k))) = (pos k).1 /\
  child_index (Dense_pt DIM t (pos k)) = (pos k).2.
Proof using HD Hl.
  intros Hk Hb. pose proof (lookup_lt_Some _ _ _ Hk) as Hlt. pose proof (width_pos lev) as Hw. pose proof (dok_range _ _ _ _ Hl) as Hr.
  pose proof Hk as Hbd. unfold places in Hbd. rewrite (lookup_join_div (width lev)), list_lookup_fmap in Hbd by (done || apply used_lengths).
  destruct (m_data l !! _) as [bd|] eqn:Ed; [|done]. cbn in Hbd.
  assert (present lev bd) as Hpr.
  { destruct (Forall_lookup_1 _ _ _ _ (dok_broods _ _ _ _ Hl) Ed) as [|Ha]; [done|].
    destruct (Forall_lookup_1 _ _ _ _ (used_nonblock lev bd Ha) Hbd). congruence. }
  apply (used_at lev bd _ b Hpr) in Hbd as [Hbo Ho].
  pose proof (pos_inside k) as Hin. rewrite bool_decide_true in Hin by done. apply Z.ltb_lt in Hin. rewrite (dok_capacity _ _ _ _ Hl) in Hin.
  destruct (mortonize_surj DIM HD 16 (coarser lev) (pos k).1 (morton16 DIM HD) ltac:(unfold coarser; lia)) as (q & Hq & Eq); [cbn in *; lia|].
  destruct (place_child lev q _ (proj1 Hr) Hq Ho) as (Hg & Hh & Hi).
  assert (Dense_pt DIM t (pos k) = child_pt q (pos k).2) as ->.
  { unfold Dense_pt. rewrite <- Eq. by apply (ok_reconstruct _ _ _ (dense_brood_ok DIM t HD lev l Hl) q _ Hq (proj1 Ho)). }
  cbn [snd pos] in *. rewrite Hh, Hi. split_and!; [done| |done|done].
  destruct (dense_place DIM t HD lev l _ Hl Hg) as (Hba & Hof & _). unfold Dense_get, Dense_at. rewrite Hba, Hof, Hh, Hi.
  change (convertPoint (dense_brood DIM t) q) with (mortonize 16 q). rewrite Eq. cbn. rewrite zlookup_of_nat, Ed. cbn. rewrite Hbo. cbn. by rewrite Hb.
Qed.

Lemma dense_mem p b : (p, b) ∈ List.filter at_block trail <-> in_grid lev p /\ Dense_get DIM t l p = Some b.
Proof using HD Hl.
  rewrite elem_of_filter_b. unfold trail at 1. rewrite elem_of_lookup_imap. unfold at_block. cbn [snd]. split.
  - intros [Hb (k & b' & [= -> ->] & Hk)]. by destruct (trail_point k b' Hk Hb) as (? & ? & _).
  - intros [Hp Hb]. pose proof (Dense_valid DIM t HD lev l p b Hl Hp Hb) as Hv. split; [by apply valid_block|].
    destruct (dense_sibling DIM t HD lev l p p b Hl Hp Hp eq_refl Hb) as (bd & Hbd & Hpr & E). rewrite Hb in E.
    destruct (child_index_place DIM HD lev p Hp) as [Hi H0]. pose proof (zlookup_Some_bounds _ _ _ Hbd) as Hk0.
    set (i := Z.to_nat (convertPoint (dense_brood DIM t) (halve p))) in *. set (o := Z.to_nat (child_index p)).
    assert (o < width lev)%nat as Ho.
    { pose proof (SIZE_brood DIM). subst o. unfold width. destruct (Z.eqb_spec lev 0) as [El|]; [rewrite H0 by done|]; lia. }
    exists (i * width lev + o)%nat, b. assert (places !! (i * width lev + o)%nat = Some b) as Hpl.
    { unfold places. rewrite (lookup_join_div (width lev)), list_lookup_fmap by (lia || apply used_lengths).
      rewrite Nat.div_add_l, Nat.div_small, Nat.add_0_r by lia. rewrite Nat.add_comm, Nat.Div0.mod_add, Nat.mod_small by lia.
      rewrite zlookup_to_nat in Hbd by lia. fold i in Hbd. rewrite Hbd. cbn. apply (used_at lev bd o b Hpr). subst o. by rewrite Z2Nat.id by lia. }
    assert (pos (i * width lev + o) = (Z.of_nat i, Z.of_nat o)) as Ep.
    { unfold pos. rewrite Nat.div_add_l, Nat.div_small, Nat.add_0_r by lia.
      by rewrite Nat.add_comm, Nat.Div0.mod_add, Nat.mod_small by lia. }
    split; [|done]. f_equal. destruct (trail_point _ b Hpl (valid_block b Hv)) as (Hg & _ & Hh & Hc).
    rewrite Ep. rewrite Ep in Hg, Hh, Hc. cbn [fst snd] in Hh, Hc.
    apply (same_place DIM HD lev); [done|done| |subst o; lia].
    apply (ok_inj _ _ _ (dense_brood_ok DIM t HD lev l Hl)); [apply in_grid_halve; [apply Hl|done]..|]. rewrite Hh. subst i. lia.
Qed.

Lemma dense_nodup : NoDup (List.filter at_block trail).
Proof using HD Hl.
  apply NoDup_filter_imap. intros k1 k2 b1 b2 Hk1 Hk2 Hb1 Hb2 [= E _].
  destruct (trail_point k1 b1 Hk1 Hb1) as (_ & _ & H1 & I1), (trail_point k2 b2 Hk2 Hb2) as (_ & _ & H2 & I2).
  rewrite E in H1, I1. rewrite H2 in H1. rewrite I2 in I1. unfold pos in *. cbn in *. pose proof (width_pos lev).
  rewrite (Nat.div_mod_eq k1 (width lev)), (Nat.div_mod_eq k2 (width lev)). nia.
Qed.

End Dense.

(** ** A level of any kind *)

Lemma level_trace lev l : lev_ok DIM t lev l ->
  exists tr, lev_iterate DIM t l = Some tr /\ NoDup tr /\
    (forall p b, (p, b) ∈ tr <-> in_grid lev p /\ lev_get DIM t l p = Some b) /\
    lev_numBlocks DIM l = Z.of_nat (length tr) /\
    lev_numLeafBlocks l = Z.of_nat (length (List.filter isLeaf tr.*2)).
Proof using HD.
  destruct l as [l|w l|l]; cbn; intros Hl.
  - exists (List.filter at_block (trail lev l)). destruct (dense_counts lev l Hl).
    split_and!; [by apply dense_iterate|by apply dense_nodup|by apply dense_mem|done|done].
  - exists (Sparse_iterate (MortonBrood DIM w t) l). destruct (sparse_counts _ lev l Hl).
    split_and!; [done|by eapply sparse_nodup|intros; by apply sparse_mem|done|done].
  - exists (Sparse_iterate PointBrood l). destruct (sparse_counts _ lev l Hl).
    split_and!; [done|by eapply sparse_nodup|intros; by apply sparse_mem|done|done].
Qed.

Lemma internal_count (l : OctreeLevel B) tr :
  lev_numBlocks DIM l = Z.of_nat (length tr) -> lev_numLeafBlocks l = Z.of_nat (length (List.filter isLeaf tr)) ->
  lev_numInternalBlocks DIM l = Z.of_nat (length (List.filter (fun b => negb (isLeaf b)) tr)).
Proof using HD.
  intros H1 H2. pose proof (filter_split isLeaf tr). destruct l; cbn in *;
    unfold Dense_numInternalBlocks, Sparse_numInternalBlocks; lia.
Qed.

End Iteration.
End OctreeIteration.
