(* ===== verification/OctreeTheorems.v ===== *)
(** * Theorems on octrees

    Which octrees the operations reach, the leaf that covers a block or a point, and the
    laws of block indices. *)

From S2P Require Import Prelude Morton OctreeBlocks OctreeLevels Octree OctreeBlockProofs OctreeLevelProofs OctreeProofs OctreeIteration.
From Stdlib Require Import QArith.

Module OctreeTheorems.
Import Morton OctreeBlocks OctreeLevels Octree OctreeBlockProofs OctreeLevelProofs OctreeProofs OctreeIteration.
#[local] Open Scope Z_scope.

Section Tree.
Context (DIM : nat) (HD : DIM = 2%nat \/ DIM = 3%nat).
Context (t : CoordType) {B : Type} `{HBL : BlockDataLaws B}.
Implicit Types (o : OctreeBase B) (b : BlockIndex) (d : B).

Notation cell := (cell DIM t).
Notation deepest := (deepest t).
Notation tree_ok := (tree_ok DIM t).
Notation block := (block DIM t).
Notation internal := (internal DIM t).

(** ** Ancestors *)

Definition ancestor (n : nat) b : BlockIndex := Nat.iter n parent b.

Lemma ancestor_cell n b : cell b -> Z.of_nat n <= level b -> cell (ancestor n b) /\ level (ancestor n b) = level b - Z.of_nat n.
Proof.
  intros Hb. induction n as [|n IH]; intros Hn.
  - split; [done|]. change (ancestor 0 b) with b. lia.
  - destruct IH as [Hc Hl]; [lia|]. change (ancestor (S n) b) with (parent (ancestor n b)).
    assert (0 < level (ancestor n b)) by lia.
    split; [by apply (parent_cell DIM HD t (ancestor n b))|]. unfold parent, parentLevel. cbn [level]. lia.
Qed.

Lemma ancestor_succ n b : ancestor (S n) b = ancestor n (parent b).
Proof. unfold ancestor. by rewrite Nat.iter_succ_r. Qed.

Lemma isDescendantOf_spec a b : cell a -> cell b ->
  isDescendantOf b a = true <-> exists n, Z.of_nat n <= level b /\ a = ancestor n b.
Proof.
  intros Ha Hb. unfold isDescendantOf. pose proof (proj1 (proj1 Ha)). pose proof (proj1 (proj1 Hb)).
  destruct (Z.ltb_spec (level b) 0); [lia|]. destruct (Z.ltb_spec (level a) 0); [lia|]. rewrite !orb_false_r.
  fold (ancestor (Z.to_nat (level b - level a)) b). destruct (Z.ltb_spec (level b - level a) 0) as [Hlt|Hge]; cbn.
  - split; [done|]. intros (n & Hn & ->). destruct (ancestor_cell n b Hb Hn). lia.
  - unfold pt_eqb. rewrite bool_decide_eq_true.
    destruct (ancestor_cell (Z.to_nat (level b - level a)) b Hb) as [_ Hl]; [lia|]. split.
    + intros E. exists (Z.to_nat (level b - level a)). split; [lia|].
      destruct a, (ancestor _ b); cbn in *. f_equal; [done|lia].
    + intros (n & Hn & ->). destruct (ancestor_cell n b Hb Hn) as [_ Hl']. do 2 f_equal. lia.
Qed.

(** Proper ancestors of a block of the tree are internal. *)
Lemma ancestors_internal o b n : tree_ok o -> cell b -> is_Some (block o b) ->
  (0 < n)%nat -> Z.of_nat n <= level b -> internal o (ancestor n b).
Proof.
  intros Ho Hb Hs. induction n as [|n IH]; intros Hn0 Hn; [lia|]. destruct (ancestor_cell n b Hb) as [Hc Hl]; [lia|].
  apply (tk_children DIM t o Ho _ Hc); [lia|]. destruct n as [|n]; [done|]. destruct IH as (d & -> & _); [lia..|]. by eexists.
Qed.

Lemma leaf_not_internal o b d : block o b = Some d -> isLeaf d = true -> ~ internal o b.
Proof. intros Hd Hl (d' & Hd' & Hl'). congruence. Qed.

Lemma leaf_ancestor_unique o b n m d d' : tree_ok o -> cell b -> Z.of_nat n <= level b -> Z.of_nat m <= level b ->
  block o (ancestor n b) = Some d -> isLeaf d = true -> block o (ancestor m b) = Some d' -> isLeaf d' = true -> n = m.
Proof.
  intros Ho Hb. assert (forall n m d d', Z.of_nat n <= level b -> Z.of_nat m <= level b -> block o (ancestor n b) = Some d ->
    block o (ancestor m b) = Some d' -> isLeaf d' = true -> (m <= n)%nat) as Hle.
  { intros n' m' e e' Hn Hm He He' Hl'. destruct (decide (m' <= n')%nat) as [|Hlt]; [done|]. exfalso.
    destruct (ancestor_cell n' b Hb Hn) as [Hc Hl]. apply (leaf_not_internal o _ _ He' Hl').
    replace (ancestor m' b) with (ancestor (m' - n') (ancestor n' b)).
    - apply ancestors_internal; [done|done|by eexists|lia|lia].
    - unfold ancestor. rewrite <- Nat.iter_add. f_equal. lia. }
  intros Hn Hm Hd Hl Hd' Hl'. pose proof (Hle n m d d'). pose proof (Hle m n d' d). naive_solver lia.
Qed.

(** ** The covering leaf *)

Lemma nearest_spec o fuel b : tree_ok o -> cell b -> level b < Z.of_nat fuel ->
  exists n, nearest_ancestor DIM t fuel o b = Some (ancestor n b) /\ Z.of_nat n <= level b /\
    is_Some (block o (ancestor n b)) /\ (n <> O -> block o (ancestor (pred n) b) = None).
Proof using HD.
  intros Ho. revert b. induction fuel as [|fuel IH]; intros b Hb Hf; [destruct Hb; lia|]. cbn.
  rewrite (hasBlock_spec DIM HD t o b (tk_store DIM t o Ho) Hb). cbn. case_bool_decide as Hs.
  - exists O. split_and!; [done|destruct Hb; lia|done|done].
  - assert (0 < level b) as H0.
    { destruct (decide (level b = 0)) as [E|]; [|destruct Hb; lia]. apply (level0_root DIM t b Hb) in E as ->.
      destruct Hs. apply Ho. }
    destruct (parent_cell DIM HD t b Hb H0) as [Hp _].
    destruct (IH (parent b) Hp) as (n & E & Hn & Hsome & Hprev); [unfold parent, parentLevel; cbn; lia|].
    exists (S n). rewrite !ancestor_succ. split_and!; [done|unfold parent, parentLevel in Hn; cbn in Hn; lia|done|].
    intros _. change (Nat.pred (S n)) with n. destruct n as [|n]; [by apply eq_None_not_Some|]. rewrite ancestor_succ. by apply Hprev.
Qed.

(** A block that is not internal has a leaf among itself and its ancestors. *)
Lemma covering_spec o b : tree_ok o -> cell b -> ~ internal o b ->
  exists n d, coveringLeafBlock DIM t o b true = Some (ancestor n b) /\ Z.of_nat n <= level b /\
    block o (ancestor n b) = Some d /\ isLeaf d = true.
Proof using HD.
  intros Ho Hb Hni. pose proof (tk_store DIM t o Ho) as Hs. unfold coveringLeafBlock, octree_inBounds, block_inBounds, maxCoordAtLevel.
  rewrite (cell_valid_level DIM HD t b Hb). rewrite decide_True by (destruct Hb; unfold OctreeProofs.deepest in *; lia). cbn -[Z.shiftl].
  rewrite (in_grid_inBounds DIM HD (level b)) by apply Hb. cbn. rewrite (blockStatus_spec DIM HD t o b Hs Hb). cbn.
  destruct (block o b) as [d|] eqn:E; cbn.
  - destruct (isLeaf d) eqn:El; [|destruct Hni; by exists d]. exists O, d. split_and!; [done|destruct Hb; lia|done|done].
  - assert (0 < level b) as H0.
    { destruct (decide (level b = 0)) as [El|]; [|destruct Hb; lia]. apply (level0_root DIM t b Hb) in El as ->.
      destruct (tk_root DIM t o Ho). congruence. }
    destruct (parent_cell DIM HD t b Hb H0) as [Hp _].
    destruct (nearest_spec o (S (Z.to_nat (level b))) (parent b) Ho Hp) as (n & En & Hn & [d Hd] & Hprev).
    { unfold parent, parentLevel. cbn. lia. }
    exists (S n), d. rewrite ancestor_succ. split_and!; [done|unfold parent, parentLevel in Hn; cbn in Hn; lia|done|].
    destruct (isLeaf d) eqn:El; [done|]. exfalso. rewrite <- ancestor_succ in Hd. cbn in Hd. fold (ancestor n b) in Hd.
    destruct (ancestor_cell n b Hb) as [Hc Hl]; [unfold parent, parentLevel in Hn; cbn in Hn; lia|].
    assert (block o (ancestor n b) = None) as HN.
    { destruct n as [|n]; [done|]. rewrite ancestor_succ. by apply Hprev. }
    assert (is_Some (block o (ancestor n b))) as [? ?]; [|congruence].
    apply (tk_children DIM t o Ho _ Hc); [unfold parent, parentLevel in Hn; cbn in Hn; lia|]. by exists d.
Qed.

Lemma covering_internal o b : tree_ok o -> cell b -> internal o b ->
  coveringLeafBlock DIM t o b true = Some (invalid_index DIM).
Proof using HD.
  intros Ho Hb Hi. pose proof (tk_store DIM t o Ho) as Hs. unfold coveringLeafBlock, octree_inBounds, block_inBounds, maxCoordAtLevel.
  rewrite (cell_valid_level DIM HD t b Hb). rewrite decide_True by (destruct Hb; unfold OctreeProofs.deepest in *; lia). cbn -[Z.shiftl].
  rewrite (in_grid_inBounds DIM HD (level b)) by apply Hb. cbn. rewrite (blockStatus_spec DIM HD t o b Hs Hb). cbn.
  by rewrite (proj2 (internal_status DIM t o b) Hi).
Qed.

(** ** Cells of a point in space *)

Definition in_unit (q : Q) : Prop := 0 <= Qnum q <= Z.pos (Qden q).

(** The coordinate of a point of the unit interval at a level. *)
Definition coord (q : Q) (lev : Z) : Z := Z.min (Qnum q * 2 ^ lev / Z.pos (Qden q)) (2 ^ lev - 1).

Lemma coord_half q lev : 0 <= lev -> coord q (lev + 1) / 2 = coord q lev.
Proof.
  intros Hl. unfold coord. rewrite Z.pow_add_r, Z.pow_1_r by lia. pose proof (Z.pow_pos_nonneg 2 lev).
  assert (Qnum q * (2 ^ lev * 2) / Z.pos (Qden q) / 2 = Qnum q * 2 ^ lev / Z.pos (Qden q)) as E.
  { rewrite Z.div_div by lia. rewrite Z.mul_assoc. by rewrite Z.div_mul_cancel_r by lia. }
  rewrite <- E. clear E. Z.div_mod_to_equations. lia.
Qed.

Lemma coord_range q lev : 0 <= lev -> in_unit q -> in_word lev (coord q lev).
Proof.
  intros Hl Hq. unfold coord, in_word. pose proof (Z.pow_pos_nonneg 2 lev).
  assert (0 <= Qnum q * 2 ^ lev / Z.pos (Qden q)) by (apply Z.div_pos; unfold in_unit in Hq; nia). lia.
Qed.

Lemma cell_at x lev : 0 <= lev < digits t -> Forall in_unit x ->
  findGridCellAtLevel t x lev = Some ((fun q => coord q lev) <$> x).
Proof.
  intros Hl Hx. unfold findGridCellAtLevel, maxCoordAtLevel. rewrite decide_True by done. cbn -[Z.shiftl].
  apply mapM_Some. apply Forall2_fmap_r, Forall_Forall2_diag. eapply Forall_impl; [done|]. intros [n dn] Hq.
  unfold in_unit in Hq. unfold quantize, coord. cbn [Qnum Qden Qmult inject_Z] in *. rewrite Pos.mul_1_r.
  pose proof (Z.pow_pos_nonneg 2 lev). rewrite Z.quot_div_nonneg by nia. rewrite Z.shiftl_1_l.
  assert (0 <= n * 2 ^ lev / Z.pos dn <= 2 ^ lev).
  { split; [apply Z.div_pos; nia|]. apply Z.div_le_upper_bound; [done|nia]. }
  assert (2 ^ lev < 2 ^ digits t) by (apply Z.pow_lt_mono_r; lia). rewrite decide_True by lia. done.
Qed.

Definition cell_of (x : list Q) (lev : Z) : BlockIndex := mkBlockIndex ((fun q => coord q lev) <$> x) lev.

Lemma cell_of_cell x lev : 0 <= lev <= deepest -> length x = DIM -> Forall in_unit x -> cell (cell_of x lev).
Proof.
  intros Hl Hlen Hx. split; [done|]. split; [cbn; by rewrite length_fmap|].
  apply Forall_fmap. eapply Forall_impl; [done|]. intros q Hq. apply coord_range; [lia|done].
Qed.

Lemma cell_of_parent x lev : 0 <= lev -> lev + 1 <= deepest -> length x = DIM -> Forall in_unit x ->
  parent (cell_of x (lev + 1)) = cell_of x lev.
Proof using HD.
  intros Hl Hd Hlen Hx. assert (cell (cell_of x (lev + 1))) as Hc by (apply cell_of_cell; [lia|done..]).
  destruct (parent_cell DIM HD t _ Hc) as [_ Hp]; [cbn; lia|]. destruct (parent _) as [p l] eqn:E. cbn in Hp.
  assert (l = lev) as -> by (apply (f_equal level) in E; unfold parent, parentLevel in E; cbn in E; lia).
  unfold cell_of. f_equal. rewrite Hp. unfold halve. rewrite <- list_fmap_compose. apply list_fmap_ext. intros i q _. by apply coord_half.
Qed.

Lemma cell_of_ancestor x lev (n : nat) : 0 <= lev - Z.of_nat n -> lev <= deepest -> length x = DIM -> Forall in_unit x ->
  ancestor n (cell_of x lev) = cell_of x (lev - Z.of_nat n).
Proof using HD.
  intros Hn Hl Hlen Hx. induction n as [|n IH].
  - by rewrite Z.sub_0_r.
  - change (ancestor (S n) _) with (parent (ancestor n (cell_of x lev))). rewrite IH by lia.
    replace (lev - Z.of_nat n) with (lev - Z.of_nat (S n) + 1) by lia. apply cell_of_parent; [lia..|done|done].
Qed.

(** Along the levels, the cells of a point are internal, then a leaf, then not in the tree. *)
Lemma leaf_level o x : tree_ok o -> 0 < digits t -> length x = DIM -> Forall in_unit x ->
  exists L, 0 <= L <= deepest /\ forall lev, 0 <= lev < digits t ->
    blockStatus DIM t o (cell_of x lev) =
      Some (if lev <? L then InternalBlock else if lev =? L then LeafBlock else BlockNotInTree).
Proof using HD.
  intros Ho Hdig Hlen Hx. pose proof (tk_store DIM t o Ho) as Hs.
  assert (0 <= deepest) as Hd0 by (unfold OctreeProofs.deepest; lia).
  assert (cell (cell_of x deepest)) as Hc by (by apply cell_of_cell).
  destruct (covering_spec o (cell_of x deepest) Ho Hc) as (n & d & _ & Hn & Hd & Hleaf).
  { intros Hi. apply (tk_internal DIM t o Ho _ Hc) in Hi. cbn in Hi. lia. }
  cbn in Hn. rewrite cell_of_ancestor in Hd by (done || lia). exists (deepest - Z.of_nat n). set (L := deepest - Z.of_nat n) in *.
  split; [lia|]. intros lev Hlev. destruct (decide (deepest < lev)) as [Hb|Hb].
  { rewrite (proj2 (Z.ltb_ge _ _)), (proj2 (Z.eqb_neq _ _)) by lia. unfold blockStatus, isLevelValid, maxLeafLevel. cbn [level cell_of].
    rewrite (proj2 (Z.leb_le _ _)), (proj2 (Z.leb_le _ _)) by lia. cbn. unfold cast_level.
    pose proof (so_length DIM t o Hs). destruct (zlookup_lt (m_leavesLevelMap o) lev) as [l El]; [lia|].
    destruct (so_beyond DIM t o Hs lev l Hb El) as [Hty Hst]. unfold getOctreeLevel. rewrite El. cbn. rewrite Hty. apply Hst. }
  assert (cell (cell_of x lev)) as Hcl by (apply cell_of_cell; [lia|done..]).
  rewrite (blockStatus_spec DIM HD t o _ Hs Hcl). f_equal. destruct (Z.ltb_spec lev L) as [Hlt|Hge].
  - apply internal_status. replace (cell_of x lev) with (ancestor (Z.to_nat (L - lev)) (cell_of x L)).
    + apply ancestors_internal; [done|apply cell_of_cell; [lia|done..]|by eexists|lia|cbn; lia].
    + rewrite cell_of_ancestor by (done || lia). f_equal. lia.
  - destruct (Z.eqb_spec lev L) as [->|Hne]; [apply leaf_status; by exists d|].
    apply absent_status, eq_None_not_Some. intros Hsome.
    apply (leaf_not_internal o _ _ Hd Hleaf). replace (cell_of x L) with (ancestor (Z.to_nat (lev - L)) (cell_of x lev)).
    + apply ancestors_internal; [done|done|done|lia|cbn; lia].
    + rewrite cell_of_ancestor by (done || lia). f_equal. lia.
Qed.

(** The search keeps the level of the leaf in its interval. *)
Lemma find_loop_spec o x L fuel minLev maxLev lev :
  Forall in_unit x ->
  (forall lev, 0 <= lev < digits t -> blockStatus DIM t o (cell_of x lev) =
     Some (if lev <? L then InternalBlock else if lev =? L then LeafBlock else BlockNotInTree)) ->
  0 <= minLev <= L -> L <= maxLev <= digits t -> L < digits t -> minLev <= lev <= maxLev -> lev < digits t ->
  maxLev - minLev < Z.of_nat fuel ->
  find_loop DIM t fuel o x minLev maxLev lev = Some (cell_of x L).
Proof.
  intros Hx Hst. revert minLev maxLev lev. induction fuel as [|fuel IH]; intros minLev maxLev lev Hmin Hmax HL Hlev Hlt Hf; [lia|].
  cbn -[Z.shiftr Z.ltb Z.sub Z.add]. destruct (Z.ltb_spec maxLev minLev); [lia|]. rewrite cell_at by (done || lia). cbn -[Z.shiftr Z.ltb Z.sub Z.add].
  fold (cell_of x lev). rewrite (Hst lev) by lia. cbn -[Z.shiftr Z.ltb Z.sub Z.add].
  destruct (Z.ltb_spec lev L); [|destruct (Z.eqb_spec lev L) as [->|]; [done|]].
  all: apply IH; try lia; rewrite Z.shiftr_div_pow2 by lia; change (2 ^ 1) with 2; Z.div_mod_to_equations; lia.
Qed.

Lemma find_leaf_spec o x start L : 0 < digits t -> Forall in_unit x ->
  start = -1 \/ 0 <= start < digits t -> 0 <= L <= deepest ->
  (forall lev, 0 <= lev < digits t -> blockStatus DIM t o (cell_of x lev) =
     Some (if lev <? L then InternalBlock else if lev =? L then LeafBlock else BlockNotInTree)) ->
  findLeafBlock DIM t o x start = Some (cell_of x L).
Proof using HD.
  intros Hdig Hx Hstart HL Hst. assert (L < digits t) by (unfold OctreeProofs.deepest in HL; lia).
  unfold findLeafBlock, maxLeafLevel. eapply find_loop_spec; [done|done|lia..| | |lia].
  all: destruct (Z.eqb_spec start (-1)); [|lia]; rewrite Z.shiftr_div_pow2 by lia; change (2 ^ 1) with 2; Z.div_mod_to_equations; lia.
Qed.

Lemma child_of_parent b c : cell b -> cell c -> 0 < level c -> parent c = b -> c = child b (child_index (pt c)).
Proof using HD.
  intros Hb Hc H0 Hp. destruct (proj1 (child_iff DIM HD t b c Hb Hc) (conj H0 Hp)) as [Hl Hh].
  destruct c as [p lev]. unfold child. cbn in *. f_equal; [|done]. change (p = child_pt (pt b) (child_index p)).
  rewrite <- Hh. symmetry. by apply (child_of_halve DIM HD lev), Hc.
Qed.

(** ** Octrees that the operations reach *)

(** A new octree, leaves refined while their children are at exact levels, and data
    written to blocks without changing whether they are leaves. *)
Inductive reachable : OctreeBase B -> Prop :=
  | reach_new g o : gen_ok g -> OctreeBase_new DIM t g = Some o -> reachable o
  | reach_refine o b o' : reachable o -> cell b -> level b < deepest ->
      octree_isLeaf DIM t o b = Some true -> refineLeaf DIM t o b = Some o' -> reachable o'
  | reach_write o b f o' : reachable o -> cell b -> hasBlock DIM t o b = Some true ->
      (forall d, valid d -> valid (f d) /\ isLeaf (f d) = isLeaf d) ->
      octree_update DIM t o b f = Some o' -> reachable o'.

Lemma isLeaf_block o b : tree_ok o -> cell b -> octree_isLeaf DIM t o b = Some true ->
  exists d, block o b = Some d /\ isLeaf d = true.
Proof using HD.
  intros Ho Hb. rewrite (isLeaf_spec DIM HD t o b (tk_store DIM t o Ho) Hb).
  intros [= H%bool_decide_eq_true]. by apply leaf_status.
Qed.

Lemma hasBlock_block o b : tree_ok o -> cell b -> hasBlock DIM t o b = Some true -> is_Some (block o b).
Proof using HD.
  intros Ho Hb. rewrite (hasBlock_spec DIM HD t o b (tk_store DIM t o Ho) Hb). by intros [= H%bool_decide_eq_true].
Qed.

Lemma reachable_ok o : 0 < digits t -> reachable o -> tree_ok o.
Proof using HD.
  intros Hdig. induction 1 as [g o Hg E|o b o' _ Ho Hb Hl Hleaf E|o b f o' _ Ho Hb Hh Hf E].
  - by destruct (new_spec DIM HD t g o Hdig Hg E) as (d & Hok & _).
  - destruct (isLeaf_block o b Ho Hb Hleaf) as (d & Hd & Hdl).
    by destruct (refine_spec DIM HD t o b d o' Ho Hb Hd Hdl Hl E) as (d' & Hok & _).
  - destruct (hasBlock_block o b Ho Hb Hh) as [d Hd]. pose proof (block_valid DIM HD t o b d (tk_store DIM t o Ho) Hb Hd) as Hv.
    destruct (Hf d Hv) as [Hv' Hl'].
    destruct (update_spec DIM HD t o b d f Ho Hb Hd Hv' Hl') as (o'' & E' & Hok & _). congruence.
Qed.

Lemma leaf_true o b d : tree_ok o -> cell b -> block o b = Some d -> isLeaf d = true -> octree_isLeaf DIM t o b = Some true.
Proof using HD.
  intros Ho Hb Hd Hl. rewrite (isLeaf_spec DIM HD t o b (tk_store DIM t o Ho) Hb). f_equal. apply bool_decide_eq_true.
  apply leaf_status. by exists d.
Qed.

End Tree.

(** ** The order of blocks and their neighbours *)

Lemma pt_ltb_irrefl p : pt_ltb p p = false.
Proof. induction p as [|x p IH]; [done|]. cbn. by rewrite Z.ltb_irrefl. Qed.

Lemma pt_ltb_trans p q r : pt_ltb p q = true -> pt_ltb q r = true -> pt_ltb p r = true.
Proof.
  revert q r. induction p as [|x p IH]; intros [|y q] [|z r]; try done. cbn.
  repeat case_zbool; try done; try lia. apply IH.
Qed.

Lemma pt_ltb_total p q : length p = length q -> p <> q -> pt_ltb p q = true \/ pt_ltb q p = true.
Proof.
  revert q. induction p as [|x p IH]; intros [|y q]; try done. cbn. intros [= Hlen] Hne.
  repeat case_zbool; try lia. assert (x = y) as -> by lia. apply IH; [done|congruence].
Qed.

Lemma block_ltb_irrefl a : block_ltb a a = false.
Proof. unfold block_ltb. by rewrite Z.ltb_irrefl, pt_ltb_irrefl. Qed.

Lemma block_ltb_trans a b c : block_ltb a b = true -> block_ltb b c = true -> block_ltb a c = true.
Proof. unfold block_ltb. repeat case_zbool; try done; try lia. apply pt_ltb_trans. Qed.

Lemma block_ltb_total a b : length (pt a) = length (pt b) -> a <> b -> block_ltb a b = true \/ block_ltb b a = true.
Proof.
  unfold block_ltb. intros Hlen Hne. repeat case_zbool; try lia.
  apply pt_ltb_total; [done|]. intros E. apply Hne. destruct a, b; cbn in *. f_equal; [done|lia].
Qed.

Lemma zip_add_offset (p : GridPt) (k : nat) (e : Z) : (k < length p)%nat ->
  zip_with Z.add p (<[k := e]> (replicate (length p) 0)) = alter (Z.add e) k p.
Proof.
  revert k. induction p as [|x p IH]; intros k Hk; [cbn in Hk; lia|]. destruct k as [|k]; cbn.
  - f_equal; [lia|]. clear. induction p as [|y p IH]; [done|]. cbn. f_equal; [lia|done].
  - f_equal; [lia|]. apply IH. cbn in Hk. lia.
Qed.

Lemma faceNeighbor_spec DIM b n : length (pt b) = DIM -> 0 <= n < NUM_FACE_NEIGHBORS DIM ->
  faceNeighbor DIM b n =
    Some (mkBlockIndex (alter (Z.add (if n mod 2 =? 0 then -1 else 1)) (Z.to_nat (n / 2)) (pt b)) (level b)).
Proof.
  unfold NUM_FACE_NEIGHBORS. intros <- Hn. unfold faceNeighbor, GridPt_zero, neighborPt.
  rewrite Z.quot_div_nonneg, Z.rem_mod_nonneg by lia.
  assert (0 <= n / 2 < Z.of_nat (length (pt b))) by (Z.div_mod_to_equations; lia).
  rewrite zupdate_lt by (by rewrite length_replicate). cbn -[Z.modulo Z.div Z.eqb]. rewrite zip_add_offset by lia. done.
Qed.

Lemma lxor_1 n : 0 <= n -> Z.lxor n 1 = if n mod 2 =? 0 then n + 1 else n - 1.
Proof.
  intros Hn. rewrite (Z.div_mod n 2) at 1 by lia. pose proof (Z.mod_pos_bound n 2 ltac:(lia)).
  assert (forall a, Z.lxor (2 * a) 1 = 2 * a + 1) as H0.
  { intros a. rewrite <- Z.add_nocarry_lxor; [done|]. rewrite land_1. by rewrite Z.mul_comm, Z.mod_mul. }
  destruct (Z.eqb_spec (n mod 2) 0) as [E|E].
  - rewrite E, Z.add_0_r, H0. Z.div_mod_to_equations; lia.
  - assert (n mod 2 = 1) as E1 by lia. rewrite E1, <- H0, Z.lxor_assoc, Z.lxor_nilpotent, Z.lxor_0_r. Z.div_mod_to_equations; lia.
Qed.

Lemma faceNeighbor_back DIM b n : length (pt b) = DIM -> 0 <= n < NUM_FACE_NEIGHBORS DIM ->
  exists b', faceNeighbor DIM b n = Some b' /\ b' <> b /\ level b' = level b /\ faceNeighbor DIM b' (Z.lxor n 1) = Some b.
Proof.
  intros Hlen Hn. rewrite (faceNeighbor_spec DIM b n) by done. eexists. split; [done|].
  unfold NUM_FACE_NEIGHBORS in Hn. set (k := Z.to_nat (n / 2)). set (e := if n mod 2 =? 0 then -1 else 1).
  assert (k < length (pt b))%nat as Hk by (subst k; Z.div_mod_to_equations; lia).
  destruct (lookup_lt_is_Some_2 (pt b) k Hk) as [x Hx]. split_and!; [|done|].
  - intros E. apply (f_equal pt) in E. cbn in E. apply (f_equal (lookup k)) in E. rewrite list_lookup_alter_eq, Hx in E.
    injection E as E. subst e. case_match; lia.
  - assert (0 <= Z.lxor n 1 < NUM_FACE_NEIGHBORS DIM /\ Z.lxor n 1 / 2 = n / 2 /\ (Z.lxor n 1 mod 2 =? 0) = negb (n mod 2 =? 0)) as (Hr & Hd & Hm).
    { unfold NUM_FACE_NEIGHBORS. rewrite lxor_1 by lia. destruct (Z.eqb_spec (n mod 2) 0); cbn;
        rewrite ?Z.eqb_eq, ?Z.eqb_neq; Z.div_mod_to_equations; lia. }
    rewrite faceNeighbor_spec; [|cbn; by rewrite length_alter|done]. rewrite Hd, Hm. fold k. cbn.
    destruct b as [p lev]. cbn in *. do 2 f_equal. apply list_eq. intros i. destruct (decide (k = i)) as [<-|Hne].
    + rewrite !list_lookup_alter_eq, Hx. cbn. f_equal. subst e. destruct (n mod 2 =? 0); cbn; lia.
    + by rewrite !list_lookup_alter_ne.
Qed.

(** ** Properties *)

(** C16: The octrees that are built within the exact levels are trees.  The exact levels
    are those of the level array, but at most 53, to which coordinates survive the
    conversion to [double].  In two or three dimensions, take an octree that is new, or
    comes from such an octree by refining a leaf above the deepest exact level, or by
    changing the data of a block so that it stays valid (for [BlockData], an id other than
    0 and -1) and stays a leaf or not a leaf; these operations are taken to have
    succeeded, so the [int] counter of ids has not run out.  Then the root is a block, and
    for every block index of a grid at an exact level all queries are defined and agree
    with each other, a block other than the root is in the tree exactly when its parent
    is an internal block, and no block of the deepest exact level is internal. *)
Theorem octree_invariant DIM (t : CoordType) {B : Type} `{HBL : BlockDataLaws B} (o : OctreeBase B) :
  DIM = 2%nat \/ DIM = 3%nat -> 0 < digits t -> reachable DIM t o ->
  hasBlock DIM t o (root DIM) = Some true /\
  forall b, cell DIM t b ->
    (exists s, blockStatus DIM t o b = Some s /\
       hasBlock DIM t o b = Some (bool_decide (s <> BlockNotInTree)) /\
       octree_isLeaf DIM t o b = Some (bool_decide (s = LeafBlock)) /\
       octree_isInternal DIM t o b = Some (bool_decide (s = InternalBlock)) /\
       (s <> BlockNotInTree -> exists d, octree_at DIM t o b = Some d /\ isBlock d = true /\
          bool_decide (s = LeafBlock) = isLeaf d)) /\
    (0 < level b -> hasBlock DIM t o b = octree_isInternal DIM t o (parent b)) /\
    (level b = deepest t -> octree_isInternal DIM t o b = Some false).
Proof.
  intros HD Hdig Hr. pose proof (reachable_ok DIM HD t o Hdig Hr) as Ho. pose proof (tk_store DIM t o Ho) as Hs. split.
  { rewrite (hasBlock_spec DIM HD t o _ Hs (root_cell DIM HD t Hdig)). by rewrite bool_decide_true by apply Ho. }
  intros b Hb. split; [|split].
  - exists (status (block DIM t o b)).
    rewrite (blockStatus_spec DIM HD t o b Hs Hb), (hasBlock_spec DIM HD t o b Hs Hb), (isLeaf_spec DIM HD t o b Hs Hb),
      (isInternal_spec DIM HD t o b Hs Hb). split_and!; [done| |done|done|].
    + f_equal. apply bool_decide_ext. rewrite absent_status. destruct (block DIM t o b); split; [done|by eexists|by intros []|done].
    + rewrite absent_status. intros Hne. destruct (block DIM t o b) as [d|] eqn:E; [|done]. exists d. split_and!.
      * by apply (octree_at_spec DIM HD t o b d Hs Hb).
      * apply valid_block. by apply (block_valid DIM HD t o b d Hs Hb).
      * cbn. by destruct (isLeaf d).
  - intros H0. destruct (parent_cell DIM HD t b Hb H0) as [Hp _].
    rewrite (hasBlock_spec DIM HD t o b Hs Hb), (isInternal_spec DIM HD t o _ Hs Hp). f_equal.
    apply bool_decide_ext. rewrite internal_status. by apply (tk_children DIM t o Ho).
  - intros El. rewrite (isInternal_spec DIM HD t o b Hs Hb). f_equal. apply bool_decide_eq_false. rewrite internal_status.
    intros Hi. apply (tk_internal DIM t o Ho b Hb) in Hi. lia.
Qed.

(** Refining a leaf above the deepest level succeeds when the counter of block ids has room
    for the data of one brood; the block becomes internal, its
    [2^DIM] children become leaves, and every other block keeps its status and data. *)
Theorem refine_leaf_correct DIM (t : CoordType) {B : Type} `{HBL : BlockDataLaws B} (o : OctreeBase B) (b : BlockIndex) :
  DIM = 2%nat \/ DIM = 3%nat -> 0 < digits t -> reachable DIM t o ->
  cell DIM t b -> level b < deepest t -> octree_isLeaf DIM t o b = Some true ->
  room (m_idGenerator o) (1 + NUM_CHILDREN DIM) ->
  exists o', refineLeaf DIM t o b = Some o' /\ reachable DIM t o' /\
    octree_isInternal DIM t o' b = Some true /\
    (forall i, 0 <= i < NUM_CHILDREN DIM ->
       octree_isLeaf DIM t o' (child b i) = Some true /\ parent (child b i) = b) /\
    (forall c, cell DIM t c -> c <> b -> (forall i, 0 <= i < NUM_CHILDREN DIM -> c <> child b i) ->
       blockStatus DIM t o' c = blockStatus DIM t o c /\
       (hasBlock DIM t o c = Some true -> octree_at DIM t o' c = octree_at DIM t o c)).
Proof.
  unfold NUM_CHILDREN. rewrite Z.shiftl_1_l. fold (brood_size DIM).
  intros HD Hdig Hr Hb Hl Hleaf Hroom. pose proof (reachable_ok DIM HD t o Hdig Hr) as Ho. pose proof (tk_store DIM t o Ho) as Hs.
  destruct (isLeaf_block DIM HD t o b Ho Hb Hleaf) as (d & Hd & Hdl).
  destruct (refine_room DIM HD t o b d Ho Hb Hd Hl Hroom) as [o' E].
  destruct (refine_spec DIM HD t o b d o' Ho Hb Hd Hdl Hl E) as (d' & Ho' & Hd' & Href).
  pose proof (tk_store DIM t o' Ho') as Hs'.
  exists o'. split_and!; [done|by eapply reach_refine| | |].
  - rewrite (isInternal_spec DIM HD t o' b Hs' Hb). f_equal. apply bool_decide_eq_true, internal_status.
    exists (setInternal d). rewrite (Href b Hb), decide_True by done. split; [done|apply internal_not_leaf].
  - intros i Hi. destruct (child_cell DIM HD t b i Hb Hl Hi) as (Hc & Hp & _). split; [|done].
    apply (leaf_true DIM HD t o' _ d'); [done|done| |done]. rewrite (Href _ Hc), decide_False.
    + rewrite decide_True; [done|]. split; [|done]. destruct Hb as [[? ?] _]. unfold child, childLevel. cbn. lia.
    + intros Eb. apply (f_equal level) in Eb. unfold child, childLevel in Eb. cbn in Eb. lia.
  - intros c Hc Hne Hnc. assert (block DIM t o' c = block DIM t o c) as Ec.
    { rewrite (Href c Hc), decide_False by done. rewrite decide_False; [done|]. intros [H0 Hp].
      apply (Hnc (child_index (pt c))); [by eapply child_index_range, Hc|]. by apply (child_of_parent DIM HD t). }
    rewrite (blockStatus_spec DIM HD t o c Hs Hc), (blockStatus_spec DIM HD t o' c Hs' Hc), Ec. split; [done|].
    intros Hh. destruct (hasBlock_block DIM HD t o c Ho Hc Hh) as [x Hx].
    rewrite (octree_at_spec DIM HD t o c x Hs Hc Hx). apply (octree_at_spec DIM HD t o' c x Hs' Hc). by rewrite Ec.
Qed.
(** C17: [coveringLeafBlock] finds the covering leaf at the exact levels, which are those of
    the level array, but at most 53.  In an octree that is built by construction,
    refinement of leaves above the deepest exact level and writes that keep block data
    valid and leaves leaves, it returns for every block index of a grid at an exact level:
    the invalid index for an internal block, and for every other one a leaf of the octree,
    equal to the block or one of its ancestors, and the only such leaf, so the leaves
    partition the domain.  For an index outside the bounds of its level, at any level of
    the level array, the answer is the invalid index. *)
Theorem covering_leaf DIM (t : CoordType) {B : Type} `{HBL : BlockDataLaws B} (o : OctreeBase B) :
  DIM = 2%nat \/ DIM = 3%nat -> 0 < digits t -> reachable DIM t o ->
  (forall b, cell DIM t b -> octree_isInternal DIM t o b = Some true ->
     coveringLeafBlock DIM t o b true = Some (invalid_index DIM)) /\
  (forall b, cell DIM t b -> octree_isInternal DIM t o b = Some false ->
     exists a, coveringLeafBlock DIM t o b true = Some a /\ cell DIM t a /\
       octree_isLeaf DIM t o a = Some true /\ isDescendantOf b a = true /\
       forall a', cell DIM t a' -> octree_isLeaf DIM t o a' = Some true -> isDescendantOf b a' = true -> a' = a) /\
  (forall b, 0 <= level b < digits t -> ~ Forall (in_word (level b)) (pt b) ->
     coveringLeafBlock DIM t o b true = Some (invalid_index DIM)).
Proof.
  intros HD Hdig Hr. pose proof (reachable_ok DIM HD t o Hdig Hr) as Ho. pose proof (tk_store DIM t o Ho) as Hs. split_and!.
  - intros b Hb Hi. apply (covering_internal DIM HD t o b Ho Hb). rewrite (isInternal_spec DIM HD t o b Hs Hb) in Hi.
    by injection Hi as Hi%bool_decide_eq_true%internal_status.
  - intros b Hb Hi. rewrite (isInternal_spec DIM HD t o b Hs Hb) in Hi.
    injection Hi as Hi%bool_decide_eq_false. rewrite internal_status in Hi.
    destruct (covering_spec DIM HD t o b Ho Hb Hi) as (n & d & E & Hn & Hd & Hl).
    destruct (ancestor_cell DIM HD t n b Hb Hn) as [Hc _]. exists (ancestor n b). split_and!; [done|done| | |].
    + by eapply leaf_true.
    + apply (isDescendantOf_spec DIM HD t); [done..|]. by exists n.
    + intros a' Ha' Hla' Hda'. apply (isDescendantOf_spec DIM HD t) in Hda' as (m & Hm & ->); [|done..].
      destruct (isLeaf_block DIM HD t o _ Ho Ha' Hla') as (d' & Hd' & Hl').
      by rewrite (leaf_ancestor_unique DIM HD t o b m n d' d).
  - intros b Hl Hout. unfold coveringLeafBlock, octree_inBounds, block_inBounds, maxCoordAtLevel, isLevelValid, maxLeafLevel.
    rewrite (proj2 (Z.leb_le 0 _)), (proj2 (Z.leb_le _ (digits t))), decide_True by lia. cbn -[Z.shiftl].
    destruct (pt_inBounds _ (pt b)) eqn:E; [|done]. destruct Hout. apply Forall_forall. intros x Hx.
    unfold pt_inBounds in E. rewrite forallb_forall in E. apply list_elem_of_In, E in Hx.
    rewrite Z.shiftl_1_l in Hx. unfold in_word. lia.
Qed.

(** The binary search of [findLeafBlock] terminates for every point of the bounding
    box and every starting level and returns a leaf whose cell contains the point; no
    other cell that contains the point is a leaf. *)
Theorem find_leaf_block DIM (t : CoordType) {B : Type} `{HBL : BlockDataLaws B} (o : OctreeBase B) (x : list Q) (startingLevel : Z) :
  DIM = 2%nat \/ DIM = 3%nat -> 0 < digits t -> reachable DIM t o ->
  length x = DIM -> Forall in_unit x -> startingLevel = -1 \/ 0 <= startingLevel < digits t ->
  exists p lev, findLeafBlock DIM t o x startingLevel = Some (mkBlockIndex p lev) /\
    findGridCellAtLevel t x lev = Some p /\ octree_isLeaf DIM t o (mkBlockIndex p lev) = Some true /\
    forall p' lev', 0 <= lev' <= deepest t -> findGridCellAtLevel t x lev' = Some p' ->
      octree_isLeaf DIM t o (mkBlockIndex p' lev') = Some true -> p' = p /\ lev' = lev.
Proof.
  intros HD Hdig Hr Hlen Hx Hst. pose proof (reachable_ok DIM HD t o Hdig Hr) as Ho. pose proof (tk_store DIM t o Ho) as Hs.
  destruct (leaf_level DIM HD t o x Ho Hdig Hlen Hx) as (L & HL & Hlev).
  pose proof (find_leaf_spec DIM HD t o x startingLevel L) as Hf. specialize (Hf Hdig Hx Hst HL Hlev).
  assert (L < digits t) by (unfold deepest in HL; lia).
  assert (forall lev, 0 <= lev <= deepest t -> octree_isLeaf DIM t o (cell_of x lev) = Some (lev =? L)) as Hleaf.
  { intros lev Hl. assert (cell DIM t (cell_of x lev)) as Hc by (by apply cell_of_cell).
    rewrite (isLeaf_spec DIM HD t o _ Hs Hc). specialize (Hlev lev ltac:(unfold deepest in Hl; lia)).
    rewrite (blockStatus_spec DIM HD t o _ Hs Hc) in Hlev. injection Hlev as ->. f_equal.
    destruct (Z.ltb_spec lev L), (Z.eqb_spec lev L); try lia; done. }
  eexists _, L. split; [exact Hf|]. split_and!.
  - by rewrite (cell_at DIM HD) by (done || lia).
  - change (octree_isLeaf DIM t o (cell_of x L) = Some true). rewrite Hleaf by done. by rewrite Z.eqb_refl.
  - intros p' lev' Hl' Hp' Hlf. rewrite (cell_at DIM HD) in Hp' by (done || unfold deepest in Hl'; lia). injection Hp' as <-.
    change (octree_isLeaf DIM t o (cell_of x lev') = Some true) in Hlf. rewrite Hleaf in Hlf by done.
    injection Hlf as Hlf%Z.eqb_eq. by subst lev'.
Qed.

(** On the blocks of the grids, [parent] and [child] are inverse, distinct child
    indices give distinct children and every block below the root is a child of its
    parent; [isDescendantOf] is the closure of [parent]; a face neighbour at index [n] is
    another block of the level and its neighbour at [n ^ 1] is the block again; and
    [operator<] is a strict total order. *)
Theorem block_index_laws DIM (t : CoordType) :
  DIM = 2%nat \/ DIM = 3%nat ->
  (forall b i, cell DIM t b -> level b < deepest t -> 0 <= i < NUM_CHILDREN DIM ->
     cell DIM t (child b i) /\ parent (child b i) = b /\
     forall j, 0 <= j < NUM_CHILDREN DIM -> child b i = child b j -> i = j) /\
  (forall b, cell DIM t b -> 0 < level b ->
     cell DIM t (parent b) /\ exists i, 0 <= i < NUM_CHILDREN DIM /\ b = child (parent b) i) /\
  (forall a b, cell DIM t a -> cell DIM t b ->
     isDescendantOf b a = true <-> exists n, Z.of_nat n <= level b /\ a = ancestor n b) /\
  (forall b n, length (pt b) = DIM -> 0 <= n < NUM_FACE_NEIGHBORS DIM ->
     exists b', faceNeighbor DIM b n = Some b' /\ b' <> b /\ level b' = level b /\
       faceNeighbor DIM b' (Z.lxor n 1) = Some b) /\
  (forall a b c, block_ltb a a = false /\
     (block_ltb a b = true -> block_ltb b c = true -> block_ltb a c = true) /\
     (length (pt a) = length (pt b) -> a <> b -> block_ltb a b = true \/ block_ltb b a = true)).
Proof.
  intros HD. unfold NUM_CHILDREN. rewrite Z.shiftl_1_l. fold (brood_size DIM). split_and!.
  - intros b i Hb Hl Hi. destruct (child_cell DIM HD t b i Hb Hl Hi) as (Hc & Hp & Hpt). split_and!; [done..|].
    intros j Hj E. apply (f_equal (fun c => child_index (pt c))) in E. rewrite Hpt in E.
    destruct (child_cell DIM HD t b j Hb Hl Hj) as (_ & _ & Hpt'). rewrite Hpt' in E.
    rewrite !(child_index_child DIM HD (level b)) in E by (done || apply Hb). done.
  - intros b Hb H0. destruct (parent_cell DIM HD t b Hb H0) as [Hp _]. split; [done|]. exists (child_index (pt b)).
    split; [by eapply child_index_range, Hb|]. by apply (child_of_parent DIM HD t).
  - intros a b Ha Hb. by apply (isDescendantOf_spec DIM HD t).
  - intros b n. apply faceNeighbor_back.
  - intros a b c. split_and!; [apply block_ltb_irrefl|apply block_ltb_trans|apply block_ltb_total].
Qed.

(** At every level of an octree the iteration from [begin] to [end] ends; it visits
    exactly the blocks of the level, each once and with its data, and [numBlocks],
    [numLeafBlocks] and [numInternalBlocks] are the numbers of blocks visited, of leaves
    and of internal blocks among them. *)
Theorem level_iteration DIM (t : CoordType) {B : Type} `{HBL : BlockDataLaws B} (o : OctreeBase B) (lev : Z) :
  DIM = 2%nat \/ DIM = 3%nat -> 0 < digits t -> reachable DIM t o -> 0 <= lev <= deepest t ->
  exists l tr, getOctreeLevel o lev = Some l /\ lev_iterate DIM t l = Some tr /\ NoDup tr.*1 /\
    (forall p d, (p, d) ∈ tr <-> in_grid DIM lev p /\ hasBlock DIM t o (mkBlockIndex p lev) = Some true /\
       octree_at DIM t o (mkBlockIndex p lev) = Some d) /\
    lev_numBlocks DIM l = Z.of_nat (length tr) /\
    lev_numLeafBlocks l = Z.of_nat (length (List.filter isLeaf tr.*2)) /\
    lev_numInternalBlocks DIM l = Z.of_nat (length (List.filter (fun d => negb (isLeaf d)) tr.*2)).
Proof.
  intros HD Hdig Hr Hlev. pose proof (tk_store DIM t o (reachable_ok DIM HD t o Hdig Hr)) as Hs.
  destruct (zlookup_lt (m_leavesLevelMap o) lev) as [l El]; [pose proof (so_length DIM t o Hs); unfold deepest in Hlev; lia|].
  destruct (so_levels DIM t o Hs lev l Hlev El) as [Hl _].
  destruct (level_trace DIM HD t lev l Hl) as (tr & Et & Hnd & Hmem & Hn & Hlf).
  exists l, tr. split_and!; [done|done| | |done|done|].
  - apply NoDup_fmap_fst; [|done]. intros p d1 d2 H1%Hmem H2%Hmem. destruct H1, H2. congruence.
  - intros p d. rewrite Hmem. assert (block DIM t o (mkBlockIndex p lev) = lev_get DIM t l p) as Eb.
    { unfold block, getOctreeLevel. cbn. by rewrite El. }
    split; [intros [Hp Hd]|intros (Hp & Hh & Hd)].
    all: assert (cell DIM t (mkBlockIndex p lev)) as Hc by done.
    + split_and!; [done| |apply (octree_at_spec DIM HD t o _ d Hs Hc); congruence].
      rewrite (hasBlock_spec DIM HD t o _ Hs Hc), Eb, Hd. done.
    + split; [done|]. rewrite (hasBlock_spec DIM HD t o _ Hs Hc), Eb in Hh.
      injection Hh as [d' Hd']%bool_decide_eq_true. rewrite Hd'.
      rewrite (octree_at_spec DIM HD t o _ d' Hs Hc) in Hd by congruence. done.
  - apply (internal_count DIM HD); [by rewrite length_fmap|done].
Qed.

(** ** A small octree *)

Definition int32 : CoordType := mkCoordType 31 true.
Definition int64 : CoordType := mkCoordType 63 true.

(** The root refined, then its last child. *)
Definition sample_tree : option (OctreeBase BlockData) :=
  o ← OctreeBase_new 2 int32 1;
  o ← refineLeaf 2 int32 o (mkBlockIndex [0; 0] 0);
  refineLeaf 2 int32 o (mkBlockIndex [1; 1] 1).

Definition the_sample : OctreeBase BlockData := default (mkOctree [] 0) sample_tree.

(** A concrete block is one of the grids by computation. *)
Ltac decide_cell := apply (bool_decide_unpack (cell _ _ _)); vm_compute; exact I.

Lemma sample_reachable : reachable 2 int32 the_sample.
Proof.
  assert (exists o0 o1, OctreeBase_new 2 int32 (B := BlockData) 1 = Some o0 /\ refineLeaf 2 int32 o0 (mkBlockIndex [0; 0] 0) = Some o1 /\
    refineLeaf 2 int32 o1 (mkBlockIndex [1; 1] 1) = Some the_sample /\
    octree_isLeaf 2 int32 o0 (mkBlockIndex [0; 0] 0) = Some true /\
    octree_isLeaf 2 int32 o1 (mkBlockIndex [1; 1] 1) = Some true) as (o0 & o1 & E0 & E1 & E2 & L0 & L1).
  { eexists _, _. split; [vm_compute; reflexivity|]. split; [vm_compute; reflexivity|]. split_and!; by vm_compute. }
  eapply reach_refine; [| | |exact L1|exact E2]; [|by decide_cell|done].
  eapply reach_refine; [| | |exact L0|exact E1]; [|by decide_cell|done].
  by eapply reach_new; [|exact E0].
Qed.

Lemma octree_invariant_witness :
  hasBlock 2 int32 the_sample (mkBlockIndex [3; 2] 2) = octree_isInternal 2 int32 the_sample (mkBlockIndex [1; 1] 1).
Proof.
  destruct (octree_invariant 2 int32 the_sample (or_introl eq_refl) eq_refl sample_reachable) as [_ H].
  destruct (H (mkBlockIndex [3; 2] 2)) as (_ & Hp & _); [decide_cell|]. by apply Hp.
Defined.

Lemma refine_leaf_correct_witness :
  exists o', refineLeaf 2 int32 the_sample (mkBlockIndex [0; 1] 1) = Some o' /\
    octree_isInternal 2 int32 o' (mkBlockIndex [0; 1] 1) = Some true.
Proof.
  destruct (refine_leaf_correct 2 int32 the_sample (mkBlockIndex [0; 1] 1) (or_introl eq_refl) eq_refl sample_reachable)
    as (o' & E & _ & Hi & _); [decide_cell|done|by vm_compute|by vm_compute|]. exists o'. split; [exact E|exact Hi].
Defined.

Lemma covering_leaf_witness :
  exists a, coveringLeafBlock 2 int32 the_sample (mkBlockIndex [100; 1000] 10) true = Some a /\ a = mkBlockIndex [0; 1] 1.
Proof.
  destruct (covering_leaf 2 int32 the_sample (or_introl eq_refl) eq_refl sample_reachable) as (_ & H & _).
  destruct (H (mkBlockIndex [100; 1000] 10)) as (a & E & _ & _ & _ & Hu); [decide_cell|by vm_compute|].
  exists a. split; [exact E|]. symmetry. apply Hu; [decide_cell|by vm_compute..].
Defined.

Lemma find_leaf_block_witness :
  exists p lev, findLeafBlock 2 int32 the_sample [Qmake 3 4; Qmake 1 2] (-1) = Some (mkBlockIndex p lev) /\
    findGridCellAtLevel int32 [Qmake 3 4; Qmake 1 2] lev = Some p /\ lev = 2.
Proof.
  destruct (find_leaf_block 2 int32 the_sample [Qmake 3 4; Qmake 1 2] (-1) (or_introl eq_refl) eq_refl sample_reachable)
    as (p & lev & E & Hc & _ & Hu); [done|by repeat constructor|by left|].
  exists p, lev. split_and!; [exact E|exact Hc|]. 
  destruct (Hu [3; 2] 2) as [_ El]; [unfold deepest; cbn; lia|by vm_compute|by vm_compute|]. symmetry. exact El.
Defined.

Lemma block_index_laws_witness :
  parent (child (mkBlockIndex [5; 6] 3) 2) = mkBlockIndex [5; 6] 3 /\
  faceNeighbor 2 (mkBlockIndex [5; 6] 3) 2 = Some (mkBlockIndex [5; 5] 3).
Proof.
  destruct (block_index_laws 2 int32 (or_introl eq_refl)) as (Hc & _ & _ & Hn & _). split.
  - apply Hc; [decide_cell|done|done].
  - destruct (Hn (mkBlockIndex [5; 6] 3) 2) as (b' & E & _); [done|done|]. rewrite E. vm_compute in E. symmetry. exact E.
Defined.

Lemma level_iteration_witness :
  exists l tr, getOctreeLevel the_sample 2 = Some l /\ lev_iterate 2 int32 l = Some tr /\
    lev_numBlocks 2 l = Z.of_nat (length tr) /\ ([3; 2], mkBlockData 441) ∈ tr.
Proof.
  destruct (level_iteration 2 int32 the_sample 2 (or_introl eq_refl) eq_refl sample_reachable)
    as (l & tr & El & Et & _ & Hm & Hn & _); [unfold deepest; cbn; lia|].
  exists l, tr. split_and!; [exact El|exact Et|exact Hn|]. apply Hm. split_and!; [|by vm_compute|by vm_compute].
  apply (bool_decide_unpack (in_grid _ _ _)). vm_compute. exact I.
Defined.

(** With 64-bit indices a parent is computed through a double: below level 53 there are
    valid blocks with a valid child whose parent is another block. *)
Theorem parent_loses_bits :
  let b := mkBlockIndex [2 ^ 53 - 1; 0] 53 in
  block_isValid int64 b = Some true /\ block_isValid int64 (child b 1) = Some true /\
  parent (child b 1) = mkBlockIndex [2 ^ 53; 0] 53 /\ block_isValid int64 (parent (child b 1)) = Some false.
Proof. by vm_compute. Qed.

(** On a sparse level the Morton key keeps the low bits of a coordinate: the left
    neighbour of a block at the left border is taken for the block at the right border. *)
Definition wide_tree : option (OctreeBase BlockData) :=
  foldl (fun o lev => o ← o; refineLeaf 2 int32 o (mkBlockIndex [2 ^ lev - 1; 0] lev)) (OctreeBase_new 2 int32 1) (seqZ 0 8).

Example outside_is_leaf :
  (o ← wide_tree; octree_isLeaf 2 int32 o (mkBlockIndex [-1; 0] 8)) = Some true /\
  faceNeighbor 2 (mkBlockIndex [0; 0] 8) 0 = Some (mkBlockIndex [-1; 0] 8).
Proof. by vm_compute. Qed.

(** The counter of ids is an [int]: the default constructor has no id after the last. *)
Example ids_run_out : default_block (B := BlockData) (2 ^ 31 - 1) = None.
Proof. done. Qed.

(** A block with id 0 is no longer a block after it is made internal. *)
Example zero_id_vanishes : isBlock (setInternal (setData (mkBlockData 1) 0)) = false.
Proof. done. Qed.

End OctreeTheorems.
