(* ===== verification/FlatTable.v ===== *)
(** * Open-addressing table metadata ([src/axom/core/detail/FlatTable.hpp])

    Groups of fifteen bucket bytes with an overflow byte, the quadratic probe
    sequence and the sequential lookup policy of [axom::FlatMap].  A hash is a
    64-bit word.  [int] and [axom::IndexType] have 32 bits, as by default.  [None] is an
    access outside the group array or an overflow of such an integer. *)

From S2P Require Import Prelude.
From Stdlib Require Import Znumtheory Zpow_facts.

Module FlatTable.

(** ** Definitions *)

(** [QuadraticProbing::getNext] *)
Definition getNext (iter : Z) : Z := iter + 1.

(** [HashMixer64]: the "mxmxm" mixer on the 64-bit value of the user's hash. *)
Definition HashMixer64 {K} (HashFunc : K -> Z) (key : K) : Z :=
  let hash := wrap 64 (HashFunc key) in
  let hash := wrap 64 (hash * 0xbf58476d1ce4e5b9) in
  let hash := Z.lxor hash (Z.shiftr hash 32) in
  let hash := wrap 64 (hash * 0x94d049bb133111eb) in
  let hash := Z.lxor hash (Z.shiftr hash 32) in
  let hash := wrap 64 (hash * 0x94d049bb133111eb) in
  hash.

Record GroupBucket := mkGroup { ofw : Z; buckets : list Z }.

Definition Empty : Z := 0.
Definition Sentinel : Z := 1.
Definition InvalidSlot : Z := -1.
Definition Size : Z := 15.

Definition newGroup : GroupBucket := mkGroup 0 (replicate (Z.to_nat Size) 0).

Definition getEmptyBucket (g : GroupBucket) : Z :=
  match list_find (fun b => b = Empty) (buckets g) with
  | Some (i, _) => Z.of_nat i
  | None => InvalidSlot
  end.

Definition nextFilledBucket (g : GroupBucket) (start_index : Z) : Z :=
  match list_find (fun b => b <> Empty) (drop (Z.to_nat (start_index + 1)) (buckets g)) with
  | Some (i, _) => start_index + 1 + Z.of_nat i
  | None => InvalidSlot
  end.

(** Hashes are reduced to [2, 255]: 0 and 1 mark empty and sentinel slots. *)
Definition reduceHash (hash : Z) : Z := if hash <? 2 then hash + 8 else hash.

(** [visitHashBucket] calls the visitor, here a state transformer, on every slot
    that holds the reduced hash, in slot order. *)
Definition visitHashBucket {S} (g : GroupBucket) (hash : Z) (visitor : Z -> S -> S) (s : S) : S :=
  let reducedHash := reduceHash hash in
  foldl (fun s '(i, b) => if b =? reducedHash then visitor i s else s) s
        (zip (seqZ 0 (Z.of_nat (length (buckets g)))) (buckets g)).

Definition setBucket (g : GroupBucket) (index hash : Z) : GroupBucket :=
  mkGroup (ofw g) (<[Z.to_nat index := reduceHash hash]> (buckets g)).

Definition clearSlot (g : GroupBucket) (index : Z) : GroupBucket :=
  mkGroup (ofw g) (<[Z.to_nat index := Empty]> (buckets g)).

Definition hashOfwBit (hash : Z) : Z := wrap 8 (Z.shiftl 1 (hash mod 8)).

Definition setOverflow (g : GroupBucket) (hash : Z) : GroupBucket :=
  mkGroup (Z.lor (ofw g) (hashOfwBit hash)) (buckets g).

Definition getMaybeOverflowed (g : GroupBucket) (hash : Z) : bool :=
  negb (Z.land (ofw g) (hashOfwBit hash) =? 0).

Definition hasSentinel (g : GroupBucket) : bool :=
  bool_decide (buckets g !! Z.to_nat (Size - 1) = Some Sentinel).

Definition setSentinel (g : GroupBucket) : GroupBucket :=
  mkGroup (ofw g) (<[Z.to_nat (Size - 1) := Sentinel]> (buckets g)).

(** *** [SequentialLookupPolicy] *)

Definition NO_MATCH : Z := -1.

Definition md_size (md : list GroupBucket) : Z := Z.of_nat (length md).

(** The [k] most significant bits of the hash select the first group. *)
Definition firstGroup (ngroups_pow_2 hash : Z) : Z :=
  let bitshift_right := 64 - ngroups_pow_2 in
  Z.land (Z.shiftr hash bitshift_right) (Z.shiftl 1 ngroups_pow_2 - 1).

(** [static_cast<std::uint8_t>(hash)] *)
Definition hash8 (hash : Z) : Z := wrap 8 hash.

Fixpoint probeEmpty_loop (n : nat) (iteration h8 : Z) (md : list GroupBucket)
    (curr_group empty_group empty_bucket : Z) : option (list GroupBucket * Z * Z) :=
  match n with
  | O => Some (md, empty_group, empty_bucket)
  | S n =>
    g ← md.[curr_group];
    let tentative_empty_bucket := getEmptyBucket g in
    let '(empty_group, empty_bucket) :=
      if negb (tentative_empty_bucket =? InvalidSlot) && (empty_group =? NO_MATCH)
      then (to_int32 curr_group, tentative_empty_bucket) else (empty_group, empty_bucket) in
    if negb (getMaybeOverflowed g h8) && negb (empty_group =? NO_MATCH)
    then Some (md, empty_group, empty_bucket)
    else
      md ← (if empty_group =? NO_MATCH then zupdate md curr_group (setOverflow g h8) else Some md);
      probeEmpty_loop n (iteration + 1) h8 md
        ((curr_group + getNext iteration) mod md_size md) empty_group empty_bucket
  end.

Definition probeEmptyIndex (ngroups_pow_2 : Z) (md : list GroupBucket) (hash : Z)
    : option (list GroupBucket * Z) :=
  r ← probeEmpty_loop (length md) 0 (hash8 hash) md (firstGroup ngroups_pow_2 hash) NO_MATCH NO_MATCH;
  let '(md, empty_group, empty_bucket) := r in
  if empty_group =? NO_MATCH then Some (md, NO_MATCH)
  else b ← int32 (empty_group * Size); i ← int32 (b + empty_bucket); Some (md, i).

(** [on_hash_found] transforms the state it captures and says whether to keep
    going; every matching slot of a group is visited before that is looked at. *)
Fixpoint probe_loop {S} (n : nat) (iteration h8 : Z) (md : list GroupBucket) (curr_group : Z)
    (on_hash_found : Z -> S -> S * bool) (s : S) : option S :=
  match n with
  | O => Some s
  | S n =>
    g ← md.[curr_group];
    let '(s, keep_going) :=
      visitHashBucket g h8 (fun i '(s, _) => on_hash_found (to_int32 (curr_group * Size + i)) s) (s, true) in
    if negb (getMaybeOverflowed g h8) then Some s
    else if negb keep_going then Some s
    else probe_loop n (iteration + 1) h8 md
           ((curr_group + getNext iteration) mod md_size md) on_hash_found s
  end.

Definition probeIndex {S} (ngroups_pow_2 : Z) (md : list GroupBucket) (hash : Z)
    (on_hash_found : Z -> S -> S * bool) (s : S) : option S :=
  probe_loop (length md) 0 (hash8 hash) md (firstGroup ngroups_pow_2 hash) on_hash_found s.

Definition setBucketHash (md : list GroupBucket) (bucket hash : Z) : option (list GroupBucket) :=
  let group_index := Z.quot bucket Size in
  let slot_index := Z.rem bucket Size in
  g ← md.[group_index];
  if slot_index <? 0 then None
  else zupdate md group_index (setBucket g slot_index (hash8 hash)).

(** Clears the slot and reports whether its group may have overflowed. *)
Definition clearBucket (md : list GroupBucket) (bucket hash : Z)
    : option (list GroupBucket * bool) :=
  let group_index := Z.quot bucket Size in
  let slot_index := Z.rem bucket Size in
  g ← md.[group_index];
  md ← (if slot_index <? 0 then None else zupdate md group_index (clearSlot g slot_index));
  Some (md, getMaybeOverflowed (clearSlot g slot_index) (hash8 hash)).

(** The [do ... while] of [nextValidIndex]; one iteration per group at most. *)
Fixpoint nextValid_loop (n : nat) (md : list GroupBucket) (group_index slot_index : Z) : option Z :=
  match n with
  | O => None
  | S n =>
    g ← md.[group_index];
    let slot_index := nextFilledBucket g slot_index in
    if slot_index =? InvalidSlot then
      let group_index := group_index + 1 in
      if group_index <? md_size md then nextValid_loop n md group_index (-1)
      else b ← int32 (group_index * Size); int32 (b + -1)
    else b ← int32 (group_index * Size); int32 (b + slot_index)
  end.

Definition nextValidIndex (md : list GroupBucket) (last_bucket : Z) : option Z :=
  b ← int32 (md_size md * Size); last ← int32 (b - 1);
  if last <=? last_bucket then Some last_bucket else
  nextValid_loop (length md) md (Z.quot last_bucket Size) (Z.rem last_bucket Size).

(** ** Groups *)

(** The byte of a global bucket index. *)
Definition slot (md : list GroupBucket) (i : Z) : option Z :=
  g ← md.[i / Size]; buckets g !! Z.to_nat (i mod Size).

Record group_ok (g : GroupBucket) : Prop := {
  group_len : length (buckets g) = 15%nat;
  group_ofw : in_word 8 (ofw g);
  group_bytes : Forall (in_word 8) (buckets g)
}.

Definition md_ok (md : list GroupBucket) : Prop := Forall group_ok md.

(** The indices of buckets are in the range of [int]. *)
Definition md_small (md : list GroupBucket) : Prop := md_size md * Size < 2 ^ 31.

Lemma newGroup_ok : group_ok newGroup.
Proof. split; [done|by split|]. apply Forall_replicate. by split. Qed.

Lemma hash8_word h : in_word 8 (hash8 h).
Proof. apply wrap_in_word. lia. Qed.

Lemma reduceHash_word h : in_word 8 h -> in_word 8 (reduceHash h).
Proof. unfold in_word, reduceHash. case_zbool; cbn; lia. Qed.

Lemma reduceHash_ge2 h : 0 <= h -> 2 <= reduceHash h.
Proof. unfold reduceHash. case_zbool; lia. Qed.

Lemma hashOfwBit_pow2 h : hashOfwBit h = 2 ^ (h mod 8).
Proof.
  unfold hashOfwBit. rewrite Z.shiftl_1_l. pose proof (Z.mod_pos_bound h 8).
  apply wrap_id; [lia|]. apply in_word_pow2; lia.
Qed.

Lemma getMaybeOverflowed_testbit g h : getMaybeOverflowed g h = Z.testbit (ofw g) (h mod 8).
Proof.
  unfold getMaybeOverflowed. rewrite hashOfwBit_pow2. pose proof (Z.mod_pos_bound h 8).
  destruct (Z.testbit (ofw g) (h mod 8)) eqn:Hb.
  - apply land_pow2_nonzero in Hb; [|lia]. by destruct (Z.eqb_spec (Z.land (ofw g) (2 ^ (h mod 8))) 0).
  - destruct (Z.eqb_spec (Z.land (ofw g) (2 ^ (h mod 8))) 0) as [|Hne]; [done|].
    apply land_pow2_nonzero in Hne; [congruence|lia].
Qed.

Lemma setOverflow_get g h : getMaybeOverflowed (setOverflow g h) h = true.
Proof.
  rewrite getMaybeOverflowed_testbit. cbn. pose proof (Z.mod_pos_bound h 8).
  rewrite Z.lor_spec, hashOfwBit_pow2, testbit_pow2, bool_decide_true, orb_true_r by lia. done.
Qed.

(** Overflow bits are never lost. *)
Lemma setOverflow_mono g h h' :
  getMaybeOverflowed g h' = true -> getMaybeOverflowed (setOverflow g h) h' = true.
Proof. rewrite !getMaybeOverflowed_testbit. cbn. rewrite Z.lor_spec. by intros ->. Qed.

Lemma setOverflow_ok g h : group_ok g -> group_ok (setOverflow g h).
Proof.
  intros [Hl Ho Hb]. split; [done| |done]. cbn. apply in_word_lor; [lia|done|].
  rewrite hashOfwBit_pow2. pose proof (Z.mod_pos_bound h 8). apply in_word_pow2; lia.
Qed.

Lemma setBucket_ok g i h : group_ok g -> in_word 8 h -> group_ok (setBucket g i h).
Proof.
  intros [Hl Ho Hb] Hh. split; cbn; [by rewrite length_insert|done|].
  apply Forall_insert; [done|by apply reduceHash_word].
Qed.

Lemma clearSlot_ok g i : group_ok g -> group_ok (clearSlot g i).
Proof.
  intros [Hl Ho Hb]. split; cbn; [by rewrite length_insert|done|].
  apply Forall_insert; [done|by split].
Qed.

Lemma getEmptyBucket_spec g :
  (getEmptyBucket g = InvalidSlot /\ forall i b, buckets g !! i = Some b -> b <> Empty) \/
  (exists i, getEmptyBucket g = Z.of_nat i /\ buckets g !! i = Some Empty).
Proof.
  unfold getEmptyBucket. destruct (list_find _ _) as [[i b]|] eqn:Hf.
  - right. apply list_find_Some in Hf as (Hi & -> & _). eauto.
  - left. split; [done|]. apply list_find_None in Hf. intros i b Hi.
    by apply (Forall_lookup_1 _ _ _ _ Hf Hi).
Qed.

Lemma nextFilledBucket_spec g s :
  -1 <= s ->
  (nextFilledBucket g s = InvalidSlot /\
     forall i b, s < Z.of_nat i -> buckets g !! i = Some b -> b = Empty) \/
  (exists i b, nextFilledBucket g s = Z.of_nat i /\ s < Z.of_nat i /\ buckets g !! i = Some b /\
     b <> Empty /\ forall j c, s < Z.of_nat j < Z.of_nat i -> buckets g !! j = Some c -> c = Empty).
Proof.
  intros Hs. unfold nextFilledBucket. destruct (list_find _ _) as [[i b]|] eqn:Hf.
  - right. apply list_find_Some in Hf as (Hi & Hb & Hlow).
    rewrite lookup_drop in Hi. exists (Z.to_nat (s + 1) + i)%nat, b.
    split_and!; [lia|lia|done|done|]. intros j c Hj Hc.
    destruct (decide (c = Empty)); [done|]. exfalso.
    apply (Hlow (j - Z.to_nat (s + 1))%nat c); [|lia|done].
    rewrite lookup_drop. replace (Z.to_nat (s + 1) + _)%nat with j by lia. done.
  - left. split; [done|]. apply list_find_None in Hf. intros i b Hi Hb.
    apply dec_stable. apply (Forall_lookup_1 _ _ (i - Z.to_nat (s + 1)) _ Hf).
    rewrite lookup_drop. replace (Z.to_nat (s + 1) + _)%nat with i by lia. done.
Qed.

(** ** The probe sequence *)

Fixpoint probe (m h0 : Z) (n : nat) : Z :=
  match n with
  | O => h0
  | S n => (probe m h0 n + getNext (Z.of_nat n)) mod m
  end.

(** Triangular numbers. *)
Fixpoint tri (n : nat) : Z := match n with O => 0 | S n => tri n + Z.of_nat (S n) end.

Lemma tri_double n : 2 * tri n = Z.of_nat n * (Z.of_nat n + 1).
Proof. induction n as [|n IH]; [done|]. cbn [tri]. lia. Qed.

Lemma probe_tri m h0 n : 0 <= h0 < m -> probe m h0 n = (h0 + tri n) mod m.
Proof.
  intros Hh. induction n as [|n IH]; cbn [probe tri].
  - rewrite Z.add_0_r. by rewrite Z.mod_small.
  - rewrite IH, Zplus_mod_idemp_l. f_equal. unfold getNext. lia.
Qed.

Lemma probe_range m h0 n : 0 <= h0 < m -> 0 <= probe m h0 n < m.
Proof. intros Hh. rewrite probe_tri by done. apply Z.mod_pos_bound. lia. Qed.

(** A product of two numbers of different parity that a power of two divides has
    a factor it divides. *)
Lemma pow2_divide_odd_mul (k : nat) a b :
  Z.odd a = true -> (2 ^ Z.of_nat k | a * b) -> (2 ^ Z.of_nat k | b).
Proof.
  intros Ha Hdiv. apply (Gauss _ a b); [done|].
  apply rel_prime_sym, rel_prime_Zpower_r; [lia|].
  apply Zgcd_1_rel_prime, Z.bezout_1_gcd. exists 1, (- (a / 2)).
  assert (a mod 2 = 1) by (by rewrite Zmod_odd, Ha). pose proof (Z.div_mod a 2). lia.
Qed.

(** The probe sequence visits pairwise different groups, hence all of them. *)
Lemma tri_inj_mod (k a b : nat) :
  Z.of_nat a < 2 ^ Z.of_nat k -> Z.of_nat b < Z.of_nat a ->
  (2 ^ Z.of_nat k | tri a - tri b) -> False.
Proof.
  intros Ha Hb [q Hq].
  assert ((Z.of_nat a - Z.of_nat b) * (Z.of_nat a + Z.of_nat b + 1) = 2 * 2 ^ Z.of_nat k * q) as Hp.
  { pose proof (tri_double a). pose proof (tri_double b). nia. }
  assert (2 ^ Z.of_nat (S k) = 2 * 2 ^ Z.of_nat k) as HS
    by (rewrite Nat2Z.inj_succ, Z.pow_succ_r by lia; done).
  destruct (Z.odd (Z.of_nat a - Z.of_nat b)) eqn:Hodd.
  - assert (2 ^ Z.of_nat (S k) | Z.of_nat a + Z.of_nat b + 1) as Hd.
    { apply (pow2_divide_odd_mul (S k) (Z.of_nat a - Z.of_nat b)); [done|]. exists q. lia. }
    apply Z.divide_pos_le in Hd; lia.
  - assert (2 ^ Z.of_nat (S k) | Z.of_nat a - Z.of_nat b) as Hd.
    { apply (pow2_divide_odd_mul (S k) (Z.of_nat a + Z.of_nat b + 1)).
      - replace (Z.of_nat a + Z.of_nat b + 1)
          with (Z.of_nat a - Z.of_nat b + (1 + 2 * Z.of_nat b)) by lia.
        rewrite Z.odd_add, Hodd, Z.odd_add_mul_2. done.
      - exists q. lia. }
    apply Z.divide_pos_le in Hd; lia.
Qed.

Lemma probe_inj (k : nat) h0 a b :
  0 <= h0 < 2 ^ Z.of_nat k -> Z.of_nat a < 2 ^ Z.of_nat k -> Z.of_nat b < 2 ^ Z.of_nat k ->
  probe (2 ^ Z.of_nat k) h0 a = probe (2 ^ Z.of_nat k) h0 b -> a = b.
Proof.
  intros Hh Ha Hb. rewrite !probe_tri by done. intros Heq.
  assert (0 < 2 ^ Z.of_nat k) by lia.
  assert (2 ^ Z.of_nat k | tri a - tri b) as Hd.
  { apply Z.mod_divide; [lia|].
    replace (tri a - tri b) with ((h0 + tri a) - (h0 + tri b)) by lia.
    rewrite Zminus_mod, Heq, Z.sub_diag. apply Z.mod_0_l. lia. }
  destruct (lt_eq_lt_dec a b) as [[Hlt|]|Hlt]; [|done|]; exfalso.
  - apply (tri_inj_mod k b a); [done|lia|]. destruct Hd as [q Hq]. exists (- q). lia.
  - by apply (tri_inj_mod k a b); [done|lia|].
Qed.

Lemma probe_surj (k : nat) h0 g :
  0 <= h0 < 2 ^ Z.of_nat k -> 0 <= g < 2 ^ Z.of_nat k ->
  exists n, Z.of_nat n < 2 ^ Z.of_nat k /\ probe (2 ^ Z.of_nat k) h0 n = g.
Proof.
  intros Hh Hg. set (m := 2 ^ Z.of_nat k) in *.
  set (l := probe m h0 <$> seq 0 (Z.to_nat m)).
  assert (l ≡ₚ seqZ 0 m) as Hperm.
  { apply submseteq_length_Permutation.
    - apply NoDup_submseteq.
      + apply NoDup_fmap_2_strong; [|apply NoDup_seq].
        intros a b Ha%elem_of_seq Hb%elem_of_seq. apply probe_inj; fold m; (done || lia).
      + intros x (n & -> & Hn%elem_of_seq)%list_elem_of_fmap.
        apply elem_of_seqZ. pose proof (probe_range m h0 n Hh). lia.
    - unfold l. rewrite length_fmap, length_seq, length_seqZ. lia. }
  assert (g ∈ l) as Hin by (rewrite Hperm; apply elem_of_seqZ; lia).
  apply list_elem_of_fmap in Hin as (n & -> & Hn%elem_of_seq). exists n. split; [lia|done].
Qed.

Lemma firstGroup_range k hash :
  0 <= k -> 0 <= firstGroup k hash < 2 ^ k.
Proof.
  intros Hk. unfold firstGroup. rewrite Z.shiftl_1_l.
  replace (2 ^ k - 1) with (Z.ones k) by (rewrite Z.ones_equiv; lia).
  rewrite Z.land_ones by done. apply Z.mod_pos_bound. apply Z.pow_pos_nonneg; lia.
Qed.

(** ** Group arrays *)

Definition overflowed (md : list GroupBucket) (c h : Z) : Prop :=
  exists g, md.[c] = Some g /\ getMaybeOverflowed g h = true.

(** [md'] has the slots of [md] and at least its overflow bits. *)
Definition md_le (md md' : list GroupBucket) : Prop :=
  length md' = length md /\
  (forall i, slot md' i = slot md i) /\
  (forall c h, overflowed md c h -> overflowed md' c h).

#[global] Instance md_le_preorder : PreOrder md_le.
Proof.
  split.
  - intros md. done.
  - intros m1 m2 m3 (Hl1 & Hs1 & Ho1) (Hl2 & Hs2 & Ho2).
    split; [congruence|]. split; [congruence|auto].
Qed.

Lemma slot_at md c g r :
  md.[c] = Some g -> 0 <= r < 15 -> slot md (c * Size + r) = buckets g !! Z.to_nat r.
Proof.
  intros Hc Hr. unfold slot, Size.
  assert ((c * 15 + r) / 15 = c) as -> by (Z.div_mod_to_equations; lia).
  assert ((c * 15 + r) mod 15 = r) as -> by (Z.div_mod_to_equations; lia).
  by rewrite Hc.
Qed.

Lemma slot_range md i b : md_ok md -> slot md i = Some b -> 0 <= i < md_size md * Size.
Proof.
  unfold slot, md_size, Size. intros Hok Hs.
  destruct (zlookup md (i / 15)) as [g|] eqn:Hg; [|done].
  apply zlookup_Some_bounds in Hg. Z.div_mod_to_equations. lia.
Qed.

Lemma slot_lookup md i b :
  slot md i = Some b -> exists g, md.[i / Size] = Some g /\ buckets g !! Z.to_nat (i mod Size) = Some b.
Proof. unfold slot. destruct (zlookup md _) as [g|] eqn:Hg; [|done]. eauto. Qed.

Lemma slot_is_Some md i : md_ok md -> 0 <= i < md_size md * Size -> is_Some (slot md i).
Proof.
  unfold md_size, Size. intros Hok Hi.
  destruct (zlookup_lt md (i / 15)) as [g Hg]; [Z.div_mod_to_equations; lia|].
  unfold slot, Size. rewrite Hg. cbn. apply lookup_lt_is_Some.
  rewrite (group_len g) by (by eapply zlookup_Forall). Z.div_mod_to_equations. lia.
Qed.

(** Replacing one group. *)
Lemma slot_zupdate md c g g' md' i :
  md.[c] = Some g -> zupdate md c g' = Some md' ->
  slot md' i = if decide (i / Size = c) then buckets g' !! Z.to_nat (i mod Size) else slot md i.
Proof.
  intros Hg Hu. unfold slot. rewrite (zlookup_zupdate _ _ _ _ _ Hu).
  destruct (decide (c = i / Size)) as [->|Hne].
  - by rewrite decide_True.
  - by rewrite decide_False.
Qed.

Lemma overflowed_zupdate md c g g' md' c' h :
  md.[c] = Some g -> zupdate md c g' = Some md' -> ofw g' = ofw g ->
  overflowed md c' h <-> overflowed md' c' h.
Proof.
  intros Hg Hu Ho. unfold overflowed. rewrite (zlookup_zupdate _ _ _ _ _ Hu).
  case_decide as Hc; [subst c'|done].
  assert (getMaybeOverflowed g' h = getMaybeOverflowed g h) as Heq
    by (unfold getMaybeOverflowed; by rewrite Ho).
  split; intros (g0 & Hg0 & Hov).
  - exists g'. split; [done|]. congruence.
  - exists g. split; [done|]. congruence.
Qed.

Lemma md_ok_zupdate md c g' md' :
  md_ok md -> zupdate md c g' = Some md' -> group_ok g' -> md_ok md'.
Proof. intros Hok [_ ->]%zupdate_Some Hg. by apply Forall_insert. Qed.

Lemma setOverflow_md_le md c g h md' :
  md.[c] = Some g -> zupdate md c (setOverflow g h) = Some md' ->
  md_le md md' /\ overflowed md' c h.
Proof.
  intros Hg Hu. split; [split; [|split]|].
  - by eapply zupdate_length.
  - intros i. rewrite (slot_zupdate _ _ _ _ _ i Hg Hu). case_decide as Hc; [|done].
    unfold slot. by rewrite Hc, Hg.
  - intros c' h' (g0 & Hg0 & Hov). unfold overflowed. rewrite (zlookup_zupdate _ _ _ _ _ Hu).
    case_decide as Hc; [|eauto]. subst c'. exists (setOverflow g h). split; [done|].
    apply setOverflow_mono. congruence.
  - exists (setOverflow g h). rewrite (zlookup_zupdate _ _ _ _ _ Hu), decide_True by done.
    split; [done|]. apply setOverflow_get.
Qed.

(** ** Probing for an empty slot *)

(** Once a group is chosen the loop only looks for the end of the sequence. *)
Lemma probeEmpty_loop_found n it h8 md curr eg eb :
  0 <= curr < md_size md -> eg <> NO_MATCH ->
  probeEmpty_loop n it h8 md curr eg eb = Some (md, eg, eb).
Proof.
  revert it curr. induction n as [|n IH]; intros it curr Hc He; [done|]. cbn [probeEmpty_loop].
  destruct (zlookup_lt md curr) as [g ->]; [done|]. cbn.
  assert ((eg =? NO_MATCH) = false) as E by (by apply Z.eqb_neq).
  rewrite E, andb_false_r. cbn. rewrite E.
  destruct (getMaybeOverflowed g h8); cbn; [|done].
  apply IH; [|done]. apply Z.mod_pos_bound. lia.
Qed.

Section probe_empty.
Context (h8 h0 : Z).

(** The first group of the sequence, from probe [it] on, with an empty slot. *)
Lemma probeEmpty_loop_spec n it md :
  md_ok md -> md_small md -> 0 <= h0 < md_size md ->
  (exists j i, (it <= j < it + n)%nat /\
     slot md (probe (md_size md) h0 j * Size + i) = Some Empty /\ 0 <= i < 15) ->
  exists md' j i,
    probeEmpty_loop n (Z.of_nat it) h8 md (probe (md_size md) h0 it) NO_MATCH NO_MATCH =
      Some (md', probe (md_size md) h0 j, i) /\
    md_ok md' /\ md_le md md' /\ (it <= j < it + n)%nat /\ 0 <= i < 15 /\
    slot md (probe (md_size md) h0 j * Size + i) = Some Empty /\
    (forall j', (it <= j' < j)%nat -> overflowed md' (probe (md_size md) h0 j') h8).
Proof.
  revert it md. induction n as [|n IH]; intros it md Hok Hsm Hh (j & i & Hj & Hslot & Hi); [lia|].
  cbn [probeEmpty_loop]. unfold md_small in *. set (m := md_size md) in *.
  pose proof (probe_range m h0 it Hh) as Hc.
  destruct (zlookup_lt md (probe m h0 it)) as [g Hg]; [done|]. rewrite Hg. cbn.
  assert (group_ok g) as Hgok by (by eapply zlookup_Forall).
  destruct (getEmptyBucket_spec g) as [[-> Hnone]|(e & -> & He)].
  - cbn. rewrite andb_false_r. destruct (zupdate md (probe m h0 it) (setOverflow g h8)) as [md1|] eqn:Hu.
    2: { by rewrite zupdate_lt in Hu. }
    destruct (setOverflow_md_le md _ g h8 md1 Hg Hu) as [Hle Hov].
    assert (md_size md1 = m) as Hm by (unfold m, md_size; by rewrite (proj1 Hle)).
    cbn. rewrite Hm. change ((probe m h0 it + getNext (Z.of_nat it)) mod m) with (probe m h0 (S it)).
    replace (Z.of_nat it + 1) with (Z.of_nat (S it)) by lia. rewrite <- Hm.
    destruct (IH (S it) md1) as (md' & j' & i' & Heq & Hok' & Hle' & Hj' & Hi' & Hs' & Hall).
    + by eapply md_ok_zupdate; [| |apply setOverflow_ok].
    + by rewrite Hm.
    + by rewrite Hm.
    + exists j, i. rewrite Hm. split_and!; [|lia|by rewrite (proj1 (proj2 Hle))|lia|lia].
      destruct (decide (j = it)) as [->|]; [|lia]. exfalso.
      rewrite (slot_at md _ g) in Hslot by done. by apply (Hnone _ _ Hslot).
    + exists md', j', i'. rewrite Hm in *. split_and!; [done|done|by etransitivity|lia|lia|lia|lia| |].
      * by rewrite <- (proj1 (proj2 Hle)).
      * intros j'' Hj''. destruct (decide (j'' = it)) as [->|]; [|apply Hall; lia].
        by apply Hle'.
  - assert (0 <= Z.of_nat e < 15) as He15.
    { apply lookup_lt_Some in He. rewrite (group_len g Hgok) in He. lia. }
    rewrite (proj2 (Z.eqb_neq (Z.of_nat e) InvalidSlot)) by (unfold InvalidSlot; lia).
    rewrite to_int32_id by (unfold Size in *; lia). cbn.
    rewrite (proj2 (Z.eqb_neq (probe m h0 it) NO_MATCH)) by (unfold NO_MATCH; lia). cbn.
    assert ((if negb (getMaybeOverflowed g h8) && true
             then Some (md, probe m h0 it, Z.of_nat e)
             else probeEmpty_loop n (Z.of_nat it + 1) h8 md
                    ((probe m h0 it + getNext (Z.of_nat it)) mod md_size md)
                    (probe m h0 it) (Z.of_nat e)) =
            Some (md, probe m h0 it, Z.of_nat e)) as ->.
    { rewrite probeEmpty_loop_found.
      - by destruct (negb _ && true).
      - apply Z.mod_pos_bound. fold m. lia.
      - unfold NO_MATCH. lia. }
    exists md, it, (Z.of_nat e). split_and!; [done|done|done|lia|lia|lia|lia| |lia].
    rewrite (slot_at md _ g) by done. by rewrite Nat2Z.id.
Qed.

End probe_empty.

(** [probeEmptyIndex] finds an empty slot whenever there is one, marks every
    group it passed as overflowed, and changes no slot. *)
Lemma probeEmptyIndex_spec (k : nat) md hash :
  md_ok md -> md_small md -> md_size md = 2 ^ Z.of_nat k ->
  (exists i, slot md i = Some Empty) ->
  exists md' j r,
    probeEmptyIndex (Z.of_nat k) md hash =
      Some (md', probe (md_size md) (firstGroup (Z.of_nat k) hash) j * Size + r) /\
    md_ok md' /\ md_le md md' /\ 0 <= r < 15 /\ Z.of_nat j < md_size md /\
    slot md (probe (md_size md) (firstGroup (Z.of_nat k) hash) j * Size + r) = Some Empty /\
    (forall j', (j' < j)%nat ->
       overflowed md' (probe (md_size md) (firstGroup (Z.of_nat k) hash) j') (hash8 hash)).
Proof.
  intros Hok Hsm Hk (i & Hi). set (h0 := firstGroup (Z.of_nat k) hash).
  assert (0 <= h0 < md_size md) as Hh by (rewrite Hk; apply firstGroup_range; lia).
  pose proof (slot_range md i _ Hok Hi) as Hir. unfold Size in Hir.
  destruct (probe_surj k h0 (i / Size)) as (n & Hn & Hpn).
  { by rewrite <- Hk. } { rewrite <- Hk. unfold Size. Z.div_mod_to_equations. lia. }
  destruct (probeEmpty_loop_spec (hash8 hash) h0 (length md) 0 md Hok Hsm Hh)
    as (md' & j & r & Heq & Hok' & Hle & Hj & Hr & Hs & Hall).
  { exists n, (i mod Size). split_and!; [lia| |rewrite Hk, Hpn|..].
    - unfold md_size in Hk. lia.
    - unfold Size. replace (i / 15 * 15 + i mod 15) with i by (Z.div_mod_to_equations; lia). done.
    - apply Z.mod_pos_bound. done.
    - apply Z.mod_pos_bound. done. }
  exists md', j, r.
  split_and!; [|done|done|lia|lia|unfold md_size; lia|done|intros; apply Hall; lia].
  unfold probeEmptyIndex. fold h0. change (Z.of_nat 0) with 0 in Heq. cbn [probe] in Heq.
  rewrite Heq. cbn. pose proof (probe_range (md_size md) h0 j Hh).
  rewrite (proj2 (Z.eqb_neq _ NO_MATCH)) by (unfold NO_MATCH; lia). unfold md_small, Size in *.
  rewrite int32_id by lia. cbn. by rewrite int32_id by lia.
Qed.

(** ** Writing a slot *)

Lemma slot_write md c g r b o md' i :
  md.[c] = Some g -> group_ok g -> 0 <= r < 15 ->
  zupdate md c (mkGroup o (<[Z.to_nat r := b]> (buckets g))) = Some md' ->
  slot md' i = if decide (i = c * Size + r) then Some b else slot md i.
Proof.
  intros Hg Hok Hr Hu. rewrite (slot_zupdate _ _ _ _ _ i Hg Hu). cbn. unfold Size.
  destruct (decide (i / 15 = c)) as [Hc|Hc].
  - destruct (decide (i = c * 15 + r)) as [->|Hne].
    + replace ((c * 15 + r) mod 15) with r by (Z.div_mod_to_equations; lia).
      apply list_lookup_insert_eq. rewrite (group_len g Hok). lia.
    + rewrite list_lookup_insert_ne by (Z.div_mod_to_equations; lia).
      unfold slot, Size. by rewrite Hc, Hg.
  - rewrite decide_False; [done|]. intros ->. apply Hc. Z.div_mod_to_equations. lia.
Qed.

Lemma setBucketHash_spec md i hash :
  md_ok md -> 0 <= i < md_size md * Size ->
  exists md', setBucketHash md i hash = Some md' /\ md_ok md' /\ length md' = length md /\
    (forall j, slot md' j = if decide (j = i) then Some (reduceHash (hash8 hash)) else slot md j) /\
    (forall c h, overflowed md c h <-> overflowed md' c h).
Proof.
  unfold md_size, Size. intros Hok Hi. unfold setBucketHash, Size.
  rewrite Z.quot_div_nonneg, Z.rem_mod_nonneg by lia.
  destruct (zlookup_lt md (i / 15)) as [g Hg]; [Z.div_mod_to_equations; lia|].
  pose proof (Z.mod_pos_bound i 15). rewrite Hg. cbn. rewrite (proj2 (Z.ltb_ge _ _)) by lia.
  assert (group_ok g) as Hgok by (by eapply zlookup_Forall).
  destruct (zupdate md (i / 15) (setBucket g (i mod 15) (hash8 hash))) as [md'|] eqn:Hu.
  2: { rewrite zupdate_lt in Hu by eauto with axom. done. }
  exists md'. split_and!; [done| |by eapply zupdate_length|..].
  - eapply md_ok_zupdate; [done|done|]. apply setBucket_ok; [done|apply hash8_word].
  - intros j. rewrite (slot_write md (i / 15) g (i mod 15) _ _ md' j Hg Hgok ltac:(lia) Hu). unfold Size.
    by replace (i / 15 * 15 + i mod 15) with i by (Z.div_mod_to_equations; lia).
  - intros c h. by eapply overflowed_zupdate.
Qed.

Lemma clearBucket_spec md i hash :
  md_ok md -> 0 <= i < md_size md * Size ->
  exists md' mid, clearBucket md i hash = Some (md', mid) /\ md_ok md' /\ length md' = length md /\
    (forall j, slot md' j = if decide (j = i) then Some Empty else slot md j) /\
    (forall c h, overflowed md c h <-> overflowed md' c h).
Proof.
  unfold md_size, Size. intros Hok Hi. unfold clearBucket, Size.
  rewrite Z.quot_div_nonneg, Z.rem_mod_nonneg by lia.
  destruct (zlookup_lt md (i / 15)) as [g Hg]; [Z.div_mod_to_equations; lia|].
  pose proof (Z.mod_pos_bound i 15). rewrite Hg. cbn. rewrite (proj2 (Z.ltb_ge _ _)) by lia.
  assert (group_ok g) as Hgok by (by eapply zlookup_Forall).
  destruct (zupdate md (i / 15) (clearSlot g (i mod 15))) as [md'|] eqn:Hu.
  2: { rewrite zupdate_lt in Hu by eauto with axom. done. }
  eexists md', _. cbn. split_and!; [done| |by eapply zupdate_length|..].
  - eapply md_ok_zupdate; [done|done|]. by apply clearSlot_ok.
  - intros j. rewrite (slot_write md (i / 15) g (i mod 15) _ _ md' j Hg Hgok ltac:(lia) Hu). unfold Size.
    by replace (i / 15 * 15 + i mod 15) with i by (Z.div_mod_to_equations; lia).
  - intros c h. by eapply overflowed_zupdate.
Qed.

(** ** Probing for a key

    The callback of [FlatMap::find]: [hit i] compares the key stored in bucket [i]
    with the searched one and is [None] when the bucket holds no element. *)
Definition find_callback (hit : Z -> option bool) (i : Z) (s : option Z) : option Z * bool :=
  match s with
  | None => (None, false)
  | Some it =>
    match hit i with
    | None => (None, false)
    | Some true => (Some i, false)
    | Some false => (Some it, true)
    end
  end.

Section probe_find.
Context (hit : Z -> option bool) (h8 : Z).

(** Every slot with the reduced hash holds an element. *)
Definition hits_ok (md : list GroupBucket) : Prop :=
  forall i, slot md i = Some (reduceHash h8) -> is_Some (hit i).

Lemma visit_spec md c g it :
  md.[c] = Some g -> group_ok g -> hits_ok md ->
  exists it' b,
    visitHashBucket g h8 (fun i '(s, _) => find_callback hit (c * Size + i) s) (Some it, true) =
      (Some it', b) /\
    ((it' = it /\ b = true /\
      forall r, 0 <= r < 15 -> slot md (c * Size + r) = Some (reduceHash h8) ->
                hit (c * Size + r) = Some false) \/
     (exists r, 0 <= r < 15 /\ it' = c * Size + r /\
        slot md (c * Size + r) = Some (reduceHash h8) /\ hit (c * Size + r) = Some true)).
Proof.
  intros Hc Hg Hok. unfold visitHashBucket. pose proof (group_len g Hg) as Hlen.
  set (red := reduceHash h8) in *.
  assert (forall l i, l ∈ zip (seqZ 0 (Z.of_nat (length (buckets g)))) (buckets g) -> i = l.1 ->
    0 <= i < 15 /\ slot md (c * Size + i) = Some l.2) as Hin.
  { intros [i b] i' (n & Hn)%list_elem_of_lookup ->. cbn.
    apply lookup_zip_Some in Hn as [Hi Hb]. apply lookup_seqZ in Hi as [-> Hi]. rewrite Z.add_0_l.
    split; [lia|]. rewrite (slot_at md c g) by (done || lia). by rewrite Nat2Z.id. }
  assert (forall r b, 0 <= r < 15 -> slot md (c * Size + r) = Some b ->
    (r, b) ∈ zip (seqZ 0 (Z.of_nat (length (buckets g)))) (buckets g)) as Hcov.
  { intros r b Hr Hs. rewrite (slot_at md c g) in Hs by done. apply list_elem_of_lookup.
    exists (Z.to_nat r). apply lookup_zip_Some. split; [apply lookup_seqZ; lia|done]. }
  enough (forall l b0, (forall x, x ∈ l -> 0 <= x.1 < 15 /\ slot md (c * Size + x.1) = Some x.2) ->
    forall it, exists it' b,
      foldl (fun s '(i, b) => if b =? red then
        (fun i '(s, _) => find_callback hit (c * Size + i) s) i s else s) (Some it, b0) l =
        (Some it', b) /\
      ((it' = it /\ (b0 = true -> b = true) /\
        forall x, x ∈ l -> x.2 = red -> hit (c * Size + x.1) = Some false) \/
       (exists r, 0 <= r < 15 /\ it' = c * Size + r /\
          slot md (c * Size + r) = Some red /\ hit (c * Size + r) = Some true))) as Hgen.
  { destruct (Hgen (zip (seqZ 0 (Z.of_nat (length (buckets g)))) (buckets g)) true) with it
      as (it' & b & Heq & Hres).
    { intros x Hx. by apply Hin. }
    exists it', b. split; [exact Heq|]. destruct Hres as [(-> & Hb & Hno)|Hyes]; [left|by right].
    split_and!; [done|by apply Hb|]. intros r Hr Hs. apply (Hno (r, red)); [|done]. by apply Hcov. }
  clear Hin Hcov. induction l as [|[i b] l IH]; intros b0 Hl it0.
  { exists it0, b0. split; [done|]. left. split_and!; [done|done|].
    intros x Hx. by apply not_elem_of_nil in Hx. }
  cbn [foldl]. destruct (Hl (i, b)) as [Hi Hs]; [left|]. cbn in Hi, Hs.
  assert (forall x, x ∈ l -> 0 <= x.1 < 15 /\ slot md (c * Size + x.1) = Some x.2) as Hl'
    by (intros; apply Hl; by right).
  destruct (Z.eqb_spec b red) as [->|Hne].
  - destruct (Hok _ Hs) as [[|] Hh]; cbn [find_callback]; rewrite Hh.
    + destruct (IH false Hl' (c * Size + i)) as (it' & b' & Heq & Hres). exists it', b'.
      split; [done|]. right. destruct Hres as [(-> & _ & _)|Hyes]; [|done]. by exists i.
    + destruct (IH true Hl' it0) as (it' & b' & Heq & Hres). exists it', b'. split; [done|].
      destruct Hres as [(-> & Hb & Hno)|Hyes]; [left|by right]. split_and!; [done|auto|].
      intros x [->|Hx]%elem_of_cons Hx2; [done|]. by apply Hno.
  - destruct (IH b0 Hl' it0) as (it' & b' & Heq & Hres). exists it', b'. split; [done|].
    destruct Hres as [(-> & Hb & Hno)|Hyes]; [left|by right]. split_and!; [done|done|].
    intros x [->|Hx]%elem_of_cons Hx2; [done|]. by apply Hno.
Qed.

(** The conversion of bucket indices to [IndexType] keeps them. *)
Lemma visit_to_int md c g (s : option Z * bool) :
  md.[c] = Some g -> md_ok md -> md_small md ->
  visitHashBucket g h8 (fun i '(s, _) => find_callback hit (to_int32 (c * Size + i)) s) s =
  visitHashBucket g h8 (fun i '(s, _) => find_callback hit (c * Size + i) s) s.
Proof.
  intros Hc Hok Hsm. unfold visitHashBucket. pose proof (zlookup_Some_bounds _ _ _ Hc) as Hb.
  assert (group_ok g) as Hg by (by eapply zlookup_Forall). pose proof (group_len g Hg) as Hlen.
  assert (forall x, x ∈ zip (seqZ 0 (Z.of_nat (length (buckets g)))) (buckets g) -> 0 <= x.1 < 15) as Hin.
  { intros [i b] (n & [Hi _]%lookup_zip_Some)%list_elem_of_lookup. apply lookup_seqZ in Hi as [-> Hi]. cbn. lia. }
  revert s Hin. generalize (zip (seqZ 0 (Z.of_nat (length (buckets g)))) (buckets g)).
  induction l as [|[i b] l IH]; intros [s k] Hin; [done|]. cbn [foldl].
  unfold md_small, md_size, Size in *. rewrite to_int32_id by (specialize (Hin (i, b) ltac:(left)); cbn in Hin; lia).
  apply IH. intros x Hx. apply Hin. by right.
Qed.

(** No bucket matches: the iterator keeps its initial value. *)
Lemma probe_loop_absent n it md curr s :
  md_ok md -> md_small md -> hits_ok md -> 0 <= curr < md_size md ->
  (forall i, slot md i = Some (reduceHash h8) -> hit i = Some false) ->
  probe_loop n it h8 md curr (find_callback hit) (Some s) = Some (Some s).
Proof.
  revert it curr. induction n as [|n IH]; intros it curr Hok Hsm Hh Hc Hno; [done|].
  cbn [probe_loop]. destruct (zlookup_lt md curr) as [g Hg]; [done|]. rewrite Hg. cbn. rewrite (visit_to_int md) by done.
  assert (group_ok g) as Hgok by (by eapply zlookup_Forall).
  destruct (visit_spec md curr g s Hg Hgok Hh) as (it' & b & -> & Hres).
  destruct Hres as [(-> & -> & _)|(r & _ & _ & Hs & Ht)].
  2: { rewrite (Hno _ Hs) in Ht. done. }
  destruct (getMaybeOverflowed g h8); cbn; [|done].
  apply IH; [done|done|done| |done]. apply Z.mod_pos_bound. lia.
Qed.

(** One bucket [i0] matches and the groups probed before its own are marked as
    overflowed: the search ends on it. *)
Lemma probe_loop_present n it md h0 i0 s j :
  md_ok md -> md_small md -> hits_ok md -> 0 <= h0 < md_size md ->
  (forall i, slot md i = Some (reduceHash h8) -> hit i = Some true -> i = i0) ->
  slot md i0 = Some (reduceHash h8) -> hit i0 = Some true ->
  probe (md_size md) h0 j = i0 / Size ->
  (forall j', (j' < j)%nat -> overflowed md (probe (md_size md) h0 j') h8) ->
  s = i0 \/ (it <= j < it + n)%nat ->
  probe_loop n (Z.of_nat it) h8 md (probe (md_size md) h0 it) (find_callback hit) (Some s) =
  Some (Some i0).
Proof.
  intros Hok Hsm Hh H0 Huniq Hs0 Ht0 Hj Hov.
  revert it s. induction n as [|n IH]; intros it s Hcase.
  { cbn. destruct Hcase as [->|]; [done|lia]. }
  cbn [probe_loop]. set (m := md_size md) in *. pose proof (probe_range m h0 it H0) as Hc.
  destruct (zlookup_lt md (probe m h0 it)) as [g Hg]; [done|]. rewrite Hg. cbn. rewrite (visit_to_int md) by done.
  assert (group_ok g) as Hgok by (by eapply zlookup_Forall).
  destruct (visit_spec md _ g s Hg Hgok Hh) as (it' & b & -> & Hres).
  assert (it' = i0 \/ (it' = s /\ b = true /\ it <> j)) as Hit'.
  { destruct Hres as [(-> & -> & Hno)|(r & _ & -> & Hs & Ht)]; [|left; by apply Huniq].
    right. split_and!; [done|done|]. intros ->.
    specialize (Hno (i0 mod Size)). rewrite Hj in Hno. unfold Size in Hno.
    replace (i0 / 15 * 15 + i0 mod 15) with i0 in Hno by (Z.div_mod_to_equations; lia).
    rewrite Hno in Ht0; [done|apply Z.mod_pos_bound; done|done]. }
  change ((probe m h0 it + getNext (Z.of_nat it)) mod m) with (probe m h0 (S it)).
  replace (Z.of_nat it + 1) with (Z.of_nat (S it)) by lia.
  destruct Hit' as [->|(-> & -> & Hne)].
  - destruct (getMaybeOverflowed g h8), b; cbn; try done. apply IH. by left.
  - destruct Hcase as [->|Hcase].
    + destruct (getMaybeOverflowed g h8); cbn; [|done]. apply IH. by left.
    + destruct (Hov it) as (g' & Hg' & Ho); [lia|]. rewrite Hg in Hg'. injection Hg' as <-.
      rewrite Ho. cbn. apply IH. right. lia.
Qed.

End probe_find.

(** ** Iteration *)

Lemma nextValid_loop_spec n md c s :
  md_ok md -> md_small md -> 0 <= c < md_size md -> -1 <= s < 15 -> (md_size md - c <= Z.of_nat n) ->
  (exists j b, c * Size + s < j /\ slot md j = Some b /\ b <> Empty) ->
  exists r b, nextValid_loop n md c s = Some r /\ c * Size + s < r /\
    slot md r = Some b /\ b <> Empty /\
    forall j b', c * Size + s < j < r -> slot md j = Some b' -> b' = Empty.
Proof.
  intros Hok Hsm. unfold md_small in Hsm. revert c s. induction n as [|n IH]; intros c s Hc Hs Hn (j & b & Hj & Hsl & Hb); [lia|].
  cbn [nextValid_loop]. destruct (zlookup_lt md c) as [g Hg]; [done|]. rewrite Hg. cbn.
  assert (group_ok g) as Hgok by (by eapply zlookup_Forall).
  pose proof (slot_range md j b Hok Hsl) as Hjr. unfold Size in *.
  assert (forall j b', c * 15 <= j < (c + 1) * 15 -> slot md j = Some b' ->
    buckets g !! Z.to_nat (j - c * 15) = Some b') as Hgrp.
  { intros j0 b0 Hj0 Hs0. rewrite <- Hs0.
    replace j0 with (c * Size + (j0 - c * 15)) at 2 by (unfold Size; lia).
    symmetry. apply slot_at; [done|lia]. }
  destruct (nextFilledBucket_spec g s) as [[-> Hnone]|(i & b1 & -> & Hi & Hbi & Hb1 & Hlow)]; [lia| |].
  - cbn. assert (forall j b', c * 15 + s < j < (c + 1) * 15 -> slot md j = Some b' -> b' = Empty) as Hskip.
    { intros j0 b0 Hj0 Hs0. apply (Hnone (Z.to_nat (j0 - c * 15))); [lia|]. apply Hgrp; [lia|done]. }
    assert ((c + 1) * 15 <= j) as Hge.
    { destruct (decide ((c + 1) * 15 <= j)); [done|]. exfalso. apply Hb.
      apply (Hskip j); [lia|done]. }
    rewrite (proj2 (Z.ltb_lt _ _)) by lia.
    destruct (IH (c + 1) (-1)) as (r & br & -> & Hr & Hsr & Hbr & Hlow); [lia|lia|lia| |].
    { exists j, b. split; [lia|done]. }
    exists r, br. split_and!; [done|lia|done|done|]. intros j0 b0 Hj0 Hs0.
    destruct (decide (j0 < (c + 1) * 15)); [apply (Hskip j0); [lia|done]|apply (Hlow j0); [lia|done]].
  - assert (Z.of_nat i < 15).
    { apply lookup_lt_Some in Hbi. rewrite (group_len g Hgok) in Hbi. lia. }
    rewrite (proj2 (Z.eqb_neq (Z.of_nat i) InvalidSlot)) by (unfold InvalidSlot; lia).
    exists (c * 15 + Z.of_nat i), b1. rewrite int32_id by lia. cbn [mbind option_bind]. rewrite int32_id by lia.
    split_and!; [done|lia| |done|].
    + rewrite (slot_at md c g) by (done || lia). by rewrite Nat2Z.id.
    + intros j0 b0 Hj0 Hs0. apply (Hlow (Z.to_nat (j0 - c * 15))); [lia|].
      apply Hgrp; [lia|done].
Qed.

(** The next non-empty slot after [last], the sentinel slot included. *)
Lemma nextValidIndex_spec md last :
  md_ok md -> md_small md -> -1 <= last < md_size md * Size - 1 ->
  slot md (md_size md * Size - 1) = Some Sentinel ->
  exists r b, nextValidIndex md last = Some r /\ last < r /\
    slot md r = Some b /\ b <> Empty /\
    forall j b', last < j < r -> slot md j = Some b' -> b' = Empty.
Proof.
  intros Hok Hsm Hl Hsent. unfold nextValidIndex. pose proof Hsm as Hsm'. unfold md_small, Size in Hsm', Hl |- *.
  rewrite int32_id by lia. cbn [mbind option_bind]. rewrite int32_id by lia. cbn [mbind option_bind].
  rewrite (proj2 (Z.leb_gt _ _)) by lia.
  unfold Size in *.
  assert (exists c s, Z.quot last 15 = c /\ Z.rem last 15 = s /\ last = c * 15 + s /\
    0 <= c < md_size md /\ -1 <= s < 15) as (c & s & -> & -> & Heq & Hc & Hs).
  { destruct (decide (last = -1)) as [->|].
    - exists 0, (-1). split_and!; (done || lia).
    - exists (last / 15), (last mod 15). rewrite Z.quot_div_nonneg, Z.rem_mod_nonneg by lia.
      Z.div_mod_to_equations. lia. }
  rewrite Heq. apply nextValid_loop_spec; [done|done|lia|lia|unfold md_size in *; lia|].
  exists (md_size md * 15 - 1), Sentinel. unfold Size. split_and!; [lia|done|done].
Qed.

End FlatTable.
