(* ===== verification/FlatMap.v ===== *)
(** * The hash map of Axom's core ([src/axom/core/FlatMap.hpp])

    [FlatMap] stores key-value pairs in an array of buckets next to the group
    metadata of [FlatTable].  A bucket is [None] while its storage is raw; using
    the element of a raw bucket is [None] in the operations, as is an access
    outside an array or an overflow of [axom::IndexType], which has 32 bits as by
    default.  The abstract specification of a map is the finite map of its contents.

    The load-factor test [(m_loadCount + 1) / (double)bucket_count() >= 0.875] and
    the rounding [ceil((bucket_count + 1) / 15.0)] are written on integers: a
    quotient of integers below 2^50 that differs from 7/8, or from an integer,
    does so by more than the rounding error of a double, so both give the value of
    the floating-point expression. *)

From S2P Require Import Prelude BitUtilities FlatTable.

Module FlatMap.
Import BitUtilities FlatTable.

(** ** Definitions *)

(** The exception [at] throws. *)
Inductive exn := out_of_range.

Section FlatMap.
Context {K V : Type} `{Countable K}.
(** The user's hash function, a template parameter of the class. *)
Context (HashFunc : K -> Z).

Record FlatMap := mkFlatMap {
  m_numGroups2 : Z;
  m_size : Z;
  m_metadata : list GroupBucket;
  m_buckets : list (option (K * V));
  m_loadCount : Z
}.

Definition MIN_NUM_BUCKETS : Z := 29.
Definition BucketsPerGroup : Z := Size.

Definition MixedHash (key : K) : Z := HashMixer64 HashFunc key.

Definition bucket_count (m : FlatMap) : Z := Z.of_nat (length (m_buckets m)).
Definition size (m : FlatMap) : Z := m_size m.
Definition empty (m : FlatMap) : bool := m_size m =? 0.

Definition ceil_div (a b : Z) : Z := - ((- a) / b).

(** [FlatMap(IndexType bucket_count)]. *)
Definition make (bucket_count : Z) : option FlatMap :=
  let bucket_count := Z.max MIN_NUM_BUCKETS bucket_count in
  n ← int32 (bucket_count + 1);
  numGroups ← int32 (ceil_div n BucketsPerGroup);
  let numGroups2 := 31 - countl_zero numGroups in
  numGroupsRounded ← int32 (Z.shiftl 1 numGroups2);
  b ← int32 (numGroupsRounded * BucketsPerGroup);
  numBuckets ← int32 (b - 1);
  let md := replicate (Z.to_nat numGroupsRounded) newGroup in
  g ← md.[numGroupsRounded - 1];
  md ← zupdate md (numGroupsRounded - 1) (setSentinel g);
  Some (mkFlatMap numGroups2 0 md (replicate (Z.to_nat numBuckets) None) 0).

(** Iterators are bucket indices. *)
Definition begin_ (m : FlatMap) : option Z := nextValidIndex (m_metadata m) NO_MATCH.
Definition end_ (m : FlatMap) : Z := bucket_count m.
Definition next_ (m : FlatMap) (it : Z) : option Z := nextValidIndex (m_metadata m) it.
Definition deref (m : FlatMap) (it : Z) : option (K * V) := b ← (m_buckets m).[it]; b.

(** The loop [for(it = first; it != end(); ++it)] over the pairs. *)
Fixpoint range_loop (n : nat) (m : FlatMap) (it : Z) : option (list (K * V)) :=
  match n with
  | O => None
  | S n =>
    if it =? end_ m then Some [] else
    kv ← deref m it; it' ← next_ m it; rest ← range_loop n m it'; Some (kv :: rest)
  end.

Definition range (m : FlatMap) : option (list (K * V)) :=
  it ← begin_ m; range_loop (S (length (m_buckets m))) m it.

Definition hit (m : FlatMap) (key : K) (i : Z) : option bool :=
  kv ← deref m i; Some (bool_decide (kv.1 = key)).

Definition find (m : FlatMap) (key : K) : option Z :=
  r ← probeIndex (m_numGroups2 m) (m_metadata m) (MixedHash key)
        (find_callback (hit m key)) (Some (end_ m));
  r.

Definition at_ (m : FlatMap) (key : K) : option (V + exn) :=
  it ← find m key;
  if it =? end_ m then Some (inr out_of_range) else kv ← deref m it; Some (inl kv.2).

Definition contains (m : FlatMap) (key : K) : option bool :=
  it ← find m key; Some (negb (it =? end_ m)).

Definition count (m : FlatMap) (key : K) : option Z :=
  c ← contains m key; Some (if (c : bool) then 1 else 0).

(** [emplaceImpl]: construct in a new bucket, or assign to an existing one. *)
Definition emplaceImpl (m : FlatMap) (pos : Z * bool) (assign_on_existence : bool) (kv : K * V)
    : option FlatMap :=
  let '(bucketIndex, inserted) := pos in
  let with_buckets b := mkFlatMap (m_numGroups2 m) (m_size m) (m_metadata m) b (m_loadCount m) in
  if inserted then
    b ← zupdate (m_buckets m) bucketIndex (Some kv); Some (with_buckets b)
  else if assign_on_existence then
    old ← deref m bucketIndex;
    b ← zupdate (m_buckets m) bucketIndex (Some (old.1, kv.2)); Some (with_buckets b)
  else Some m.

(** The functions that insert call each other through [rehash]; the nested
    insertion is the parameter [ins], instantiated below. *)
Section with_insert.
Context (ins : FlatMap -> K * V -> option FlatMap).

Definition insert_range_with (m : FlatMap) (kvs : list (K * V)) : option FlatMap :=
  foldl (fun acc kv => m ← acc; ins m kv) (Some m) kvs.

Definition construct_range_with (num_elems : Z) (kvs : list (K * V)) (bucket_count : Z)
    : option FlatMap :=
  m ← make (Z.max num_elems bucket_count); insert_range_with m kvs.

Definition rehash_with (m : FlatMap) (cnt : Z) : option FlatMap :=
  kvs ← range m; construct_range_with (m_size m) kvs cnt.

Definition getEmplacePos_with (m : FlatMap) (key : K) : option (FlatMap * (Z * bool)) :=
  let hash := MixedHash key in
  existing_elem ← find m key;
  if negb (existing_elem =? end_ m) then Some (m, (existing_elem, false)) else
  m ← (if 7 * bucket_count m <=? 8 * (m_loadCount m + 1) then
         newNumGroups ← int32 (md_size (m_metadata m) * 2);
         b ← int32 (newNumGroups * BucketsPerGroup);
         cnt ← int32 (b - 1);
         rehash_with m cnt
       else Some m);
  r ← probeEmptyIndex (m_numGroups2 m) (m_metadata m) hash;
  let '(md, newBucket) := r in
  md ← setBucketHash md newBucket hash;
  size ← int32 (m_size m + 1);
  Some (mkFlatMap (m_numGroups2 m) size md (m_buckets m) (wrap 64 (m_loadCount m + 1)),
        (newBucket, true)).

Definition emplace_with (m : FlatMap) (assign : bool) (kv : K * V) : option (FlatMap * (Z * bool)) :=
  r ← getEmplacePos_with m kv.1;
  let '(m, pos) := r in
  m ← emplaceImpl m pos assign kv; Some (m, pos).

End with_insert.

(** Insertion with a bound on the nesting of rehashes. *)
Fixpoint emplace_fuel (n : nat) (assign : bool) (m : FlatMap) (kv : K * V)
    : option (FlatMap * (Z * bool)) :=
  match n with
  | O => None
  | S n => emplace_with (fun m kv => fst <$> emplace_fuel n false m kv) m assign kv
  end.

(** A rehash never triggers another one inside the insertion that started it, so
    two levels are enough (see [emplace_total]). *)
Definition max_nesting : nat := 2.

Definition insert (m : FlatMap) (kv : K * V) := emplace_fuel max_nesting false m kv.
Definition insert_or_assign (m : FlatMap) (key : K) (v : V) :=
  emplace_fuel max_nesting true m (key, v).
Definition try_emplace (m : FlatMap) (key : K) (v : V) :=
  emplace_fuel max_nesting false m (key, v).

(** [operator[]]: the value of the key, inserting the default one if needed. *)
Definition index_op (dflt : V) (m : FlatMap) (key : K) : option (FlatMap * V) :=
  r ← try_emplace m key dflt;
  let '(m, (it, _)) := r in kv ← deref m it; Some (m, kv.2).

Definition nested_insert (m : FlatMap) (kv : K * V) : option FlatMap := fst <$> insert m kv.

Definition insert_range (m : FlatMap) (kvs : list (K * V)) : option FlatMap :=
  insert_range_with nested_insert m kvs.
Definition construct_range (kvs : list (K * V)) (bucket_count : Z) : option FlatMap :=
  construct_range_with nested_insert (to_int32 (Z.of_nat (length kvs))) kvs bucket_count.
Definition rehash (m : FlatMap) (cnt : Z) : option FlatMap := rehash_with nested_insert m cnt.
Definition reserve (m : FlatMap) (cnt : Z) : option FlatMap := n ← int32 (ceil_div (8 * cnt) 7); rehash m n.

(** [erase(const_iterator)]: the size field is not touched by the source. *)
Definition erase_at (m : FlatMap) (it : Z) : option (FlatMap * Z) :=
  if it =? end_ m then None else
  kv ← deref m it;
  let hash := MixedHash kv.1 in
  r ← clearBucket (m_metadata m) it hash;
  let '(md, midSequence) := r in
  b ← zupdate (m_buckets m) it None;
  let m' := mkFlatMap (m_numGroups2 m) (m_size m) md b
              (if (midSequence : bool) then m_loadCount m else wrap 64 (m_loadCount m - 1)) in
  it' ← next_ m' it;
  Some (m', it').

Definition erase (m : FlatMap) (key : K) : option (FlatMap * Z) :=
  it ← find m key;
  if negb (it =? end_ m) then r ← erase_at m it; Some (r.1, 1) else Some (m, 0).

(** The loop over the valid indices that destroys the elements. *)
Fixpoint destroy_loop (n : nat) (m : FlatMap) (it : Z) (b : list (option (K * V)))
    : option (list (option (K * V))) :=
  match n with
  | O => None
  | S n =>
    if it <? bucket_count m then
      _ ← deref m it; b ← zupdate b it None; it' ← next_ m it; destroy_loop n m it' b
    else Some b
  end.

Definition clear (m : FlatMap) : option FlatMap :=
  it ← begin_ m;
  b ← destroy_loop (S (length (m_buckets m))) m it (m_buckets m);
  md ← for_range 0 (md_size (m_metadata m))
         (fun i md => x ← md.[i]; x' ← Some newGroup; zupdate md i x') (m_metadata m);
  g ← md.[md_size md - 1];
  md ← zupdate md (md_size md - 1) (setSentinel g);
  Some (mkFlatMap (m_numGroups2 m) 0 md b 0).

(** Copy constructor: metadata copied, elements copied at the valid indices. *)
Fixpoint copy_loop (n : nat) (other : FlatMap) (it : Z) (b : list (option (K * V)))
    : option (list (option (K * V))) :=
  match n with
  | O => None
  | S n =>
    if it <? bucket_count other then
      kv ← deref other it; b ← zupdate b it (Some kv); it' ← next_ other it;
      copy_loop n other it' b
    else Some b
  end.

Definition copy (other : FlatMap) : option FlatMap :=
  it ← begin_ other;
  b ← copy_loop (S (length (m_buckets other))) other it (replicate (length (m_buckets other)) None);
  Some (mkFlatMap (m_numGroups2 other) (m_size other) (m_metadata other) b (m_loadCount other)).

Definition swap (a b : FlatMap) : FlatMap * FlatMap :=
  (mkFlatMap (m_numGroups2 b) (m_size b) (m_metadata b) (m_buckets b) (m_loadCount b),
   mkFlatMap (m_numGroups2 a) (m_size a) (m_metadata a) (m_buckets a) (m_loadCount a)).

(** ** Contents and invariant *)

Definition stored (m : FlatMap) (i : Z) (kv : K * V) : Prop := (m_buckets m).[i] = Some (Some kv).

Definition kvs (m : FlatMap) : list (K * V) := omap id (m_buckets m).
Definition contents (m : FlatMap) : gmap K V := list_to_map (kvs m).
Definition filled (m : FlatMap) : Z := Z.of_nat (length (kvs m)).

Definition key8 (key : K) : Z := hash8 (MixedHash key).

(** A key is reachable at bucket [i]: its probe sequence comes to the group of
    [i] through groups marked as overflowed for its hash. *)
Definition reachable (m : FlatMap) (i : Z) (key : K) : Prop :=
  exists j, Z.of_nat j < md_size (m_metadata m) /\
    let p := probe (md_size (m_metadata m)) (firstGroup (m_numGroups2 m) (MixedHash key)) in
    p j = i / Size /\
    forall j', (j' < j)%nat -> overflowed (m_metadata m) (p j') (key8 key).

Record wf (m : FlatMap) : Prop := {
  wf_groups : exists k : nat, (1 <= k <= 27)%nat /\ m_numGroups2 m = Z.of_nat k /\
                md_size (m_metadata m) = 2 ^ Z.of_nat k;
  wf_buckets : bucket_count m = md_size (m_metadata m) * Size - 1;
  wf_md : md_ok (m_metadata m);
  wf_sentinel : slot (m_metadata m) (bucket_count m) = Some Sentinel;
  wf_raw : forall i, (m_buckets m).[i] = Some None -> slot (m_metadata m) i = Some Empty;
  wf_stored : forall i kv, stored m i kv -> slot (m_metadata m) i = Some (reduceHash (key8 kv.1));
  wf_unique : forall i j kv kv', stored m i kv -> stored m j kv' -> kv.1 = kv'.1 -> i = j;
  wf_reach : forall i kv, stored m i kv -> reachable m i kv.1;
  wf_load : filled m <= m_loadCount m /\ 8 * m_loadCount m < 7 * bucket_count m;
  wf_size : filled m <= m_size m
}.

(** ** Stored elements *)

Implicit Types (m : FlatMap) (key : K) (kv : K * V).

Lemma stored_range m i kv : stored m i kv -> 0 <= i < bucket_count m.
Proof. apply zlookup_Some_bounds. Qed.

Lemma deref_stored m i kv : stored m i kv <-> deref m i = Some kv.
Proof.
  unfold stored, deref. destruct ((m_buckets m).[i]) as [[?|]|]; cbn; naive_solver.
Qed.

Lemma bucket_cases m i :
  0 <= i < bucket_count m -> (m_buckets m).[i] = Some None \/ exists kv, stored m i kv.
Proof.
  intros Hi. destruct (zlookup_lt (m_buckets m) i Hi) as [[kv|] Hb]; [right|by left].
  by exists kv.
Qed.

Lemma elem_of_kvs m kv : kv ∈ kvs m <-> exists i, stored m i kv.
Proof.
  unfold kvs, stored. rewrite elem_of_omap_id, list_elem_of_lookup. split.
  - intros [i Hi]. exists (Z.of_nat i). by rewrite zlookup_of_nat.
  - intros [i Hi]. pose proof (zlookup_Some_bounds _ _ _ Hi).
    rewrite zlookup_to_nat in Hi by lia. eauto.
Qed.

Lemma kvs_NoDup m : wf m -> NoDup (kvs m).*1.
Proof.
  intros Hwf. apply omap_id_keys_NoDup. intros i j kv kv' Hi Hj Heq.
  rewrite <- zlookup_of_nat in Hi, Hj. pose proof (wf_unique m Hwf _ _ _ _ Hi Hj Heq). lia.
Qed.

Lemma contents_stored m key v :
  wf m -> contents m !! key = Some v <-> exists i, stored m i (key, v).
Proof.
  intros Hwf. unfold contents. rewrite <- elem_of_list_to_map by (by apply kvs_NoDup).
  apply elem_of_kvs.
Qed.

Lemma contents_absent m key :
  wf m -> contents m !! key = None <-> forall i v, ~ stored m i (key, v).
Proof.
  intros Hwf. rewrite eq_None_not_Some. split.
  - intros Hn i v Hs. apply Hn. exists v. apply contents_stored; eauto.
  - intros Hn [v Hv]. apply contents_stored in Hv as [i Hi]; [|done]. by eapply Hn.
Qed.

(** Two well-formed maps with the same stored pairs have the same contents. *)
Lemma contents_ext m (M : gmap K V) :
  wf m -> (forall key v, (exists i, stored m i (key, v)) <-> M !! key = Some v) -> contents m = M.
Proof.
  intros Hwf Heq. apply map_eq. intros key. apply option_eq. intros v.
  rewrite contents_stored by done. apply Heq.
Qed.

Lemma filled_size m : wf m -> filled m = Z.of_nat (base.size (contents m)).
Proof.
  intros Hwf. unfold filled, contents. f_equal.
  rewrite <- (map_to_list_to_map (kvs m)) at 1 by (by apply kvs_NoDup).
  apply length_map_to_list.
Qed.

Lemma wf_md_size m : wf m -> 2 <= md_size (m_metadata m).
Proof.
  intros Hwf. destruct (wf_groups m Hwf) as (k & Hk & _ & ->).
  change 2 with (2 ^ 1) at 1. apply Z.pow_le_mono_r; lia.
Qed.

Lemma wf_small m : wf m -> md_small (m_metadata m).
Proof.
  intros Hwf. destruct (wf_groups m Hwf) as (k & Hk & _ & Hsz). unfold md_small. rewrite Hsz.
  assert (2 ^ Z.of_nat k <= 2 ^ 27) by (apply Z.pow_le_mono_r; lia). unfold Size. lia.
Qed.

Lemma key8_word key : in_word 8 (key8 key).
Proof. apply hash8_word. Qed.

(** A non-empty slot below the sentinel belongs to a stored pair. *)
Lemma slot_nonempty_stored m i b :
  wf m -> slot (m_metadata m) i = Some b -> b <> Empty -> i < bucket_count m ->
  exists kv, stored m i kv.
Proof.
  intros Hwf Hs Hb Hi. pose proof (slot_range _ _ _ (wf_md m Hwf) Hs) as Hr.
  destruct (bucket_cases m i) as [Hraw|]; [lia| |done].
  apply (wf_raw m Hwf) in Hraw. congruence.
Qed.

(** ** Lookup *)

Lemma find_hits_ok m key : wf m -> hits_ok (hit m key) (key8 key) (m_metadata m).
Proof.
  intros Hwf i Hs. pose proof (slot_range _ _ _ (wf_md m Hwf) Hs) as Hr.
  assert (2 <= reduceHash (key8 key)) by (apply reduceHash_ge2, key8_word).
  assert (i <> bucket_count m) as Hne.
  { intros ->. rewrite (wf_sentinel m Hwf) in Hs. injection Hs as Hs. unfold Sentinel in Hs. lia. }
  rewrite (wf_buckets m Hwf) in Hne.
  destruct (slot_nonempty_stored m i _ Hwf Hs) as [kv Hkv];
    [unfold Empty; lia|rewrite (wf_buckets m Hwf); lia|].
  unfold hit. apply deref_stored in Hkv. rewrite Hkv. cbn. eauto.
Qed.

Lemma hit_true m key i : hit m key i = Some true -> exists v, stored m i (key, v).
Proof.
  unfold hit. destruct (deref m i) as [[k v]|] eqn:Hd; [|done]. cbn. intros Hb.
  injection Hb as Hb%bool_decide_eq_true. subst k. exists v. by apply deref_stored.
Qed.

Lemma hit_stored m key i v : stored m i (key, v) -> hit m key i = Some true.
Proof.
  intros Hs%deref_stored. unfold hit. rewrite Hs. cbn. by rewrite bool_decide_true.
Qed.

Lemma find_spec m key :
  wf m ->
  (exists i v, stored m i (key, v) /\ find m key = Some i /\ contents m !! key = Some v) \/
  (find m key = Some (end_ m) /\ contents m !! key = None).
Proof.
  intros Hwf. pose proof (find_hits_ok m key Hwf) as Hok.
  destruct (wf_groups m Hwf) as (k & Hk & Hk2 & Hsz).
  pose proof (firstGroup_range (Z.of_nat k) (MixedHash key) ltac:(lia)) as Hfg.
  rewrite <- Hsz, <- Hk2 in Hfg. unfold find, probeIndex. fold (key8 key).
  destruct (contents m !! key) as [v|] eqn:Hc.
  - left. apply contents_stored in Hc as Hs; [|done]. destruct Hs as [i Hi]. exists i, v.
    split_and!; [done| |done]. destruct (wf_reach m Hwf i _ Hi) as (j & Hj & Hp & Hov).
    pose proof (probe_loop_present (hit m key) (key8 key) (length (m_metadata m)) 0 (m_metadata m)
      (firstGroup (m_numGroups2 m) (MixedHash key)) i (end_ m) j) as Hpr.
    change (Z.of_nat 0) with 0 in Hpr. cbn [probe] in Hpr. rewrite Hpr; [done|..].
    + apply Hwf.
    + by apply wf_small.
    + done.
    + done.
    + intros i' _ (v' & Hi')%hit_true. by eapply (wf_unique m Hwf).
    + by apply (wf_stored m Hwf i (key, v)).
    + by eapply hit_stored.
    + done.
    + done.
    + right. unfold md_size in Hj. lia.
  - right. split; [|done]. rewrite contents_absent in Hc by done.
    rewrite probe_loop_absent; [done|apply Hwf|by apply wf_small|done|done|].
    intros i Hs. destruct (Hok i Hs) as [[|] Hh]; [|done]. exfalso.
    apply hit_true in Hh as [v Hv]. by eapply Hc.
Qed.

(** ** Iteration *)

Lemma next_valid m it :
  wf m -> -1 <= it < bucket_count m ->
  exists r, nextValidIndex (m_metadata m) it = Some r /\ it < r <= bucket_count m /\
    (forall j, it < j < r -> (m_buckets m).[j] = Some None) /\
    (r < bucket_count m -> exists kv, stored m r kv).
Proof.
  intros Hwf Hit. pose proof (wf_buckets m Hwf) as Hbc.
  destruct (nextValidIndex_spec (m_metadata m) it) as (r & b & Hr & Hlt & Hs & Hb & Hlow);
    [apply Hwf|by apply wf_small|lia|rewrite <- Hbc; apply Hwf|].
  pose proof (slot_range _ _ _ (wf_md m Hwf) Hs) as Hrr.
  exists r. split_and!; [done|lia|lia| |].
  - intros j Hj. destruct (bucket_cases m j) as [|[kv Hkv]]; [lia|done|]. exfalso.
    pose proof (wf_stored m Hwf j kv Hkv) as Hsj. pose proof (Hlow j _ Hj Hsj) as He.
    pose proof (reduceHash_ge2 (key8 kv.1)). pose proof (key8_word kv.1) as [? _].
    unfold Empty in He. lia.
  - intros Hrb. by eapply slot_nonempty_stored.
Qed.

Lemma kvs_drop_skip m it r :
  0 <= it + 1 <= r -> (forall j, it < j < r -> (m_buckets m).[j] = Some None) ->
  omap id (drop (Z.to_nat (it + 1)) (m_buckets m)) = omap id (drop (Z.to_nat r) (m_buckets m)).
Proof.
  intros Hir Hraw. apply omap_id_drop_skip; [|lia]. intros i Hi.
  rewrite <- zlookup_of_nat. apply Hraw. lia.
Qed.

Lemma range_loop_spec n m it :
  wf m -> 0 <= it <= bucket_count m -> bucket_count m - it < Z.of_nat n ->
  (it < bucket_count m -> exists kv, stored m it kv) ->
  range_loop n m it = Some (omap id (drop (Z.to_nat it) (m_buckets m))).
Proof.
  intros Hwf. revert it. induction n as [|n IH]; intros it Hit Hn Hst; [lia|].
  cbn [range_loop]. unfold end_. destruct (Z.eqb_spec it (bucket_count m)) as [->|Hne].
  - unfold bucket_count. by rewrite Nat2Z.id, drop_all.
  - destruct Hst as [kv Hkv]; [lia|]. rewrite (proj1 (deref_stored m it kv) Hkv). cbn.
    destruct (next_valid m it Hwf) as (r & Hr & Hlt & Hraw & Hst'); [lia|].
    unfold next_. rewrite Hr. cbn. rewrite IH; [|lia|lia|done]. cbn.
    unfold stored in Hkv. rewrite zlookup_to_nat in Hkv by lia.
    rewrite (drop_S _ _ _ Hkv). cbn. rewrite <- (kvs_drop_skip m it r) by (done || lia).
    by replace (Z.to_nat (it + 1)) with (S (Z.to_nat it)) by lia.
Qed.

Lemma range_spec m : wf m -> range m = Some (kvs m).
Proof.
  intros Hwf. unfold range, begin_, NO_MATCH. assert (0 <= bucket_count m) by (unfold bucket_count; lia).
  destruct (next_valid m (-1) Hwf) as (r & -> & Hlt & Hraw & Hst); [|cbn [mbind option_bind]].
  { pose proof (wf_md_size m Hwf). rewrite (wf_buckets m Hwf). unfold Size. lia. }
  rewrite range_loop_spec; [|done|lia|unfold bucket_count; lia|done].
  rewrite <- (kvs_drop_skip m (-1) r) by (done || lia). done.
Qed.

(** ** Construction *)

(** The number of groups the constructor allocates for [n] requested buckets. *)
Definition groups_for (n : Z) : Z := ceil_div (Z.max MIN_NUM_BUCKETS n + 1) BucketsPerGroup.

Lemma ceil_div_spec a b : 0 < b -> b * (ceil_div a b - 1) < a <= b * ceil_div a b.
Proof. intros Hb. unfold ceil_div. Z.div_mod_to_equations. nia. Qed.

Lemma groups_for_ge2 n : 2 <= groups_for n.
Proof.
  unfold groups_for. pose proof (ceil_div_spec (Z.max MIN_NUM_BUCKETS n + 1) BucketsPerGroup) as Hc.
  unfold MIN_NUM_BUCKETS, BucketsPerGroup, Size in *. lia.
Qed.

(** The metadata of an empty table: all slots empty but the sentinel. *)
Lemma empty_metadata_slot (g : Z) md' i :
  1 <= g -> zupdate (replicate (Z.to_nat g) newGroup) (g - 1) (setSentinel newGroup) = Some md' ->
  0 <= i < g * Size -> slot md' i = Some (if decide (i = g * Size - 1) then Sentinel else Empty).
Proof.
  intros Hg Hu Hi.
  assert (forall c, 0 <= c < g -> (replicate (Z.to_nat g) newGroup).[c] = Some newGroup) as Hrep.
  { intros c Hc. rewrite zlookup_to_nat by lia. apply lookup_replicate_2. lia. }
  rewrite (slot_write (replicate (Z.to_nat g) newGroup) (g - 1) newGroup 14 Sentinel 0 md' i)
    by (done || apply newGroup_ok || apply Hrep; lia).
  unfold Size in *. destruct (decide (i = g * 15 - 1)) as [->|Hne]; [by rewrite decide_True by lia|].
  rewrite decide_False by lia. unfold slot, Size.
  rewrite Hrep by (Z.div_mod_to_equations; lia). cbn [mbind option_bind].
  apply lookup_replicate_2. unfold Size. Z.div_mod_to_equations. lia.
Qed.

Lemma empty_wf k g md b load :
  (1 <= k <= 27)%nat -> g = 2 ^ Z.of_nat k ->
  zupdate (replicate (Z.to_nat g) newGroup) (g - 1) (setSentinel newGroup) = Some md ->
  Z.of_nat (length b) = g * Size - 1 -> (forall i, 0 <= i < g * Size - 1 -> b.[i] = Some None) ->
  load = 0 ->
  let m := mkFlatMap (Z.of_nat k) 0 md b load in wf m /\ kvs m = [].
Proof.
  intros Hk Hg Hu Hlen Hraw Hload m.
  assert (2 <= g) by (rewrite Hg; change 2 with (2 ^ 1) at 1; apply Z.pow_le_mono_r; lia).
  assert (md_size md = g) as Hsz.
  { unfold md_size. rewrite (zupdate_length _ _ _ _ Hu), length_replicate. lia. }
  assert (forall i kv, ~ stored m i kv) as Hnone.
  { intros i kv Hs. pose proof (stored_range _ _ _ Hs) as Hr. unfold bucket_count in Hr.
    unfold stored in Hs. cbn in *. rewrite Hraw in Hs by lia. done. }
  assert (kvs m = []) as Hk0.
  { destruct (kvs m) as [|kv l] eqn:E; [done|]. exfalso.
    assert (kv ∈ kvs m) as [i Hi]%elem_of_kvs by (rewrite E; left). by eapply Hnone. }
  split; [|done]. split; cbn.
  - exists k. by rewrite Hsz.
  - by rewrite Hsz.
  - eapply md_ok_zupdate; [|done|].
    + apply Forall_replicate, newGroup_ok.
    + split; cbn; [done|by split|]. by repeat constructor.
  - rewrite (empty_metadata_slot g md) by (done || unfold bucket_count, Size in *; cbn; lia).
    rewrite decide_True by done. done.
  - intros i Hi. pose proof (zlookup_Some_bounds _ _ _ Hi).
    rewrite (empty_metadata_slot g md) by (done || unfold Size in *; lia).
    by rewrite decide_False by lia.
  - intros i kv Hs. by apply Hnone in Hs.
  - intros i j kv kv' Hs. by apply Hnone in Hs.
  - intros i kv Hs. by apply Hnone in Hs.
  - unfold filled. rewrite Hk0. unfold bucket_count. cbn. unfold Size in *. lia.
  - unfold filled. by rewrite Hk0.
Qed.

Lemma groups_for_bound n : n < 2 ^ 31 - 1 -> groups_for n < 2 ^ 28.
Proof.
  intros Hn. unfold groups_for.
  pose proof (ceil_div_spec (Z.max MIN_NUM_BUCKETS n + 1) BucketsPerGroup) as Hc.
  unfold MIN_NUM_BUCKETS, BucketsPerGroup, Size in *. lia.
Qed.

Lemma make_spec n :
  n < 2 ^ 31 - 1 ->
  exists m, make n = Some m /\ wf m /\ kvs m = [] /\ m_loadCount m = 0 /\ m_size m = 0 /\
    m_numGroups2 m = Z.log2 (groups_for n) /\
    md_size (m_metadata m) = 2 ^ Z.log2 (groups_for n).
Proof.
  intros Hn. pose proof (groups_for_ge2 n) as H2. pose proof (groups_for_bound n Hn) as H28. unfold make.
  rewrite int32_id by (unfold MIN_NUM_BUCKETS; lia). cbn [mbind option_bind]. fold (groups_for n).
  rewrite int32_id by lia. cbn [mbind option_bind]. rewrite countl_zero_pos by lia.
  replace (31 - (31 - Z.log2 (groups_for n))) with (Z.log2 (groups_for n)) by lia.
  rewrite Z.shiftl_1_l. set (kz := Z.log2 (groups_for n)). set (g := 2 ^ kz).
  assert (1 <= kz <= 27) as Hkz.
  { split; [apply Z.log2_le_pow2; [lia|]; change (2 ^ 1) with 2; lia|].
    assert (kz < 28); [apply Z.log2_lt_pow2; lia|lia]. }
  assert (2 <= g) by (unfold g; change 2 with (2 ^ 1) at 1; apply Z.pow_le_mono_r; lia).
  assert (g <= 2 ^ 27) by (unfold g; apply Z.pow_le_mono_r; lia).
  unfold BucketsPerGroup at 1, Size at 1. rewrite !int32_id by lia. cbn [mbind option_bind]. rewrite !int32_id by lia. cbn [mbind option_bind].
  rewrite !int32_id by lia. cbn [mbind option_bind].
  rewrite zlookup_to_nat by lia. rewrite lookup_replicate_2 by lia. cbn [mbind option_bind].
  destruct (zupdate (replicate (Z.to_nat g) newGroup) (g - 1) (setSentinel newGroup))
    as [md|] eqn:Hu.
  2: { rewrite zupdate_lt in Hu by (rewrite length_replicate; lia). done. }
  cbn [mbind option_bind]. eexists. split; [done|].
  destruct (empty_wf (Z.to_nat kz) g md (replicate (Z.to_nat (g * 15 - 1)) None) 0)
    as [Hwf Hk]; [lia|unfold g; f_equal; lia|done| | |done|].
  - rewrite length_replicate. unfold Size. lia.
  - intros i Hi. rewrite zlookup_to_nat by lia. apply lookup_replicate_2.
    unfold Size in *. lia.
  - rewrite Z2Nat.id in Hwf, Hk by lia. split_and!; try done.
    cbn. unfold md_size. rewrite (zupdate_length _ _ _ _ Hu), length_replicate. lia.
Qed.

(** ** Placing a new element *)

Lemma reachable_mono m m' i key :
  m_numGroups2 m' = m_numGroups2 m -> length (m_metadata m') = length (m_metadata m) ->
  (forall c h, overflowed (m_metadata m) c h -> overflowed (m_metadata m') c h) ->
  reachable m i key -> reachable m' i key.
Proof.
  intros Hk Hl Ho (j & Hj & Hp & Hov). unfold reachable. unfold md_size in *.
  rewrite Hk, Hl. exists j. split; [done|]. split; [done|]. intros j' Hj'. apply Ho. by apply Hov.
Qed.

Lemma stored_insert m m' nb kv0 i kv :
  0 <= nb < bucket_count m -> m_buckets m' = <[Z.to_nat nb := Some kv0]> (m_buckets m) ->
  stored m' i kv <-> (i = nb /\ kv = kv0) \/ (i <> nb /\ stored m i kv).
Proof.
  intros Hnb Hb. unfold stored. rewrite Hb, zlookup_insert by done.
  destruct (decide (nb = i)) as [->|]; naive_solver.
Qed.

Lemma free_slot m :
  wf m -> 8 * (m_loadCount m + 1) < 7 * bucket_count m ->
  exists i, slot (m_metadata m) i = Some Empty.
Proof.
  intros Hwf Hload. destruct (wf_load m Hwf) as [Hf _].
  destruct (omap_id_not_full (m_buckets m)) as [i Hi].
  { unfold filled, kvs, bucket_count in *. lia. }
  exists (Z.of_nat i). apply (wf_raw m Hwf). by rewrite zlookup_of_nat.
Qed.

(** The state after writing a new pair into the bucket that probing found. *)
Lemma place_new_wf m md2 nb key v :
  wf m -> contents m !! key = None -> 8 * (m_loadCount m + 1) < 7 * bucket_count m ->
  (m_buckets m).[nb] = Some None -> md_ok md2 -> length md2 = length (m_metadata m) ->
  (forall j, slot md2 j = if decide (j = nb) then Some (reduceHash (key8 key))
                          else slot (m_metadata m) j) ->
  (forall c h, overflowed (m_metadata m) c h -> overflowed md2 c h) ->
  let m' := mkFlatMap (m_numGroups2 m) (m_size m + 1) md2
              (<[Z.to_nat nb := Some (key, v)]> (m_buckets m)) (m_loadCount m + 1) in
  reachable m' nb key ->
  wf m' /\ contents m' = <[key := v]> (contents m) /\ kvs m' ≡ₚ (key, v) :: kvs m.
Proof.
  intros Hwf Habs Hload Hraw Hok Hlen Hslot Hov m' Hre.
  pose proof (zlookup_Some_bounds _ _ _ Hraw) as Hnb. fold (bucket_count m) in Hnb.
  assert (forall i kv, stored m' i kv <-> (i = nb /\ kv = (key, v)) \/ (i <> nb /\ stored m i kv))
    as Hst by (intros; by apply stored_insert).
  assert (bucket_count m' = bucket_count m) as Hbc
    by (unfold bucket_count; cbn; by rewrite length_insert).
  rewrite contents_absent in Habs by done.
  assert (kvs m' ≡ₚ (key, v) :: kvs m) as Hperm.
  { assert (m_buckets m !! Z.to_nat nb = Some None) as Hn by (by rewrite <- zlookup_to_nat by lia).
    unfold kvs. cbn [m_buckets m']. rewrite (omap_id_insert _ _ _ _ Hn), (omap_id_split _ _ _ Hn).
    cbn. by rewrite Permutation_middle. }
  assert (filled m' = filled m + 1) as Hfill.
  { unfold filled. rewrite Hperm. cbn [length]. lia. }
  assert (wf m') as Hwf'.
  { split.
    - destruct (wf_groups m Hwf) as (k & Hk & Hk2 & Hsz). exists k. cbn. unfold md_size in *.
      by rewrite Hlen.
    - rewrite Hbc, (wf_buckets m Hwf). cbn. unfold md_size. by rewrite Hlen.
    - done.
    - rewrite Hbc. cbn. rewrite Hslot, decide_False by lia. apply Hwf.
    - intros i Hi. cbn in *. rewrite zlookup_insert in Hi by done. case_decide; [done|].
      rewrite Hslot, decide_False by congruence. by apply Hwf.
    - intros i kv Hs. cbn. rewrite Hslot. apply Hst in Hs as [[-> ->]|[Hne Hs]].
      + by rewrite decide_True.
      + rewrite decide_False by done. by apply Hwf.
    - intros i j kv kv' Hi Hj Heq. apply Hst in Hi as [[-> ->]|[Hni Hi]];
        apply Hst in Hj as [[-> ->]|[Hnj Hj]]; [done|..].
      + cbn in Heq. destruct kv' as [k' v']. cbn in Heq. subst. by apply Habs in Hj.
      + destruct kv as [k' v']. cbn in Heq. subst. by apply Habs in Hi.
      + by eapply (wf_unique m Hwf).
    - intros i kv Hs. apply Hst in Hs as [[-> ->]|[Hne Hs]]; [done|].
      apply (reachable_mono m); [done|done|done|]. by apply Hwf.
    - rewrite Hfill, Hbc. cbn. destruct (wf_load m Hwf). lia.
    - rewrite Hfill. cbn. pose proof (wf_size m Hwf). lia. }
  split_and!; [done| |done]. apply contents_ext; [done|]. intros k' v'. split.
  - intros (i & [[-> [= -> ->]]|[_ Hi]]%Hst); [by simplify_map_eq|].
    rewrite lookup_insert_ne; [apply contents_stored; eauto|]. intros ->. by apply Habs in Hi.
  - destruct (decide (key = k')) as [->|Hne]; simplify_map_eq.
    + intros [= ->]. exists nb. apply Hst. by left.
    + intros [i Hi]%contents_stored; [|done]. exists i. apply Hst. right. split; [|done].
      intros ->. unfold stored in Hi. congruence.
Qed.

Lemma place_new m key v :
  wf m -> contents m !! key = None -> 8 * (m_loadCount m + 1) < 7 * bucket_count m ->
  exists md nb md2,
    probeEmptyIndex (m_numGroups2 m) (m_metadata m) (MixedHash key) = Some (md, nb) /\
    setBucketHash md nb (MixedHash key) = Some md2 /\ 0 <= nb < bucket_count m /\
    let m' := mkFlatMap (m_numGroups2 m) (m_size m + 1) md2
                (<[Z.to_nat nb := Some (key, v)]> (m_buckets m)) (m_loadCount m + 1) in
    wf m' /\ contents m' = <[key := v]> (contents m) /\ kvs m' ≡ₚ (key, v) :: kvs m.
Proof.
  intros Hwf Habs Hload. destruct (wf_groups m Hwf) as (k & Hk & Hk2 & Hsz).
  destruct (probeEmptyIndex_spec k (m_metadata m) (MixedHash key))
    as (md & j & r & Hpe & Hokmd & Hle & Hr & Hj & Hempty & Hov);
    [apply Hwf|by apply wf_small|done|by apply free_slot|].
  rewrite <- Hk2 in *. set (p := probe _ _) in *. set (nb := p j * Size + r) in *.
  pose proof (slot_range _ _ _ (wf_md m Hwf) Hempty) as Hnbr.
  assert (md_size md = md_size (m_metadata m)) as Hszmd
    by (unfold md_size; by rewrite (proj1 Hle)).
  destruct (setBucketHash_spec md nb (MixedHash key))
    as (md2 & Hsb & Hok2 & Hlen2 & Hslot2 & Hov2); [done|by rewrite Hszmd|].
  assert (nb < bucket_count m) as Hnb.
  { rewrite (wf_buckets m Hwf). destruct (decide (nb = bucket_count m)) as [Heq|].
    - rewrite Heq, (wf_sentinel m Hwf) in Hempty. done.
    - rewrite (wf_buckets m Hwf) in *. lia. }
  exists md, nb, md2. split_and!; [done|done|lia|done|].
  apply place_new_wf; try done.
  - destruct (bucket_cases m nb) as [|[kv Hkv]]; [lia|done|]. exfalso.
    rewrite (wf_stored m Hwf _ _ Hkv) in Hempty. injection Hempty as He.
    pose proof (reduceHash_ge2 (key8 kv.1)). pose proof (key8_word kv.1) as [? _].
    unfold Empty in He. lia.
  - rewrite Hlen2. apply Hle.
  - intros i. rewrite Hslot2. case_decide; [done|]. apply Hle.
  - intros c h Ho. apply Hov2. by apply Hle.
  - exists j. cbn [m_metadata m_numGroups2]. unfold md_size in *. rewrite Hlen2, (proj1 Hle).
    fold p. split; [done|]. split.
    + unfold nb, Size. Z.div_mod_to_equations. lia.
    + intros j' Hj'. apply Hov2. by apply Hov.
Qed.

(** ** Insertion *)

(** What an insertion does to the contents. *)
Definition emplace_map (assign : bool) key (v : V) (M : gmap K V) : gmap K V :=
  match M !! key with
  | Some _ => if assign then <[key := v]> M else M
  | None => <[key := v]> M
  end.

(** Overwriting the value of a stored pair. *)
Lemma overwrite_wf m i key v0 v :
  wf m -> stored m i (key, v0) ->
  let m' := mkFlatMap (m_numGroups2 m) (m_size m) (m_metadata m)
              (<[Z.to_nat i := Some (key, v)]> (m_buckets m)) (m_loadCount m) in
  wf m' /\ contents m' = <[key := v]> (contents m).
Proof.
  intros Hwf Hs m'. pose proof (stored_range _ _ _ Hs) as Hi.
  assert (forall j kv, stored m' j kv <-> (j = i /\ kv = (key, v)) \/ (j <> i /\ stored m j kv))
    as Hst by (intros; by apply stored_insert).
  assert (bucket_count m' = bucket_count m) as Hbc
    by (unfold bucket_count; cbn; by rewrite length_insert).
  assert (filled m' = filled m) as Hfill.
  { assert (m_buckets m !! Z.to_nat i = Some (Some (key, v0))) as Hn
      by (rewrite <- zlookup_to_nat by lia; done).
    unfold filled, kvs. cbn [m_buckets m'].
    rewrite (omap_id_insert _ _ _ _ Hn), (omap_id_split _ _ _ Hn). by rewrite !length_app. }
  assert (wf m') as Hwf'.
  { split; rewrite ?Hbc, ?Hfill; try apply Hwf.
    - intros j Hj. cbn in *. rewrite zlookup_insert in Hj by done. case_decide; [done|]. by apply Hwf.
    - intros j kv [[-> ->]|[_ Hj]]%Hst; [|by apply Hwf]. by apply (wf_stored m Hwf i (key, v0)).
    - intros j1 j2 kv1 kv2 H1 H2 Heq. apply Hst in H1 as [[-> ->]|[Hn1 H1]];
        apply Hst in H2 as [[-> ->]|[Hn2 H2]]; [done|..].
      + by apply (wf_unique m Hwf _ _ _ _ Hs H2).
      + by apply (wf_unique m Hwf _ _ _ _ H1 Hs).
      + by apply (wf_unique m Hwf _ _ _ _ H1 H2).
    - intros j kv [[-> ->]|[_ Hj]]%Hst; [|by apply (wf_reach m Hwf)].
      by apply (wf_reach m Hwf i (key, v0)). }
  split; [done|]. apply contents_ext; [done|]. intros k' v'. split.
  - intros (j & [[-> [= -> ->]]|[Hne Hj]]%Hst); [by simplify_map_eq|].
    rewrite lookup_insert_ne; [apply contents_stored; eauto|]. intros ->.
    apply Hne. by apply (wf_unique m Hwf _ _ _ _ Hj Hs).
  - destruct (decide (key = k')) as [->|Hne]; simplify_map_eq.
    + intros [= ->]. exists i. apply Hst. by left.
    + intros [j Hj]%contents_stored; [|done]. exists j. apply Hst. right. split; [|done].
      intros ->. unfold stored in *. congruence.
Qed.

Lemma emplace_existing ins m assign key v i v0 :
  wf m -> stored m i (key, v0) -> find m key = Some i ->
  exists m', emplace_with ins m assign (key, v) = Some (m', (i, false)) /\ wf m' /\
    contents m' = (if assign then <[key := v]> (contents m) else contents m) /\
    stored m' i (key, if assign then v else v0) /\
    m_loadCount m' = m_loadCount m /\ m_size m' = m_size m.
Proof.
  intros Hwf Hs Hf. pose proof (stored_range _ _ _ Hs) as Hi.
  unfold emplace_with, getEmplacePos_with. cbn [fst]. rewrite Hf. cbn [mbind option_bind].
  rewrite (proj2 (Z.eqb_neq i (end_ m))) by (unfold end_; lia). cbn.
  destruct assign.
  - rewrite (proj1 (deref_stored m i _) Hs). cbn. rewrite zupdate_lt by done. cbn.
    destruct (overwrite_wf m i key v0 v Hwf Hs) as [Hwf' Hc].
    eexists. split_and!; [done|done|done| |done|done].
    unfold stored. cbn. rewrite zlookup_insert by done. by rewrite decide_True.
  - eauto 10.
Qed.

(** The load stays far below the range of its counter. *)
Lemma load_word m : wf m -> in_word 64 (m_loadCount m) /\ m_loadCount m + 1 < 2 ^ 64.
Proof.
  intros Hwf. destruct (wf_load m Hwf) as [Hf Hl]. destruct (wf_groups m Hwf) as (k & Hk & _ & Hsz).
  rewrite (wf_buckets m Hwf), Hsz in Hl.
  assert (2 ^ Z.of_nat k <= 2 ^ 27) by (apply Z.pow_le_mono_r; lia).
  unfold filled, Size, in_word in *. lia.
Qed.

(** Insertion of an absent key into a map that stays below the load factor. *)
Lemma emplace_new ins m assign key v :
  wf m -> contents m !! key = None -> 8 * (m_loadCount m + 1) < 7 * bucket_count m -> m_size m + 1 < 2 ^ 31 ->
  exists m' i, emplace_with ins m assign (key, v) = Some (m', (i, true)) /\ wf m' /\
    contents m' = <[key := v]> (contents m) /\ stored m' i (key, v) /\
    kvs m' ≡ₚ (key, v) :: kvs m /\ bucket_count m' = bucket_count m /\
    m_loadCount m' = m_loadCount m + 1 /\ m_size m' = m_size m + 1.
Proof.
  intros Hwf Habs Hload Hsize. pose proof (load_word m Hwf) as Hw. pose proof (wf_size m Hwf) as Hs0.
  destruct (place_new m key v Hwf Habs Hload)
    as (md & nb & md2 & Hpe & Hsb & Hnb & Hwf' & Hc & Hp).
  unfold emplace_with, getEmplacePos_with. cbn [fst].
  destruct (find_spec m key Hwf) as [(i & v0 & _ & _ & Hs)|[-> _]]; [congruence|].
  cbn [mbind option_bind]. rewrite Z.eqb_refl. cbn [negb].
  rewrite (proj2 (Z.leb_gt _ _)) by lia. cbn [mbind option_bind].
  rewrite Hpe. cbn [mbind option_bind]. rewrite Hsb. cbn [mbind option_bind emplaceImpl].
  rewrite int32_id by (unfold filled in *; lia). rewrite wrap_id by (unfold in_word in *; lia). cbn [mbind option_bind emplaceImpl m_buckets]. rewrite zupdate_lt by done. cbn.
  do 2 eexists. split_and!; [done|done|done| |done| |done|done].
  - unfold stored. cbn. rewrite zlookup_insert by done. by rewrite decide_True.
  - unfold bucket_count. cbn. by rewrite length_insert.
Qed.

(** Inserting pairs with new, different keys below the load factor. *)
Lemma insert_range_fits n m l :
  wf m -> NoDup l.*1 -> (forall kv, kv ∈ l -> contents m !! kv.1 = None) ->
  8 * (m_loadCount m + Z.of_nat (length l)) < 7 * bucket_count m -> m_size m + Z.of_nat (length l) < 2 ^ 31 ->
  exists m', insert_range_with (fun m kv => fst <$> emplace_fuel (S n) false m kv) m l = Some m' /\
    wf m' /\ kvs m' ≡ₚ l ++ kvs m /\ bucket_count m' = bucket_count m /\
    m_loadCount m' = m_loadCount m + Z.of_nat (length l) /\
    m_size m' = m_size m + Z.of_nat (length l).
Proof.
  revert m. induction l as [|[key v] l IH]; intros m Hwf Hnd Habs Hload Hsize.
  { exists m. cbn. split_and!; (done || lia). }
  inversion_clear Hnd as [|? ? Hnin Hnd']. cbn [length] in Hload, Hsize.
  destruct (emplace_new (fun m kv => fst <$> emplace_fuel n false m kv) m false key v Hwf)
    as (m1 & i & He & Hwf1 & Hc1 & _ & Hp1 & Hb1 & Hl1 & Hs1);
    [apply (Habs (key, v)); left|lia|lia|].
  destruct (IH m1) as (m' & Heq & Hwf' & Hp' & Hb' & Hl' & Hs'); [done|done| |lia|lia|].
  { intros kv Hkv. rewrite Hc1. rewrite lookup_insert_ne.
    - apply Habs. by right.
    - intros ->. apply Hnin, list_elem_of_fmap. by exists kv. }
  exists m'. split_and!; [|done| |congruence|cbn [length]; lia|cbn [length]; lia].
  - unfold insert_range_with in *. cbn [foldl mbind option_bind emplace_fuel]. rewrite He. exact Heq.
  - rewrite Hp', Hp1. cbn. by rewrite Permutation_middle.
Qed.

(** The capacity in which the index arithmetic of the source does not overflow. *)
Definition cap m : Prop := m_loadCount m < 2 ^ 30 /\ m_size m < 2 ^ 30.

(** Twice as many groups are allocated when twice as many are asked for. *)
Lemma groups_for_double k n :
  0 <= k -> 2 ^ (k + 1) * Size - 1 <= n -> 2 ^ (k + 1) <= 2 ^ Z.log2 (groups_for n).
Proof.
  intros Hk Hn. apply Z.pow_le_mono_r; [lia|]. apply Z.log2_le_pow2.
  - pose proof (groups_for_ge2 n). lia.
  - unfold groups_for.
    pose proof (ceil_div_spec (Z.max MIN_NUM_BUCKETS n + 1) BucketsPerGroup) as Hc.
    unfold BucketsPerGroup, Size in *. lia.
Qed.

(** A table that has to grow within capacity has fewer groups than the largest one. *)
Lemma growing_groups m k :
  wf m -> cap m -> 7 * bucket_count m <= 8 * (m_loadCount m + 1) ->
  md_size (m_metadata m) = 2 ^ Z.of_nat k -> (k <= 27)%nat -> 2 ^ Z.of_nat k <= 2 ^ 26.
Proof.
  intros Hwf [Hcl Hcs] Hfull Hsz Hk. pose proof (wf_buckets m Hwf) as Hbc. apply Z.pow_le_mono_r; [lia|].
  destruct (decide (k = 27%nat)) as [->|]; [|lia]. exfalso.
  rewrite Hsz in Hbc. unfold Size in Hbc. change (Z.of_nat 27) with 27 in Hbc. lia.
Qed.

(** The rehash that an insertion triggers: the contents move to a table at least
    twice as large, without triggering another one. *)
Lemma rehash_grow n m :
  wf m -> cap m -> 7 * bucket_count m <= 8 * (m_loadCount m + 1) ->
  exists m', rehash_with (fun m kv => fst <$> emplace_fuel (S n) false m kv) m
      (md_size (m_metadata m) * 2 * BucketsPerGroup - 1) = Some m' /\
    wf m' /\ contents m' = contents m /\ m_loadCount m' = filled m /\ m_size m' = filled m /\
    8 * (m_loadCount m' + 1) < 7 * bucket_count m'.
Proof.
  intros Hwf [Hcl Hcs] Hfull. destruct (wf_groups m Hwf) as (k & Hk & Hk2 & Hsz).
  pose proof (wf_buckets m Hwf) as Hbc. destruct (wf_load m Hwf) as [Hf Hl].
  unfold rehash_with. rewrite range_spec by done. cbn [mbind option_bind].
  unfold construct_range_with. set (N := Z.max (m_size m) _).
  assert (2 ^ Z.of_nat k <= 2 ^ 26) by (apply (growing_groups m); done || lia).
  assert (N < 2 ^ 31 - 1) as HN.
  { unfold N. rewrite Hsz. unfold BucketsPerGroup, Size. lia. }
  destruct (make_spec N HN) as (m0 & -> & Hwf0 & Hk0 & Hl0 & Hs0 & _ & Hsz0). cbn [mbind option_bind].
  assert (2 * md_size (m_metadata m) <= md_size (m_metadata m0)) as Hdbl.
  { rewrite Hsz0, Hsz. pose proof (groups_for_double (Z.of_nat k) N) as Hd.
    rewrite Z.pow_add_r in Hd by lia. change (2 ^ 1) with 2 in Hd.
    unfold N in *. rewrite Hsz in *. unfold BucketsPerGroup in *. lia. }
  pose proof (wf_buckets m0 Hwf0) as Hbc0. pose proof (wf_md_size m Hwf).
  assert (Z.of_nat (length (kvs m)) = filled m) as Hlen by done. unfold Size in *.
  destruct (insert_range_fits n m0 (kvs m)) as (m' & Heq & Hwf' & Hp & Hb' & Hl' & Hs').
  { done. } { by apply kvs_NoDup. }
  { intros kv _. unfold contents. rewrite Hk0. apply lookup_empty. }
  { rewrite Hl0. lia. }
  { rewrite Hs0. lia. }
  exists m'. rewrite Hk0, app_nil_r in Hp.
  split_and!; [done|done| |lia|lia|lia].
  unfold contents. apply list_to_map_proper; [by apply kvs_NoDup|done].
Qed.

(** Insertion always succeeds within capacity, for every nesting bound from two
    on, and has the specified effect. *)
Lemma emplace_total n m assign key v :
  wf m -> cap m ->
  exists m' i b, emplace_fuel (S (S n)) assign m (key, v) = Some (m', (i, b)) /\ wf m' /\
    contents m' = emplace_map assign key v (contents m) /\
    b = bool_decide (contents m !! key = None) /\
    (exists v', stored m' i (key, v') /\ contents m' !! key = Some v') /\
    m_loadCount m' <= m_loadCount m + 1 /\ m_size m' <= m_size m + 1.
Proof.
  intros Hwf Hcap. unfold emplace_map.
  pose (ins := fun m kv => fst <$> emplace_fuel (S n) false m kv).
  change (emplace_fuel (S (S n)) assign m (key, v)) with (emplace_with ins m assign (key, v)).
  destruct (find_spec m key Hwf) as [(i & v0 & Hs & Hf & Hc)|[Hf Hc]].
  - destruct (emplace_existing ins m assign key v i v0) as (m' & He & Hwf' & Hc' & Hst & Hl & Hsz);
      [done..|]. exists m', i, false. rewrite Hc.
    split_and!; [done|done|by rewrite Hc'| | |lia|lia].
    + symmetry. by apply bool_decide_false.
    + eexists. split; [done|]. apply contents_stored; eauto.
  - rewrite Hc, bool_decide_true by done.
    destruct (decide (8 * (m_loadCount m + 1) < 7 * bucket_count m)) as [Hlt|Hge].
    + destruct (emplace_new ins m assign key v Hwf Hc Hlt ltac:(destruct Hcap; lia))
        as (m' & i & He & Hwf' & Hc' & Hst & _ & _ & Hl & Hsz).
      exists m', i, true. split_and!; [done|done|done|done| |lia|lia].
      exists v. split; [done|]. rewrite Hc'. by simplify_map_eq.
    + destruct (rehash_grow n m Hwf Hcap) as (m1 & Hr & Hwf1 & Hc1 & Hl1 & Hs1 & Hfit); [lia|].
      destruct (emplace_new ins m1 assign key v Hwf1) as
        (m' & i & He & Hwf' & Hc' & Hst & _ & _ & Hl & Hsz);
        [by rewrite Hc1|done|destruct Hcap; pose proof (wf_size m Hwf); lia|].
      exists m', i, true. destruct (wf_load m Hwf). pose proof (wf_size m Hwf).
      split_and!; [|done|by rewrite Hc', Hc1|done| |lia|lia].
      2: { exists v. split; [done|]. rewrite Hc'. by simplify_map_eq. }
      rewrite <- He. unfold emplace_with, getEmplacePos_with. cbn [fst]. rewrite Hf.
      destruct (find_spec m1 key Hwf1) as [(? & ? & _ & _ & Hs')|[-> _]]; [congruence|].
      cbn [mbind option_bind]. rewrite !Z.eqb_refl. cbn [negb].
      rewrite (proj2 (Z.leb_le _ _)), (proj2 (Z.leb_gt _ _)) by lia. destruct (wf_groups m Hwf) as (k & Hk & _ & Hsz').
      pose proof (growing_groups m k Hwf Hcap ltac:(lia) Hsz' ltac:(lia)) as Hgr. pose proof (wf_md_size m Hwf). unfold BucketsPerGroup, Size in Hr |- *.
      rewrite int32_id by lia. cbn [mbind option_bind]. rewrite int32_id by lia. cbn [mbind option_bind]. rewrite int32_id by lia. cbn [mbind option_bind].
      unfold ins. rewrite Hr. done.
Qed.

(** ** Explicit rehash and construction from a range *)

Lemma insert_range_total m l :
  wf m -> m_loadCount m + Z.of_nat (length l) < 2 ^ 30 -> m_size m + Z.of_nat (length l) < 2 ^ 30 ->
  exists m', insert_range m l = Some m' /\ wf m' /\
    contents m' = foldl (fun M kv => emplace_map false kv.1 kv.2 M) (contents m) l /\
    m_loadCount m' <= m_loadCount m + Z.of_nat (length l) /\
    m_size m' <= m_size m + Z.of_nat (length l).
Proof.
  revert m. induction l as [|[key v] l IH]; intros m Hwf Hl Hs.
  { exists m. cbn. split_and!; (done || lia). }
  cbn [length] in *.
  destruct (emplace_total 0 m false key v Hwf) as (m1 & i & b & He & Hwf1 & Hc1 & _ & _ & Hl1 & Hs1).
  { split; lia. }
  destruct (IH m1) as (m' & Heq & Hwf' & Hc' & Hl' & Hs'); [done|lia|lia|].
  exists m'. split_and!; [|done| |lia|lia].
  - unfold insert_range, insert_range_with in *. cbn [foldl mbind option_bind].
    unfold nested_insert at 2, insert, max_nesting. rewrite He. exact Heq.
  - cbn [foldl fst snd]. by rewrite <- Hc1.
Qed.

Lemma emplace_map_range (l : list (K * V)) (M : gmap K V) :
  NoDup l.*1 -> (forall kv, kv ∈ l -> M !! kv.1 = None) ->
  foldl (fun M kv => emplace_map false kv.1 kv.2 M) M l = list_to_map l ∪ M.
Proof.
  revert M. induction l as [|[key v] l IH]; intros M Hnd Habs; [by rewrite left_id_L by apply _|].
  inversion_clear Hnd as [|? ? Hnin Hnd']. cbn [foldl fst snd].
  unfold emplace_map at 2. pose proof (Habs (key, v)) as Hk. cbn in Hk. rewrite Hk by left.
  rewrite IH; [|done|].
  - cbn. rewrite <- insert_union_l, insert_union_r; [done|].
    by apply not_elem_of_list_to_map_1.
  - intros kv Hkv. rewrite lookup_insert_ne; [apply Habs; by right|].
    intros ->. apply Hnin, list_elem_of_fmap. by exists kv.
Qed.

Lemma construct_range_total l num cnt :
  Z.of_nat (length l) < 2 ^ 30 -> Z.max num cnt < 2 ^ 31 - 1 ->
  exists m', construct_range_with nested_insert num l cnt = Some m' /\ wf m' /\
    contents m' = foldl (fun M kv => emplace_map false kv.1 kv.2 M) ∅ l /\
    m_size m' <= Z.of_nat (length l) /\ m_loadCount m' <= Z.of_nat (length l).
Proof.
  intros Hl Hn. unfold construct_range_with.
  destruct (make_spec (Z.max num cnt)) as (m0 & -> & Hwf0 & Hk0 & Hl0 & Hs0 & _ & _); [done|].
  cbn [mbind option_bind].
  destruct (insert_range_total m0 l Hwf0) as (m' & Heq & Hwf' & Hc' & Hl' & Hs'); [lia|lia|].
  exists m'. split_and!; [exact Heq|done| |lia|lia]. rewrite Hc'. unfold contents. by rewrite Hk0.
Qed.

Lemma rehash_total m cnt :
  wf m -> m_size m < 2 ^ 30 -> cnt < 2 ^ 31 - 1 ->
  exists m', rehash m cnt = Some m' /\ wf m' /\ contents m' = contents m /\
    m_size m' = filled m /\ m_loadCount m' <= filled m.
Proof.
  intros Hwf Hs Hc. unfold rehash, rehash_with. rewrite range_spec by done. cbn [mbind option_bind].
  pose proof (wf_size m Hwf) as Hfs. unfold filled in Hfs.
  destruct (construct_range_total (kvs m) (m_size m) cnt) as (m' & Heq & Hwf' & Hc' & Hs' & Hl');
    [lia|lia|].
  assert (contents m' = contents m) as Hcc.
  { rewrite Hc', emplace_map_range; [by rewrite right_id_L by apply _|by apply kvs_NoDup|].
    intros. apply lookup_empty. }
  exists m'. pose proof (wf_size m' Hwf') as Hfs'.
  assert (filled m' = filled m) by (by rewrite !filled_size, Hcc).
  split_and!; [done|done|done| |done]. unfold filled in *. lia.
Qed.

(** ** Erasure *)

Lemma stored_delete m m' p i kv :
  0 <= p < bucket_count m -> m_buckets m' = <[Z.to_nat p := None]> (m_buckets m) ->
  stored m' i kv <-> i <> p /\ stored m i kv.
Proof.
  intros Hp Hb. unfold stored. rewrite Hb, zlookup_insert by done.
  destruct (decide (p = i)) as [->|]; naive_solver.
Qed.

(** The state after a stored pair has been removed. *)
Lemma remove_wf m md p key v load :
  wf m -> stored m p (key, v) -> md_ok md -> length md = length (m_metadata m) ->
  (forall j, slot md j = if decide (j = p) then Some Empty else slot (m_metadata m) j) ->
  (forall c h, overflowed (m_metadata m) c h <-> overflowed md c h) ->
  m_loadCount m - 1 <= load <= m_loadCount m ->
  let m' := mkFlatMap (m_numGroups2 m) (m_size m) md
              (<[Z.to_nat p := None]> (m_buckets m)) load in
  wf m' /\ contents m' = delete key (contents m) /\ filled m' = filled m - 1.
Proof.
  intros Hwf Hs Hok Hlen Hslot Hov Hload m'. pose proof (stored_range _ _ _ Hs) as Hp.
  assert (forall i kv, stored m' i kv <-> i <> p /\ stored m i kv) as Hst
    by (intros; by apply stored_delete).
  assert (bucket_count m' = bucket_count m) as Hbc
    by (unfold bucket_count; cbn; by rewrite length_insert).
  assert (filled m' = filled m - 1) as Hfill.
  { assert (m_buckets m !! Z.to_nat p = Some (Some (key, v))) as Hn
      by (rewrite <- zlookup_to_nat by lia; done).
    unfold filled, kvs. cbn [m_buckets m'].
    rewrite (omap_id_insert _ _ _ _ Hn), (omap_id_split _ _ _ Hn), !length_app. cbn. lia. }
  assert (wf m') as Hwf'.
  { split; rewrite ?Hbc, ?Hfill.
    - destruct (wf_groups m Hwf) as (k & Hk & Hk2 & Hsz). exists k. cbn. unfold md_size in *.
      by rewrite Hlen.
    - rewrite (wf_buckets m Hwf). cbn. unfold md_size. by rewrite Hlen.
    - done.
    - cbn. rewrite Hslot, decide_False by lia. apply Hwf.
    - intros i Hi. cbn in *. rewrite Hslot. case_decide; [done|].
      rewrite zlookup_insert in Hi by done. rewrite decide_False in Hi by congruence. by apply Hwf.
    - intros i kv [Hne Hi]%Hst. cbn. rewrite Hslot, decide_False by done. by apply Hwf.
    - intros i j kv kv' [_ Hi]%Hst [_ Hj]%Hst. by apply Hwf.
    - intros i kv [_ Hi]%Hst. apply (reachable_mono m); [done|done|apply Hov|]. by apply Hwf.
    - cbn. destruct (wf_load m Hwf). lia.
    - cbn. pose proof (wf_size m Hwf). lia. }
  split_and!; [done| |done]. apply contents_ext; [done|]. intros k' v'.
  rewrite lookup_delete_Some, contents_stored by done. setoid_rewrite Hst. split.
  - intros (i & Hne & Hi). split; [|eauto]. intros ->. by apply Hne, (wf_unique m Hwf _ _ _ _ Hi Hs).
  - intros (Hne & i & Hi). exists i. split; [|done]. intros ->. unfold stored in *. congruence.
Qed.

Lemma erase_at_spec m p key v :
  wf m -> stored m p (key, v) ->
  exists m' it, erase_at m p = Some (m', it) /\ wf m' /\ contents m' = delete key (contents m) /\
    filled m' = filled m - 1 /\ m_size m' = m_size m /\ m_loadCount m' <= m_loadCount m /\
    p < it <= bucket_count m' /\ (it < bucket_count m' -> exists kv, stored m it kv) /\
    (forall j, p < j < it -> (m_buckets m).[j] = Some None).
Proof.
  intros Hwf Hs. pose proof (stored_range _ _ _ Hs) as Hp. pose proof (wf_buckets m Hwf) as Hbc.
  destruct (clearBucket_spec (m_metadata m) p (MixedHash key)) as (md & mid & Hc & Hok & Hlen & Hsl & Hov);
    [apply Hwf|unfold bucket_count in *; lia|].
  assert (1 <= filled m) as Hf.
  { unfold filled. destruct (kvs m) eqn:E; [|cbn; lia]. exfalso.
    assert ((key, v) ∈ kvs m) as Hin by (apply elem_of_kvs; eauto). rewrite E in Hin. inversion Hin. }
  destruct (wf_load m Hwf) as [Hfl _]. pose proof (load_word m Hwf) as [Hw _].
  assert (wrap 64 (m_loadCount m - 1) = m_loadCount m - 1) as Hwr
    by (apply wrap_id; unfold in_word in *; lia).
  unfold erase_at. rewrite (proj2 (Z.eqb_neq p (end_ m))) by (unfold end_; lia).
  rewrite (proj1 (deref_stored m p _) Hs). cbn [mbind option_bind fst]. rewrite Hc.
  cbn [mbind option_bind]. rewrite zupdate_lt by done. cbn [mbind option_bind]. rewrite Hwr.
  destruct (remove_wf m md p key v (if mid then m_loadCount m else m_loadCount m - 1) Hwf Hs Hok Hlen
    Hsl Hov) as (Hwf' & Hc' & Hf'); [destruct mid; lia|].
  set (m' := mkFlatMap _ _ _ _ _) in *.
  assert (bucket_count m' = bucket_count m) as Hbc' by (unfold bucket_count; cbn; by rewrite length_insert).
  destruct (next_valid m' p Hwf') as (r & Hr & Hlt & Hraw & Hst); [lia|].
  unfold next_. rewrite Hr. cbn [mbind option_bind]. exists m', r.
  split_and!; [done|done|done|done|done|cbn; destruct mid; lia|lia|lia| |].
  - intros Hrb. destruct (Hst Hrb) as [kv Hkv]. exists kv.
    by eapply (stored_delete m m' p) in Hkv as [_ ?].
  - intros j Hj. specialize (Hraw j Hj). cbn in Hraw. rewrite zlookup_insert, decide_False in Hraw; [done|lia|done].
Qed.

Lemma erase_spec m key :
  wf m ->
  exists m', erase m key = Some (m', if decide (is_Some (contents m !! key)) then 1 else 0) /\ wf m' /\
    contents m' = delete key (contents m) /\ m_size m' = m_size m /\ m_loadCount m' <= m_loadCount m.
Proof.
  intros Hwf. unfold erase. destruct (find_spec m key Hwf) as [(i & v & Hs & -> & Hc)|[-> Hc]];
    cbn [mbind option_bind].
  - pose proof (stored_range _ _ _ Hs). rewrite (proj2 (Z.eqb_neq i (end_ m))) by (unfold end_; lia).
    cbn [negb]. destruct (erase_at_spec m i key v Hwf Hs) as (m' & it & -> & Hwf' & Hc' & _ & Hsz & Hl & _).
    cbn [mbind option_bind fst]. exists m'. rewrite decide_True by (by rewrite Hc). done.
  - rewrite Z.eqb_refl. cbn [negb]. exists m. rewrite decide_False by (rewrite Hc; by intros [? ?]).
    split_and!; [done|done| |done|lia]. by rewrite delete_id.
Qed.

(** ** Clearing and copying *)

(** The state after the loop that destroys the elements from bucket [it] on. *)
Lemma destroy_loop_spec n m it b :
  wf m -> 0 <= it <= bucket_count m -> bucket_count m - it < Z.of_nat n ->
  (it < bucket_count m -> exists kv, stored m it kv) -> length b = length (m_buckets m) ->
  (forall j, 0 <= j < bucket_count m -> b.[j] = if decide (j < it) then Some None else (m_buckets m).[j]) ->
  exists b', destroy_loop n m it b = Some b' /\ length b' = length (m_buckets m) /\
    forall j, 0 <= j < bucket_count m -> b'.[j] = Some None.
Proof.
  intros Hwf. revert it b. induction n as [|n IH]; intros it b Hit Hn Hst Hlen Hb; [lia|].
  cbn [destroy_loop]. destruct (Z.ltb_spec it (bucket_count m)) as [Hlt|Hge].
  - destruct (Hst Hlt) as [kv Hkv]. rewrite (proj1 (deref_stored m it kv) Hkv). cbn [mbind option_bind].
    destruct (next_valid m it Hwf) as (r & Hr & Hltr & Hraw & Hst'); [lia|].
    rewrite zupdate_lt by (unfold bucket_count in *; lia). cbn [mbind option_bind]. unfold next_.
    rewrite Hr. cbn [mbind option_bind]. apply IH; [lia|lia|done|by rewrite length_insert|].
    intros j Hj. rewrite zlookup_insert by (unfold bucket_count in *; lia).
    destruct (decide (it = j)) as [<-|Hne]; [by rewrite decide_True by lia|].
    rewrite Hb by done. destruct (decide (j < it)); [by rewrite decide_True by lia|].
    case_decide; [|done]. apply Hraw. lia.
  - exists b. split_and!; [done|done|]. intros j Hj. rewrite Hb, decide_True by lia. done.
Qed.

Lemma begin_spec m :
  wf m -> exists it, begin_ m = Some it /\ 0 <= it <= bucket_count m /\
    (forall j, 0 <= j < it -> (m_buckets m).[j] = Some None) /\
    (it < bucket_count m -> exists kv, stored m it kv).
Proof.
  intros Hwf. unfold begin_, NO_MATCH.
  destruct (next_valid m (-1) Hwf) as (r & -> & Hlt & Hraw & Hst).
  { pose proof (wf_md_size m Hwf). rewrite (wf_buckets m Hwf). unfold Size. lia. }
  exists r. split_and!; [done|lia|lia| |done]. intros j Hj. apply Hraw. lia.
Qed.

Lemma clear_spec m :
  wf m -> exists m', clear m = Some m' /\ wf m' /\ contents m' = ∅ /\ m_size m' = 0 /\
    m_loadCount m' = 0 /\ bucket_count m' = bucket_count m.
Proof.
  intros Hwf. unfold clear. destruct (begin_spec m Hwf) as (it & -> & Hit & Hraw & Hst).
  cbn [mbind option_bind].
  destruct (destroy_loop_spec (S (length (m_buckets m))) m it (m_buckets m)) as (b & -> & Hlen & Hb);
    [done|done|unfold bucket_count in *; lia|done|done| |].
  { intros j Hj. case_decide; [|done]. apply Hraw. lia. }
  cbn [mbind option_bind]. pose proof (wf_md_size m Hwf) as H2.
  destruct (for_range_update (fun _ _ => Some newGroup) (fun _ _ => newGroup) (m_metadata m) 0
    (md_size (m_metadata m))) as (md & Hmd & Hlmd & Hat); [lia|done|done|].
  cbn [mbind option_bind] in Hmd. rewrite Hmd. clear Hmd. cbn [mbind option_bind].
  assert (md = replicate (length (m_metadata m)) newGroup) as ->.
  { apply zlookup_ext; [by rewrite length_replicate|]. intros j Hj. rewrite Hat, decide_True by (unfold md_size; lia).
    destruct (zlookup_lt (m_metadata m) j) as [x ->]; [lia|]. cbn [fmap option_fmap option_map].
    rewrite zlookup_to_nat by lia. symmetry. apply lookup_replicate_2. lia. }
  unfold md_size at 1 2. rewrite length_replicate.
  rewrite zlookup_to_nat by (unfold md_size in *; lia). rewrite lookup_replicate_2 by (unfold md_size in *; lia).
  cbn [mbind option_bind]. destruct (wf_groups m Hwf) as (k & Hk & Hk2 & Hsz).
  destruct (zupdate _ _ _) as [md'|] eqn:Hu.
  2: { rewrite zupdate_lt in Hu; [done|]. rewrite length_replicate. unfold md_size in *. lia. }
  cbn [mbind option_bind]. rewrite Hk2. unfold md_size in *.
  destruct (empty_wf k (2 ^ Z.of_nat k) md' b 0) as [Hwf' Hkv]; [done|done| | | |done|].
  - rewrite <- Hsz, Nat2Z.id. done.
  - rewrite Hlen. pose proof (wf_buckets m Hwf) as Hbc. unfold bucket_count, md_size in *. by rewrite Hbc, Hsz.
  - intros i Hi. apply Hb. pose proof (wf_buckets m Hwf) as Hbc. unfold md_size in *. by rewrite Hbc, Hsz.
  - eexists. split; [done|]. split_and!; [done| |done|done|].
    + unfold contents. by rewrite Hkv.
    + unfold bucket_count. cbn. by rewrite Hlen.
Qed.

(** Copying the elements rebuilds the same bucket array. *)
Lemma copy_loop_spec n m it b :
  wf m -> 0 <= it <= bucket_count m -> bucket_count m - it < Z.of_nat n ->
  (it < bucket_count m -> exists kv, stored m it kv) -> length b = length (m_buckets m) ->
  (forall j, 0 <= j < bucket_count m -> b.[j] = if decide (j < it) then (m_buckets m).[j] else Some None) ->
  copy_loop n m it b = Some (m_buckets m).
Proof.
  intros Hwf. revert it b. induction n as [|n IH]; intros it b Hit Hn Hst Hlen Hb; [lia|].
  cbn [copy_loop]. destruct (Z.ltb_spec it (bucket_count m)) as [Hlt|Hge].
  - destruct (Hst Hlt) as [kv Hkv]. rewrite (proj1 (deref_stored m it kv) Hkv). cbn [mbind option_bind].
    destruct (next_valid m it Hwf) as (r & Hr & Hltr & Hraw & Hst'); [lia|].
    rewrite zupdate_lt by (unfold bucket_count in *; lia). cbn [mbind option_bind]. unfold next_.
    rewrite Hr. cbn [mbind option_bind]. apply IH; [lia|lia|done|by rewrite length_insert|].
    intros j Hj. rewrite zlookup_insert by (unfold bucket_count in *; lia).
    destruct (decide (it = j)) as [<-|Hne]; [by rewrite decide_True by lia|].
    rewrite Hb by done. destruct (decide (j < it)); [by rewrite decide_True by lia|].
    case_decide; [|done]. symmetry. apply Hraw. lia.
  - f_equal. apply zlookup_ext; [done|]. intros j Hj. rewrite Hb by (unfold bucket_count in *; lia).
    rewrite decide_True by (unfold bucket_count in *; lia). done.
Qed.

Lemma copy_spec m : wf m -> copy m = Some m.
Proof.
  intros Hwf. unfold copy. destruct (begin_spec m Hwf) as (it & -> & Hit & Hraw & Hst).
  cbn [mbind option_bind]. rewrite copy_loop_spec; [by destruct m|done|done| |done| |].
  - unfold bucket_count in *. lia.
  - apply length_replicate.
  - intros j Hj. rewrite zlookup_to_nat by lia. rewrite lookup_replicate_2 by (unfold bucket_count in *; lia).
    case_decide; [|done]. symmetry. apply Hraw. lia.
Qed.

(** ** Queries *)

Lemma at_spec m key :
  wf m -> at_ m key = Some (match contents m !! key with Some v => inl v | None => inr out_of_range end).
Proof.
  intros Hwf. unfold at_. destruct (find_spec m key Hwf) as [(i & v & Hs & -> & ->)|[-> ->]];
    cbn [mbind option_bind].
  - pose proof (stored_range _ _ _ Hs). rewrite (proj2 (Z.eqb_neq i (end_ m))) by (unfold end_; lia).
    by rewrite (proj1 (deref_stored m i _) Hs).
  - by rewrite Z.eqb_refl.
Qed.

Lemma contains_spec m key :
  wf m -> contains m key = Some (bool_decide (is_Some (contents m !! key))).
Proof.
  intros Hwf. unfold contains. destruct (find_spec m key Hwf) as [(i & v & Hs & -> & ->)|[-> ->]];
    cbn [mbind option_bind].
  - pose proof (stored_range _ _ _ Hs). rewrite (proj2 (Z.eqb_neq i (end_ m))) by (unfold end_; lia).
    by rewrite bool_decide_true.
  - rewrite Z.eqb_refl. rewrite bool_decide_false; [done|]. by intros [? ?].
Qed.

Lemma index_op_spec dflt m key :
  wf m -> cap m ->
  exists m', index_op dflt m key = Some (m', default dflt (contents m !! key)) /\ wf m' /\
    contents m' = emplace_map false key dflt (contents m) /\
    m_loadCount m' <= m_loadCount m + 1 /\ m_size m' <= m_size m + 1.
Proof.
  intros Hwf Hcap. unfold index_op, try_emplace, max_nesting.
  destruct (emplace_total 0 m false key dflt Hwf Hcap)
    as (m' & i & b & -> & Hwf' & Hc & _ & (v & Hs & Hv) & Hl & Hsz).
  cbn [mbind option_bind]. rewrite (proj1 (deref_stored m' i _) Hs). cbn.
  exists m'. split_and!; [|done|done|done|done]. repeat f_equal.
  rewrite Hc in Hv. unfold emplace_map in Hv. destruct (contents m !! key) eqn:E; simplify_map_eq; done.
Qed.

(** ** Sequences of operations against the abstract map *)

Inductive op :=
  | OpInsert (kv : K * V)
  | OpInsertOrAssign (key : K) (v : V)
  | OpTryEmplace (key : K) (v : V)
  | OpIndex (dflt : V) (key : K)
  | OpInsertRange (l : list (K * V))
  | OpErase (key : K)
  | OpClear
  | OpRehash (cnt : Z)
  | OpReserve (cnt : Z)
  | OpCopy.

Inductive result := RNone | RInserted (b : bool) | RValue (v : V) | RCount (n : Z).

Definition exec (m : FlatMap) (o : op) : option (FlatMap * result) :=
  let placed (r : option (FlatMap * (Z * bool))) := (fun x => (x.1, RInserted x.2.2)) <$> r in
  let plain (r : option FlatMap) := (fun m => (m, RNone)) <$> r in
  match o with
  | OpInsert kv => placed (insert m kv)
  | OpInsertOrAssign key v => placed (insert_or_assign m key v)
  | OpTryEmplace key v => placed (try_emplace m key v)
  | OpIndex dflt key => (fun x => (x.1, RValue x.2)) <$> index_op dflt m key
  | OpInsertRange l => plain (insert_range m l)
  | OpErase key => (fun x => (x.1, RCount x.2)) <$> erase m key
  | OpClear => plain (clear m)
  | OpRehash cnt => plain (rehash m cnt)
  | OpReserve cnt => plain (reserve m cnt)
  | OpCopy => plain (copy m)
  end.

(** The specification of the same operation on a finite map. *)
Definition spec (M : gmap K V) (o : op) : gmap K V * result :=
  match o with
  | OpInsert kv => (emplace_map false kv.1 kv.2 M, RInserted (bool_decide (M !! kv.1 = None)))
  | OpInsertOrAssign key v => (<[key := v]> M, RInserted (bool_decide (M !! key = None)))
  | OpTryEmplace key v => (emplace_map false key v M, RInserted (bool_decide (M !! key = None)))
  | OpIndex dflt key => (emplace_map false key dflt M, RValue (default dflt (M !! key)))
  | OpInsertRange l => (foldl (fun M kv => emplace_map false kv.1 kv.2 M) M l, RNone)
  | OpErase key => (delete key M, RCount (if decide (is_Some (M !! key)) then 1 else 0))
  | OpClear => (∅, RNone)
  | _ => (M, RNone)
  end.

(** How much an operation adds to the load, and the sizes it may ask for. *)
Definition cost (o : op) : Z :=
  match o with
  | OpInsert _ | OpInsertOrAssign _ _ | OpTryEmplace _ _ | OpIndex _ _ => 1
  | OpInsertRange l => Z.of_nat (length l)
  | _ => 0
  end.

Definition request_ok (o : op) : Prop :=
  match o with
  | OpRehash cnt => - 2 ^ 31 <= cnt < 2 ^ 31 - 1
  | OpReserve cnt => - 2 ^ 30 <= cnt < 7 * 2 ^ 28 - 1
  | _ => True
  end.

Lemma emplace_placed m assign key v :
  wf m -> cap m ->
  exists m' i, emplace_fuel max_nesting assign m (key, v) =
      Some (m', (i, bool_decide (contents m !! key = None))) /\ wf m' /\
    contents m' = emplace_map assign key v (contents m) /\
    m_loadCount m' <= m_loadCount m + 1 /\ m_size m' <= m_size m + 1.
Proof.
  intros Hwf Hcap.
  destruct (emplace_total 0 m assign key v Hwf Hcap) as (m' & i & b & He & Hwf' & Hc & -> & _ & Hl & Hs).
  by exists m', i.
Qed.

Lemma emplace_map_assign key v (M : gmap K V) : emplace_map true key v M = <[key := v]> M.
Proof. unfold emplace_map. by destruct (M !! key). Qed.

Lemma exec_refines m o :
  wf m -> m_loadCount m + cost o < 2 ^ 30 -> m_size m + cost o < 2 ^ 30 -> request_ok o ->
  exists m', exec m o = Some (m', (spec (contents m) o).2) /\ wf m' /\
    contents m' = (spec (contents m) o).1 /\
    m_loadCount m' <= m_loadCount m + cost o /\ m_size m' <= m_size m + cost o.
Proof.
  intros Hwf Hcl Hcs Hrq. destruct o as [[key v]|key v|key v|dflt key|l|key| |cnt|cnt|]; cbn [cost exec spec fst snd] in *.
  - destruct (emplace_placed m false key v Hwf) as (m' & i & He & Hwf' & Hc & Hl' & Hs'); [split; lia|].
    exists m'. unfold insert. by rewrite He.
  - destruct (emplace_placed m true key v Hwf) as (m' & i & He & Hwf' & Hc & Hl' & Hs'); [split; lia|].
    rewrite emplace_map_assign in Hc. exists m'. unfold insert_or_assign. by rewrite He.
  - destruct (emplace_placed m false key v Hwf) as (m' & i & He & Hwf' & Hc & Hl' & Hs'); [split; lia|].
    exists m'. unfold try_emplace. by rewrite He.
  - destruct (index_op_spec dflt m key Hwf) as (m' & -> & Hwf' & Hc & Hl' & Hs'); [split; lia|].
    by exists m'.
  - destruct (insert_range_total m l Hwf) as (m' & -> & Hwf' & Hc & Hl' & Hs'); [lia|lia|].
    by exists m'.
  - destruct (erase_spec m key Hwf) as (m' & -> & Hwf' & Hc & Hsz & Hl). exists m'. split_and!; (done || lia).
  - destruct (clear_spec m Hwf) as (m' & -> & Hwf' & Hc & Hsz & Hl & _). exists m'.
    destruct (wf_load m Hwf). pose proof (wf_size m Hwf). unfold filled in *. split_and!; (done || lia).
  - destruct (rehash_total m cnt Hwf) as (m' & -> & Hwf' & Hc & Hsz & Hl); [lia|cbn in Hrq; lia|]. exists m'.
    destruct (wf_load m Hwf). pose proof (wf_size m Hwf). split_and!; (done || lia).
  - unfold reserve. pose proof (ceil_div_spec (8 * cnt) 7).
    rewrite int32_id by (cbn in Hrq; lia). cbn [mbind option_bind].
    destruct (rehash_total m (ceil_div (8 * cnt) 7) Hwf) as (m' & -> & Hwf' & Hc & Hsz & Hl); [lia|cbn in Hrq; lia|].
    exists m'. destruct (wf_load m Hwf). pose proof (wf_size m Hwf). split_and!; (done || lia).
  - rewrite copy_spec by done. exists m. split_and!; (done || lia).
Qed.

Fixpoint run (m : FlatMap) (ops : list op) : option (FlatMap * list result) :=
  match ops with
  | [] => Some (m, [])
  | o :: ops => r ← exec m o; rs ← run r.1 ops; Some (rs.1, r.2 :: rs.2)
  end.

Fixpoint spec_run (M : gmap K V) (ops : list op) : gmap K V * list result :=
  match ops with
  | [] => (M, [])
  | o :: ops => let r := spec M o in let rs := spec_run r.1 ops in (rs.1, r.2 :: rs.2)
  end.

Definition total_cost (ops : list op) : Z := foldr (fun o n => cost o + n) 0 ops.

(** A program a client may run: fewer than 2^30 insertions, and requests for numbers of
    buckets, plus one, that [axom::IndexType] can hold. *)
Definition program_ok (n : Z) (ops : list op) : Prop :=
  n < 2 ^ 31 - 1 /\ total_cost ops < 2 ^ 30 /\ Forall request_ok ops.

Lemma cost_nonneg o : 0 <= cost o.
Proof. destruct o; cbn; lia. Qed.

Lemma total_cost_nonneg ops : 0 <= total_cost ops.
Proof. induction ops as [|o ops IH]; cbn; [lia|]. pose proof (cost_nonneg o). unfold total_cost in IH. lia. Qed.

Lemma run_bounds ops m :
  wf m -> m_loadCount m + total_cost ops < 2 ^ 30 -> m_size m + total_cost ops < 2 ^ 30 ->
  Forall request_ok ops ->
  exists m' rs, run m ops = Some (m', rs) /\ wf m' /\
    contents m' = (spec_run (contents m) ops).1 /\
    m_loadCount m' <= m_loadCount m + total_cost ops /\ m_size m' <= m_size m + total_cost ops /\
    rs = (spec_run (contents m) ops).2.
Proof.
  revert m. induction ops as [|o ops IH]; intros m Hwf Hl Hs Hrq.
  { exists m, []. cbn. split_and!; (done || lia). }
  inversion_clear Hrq as [|? ? Ho Hops]. cbn [total_cost foldr] in *. fold (total_cost ops) in *.
  pose proof (total_cost_nonneg ops).
  destruct (exec_refines m o Hwf) as (m1 & He & Hwf1 & Hc1 & Hl1 & Hs1); [lia|lia|done|].
  destruct (IH m1 Hwf1) as (m' & rs & Hr & Hwf' & Hc' & Hl' & Hs' & ->); [lia|lia|done|].
  exists m', ((spec (contents m) o).2 :: (spec_run (contents m1) ops).2). cbn [run]. rewrite He. cbn [mbind option_bind fst snd]. rewrite Hr. cbn.
  rewrite <- Hc1. split_and!; (done || lia).
Qed.

Lemma program_total n ops :
  program_ok n ops ->
  exists m0 m, make n = Some m0 /\ run m0 ops = Some (m, (spec_run ∅ ops).2) /\ wf m /\
    contents m = (spec_run ∅ ops).1.
Proof.
  intros (Hn & Hc & Hrq). destruct (make_spec n) as (m0 & Hm & Hwf & Hk & Hl & Hs & _ & _).
  { done. }
  destruct (run_bounds ops m0 Hwf) as (m & rs & Hr & Hwf' & Hc' & _ & _ & ->); [lia|lia|done|].
  assert (contents m0 = ∅) as H0 by (unfold contents; by rewrite Hk).
  rewrite H0 in Hr, Hc'. by exists m0, m.
Qed.

(** C2: From any constructed map, every sequence of operations with fewer than 2^30
    insertions and requests for fewer than 2^31 - 1 buckets
    succeeds without an overflow of [int] or of a 32-bit [axom::IndexType], returns what the finite-map specification returns at each step, and
    ends in a map that satisfies the table invariant and whose contents are those
    of the specification. *)
Theorem flatmap_refines_map n ops :
  program_ok n ops ->
  exists m0 m, make n = Some m0 /\ run m0 ops = Some (m, (spec_run ∅ ops).2) /\ wf m /\
    contents m = (spec_run ∅ ops).1.
Proof. apply program_total. Qed.

(** C35: On every map that is built with fewer than 2^30 insertions and requests for fewer than
    2^31 - 1 buckets, [at] returns the value of a key or
    throws [out_of_range], [contains] and [count] decide membership, and iterating
    from [begin] to [end] yields every pair of the contents exactly once. *)
Theorem flatmap_queries n ops m0 m rs :
  program_ok n ops -> make n = Some m0 -> run m0 ops = Some (m, rs) ->
  let M := (spec_run ∅ ops).1 in
  (forall key,
    at_ m key = Some (match M !! key with Some v => inl v | None => inr out_of_range end) /\
    contains m key = Some (bool_decide (is_Some (M !! key))) /\
    count m key = Some (if decide (is_Some (M !! key)) then 1 else 0)) /\
  exists l, range m = Some l /\ l ≡ₚ map_to_list M.
Proof.
  intros Hp Hm Hr M. destruct (program_total n ops Hp) as (m0' & m' & Hm' & Hr' & Hwf & Hc).
  rewrite Hm in Hm'. injection Hm' as <-. rewrite Hr in Hr'. injection Hr' as <- ->.
  unfold M. rewrite <- Hc. split.
  - intros key. split_and!; [by apply at_spec|by apply contains_spec|].
    unfold count. rewrite contains_spec by done. cbn [mbind option_bind]. case_bool_decide as Hs.
    + by rewrite decide_True.
    + by rewrite decide_False.
  - exists (kvs m). split; [by apply range_spec|]. unfold contents.
    by rewrite map_to_list_to_map by (by apply kvs_NoDup).
Qed.

(** C36: A rehash during an insertion never starts another rehash: for every
    nesting bound from two on, insertion into a map that was built with fewer than 2^30
    insertions and requests for fewer than 2^31 - 1 buckets returns, with the same
    resulting contents, and no [int] or 32-bit [axom::IndexType] overflows. *)
Theorem emplace_terminates k assign n ops m0 m rs key v :
  program_ok n (OpInsert (key, v) :: ops) -> make n = Some m0 -> run m0 ops = Some (m, rs) ->
  exists m' i b, emplace_fuel (S (S k)) assign m (key, v) = Some (m', (i, b)) /\
    wf m' /\ contents m' = emplace_map assign key v (spec_run ∅ ops).1.
Proof.
  intros (Hn & Hc & Hrq) Hm Hr. inversion_clear Hrq as [|? ? _ Hrq'].
  cbn [total_cost foldr cost] in Hc. fold (total_cost ops) in Hc.
  destruct (make_spec n) as (m0' & Hm' & Hwf0 & Hk & Hl & Hs & _ & _).
  { done. }
  rewrite Hm in Hm'. injection Hm' as <-.
  destruct (run_bounds ops m0 Hwf0) as (m1 & rs1 & Hr1 & Hwf1 & Hc1 & Hl1 & Hs1 & _); [lia|lia|done|].
  rewrite Hr in Hr1. injection Hr1 as <- <-.
  destruct (emplace_total k m assign key v Hwf1) as (m' & i & b & He & Hwf' & Hcc & _); [split; lia|].
  exists m', i, b. split_and!; [done|done|]. rewrite Hcc, Hc1. unfold contents. by rewrite Hk.
Qed.

(** Erasing a stored key removes it from the contents but leaves the size
    field as it was: [size] counts erased elements. *)
Theorem erase_keeps_size n ops m0 m rs key v :
  program_ok n ops -> make n = Some m0 -> run m0 ops = Some (m, rs) ->
  (spec_run ∅ ops).1 !! key = Some v ->
  exists m', erase m key = Some (m', 1) /\ wf m' /\ contents m' = delete key (contents m) /\
    size m' = size m /\ Z.of_nat (base.size (contents m')) = Z.of_nat (base.size (contents m)) - 1.
Proof.
  intros Hp Hm Hr Hk. destruct (program_total n ops Hp) as (m0' & m1 & Hm' & Hr' & Hwf & Hc).
  rewrite Hm in Hm'. injection Hm' as <-. rewrite Hr in Hr'. injection Hr' as <- ->.
  rewrite <- Hc in Hk. destruct (erase_spec m key Hwf) as (m' & He & Hwf' & Hc' & Hs & _).
  rewrite decide_True in He by (by rewrite Hk). exists m'. split_and!; [done..|].
  rewrite Hc', map_size_delete_Some by done.
  assert (base.size (contents m) <> 0%nat); [|lia].
  intros Hz%map_size_empty_inv. rewrite Hz in Hk. by rewrite lookup_empty in Hk.
Qed.

(** The constructor allocates 15 * 2^floor(log2 g) - 1 buckets for the
    [g = ceil((max(29, n) + 1) / 15)] groups that [n] buckets need.  That is fewer
    than [n] whenever [g] is not a power of two. *)
Theorem make_rounds_down n :
  n < 2 ^ 31 - 1 ->
  exists m, make n = Some m /\ contents m = ∅ /\
    bucket_count m = 15 * 2 ^ Z.log2 (groups_for n) - 1 /\
    (29 <= n -> 2 ^ Z.log2 (groups_for n) <> groups_for n -> bucket_count m < n).
Proof.
  intros Hn. destruct (make_spec n) as (m & Hm & Hwf & Hk & _ & _ & _ & Hsz).
  { done. }
  exists m. pose proof (wf_buckets m Hwf) as Hb. rewrite Hsz in Hb. unfold Size in Hb.
  split_and!; [done| |lia|].
  - unfold contents. by rewrite Hk.
  - intros H29 Hne. pose proof (groups_for_ge2 n).
    pose proof (Z.log2_spec (groups_for n)) as [Hlo _]; [lia|].
    assert (2 ^ Z.log2 (groups_for n) <= groups_for n - 1) by lia. rewrite Hb.
    unfold groups_for in *. rewrite Z.max_r in * by (unfold MIN_NUM_BUCKETS; lia).
    pose proof (ceil_div_spec (n + 1) BucketsPerGroup). unfold BucketsPerGroup, Size in *. lia.
Qed.

End FlatMap.

Arguments FlatMap : clear implicits.

(** ** Witnesses: integer keys hashed to themselves *)

Definition sample_ops : list (op (K := Z) (V := Z)) :=
  [OpInsert (1, 10); OpInsertOrAssign 2 20; OpInsert (1, 11); OpErase 2; OpIndex 0 3; OpReserve 40;
   OpInsertRange [(4, 40); (5, 50)]; OpCopy].

Lemma sample_ok : program_ok 0 sample_ops.
Proof. split; [lia|]. split; [vm_compute; done|]. repeat constructor; cbn; lia. Qed.

Definition sample_base : FlatMap Z Z := default (mkFlatMap 0 0 [] [] 0) (make 0).
Definition sample_run := run id sample_base sample_ops.
Definition sample_map : FlatMap Z Z := default sample_base (fst <$> sample_run).
Definition sample_results := default [] (snd <$> sample_run).

Lemma flatmap_refines_map_witness :
  exists m0 m, make 0 = Some m0 /\
    run id m0 sample_ops = Some (m, (spec_run ∅ sample_ops).2) /\ wf id m /\
    contents m = (spec_run ∅ sample_ops).1.
Proof. exact (flatmap_refines_map id 0 sample_ops sample_ok). Defined.

Lemma flatmap_queries_witness :
  at_ id sample_map 2 = Some (inr out_of_range) /\ at_ id sample_map 1 = Some (inl 10).
Proof.
  destruct (flatmap_queries id 0 sample_ops sample_base sample_map sample_results sample_ok)
    as [Hq _]; [vm_compute; reflexivity|vm_compute; reflexivity|].
  split; [exact (proj1 (Hq 2))|exact (proj1 (Hq 1))].
Defined.

Lemma emplace_terminates_witness :
  exists m' i b, emplace_fuel id 5 true sample_map (1, 7) = Some (m', (i, b)) /\
    wf id m' /\ contents m' = emplace_map true 1 7 (spec_run ∅ sample_ops).1.
Proof.
  apply (emplace_terminates id 3 true 0 sample_ops sample_base sample_map sample_results);
    [|vm_compute; reflexivity|vm_compute; reflexivity].
  split; [lia|]. split; [vm_compute; done|]. constructor; [done|]. apply sample_ok.
Defined.

Lemma erase_keeps_size_witness :
  exists m', erase id sample_map 1 = Some (m', 1) /\ wf id m' /\
    contents m' = delete 1 (contents sample_map) /\ size m' = size sample_map /\
    Z.of_nat (base.size (contents m')) = Z.of_nat (base.size (contents sample_map)) - 1.
Proof.
  apply (erase_keeps_size id 0 sample_ops sample_base sample_map sample_results 1 10 sample_ok);
    vm_compute; reflexivity.
Defined.

Lemma make_rounds_down_witness :
  exists m : FlatMap Z Z, make 40 = Some m /\ contents m = ∅ /\ bucket_count m = 29 /\
    (29 <= 40 -> 2 ^ Z.log2 (groups_for 40) <> groups_for 40 -> bucket_count m < 40).
Proof. apply (make_rounds_down (K := Z) (V := Z) id 40). lia. Defined.

End FlatMap.
