(* ===== verification/BucketMap.v ===== *)
(** * The map with fixed buckets

    [core/Map.hpp] ([axom::experimental::Map]) for sequential execution, where the locks do
    nothing.  A bucket is an array of nodes with two lists threaded through it: the
    elements, and the free nodes.

    The hash function is a parameter, as is what a new node holds before it is written.
    [axom::IndexType] has 32 bits, as by default.  [None] is an access outside of an array,
    a division by zero, an overflow or an assertion that fails.  A reference to a node is
    its index, or nothing for the sentinel [m_end].  The load factor, which is not used, and
    the counters of memory are not modelled. *)

From S2P Require Import Prelude.

Module BucketMap.
#[local] Open Scope list_scope.

Section map.
Context {K V : Type} `{EqDecision K} (hash : K -> Z) (junk : K * V).

(** ** Buckets *)

Record Node := mkNode { next : Z; key : K; value : V }.

Record Bucket := mkBucket { m_list : list Node; m_head : Z; m_free : Z; m_capacity : Z; b_size : Z }.

Definition Pair : Type := option Z * bool.

Implicit Types (b : Bucket).

Definition init_bucket (len : Z) : option Bucket :=
  if len <=? 0 then None
  else Some (mkBucket ((fun i => mkNode (if i =? len - 1 then -1 else i + 1) junk.1 junk.2) <$> seqZ 0 len) (-1) 0 len 0).

(** The first element of a bucket. *)
Definition insert_first b (k : K) (v : V) : option (Bucket * Pair) :=
  f ← (m_list b).[m_free b];
  l ← zupdate (m_list b) (m_free b) (mkNode (-1) k v);
  size ← int32 (b_size b + 1);
  Some (mkBucket l (m_free b) (next f) (m_capacity b) size, (Some (m_free b), true)).

(** A new element after the last one, [ind]. *)
Definition insert_after b (ind : Z) (k : K) (v : V) : option (Bucket * Pair) :=
  n ← (m_list b).[ind];
  l ← zupdate (m_list b) ind (mkNode (m_free b) (key n) (value n));
  f ← l.[m_free b];
  l ← zupdate l (m_free b) (mkNode (-1) k v);
  size ← int32 (b_size b + 1);
  Some (mkBucket l (m_head b) (next f) (m_capacity b) size, (Some (m_free b), true)).

(** The loops over the elements that stop at the last one: the node with the key before the
    last, or the last node. *)
Fixpoint to_last (fuel : nat) (l : list Node) (ind : Z) (k : K) : option (Z * bool) :=
  match fuel with
  | O => None
  | S fuel =>
    n ← l.[ind];
    if next n =? -1 then Some (ind, false)
    else if decide (key n = k) then Some (ind, true) else to_last fuel l (next n) k
  end.

Definition bucket_fuel b : nat := S (length (m_list b)).

Definition insert_no_update b (k : K) (v : V) : option (Bucket * Pair) :=
  if m_free b =? -1 then Some (b, (None, false))
  else if m_head b =? -1 then insert_first b k v
  else
    '(ind, found) ← to_last (bucket_fuel b) (m_list b) (m_head b) k;
    if found : bool then Some (b, (Some ind, false)) else insert_after b ind k v.

Definition assign_node b (ind : Z) (v : V) : option (Bucket * Pair) :=
  n ← (m_list b).[ind];
  l ← zupdate (m_list b) ind (mkNode (next n) (key n) v);
  Some (mkBucket l (m_head b) (m_free b) (m_capacity b) (b_size b), (Some ind, false)).

Definition insert_update b (k : K) (v : V) : option (Bucket * Pair) :=
  if m_head b =? -1 then insert_first b k v
  else
    '(ind, found) ← to_last (bucket_fuel b) (m_list b) (m_head b) k;
    if found : bool then assign_node b ind v
    else
      n ← (m_list b).[ind];
      if decide (key n = k) then assign_node b ind v
      else if m_free b =? -1 then Some (b, (None, false)) else insert_after b ind k v.

(** Unlinking a node. *)
Definition unlink b (prev ind : Z) : option Bucket :=
  n ← (m_list b).[ind];
  l ← (if prev =? -1 then Some (m_list b) else p ← (m_list b).[prev]; zupdate (m_list b) prev (mkNode (next n) (key p) (value p)));
  n' ← l.[ind];
  let head := if ind =? m_head b then next n' else m_head b in
  l ← zupdate l ind (mkNode (m_free b) (key n') (value n'));
  Some (mkBucket l head ind (m_capacity b) (b_size b - 1)).

Fixpoint remove_nodes (fuel : nat) b (prev ind : Z) (k : K) : option (Bucket * bool) :=
  match fuel with
  | O => None
  | S fuel =>
    n ← (m_list b).[ind];
    if decide (key n = k) then b' ← unlink b prev ind; Some (b', true)
    else if next n =? -1 then Some (b, false) else remove_nodes fuel b ind (next n) k
  end.

Definition remove b (k : K) : option (Bucket * bool) :=
  if m_head b =? -1 then Some (b, false) else remove_nodes (bucket_fuel b) b (-1) (m_head b) k.

Fixpoint find_nodes (fuel : nat) (l : list Node) (ind : Z) (k : K) : option (option Z) :=
  match fuel with
  | O => None
  | S fuel =>
    n ← l.[ind];
    if decide (key n = k) then Some (Some ind)
    else if next n =? -1 then Some None else find_nodes fuel l (next n) k
  end.

Definition find_bucket b (k : K) : option (option Z) :=
  if m_head b =? -1 then Some None else find_nodes (bucket_fuel b) (m_list b) (m_head b) k.

Definition get_size b : Z := b_size b.
Definition get_capacity b : Z := m_capacity b.

(** ** The map *)

Record Map := mkMap { m_buckets : list Bucket; m_bucket_count : Z; m_bucket_len : Z; m_size : Z; m_bucket_fill : bool }.

Implicit Types (m : Map).

Definition alloc_map (bucount bucklen : Z) : option (list Bucket) := mapM (fun _ => init_bucket bucklen) (seqZ 0 bucount).

Definition init (num_buckets bucket_len : Z) : option Map :=
  bs ← alloc_map num_buckets bucket_len; Some (mkMap bs num_buckets bucket_len 0 false).

Definition clear m : Map := mkMap [] 0 0 0 (m_bucket_fill m).

(** [*this = std::move(other)] for two maps: the new [*this] and [other].  The assignment
    does not name [m_bucket_fill]. *)
Definition move_assign m (other : Map) : Map * Map :=
  (mkMap (m_buckets other) (m_bucket_count other) (m_bucket_len other) (m_size other) (m_bucket_fill (clear m)), mkMap [] 0 0 0 (m_bucket_fill other)).

Definition move_construct (other : Map) : Map * Map := move_assign (mkMap [] 0 0 0 false) other.

Definition bucket m (k : K) : option Z := if m_bucket_count m =? 0 then None else Some (hash k mod m_bucket_count m).

Definition with_bucket m (i : Z) b : option Map :=
  bs ← zupdate (m_buckets m) i b; Some (mkMap bs (m_bucket_count m) (m_bucket_len m) (m_size m) (m_bucket_fill m)).

(** What [insert] and [insert_or_assign] share. *)
Definition insert_with (ins : Bucket -> K -> V -> option (Bucket * Pair)) m (k : K) (v : V) : option (Map * Pair) :=
  capacity ← int32 (m_bucket_count m * m_bucket_len m);
  if capacity =? 0 then Some (m, (None, false))
  else
    index ← bucket m k;
    target ← (m_buckets m).[index];
    '(target, ret) ← ins target k v;
    m ← with_bucket m index target;
    if ret.2 : bool then
      size ← int32 (m_size m + 1);
      Some (mkMap (m_buckets m) (m_bucket_count m) (m_bucket_len m) size (m_bucket_fill m || (get_size target =? get_capacity target)), ret)
    else Some (m, ret).

Definition insert m (k : K) (v : V) : option (Map * Pair) := insert_with insert_no_update m k v.
Definition insert_or_assign m (k : K) (v : V) : option (Map * Pair) := insert_with insert_update m k v.

Definition erase m (k : K) : option (Map * bool) :=
  index ← bucket m k;
  target ← (m_buckets m).[index];
  '(target, ret) ← remove target k;
  m ← with_bucket m index target;
  Some (if ret : bool then mkMap (m_buckets m) (m_bucket_count m) (m_bucket_len m) (m_size m - 1) (m_bucket_fill m) else m, ret).

(** The value of the node that is found; nothing for the sentinel. *)
Definition find m (k : K) : option (option V) :=
  index ← bucket m k;
  target ← (m_buckets m).[index];
  r ← find_bucket target k;
  match r with None => Some None | Some ind => n ← (m_list target).[ind]; Some (Some (value n)) end.

Definition size m : Z := m_size m.
Definition max_size m : option Z := int32 (m_bucket_len m * m_bucket_count m).
Definition empty m : bool := m_size m =? 0.

(** The elements of a bucket, inserted into the new buckets. *)
Fixpoint rehash_bucket (fuel : nat) (l : list Node) (ind newlen : Z) (new_list : list Bucket) : option (list Bucket) :=
  if ind =? -1 then Some new_list
  else
    match fuel with
    | O => None
    | S fuel =>
      n ← l.[ind];
      let hashed := hash (key n) mod newlen in
      target ← new_list.[hashed];
      '(target, _) ← insert_no_update target (key n) (value n);
      new_list ← zupdate new_list hashed target;
      rehash_bucket fuel l (next n) newlen new_list
    end.

Fixpoint rehash_buckets (bs : list Bucket) (newlen : Z) (new_list : list Bucket) : option (list Bucket) :=
  match bs with
  | [] => Some new_list
  | b :: bs => new_list ← rehash_bucket (bucket_fuel b) (m_list b) (m_head b) newlen new_list; rehash_buckets bs newlen new_list
  end.

(** The number of buckets after a rehash; the last case asserts that both arguments have
    their default. *)
Definition rehash_count (count buckets factor : Z) : option Z :=
  if negb (buckets =? -1) && (count <? buckets) then Some buckets
  else if negb (factor =? -1) && (1 <? factor) then int32 (factor * count)
  else if (factor =? -1) && (buckets =? -1) then int32 (2 * count) else None.

(** What it returns depends on the load factor and is not modelled, but computing it divides
    by the number of buckets. *)
Definition rehash m (buckets factor : Z) : option Map :=
  newlen ← rehash_count (m_bucket_count m) buckets factor;
  new_list ← alloc_map newlen (m_bucket_len m);
  bs ← rehash_buckets (m_buckets m) newlen new_list;
  if newlen =? 0 then None
  else Some (mkMap bs newlen (m_bucket_len m) (m_size m) (existsb (fun b => get_size b =? get_capacity b) bs)).

End map.
Arguments Node : clear implicits.
Arguments Bucket : clear implicits.
Arguments Map : clear implicits.

End BucketMap.
