(* ===== verification/BucketMapTheorems.v ===== *)
(** * Theorems on the map with fixed buckets

    A bucket is a list of elements that is as long as its capacity at most; the map behaves
    as a finite map whose keys are limited in each bucket. *)

From S2P Require Import Prelude BucketMap.

Module BucketMapTheorems.
Import BucketMap.
#[local] Open Scope list_scope.

Section bucket.
Context {K V : Type} `{EqDecision K}.
Implicit Types (b : Bucket K V) (l : list (Node K V)) (kvs : list (K * V)).

(** ** Lists of nodes *)

(** The nodes [idx] are linked from [start] on. *)
Fixpoint chain l (start : Z) (idx : list Z) : Prop :=
  match idx with
  | [] => start = -1
  | i :: r => start = i /\ exists n, l.[i] = Some n /\ chain l (next n) r
  end.

(** The nodes [idx] hold the elements [kvs]. *)
Definition holds l (idx : list Z) kvs : Prop := Forall2 (fun i kv => exists n, l.[i] = Some n /\ key n = kv.1 /\ value n = kv.2) idx kvs.

Lemma chain_other l i n l' start idx : zupdate l i n = Some l' -> i ∉ idx -> chain l start idx -> chain l' start idx.
Proof.
  intros Hu. revert start. induction idx as [|j r IH]; intros start Hi; [done|]. intros [-> (x & Hx & Hc)]. apply not_elem_of_cons in Hi as [Hij Hi]. split; [done|]. exists x.
  rewrite (zlookup_zupdate _ _ j _ _ Hu), decide_False by congruence. split; [done|]. by apply IH.
Qed.

Lemma holds_other l i n l' idx kvs : zupdate l i n = Some l' -> i ∉ idx -> holds l idx kvs -> holds l' idx kvs.
Proof.
  intros Hu Hi Hh. induction Hh as [|j kv idx kvs (x & Hx & E) _ IH]; [constructor|]. apply not_elem_of_cons in Hi as [Hij Hi]. constructor; [|by apply IH].
  exists x. by rewrite (zlookup_zupdate _ _ j _ _ Hu), decide_False by congruence.
Qed.

Lemma chain_bounds l start idx : chain l start idx -> Forall (fun i => 0 <= i < Z.of_nat (length l)) idx.
Proof.
  revert start. induction idx as [|i r IH]; intros start; [constructor|]. intros [_ (n & Hn & Hc)]. constructor; [by apply zlookup_Some_bounds in Hn|by apply (IH (next n))].
Qed.

Lemma chain_start l start idx : chain l start idx -> start = -1 <-> idx = [].
Proof. destruct idx as [|i r]; cbn; [done|]. intros [-> (n & Hn & _)]. apply zlookup_Some_bounds in Hn. split; [lia|done]. Qed.

(** The last node of a list that is not empty. *)
Lemma chain_snoc l start idx i : chain l start (idx ++ [i]) -> exists n, l.[i] = Some n /\ next n = -1.
Proof.
  revert start. induction idx as [|j r IH]; intros start; cbn.
  - intros [_ (n & Hn & Hc)]. by exists n.
  - intros [_ (n & _ & Hc)]. by apply (IH (next n)).
Qed.

(** Linking a last node to a new one. *)
Lemma chain_extend l start idx i n f l' : chain l start (idx ++ [i]) -> l.[i] = Some n -> i ∉ idx -> f <> -1 ->
  zupdate l i (mkNode f (key n) (value n)) = Some l' -> (exists x, l'.[f] = Some x /\ next x = -1) -> chain l' start (idx ++ [i; f]).
Proof.
  intros Hc Hn Hi Hf Hu Hx. revert start Hc. induction idx as [|j r IH]; intros start; cbn.
  - intros [-> _]. split; [done|]. eexists. rewrite (zlookup_zupdate _ _ i _ _ Hu), decide_True by done. split; [done|]. cbn. split; [done|]. exact Hx.
  - apply not_elem_of_cons in Hi as [Hij Hi]. intros [-> (x & Hxj & Hc)]. split; [done|]. exists x. rewrite (zlookup_zupdate _ _ j _ _ Hu), decide_False by congruence. split; [done|].
    by apply IH.
Qed.

(** ** Buckets *)

Record bucket_rep (len : Z) b (idx fr : list Z) kvs : Prop := {
  br_head : chain (m_list b) (m_head b) idx;
  br_free : chain (m_list b) (m_free b) fr;
  br_nodup : NoDup (idx ++ fr);
  br_all : Z.of_nat (length (idx ++ fr)) = len;
  br_len : Z.of_nat (length (m_list b)) = len;
  br_cap : m_capacity b = len;
  br_size : b_size b = Z.of_nat (length kvs);
  br_holds : holds (m_list b) idx kvs }.

Definition is_bucket (len : Z) b kvs : Prop := exists idx fr, bucket_rep len b idx fr kvs.

Lemma rep_length len b idx fr kvs : bucket_rep len b idx fr kvs -> length idx = length kvs.
Proof. intros H. by eapply Forall2_length, H. Qed.

(** There is a free node unless the bucket is full. *)
Lemma rep_room len b idx fr kvs : bucket_rep len b idx fr kvs -> m_free b = -1 <-> Z.of_nat (length kvs) = len.
Proof.
  intros H. rewrite (chain_start _ _ _ (br_free _ _ _ _ _ H)). pose proof (br_all _ _ _ _ _ H) as Ha. rewrite length_app in Ha. rewrite <- (rep_length _ _ _ _ _ H).
  destruct fr; cbn in Ha; split; try done; lia.
Qed.

(** ** Operations on buckets *)

Lemma init_bucket_ok (junk : K * V) len : 0 < len < 2 ^ 31 -> exists b, init_bucket junk len = Some b /\ is_bucket len b [].
Proof.
  intros Hl. unfold init_bucket. rewrite (proj2 (Z.leb_gt _ _)) by lia. eexists. split; [done|]. exists [], (seqZ 0 len). split; cbn [m_list m_head m_free m_capacity b_size]; try done.
  - set (l := _ <$> _). assert (forall i, 0 <= i < len -> l.[i] = Some (mkNode (if i =? len - 1 then -1 else i + 1) junk.1 junk.2)) as Hl'.
    { intros i Hi. unfold l. rewrite zlookup_fmap, zlookup_to_nat, lookup_seqZ_lt by lia. cbn. by replace (0 + Z.of_nat (Z.to_nat i)) with i by lia. }
    assert (forall z, 0 <= z < len -> chain l z (seqZ z (len - z))) as Hch; [|replace len with (len - 0) at 1 by lia; apply Hch; lia]. clearbody l.
    intros z. remember (Z.to_nat (len - z)) as n eqn:Hn. revert z Hn. induction n as [|n IH]; intros z Hn Hz; [lia|]. rewrite seqZ_cons by lia. cbn. split; [done|]. eexists. split; [by apply Hl'|]. cbn.
    destruct (Z.eqb_spec z (len - 1)) as [->|Hne]; [by rewrite seqZ_nil by lia|]. replace (Z.succ z) with (z + 1) by lia. replace (Z.pred (len - z)) with (len - (z + 1)) by lia. apply IH; lia.
  - apply NoDup_seqZ.
  - cbn. rewrite length_seqZ. lia.
  - rewrite length_fmap, length_seqZ. lia.
  - constructor.
Qed.

Lemma zupdate_ok {A} (xs : list A) i x : 0 <= i < Z.of_nat (length xs) -> exists xs', zupdate xs i x = Some xs' /\ length xs' = length xs.
Proof. intros Hi. rewrite zupdate_lt by done. eexists. split; [done|]. by rewrite length_insert. Qed.

(** A free node is taken for a first or another last element. *)
Lemma insert_first_ok len b k v : is_bucket len b [] -> 0 < len < 2 ^ 31 -> exists b' i, insert_first b k v = Some (b', (Some i, true)) /\ is_bucket len b' [(k, v)].
Proof.
  intros (idx & fr & H) Hl. pose proof (rep_length _ _ _ _ _ H) as Hi. destruct idx as [|]; [|done]. destruct H as [_ Hf Hnd Ha Hlen Hc Hs _]. cbn in *.
  destruct fr as [|f fr]; [cbn in Ha; lia|]. destruct Hf as [Ef (n & Hn & Hf)]. apply NoDup_cons in Hnd as [Hnf Hnd]. unfold insert_first. rewrite Ef, Hn. cbn.
  destruct (zupdate_ok (m_list b) f (mkNode (-1) k v)) as (l & Hu & Hll); [by apply zlookup_Some_bounds in Hn|]. rewrite Hu. cbn [mbind option_bind].
  rewrite Hs, int32_id by lia. cbn. eexists _, _. split; [done|].
  exists [f], fr. split; cbn [m_list m_head m_free m_capacity b_size app]; try done.
  - split; [done|]. eexists. by rewrite (zlookup_zupdate _ _ f _ _ Hu), decide_True.
  - by apply (chain_other _ _ _ _ _ _ Hu).
  - by apply NoDup_cons.
  - by rewrite Hll.
  - constructor; [|constructor]. eexists. by rewrite (zlookup_zupdate _ _ f _ _ Hu), decide_True.
Qed.

Lemma insert_after_ok len b idx i fr kvs k v : bucket_rep len b (idx ++ [i]) fr kvs -> Z.of_nat (length kvs) < len < 2 ^ 31 ->
  exists b' j, insert_after b i k v = Some (b', (Some j, true)) /\ is_bucket len b' (kvs ++ [(k, v)]).
Proof.
  intros H Hr. pose proof (rep_length _ _ _ _ _ H) as Hlk. pose proof H as [Hh Hf Hnd Ha Hlen Hc Hs Hk].
  destruct fr as [|f fr]; [rewrite app_nil_r in Ha; lia|]. destruct Hf as [Ef (nf & Hnf & Hf)]. destruct (chain_snoc _ _ _ _ Hh) as (n & Hn & En).
  apply NoDup_app in Hnd as (Hnd1 & Hdisj & [Hff Hndf]%NoDup_cons). pose proof Hnd1 as (Hnd0 & Hi & _)%NoDup_app. assert (i ∉ idx) as Hi' by (intros Hin; apply (Hi i Hin); left).
  assert (f <> i) as Hfi by (intros ->; apply (Hdisj i); [rewrite elem_of_app; right; left|left]). assert (f ∉ idx) as Hfidx by (intros Hin; apply (Hdisj f); [rewrite elem_of_app; auto|left]).
  assert (i ∉ fr) as Hifr by (intros Hin; apply (Hdisj i); [rewrite elem_of_app; right; left|by right]).
  unfold insert_after. rewrite Hn. cbn. rewrite Ef.
  destruct (zupdate_ok (m_list b) i (mkNode f (key n) (value n))) as (l1 & Hu1 & Hl1); [by apply zlookup_Some_bounds in Hn|]. rewrite Hu1. cbn.
  assert (l1.[f] = Some nf) as Hnf1 by (by rewrite (zlookup_zupdate _ _ f _ _ Hu1), decide_False by congruence). rewrite Hnf1. cbn.
  destruct (zupdate_ok l1 f (mkNode (-1) k v)) as (l2 & Hu2 & Hl2); [by apply zlookup_Some_bounds in Hnf1|]. rewrite Hu2. cbn [mbind option_bind].
  rewrite Hs, int32_id by lia. cbn. eexists _, _. split; [done|].
  assert (l2.[f] = Some (mkNode (-1) k v)) as Hf2 by (by rewrite (zlookup_zupdate _ _ f _ _ Hu2), decide_True).
  exists (idx ++ [i; f]), fr. split; cbn [m_list m_head m_free m_capacity b_size].
  - replace [i; f] with ([i] ++ [f]) by done. rewrite app_assoc.
    assert (exists l3, zupdate (m_list b) f (mkNode (-1) k v) = Some l3 /\ zupdate l3 i (mkNode f (key n) (value n)) = Some l2) as (l3 & Hu3 & Hu4).
    { apply zupdate_Some in Hu1 as [Hb1 ->]. apply zupdate_Some in Hu2 as [Hb2 ->]. rewrite length_insert in Hb2. eexists. rewrite zupdate_lt by done. split; [done|].
      rewrite zupdate_lt by (by rewrite length_insert). f_equal. apply list_insert_insert_ne. lia. }
    rewrite <- app_assoc. apply (chain_extend l3 _ _ _ n); [apply (chain_other _ _ _ _ _ _ Hu3); [|done]| |done| |done|by eexists].
    + rewrite elem_of_app, list_elem_of_singleton. intros [?|?]; [done|congruence].
    + by rewrite (zlookup_zupdate _ _ i _ _ Hu3), decide_False by congruence.
    + apply zlookup_Some_bounds in Hnf. lia.
  - apply (chain_other _ _ _ _ _ _ Hu2); [done|]. by apply (chain_other _ _ _ _ _ _ Hu1).
  - apply NoDup_app. split_and!; [|intros x; rewrite !elem_of_app, !elem_of_cons, elem_of_nil|done].
    + apply NoDup_app. split_and!; [done| |repeat constructor; [rewrite list_elem_of_singleton; congruence|set_solver]]. intros x Hx. rewrite !elem_of_cons, elem_of_nil. intros [->|[->|[]]]; done.
    + intros [Hx|[->|[->|[]]]]; [|done|done]. intros Hfr. apply (Hdisj x); [rewrite elem_of_app; auto|by right].
  - rewrite !length_app in *. cbn in *. lia.
  - rewrite Hl2, Hl1. done.
  - done.
  - rewrite length_app. cbn. lia.
  - replace [i; f] with ([i] ++ [f]) by done. rewrite app_assoc. apply Forall2_app; [|constructor; [|constructor]; by eexists].
    apply (holds_other _ _ _ _ _ _ Hu2); [rewrite elem_of_app, list_elem_of_singleton; intros [?|?]; [done|congruence]|].
    apply Forall2_app_inv_l in Hk as (k1 & k2 & Hk1 & Hk2 & ->). apply Forall2_app; [by apply (holds_other _ _ _ _ _ _ Hu1)|].
    inversion Hk2 as [|? kv ? ? (n' & Hn' & E1 & E2) Hnil]. inversion Hnil. subst. assert (n' = n) as -> by congruence. constructor; [|constructor]. eexists.
    rewrite (zlookup_zupdate _ _ i _ _ Hu1), decide_True by done. done.
Qed.

Lemma to_last_ok l start idx i kvs kv k fuel : chain l start (idx ++ [i]) -> holds l (idx ++ [i]) (kvs ++ [kv]) -> length idx = length kvs ->
  (length idx < fuel)%nat ->
  (k ∉ kvs.*1 /\ to_last fuel l start k = Some (i, false)) \/
  (exists p1 j p2 k1 v k2, idx = p1 ++ j :: p2 /\ kvs = k1 ++ (k, v) :: k2 /\ length p1 = length k1 /\ k ∉ k1.*1 /\ to_last fuel l start k = Some (j, true)).
Proof.
  revert start kvs fuel. induction idx as [|j idx IH]; intros start kvs fuel Hc Hh Hl Hfuel; destruct fuel as [|fuel]; try (cbn in Hfuel; lia).
  - destruct kvs; [|done]. left. split; [apply not_elem_of_nil|]. destruct Hc as [-> (n & Hn & E)]. cbn in E |- *. by rewrite Hn; cbn; rewrite E.
  - destruct kvs as [|[k' v'] kvs]; [done|]. cbn in Hl. injection Hl as Hl. cbn [app] in Hc, Hh. apply Forall2_cons_1 in Hh as [(n & Hn & E1 & E2) Hh]. destruct Hc as [-> (n' & Hn' & Hc)].
    assert (n' = n) as -> by congruence. cbn in E1, E2. cbn [to_last]. rewrite Hn. cbn [mbind option_bind].
    assert (next n <> -1) as Hne by (rewrite (chain_start _ _ _ Hc); by destruct idx). rewrite (proj2 (Z.eqb_neq _ _) Hne). case_decide as Hk.
    + right. exists [], j, idx, [], v', kvs. split_and!; [done|by subst|done|apply not_elem_of_nil|done].
    + destruct (IH (next n) kvs fuel Hc Hh Hl) as [[Hnk E]|(p1 & j' & p2 & k1 & v & k2 & -> & -> & Hp & Hnk & E)]; [cbn in Hfuel; lia| |].
      * left. split; [|done]. cbn. rewrite not_elem_of_cons. split; [congruence|done].
      * right. exists (j :: p1), j', p2, ((k', v') :: k1), v, k2. cbn. rewrite not_elem_of_cons. split_and!; [done|done|by rewrite Hp|congruence|done|done].
Qed.

(** Changing the value of an element. *)
Lemma assign_node_ok len b p1 i p2 fr k1 k v' k2 v : bucket_rep len b (p1 ++ i :: p2) fr (k1 ++ (k, v') :: k2) -> length p1 = length k1 ->
  exists b', assign_node b i v = Some (b', (Some i, false)) /\ is_bucket len b' (k1 ++ (k, v) :: k2).
Proof.
  intros [Hh Hf Hnd Ha Hlen Hc Hs Hk] Hl. apply Forall2_app_inv in Hk as [Hk1 Hk2]; [|done]. apply Forall2_cons_1 in Hk2 as [(n & Hn & E1 & E2) Hk2].
  unfold assign_node. rewrite Hn. cbn. destruct (zupdate_ok (m_list b) i (mkNode (next n) (key n) v)) as (l & Hu & Hll); [by apply zlookup_Some_bounds in Hn|]. rewrite Hu. cbn.
  assert (forall j x, (m_list b).[j] = Some x -> exists y, l.[j] = Some y /\ next y = next x) as Hnext.
  { intros j x Hx. rewrite (zlookup_zupdate _ _ j _ _ Hu). case_decide as E; [|by exists x]. assert (x = n) as -> by congruence. by eexists. }
  assert (forall start idx, chain (m_list b) start idx -> chain l start idx) as Hch.
  { intros start idx. revert start. induction idx as [|j r IH]; intros start; [done|]. intros [-> (x & Hx & Hr)]. destruct (Hnext j x Hx) as (y & Hy & Ey). split; [done|]. exists y. rewrite Ey. auto. }
  pose proof Hnd as (Hnd1 & _ & _)%NoDup_app. apply NoDup_app in Hnd1 as (_ & Hd & [Hi2 _]%NoDup_cons). assert (i ∉ p1) as Hi1 by (intros Hin; apply (Hd i Hin); left).
  eexists. split; [done|]. exists (p1 ++ i :: p2), fr. split; cbn [m_list m_head m_free m_capacity b_size]; try done; [by apply Hch|by apply Hch|by rewrite Hll| |].
  - rewrite Hs, !length_app. done.
  - apply Forall2_app; [by apply (holds_other _ _ _ _ _ _ Hu)|]. constructor; [|by apply (holds_other _ _ _ _ _ _ Hu)]. eexists. rewrite (zlookup_zupdate _ _ i _ _ Hu), decide_True by done. done.
Qed.

(** ** Elements of a bucket *)

Fixpoint put (k : K) (v : V) kvs : list (K * V) :=
  match kvs with [] => [(k, v)] | kv :: r => if decide (kv.1 = k) then (k, v) :: r else kv :: put k v r end.

Fixpoint del (k : K) kvs : list (K * V) :=
  match kvs with [] => [] | kv :: r => if decide (kv.1 = k) then r else kv :: del k r end.

Fixpoint get (k : K) kvs : option V :=
  match kvs with [] => None | kv :: r => if decide (kv.1 = k) then Some kv.2 else get k r end.

Lemma put_split k v k1 v' k2 : k ∉ k1.*1 -> put k v (k1 ++ (k, v') :: k2) = k1 ++ (k, v) :: k2.
Proof.
  induction k1 as [|[k0 v0] k1 IH]; intros Hk; cbn; [by rewrite decide_True|]. apply not_elem_of_cons in Hk as [H1 H2]. cbn in H1. rewrite decide_False by (cbn; congruence). by rewrite IH.
Qed.

Lemma put_new k v kvs : k ∉ kvs.*1 -> put k v kvs = kvs ++ [(k, v)].
Proof. induction kvs as [|[k0 v0] r IH]; intros Hk; [done|]. apply not_elem_of_cons in Hk as [H1 H2]. cbn in H1. cbn. rewrite decide_False by (cbn; congruence). by rewrite IH. Qed.

Lemma insert_update_ok len b kvs k v : is_bucket len b kvs -> 0 < len < 2 ^ 31 -> exists b' r, insert_update b k v = Some (b', r) /\
  if decide (k ∈ kvs.*1 \/ Z.of_nat (length kvs) < len) then is_bucket len b' (put k v kvs) /\ r.2 = bool_decide (k ∉ kvs.*1) /\ is_Some r.1
  else b' = b /\ r = (None, false).
Proof.
  intros Hb Hl. pose proof Hb as (idx & fr & H). pose proof (rep_length _ _ _ _ _ H) as Hlk. pose proof (rep_room _ _ _ _ _ H) as Hroom. unfold insert_update.
  destruct (Z.eqb_spec (m_head b) (-1)) as [Eh|Eh].
  { apply (chain_start _ _ _ (br_head _ _ _ _ _ H)) in Eh as ->. destruct kvs; [|done]. destruct (insert_first_ok len b k v Hb Hl) as (b' & i & -> & Hb'). eexists _, _. split; [done|].
    rewrite decide_True by (right; cbn; lia). split_and!; [done|by rewrite bool_decide_true by apply not_elem_of_nil|done]. }
  destruct idx as [|i idx _] using rev_ind; [by rewrite (chain_start _ _ _ (br_head _ _ _ _ _ H)) in Eh|]. destruct kvs as [|kv kvs _] using rev_ind; [rewrite length_app in Hlk; cbn in Hlk; lia|].
  rewrite !length_app in Hlk. cbn in Hlk. pose proof (br_holds _ _ _ _ _ H) as Hh.
  destruct (to_last_ok (m_list b) (m_head b) idx i kvs kv k (bucket_fuel b)) as [[Hnk E]|(p1 & j & p2 & k1 & v' & k2 & -> & -> & Hp & Hnk & E)]; [apply H|done|lia| | |].
  { unfold bucket_fuel. pose proof (br_all _ _ _ _ _ H) as Ha. pose proof (br_len _ _ _ _ _ H). rewrite !length_app in Ha. lia. }
  - rewrite E. cbn [mbind option_bind]. apply Forall2_app_inv in Hh as [_ Hh]; [|lia]. apply Forall2_cons_1 in Hh as [(n & Hn & E1 & E2) _]. rewrite Hn. cbn [mbind option_bind].
    assert (k ∈ (kvs ++ [kv]).*1 <-> k = kv.1) as Hmem by (rewrite fmap_app, elem_of_app; cbn; rewrite list_elem_of_singleton; tauto). rewrite E1. destruct (decide (kv.1 = k)) as [Hk|Hk].
    + destruct kv as [k' v']. cbn in Hk. subst k'. destruct (assign_node_ok len b idx i [] fr kvs k v' [] v H) as (b' & -> & Hb'); [lia|]. eexists _, _. split; [done|].
      rewrite decide_True by (left; by apply Hmem). rewrite put_split by done. split_and!; [done|rewrite bool_decide_false; [done|]|done]. intros Hn'. apply Hn'. by apply Hmem.
    + destruct (Z.eqb_spec (m_free b) (-1)) as [Ef|Ef].
      * eexists _, _. split; [done|]. apply Hroom in Ef. rewrite decide_False; [done|]. intros [->%Hmem|?]; [done|lia].
      * assert (Z.of_nat (length (kvs ++ [kv])) < len) as Hr.
        { pose proof (br_all _ _ _ _ _ H) as Ha. rewrite length_app in Ha. pose proof (rep_length _ _ _ _ _ H). destruct (decide (Z.of_nat (length (kvs ++ [kv])) = len)) as [E'|]; [by apply Hroom in E'|lia]. }
        destruct (insert_after_ok len b idx i fr (kvs ++ [kv]) k v H (conj Hr (proj2 Hl))) as (b' & j & -> & Hb'). eexists _, _. split; [done|].
        assert (k ∉ (kvs ++ [kv]).*1) as Hnk' by (intros ->%Hmem; done).
        rewrite decide_True by auto. rewrite put_new by done. split_and!; [done|by rewrite bool_decide_true|done].
  - rewrite E. cbn [mbind option_bind]. rewrite <- app_assoc in H. cbn [app] in H. rewrite <- (app_assoc k1 _ [kv]) in H. cbn [app] in H.
    destruct (assign_node_ok len b p1 j (p2 ++ [i]) fr k1 k v' (k2 ++ [kv]) v H Hp) as (b' & -> & Hb'). eexists _, _. split; [done|].
    rewrite <- (app_assoc k1 _ [kv]). cbn [app]. assert (k ∈ (k1 ++ (k, v') :: k2 ++ [kv]).*1) as Hin by (rewrite fmap_app, elem_of_app; right; left).
    rewrite decide_True by auto. rewrite put_split by done. split_and!; [done|rewrite bool_decide_false; [done|]|done]. intros Hn'. by apply Hn'.
Qed.

Lemma insert_no_update_ok len b kvs k v : is_bucket len b kvs -> 0 < len < 2 ^ 31 -> k ∉ kvs.*1 -> exists b' r, insert_no_update b k v = Some (b', r) /\
  if decide (Z.of_nat (length kvs) < len) then is_bucket len b' (kvs ++ [(k, v)]) /\ r.2 = true /\ is_Some r.1 else b' = b /\ r = (None, false).
Proof.
  intros Hb Hl Hk. pose proof Hb as (idx & fr & H). pose proof (rep_length _ _ _ _ _ H) as Hlk. pose proof (rep_room _ _ _ _ _ H) as Hroom. unfold insert_no_update.
  destruct (Z.eqb_spec (m_free b) (-1)) as [Ef|Ef]; [eexists _, _; split; [done|]; rewrite decide_False by (apply Hroom in Ef; lia); done|].
  assert (Z.of_nat (length kvs) < len) as Hr.
  { pose proof (br_all _ _ _ _ _ H) as Ha. rewrite length_app in Ha. destruct (decide (Z.of_nat (length kvs) = len)) as [E'|]; [by apply Hroom in E'|lia]. }
  destruct (Z.eqb_spec (m_head b) (-1)) as [Eh|Eh].
  { apply (chain_start _ _ _ (br_head _ _ _ _ _ H)) in Eh as ->. destruct kvs; [|done]. destruct (insert_first_ok len b k v Hb Hl) as (b' & i & -> & Hb'). eexists _, _. split; [done|]. by rewrite decide_True. }
  destruct idx as [|i idx _] using rev_ind; [by rewrite (chain_start _ _ _ (br_head _ _ _ _ _ H)) in Eh|]. destruct kvs as [|kv kvs _] using rev_ind; [by destruct idx|].
  rewrite !length_app in Hlk. cbn in Hlk. rewrite fmap_app, elem_of_app in Hk.
  destruct (to_last_ok (m_list b) (m_head b) idx i kvs kv k (bucket_fuel b)) as [[Hnk E]|(p1 & j & p2 & k1 & v' & k2 & -> & -> & Hp & Hnk & E)]; [apply H|apply H|lia| | |].
  { unfold bucket_fuel. pose proof (br_all _ _ _ _ _ H) as Ha. pose proof (br_len _ _ _ _ _ H). rewrite !length_app in Ha. lia. }
  - rewrite E. cbn [mbind option_bind]. destruct (insert_after_ok len b idx i fr (kvs ++ [kv]) k v H (conj Hr (proj2 Hl))) as (b' & j & -> & Hb'). eexists _, _. split; [done|]. by rewrite decide_True.
  - destruct Hk. left. rewrite fmap_app, elem_of_app. right. left.
Qed.

(** Taking a node out of a list. *)
Lemma chain_skip l start q j i p n l' : chain l start (q ++ j :: i :: p) -> NoDup (q ++ j :: i :: p) -> l.[i] = Some n ->
  (exists x, l.[j] = Some x /\ zupdate l j (mkNode (next n) (key x) (value x)) = Some l') -> chain l' start (q ++ j :: p).
Proof.
  intros Hc Hnd Hn (x & Hx & Hu). revert start Hc Hnd. induction q as [|j' q IH]; intros start; cbn.
  - intros [-> (x' & Hx' & _ & n' & Hn' & Hc)] [Hj _]%NoDup_cons. split; [done|]. eexists. rewrite (zlookup_zupdate _ _ j _ _ Hu), decide_True by done. split; [done|]. cbn.
    assert (n' = n) as -> by congruence. apply (chain_other _ _ _ _ _ _ Hu); [|done]. intros Hin. apply Hj. by right.
  - intros [-> (x' & Hx' & Hc)] [Hj' Hnd]%NoDup_cons. split; [done|]. exists x'. rewrite (zlookup_zupdate _ _ j' _ _ Hu), decide_False.
    + split; [done|]. by apply IH.
    + intros ->. apply Hj'. rewrite elem_of_app. right. left.
Qed.

Lemma unlink_ok len b p1 i p2 fr k1 kv k2 : bucket_rep len b (p1 ++ i :: p2) fr (k1 ++ kv :: k2) -> length p1 = length k1 ->
  exists b', unlink b (default (-1) (last p1)) i = Some b' /\ is_bucket len b' (k1 ++ k2).
Proof.
  intros [Hh Hf Hnd Ha Hlen Hc Hs Hk] Hl. pose proof Hk as Hk'. apply Forall2_app_inv in Hk' as [Hk1 Hk2]; [|done]. apply Forall2_cons_1 in Hk2 as [(n & Hn & E1 & E2) Hk2].
  apply NoDup_app in Hnd as (Hnd & Hdisj & Hndf). pose proof Hnd as (Hnd1 & Hd1 & [Hi2 Hnd2]%NoDup_cons)%NoDup_app. assert (i ∉ p1) as Hi1 by (intros Hin; apply (Hd1 i Hin); left).
  assert (i ∉ fr) as Hifr by (apply Hdisj; rewrite elem_of_app; right; left). pose proof (zlookup_Some_bounds _ _ _ Hn) as Hbi.
  assert (exists l1, (if default (-1) (last p1) =? -1 then Some (m_list b) else p ← (m_list b).[default (-1) (last p1)]; zupdate (m_list b) (default (-1) (last p1)) (mkNode (next n) (key p) (value p))) = Some l1 /\
    length l1 = length (m_list b) /\ l1.[i] = Some n /\ chain l1 (if i =? m_head b then next n else m_head b) (p1 ++ p2) /\ chain l1 (m_free b) fr /\ holds l1 (p1 ++ p2) (k1 ++ k2)) as (l1 & Hl1 & Hll & Hn1 & Hc1 & Hf1 & Hh1).
  { destruct p1 as [|j q _] using rev_ind.
    - destruct k1; [|done]. cbn in Hh |- *. exists (m_list b). destruct Hh as [Eh (n' & Hn' & Hr)]. rewrite (proj2 (Z.eqb_eq _ _)) by done. assert (n' = n) as -> by congruence. done.
    - rewrite last_snoc. change (default (-1) (Some j)) with j. rewrite <- app_assoc in Hh. cbn [app] in Hh. rewrite <- app_assoc in Hnd. cbn [app] in Hnd.
      assert (exists x, (m_list b).[j] = Some x) as [x Hx].
      { apply chain_bounds in Hh. rewrite Forall_app, Forall_cons in Hh. destruct Hh as (_ & Hj & _). by apply zlookup_lt. }
      pose proof (zlookup_Some_bounds _ _ _ Hx) as Hbj. rewrite (proj2 (Z.eqb_neq _ _)) by lia. rewrite Hx. cbn [mbind option_bind].
      destruct (zupdate_ok (m_list b) j (mkNode (next n) (key x) (value x))) as (l1 & Hu & Hll1); [done|]. exists l1. split; [done|]. split; [done|].
      assert (j <> i) as Hji by (intros ->; apply Hi1; rewrite elem_of_app; right; left). rewrite (zlookup_zupdate _ _ i _ _ Hu), decide_False by congruence. split; [done|].
      assert (j ∉ fr) as Hjfr by (apply Hdisj; rewrite !elem_of_app; left; right; left).
      assert (j ∉ p2) as Hjp2 by (intros Hin; apply (Hd1 j); [rewrite elem_of_app; right; left|by right]). split; [|split].
      + assert ((i =? m_head b) = false) as ->. { apply Z.eqb_neq. intros E. rewrite <- E in Hh. destruct q as [|j' q]; cbn in Hh; destruct Hh as [<- _]; [done|]. apply Hi1. left. }
        rewrite <- app_assoc. cbn [app]. apply (chain_skip (m_list b) _ q j i p2 n); [done|done|done|by exists x].
      + by apply (chain_other _ _ _ _ _ _ Hu).
      + apply Forall2_app; [|by apply (holds_other _ _ _ _ _ _ Hu)]. apply Forall2_app_inv_l in Hk1 as (ka & kb & Hka & Hkb & ->). apply Forall2_app.
        * apply (holds_other _ _ _ _ _ _ Hu); [|done]. apply NoDup_app in Hnd1 as (_ & Hq & _). intros Hin. apply (Hq j Hin). left.
        * inversion Hkb as [|? kvj ? ? (n' & Hn' & Ea & Eb) Hnil]. inversion Hnil. subst. assert (n' = x) as -> by congruence. constructor; [|constructor]. eexists.
          rewrite (zlookup_zupdate _ _ j _ _ Hu), decide_True by done. done. }
  unfold unlink. rewrite Hn. cbn [mbind option_bind]. rewrite Hl1. cbn [mbind option_bind]. rewrite Hn1. cbn [mbind option_bind].
  destruct (zupdate_ok l1 i (mkNode (m_free b) (key n) (value n))) as (l2 & Hu2 & Hl2); [by rewrite Hll|]. rewrite Hu2. cbn [mbind option_bind]. eexists. split; [done|].
  assert (i ∉ p1 ++ p2) as Hi12 by (rewrite elem_of_app; tauto).
  exists (p1 ++ p2), (i :: fr). split; cbn [m_list m_head m_free m_capacity b_size]; try done.
  - by apply (chain_other _ _ _ _ _ _ Hu2).
  - split; [done|]. eexists. rewrite (zlookup_zupdate _ _ i _ _ Hu2), decide_True by done. split; [done|]. by apply (chain_other _ _ _ _ _ _ Hu2).
  - apply NoDup_app. split_and!; [apply NoDup_app; split_and!; [done| |done]| |by apply NoDup_cons].
    + intros x Hx Hx2. apply (Hd1 x Hx). by right.
    + intros x Hx [->|Hin]%elem_of_cons; [done|]. apply (Hdisj x); [|done]. rewrite elem_of_app in Hx |- *. rewrite elem_of_cons. tauto.
  - rewrite !length_app in *. cbn in *. lia.
  - by rewrite Hl2, Hll.
  - rewrite Hs, !length_app. cbn. lia.
  - by apply (holds_other _ _ _ _ _ _ Hu2).
Qed.

Lemma remove_nodes_ok len b p1 i p2 fr k1 kv k2 k fuel : bucket_rep len b (p1 ++ i :: p2) fr (k1 ++ kv :: k2) -> length p1 = length k1 -> k ∉ k1.*1 -> (length p2 < fuel)%nat ->
  exists b', remove_nodes fuel b (default (-1) (last p1)) i k = Some (b', bool_decide (k ∈ (kv :: k2).*1)) /\ is_bucket len b' (k1 ++ del k (kv :: k2)).
Proof.
  revert p1 i p2 k1 kv k2. induction fuel as [|fuel IH]; intros p1 i p2 k1 kv k2 H Hl Hk Hfuel; [lia|]. cbn [remove_nodes del].
  pose proof (br_holds _ _ _ _ _ H) as Hh. apply Forall2_app_inv in Hh as [_ Hh]; [|done]. apply Forall2_cons_1 in Hh as [(n & Hn & E1 & E2) Hh]. rewrite Hn. cbn [mbind option_bind]. rewrite E1.
  destruct (decide (kv.1 = k)) as [Ek|Ek].
  { destruct (unlink_ok len b p1 i p2 fr k1 kv k2 H Hl) as (b' & -> & Hb'). exists b'. cbn. rewrite bool_decide_true by (rewrite Ek; left). done. }
  assert (exists n', (m_list b).[i] = Some n' /\ chain (m_list b) (next n') p2) as (n' & Hn' & Hc).
  { pose proof (br_head _ _ _ _ _ H) as Hc. revert Hc. generalize (m_head b). clear -p1. induction p1 as [|j q IHq]; intros start; cbn; [intros [_ Hc]; exact Hc|]. intros [_ (x & _ & Hc)]. by apply (IHq _ Hc). }
  assert (n' = n) as -> by congruence. destruct (Z.eqb_spec (next n) (-1)) as [En|En].
  - apply (chain_start _ _ _ Hc) in En as ->. apply Forall2_nil_inv_l in Hh as ->. exists b. rewrite bool_decide_false; [split; [done|by exists (p1 ++ [i]), fr]|].
    cbn. rewrite list_elem_of_singleton. congruence.
  - destruct p2 as [|i2 p2]; [done|]. destruct k2 as [|kv2 k2]; [by inversion Hh|]. destruct Hc as [-> _].
    replace (p1 ++ i :: i2 :: p2) with ((p1 ++ [i]) ++ i2 :: p2) in H by (by rewrite <- app_assoc). replace (k1 ++ kv :: kv2 :: k2) with ((k1 ++ [kv]) ++ kv2 :: k2) in H by (by rewrite <- app_assoc).
    destruct (IH (p1 ++ [i]) i2 p2 (k1 ++ [kv]) kv2 k2 H) as (b' & E & Hb'); [rewrite !length_app; cbn; lia| |cbn in Hfuel; lia|].
    { rewrite fmap_app, elem_of_app. cbn. rewrite list_elem_of_singleton. intros [?|?]; [done|congruence]. }
    rewrite last_snoc in E. cbn in E. exists b'. rewrite <- app_assoc in Hb'. split; [|done]. rewrite E. do 2 f_equal. apply bool_decide_ext. cbn. rewrite (elem_of_cons (kv2.1 :: _)). split; [auto|]. intros [?|?]; [congruence|done].
Qed.

Lemma remove_ok len b kvs k : is_bucket len b kvs -> exists b', remove b k = Some (b', bool_decide (k ∈ kvs.*1)) /\ is_bucket len b' (del k kvs).
Proof.
  intros Hb. pose proof Hb as (idx & fr & H). pose proof (rep_length _ _ _ _ _ H) as Hlk. unfold remove. destruct (Z.eqb_spec (m_head b) (-1)) as [Eh|Eh].
  - apply (chain_start _ _ _ (br_head _ _ _ _ _ H)) in Eh as ->. destruct kvs; [|done]. exists b. by rewrite bool_decide_false by apply not_elem_of_nil.
  - destruct idx as [|i p2]; [by rewrite (chain_start _ _ _ (br_head _ _ _ _ _ H)) in Eh|]. destruct kvs as [|kv k2]; [done|].
    pose proof (br_head _ _ _ _ _ H) as [-> _]. apply (remove_nodes_ok len b [] i p2 fr [] kv k2); [done|done|apply not_elem_of_nil|].
    unfold bucket_fuel. pose proof (br_all _ _ _ _ _ H) as Ha. pose proof (br_len _ _ _ _ _ H). cbn in Ha. rewrite length_app in Ha. lia.
Qed.

Lemma find_nodes_ok l start idx kvs k fuel : chain l start idx -> holds l idx kvs -> idx <> [] -> (length idx < S fuel)%nat ->
  (find_nodes fuel l start k = Some None /\ get k kvs = None) \/ (exists i n, find_nodes fuel l start k = Some (Some i) /\ l.[i] = Some n /\ get k kvs = Some (value n)).
Proof.
  revert start kvs fuel. induction idx as [|i idx IH]; intros start kvs fuel Hc Hh Hne Hf; [done|]. destruct fuel as [|fuel]; [cbn in Hf; lia|]. destruct kvs as [|kv kvs]; [by inversion Hh|].
  apply Forall2_cons_1 in Hh as [(n & Hn & E1 & E2) Hh]. destruct Hc as [-> (n' & Hn' & Hc)]. assert (n' = n) as -> by congruence. cbn [find_nodes get]. rewrite Hn. cbn [mbind option_bind]. rewrite E1.
  destruct (decide (kv.1 = k)) as [Ek|Ek]; [right; exists i, n; by rewrite E2|]. destruct (Z.eqb_spec (next n) (-1)) as [En|En].
  - apply (chain_start _ _ _ Hc) in En as ->. apply Forall2_nil_inv_l in Hh as ->. by left.
  - apply IH; [done|done|by intros ->|cbn in Hf; lia].
Qed.

Lemma find_bucket_ok len b kvs k : is_bucket len b kvs ->
  (find_bucket b k = Some None /\ get k kvs = None) \/ (exists i n, find_bucket b k = Some (Some i) /\ (m_list b).[i] = Some n /\ get k kvs = Some (value n)).
Proof.
  intros (idx & fr & H). pose proof (rep_length _ _ _ _ _ H) as Hlk. unfold find_bucket. destruct (Z.eqb_spec (m_head b) (-1)) as [Eh|Eh].
  - apply (chain_start _ _ _ (br_head _ _ _ _ _ H)) in Eh as ->. destruct kvs; [|done]. by left.
  - apply (find_nodes_ok _ _ idx); [apply H|apply H|by rewrite (chain_start _ _ _ (br_head _ _ _ _ _ H)) in Eh|].
    unfold bucket_fuel. pose proof (br_all _ _ _ _ _ H) as Ha. pose proof (br_len _ _ _ _ _ H). rewrite length_app in Ha. lia.
Qed.

End bucket.

(** ** Buckets as parts of a finite map *)

Section map.
Context {K V : Type} `{Countable K} (hash : K -> Z) (junk : K * V).
Implicit Types (b : Bucket K V) (bs : list (Bucket K V)) (kvs : list (K * V)) (g : gmap K V).

Lemma get_lookup k kvs : (list_to_map kvs : gmap K V) !! k = get k kvs.
Proof.
  induction kvs as [|[k' v] r IH]; [done|]. cbn. case_decide as E; [subst; by rewrite lookup_insert_eq|]. by rewrite lookup_insert_ne.
Qed.

Lemma put_insert k v kvs : (list_to_map (put k v kvs) : gmap K V) = <[k := v]> (list_to_map kvs).
Proof.
  induction kvs as [|[k' v'] r IH]; [done|]. cbn. case_decide as E; cbn; [subst; by rewrite insert_insert_eq|]. rewrite IH. by apply insert_insert_ne.
Qed.

Lemma put_keys k v kvs k' : k' ∈ (put k v kvs).*1 -> k' = k \/ k' ∈ kvs.*1.
Proof. induction kvs as [|[k0 v0] r IH]; cbn; [rewrite list_elem_of_singleton; auto|]. case_decide as E; cbn; rewrite !elem_of_cons; naive_solver. Qed.

Lemma put_nodup k v kvs : NoDup kvs.*1 -> NoDup (put k v kvs).*1.
Proof.
  induction kvs as [|[k0 v0] r IH]; cbn; [intros _; apply NoDup_singleton|]. intros [H1 H2]%NoDup_cons. case_decide as E; cbn; cbn in E; [subst; by apply NoDup_cons|].
  apply NoDup_cons. split; [|by apply IH]. intros [?|?]%put_keys; done.
Qed.

Lemma del_sublist k kvs : (del k kvs).*1 `sublist_of` kvs.*1.
Proof. induction kvs as [|[k0 v0] r IH]; [done|]. cbn. case_decide; cbn; [by apply sublist_cons|by apply sublist_skip]. Qed.

Lemma del_delete k kvs : NoDup kvs.*1 -> (list_to_map (del k kvs) : gmap K V) = delete k (list_to_map kvs).
Proof.
  induction kvs as [|[k' v'] r IH]; cbn; [intros _; by rewrite delete_empty|]. intros [H1 H2]%NoDup_cons. case_decide as E; cbn; cbn in E.
  - subst. rewrite delete_insert_eq. symmetry. apply delete_id. by apply not_elem_of_list_to_map.
  - rewrite IH by done. by rewrite delete_insert_ne.
Qed.

Lemma length_size kvs : NoDup kvs.*1 -> length kvs = base.size (list_to_map kvs : gmap K V).
Proof. intros Hn. rewrite <- length_map_to_list. apply Permutation_length. symmetry. by apply map_to_list_to_map. Qed.

(** The elements of [g] that go to the bucket [i] of [n]. *)
Definition slot (n i : Z) g : gmap K V := filter (fun kv => hash kv.1 mod n = i) g.

Lemma slot_find n g k : slot n (hash k mod n) g !! k = g !! k.
Proof. unfold slot. destruct (g !! k) as [v|] eqn:E; [by apply map_lookup_filter_Some|]. apply map_lookup_filter_None. by left. Qed.

Lemma slot_insert n i g k v : slot n i (<[k := v]> g) = if decide (hash k mod n = i) then <[k := v]> (slot n i g) else slot n i g.
Proof.
  unfold slot. case_decide as E; [by rewrite map_filter_insert_True|]. rewrite map_filter_insert_False by done. rewrite map_filter_delete. apply delete_id. apply map_lookup_filter_None. right. by intros ? _.
Qed.

Lemma slot_delete n i g k : slot n i (delete k g) = if decide (hash k mod n = i) then delete k (slot n i g) else slot n i g.
Proof.
  unfold slot. rewrite map_filter_delete. case_decide as E; [done|]. apply delete_id. apply map_lookup_filter_None. right. by intros ? _.
Qed.

(** The bucket [b] holds the elements of [g]. *)
Definition bucket_map (len : Z) b g : Prop := exists kvs, is_bucket len b kvs /\ NoDup kvs.*1 /\ list_to_map kvs = g.

(** The lists of buckets. *)
Record buckets_rep (n len : Z) bs g : Prop := {
  bs_len : Z.of_nat (length bs) = n;
  bs_at : forall i b, bs.[i] = Some b -> bucket_map len b (slot n i g) }.

Lemma buckets_lookup n len bs g k : buckets_rep n len bs g -> 0 < n ->
  exists b, bs.[hash k mod n] = Some b /\ bucket_map len b (slot n (hash k mod n) g).
Proof.
  intros [Hl Hat] Hn. destruct (zlookup_lt bs (hash k mod n)) as [b Hb]; [rewrite Hl; by apply Z.mod_pos_bound|]. exists b. auto.
Qed.

(** Replacing a bucket. *)
Lemma buckets_update n len bs g g' i b : buckets_rep n len bs g -> 0 <= i < n -> bucket_map len b (slot n i g') ->
  (forall j, j <> i -> slot n j g' = slot n j g) -> exists bs', zupdate bs i b = Some bs' /\ buckets_rep n len bs' g'.
Proof.
  intros [Hl Hat] Hi Hb Hj. destruct (zupdate_ok bs i b) as (bs' & Hu & Hl'); [lia|]. exists bs'. split; [done|]. split; [by rewrite Hl'|]. intros j b'.
  rewrite (zlookup_zupdate _ _ j _ _ Hu). case_decide as E; [intros [= <-]; by subst|]. intros Hb'. rewrite Hj by done. auto.
Qed.

(** Whether there is a place for a key. *)
Definition room (n len : Z) g (k : K) : Prop := is_Some (g !! k) \/ Z.of_nat (base.size (slot n (hash k mod n) g)) < len.

#[export] Instance room_decision n len g k : Decision (room n len g k).
Proof. unfold room. apply _. Defined.

Lemma alloc_map_ok n len : 0 < len < 2 ^ 31 -> 0 <= n -> exists bs, alloc_map junk n len = Some bs /\ buckets_rep n len bs ∅.
Proof.
  intros Hl Hn. destruct (init_bucket_ok junk len Hl) as (b & Hb & Hrep). exists (replicate (Z.to_nat n) b). split.
  - unfold alloc_map. apply mapM_Some. rewrite Hb. replace (Z.to_nat n) with (length (seqZ 0 n)) by (rewrite length_seqZ; lia).
    induction (seqZ 0 n); cbn; constructor; auto.
  - split; [rewrite length_replicate; lia|]. intros i b' Hb'. rewrite zlookup_to_nat in Hb' by (apply zlookup_Some_bounds in Hb'; lia). apply lookup_replicate in Hb' as [-> _].
    exists []. unfold slot. rewrite map_filter_empty. split_and!; [done|constructor|done].
Qed.

(** What both insertions do with a bucket. *)
Definition inserts (ins : Bucket K V -> K -> V -> option (Bucket K V * Pair)) (len : Z) (k : K) (v : V) b g : Prop :=
  exists b' r, ins b k v = Some (b', r) /\
    if decide (is_Some (g !! k) \/ Z.of_nat (base.size g) < len) then bucket_map len b' (<[k := v]> g) /\ r.2 = bool_decide (g !! k = None) /\ is_Some r.1
    else b' = b /\ r = (None, false).

Lemma keys_lookup k kvs : k ∈ kvs.*1 <-> is_Some ((list_to_map kvs : gmap K V) !! k).
Proof. rewrite <- not_eq_None_Some, <- not_elem_of_list_to_map. split; [auto|]. intros Hk. destruct (decide (k ∈ kvs.*1)); [done|]. by destruct Hk. Qed.

Lemma insert_update_map len b g k v : bucket_map len b g -> 0 < len < 2 ^ 31 -> inserts insert_update len k v b g.
Proof.
  intros (kvs & Hb & Hnd & <-) Hl. destruct (insert_update_ok len b kvs k v Hb Hl) as (b' & r & E & Hr). exists b', r. split; [done|]. rewrite <- length_size by done.
  case_decide as Hd; rewrite keys_lookup in Hd; [rewrite decide_True by done|by rewrite decide_False]. destruct Hr as (Hb' & -> & Hs). split_and!; [|apply bool_decide_ext, not_elem_of_list_to_map|done].
  exists (put k v kvs). split_and!; [done|by apply put_nodup|apply put_insert].
Qed.

Lemma insert_no_update_map len b g k v : bucket_map len b g -> 0 < len < 2 ^ 31 -> g !! k = None -> inserts insert_no_update len k v b g.
Proof.
  intros (kvs & Hb & Hnd & <-) Hl Hk. destruct (insert_no_update_ok len b kvs k v Hb Hl) as (b' & r & E & Hr); [by apply not_elem_of_list_to_map|]. exists b', r. split; [done|].
  rewrite <- length_size by done. rewrite Hk. destruct (decide (Z.of_nat (length kvs) < len)) as [Hr'|Hr'].
  - rewrite decide_True by auto. destruct Hr as (Hb' & -> & Hs). split_and!; [|done|done].
    exists (put k v kvs). rewrite <- put_new in Hb' by (by apply not_elem_of_list_to_map). split_and!; [done|by apply put_nodup|apply put_insert].
  - rewrite decide_False; [done|]. intros [[? [=]]|?]; done.
Qed.

Lemma remove_map len b g k : bucket_map len b g -> exists b', remove b k = Some (b', bool_decide (is_Some (g !! k))) /\ bucket_map len b' (delete k g).
Proof.
  intros (kvs & Hb & Hnd & <-). destruct (remove_ok len b kvs k Hb) as (b' & E & Hb'). exists b'. rewrite E. split; [do 2 f_equal; apply bool_decide_ext, keys_lookup|].
  exists (del k kvs). split_and!; [done| |by apply del_delete]. eapply sublist_NoDup; [|apply del_sublist]. done.
Qed.

Lemma bucket_map_size len b g : bucket_map len b g -> get_size b = Z.of_nat (base.size g) /\ get_capacity b = len /\ Z.of_nat (base.size g) <= len.
Proof.
  intros (kvs & (idx & fr & Hb) & Hnd & <-). rewrite <- length_size by done. pose proof (rep_length _ _ _ _ _ Hb). destruct Hb as [_ _ _ Ha _ Hc Hs _]. rewrite length_app in Ha.
  split_and!; [done|done|lia].
Qed.

(** ** The map *)

Record map_rep (n len : Z) (m : Map K V) g : Prop := {
  mr_buckets : buckets_rep n len (m_buckets m) g;
  mr_count : m_bucket_count m = n;
  mr_len : m_bucket_len m = len;
  mr_pos : 0 < n /\ 0 < len /\ n * len < 2 ^ 31;
  mr_size : m_size m = Z.of_nat (base.size g);
  mr_fill : forall i, 0 <= i < n -> Z.of_nat (base.size (slot n i g)) = len -> m_bucket_fill m = true }.

Lemma with_bucket_ok n len m g g' k b : map_rep n len m g -> bucket_map len b (slot n (hash k mod n) g') ->
  (forall j, j <> hash k mod n -> slot n j g' = slot n j g) ->
  exists bs, with_bucket m (hash k mod n) b = Some (mkMap bs (m_bucket_count m) (m_bucket_len m) (m_size m) (m_bucket_fill m)) /\ buckets_rep n len bs g'.
Proof.
  intros H' Hb Hj. destruct H' as [Hbs _ _ [Hn _] _ _]. destruct (buckets_update n len _ g g' (hash k mod n) b Hbs) as (bs & E & Hbs'); [by apply Z.mod_pos_bound|done|done|].
  exists bs. unfold with_bucket. by rewrite E.
Qed.

(** The elements of [g] in the buckets before [j] of [n]. *)
Definition below (n j : Z) g : gmap K V := filter (fun kv => hash kv.1 mod n < j) g.

Lemma below_succ n j g : slot n j g ∪ below n j g = below n (j + 1) g.
Proof.
  apply map_eq. intros k. apply option_eq. intros v. unfold slot, below. rewrite lookup_union_Some_raw, !map_lookup_filter_Some, map_lookup_filter_None. cbn. split.
  - intros [[? ?]|[_ [? ?]]]; (split; [done|lia]).
  - intros [Hg Hk]. destruct (decide (hash k mod n = j)); [by left|]. right. split; [right; by intros|]. split; [done|lia].
Qed.

Lemma below_bounds n g : 0 < n -> below n 0 g = ∅ /\ below n n g = g.
Proof.
  intros Hn. split.
  - apply map_empty. intros k. apply map_lookup_filter_None. right. intros v _. cbn. pose proof (Z.mod_pos_bound (hash k) n Hn). lia.
  - apply map_filter_id. intros k v _. cbn. by apply Z.mod_pos_bound.
Qed.

(** The number of elements is that of all buckets. *)
Lemma total_size n len g : 0 < n -> (forall i, 0 <= i < n -> Z.of_nat (base.size (slot n i g)) <= len) -> Z.of_nat (base.size g) <= n * len.
Proof.
  intros Hn Hs. destruct (below_bounds n g Hn) as [E0 E1]. rewrite <- E1.
  assert (forall j : nat, Z.of_nat j <= n -> Z.of_nat (base.size (below n (Z.of_nat j) g)) <= Z.of_nat j * len) as Hj; [|specialize (Hj (Z.to_nat n)); rewrite Z2Nat.id in Hj by lia; lia].
  induction j as [|j IH]; intros Hjn; [change (Z.of_nat 0) with 0; rewrite E0, map_size_empty; lia|].
  replace (Z.of_nat (S j)) with (Z.of_nat j + 1) by lia. rewrite <- below_succ, map_size_disj_union.
  - specialize (Hs (Z.of_nat j)). lia.
  - apply map_disjoint_spec. intros k v1 v2 [_ H1]%map_lookup_filter_Some [_ H2]%map_lookup_filter_Some. cbn in H1, H2. lia.
Qed.

(** The buckets limit the elements of a map. *)
Lemma map_rep_total n len m g : map_rep n len m g -> Z.of_nat (base.size g) <= n * len.
Proof.
  intros [Hbs _ _ [Hn _] _ _]. apply total_size; [done|]. intros i Hi. destruct (zlookup_lt (m_buckets m) i) as [b Hb]; [by rewrite (bs_len _ _ _ _ Hbs)|].
  by destruct (bucket_map_size _ _ _ (bs_at _ _ _ _ Hbs i b Hb)) as (_ & _ & ?).
Qed.

Lemma insert_with_ok ins n len m g k v : map_rep n len m g ->
  (forall b, bucket_map len b (slot n (hash k mod n) g) -> inserts ins len k v b (slot n (hash k mod n) g)) ->
  exists m' r, insert_with hash ins m k v = Some (m', r) /\
    if decide (room n len g k) then map_rep n len m' (<[k := v]> g) /\ r.2 = bool_decide (g !! k = None) /\ is_Some r.1 else m' = m /\ r = (None, false).
Proof.
  intros Hm Hins. pose proof Hm as [Hbs Ec El (Hn & Hl & Hnl) Hs Hf]. destruct (buckets_lookup n len _ g k Hbs Hn) as (b & Hb & Hbm). destruct (Hins b Hbm) as (b' & r & E & Hr).
  unfold insert_with. rewrite Ec, El. rewrite int32_id by nia. cbn [mbind option_bind]. rewrite (proj2 (Z.eqb_neq _ _)) by nia. unfold bucket. rewrite Ec. rewrite (proj2 (Z.eqb_neq _ _)) by lia. cbn [mbind option_bind]. rewrite Hb. cbn [mbind option_bind].
  rewrite E. cbn [mbind option_bind]. rewrite slot_find in Hr. destruct (decide (room n len g k)) as [Hroom|Hroom]; unfold room in Hroom; [rewrite decide_True in Hr by done|rewrite decide_False in Hr by done].
  - destruct Hr as (Hb' & E2 & Hs1). destruct (with_bucket_ok n len m g (<[k := v]> g) k b' Hm) as (bs & -> & Hbs').
    { rewrite slot_insert, decide_True by done. done. } { intros j Hj. by rewrite slot_insert, decide_False. }
    cbn [mbind option_bind]. destruct (bucket_map_size _ _ _ Hb') as (Es & Ecap & _).
    assert (forall i, 0 <= i < n -> Z.of_nat (base.size (slot n i (<[k := v]> g))) = len -> i <> hash k mod n -> m_bucket_fill m = true) as Hfo.
    { intros i Hi Hsz Hne. apply (Hf i Hi). by rewrite slot_insert, decide_False in Hsz. }
    rewrite E2. destruct (g !! k) as [w|] eqn:Eg; cbn.
    + eexists _, _. split; [done|]. split_and!; [|done|done]. split; cbn; try done; [by rewrite Hs, map_size_insert, Eg|]. intros i Hi Hsz.
      destruct (decide (i = hash k mod n)) as [->|Hne]; [|by apply (Hfo i)]. apply (Hf _ Hi). rewrite slot_insert, decide_True in Hsz by done. by rewrite map_size_insert, slot_find, Eg in Hsz.
    + assert (base.size (<[k := v]> g) = S (base.size g)) as Esz by (by rewrite map_size_insert, Eg).
      assert (Z.of_nat (S (base.size g)) <= n * len) as Htot.
      { rewrite <- Esz. apply total_size; [done|]. intros i Hi. destruct (zlookup_lt bs i) as [x Hx]; [by rewrite (bs_len _ _ _ _ Hbs')|].
        by destruct (bucket_map_size _ _ _ (bs_at _ _ _ _ Hbs' i x Hx)) as (_ & _ & ?). }
      rewrite Hs, int32_id by lia. cbn. eexists _, _. split; [done|]. split_and!; [|done|done]. split; cbn; try done; [rewrite Esz; lia|]. intros i Hi Hsz.
      destruct (decide (i = hash k mod n)) as [->|Hne]; [|by rewrite (Hfo i)]. rewrite slot_insert, decide_True in Hsz by done. rewrite Es, Ecap, Hsz, Z.eqb_refl. apply orb_true_r.
  - destruct Hr as [-> ->]. apply zlookup_Some_bounds in Hb as Hbd. unfold with_bucket. rewrite zupdate_lt by done. rewrite list_insert_id by (by rewrite <- zlookup_to_nat by lia). cbn.
    eexists _, _. split; [done|]. by destruct m.
Qed.

Lemma slot_size_delete n i g k : (base.size (slot n i (delete k g)) <= base.size (slot n i g))%nat.
Proof. rewrite slot_delete. case_decide; [|done]. rewrite map_size_delete. destruct (slot n i g !! k); unfold id; lia. Qed.

Lemma map_erase_ok n len m g k : map_rep n len m g -> exists m', erase hash m k = Some (m', bool_decide (is_Some (g !! k))) /\ map_rep n len m' (delete k g).
Proof.
  intros Hm. pose proof Hm as [Hbs Ec El (Hn & Hl & Hnl) Hs Hf]. destruct (buckets_lookup n len _ g k Hbs Hn) as (b & Hb & Hbm). destruct (remove_map _ _ _ k Hbm) as (b' & E & Hb').
  rewrite slot_find in E. unfold erase, bucket. rewrite Ec, (proj2 (Z.eqb_neq _ _)) by lia. cbn [mbind option_bind]. rewrite Hb. cbn [mbind option_bind]. rewrite E. cbn [mbind option_bind].
  destruct (with_bucket_ok n len m g (delete k g) k b' Hm) as (bs & -> & Hbs'); [by rewrite slot_delete, decide_True|intros j Hj; by rewrite slot_delete, decide_False|].
  cbn [mbind option_bind]. eexists. split; [done|].
  assert (forall i, 0 <= i < n -> Z.of_nat (base.size (slot n i (delete k g))) = len -> m_bucket_fill m = true) as Hf'.
  { intros i Hi Hsz. apply (Hf i Hi). pose proof (slot_size_delete n i g k). destruct (zlookup_lt (m_buckets m) i) as [x Hx]; [by rewrite (bs_len _ _ _ _ Hbs)|].
    destruct (bucket_map_size _ _ _ (bs_at _ _ _ _ Hbs i x Hx)) as (_ & _ & ?). lia. }
  destruct (g !! k) as [w|] eqn:Eg; cbn; (split; cbn; try done); rewrite Hs, map_size_delete, Eg; [|done].
  assert (base.size g <> 0%nat) by (intros Hz; apply map_size_empty_inv in Hz; by subst). lia.
Qed.

Lemma find_ok n len m g k : map_rep n len m g -> find hash m k = Some (g !! k).
Proof.
  intros Hm. pose proof Hm as [Hbs Ec El (Hn & Hl & Hnl) Hs Hf]. destruct (buckets_lookup n len _ g k Hbs Hn) as (b & Hb & (kvs & Hbm & Hnd & Eg)).
  unfold find, bucket. rewrite Ec, (proj2 (Z.eqb_neq _ _)) by lia. cbn [mbind option_bind]. rewrite Hb. cbn [mbind option_bind].
  rewrite <- (slot_find n g k), <- Eg, get_lookup. destruct (find_bucket_ok len b kvs k Hbm) as [[-> ->]|(i & x & -> & Hx & ->)]; [done|]. cbn. by rewrite Hx.
Qed.

Lemma init_ok n len : 0 < n -> 0 < len -> n * len < 2 ^ 31 -> exists m, init junk n len = Some m /\ map_rep n len m ∅.
Proof.
  intros Hn Hl Hnl. destruct (alloc_map_ok n len ltac:(nia)) as (bs & E & Hbs); [lia|]. unfold init. rewrite E. eexists. split; [done|]. split; try done.
  intros i _. unfold slot. rewrite map_filter_empty, map_size_empty. cbn. lia.
Qed.

(** ** Rehashing *)

Lemma slot_size_mono n i g g' : g ⊆ g' -> (base.size (slot n i g) <= base.size (slot n i g'))%nat.
Proof.
  intros Hg. rewrite <- !size_dom. apply subseteq_size, subseteq_dom. unfold slot. by apply map_filter_subseteq_mono.
Qed.

Lemma rehash_step n len nl g k v : buckets_rep n len nl g -> 0 < n -> 0 < len < 2 ^ 31 -> g !! k = None -> room n len g k ->
  exists b b' r nl', nl.[hash k mod n] = Some b /\ insert_no_update b k v = Some (b', r) /\ zupdate nl (hash k mod n) b' = Some nl' /\ buckets_rep n len nl' (<[k := v]> g).
Proof.
  intros Hbs Hn Hl Hk Hroom. destruct (buckets_lookup n len _ g k Hbs Hn) as (b & Hb & Hbm). destruct (insert_no_update_map len b _ k v Hbm Hl) as (b' & r & E & Hr); [by rewrite slot_find|].
  rewrite slot_find in Hr. rewrite decide_True in Hr by done. destruct Hr as (Hb' & _ & _).
  destruct (buckets_update n len nl g (<[k := v]> g) (hash k mod n) b' Hbs) as (nl' & Eu & Hbs'); [by apply Z.mod_pos_bound|by rewrite slot_insert, decide_True|intros j Hj; by rewrite slot_insert, decide_False|].
  by exists b, b', r, nl'.
Qed.

Lemma rehash_bucket_ok n len l start idx kvs nl g fuel : chain l start idx -> holds l idx kvs -> (length idx <= fuel)%nat -> 0 < n -> 0 < len < 2 ^ 31 -> buckets_rep n len nl g ->
  NoDup kvs.*1 -> (forall k, k ∈ kvs.*1 -> g !! k = None) -> (forall i, Z.of_nat (base.size (slot n i (list_to_map kvs ∪ g))) <= len) ->
  exists nl', rehash_bucket hash fuel l start n nl = Some nl' /\ buckets_rep n len nl' (list_to_map kvs ∪ g).
Proof.
  intros Hc Hh Hfuel Hn Hl. revert start kvs nl g fuel Hc Hh Hfuel. induction idx as [|i idx IH]; intros start kvs nl g fuel Hc Hh Hfuel Hbs Hnd Hnew Hroom.
  - cbn in Hc. subst. apply Forall2_nil_inv_l in Hh as ->. exists nl. cbn. rewrite (left_id_L ∅ _). by destruct fuel.
  - destruct kvs as [|[k v] kvs]; [by inversion Hh|]. apply Forall2_cons_1 in Hh as [(x & Hx & E1 & E2) Hh]. destruct Hc as [-> (x' & Hx' & Hc)]. assert (x' = x) as -> by congruence.
    destruct fuel as [|fuel]; [cbn in Hfuel; lia|]. cbn [rehash_bucket]. pose proof (zlookup_Some_bounds _ _ _ Hx). rewrite (proj2 (Z.eqb_neq _ _)) by lia. rewrite Hx. cbn [mbind option_bind].
    cbn in E1, E2. rewrite E1, E2. cbn in Hnd. apply NoDup_cons in Hnd as [Hk Hnd]. cbn in Hnew.
    assert (list_to_map ((k, v) :: kvs) ∪ g = list_to_map kvs ∪ <[k := v]> g) as Eg.
    { cbn. rewrite <- insert_union_l. apply insert_union_r. by apply not_elem_of_list_to_map. }
    rewrite Eg in Hroom |- *. assert (g !! k = None) as Hgk by (apply Hnew; left).
    destruct (rehash_step n len nl g k v Hbs Hn Hl Hgk) as (b & b' & r & nl' & Hb & Ei & Eu & Hbs').
    { assert (<[k := v]> g ⊆ list_to_map kvs ∪ <[k := v]> g) as Hsub.
      { apply map_union_subseteq_r, map_disjoint_spec. intros k' v1 v2 H1 H2. assert (k' ∈ kvs.*1) as Hin by (apply keys_lookup; by rewrite H1).
        apply lookup_insert_Some in H2 as [[<- _]|[_ H2]]; [done|]. rewrite Hnew in H2; [done|by right]. }
      right. pose proof (Hroom (hash k mod n)) as Hr. pose proof (slot_size_mono n (hash k mod n) _ _ Hsub) as Hm. rewrite slot_insert, decide_True, map_size_insert, slot_find, Hgk in Hm by done. lia. }
    rewrite Hb. cbn [mbind option_bind]. rewrite Ei. cbn [mbind option_bind]. rewrite Eu. cbn [mbind option_bind].
    apply (IH _ kvs); [done|done|cbn in Hfuel; lia|done|done| |done]. intros k' Hk'. rewrite lookup_insert_ne by (intros ->; done). apply Hnew. by right.
Qed.

Lemma rehash_buckets_ok n0 n len bs j nl g : (forall i b, bs.[i] = Some b -> bucket_map len b (slot n0 (j + i) g)) -> 0 < n -> 0 < len < 2 ^ 31 -> buckets_rep n len nl (below n0 j g) ->
  (forall i, Z.of_nat (base.size (slot n i g)) <= len) ->
  exists nl', rehash_buckets hash bs n nl = Some nl' /\ buckets_rep n len nl' (below n0 (j + Z.of_nat (length bs)) g).
Proof.
  intros Hat Hn Hl Hbs Hroom. revert j nl Hat Hbs. induction bs as [|b bs IH]; intros j nl Hat Hbs; [exists nl; cbn; by rewrite Z.add_0_r|].
  destruct (Hat 0 b eq_refl) as (kvs & (idx & fr & Hb) & Hnd & Ekv). rewrite Z.add_0_r in Ekv. cbn [rehash_buckets length].
  assert (list_to_map kvs ∪ below n0 j g = below n0 (j + 1) g) as Eg by (by rewrite Ekv, below_succ).
  destruct (rehash_bucket_ok n len (m_list b) (m_head b) idx kvs nl (below n0 j g) (bucket_fuel b)) as (nl' & -> & Hbs'); try done; [apply Hb|apply Hb| | | |].
  - unfold bucket_fuel. pose proof (br_all _ _ _ _ _ Hb) as Ha. pose proof (br_len _ _ _ _ _ Hb). rewrite length_app in Ha. lia.
  - intros k Hk. apply keys_lookup in Hk as [v Hk]. rewrite Ekv in Hk. apply map_lookup_filter_Some in Hk as [_ Hk]. cbn in Hk. apply map_lookup_filter_None. right. intros ? _. cbn. lia.
  - intros i. rewrite Eg. pose proof (slot_size_mono n i (below n0 (j + 1) g) g (map_filter_subseteq _ _)) as Hm. specialize (Hroom i). lia.
  - rewrite Eg in Hbs'. cbn [mbind option_bind]. replace (j + Z.of_nat (S (length bs))) with ((j + 1) + Z.of_nat (length bs)) by lia. apply IH; [|done].
    intros i b' Hb'. replace (j + 1 + i) with (j + (i + 1)) by lia. apply Hat. apply zlookup_Some_bounds in Hb' as Hbd. rewrite zlookup_to_nat in Hb' |- * by lia. replace (Z.to_nat (i + 1)) with (S (Z.to_nat i)) by lia. done.
Qed.

Lemma rehash_count_pos n buckets factor n' : 0 < n -> rehash_count n buckets factor = Some n' -> 0 < n'.
Proof.
  intros Hn. unfold rehash_count. destruct (Z.ltb_spec n buckets), (Z.ltb_spec 1 factor); repeat case_match; try done; rewrite ?int32_Some; try (intros [= ->]); try (intros [-> ?]); nia.
Qed.

Lemma rehash_ok n len m g buckets factor n' : map_rep n len m g -> rehash_count n buckets factor = Some n' -> n' * len < 2 ^ 31 ->
  (forall i, Z.of_nat (base.size (slot n' i g)) <= len) -> exists m', rehash hash junk m buckets factor = Some m' /\ map_rep n' len m' g.
Proof.
  intros Hm En' Hnl' Hroom. pose proof Hm as [Hbs Ec El (Hn & Hl & Hnl) Hs Hf]. destruct (below_bounds n g Hn) as [E0 E1]. pose proof (rehash_count_pos _ _ _ _ Hn En') as Hn'.
  assert (0 < len < 2 ^ 31) as Hl' by nia.
  unfold rehash. rewrite Ec, El, En'. cbn [mbind option_bind]. destruct (alloc_map_ok n' len Hl') as (nl & -> & Hnl0); [lia|]. cbn [mbind option_bind].
  destruct (rehash_buckets_ok n n' len (m_buckets m) 0 nl g) as (bs & -> & Hbs'); try done; [intros i b Hb; by apply (bs_at _ _ _ _ Hbs)|by rewrite E0|].
  rewrite (bs_len _ _ _ _ Hbs), Z.add_0_l, E1 in Hbs'. cbn [mbind option_bind]. rewrite (proj2 (Z.eqb_neq _ _)) by lia. eexists. split; [done|]. split; cbn; try done.
  intros i Hi Hsz. destruct (zlookup_lt bs i) as [b Hb]; [by rewrite (bs_len _ _ _ _ Hbs')|]. destruct (bucket_map_size _ _ _ (bs_at _ _ _ _ Hbs' i b Hb)) as (Ea & Eb & _).
  apply existsb_exists. exists b. split; [|rewrite Ea, Eb, Hsz; apply Z.eqb_refl]. apply zlookup_Some_bounds in Hb as Hbd. rewrite zlookup_to_nat in Hb by lia. apply list_elem_of_In, list_elem_of_lookup. by eexists.
Qed.

(** ** Sequences of calls *)

Inductive Op := OpAssign (k : K) (v : V) | OpInsert (k : K) (v : V) | OpErase (k : K) | OpFind (k : K) | OpSize | OpRehash (buckets factor : Z).

(** What a caller sees: whether the node is one of the map and the flag of a pair, a flag,
    a value or nothing for the sentinel, a number. *)
Inductive Out := OutPair (node inserted : bool) | OutBool (x : bool) | OutFind (x : option V) | OutSize (x : Z) | OutRehash.

Definition out_pair (r : Pair) : Out := OutPair (bool_decide (is_Some r.1)) r.2.

Definition run_op (m : Map K V) (o : Op) : option (Map K V * Out) :=
  match o with
  | OpAssign k v => '(m, r) ← insert_or_assign hash m k v; Some (m, out_pair r)
  | OpInsert k v => '(m, r) ← insert hash m k v; Some (m, out_pair r)
  | OpErase k => '(m, r) ← erase hash m k; Some (m, OutBool r)
  | OpFind k => r ← find hash m k; Some (m, OutFind r)
  | OpSize => Some (m, OutSize (size m))
  | OpRehash buckets factor => m ← rehash hash junk m buckets factor; Some (m, OutRehash)
  end.

(** The specification: a finite map, the number of buckets and the places of a bucket.  It
    says nothing of [insert] with a key that is in the map, nor of a rehash that fails an
    assertion, that would have 2^31 places or more, or that has no place for all elements. *)
Record Spec := mkSpec { s_count : Z; s_len : Z; s_map : gmap K V }.

Definition spec_put (s : Spec) (k : K) (v : V) : Spec * Out :=
  if decide (room (s_count s) (s_len s) (s_map s) k) then
    (mkSpec (s_count s) (s_len s) (<[k := v]> (s_map s)), OutPair true (bool_decide (s_map s !! k = None)))
  else (s, OutPair false false).

Definition fits (n len : Z) g : Prop := map_Forall (fun k _ => Z.of_nat (base.size (slot n (hash k mod n) g)) <= len) g.

#[export] Instance fits_decision n len g : Decision (fits n len g).
Proof. unfold fits. apply _. Defined.

Definition spec_op (s : Spec) (o : Op) : option (Spec * Out) :=
  match o with
  | OpAssign k v => Some (spec_put s k v)
  | OpInsert k v => if decide (s_map s !! k = None) then Some (spec_put s k v) else None
  | OpErase k => Some (mkSpec (s_count s) (s_len s) (delete k (s_map s)), OutBool (bool_decide (is_Some (s_map s !! k))))
  | OpFind k => Some (s, OutFind (s_map s !! k))
  | OpSize => Some (s, OutSize (Z.of_nat (base.size (s_map s))))
  | OpRehash buckets factor =>
      n ← rehash_count (s_count s) buckets factor;
      if decide (n * s_len s < 2 ^ 31 /\ fits n (s_len s) (s_map s)) then Some (mkSpec n (s_len s) (s_map s), OutRehash) else None
  end.

Fixpoint run {S : Type} (step : S -> Op -> option (S * Out)) (s : S) (ops : list Op) : option (S * list Out) :=
  match ops with
  | [] => Some (s, [])
  | o :: ops => '(s, x) ← step s o; '(s, xs) ← run step s ops; Some (s, x :: xs)
  end.

Definition represents (m : Map K V) (s : Spec) : Prop := map_rep (s_count s) (s_len s) m (s_map s).

Lemma fits_slots n len g : 0 < len -> fits n len g ->
  forall i, Z.of_nat (base.size (slot n i g)) <= len.
Proof.
  intros Hl Hf i. destruct (decide (slot n i g = ∅)) as [->|(k & v & Hk)%map_choose]; [rewrite map_size_empty; lia|].
  apply map_lookup_filter_Some in Hk as [Hk Ei]. cbn in Ei. specialize (Hf k v Hk). cbn in Hf. by rewrite Ei in Hf.
Qed.

(** Both insertions, where [insert] has a new key. *)
Lemma spec_put_ok ins m s k v : represents m s ->
  (forall b, bucket_map (s_len s) b (slot (s_count s) (hash k mod s_count s) (s_map s)) -> inserts ins (s_len s) k v b (slot (s_count s) (hash k mod s_count s) (s_map s))) ->
  exists m' r, insert_with hash ins m k v = Some (m', r) /\ out_pair r = (spec_put s k v).2 /\ represents m' (spec_put s k v).1.
Proof.
  intros Hm Hins. destruct (insert_with_ok ins _ _ m _ k v Hm Hins) as (m' & r & E & Hr). exists m', r. split; [done|]. unfold spec_put, out_pair. destruct (decide (room _ _ _ _)).
  - destruct Hr as (Hm' & -> & Hs). by rewrite bool_decide_true.
  - by destruct Hr as [-> ->].
Qed.

Lemma run_op_ok m s o s' x : represents m s -> spec_op s o = Some (s', x) -> exists m', run_op m o = Some (m', x) /\ represents m' s'.
Proof.
  intros Hm Hs. pose proof (mr_pos _ _ _ _ Hm) as (Hn & Hl0 & Hnl). assert (0 < s_len s < 2 ^ 31) as Hl by nia. destruct o as [k v|k v|k|k| |buckets factor]; cbn in Hs |- *.
  - destruct (spec_put_ok insert_update m s k v Hm) as (m' & r & E & Er & Hm'); [intros b Hb; by apply insert_update_map|]. unfold insert_or_assign. rewrite E. cbn. exists m'. injection Hs as E'. rewrite E' in Er, Hm'. by rewrite Er.
  - case_decide as Hk; [|done]. destruct (spec_put_ok insert_no_update m s k v Hm) as (m' & r & E & Er & Hm'); [intros b Hb; apply insert_no_update_map; [done|done|by rewrite slot_find]|].
    unfold insert. rewrite E. cbn. exists m'. injection Hs as E'. rewrite E' in Er, Hm'. by rewrite Er.
  - destruct (map_erase_ok _ _ _ _ k Hm) as (m' & E & Hm'). rewrite E. cbn. injection Hs as <- <-. by exists m'.
  - rewrite (find_ok _ _ _ _ k Hm). cbn. injection Hs as <- <-. by exists m.
  - injection Hs as <- <-. exists m. unfold size. by rewrite (mr_size _ _ _ _ Hm).
  - destruct (rehash_count (s_count s) buckets factor) as [n|] eqn:En; [|done]. cbn in Hs. case_decide as Hf; [|done]. destruct Hf as [Hnl' Hf].
    destruct (rehash_ok _ _ m _ buckets factor n Hm En Hnl') as (m' & E & Hm'); [by apply fits_slots|]. rewrite E. cbn. injection Hs as <- <-. by exists m'.
Qed.

Lemma map_run_ok ops m s s' outs : represents m s -> run spec_op s ops = Some (s', outs) -> exists m', run run_op m ops = Some (m', outs) /\ represents m' s'.
Proof.
  revert m s outs. induction ops as [|o ops IH]; intros m s outs Hm Hs; cbn in Hs |- *; [injection Hs as <- <-; by exists m|].
  destruct (spec_op s o) as [[s1 x]|] eqn:E; [|done]. cbn in Hs. destruct (run spec_op s1 ops) as [[s2 xs]|] eqn:E'; [|done]. cbn in Hs. injection Hs as <- <-.
  destruct (run_op_ok m s o s1 x Hm E) as (m1 & -> & Hm1). cbn. destruct (IH m1 s1 xs Hm1 E') as (m2 & -> & Hm2). by exists m2.
Qed.

(** C15: a map of [n] buckets of [len] places, with [n * len] in the range of the 32-bit
    [axom::IndexType], behaves as a finite map in which a key is refused, with the sentinel
    and without a change, when it is new and its bucket is full.  Every sequence of
    [insert_or_assign], [insert] of new keys, [erase], [find], [size] and [rehash] (with
    arguments that its assertions accept, fewer than 2^31 places in all, and place for the
    elements in the new buckets) returns what the finite map returns, never overflows or
    reads outside of a bucket, and ends in buckets that hold the elements of the finite map,
    in which [m_bucket_fill] is set if some bucket is full. *)
Theorem bucket_map_refines n len ops s outs : 0 < n -> 0 < len -> n * len < 2 ^ 31 -> run spec_op (mkSpec n len ∅) ops = Some (s, outs) ->
  exists m m', init junk n len = Some m /\ run run_op m ops = Some (m', outs) /\ represents m' s.
Proof.
  intros Hn Hl Hnl Hs. destruct (init_ok n len Hn Hl Hnl) as (m & E & Hm). destruct (map_run_ok ops m (mkSpec n len ∅) s outs Hm Hs) as (m' & E' & Hm'). by exists m, m'.
Qed.

End map.
Arguments Op : clear implicits.
Arguments Out : clear implicits.

(** ** Examples *)

Definition ex_hash (k : Z) : Z := k mod 2 ^ 64.

(** Keys that collide, a full bucket, an erased key, a rehash. *)
Definition ex_ops : list (Op Z Z) :=
  [OpInsert 1 10; OpInsert 3 30; OpAssign 5 50; OpAssign 3 31; OpFind 3; OpErase 1; OpAssign 5 51; OpSize; OpRehash (-1) (-1); OpFind 5; OpFind 1; OpInsert 7 70].

Lemma bucket_map_refines_witness : exists s m m',
  run (spec_op ex_hash) (mkSpec 2 2 ∅) ex_ops = Some (s, [OutPair true true; OutPair true true; OutPair false false; OutPair true false; OutFind (Some 31); OutBool true; OutPair true true;
    OutSize 2; OutRehash; OutFind (Some 51); OutFind None; OutPair true true]) /\
  init (0, 0) 2 2 = Some m /\ run (run_op ex_hash (0, 0)) m ex_ops = Some (m', [OutPair true true; OutPair true true; OutPair false false; OutPair true false; OutFind (Some 31); OutBool true; OutPair true true;
    OutSize 2; OutRehash; OutFind (Some 51); OutFind None; OutPair true true]) /\ represents ex_hash m' s.
Proof.
  destruct (run (spec_op ex_hash) (mkSpec 2 2 ∅) ex_ops) as [[s outs]|] eqn:E; [|by vm_compute in E].
  destruct (bucket_map_refines ex_hash (0, 0) 2 2 ex_ops s outs) as (m & m' & Hi & Hr & Hm); [lia|lia|lia|exact E|].
  assert (outs = [OutPair true true; OutPair true true; OutPair false false; OutPair true false; OutFind (Some 31); OutBool true; OutPair true true;
    OutSize 2; OutRehash; OutFind (Some 51); OutFind None; OutPair true true]) as ->; [vm_compute in E; by injection E as _ <-|].
  exists s, m, m'. done.
Defined.

(** [insert] compares the key with those of all elements but the last one of the bucket: the
    key is in the bucket twice, and is found after it is erased. *)
Lemma insert_duplicates :
  (m ← init (0, 0) 1 3; '(m, r1) ← insert ex_hash m 1 10; '(m, r2) ← insert ex_hash m 1 11; '(m', e) ← erase ex_hash m 1; x ← find ex_hash m' 1; Some (r1, r2, size m, e, x)) =
  Some ((Some 0, true), (Some 1, true), 2, true, Some 11).
Proof. vm_compute. reflexivity. Qed.

(** With three buckets instead of two, elements that were apart collide.  The one that has no
    place is lost, and is still counted. *)
Lemma rehash_loses :
  (m ← init (0, 0) 2 1; '(m, r1) ← insert ex_hash m 0 10; '(m, r2) ← insert ex_hash m 3 13; m' ← rehash ex_hash (0, 0) m 3 (-1); x ← find ex_hash m 3; x' ← find ex_hash m' 3;
   Some (r1, r2, x, x', size m')) = Some ((Some 0, true), (Some 0, true), Some 13, None, 2).
Proof. vm_compute. reflexivity. Qed.

(** After [clear], insertions are refused, but [find] and [erase] divide by zero. *)
Lemma cleared_map (m : Map Z Z) k v : insert ex_hash (clear m) k v = Some (clear m, (None, false)) /\ find ex_hash (clear m) k = None /\ erase ex_hash (clear m) k = None.
Proof. done. Qed.

(** With 65536 buckets of 65536 places the product of the two overflows; [rehash] with a
    number of buckets that is not larger fails an assertion. *)
Lemma capacity_overflows (bs : list (Bucket Z Z)) k v :
  insert ex_hash (mkMap bs 65536 65536 0 false) k v = None /\ rehash ex_hash (0, 0) (mkMap bs 2 1 0 false) 1 (-1) = None.
Proof. done. Qed.

(** A map that is moved forgets that it has a full bucket. *)
Lemma move_forgets_fill :
  (m ← init (0, 0) 2 1; '(m, _) ← insert ex_hash m 0 10; x ← find ex_hash (move_construct m).1 0; Some (m_bucket_fill m, m_bucket_fill (move_construct m).1, x)) = Some (true, false, Some 10).
Proof. vm_compute. reflexivity. Qed.

End BucketMapTheorems.
