(* ===== verification/PathStrings.v ===== *)
(** * Strings and paths of Axom's core

    [StringUtilities] ([src/axom/core/utilities/StringUtilities.hpp, .cpp]) and
    [Path] ([src/axom/core/Path.hpp, .cpp]), which splits a string at a delimiter into
    the parts that Sidre uses to walk its tree. *)

From S2P Require Import Prelude.
From Stdlib Require Import Ascii String.

Module PathStrings.
Open Scope string_scope.
#[local] Arguments Ascii.eqb : simpl never.
#[local] Arguments String.append !_ _ /.
Open Scope Z_scope.

(** ** StringUtilities *)

Fixpoint str_size (s : string) : nat := match s with "" => O | String _ s => S (str_size s) end.

Fixpoint str_drop (n : nat) (s : string) : string :=
  match n, s with
  | O, _ => s
  | S n, String _ s => str_drop n s
  | S _, "" => ""
  end.

Definition startsWith_char (str : string) (prefix : ascii) : bool :=
  match str with String c _ => Ascii.eqb c prefix | "" => false end.

Fixpoint endsWith_char (str : string) (suffix : ascii) : bool :=
  match str with
  | "" => false
  | String c "" => Ascii.eqb c suffix
  | String _ s => endsWith_char s suffix
  end.

Fixpoint startsWith (str prefix : string) : bool :=
  match prefix, str with
  | "", _ => true
  | String p ps, String c cs => Ascii.eqb c p && startsWith cs ps
  | _, _ => false
  end.

(** [std::getline]: the characters up to the delimiter, which is consumed, and the
    rest of the stream if the delimiter was found. *)
Fixpoint getline (s : string) (delimiter : ascii) : string * option string :=
  match s with
  | "" => ("", None)
  | String c s =>
    if Ascii.eqb c delimiter then ("", Some s)
    else let '(token, rest) := getline s delimiter in (String c token, rest)
  end.

(** The loop of [split]: reading from an empty stream fails. *)
Fixpoint split_loop (n : nat) (s : string) (delimiter : ascii) : list string :=
  match n, s with
  | O, _ => []
  | S _, "" => []
  | S n, _ =>
    let '(token, rest) := getline s delimiter in
    token :: match rest with Some s => split_loop n s delimiter | None => [] end
  end.

Definition split (str : string) (delimiter : ascii) : list string :=
  split_loop (str_size str) str delimiter.

Definition appendPrefix (prefix name : string) (delim : ascii) : string :=
  match prefix, name with
  | "", _ | _, "" => name
  | _, _ => prefix ++ String delim name
  end.

Definition removePrefix (prefix name : string) (delim : ascii) : string :=
  match prefix with
  | "" => name
  | _ => if startsWith name (prefix ++ String delim "") then str_drop (str_size prefix) name else name
  end.

(** [str.find_last_of(delim)]. *)
Fixpoint find_last_of (str : string) (delim : ascii) : option nat :=
  match str with
  | "" => None
  | String c s =>
    match find_last_of s delim with
    | Some i => Some (S i)
    | None => if Ascii.eqb c delim then Some O else None
    end
  end.

(** [pos + 1] wraps around to 0 when the delimiter is not found. *)
Definition removeBeforeDelimiter (str : string) (delim : ascii) : string :=
  match find_last_of str delim with Some pos => str_drop (S pos) str | None => str end.

(** ** Path *)

Record Path := mkPath { m_components : list string; m_delim : ascii; m_leading_delim : bool }.

Definition Path_default : Path := mkPath [] "/"%char false.

Fixpoint contains_char (s : string) (c : ascii) : bool :=
  match s with "" => false | String x s => Ascii.eqb x c || contains_char s c end.

Definition str_nonempty (s : string) : bool := match s with "" => false | _ => true end.

(** The constructor [Path(path, delim)]. *)
Definition Path_of (path : string) (delim : ascii) : Path :=
  let leading := startsWith_char path delim in
  let first_position := if leading then 1%nat else 0%nat in
  let components :=
    if contains_char (str_drop first_position path) delim then
      List.filter str_nonempty (split path delim)
    else if str_nonempty path then
      if leading then (if (1 <? str_size path)%nat then [str_drop 1 path] else [])
      else [path]
    else [] in
  mkPath components delim leading.

Definition Path_join (paths : list Path) (delim : ascii) : Path :=
  mkPath (mjoin (m_components <$> paths)) delim
    (match paths with p :: _ => m_leading_delim p | [] => false end).

(** [fmt::join(components, delim)]. *)
Fixpoint join_with (delim : ascii) (l : list string) : string :=
  match l with
  | [] => ""
  | [x] => x
  | x :: l => x ++ String delim (join_with delim l)
  end.

Definition Path_to_string (p : Path) : string :=
  (if m_leading_delim p then String (m_delim p) "" else "") ++ join_with (m_delim p) (m_components p).

Definition parent (p : Path) : Path := mkPath (removelast (m_components p)) (m_delim p) (m_leading_delim p).

Definition baseName (p : Path) : string := List.last (m_components p) "".

Definition dirName (p : Path) : string := Path_to_string (parent p).

Definition Path_split (p : Path) : string * string := (dirName p, baseName p).

Definition Path_eq (lhs rhs : Path) : bool := String.eqb (Path_to_string lhs) (Path_to_string rhs).

(** ** Splitting *)

Lemma eqb_spec_ascii a b : reflect (a = b) (Ascii.eqb a b).
Proof. apply Ascii.eqb_spec. Qed.

Lemma getline_no s d : contains_char s d = false -> getline s d = (s, None).
Proof.
  induction s as [|c s IH]; intros Hc; [done|]. cbn in *. apply orb_false_iff in Hc as [-> Hc].
  by rewrite IH.
Qed.

Lemma getline_app s d r : contains_char s d = false -> getline (s ++ String d r) d = (s, Some r).
Proof.
  induction s as [|c s IH]; intros Hc; cbn in *; [by rewrite Ascii.eqb_refl|].
  apply orb_false_iff in Hc as [-> Hc]. by rewrite IH.
Qed.

Lemma getline_shorter s d t r : getline s d = (t, Some r) -> (str_size r < str_size s)%nat.
Proof.
  revert t. induction s as [|c s IH]; intros t; cbn; [done|].
  destruct (Ascii.eqb c d); [intros [= <- <-]; lia|].
  destruct (getline s d) as [t' [r'|]] eqn:E; intros [= <-]. subst. specialize (IH t' eq_refl). lia.
Qed.

(** The tokens do not contain the delimiter. *)
Lemma getline_token s d t r : getline s d = (t, r) -> contains_char t d = false.
Proof.
  revert t r. induction s as [|c s IH]; intros t r; cbn; [by intros [= <- <-]|].
  destruct (Ascii.eqb c d) eqn:Ec; [by intros [= <- <-]|].
  destruct (getline s d) as [t' r'] eqn:E; intros [= <- <-]. cbn. rewrite Ec. by apply (IH t' r').
Qed.

Lemma split_loop_tokens n s d : Forall (fun t => contains_char t d = false) (split_loop n s d).
Proof.
  revert s. induction n as [|n IH]; intros s; [constructor|].
  destruct s as [|c s]; [constructor|]. cbn [split_loop].
  destruct (getline (String c s) d) as [t [r|]] eqn:E; constructor;
    try (by eapply getline_token); [apply IH|constructor].
Qed.

Lemma split_loop_mono n m s d : (str_size s <= n)%nat -> (n <= m)%nat -> split_loop n s d = split_loop m s d.
Proof.
  revert m s. induction n as [|n IH]; intros m s Hs Hm.
  { destruct s; [|cbn in Hs; lia]. by destruct m. }
  destruct m as [|m]; [lia|]. destruct s as [|c s]; [done|]. cbn [split_loop].
  destruct (getline (String c s) d) as [t [r|]] eqn:E; [|done]. f_equal. apply IH; [|lia].
  apply getline_shorter in E. cbn in *. lia.
Qed.

Lemma str_size_app s t : str_size (s ++ t) = (str_size s + str_size t)%nat.
Proof. induction s; cbn; lia. Qed.

Lemma split_last x d : x <> "" -> contains_char x d = false -> split x d = [x].
Proof.
  intros Hne Hc. unfold split. destruct x as [|c x]; [done|]. cbn [str_size split_loop].
  by rewrite getline_no.
Qed.

Lemma split_more x d r : contains_char x d = false -> split (x ++ String d r) d = x :: split r d.
Proof.
  intros Hc. unfold split. destruct (str_size (x ++ String d r)) as [|n] eqn:En.
  { rewrite str_size_app in En. cbn in En. lia. }
  assert (exists c y, x ++ String d r = String c y) as (c & y & Hy) by (destruct x; cbn; eauto).
  assert (split_loop (S n) (x ++ String d r) d = x :: split_loop n r d) as ->.
  { rewrite Hy. cbn [split_loop]. rewrite <- Hy, getline_app by done. done. }
  f_equal. symmetry. apply split_loop_mono; [lia|]. rewrite str_size_app in En. cbn in En. lia.
Qed.

(** A part of a path: not empty and without delimiter. *)
Definition part_ok (d : ascii) (x : string) : Prop := x <> "" /\ contains_char x d = false.

Lemma split_join d l : l <> [] -> Forall (part_ok d) l -> split (join_with d l) d = l.
Proof.
  induction l as [|x l IH]; intros Hne Hl; [done|]. inversion_clear Hl as [|? ? [Hx Hc] Hl'].
  destruct l as [|y l]; [by apply split_last|].
  change (join_with d (x :: y :: l)) with (x ++ String d (join_with d (y :: l))).
  rewrite split_more by done. by rewrite IH.
Qed.

Lemma filter_parts d l : Forall (part_ok d) l -> List.filter str_nonempty l = l.
Proof.
  induction 1 as [|x l [Hx _] _ IH]; [done|]. cbn. destruct x; [done|]. cbn. by rewrite IH.
Qed.

Lemma join_nonempty d l : l <> [] -> Forall (part_ok d) l -> exists c s, join_with d l = String c s /\ c <> d.
Proof.
  destruct l as [|x l]; intros Hne Hl; [done|]. inversion_clear Hl as [|? ? [Hx Hc] _].
  destruct x as [|c x]; [done|]. cbn in Hc. apply orb_false_iff in Hc as [Hc _].
  apply Ascii.eqb_neq in Hc. destruct l; cbn; eauto.
Qed.

Lemma contains_join d l :
  Forall (part_ok d) l -> contains_char (join_with d l) d = (1 <? Datatypes.length l)%nat.
Proof.
  induction 1 as [|x l [Hx Hc] Hl IH]; [done|]. destruct l as [|y l]; [done|].
  change (join_with d (x :: y :: l)) with (x ++ String d (join_with d (y :: l))).
  assert (forall s t, contains_char (s ++ String d t) d = true) as Happ.
  { intros s t. induction s as [|c s IHs]; cbn; [by rewrite Ascii.eqb_refl|]. by rewrite IHs, orb_true_r. }
  by rewrite Happ.
Qed.

(** ** Properties *)

Lemma path_parts_ok path d : Forall (part_ok d) (m_components (Path_of path d)).
Proof.
  unfold Path_of. cbn [m_components]. destruct (contains_char (str_drop _ path) d) eqn:Hc.
  - apply Forall_forall. intros x Hx. apply list_elem_of_In, filter_In in Hx as [Hx Hne].
    pose proof (split_loop_tokens (str_size path) path d) as Ht. rewrite Forall_forall in Ht.
    split; [by intros ->|]. apply Ht. by apply list_elem_of_In.
  - destruct path as [|c path]; cbn in *; [constructor|]. destruct (Ascii.eqb c d) eqn:Ec; cbn in *.
    + destruct path as [|c' path]; cbn; [constructor|]. repeat constructor; [done|]. done.
    + apply Forall_singleton. split; [done|]. cbn. by rewrite Ec in *.
Qed.

Lemma path_of_to_string p :
  Forall (part_ok (m_delim p)) (m_components p) -> Path_of (Path_to_string p) (m_delim p) = p.
Proof.
  destruct p as [l d b]. cbn [m_components m_delim]. intros Hl. unfold Path_to_string. cbn [m_components m_delim m_leading_delim].
  destruct l as [|x l].
  { destruct b; cbn; unfold Path_of; cbn; [by rewrite Ascii.eqb_refl|done]. }
  destruct (join_nonempty d (x :: l)) as (c & s & Hj & Hcd); [done|done|].
  pose proof (contains_join d (x :: l) Hl) as Hct. pose proof (split_join d (x :: l)) as Hsp.
  assert (Ascii.eqb c d = false) as Hcdb by (by apply Ascii.eqb_neq).
  destruct b.
  - change (String d "" ++ join_with d (x :: l)) with (String d (join_with d (x :: l))).
    unfold Path_of. cbn [startsWith_char]. rewrite Ascii.eqb_refl. cbn [str_drop]. rewrite Hct.
    destruct l as [|y l].
    + cbn in Hj. cbn. rewrite Hj. done.
    + cbn [Datatypes.length Nat.ltb Nat.leb]. f_equal.
      pose proof (split_more "" d (join_with d (x :: y :: l)) eq_refl) as Hm.
      change ("" ++ ?r) with r in Hm. rewrite Hm, Hsp by done.
      change (List.filter str_nonempty ("" :: ?r)) with (List.filter str_nonempty r). by apply (filter_parts d).
  - change ("" ++ join_with d (x :: l)) with (join_with d (x :: l)). unfold Path_of.
    assert (startsWith_char (join_with d (x :: l)) d = false) as -> by (by rewrite Hj).
    cbn [str_drop]. rewrite Hct. destruct l as [|y l].
    + cbn in Hj |- *. rewrite Hj. done.
    + cbn [Datatypes.length Nat.ltb Nat.leb]. f_equal. rewrite Hsp by done. by apply (filter_parts d).
Qed.

(** Parsing a path yields parts that are neither empty nor contain the
    delimiter, and printing and parsing again gives the same path: the printed form
    is a normal form. *)
Theorem path_parse_print path d :
  let p := Path_of path d in
  Forall (fun x => x <> "" /\ contains_char x d = false) (m_components p) /\
  Path_of (Path_to_string p) d = p /\
  Path_to_string (Path_of (Path_to_string p) d) = Path_to_string p.
Proof.
  intros p. pose proof (path_parts_ok path d) as Hp. split; [exact Hp|].
  assert (Path_of (Path_to_string p) d = p) as Heq by exact (path_of_to_string p Hp).
  by rewrite Heq.
Qed.

Lemma removelast_snoc (l : list string) : l <> [] -> (removelast l ++ [List.last l ""])%list = l.
Proof. intros Hne. symmetry. by apply app_removelast_last. Qed.

(** A non-empty path is the path of its directory joined with its base name. *)
Theorem path_split_join p :
  m_components p <> [] -> Forall (fun x => x <> "" /\ contains_char x (m_delim p) = false) (m_components p) ->
  let '(dir, base) := Path_split p in
  Path_join [Path_of dir (m_delim p); Path_of base (m_delim p)] (m_delim p) = p.
Proof.
  intros Hne Hok. cbn [Path_split]. unfold dirName, baseName.
  assert (List.last (m_components p) "" ∈ m_components p) as Hlast.
  { rewrite <- (removelast_snoc (m_components p)) at 2 by done. set_solver. }
  assert (Forall (part_ok (m_delim p)) (m_components (parent p))) as Hpar.
  { cbn. rewrite <- (removelast_snoc (m_components p)) in Hok by done. by apply Forall_app in Hok as [? _]. }
  rewrite Forall_forall in Hok. destruct (Hok _ Hlast) as [Hb Hbc].
  change (m_delim p) with (m_delim (parent p)) at 1. rewrite (path_of_to_string (parent p) Hpar).
  assert (Path_of (List.last (m_components p) "") (m_delim p) =
    mkPath [List.last (m_components p) ""] (m_delim p) false) as ->.
  { exact (path_of_to_string (mkPath [List.last (m_components p) ""] (m_delim p) false)
      ltac:(apply Forall_singleton; split; done)). }
  unfold Path_join. cbn. rewrite removelast_snoc by done. by destruct p.
Qed.

Definition sample_path : Path := Path_of "//a/bc//d/" "/"%char.

Lemma path_split_join_witness :
  Path_join [Path_of "/a/bc" "/"%char; Path_of "d" "/"%char] "/"%char = sample_path.
Proof. apply (path_split_join sample_path); [discriminate|]. by repeat constructor. Defined.

(** [removePrefix] keeps the delimiter: for a non-empty prefix, the rest of
    [prefix/rest] is [/rest]. *)
Theorem removePrefix_keeps_delimiter prefix rest delim :
  prefix <> "" -> removePrefix prefix (prefix ++ String delim rest) delim = String delim rest.
Proof.
  intros Hne. unfold removePrefix. assert (forall x y z, startsWith (x ++ String y z) (x ++ String y "") = true) as Hs.
  { intros x y z. induction x as [|c x IH]; cbn; rewrite Ascii.eqb_refl; [by destruct z|exact IH]. }
  assert (forall x y, str_drop (str_size x) (x ++ y) = y) as Hd.
  { intros x y. induction x as [|c x IH]; cbn; [by destruct y|done]. }
  destruct prefix as [|c prefix]; [done|]. by rewrite Hs, Hd.
Qed.

Lemma removePrefix_keeps_delimiter_witness : removePrefix "foo" "foo/bar" "/"%char = "/bar".
Proof. apply (removePrefix_keeps_delimiter "foo" "bar"). discriminate. Defined.

End PathStrings.
