(* ===== verification/StdStrings.v ===== *)
(** * Strings of the C++ standard library

    The members of [std::string] that the components use with positions, and the
    conversions between integers and strings.  A position is a [std::size_t], a 64-bit
    word; [npos] is the largest one.  An exception is [None]. *)

From S2P Require Import Prelude PathStrings.
From Stdlib Require Import Ascii String.

Module StdStrings.
Import PathStrings.
#[local] Arguments Ascii.eqb : simpl never.
#[local] Arguments String.append !_ _ /.

(** ** Definitions *)

Definition npos : Z := 2 ^ 64 - 1.

Definition ssize (s : string) : Z := Z.of_nat (str_size s).

Fixpoint str_take (n : nat) (s : string) : string :=
  match n, s with
  | S n, String c s => String c (str_take n s)
  | _, _ => EmptyString
  end.

Fixpoint index_of (s : string) (c : ascii) : option Z :=
  match s with
  | EmptyString => None
  | String x s => if Ascii.eqb x c then Some 0 else i ← index_of s c; Some (1 + i)
  end.

(** [s.find(c, pos)]. *)
Definition find_char (s : string) (c : ascii) (pos : Z) : Z :=
  if ssize s <? pos then npos else
  match index_of (str_drop (Z.to_nat pos) s) c with Some i => pos + i | None => npos end.

(** [s.substr(pos, count)] throws [std::out_of_range] when [pos] is past the end. *)
Definition substr (s : string) (pos count : Z) : option string :=
  if ssize s <? pos then None
  else Some (str_take (Z.to_nat (Z.min count (ssize s - pos))) (str_drop (Z.to_nat pos) s)).

(** The string that a null-terminated array holds. *)
Fixpoint c_str (s : string) : string :=
  match s with
  | EmptyString => EmptyString
  | String c s => if Ascii.eqb c Ascii.zero then EmptyString else String c (c_str s)
  end.

Definition digit_char (d : Z) : ascii := ascii_of_nat (48 + Z.to_nat d).

Definition char_digit (c : ascii) : option Z :=
  let n := Z.of_nat (nat_of_ascii c) in
  if (48 <=? n) && (n <=? 57) then Some (n - 48) else None.

(** The decimal digits of [n], before [rest]; twenty digits are enough for 64 bits. *)
Fixpoint put_digits (fuel : nat) (n : Z) (rest : string) : string :=
  match fuel with
  | O => rest
  | S fuel =>
    if n <? 10 then String (digit_char n) rest
    else put_digits fuel (n / 10) (String (digit_char (n mod 10)) rest)
  end.

(** [std::to_string]. *)
Definition to_string (z : Z) : string :=
  if z <? 0 then String "-"%char (put_digits 20 (- z) EmptyString) else put_digits 20 z EmptyString.

Fixpoint get_digits (acc : Z) (s : string) : Z :=
  match s with
  | EmptyString => acc
  | String c s => match char_digit c with Some d => get_digits (acc * 10 + d) s | None => acc end
  end.

Definition is_space (c : ascii) : bool :=
  let n := nat_of_ascii c in (n =? 32)%nat || ((9 <=? n) && (n <=? 13))%nat.

Fixpoint skip_space (s : string) : string :=
  match s with
  | EmptyString => EmptyString
  | String c r => if is_space c then skip_space r else s
  end.

Definition starts_with_digit (s : string) : bool :=
  match s with String c _ => bool_decide (is_Some (char_digit c)) | EmptyString => false end.

(** [std::stoi]: leading white space, a sign and the longest prefix of digits; it
    throws when there is no digit or when the value is not an [int]. *)
Definition stoi (s : string) : option Z :=
  let s := skip_space s in
  let '(neg, s) := match s with
                   | String c r => if Ascii.eqb c "-" then (true, r) else if Ascii.eqb c "+" then (false, r) else (false, s)
                   | EmptyString => (false, s)
                   end in
  if starts_with_digit s then
    let v := get_digits 0 s in
    let v := if (neg : bool) then - v else v in
    if (- 2 ^ 31 <=? v) && (v <? 2 ^ 31) then Some v else None
  else None.

(** ** Lengths, prefixes and suffixes *)

Lemma ssize_app s t : ssize (s ++ t) = ssize s + ssize t.
Proof. unfold ssize. rewrite str_size_app. lia. Qed.

Lemma ssize_cons c s : ssize (String c s) = 1 + ssize s.
Proof. unfold ssize. cbn [str_size]. lia. Qed.

Lemma ssize_nonneg s : 0 <= ssize s.
Proof. unfold ssize. lia. Qed.

Lemma str_app_assoc s t u : ((s ++ t) ++ u)%string = (s ++ (t ++ u))%string.
Proof. induction s as [|c s IH]; cbn; [done|by rewrite IH]. Qed.

Lemma str_app_nil s : (s ++ EmptyString)%string = s.
Proof. induction s as [|c s IH]; cbn; [done|by rewrite IH]. Qed.

Lemma str_drop_app s t : str_drop (str_size s) (s ++ t) = t.
Proof. induction s as [|c s IH]; cbn; [by destruct t|done]. Qed.

Lemma str_take_app s t : str_take (str_size s) (s ++ t) = s.
Proof. induction s as [|c s IH]; cbn; [done|by rewrite IH]. Qed.

Lemma substr_app a b r n :
  n = ssize b -> substr (a ++ (b ++ r)) (ssize a) n = Some b.
Proof.
  intros ->. unfold substr. rewrite !ssize_app. pose proof (ssize_nonneg b). pose proof (ssize_nonneg r).
  case_zbool; [lia|]. rewrite Z.min_l by lia. unfold ssize. rewrite !Nat2Z.id.
  by rewrite str_drop_app, str_take_app.
Qed.

Lemma substr_rest a b n : ssize b <= n -> substr (a ++ b) (ssize a) n = Some b.
Proof.
  intros Hn. unfold substr. rewrite ssize_app. pose proof (ssize_nonneg b).
  case_zbool; [lia|]. rewrite Z.min_r by lia. unfold ssize.
  replace (Z.to_nat _) with (str_size b) by lia. rewrite Nat2Z.id, str_drop_app.
  by rewrite <- (str_app_nil b) at 2; rewrite str_take_app.
Qed.

(** ** Searching *)

Lemma index_of_app s c r : contains_char s c = false -> index_of (s ++ String c r) c = Some (ssize s).
Proof.
  induction s as [|x s IH]; cbn; [by rewrite Ascii.eqb_refl|].
  intros [-> Hs]%orb_false_iff. rewrite IH by done. cbn. by rewrite ssize_cons.
Qed.

Lemma index_of_none s c : contains_char s c = false -> index_of s c = None.
Proof. induction s as [|x s IH]; cbn; [done|]. intros [-> Hs]%orb_false_iff. by rewrite IH. Qed.

Lemma find_char_app a b c r :
  contains_char b c = false -> find_char (a ++ (b ++ String c r)) c (ssize a) = ssize a + ssize b.
Proof.
  intros Hb. unfold find_char. rewrite !ssize_app. pose proof (ssize_nonneg b). pose proof (ssize_nonneg (String c r)).
  case_zbool; [lia|]. unfold ssize at 1. by rewrite Nat2Z.id, str_drop_app, index_of_app.
Qed.

Lemma find_char_none a b c : contains_char b c = false -> find_char (a ++ b) c (ssize a) = npos.
Proof.
  intros Hb. unfold find_char. case_zbool; [done|].
  unfold ssize. by rewrite Nat2Z.id, str_drop_app, index_of_none.
Qed.

Lemma contains_char_app s t c : contains_char (s ++ t) c = contains_char s c || contains_char t c.
Proof. induction s as [|x s IH]; cbn; [done|]. by rewrite IH, orb_assoc. Qed.

Lemma c_str_id s : contains_char s Ascii.zero = false -> c_str s = s.
Proof. induction s as [|c s IH]; cbn; [done|]. intros [-> Hs]%orb_false_iff. by rewrite IH. Qed.

(** ** Numbers *)

Lemma char_digit_char d : 0 <= d < 10 -> char_digit (digit_char d) = Some d.
Proof.
  intros Hd. unfold char_digit, digit_char. rewrite nat_ascii_embedding by lia.
  rewrite (proj2 (Z.leb_le _ _)), (proj2 (Z.leb_le _ _)) by lia. cbn. f_equal. lia.
Qed.

Lemma digit_char_ne d c : 0 <= d < 10 -> char_digit c = None -> Ascii.eqb (digit_char d) c = false.
Proof. intros Hd Hc. apply Ascii.eqb_neq. intros <-. by rewrite char_digit_char in Hc. Qed.

Lemma get_put_digits fuel n s : 0 <= n < 10 ^ Z.of_nat fuel -> get_digits 0 (put_digits fuel n s) = get_digits n s.
Proof.
  revert n s. induction fuel as [|fuel IH]; intros n s Hn; [replace n with 0 by (cbn in Hn; lia); done|].
  cbn [put_digits]. case_zbool.
  - cbn [get_digits]. by rewrite char_digit_char by lia.
  - rewrite IH.
    + cbn [get_digits]. rewrite char_digit_char by (apply Z.mod_pos_bound; lia). f_equal.
      rewrite (Z.div_mod n 10) at 3 by lia. lia.
    + rewrite Nat2Z.inj_succ, Z.pow_succ_r in Hn by lia.
      split; [apply Z.div_pos; lia|apply Z.div_lt_upper_bound; lia].
Qed.

(** Digits only: every character of a printed number is a digit, and there are at most
    as many as the fuel. *)
Lemma put_digits_chars fuel n s c :
  0 <= n -> char_digit c = None -> contains_char (put_digits fuel n s) c = contains_char s c.
Proof.
  revert n s. induction fuel as [|fuel IH]; intros n s Hn Hc; [done|]. cbn [put_digits]. case_zbool.
  - cbn. by rewrite digit_char_ne by (lia || done).
  - rewrite IH by (done || apply Z.div_pos; lia). cbn.
    by rewrite digit_char_ne by (done || apply Z.mod_pos_bound; lia).
Qed.

Lemma put_digits_size fuel n k s :
  0 <= n < 10 ^ Z.of_nat k -> (0 < k)%nat -> ssize (put_digits fuel n s) <= ssize s + Z.of_nat k.
Proof.
  revert n k s. induction fuel as [|fuel IH]; intros n k s Hn Hk; cbn [put_digits]; [lia|].
  case_zbool; [rewrite ssize_cons; lia|]. destruct k as [|k]; [lia|].
  rewrite Nat2Z.inj_succ, Z.pow_succ_r in Hn by lia.
  destruct k as [|k]; [cbn in Hn; lia|].
  etransitivity; [apply (IH _ (S k)); [|lia]|rewrite ssize_cons; lia].
  split; [apply Z.div_pos; lia|apply Z.div_lt_upper_bound; lia].
Qed.

Lemma put_digits_first fuel n s : (0 < fuel)%nat -> 0 <= n -> starts_with_digit (put_digits fuel n s) = true.
Proof.
  intros Hf. assert (forall fuel n s, 0 <= n -> starts_with_digit s = true -> starts_with_digit (put_digits fuel n s) = true) as Hgen.
  { clear. induction fuel as [|fuel IH]; intros n s Hn Hs; cbn [put_digits]; [done|]. case_zbool.
    - cbn. by rewrite char_digit_char by lia.
    - apply IH; [apply Z.div_pos; lia|]. cbn. by rewrite char_digit_char by (apply Z.mod_pos_bound; lia). }
  intros Hn. destruct fuel as [|fuel]; [lia|]. cbn [put_digits]. case_zbool.
  - cbn. by rewrite char_digit_char by lia.
  - apply Hgen; [apply Z.div_pos; lia|]. cbn. by rewrite char_digit_char by (apply Z.mod_pos_bound; lia).
Qed.

Definition is_int (z : Z) : Prop := - 2 ^ 31 <= z < 2 ^ 31.

Lemma starts_digit_char s : starts_with_digit s = true ->
  exists d r, s = String (digit_char d) r /\ 0 <= d < 10.
Proof.
  destruct s as [|c s]; cbn; [done|]. intros [d Hd]%bool_decide_eq_true. unfold char_digit in Hd.
  destruct (_ && _) eqn:E; [|done]. apply andb_true_iff in E as [E1%Z.leb_le E2%Z.leb_le]. simplify_eq.
  exists (Z.of_nat (nat_of_ascii c) - 48), s. split; [|lia]. f_equal. unfold digit_char.
  rewrite <- (ascii_nat_embedding c) at 1. f_equal. lia.
Qed.

(** A character that a printed number does not start with is no digit; white space and
    signs are none. *)
Lemma digit_char_plain d : 0 <= d < 10 ->
  is_space (digit_char d) = false /\ Ascii.eqb (digit_char d) "-" = false /\ Ascii.eqb (digit_char d) "+" = false.
Proof.
  intros Hd. split; [|by split; apply digit_char_ne]. unfold is_space, digit_char.
  rewrite nat_ascii_embedding by lia. apply orb_false_iff. split; [apply Nat.eqb_neq; lia|].
  apply andb_false_iff. right. apply Nat.leb_gt. lia.
Qed.

Lemma stoi_digits s : starts_with_digit s = true -> is_int (get_digits 0 s) -> stoi s = Some (get_digits 0 s).
Proof.
  intros Hs Hi. destruct (starts_digit_char s Hs) as (d & r & -> & Hd).
  destruct (digit_char_plain d Hd) as (H1 & H2 & H3). unfold stoi. cbn [skip_space]. rewrite H1, H2, H3, Hs.
  unfold is_int in Hi. by rewrite (proj2 (Z.leb_le _ _)), (proj2 (Z.ltb_lt _ _)) by lia.
Qed.

Lemma stoi_to_string z : is_int z -> stoi (to_string z) = Some z.
Proof.
  intros Hz. unfold is_int in Hz. unfold to_string. case_zbool.
  - assert (get_digits 0 (put_digits 20 (- z) EmptyString) = - z) as Hg by (rewrite get_put_digits by (cbn; lia); done).
    assert (starts_with_digit (put_digits 20 (- z) EmptyString) = true) as Hs by (apply put_digits_first; lia).
    remember (put_digits 20 (- z) EmptyString) as s. unfold stoi.
    change (skip_space (String "-" s)) with (String "-" s). cbv beta iota zeta. rewrite Ascii.eqb_refl.
    rewrite Hs, Hg, Z.opp_involutive. by rewrite (proj2 (Z.leb_le _ _)), (proj2 (Z.ltb_lt _ _)) by lia.
  - assert (get_digits 0 (put_digits 20 z EmptyString) = z) as Hg by (rewrite get_put_digits by (cbn; lia); done).
    rewrite stoi_digits; rewrite ?Hg; [done| |unfold is_int; lia]. apply put_digits_first; lia.
Qed.

Lemma to_string_chars z c : char_digit c = None -> Ascii.eqb "-" c = false -> contains_char (to_string z) c = false.
Proof.
  intros Hc Hm. unfold to_string. case_zbool; cbn [contains_char]; rewrite ?Hm; cbn [orb];
    rewrite put_digits_chars by (done || lia); done.
Qed.

Lemma to_string_size z : is_int z -> ssize (to_string z) <= 11.
Proof.
  intros Hz. unfold is_int in Hz. unfold to_string. case_zbool; rewrite ?ssize_cons.
  - pose proof (put_digits_size 20 (- z) 10 EmptyString ltac:(cbn; lia) ltac:(lia)) as Hp. change (ssize EmptyString) with 0 in Hp. lia.
  - pose proof (put_digits_size 20 z 10 EmptyString ltac:(cbn; lia) ltac:(lia)) as Hp. change (ssize EmptyString) with 0 in Hp. lia.
Qed.

Lemma to_string_nonempty z : to_string z <> EmptyString.
Proof.
  unfold to_string. case_zbool; [done|]. intros Hs.
  pose proof (put_digits_first 20 z EmptyString ltac:(lia) ltac:(lia)) as Hf. by rewrite Hs in Hf.
Qed.

End StdStrings.
