(* ===== verification/StringUtilities.v ===== *)
(** * The string functions of Axom's core

    The functions of [core/utilities/StringUtilities.hpp, .cpp] that search and replace:
    suffixes, case, splitting from the right, removal and replacement of substrings.
    The functions that paths use are in [PathStrings]. *)

From S2P Require Import Prelude PathStrings StdStrings.
From Stdlib Require Import Ascii String.

Module StringUtilities.
Import PathStrings StdStrings.
#[local] Arguments Ascii.eqb : simpl never.
#[local] Arguments String.append !_ _ /.

(** ** Definitions *)

(** The first place of a string in another. *)
Fixpoint index_of_str (s key : string) : option nat :=
  if startsWith s key then Some O else
  match s with EmptyString => None | String _ s => S <$> index_of_str s key end.

(** [s.find(key, pos)]. *)
Definition find_str (s key : string) (pos : Z) : Z :=
  if ssize s <? pos then npos else
  match index_of_str (str_drop (Z.to_nat pos) s) key with Some i => pos + Z.of_nat i | None => npos end.

(** [s.find_last_of(c, pos)]: the last place of [c] that is not after [pos]. *)
Definition find_last_of_at (s : string) (c : ascii) (pos : Z) : Z :=
  match find_last_of (str_take (S (Z.to_nat (Z.min pos (ssize s)))) s) c with Some i => Z.of_nat i | None => npos end.

(** [s.replace(pos, count, r)]; [s.erase(pos, count)] has an empty [r]. *)
Definition replace_at (s : string) (pos count : Z) (r : string) : string :=
  (str_take (Z.to_nat pos) s ++ (r ++ str_drop (Z.to_nat (pos + count)) s))%string.

Definition endsWith (str suffix : string) : bool :=
  (ssize suffix <=? ssize str) && String.eqb (str_drop (Z.to_nat (ssize str - ssize suffix)) str) suffix.

Definition removeSuffix (str suffix : string) : string :=
  if str_nonempty suffix && endsWith str suffix then str_take (Z.to_nat (ssize str - ssize suffix)) str else str.

(** [std::tolower] and [std::toupper] in the C locale. *)
Definition tolower (c : ascii) : ascii :=
  let n := nat_of_ascii c in if ((65 <=? n) && (n <=? 90))%nat then ascii_of_nat (n + 32) else c.

Definition toupper (c : ascii) : ascii :=
  let n := nat_of_ascii c in if ((97 <=? n) && (n <=? 122))%nat then ascii_of_nat (n - 32) else c.

Fixpoint str_map (f : ascii -> ascii) (s : string) : string :=
  match s with EmptyString => EmptyString | String c s => String (f c) (str_map f s) end.

Definition toLower (str : string) : string := str_map tolower str.
Definition toUpper (str : string) : string := str_map toupper str.

(** The loop of [rsplitN], which makes at most [n - 1] turns; [last_pos - 1] and
    [last_pos - pos - 1] wrap around. *)
Fixpoint rsplit_loop (k : nat) (input : string) (delim : ascii) (result : list string) (last_pos pos : Z) :
    option (list string * Z) :=
  match k with
  | O => Some (result, last_pos)
  | S k =>
    if pos =? npos then Some (result, last_pos) else
    token ← substr input (pos + 1) (wrap 64 (last_pos - pos - 1));
    rsplit_loop k input delim (result ++ [token]) pos (find_last_of_at input delim (wrap 64 (pos - 1)))
  end.

Definition rsplitN (input : string) (n : Z) (delim : ascii) : option (list string) :=
  let last_pos := npos in
  let pos := find_last_of_at input delim (last_pos - 1) in
  if (0 <? n) && str_nonempty input then
    '(result, last_pos) ← rsplit_loop (Z.to_nat (n - 1)) input delim [] last_pos pos;
    first ← substr input 0 last_pos;
    Some (rev (result ++ [first]))
  else Some [].

(** The loops of [removeAllInstances] and [replaceAllInstances]; [None] is a loop that
    did not end in [fuel] turns. *)
Fixpoint remove_loop (fuel : nat) (result sub : string) (pos : Z) : option string :=
  match fuel with
  | O => None
  | S fuel =>
    if pos =? npos then Some result else
    let result := replace_at result pos (ssize sub) EmptyString in
    remove_loop fuel result sub (find_str result sub 0)
  end.

Definition removeAllInstances (target sub : string) : option string :=
  remove_loop (S (str_size target)) target sub (find_str target sub 0).

Fixpoint replace_loop (fuel : nat) (result findstr replacestr : string) (pos : Z) : option string :=
  match fuel with
  | O => None
  | S fuel =>
    if pos =? npos then Some result else
    let result := replace_at result pos (ssize findstr) replacestr in
    replace_loop fuel result findstr replacestr (find_str result findstr (pos + ssize replacestr))
  end.

Definition replaceAllInstances (target findstr replacestr : string) : option string :=
  if String.eqb findstr replacestr || negb (str_nonempty findstr) then Some target
  else replace_loop (S (str_size target)) target findstr replacestr (find_str target findstr 0).

(** What replacement should give: reading from the left, each occurrence is replaced and
    reading goes on after it. *)
Fixpoint replaced (findstr replacestr : string) (skip : nat) (s : string) : string :=
  match s with
  | EmptyString => EmptyString
  | String c t =>
    match skip with
    | S k => replaced findstr replacestr k t
    | O => if startsWith s findstr then (replacestr ++ replaced findstr replacestr (str_size findstr - 1) t)%string
           else String c (replaced findstr replacestr O t)
    end
  end.

(** ** Places of substrings *)

Lemma startsWith_app p s : startsWith (p ++ s) p = true.
Proof. induction p as [|c p IH]; cbn; [by destruct s|]. by rewrite Ascii.eqb_refl, IH. Qed.

Lemma startsWith_inv s p : startsWith s p = true -> exists r, s = (p ++ r)%string.
Proof.
  revert s. induction p as [|c p IH]; intros s; cbn; [by exists s|].
  destruct s as [|x s]; [done|]. intros [->%Ascii.eqb_eq [r ->]%IH]%andb_true_iff. by exists r.
Qed.

Lemma index_of_str_Some s key i : index_of_str s key = Some i ->
  exists a b, s = (a ++ (key ++ b))%string /\ str_size a = i.
Proof.
  revert i. induction s as [|c s IH]; intros i; cbn [index_of_str].
  - destruct (startsWith EmptyString key) eqn:E; [|done]. intros [= <-].
    apply startsWith_inv in E as [r ->]. by exists EmptyString, r.
  - destruct (startsWith (String c s) key) eqn:E.
    + intros [= <-]. apply startsWith_inv in E as [r ->]. by exists EmptyString, r.
    + destruct (index_of_str s key) as [j|] eqn:Ej; [|done]. intros [= <-].
      destruct (IH j eq_refl) as (a & b & -> & <-). by exists (String c a), b.
Qed.

(** Nothing before the first place matches. *)
Lemma index_of_str_first s key i j : index_of_str s key = Some i -> (j < i)%nat -> startsWith (str_drop j s) key = false.
Proof.
  revert i j. induction s as [|c s IH]; intros i j; cbn [index_of_str].
  - destruct (startsWith _ _); [|done]. intros [= <-]; lia.
  - destruct (startsWith (String c s) key) eqn:E; [intros [= <-]; lia|].
    destruct (index_of_str s key) as [k|] eqn:Ek; [|done]. intros [= <-] Hj.
    destruct j as [|j]; [done|]. cbn. apply (IH k); [done|lia].
Qed.

Lemma index_of_str_None s key j : index_of_str s key = None -> startsWith (str_drop j s) key = false.
Proof.
  revert j. induction s as [|c s IH]; intros j; cbn [index_of_str].
  - by destruct (startsWith EmptyString key) eqn:E, j.
  - destruct (startsWith (String c s) key) eqn:E; [done|]. destruct (index_of_str s key); [done|].
    intros _. destruct j as [|j]; [done|]. by apply IH.
Qed.

Lemma replaced_skip f r a b : replaced f r (str_size a) (a ++ b) = replaced f r O b.
Proof. induction a as [|c a IH]; cbn; [done|apply IH]. Qed.

Lemma replaced_None f r s : index_of_str s f = None -> replaced f r O s = s.
Proof.
  induction s as [|c s IH]; [done|]. intros Hs. pose proof (index_of_str_None _ _ O Hs) as H0. change (str_drop 0 (String c s)) with (String c s) in H0.
  cbn [index_of_str] in Hs. rewrite H0 in Hs. cbn [replaced]. rewrite H0.
  destruct (index_of_str s f); [done|]. by rewrite IH.
Qed.

Lemma replaced_Some f r a b : f <> EmptyString -> index_of_str (a ++ (f ++ b)) f = Some (str_size a) ->
  replaced f r O (a ++ (f ++ b)) = (a ++ (r ++ replaced f r O b))%string.
Proof.
  intros Hf. induction a as [|c a IH]; intros Ha.
  - cbn [String.append]. destruct f as [|x f]; [done|]. cbn [String.append replaced].
    rewrite (startsWith_app (String x f) b : startsWith (String x (f ++ b)) (String x f) = true). cbn [str_size].
    by rewrite Nat.sub_1_r, Nat.pred_succ, replaced_skip.
  - pose proof (index_of_str_first _ _ _ O Ha ltac:(cbn; lia)) as H0.
    change (str_drop 0 _) with (String c (a ++ (f ++ b))) in H0. cbn [String.append index_of_str] in Ha. rewrite H0 in Ha.
    cbn [String.append replaced]. rewrite H0. f_equal. apply IH.
    destruct (index_of_str (a ++ (f ++ b)) f); cbn in Ha; [|done]. cbn [str_size] in Ha. congruence.
Qed.

Lemma find_str_app done rest key : find_str (done ++ rest) key (ssize done) =
  match index_of_str rest key with Some i => ssize done + Z.of_nat i | None => npos end.
Proof.
  unfold find_str. rewrite ssize_app. pose proof (ssize_nonneg rest). case_zbool; [lia|].
  unfold ssize at 1. by rewrite Nat2Z.id, str_drop_app.
Qed.

Lemma replace_at_app a key b r : replace_at (a ++ (key ++ b)) (ssize a) (ssize key) r = (a ++ (r ++ b))%string.
Proof.
  unfold replace_at. rewrite <- ssize_app. unfold ssize. rewrite !Nat2Z.id, str_take_app.
  by rewrite <- (str_app_assoc a key b), str_drop_app.
Qed.

Lemma ssize_pos s : s <> EmptyString -> 1 <= ssize s.
Proof. destruct s; [done|]. rewrite ssize_cons. pose proof (ssize_nonneg s). lia. Qed.

(** ** Replacing and removing *)

Lemma replace_loop_spec f r fuel done rest : f <> EmptyString -> (str_size rest < fuel)%nat ->
  ssize done + (1 + ssize r) * ssize rest < npos ->
  replace_loop fuel (done ++ rest) f r (find_str (done ++ rest) f (ssize done)) = Some (done ++ replaced f r O rest)%string.
Proof.
  intros Hf. revert done rest. induction fuel as [|fuel IH]; intros done rest Hfuel Hsize; [lia|].
  cbn [replace_loop]. rewrite find_str_app. destruct (index_of_str rest f) as [i|] eqn:Ei.
  - destruct (index_of_str_Some _ _ _ Ei) as (a & b & -> & <-). change (Z.of_nat (str_size a)) with (ssize a).
    pose proof (ssize_pos f Hf). pose proof (ssize_nonneg a). pose proof (ssize_nonneg b). pose proof (ssize_nonneg r). pose proof (ssize_nonneg done).
    rewrite !ssize_app in Hsize. rewrite (proj2 (Z.eqb_neq _ _)) by nia.
    rewrite replaced_Some by done. rewrite <- (ssize_app done a), <- (str_app_assoc done a), replace_at_app.
    rewrite <- (str_app_assoc (done ++ a) r), <- ssize_app, IH.
    + by rewrite !str_app_assoc.
    + rewrite !str_size_app in Hfuel. unfold ssize in *. lia.
    + rewrite !ssize_app. nia.
  - rewrite Z.eqb_refl, replaced_None by done. done.
Qed.

(** [replaceAllInstances] ends and replaces every occurrence from the left, when the result
    can be a string at all. *)
Theorem replace_all_instances target findstr replacestr :
  (1 + ssize replacestr) * ssize target < npos ->
  findstr <> EmptyString -> replaceAllInstances target findstr replacestr = Some (replaced findstr replacestr O target).
Proof.
  intros Hsize Hf. unfold replaceAllInstances. assert (str_nonempty findstr = true) as -> by (by destruct findstr). cbn [negb].
  rewrite orb_false_r. destruct (String.eqb_spec findstr replacestr) as [<-|_].
  - f_equal. clear Hsize. induction target as [target IH] using (well_founded_induction (well_founded_ltof _ str_size)).
    destruct (index_of_str target findstr) as [i|] eqn:Ei; [|by rewrite replaced_None].
    destruct (index_of_str_Some _ _ _ Ei) as (a & b & -> & <-). rewrite replaced_Some by done. rewrite <- IH; [done|].
    unfold ltof. rewrite !str_size_app. pose proof (ssize_pos _ Hf). unfold ssize in *. lia.
  - pose proof (replace_loop_spec findstr replacestr (S (str_size target)) EmptyString target Hf) as HR.
    cbn [String.append] in HR. change (ssize EmptyString) with 0 in HR. rewrite HR by lia. done.
Qed.

Lemma replace_all_instances_witness :
  replaceAllInstances "a\nb\n"%string "\n"%string (String (ascii_of_nat 10) EmptyString) =
    Some (replaced "\n"%string (String (ascii_of_nat 10) EmptyString) O "a\nb\n"%string).
Proof. apply replace_all_instances; [by vm_compute|done]. Defined.

(** One removal of the first occurrence. *)
Inductive removes (sub : string) : string -> string -> Prop :=
  | removes_none s : index_of_str s sub = None -> removes sub s s
  | removes_one a b t : index_of_str (a ++ (sub ++ b)) sub = Some (str_size a) -> removes sub (a ++ b) t -> removes sub (a ++ (sub ++ b)) t.

Lemma remove_instances_loop sub fuel s : sub <> EmptyString -> (str_size s < fuel)%nat -> ssize s < npos ->
  exists t, remove_loop fuel s sub (find_str s sub 0) = Some t /\ removes sub s t.
Proof.
  intros Hs. revert s. induction fuel as [|fuel IH]; intros s Hfuel Hsize; [lia|]. cbn [remove_loop].
  rewrite (find_str_app EmptyString s sub : find_str s sub 0 = _). destruct (index_of_str s sub) as [i|] eqn:Ei.
  - destruct (index_of_str_Some _ _ _ Ei) as (a & b & -> & <-). change (ssize EmptyString) with 0. rewrite Z.add_0_l. change (Z.of_nat (str_size a)) with (ssize a).
    pose proof (ssize_pos sub Hs). pose proof (ssize_nonneg a). pose proof (ssize_nonneg b). rewrite !ssize_app in Hsize.
    rewrite (proj2 (Z.eqb_neq _ _)) by lia.
    rewrite replace_at_app. cbn [String.append].
    destruct (IH (a ++ b)%string) as (t & -> & Ht).
    + rewrite !str_size_app in *. unfold ssize in *. lia.
    + rewrite ssize_app. lia.
    + exists t. split; [done|]. by apply removes_one.
  - rewrite Z.eqb_refl. exists s. split; [done|]. by apply removes_none.
Qed.

(** [removeAllInstances] ends and leaves no occurrence, when the substring is not empty. *)
Theorem remove_all_instances target sub : sub <> EmptyString -> ssize target < npos ->
  exists t, removeAllInstances target sub = Some t /\ removes sub target t /\ index_of_str t sub = None.
Proof.
  intros Hs Hsize. destruct (remove_instances_loop sub (S (str_size target)) target) as (t & Ht & Hr); [done|lia|done|].
  exists t. split_and!; [done..|]. clear -Hr. by induction Hr.
Qed.

Lemma remove_all_instances_witness :
  exists t, removeAllInstances "aabbab"%string "ab"%string = Some t /\ removes "ab"%string "aabbab"%string t /\ index_of_str t "ab"%string = None.
Proof. apply remove_all_instances; [done|by vm_compute]. Defined.

(** An empty substring is found at the start for ever. *)
Example remove_empty_loops fuel s : ssize s < npos -> remove_loop fuel s EmptyString (find_str s EmptyString 0) = None.
Proof.
  intros Hs. assert (find_str s EmptyString 0 = 0) as Hf.
  { unfold find_str. pose proof (ssize_nonneg s). case_zbool; [lia|]. by destruct s. }
  rewrite Hf. induction fuel as [|fuel IH]; [done|]. cbn [remove_loop]. rewrite (proj2 (Z.eqb_neq _ _)) by done.
  assert (replace_at s 0 (ssize EmptyString) EmptyString = s) as -> by by destruct s. by rewrite Hf.
Qed.

(** ** Splitting from the right *)

Lemma find_last_of_Some s c i : find_last_of s c = Some i ->
  exists a b, s = (a ++ String c b)%string /\ str_size a = i /\ contains_char b c = false.
Proof.
  revert i. induction s as [|x s IH]; intros i; cbn; [done|]. destruct (find_last_of s c) as [j|] eqn:Ej.
  - intros [= <-]. destruct (IH j eq_refl) as (a & b & -> & <- & Hb). by exists (String x a), b.
  - destruct (Ascii.eqb_spec x c) as [->|]; [|done]. intros [= <-]. exists EmptyString, s. split_and!; [done..|].
    clear IH. induction s as [|y s IH]; [done|]. cbn in *. destruct (find_last_of s c); [done|].
    destruct (Ascii.eqb y c); [done|]. by apply IH.
Qed.

Lemma find_last_of_None s c : find_last_of s c = None -> contains_char s c = false.
Proof.
  induction s as [|y s IH]; [done|]. cbn. destruct (find_last_of s c); [done|].
  destruct (Ascii.eqb y c); [done|]. intros _. by apply IH.
Qed.

Lemma join_with_snoc d l x : l <> [] -> join_with d (l ++ [x]) = (join_with d l ++ String d x)%string.
Proof.
  induction l as [|y [|z l] IH]; intros Hl; [done..|]. cbn [join_with app] in *.
  rewrite IH by done. cbn. by rewrite str_app_assoc.
Qed.

(** The rest of the input that is not split yet, and where it ends. *)
Definition unsplit (input : string) (delim : ascii) (p : string) (last_pos : Z) : Prop :=
  (last_pos = npos /\ p = input) \/ (last_pos = ssize p /\ exists x, input = (p ++ String delim x)%string).

Definition last_delim (p : string) (delim : ascii) : Z :=
  match find_last_of p delim with Some i => Z.of_nat i | None => npos end.

Lemma unsplit_size input delim p last_pos : unsplit input delim p last_pos -> ssize p <= ssize input.
Proof. intros [[_ ->]|[_ [x ->]]]; [done|]. rewrite ssize_app. pose proof (ssize_nonneg (String delim x)). lia. Qed.

Lemma unsplit_token input delim a b last_pos : ssize input < 2 ^ 63 -> unsplit input delim (a ++ String delim b) last_pos ->
  substr input (ssize a + 1) (wrap 64 (last_pos - ssize a - 1)) = Some b.
Proof.
  intros Hs Hu. pose proof (unsplit_size _ _ _ _ Hu) as Hle. rewrite ssize_app, ssize_cons in Hle.
  pose proof (ssize_nonneg a). pose proof (ssize_nonneg b). destruct Hu as [[-> <-]|[-> [x ->]]].
  - rewrite wrap_id by (unfold in_word, npos; lia).
    change (String delim b) with (String delim EmptyString ++ b)%string. rewrite <- str_app_assoc.
    replace (ssize a + 1) with (ssize (a ++ String delim EmptyString)) by (rewrite ssize_app; done).
    apply substr_rest. unfold npos. lia.
  - rewrite ssize_app, ssize_cons. rewrite wrap_id by (unfold in_word; lia).
    replace (String delim b) with (String delim EmptyString ++ b)%string by done. rewrite <- !str_app_assoc, str_app_assoc.
    replace (ssize a + 1) with (ssize (a ++ String delim EmptyString)) by (rewrite ssize_app; done).
    apply substr_app. lia.
Qed.

Lemma find_last_prefix a x delim : a <> EmptyString -> ssize a < 2 ^ 63 ->
  find_last_of_at (a ++ x) delim (wrap 64 (ssize a - 1)) = last_delim a delim.
Proof.
  intros Ha Hs. pose proof (ssize_pos a Ha). unfold find_last_of_at, last_delim. rewrite wrap_id by (unfold in_word; lia).
  rewrite ssize_app. pose proof (ssize_nonneg x). rewrite Z.min_l by lia.
  replace (S (Z.to_nat (ssize a - 1))) with (str_size a) by (unfold ssize in *; lia). by rewrite str_take_app.
Qed.

Lemma rsplit_loop_spec k input delim result p last_pos :
  ssize input < 2 ^ 63 -> unsplit input delim p last_pos -> startsWith_char p delim = false ->
  exists toks last_pos' first, rsplit_loop k input delim result last_pos (last_delim p delim) = Some ((result ++ toks)%list, last_pos') /\
    substr input 0 last_pos' = Some first /\ join_with delim (first :: rev toks) = p /\ (List.length toks <= k)%nat /\
    Forall (fun t => contains_char t delim = false) toks /\ ((List.length toks < k)%nat -> contains_char first delim = false).
Proof.
  intros Hs. revert result p last_pos. induction k as [|k IH]; intros result p last_pos Hu Hp.
  1,2: pose proof (unsplit_size _ _ _ _ Hu) as Hle.
  all: assert (substr input 0 last_pos = Some p) as Hfirst.
  1,3: destruct Hu as [[-> ->]|[-> [x ->]]];
    [apply (substr_rest EmptyString input npos); unfold npos; lia|apply (substr_app EmptyString p); done].
  - exists [], last_pos, p. rewrite app_nil_r. cbn [List.length]. split_and!; [done..|lia|by constructor|lia].
  - cbn [rsplit_loop]. unfold last_delim. destruct (find_last_of p delim) as [i|] eqn:Ei.
    + destruct (find_last_of_Some _ _ _ Ei) as (a & b & -> & <- & Hb). change (Z.of_nat (str_size a)) with (ssize a).
      rewrite ssize_app in Hle. pose proof (ssize_nonneg (String delim b)).
      rewrite (proj2 (Z.eqb_neq _ _)) by (unfold npos; lia). rewrite (unsplit_token input delim a b) by done. cbn [mbind option_bind].
      assert (a <> EmptyString) as Ha by (intros ->; cbn in Hp; by rewrite Ascii.eqb_refl in Hp).
      assert (exists x, input = (a ++ String delim x)%string) as [x Hx].
      { destruct Hu as [[_ <-]|[_ [x ->]]]; [by eexists|]. exists (b ++ String delim x)%string. by rewrite str_app_assoc. }
      assert (find_last_of_at input delim (wrap 64 (ssize a - 1)) = last_delim a delim) as -> by (rewrite Hx; apply find_last_prefix; [done|lia]).
      destruct (IH (result ++ [b])%list a (ssize a)) as (toks & last' & first & -> & Hf & Hj & Hl & Hall & Hlast).
      { right. eauto. } { by destruct a. }
      exists (b :: toks), last', first. cbn [List.length]. split_and!; [by rewrite <- app_assoc|done| |lia|by constructor|intros; apply Hlast; lia].
      cbn [rev]. rewrite app_comm_cons, join_with_snoc by done. by rewrite Hj.
    + exists [], last_pos, p. rewrite Z.eqb_refl, app_nil_r. cbn [List.length].
      split_and!; [done..|lia|by constructor|intros _; by apply find_last_of_None].
Qed.

(** [rsplitN] splits at most [n - 1] delimiters off from the right: joining the parts
    gives the input back, only the first part can have a delimiter left, and only when
    there are [n] parts.  The input must not start with the delimiter. *)
Theorem rsplit_join input n delim :
  0 < n -> input <> EmptyString -> startsWith_char input delim = false -> ssize input < 2 ^ 63 ->
  exists first rest, rsplitN input n delim = Some (first :: rest) /\ join_with delim (first :: rest) = input /\
    1 + Z.of_nat (List.length rest) <= n /\ Forall (fun t => contains_char t delim = false) rest /\
    (1 + Z.of_nat (List.length rest) < n -> contains_char first delim = false).
Proof.
  intros Hn Hi Hd Hs. unfold rsplitN. rewrite (proj2 (Z.ltb_lt _ _)) by done.
  assert (str_nonempty input = true) as -> by (by destruct input). cbn [andb].
  assert (find_last_of_at input delim (npos - 1) = last_delim input delim) as ->.
  { unfold find_last_of_at, last_delim. rewrite Z.min_r by (unfold npos; lia). unfold ssize. rewrite Nat2Z.id.
    assert (forall s, str_take (S (str_size s)) s = s) as ->; [|done].
    intros s. induction s as [|c s IH]; [done|]. change (String c (str_take (S (str_size s)) s) = String c s). by rewrite IH. }
  destruct (rsplit_loop_spec (Z.to_nat (n - 1)) input delim [] input npos) as (toks & last' & first & -> & Hf & Hj & Hl & Hall & Hlast);
    [done|by left|done|].
  cbn [mbind option_bind]. rewrite Hf. cbn [mbind option_bind]. exists first, (rev toks). rewrite rev_app_distr, length_rev.
  split_and!; [done..|lia| |intros; apply Hlast; lia]. by apply Forall_rev.
Qed.

Lemma rsplit_join_witness :
  exists first rest, rsplitN "a/b/c"%string 2 "/"%char = Some (first :: rest) /\ join_with "/"%char (first :: rest) = "a/b/c"%string /\
    1 + Z.of_nat (List.length rest) <= 2 /\ Forall (fun t => contains_char t "/"%char = false) rest /\
    (1 + Z.of_nat (List.length rest) < 2 -> contains_char first "/"%char = false).
Proof. apply rsplit_join; [lia|done|done|by vm_compute]. Defined.

(** An input that starts with the delimiter is split at it again and again. *)
Example rsplit_leading_delimiter :
  rsplitN "/a"%string 5 "/"%char = Some [""; "a"; "a"; "a"; "a"]%string.
Proof. by vm_compute. Qed.

End StringUtilities.
