(* ===== verification/SlicStreams.v ===== *)
(** * Log streams

    [slic/core/MessageLevel.hpp], the formatting of messages in [slic/core/LogStream.cpp]
    and the stream of a single process in [slic/streams/GenericOutputStream.cpp], with
    the output streams of the C++ standard library that it writes to. *)

From S2P Require Import Prelude PathStrings StdStrings StringUtilities.
From Stdlib Require Import Ascii String.

Module SlicStreams.
Import PathStrings StdStrings StringUtilities.
#[local] Arguments Ascii.eqb : simpl never.
#[local] Arguments String.append !_ _ /.
Open Scope string_scope.
Open Scope Z_scope.

Definition nl : string := String (ascii_of_nat 10) "".
Definition tab : string := String (ascii_of_nat 9) "".

(** ** Message levels

    A level is an integer, because the code casts integers to levels. *)

Definition Error : Z := 0.
Definition Warning : Z := 1.
Definition Info : Z := 2.
Definition Debug : Z := 3.
Definition Num_Levels : Z := 4.

Definition getLevelAsString (l : Z) : string :=
  if (l <? 0) || (Num_Levels <=? l) then "UNKNOWN-LEVEL"
  else default "" ["ERROR"; "WARNING"; "INFO"; "DEBUG"].[l].

(** The flags of [inherit] and the mask of each level. *)
Definition inherit_nothing : Z := 0.
Definition inherit_everything : Z := 15.
Definition masks : list Z := [Z.shiftl 1 0; Z.shiftl 1 1; Z.shiftl 1 2; Z.shiftl 1 3].

Definition MSG_IGNORE_TAG : string := "".
Definition MSG_IGNORE_FILE : string := "".
Definition MSG_IGNORE_LINE : Z := -1.

(** ** Formatting

    [substr] throws when its position is past the end, which is [None]. *)

Definition default_format : string :=
  "*****" ++ nl ++ "[<LEVEL>]" ++ nl ++ nl ++ " <MESSAGE> " ++ nl ++ nl ++ " <FILE>" ++ nl ++ "<LINE>" ++ nl ++ "****" ++ nl.

Definition replaceKey (msg key value : string) (pos : Z) : option string :=
  let pos := if pos =? npos then find_str msg key 0 else pos in
  if pos =? npos then Some msg else
  a ← substr msg 0 pos;
  b ← substr msg (pos + ssize key) (wrap 64 (ssize msg - 1));
  Some (a ++ value ++ b).

(** [timestamp] is what [std::asctime] returns for the time of the call. *)
Definition trim_newline (timestamp : string) : option string :=
  if negb (str_nonempty timestamp) then None else
  Some (if endsWith_char timestamp (ascii_of_nat 10) then str_take (str_size timestamp - 1) timestamp else timestamp).

Definition getFormatedMessage (format timestamp msgLevel message tagName rank rank_count fileName : string) (line : Z) :
    option string :=
  msg ← replaceKey format "<LEVEL>" msgLevel npos;
  msg ← replaceKey msg "<MESSAGE>" message npos;
  msg ← replaceKey msg "<TAG>" tagName npos;
  msg ← replaceKey msg "<FILE>" fileName npos;
  msg ← replaceKey msg "<RANK>" rank npos;
  msg ← replaceKey msg "<RANK_COUNT>" rank_count npos;
  msg ← (if negb (line =? MSG_IGNORE_LINE) then replaceKey msg "<LINE>" (to_string line) npos
         else replaceKey msg "<LINE>" "" npos);
  let pos := find_str msg "<TIMESTAMP>" 0 in
  if pos =? npos then Some msg else timestamp ← trim_newline timestamp; replaceKey msg "<TIMESTAMP>" timestamp pos.

(** ** Output streams

    The output of the process: the console, the files, and the stream objects that are
    not [std::cout] or [std::cerr].  A file stream writes what it holds at its position
    when it is flushed or destroyed; a file that cannot be opened takes nothing.  That
    the library also writes when its buffer is full is not distinguished. *)

Inductive ostream :=
  | Ostringstream (buffer : string)
  | Ofstream (file : string) (good : bool) (pos : Z) (pending : string).

Inductive ostream_ptr := Cout | Cerr | Object (key : Z).

#[export] Instance ostream_ptr_eq_dec : EqDecision ostream_ptr.
Proof. solve_decision. Defined.

Record Output := mkOutput {
  o_cout : string; o_cerr : string; o_files : gmap string string;
  o_objects : gmap Z ostream; o_next : Z; o_clock : nat }.

Definition with_files (w : Output) f := mkOutput (o_cout w) (o_cerr w) f (o_objects w) (o_next w) (o_clock w).
Definition with_objects (w : Output) m := mkOutput (o_cout w) (o_cerr w) (o_files w) m (o_next w) (o_clock w).
Definition with_object (w : Output) k x := with_objects w (<[k := x]> (o_objects w)).
Definition tick (w : Output) := mkOutput (o_cout w) (o_cerr w) (o_files w) (o_objects w) (o_next w) (S (o_clock w)).

Definition write_cout (text : string) (w : Output) : Output :=
  mkOutput (o_cout w ++ text) (o_cerr w) (o_files w) (o_objects w) (o_next w) (o_clock w).
Definition write_cerr (text : string) (w : Output) : Output :=
  mkOutput (o_cout w) (o_cerr w ++ text) (o_files w) (o_objects w) (o_next w) (o_clock w).

(** Time and the file system. *)
Class Platform := { asctime : nat -> string; can_open : string -> bool }.

Section streams.
Context `{!Platform}.

(** [new] of a stream object. *)
Definition new_object (w : Output) (x : ostream) : Output * ostream_ptr :=
  (mkOutput (o_cout w) (o_cerr w) (o_files w) (<[o_next w := x]> (o_objects w)) (o_next w + 1) (o_clock w), Object (o_next w)).

(** Opening a file for output truncates it. *)
Definition open_file (w : Output) (file : string) : Output * ostream :=
  if can_open file then (with_files w (<[file := ""]> (o_files w)), Ofstream file true 0 "") else (w, Ofstream file false 0 "").

(** The bytes of a file after writing at a position; a gap is filled with zeros. *)
Fixpoint zeros (n : nat) : string := match n with O => "" | S n => String Ascii.zero (zeros n) end.

Definition write_at (content : string) (pos : Z) (text : string) : string :=
  str_take (Z.to_nat pos) content ++ zeros (Z.to_nat (pos - ssize content)) ++ text ++ str_drop (Z.to_nat (pos + ssize text)) content.

Definition insert_text (w : Output) (p : ostream_ptr) (text : string) : option Output :=
  match p with
  | Cout => Some (write_cout text w)
  | Cerr => Some (write_cerr text w)
  | Object k =>
    x ← o_objects w !! k;
    match x with
    | Ostringstream buffer => Some (with_object w k (Ostringstream (buffer ++ text)))
    | Ofstream file good pos pending => Some (with_object w k (Ofstream file good pos (if good then pending ++ text else pending)))
    end
  end.

(** [flush]. *)
Definition sync (w : Output) (k : Z) (x : ostream) : Output :=
  match x with
  | Ostringstream _ => w
  | Ofstream file good pos pending =>
    if good then
      let content := default "" (o_files w !! file) in
      with_object (with_files w (<[file := write_at content pos pending]> (o_files w))) k (Ofstream file good (pos + ssize pending) "")
    else w
  end.

Definition flush_stream (w : Output) (p : ostream_ptr) : option Output :=
  match p with Object k => x ← o_objects w !! k; Some (sync w k x) | _ => Some w end.

(** [delete]; a file stream is closed.  The console streams are not heap objects. *)
Definition delete_stream (w : Output) (p : ostream_ptr) : option Output :=
  match p with
  | Object k => x ← o_objects w !! k; let w := sync w k x in Some (with_objects w (delete k (o_objects w)))
  | _ => None
  end.

(** ** GenericOutputStream *)

Record GenericOutputStream := mkGeneric {
  m_formatString : string; m_stream : option ostream_ptr; m_file_name : string; m_opened : bool;
  m_isOstreamOwnedBySLIC : bool }.

(** The constructors from a stream, with or without a format. *)
Definition Generic_os (os : option ostream_ptr) : GenericOutputStream := mkGeneric default_format os "" true false.
Definition Generic_os_format (os : option ostream_ptr) (format : string) : GenericOutputStream := mkGeneric format os "" true false.

(** The constructors from a name. *)
Definition Generic_name (stream : string) (w : Output) : GenericOutputStream * Output :=
  if String.eqb stream "cout" then (mkGeneric default_format (Some Cout) "" true false, w)
  else if String.eqb stream "cerr" then (mkGeneric default_format (Some Cerr) "" true false, w)
  else let '(w, p) := new_object w (Ostringstream "") in (mkGeneric default_format (Some p) stream false true, w).

Definition Generic_name_format (stream format : string) (w : Output) : option (GenericOutputStream * Output) :=
  let '(s, w) := Generic_name stream w in
  f ← replaceAllInstances format "\n" nl;
  format_fixed ← replaceAllInstances f "\t" tab;
  Some (mkGeneric format_fixed (m_stream s) (m_file_name s) (m_opened s) (m_isOstreamOwnedBySLIC s), w).

Definition Generic_delete (s : GenericOutputStream) (w : Output) : option Output :=
  if m_isOstreamOwnedBySLIC s then match m_stream s with Some p => delete_stream w p | None => Some w end else Some w.

Definition Generic_append (s : GenericOutputStream) (msgLevel : Z) (message tagName fileName : string) (line : Z)
    (w : Output) : option (GenericOutputStream * Output) :=
  match m_stream s with
  | None => Some (s, write_cerr ("ERROR: NULL stream!" ++ nl) w)
  | Some p =>
    text ← getFormatedMessage (m_formatString s) (asctime (o_clock w)) (getLevelAsString msgLevel) message tagName "" "" fileName line;
    w ← insert_text (tick w) p text; Some (s, w)
  end.

Definition openBeforeFlush (s : GenericOutputStream) (w : Output) : option (GenericOutputStream * Output) :=
  if m_isOstreamOwnedBySLIC s && negb (m_opened s) then
    match m_stream s with
    | Some (Object k) =>
      x ← o_objects w !! k;
      match x with
      | Ostringstream buffer =>
        if str_nonempty buffer then
          w ← delete_stream w (Object k);
          let '(w, x) := open_file w (m_file_name s) in
          let '(w, p) := new_object w x in
          w ← insert_text w p buffer;
          Some (mkGeneric (m_formatString s) (Some p) (m_file_name s) true true, w)
        else Some (s, w)
      | Ofstream _ _ _ _ => Some (s, w)
      end
    | _ => Some (s, w)
    end
  else Some (s, w).

(** [flush]; [outputLocal] has the same body. *)
Definition Generic_flush (s : GenericOutputStream) (w : Output) : option (GenericOutputStream * Output) :=
  '(s, w) ← openBeforeFlush s w;
  p ← m_stream s;
  w ← flush_stream w p; Some (s, w).

Definition Generic_outputLocal (s : GenericOutputStream) (w : Output) : option (GenericOutputStream * Output) :=
  '(s, w) ← openBeforeFlush s w;
  p ← m_stream s;
  w ← flush_stream w p; Some (s, w).

End streams.

(** ** What formatting does

    A format is a list of literal pieces and keys. *)

Inductive key := KLevel | KMessage | KTag | KFile | KRank | KRankCount | KLine | KTimestamp.

#[export] Instance key_eq_dec : EqDecision key.
Proof. solve_decision. Defined.

Definition key_name (k : key) : string :=
  match k with
  | KLevel => "LEVEL>" | KMessage => "MESSAGE>" | KTag => "TAG>" | KFile => "FILE>"
  | KRank => "RANK>" | KRankCount => "RANK_COUNT>" | KLine => "LINE>" | KTimestamp => "TIMESTAMP>"
  end.

Definition key_text (k : key) : string := String "<" (key_name k).

Inductive piece := Lit (text : string) | Key (k : key).

Definition piece_text (p : piece) : string := match p with Lit s => s | Key k => key_text k end.

Fixpoint format_text (l : list piece) : string :=
  match l with [] => "" | p :: l => piece_text p ++ format_text l end.

Definition plain (s : string) : Prop := contains_char s "<" = false.

Definition piece_ok (p : piece) : Prop := match p with Lit s => plain s | Key _ => True end.

Definition piece_keys (p : piece) : list key := match p with Lit _ => [] | Key k => [k] end.

Definition format_keys (l : list piece) : list key := l ≫= piece_keys.

(** The format with the values of its keys. *)
Fixpoint filled (env : key -> string) (l : list piece) : string :=
  match l with [] => "" | Lit s :: l => s ++ filled env l | Key k :: l => env k ++ filled env l end.

Definition put_key (k : key) (v : string) (p : piece) : piece :=
  match p with Key k' => if decide (k = k') then Lit v else p | _ => p end.

Lemma key_name_plain k : plain (key_name k).
Proof. by destruct k. Qed.

Lemma key_name_prefix k k' rest : startsWith (key_text k' ++ rest) (key_text k) = bool_decide (k = k').
Proof.
  destruct (decide (k = k')) as [<-|Hne].
  - rewrite bool_decide_eq_true_2 by done. apply startsWith_app.
  - rewrite bool_decide_eq_false_2 by done. destruct k, k'; done.
Qed.

(** A key is not found inside text without an opening bracket. *)
Lemma index_of_str_plain s rest k : plain s ->
  index_of_str (s ++ rest) (key_text k) = (fun i => (str_size s + i)%nat) <$> index_of_str rest (key_text k).
Proof.
  unfold plain. induction s as [|c s IH]; cbn [contains_char]; intros Hs.
  - cbn [String.append]. destruct (index_of_str rest _); done.
  - apply orb_false_iff in Hs as [Hc Hs]. cbn [String.append index_of_str]. unfold key_text at 1. cbn [startsWith].
    rewrite Hc. cbn [andb]. rewrite IH by done. by destruct (index_of_str rest _).
Qed.

Lemma index_of_key l k : Forall piece_ok l -> k ∉ format_keys l -> forall rest,
  index_of_str (format_text l ++ rest) (key_text k) = (fun i => (str_size (format_text l) + i)%nat) <$> index_of_str rest (key_text k).
Proof.
  intros Hl Hk rest. induction Hl as [|p l Hp Hl IH]; [cbn; by destruct (index_of_str rest _)|].
  cbn in Hk. rewrite not_elem_of_app in Hk. destruct Hk as [Hk1 Hk2]. specialize (IH Hk2).
  cbn [format_text]. rewrite str_app_assoc, str_size_app. destruct p as [s|k']; cbn [piece_text].
  - rewrite index_of_str_plain, IH by done. destruct (index_of_str rest _); cbn; [|done]. f_equal. lia.
  - assert (k <> k') as Hne by (intros ->; apply Hk1; by left). unfold key_text at 1. cbn [String.append index_of_str].
    rewrite (key_name_prefix k k' (format_text l ++ rest) : startsWith (String "<" (key_name k' ++ _)) _ = _).
    rewrite bool_decide_eq_false_2 by done. rewrite index_of_str_plain, IH by apply key_name_plain.
    destruct (index_of_str rest _); cbn; [|done]. f_equal. lia.
Qed.

Lemma format_text_app l1 l2 : format_text (l1 ++ l2) = (format_text l1 ++ format_text l2)%string.
Proof. induction l1 as [|p l1 IH]; cbn; [done|]. by rewrite IH, str_app_assoc. Qed.

Lemma put_key_fresh k v l : k ∉ format_keys l -> put_key k v <$> l = l.
Proof.
  induction l as [|p l IH]; cbn; [done|]. rewrite not_elem_of_app. intros [Hp Hl]. rewrite IH by done. f_equal.
  destruct p as [s|k']; cbn; [done|]. rewrite decide_False; [done|]. intros ->. apply Hp. by left.
Qed.

Lemma format_keys_split l k : k ∈ format_keys l -> NoDup (format_keys l) ->
  exists l1 l2, l = (l1 ++ Key k :: l2)%list /\ k ∉ format_keys l1 /\ k ∉ format_keys l2.
Proof.
  induction l as [|p l IH]; cbn; [by rewrite elem_of_nil|]. destruct p as [s|k']; cbn.
  - intros Hk Hnd. destruct (IH Hk Hnd) as (l1 & l2 & -> & H1 & H2). by exists (Lit s :: l1), l2.
  - intros Hk [Hk' Hnd]%NoDup_cons. destruct (decide (k = k')) as [->|Hne]; [by exists [], l; split_and!; [|apply not_elem_of_nil|]|].
    apply elem_of_cons in Hk as [|Hk]; [done|]. destruct (IH Hk Hnd) as (l1 & l2 & -> & H1 & H2).
    exists (Key k' :: l1), l2. split_and!; [done| |done]. cbn. by apply not_elem_of_cons.
Qed.

Lemma put_key_size k v l : NoDup (format_keys l) ->
  ssize (format_text (put_key k v <$> l)) <= ssize (format_text l) + ssize v.
Proof.
  intros Hnd. destruct (decide (k ∈ format_keys l)) as [Hk|Hk].
  - destruct (format_keys_split _ _ Hk Hnd) as (l1 & l2 & -> & H1 & H2). rewrite fmap_app, fmap_cons, !put_key_fresh by done.
    cbn [put_key]. rewrite decide_True by done. rewrite !format_text_app. cbn [format_text piece_text]. rewrite !ssize_app.
    pose proof (ssize_nonneg (key_text k)). lia.
  - rewrite put_key_fresh by done. pose proof (ssize_nonneg v). lia.
Qed.

Lemma put_key_keys k v l : format_keys (put_key k v <$> l) = filter (fun k' => k <> k') (format_keys l).
Proof.
  induction l as [|p l IH]; [done|]. rewrite fmap_cons. unfold format_keys in *. rewrite !bind_cons, filter_app, IH. f_equal.
  destruct p as [s|k']; cbn; [done|]. destruct (decide (k = k')) as [->|]; cbn.
  - by rewrite decide_False by naive_solver.
  - by rewrite decide_True by done.
Qed.

Lemma put_key_ok k v l : plain v -> Forall piece_ok l -> Forall piece_ok (put_key k v <$> l).
Proof.
  intros Hv Hl. apply Forall_fmap. eapply Forall_impl; [exact Hl|]. intros [s|k'] Hp; cbn; [done|]. by destruct (decide _).
Qed.

(** A format in which each key occurs at most once, of bounded size. *)
Record fillable (l : list piece) (room : Z) : Prop := {
  fi_ok : Forall piece_ok l;
  fi_keys : NoDup (format_keys l);
  fi_size : ssize (format_text l) + room < 2 ^ 63 }.

Lemma find_key l k : fillable l 0 ->
  find_str (format_text l) (key_text k) 0 =
    (if decide (k ∈ format_keys l) then find_str (format_text l) (key_text k) 0 else npos) /\
  (k ∈ format_keys l -> exists l1 l2, l = (l1 ++ Key k :: l2)%list /\ k ∉ format_keys l1 /\ k ∉ format_keys l2 /\
    find_str (format_text l) (key_text k) 0 = ssize (format_text l1)).
Proof.
  intros [Hok Hnd _]. split.
  - case_decide as Hk; [done|]. pose proof (find_str_app "" (format_text l) (key_text k)) as HF. cbn [String.append] in HF.
    change (ssize "") with 0 in HF. rewrite HF. pose proof (index_of_key l k Hok Hk "") as HI. rewrite str_app_nil in HI. rewrite HI. done.
  - intros Hk. destruct (format_keys_split _ _ Hk Hnd) as (l1 & l2 & -> & H1 & H2). exists l1, l2. split_and!; [done..|].
    apply Forall_app in Hok as [Hok1 _]. pose proof (find_str_app "" (format_text (l1 ++ Key k :: l2)) (key_text k)) as HF.
    cbn [String.append] in HF. change (ssize "") with 0 in HF. rewrite HF, format_text_app, index_of_key by done.
    cbn [format_text piece_text]. assert (index_of_str (key_text k ++ format_text l2) (key_text k) = Some O) as ->.
    { unfold key_text at 1. cbn [String.append index_of_str].
      pose proof (key_name_prefix k k (format_text l2)) as HP. rewrite bool_decide_eq_true_2 in HP by done.
      unfold key_text at 1 in HP. cbn [String.append] in HP. by rewrite HP. }
    cbn. unfold ssize. lia.
Qed.

Lemma replace_found l1 l2 k v : fillable (l1 ++ Key k :: l2) 0 ->
  (a ← substr (format_text (l1 ++ Key k :: l2)) 0 (ssize (format_text l1));
   b ← substr (format_text (l1 ++ Key k :: l2)) (ssize (format_text l1) + ssize (key_text k)) (wrap 64 (ssize (format_text (l1 ++ Key k :: l2)) - 1));
   Some (a ++ v ++ b)) = Some (format_text l1 ++ v ++ format_text l2).
Proof.
  intros [_ _ Hsize]. rewrite format_text_app in *. cbn [format_text piece_text] in *.
  rewrite (substr_app "" (format_text l1) _ _ eq_refl : substr (format_text l1 ++ _) 0 _ = _). cbn [mbind option_bind].
  rewrite !ssize_app in *. pose proof (ssize_nonneg (format_text l1)). pose proof (ssize_nonneg (format_text l2)).
  assert (1 <= ssize (key_text k)) by (by apply ssize_pos).
  rewrite <- str_app_assoc. rewrite <- ssize_app. rewrite substr_rest; [done|].
  rewrite wrap_id by (unfold in_word; lia). lia.
Qed.

Lemma replaceKey_spec l k v room : fillable l (ssize v + room) -> plain v -> 0 <= room ->
  replaceKey (format_text l) (key_text k) v npos = Some (format_text (put_key k v <$> l)) /\ fillable (put_key k v <$> l) room.
Proof.
  intros Hf Hv Hroom. pose proof (ssize_nonneg v). assert (fillable l 0) as Hf0 by (destruct Hf; constructor; [done..|lia]).
  split.
  - unfold replaceKey. rewrite Z.eqb_refl. destruct (find_key l k Hf0) as [H1 H2].
    destruct (decide (k ∈ format_keys l)) as [Hk|Hk].
    + destruct (H2 Hk) as (l1 & l2 & -> & Hk1 & Hk2 & ->). destruct Hf0 as [Ho Hn Hs]. rewrite format_text_app in Hs.
      cbn [format_text piece_text] in Hs. rewrite !ssize_app in Hs. pose proof (ssize_nonneg (format_text l2)). pose proof (ssize_nonneg (key_text k)).
      rewrite (proj2 (Z.eqb_neq _ _)) by (unfold npos; lia).
      rewrite replace_found by (constructor; [done..|]; rewrite format_text_app; cbn [format_text piece_text]; rewrite !ssize_app; lia).
      rewrite fmap_app, fmap_cons, !put_key_fresh by done. cbn [put_key]. rewrite decide_True by done.
      by rewrite format_text_app.
    + rewrite H1, Z.eqb_refl, put_key_fresh by done. done.
  - destruct Hf as [Ho Hn Hs]. constructor; [by apply put_key_ok| |].
    + rewrite put_key_keys. by apply NoDup_filter.
    + pose proof (put_key_size k v l Hn). lia.
Qed.

(** With the position of the key, as for the time stamp. *)
Lemma replaceKey_at l k v : fillable l 0 -> plain v ->
  (let pos := find_str (format_text l) (key_text k) 0 in
   if pos =? npos then Some (format_text l) else replaceKey (format_text l) (key_text k) v pos) =
  Some (format_text (put_key k v <$> l)).
Proof.
  intros Hf Hv. cbv zeta. destruct (find_key l k Hf) as [H1 H2]. destruct (decide (k ∈ format_keys l)) as [Hk|Hk].
  - destruct (H2 Hk) as (l1 & l2 & -> & Hk1 & Hk2 & ->). pose proof Hf as [Ho Hn Hs]. rewrite format_text_app in Hs.
    cbn [format_text piece_text] in Hs. rewrite !ssize_app in Hs. pose proof (ssize_nonneg (format_text l2)). pose proof (ssize_nonneg (key_text k)).
    unfold replaceKey. rewrite (proj2 (Z.eqb_neq _ npos)) by (unfold npos; lia). rewrite (proj2 (Z.eqb_neq _ npos)) by (unfold npos; lia).
    rewrite replace_found by done. rewrite fmap_app, fmap_cons, !put_key_fresh by done. cbn [put_key].
    rewrite decide_True by done. by rewrite format_text_app.
  - rewrite H1, Z.eqb_refl, put_key_fresh by done. done.
Qed.

Definition key_values (timestamp msgLevel message tagName rank rank_count fileName : string) (line : Z) (k : key) : string :=
  match k with
  | KLevel => msgLevel | KMessage => message | KTag => tagName | KFile => fileName | KRank => rank | KRankCount => rank_count
  | KLine => if line =? MSG_IGNORE_LINE then "" else to_string line
  | KTimestamp => default "" (trim_newline timestamp)
  end.

Definition all_keys : list key := [KLevel; KMessage; KTag; KFile; KRank; KRankCount; KLine; KTimestamp].

Definition room_for (env : key -> string) (ks : list key) : Z := foldr (fun k n => ssize (env k) + n) 0 ks.

Definition put_keys (env : key -> string) (ks : list key) (l : list piece) : list piece :=
  foldl (fun l k => put_key k (env k) <$> l) l ks.

Lemma put_keys_filled env l : format_text (put_keys env all_keys l) = filled env l.
Proof.
  cbn [all_keys put_keys foldl]. induction l as [|p l IH]; [done|]. rewrite !fmap_cons. cbn [format_text filled]. rewrite IH.
  by destruct p as [s|k]; [|destruct k].
Qed.

Lemma line_plain line : plain (if line =? MSG_IGNORE_LINE then "" else to_string line).
Proof. case_zbool; [done|]. by apply to_string_chars. Qed.

(** One key of [getFormatedMessage]. *)
Lemma fill_stage l k v room txt (f : string -> option string) r : txt = key_text k -> fillable l (ssize v + room) -> plain v -> 0 <= room ->
  (fillable (put_key k v <$> l) room -> f (format_text (put_key k v <$> l)) = r) -> (msg ← replaceKey (format_text l) txt v npos; f msg) = r.
Proof. intros -> Hf Hv Hr Hk. destruct (replaceKey_spec l k v room Hf Hv Hr) as [-> Hf']. by apply Hk. Qed.

#[local] Ltac fill Hf Hp k := apply (fill_stage _ k _ _ _ _ _ eq_refl Hf (Hp k)); [lia|clear Hf; intros Hf].

(** Formatting fills in the format: when each key is at most once in the format and the
    values have no opening bracket, every key is replaced by its value and the rest
    stays; nothing is cut off and no exception is thrown. *)
Theorem format_message l timestamp msgLevel message tagName rank rank_count fileName line :
  let env := key_values timestamp msgLevel message tagName rank rank_count fileName line in
  fillable l (room_for env all_keys) -> (forall k, plain (env k)) -> timestamp <> "" ->
  getFormatedMessage (format_text l) timestamp msgLevel message tagName rank rank_count fileName line = Some (filled env l).
Proof.
  intros env Hf Hp Ht. cbn [room_for all_keys foldr] in Hf.
  assert (forall k, 0 <= ssize (env k)) as Hpos by (intros; apply ssize_nonneg).
  pose proof (Hpos KLevel). pose proof (Hpos KMessage). pose proof (Hpos KTag). pose proof (Hpos KFile).
  pose proof (Hpos KRank). pose proof (Hpos KRankCount). pose proof (Hpos KLine). pose proof (Hpos KTimestamp).
  assert (exists t, trim_newline timestamp = Some t /\ env KTimestamp = t) as (t & Htrim & Het).
  { unfold env, key_values, trim_newline. destruct timestamp; [done|]. cbn [str_nonempty negb]. by eexists. }
  assert (forall msg, (if negb (line =? MSG_IGNORE_LINE) then replaceKey msg "<LINE>" (to_string line) npos
                       else replaceKey msg "<LINE>" "" npos) = replaceKey msg "<LINE>" (env KLine) npos) as Hline.
  { intros msg. unfold env, key_values. by destruct (line =? MSG_IGNORE_LINE). }
  unfold getFormatedMessage. rewrite <- (put_keys_filled env l). cbn [put_keys all_keys foldl].
  fill Hf Hp KLevel. fill Hf Hp KMessage. fill Hf Hp KTag. fill Hf Hp KFile. fill Hf Hp KRank. fill Hf Hp KRankCount.
  rewrite Hline. fill Hf Hp KLine.
  rewrite Htrim. cbn [mbind option_bind]. rewrite Het in *.
  apply (replaceKey_at _ KTimestamp); [|by rewrite <- Het]. destruct Hf; constructor; [done..|lia].
Qed.

(** ** A stream to a file is a log of its messages *)

Section file_log.
Context `{!Platform}.

Inductive stream_op :=
  | OpAppend (level : Z) (message tag file : string) (line : Z)
  | OpFlush
  | OpOutputLocal.

Definition stream_step (s : GenericOutputStream) (w : Output) (op : stream_op) : option (GenericOutputStream * Output) :=
  match op with
  | OpAppend level message tag file line => Generic_append s level message tag file line w
  | OpFlush => Generic_flush s w
  | OpOutputLocal => Generic_outputLocal s w
  end.

Fixpoint stream_run (s : GenericOutputStream) (w : Output) (ops : list stream_op) : option (GenericOutputStream * Output) :=
  match ops with [] => Some (s, w) | op :: ops => '(s, w) ← stream_step s w op; stream_run s w ops end.

(** The text of the messages of a program, at the times when they are appended. *)
Fixpoint logged (format : string) (clock : nat) (ops : list stream_op) : option string :=
  match ops with
  | [] => Some ""
  | OpAppend level message tag file line :: ops =>
    t ← getFormatedMessage format (asctime clock) (getLevelAsString level) message tag "" "" file line;
    rest ← logged format (S clock) ops; Some (t ++ rest)
  | _ :: ops => logged format clock ops
  end.

(** A stream that SLIC made for a file has the text [t]: before the first flush in memory,
    then in the file and in the buffer of its file stream. *)
Definition holds (s : GenericOutputStream) (w : Output) (file t : string) : Prop :=
  m_isOstreamOwnedBySLIC s = true /\ m_file_name s = file /\ exists k, m_stream s = Some (Object k) /\ k < o_next w /\
  ((m_opened s = false /\ o_objects w !! k = Some (Ostringstream t)) \/
   (m_opened s = true /\ exists c pending, o_objects w !! k = Some (Ofstream file true (ssize c) pending) /\
      o_files w !! file = Some c /\ t = c ++ pending)).

(** Keys from [o_next] on are not used yet. *)
Definition bounded (w : Output) : Prop := forall k, o_next w <= k -> o_objects w !! k = None.

(** What an operation of a stream leaves alone: the console, the other files, and the
    other stream objects. *)
Record framed (s : GenericOutputStream) (w : Output) (s' : GenericOutputStream) (w' : Output) (file : string) : Prop := {
  fr_format : m_formatString s' = m_formatString s;
  fr_cout : o_cout w' = o_cout w;
  fr_cerr : o_cerr w' = o_cerr w;
  fr_next : o_next w <= o_next w';
  fr_files : forall f, f <> file -> o_files w' !! f = o_files w !! f;
  fr_bounded : bounded w -> bounded w';
  fr_objects : bounded w -> forall k, m_stream s <> Some (Object k) -> m_stream s' <> Some (Object k) -> o_objects w' !! k = o_objects w !! k;
  fr_old : bounded w -> forall k, m_stream s = Some (Object k) -> m_stream s' <> Some (Object k) -> k < o_next w -> o_objects w' !! k = None;
  fr_stream : forall k, m_stream s' = Some (Object k) -> m_stream s = Some (Object k) \/ o_next w <= k < o_next w' }.

Lemma framed_refl s w file : framed s w s w file.
Proof. constructor; auto; [lia|done]. Qed.

Lemma framed_trans s w s1 w1 s2 w2 file : framed s w s1 w1 file -> framed s1 w1 s2 w2 file -> framed s w s2 w2 file.
Proof.
  intros [A1 A2 A3 A4 A5 A6 A7 A8 A9] [B1 B2 B3 B4 B5 B6 B7 B8 B9]. constructor; try congruence; try lia; auto.
  - intros f Hf. by rewrite B5, A5.
  - intros Hw k Hs Hs2. destruct (decide (m_stream s1 = Some (Object k))) as [Hs1|Hs1].
    + destruct (A9 k Hs1) as [|Hk]; [done|]. rewrite B8 by (auto || lia). by rewrite Hw by lia.
    + by rewrite B7, A7 by auto.
  - intros Hw k Hs Hs2 Hk. destruct (decide (m_stream s1 = Some (Object k))) as [Hs1|Hs1]; [apply B8; auto; lia|].
    rewrite B7 by auto. by apply A8.
  - intros k [[|]%A9|]%B9; [by left|right; lia..].
Qed.

Lemma write_at_end c t : write_at c (ssize c) t = (c ++ t)%string.
Proof.
  unfold write_at. rewrite Z.sub_diag. cbn [Z.to_nat zeros]. rewrite <- ssize_app. unfold ssize. rewrite !Nat2Z.id.
  rewrite <- (str_app_nil c) at 2. rewrite str_take_app. cbn [String.append].
  assert (forall s n, (str_size s <= n)%nat -> str_drop n s = "") as Hd.
  { intros s. induction s as [|x s IH]; intros [|n] Hn; cbn in *; [done..|lia|]. apply IH. lia. }
  rewrite Hd by (rewrite str_size_app; lia). by rewrite str_app_nil.
Qed.

Lemma framed_object s w k x file : m_stream s = Some (Object k) -> k < o_next w -> framed s w s (with_object (tick w) k x) file.
Proof.
  intros Hk Hn. constructor; cbn; auto; [lia|..].
  - intros Hw j Hj. cbn in *. rewrite lookup_insert_ne by lia. by apply Hw.
  - intros Hw j Hj _. by rewrite lookup_insert_ne by congruence.
  - done.
Qed.

Lemma append_holds s w file t level message tag src line x : holds s w file t ->
  getFormatedMessage (m_formatString s) (asctime (o_clock w)) (getLevelAsString level) message tag "" "" src line = Some x ->
  exists w', Generic_append s level message tag src line w = Some (s, w') /\ holds s w' file (t ++ x) /\ framed s w s w' file /\
    o_clock w' = S (o_clock w) /\ o_files w' = o_files w.
Proof.
  intros (Ho & Hf & k & Hk & Hn & Hh) Hx. unfold Generic_append. rewrite Hk, Hx. cbn [mbind option_bind insert_text tick o_objects].
  destruct Hh as [[Hop Hobj]|(Hop & c & pending & Hobj & Hc & ->)]; rewrite Hobj; cbn [mbind option_bind]; eexists; (split_and!; [done| |..|done|done]).
  - split_and!; [done..|]. exists k. split_and!; [done..|]. left. split; [done|]. cbn. by rewrite lookup_insert_eq.
  - by apply framed_object.
  - split_and!; [done..|]. exists k. split_and!; [done..|]. right. split; [done|]. exists c, (pending ++ x). cbn.
    rewrite lookup_insert_eq, str_app_assoc. done.
  - by apply framed_object.
Qed.

Lemma open_holds s w file t : can_open file = true -> holds s w file t ->
  exists s' w', openBeforeFlush s w = Some (s', w') /\ holds s' w' file t /\ framed s w s' w' file /\
    o_clock w' = o_clock w /\ (m_opened s' = false -> t = "") /\ (t = "" -> m_opened s = false -> w' = w /\ s' = s).
Proof.
  intros Hcan (Ho & Hf & k & Hk & Hn & Hh). unfold openBeforeFlush. rewrite Ho, Hk. cbn [andb].
  destruct Hh as [[Hop Hobj]|(Hop & c & pending & Hobj & Hc & ->)]; rewrite Hop; cbn [negb].
  - rewrite Hobj. cbn [mbind option_bind]. destruct t as [|x t]; cbn [str_nonempty].
    + exists s, w. split_and!; [done| |apply framed_refl|done..]. split_and!; [done..|]. exists k. split_and!; [done..|]. by left.
    + cbn [delete_stream]. rewrite Hobj. cbn [mbind option_bind sync]. unfold open_file. rewrite Hf, Hcan.
      cbn [new_object with_objects with_files o_cout o_cerr o_files o_objects o_next o_clock insert_text].
      rewrite lookup_insert_eq. cbn [mbind option_bind]. eexists _, _. split_and!; [done| | |done|done|done].
      * split_and!; [done..|]. exists (o_next w). split_and!; [done|cbn; lia|]. right. split; [done|]. exists "", (String x t). cbn.
        by rewrite !lookup_insert_eq.
      * constructor; cbn; auto; [lia| | | | |].
        -- intros f Hne. by rewrite lookup_insert_ne.
        -- intros Hw j Hj. cbn in *. rewrite !lookup_insert_ne by lia. rewrite lookup_delete_ne by lia. apply Hw. lia.
        -- intros Hw j Hj Hj'. rewrite !lookup_insert_ne by congruence. by rewrite lookup_delete_ne by congruence.
        -- intros Hw j Hj Hj' Hlt. rewrite !lookup_insert_ne by lia. rewrite Hk in Hj. simplify_eq. by rewrite lookup_delete_eq.
        -- intros j [= <-]. right. lia.
  - exists s, w. split_and!; [done| |apply framed_refl|done|by rewrite Hop|done]. split_and!; [done..|]. exists k.
    split_and!; [done..|]. right. split; [done|]. by exists c, pending.
Qed.

Lemma flush_holds s w file t : can_open file = true -> holds s w file t ->
  exists s' w', Generic_flush s w = Some (s', w') /\ holds s' w' file t /\ framed s w s' w' file /\ o_clock w' = o_clock w /\
    (if m_opened s' then o_files w' !! file = Some t else t = "" /\ m_opened s = false /\ o_files w' = o_files w) /\ (t = "" -> m_opened s = false -> m_opened s' = false).
Proof.
  intros Hcan Hh. destruct (open_holds s w file t Hcan Hh) as (s1 & w1 & Hopen & Hh1 & Hfr & Hcl & Ht & Hsame).
  unfold Generic_flush. rewrite Hopen. cbn [mbind option_bind]. destruct Hh1 as (Ho & Hf & k & Hk & Hn & Hh1).
  rewrite Hk. cbn [mbind option_bind flush_stream].
  destruct Hh1 as [[Hop Hobj]|(Hop & c & pending & Hobj & Hc & ->)]; rewrite Hobj; cbn [mbind option_bind sync]; eexists _, _.
  - assert (m_opened s = false) as Hops.
    { destruct (m_opened s) eqn:E; [|done]. unfold openBeforeFlush in Hopen. rewrite E, andb_false_r in Hopen. simplify_eq. congruence. }
    split_and!; [done| |done|done| |done].
    + split_and!; [done..|]. exists k. split_and!; [done..|]. by left.
    + rewrite Hop. destruct (Hsame (Ht Hop) Hops) as [-> ->]. split_and!; [by apply Ht|done..].
  - split_and!; [done| | |done| |].
    + split_and!; [done..|]. exists k. split_and!; [done..|]. right. split; [done|]. exists (c ++ pending)%string, "". cbn.
      rewrite !lookup_insert_eq, Hc. cbn [default]. by rewrite write_at_end, ssize_app, str_app_nil.
    + eapply framed_trans; [done|]. constructor; cbn; auto; [lia|..].
      * intros f Hne. by rewrite lookup_insert_ne.
      * intros Hw j Hj. cbn in *. rewrite lookup_insert_ne by lia. by apply Hw.
      * intros Hw j Hj Hj'. by rewrite lookup_insert_ne by congruence.
      * done.
    + cbn. rewrite Hop, lookup_insert_eq, Hc. cbn [default]. by rewrite write_at_end.
    + intros Ht0 Hops. destruct (Hsame Ht0 Hops) as [-> ->]. congruence.
Qed.

Lemma outputLocal_flush s w : Generic_outputLocal s w = Generic_flush s w.
Proof. done. Qed.

(** The state of a stream to a file during a program: it has the text [t], it was opened
    when there was any text to write, and before that the file is as it was. *)
Definition logging (s : GenericOutputStream) (w : Output) (file t : string) (files : gmap string string) : Prop :=
  holds s w file t /\ (m_opened s = true -> t <> "") /\ (m_opened s = false -> o_files w = files).

Lemma str_app_nonempty s t : s <> "" -> (s ++ t)%string <> "".
Proof. by destruct s. Qed.

Lemma flush_logging s w file t files : can_open file = true -> logging s w file t files ->
  exists s' w', Generic_flush s w = Some (s', w') /\ logging s' w' file t files /\ framed s w s' w' file /\ o_clock w' = o_clock w /\
    o_files w' !! file = if str_nonempty t then Some t else files !! file.
Proof.
  intros Hcan (Hh & Hne & Hfiles). destruct (flush_holds s w file t Hcan Hh) as (s' & w' & Hfl & Hh' & Hfr & Hcl & Hres & Hsame).
  exists s', w'. destruct (m_opened s') eqn:Eo.
  - assert (t <> "") as Ht by (intros ->; destruct (m_opened s) eqn:E; [by apply Hne|by specialize (Hsame eq_refl eq_refl)]).
    split_and!; [done| |done|done|rewrite Hres; by destruct t]. split_and!; [done|done|]. by rewrite Eo.
  - destruct Hres as (-> & Ho & Hw'). split_and!; [done| |done|done|cbn; by rewrite Hw', Hfiles].
    split_and!; [done|by rewrite Eo|]. intros _. by rewrite Hw', Hfiles.
Qed.

Lemma append_logging s w file t files level message tag src line x : logging s w file t files ->
  getFormatedMessage (m_formatString s) (asctime (o_clock w)) (getLevelAsString level) message tag "" "" src line = Some x ->
  exists w', Generic_append s level message tag src line w = Some (s, w') /\ logging s w' file (t ++ x) files /\ framed s w s w' file /\
    o_clock w' = S (o_clock w).
Proof.
  intros (Hh & Hne & Hfiles) Hx. destruct (append_holds _ _ _ _ _ _ _ _ _ _ Hh Hx) as (w' & Ha & Hh' & Hfr & Hcl & Hf).
  exists w'. split_and!; [done| |done|done]. split_and!; [done| |intros Ho; rewrite Hf; by apply Hfiles].
  intros Ho. apply str_app_nonempty. by apply Hne.
Qed.

Lemma run_logging ops s w file t files x : can_open file = true -> logging s w file t files ->
  logged (m_formatString s) (o_clock w) ops = Some x ->
  exists s' w', stream_run s w ops = Some (s', w') /\ logging s' w' file (t ++ x) files /\ framed s w s' w' file.
Proof.
  intros Hcan. revert s w t x. induction ops as [|op ops IH]; intros s w t x Hl Hx.
  { cbn in Hx. simplify_eq. exists s, w. rewrite str_app_nil. split_and!; [done..|apply framed_refl]. }
  assert (Generic_flush s w = stream_step s w op -> logged (m_formatString s) (o_clock w) ops = Some x ->
    exists s' w', stream_run s w (op :: ops) = Some (s', w') /\ logging s' w' file (t ++ x) files /\ framed s w s' w' file) as Hflush.
  { intros Hop Hx'. destruct (flush_logging s w file t files Hcan Hl) as (s1 & w1 & Hf & Hl1 & Hfr & Hcl & _).
    cbn [stream_run]. rewrite <- Hop, Hf. cbn [mbind option_bind]. rewrite <- Hcl, <- (fr_format _ _ _ _ _ Hfr) in Hx'.
    destruct (IH s1 w1 t x Hl1 Hx') as (s2 & w2 & Hr & Hl2 & Hfr2). exists s2, w2. split_and!; [done..|by eapply framed_trans]. }
  destruct op as [level message tag src line| |]; [|by apply Hflush|by apply Hflush]. cbn [logged] in Hx.
  destruct (getFormatedMessage _ _ _ _ _ _ _ _ _) as [y|] eqn:Ey; [|done]. cbn [mbind option_bind] in Hx.
  destruct (logged _ (S _) ops) as [z|] eqn:Ez; [|done]. cbn [mbind option_bind] in Hx. simplify_eq.
  destruct (append_logging _ _ _ _ _ _ _ _ _ _ _ Hl Ey) as (w1 & Ha & Hl1 & Hfr & Hcl).
  cbn [stream_run stream_step]. rewrite Ha. cbn [mbind option_bind]. rewrite <- Hcl in Ez.
  destruct (IH s w1 _ z Hl1 Ez) as (s2 & w2 & Hr & Hl2 & Hfr2). rewrite <- str_app_assoc. exists s2, w2.
  split_and!; [done..|by eapply framed_trans].
Qed.

(** The format after the escapes for a new line and a tab are replaced. *)
Definition fixed_format (format : string) : string := replaced "\t" tab O (replaced "\n" nl O format).

Lemma replaced_size f r n s : ssize r <= 1 -> 1 <= ssize f -> ssize (replaced f r n s) <= ssize s.
Proof.
  intros Hr Hf. revert n. induction s as [|c s IH]; intros n; [done|]. cbn [replaced]. rewrite ssize_cons.
  destruct n as [|n]; [|specialize (IH n); lia]. destruct (startsWith (String c s) f); rewrite ?ssize_app, ?ssize_cons.
  - specialize (IH (str_size f - 1)%nat). lia.
  - specialize (IH O). lia.
Qed.

Lemma format_fixes format : ssize format < 2 ^ 60 ->
  (f ← replaceAllInstances format "\n" nl; replaceAllInstances f "\t" tab) = Some (fixed_format format).
Proof.
  intros Hs. pose proof (ssize_nonneg format). change (ssize nl) with 1 in *.
  rewrite replace_all_instances; [cbn [mbind option_bind]|change (ssize nl) with 1; unfold npos; lia|done].
  pose proof (replaced_size "\n" nl O format ltac:(by vm_compute) ltac:(by vm_compute)).
  apply replace_all_instances; [change (ssize tab) with 1; unfold npos; lia|done].
Qed.

Lemma Generic_name_logging file format w : file <> "cout" -> file <> "cerr" -> ssize format < 2 ^ 60 ->
  exists s w1, Generic_name_format file format w = Some (s, w1) /\ logging s w1 file "" (o_files w) /\
    m_formatString s = fixed_format format /\ m_stream s = Some (Object (o_next w)) /\
    w1 = mkOutput (o_cout w) (o_cerr w) (o_files w) (<[o_next w := Ostringstream ""]> (o_objects w)) (o_next w + 1) (o_clock w).
Proof.
  intros H1 H2 Hs. pose proof (format_fixes format Hs) as Hfix. unfold Generic_name_format, Generic_name.
  rewrite (proj2 (String.eqb_neq _ _)), (proj2 (String.eqb_neq _ _)) by done.
  destruct (replaceAllInstances format "\n" nl) as [f|]; [|done]. cbn [mbind option_bind new_object] in *. rewrite Hfix.
  cbn [mbind option_bind]. eexists _, _. split_and!; [done| |done..]. split_and!; [|done..].
  split_and!; [done..|]. exists (o_next w). split_and!; [done|cbn; lia|]. left. split; [done|]. cbn. by rewrite lookup_insert_eq.
Qed.

(** C27: A log stream to a file writes a log.  For every program of appended messages and
    flushes on a new stream to a file that can be opened, flushing it at the end leaves
    the file with the formatted messages in order, at the times at which they were
    appended; when there are none, the file is not touched.  The console and all other
    files stay as they are, and destroying the stream frees what it had allocated. *)
Theorem file_stream_log file format w ops x :
  file <> "cout" -> file <> "cerr" -> can_open file = true -> ssize format < 2 ^ 60 -> bounded w ->
  logged (fixed_format format) (o_clock w) ops = Some x ->
  exists s w1 s2 w2 s3 w3 w4, Generic_name_format file format w = Some (s, w1) /\ stream_run s w1 ops = Some (s2, w2) /\
    Generic_flush s2 w2 = Some (s3, w3) /\ Generic_delete s3 w3 = Some w4 /\
    (forall f, o_files w4 !! f = if decide (f = file /\ x <> "") then Some x else o_files w !! f) /\
    o_cout w4 = o_cout w /\ o_cerr w4 = o_cerr w /\ o_objects w4 = o_objects w.
Proof.
  intros H1 H2 Hcan Hs Hw Hx. destruct (Generic_name_logging file format w H1 H2 Hs) as (s & w1 & Hnew & Hl & Hfmt & Hstr & Hw1).
  assert (o_clock w1 = o_clock w) as Hcl by (by rewrite Hw1). rewrite <- Hfmt, <- Hcl in Hx.
  destruct (run_logging ops s w1 file "" (o_files w) x Hcan Hl Hx) as (s2 & w2 & Hrun & Hl2 & Hfr2). cbn [String.append] in Hl2.
  destruct (flush_logging s2 w2 file x (o_files w) Hcan Hl2) as (s3 & w3 & Hfl & Hl3 & Hfr3 & _ & Hfile).
  pose proof (framed_trans _ _ _ _ _ _ _ Hfr2 Hfr3) as Hfr. destruct Hl3 as ((Ho & _ & k & Hk & Hkn & Hobj) & Hne & Hnf).
  assert (is_Some (o_objects w3 !! k)) as [obj Hobj'] by (destruct Hobj as [[_ ->]|(_ & c & pd & -> & _)]; by eexists).
  exists s, w1, s2, w2, s3, w3. unfold Generic_delete. rewrite Ho, Hk. cbn [delete_stream]. rewrite Hobj'. cbn [mbind option_bind].
  eexists. split_and!; [done|done|done|reflexivity| | | |].
  - intros f. pose proof (fr_files _ _ _ _ _ Hfr f) as Hf. rewrite Hw1 in Hf. cbn in Hf.
    destruct Hobj as [[Hop Hob]|(Hop & c & pd & Hob & Hc & ->)]; rewrite Hob in Hobj'; simplify_eq; cbn.
    + rewrite Hnf by done. destruct x as [|y x]; [by rewrite decide_False by naive_solver|].
      rewrite Hnf in Hfile by done. case_decide as Hd; [|done]. destruct Hd as [-> _]. by rewrite Hfile.
    + rewrite Hc in *. specialize (Hne Hop). cbn [default]. rewrite write_at_end.
      destruct (decide (f = file)) as [->|Hff]; [rewrite lookup_insert_eq, decide_True by done; done|].
      rewrite lookup_insert_ne, decide_False by naive_solver. by apply Hf.
  - pose proof (fr_cout _ _ _ _ _ Hfr). rewrite Hw1 in *. by destruct obj as [|?[]??].
  - pose proof (fr_cerr _ _ _ _ _ Hfr). rewrite Hw1 in *. by destruct obj as [|?[]??].
  - assert (forall w' : Output, o_objects w' !! k = Some obj -> o_objects (with_objects (sync w' k obj) (delete k (o_objects (sync w' k obj)))) = delete k (o_objects w')) as Hd.
    { intros w' _. cbn. destruct obj as [|?[]??]; cbn; [done| |done]. by rewrite delete_insert_eq. }
    rewrite Hd by done. assert (bounded w1) as Hb1.
    { rewrite Hw1. intros j Hj. cbn in *. rewrite lookup_insert_ne by lia. apply Hw. lia. }
    apply map_eq. intros j. destruct (decide (j = k)) as [->|Hjk].
    + rewrite lookup_delete_eq. symmetry. apply Hw. destruct (fr_stream _ _ _ _ _ Hfr k Hk) as [Hk'|Hk'].
      * rewrite Hstr in Hk'. simplify_eq. lia.
      * rewrite Hw1 in Hk'. cbn in Hk'. lia.
    + rewrite lookup_delete_ne by done. destruct (decide (j = o_next w)) as [->|Hj].
      * rewrite (fr_old _ _ _ _ _ Hfr Hb1) by (congruence || (rewrite Hw1; cbn; lia)). symmetry. apply Hw. lia.
      * rewrite (fr_objects _ _ _ _ _ Hfr Hb1) by congruence. rewrite Hw1. cbn. by rewrite lookup_insert_ne.
Qed.

End file_log.

(** ** Examples *)

Definition sample_platform : Platform :=
  {| asctime n := "Mon Jan  1 00:00:0" ++ to_string (Z.of_nat n) ++ " 2024" ++ nl; can_open f := negb (String.eqb f "/locked") |}.

#[local] Existing Instance sample_platform.

Definition no_output : Output := mkOutput "" "" ∅ ∅ 0 0.

Definition sample_pieces : list piece := [Lit "["; Key KLevel; Lit "]: "; Key KMessage; Lit " at "; Key KTimestamp].

Lemma sample_fillable n : 0 <= n < 2 ^ 60 -> fillable sample_pieces n.
Proof.
  intros Hn. constructor; [repeat first [apply Forall_nil_2|apply Forall_cons_2]; done| |].
  - apply (bool_decide_unpack _). by vm_compute.
  - assert (ssize (format_text sample_pieces) < 2 ^ 60) by by vm_compute. lia.
Qed.

Lemma format_message_witness :
  getFormatedMessage (format_text sample_pieces) (asctime 1) "INFO" "hello" "" "" "" "" (-1) =
    Some (filled (key_values (asctime 1) "INFO" "hello" "" "" "" "" (-1)) sample_pieces).
Proof.
  apply format_message; [apply sample_fillable; by vm_compute|intros []; by vm_compute|done].
Defined.

(** A key that occurs in the text of a message is replaced like one of the format. *)
Example message_with_key :
  getFormatedMessage "<MESSAGE> in <FILE>" "now" "INFO" "no <FILE> given" "" "" "" "a.cpp" 3 = Some "no a.cpp given in <FILE>".
Proof. by vm_compute. Qed.

Definition sample_ops : list stream_op :=
  [OpAppend 2 "one" "" "" (-1); OpFlush; OpAppend 1 "two" "" "" (-1); OpOutputLocal; OpAppend 0 "three" "" "" (-1)].

Lemma file_stream_log_witness :
  exists s w1 s2 w2 s3 w3 w4, Generic_name_format "log" "<LEVEL> <MESSAGE>\n" no_output = Some (s, w1) /\ stream_run s w1 sample_ops = Some (s2, w2) /\
    Generic_flush s2 w2 = Some (s3, w3) /\ Generic_delete s3 w3 = Some w4 /\
    (forall f, o_files w4 !! f = if decide (f = "log" /\ "INFO one" ++ nl ++ "WARNING two" ++ nl ++ "ERROR three" ++ nl <> "")
      then Some ("INFO one" ++ nl ++ "WARNING two" ++ nl ++ "ERROR three" ++ nl) else o_files no_output !! f) /\
    o_cout w4 = "" /\ o_cerr w4 = "" /\ o_objects w4 = ∅.
Proof.
  apply (file_stream_log "log" "<LEVEL> <MESSAGE>\n" no_output); [done|done|done|by vm_compute|intros k _; apply lookup_empty|by vm_compute].
Defined.

(** Messages that are not flushed when the stream is destroyed do not reach the file. *)
Example unflushed_is_lost :
  ('(s, w) ← Generic_name_format "log" "<MESSAGE>" no_output; '(s, w) ← Generic_append s Info "lost" "" "" (-1) w;
   w ← Generic_delete s w; Some (o_files w !! "log")) = Some None.
Proof. by vm_compute. Qed.

(** Two streams to one file overwrite each other. *)
Example two_streams_one_file :
  ('(s, w) ← Generic_name_format "log" "<MESSAGE>" no_output; '(t, w) ← Generic_name_format "log" "<MESSAGE>" w;
   '(s, w) ← Generic_append s Info "first" "" "" (-1) w; '(t, w) ← Generic_append t Info "second" "" "" (-1) w;
   '(s, w) ← Generic_flush s w; '(t, w) ← Generic_flush t w; Some (o_files w !! "log")) = Some (Some "second").
Proof. by vm_compute. Qed.

(** [append] reports a null stream, [flush] uses it. *)
Example null_stream :
  is_Some (Generic_append (Generic_os None) Info "x" "" "" (-1) no_output) /\ Generic_flush (Generic_os None) no_output = None.
Proof. split; [by eexists|done]. Qed.

End SlicStreams.
