(* ===== verification/SlicLogger.v ===== *)
(** * Loggers and the interface of SLIC

    [slic/core/Logger.cpp], [slic/interface/slic.cpp], the logging macros of
    [slic/interface/slic_macros.hpp] and [slic/core/SimpleLogger.hpp].  A logger sends
    messages to log streams, which it knows only by the virtual functions of [LogStream];
    these are the type class [LogStream]. *)

From S2P Require Import Prelude PathStrings StdStrings StringUtilities SlicStreams.
From Stdlib Require Import Ascii String.

Module SlicLogger.
Import PathStrings StdStrings StringUtilities SlicStreams.
Open Scope string_scope.
Open Scope Z_scope.

(** ** Ordered maps with strings as keys: [std::map] *)

Section smap.
Context {A : Type}.

Fixpoint smap_find (m : list (string * A)) (k : string) : option A :=
  match m with
  | [] => None
  | (k', x) :: m => if String.eqb k k' then Some x else smap_find m k
  end.

(** [m[k] = x]. *)
Fixpoint smap_insert (m : list (string * A)) (k : string) (x : A) : list (string * A) :=
  match m with
  | [] => [(k, x)]
  | (k', y) :: r =>
    match String.compare k k' with
    | Lt => (k, x) :: m
    | Eq => (k, x) :: r
    | Gt => (k', y) :: smap_insert r k x
    end
  end.

End smap.

(** ** Log streams

    [S] is a log stream, [W] the outside that it writes to; a result of [None] is
    undefined behaviour.  [default_stream] is [GenericOutputStream(&std::cout, format)]. *)

Class LogStream (S W : Type) := {
  ls_append : S -> Z -> string -> string -> string -> Z -> bool -> bool -> W -> option (S * W);
  ls_outputLocal : S -> W -> option (S * W);
  ls_flush : S -> W -> option (S * W);
  ls_push : S -> W -> option (S * W);
  ls_delete : S -> W -> option W;
  ls_cerr : string -> W -> W;
  default_stream : string -> S }.

(** [push] is not overridden by [GenericOutputStream]. *)
#[export] Instance Generic_LogStream `{!Platform} : LogStream GenericOutputStream Output := {
  ls_append s level message tagName fileName line _ _ w := Generic_append s level message tagName fileName line w;
  ls_outputLocal := Generic_outputLocal;
  ls_flush := Generic_flush;
  ls_push s w := Some (s, w);
  ls_delete := Generic_delete;
  ls_cerr := write_cerr;
  default_stream := Generic_os_format (Some Cout) }.

Section slic.
Context {S W : Type} `{!LogStream S W}.

(** ** State *)

(** The abort function: [processAbort], or a function of the user. *)
Inductive AbortFunction := ProcessAbort | UserAbort (id : Z).

Record Logger := mkLogger {
  m_name : string; m_abortOnError : bool; m_taggedStreams : list (string * list Z); m_abortOnWarning : bool;
  m_abortFunction : AbortFunction; m_isEnabled : list bool; m_streamObjectsManager : gset Z; m_logStreams : list (list Z) }.

(** The log streams and loggers on the heap, the singletons of [Logger.cpp] and the static
    variables of [slic.cpp]. *)
Record State := mkState {
  st_out : W; st_streams : gmap Z S; st_loggers : gmap Z Logger; st_next : Z;
  s_loggers : list (string * Z); s_Logger : option Z; s_is_root : bool; checksAreErrors : bool }.

(** A computation returns, ends the process, or is undefined. *)
Inductive result (A : Type) := Ret (s : State) (a : A) | Exit (s : State) | Undef.
#[global] Arguments Ret {_} _ _.
#[global] Arguments Exit {_} _.
#[global] Arguments Undef {_}.

Definition M (A : Type) : Type := State -> result A.

#[export] Instance M_ret : MRet M := fun A a s => Ret s a.
#[export] Instance M_bind : MBind M := fun A B f m s =>
  match m s with Ret s a => f a s | Exit s => Exit s | Undef => Undef end.

Definition ub {A} (o : option A) : M A := fun s => match o with Some a => Ret s a | None => Undef end.
Definition get : M State := fun s => Ret s s.
Definition put (s : State) : M unit := fun _ => Ret s tt.
Definition exit_process : M unit := fun s => Exit s.

Fixpoint for_each {A} (l : list A) (f : A -> M unit) : M unit :=
  match l with [] => mret tt | x :: l => f x;; for_each l f end.

Definition levels : list Z := [Error; Warning; Info; Debug].

(** [0, ..., n - 1]. *)
Definition upto (n : nat) : list Z := seqZ 0 (Z.of_nat n).

Definition with_out (s : State) o := mkState o (st_streams s) (st_loggers s) (st_next s) (s_loggers s) (s_Logger s) (s_is_root s) (checksAreErrors s).
Definition with_streams (s : State) m := mkState (st_out s) m (st_loggers s) (st_next s) (s_loggers s) (s_Logger s) (s_is_root s) (checksAreErrors s).
Definition with_loggers (s : State) m := mkState (st_out s) (st_streams s) m (st_next s) (s_loggers s) (s_Logger s) (s_is_root s) (checksAreErrors s).
Definition with_registry (s : State) m := mkState (st_out s) (st_streams s) (st_loggers s) (st_next s) m (s_Logger s) (s_is_root s) (checksAreErrors s).
Definition with_active (s : State) p := mkState (st_out s) (st_streams s) (st_loggers s) (st_next s) (s_loggers s) p (s_is_root s) (checksAreErrors s).
Definition with_root (s : State) b := mkState (st_out s) (st_streams s) (st_loggers s) (st_next s) (s_loggers s) (s_Logger s) b (checksAreErrors s).
Definition with_next (s : State) n := mkState (st_out s) (st_streams s) (st_loggers s) n (s_loggers s) (s_Logger s) (s_is_root s) (checksAreErrors s).

Definition cerr (text : string) : M unit := s ← get; put (with_out s (ls_cerr (text ++ nl) (st_out s))).

(** Dereferencing a logger and a log stream. *)
Definition logger (p : Z) : M Logger := s ← get; ub (st_loggers s !! p).
Definition set_logger (p : Z) (lg : Logger) : M unit := s ← get; put (with_loggers s (<[p := lg]> (st_loggers s))).

(** A virtual call on a log stream, which updates the stream and the outside. *)
Definition call_stream (k : Z) (f : S -> W -> option (S * W)) : M unit :=
  s ← get; ls ← ub (st_streams s !! k); '(ls, o) ← ub (f ls (st_out s));
  put (with_out (with_streams s (<[k := ls]> (st_streams s))) o).

Definition delete_logstream (k : Z) : M unit :=
  s ← get; ls ← ub (st_streams s !! k); o ← ub (ls_delete ls (st_out s));
  put (with_out (with_streams s (delete k (st_streams s))) o).

(** [new] of a log stream that is already constructed. *)
Definition new_stream (make : W -> option (S * W)) : M Z :=
  s ← get; '(ls, o) ← ub (make (st_out s));
  put (with_next (with_out (with_streams s (<[st_next s := ls]> (st_streams s))) o) (st_next s + 1));; mret (st_next s).

Definition with_tagged (lg : Logger) t := mkLogger (m_name lg) (m_abortOnError lg) t (m_abortOnWarning lg) (m_abortFunction lg) (m_isEnabled lg) (m_streamObjectsManager lg) (m_logStreams lg).
Definition with_levels (lg : Logger) l := mkLogger (m_name lg) (m_abortOnError lg) (m_taggedStreams lg) (m_abortOnWarning lg) (m_abortFunction lg) (m_isEnabled lg) (m_streamObjectsManager lg) l.
Definition with_managed (lg : Logger) g := mkLogger (m_name lg) (m_abortOnError lg) (m_taggedStreams lg) (m_abortOnWarning lg) (m_abortFunction lg) (m_isEnabled lg) g (m_logStreams lg).
Definition with_enabled (lg : Logger) e := mkLogger (m_name lg) (m_abortOnError lg) (m_taggedStreams lg) (m_abortOnWarning lg) (m_abortFunction lg) e (m_streamObjectsManager lg) (m_logStreams lg).
Definition with_abortOnError (lg : Logger) b := mkLogger (m_name lg) b (m_taggedStreams lg) (m_abortOnWarning lg) (m_abortFunction lg) (m_isEnabled lg) (m_streamObjectsManager lg) (m_logStreams lg).
Definition with_abortOnWarning (lg : Logger) b := mkLogger (m_name lg) (m_abortOnError lg) (m_taggedStreams lg) b (m_abortFunction lg) (m_isEnabled lg) (m_streamObjectsManager lg) (m_logStreams lg).
Definition with_abortFunction (lg : Logger) f := mkLogger (m_name lg) (m_abortOnError lg) (m_taggedStreams lg) (m_abortOnWarning lg) f (m_isEnabled lg) (m_streamObjectsManager lg) (m_logStreams lg).

(** ** Logger *)

Definition Logger_new (name : string) : Logger :=
  mkLogger name true [] false ProcessAbort [false; false; false; false] ∅ [[]; []; []; []].

(** The destructor deletes the streams that the logger owns; in which order is up to their
    addresses. *)
Definition Logger_delete (p : Z) : M unit :=
  lg ← logger p; for_each (elements (m_streamObjectsManager lg)) delete_logstream;;
  s ← get; put (with_loggers s (delete p (st_loggers s))).

Definition Logger_setAbortFunction (p : Z) (abort_func : option AbortFunction) : M unit :=
  match abort_func with
  | None => cerr "WARNING: slic::Logger::setAbortFunction() -- supplied abort function is invalid!"
  | Some f => lg ← logger p; set_logger p (with_abortFunction lg f)
  end.

(** The loop that finds the first disabled level. *)
Fixpoint first_disabled (enabled : list bool) : Z :=
  match enabled with true :: r => 1 + first_disabled r | _ => 0 end.

Definition clampVal (val lower upper : Z) : Z := if val <? lower then lower else if upper <? val then upper else val.

Definition Logger_getLoggingMsgLevel (p : Z) : M Z :=
  lg ← logger p; mret (clampVal (first_disabled (m_isEnabled lg) - 1) 0 (Num_Levels - 1)).

Definition Logger_setLoggingMsgLevel (p : Z) (level : Z) : M unit :=
  lg ← logger p; set_logger p (with_enabled lg ((fun i => i <=? level) <$> levels)).

Definition null_stream_warning : M unit := cerr "WARNING: supplied log stream is NULL!".

Definition take_ownership (p : Z) (ls : Z) : M unit :=
  lg ← logger p; set_logger p (with_managed lg ({[ls]} ∪ m_streamObjectsManager lg)).

Definition Logger_addStreamToMsgLevel (p : Z) (ls : option Z) (level : Z) (pass_ownership : bool) : M unit :=
  match ls with
  | None => null_stream_warning
  | Some ls =>
    lg ← logger p; l ← ub (m_logStreams lg).[level]; v ← ub (zupdate (m_logStreams lg) level (l ++ [ls])%list);
    set_logger p (with_levels lg v);;
    if pass_ownership then take_ownership p ls else mret tt
  end.

Definition Logger_addStreamToTag (p : Z) (ls : option Z) (tag : string) (pass_ownership : bool) : M unit :=
  match ls with
  | None => null_stream_warning
  | Some ls =>
    lg ← logger p;
    set_logger p (with_tagged lg (smap_insert (m_taggedStreams lg) tag
      match smap_find (m_taggedStreams lg) tag with None => [ls] | Some l => (l ++ [ls])%list end));;
    if pass_ownership then take_ownership p ls else mret tt
  end.

Definition Logger_addStreamToAllMsgLevels (p : Z) (ls : option Z) (pass_ownership : bool) : M unit :=
  match ls with
  | None => null_stream_warning
  | Some _ => for_each levels (fun level => Logger_addStreamToMsgLevel p ls level pass_ownership)
  end.

(** The loop over the tags assigns to existing keys, which does not change the keys. *)
Definition Logger_addStreamToAllTags (p : Z) (ls : option Z) (pass_ownership : bool) : M unit :=
  match ls with
  | None => null_stream_warning
  | Some k =>
    lg ← logger p;
    match m_taggedStreams lg with
    | [] => cerr "WARNING: no tags are available!";; if pass_ownership then take_ownership p k else mret tt
    | tags => for_each (fst <$> tags) (fun tag => Logger_addStreamToTag p ls tag pass_ownership)
    end
  end.

Definition Logger_getNumStreamsAtMsgLevel (p : Z) (level : Z) : M Z :=
  lg ← logger p; l ← ub (m_logStreams lg).[level]; mret (Z.of_nat (List.length l)).

Definition Logger_getNumStreamsWithTag (p : Z) (tag : string) : M Z :=
  lg ← logger p; mret (match smap_find (m_taggedStreams lg) tag with None => 0 | Some l => Z.of_nat (List.length l) end).

Definition Logger_getStream (p : Z) (level i : Z) : M (option Z) :=
  lg ← logger p; l ← ub (m_logStreams lg).[level];
  if (i <? 0) || (Z.of_nat (List.length l) <=? i) then cerr "ERROR: stream index is out-of-bounds!";; mret None
  else x ← ub l.[i]; mret (Some x).

Definition Logger_getStream_tag (p : Z) (tag : string) (i : Z) : M (option Z) :=
  lg ← logger p;
  match smap_find (m_taggedStreams lg) tag with
  | None => cerr "ERROR: tag does not exist!";; mret None
  | Some l =>
    if (i <? 0) || (Z.of_nat (List.length l) <=? i) then cerr "ERROR: stream index is out-of-bounds!";; mret None
    else x ← ub l.[i]; mret (Some x)
  end.

(** A call on each stream of a level, or of a tag; the vector is read in each turn. *)
Definition each_at_level (p : Z) (level : Z) (f : S -> W -> option (S * W)) : M unit :=
  lg ← logger p; l ← ub (m_logStreams lg).[level];
  for_each (upto (List.length l)) (fun i =>
    lg ← logger p; l ← ub (m_logStreams lg).[level]; k ← ub l.[i]; call_stream k f).

Definition each_with_tag (p : Z) (tag : string) (f : S -> W -> option (S * W)) : M unit :=
  lg ← logger p; l ← ub (smap_find (m_taggedStreams lg) tag);
  for_each (upto (List.length l)) (fun i =>
    lg ← logger p; l ← ub (smap_find (m_taggedStreams lg) tag); k ← ub l.[i]; call_stream k f).

Definition Logger_logMessage (p : Z) (level : Z) (message tagName fileName : string) (line : Z)
    (filter_duplicates tag_stream_only : bool) : M unit :=
  lg ← logger p; enabled ← ub (m_isEnabled lg).[level];
  if negb enabled && negb tag_stream_only then mret tt
  else if tag_stream_only && String.eqb tagName MSG_IGNORE_TAG then cerr "ERROR: message for tagged streams does not have a tag!"
  else if tag_stream_only && bool_decide (smap_find (m_taggedStreams lg) tagName = None) then cerr "ERROR: tag does not exist!"
  else
    let append ls := ls_append ls level message tagName fileName line filter_duplicates tag_stream_only in
    if negb tag_stream_only then each_at_level p level append else each_with_tag p tagName append.

(** The loops of [outputLocalMessages], [flushStreams] and [pushStreams]. *)
Definition each_stream (p : Z) (f : S -> W -> option (S * W)) : M unit :=
  for_each levels (fun level => each_at_level p level f);;
  lg ← logger p; for_each (fst <$> m_taggedStreams lg) (fun tag => each_with_tag p tag f).

Definition Logger_outputLocalMessages (p : Z) : M unit := each_stream p ls_outputLocal.
Definition Logger_flushStreams (p : Z) : M unit := each_stream p ls_flush.
Definition Logger_pushStreams (p : Z) : M unit := each_stream p ls_push.

(** *** Static functions *)

Definition Logger_getRootLogger : M (option Z) := s ← get; mret (smap_find (s_loggers s) "root").

Definition Logger_createLogger (name : string) (imask : Z) : M bool :=
  s ← get;
  if bool_decide (smap_find (s_loggers s) name <> None) then cerr ("ERROR: " ++ name ++ " logger is duplicated!");; mret false
  else
    let p := st_next s in
    put (with_next (with_registry (with_loggers s (<[p := Logger_new name]> (st_loggers s))) (smap_insert (s_loggers s) name p)) (p + 1));;
    if imask =? inherit_nothing then mret true
    else
      root ← Logger_getRootLogger;
      match root with
      | None => cerr "ERROR: no root logger found!";; mret false
      | Some root =>
        for_each levels (fun level =>
          nstreams ← Logger_getNumStreamsAtMsgLevel root level;
          if nstreams =? 0 then mret tt else
          mask ← ub masks.[level];
          if Z.land imask mask =? 0 then mret tt else
          for_each (seqZ 0 nstreams) (fun istream =>
            s ← get; q ← ub (smap_find (s_loggers s) name); ls ← Logger_getStream root level istream;
            Logger_addStreamToMsgLevel q ls level false));;
        mret true
      end.

Definition Logger_activateLogger (name : string) : M bool :=
  s ← get;
  match smap_find (s_loggers s) name with
  | Some p => put (with_active s (Some p));; mret true
  | None => mret false
  end.

Definition Logger_initialize : M unit :=
  _ ← Logger_createLogger "root" inherit_nothing; _ ← Logger_activateLogger "root"; mret tt.

Definition Logger_finalize : M unit :=
  s ← get; for_each (snd <$> s_loggers s) Logger_flushStreams;;
  s ← get; for_each (snd <$> s_loggers s) Logger_delete;;
  s ← get; put (with_active (with_registry s []) None).

End slic.

#[global] Arguments State : clear implicits.
#[global] Arguments result : clear implicits.
#[global] Arguments M : clear implicits.

(** ** The interface: [slic.cpp]

    What is outside the sources: the abort functions of the user, and the stack trace
    that an error message carries. *)

Class Environment (S W : Type) := { user_abort : Z -> M S W unit; stacktrace : string }.

Section api.
Context {S W : Type} `{!LogStream S W} `{!Environment S W}.
Local Notation M := (M S W).

Definition Logger_setAbortOnError (p : Z) (status : bool) : M unit := lg ← logger p; set_logger p (with_abortOnError lg status).
Definition Logger_setAbortOnWarning (p : Z) (status : bool) : M unit := lg ← logger p; set_logger p (with_abortOnWarning lg status).

Definition Logger_abort (p : Z) : M unit :=
  Logger_outputLocalMessages p;;
  lg ← logger p; match m_abortFunction lg with ProcessAbort => exit_process | UserAbort id => user_abort id end.

Definition getActiveLogger : M (option Z) := s ← get; mret (s_Logger s).

Definition isInitialized : M bool := p ← getActiveLogger; mret (bool_decide (p <> None)).

Definition initialize (is_root : bool) : M unit := s ← get; put (with_root s is_root);; Logger_initialize.

Definition isRoot : M bool := s ← get; mret (s_is_root s).
Definition setIsRoot (is_root : bool) : M unit := s ← get; put (with_root s is_root).

(** Most functions first make sure that there is an active logger and then call it. *)
Definition on_active {A} (ensure : M unit) (f : Z -> M A) : M A :=
  ensure;; p ← getActiveLogger; p ← ub p; f p.

Definition uninitialized_warning : string :=
  "slic::initialize() must be called before any other calls to SLIC" ++ nl ++
  ".The SLIC library called slic::initialize() for you and set up a minimal " ++
  "configuration" ++ nl ++ "to allow log messages to print." ++ nl ++
  "Please call slic::initialize() near the beginning of the code" ++ nl ++
  "to fix this error and get rid of this message." ++ nl ++
  "Please call slic::finalize() after all other calls to SLIC." ++ nl.

Definition minimal_format : string := "<TIMESTAMP>" ++ nl ++ "[<LEVEL>]: <MESSAGE> " ++ nl ++ "FILE=<FILE>" ++ nl ++ "LINE=<LINE>" ++ nl ++ nl.

(** The functions that are called here call [ensureInitialized] again, by [ensure]. *)
Definition ensure_with (ensure : M unit) : M unit :=
  b ← isInitialized;
  if (b : bool) then mret tt else
  initialize true;;
  on_active ensure (fun p => Logger_setAbortOnError p false);;
  on_active ensure (fun p => Logger_setAbortOnWarning p false);;
  on_active ensure (fun p => Logger_setLoggingMsgLevel p Debug);;
  k ← new_stream (fun w => Some (default_stream minimal_format, w));
  on_active ensure (fun p => Logger_addStreamToAllMsgLevels p (Some k) true);;
  on_active ensure (fun p => Logger_logMessage p Warning uninitialized_warning MSG_IGNORE_TAG MSG_IGNORE_FILE MSG_IGNORE_LINE false false).

(** [n] bounds the depth of the recursion. *)
Fixpoint ensure_initialized (n : nat) : M unit :=
  match n with O => ub None | Datatypes.S n => ensure_with (ensure_initialized n) end.

Definition ensureInitialized : M unit := ensure_initialized 2.

Definition createLogger (name : string) (imask : Z) : M unit := ensureInitialized;; _ ← Logger_createLogger name imask; mret tt.
Definition activateLogger (name : string) : M bool := ensureInitialized;; Logger_activateLogger name.
Definition getActiveLoggerName : M string := on_active ensureInitialized (fun p => lg ← logger p; mret (m_name lg)).
Definition getLoggingMsgLevel : M Z := on_active ensureInitialized Logger_getLoggingMsgLevel.
Definition abort : M unit := on_active ensureInitialized Logger_abort.
Definition setLoggingMsgLevel (level : Z) : M unit := on_active ensureInitialized (fun p => Logger_setLoggingMsgLevel p level).
Definition setAbortOnError (status : bool) : M unit := on_active ensureInitialized (fun p => Logger_setAbortOnError p status).
Definition enableAbortOnError : M unit := setAbortOnError true.
Definition disableAbortOnError : M unit := setAbortOnError false.
Definition isAbortOnErrorsEnabled : M bool := on_active ensureInitialized (fun p => lg ← logger p; mret (m_abortOnError lg)).
Definition setAbortOnWarning (status : bool) : M unit := on_active ensureInitialized (fun p => Logger_setAbortOnWarning p status).
Definition enableAbortOnWarning : M unit := setAbortOnWarning true.
Definition disableAbortOnWarning : M unit := setAbortOnWarning false.
Definition isAbortOnWarningsEnabled : M bool := on_active ensureInitialized (fun p => lg ← logger p; mret (m_abortOnWarning lg)).
Definition setAbortFunction (f : option AbortFunction) : M unit := on_active ensureInitialized (fun p => Logger_setAbortFunction p f).
Definition addStreamToMsgLevel (ls : option Z) (level : Z) : M unit :=
  on_active ensureInitialized (fun p => Logger_addStreamToMsgLevel p ls level true).
Definition addStreamToAllMsgLevels (ls : option Z) : M unit :=
  on_active ensureInitialized (fun p => Logger_addStreamToAllMsgLevels p ls true).
Definition addStreamToTag (ls : option Z) (tag : string) : M unit :=
  on_active ensureInitialized (fun p => Logger_addStreamToTag p ls tag true).
Definition addStreamToAllTags (ls : option Z) : M unit :=
  on_active ensureInitialized (fun p => Logger_addStreamToAllTags p ls true).
Definition getNumStreamsWithTag (tag : string) : M Z := on_active ensureInitialized (fun p => Logger_getNumStreamsWithTag p tag).

(** The four overloads of [logMessage]. *)
Definition logMessage (level : Z) (message tag fileName : string) (line : Z) (filter_duplicates tag_stream_only : bool) : M unit :=
  on_active ensureInitialized (fun p => Logger_logMessage p level message tag fileName line filter_duplicates tag_stream_only).
Definition logMessage_file (level : Z) (message fileName : string) (line : Z) (filter_duplicates : bool) : M unit :=
  logMessage level message MSG_IGNORE_TAG fileName line filter_duplicates false.
Definition logMessage_tag (level : Z) (message tag : string) (filter_duplicates tag_stream_only : bool) : M unit :=
  logMessage level message tag MSG_IGNORE_FILE MSG_IGNORE_LINE filter_duplicates tag_stream_only.
Definition logMessage_text (level : Z) (message : string) (filter_duplicates : bool) : M unit :=
  logMessage level message MSG_IGNORE_TAG MSG_IGNORE_FILE MSG_IGNORE_LINE filter_duplicates false.

Definition logErrorMessage (message fileName : string) (line : Z) : M unit :=
  logMessage_file Error (message ++ stacktrace) fileName line false.
Definition logWarningMessage (message fileName : string) (line : Z) : M unit :=
  logMessage_file Warning message fileName line false.

Definition outputLocalMessages : M unit := on_active ensureInitialized Logger_outputLocalMessages.
Definition flushStreams : M unit := on_active ensureInitialized Logger_flushStreams.
Definition pushStreams : M unit := on_active ensureInitialized Logger_pushStreams.
Definition finalize : M unit := Logger_finalize.

(** ** Macros

    [exp] is the condition, [exp_text] its text; [fileName] and [line] are where the macro
    is used.  [std::ends] puts a zero character at the end. *)

Definition SLIC_ERROR (msg fileName : string) (line : Z) : M unit :=
  logErrorMessage msg fileName line;;
  b ← isAbortOnErrorsEnabled; if (b : bool) then abort else mret tt.

Definition SLIC_ERROR_IF (exp : bool) (msg fileName : string) (line : Z) : M unit :=
  if exp then SLIC_ERROR msg fileName line else mret tt.

Definition SLIC_ERROR_ROOT (msg fileName : string) (line : Z) : M unit :=
  b ← isRoot; if (b : bool) then SLIC_ERROR msg fileName line else mret tt.

Definition SLIC_ERROR_ROOT_IF (exp : bool) (msg fileName : string) (line : Z) : M unit :=
  if exp then SLIC_ERROR_ROOT msg fileName line else mret tt.

Definition SLIC_WARNING (msg fileName : string) (line : Z) : M unit :=
  logWarningMessage msg fileName line;;
  b ← isAbortOnWarningsEnabled; if (b : bool) then abort else mret tt.

Definition SLIC_WARNING_IF (exp : bool) (msg fileName : string) (line : Z) : M unit :=
  if exp then SLIC_WARNING msg fileName line else mret tt.

Definition SLIC_WARNING_ROOT (msg fileName : string) (line : Z) : M unit :=
  b ← isRoot; if (b : bool) then SLIC_WARNING msg fileName line else mret tt.

Definition SLIC_WARNING_ROOT_IF (exp : bool) (msg fileName : string) (line : Z) : M unit :=
  if exp then SLIC_WARNING_ROOT msg fileName line else mret tt.

Definition ends : string := String Ascii.zero "".

(** The assertions and checks of debug builds. *)
Definition SLIC_ASSERT (exp : bool) (exp_text fileName : string) (line : Z) : M unit :=
  if negb exp then SLIC_ERROR ("Failed Assert: " ++ exp_text ++ ends) fileName line else mret tt.

Definition SLIC_ASSERT_MSG (exp : bool) (exp_text msg fileName : string) (line : Z) : M unit :=
  if negb exp then SLIC_ERROR ("Failed Assert: " ++ exp_text ++ nl ++ msg ++ ends) fileName line else mret tt.

Definition check_failed (msg fileName : string) (line : Z) : M unit :=
  s ← get; if checksAreErrors s then SLIC_ERROR msg fileName line else SLIC_WARNING msg fileName line.

Definition SLIC_CHECK (exp : bool) (exp_text fileName : string) (line : Z) : M unit :=
  if negb exp then check_failed ("Failed Check: " ++ exp_text ++ ends) fileName line else mret tt.

Definition SLIC_CHECK_MSG (exp : bool) (exp_text msg fileName : string) (line : Z) : M unit :=
  if negb exp then check_failed ("Failed Check: " ++ exp_text ++ nl ++ msg ++ ends) fileName line else mret tt.

Definition SLIC_INFO (msg fileName : string) (line : Z) : M unit := logMessage_file Info msg fileName line false.
Definition SLIC_INFO_TAGGED (msg tag fileName : string) (line : Z) : M unit := logMessage Info msg tag fileName line false true.
Definition SLIC_INFO_IF (exp : bool) (msg fileName : string) (line : Z) : M unit := if exp then SLIC_INFO msg fileName line else mret tt.
Definition SLIC_INFO_ROOT (msg fileName : string) (line : Z) : M unit :=
  b ← isRoot; if (b : bool) then SLIC_INFO msg fileName line else mret tt.
Definition SLIC_INFO_ROOT_IF (exp : bool) (msg fileName : string) (line : Z) : M unit :=
  if exp then SLIC_INFO_ROOT msg fileName line else mret tt.
Definition SLIC_DEBUG (msg fileName : string) (line : Z) : M unit := logMessage_file Debug msg fileName line false.
Definition SLIC_DEBUG_IF (exp : bool) (msg fileName : string) (line : Z) : M unit := if exp then SLIC_DEBUG msg fileName line else mret tt.
Definition SLIC_DEBUG_ROOT (msg fileName : string) (line : Z) : M unit :=
  b ← isRoot; if (b : bool) then SLIC_DEBUG msg fileName line else mret tt.
Definition SLIC_DEBUG_ROOT_IF (exp : bool) (msg fileName : string) (line : Z) : M unit :=
  if exp then SLIC_DEBUG_ROOT msg fileName line else mret tt.

(** ** SimpleLogger *)

Definition wef_format : string :=
  nl ++ "***********************************" ++ nl ++ "[<LEVEL> in line <LINE> of file <FILE>]" ++ nl ++
  "MESSAGE=<MESSAGE>" ++ nl ++ "***********************************" ++ nl.

Definition SimpleLogger_new (level : Z) : M unit :=
  initialize true;; setLoggingMsgLevel level;;
  wef ← new_stream (fun w => Some (default_stream wef_format, w));
  di ← new_stream (fun w => Some (default_stream ("[<LEVEL>] <MESSAGE> " ++ nl), w));
  addStreamToMsgLevel (Some wef) Error;; addStreamToMsgLevel (Some wef) Warning;;
  addStreamToMsgLevel (Some di) Info;; addStreamToMsgLevel (Some di) Debug.

Definition SimpleLogger_delete : M unit :=
  b ← isInitialized; if (b : bool) then flushStreams;; finalize else mret tt.

End api.

End SlicLogger.
