(* ===== verification/SlicTheorems.v ===== *)
(** * Theorems on loggers

    Programs that use the interface of SLIC never use a log stream or logger that is
    gone.  The theorems are proved for any log streams that satisfy [LogStreamLaws], and
    [GenericOutputStream] is shown to satisfy them. *)

From S2P Require Import Prelude PathStrings StdStrings StringUtilities SlicStreams SlicLogger.
From Stdlib Require Import Ascii String.

Module SlicTheorems.
Import PathStrings StdStrings StringUtilities SlicStreams SlicLogger.
Open Scope string_scope.
Open Scope Z_scope.

(** ** Ordered maps *)

Lemma string_compare_refl k : String.compare k k = Eq.
Proof. pose proof (String.compare_antisym k k) as H. by destruct (String.compare k k). Qed.

Section smap.
Context {A : Type}.
Implicit Types (m : list (string * A)).

Lemma smap_find_insert m k x k' : smap_find (smap_insert m k x) k' = if decide (k' = k) then Some x else smap_find m k'.
Proof.
  induction m as [|[j y] m IH]; cbn [smap_insert smap_find].
  - destruct (String.eqb_spec k' k) as [->|]; [by rewrite decide_True|by rewrite decide_False].
  - destruct (String.compare k j) eqn:Ec; cbn [smap_find].
    + apply String.compare_eq_iff in Ec as ->. destruct (String.eqb_spec k' j); [by rewrite decide_True|by rewrite decide_False].
    + destruct (String.eqb_spec k' k) as [->|]; [by rewrite decide_True|by rewrite decide_False].
    + rewrite IH. destruct (String.eqb_spec k' j) as [->|]; [|done]. rewrite decide_False; [done|].
      intros ->. by rewrite string_compare_refl in Ec.
Qed.

Lemma smap_find_None m k : smap_find m k = None <-> k ∉ m.*1.
Proof.
  induction m as [|[j y] m IH]; cbn; [split; [intros _; apply not_elem_of_nil|done]|].
  rewrite not_elem_of_cons. destruct (String.eqb_spec k j); naive_solver.
Qed.

Lemma smap_find_Some m k x : smap_find m k = Some x -> (k, x) ∈ m.
Proof.
  induction m as [|[j y] m IH]; cbn; [done|]. destruct (String.eqb_spec k j) as [->|]; [intros [= <-]; by left|]. intros. right. auto.
Qed.

Lemma smap_insert_fresh m k x : smap_find m k = None -> smap_insert m k x ≡ₚ (k, x) :: m.
Proof.
  induction m as [|[j y] m IH]; cbn; [done|]. destruct (String.eqb_spec k j) as [|Hne]; [done|]. intros Hm.
  destruct (String.compare k j) eqn:Ec; [by apply String.compare_eq_iff in Ec|done|]. rewrite IH by done. apply perm_swap.
Qed.

Lemma smap_insert_Forall (P : string * A -> Prop) m k x : Forall P m -> P (k, x) -> Forall P (smap_insert m k x).
Proof.
  intros Hm Hx. induction Hm as [|[j y] m Hj Hm IH]; cbn; [by repeat constructor|].
  destruct (String.compare k j); repeat constructor; auto.
Qed.

End smap.

(** ** What log streams promise *)

Class LogStreamLaws (S W : Type) `{!LogStream S W} := {
  (** All log streams together with the outside. *)
  streams_ok : gmap Z S -> W -> Prop;
  law_append m w k ls level message tag file line fd only : streams_ok m w -> m !! k = Some ls ->
    exists ls' w', ls_append ls level message tag file line fd only w = Some (ls', w') /\ streams_ok (<[k := ls']> m) w';
  law_outputLocal m w k ls : streams_ok m w -> m !! k = Some ls ->
    exists ls' w', ls_outputLocal ls w = Some (ls', w') /\ streams_ok (<[k := ls']> m) w';
  law_flush m w k ls : streams_ok m w -> m !! k = Some ls ->
    exists ls' w', ls_flush ls w = Some (ls', w') /\ streams_ok (<[k := ls']> m) w';
  law_push m w k ls : streams_ok m w -> m !! k = Some ls ->
    exists ls' w', ls_push ls w = Some (ls', w') /\ streams_ok (<[k := ls']> m) w';
  law_delete m w k ls : streams_ok m w -> m !! k = Some ls ->
    exists w', ls_delete ls w = Some w' /\ streams_ok (delete k m) w';
  law_cerr m w text : streams_ok m w -> streams_ok m (ls_cerr text w);
  law_default m w k format : streams_ok m w -> m !! k = None -> streams_ok (<[k := default_stream format]> m) w }.

Section safety.
Context {S W : Type} `{!LogStream S W} `{!LogStreamLaws S W}.
Local Notation State := (State S W).
Local Notation M := (M S W).
Implicit Types (s : State) (lg : Logger).

(** ** Weakest preconditions *)

Definition wp {A} (m : M A) (Q : A -> State -> Prop) (X : State -> Prop) (s : State) : Prop :=
  match m s with Ret s' a => Q a s' | Exit s' => X s' | Undef => False end.

Lemma wp_bind {A B} (m : M A) (f : A -> M B) Q X s : wp m (fun a => wp (f a) Q X) X s -> wp (mbind f m) Q X s.
Proof. unfold wp, mbind, M_bind. by destruct (m s). Qed.

Lemma wp_ret {A} (a : A) Q X s : Q a s -> wp (mret a) Q X s.
Proof. done. Qed.

Lemma wp_ub {A} (o : option A) a Q X s : o = Some a -> Q a s -> wp (ub o) Q X s.
Proof. by intros ->. Qed.

Lemma wp_mono {A} (m : M A) (Q Q' : A -> State -> Prop) (X X' : State -> Prop) s : wp m Q X s ->
  (forall a s', Q a s' -> Q' a s') -> (forall s', X s' -> X' s') -> wp m Q' X' s.
Proof. unfold wp. destruct (m s); auto. Qed.

Lemma wp_for_each {A} (I : State -> Prop) (l : list A) (f : A -> M unit) X s :
  (forall x s, x ∈ l -> I s -> wp (f x) (fun _ => I) X s) -> I s -> wp (for_each l f) (fun _ => I) X s.
Proof.
  revert s. induction l as [|x l IH]; intros s Hf Hs; [done|]. cbn [for_each]. apply wp_bind.
  eapply wp_mono; [apply Hf; [by left|done]| |done]. cbv beta. intros [] s' Hs'. apply IH; [|done]. intros y s1 Hy. apply Hf. by right.
Qed.

(** ** The invariant *)

Definition live (s : State) (k : Z) : Prop := is_Some (st_streams s !! k).

(** The streams a logger knows are there. *)
Record logger_ok (alive : Z -> Prop) (lg : Logger) : Prop := {
  lo_enabled : List.length (m_isEnabled lg) = 4%nat;
  lo_levels : List.length (m_logStreams lg) = 4%nat;
  lo_streams : Forall (Forall alive) (m_logStreams lg);
  lo_tagged : Forall (fun p => Forall alive p.2) (m_taggedStreams lg);
  lo_managed : set_Forall alive (m_streamObjectsManager lg) }.

Record slic_ok (s : State) : Prop := {
  ok_streams : streams_ok (st_streams s) (st_out s);
  ok_next : forall k, st_next s <= k -> st_streams s !! k = None /\ st_loggers s !! k = None;
  ok_names : NoDup (s_loggers s).*1;
  ok_pointers : NoDup (s_loggers s).*2;
  ok_registered : forall p, p ∈ (s_loggers s).*2 <-> is_Some (st_loggers s !! p);
  ok_active : match s_Logger s with None => True | Some p => p ∈ (s_loggers s).*2 end;
  ok_loggers : forall p lg, st_loggers s !! p = Some lg -> logger_ok (live s) lg;
  ok_owners : forall p q lg lg', st_loggers s !! p = Some lg -> st_loggers s !! q = Some lg' -> p <> q ->
    m_streamObjectsManager lg ## m_streamObjectsManager lg' }.

Lemma logger_ok_mono (P Q : Z -> Prop) lg : (forall k, P k -> Q k) -> logger_ok P lg -> logger_ok Q lg.
Proof.
  intros HPQ [H1 H2 H3 H4 H5]. constructor; [done|done|..].
  - eapply Forall_impl; [exact H3|]. intros l Hl. by eapply Forall_impl.
  - eapply Forall_impl; [exact H4|]. intros [t l] Hl. by eapply Forall_impl.
  - intros k Hk. by apply HPQ, H5.
Qed.

(** States that differ only in the contents of streams and of the outside. *)
Record same (s s' : State) : Prop := {
  sm_loggers : st_loggers s' = st_loggers s;
  sm_registry : s_loggers s' = s_loggers s;
  sm_active : s_Logger s' = s_Logger s;
  sm_next : st_next s' = st_next s;
  sm_root : s_is_root s' = s_is_root s;
  sm_live : forall k, live s' k <-> live s k }.

Lemma same_refl s : same s s.
Proof. by constructor. Qed.

Lemma same_trans s1 s2 s3 : same s1 s2 -> same s2 s3 -> same s1 s3.
Proof. intros [] []. constructor; try congruence. intros k. by rewrite sm_live1. Qed.

Lemma same_ok s s' : same s s' -> streams_ok (st_streams s') (st_out s') -> slic_ok s -> slic_ok s'.
Proof.
  intros [H1 H2 H3 H4 _ H5] Hok []. constructor; rewrite ?H1, ?H2, ?H3, ?H4; try done.
  - intros k Hk. destruct (ok_next0 k Hk) as [Hs Hl]. split; [|done]. apply eq_None_not_Some.
    intros Hl'%H5. unfold live in Hl'. rewrite Hs in Hl'. by destruct Hl'.
  - intros p lg Hp. eapply logger_ok_mono; [|by eapply ok_loggers0]. intros k. apply H5.
Qed.

(** A virtual function that keeps the streams in order. *)
Definition stream_fn_ok (f : S -> W -> option (S * W)) : Prop :=
  forall m w k ls, streams_ok m w -> m !! k = Some ls -> exists ls' w', f ls w = Some (ls', w') /\ streams_ok (<[k := ls']> m) w'.

Lemma call_stream_ok k f s X : slic_ok s -> live s k -> stream_fn_ok f ->
  wp (call_stream k f) (fun _ s' => slic_ok s' /\ same s s') X s.
Proof.
  intros Hs [ls Hk] Hf. unfold call_stream. apply wp_bind. unfold get, wp at 1. apply wp_bind. eapply wp_ub; [done|].
  destruct (Hf _ _ _ _ (ok_streams _ Hs) Hk) as (ls' & w' & HF & Hok). apply wp_bind. eapply wp_ub; [done|]. cbn.
  unfold wp, put. assert (same s (with_out (with_streams s (<[k:=ls']> (st_streams s))) w')) as Hsame.
  { constructor; try done. intros j. unfold live. cbn. rewrite lookup_insert_is_Some. unfold live.
    destruct (decide (k = j)) as [->|]; [|naive_solver]. split; [by eexists|by left]. }
  split; [|done]. by apply (same_ok s).
Qed.

Lemma cerr_ok text s X : slic_ok s -> wp (cerr text) (fun _ s' => slic_ok s' /\ same s s') X s.
Proof.
  intros Hs. unfold cerr. apply wp_bind. unfold get, wp at 1. unfold wp, put.
  assert (same s (with_out s (ls_cerr (text ++ nl) (st_out s)))) as Hsame by (by constructor).
  split; [|done]. apply (same_ok s); [done| |done]. cbn. by apply law_cerr, Hs.
Qed.

Lemma logger_wp p lg (Q : Logger -> State -> Prop) X s : st_loggers s !! p = Some lg -> Q lg s -> wp (logger p) Q X s.
Proof. intros Hp HQ. unfold logger. apply wp_bind. unfold get, wp at 1. by eapply wp_ub. Qed.

(** ** Loops over the streams of a logger *)

Lemma stream_at (lg : Logger) alive level l i : logger_ok alive lg -> (m_logStreams lg).[level] = Some l -> i ∈ upto (List.length l) ->
  exists k, l.[i] = Some k /\ alive k.
Proof.
  intros Hlg Hl Hi. apply elem_of_seqZ in Hi. destruct (zlookup_lt l i ltac:(lia)) as [k Hk]. exists k. split; [done|].
  eapply zlookup_Forall; [|done]. by eapply (zlookup_Forall _ _ _ _ (lo_streams _ _ Hlg)).
Qed.

Lemma each_at_level_ok p level f lg s X : slic_ok s -> st_loggers s !! p = Some lg -> 0 <= level < 4 -> stream_fn_ok f ->
  wp (each_at_level p level f) (fun _ s' => slic_ok s' /\ same s s') X s.
Proof.
  intros Hs Hp Hlev Hf. pose proof (ok_loggers _ Hs _ _ Hp) as Hlg.
  destruct (zlookup_lt (m_logStreams lg) level) as [l Hl]; [rewrite (lo_levels _ _ Hlg); lia|].
  unfold each_at_level. apply wp_bind. eapply logger_wp; [done|]. apply wp_bind. eapply wp_ub; [done|].
  apply wp_for_each; [|split; [done|apply same_refl]]. intros i s1 Hi [Hs1 Hsame]. apply wp_bind.
  eapply logger_wp; [by rewrite (sm_loggers _ _ Hsame)|]. apply wp_bind. eapply wp_ub; [done|].
  destruct (stream_at lg _ level l i Hlg Hl Hi) as (k & Hk & Hlive). apply wp_bind. eapply wp_ub; [done|].
  eapply wp_mono; [apply call_stream_ok; [done|by apply Hsame|done]| |done]. intros [] s2 [??]. split; [done|by eapply same_trans].
Qed.

Lemma each_with_tag_ok p tag f lg l s X : slic_ok s -> st_loggers s !! p = Some lg -> smap_find (m_taggedStreams lg) tag = Some l ->
  stream_fn_ok f -> wp (each_with_tag p tag f) (fun _ s' => slic_ok s' /\ same s s') X s.
Proof.
  intros Hs Hp Hl Hf. pose proof (ok_loggers _ Hs _ _ Hp) as Hlg.
  unfold each_with_tag. apply wp_bind. eapply logger_wp; [done|]. apply wp_bind. eapply wp_ub; [done|].
  apply wp_for_each; [|split; [done|apply same_refl]]. intros i s1 Hi [Hs1 Hsame]. apply wp_bind.
  eapply logger_wp; [by rewrite (sm_loggers _ _ Hsame)|]. apply wp_bind. eapply wp_ub; [done|].
  apply elem_of_seqZ in Hi. destruct (zlookup_lt l i ltac:(lia)) as [k Hk]. apply wp_bind. eapply wp_ub; [done|].
  eapply wp_mono; [apply call_stream_ok; [done| |done]| |done].
  - apply Hsame. apply (zlookup_Forall (live s) l i k); [|done].
    pose proof (lo_tagged _ _ Hlg) as Ht. rewrite Forall_forall in Ht. apply (Ht (tag, l)). by apply smap_find_Some.
  - intros [] s2 [??]. split; [done|by eapply same_trans].
Qed.

Lemma level_range level : level ∈ levels -> 0 <= level < 4.
Proof. unfold levels, Error, Warning, Info, Debug. rewrite !elem_of_cons, elem_of_nil. lia. Qed.

Lemma each_stream_ok p f lg s X : slic_ok s -> st_loggers s !! p = Some lg -> stream_fn_ok f ->
  wp (each_stream p f) (fun _ s' => slic_ok s' /\ same s s') X s.
Proof.
  intros Hs Hp Hf. unfold each_stream. apply wp_bind. eapply wp_mono with (Q := fun _ s' => slic_ok s' /\ same s s'); [| |exact (fun _ H => H)].
  - apply wp_for_each; [|split; [done|apply same_refl]]. intros level s1 Hlev%level_range [Hs1 Hsame].
    eapply wp_mono; [eapply each_at_level_ok; [done|by rewrite (sm_loggers _ _ Hsame)|done|done]| |done].
    intros [] s2 [??]. split; [done|by eapply same_trans].
  - intros [] s1 [Hs1 Hsame]. apply wp_bind. eapply logger_wp; [by rewrite (sm_loggers _ _ Hsame)|].
    apply wp_for_each; [|done]. intros tag s2 Htag [Hs2 Hsame2].
    destruct (smap_find (m_taggedStreams lg) tag) as [l|] eqn:El; [|by apply smap_find_None in El].
    eapply wp_mono; [eapply each_with_tag_ok; [done|by rewrite (sm_loggers _ _ Hsame2)|done|done]| |done].
    intros [] s3 [??]. split; [done|by eapply same_trans].
Qed.

Lemma logMessage_ok p level message tag file line fd only lg s X : slic_ok s -> st_loggers s !! p = Some lg -> 0 <= level < 4 ->
  wp (Logger_logMessage p level message tag file line fd only) (fun _ s' => slic_ok s' /\ same s s') X s.
Proof.
  intros Hs Hp Hlev. pose proof (ok_loggers _ Hs _ _ Hp) as Hlg.
  destruct (zlookup_lt (m_isEnabled lg) level) as [e He]; [rewrite (lo_enabled _ _ Hlg); lia|].
  assert (stream_fn_ok (fun ls => ls_append ls level message tag file line fd only)) as Hf by (intros m w k ls; apply law_append).
  unfold Logger_logMessage. apply wp_bind. eapply logger_wp; [done|]. apply wp_bind. eapply wp_ub; [done|].
  destruct only; rewrite ?andb_false_r, ?andb_true_r; cbn [negb andb].
  - destruct (String.eqb tag MSG_IGNORE_TAG); [by apply cerr_ok|]. case_bool_decide as Ht; [by apply cerr_ok|].
    destruct (smap_find (m_taggedStreams lg) tag) as [l|] eqn:El; [|done]. by eapply each_with_tag_ok.
  - destruct e; cbn [negb]; [by eapply each_at_level_ok|]. apply wp_ret. split; [done|apply same_refl].
Qed.

(** ** Operations that change a logger *)

(** No logger but [p] owns the stream. *)
Definition free_for (s : State) (p k : Z) : Prop :=
  forall q lg, q <> p -> st_loggers s !! q = Some lg -> k ∉ m_streamObjectsManager lg.

(** States that differ also in the logger [p]. *)
Record changed (p : Z) (s s' : State) : Prop := {
  ch_others : forall q, q <> p -> st_loggers s' !! q = st_loggers s !! q;
  ch_this : is_Some (st_loggers s' !! p);
  ch_registry : s_loggers s' = s_loggers s;
  ch_active : s_Logger s' = s_Logger s;
  ch_next : st_next s' = st_next s;
  ch_live : forall k, live s' k <-> live s k }.

Lemma changed_refl p s lg : st_loggers s !! p = Some lg -> changed p s s.
Proof. intros Hp. constructor; try done. Qed.

Lemma changed_trans p s1 s2 s3 : changed p s1 s2 -> changed p s2 s3 -> changed p s1 s3.
Proof.
  intros [A1 A2 A3 A4 A5 A6] [B1 B2 B3 B4 B5 B6]. constructor; try congruence; try done.
  - intros q Hq. by rewrite B1, A1.
  - intros k. by rewrite B6.
Qed.

Lemma same_changed p s s' : is_Some (st_loggers s !! p) -> same s s' -> changed p s s'.
Proof. intros Hp []. constructor; try congruence; try done. Qed.

Lemma changed_free p s s' k : changed p s s' -> free_for s p k -> free_for s' p k.
Proof. intros Hc Hf q lg Hq Hl. rewrite (ch_others _ _ _ Hc) in Hl by done. by apply (Hf q). Qed.

Lemma set_logger_ok p lg lg' s X : slic_ok s -> st_loggers s !! p = Some lg -> logger_ok (live s) lg' ->
  (forall k, k ∈ m_streamObjectsManager lg' -> free_for s p k) ->
  wp (set_logger p lg') (fun _ s' => slic_ok s' /\ changed p s s' /\ st_loggers s' !! p = Some lg') X s.
Proof.
  intros [] Hp Hlg Hfree. unfold set_logger. apply wp_bind. unfold get, wp at 1, put, wp. cbn. split_and!.
  - constructor; cbn; try done.
    + intros k Hk. destruct (ok_next0 k Hk) as [H1 H2]. split; [done|]. rewrite lookup_insert_ne; [done|congruence].
    + intros q. rewrite ok_registered0, lookup_insert_is_Some. destruct (decide (p = q)) as [->|]; [|naive_solver].
      split; [by left|by eexists].
    + intros q lgq. rewrite lookup_insert_Some. intros [[-> <-]|[Hne Hq]]; [done|]. by eapply ok_loggers0.
    + intros q r lgq lgr. rewrite !lookup_insert_Some. intros [[<- <-]|[Hq1 Hq2]] [[<- <-]|[Hr1 Hr2]] Hne; [done|..].
      * intros k Hk1 Hk2. by apply (Hfree k Hk1 r lgr).
      * intros k Hk1 Hk2. by apply (Hfree k Hk2 q lgq).
      * by eapply ok_owners0.
  - constructor; cbn; try done. intros q Hq. by rewrite lookup_insert_ne. by rewrite lookup_insert_eq.
  - by rewrite lookup_insert_eq.
Qed.

Lemma owned_free s p lg k : slic_ok s -> st_loggers s !! p = Some lg -> k ∈ m_streamObjectsManager lg -> free_for s p k.
Proof. intros Hs Hp Hk q lgq Hne Hq Hkq. by apply (ok_owners _ Hs q p lgq lg Hq Hp Hne k). Qed.

(** A setter that leaves the streams of the logger alone. *)
Lemma setter_ok p (f : Logger -> Logger) s lg X : slic_ok s -> st_loggers s !! p = Some lg ->
  (forall alive, logger_ok alive lg -> logger_ok alive (f lg)) -> m_streamObjectsManager (f lg) = m_streamObjectsManager lg ->
  wp (lg ← logger p; set_logger p (f lg)) (fun _ s' => slic_ok s' /\ changed p s s') X s.
Proof.
  intros Hs Hp Hf Hm. apply wp_bind. eapply logger_wp; [done|]. eapply wp_mono; [eapply set_logger_ok; [done|done| |]| |done].
  - by apply Hf, (ok_loggers _ Hs p).
  - intros k. rewrite Hm. by apply owned_free.
  - intros [] s' (?&?&?). done.
Qed.

Lemma take_ownership_ok p k lg s X : slic_ok s -> st_loggers s !! p = Some lg -> live s k -> free_for s p k ->
  wp (take_ownership p k) (fun _ s' => slic_ok s' /\ changed p s s') X s.
Proof.
  intros Hs Hp Hk Hfree. unfold take_ownership. apply wp_bind. eapply logger_wp; [done|].
  eapply wp_mono; [eapply set_logger_ok; [done|done| |]| |done].
  - destruct (ok_loggers _ Hs p lg Hp). constructor; try done. cbn. intros j Hj. apply elem_of_union in Hj as [->%elem_of_singleton|Hj]; [done|auto].
  - cbn. intros j Hj. apply elem_of_union in Hj as [->%elem_of_singleton|Hj]; [done|]. by eapply owned_free.
  - intros [] s' (?&?&?). done.
Qed.

Definition may_pass (own : bool) (s : State) (p k : Z) : Prop := if own then free_for s p k else True.

Lemma pass_ok own p k s X : slic_ok s -> is_Some (st_loggers s !! p) -> live s k -> may_pass own s p k ->
  wp (if own then take_ownership p k else mret tt) (fun _ s' => slic_ok s' /\ changed p s s') X s.
Proof.
  intros Hs [lg Hp] Hk Hpass. destruct own; [by eapply take_ownership_ok|]. apply wp_ret. split; [done|by eapply changed_refl].
Qed.

Lemma may_pass_changed own p s s' k : changed p s s' -> may_pass own s p k -> may_pass own s' p k.
Proof. destruct own; [apply changed_free|done]. Qed.

(** The two steps of adding a stream: update the logger, then take ownership. *)
Lemma add_ok p k lg lg' own s X : slic_ok s -> st_loggers s !! p = Some lg -> live s k -> may_pass own s p k ->
  logger_ok (live s) lg' -> m_streamObjectsManager lg' = m_streamObjectsManager lg ->
  wp (set_logger p lg';; if own then take_ownership p k else mret tt) (fun _ s' => slic_ok s' /\ changed p s s') X s.
Proof.
  intros Hs Hp Hk Hpass Hlg Hm. apply wp_bind. eapply wp_mono; [eapply set_logger_ok; [done|done|done|]| |exact (fun _ H => H)].
  - intros j. rewrite Hm. by apply owned_free.
  - intros [] s1 (Hs1 & Hc & Hp1). eapply wp_mono; [apply pass_ok; [done|by eexists|by apply Hc|by eapply may_pass_changed]| |done].
    intros [] s2 [??]. split; [done|by eapply changed_trans].
Qed.

Lemma addStreamToMsgLevel_ok p k level own lg s X : slic_ok s -> st_loggers s !! p = Some lg -> live s k -> may_pass own s p k -> 0 <= level < 4 ->
  wp (Logger_addStreamToMsgLevel p (Some k) level own) (fun _ s' => slic_ok s' /\ changed p s s') X s.
Proof.
  intros Hs Hp Hk Hpass Hlev. pose proof (ok_loggers _ Hs _ _ Hp) as Hlg. pose proof (lo_levels _ _ Hlg) as Hlen.
  destruct (zlookup_lt (m_logStreams lg) level) as [l Hl]; [lia|].
  cbn [Logger_addStreamToMsgLevel]. apply wp_bind. eapply logger_wp; [done|]. apply wp_bind. eapply wp_ub; [done|].
  apply wp_bind. eapply wp_ub; [apply zupdate_lt; lia|]. eapply add_ok; [done|done|done|done| |done].
  destruct Hlg. constructor; cbn; try done; [by rewrite length_insert|]. apply Forall_insert; [done|].
  apply Forall_app. split; [by eapply zlookup_Forall|by repeat constructor].
Qed.

Lemma addStreamToTag_ok p k tag own lg s X : slic_ok s -> st_loggers s !! p = Some lg -> live s k -> may_pass own s p k ->
  wp (Logger_addStreamToTag p (Some k) tag own) (fun _ s' => slic_ok s' /\ changed p s s') X s.
Proof.
  intros Hs Hp Hk Hpass. pose proof (ok_loggers _ Hs _ _ Hp) as Hlg.
  cbn [Logger_addStreamToTag]. apply wp_bind. eapply logger_wp; [done|]. eapply add_ok; [done|done|done|done| |done].
  destruct Hlg. constructor; cbn; try done. apply smap_insert_Forall; [done|]. cbn.
  destruct (smap_find (m_taggedStreams lg) tag) as [l|] eqn:El; [|by repeat constructor].
  apply Forall_app. split; [|by repeat constructor]. rewrite Forall_forall in lo_tagged0. by apply (lo_tagged0 (tag, l)), smap_find_Some.
Qed.

(** Adding to each of several places. *)
Lemma add_each_ok {A} p k own (places : list A) (add : A -> M unit) s X : slic_ok s -> is_Some (st_loggers s !! p) -> live s k -> may_pass own s p k ->
  (forall x s1 lg, x ∈ places -> slic_ok s1 -> st_loggers s1 !! p = Some lg -> live s1 k -> may_pass own s1 p k ->
    wp (add x) (fun _ s' => slic_ok s' /\ changed p s1 s') X s1) ->
  wp (for_each places add) (fun _ s' => slic_ok s' /\ changed p s s') X s.
Proof.
  intros Hs [lg Hp] Hk Hpass Hadd. apply wp_for_each; [|split; [done|by eapply changed_refl]]. intros x s1 Hx [Hs1 Hc].
  destruct (ch_this _ _ _ Hc) as [lg1 Hp1]. eapply wp_mono; [eapply Hadd; [done|done|done|by apply Hc|by eapply may_pass_changed]| |done].
  intros [] s2 [??]. split; [done|by eapply changed_trans].
Qed.

Lemma addStreamToAllMsgLevels_ok p k own lg s X : slic_ok s -> st_loggers s !! p = Some lg -> live s k -> may_pass own s p k ->
  wp (Logger_addStreamToAllMsgLevels p (Some k) own) (fun _ s' => slic_ok s' /\ changed p s s') X s.
Proof.
  intros Hs Hp Hk Hpass. apply (add_each_ok p k own); [done|by eexists|done|done|].
  intros level s1 lg1 Hlev%level_range ????. by eapply addStreamToMsgLevel_ok.
Qed.

Lemma addStreamToAllTags_ok p k own lg s X : slic_ok s -> st_loggers s !! p = Some lg -> live s k -> may_pass own s p k ->
  wp (Logger_addStreamToAllTags p (Some k) own) (fun _ s' => slic_ok s' /\ changed p s s') X s.
Proof.
  intros Hs Hp Hk Hpass. cbn [Logger_addStreamToAllTags]. apply wp_bind. eapply logger_wp; [done|].
  destruct (m_taggedStreams lg) as [|t tags] eqn:Et.
  - apply wp_bind. eapply wp_mono; [by apply cerr_ok| |exact (fun _ H => H)]. intros [] s1 [Hs1 Hsame].
    assert (changed p s s1) as Hc by (apply same_changed; [by eexists|done]).
    eapply wp_mono; [apply pass_ok; [done|by apply Hc|by apply Hc|by eapply may_pass_changed]| |done].
    intros [] s2 [??]. split; [done|by eapply changed_trans].
  - apply (add_each_ok p k own); [done|by eexists|done|done|]. intros tag s1 lg1 Htag ????. by eapply addStreamToTag_ok.
Qed.

(** ** Creating and activating loggers *)

Lemma Logger_new_ok alive name : logger_ok alive (Logger_new name).
Proof. constructor; [done|done|by repeat constructor|by constructor|]. apply set_Forall_empty. Qed.

Lemma getStream_ok r level i lg s X : slic_ok s -> st_loggers s !! r = Some lg -> 0 <= level < 4 ->
  wp (Logger_getStream r level i) (fun o s' => slic_ok s' /\ same s s' /\ match o with Some k => live s' k | None => True end) X s.
Proof.
  intros Hs Hr Hlev. pose proof (ok_loggers _ Hs _ _ Hr) as Hlg. destruct (zlookup_lt (m_logStreams lg) level) as [l Hl]; [rewrite (lo_levels _ _ Hlg); lia|].
  unfold Logger_getStream. apply wp_bind. eapply logger_wp; [done|]. apply wp_bind. eapply wp_ub; [done|].
  destruct ((i <? 0) || (Z.of_nat (List.length l) <=? i)) eqn:Ei.
  - apply wp_bind. eapply wp_mono; [by apply cerr_ok| |exact (fun _ H => H)]. intros [] s1 [??]. apply wp_ret. done.
  - apply orb_false_iff in Ei as [?%Z.ltb_ge ?%Z.leb_gt]. destruct (zlookup_lt l i ltac:(lia)) as [k Hk].
    apply wp_bind. eapply wp_ub; [done|]. apply wp_ret. split_and!; [done|apply same_refl|].
    eapply zlookup_Forall; [|done]. by eapply (zlookup_Forall _ _ _ _ (lo_streams _ _ Hlg)).
Qed.

(** What creating a logger leaves alone. *)
Record grown (s s' : State) : Prop := {
  gr_active : s_Logger s' = s_Logger s;
  gr_live : forall k, live s' k <-> live s k;
  gr_loggers : forall q lg, st_loggers s' !! q = Some lg -> st_loggers s !! q = Some lg \/ m_streamObjectsManager lg = ∅;
  gr_kept : forall q lg, st_loggers s !! q = Some lg -> st_loggers s' !! q = Some lg }.

Definition created (s : State) (name : string) : State :=
  with_next (with_registry (with_loggers s (<[st_next s := Logger_new name]> (st_loggers s))) (smap_insert (s_loggers s) name (st_next s))) (st_next s + 1).

Lemma created_ok s name : slic_ok s -> smap_find (s_loggers s) name = None -> slic_ok (created s name).
Proof.
  intros [] Hn. destruct (ok_next0 (st_next s)) as [Hfs Hfl]; [lia|].
  pose proof (smap_insert_fresh (s_loggers s) name (st_next s) Hn) as Hperm.
  constructor; cbn; try done.
  - intros k Hk. destruct (ok_next0 k) as [H1 H2]; [lia|]. split; [done|]. rewrite lookup_insert_ne by lia. done.
  - rewrite (fmap_Permutation fst _ _ Hperm). cbn. apply NoDup_cons. split; [by apply smap_find_None|done].
  - rewrite (fmap_Permutation snd _ _ Hperm). cbn. apply NoDup_cons. split; [|done]. rewrite ok_registered0, Hfl. by intros [].
  - intros p. rewrite (fmap_Permutation snd _ _ Hperm). cbn. rewrite elem_of_cons, ok_registered0, lookup_insert_is_Some.
    destruct (decide (p = st_next s)) as [->|]; [split; by left|]. naive_solver.
  - destruct (s_Logger s); [|done]. rewrite (fmap_Permutation snd _ _ Hperm). cbn. by right.
  - intros p lg. rewrite lookup_insert_Some. intros [[<- <-]|[Hne Hp]]; [apply Logger_new_ok|]. by eapply ok_loggers0.
  - intros p q lg lg'. rewrite !lookup_insert_Some. intros [[<- <-]|[Hp1 Hp2]] [[<- <-]|[Hq1 Hq2]] Hne; [done| | |by eapply ok_owners0];
      cbn; set_solver.
Qed.

Lemma created_grown s name : slic_ok s -> grown s (created s name).
Proof.
  intros Hs. destruct (ok_next _ Hs (st_next s)) as [Hfs Hfl]; [lia|]. constructor; cbn; try done.
  - intros q lg. rewrite lookup_insert_Some. intros [[<- <-]|[Hne Hp]]; [by right|by left].
  - intros q lg Hq. rewrite lookup_insert_ne; [done|congruence].
Qed.

(** Adding without ownership does not change what a logger owns. *)
Lemma add_level_managed p k level s X : slic_ok s -> is_Some (st_loggers s !! p) -> live s k -> 0 <= level < 4 ->
  wp (Logger_addStreamToMsgLevel p (Some k) level false) (fun _ s' => slic_ok s' /\ changed p s s' /\
    forall lg lg', st_loggers s !! p = Some lg -> st_loggers s' !! p = Some lg' -> m_streamObjectsManager lg' = m_streamObjectsManager lg) X s.
Proof.
  intros Hs [lg Hp] Hk Hlev. pose proof (ok_loggers _ Hs _ _ Hp) as Hlg. pose proof (lo_levels _ _ Hlg) as Hlen.
  destruct (zlookup_lt (m_logStreams lg) level) as [l Hl]; [lia|].
  cbn [Logger_addStreamToMsgLevel]. apply wp_bind. eapply logger_wp; [done|]. apply wp_bind. eapply wp_ub; [done|].
  apply wp_bind. eapply wp_ub; [apply zupdate_lt; lia|]. apply wp_bind.
  eapply wp_mono; [eapply set_logger_ok; [done|done| |]| |exact (fun _ H => H)].
  - destruct Hlg. constructor; cbn; try done; [by rewrite length_insert|]. apply Forall_insert; [done|].
    apply Forall_app. split; [by eapply zlookup_Forall|by repeat constructor].
  - cbn. intros j. by apply owned_free.
  - intros [] s1 (Hs1 & Hc & Hp1). apply wp_ret. split_and!; [done..|]. intros lg0 lg1 Hp0 Hp2. simplify_eq. done.
Qed.

(** The states during inheritance: the new logger [p] owns nothing. *)
Definition inheriting (p : Z) (s s' : State) : Prop :=
  slic_ok s' /\ changed p s s' /\ forall lg, st_loggers s' !! p = Some lg -> m_streamObjectsManager lg = ∅.

Lemma createLogger_ok name imask s X : slic_ok s ->
  wp (Logger_createLogger name imask) (fun _ s' => slic_ok s' /\ grown s s' /\ smap_find (s_loggers s') name <> None) X s.
Proof.
  intros Hs. unfold Logger_createLogger. apply wp_bind. unfold get, wp at 1. case_bool_decide as Hfind.
  { apply wp_bind. eapply wp_mono; [by apply cerr_ok| |exact (fun _ H => H)]. intros [] s1 [Hs1 Hsame]. apply wp_ret.
    split_and!; [done| |by rewrite (sm_registry _ _ Hsame)]. destruct Hsame. constructor; try done; rewrite sm_loggers0; auto. }
  assert (smap_find (s_loggers s) name = None) as Hn by (destruct (smap_find _ _); [by destruct Hfind|done]).
  apply wp_bind. unfold put, wp at 1. fold (created s name).
  pose proof (created_ok s name Hs Hn) as Hs1. pose proof (created_grown s name Hs) as Hg.
  assert (smap_find (s_loggers (created s name)) name = Some (st_next s)) as Hf1 by (cbn; rewrite smap_find_insert; by rewrite decide_True).
  assert (st_loggers (created s name) !! st_next s = Some (Logger_new name)) as Hp1 by (cbn; apply lookup_insert_eq).
  set (s1 := created s name) in *. set (p := st_next s) in *.
  destruct (imask =? inherit_nothing); [apply wp_ret; by rewrite Hf1|]. apply wp_bind. unfold Logger_getRootLogger.
  apply wp_bind. unfold get, wp at 1. apply wp_ret. destruct (smap_find (s_loggers s1) "root") as [r|] eqn:Er.
  2:{ apply wp_bind. eapply wp_mono; [by apply cerr_ok| |exact (fun _ H => H)]. intros [] s2 [Hs2 Hsame]. apply wp_ret.
      split_and!; [done| |by rewrite (sm_registry _ _ Hsame), Hf1]. destruct Hsame, Hg. constructor; try congruence.
      - intros k. by rewrite sm_live0.
      - rewrite sm_loggers0. done.
      - rewrite sm_loggers0. done. }
  assert (is_Some (st_loggers s1 !! r)) as Hr.
  { apply (ok_registered _ Hs1). apply smap_find_Some in Er. by apply (list_elem_of_fmap_2 snd) in Er. }
  apply wp_bind. eapply wp_mono with (Q := fun _ => inheriting p s1); [| |exact (fun _ H => H)].
  - apply wp_for_each; [|split_and!; [done|by eapply changed_refl|by intros lg ?; simplify_eq]].
    intros level s2 Hlev%level_range (Hs2 & Hc & Hm).
    assert (forall s3, changed p s1 s3 -> is_Some (st_loggers s3 !! r)) as Hroot.
    { intros s3 Hc3. destruct (decide (r = p)) as [->|Hne]; [apply Hc3|]. by rewrite (ch_others _ _ _ Hc3). }
    destruct (Hroot s2 Hc) as [lgr Hlr]. unfold Logger_getNumStreamsAtMsgLevel. apply wp_bind. apply wp_bind. eapply logger_wp; [done|].
    pose proof (ok_loggers _ Hs2 _ _ Hlr) as Hlgr. destruct (zlookup_lt (m_logStreams lgr) level) as [l Hl]; [rewrite (lo_levels _ _ Hlgr); lia|].
    apply wp_bind. eapply wp_ub; [done|]. apply wp_ret. case_zbool; [by apply wp_ret|]. destruct (zlookup_lt masks level) as [mask Hmask]; [cbn; lia|].
    apply wp_bind. eapply wp_ub; [done|]. case_zbool; [by apply wp_ret|].
    apply wp_for_each; [|done]. intros i s3 _ (Hs3 & Hc3 & Hm3). apply wp_bind. unfold get, wp at 1. apply wp_bind.
    eapply wp_ub; [by rewrite (ch_registry _ _ _ Hc3)|]. apply wp_bind. destruct (Hroot s3 Hc3) as [lg3 Hl3].
    eapply wp_mono; [eapply getStream_ok; [done|done|done]| |exact (fun _ H => H)]. intros o s4 (Hs4 & Hsame & Ho).
    pose proof (changed_trans _ _ _ _ Hc3 (same_changed p _ _ (ch_this _ _ _ Hc3) Hsame)) as Hc4.
    assert (forall lg, st_loggers s4 !! p = Some lg -> m_streamObjectsManager lg = ∅) as Hm4 by (by rewrite (sm_loggers _ _ Hsame)).
    destruct o as [k|].
    + eapply wp_mono; [apply add_level_managed; [done|by apply Hc4|done|done]| |done]. intros [] s5 (Hs5 & Hc5 & Hm5).
      split_and!; [done|by eapply changed_trans|]. intros lg Hlg. destruct (ch_this _ _ _ Hc4) as [lg4 Hlg4].
      by rewrite (Hm5 _ _ Hlg4 Hlg), (Hm4 _ Hlg4).
    + cbn [Logger_addStreamToMsgLevel]. eapply wp_mono; [by apply cerr_ok| |done]. intros [] s5 [Hs5 Hsame5].
      split_and!; [done| |by rewrite (sm_loggers _ _ Hsame5)]. eapply changed_trans; [done|]. apply same_changed; [by apply Hc4|done].
  - intros [] s2 (Hs2 & Hc & Hm). apply wp_ret. split_and!; [done| |by rewrite (ch_registry _ _ _ Hc), Hf1].
    destruct Hg. constructor.
    + by rewrite (ch_active _ _ _ Hc).
    + intros k. by rewrite (ch_live _ _ _ Hc).
    + intros q lg Hq. destruct (decide (q = p)) as [->|Hne]; [right; by apply Hm|]. rewrite (ch_others _ _ _ Hc) in Hq by done. auto.
    + intros q lg Hq. rewrite (ch_others _ _ _ Hc); [auto|]. intros ->.
      by destruct (ok_next _ Hs p) as [_ Hno]; [unfold p; lia|]; rewrite Hno in Hq.
Qed.

Lemma activateLogger_ok name s X : slic_ok s ->
  wp (Logger_activateLogger name) (fun b s' => slic_ok s' /\ (if b then with_active s (smap_find (s_loggers s) name) else s) = s' /\
    b = bool_decide (smap_find (s_loggers s) name <> None)) X s.
Proof.
  intros Hs. unfold Logger_activateLogger. apply wp_bind. unfold get, wp at 1.
  destruct (smap_find (s_loggers s) name) as [p|] eqn:Ep.
  - apply wp_bind. unfold put, wp at 1. apply wp_ret. split_and!; [|done|done].
    destruct Hs. constructor; cbn; try done. apply smap_find_Some in Ep. by apply (list_elem_of_fmap_2 snd) in Ep.
  - apply wp_ret. done.
Qed.

(** A stream that the active logger may take: no other logger owns it. *)
Definition addable (s : State) (k : Z) : Prop :=
  live s k /\ forall p lg, st_loggers s !! p = Some lg -> k ∈ m_streamObjectsManager lg -> s_Logger s = Some p.

Lemma with_root_ok s b : slic_ok s -> slic_ok (with_root s b).
Proof. by intros []. Qed.

Lemma slic_initialize_ok b s X : slic_ok s ->
  wp (initialize b) (fun _ s' => slic_ok s' /\ s_Logger s' <> None /\
    (s_Logger s = None -> forall k, addable s k -> addable s' k) /\ (forall k, live s' k <-> live s k)) X s.
Proof.
  intros Hs. unfold initialize. apply wp_bind. unfold get, wp at 1. apply wp_bind. unfold put, wp at 1.
  pose proof (with_root_ok s b Hs) as Hs0. unfold Logger_initialize. apply wp_bind.
  eapply wp_mono; [by apply createLogger_ok| |exact (fun _ H => H)]. intros _ s1 (Hs1 & Hg & Hroot). apply wp_bind.
  eapply wp_mono; [by apply activateLogger_ok| |exact (fun _ H => H)]. intros c s2 (Hs2 & Hact & ->). rewrite bool_decide_eq_true_2 in Hact by done.
  apply wp_ret. subst s2. split_and!; [done|done| |].
  - intros Hno k [Hk Hown]. split; [by apply (gr_live _ _ Hg)|]. cbn. intros p lg Hp Hk'.
    destruct (gr_loggers _ _ Hg p lg Hp) as [Hp'|Hempty]; [|rewrite Hempty in Hk'; set_solver].
    specialize (Hown p lg Hp' Hk'). congruence.
  - intros k. apply (gr_live _ _ Hg).
Qed.

(** ** Finalizing *)

(** The states while loggers are deleted: those in [l] are left. *)
Record tearing (l : list Z) (s : State) : Prop := {
  td_streams : streams_ok (st_streams s) (st_out s);
  td_left : forall p, p ∈ l <-> is_Some (st_loggers s !! p);
  td_next : forall k, st_next s <= k -> st_streams s !! k = None /\ st_loggers s !! k = None;
  td_managed : forall p lg, st_loggers s !! p = Some lg -> set_Forall (live s) (m_streamObjectsManager lg);
  td_owners : forall p q lg lg', st_loggers s !! p = Some lg -> st_loggers s !! q = Some lg' -> p <> q ->
    m_streamObjectsManager lg ## m_streamObjectsManager lg' }.

Definition owned (s : State) (k : Z) : Prop := exists p lg, st_loggers s !! p = Some lg /\ k ∈ m_streamObjectsManager lg.

(** Deleting the streams of a list, which are there and different. *)
Lemma delete_streams_ok ks s X : streams_ok (st_streams s) (st_out s) -> NoDup ks -> Forall (live s) ks ->
  wp (for_each ks delete_logstream) (fun _ s' => streams_ok (st_streams s') (st_out s') /\
    s' = with_out (with_streams s (st_streams s')) (st_out s') /\ forall k, st_streams s' !! k = if decide (k ∈ ks) then None else st_streams s !! k) X s.
Proof.
  revert s. induction ks as [|k ks IH]; intros s Hok Hnd Hlive.
  { apply wp_ret. split_and!; [done|by destruct s|]. intros k. rewrite decide_False; [done|apply not_elem_of_nil]. }
  apply NoDup_cons in Hnd as [Hk Hnd]. apply Forall_cons in Hlive as [[ls Hls] Hlive].
  cbn [for_each]. apply wp_bind. unfold delete_logstream at 1. apply wp_bind. unfold get, wp at 1. apply wp_bind. eapply wp_ub; [done|].
  destruct (law_delete _ _ _ _ Hok Hls) as (w' & Hdel & Hok'). apply wp_bind. eapply wp_ub; [done|]. unfold put, wp at 1.
  eapply wp_mono; [apply IH; [done|done|]| |done].
  - apply Forall_forall. intros j Hj. rewrite Forall_forall in Hlive. unfold live. cbn. rewrite lookup_delete_ne by (intros ->; done). by apply Hlive.
  - intros [] s' (Hs' & Heq & Hl). split_and!; [done|by rewrite Heq|]. intros j. rewrite Hl. cbn.
    destruct (decide (j ∈ ks)) as [Hj|Hj]; [by rewrite decide_True by (by right)|]. destruct (decide (j = k)) as [->|Hne].
    + rewrite lookup_delete_eq. by rewrite decide_True by (by left).
    + rewrite lookup_delete_ne by done. rewrite decide_False; [done|]. by apply not_elem_of_cons.
Qed.

Lemma Logger_delete_ok p l s X : tearing (p :: l) s -> NoDup (p :: l) ->
  wp (Logger_delete p) (fun _ s' => tearing l s' /\ s_loggers s' = s_loggers s /\
    (forall k, live s' k \/ owned s' k -> live s k) /\
    forall k, owned s k \/ ~ live s k <-> owned s' k \/ ~ live s' k) X s.
Proof.
  intros Ht [Hp Hnd]%NoDup_cons. destruct (proj1 (td_left _ _ Ht p) ltac:(by left)) as [lg Hlg].
  unfold Logger_delete. apply wp_bind. eapply logger_wp; [done|]. apply wp_bind.
  eapply wp_mono; [apply delete_streams_ok; [apply Ht|apply NoDup_elements|]| |exact (fun _ H => H)].
  { apply Forall_forall. intros k Hk%elem_of_elements. by apply (td_managed _ _ Ht p lg). }
  intros [] s1 (Hok & Heq & Hlook). apply wp_bind. unfold get, wp at 1, put, wp.
  assert (st_loggers s1 = st_loggers s) as Hl1 by (by rewrite Heq).
  assert (st_next s1 = st_next s) as Hn1 by (by rewrite Heq).
  assert (forall k, live s1 k <-> live s k /\ k ∉ m_streamObjectsManager lg) as Hlive.
  { intros k. unfold live. rewrite Hlook. case_decide as Hk; rewrite elem_of_elements in Hk; [|naive_solver]. split; [by intros []|naive_solver]. }
  split_and!.
  - constructor; cbn; rewrite ?Hl1, ?Hn1; try done.
    + intros q. rewrite lookup_delete_is_Some, <- (td_left _ _ Ht), elem_of_cons. naive_solver.
    + intros k Hk. destruct (td_next _ _ Ht k Hk) as [H1 H2]. split; [|by rewrite lookup_delete_None; right].
      rewrite Hlook. by case_decide.
    + intros q lgq. rewrite lookup_delete_Some. intros [Hne Hq] k Hk. apply Hlive. split; [by apply (td_managed _ _ Ht q lgq)|].
      intros Hk'. by apply (td_owners _ _ Ht p q lg lgq Hlg Hq Hne k).
    + intros q r lgq lgr. rewrite !lookup_delete_Some. intros [_ Hq] [_ Hr]. by apply (td_owners _ _ Ht).
  - by rewrite Heq.
  - intros k [Hk|(q & lgq & Hq & Hk)]; [by apply Hlive in Hk as []|]. cbn in Hq. rewrite Hl1 in Hq.
    apply lookup_delete_Some in Hq as [_ Hq]. by apply (td_managed _ _ Ht q lgq).
  - intros k. unfold owned. cbn. rewrite Hl1. change (live (with_loggers s1 (delete p (st_loggers s))) k) with (live s1 k).
    rewrite Hlive. setoid_rewrite lookup_delete_Some. split.
    + intros [(q & lgq & Hq & Hk)|Hk]; [|by right; naive_solver]. destruct (decide (q = p)) as [->|Hne]; [simplify_eq; right; naive_solver|].
      left. by exists q, lgq.
    + intros [(q & lgq & [_ Hq] & Hk)|Hk]; [left; by exists q, lgq|]. destruct (decide (k ∈ m_streamObjectsManager lg)) as [Hin|]; [left; by exists p, lg|]. right. naive_solver.
Qed.

Lemma delete_loggers_ok l s X : tearing l s -> NoDup l ->
  wp (for_each l Logger_delete) (fun _ s' => tearing [] s' /\ s_loggers s' = s_loggers s /\ forall k, live s' k <-> live s k /\ ~ owned s k) X s.
Proof.
  revert s. induction l as [|p l IH]; intros s Ht Hnd.
  - apply wp_ret. split_and!; [done..|]. intros k. split; [|by intros []]. intros Hk. split; [done|]. intros (q & lg & Hq & _).
    assert (q ∈ []) as Hin by (apply (td_left _ _ Ht); by eexists). by apply elem_of_nil in Hin.
  - cbn [for_each]. apply wp_bind. eapply wp_mono; [by eapply Logger_delete_ok| |exact (fun _ H => H)].
    intros [] s1 (Ht1 & Hreg & Hlive & Hown). apply NoDup_cons in Hnd as [_ Hnd]. eapply wp_mono; [by apply IH| |done].
    intros [] s2 (Ht2 & Hreg2 & Hlive2). split_and!; [done|congruence|]. intros k. rewrite Hlive2. specialize (Hown k). specialize (Hlive k).
    unfold live in *. destruct (decide (is_Some (st_streams s1 !! k))), (decide (is_Some (st_streams s !! k))); naive_solver.
Qed.

(** [finalize] flushes and deletes everything: afterwards there is no logger, and exactly
    the streams that no logger owned are left. *)
Lemma finalize_ok s X : slic_ok s ->
  wp Logger_finalize (fun _ s' => slic_ok s' /\ st_loggers s' = ∅ /\ s_loggers s' = [] /\ s_Logger s' = None /\
    forall k, live s' k <-> live s k /\ ~ owned s k) X s.
Proof.
  intros Hs. unfold Logger_finalize. apply wp_bind. unfold get, wp at 1. apply wp_bind.
  eapply wp_mono with (Q := fun _ s' => slic_ok s' /\ same s s'); [| |exact (fun _ H => H)].
  { apply wp_for_each; [|split; [done|apply same_refl]]. intros p s1 Hp [Hs1 Hsame].
    rewrite <- (sm_registry _ _ Hsame) in Hp. apply (ok_registered _ Hs1) in Hp as [lg Hlg].
    eapply wp_mono; [eapply each_stream_ok; [done|done|]| |done]; [intros m w k ls; apply law_flush|].
    intros [] s2 [??]. split; [done|by eapply same_trans]. }
  intros [] s1 [Hs1 Hsame]. apply wp_bind. unfold get, wp at 1. apply wp_bind.
  eapply wp_mono; [apply delete_loggers_ok; [|apply Hs1]| |exact (fun _ H => H)].
  { destruct Hs1. constructor; try done. intros p lg Hp. by apply (ok_loggers0 p). }
  intros [] s2 (Ht & Hreg & Hlive). apply wp_bind. unfold get, wp at 1, put, wp.
  assert (st_loggers s2 = ∅) as Hempty.
  { apply map_empty. intros p. apply eq_None_not_Some. intros Hp%(td_left _ _ Ht). by apply elem_of_nil in Hp. }
  split_and!; cbn; [|done|done|done|].
  - destruct Ht. constructor; cbn; rewrite ?Hempty; try done; try apply NoDup_nil_2.
    + intros k Hk. split; [by apply td_next0|apply lookup_empty].
    + intros p. rewrite elem_of_nil, lookup_empty. split; [done|by intros []].
  - intros k. rewrite (Hlive k). rewrite (sm_live _ _ Hsame). unfold owned. by rewrite (sm_loggers _ _ Hsame).
Qed.

(** ** What finalizing does to the log streams

    The log streams and the outside change by a sequence of virtual calls. *)

Definition contents (s : State) : gmap Z S * W := (st_streams s, st_out s).

Definition flush_call (k : Z) (c : gmap Z S * W) : option (gmap Z S * W) :=
  ls ← c.1 !! k; '(ls, w) ← ls_flush ls c.2; Some (<[k := ls]> c.1, w).

Definition delete_call (k : Z) (c : gmap Z S * W) : option (gmap Z S * W) :=
  ls ← c.1 !! k; w ← ls_delete ls c.2; Some (delete k c.1, w).

Fixpoint steps (step : Z -> gmap Z S * W -> option (gmap Z S * W)) (ks : list Z) (c : gmap Z S * W) : option (gmap Z S * W) :=
  match ks with [] => Some c | k :: ks => step k c ≫= steps step ks end.

(** The streams that a logger sends to: those of its levels, then those of its tags. *)
Definition logger_streams lg : list Z :=
  mjoin (m_logStreams lg) ++ ((m_taggedStreams lg).*1 ≫= fun tag => default [] (smap_find (m_taggedStreams lg) tag)).

Definition of_loggers (f : Logger -> list Z) (s : State) (ps : list Z) : list Z :=
  ps ≫= fun p => default [] (f <$> st_loggers s !! p).

(** What the registered loggers send to, and what they own. *)
Definition attached (s : State) : list Z := of_loggers logger_streams s (s_loggers s).*2.
Definition managed (s : State) : list Z := of_loggers (fun lg => elements (m_streamObjectsManager lg)) s (s_loggers s).*2.

Lemma steps_app step ks1 ks2 c : steps step (ks1 ++ ks2) c = steps step ks1 c ≫= steps step ks2.
Proof. revert c. induction ks1 as [|k ks1 IH]; intros c; cbn; [done|]. destruct (step k c); cbn; auto. Qed.

(** [m] makes the steps for [ks] and leaves the loggers alone. *)
Definition makes step (ks : list Z) (m : M unit) (s : State) : Prop :=
  forall s', m s = Ret s' tt -> steps step ks (contents s) = Some (contents s') /\ st_loggers s' = st_loggers s /\ s_loggers s' = s_loggers s.

Lemma makes_bind step ks1 ks2 (m1 m2 : M unit) s : makes step ks1 m1 s ->
  (forall s1, st_loggers s1 = st_loggers s -> s_loggers s1 = s_loggers s -> makes step ks2 m2 s1) -> makes step (ks1 ++ ks2) (m1;; m2) s.
Proof.
  intros H1 H2 s' Hr. unfold mbind, M_bind in Hr. destruct (m1 s) as [s1 []|s1|] eqn:E1; [|done..].
  destruct (H1 s1 E1) as (Hs1 & Hl1 & Hr1). destruct (H2 s1 Hl1 Hr1 s' Hr) as (Hs2 & Hl2 & Hr2).
  rewrite steps_app, Hs1. cbn. split_and!; [done|congruence..].
Qed.

Lemma makes_for_each {A} step (g : A -> M unit) (ks : A -> list Z) (l : list A) s :
  (forall x s1, x ∈ l -> st_loggers s1 = st_loggers s -> s_loggers s1 = s_loggers s -> makes step (ks x) (g x) s1) ->
  makes step (l ≫= ks) (for_each l g) s.
Proof.
  revert s. induction l as [|x l IH]; intros s Hg; [by intros s' [= <-]|]. cbn [for_each mbind list_bind].
  apply makes_bind; [apply Hg; [by left|done..]|]. intros s1 Hl Hr. apply IH. intros y s2 Hy Hl2 Hr2. apply Hg; [by right|congruence..].
Qed.

Lemma makes_flush k s : makes flush_call [k] (call_stream k ls_flush) s.
Proof.
  intros s'. unfold call_stream, mbind, M_bind, get, ub, put. cbn. unfold flush_call. cbn.
  destruct (st_streams s !! k) as [ls|]; [|done]. cbn. destruct (ls_flush ls (st_out s)) as [[ls' w]|]; [|done]. cbn. by intros [= <-].
Qed.

Lemma makes_delete k s : makes delete_call [k] (delete_logstream k) s.
Proof.
  intros s'. unfold delete_logstream, mbind, M_bind, get, ub, put. cbn. unfold delete_call. cbn.
  destruct (st_streams s !! k) as [ls|]; [|done]. cbn. destruct (ls_delete ls (st_out s)) as [w|]; [|done]. cbn. by intros [= <-].
Qed.

(** A loop over the positions of a list makes the steps for its elements. *)
Lemma makes_upto step (g : Z -> M unit) l s :
  (forall i k s1, l.[i] = Some k -> st_loggers s1 = st_loggers s -> s_loggers s1 = s_loggers s -> makes step [k] (g i) s1) ->
  makes step l (for_each (upto (List.length l)) g) s.
Proof.
  intros Hg. assert (l = upto (List.length l) ≫= fun i => option_list l.[i]) as Hl.
  { clear Hg. unfold upto. induction l as [|k l IH] using rev_ind; [done|].
    rewrite length_app, Nat.add_1_r, seqZ_S, bind_app. cbn. rewrite app_nil_r.
    rewrite IH at 1. f_equal.
    - apply Forall_bind_ext, Forall_forall. intros i Hi%elem_of_seqZ. by rewrite zlookup_app, decide_True by lia.
    - by rewrite zlookup_app, decide_False, Z.sub_diag by lia. }
  rewrite Hl at 1. apply makes_for_each. intros i s1 Hi%elem_of_seqZ Hs1 Hr1. destruct (zlookup_lt l i) as [k Hk]; [lia|]. rewrite Hk. cbn. by apply Hg.
Qed.

Lemma bind_ret {A B} (m : M A) (g : A -> M B) s s' b : mbind g m s = Ret s' b -> exists s1 a, m s = Ret s1 a /\ g a s1 = Ret s' b.
Proof. unfold mbind, M_bind. destruct (m s) as [s1 a| |]; [|done..]. by exists s1, a. Qed.

Lemma ub_ret {A} (o : option A) s s' a : ub o s = Ret s' a -> s' = s /\ o = Some a.
Proof. unfold ub. destruct o; [|done]. by intros [= -> ->]. Qed.

Lemma logger_ret p s s' lg : logger p s = Ret s' lg -> s' = s /\ st_loggers s !! p = Some lg.
Proof. unfold logger. intros (s1 & s2 & [= <- <-] & [-> ?]%ub_ret)%bind_ret. done. Qed.

Lemma makes_level p lg level l s : st_loggers s !! p = Some lg -> (m_logStreams lg).[level] = Some l ->
  makes flush_call l (each_at_level p level ls_flush) s.
Proof.
  intros Hp Hl s' (s0 & lg0 & [-> Hlg]%logger_ret & (s1 & l0 & [-> Hl0]%ub_ret & Hr)%bind_ret)%bind_ret. simplify_eq. revert s' Hr. apply makes_upto.
  intros i k s1 Hk Hs1 _ s' (s2 & lg0 & [-> Hlg0]%logger_ret & (s3 & l0 & [-> Hl0]%ub_ret & (s4 & k0 & [-> Hk0]%ub_ret & Hr)%bind_ret)%bind_ret)%bind_ret.
  rewrite Hs1 in Hlg0. simplify_eq. by apply makes_flush.
Qed.

Lemma makes_tag p lg tag l s : st_loggers s !! p = Some lg -> smap_find (m_taggedStreams lg) tag = Some l ->
  makes flush_call l (each_with_tag p tag ls_flush) s.
Proof.
  intros Hp Hl s' (s0 & lg0 & [-> Hlg]%logger_ret & (s1 & l0 & [-> Hl0]%ub_ret & Hr)%bind_ret)%bind_ret. simplify_eq. revert s' Hr. apply makes_upto.
  intros i k s1 Hk Hs1 _ s' (s2 & lg0 & [-> Hlg0]%logger_ret & (s3 & l0 & [-> Hl0]%ub_ret & (s4 & k0 & [-> Hk0]%ub_ret & Hr)%bind_ret)%bind_ret)%bind_ret.
  rewrite Hs1 in Hlg0. simplify_eq. by apply makes_flush.
Qed.

Lemma makes_logger p lg s : st_loggers s !! p = Some lg -> List.length (m_logStreams lg) = 4%nat ->
  makes flush_call (logger_streams lg) (Logger_flushStreams p) s.
Proof.
  intros Hp H4. unfold Logger_flushStreams, each_stream, logger_streams. apply makes_bind.
  - destruct (m_logStreams lg) as [|l0 [|l1 [|l2 [|l3 [|]]]]] eqn:El; try done.
    change (mjoin [l0; l1; l2; l3]) with (levels ≫= fun i => default [] ([l0; l1; l2; l3].[i])). apply makes_for_each.
    intros i s1 Hi Hs1 _. eapply makes_level; [by rewrite Hs1|]. rewrite El. unfold levels in Hi.
    repeat (apply elem_of_cons in Hi as [->|Hi]; [done|]). by apply elem_of_nil in Hi.
  - intros s1 Hs1 _ s' (s2 & lg0 & [-> Hlg]%logger_ret & Hr)%bind_ret. rewrite Hs1, Hp in Hlg. injection Hlg as <-. revert s' Hr. apply makes_for_each. intros tag s2 Htag Hs2 _. destruct (smap_find (m_taggedStreams lg) tag) as [l|] eqn:E.
    + eapply makes_tag; [by rewrite Hs2, Hs1|exact E].
    + by apply smap_find_None in E.
Qed.

Lemma makes_loggers ps s : (forall p, p ∈ ps -> exists lg, st_loggers s !! p = Some lg /\ List.length (m_logStreams lg) = 4%nat) ->
  makes flush_call (of_loggers logger_streams s ps) (for_each ps Logger_flushStreams) s.
Proof.
  intros Hps. apply makes_for_each. intros p s1 Hp Hs1 _. destruct (Hps p Hp) as (lg & Hlg & H4). rewrite Hlg. cbn.
  apply makes_logger; [by rewrite Hs1|done].
Qed.

(** Deleting loggers deletes their streams. *)
Lemma delete_loggers_steps ps s s' : NoDup ps -> for_each ps Logger_delete s = Ret s' tt ->
  steps delete_call (of_loggers (fun lg => elements (m_streamObjectsManager lg)) s ps) (contents s) = Some (contents s').
Proof.
  revert s. induction ps as [|p ps IH]; intros s Hnd Hr; [by injection Hr as <-|]. apply NoDup_cons in Hnd as [Hp Hnd].
  apply bind_ret in Hr as (s0 & [] & (s1' & lg & [-> Hlg]%logger_ret & (s1 & [] & E1 & Hd)%bind_ret)%bind_ret & Hr). injection Hd as <-.
  unfold of_loggers. cbn [mbind list_bind]. rewrite Hlg. cbn [fmap option_fmap option_map default]. rewrite steps_app.
  destruct (makes_for_each delete_call delete_logstream (fun k => [k]) _ s (fun k s1 _ _ _ => makes_delete k s1) s1 E1) as (Hs1 & Hl1 & _).
  replace (elements (m_streamObjectsManager lg) ≫= fun k => [k]) with (elements (m_streamObjectsManager lg)) in Hs1
    by (clear; induction (elements (m_streamObjectsManager lg)) as [|k l IH]; cbn; congruence).
  unfold default, id in *. rewrite Hs1. specialize (IH _ Hnd Hr). rewrite <- IH. cbn [mbind option_bind].
  change (contents (with_loggers s1 _)) with (contents s1). f_equal. unfold of_loggers. cbn [st_loggers with_loggers]. apply Forall_bind_ext, Forall_forall. intros q Hq. rewrite Hl1, lookup_delete_ne by (intros ->; done). done.
Qed.

(** Finalizing flushes what the loggers send to and then deletes what they own. *)
Lemma finalize_steps s s' : slic_ok s -> Logger_finalize s = Ret s' tt ->
  exists c, steps flush_call (attached s) (contents s) = Some c /\ steps delete_call (managed s) c = Some (contents s').
Proof.
  intros Hs Hr. unfold Logger_finalize, mbind, M_bind, get, put in Hr.
  destruct (for_each (s_loggers s).*2 Logger_flushStreams s) as [s1 []|s1|] eqn:E1; [|done..].
  destruct (for_each (s_loggers s1).*2 Logger_delete s1) as [s2 []|s2|] eqn:E2; [|done..]. injection Hr as <-.
  destruct (makes_loggers (s_loggers s).*2 s) with s1 as (Hf & Hl & Hreg); [|done|].
  { intros p [lg Hlg]%(ok_registered _ Hs). exists lg. split; [done|]. by apply (ok_loggers _ Hs p lg). }
  exists (contents s1). split; [done|]. rewrite Hreg in E2. apply delete_loggers_steps in E2; [|apply Hs].
  unfold managed, of_loggers in *. rewrite Hl in E2. exact E2.
Qed.

End safety.

(** ** Programs *)

Section programs.
Context {S W : Type} `{!LogStream S W} `{!LogStreamLaws S W} `{!Environment S W}.
Local Notation State := (State S W).
Local Notation M := (M S W).
Implicit Types (s : State) (lg : Logger).

(** An abort function of the user may use SLIC, but leaves it in order. *)
Class EnvironmentLaws := {
  law_user_abort id s : slic_ok s -> wp (user_abort id) (fun _ s' => slic_ok s') slic_ok s }.

Context `{!EnvironmentLaws}.

(** A constructor of a log stream. *)
Definition creates (make : W -> option (S * W)) : Prop :=
  forall m w k, streams_ok m w -> m !! k = None -> exists ls w', make w = Some (ls, w') /\ streams_ok (<[k := ls]> m) w'.

Lemma changed_addable p s s' k : changed p s s' -> s_Logger s = Some p -> addable s k -> addable s' k.
Proof.
  intros Hc Hact [Hk Hown]. split; [by apply Hc|]. intros q lg Hq Hin. rewrite (ch_active _ _ _ Hc).
  destruct (decide (q = p)) as [->|Hne]; [done|]. rewrite (ch_others _ _ _ Hc) in Hq by done. by eapply Hown.
Qed.

Lemma same_addable s s' k : same s s' -> addable s k -> addable s' k.
Proof. intros [] [Hk Hown]. split; [by apply sm_live0|]. rewrite sm_loggers0, sm_active0. done. Qed.

Lemma new_stream_ok make s X : slic_ok s -> creates make ->
  wp (new_stream make) (fun k s' => slic_ok s' /\ addable s' k /\ st_loggers s' = st_loggers s /\ s_Logger s' = s_Logger s /\
    forall j, addable s j -> addable s' j) X s.
Proof.
  intros Hs Hmake. destruct (ok_next _ Hs (st_next s)) as [Hfs Hfl]; [lia|].
  destruct (Hmake _ _ _ (ok_streams _ Hs) Hfs) as (ls & w' & Hmk & Hok). unfold new_stream. apply wp_bind. unfold get, wp at 1.
  apply wp_bind. eapply wp_ub; [done|]. cbv beta iota. apply wp_bind. unfold put, wp at 1. apply wp_ret.
  set (s' := with_next _ _). assert (forall j, live s' j <-> live s j \/ j = st_next s) as Hlive.
  { intros j. unfold live, s'. cbn. rewrite lookup_insert_is_Some. destruct (decide (j = st_next s)); naive_solver. }
  split_and!; [| |done|done|].
  - destruct Hs. constructor; cbn; try done.
    + intros j Hj. destruct (ok_next0 j) as [H1 H2]; [lia|]. split; [|done]. by rewrite lookup_insert_ne by lia.
    + intros p lg Hp. eapply logger_ok_mono; [|by eapply ok_loggers0]. intros j Hj. apply Hlive. by left.
  - split; [apply Hlive; by right|]. intros p lg Hp Hin. pose proof (lo_managed _ _ (ok_loggers _ Hs p lg Hp) _ Hin) as Hl.
    unfold live in Hl. rewrite Hfs in Hl. by destruct Hl.
  - intros j [Hj Hown]. split; [apply Hlive; by left|done].
Qed.

Lemma ensure_noop n (Q : unit -> State -> Prop) X s : s_Logger s <> None -> Q tt s -> wp (ensure_initialized (Datatypes.S n)) Q X s.
Proof.
  intros Hs HQ. cbn [ensure_initialized]. unfold ensure_with. apply wp_bind. unfold isInitialized, getActiveLogger. repeat (apply wp_bind; unfold get, wp at 1).
  apply wp_ret. by rewrite bool_decide_eq_true_2.
Qed.

Lemma active_logger s : slic_ok s -> s_Logger s <> None -> exists p lg, s_Logger s = Some p /\ st_loggers s !! p = Some lg.
Proof.
  intros Hs Hact. destruct (s_Logger s) as [p|] eqn:Ep; [|done]. pose proof (ok_active _ Hs) as Ha. rewrite Ep in Ha.
  apply (ok_registered _ Hs) in Ha as [lg Hlg]. eauto.
Qed.

(** A call of the active logger, when there is one. *)
Lemma on_active_noop {A} n (f : Z -> M A) Q X s : slic_ok s -> s_Logger s <> None ->
  (forall p lg, s_Logger s = Some p -> st_loggers s !! p = Some lg -> wp (f p) Q X s) -> wp (on_active (ensure_initialized (Datatypes.S n)) f) Q X s.
Proof.
  intros Hs Hact Hf. destruct (active_logger s Hs Hact) as (p & lg & Hp & Hlg). unfold on_active. apply wp_bind. apply ensure_noop; [done|].
  apply wp_bind. unfold getActiveLogger. apply wp_bind. unfold get, wp at 1. apply wp_ret. apply wp_bind. eapply wp_ub; [done|]. by eapply Hf.
Qed.

(** The states on the way through [ensureInitialized]. *)
Definition starting (s s' : State) : Prop := slic_ok s' /\ s_Logger s' <> None /\ forall k, addable s k -> addable s' k.

Lemma starting_step {A} n (f : Z -> M A) s s1 X : starting s s1 ->
  (forall p lg, s_Logger s1 = Some p -> st_loggers s1 !! p = Some lg -> wp (f p) (fun _ s' => slic_ok s' /\ changed p s1 s') X s1) ->
  wp (on_active (ensure_initialized (Datatypes.S n)) f) (fun _ => starting s) X s1.
Proof.
  intros (Hs1 & Hact & Hadd) Hf. apply on_active_noop; [done|done|]. intros p lg Hp Hlg. eapply wp_mono; [by eapply Hf| |done].
  intros a s2 [Hs2 Hc]. split_and!; [done|by rewrite (ch_active _ _ _ Hc), Hp|]. intros k Hk. eapply changed_addable; eauto.
Qed.

Lemma setAbortOnError_ok p b lg s X : slic_ok s -> st_loggers s !! p = Some lg ->
  wp (Logger_setAbortOnError p b) (fun _ s' => slic_ok s' /\ changed p s s') X s.
Proof. intros Hs Hp. eapply (setter_ok p (fun lg => with_abortOnError lg b)); [done|done|by intros ? []|done]. Qed.

Lemma setAbortOnWarning_ok p b lg s X : slic_ok s -> st_loggers s !! p = Some lg ->
  wp (Logger_setAbortOnWarning p b) (fun _ s' => slic_ok s' /\ changed p s s') X s.
Proof. intros Hs Hp. eapply (setter_ok p (fun lg => with_abortOnWarning lg b)); [done|done|by intros ? []|done]. Qed.

Lemma setLoggingMsgLevel_ok p level lg s X : slic_ok s -> st_loggers s !! p = Some lg ->
  wp (Logger_setLoggingMsgLevel p level) (fun _ s' => slic_ok s' /\ changed p s s') X s.
Proof. intros Hs Hp. eapply (setter_ok p (fun lg => with_enabled lg _)); [done|done|by intros ? []|done]. Qed.

Lemma addable_free s p k : s_Logger s = Some p -> addable s k -> live s k /\ free_for s p k.
Proof. intros Hp [Hk Hown]. split; [done|]. intros q lg Hne Hq Hin. pose proof (Hown q lg Hq Hin). congruence. Qed.

Lemma ensureInitialized_ok s X : slic_ok s -> wp ensureInitialized (fun _ => starting s) X s.
Proof.
  intros Hs. destruct (decide (s_Logger s = None)) as [Hno|Hact]; [|by apply ensure_noop].
  change ensureInitialized with (ensure_with (ensure_initialized 1)). unfold ensure_with. apply wp_bind. unfold isInitialized, getActiveLogger. repeat (apply wp_bind; unfold get, wp at 1).
  apply wp_ret. rewrite bool_decide_eq_false_2 by naive_solver.
  apply wp_bind. eapply wp_mono; [by apply slic_initialize_ok| |exact (fun _ H => H)]. intros [] s1 (Hs1 & Hact1 & Hadd & _). specialize (Hadd Hno).
  assert (starting s s1) as H1 by done. clear Hs1 Hact1 Hadd.
  apply wp_bind. eapply wp_mono; [apply (starting_step O); [exact H1|]; intros; eapply setAbortOnError_ok; [apply H1|done]| |exact (fun _ H => H)]. intros [] s2 H2.
  apply wp_bind. eapply wp_mono; [apply (starting_step O); [exact H2|]; intros; eapply setAbortOnWarning_ok; [apply H2|done]| |exact (fun _ H => H)]. intros [] s3 H3.
  apply wp_bind. eapply wp_mono; [apply (starting_step O); [exact H3|]; intros; eapply setLoggingMsgLevel_ok; [apply H3|done]| |exact (fun _ H => H)]. intros [] s4 H4.
  apply wp_bind. destruct H4 as (Hs4 & Hact4 & Hadd4). eapply wp_mono; [apply new_stream_ok; [done|]| |exact (fun _ H => H)].
  { intros m w k Hm Hk. eexists _, _. split; [done|]. by apply law_default. }
  intros k s5 (Hs5 & Hk & _ & Hact5 & Hadd5). assert (starting s s5) as H5 by (split_and!; [done|by rewrite Hact5|auto]).
  apply wp_bind. eapply wp_mono; [apply (starting_step O); [exact H5|]| |exact (fun _ H => H)].
  { intros p lg Hp Hlg. destruct (addable_free s5 p k Hp Hk). by eapply addStreamToAllMsgLevels_ok. }
  intros [] s6 H6. apply (starting_step O); [exact H6|]. intros p lg Hp Hlg.
  eapply wp_mono; [eapply logMessage_ok; [apply H6|done|done]| |done]. intros [] s7 [Hs7 Hsame]. split; [done|]. apply same_changed; [by eexists|done].
Qed.

Lemma on_active_ok {A} (f : Z -> M A) Q X s : slic_ok s ->
  (forall p lg s1, slic_ok s1 -> s_Logger s1 = Some p -> st_loggers s1 !! p = Some lg -> (forall k, addable s k -> addable s1 k) -> wp (f p) Q X s1) ->
  wp (on_active ensureInitialized f) Q X s.
Proof.
  intros Hs Hf. unfold on_active. apply wp_bind. eapply wp_mono; [by apply ensureInitialized_ok| |exact (fun _ H => H)].
  intros [] s1 (Hs1 & Hact & Hadd). destruct (active_logger s1 Hs1 Hact) as (p & lg & Hp & Hlg).
  apply wp_bind. unfold getActiveLogger. apply wp_bind. unfold get, wp at 1. apply wp_ret. apply wp_bind. eapply wp_ub; [done|]. by eapply Hf.
Qed.

(** A function of the interface that changes at most the active logger. *)
Lemma api_ok {A} (f : Z -> M A) s X : slic_ok s ->
  (forall p lg s1, slic_ok s1 -> s_Logger s1 = Some p -> st_loggers s1 !! p = Some lg -> (forall k, addable s k -> addable s1 k) ->
    wp (f p) (fun _ s' => slic_ok s' /\ changed p s1 s') X s1) ->
  wp (on_active ensureInitialized f) (fun _ s' => slic_ok s') X s.
Proof. intros Hs Hf. apply on_active_ok; [done|]. intros p lg s1 ????. eapply wp_mono; [by eapply Hf| |done]. by intros a s2 []. Qed.

Lemma api_same_ok {A} (f : Z -> M A) s X : slic_ok s ->
  (forall p lg s1, slic_ok s1 -> s_Logger s1 = Some p -> st_loggers s1 !! p = Some lg -> wp (f p) (fun _ s' => slic_ok s' /\ same s1 s') X s1) ->
  wp (on_active ensureInitialized f) (fun _ s' => slic_ok s') X s.
Proof. intros Hs Hf. apply on_active_ok; [done|]. intros p lg s1 ????. eapply wp_mono; [by eapply Hf| |done]. by intros a s2 []. Qed.

Lemma abort_ok s : slic_ok s -> wp abort (fun _ s' => slic_ok s') slic_ok s.
Proof.
  intros Hs. apply on_active_ok; [done|]. intros p lg s1 Hs1 Hp Hlg _. unfold Logger_abort. apply wp_bind.
  eapply wp_mono; [eapply each_stream_ok; [done|done|]| |exact (fun _ H => H)]; [intros m w k ls; apply law_outputLocal|].
  intros [] s2 [Hs2 Hsame]. apply wp_bind. eapply logger_wp; [by rewrite (sm_loggers _ _ Hsame)|].
  destruct (m_abortFunction lg); [done|]. by apply law_user_abort.
Qed.

Lemma log_ok level message tag file line fd only s X : slic_ok s -> 0 <= level < 4 ->
  wp (logMessage level message tag file line fd only) (fun _ s' => slic_ok s') X s.
Proof. intros Hs Hlev. apply api_same_ok; [done|]. intros p lg s1 ???. by eapply logMessage_ok. Qed.

Lemma query_ok {A} (g : Logger -> A) s X : slic_ok s ->
  wp (on_active ensureInitialized (fun p => lg ← logger p; mret (g lg))) (fun _ s' => slic_ok s') X s.
Proof.
  intros Hs. apply on_active_ok; [done|]. intros p lg s1 ????. apply wp_bind. eapply logger_wp; [done|]. by apply wp_ret.
Qed.

Lemma error_ok msg file line s : slic_ok s -> wp (SLIC_ERROR msg file line) (fun _ s' => slic_ok s') slic_ok s.
Proof.
  intros Hs. unfold SLIC_ERROR. apply wp_bind. eapply wp_mono; [apply log_ok; [done|by unfold Error]| |exact (fun _ H => H)]. intros [] s1 Hs1.
  apply wp_bind. eapply wp_mono; [by apply query_ok| |exact (fun _ H => H)]. intros [] s2 Hs2; [by apply abort_ok|by apply wp_ret].
Qed.

Lemma warning_ok msg file line s : slic_ok s -> wp (SLIC_WARNING msg file line) (fun _ s' => slic_ok s') slic_ok s.
Proof.
  intros Hs. unfold SLIC_WARNING. apply wp_bind. eapply wp_mono; [apply log_ok; [done|by unfold Warning]| |exact (fun _ H => H)]. intros [] s1 Hs1.
  apply wp_bind. eapply wp_mono; [by apply query_ok| |exact (fun _ H => H)]. intros [] s2 Hs2; [by apply abort_ok|by apply wp_ret].
Qed.

(** The calls a program makes. *)
Inductive call :=
  | CInitialize (is_root : bool) | CFinalize | CCreateLogger (name : string) (imask : Z) | CActivateLogger (name : string)
  | CSetLoggingMsgLevel (level : Z) | CSetAbortOnError (status : bool) | CSetAbortOnWarning (status : bool)
  | CSetAbortFunction (f : option AbortFunction) | CSetIsRoot (is_root : bool)
  | CNewStream (make : W -> option (S * W)) | CAddToMsgLevel (ls : option Z) (level : Z) | CAddToAllMsgLevels (ls : option Z)
  | CAddToTag (ls : option Z) (tag : string) | CAddToAllTags (ls : option Z)
  | CLogMessage (level : Z) (message tag file : string) (line : Z) (filter_duplicates tag_stream_only : bool)
  | CError (msg file : string) (line : Z) | CWarning (msg file : string) (line : Z)
  | COutputLocalMessages | CFlushStreams | CPushStreams | CAbort.

Definition call_run (c : call) : M unit :=
  match c with
  | CInitialize b => initialize b
  | CFinalize => finalize
  | CCreateLogger name imask => createLogger name imask
  | CActivateLogger name => _ ← activateLogger name; mret tt
  | CSetLoggingMsgLevel level => setLoggingMsgLevel level
  | CSetAbortOnError b => setAbortOnError b
  | CSetAbortOnWarning b => setAbortOnWarning b
  | CSetAbortFunction f => setAbortFunction f
  | CSetIsRoot b => setIsRoot b
  | CNewStream make => _ ← new_stream make; mret tt
  | CAddToMsgLevel ls level => addStreamToMsgLevel ls level
  | CAddToAllMsgLevels ls => addStreamToAllMsgLevels ls
  | CAddToTag ls tag => addStreamToTag ls tag
  | CAddToAllTags ls => addStreamToAllTags ls
  | CLogMessage level message tag file line fd only => logMessage level message tag file line fd only
  | CError msg file line => SLIC_ERROR msg file line
  | CWarning msg file line => SLIC_WARNING msg file line
  | COutputLocalMessages => outputLocalMessages
  | CFlushStreams => flushStreams
  | CPushStreams => pushStreams
  | CAbort => abort
  end.

(** A stream that is added is there and is not owned by an inactive logger, because the
    interface passes ownership. *)
Definition stream_legal (s : State) (ls : option Z) : Prop := match ls with Some k => addable s k | None => True end.

Definition call_legal (s : State) (c : call) : Prop :=
  match c with
  | CNewStream make => creates make
  | CAddToMsgLevel ls level => stream_legal s ls /\ 0 <= level < 4
  | CAddToAllMsgLevels ls | CAddToTag ls _ | CAddToAllTags ls => stream_legal s ls
  | CLogMessage level _ _ _ _ _ _ => 0 <= level < 4
  | _ => True
  end.

Fixpoint calls_run (cs : list call) : M unit := match cs with [] => mret tt | c :: cs => call_run c;; calls_run cs end.

Fixpoint calls_legal (s : State) (cs : list call) : Prop :=
  match cs with
  | [] => True
  | c :: cs => call_legal s c /\ match call_run c s with Ret s' _ => calls_legal s' cs | _ => True end
  end.

Lemma add_call_ok ls (add : Z -> option Z -> M unit) s X : slic_ok s -> stream_legal s ls ->
  (forall p, add p None = null_stream_warning) ->
  (forall p k lg s1, slic_ok s1 -> st_loggers s1 !! p = Some lg -> live s1 k -> may_pass true s1 p k ->
    wp (add p (Some k)) (fun _ s' => slic_ok s' /\ changed p s1 s') X s1) ->
  wp (on_active ensureInitialized (fun p => add p ls)) (fun _ s' => slic_ok s') X s.
Proof.
  intros Hs Hls Hnull Hadd. destruct ls as [k|].
  - apply api_ok; [done|]. intros p lg s1 Hs1 Hp Hlg Hk. destruct (addable_free s1 p k Hp (Hk _ Hls)). by eapply Hadd.
  - apply api_same_ok; [done|]. intros p lg s1 ???. rewrite Hnull. by apply cerr_ok.
Qed.

Lemma call_ok c s : slic_ok s -> call_legal s c -> wp (call_run c) (fun _ s' => slic_ok s') slic_ok s.
Proof.
  intros Hs Hc. destruct c; cbn [call_run call_legal] in *.
  - eapply wp_mono; [by apply slic_initialize_ok| |exact (fun _ H => H)]. by intros [] s1 [].
  - eapply wp_mono; [by apply finalize_ok| |exact (fun _ H => H)]. by intros [] s1 [].
  - unfold createLogger. apply wp_bind. eapply wp_mono; [by apply ensureInitialized_ok| |exact (fun _ H => H)]. intros [] s1 (Hs1 & _).
    apply wp_bind. eapply wp_mono; [by apply createLogger_ok| |exact (fun _ H => H)]. intros b s2 (Hs2 & _). by apply wp_ret.
  - apply wp_bind. unfold activateLogger. apply wp_bind. eapply wp_mono; [by apply ensureInitialized_ok| |exact (fun _ H => H)]. intros [] s1 (Hs1 & _).
    eapply wp_mono; [by apply activateLogger_ok| |exact (fun _ H => H)]. intros b s2 (Hs2 & _). by apply wp_ret.
  - apply api_ok; [done|]. intros. by eapply setLoggingMsgLevel_ok.
  - apply api_ok; [done|]. intros. by eapply setAbortOnError_ok.
  - apply api_ok; [done|]. intros. by eapply setAbortOnWarning_ok.
  - destruct f as [f|]; [|apply api_same_ok; [done|]; intros; by apply cerr_ok].
    apply api_ok; [done|]. intros. eapply (setter_ok _ (fun lg => with_abortFunction lg f)); [done|done|by intros ? []|done].
  - unfold setIsRoot. apply wp_bind. unfold get, wp at 1, put, wp. by apply with_root_ok.
  - apply wp_bind. eapply wp_mono; [by apply new_stream_ok| |exact (fun _ H => H)]. intros k s1 [Hs1 _]. by apply wp_ret.
  - destruct Hc as [Hls Hlev]. apply (add_call_ok ls (fun p ls => Logger_addStreamToMsgLevel p ls level true)); [done|done|done|].
    intros. by eapply addStreamToMsgLevel_ok.
  - apply (add_call_ok ls (fun p ls => Logger_addStreamToAllMsgLevels p ls true)); [done|done|done|]. intros. by eapply addStreamToAllMsgLevels_ok.
  - apply (add_call_ok ls (fun p ls => Logger_addStreamToTag p ls tag true)); [done|done|done|]. intros. by eapply addStreamToTag_ok.
  - apply (add_call_ok ls (fun p ls => Logger_addStreamToAllTags p ls true)); [done|done|done|]. intros. by eapply addStreamToAllTags_ok.
  - by apply log_ok.
  - by apply error_ok.
  - by apply warning_ok.
  - apply api_same_ok; [done|]. intros. eapply each_stream_ok; [done|done|]. intros m w k ls. apply law_outputLocal.
  - apply api_same_ok; [done|]. intros. eapply each_stream_ok; [done|done|]. intros m w k ls. apply law_flush.
  - apply api_same_ok; [done|]. intros. eapply each_stream_ok; [done|done|]. intros m w k ls. apply law_push.
  - by apply abort_ok.
Qed.

Lemma calls_ok cs s : slic_ok s -> calls_legal s cs -> wp (calls_run cs) (fun _ s' => slic_ok s') slic_ok s.
Proof.
  revert s. induction cs as [|c cs IH]; intros s Hs Hcs; [by apply wp_ret|]. destruct Hcs as [Hc Hcs]. cbn [calls_run].
  pose proof (call_ok c s Hs Hc) as Hw. apply wp_bind. unfold wp in Hw |- *. destruct (call_run c s) as [s1 []|s1|]; [|done..].
  by apply IH.
Qed.

(** C7: Programs that use SLIC are safe.  From any state in order, every sequence of calls
    of the interface, in which streams are added that exist and that no other logger
    owns, never uses a log stream or a logger that is gone, and ends in a state in order
    or ends the process.  Finalizing afterwards changes the log streams and the outside by
    first flushing, logger after logger, every stream that a logger has at a level or at a
    tag, and then deleting every stream that a logger owns; no logger is left, there is no
    active logger, and exactly the streams that no logger owned are still there. *)
Theorem slic_programs_safe cs s : slic_ok s -> calls_legal s cs ->
  match calls_run cs s with
  | Ret s1 _ => slic_ok s1 /\ exists s2 c, finalize s1 = Ret s2 tt /\
      steps flush_call (attached s1) (contents s1) = Some c /\ steps delete_call (managed s1) c = Some (contents s2) /\
      slic_ok s2 /\ st_loggers s2 = ∅ /\ s_loggers s2 = [] /\ s_Logger s2 = None /\
      forall k, live s2 k <-> live s1 k /\ ~ owned s1 k
  | Exit s1 => slic_ok s1
  | Undef => False
  end.
Proof.
  intros Hs Hcs. pose proof (calls_ok cs s Hs Hcs) as Hw. unfold wp in Hw. destruct (calls_run cs s) as [s1 []|s1|]; [|done..].
  split; [done|]. pose proof (finalize_ok s1 (fun _ => False) Hw) as Hf. unfold wp in Hf. unfold finalize.
  destruct (Logger_finalize s1) as [s2 []|s2|] eqn:E; [|done..]. destruct (finalize_steps s1 s2 Hw E) as (c & ? & ?).
  destruct Hf as (?&?&?&?&?). exists s2, c. by split_and!.
Qed.

End programs.

End SlicTheorems.
