(* ===== verification/SlicGeneric.v ===== *)
(** * Loggers with streams to the console and to files

    [GenericOutputStream] keeps the laws that [SlicTheorems] asks of a log stream, and what
    is logged to streams of files reaches the files. *)

From S2P Require Import Prelude PathStrings StdStrings StringUtilities SlicStreams SlicLogger SlicTheorems.
From Stdlib Require Import Ascii String.

Module SlicGeneric.
Import PathStrings StdStrings StringUtilities SlicStreams SlicLogger SlicTheorems.
#[local] Arguments String.append !_ _ /.
Open Scope string_scope.
Open Scope Z_scope.

(** ** Formatting never throws *)

Lemma find_str_bound s key i : find_str s key 0 = i -> i <> npos -> 0 <= i /\ i + ssize key <= ssize s.
Proof.
  intros <- Hne. pose proof (find_str_app "" s key) as HF. cbn [String.append] in HF. change (ssize "") with 0 in HF. rewrite HF. rewrite HF in Hne. clear HF.
  destruct (index_of_str s key) as [j|] eqn:Ej; [|done]. destruct (index_of_str_Some _ _ _ Ej) as (a & b & -> & <-).
  rewrite !ssize_app. pose proof (ssize_nonneg b). unfold ssize in *. lia.
Qed.

Lemma substr_total s pos n : pos <= ssize s -> exists t, substr s pos n = Some t.
Proof. intros Hp. unfold substr. case_zbool; [lia|by eexists]. Qed.

Lemma replaceKey_found msg key value pos : pos = npos \/ pos = find_str msg key 0 -> exists t, replaceKey msg key value pos = Some t.
Proof.
  intros Hpos. unfold replaceKey. set (q := if pos =? npos then find_str msg key 0 else pos).
  assert (q = find_str msg key 0) as Hq by (unfold q; case_zbool; [done|by destruct Hpos]).
  rewrite Hq. destruct (Z.eqb_spec (find_str msg key 0) npos) as [|Hn]; [by eexists|]. destruct (find_str_bound msg key _ eq_refl Hn) as [H1 H2].
  pose proof (ssize_nonneg msg). destruct (substr_total msg 0 (find_str msg key 0)) as [a ->]; [done|].
  destruct (substr_total msg (find_str msg key 0 + ssize key) (wrap 64 (ssize msg - 1))) as [b ->]; [done|]. by eexists.
Qed.

Lemma replaceKey_total msg key value : exists t, replaceKey msg key value npos = Some t.
Proof. apply replaceKey_found. by left. Qed.

Lemma format_total format timestamp msgLevel message tag rank rank_count file line : timestamp <> "" ->
  exists t, getFormatedMessage format timestamp msgLevel message tag rank rank_count file line = Some t.
Proof.
  intros Ht. unfold getFormatedMessage.
  do 6 (lazymatch goal with |- context [replaceKey ?m ?k ?v npos] => destruct (replaceKey_total m k v) as [? ->]; cbn [mbind option_bind] end).
  lazymatch goal with |- context [negb ?b] => destruct b; cbn [negb];
    lazymatch goal with |- context [replaceKey ?m ?k ?v npos] => destruct (replaceKey_total m k v) as [t ->]; cbn [mbind option_bind] end end;
  (case_zbool; [by eexists|]; unfold trim_newline; destruct timestamp; [done|]; cbn [str_nonempty negb mbind option_bind];
   apply replaceKey_found; by right).
Qed.

(** ** The laws of log streams *)

(** [asctime] returns a line. *)
Class PlatformLaws `{!Platform} := { asctime_nonempty n : asctime n <> "" }.

Section laws.
Context `{!Platform} `{!PlatformLaws}.
Implicit Types (s : GenericOutputStream) (w : Output) (m : gmap Z GenericOutputStream).

Definition in_memory (x : ostream) : bool := match x with Ostringstream _ => true | Ofstream _ _ _ _ => false end.

(** The output stream of a log stream is there; one that SLIC made and did not open yet is
    a string stream. *)
Definition generic_ok s w : Prop :=
  match m_stream s with
  | None => False
  | Some (Object k) => exists x, o_objects w !! k = Some x /\ (m_isOstreamOwnedBySLIC s = true -> m_opened s = false -> in_memory x = true)
  | Some _ => m_isOstreamOwnedBySLIC s = false
  end.

Record generics_ok m w : Prop := {
  go_bounded : bounded w;
  go_each : forall k s, m !! k = Some s -> generic_ok s w;
  go_owned : forall k1 k2 s1 s2 j, k1 <> k2 -> m !! k1 = Some s1 -> m !! k2 = Some s2 ->
    m_isOstreamOwnedBySLIC s1 = true -> m_stream s1 = Some (Object j) -> m_stream s2 <> Some (Object j) }.

(** The same stream objects, with other contents. *)
Definition alike w w' : Prop :=
  o_next w' = o_next w /\ forall k, in_memory <$> o_objects w' !! k = in_memory <$> o_objects w !! k.

Lemma alike_generic s w w' : alike w w' -> generic_ok s w -> generic_ok s w'.
Proof.
  intros [_ Ha]. unfold generic_ok. destruct (m_stream s) as [[| |k]|]; try done. intros (x & Hx & Hmem).
  specialize (Ha k). rewrite Hx in Ha. destruct (o_objects w' !! k) as [y|]; [|done]. cbn in Ha. simplify_eq. exists y. rewrite Ha. done.
Qed.

Lemma alike_generics m w w' : alike w w' -> generics_ok m w -> generics_ok m w'.
Proof.
  intros Ha [Hb He Ho]. constructor; [|eauto using alike_generic|done]. destruct Ha as [Hn Hk]. intros k Hk'. rewrite Hn in Hk'.
  specialize (Hk k). rewrite (Hb k Hk') in Hk. by destruct (o_objects w' !! k).
Qed.

Lemma alike_object w k x y : o_objects w !! k = Some x -> in_memory y = in_memory x -> alike w (with_object w k y).
Proof.
  intros Hx Hy. split; [done|]. intros j. cbn. destruct (decide (j = k)) as [->|]; [by rewrite lookup_insert_eq, Hx; cbn; rewrite Hy|].
  by rewrite lookup_insert_ne.
Qed.

Lemma insert_text_ok w p text : (forall k, p = Object k -> is_Some (o_objects w !! k)) -> exists w', insert_text w p text = Some w' /\ alike w w'.
Proof.
  intros Hp. destruct p as [| |k]; cbn; [by eexists..|]. destruct (Hp k eq_refl) as [x Hx]. rewrite Hx. cbn.
  destruct x; eexists; (split; [done|]); by eapply alike_object.
Qed.

Lemma sync_alike w k x : o_objects w !! k = Some x -> alike w (sync w k x).
Proof.
  intros Hx. destruct x as [|file [] pos pending]; cbn; [done| |done].
  split; [done|]. intros j. cbn. destruct (decide (j = k)) as [->|]; [by rewrite lookup_insert_eq, Hx|]. by rewrite lookup_insert_ne.
Qed.

Lemma generic_pointer s w : generic_ok s w -> exists p, m_stream s = Some p /\ forall k, p = Object k -> is_Some (o_objects w !! k).
Proof.
  unfold generic_ok. destruct (m_stream s) as [[| |k]|]; [| |intros (x & Hx & _)|done]; intros; eexists; (split; [done|]); intros ? [=]. subst. by eexists.
Qed.

Lemma generic_append_ok m w k s level message tag file line : generics_ok m w -> m !! k = Some s ->
  exists s' w', Generic_append s level message tag file line w = Some (s', w') /\ generics_ok (<[k := s']> m) w'.
Proof.
  intros Hok Hk. destruct (generic_pointer s w (go_each _ _ Hok _ _ Hk)) as (p & Hp & Hobj). unfold Generic_append. rewrite Hp.
  destruct (format_total (m_formatString s) (asctime (o_clock w)) (getLevelAsString level) message tag "" "" file line (asctime_nonempty _)) as [t ->].
  cbn [mbind option_bind]. destruct (insert_text_ok (tick w) p t Hobj) as (w' & -> & Ha). cbn [mbind option_bind]. eexists _, _. split; [done|].
  rewrite insert_id by done. eapply alike_generics; [|done]. exact Ha.
Qed.

Lemma generic_open_ok m w k s : generics_ok m w -> m !! k = Some s ->
  exists s' w', openBeforeFlush s w = Some (s', w') /\ generics_ok (<[k := s']> m) w'.
Proof.
  intros Hok Hk. unfold openBeforeFlush. destruct (m_isOstreamOwnedBySLIC s && negb (m_opened s)) eqn:E;
    [|by eexists _, _; rewrite insert_id by done].
  apply andb_true_iff in E as [Hown Hop%negb_true_iff].
  pose proof (go_each _ _ Hok _ _ Hk) as Hs. unfold generic_ok in Hs.
  destruct (m_stream s) as [[| |j]|] eqn:Ej; [by eexists _, _; rewrite insert_id by done..| |done].
  destruct Hs as (x & Hx & _). rewrite Hx. cbn [mbind option_bind].
  destruct x as [buffer|]; [|by eexists _, _; rewrite insert_id by done].
  destruct (str_nonempty buffer); [|by eexists _, _; rewrite insert_id by done].
  cbn [delete_stream]. rewrite Hx. cbn [mbind option_bind sync]. destruct Hok as [Hb He Ho].
  set (w1 := with_objects w (delete j (o_objects w))).
  assert (exists w2 x, open_file w1 (m_file_name s) = (w2, x) /\ o_objects w2 = delete j (o_objects w) /\ o_next w2 = o_next w) as (w2 & x & -> & Hw2 & Hn2).
  { unfold open_file. destruct (can_open _); eexists _, _; by split_and!. }
  cbn [new_object o_objects]. destruct (insert_text_ok (new_object w2 x).1 (Object (o_next w2)) buffer) as (w3 & Hins & Ha).
  { intros i [= <-]. cbn. rewrite lookup_insert_eq. by eexists. }
  cbn [new_object fst] in Hins. rewrite Hins. cbn [mbind option_bind]. eexists _, _. split; [done|]. eapply alike_generics; [exact Ha|].
  assert (j < o_next w) as Hj by (destruct (decide (j < o_next w)); [done|]; by rewrite Hb in Hx by lia).
  constructor; cbn.
  - intros i Hi. cbn in *. rewrite Hw2, Hn2 in *. rewrite lookup_insert_ne, lookup_delete_ne by lia. apply Hb. lia.
  - intros k' s'. rewrite lookup_insert_Some. intros [[<- <-]|[Hne Hk']].
    + unfold generic_ok. cbn. rewrite Hn2, lookup_insert_eq. eexists. split; [done|]. done.
    + pose proof (He _ _ Hk') as Hs'. unfold generic_ok in *. destruct (m_stream s') as [[| |i]|] eqn:Ei; try done.
      destruct Hs' as (y & Hy & Hmem). exists y. split; [|done]. cbn. rewrite Hw2, Hn2.
      rewrite lookup_insert_ne by (intros <-; by rewrite Hb in Hy by lia). rewrite lookup_delete_ne; [done|].
      intros ->. by apply (Ho k k' s s' i Hne Hk Hk' Hown Ej).
  - intros k1 k2 s1 s2 i Hne. rewrite !lookup_insert_Some. intros [[<- <-]|[Hn1 H1]] [[<- <-]|[Hn2' H2]] Hown1; cbn; [done| | |exact (Ho k1 k2 s1 s2 i Hne H1 H2 Hown1)].
    + intros [= <-] Hi. pose proof (He _ _ H2) as Hs2. unfold generic_ok in Hs2. rewrite Hi in Hs2. destruct Hs2 as (y & Hy & _). by rewrite Hb in Hy by (rewrite Hn2; lia).
    + intros Hi [= <-]. pose proof (He _ _ H1) as Hs1. unfold generic_ok in Hs1. rewrite Hi in Hs1. destruct Hs1 as (y & Hy & _). by rewrite Hb in Hy by (rewrite Hn2; lia).
Qed.

Lemma generic_flush_ok m w k s : generics_ok m w -> m !! k = Some s ->
  exists s' w', Generic_flush s w = Some (s', w') /\ generics_ok (<[k := s']> m) w'.
Proof.
  intros Hok Hk. unfold Generic_flush. destruct (generic_open_ok m w k s Hok Hk) as (s1 & w1 & -> & Hok1). cbn [mbind option_bind].
  destruct (generic_pointer s1 w1) as (p & -> & Hobj); [eapply go_each; [done|apply lookup_insert_eq]|]. cbn [mbind option_bind].
  destruct p as [| |j]; cbn [flush_stream mbind option_bind]; [by eexists _, _..|]. destruct (Hobj j eq_refl) as [x Hx]. rewrite Hx.
  cbn [mbind option_bind]. eexists _, _. split; [done|]. eapply alike_generics; [by apply sync_alike|done].
Qed.

Lemma generic_delete_ok m w k s : generics_ok m w -> m !! k = Some s -> exists w', Generic_delete s w = Some w' /\ generics_ok (delete k m) w'.
Proof.
  intros Hok Hk. assert (generics_ok (delete k m) w) as Hok'.
  { destruct Hok as [Hb He Ho]. constructor; [done| |].
    - intros k' s' [_ Hk']%lookup_delete_Some. by eapply He.
    - intros k1 k2 s1 s2 j Hne [_ H1]%lookup_delete_Some [_ H2]%lookup_delete_Some. by eapply Ho. }
  unfold Generic_delete. destruct (m_isOstreamOwnedBySLIC s) eqn:Eo; [|by eexists].
  pose proof (go_each _ _ Hok _ _ Hk) as Hs. unfold generic_ok in Hs. destruct (m_stream s) as [[| |j]|] eqn:Ej; try congruence; [|done].
  destruct Hs as (x & Hx & _). cbn [delete_stream]. rewrite Hx. cbn [mbind option_bind]. eexists. split; [done|].
  pose proof (alike_generics _ _ _ (sync_alike w j x Hx) Hok') as [Hb He Ho]. constructor.
  - intros i Hi. cbn in *. rewrite lookup_delete_None. right. by apply Hb.
  - intros k' s' Hk'. pose proof (He _ _ Hk') as Hs'. unfold generic_ok in *. destruct (m_stream s') as [[| |i]|] eqn:Ei; try done.
    destruct Hs' as (y & Hy & Hmem). exists y. split; [|done]. cbn. rewrite lookup_delete_ne; [done|]. intros ->.
    apply lookup_delete_Some in Hk' as [Hne Hk']. by apply (go_owned _ _ Hok k k' s s' i Hne Hk Hk' Eo Ej).
  - done.
Qed.

Lemma generic_default_ok m w k format : generics_ok m w -> m !! k = None -> generics_ok (<[k := Generic_os_format (Some Cout) format]> m) w.
Proof.
  intros [Hb He Ho] Hk. constructor; [done| |].
  - intros k' s'. rewrite lookup_insert_Some. intros [[_ <-]|[_ Hk']]; [done|by eapply He].
  - intros k1 k2 s1 s2 j Hne. rewrite !lookup_insert_Some. intros [[<- <-]|[Hn1 H1]] [[<- <-]|[Hn2' H2]] Hown; cbn; try done. exact (Ho k1 k2 s1 s2 j Hne H1 H2 Hown).
Qed.

#[export] Program Instance Generic_LogStreamLaws : LogStreamLaws GenericOutputStream Output := {| streams_ok := generics_ok |}.
Next Obligation. intros m w k s level message tag file line ? ? Hok Hk. by apply generic_append_ok. Qed.
Next Obligation. intros m w k s Hok Hk. by apply generic_flush_ok. Qed.
Next Obligation. intros m w k s Hok Hk. by apply generic_flush_ok. Qed.
Next Obligation. intros m w k s Hok Hk. eexists _, _. split; [done|]. by rewrite insert_id. Qed.
Next Obligation. intros m w k s Hok Hk. by apply generic_delete_ok. Qed.
Next Obligation. intros m w text Hok. apply (alike_generics m w); [done|exact Hok]. Qed.
Next Obligation. intros m w k format Hok Hk. by apply generic_default_ok. Qed.

(** The constructor from a name makes a log stream. *)
Lemma Generic_name_creates file format : ssize format < 2 ^ 60 -> creates (Generic_name_format file format).
Proof.
  intros Hs m w k Hok Hk. pose proof (format_fixes format Hs) as Hfix. unfold Generic_name_format, Generic_name.
  destruct (replaceAllInstances format "\n" nl) as [f|]; [|done]. cbn [mbind option_bind] in Hfix.
  destruct (String.eqb file "cout"); [|destruct (String.eqb file "cerr")].
  1,2: cbn [mbind option_bind]; rewrite Hfix; cbn [mbind option_bind]; eexists _, _; (split; [done|]); destruct Hok as [Hb He Ho]; constructor; [done| |].
  1,3: intros k' s'; rewrite lookup_insert_Some; intros [[_ <-]|[_ Hk']]; [done|by eapply He].
  1,2: intros k1 k2 s1 s2 j Hne; rewrite !lookup_insert_Some; intros [[<- <-]|[Hn1 H1]] [[<- <-]|[Hn2' H2]] Hown; cbn; try done; exact (Ho k1 k2 s1 s2 j Hne H1 H2 Hown).
  cbn [new_object mbind option_bind]. rewrite Hfix. cbn [mbind option_bind]. eexists _, _. split; [done|]. destruct Hok as [Hb He Ho].
  assert (forall i, is_Some (o_objects w !! i) -> i <> o_next w) as Hfresh by (intros i [x Hx] ->; by rewrite Hb in Hx).
  constructor; cbn.
  - intros i Hi. cbn in *. rewrite lookup_insert_ne by lia. apply Hb. lia.
  - intros k' s'. rewrite lookup_insert_Some. intros [[_ <-]|[_ Hk']].
    + unfold generic_ok. cbn. rewrite lookup_insert_eq. by eexists.
    + pose proof (He _ _ Hk') as Hs'. unfold generic_ok in *. destruct (m_stream s') as [[| |i]|] eqn:Ei; try done.
      destruct Hs' as (y & Hy & Hmem). exists y. split; [|done]. cbn. rewrite lookup_insert_ne; [done|]. intros <-. by apply (Hfresh (o_next w)); [eexists|].
  - assert (forall k' s', m !! k' = Some s' -> m_stream s' <> Some (Object (o_next w))) as Hnew.
    { intros k' s' Hk' Hi. pose proof (He _ _ Hk') as Hs'. unfold generic_ok in Hs'. rewrite Hi in Hs'. destruct Hs' as (y & Hy & _).
      by apply (Hfresh (o_next w)); [eexists|]. }
    intros k1 k2 s1 s2 j Hne. rewrite !lookup_insert_Some. intros [[<- <-]|[Hn1 H1]] [[<- <-]|[Hn2' H2]] Hown; cbn; [done| | |exact (Ho k1 k2 s1 s2 j Hne H1 H2 Hown)].
    + intros [= <-]. by eapply Hnew.
    + intros Hi [= <-]. by eapply Hnew.
Qed.

End laws.

(** ** What is logged reaches the files

    All log streams are streams to different files, and [texts] gives for each its file
    and the text that was logged to it. *)

Section contents.
Context `{!Platform} `{!PlatformLaws} `{!Environment GenericOutputStream Output}.
Local Notation State := (State GenericOutputStream Output).
Local Notation M := (M GenericOutputStream Output).
Implicit Types (s : State) (texts : gmap Z (string * string)).

Record file_log s texts : Prop := {
  fl_streams : forall k f t, texts !! k = Some (f, t) -> exists ls, st_streams s !! k = Some ls /\ holds ls (st_out s) f t /\ can_open f = true;
  fl_all : forall k, is_Some (st_streams s !! k) -> is_Some (texts !! k);
  fl_files : forall k1 k2 f1 f2 t1 t2, k1 <> k2 -> texts !! k1 = Some (f1, t1) -> texts !! k2 = Some (f2, t2) -> f1 <> f2;
  fl_objects : forall k1 k2 ls1 ls2 j, k1 <> k2 -> st_streams s !! k1 = Some ls1 -> st_streams s !! k2 = Some ls2 ->
    m_stream ls1 = Some (Object j) -> m_stream ls2 <> Some (Object j);
  fl_bounded : bounded (st_out s) }.

Lemma holds_frame ls w ls' w' file ls2 f2 t2 : framed ls w ls' w' file -> bounded w -> holds ls2 w f2 t2 -> f2 <> file ->
  (forall j, m_stream ls2 = Some (Object j) -> m_stream ls <> Some (Object j)) -> holds ls2 w' f2 t2.
Proof.
  intros Hfr Hb (Ho & Hf & j & Hj & Hn & Hh) Hne Hd. pose proof (fr_next _ _ _ _ _ Hfr). split_and!; [done..|]. exists j. split_and!; [done|lia|].
  assert (m_stream ls' <> Some (Object j)) as Hls' by (intros [?|?]%(fr_stream _ _ _ _ _ Hfr); [by apply (Hd j)|lia]).
  rewrite (fr_objects _ _ _ _ _ Hfr Hb j (Hd j Hj) Hls'). rewrite (fr_files _ _ _ _ _ Hfr f2 Hne). done.
Qed.

(** What an operation on one stream does to a state. *)
Lemma file_log_step k f ls ls' w' file t t' s texts : file_log s texts -> texts !! k = Some (file, t) -> st_streams s !! k = Some ls ->
  f ls (st_out s) = Some (ls', w') -> holds ls' w' file t' -> framed ls (st_out s) ls' w' file ->
  exists s', call_stream k f s = Ret s' tt /\ s' = with_out (with_streams s (<[k := ls']> (st_streams s))) w' /\
    file_log s' (<[k := (file, t')]> texts).
Proof.
  intros Hfl Ht Hls Hf Hh Hfr. eexists. split; [|split; [done|]].
  { unfold call_stream, mbind, M_bind, get, ub, put. rewrite Hls, Hf. done. }
  destruct (fl_streams _ _ Hfl k file t Ht) as (ls0 & Hls0 & _ & Hcan). rewrite Hls in Hls0. simplify_eq.
  pose proof (fl_bounded _ _ Hfl) as Hb.
  assert (forall k2 ls2 j, k2 <> k -> st_streams s !! k2 = Some ls2 -> m_stream ls2 = Some (Object j) -> m_stream ls' <> Some (Object j)) as Hdis.
  { intros k2 ls2 j Hne H2 Hj [Hj'|Hj']%(fr_stream _ _ _ _ _ Hfr); [by apply (fl_objects _ _ Hfl k2 k ls2 ls0 j)|].
    destruct (fl_all _ _ Hfl k2 ltac:(by eexists)) as [[f2 t2] H2t]. destruct (fl_streams _ _ Hfl _ _ _ H2t) as (ls3 & H3 & (_ & _ & i & Hi & Hin & _) & _).
    simplify_eq. lia. }
  constructor; cbn.
  - intros k2 f2 t2. rewrite lookup_insert_Some. intros [[<- [= <- <-]]|[Hne H2]].
    + exists ls'. by rewrite lookup_insert_eq.
    + destruct (fl_streams _ _ Hfl _ _ _ H2) as (ls2 & Hls2 & Hh2 & Hcan2). exists ls2. rewrite lookup_insert_ne by done. split_and!; [done| |done].
      eapply holds_frame; [done|done|done| |].
      * eapply (fl_files _ _ Hfl k2 k); [congruence|done|done].
      * intros j Hj. by apply (fl_objects _ _ Hfl k2 k ls2 ls0 j); [congruence|..].
  - intros k2. rewrite !lookup_insert_is_Some. pose proof (fl_all _ _ Hfl k2). naive_solver.
  - intros k1 k2 f1 f2 t1 t2 Hne. rewrite !lookup_insert_Some. intros [[<- [= <- <-]]|[Hn1 H1]] [[<- [= <- <-]]|[Hn2 H2]]; [done|..].
    + exact (fl_files _ _ Hfl _ _ _ _ _ _ Hne Ht H2).
    + exact (fl_files _ _ Hfl _ _ _ _ _ _ Hne H1 Ht).
    + exact (fl_files _ _ Hfl _ _ _ _ _ _ Hne H1 H2).
  - intros k1 k2 l1 l2 j Hne. rewrite !lookup_insert_Some. intros [[<- <-]|[Hn1 H1]] [[<- <-]|[Hn2 H2]] Hj; [done|..].
    + intros Hj2. by apply (Hdis k2 l2 j).
    + by apply (Hdis k1 l1 j).
    + by apply (fl_objects _ _ Hfl k1 k2 l1 l2 j).
  - by apply Hfr.
Qed.

(** States in which the loggers are the same, and every stream has the format it had. *)
Record kept s s' : Prop := {
  kp_loggers : st_loggers s' = st_loggers s;
  kp_active : s_Logger s' = s_Logger s;
  kp_formats : forall k, m_formatString <$> st_streams s' !! k = m_formatString <$> st_streams s !! k }.

Lemma kept_refl s : kept s s.
Proof. done. Qed.

Lemma kept_trans s1 s2 s3 : kept s1 s2 -> kept s2 s3 -> kept s1 s3.
Proof. intros [A1 A2 A3] [B1 B2 B3]. constructor; [congruence..|]. intros k. by rewrite B3, A3. Qed.

Lemma kept_step s k ls ls' w' : st_streams s !! k = Some ls -> m_formatString ls' = m_formatString ls ->
  kept s (with_out (with_streams s (<[k := ls']> (st_streams s))) w').
Proof.
  intros Hls Hfmt. constructor; [done..|]. intros j. cbn. destruct (decide (j = k)) as [->|]; [|by rewrite lookup_insert_ne].
  rewrite lookup_insert_eq, Hls. cbn. by rewrite Hfmt.
Qed.

(** The text of a message in the format of a stream, at some time. *)
Definition message_text (format : string) (level : Z) (message tag file : string) (line : Z) (x : string) : Prop :=
  exists c, getFormatedMessage format (asctime c) (getLevelAsString level) message tag "" "" file line = Some x.

(** After a message to the streams in [done]: each of them has the message at its end, the
    others are as they were. *)
Definition received (s0 : State) texts (put : list Z) level message tag file line s : Prop :=
  kept s0 s /\ exists texts', file_log s texts' /\ (forall k, is_Some (texts' !! k) -> is_Some (texts !! k)) /\
  forall k f t, texts !! k = Some (f, t) ->
    if decide (k ∈ put)
    then exists ls x, st_streams s0 !! k = Some ls /\ message_text (m_formatString ls) level message tag file line x /\ texts' !! k = Some (f, (t ++ x)%string)
    else texts' !! k = Some (f, t).

Lemma wp_upto (I : nat -> State -> Prop) n (f : Z -> M unit) X s :
  (forall i s, (i < n)%nat -> I i s -> wp (f (Z.of_nat i)) (fun _ => I (S i)) X s) -> I O s -> wp (for_each (upto n) f) (fun _ => I n) X s.
Proof.
  intros Hf HI. assert (forall d i s, (i + d = n)%nat -> I i s -> wp (for_each (seqZ (Z.of_nat i) (Z.of_nat d)) f) (fun _ => I n) X s) as Hgen.
  { induction d as [|d IH]; intros i s1 Hi HIs; [by replace n with i by lia|]. rewrite seqZ_cons by lia. cbn [for_each]. apply wp_bind.
    eapply wp_mono; [apply Hf; [lia|done]| |exact (fun _ H => H)]. intros [] s2 HI2.
    replace (Z.succ (Z.of_nat i)) with (Z.of_nat (S i)) by lia. replace (Z.pred (Z.of_nat (S d))) with (Z.of_nat d) by lia. apply IH; [lia|done]. }
  apply (Hgen n O); [lia|done].
Qed.

Lemma append_step s0 texts put k level message tag file line fd only s X : k ∉ put -> is_Some (texts !! k) ->
  received s0 texts put level message tag file line s ->
  wp (call_stream k (fun ls => ls_append ls level message tag file line fd only))
    (fun _ => received s0 texts (put ++ [k])%list level message tag file line) X s.
Proof.
  intros Hk [[f t] Hft] (Hkept & texts' & Hfl & Hdom & Hrec). pose proof (Hrec k f t Hft) as Hk'. rewrite decide_False in Hk' by done.
  destruct (fl_streams _ _ Hfl _ _ _ Hk') as (ls & Hls & Hh & Hcan).
  destruct (format_total (m_formatString ls) (asctime (o_clock (st_out s))) (getLevelAsString level) message tag "" "" file line (asctime_nonempty _)) as [x Hx].
  destruct (append_holds ls _ f t level message tag file line x Hh Hx) as (w' & Ha & Hh' & Hfr & _ & _).
  assert (ls_append ls level message tag file line fd only (st_out s) = Some (ls, w')) as Ha' by (rewrite <- Ha; reflexivity).
  destruct (file_log_step k (fun ls => ls_append ls level message tag file line fd only) ls ls w' f t (t ++ x)%string s texts' Hfl Hk' Hls Ha' Hh' Hfr) as (s' & Hc & Hs' & Hfl').
  unfold wp. rewrite Hc. assert (kept s s') as Hks by (rewrite Hs'; by apply (kept_step s k ls)).
  split; [by eapply kept_trans|]. exists (<[k := (f, (t ++ x)%string)]> texts'). split_and!; [done| |].
  - intros k2. rewrite lookup_insert_is_Some. intros [<-|[_ ?]]; [by eexists|auto].
  - intros k2 f2 t2 H2. destruct (decide (k2 = k)) as [->|Hne].
    + simplify_eq. rewrite decide_True by (apply elem_of_app; right; by left).
      pose proof (kp_formats _ _ Hkept k) as Hfm. rewrite Hls in Hfm. cbn in Hfm. destruct (st_streams s0 !! k) as [ls0|]; [|done]. cbn in Hfm. simplify_eq.
      exists ls0, x. split_and!; [done| |by rewrite lookup_insert_eq]. exists (o_clock (st_out s)). by rewrite <- Hfm.
    + rewrite lookup_insert_ne by done. specialize (Hrec k2 f2 t2 H2). destruct (decide (k2 ∈ put)) as [Hin|Hout].
      * by rewrite decide_True by (apply elem_of_app; by left).
      * rewrite decide_False; [done|]. rewrite elem_of_app, elem_of_cons, elem_of_nil. naive_solver.
Qed.

(** Logging at an enabled level appends the message to each stream of the level. *)
Lemma log_level_received p lg l level message tag file line fd s texts X : file_log s texts -> st_loggers s !! p = Some lg ->
  (m_isEnabled lg).[level] = Some true -> (m_logStreams lg).[level] = Some l -> NoDup l -> Forall (fun k => is_Some (texts !! k)) l ->
  wp (Logger_logMessage p level message tag file line fd false) (fun _ => received s texts l level message tag file line) X s.
Proof.
  intros Hfl Hp He Hl Hnd Hall. unfold Logger_logMessage. apply wp_bind. eapply logger_wp; [done|]. apply wp_bind. eapply wp_ub; [done|].
  cbn [negb andb]. unfold each_at_level. apply wp_bind. eapply logger_wp; [done|]. apply wp_bind. eapply wp_ub; [done|].
  pose proof (wp_upto (fun i => received s texts (take i l) level message tag file line) (List.length l)
    (fun i => lg ← logger p; l ← ub (m_logStreams lg).[level]; k ← ub l.[i]; call_stream k (fun ls => ls_append ls level message tag file line fd false)) X s) as Hw.
  cbv beta in Hw. rewrite (take_ge l (List.length l)) in Hw by lia. apply Hw; clear Hw.
  - intros i s1 Hi Hr. apply wp_bind. eapply logger_wp; [by rewrite (kp_loggers _ _ (proj1 Hr))|]. apply wp_bind. eapply wp_ub; [done|].
    destruct (lookup_lt_is_Some_2 l i Hi) as [k Hk]. apply wp_bind. eapply wp_ub; [rewrite zlookup_of_nat; exact Hk|].
    rewrite (take_S_r _ _ _ Hk). apply append_step; [|exact (Forall_lookup_1 _ _ _ _ Hall Hk)|done].
    intros Hin. apply elem_of_take in Hin as (j & Hj & Hlt). pose proof (NoDup_lookup l i j k Hnd Hk Hj). lia.
  - split; [apply kept_refl|]. exists texts. split_and!; [done|done|]. intros k f t Hk. rewrite decide_False; [done|apply not_elem_of_nil].
Qed.

(** ** Flushing *)

(** The file of a stream has all that was logged to it. *)
Definition flushed texts (k : Z) (s : State) : Prop :=
  forall f t, texts !! k = Some (f, t) -> t <> "" -> o_files (st_out s) !! f = Some t.

Definition flushes texts (s s' : State) : Prop :=
  kept s s' /\ file_log s' texts /\ forall k, flushed texts k s -> flushed texts k s'.

Lemma flushes_trans texts s1 s2 s3 : flushes texts s1 s2 -> flushes texts s2 s3 -> flushes texts s1 s3.
Proof. intros (A1 & A2 & A3) (B1 & B2 & B3). split_and!; [by eapply kept_trans|done|auto]. Qed.

Lemma flush_step k s texts X : file_log s texts -> is_Some (texts !! k) ->
  wp (call_stream k Generic_flush) (fun _ s' => flushes texts s s' /\ flushed texts k s') X s.
Proof.
  intros Hfl [[f t] Hk]. destruct (fl_streams _ _ Hfl _ _ _ Hk) as (ls & Hls & Hh & Hcan).
  destruct (flush_holds ls _ f t Hcan Hh) as (ls' & w' & Hf & Hh' & Hfr & _ & Hres & _).
  destruct (file_log_step k Generic_flush ls ls' w' f t t s texts Hfl Hk Hls Hf Hh' Hfr) as (s' & Hc & Hs' & Hfl').
  rewrite insert_id in Hfl' by done. unfold wp. rewrite Hc.
  assert (flushed texts k s') as Hdone.
  { intros f' t' Hk' Hne. simplify_eq. cbn. destruct (m_opened ls'); [done|]. by destruct Hres. }
  split; [|done]. split_and!; [rewrite Hs'; apply (kept_step s k ls); [done|apply Hfr]|done|].
  intros k2 H2. destruct (decide (k2 = k)) as [->|Hne]; [done|]. intros f2 t2 Hk2 Ht2. rewrite Hs'. cbn.
  rewrite (fr_files _ _ _ _ _ Hfr); [by apply H2|]. by apply (fl_files _ _ Hfl k2 k _ _ _ _ Hne Hk2 Hk).
Qed.

(** A loop whose turns each reach a goal and keep the goals that were reached. *)
Lemma wp_for_each_reach {A} texts (P : A -> State -> Prop) (l : list A) (f : A -> M unit) X s0 : file_log s0 texts ->
  (forall x s s', P x s -> flushes texts s s' -> P x s') ->
  (forall x s, x ∈ l -> flushes texts s0 s -> wp (f x) (fun _ s' => flushes texts s s' /\ P x s') X s) ->
  wp (for_each l f) (fun _ s' => flushes texts s0 s' /\ forall x, x ∈ l -> P x s') X s0.
Proof.
  intros Hfl HP Hf. assert (flushes texts s0 s0) as Hrefl by (split_and!; [apply kept_refl|done|done]).
  assert (forall l', (forall x, x ∈ l' -> x ∈ l) -> forall s, flushes texts s0 s ->
    wp (for_each l' f) (fun _ s' => flushes texts s s' /\ forall x, x ∈ l' -> P x s') X s) as Hgen; [|by apply Hgen].
  intros l'. induction l' as [|x l' IH]; intros Hsub s Hs.
  - apply wp_ret. split; [|by intros x ?%elem_of_nil]. destruct Hs as (_ & Hfs & _). split_and!; [apply kept_refl|done|done].
  - cbn [for_each]. apply wp_bind. eapply wp_mono; [apply Hf; [apply Hsub; by left|done]| |exact (fun _ H => H)]. intros [] s1 [H1 HP1].
    eapply wp_mono; [apply IH; [intros y Hy; apply Hsub; by right|by eapply flushes_trans]| |done].
    intros [] s2 [H2 HP2]. split; [by eapply flushes_trans|]. intros y [->|Hy]%elem_of_cons; [by eapply HP|auto].
Qed.

Lemma flushed_keep texts k s s' : flushed texts k s -> flushes texts s s' -> flushed texts k s'.
Proof. intros Hk (_ & _ & Hfl). auto. Qed.

Section logger.
Variables (p : Z) (lg : Logger) (texts : gmap Z (string * string)).
Hypothesis Hlg : logger_ok (fun k => is_Some (texts !! k)) lg.

Lemma flush_list_ok (body : Z -> M unit) (l : list Z) s X : file_log s texts ->
  (forall s' i k, kept s s' -> l.[i] = Some k -> forall Q, wp (call_stream k Generic_flush) Q X s' -> wp (body i) Q X s') ->
  Forall (fun k => is_Some (texts !! k)) l ->
  wp (for_each (upto (List.length l)) body) (fun _ s' => flushes texts s s' /\ forall k, k ∈ l -> flushed texts k s') X s.
Proof using Type.
  intros Hfl Hbody Hall.
  eapply wp_mono; [apply (wp_for_each_reach texts (fun i s => forall k, l.[i] = Some k -> flushed texts k s)); [done| |]| |exact (fun _ H => H)].
  - intros i s1 s2 H1 H2 k Hk. eapply flushed_keep; eauto.
  - intros i s1 Hi (Hk1 & Hf1 & _). apply elem_of_seqZ in Hi. destruct (zlookup_lt l i ltac:(lia)) as [k Hk].
    eapply Hbody; [done|done|]. eapply wp_mono; [apply flush_step; [done|]| |done]; [by apply (zlookup_Forall _ _ _ _ Hall Hk)|].
    intros [] s2 [H2 Hd]. split; [done|]. intros k' Hk'. by simplify_eq.
  - intros [] s1 [H1 Hd]. split; [done|]. intros k Hk. apply list_elem_of_lookup_1 in Hk as [i Hi].
    apply (Hd (Z.of_nat i)); [|by rewrite zlookup_of_nat]. apply elem_of_seqZ. apply lookup_lt_Some in Hi. lia.
Qed.

Lemma flush_level_ok level s X : file_log s texts -> st_loggers s !! p = Some lg -> 0 <= level < 4 ->
  wp (each_at_level p level Generic_flush) (fun _ s' => flushes texts s s' /\
    forall l k, (m_logStreams lg).[level] = Some l -> k ∈ l -> flushed texts k s') X s.
Proof using Hlg.
  intros Hfl Hp Hlev. destruct (zlookup_lt (m_logStreams lg) level) as [l Hl]; [rewrite (lo_levels _ _ Hlg); lia|].
  unfold each_at_level. apply wp_bind. eapply logger_wp; [done|]. apply wp_bind. eapply wp_ub; [done|].
  eapply wp_mono; [apply flush_list_ok; [done| |]| |exact (fun _ H => H)].
  - intros s1 i k Hk Hi Q HQ. apply wp_bind. eapply logger_wp; [by rewrite (kp_loggers _ _ Hk)|]. apply wp_bind. eapply wp_ub; [done|].
    apply wp_bind. by eapply wp_ub.
  - by apply (zlookup_Forall _ _ _ _ (lo_streams _ _ Hlg) Hl).
  - intros [] s1 [H1 Hd]. split; [done|]. intros l' k Hl' Hk. simplify_eq. auto.
Qed.

Lemma flush_tag_ok tag s X : file_log s texts -> st_loggers s !! p = Some lg -> tag ∈ (m_taggedStreams lg).*1 ->
  wp (each_with_tag p tag Generic_flush) (fun _ s' => flushes texts s s' /\ True) X s.
Proof using Hlg.
  intros Hfl Hp Htag. destruct (smap_find (m_taggedStreams lg) tag) as [l|] eqn:Hl; [|by apply smap_find_None in Hl].
  unfold each_with_tag. apply wp_bind. eapply logger_wp; [done|]. apply wp_bind. eapply wp_ub; [done|].
  eapply wp_mono; [apply flush_list_ok; [done| |]| |exact (fun _ H => H)].
  - intros s1 i k Hk Hi Q HQ. apply wp_bind. eapply logger_wp; [by rewrite (kp_loggers _ _ Hk)|]. apply wp_bind. eapply wp_ub; [done|].
    apply wp_bind. by eapply wp_ub.
  - pose proof (lo_tagged _ _ Hlg) as Ht. rewrite Forall_forall in Ht. by apply (Ht (tag, l)), smap_find_Some.
  - intros [] s1 [H1 Hd]. done.
Qed.

(** Flushing a logger flushes all its streams. *)
Lemma flush_logger_ok s X : file_log s texts -> st_loggers s !! p = Some lg ->
  wp (each_stream p Generic_flush) (fun _ s' => flushes texts s s' /\
    forall level l k, 0 <= level < 4 -> (m_logStreams lg).[level] = Some l -> k ∈ l -> flushed texts k s') X s.
Proof using Hlg.
  intros Hfl Hp. unfold each_stream. apply wp_bind.
  eapply wp_mono; [apply (wp_for_each_reach texts (fun level s => forall l k, (m_logStreams lg).[level] = Some l -> k ∈ l -> flushed texts k s)); [done| |]| |exact (fun _ H => H)].
  - intros level s1 s2 H1 H2 l k Hl Hk. eapply flushed_keep; eauto.
  - intros level s1 Hlev%level_range (Hk & Hf & _). apply flush_level_ok; [done|by rewrite (kp_loggers _ _ Hk)|done].
  - intros [] s1 [(Hk1 & Hf1 & Hd1) Hd]. apply wp_bind. eapply logger_wp; [by rewrite (kp_loggers _ _ Hk1)|].
    eapply wp_mono; [apply (wp_for_each_reach texts (fun _ _ => True)); [done|done|]| |exact (fun _ H => H)].
    + intros tag s2 Htag (Hk & Hf & _). apply flush_tag_ok; [done| |done]. by rewrite (kp_loggers _ _ Hk), (kp_loggers _ _ Hk1).
    + intros [] s2 [H2 _]. split; [by eapply flushes_trans|]. intros level l k Hlev Hl Hk. eapply flushed_keep; [|done].
      apply (Hd level) with l; [|done|done]. unfold levels, Error, Warning, Info, Debug. rewrite !elem_of_cons. lia.
Qed.

End logger.

Lemma file_log_logger s texts p lg : slic_ok s -> file_log s texts -> st_loggers s !! p = Some lg -> logger_ok (fun k => is_Some (texts !! k)) lg.
Proof.
  intros Hs Hfl Hp. eapply logger_ok_mono; [|by apply (ok_loggers _ Hs p)]. intros k Hk. by apply (fl_all _ _ Hfl).
Qed.

(** A message to the streams of a level, followed by a flush of the logger. *)
Lemma log_and_flush p lg l level message tag file line fd s texts X : slic_ok s -> file_log s texts -> st_loggers s !! p = Some lg ->
  0 <= level < 4 -> (m_isEnabled lg).[level] = Some true -> (m_logStreams lg).[level] = Some l -> NoDup l ->
  wp (Logger_logMessage p level message tag file line fd false)
    (fun _ s1 => kept s s1 /\ wp (each_stream p Generic_flush) (fun _ s2 => kept s s2 /\ exists texts', file_log s2 texts' /\
      forall k f t, texts !! k = Some (f, t) ->
        if decide (k ∈ l)
        then exists ls x, st_streams s !! k = Some ls /\ message_text (m_formatString ls) level message tag file line x /\
          texts' !! k = Some (f, (t ++ x)%string) /\ ((t ++ x)%string <> "" -> o_files (st_out s2) !! f = Some (t ++ x)%string)
        else texts' !! k = Some (f, t)) X s1) X s.
Proof.
  intros Hs Hfl Hp Hlev He Hl Hnd. pose proof (file_log_logger s texts p lg Hs Hfl Hp) as Hlg.
  eapply wp_mono; [apply (log_level_received p lg l); [done|done|done|done|done|]| |exact (fun _ H => H)].
  { exact (zlookup_Forall _ _ _ _ (lo_streams _ _ Hlg) Hl). }
  intros [] s1 (Hk1 & texts' & Hfl' & Hdom & Hrec). split; [done|].
  assert (logger_ok (fun k => is_Some (texts' !! k)) lg) as Hlg'.
  { eapply logger_ok_mono; [|exact Hlg]. intros k [[f t] Hk]. specialize (Hrec k f t Hk). destruct (decide (k ∈ l)); [|by eexists].
    destruct Hrec as (? & ? & _ & _ & ->). by eexists. }
  eapply wp_mono; [apply (flush_logger_ok p lg texts' Hlg'); [done|by rewrite (kp_loggers _ _ Hk1)]| |done].
  intros [] s2 [(Hk2 & Hfl2 & _) Hd]. split; [by eapply kept_trans|]. exists texts'. split; [done|]. intros k f t Hk. specialize (Hrec k f t Hk).
  destruct (decide (k ∈ l)) as [Hin|]; [|done]. destruct Hrec as (ls & x & H1 & H2 & H3). exists ls, x. split_and!; [done..|].
  intros Hne. by apply (Hd level l k Hlev Hl Hin f _ H3).
Qed.

(** C25: What is logged reaches the files.  In a state in order, with time stamps that are
    not empty, let all log streams be streams that SLIC made for files, which can be opened and are pairwise different (two streams on one file
    overwrite each other, [two_streams_one_file]).  When the active logger has the level
    enabled and each stream at most once at the level (a stream that is there twice gets
    the message twice, [added_twice]), logging a message and flushing leaves in the file of every stream of that level the
    text that the stream had before and then the message in the format of the stream;
    streams that are not of the level get nothing, and all streams stay in order. *)
Theorem log_reaches_files p lg l level message tag file line fd s texts : slic_ok s -> file_log s texts ->
  s_Logger s = Some p -> st_loggers s !! p = Some lg -> 0 <= level < 4 ->
  (m_isEnabled lg).[level] = Some true -> (m_logStreams lg).[level] = Some l -> NoDup l ->
  exists s' texts', (logMessage level message tag file line fd false;; flushStreams) s = Ret s' tt /\ file_log s' texts' /\
    forall k f t, texts !! k = Some (f, t) ->
      if decide (k ∈ l)
      then exists ls x, st_streams s !! k = Some ls /\ message_text (m_formatString ls) level message tag file line x /\
        texts' !! k = Some (f, (t ++ x)%string) /\ ((t ++ x)%string <> "" -> o_files (st_out s') !! f = Some (t ++ x)%string)
      else texts' !! k = Some (f, t).
Proof.
  intros Hs Hfl Hact Hp Hlev He Hl Hnd.
  assert (wp (logMessage level message tag file line fd false;; flushStreams) (fun _ s2 => exists texts', file_log s2 texts' /\
      forall k f t, texts !! k = Some (f, t) ->
        if decide (k ∈ l)
        then exists ls x, st_streams s !! k = Some ls /\ message_text (m_formatString ls) level message tag file line x /\
          texts' !! k = Some (f, (t ++ x)%string) /\ ((t ++ x)%string <> "" -> o_files (st_out s2) !! f = Some (t ++ x)%string)
        else texts' !! k = Some (f, t)) (fun _ => False) s) as Hw.
  { apply wp_bind. apply (on_active_noop 1); [done|by rewrite Hact|]. intros q lgq Hq Hlq. simplify_eq.
    pose proof (logMessage_ok p level message tag file line fd false lg s (fun _ => False) Hs Hp Hlev) as Hok.
    pose proof (log_and_flush p lg l level message tag file line fd s texts (fun _ => False) Hs Hfl Hp Hlev He Hl Hnd) as Hlog.
    unfold wp in Hok, Hlog |- *. destruct (Logger_logMessage _ _ _ _ _ _ _ _ s) as [s1 []|s1|]; [|done..]. destruct Hok as [Hs1 Hsame], Hlog as [Hk1 Hlog].
    apply (on_active_noop 1); [done|by rewrite (sm_active _ _ Hsame), Hact|]. intros q lgq Hq Hlq. rewrite (sm_active _ _ Hsame), Hact in Hq. simplify_eq.
    eapply wp_mono; [exact Hlog| |done]. by intros [] s2 [_ ?]. }
  unfold wp in Hw. destruct ((logMessage level message tag file line fd false;; flushStreams) s) as [s' []|s'|]; [|done..].
  destruct Hw as (texts' & ? & ?). by exists s', texts'.
Qed.

(** C26: An error message is written before the process ends.  In a state in order, with time
    stamps that are not empty, let all log streams be streams that SLIC made for files, which can be opened and are pairwise different.  When the
    active logger has errors enabled (a new logger has every level disabled), aborts on
    errors with the default abort function and has each stream for errors at most once,
    [SLIC_ERROR] ends the process, and at that time the file of every stream for errors has
    what it had before and then the message with its stack trace. *)
Theorem error_written_before_abort p lg l message file line s texts : slic_ok s -> file_log s texts ->
  s_Logger s = Some p -> st_loggers s !! p = Some lg -> m_abortOnError lg = true -> m_abortFunction lg = ProcessAbort ->
  (m_isEnabled lg).[Error] = Some true -> (m_logStreams lg).[Error] = Some l -> NoDup l ->
  exists s', SLIC_ERROR message file line s = Exit s' /\
    forall k f t, k ∈ l -> texts !! k = Some (f, t) ->
      exists ls x, st_streams s !! k = Some ls /\ message_text (m_formatString ls) Error (message ++ stacktrace) "" file line x /\
        ((t ++ x)%string <> "" -> o_files (st_out s') !! f = Some (t ++ x)%string).
Proof.
  intros Hs Hfl Hact Hp Hab Hfn He Hl Hnd.
  assert (wp (SLIC_ERROR message file line) (fun _ _ => False) (fun s' => forall k f t, k ∈ l -> texts !! k = Some (f, t) ->
      exists ls x, st_streams s !! k = Some ls /\ message_text (m_formatString ls) Error (message ++ stacktrace) "" file line x /\
        ((t ++ x)%string <> "" -> o_files (st_out s') !! f = Some (t ++ x)%string)) s) as Hw.
  { unfold SLIC_ERROR. apply wp_bind. apply (on_active_noop 1); [done|by rewrite Hact|]. intros q lgq Hq Hlq. simplify_eq.
    assert (0 <= Error < 4) as Hlev by done.
    pose proof (logMessage_ok p Error (message ++ stacktrace) "" file line false false lg s (fun _ => False) Hs Hp Hlev) as Hok.
    pose proof (log_and_flush p lg l Error (message ++ stacktrace) "" file line false s texts (fun _ => False) Hs Hfl Hp Hlev He Hl Hnd) as Hlog.
    unfold MSG_IGNORE_TAG. unfold wp in Hok, Hlog |- *. destruct (Logger_logMessage _ _ _ _ _ _ _ _ s) as [s1 []|s1|]; [|done..]. destruct Hok as [Hs1 Hsame], Hlog as [Hk1 Hlog].
    assert (st_loggers s1 !! p = Some lg) as Hp1 by (by rewrite (sm_loggers _ _ Hsame)).
    assert (s_Logger s1 = Some p) as Hact1 by (by rewrite (sm_active _ _ Hsame)).
    apply wp_bind. apply (on_active_noop 1); [done|by rewrite Hact1|]. intros q lgq Hq Hlq. simplify_eq. apply wp_bind. eapply logger_wp; [done|].
    apply wp_ret. rewrite Hab. apply (on_active_noop 1); [done|by rewrite Hact1|]. intros q lgq Hq Hlq'. simplify_eq.
    unfold Logger_abort. apply wp_bind. eapply wp_mono with (X := fun _ => False); [exact Hlog| |done].
    intros [] s2 [Hk2 (texts' & _ & Hrec)]. apply wp_bind. eapply logger_wp; [by rewrite (kp_loggers _ _ Hk2)|]. rewrite Hfn. unfold wp, exit_process.
    intros k f t Hk Hkt. specialize (Hrec k f t Hkt). rewrite decide_True in Hrec by done. destruct Hrec as (ls & x & ? & ? & _ & ?). by exists ls, x. }
  unfold wp in Hw. destruct (SLIC_ERROR message file line s) as [s' []|s'|]; [done| |done]. by exists s'.
Qed.


End contents.

(** ** Examples *)

#[local] Existing Instance sample_platform.

#[local] Instance sample_platform_laws : PlatformLaws.
Proof. by constructor. Qed.

#[local] Instance sample_environment : Environment GenericOutputStream Output := {| user_abort _ := mret tt; stacktrace := " (trace)" |}.

#[local] Instance sample_environment_laws : EnvironmentLaws.
Proof. constructor. intros id s Hs. by apply wp_ret. Qed.

(** Nothing has been done yet. *)
Definition initial : State GenericOutputStream Output := mkState no_output ∅ ∅ 0 [] None true false.

Lemma initial_ok : slic_ok initial.
Proof.
  constructor; cbn.
  - constructor; [intros k Hk; apply lookup_empty|by intros k ls; rewrite lookup_empty|by intros k1 k2 s1 s2 j ?; rewrite lookup_empty].
  - intros k _. by rewrite !lookup_empty.
  - apply NoDup_nil_2.
  - apply NoDup_nil_2.
  - intros p. rewrite elem_of_nil, lookup_empty. split; [done|by intros []].
  - done.
  - intros p lg. by rewrite lookup_empty.
  - intros p q lg lg'. by rewrite lookup_empty.
Qed.

Definition sample_format : string := "<LEVEL> <MESSAGE>\n".

(** A program with two loggers that share a stream. *)
Definition sample_calls : list (call (S := GenericOutputStream) (W := Output)) :=
  [CInitialize true; CNewStream (Generic_name_format "log" sample_format); CSetLoggingMsgLevel Info; CAddToAllMsgLevels (Some 1);
   CCreateLogger "other" inherit_everything; CLogMessage Info "hello" "" "" (-1) false false].

Lemma addable_decide (s : State GenericOutputStream Output) k : is_Some (st_streams s !! k) ->
  map_Forall (fun p lg => k ∈ m_streamObjectsManager lg -> s_Logger s = Some p) (st_loggers s) -> addable s k.
Proof. intros Hk Hm. split; [done|]. intros p lg Hp. by apply (Hm p lg). Qed.

#[local] Ltac legal_step :=
  cbn [calls_legal];
  match goal with |- _ /\ match ?r with _ => _ end =>
    let r' := eval vm_compute in r in split; [|assert (r = r') as -> by (vm_compute; reflexivity)] end.

Lemma sample_legal : calls_legal initial sample_calls.
Proof.
  unfold sample_calls. legal_step; [done|]. legal_step; [by apply Generic_name_creates|]. legal_step; [done|].
  legal_step. { apply addable_decide; [by eexists|]. apply (bool_decide_unpack _). by vm_compute. }
  legal_step; [done|]. legal_step; [done|]. done.
Qed.

Lemma slic_programs_safe_witness :
  match calls_run sample_calls initial with
  | Ret s1 _ => slic_ok s1 /\ exists s2 c, finalize s1 = Ret s2 tt /\
      steps flush_call (attached s1) (contents s1) = Some c /\ steps delete_call (managed s1) c = Some (contents s2) /\
      slic_ok s2 /\ st_loggers s2 = ∅ /\ s_loggers s2 = [] /\ s_Logger s2 = None /\
      forall k, live s2 k <-> live s1 k /\ ~ owned s1 k
  | Exit s1 => slic_ok s1
  | Undef => False
  end.
Proof. apply slic_programs_safe; [exact initial_ok|exact sample_legal]. Defined.

(** The state after this program. *)
Definition sample_state : State GenericOutputStream Output :=
  match calls_run sample_calls initial with Ret s _ => s | _ => initial end.

Lemma sample_state_ok : slic_ok sample_state.
Proof.
  pose proof (calls_ok sample_calls initial initial_ok sample_legal) as Hw. unfold wp in Hw. unfold sample_state.
  destruct (calls_run sample_calls initial); [done|exact initial_ok|done].
Qed.

Definition sample_texts : gmap Z (string * string) := {[ 1 := ("log", "INFO hello" ++ nl) ]}.

Lemma sample_file_log : file_log sample_state sample_texts.
Proof.
  assert (st_streams sample_state = {[ 1 := mkGeneric ("<LEVEL> <MESSAGE>" ++ nl) (Some (Object 0)) "log" false true ]}) as Hst by by vm_compute.
  assert (o_objects (st_out sample_state) = {[ 0 := Ostringstream ("INFO hello" ++ nl) ]}) as Ho by by vm_compute.
  assert (o_next (st_out sample_state) = 1) as Hn by by vm_compute. generalize dependent sample_state. intros s Hst Ho Hn.
  constructor; rewrite ?Hst; unfold sample_texts.
  - intros k f t [<- [= <- <-]]%lookup_singleton_Some. eexists. split_and!; [apply lookup_singleton_eq| |done].
    split_and!; [done..|]. exists 0. split_and!; [done|lia|]. left. by rewrite Ho, lookup_singleton_eq.
  - intros k [ls [<- _]%lookup_singleton_Some]. by eexists.
  - intros k1 k2 f1 f2 t1 t2 Hne [<- _]%lookup_singleton_Some [<- _]%lookup_singleton_Some. done.
  - intros k1 k2 l1 l2 j Hne [<- _]%lookup_singleton_Some [<- _]%lookup_singleton_Some. done.
  - intros k Hk. rewrite Ho. apply lookup_singleton_ne. lia.
Qed.

Lemma sample_logger : exists lg, st_loggers sample_state !! 0 = Some lg /\ m_abortOnError lg = true /\ m_abortFunction lg = ProcessAbort /\
  m_isEnabled lg = [true; true; true; false] /\ m_logStreams lg = [[1]; [1]; [1]; [1]].
Proof. eexists. by split_and!; [vm_compute; reflexivity|..]. Qed.

Lemma log_reaches_files_witness :
  exists s' texts', (logMessage Warning "again" "" "" (-1) false false;; flushStreams) sample_state = Ret s' tt /\ file_log s' texts' /\
    forall k f t, sample_texts !! k = Some (f, t) ->
      if decide (k ∈ [1])
      then exists ls x, st_streams sample_state !! k = Some ls /\ message_text (m_formatString ls) Warning "again" "" "" (-1) x /\
        texts' !! k = Some (f, (t ++ x)%string) /\ ((t ++ x)%string <> "" -> o_files (st_out s') !! f = Some (t ++ x)%string)
      else texts' !! k = Some (f, t).
Proof.
  destruct sample_logger as (lg & Hp & _ & _ & He & Hl).
  apply (log_reaches_files 0 lg [1]); [exact sample_state_ok|exact sample_file_log|vm_compute; reflexivity|exact Hp|unfold Warning; lia|rewrite He; reflexivity|rewrite Hl; reflexivity|apply NoDup_singleton].
Defined.

Lemma error_written_before_abort_witness :
  exists s', SLIC_ERROR "failed" "a.cpp" 7 sample_state = Exit s' /\
    forall k f t, k ∈ [1] -> sample_texts !! k = Some (f, t) ->
      exists ls x, st_streams sample_state !! k = Some ls /\ message_text (m_formatString ls) Error ("failed" ++ stacktrace) "" "a.cpp" 7 x /\
        ((t ++ x)%string <> "" -> o_files (st_out s') !! f = Some (t ++ x)%string).
Proof.
  destruct sample_logger as (lg & Hp & Ha & Hf & He & Hl).
  apply (error_written_before_abort 0 lg [1]);
    [exact sample_state_ok|exact sample_file_log|vm_compute; reflexivity|exact Hp|exact Ha|exact Hf|rewrite He; reflexivity|rewrite Hl; reflexivity|apply NoDup_singleton].
Defined.

(** [createLogger] without a root logger returns false, and the logger is there. *)
Example failed_creation_registers :
  match Logger_createLogger "lost" inherit_everything initial with Ret s b => Some (b, (s_loggers s).*1) | _ => None end = Some (false, ["lost"]).
Proof. by vm_compute. Qed.

(** When no level is enabled, the level of a logger is that of errors. *)
Example disabled_level_is_error :
  match (initialize true;; getLoggingMsgLevel) initial with Ret s l => Some l | _ => None end = Some Error.
Proof. by vm_compute. Qed.

(** A stream that is added to two loggers is deleted twice. *)
Example stream_of_two_loggers :
  (initialize true;; k ← new_stream (Generic_name_format "log" sample_format); addStreamToMsgLevel (Some k) Info;;
   createLogger "other" inherit_nothing;; _ ← activateLogger "other"; addStreamToMsgLevel (Some k) Info;; finalize) initial = Undef.
Proof. by vm_compute. Qed.

(** A stream that is at two levels is in the list of an inherited level twice when it was
    added twice; nothing filters duplicates. *)
Example added_twice :
  match (initialize true;; setLoggingMsgLevel Debug;; k ← new_stream (fun w => Some (Generic_os_format (Some Cout) "<MESSAGE> ", w));
         addStreamToMsgLevel (Some k) Info;; addStreamToMsgLevel (Some k) Info;; logMessage_text Info "once" true) initial with
  | Ret s _ => Some (o_cout (st_out s)) | _ => None end = Some "once once ".
Proof. by vm_compute. Qed.

End SlicGeneric.
