(* ===== verification/SlicSynchronized.v ===== *)
(** * The log stream that prints in the order of ranks

    [slic/streams/SynchronizedStream.cpp].  Each rank keeps its formatted messages in a
    cache; [flush] is collective: a rank waits for a signal of the rank before it, prints
    and signals the next one.  The ranks run concurrently, so a flush is a step relation
    on the states of all ranks, and the theorem holds for every interleaving. *)

From S2P Require Import Prelude PathStrings StdStrings StringUtilities SlicStreams.
From Stdlib Require Import Ascii String.
From stdpp Require Import relations.

Module SlicSynchronized.
Import PathStrings StdStrings StringUtilities SlicStreams.
#[local] Arguments String.append !_ _ /.
Open Scope string_scope.
Open Scope Z_scope.

(** ** State *)

(** A communicator is the rank of the process in it and its size; [None] is
    [MPI_COMM_NULL].  The cache is a pointer that can be null. *)
Record SynchronizedStream := mkSync {
  sy_formatString : string; m_comm : option (Z * Z); m_cache : option (list string); sy_stream : option ostream_ptr;
  sy_file_name : string; sy_isOstreamOwnedBySLIC : bool; sy_opened : bool }.

Definition with_cache (s : SynchronizedStream) (messages : list string) : SynchronizedStream :=
  mkSync (sy_formatString s) (m_comm s) (Some messages) (sy_stream s) (sy_file_name s) (sy_isOstreamOwnedBySLIC s) (sy_opened s).
Definition with_opened (s : SynchronizedStream) : SynchronizedStream :=
  mkSync (sy_formatString s) (m_comm s) (m_cache s) (sy_stream s) (sy_file_name s) (sy_isOstreamOwnedBySLIC s) true.
Definition with_format (s : SynchronizedStream) (format : string) : SynchronizedStream :=
  mkSync format (m_comm s) (m_cache s) (sy_stream s) (sy_file_name s) (sy_isOstreamOwnedBySLIC s) (sy_opened s).

(** An [std::ofstream] that has no file takes nothing. *)
Definition unopened : ostream := Ofstream "" false 0 "".

(** [open] of a stream without a file; of one that has a file it fails. *)
Definition open_stream `{!Platform} (w : Output) (k : Z) (x : ostream) (file : string) : Output :=
  match x with
  | Ofstream _ false _ _ => let '(w, x) := open_file w file in with_object w k x
  | Ofstream f true pos pending => with_object w k (Ofstream f false pos pending)
  | Ostringstream _ => w
  end.

(** ** Construction *)

Definition Sync_os (os : option ostream_ptr) (comm : option (Z * Z)) : SynchronizedStream :=
  mkSync default_format comm (Some []) os "" false false.
Definition Sync_os_format (os : option ostream_ptr) (comm : option (Z * Z)) (format : string) : SynchronizedStream :=
  mkSync format comm (Some []) os "" false false.

Definition Sync_name (stream : string) (comm : option (Z * Z)) (w : Output) : SynchronizedStream * Output :=
  if String.eqb stream "cout" then (mkSync default_format comm (Some []) (Some Cout) "" false true, w)
  else if String.eqb stream "cerr" then (mkSync default_format comm (Some []) (Some Cerr) "" false true, w)
  else let '(w, p) := new_object w unopened in (mkSync default_format comm (Some []) (Some p) stream true false, w).

Definition Sync_name_format (stream : string) (comm : option (Z * Z)) (format : string) (w : Output) :
    option (SynchronizedStream * Output) :=
  let '(s, w) := Sync_name stream comm w in
  f ← replaceAllInstances format "\n" nl;
  format_fixed ← replaceAllInstances f "\t" tab;
  Some (with_format s format_fixed, w).

Definition Sync_delete (s : SynchronizedStream) (w : Output) : option Output :=
  if sy_isOstreamOwnedBySLIC s then match sy_stream s with Some p => delete_stream w p | None => Some w end else Some w.

Section sync.
Context `{!Platform}.

(** ** Operations of one rank *)

(** The rank of a null communicator is an error of MPI. *)
Definition Sync_append (s : SynchronizedStream) (msgLevel : Z) (message tagName fileName : string) (line : Z)
    (w : Output) : option (SynchronizedStream * Output) :=
  match m_cache s with
  | None => Some (s, write_cerr ("ERROR: NULL cache!" ++ nl) w)
  | Some messages =>
    '(rank, _) ← m_comm s;
    text ← getFormatedMessage (sy_formatString s) (asctime (o_clock w)) (getLevelAsString msgLevel) message tagName
      (to_string rank) "1" fileName line;
    Some (with_cache s (messages ++ [text])%list, tick w)
  end.

Definition Sync_openBeforeFlush (s : SynchronizedStream) (w : Output) : option (SynchronizedStream * Output) :=
  if sy_isOstreamOwnedBySLIC s && negb (sy_opened s) then
    messages ← m_cache s;
    match messages, sy_stream s with
    | [], _ => Some (s, w)
    | _, Some (Object k) =>
      x ← o_objects w !! k;
      match x with
      | Ofstream _ _ _ _ => Some (with_opened s, open_stream w k x (sy_file_name s))
      | Ostringstream _ => Some (s, w)
      end
    | _, _ => Some (s, w)
    end
  else Some (s, w).

Fixpoint insert_messages (w : Output) (p : ostream_ptr) (messages : list string) : option Output :=
  match messages with [] => Some w | text :: messages => w ← insert_text w p text; insert_messages w p messages end.

(** [MessageCache::printMessages], which gives the messages that are left. *)
Definition printMessages (messages : list string) (stream : option ostream_ptr) (w : Output) : option (list string * Output) :=
  match stream with
  | None => Some (messages, write_cerr ("ERROR: cannot write to NULL stream!" ++ nl) w)
  | Some p =>
    match messages with
    | [] => Some (messages, w)
    | _ => w ← insert_messages w p messages; w ← flush_stream w p; Some ([], w)
    end
  end.

Definition Sync_outputLocal (s : SynchronizedStream) (w : Output) : option (SynchronizedStream * Output) :=
  match m_cache s, m_comm s with
  | None, _ => Some (s, write_cerr ("ERROR: NULL cache!" ++ nl) w)
  | Some _, None => Some (s, write_cerr ("ERROR: NULL communicator!" ++ nl) w)
  | Some _, Some _ =>
    '(s, w) ← Sync_openBeforeFlush s w;
    messages ← m_cache s;
    '(messages, w) ← printMessages messages (sy_stream s) w;
    Some (with_cache s messages, w)
  end.

(** ** The collective flush

    Where a rank is in [flush], and how many signals of the rank before it have not been
    received yet.  [Printing i] is the loop of [printMessages] before message [i]. *)

Inductive pc := Entered | Waiting | Printing (i : nat) | Signalling | Returned.

Record RankState := mkRank { n_stream : SynchronizedStream; n_pc : pc; n_inbox : nat }.

(** All ranks of a communicator in order, and the output that they share. *)
Record World := mkWorld { w_nodes : list RankState; w_out : Output }.

(** A step of a rank: it moves, it has to wait (or has returned), or its behaviour is
    undefined. *)
Inductive move := Moved (c : World) | Blocked | Invalid.

Definition signal (n : RankState) : RankState := mkRank (n_stream n) (n_pc n) (S (n_inbox n)).

Definition sync_step (c : World) (r : nat) : move :=
  match w_nodes c !! r with
  | None => Blocked
  | Some n =>
    let s := n_stream n in
    let w := w_out c in
    let go s pc inbox w := Moved (mkWorld (<[r := mkRank s pc inbox]> (w_nodes c)) w) in
    match n_pc n with
    | Entered =>
      match m_cache s, m_comm s with
      | None, _ => go s Returned (n_inbox n) (write_cerr ("ERROR: NULL cache!" ++ nl) w)
      | Some _, None => go s Returned (n_inbox n) (write_cerr ("ERROR: NULL communicator!" ++ nl) w)
      | Some _, Some _ =>
        match Sync_openBeforeFlush s w with Some (s, w) => go s Waiting (n_inbox n) w | None => Invalid end
      end
    | Waiting =>
      match m_comm s with
      | None => Invalid
      | Some (rank, _) =>
        if 0 <? rank then match n_inbox n with O => Blocked | S k => go s (Printing 0) k w end
        else go s (Printing 0) (n_inbox n) w
      end
    | Printing i =>
      match m_cache s, sy_stream s with
      | None, _ => Invalid
      | Some _, None => go s Signalling (n_inbox n) (write_cerr ("ERROR: cannot write to NULL stream!" ++ nl) w)
      | Some messages, Some p =>
        match messages !! i with
        | Some text => match insert_text w p text with Some w => go s (Printing (S i)) (n_inbox n) w | None => Invalid end
        | None =>
          match messages with
          | [] => go s Signalling (n_inbox n) w
          | _ => match flush_stream w p with Some w => go (with_cache s []) Signalling (n_inbox n) w | None => Invalid end
          end
        end
      end
    | Signalling =>
      match m_comm s with
      | None => Invalid
      | Some (rank, nranks) =>
        let nodes := <[r := mkRank s Returned (n_inbox n)]> (w_nodes c) in
        Moved (mkWorld (if (1 <? nranks) && (rank + 1 <? nranks) then alter signal (Z.to_nat (rank + 1)) nodes else nodes) w)
      end
    | Returned => Blocked
    end
  end.

(** Some rank makes a step. *)
Definition step (c c' : World) : Prop := exists r, sync_step c r = Moved c'.

(** The ranks of a schedule make steps one after the other. *)
Fixpoint run_schedule (c : World) (schedule : list nat) : option World :=
  match schedule with
  | [] => Some c
  | r :: schedule => match sync_step c r with Moved c => run_schedule c schedule | _ => None end
  end.

Definition enter (s : SynchronizedStream) : RankState := mkRank s Entered 0.

Definition flush_start (streams : list SynchronizedStream) (w : Output) : World := mkWorld (enter <$> streams) w.

Definition all_returned (c : World) : Prop := Forall (fun n => n_pc n = Returned) (w_nodes c).

(** ** Flushing to the console

    Every rank has a stream to the same console. *)

Definition console_write (p : ostream_ptr) (text : string) (w : Output) : Output :=
  match p with Cout => write_cout text w | Cerr => write_cerr text w | Object _ => w end.

Definition is_console (p : ostream_ptr) : Prop := match p with Object _ => False | _ => True end.

Fixpoint str_concat (l : list string) : string :=
  match l with [] => "" | x :: l => x ++ str_concat l end.

Lemma str_concat_app l1 l2 : str_concat (l1 ++ l2) = (str_concat l1 ++ str_concat l2)%string.
Proof. induction l1 as [|x l1 IH]; cbn; [done|]. by rewrite IH, str_app_assoc. Qed.

Lemma insert_text_console p text w : is_console p -> insert_text w p text = Some (console_write p text w).
Proof. by destruct p. Qed.

Lemma flush_console p w : is_console p -> flush_stream w p = Some w.
Proof. by destruct p. Qed.

Lemma console_write_app p a b w : console_write p b (console_write p a w) = console_write p (a ++ b)%string w.
Proof. destruct p, w; cbn; unfold write_cout, write_cerr; cbn; [by rewrite str_app_assoc..|done]. Qed.

Lemma console_write_empty p w : console_write p "" w = w.
Proof. destruct p, w; cbn; unfold write_cout, write_cerr; cbn; [by rewrite str_app_nil..|done]. Qed.

Definition cached (s : SynchronizedStream) : list string := default [] (m_cache s).

(** How many steps a rank still has to make. *)
Definition steps_left (n : RankState) : nat :=
  let N := List.length (cached (n_stream n)) in
  match n_pc n with
  | Entered => N + 4 | Waiting => N + 3 | Printing i => N - i + 2 | Signalling => 1 | Returned => 0
  end.

Definition total_left (c : World) : nat := sum_list_with steps_left (w_nodes c).

Lemma total_update l r n n' : l !! r = Some n -> steps_left n = S (steps_left n') ->
  sum_list_with steps_left l = S (sum_list_with steps_left (<[r := n']> l)).
Proof.
  revert r. induction l as [|x l IH]; intros [|r]; cbn -[steps_left]; [done..| |].
  - intros [= ->] ->. lia.
  - intros Hl Hn. rewrite (IH r Hl Hn). apply Nat.add_succ_r.
Qed.

Lemma signal_nobody (l : list RankState) i : (List.length l <= i)%nat -> alter signal i l = l.
Proof. revert i. induction l as [|x l IH]; intros [|i]; cbn; [done..|lia|]. intros Hi. f_equal. apply IH. lia. Qed.

Lemma total_signal l i : sum_list_with steps_left (alter signal i l) = sum_list_with steps_left l.
Proof. revert i. induction l as [|x l IH]; intros [|i]; cbn -[steps_left]; [done..|]. by rewrite IH. Qed.

Section console.
Context (streams : list SynchronizedStream) (p : ostream_ptr) (w0 : Output).

Definition console_streams : Prop := forall i s, streams !! i = Some s ->
  m_comm s = Some (Z.of_nat i, Z.of_nat (List.length streams)) /\ is_Some (m_cache s) /\ sy_stream s = Some p /\
  sy_isOstreamOwnedBySLIC s = false.

(** Rank 0 needs no signal. *)
Definition signals (j : nat) : nat := match j with O => 0 | S _ => 1 end.

(** The ranks before [k] have returned, those after it have not got their signal. *)
Definition current (j : nat) (s : SynchronizedStream) (n : RankState) : Prop :=
  n = mkRank s Entered (signals j) \/ n = mkRank s Waiting (signals j) \/
  (exists i, (i <= List.length (cached s))%nat /\ n = mkRank s (Printing i) 0) \/ n = mkRank (with_cache s []) Signalling 0.

Definition node_ok (k j : nat) (s : SynchronizedStream) (n : RankState) : Prop :=
  ((j < k)%nat /\ n = mkRank (with_cache s []) Returned 0) \/ (j = k /\ current j s n) \/
  ((k < j)%nat /\ (n = mkRank s Entered 0 \/ n = mkRank s Waiting 0)).

(** What rank [k] has printed. *)
Definition printed (s : SynchronizedStream) (n : RankState) : string :=
  match n_pc n with
  | Entered | Waiting => "" | Printing i => str_concat (take i (cached s)) | Signalling | Returned => str_concat (cached s)
  end.

Definition printed_at (k : nat) (c : World) : string :=
  match streams !! k, w_nodes c !! k with Some s, Some n => printed s n | _, _ => "" end.

(** The messages of the ranks before [k]. *)
Definition before (k : nat) : string := str_concat (mjoin (cached <$> take k streams)).

Record flushing (k : nat) (c : World) : Prop := {
  fl_k : (k <= List.length streams)%nat;
  fl_length : List.length (w_nodes c) = List.length streams;
  fl_nodes : forall j s n, streams !! j = Some s -> w_nodes c !! j = Some n -> node_ok k j s n;
  fl_out : w_out c = console_write p (before k ++ printed_at k c)%string w0 }.

Lemma flushing_start : flushing 0 (flush_start streams w0).
Proof.
  constructor; cbn; [lia|by rewrite length_fmap| |].
  - intros j s n Hs Hn. rewrite list_lookup_fmap, Hs in Hn. cbn in Hn. simplify_eq.
    destruct j as [|j]; [right; left; split; [done|by left]|right; right; split; [lia|by left]].
  - unfold before, printed_at. cbn. destruct streams as [|s l]; cbn; by rewrite console_write_empty.
Qed.

(** Updating a node of a rank that is not before [k]. *)
Lemma flushing_update k c r s n n' out : flushing k c -> streams !! r = Some s -> w_nodes c !! r = Some n -> node_ok k r s n' ->
  (r = k -> out = console_write p (before k ++ printed s n')%string w0) -> (r <> k -> out = w_out c) ->
  flushing k (mkWorld (<[r := n']> (w_nodes c)) out).
Proof.
  intros [Hk Hl Hn Ho] Hs Hr Hok Hout Hout'. constructor; cbn; [done|by rewrite length_insert| |].
  - intros j t m Ht Hm. destruct (decide (j = r)) as [->|Hj].
    + rewrite list_lookup_insert_eq in Hm by (by eapply lookup_lt_Some). by simplify_eq.
    + rewrite list_lookup_insert_ne in Hm by done. by apply (Hn j).
  - unfold printed_at. cbn. destruct (decide (r = k)) as [<-|Hne].
    + rewrite Hout by done. rewrite Hs, list_lookup_insert_eq by (by eapply lookup_lt_Some). done.
    + rewrite Hout', Ho by done. unfold printed_at. by rewrite list_lookup_insert_ne.
Qed.

Lemma before_S k s : streams !! k = Some s -> before (S k) = (before k ++ str_concat (cached s))%string.
Proof.
  intros Hs. unfold before. rewrite (take_S_r _ _ s) by done. rewrite fmap_app, join_app, str_concat_app. cbn. by rewrite app_nil_r.
Qed.

(** Rank [k] signals and returns. *)
Lemma flushing_next k c s n : flushing k c -> console_streams -> streams !! k = Some s -> w_nodes c !! k = Some n ->
  n = mkRank (with_cache s []) Signalling 0 ->
  flushing (S k) (mkWorld (alter signal (S k) (<[k := mkRank (with_cache s []) Returned 0]> (w_nodes c))) (w_out c)).
Proof.
  intros [Hk Hl Hn Ho] _ Hs Hr ->. pose proof (lookup_lt_Some _ _ _ Hs) as Hlt. constructor; cbn; [lia|by rewrite length_alter, length_insert| |].
  - intros j t m Ht Hm. destruct (decide (j = S k)) as [->|Hj].
    + rewrite list_lookup_alter_eq, list_lookup_insert_ne in Hm by lia. apply fmap_Some in Hm as (m' & Hm' & ->).
      destruct (Hn _ _ _ Ht Hm') as [[? _]|[[? _]|[_ Hw]]]; [lia..|]. right. left. split; [done|]. unfold current.
      destruct Hw as [-> | ->]; [by left|right; by left].
    + rewrite list_lookup_alter_ne in Hm by done. destruct (decide (j = k)) as [->|Hjk].
      * rewrite list_lookup_insert_eq in Hm by lia. simplify_eq. left. split; [lia|done].
      * rewrite list_lookup_insert_ne in Hm by done. destruct (Hn _ _ _ Ht Hm) as [[? ->]|[[? _]|[? Hw]]]; [left; split; [lia|done]|done|].
        right. right. split; [lia|done].
  - rewrite Ho, (before_S k s Hs). f_equal. unfold printed_at. rewrite Hs, Hr. cbn. rewrite list_lookup_alter_eq, list_lookup_insert_ne by lia.
    destruct (streams !! S k) as [t|] eqn:Ht; [|by rewrite str_app_nil]. destruct (w_nodes c !! S k) as [m|] eqn:Hm; [|cbn; by rewrite str_app_nil].
    destruct (Hn _ _ _ Ht Hm) as [[? _]|[[? _]|[_ Hw]]]; [lia..|]. destruct Hw as [-> | ->]; cbn; by rewrite str_app_nil.
Qed.

Lemma rank_stream k c r n : flushing k c -> console_streams -> w_nodes c !! r = Some n ->
  exists s ms, streams !! r = Some s /\ node_ok k r s n /\ m_comm s = Some (Z.of_nat r, Z.of_nat (List.length streams)) /\
    m_cache s = Some ms /\ cached s = ms /\ sy_stream s = Some p /\ (forall w, Sync_openBeforeFlush s w = Some (s, w)).
Proof.
  intros Hfl Hst Hr. destruct (lookup_lt_is_Some_2 streams r) as [s Hs]; [rewrite <- (fl_length _ _ Hfl); by eapply lookup_lt_Some|].
  destruct (Hst r s Hs) as (H1 & [ms H2] & H3 & H4). exists s, ms. split_and!; [done|by eapply fl_nodes|done|done|by unfold cached; rewrite H2|done|].
  intros w. unfold Sync_openBeforeFlush. by rewrite H4.
Qed.

(** A step of a rank as the invariant sees it. *)
Definition steps_to (c : World) (r k' : nat) : Prop :=
  exists c', sync_step c r = Moved c' /\ flushing k' c' /\ total_left c = S (total_left c').

Lemma steps_to_update k c r s n n' out : flushing k c -> streams !! r = Some s -> w_nodes c !! r = Some n ->
  sync_step c r = Moved (mkWorld (<[r := n']> (w_nodes c)) out) -> node_ok k r s n' -> steps_left n = S (steps_left n') ->
  (r = k -> out = console_write p (before k ++ printed s n')%string w0) -> (r <> k -> out = w_out c) -> steps_to c r k.
Proof.
  intros Hfl Hs Hr Hstep Hok Hleft H1 H2. eexists. split_and!; [exact Hstep|by eapply flushing_update|]. by eapply total_update.
Qed.

(** The printing loop of rank [k]. *)
Lemma step_printing k c s ms i : is_console p -> flushing k c -> streams !! k = Some s -> m_cache s = Some ms -> sy_stream s = Some p ->
  (i <= List.length ms)%nat -> w_nodes c !! k = Some (mkRank s (Printing i) 0) -> steps_to c k k.
Proof.
  intros Hp Hfl Hs Hms Hstr Hi Hk. assert (cached s = ms) as Hc by (unfold cached; by rewrite Hms).
  assert (w_out c = console_write p (before k ++ str_concat (take i ms))%string w0) as Ho.
  { rewrite (fl_out _ _ Hfl). unfold printed_at. rewrite Hs, Hk. unfold printed. cbn. by rewrite Hc. }
  destruct (ms !! i) as [text|] eqn:Ei.
  - eapply (steps_to_update k c k s _ (mkRank s (Printing (S i)) 0) (console_write p text (w_out c))); [done|done|done| | | | |done].
    + unfold sync_step. rewrite Hk. cbn [n_pc n_stream n_inbox]. rewrite Hms, Hstr, Ei, insert_text_console by done. reflexivity.
    + right. left. split; [done|]. right. right. left. exists (S i). split; [|done]. rewrite Hc. by apply lookup_lt_Some in Ei.
    + unfold steps_left. cbn. rewrite Hc. apply lookup_lt_Some in Ei. lia.
    + intros _. rewrite Ho, console_write_app. f_equal. unfold printed. cbn. rewrite Hc, (take_S_r _ _ _ Ei), str_concat_app. cbn.
      by rewrite str_app_nil, str_app_assoc.
  - apply lookup_ge_None_1 in Ei as Hge. rewrite take_ge in Ho by lia.
    eapply (steps_to_update k c k s _ (mkRank (with_cache s []) Signalling 0) (w_out c)); [done|done|done| | | | |done].
    + unfold sync_step. rewrite Hk. cbn [n_pc n_stream n_inbox]. rewrite Hms, Hstr, Ei. destruct ms as [|m ms]; [|by rewrite flush_console].
      replace (with_cache s []) with s; [done|]. unfold with_cache. rewrite <- Hms. by destruct s.
    + right. left. split; [done|]. right. right. by right.
    + unfold steps_left. cbn. rewrite Hc. lia.
    + intros _. rewrite Ho. unfold printed. cbn. by rewrite Hc.
Qed.

(** Rank [k] can always make a step. *)
Lemma step_current k c n : is_console p -> console_streams -> flushing k c -> w_nodes c !! k = Some n ->
  exists k', steps_to c k k'.
Proof.
  intros Hp Hst Hfl Hk. destruct (rank_stream k c k n Hfl Hst Hk) as (s & ms & Hs & Hok & Hcomm & Hms & Hc & Hstr & Hopen).
  pose proof (fl_out _ _ Hfl) as Ho. unfold printed_at in Ho. rewrite Hs, Hk in Ho.
  destruct Hok as [[? _]|[[_ Hcur]|[? _]]]; [lia| |lia]. destruct Hcur as [-> |[-> |[(i & Hi & ->)| ->]]].
  - exists k. eapply (steps_to_update k c k s _ (mkRank s Waiting (signals k)) (w_out c)); [done|done|done| | | | |done].
    + unfold sync_step. rewrite Hk. cbn [n_pc n_stream n_inbox]. rewrite Hms, Hcomm, Hopen. reflexivity.
    + right. left. split; [done|]. right. by left.
    + unfold steps_left. cbn. lia.
    + intros _. exact Ho.
  - exists k. eapply (steps_to_update k c k s _ (mkRank s (Printing 0) 0) (w_out c)); [done|done|done| | | | |done].
    + unfold sync_step. rewrite Hk. cbn [n_pc n_stream n_inbox]. rewrite Hcomm. destruct k as [|k]; reflexivity.
    + right. left. split; [done|]. right. right. left. exists O. split; [lia|done].
    + unfold steps_left. cbn. lia.
    + intros _. exact Ho.
  - exists k. rewrite Hc in Hi. by eapply (step_printing k c s ms i).
  - exists (S k). eexists. split_and!; [|by eapply flushing_next|].
    + unfold sync_step. rewrite Hk. cbn [n_pc n_stream n_inbox with_cache m_comm]. rewrite Hcomm. cbn [n_inbox]. f_equal. f_equal.
      replace (Z.to_nat (Z.of_nat k + 1)) with (S k) by lia. pose proof (lookup_lt_Some _ _ _ Hs).
      destruct ((1 <? Z.of_nat (List.length streams)) && (Z.of_nat k + 1 <? Z.of_nat (List.length streams))) eqn:E; [done|].
      symmetry. apply signal_nobody. rewrite length_insert, (fl_length _ _ Hfl).
      apply andb_false_iff in E as [E%Z.ltb_ge|E%Z.ltb_ge]; lia.
    + unfold total_left. cbn [w_nodes]. rewrite total_signal. by eapply total_update.
Qed.

(** The other ranks wait, have returned, or enter. *)
Lemma step_other k c r n : console_streams -> flushing k c -> w_nodes c !! r = Some n -> r <> k ->
  sync_step c r = Blocked \/ steps_to c r k.
Proof.
  intros Hst Hfl Hr Hne. destruct (rank_stream k c r n Hfl Hst Hr) as (s & ms & Hs & Hok & Hcomm & Hms & Hc & Hstr & Hopen).
  destruct Hok as [[_ ->]|[[? _]|[? [-> | ->]]]]; [|done| |].
  - left. unfold sync_step. by rewrite Hr.
  - right. eapply (steps_to_update k c r s _ (mkRank s Waiting 0) (w_out c)); [done|done|done| | | |done|done].
    + unfold sync_step. rewrite Hr. cbn [n_pc n_stream n_inbox]. rewrite Hms, Hcomm, Hopen. reflexivity.
    + right. right. split; [done|by right].
    + unfold steps_left. cbn. lia.
  - left. unfold sync_step. rewrite Hr. cbn [n_pc n_stream n_inbox]. rewrite Hcomm. by rewrite (proj2 (Z.ltb_lt _ _)) by lia.
Qed.

Lemma flushing_step k c r c' : is_console p -> console_streams -> flushing k c -> sync_step c r = Moved c' ->
  exists k', flushing k' c' /\ total_left c = S (total_left c').
Proof.
  intros Hp Hst Hfl Hstep. destruct (w_nodes c !! r) as [n|] eqn:Hr; [|by unfold sync_step in Hstep; rewrite Hr in Hstep].
  destruct (decide (r = k)) as [->|Hne].
  - destruct (step_current k c n Hp Hst Hfl Hr) as (k' & c1 & Hc1 & ? & ?). rewrite Hc1 in Hstep. simplify_eq. by exists k'.
  - destruct (step_other k c r n Hst Hfl Hr Hne) as [Hb|(c1 & Hc1 & ? & ?)]; rewrite Hstep in *; [done|]. simplify_eq. by exists k.
Qed.

Lemma flushing_steps m c : is_console p -> console_streams -> nsteps step m (flush_start streams w0) c ->
  exists k, flushing k c /\ total_left (flush_start streams w0) = (m + total_left c)%nat.
Proof.
  intros Hp Hst. revert c. induction m as [|m IH]; intros c Hm.
  - inversion Hm; subst. exists O. split; [apply flushing_start|done].
  - apply nsteps_inv_r in Hm as (c1 & Hm & r & Hstep). destruct (IH c1 Hm) as (k & Hfl & Ht).
    destruct (flushing_step k c1 r c Hp Hst Hfl Hstep) as (k' & Hfl' & Ht'). exists k'. split; [done|lia].
Qed.

(** When all ranks have returned, everything is printed. *)
Lemma flushing_returned k c : flushing k c -> all_returned c -> k = List.length streams.
Proof.
  intros Hfl Hall. destruct (decide (k = List.length streams)) as [|Hne]; [done|]. pose proof (fl_k _ _ Hfl).
  destruct (lookup_lt_is_Some_2 streams k) as [s Hs]; [lia|].
  destruct (lookup_lt_is_Some_2 (w_nodes c) k) as [n Hn]; [rewrite (fl_length _ _ Hfl); lia|].
  pose proof (Forall_lookup_1 _ _ _ _ Hall Hn) as Hpc. cbv beta in Hpc.
  destruct (fl_nodes _ _ Hfl _ _ _ Hs Hn) as [[? _]|[[_ Hcur]|[? _]]]; [lia| |lia].
  by destruct Hcur as [-> |[-> |[(i & _ & ->)| ->]]].
Qed.

Lemma flushing_nodes c : flushing (List.length streams) c ->
  w_nodes c = (fun s => mkRank (with_cache s []) Returned 0) <$> streams.
Proof.
  intros Hfl. apply list_eq. intros j. rewrite list_lookup_fmap. pose proof (fl_length _ _ Hfl) as Hl.
  destruct (streams !! j) as [s|] eqn:Hs; cbn.
  - pose proof (lookup_lt_Some _ _ _ Hs). destruct (lookup_lt_is_Some_2 (w_nodes c) j) as [n Hn]; [lia|]. rewrite Hn.
    destruct (fl_nodes _ _ Hfl _ _ _ Hs Hn) as [[_ ->]|[[? _]|[? _]]]; [done|lia..].
  - apply lookup_ge_None_2. apply lookup_ge_None_1 in Hs. lia.
Qed.

Lemma before_all : before (List.length streams) = str_concat (mjoin (cached <$> streams)).
Proof. unfold before. by rewrite take_ge. Qed.

(** What is printed is the beginning of all messages. *)
Lemma printed_prefix k c : flushing k c ->
  exists rest, str_concat (mjoin (cached <$> streams)) = (before k ++ printed_at k c ++ rest)%string.
Proof.
  intros Hfl. unfold before, printed_at. 
  assert (cached <$> streams = ((cached <$> take k streams) ++ (cached <$> drop k streams))%list) as -> by (by rewrite <- fmap_app, take_drop).
  rewrite join_app, str_concat_app.
  destruct (streams !! k) as [s|] eqn:Hs; [|by eexists]. rewrite (drop_S _ _ _ Hs). cbn [fmap list_fmap mjoin list_join]. rewrite str_concat_app.
  destruct (w_nodes c !! k) as [n|]; [|by eexists]. unfold printed. destruct (n_pc n) as [| |i| |]; [by eexists..| |by eexists|by eexists].
  exists (str_concat (drop i (cached s)) ++ str_concat (mjoin (cached <$> drop (S k) streams)))%string.
  by rewrite <- (str_app_assoc (str_concat (take i _))), <- (str_concat_app (take i _)), take_drop.
Qed.

End console.

(** C9: A collective flush prints the messages of all ranks in the order of the ranks,
    whatever the interleaving.  At every point of every run no rank misbehaves, what has
    been printed is the beginning of the messages of rank 0, rank 1 and so on, and some
    rank can go on unless all have returned.  Every run ends after the same number of
    steps; then everything is printed once, the caches are empty and no signal is left
    over. *)
Theorem sync_flush_in_rank_order streams p w m c :
  is_console p -> console_streams streams p -> nsteps step m (flush_start streams w) c ->
  let all := str_concat (mjoin (cached <$> streams)) in
  let bound := sum_list_with (fun s => List.length (cached s) + 4)%nat streams in
  (forall r, sync_step c r <> Invalid) /\
  (exists text rest, w_out c = console_write p text w /\ all = (text ++ rest)%string) /\
  (m <= bound)%nat /\ (all_returned c \/ exists c', step c c') /\
  (all_returned c -> m = bound /\ w_out c = console_write p all w /\
    w_nodes c = (fun s => mkRank (with_cache s []) Returned 0) <$> streams).
Proof.
  intros Hp Hst Hm all bound. destruct (flushing_steps streams p w m c Hp Hst Hm) as (k & Hfl & Ht).
  assert (total_left (flush_start streams w) = bound) as Hb.
  { unfold total_left, flush_start, bound. cbn. clear. induction streams as [|s l IH]; [done|]. cbn -[steps_left]. rewrite <- IH. done. }
  split_and!.
  - intros r Hr. destruct (w_nodes c !! r) as [n|] eqn:Hn; [|by unfold sync_step in Hr; rewrite Hn in Hr].
    destruct (decide (r = k)) as [->|Hne].
    + destruct (step_current streams p w k c n Hp Hst Hfl Hn) as (k' & c1 & Hc1 & _). by rewrite Hc1 in Hr.
    + destruct (step_other streams p w k c r n Hst Hfl Hn Hne) as [Hc1|(c1 & Hc1 & _)]; by rewrite Hc1 in Hr.
  - destruct (printed_prefix streams p w k c Hfl) as [rest Hrest]. exists (before streams k ++ printed_at streams k c)%string, rest.
    split; [apply Hfl|]. by rewrite str_app_assoc.
  - lia.
  - destruct (decide (k = List.length streams)) as [->|Hne].
    + left. unfold all_returned. rewrite (flushing_nodes streams p w c Hfl). apply Forall_fmap, Forall_true. done.
    + right. pose proof (fl_k _ _ _ _ _ Hfl). destruct (lookup_lt_is_Some_2 (w_nodes c) k) as [n Hn]; [rewrite (fl_length _ _ _ _ _ Hfl); lia|].
      destruct (step_current streams p w k c n Hp Hst Hfl Hn) as (k' & c1 & Hc1 & _). exists c1. by exists k.
  - intros Hall. pose proof (flushing_returned streams p w k c Hfl Hall) as ->. pose proof (flushing_nodes streams p w c Hfl) as Hn.
    split_and!; [|rewrite (fl_out _ _ _ _ _ Hfl), before_all; unfold printed_at; by rewrite lookup_ge_None_2, str_app_nil by lia|done].
    assert (total_left c = O) as H0; [|lia]. unfold total_left. rewrite Hn. clear. induction streams as [|s l IH]; [done|]. exact IH.
Qed.

Lemma run_schedule_steps c l c' : run_schedule c l = Some c' -> nsteps step (List.length l) c c'.
Proof.
  revert c. induction l as [|r l IH]; intros c; cbn; [intros [= ->]; by constructor|].
  destruct (sync_step c r) as [c1| |] eqn:E; [|done..]. intros Hr. econstructor; [by exists r|by apply IH].
Qed.

End sync.

(** ** Examples *)

#[local] Existing Instance sample_platform.

Definition sample_sync (r : Z) (messages : list string) : SynchronizedStream :=
  mkSync "<MESSAGE>" (Some (r, 3)) (Some messages) (Some Cout) "" false false.

Definition sample_streams : list SynchronizedStream := [sample_sync 0 ["a"; "b"]; sample_sync 1 []; sample_sync 2 ["c"]].

(** The last rank goes first as far as it can. *)
Definition sample_schedule : list nat := [2; 1; 0; 0; 0; 0; 0; 0; 1; 1; 1; 2; 2; 2; 2]%nat.

Definition sample_end : World :=
  mkWorld ((fun s => mkRank (with_cache s []) Returned 0) <$> sample_streams) (write_cout "abc" no_output).

Lemma sample_console : console_streams sample_streams Cout.
Proof. intros [|[|[|i]]] s [= <-]; cbn; by split_and!; [|eexists|..]. Qed.

Lemma sync_flush_in_rank_order_witness :
  nsteps step 15 (flush_start sample_streams no_output) sample_end /\
  (forall r, sync_step sample_end r <> Invalid) /\ o_cout (w_out sample_end) = "abc".
Proof.
  assert (nsteps step 15 (flush_start sample_streams no_output) sample_end) as Hrun by (apply (run_schedule_steps _ sample_schedule); reflexivity).
  destruct (sync_flush_in_rank_order sample_streams Cout no_output 15 sample_end I sample_console Hrun) as (Hinv & _ & _ & _ & Hend).
  split_and!; [exact Hrun|exact Hinv|]. destruct Hend as (_ & -> & _); [repeat constructor|]. reflexivity.
Defined.

(** Two ranks with streams to the same file name: each opens the file, and what the first
    rank wrote is lost, whether the second opens it before or after that. *)
Definition two_files : option (World) :=
  '(s, w) ← Sync_name_format "log" (Some (0, 2)) "<MESSAGE> of <RANK>" no_output; '(t, w) ← Sync_name_format "log" (Some (1, 2)) "<MESSAGE> of <RANK>" w;
  '(s, w) ← Sync_append s Info "first" "" "" (-1) w; '(t, w) ← Sync_append t Info "second" "" "" (-1) w;
  Some (flush_start [s; t] w).

Example ranks_share_file_name :
  (fun l => c ← two_files; c ← run_schedule c l; o_files (w_out c) !! "log") <$> [[0; 1; 0; 0; 0; 0; 1; 1; 1; 1]; [0; 0; 0; 0; 0; 1; 1; 1; 1; 1]]%nat =
  [Some "second of 1"; Some "second of 1"].
Proof. by vm_compute. Qed.

End SlicSynchronized.
