(* ===== verification/LumberjackMessage.v ===== *)
(** * Messages of Lumberjack

    [Message] ([src/axom/lumberjack/Message.hpp, .cpp]): what a rank logs, the ranks
    that logged it, and the text format in which messages travel between ranks:

      ranks * count * file name * line number * level * tag * text

    and, for several messages, their number and the size of each.  An exception of the
    standard library and a write past the end of the buffer are [None]. *)

From S2P Require Import Prelude PathStrings StdStrings.
From Stdlib Require Import Ascii.

Module Message.
Import PathStrings StdStrings.
#[local] Arguments Ascii.eqb : simpl never.
#[local] Arguments String.append !_ _ /.

(** ** Definitions *)

Definition zeroMessage : string := "0".
Definition memberDelimiter : ascii := "*".
Definition rankDelimiter : ascii := ",".

Record Message := mkMessage {
  m_text : string;
  m_ranks : list Z;
  m_ranksLimitReached : bool;
  m_count : Z;
  m_fileName : string;
  m_lineNumber : Z;
  m_level : Z;
  m_tag : string
}.

Definition Message_default : Message := mkMessage EmptyString [] false 0 EmptyString 0 0 EmptyString.

Definition Message_new (text : string) (rank : Z) (fileName : string) (lineNumber level : Z) (tag : string) : Message :=
  mkMessage text [rank] false 1 fileName lineNumber level tag.

Definition with_ranks (m : Message) (ranks : list Z) (reached : bool) (count : Z) : Message :=
  mkMessage (m_text m) ranks reached count (m_fileName m) (m_lineNumber m) (m_level m) (m_tag m).

(** [m_ranks.size()], and [ranksLimit] converted to an unsigned type. *)
Definition ranks_size (ranks : list Z) : Z := Z.of_nat (length ranks).
Definition limit_size (ranksLimit : Z) : Z := wrap 64 ranksLimit.

Definition push_rank (ranks : list Z) (newRank : Z) : list Z :=
  if bool_decide (ranks = []) || negb (bool_decide (newRank ∈ ranks)) then ranks ++ [newRank] else ranks.

Definition limit_reached (m : Message) (ranks : list Z) (ranksLimit : Z) : bool :=
  m_ranksLimitReached m || (ranks_size ranks =? limit_size ranksLimit).

Definition addRank (m : Message) (newRank ranksLimit : Z) : Message :=
  let ranks := if ranks_size (m_ranks m) <? limit_size ranksLimit then push_rank (m_ranks m) newRank else m_ranks m in
  with_ranks m ranks (limit_reached m ranks ranksLimit) (m_count m + 1).

(** The loop of [addRanks] stops once the limit is reached. *)
Fixpoint push_ranks (ranks newRanks : list Z) (ranksLimit : Z) : list Z :=
  match newRanks with
  | [] => ranks
  | r :: newRanks =>
    if limit_size ranksLimit <=? ranks_size ranks then ranks else push_ranks (push_rank ranks r) newRanks ranksLimit
  end.

Definition addRanks (m : Message) (newRanks : list Z) (count ranksLimit : Z) : Message :=
  let ranks := push_ranks (m_ranks m) newRanks ranksLimit in
  with_ranks m ranks (limit_reached m ranks ranksLimit) (m_count m + count).

Definition Message_of_ranks (text : string) (ranks : list Z) (count ranksLimit : Z) (fileName : string)
    (lineNumber level : Z) (tag : string) : Message :=
  addRanks (mkMessage text [] false 0 fileName lineNumber level tag) ranks count ranksLimit.

Definition stringOfRanks (m : Message) (delimiter : ascii) : string :=
  (join_with delimiter (to_string <$> m_ranks m) ++ if m_ranksLimitReached m then "..." else EmptyString)%string.

(** *** Packing *)

Definition field (x : string) (rest : string) : string := (x ++ String memberDelimiter rest)%string.

Definition pack (m : Message) : string :=
  field (join_with rankDelimiter (to_string <$> m_ranks m))
    (field (to_string (m_count m))
      (field (m_fileName m)
        (field (if 0 <? m_lineNumber m then to_string (m_lineNumber m) else EmptyString)
          (field (to_string (m_level m))
            (field (m_tag m) (m_text m)))))).

(** The step that [unpack] repeats: the section from [start] to the next delimiter,
    [end - start], and the position after the delimiter.  A missing delimiter is only
    reported. *)
Definition section (s : string) (start : Z) : option (string * Z * Z) :=
  let e := find_char s memberDelimiter start in
  let len := wrap 64 (e - start) in
  sec ← substr s start len; Some (sec, len, wrap 64 (e + 1)).

Fixpoint unpackRanks_loop (fuel : nat) (m : Message) (s : string) (start e ranksLimit : Z) : option Message :=
  match fuel with
  | O => None
  | S fuel =>
    if e =? npos then
      sub ← substr s start npos; r ← stoi sub; Some (addRank m r ranksLimit)
    else
      sub ← substr s start (wrap 64 (e - start)); r ← stoi sub;
      let start := wrap 64 (e + 1) in
      unpackRanks_loop fuel (addRank m r ranksLimit) s start (find_char s rankDelimiter start) ranksLimit
  end.

Definition unpackRanks (m : Message) (ranksString : string) (ranksLimit : Z) : option Message :=
  let m := with_ranks m [] (m_ranksLimitReached m) (m_count m) in
  if str_nonempty ranksString then
    unpackRanks_loop (S (str_size ranksString)) m ranksString 0 (find_char ranksString rankDelimiter 0) ranksLimit
  else Some m.

Definition unpack (m : Message) (packedMessage : string) (ranksLimit : Z) : option Message :=
  '(sec, _, start) ← section packedMessage 0;
  m ← unpackRanks m sec ranksLimit;
  '(sec, _, start) ← section packedMessage start;
  count ← stoi sec;
  '(fileName, _, start) ← section packedMessage start;
  '(sec, len, start) ← section packedMessage start;
  lineNumber ← (if 0 <? len then stoi sec else Some (m_lineNumber m));
  '(sec, _, start) ← section packedMessage start;
  level ← stoi sec;
  '(tag, _, start) ← section packedMessage start;
  text ← substr packedMessage start npos;
  Some (mkMessage text (m_ranks m) (m_ranksLimitReached m) count fileName lineNumber level tag).

(** [packMessages] writes into a buffer of [totalSize] characters. *)
Definition packMessages (messages : list Message) : option string :=
  match messages with
  | [] => Some zeroMessage
  | _ =>
    let packedMessages := pack <$> messages in
    let sizeStrings := (fun p => to_string (ssize p)) <$> packedMessages in
    let messageCountString := (to_string (Z.of_nat (length messages)) ++ String memberDelimiter EmptyString)%string in
    let totalSize := foldr Z.add 0 (zip_with (fun p z => ssize p + ssize z + 1) packedMessages sizeStrings) + 1
                     + ssize messageCountString in
    let body := (messageCountString ++
      foldr (fun pz rest => field pz.2 (pz.1 ++ rest)) EmptyString (zip packedMessages sizeStrings))%string in
    if ssize body + 1 <=? totalSize then Some body else None
  end.

Fixpoint unpackMessages_loop (n : nat) (messages : list Message) (s : string) (start ranksLimit : Z)
    : option (list Message) :=
  match n with
  | O => Some messages
  | S n =>
    '(sec, _, start) ← section s start;
    messageSize ← stoi sec;
    sub ← substr s start (wrap 64 messageSize);
    message ← unpack Message_default sub ranksLimit;
    unpackMessages_loop n (messages ++ [message]) s (wrap 64 (start + messageSize)) ranksLimit
  end.

Definition unpackMessages (messages : list Message) (packedMessages : string) (ranksLimit : Z) : option (list Message) :=
  let s := c_str packedMessages in
  '(sec, _, start) ← section s 0;
  messageCount ← stoi sec;
  unpackMessages_loop (Z.to_nat messageCount) messages s start ranksLimit.

(** A packed array is never null here. *)
Definition isPackedMessagesEmpty (packedMessages : string) : bool :=
  let s := c_str packedMessages in negb (str_nonempty s) || String.eqb s zeroMessage.

(** ** Messages that can be sent *)

Record sendable (ranksLimit : Z) (m : Message) : Prop := {
  sn_ranks : m_ranks m <> [];
  sn_nodup : NoDup (m_ranks m);
  sn_limit : ranks_size (m_ranks m) <= ranksLimit;
  sn_rank_ints : Forall is_int (m_ranks m);
  sn_count : is_int (m_count m);
  sn_line : is_int (m_lineNumber m);
  sn_level : is_int (m_level m);
  sn_file : contains_char (m_fileName m) memberDelimiter = false;
  sn_tag : contains_char (m_tag m) memberDelimiter = false;
  sn_no_nul : contains_char (m_text m ++ m_fileName m ++ m_tag m) Ascii.zero = false
}.

(** The message that arrives: line numbers that are not positive become zero, and
    whether the limit is reached is decided anew. *)
Definition received (ranksLimit : Z) (m : Message) : Message :=
  mkMessage (m_text m) (m_ranks m) (ranks_size (m_ranks m) =? ranksLimit) (m_count m) (m_fileName m)
    (Z.max 0 (m_lineNumber m)) (m_level m) (m_tag m).

(** ** Reading at a position *)

(** [start] is the position in [s] where [rest] begins. *)
Definition at_pos (s : string) (start : Z) (rest : string) : Prop :=
  ssize s < 2 ^ 63 /\ exists a, s = (a ++ rest)%string /\ start = ssize a.

Lemma at_pos_start s : ssize s < 2 ^ 63 -> at_pos s 0 s.
Proof. intros Hs. split; [done|]. by exists EmptyString. Qed.

Lemma at_pos_advance s start x rest : at_pos s start (x ++ rest) -> at_pos s (start + ssize x) rest.
Proof.
  intros (Hs & a & -> & ->). split; [done|]. exists (a ++ x)%string. by rewrite str_app_assoc, ssize_app.
Qed.

Lemma at_pos_bound s start rest : at_pos s start rest -> 0 <= start /\ start + ssize rest < 2 ^ 63.
Proof. intros (Hs & a & -> & ->). rewrite ssize_app in Hs. pose proof (ssize_nonneg a). lia. Qed.

Lemma at_pos_substr s start x rest : at_pos s start (x ++ rest) -> substr s start (wrap 64 (ssize x)) = Some x.
Proof.
  intros Hat. pose proof (at_pos_bound _ _ _ Hat) as Hb. rewrite ssize_app in Hb.
  pose proof (ssize_nonneg x). pose proof (ssize_nonneg rest).
  rewrite (wrap_id 64) by (unfold in_word; lia). destruct Hat as (_ & a & -> & ->). by apply substr_app.
Qed.

Lemma at_pos_rest s start rest : at_pos s start rest -> substr s start npos = Some rest.
Proof.
  intros Hat. pose proof (at_pos_bound _ _ _ Hat). destruct Hat as (_ & a & -> & ->).
  apply substr_rest. unfold npos. lia.
Qed.

Lemma at_pos_find s start x c rest :
  at_pos s start (x ++ String c rest) -> contains_char x c = false -> find_char s c start = start + ssize x.
Proof. intros (_ & a & -> & ->) Hx. by apply find_char_app. Qed.

Lemma at_pos_find_none s start c rest : at_pos s start rest -> contains_char rest c = false -> find_char s c start = npos.
Proof. intros (_ & a & -> & ->) Hx. by apply find_char_none. Qed.

(** What both loops over delimiters do at a delimiter: the piece before it, and the
    position after it. *)
Lemma at_pos_piece s start x c rest :
  at_pos s start (x ++ String c rest) -> contains_char x c = false ->
  let e := find_char s c start in
  e <> npos /\ wrap 64 (e - start) = ssize x /\ substr s start (wrap 64 (e - start)) = Some x /\
  at_pos s (wrap 64 (e + 1)) rest.
Proof.
  intros Hat Hx. cbv zeta. rewrite (at_pos_find _ _ _ _ _ Hat Hx).
  pose proof (at_pos_bound _ _ _ Hat) as Hb. rewrite ssize_app, ssize_cons in Hb.
  pose proof (ssize_nonneg x). pose proof (ssize_nonneg rest).
  replace (start + ssize x - start) with (ssize x) by lia. split; [unfold npos; lia|].
  split; [apply (wrap_id 64); [lia|unfold in_word; lia]|]. split; [by eapply at_pos_substr|].
  rewrite (wrap_id 64) by (unfold in_word; lia). rewrite <- Z.add_assoc.
  replace (ssize x + 1) with (ssize (x ++ String c EmptyString)) by (rewrite ssize_app, ssize_cons; done).
  apply at_pos_advance. by rewrite str_app_assoc.
Qed.

Lemma section_field s start x rest :
  at_pos s start (field x rest) -> contains_char x memberDelimiter = false ->
  exists start', section s start = Some (x, ssize x, start') /\ at_pos s start' rest.
Proof.
  intros Hat Hx. destruct (at_pos_piece _ _ _ _ _ Hat Hx) as (_ & Hl & Hsub & Hat').
  eexists. split; [|exact Hat']. unfold section. by rewrite Hsub, Hl.
Qed.

Lemma to_string_no_star z : contains_char (to_string z) memberDelimiter = false.
Proof. by apply to_string_chars. Qed.

Lemma to_string_no_comma z : contains_char (to_string z) rankDelimiter = false.
Proof. by apply to_string_chars. Qed.

Lemma to_string_no_nul z : contains_char (to_string z) Ascii.zero = false.
Proof. by apply to_string_chars. Qed.

Lemma join_no_char d l c :
  d <> c -> Forall (fun x => contains_char x c = false) l -> contains_char (join_with d l) c = false.
Proof.
  intros Hd. induction 1 as [|x l Hx Hl IH]; [done|]. destruct l as [|y l]; [done|].
  change (join_with d (x :: y :: l)) with (x ++ String d (join_with d (y :: l)))%string.
  rewrite contains_char_app, Hx. cbn [contains_char]. rewrite IH, orb_false_r. by apply Ascii.eqb_neq.
Qed.

(** ** Ranks *)

Lemma ranks_size_snoc l r : ranks_size (l ++ [r]) = ranks_size l + 1.
Proof. unfold ranks_size. rewrite length_app. cbn. lia. Qed.

Lemma addRank_fresh m r ranksLimit :
  0 <= ranksLimit < 2 ^ 63 -> r ∉ m_ranks m -> ranks_size (m_ranks m) < ranksLimit ->
  addRank m r ranksLimit =
  with_ranks m (m_ranks m ++ [r]) (m_ranksLimitReached m || (ranks_size (m_ranks m) + 1 =? ranksLimit)) (m_count m + 1).
Proof.
  intros Hl Hr Hsz. unfold addRank, limit_reached, limit_size. rewrite (wrap_id 64) by (unfold in_word; lia).
  rewrite (proj2 (Z.ltb_lt _ _)) by done. unfold push_rank. rewrite (bool_decide_eq_false_2 (_ ∈ _)) by done.
  cbn [negb]. by rewrite orb_true_r, ranks_size_snoc.
Qed.

(** Reading the ranks that were packed adds them one by one. *)
Lemma unpackRanks_loop_spec fuel m s start rs ranksLimit :
  rs <> [] -> Forall is_int rs -> (length rs <= fuel)%nat ->
  at_pos s start (join_with rankDelimiter (to_string <$> rs)) ->
  unpackRanks_loop fuel m s start (find_char s rankDelimiter start) ranksLimit =
  Some (foldl (fun m r => addRank m r ranksLimit) m rs).
Proof.
  revert m start rs. induction fuel as [|fuel IH]; intros m start rs Hne Hints Hf Hat.
  { destruct rs; cbn in Hf; [done|lia]. }
  destruct rs as [|r rs]; [done|]. inversion_clear Hints as [|? ? Hr Hrs]. destruct rs as [|r2 rs].
  - cbn [unpackRanks_loop]. cbn in Hat. rewrite (at_pos_find_none _ _ _ _ Hat) by apply to_string_no_comma.
    rewrite Z.eqb_refl, (at_pos_rest _ _ _ Hat). cbn. by rewrite stoi_to_string.
  - assert (at_pos s start (to_string r ++ String rankDelimiter (join_with rankDelimiter (to_string <$> (r2 :: rs))))) as Hat'
      by exact Hat. clear Hat.
    destruct (at_pos_piece _ _ _ _ _ Hat') as (He & _ & Hsub & Hnext); [apply to_string_no_comma|].
    cbn [unpackRanks_loop]. rewrite (proj2 (Z.eqb_neq _ _)) by done. rewrite Hsub. cbn [mbind option_bind].
    rewrite stoi_to_string by done. cbn [mbind option_bind].
    apply (IH (addRank m r ranksLimit) _ (r2 :: rs)); [done|done|cbn in *; lia|exact Hnext].
Qed.

Lemma foldl_addRank m rs ranksLimit :
  0 <= ranksLimit < 2 ^ 63 -> rs <> [] -> NoDup (m_ranks m ++ rs) -> ranks_size (m_ranks m ++ rs) <= ranksLimit ->
  (m_ranksLimitReached m = true -> ranks_size (m_ranks m) = ranksLimit) ->
  foldl (fun m r => addRank m r ranksLimit) m rs =
  with_ranks m (m_ranks m ++ rs) (ranks_size (m_ranks m ++ rs) =? ranksLimit) (m_count m + Z.of_nat (length rs)).
Proof.
  intros Hl. revert m. induction rs as [|r rs IH]; intros m Hne Hnd Hsz Hre; [done|]. cbn [foldl].
  assert (ranks_size (m_ranks m) < ranksLimit) as Hlt.
  { unfold ranks_size in *. rewrite length_app in Hsz. cbn in Hsz. lia. }
  assert (m_ranksLimitReached m = false) as Hre'.
  { destruct (m_ranksLimitReached m); [|done]. specialize (Hre eq_refl). lia. }
  assert (r ∉ m_ranks m) as Hr.
  { apply NoDup_app in Hnd as (_ & Hd & _). intros Hin. apply (Hd r Hin). left. }
  rewrite addRank_fresh, Hre' by done. cbn [orb]. destruct rs as [|r2 rs].
  - by rewrite ranks_size_snoc.
  - rewrite IH; cbn [m_ranks m_ranksLimitReached m_count with_ranks]; [|done|by rewrite <- app_assoc|by rewrite <- app_assoc|].
    + unfold with_ranks. cbn. rewrite <- app_assoc. f_equal. lia.
    + intros Heq%Z.eqb_eq. by rewrite ranks_size_snoc.
Qed.

Lemma ranks_string_size rs :
  Forall is_int rs -> ssize (join_with rankDelimiter (to_string <$> rs)) <= 12 * ranks_size rs.
Proof.
  induction 1 as [|r rs Hr Hrs IH]; [done|]. pose proof (to_string_size r Hr).
  destruct rs as [|r2 rs]; [cbn [fmap list_fmap join_with]; unfold ranks_size; cbn; lia|].
  change (join_with rankDelimiter (to_string <$> (r :: r2 :: rs)))
    with (to_string r ++ String rankDelimiter (join_with rankDelimiter (to_string <$> (r2 :: rs))))%string.
  rewrite ssize_app, ssize_cons. unfold ranks_size in *. cbn [length] in *. lia.
Qed.

Lemma ranks_string_fuel rs : (length rs <= S (str_size (join_with rankDelimiter (to_string <$> rs))))%nat.
Proof.
  induction rs as [|r rs IH]; [cbn; lia|]. destruct rs as [|r2 rs]; [cbn; lia|].
  change (join_with rankDelimiter (to_string <$> (r :: r2 :: rs)))
    with (to_string r ++ String rankDelimiter (join_with rankDelimiter (to_string <$> (r2 :: rs))))%string.
  rewrite str_size_app. cbn [str_size length] in *. lia.
Qed.

Lemma unpackRanks_spec m rs ranksLimit :
  rs <> [] -> Forall is_int rs -> NoDup rs -> ranks_size rs <= ranksLimit < 2 ^ 31 -> m_ranksLimitReached m = false ->
  unpackRanks m (join_with rankDelimiter (to_string <$> rs)) ranksLimit =
  Some (with_ranks m rs (ranks_size rs =? ranksLimit) (m_count m + Z.of_nat (length rs))).
Proof.
  intros Hne Hints Hnd Hl Hre. pose proof (ranks_string_size rs Hints) as Hs. unfold unpackRanks.
  assert (str_nonempty (join_with rankDelimiter (to_string <$> rs)) = true) as ->.
  { destruct rs as [|r rs]; [done|]. pose proof (to_string_nonempty r).
    destruct rs; cbn; destruct (to_string r); done. }
  rewrite (unpackRanks_loop_spec _ _ _ _ rs).
  - rewrite foldl_addRank; cbn; rewrite ?Hre; [done|unfold ranks_size in *; lia|done|done|unfold ranks_size in *; cbn; lia|done].
  - done.
  - done.
  - apply ranks_string_fuel.
  - apply at_pos_start. unfold ranks_size in *. lia.
Qed.

(** ** Packing and unpacking *)

Lemma pack_size ranksLimit m :
  sendable ranksLimit m ->
  ssize (pack m) <= ssize (m_text m) + ssize (m_fileName m) + ssize (m_tag m) + 12 * ranksLimit + 39.
Proof.
  intros Hm. unfold pack, field. rewrite !ssize_app, !ssize_cons, !ssize_app, !ssize_cons, !ssize_app, !ssize_cons,
    !ssize_app, !ssize_cons, !ssize_app, !ssize_cons, !ssize_app, !ssize_cons.
  pose proof (ranks_string_size _ (sn_rank_ints _ _ Hm)). pose proof (sn_limit _ _ Hm).
  pose proof (to_string_size _ (sn_count _ _ Hm)). pose proof (to_string_size _ (sn_level _ _ Hm)).
  assert (ssize (if 0 <? m_lineNumber m then to_string (m_lineNumber m) else EmptyString) <= 11).
  { case_zbool; [apply to_string_size, (sn_line _ _ Hm)|done]. }
  lia.
Qed.

Lemma unpack_pack ranksLimit m :
  sendable ranksLimit m -> ranksLimit < 2 ^ 31 -> ssize (pack m) < 2 ^ 63 ->
  unpack Message_default (pack m) ranksLimit = Some (received ranksLimit m).
Proof.
  intros Hm Hl Hsz. pose proof (at_pos_start _ Hsz) as H0. unfold unpack. unfold pack at 2 in H0.
  destruct (section_field _ _ _ _ H0) as (p1 & -> & H1).
  { apply join_no_char; [done|]. apply Forall_fmap, Forall_true. intros z. apply to_string_no_star. }
  cbn [mbind option_bind]. rewrite unpackRanks_spec;
    [|apply Hm|apply Hm|apply Hm|split; [apply Hm|done]|done].
  cbn [mbind option_bind].
  destruct (section_field _ _ _ _ H1) as (p2 & -> & H2); [apply to_string_no_star|].
  cbn [mbind option_bind]. rewrite stoi_to_string by apply Hm. cbn [mbind option_bind].
  destruct (section_field _ _ _ _ H2) as (p3 & -> & H3); [apply Hm|]. cbn [mbind option_bind].
  destruct (section_field _ _ _ _ H3) as (p4 & -> & H4); [case_zbool; [apply to_string_no_star|done]|]. cbn [mbind option_bind].
  assert ((if 0 <? ssize (if 0 <? m_lineNumber m then to_string (m_lineNumber m) else EmptyString)
    then stoi (if 0 <? m_lineNumber m then to_string (m_lineNumber m) else EmptyString)
    else Some (m_lineNumber Message_default)) = Some (Z.max 0 (m_lineNumber m))) as Hline.
  { destruct (Z.ltb_spec 0 (m_lineNumber m)); [|cbn; f_equal; lia]. rewrite stoi_to_string by apply Hm.
    pose proof (to_string_nonempty (m_lineNumber m)) as Hn. destruct (to_string (m_lineNumber m)) as [|c t]; [done|].
    rewrite ssize_cons. pose proof (ssize_nonneg t). rewrite (proj2 (Z.ltb_lt _ _)) by lia. f_equal. lia. }
  cbn [m_lineNumber with_ranks Message_default] in *. rewrite Hline. cbn [mbind option_bind].
  destruct (section_field _ _ _ _ H4) as (p5 & -> & H5); [apply to_string_no_star|].
  cbn [mbind option_bind]. rewrite stoi_to_string by apply Hm. cbn [mbind option_bind].
  destruct (section_field _ _ _ _ H5) as (p6 & -> & H6); [apply Hm|]. cbn [mbind option_bind].
  by rewrite (at_pos_rest _ _ _ H6).
Qed.

(** *** Several messages *)

(** The characters after the number of messages. *)
Definition packed_body (ms : list Message) : string :=
  foldr (fun m rest => field (to_string (ssize (pack m))) (pack m ++ rest)) EmptyString ms.

Lemma packed_body_cons m ms :
  packed_body (m :: ms) = field (to_string (ssize (pack m))) (pack m ++ packed_body ms).
Proof. done. Qed.

(** A bound on the characters a message needs, whatever ranks it collects. *)
Definition weight (ranksLimit : Z) (m : Message) : Z :=
  ssize (m_text m) + ssize (m_fileName m) + ssize (m_tag m) + 12 * ranksLimit + 51.

Definition total_weight (ranksLimit : Z) (ms : list Message) : Z := foldr Z.add 0 (weight ranksLimit <$> ms).

Lemma packed_body_zip ms :
  foldr (fun (pz : string * string) rest => field pz.2 (pz.1 ++ rest)) EmptyString
    (zip (pack <$> ms) ((fun p => to_string (ssize p)) <$> (pack <$> ms))) = packed_body ms.
Proof. induction ms as [|m ms IH]; cbn; [done|]. by rewrite IH. Qed.

Lemma packed_body_total ms :
  ssize (packed_body ms) =
  foldr Z.add 0 (zip_with (fun p z => ssize p + ssize z + 1) (pack <$> ms) ((fun p => to_string (ssize p)) <$> (pack <$> ms))).
Proof.
  induction ms as [|m ms IH]; [done|]. rewrite packed_body_cons. cbn [foldr fmap list_fmap zip_with].
  unfold field. rewrite ssize_app, ssize_cons, ssize_app, IH. lia.
Qed.

(** The buffer is exactly as large as needed. *)
Lemma packMessages_spec ms : ms <> [] -> packMessages ms = Some (field (to_string (Z.of_nat (length ms))) (packed_body ms)).
Proof.
  intros Hne. unfold packMessages. destruct ms as [|m ms]; [done|]. rewrite packed_body_zip.
  rewrite ssize_app, packed_body_total. rewrite (proj2 (Z.leb_le _ _)) by lia.
  f_equal. unfold field. by rewrite str_app_assoc.
Qed.

Lemma weight_nonneg ranksLimit m : 0 <= ranksLimit -> 51 <= weight ranksLimit m.
Proof.
  unfold weight. pose proof (ssize_nonneg (m_text m)). pose proof (ssize_nonneg (m_fileName m)).
  pose proof (ssize_nonneg (m_tag m)). lia.
Qed.

Lemma total_weight_nonneg ranksLimit ms : 0 <= ranksLimit -> 51 * Z.of_nat (length ms) <= total_weight ranksLimit ms.
Proof.
  intros Hl. induction ms as [|m ms IH]; [done|]. pose proof (weight_nonneg ranksLimit m Hl).
  unfold total_weight in *. cbn [fmap list_fmap foldr length]. lia.
Qed.

Lemma sendable_limit ranksLimit m : sendable ranksLimit m -> 1 <= ranksLimit.
Proof.
  intros Hm. pose proof (sn_limit _ _ Hm) as Hl. pose proof (sn_ranks _ _ Hm) as Hr. unfold ranks_size in Hl.
  destruct (m_ranks m); [done|]. cbn in Hl. lia.
Qed.

Lemma pack_size_weight ranksLimit m :
  sendable ranksLimit m -> weight ranksLimit m < 2 ^ 31 ->
  0 <= ssize (pack m) /\ is_int (ssize (pack m)) /\ ssize (to_string (ssize (pack m))) + 1 + ssize (pack m) <= weight ranksLimit m.
Proof.
  intros Hm Hw. pose proof (pack_size ranksLimit m Hm). pose proof (ssize_nonneg (pack m)).
  unfold weight in *. assert (is_int (ssize (pack m))) as Hi by (unfold is_int; lia).
  pose proof (to_string_size _ Hi). split_and!; [lia|done|lia].
Qed.

Lemma unpackMessages_loop_spec s start acc ms ranksLimit :
  Forall (sendable ranksLimit) ms -> total_weight ranksLimit ms < 2 ^ 31 -> ranksLimit < 2 ^ 31 ->
  at_pos s start (packed_body ms) ->
  unpackMessages_loop (length ms) acc s start ranksLimit = Some (acc ++ (received ranksLimit <$> ms))%list.
Proof.
  intros Hms. revert start acc. induction Hms as [|m ms Hm Hms IH]; intros start acc Hw Hl Hat.
  { cbn. by rewrite app_nil_r. }
  pose proof (sendable_limit _ _ Hm) as Hlim. unfold total_weight in Hw. cbn [fmap list_fmap foldr] in Hw.
  fold (total_weight ranksLimit ms) in Hw. pose proof (total_weight_nonneg ranksLimit ms ltac:(lia)).
  destruct (pack_size_weight ranksLimit m Hm ltac:(lia)) as (Hp0 & Hpi & Hpw).
  rewrite packed_body_cons in Hat. cbn [length unpackMessages_loop]. destruct (section_field _ _ _ _ Hat) as (p & -> & Hp); [apply to_string_no_star|].
  cbn [mbind option_bind]. rewrite stoi_to_string by done. cbn [mbind option_bind].
  rewrite (at_pos_substr _ _ _ _ Hp). cbn [mbind option_bind].
  rewrite (unpack_pack ranksLimit m Hm Hl) by (unfold is_int in Hpi; lia). cbn [mbind option_bind].
  apply at_pos_advance in Hp. pose proof (at_pos_bound _ _ _ Hp) as [Hb1 Hb2].
  pose proof (ssize_nonneg (packed_body ms)). pose proof (weight_nonneg ranksLimit m ltac:(lia)).
  rewrite (wrap_id 64) by (unfold in_word; lia). rewrite IH; [|lia|lia|exact Hp]. by rewrite <- app_assoc.
Qed.

Lemma packed_body_size ranksLimit ms :
  0 <= ranksLimit -> Forall (sendable ranksLimit) ms -> total_weight ranksLimit ms < 2 ^ 31 ->
  ssize (packed_body ms) <= total_weight ranksLimit ms.
Proof.
  intros Hl. induction 1 as [|m ms Hm Hms IH]; intros Hw; [done|].
  rewrite packed_body_cons. unfold total_weight in *. cbn [fmap list_fmap foldr] in *. fold (total_weight ranksLimit ms) in *.
  pose proof (total_weight_nonneg ranksLimit ms Hl). pose proof (weight_nonneg ranksLimit m Hl).
  destruct (pack_size_weight ranksLimit m Hm ltac:(lia)) as (_ & _ & Hpw). specialize (IH ltac:(lia)).
  unfold field. rewrite ssize_app, ssize_cons, ssize_app. lia.
Qed.

Lemma pack_no_nul ranksLimit m : sendable ranksLimit m -> contains_char (pack m) Ascii.zero = false.
Proof.
  intros Hm. pose proof (sn_no_nul _ _ Hm) as Hz. rewrite !contains_char_app in Hz.
  apply orb_false_iff in Hz as [Ht [Hf Hg]%orb_false_iff]. unfold pack, field.
  rewrite !contains_char_app. cbn [contains_char]. rewrite !contains_char_app. cbn [contains_char].
  rewrite !contains_char_app. cbn [contains_char]. rewrite !contains_char_app. cbn [contains_char].
  rewrite !contains_char_app. cbn [contains_char]. rewrite !contains_char_app. cbn [contains_char].
  rewrite join_no_char, Ht, Hf, Hg, !to_string_no_nul; [|done|].
  - by case_zbool; rewrite ?to_string_no_nul.
  - apply Forall_fmap, Forall_true. intros z. apply to_string_no_nul.
Qed.

Lemma packed_body_no_nul ranksLimit ms :
  Forall (sendable ranksLimit) ms -> contains_char (packed_body ms) Ascii.zero = false.
Proof.
  induction 1 as [|m ms Hm Hms IH]; [done|]. rewrite packed_body_cons. unfold field.
  rewrite contains_char_app. cbn [contains_char]. rewrite contains_char_app, to_string_no_nul, IH.
  by rewrite (pack_no_nul ranksLimit).
Qed.

(** What [packMessages] produces, as the receiver sees it. *)
Lemma unpack_packMessages ranksLimit ms :
  Forall (sendable ranksLimit) ms -> total_weight ranksLimit ms < 2 ^ 31 -> 1 <= ranksLimit < 2 ^ 31 ->
  exists s, packMessages ms = Some s /\ c_str s = s /\ (isPackedMessagesEmpty s = true <-> ms = []) /\
    forall acc, unpackMessages acc s ranksLimit = Some (acc ++ (received ranksLimit <$> ms))%list.
Proof.
  intros Hms Hw Hl. destruct ms as [|m ms].
  { exists zeroMessage. split_and!; [done|done|done|]. intros acc. cbn. by rewrite app_nil_r. }
  remember (m :: ms) as l eqn:El. assert (l <> []) as Hne by (by subst).
  rewrite packMessages_spec by done. eexists. split; [done|].
  assert (contains_char (field (to_string (Z.of_nat (length l))) (packed_body l)) Ascii.zero = false) as Hnul.
  { unfold field. rewrite contains_char_app. cbn [contains_char].
    by rewrite to_string_no_nul, (packed_body_no_nul ranksLimit). }
  pose proof (total_weight_nonneg ranksLimit l ltac:(lia)) as Hc.
  assert (is_int (Z.of_nat (length l))) as Hci by (unfold is_int; lia).
  split; [by apply c_str_id|]. split.
  - unfold isPackedMessagesEmpty. rewrite c_str_id by done. split; [|done].
    intros [He|He]%orb_true_iff; exfalso.
    + unfold field in He. by destruct (to_string (Z.of_nat (length l))).
    + apply String.eqb_eq in He. apply (f_equal ssize) in He. unfold field in He.
      rewrite ssize_app, ssize_cons in He. pose proof (ssize_nonneg (packed_body l)).
      pose proof (to_string_nonempty (Z.of_nat (length l))).
      destruct (to_string (Z.of_nat (length l))) as [|c t]; [done|]. rewrite ssize_cons in He.
      pose proof (ssize_nonneg t). change (ssize zeroMessage) with 1 in He. lia.
  - intros acc. unfold unpackMessages. rewrite c_str_id by done.
    pose proof (packed_body_size ranksLimit l ltac:(lia) Hms Hw). pose proof (to_string_size _ Hci).
    assert (at_pos (field (to_string (Z.of_nat (length l))) (packed_body l)) 0
      (field (to_string (Z.of_nat (length l))) (packed_body l))) as Hst.
    { apply at_pos_start. unfold field. rewrite ssize_app, ssize_cons. lia. }
    destruct (section_field _ _ _ _ Hst) as (p & -> & Hp); [apply to_string_no_star|].
    cbn [mbind option_bind]. rewrite stoi_to_string by done. cbn [mbind option_bind]. rewrite Nat2Z.id.
    apply unpackMessages_loop_spec; [done|done|lia|done].
Qed.

End Message.
