(* ===== verification/Lumberjack.v ===== *)
(** * Lumberjack: logging over many ranks

    Combiners, communicators and the [Lumberjack] class of [src/axom/lumberjack].  Every
    rank has a [Lumberjack]; a push sends the messages of each rank to its parent in the
    tree of the communicator.

    All ranks push together between two barriers, so a push is a function on the list of
    the ranks' states.  MPI is outside the repository: it delivers each array that was
    sent exactly once, and the order in which a rank receives from several sources is
    arbitrary.  That order is the parameter [arrive].  [None] is an exception, a rank that
    waits for an array that nobody sends, or an array that nobody receives. *)

From S2P Require Import Prelude PathStrings StdStrings LumberjackMessage.
From Stdlib Require Import Ascii.

Module Lumberjack.
Import PathStrings StdStrings Message.
#[local] Open Scope list_scope.

(** ** Combiners *)

Record Combiner := mkCombiner {
  id : string;
  shouldMessagesBeCombined : Message -> Message -> bool;
  combine : Message -> Message -> Z -> Message
}.

Definition combine_ranks (combined combinee : Message) (ranksLimit : Z) : Message :=
  addRanks combined (m_ranks combinee) (m_count combinee) ranksLimit.

Definition TextEqualityCombiner : Combiner :=
  mkCombiner "TextEqualityCombiner" (fun l r => String.eqb (m_text l) (m_text r)) combine_ranks.

Definition TextTagCombiner : Combiner :=
  mkCombiner "TextTagCombiner"
    (fun l r => String.eqb (m_text l) (m_text r) && String.eqb (m_tag l) (m_tag r)) combine_ranks.

(** ** Communicators *)

(** The interface of [Communicator]; [destination] and [arrivals_expected] are what
    [push] does on a rank: the rank it sends to, if any, and how many arrays it
    receives. *)
Class Communicator (C : Type) := {
  initialize : Z -> Z -> Z -> C;
  rank : C -> Z;
  ranksLimit : C -> Z;
  set_ranksLimit : C -> Z -> C;
  numPushesToFlush : C -> Z;
  isOutputNode : C -> bool;
  destination : C -> option Z;
  arrivals_expected : C -> Z
}.

Record BinaryTreeCommunicator := mkBinaryTree {
  bt_mpiCommRank : Z;
  bt_mpiCommSize : Z;
  bt_ranksLimit : Z;
  bt_treeHeight : Z;
  bt_parentRank : Z;
  bt_leftChildRank : Z;
  bt_rightChildRank : Z;
  bt_childCount : Z
}.

(** [int(log2(size) + 1)]: the conversion to [int] of the logarithm of an [int] is the
    logarithm rounded down. *)
Definition BinaryTree_initialize (commRank commSize limit : Z) : BinaryTreeCommunicator :=
  let left := commRank * 2 + 1 in
  let right := commRank * 2 + 2 in
  mkBinaryTree commRank commSize limit (Z.log2 commSize + 1) (Z.shiftr (commRank - 1) 1)
    (if left <? commSize then left else -1) (if right <? commSize then right else -1)
    ((if left <? commSize then 1 else 0) + (if right <? commSize then 1 else 0)).

#[export] Instance BinaryTree_Communicator : Communicator BinaryTreeCommunicator := {
  initialize := BinaryTree_initialize;
  rank := bt_mpiCommRank;
  ranksLimit := bt_ranksLimit;
  set_ranksLimit c v := mkBinaryTree (bt_mpiCommRank c) (bt_mpiCommSize c) v (bt_treeHeight c) (bt_parentRank c)
    (bt_leftChildRank c) (bt_rightChildRank c) (bt_childCount c);
  numPushesToFlush c := bt_treeHeight c - 1;
  isOutputNode c := bt_mpiCommRank c =? 0;
  destination c := if bt_mpiCommRank c =? 0 then None else Some (bt_parentRank c);
  arrivals_expected := bt_childCount
}.

Record RootCommunicator := mkRoot { rc_mpiCommRank : Z; rc_mpiCommSize : Z; rc_ranksLimit : Z }.

#[export] Instance Root_Communicator : Communicator RootCommunicator := {
  initialize := mkRoot;
  rank := rc_mpiCommRank;
  ranksLimit := rc_ranksLimit;
  set_ranksLimit c v := mkRoot (rc_mpiCommRank c) (rc_mpiCommSize c) v;
  numPushesToFlush _ := 1;
  isOutputNode c := rc_mpiCommRank c =? 0;
  destination c := if rc_mpiCommRank c =? 0 then None else Some 0;
  arrivals_expected c := if rc_mpiCommRank c =? 0 then rc_mpiCommSize c - 1 else 0
}.

(** ** Lumberjack on one rank *)

Section Lumberjack.
Context {C : Type} `{!Communicator C}.

Record Lumberjack := mkLumberjack {
  m_communicator : C;
  m_ranksLimit : Z;
  m_combiners : list Combiner;
  m_messages : list Message
}.

Definition Lumberjack_initialize (communicator : C) (limit : Z) : Lumberjack :=
  mkLumberjack communicator limit [TextTagCombiner] [].

Definition with_messages (lj : Lumberjack) (ms : list Message) : Lumberjack :=
  mkLumberjack (m_communicator lj) (m_ranksLimit lj) (m_combiners lj) ms.
Definition with_combiners (lj : Lumberjack) (cs : list Combiner) : Lumberjack :=
  mkLumberjack (m_communicator lj) (m_ranksLimit lj) cs (m_messages lj).

Definition addCombiner (lj : Lumberjack) (combiner : Combiner) : Lumberjack :=
  if existsb (fun c => String.eqb (id c) (id combiner)) (m_combiners lj) then lj
  else with_combiners lj (m_combiners lj ++ [combiner]).

(** The first combiner with the identifier is erased. *)
Fixpoint erase_combiner (cs : list Combiner) (combinerIdentifier : string) : list Combiner :=
  match cs with
  | [] => []
  | c :: cs => if String.eqb (id c) combinerIdentifier then cs else c :: erase_combiner cs combinerIdentifier
  end.

Definition removeCombiner (lj : Lumberjack) (combinerIdentifier : string) : Lumberjack :=
  with_combiners lj (erase_combiner (m_combiners lj) combinerIdentifier).

Definition clearCombiners (lj : Lumberjack) : Lumberjack := with_combiners lj [].
Definition clearMessages (lj : Lumberjack) : Lumberjack := with_messages lj [].

Definition Lumberjack_ranksLimit (lj : Lumberjack) (value : Z) : Lumberjack :=
  mkLumberjack (set_ranksLimit (m_communicator lj) value) value (m_combiners lj) (m_messages lj).

Definition queueMessage (lj : Lumberjack) (text fileName : string) (lineNumber level : Z) (tag : string) : Lumberjack :=
  with_messages lj (m_messages lj ++ [Message_new text (rank (m_communicator lj)) fileName lineNumber level tag]).

Definition queueMessage_text (lj : Lumberjack) (text : string) : Lumberjack :=
  queueMessage lj text EmptyString (-1) 0 EmptyString.

(** The inner loops of [combineMessages]: the first final message, and for it the first
    combiner, that takes the message. *)
Fixpoint combine_into (combiners : list Combiner) (finals : list Message) (m : Message) (limit : Z)
    : option (list Message) :=
  match finals with
  | [] => None
  | f :: fs =>
    match List.find (fun c => shouldMessagesBeCombined c f m) combiners with
    | Some c => Some (combine c f m limit :: fs)
    | None => fs ← combine_into combiners fs m limit; Some (f :: fs)
    end
  end.

Definition combine_step (combiners : list Combiner) (limit : Z) (finals : list Message) (m : Message) : list Message :=
  match combine_into combiners finals m limit with Some fs => fs | None => finals ++ [m] end.

Definition combine_all (combiners : list Combiner) (limit : Z) (ms : list Message) : list Message :=
  match ms with
  | m0 :: m1 :: rest => foldl (combine_step combiners limit) [m0] (m1 :: rest)
  | _ => ms
  end.

Definition combineMessages (lj : Lumberjack) : Lumberjack :=
  with_messages lj (combine_all (m_combiners lj) (m_ranksLimit lj) (m_messages lj)).

(** ** Pushes *)

(** What a rank does before the communicator's [push]: only ranks that do not output
    send. *)
Definition prepare (lj : Lumberjack) : option (Lumberjack * string) :=
  if isOutputNode (m_communicator lj) then Some (lj, EmptyString)
  else let lj := combineMessages lj in
       packed ← packMessages (m_messages lj); Some (clearMessages lj, packed).

(** The sending half of [push]: [strlen] characters go to the destination. *)
Definition push_send (c : C) (packed : string) : option (Z * string) :=
  d ← destination c; Some (d, c_str (if isPackedMessagesEmpty packed then zeroMessage else packed)).

(** The receiving half of [push]. *)
Definition push_receive (c : C) (arrived : list string) : option (list string) :=
  if Z.of_nat (length arrived) =? arrivals_expected c
  then Some (List.filter (fun s => negb (isPackedMessagesEmpty s)) arrived) else None.

Definition arrivals (sent : list (Z * string)) (r : Z) : list string :=
  (filter (fun ds => ds.1 = r) sent).*2.

Definition unpack_all (ms : list Message) (packed : list string) (limit : Z) : option (list Message) :=
  foldl (fun acc s => ms ← acc; unpackMessages ms s limit) (Some ms) packed.

Definition deliver (arrive : Z -> list string -> list string) (sent : list (Z * string)) (lj : Lumberjack)
    : option Lumberjack :=
  let r := rank (m_communicator lj) in
  received ← push_receive (m_communicator lj) (arrive r (arrivals sent r));
  ms ← unpack_all (m_messages lj) received (m_ranksLimit lj);
  Some (with_messages lj ms).

(** One push of all ranks. *)
Definition push_all (arrive : Z -> list string -> list string) (world : list Lumberjack) : option (list Lumberjack) :=
  prepared ← mapM prepare world;
  let sent := omap (fun '(lj, packed) => push_send (m_communicator lj) packed) prepared in
  mapM (deliver arrive sent) prepared.*1.

Definition combine_world (world : list Lumberjack) : list Lumberjack := combineMessages <$> world.

Definition pushMessagesOnce (arrive : Z -> list string -> list string) (world : list Lumberjack)
    : option (list Lumberjack) :=
  world ← push_all arrive world; Some (combine_world world).

(** The loop of [pushMessagesFully]; [arrive] also depends on the push. *)
Fixpoint push_loop (n : nat) (arrive : nat -> Z -> list string -> list string) (world : list Lumberjack)
    : option (list Lumberjack) :=
  match n with
  | O => Some world
  | S n => world ← push_all (arrive O) world; push_loop n (fun i => arrive (S i)) world
  end.

(** The ranks leave the barriers together only if all make the same number of pushes. *)
Definition pushes (world : list Lumberjack) : option nat :=
  match (fun lj => numPushesToFlush (m_communicator lj)) <$> world with
  | [] => Some O
  | k :: ks => if forallb (Z.eqb k) ks then Some (Z.to_nat k) else None
  end.

Definition pushMessagesFully (arrive : nat -> Z -> list string -> list string) (world : list Lumberjack)
    : option (list Lumberjack) :=
  n ← pushes world;
  world ← push_loop n arrive world; Some (combine_world world).

End Lumberjack.
#[global] Arguments Lumberjack : clear implicits.

End Lumberjack.
