(* ===== verification/LumberjackTheorems.v ===== *)
(** * Lumberjack delivers what was logged

    Combining and pushing conserve the logged messages; pushing fully brings all of them
    to the root, whatever the order of arrival. *)

From S2P Require Import Prelude PathStrings StdStrings LumberjackMessage Lumberjack.
From Stdlib Require Import Ascii.

Module LumberjackTheorems.
Import PathStrings StdStrings Message Lumberjack.
#[local] Open Scope list_scope.

(** ** What is conserved *)

(** A message that a rank may hold: [sendable] but for the width of its count, which is
    bounded for all ranks together. *)
Definition storable (limit : Z) (m : Message) : Prop :=
  sendable limit (with_ranks m (m_ranks m) (m_ranksLimitReached m) 1) /\ 0 < m_count m.

Lemma storable_sendable limit m : storable limit m -> m_count m < 2 ^ 31 -> sendable limit m.
Proof. intros [[] Hc] Hb. constructor; try done. unfold is_int. lia. Qed.

(** How often the texts in [P] were logged. *)
Definition count_where (P : string -> bool) (ms : list Message) : Z :=
  foldr Z.add 0 ((fun m => if P (m_text m) then m_count m else 0) <$> ms).

(** The text [t] of rank [r] is still known: a message lists the rank, or its list is
    full. *)
Definition covers (limit : Z) (ms : list Message) (t : string) (r : Z) : Prop :=
  exists m, m ∈ ms /\ m_text m = t /\ (r ∈ m_ranks m \/ ranks_size (m_ranks m) = limit).

(** Ranks of messages with text [t] come from nowhere else. *)
Definition listed (ms : list Message) (t : string) (r : Z) : Prop :=
  exists m, m ∈ ms /\ m_text m = t /\ r ∈ m_ranks m.

Record conserved (limit : Z) (ms ms' : list Message) : Prop := {
  cs_storable : Forall (storable limit) ms';
  cs_weight : total_weight limit ms' <= total_weight limit ms;
  cs_count : forall P, count_where P ms' = count_where P ms;
  cs_covers : forall t r, covers limit ms t r -> covers limit ms' t r;
  cs_listed : forall t r, listed ms' t r -> listed ms t r
}.

Definition conserves (limit : Z) (ms ms' : list Message) : Prop := Forall (storable limit) ms -> conserved limit ms ms'.

Lemma conserves_refl limit ms : conserves limit ms ms.
Proof. intros Hms. by constructor. Qed.

Lemma conserves_trans limit ms1 ms2 ms3 : conserves limit ms1 ms2 -> conserves limit ms2 ms3 -> conserves limit ms1 ms3.
Proof.
  intros H12 H23 Hms. destruct (H12 Hms) as [S1 W1 C1 V1 L1]. destruct (H23 S1) as [S2 W2 C2 V2 L2].
  constructor; [done|lia|intros P; by rewrite C2, C1|auto|auto].
Qed.

#[global] Instance conserves_preorder limit : PreOrder (conserves limit).
Proof. split; [exact (conserves_refl limit)|exact (conserves_trans limit)]. Qed.

Lemma count_where_app P a b : count_where P (a ++ b) = count_where P a + count_where P b.
Proof. unfold count_where. induction a as [|m a IH]; cbn [app fmap list_fmap foldr]; [done|]. rewrite IH. lia. Qed.

Lemma total_weight_app limit a b : total_weight limit (a ++ b) = total_weight limit a + total_weight limit b.
Proof. unfold total_weight. induction a as [|m a IH]; cbn [app fmap list_fmap foldr]; [done|]. rewrite IH. lia. Qed.

Lemma sum_perm (l l' : list Z) : l ≡ₚ l' -> foldr Z.add 0 l = foldr Z.add 0 l'.
Proof. induction 1; cbn; lia. Qed.

Lemma covers_app limit a b t r : covers limit (a ++ b) t r <-> covers limit a t r \/ covers limit b t r.
Proof. unfold covers. set_solver. Qed.

Lemma listed_app a b t r : listed (a ++ b) t r <-> listed a t r \/ listed b t r.
Proof. unfold listed. set_solver. Qed.

Lemma conserves_app limit a a' b b' :
  conserves limit a a' -> conserves limit b b' -> conserves limit (a ++ b) (a' ++ b').
Proof.
  intros Ha Hb [H1 H2]%Forall_app. destruct (Ha H1) as [S1 W1 C1 V1 L1]. destruct (Hb H2) as [S2 W2 C2 V2 L2].
  constructor.
  - by apply Forall_app.
  - rewrite !total_weight_app. lia.
  - intros P. by rewrite !count_where_app, C1, C2.
  - intros t r. rewrite !covers_app. naive_solver.
  - intros t r. rewrite !listed_app. naive_solver.
Qed.

Lemma conserves_perm limit a b : a ≡ₚ b -> conserves limit a b.
Proof.
  intros Hab Ha. constructor.
  - by rewrite <- Hab.
  - unfold total_weight. rewrite (sum_perm _ (weight limit <$> a)); [done|]. by rewrite Hab.
  - intros P. apply sum_perm. by rewrite Hab.
  - intros t r (m & Hm & ?). exists m. by rewrite <- Hab.
  - intros t r (m & Hm & ?). exists m. by rewrite Hab.
Qed.

(** ** Combining *)

(** What [combineMessages] relies on: a combiner joins only messages with the same text,
    and the result stands for both. *)
Record combiner_ok (c : Combiner) : Prop := {
  ck_text : forall l r, shouldMessagesBeCombined c l r = true -> m_text l = m_text r;
  ck_keeps : forall l r limit, m_text (combine c l r limit) = m_text l /\ m_tag (combine c l r limit) = m_tag l;
  ck_conserves : forall l r limit, m_text l = m_text r -> 1 <= limit < 2 ^ 31 ->
    conserves limit [l; r] [combine c l r limit]
}.

Lemma push_rank_spec ranks r :
  NoDup ranks -> NoDup (push_rank ranks r) /\ (forall x, x ∈ push_rank ranks r <-> x ∈ ranks \/ x = r) /\
  (push_rank ranks r = ranks \/ push_rank ranks r = ranks ++ [r]).
Proof.
  intros Hnd. unfold push_rank. destruct (decide (r ∈ ranks)) as [Hr|Hr].
  - rewrite (bool_decide_eq_true_2 (r ∈ ranks)) by done. rewrite bool_decide_eq_false_2 by (intros ->; by apply not_elem_of_nil in Hr). cbn.
    split_and!; [done|set_solver|by left].
  - rewrite (bool_decide_eq_false_2 (r ∈ ranks)) by done. rewrite orb_true_r.
    split_and!; [|set_solver|by right]. apply NoDup_app. split_and!; [done|set_solver|apply NoDup_singleton].
Qed.

Lemma push_ranks_spec ranks new limit :
  0 <= limit < 2 ^ 63 -> NoDup ranks -> ranks_size ranks <= limit ->
  let res := push_ranks ranks new limit in
  NoDup res /\ ranks_size res <= limit /\ (forall x, x ∈ ranks -> x ∈ res) /\ (forall x, x ∈ res -> x ∈ ranks \/ x ∈ new) /\
  (ranks_size res = limit \/ forall x, x ∈ new -> x ∈ res).
Proof.
  intros Hl. revert ranks. induction new as [|r new IH]; intros ranks Hnd Hsz; cbn [push_ranks].
  { split_and!; [done|done|done|by left|right; set_solver]. }
  unfold limit_size. rewrite (wrap_id 64) by (unfold in_word; lia). case_zbool.
  { split_and!; [done|lia|done|by left|left; lia]. }
  destruct (push_rank_spec ranks r Hnd) as (Hnd' & Hin & Hcase).
  assert (ranks_size (push_rank ranks r) <= limit) as Hsz'.
  { destruct Hcase as [-> | ->]; [done|]. rewrite ranks_size_snoc. lia. }
  destruct (IH _ Hnd' Hsz') as (H1 & H2 & H3 & H4 & H5). split_and!; [done|done|set_solver|set_solver|].
  destruct H5 as [H5|H5]; [by left|right]. intros x Hx. apply elem_of_cons in Hx as [->|Hx]; [|auto].
  apply H3, Hin. by right.
Qed.

Lemma full_list (l l' : list Z) (limit : Z) :
  NoDup l -> (forall x, x ∈ l -> x ∈ l') -> ranks_size l = limit -> ranks_size l' <= limit -> ranks_size l' = limit.
Proof.
  intros Hnd Hin Hl Hl'. unfold ranks_size in *. pose proof (submseteq_length l l' (NoDup_submseteq l l' Hnd Hin)). lia.
Qed.

Lemma combine_ranks_conserves l r limit :
  m_text l = m_text r -> 1 <= limit < 2 ^ 31 -> conserves limit [l; r] [combine_ranks l r limit].
Proof.
  intros Ht Hl Hlr. apply Forall_cons in Hlr as [Hsl [Hsr _]%Forall_cons]. destruct Hsl as [Hsl Hcl]. destruct Hsr as [Hsr Hcr].
  destruct (push_ranks_spec (m_ranks l) (m_ranks r) limit ltac:(lia) (sn_nodup _ _ Hsl) (sn_limit _ _ Hsl))
    as (Hnd & Hsz & Hkeep & Hfrom & Hall).
  unfold combine_ranks, addRanks. constructor.
  - apply Forall_singleton. split; [|cbn; lia]. constructor; cbn; try apply Hsl; try done.
    + pose proof (sn_ranks _ _ Hsl) as Hne. cbn in Hne. destruct (m_ranks l) as [|x xs]; [done|].
      intros He. specialize (Hkeep x ltac:(left)). rewrite He in Hkeep. by apply not_elem_of_nil in Hkeep.
    + apply Forall_forall. intros x [Hx|Hx]%Hfrom;
        [exact (proj1 (Forall_forall _ _) (sn_rank_ints _ _ Hsl) x Hx)|exact (proj1 (Forall_forall _ _) (sn_rank_ints _ _ Hsr) x Hx)].
  - unfold total_weight. cbn. unfold weight at 1. cbn. pose proof (weight_nonneg limit r ltac:(lia)).
    unfold weight at 1. lia.
  - intros P. unfold count_where. cbn. rewrite Ht. destruct (P _); lia.
  - intros t x (m & Hm & Htm & Hx). eexists. split; [by left|]. cbn.
    apply elem_of_cons in Hm as [->|Hm%list_elem_of_singleton].
    + split; [done|]. destruct Hx as [Hx|Hx]; [left; auto|]. right.
      apply (full_list (m_ranks l)); [apply Hsl|done|done|done].
    + subst m. split; [by rewrite Ht|]. destruct Hx as [Hx|Hx]; [destruct Hall; auto|]. right.
      destruct Hall as [Hall|Hall]; [done|]. apply (full_list (m_ranks r)); [apply Hsr|done|done|done].
  - intros t x (m & ->%list_elem_of_singleton & Htm & [Hx|Hx]%Hfrom); [exists l|exists r]; cbn in Htm;
      (split; [set_solver|]); [done|by rewrite <- Ht].
Qed.

Lemma TextEqualityCombiner_ok : combiner_ok TextEqualityCombiner.
Proof.
  constructor; cbn; [by intros l r ->%String.eqb_eq|done|apply combine_ranks_conserves].
Qed.

Lemma TextTagCombiner_ok : combiner_ok TextTagCombiner.
Proof.
  constructor; cbn; [by intros l r [->%String.eqb_eq _]%andb_true_iff|done|apply combine_ranks_conserves].
Qed.

Lemma combine_into_conserves combiners limit finals m fs :
  Forall combiner_ok combiners -> 1 <= limit < 2 ^ 31 ->
  combine_into combiners finals m limit = Some fs -> conserves limit (finals ++ [m]) fs.
Proof.
  intros Hcs Hl. revert fs. induction finals as [|f finals IH]; intros fs; cbn [combine_into]; [done|].
  destruct (List.find _ combiners) as [c|] eqn:Ec.
  - intros [= <-]. apply List.find_some in Ec as [Hin Hshould]. apply list_elem_of_In in Hin.
    rewrite Forall_forall in Hcs. destruct (Hcs c Hin) as [Htext _ Hcons].
    transitivity ([f; m] ++ finals).
    { apply conserves_perm. cbn. constructor. by rewrite <- Permutation_cons_append. }
    apply (conserves_app limit [f; m] [combine c f m limit] finals finals); [|reflexivity]. auto.
  - intros (fs' & Hfs & [= <-])%bind_Some. cbn.
    apply (conserves_app limit [f] [f] (finals ++ [m]) fs'); [reflexivity|auto].
Qed.

Lemma combine_step_conserves combiners limit finals m :
  Forall combiner_ok combiners -> 1 <= limit < 2 ^ 31 ->
  conserves limit (finals ++ [m]) (combine_step combiners limit finals m).
Proof.
  intros Hcs Hl. unfold combine_step. destruct (combine_into combiners finals m limit) as [fs|] eqn:E; [|reflexivity].
  by eapply combine_into_conserves.
Qed.

Lemma combine_all_conserves combiners limit ms :
  Forall combiner_ok combiners -> 1 <= limit < 2 ^ 31 -> conserves limit ms (combine_all combiners limit ms).
Proof.
  intros Hcs Hl. unfold combine_all. destruct ms as [|m0 [|m1 ms]]; [reflexivity..|].
  change (m0 :: m1 :: ms) with ([m0] ++ (m1 :: ms)). generalize [m0] as finals, (m1 :: ms) as rest.
  intros finals rest. revert finals. induction rest as [|m rest IH]; intros finals; cbn [foldl].
  { rewrite app_nil_r. reflexivity. }
  transitivity (combine_step combiners limit finals m ++ rest); [|apply IH].
  change (m :: rest) with ([m] ++ rest). rewrite app_assoc.
  apply conserves_app; [by apply combine_step_conserves|reflexivity].
Qed.

(** With the default combiner no two messages of the result have the same text and
    tag. *)
Definition keys (ms : list Message) : list (string * string) := (fun m => (m_text m, m_tag m)) <$> ms.

Lemma combine_into_keys combiners limit finals m fs :
  Forall combiner_ok combiners -> combine_into combiners finals m limit = Some fs -> keys fs = keys finals.
Proof.
  intros Hcs. revert fs. induction finals as [|f finals IH]; intros fs; cbn [combine_into]; [done|].
  destruct (List.find _ combiners) as [c|] eqn:Ec.
  - intros [= <-]. apply List.find_some in Ec as [Hin _]. apply list_elem_of_In in Hin.
    rewrite Forall_forall in Hcs. destruct (Hcs c Hin) as [_ Hkeep _]. unfold keys. cbn. destruct (Hkeep f m limit) as [-> ->]. done.
  - intros (fs' & Hfs & [= <-])%bind_Some. cbn. f_equal. auto.
Qed.

Lemma combine_into_none combiners limit finals m :
  TextTagCombiner ∈ combiners -> combine_into combiners finals m limit = None -> (m_text m, m_tag m) ∉ keys finals.
Proof.
  intros Hin. induction finals as [|f finals IH]; cbn [combine_into]; [intros _; apply not_elem_of_nil|].
  destruct (List.find _ combiners) as [c|] eqn:Ec; [done|].
  intros He%bind_None. destruct He as [He|(? & ? & [=])]. cbn. apply not_elem_of_cons. split; [|auto].
  intros [= Ht Hg]. pose proof (List.find_none _ _ Ec TextTagCombiner ltac:(by apply list_elem_of_In)) as Hf.
  cbn in Hf. by rewrite Ht, Hg, !String.eqb_refl in Hf.
Qed.

Lemma combine_all_keys combiners limit ms :
  Forall combiner_ok combiners -> TextTagCombiner ∈ combiners -> NoDup (keys (combine_all combiners limit ms)).
Proof.
  intros Hcs Hin. unfold combine_all. destruct ms as [|m0 [|m1 ms]]; [constructor|apply NoDup_singleton|].
  assert (NoDup (keys [m0])) as Hnd by apply NoDup_singleton. revert Hnd. generalize [m0] as finals, (m1 :: ms) as rest.
  intros finals rest. revert finals. induction rest as [|m rest IH]; intros finals Hnd; cbn [foldl]; [done|].
  apply IH. unfold combine_step. destruct (combine_into combiners finals m limit) as [fs|] eqn:E.
  - by rewrite (combine_into_keys _ _ _ _ _ Hcs E).
  - unfold keys in *. rewrite fmap_app. apply NoDup_app. split_and!; [done| |apply NoDup_singleton].
    intros k Hk ->%list_elem_of_singleton. by apply (combine_into_none combiners limit finals m Hin E).
Qed.

(** ** Arrays in transit *)

Lemma received_conserves limit m : conserves limit [m] [received limit m].
Proof.
  intros [[Hm Hc] _]%Forall_cons. constructor.
  - apply Forall_singleton. split; [|done]. destruct Hm. constructor; try done. cbn in *. unfold is_int in *. lia.
  - done.
  - done.
  - intros t r (x & ->%list_elem_of_singleton & ?). exists (received limit m). split; [set_solver|done].
  - intros t r (x & ->%list_elem_of_singleton & ?). exists m. split; [set_solver|done].
Qed.

Lemma received_all_conserves limit ms : conserves limit ms (received limit <$> ms).
Proof.
  induction ms as [|m ms IH]; [reflexivity|].
  apply (conserves_app limit [m] [received limit m] ms); [apply received_conserves|done].
Qed.

Lemma count_total_nonneg limit ms : Forall (storable limit) ms -> 0 <= count_where (fun _ => true) ms.
Proof.
  induction 1 as [|m ms [_ Hc] Hms IH]; [done|]. unfold count_where in *. cbn [fmap list_fmap foldr]. lia.
Qed.

Lemma storable_all_sendable limit ms :
  Forall (storable limit) ms -> count_where (fun _ => true) ms < 2 ^ 31 -> Forall (sendable limit) ms.
Proof.
  induction 1 as [|m ms Hm Hms IH]; intros Hc; constructor; unfold count_where in *; cbn [fmap list_fmap foldr] in Hc;
    pose proof (count_total_nonneg limit ms Hms) as Hn; unfold count_where in Hn; pose proof (proj2 Hm).
  - apply storable_sendable; [done|lia].
  - apply IH. lia.
Qed.

(** The limits of one rank follow from those of all ranks. *)
Record fits (limit : Z) (ms : list Message) : Prop := {
  ft_storable : Forall (storable limit) ms;
  ft_weight : total_weight limit ms < 2 ^ 31;
  ft_count : count_where (fun _ => true) ms < 2 ^ 31
}.

Lemma fits_conserved limit ms ms' : fits limit ms -> conserves limit ms ms' -> fits limit ms'.
Proof. intros [S W Ct] Hc. destruct (Hc S) as [S' W' C' _ _]. constructor; [done|lia|]. by rewrite C'. Qed.

Lemma fits_sub limit ms a b : 0 <= limit -> ms ≡ₚ a ++ b -> fits limit ms -> fits limit a.
Proof.
  intros Hl Hp [S W Ct]. rewrite Hp in S. apply Forall_app in S as [Sa Sb].
  assert (total_weight limit ms = total_weight limit a + total_weight limit b) as Hw.
  { rewrite <- total_weight_app. unfold total_weight. apply sum_perm. by rewrite Hp. }
  assert (forall P, count_where P ms = count_where P a + count_where P b) as Hc.
  { intros P. rewrite <- count_where_app. unfold count_where. apply sum_perm. by rewrite Hp. }
  rewrite Hc in Ct. pose proof (total_weight_nonneg limit b Hl). pose proof (count_total_nonneg limit b Sb).
  constructor; [done|lia|lia].
Qed.

Lemma fits_transit limit ms :
  1 <= limit < 2 ^ 31 -> fits limit ms ->
  exists s, packMessages ms = Some s /\ c_str s = s /\ (isPackedMessagesEmpty s = true <-> ms = []) /\
    forall acc, unpackMessages acc s limit = Some (acc ++ (received limit <$> ms)).
Proof. intros Hl [S W Ct]. apply unpack_packMessages; [by apply storable_all_sendable|done|done]. Qed.

(** ** The tree of ranks *)

(** What [Lumberjack] relies on: the ranks send along a tree with root 0, each rank waits
    for as many arrays as it has children, and the pushes to flush are at least the depth
    of every rank. *)
Class CommunicatorLaws (C : Type) `{!Communicator C} := {
  depth : Z -> Z;
  cl_depth_root : depth 0 = 0;
  cl_depth_pos : forall r, 0 < r -> 0 < depth r;
  cl_rank : forall r n l, rank (initialize r n l) = r;
  cl_output : forall r n l, isOutputNode (initialize r n l) = (r =? 0);
  cl_root : forall n l, destination (initialize 0 n l) = None;
  cl_parent : forall r n l, 0 < r < n ->
    exists d, destination (initialize r n l) = Some d /\ 0 <= d < n /\ depth r = depth d + 1;
  cl_expected : forall r n l, 0 <= r < n ->
    arrivals_expected (initialize r n l) =
    Z.of_nat (length (filter (fun c => destination (initialize c n l) = Some r) (seqZ 0 n)));
  cl_pushes : forall r r' n l, 0 <= r < n -> 0 <= r' < n ->
    numPushesToFlush (initialize r n l) = numPushesToFlush (initialize r' n l) /\
    depth r' <= numPushesToFlush (initialize r n l)
}.

Lemma log2_half r : 1 <= r -> Z.log2 (r + 1) = Z.log2 ((r - 1) / 2 + 1) + 1.
Proof.
  intros Hr. replace ((r - 1) / 2 + 1) with ((r + 1) / 2).
  - rewrite <- Z.div2_div. pose proof (Z.log2_shiftr (r + 1) 1 ltac:(lia)) as Hs. rewrite <- Z.div2_spec in Hs.
    rewrite Hs. pose proof (Z.log2_pos (r + 1) ltac:(lia)). lia.
  - replace (r + 1) with (r - 1 + 1 * 2) by lia. by rewrite Z.div_add by lia.
Qed.

Lemma binary_children r n :
  0 <= r < n ->
  filter (fun c => (if c =? 0 then None else Some (Z.shiftr (c - 1) 1)) = Some r) (seqZ 0 n) ≡ₚ
  filter (fun c => c < n) [r * 2 + 1; r * 2 + 2].
Proof.
  intros Hr. apply NoDup_Permutation.
  - apply NoDup_filter, NoDup_seqZ.
  - apply NoDup_filter. apply NoDup_cons. split; [|apply NoDup_singleton]. rewrite list_elem_of_singleton. lia.
  - intros c. rewrite !list_elem_of_filter, elem_of_seqZ, !elem_of_cons. rewrite Z.shiftr_div_pow2 by lia.
    change (2 ^ 1) with 2. split.
    + intros [Hc Hn]. destruct (Z.eqb_spec c 0); [done|]. injection Hc as Hc.
      pose proof (Z.div_mod (c - 1) 2 ltac:(lia)). pose proof (Z.mod_pos_bound (c - 1) 2 ltac:(lia)).
      split; [lia|]. destruct (decide (c = r * 2 + 1)); [by left|right; left; lia].
    + intros [Hn [Hc|[Hc|Hc]]]; [| |by apply not_elem_of_nil in Hc]; (split; [|lia]);
        rewrite (proj2 (Z.eqb_neq c 0)) by lia; f_equal.
      * replace (c - 1) with (r * 2) by lia. apply Z.div_mul. lia.
      * replace (c - 1) with (1 + r * 2) by lia. rewrite Z.div_add by lia. done.
Qed.

#[export] Instance BinaryTree_laws : CommunicatorLaws BinaryTreeCommunicator.
Proof.
  refine {| depth r := Z.log2 (r + 1) |}.
  - done.
  - intros r Hr. apply Z.log2_pos. lia.
  - done.
  - done.
  - done.
  - intros r n l Hr. cbn. rewrite (proj2 (Z.eqb_neq r 0)) by lia. eexists. split; [done|].
    rewrite Z.shiftr_div_pow2 by lia. change (2 ^ 1) with 2.
    pose proof (Z.div_mod (r - 1) 2 ltac:(lia)). pose proof (Z.mod_pos_bound (r - 1) 2 ltac:(lia)).
    split; [lia|]. apply log2_half. lia.
  - intros r n l Hr. cbn. rewrite (Permutation_length (binary_children r n Hr)).
    cbn [filter list_filter]. do 2 (case_zbool; case_decide); try lia; done.
  - intros r r' n l Hr Hr'. cbn. split; [done|]. pose proof (Z.log2_le_mono (r' + 1) n ltac:(lia)). lia.
Defined.

#[export] Instance Root_laws : CommunicatorLaws RootCommunicator.
Proof.
  refine {| depth r := if r =? 0 then 0 else 1 |}.
  - done.
  - intros r Hr. by rewrite (proj2 (Z.eqb_neq r 0)) by lia.
  - done.
  - done.
  - done.
  - intros r n l Hr. cbn. rewrite (proj2 (Z.eqb_neq r 0)) by lia. exists 0. split_and!; [done|lia|lia|done].
  - intros r n l Hr. cbn. rewrite seqZ_cons by lia. rewrite filter_cons_False by done. case_zbool.
    + subst r. rewrite filter_all, length_seqZ; [lia|]. intros c Hc%elem_of_seqZ.
      by rewrite (proj2 (Z.eqb_neq c 0)) by lia.
    + rewrite filter_none; [done|]. intros c _. case_zbool; [done|]. congruence.
  - intros r r' n l Hr Hr'. cbn. case_zbool; lia.
Defined.

(** ** One push *)

Section Push.
Context {C : Type} `{!Communicator C} `{!CommunicatorLaws C}.
Context (n limit : Z) (Hlimit : 1 <= limit < 2 ^ 31).
Implicit Types (lj : Lumberjack C) (w : list (Lumberjack C)).

(** The communicators of the ranks 0 to [n - 1] in order. *)
Definition ranks_of w : Prop := m_communicator <$> w = (fun r => initialize r n limit) <$> seqZ 0 n.

Definition config_ok lj : Prop := m_ranksLimit lj = limit /\ Forall combiner_ok (m_combiners lj).

Definition all_messages w : list Message := mjoin (m_messages <$> w).

Definition lj_rank lj : Z := rank (m_communicator lj).

Lemma ranks_of_node w lj :
  ranks_of w -> lj ∈ w -> 0 <= lj_rank lj < n /\ m_communicator lj = initialize (lj_rank lj) n limit.
Proof using Type*.
  intros Hw Hlj. assert (m_communicator lj ∈ (m_communicator <$> w)) as Hin by (apply list_elem_of_fmap; eauto).
  rewrite Hw in Hin. apply list_elem_of_fmap in Hin as (r & Hr & Hs%elem_of_seqZ).
  unfold lj_rank. rewrite Hr, cl_rank. split; [lia|done].
Qed.

Lemma node_output w lj : ranks_of w -> lj ∈ w -> isOutputNode (m_communicator lj) = (lj_rank lj =? 0).
Proof using Type*. intros Hw Hlj. destruct (ranks_of_node w lj Hw Hlj) as [_ Hc]. rewrite Hc at 1. apply cl_output. Qed.

Lemma node_destination w lj :
  ranks_of w -> lj ∈ w ->
  match destination (m_communicator lj) with
  | Some d => lj_rank lj <> 0 /\ 0 <= d < n /\ depth (lj_rank lj) = depth d + 1
  | None => lj_rank lj = 0
  end.
Proof using Type*.
  intros Hw Hlj. destruct (ranks_of_node w lj Hw Hlj) as [Hr Hc]. rewrite Hc.
  destruct (decide (lj_rank lj = 0)) as [H0|H0]; [by rewrite H0, cl_root|].
  destruct (cl_parent (lj_rank lj) n limit ltac:(lia)) as (d & -> & ? & ?). done.
Qed.

(** What a rank sends, keeps, and what arrives at it. *)
Definition combined lj : list Message := combine_all (m_combiners lj) (m_ranksLimit lj) (m_messages lj).
Definition packed lj : string := default EmptyString (packMessages (combined lj)).
Definition kept lj : list Message := if isOutputNode (m_communicator lj) then m_messages lj else [].
Definition children w r : list (Lumberjack C) := filter (fun lj => destination (m_communicator lj) = Some r) w.
Definition arriving w r : list Message := mjoin ((fun lj => received limit <$> combined lj) <$> children w r).

Lemma combined_fits w lj :
  Forall config_ok w -> lj ∈ w -> fits limit (all_messages w) -> fits limit (m_messages lj) /\ fits limit (combined lj).
Proof using Type*.
  intros Hcfg Hlj Hf. assert (fits limit (m_messages lj)) as Hfm.
  { apply list_elem_of_split in Hlj as (w1 & w2 & ->). unfold all_messages in Hf. rewrite fmap_app, join_app in Hf. cbn in Hf.
    eapply fits_sub; [lia| |exact Hf]. by rewrite Permutation_app_swap_app. }
  split; [done|]. rewrite Forall_forall in Hcfg. destruct (Hcfg lj Hlj) as [Hl Hcs].
  eapply fits_conserved; [exact Hfm|]. unfold combined. rewrite Hl. by apply combine_all_conserves.
Qed.

Lemma packed_spec w lj :
  Forall config_ok w -> lj ∈ w -> fits limit (all_messages w) ->
  packMessages (combined lj) = Some (packed lj) /\
  c_str (if isPackedMessagesEmpty (packed lj) then zeroMessage else packed lj) = packed lj /\
  (isPackedMessagesEmpty (packed lj) = true <-> combined lj = []) /\
  forall acc, unpackMessages acc (packed lj) limit = Some (acc ++ (received limit <$> combined lj)).
Proof using Type*.
  intros Hcfg Hlj Hf. destruct (combined_fits w lj Hcfg Hlj Hf) as [_ Hfc].
  destruct (fits_transit limit (combined lj) Hlimit Hfc) as (s & Hs & Hc & He & Hu). unfold packed. rewrite Hs. cbn.
  split_and!; [done| |done|done]. destruct (isPackedMessagesEmpty s) eqn:E; [|done].
  pose proof (proj1 He eq_refl) as Hn. rewrite Hn in Hs. cbn in Hs. by injection Hs as <-.
Qed.

Lemma prepare_spec w lj :
  Forall config_ok w -> lj ∈ w -> fits limit (all_messages w) ->
  prepare lj = Some (with_messages lj (kept lj), if isOutputNode (m_communicator lj) then EmptyString else packed lj).
Proof using Type*.
  intros Hcfg Hlj Hf. unfold prepare, kept. destruct (isOutputNode (m_communicator lj)); [by destruct lj|].
  destruct (packed_spec w lj Hcfg Hlj Hf) as (Hp & _). cbn. unfold combined in Hp. by rewrite Hp.
Qed.

Lemma mapM_fmap {A B} (f : A -> option B) (g : A -> B) (l : list A) :
  (forall x, x ∈ l -> f x = Some (g x)) -> mapM f l = Some (g <$> l).
Proof using Type.
  induction l as [|x l IH]; intros Hl; [done|]. cbn. rewrite Hl by left. cbn. rewrite IH; [done|].
  intros y Hy. apply Hl. by right.
Qed.

(** The arrays sent to rank [r] are those of its children. *)
Lemma arrivals_spec w0 w r :
  ranks_of w0 -> Forall config_ok w0 -> fits limit (all_messages w0) -> w ⊆ w0 ->
  arrivals (omap (fun '(lj, p) => push_send (m_communicator lj) p)
    ((fun lj => (with_messages lj (kept lj), if isOutputNode (m_communicator lj) then EmptyString else packed lj)) <$> w)) r =
  packed <$> children w r.
Proof using Type*.
  intros Hw Hcfg Hf. induction w as [|lj w IH]; intros Hsub; [done|].
  assert (lj ∈ w0) as Hlj by (apply Hsub; left). specialize (IH ltac:(intros y Hy; apply Hsub; by right)).
  cbn [fmap list_fmap omap list_omap m_communicator with_messages]. unfold children in *. rewrite filter_cons.
  pose proof (node_destination w0 lj Hw Hlj) as Hd. pose proof (node_output w0 lj Hw Hlj) as Ho.
  destruct (packed_spec w0 lj Hcfg Hlj Hf) as (_ & Hc & _). unfold push_send.
  destruct (destination (m_communicator lj)) as [d|].
  - rewrite Ho, (proj2 (Z.eqb_neq _ _)) by apply Hd. cbn [mbind option_bind]. rewrite Hc.
    unfold arrivals in *. cbn [omap list_omap]. rewrite filter_cons. cbn [fst]. 
    destruct (decide (d = r)) as [->|Hne].
    + rewrite !decide_True by done. cbn. by f_equal.
    + rewrite !decide_False by congruence. exact IH.
  - cbn [mbind option_bind]. rewrite decide_False by done. exact IH.
Qed.

Lemma unpack_all_spec w acc ljs :
  Forall config_ok w -> fits limit (all_messages w) -> ljs ⊆ w ->
  unpack_all acc (List.filter (fun s => negb (isPackedMessagesEmpty s)) (packed <$> ljs)) limit =
  Some (acc ++ mjoin ((fun lj => received limit <$> combined lj) <$> ljs)).
Proof using Type*.
  intros Hcfg Hf. revert acc. induction ljs as [|lj ljs IH]; intros acc Hsub; [cbn; by rewrite app_nil_r|].
  assert (lj ∈ w) as Hlj by (apply Hsub; left). specialize (fun acc => IH acc ltac:(intros y Hy; apply Hsub; by right)).
  destruct (packed_spec w lj Hcfg Hlj Hf) as (_ & _ & He & Hu). cbn.
  destruct (isPackedMessagesEmpty (packed lj)) eqn:E; cbn.
  - rewrite (proj1 He) by done. cbn. apply IH.
  - unfold unpack_all in *. cbn [foldl mbind option_bind]. rewrite Hu, IH. by rewrite <- app_assoc.
Qed.

(** The states of a rank before and after a push. *)
Definition pushed w lj lj' : Prop :=
  m_communicator lj' = m_communicator lj /\ m_ranksLimit lj' = m_ranksLimit lj /\ m_combiners lj' = m_combiners lj /\
  m_messages lj' ≡ₚ kept lj ++ arriving w (lj_rank lj).

Lemma children_count w r :
  ranks_of w -> 0 <= r < n -> Z.of_nat (length (children w r)) = arrivals_expected (initialize r n limit).
Proof using Type*.
  intros Hw Hr. rewrite (cl_expected (C := C) r n limit Hr). f_equal. unfold children.
  transitivity (length (filter (fun c => destination c = Some r) (m_communicator <$> w))).
  - symmetry. by apply filter_fmap_length.
  - unfold ranks_of in Hw. rewrite Hw. by apply filter_fmap_length.
Qed.

Lemma push_all_spec arrive w :
  (forall r l, arrive r l ≡ₚ l) -> ranks_of w -> Forall config_ok w -> fits limit (all_messages w) ->
  exists w', push_all arrive w = Some w' /\ Forall2 (pushed w) w w'.
Proof using Type*.
  intros Harr Hw Hcfg Hf. unfold push_all.
  rewrite (mapM_fmap prepare (fun lj => (with_messages lj (kept lj), if isOutputNode (m_communicator lj) then EmptyString else packed lj)))
    by (intros lj Hlj; by apply (prepare_spec w)).
  cbn [mbind option_bind]. rewrite <- list_fmap_compose.
  destruct (mapM_Forall2 (fun lj => deliver arrive (omap (fun '(lj, p) => push_send (m_communicator lj) p)
    ((fun lj => (with_messages lj (kept lj), if isOutputNode (m_communicator lj) then EmptyString else packed lj)) <$> w))
    (with_messages lj (kept lj))) (pushed w) w) as (w' & Hw' & HR).
  { intros lj Hlj. unfold deliver. cbn [m_communicator with_messages m_ranksLimit m_messages].
    fold (lj_rank lj). rewrite (arrivals_spec w w) by done.
    destruct (ranks_of_node w lj Hw Hlj) as [Hr Hc].
    pose proof (Harr (lj_rank lj) (packed <$> children w (lj_rank lj))) as Hp.
    apply Permutation_map_inv in Hp as (l' & Hl' & Hpl). rewrite Hl'.
    unfold push_receive. rewrite length_map, <- (Permutation_length Hpl), children_count by done.
    rewrite <- Hc, Z.eqb_refl. cbn [mbind option_bind].
    rewrite Forall_forall in Hcfg. destruct (Hcfg lj Hlj) as [Hl Hcs]. rewrite Hl. rewrite <- Forall_forall in Hcfg.
    rewrite (unpack_all_spec w); [|done|done|].
    - cbn. eexists. split; [done|]. split_and!; cbn; [done|done|done|]. apply Permutation_app_head.
      unfold arriving. by rewrite Hpl.
    - intros x Hx. rewrite <- Hpl in Hx. by apply list_elem_of_filter in Hx as [_ Hx]. }
  exists w'. split; [|done]. rewrite <- Hw'. clear. generalize (omap (fun '(lj, p) => push_send (m_communicator lj) p)
    ((fun lj => (with_messages lj (kept lj), if isOutputNode (m_communicator lj) then EmptyString else packed lj)) <$> w)) as sent.
  intros sent. induction w as [|lj w IH]; [done|]. cbn. destruct (deliver arrive sent _); [|done]. cbn. by rewrite IH.
Qed.

Lemma pushed_shape w w0 w' : Forall2 (pushed w0) w w' -> Forall config_ok w -> Forall config_ok w' /\ m_communicator <$> w' = m_communicator <$> w.
Proof using Type.
  induction 1 as [|lj lj' w w' (Hc & Hl & Hcs & _) _ IH]; intros Hcfg; [done|].
  apply Forall_cons in Hcfg as [[H1 H2] Hcfg]. destruct (IH Hcfg) as [IH1 IH2]. split.
  - constructor; [|done]. split; [by rewrite Hl|by rewrite Hcs].
  - cbn. by rewrite Hc, IH2.
Qed.

Lemma pushed_combiners w w0 w' : Forall2 (pushed w0) w w' -> m_combiners <$> w' = m_combiners <$> w.
Proof using Type.
  induction 1 as [|lj lj' w w' (_ & _ & Hcs & _) _ IH]; [done|]. cbn. by rewrite Hcs, IH.
Qed.

Lemma node_conserves w lj :
  ranks_of w -> Forall config_ok w -> lj ∈ w ->
  conserves limit (m_messages lj)
    (kept lj ++ if decide (is_Some (destination (m_communicator lj))) then received limit <$> combined lj else []).
Proof using Type*.
  intros Hw Hcfg Hlj. pose proof (node_destination w lj Hw Hlj) as Hd. pose proof (node_output w lj Hw Hlj) as Ho.
  unfold kept. rewrite Ho. rewrite Forall_forall in Hcfg. destruct (Hcfg lj Hlj) as [Hl Hcs].
  destruct (destination (m_communicator lj)) as [d|].
  - rewrite (proj2 (Z.eqb_neq _ _)) by apply Hd. rewrite decide_True by done. cbn.
    transitivity (combined lj); [|apply received_all_conserves].
    unfold combined. rewrite Hl. by apply combine_all_conserves.
  - rewrite Hd, decide_False by (by intros [? [=]]). cbn. rewrite app_nil_r. reflexivity.
Qed.

Lemma ranks_of_NoDup w : ranks_of w -> lj_rank <$> w = seqZ 0 n.
Proof using Type*.
  intros Hw. transitivity (rank <$> (m_communicator <$> w)); [by rewrite <- list_fmap_compose|].
  unfold ranks_of in Hw. rewrite Hw, <- list_fmap_compose.
  rewrite <- (list_fmap_id (seqZ 0 n)) at 2. apply list_fmap_ext. intros i r _. apply cl_rank.
Qed.

(** A push conserves the messages of all ranks together. *)
Lemma push_conserves w w' :
  ranks_of w -> Forall config_ok w -> Forall2 (pushed w) w w' -> conserves limit (all_messages w) (all_messages w').
Proof using Type*.
  intros Hw Hcfg HR.
  set (out := fun lj : Lumberjack C => if decide (is_Some (destination (m_communicator lj))) then received limit <$> combined lj else []).
  transitivity (mjoin ((fun lj => kept lj ++ out lj) <$> w)).
  - assert (w ⊆ w) as Hsub by done. revert Hsub. generalize w at 1 3 4. intros w1. induction w1 as [|lj w1 IH]; intros Hsub; [reflexivity|].
    unfold all_messages. cbn. apply conserves_app; [by apply (node_conserves w); [| |apply Hsub; left]|].
    apply IH. intros y Hy. apply Hsub. by right.
  - apply conserves_perm. rewrite join_app_perm. unfold all_messages.
    rewrite (join_Forall2_perm (fun lj => kept lj ++ arriving w (lj_rank lj)) m_messages w w').
    2: { eapply Forall2_impl; [exact HR|]. by intros lj lj' (_ & _ & _ & ?). }
    rewrite join_app_perm. apply Permutation_app_head. unfold arriving.
    assert (mjoin (children w <$> (lj_rank <$> w)) ≡ₚ filter (fun lj => is_Some (destination (m_communicator lj))) w) as Hg.
    { apply (join_groups (fun lj => destination (m_communicator lj))).
      - rewrite (ranks_of_NoDup w Hw). apply NoDup_seqZ.
      - intros lj d Hlj Hd. pose proof (node_destination w lj Hw Hlj) as Hn. rewrite Hd in Hn.
        rewrite (ranks_of_NoDup w Hw). apply elem_of_seqZ. lia. }
    transitivity (mjoin ((fun lj => received limit <$> combined lj) <$> filter (fun lj => is_Some (destination (m_communicator lj))) w)).
    + unfold out. by rewrite (join_filter (fun lj => is_Some (destination (m_communicator lj)))).
    + rewrite <- Hg, join_join, <- list_fmap_compose. done.
Qed.

(** ** Pushing fully *)

Definition only_above (d : Z) w : Prop := forall lj, lj ∈ w -> d < depth (lj_rank lj) -> m_messages lj = [].

Lemma pushed_node w0 w w' lj' : Forall2 (pushed w0) w w' -> lj' ∈ w' -> exists lj, lj ∈ w /\ pushed w0 lj lj'.
Proof using Type.
  intros HR [i Hi]%list_elem_of_lookup. destruct (Forall2_lookup_r _ _ _ _ _ HR Hi) as (lj & Hlj & Hp).
  exists lj. split; [by eapply list_elem_of_lookup_2|done].
Qed.

(** After a push the messages are one level closer to the root. *)
Lemma push_above w w' d :
  ranks_of w -> Forall2 (pushed w) w w' -> 0 < d -> only_above d w -> only_above (d - 1) w'.
Proof using Type*.
  intros Hw HR Hd Hab lj' Hlj' Hdep. destruct (pushed_node w w w' lj' HR Hlj') as (lj & Hlj & Hc & _ & _ & Hm).
  assert (lj_rank lj' = lj_rank lj) as Hr by (unfold lj_rank; by rewrite Hc). rewrite Hr in Hdep.
  assert (lj_rank lj <> 0) as H0 by (intros H0; rewrite H0, cl_depth_root in Hdep; lia).
  assert (kept lj = []) as Hk by (unfold kept; by rewrite (node_output w lj Hw Hlj), (proj2 (Z.eqb_neq _ _))).
  assert (arriving w (lj_rank lj) = []) as Ha.
  { apply join_nil. intros c [Hdc Hcw]%list_elem_of_filter. pose proof (node_destination w c Hw Hcw) as Hn.
    rewrite Hdc in Hn. unfold combined. rewrite (Hab c Hcw) by lia. done. }
  rewrite Hk, Ha in Hm. by apply Permutation_nil_r in Hm.
Qed.

Lemma push_loop_spec k arrive w d :
  (forall i r l, arrive i r l ≡ₚ l) -> ranks_of w -> Forall config_ok w -> fits limit (all_messages w) ->
  0 <= d -> only_above (d + Z.of_nat k) w ->
  exists w', push_loop k arrive w = Some w' /\ ranks_of w' /\ Forall config_ok w' /\
    m_combiners <$> w' = m_combiners <$> w /\
    conserves limit (all_messages w) (all_messages w') /\ only_above d w'.
Proof using Type*.
  revert arrive w. induction k as [|k IH]; intros arrive w Harr Hw Hcfg Hf Hd Hab.
  { exists w. rewrite Z.add_0_r in Hab. split_and!; [done|done|done|done|reflexivity|done]. }
  destruct (push_all_spec (arrive 0%nat) w) as (w1 & Hw1 & HR); [auto|done|done|done|].
  destruct (pushed_shape w w w1 HR Hcfg) as [Hcfg1 Hcomm]. pose proof (push_conserves w w1 Hw Hcfg HR) as Hcons.
  destruct (IH (fun i => arrive (S i)) w1) as (w' & Hw' & Hr' & Hcfg' & Hcs' & Hcons' & Hab').
  - auto.
  - unfold ranks_of. by rewrite Hcomm.
  - done.
  - by eapply fits_conserved.
  - done.
  - replace (d + Z.of_nat k) with (d + Z.of_nat (S k) - 1) by lia. eapply push_above; [exact Hw|done|lia|done].
  - exists w'. cbn [push_loop]. rewrite Hw1. cbn. split_and!; [done|done|done| |by transitivity (all_messages w1)|done].
    by rewrite Hcs', (pushed_combiners w w w1).
Qed.

Lemma pushes_spec w :
  0 < n -> ranks_of w ->
  exists k, pushes w = Some k /\ forall r, 0 <= r < n -> depth r <= Z.of_nat k.
Proof using Type*.
  intros Hn Hw. unfold pushes.
  assert ((fun lj => numPushesToFlush (m_communicator lj)) <$> w = (fun r => numPushesToFlush (initialize r n limit)) <$> seqZ 0 n) as ->.
  { transitivity (numPushesToFlush <$> (m_communicator <$> w)); [by rewrite <- list_fmap_compose|].
    unfold ranks_of in Hw. by rewrite Hw, <- list_fmap_compose. }
  rewrite seqZ_cons by lia. cbn [fmap list_fmap].
  rewrite (proj2 (forallb_forall _ _)).
  - eexists. split; [done|]. intros r Hr. destruct (cl_pushes 0 r n limit ltac:(lia) Hr) as [_ Hdep]. lia.
  - intros k Hk. apply list_elem_of_In, list_elem_of_fmap in Hk as (r & -> & Hr%elem_of_seqZ).
    apply Z.eqb_eq. apply (cl_pushes 0 r n limit); lia.
Qed.

(** The messages of all ranks are those of the root when the others have none. *)
Lemma root_messages w :
  0 < n -> ranks_of w -> only_above 0 w ->
  exists root rest, w = root :: rest /\ lj_rank root = 0 /\ all_messages w = m_messages root /\
    forall lj, lj ∈ rest -> m_messages lj = [].
Proof using Type*.
  intros Hn Hw Hab. pose proof (ranks_of_NoDup w Hw) as Hr. rewrite seqZ_cons in Hr by lia.
  destruct w as [|root rest]; [done|]. cbn in Hr. injection Hr as Hr0 Hrs.
  assert (forall lj, lj ∈ rest -> m_messages lj = []) as Hrest.
  { intros lj Hlj. apply Hab; [by right|]. apply cl_depth_pos.
    assert (lj_rank lj ∈ seqZ (Z.succ 0) (Z.pred n)) as Hin%elem_of_seqZ by (rewrite <- Hrs; apply list_elem_of_fmap; eauto). lia. }
  exists root, rest. split_and!; [done|done| |done]. unfold all_messages. rewrite fmap_cons, join_cons.
  rewrite join_nil by done. apply app_nil_r.
Qed.

(** Pushing fully, with what clients of the ranks need. *)
Lemma flush_delivers arrive w :
  (forall i r l, arrive i r l ≡ₚ l) -> 0 < n -> ranks_of w -> Forall config_ok w -> fits limit (all_messages w) ->
  exists root rest, pushMessagesFully arrive w = Some (root :: rest) /\ ranks_of (root :: rest) /\
    m_combiners <$> (root :: rest) = m_combiners <$> w /\ lj_rank root = 0 /\
    (forall lj, lj ∈ rest -> m_messages lj = []) /\
    (forall t, count_where (String.eqb t) (m_messages root) = count_where (String.eqb t) (all_messages w)) /\
    (forall t r, listed (all_messages w) t r -> covers limit (m_messages root) t r) /\
    (forall t r, listed (m_messages root) t r -> listed (all_messages w) t r) /\
    (TextTagCombiner ∈ m_combiners root -> NoDup (keys (m_messages root))).
Proof using Type*.
  intros Harr Hn Hw Hcfg Hf. destruct (pushes_spec w Hn Hw) as (k & Hk & Hdep).
  destruct (push_loop_spec k arrive w 0) as (w1 & Hw1 & Hr1 & Hcfg1 & Hcs1 & Hcons & Hab); [done..| |].
  { intros lj Hlj Hd. destruct (ranks_of_node w lj Hw Hlj) as [Hr _]. specialize (Hdep _ Hr). lia. }
  destruct (root_messages w1 Hn Hr1 Hab) as (root & rest & -> & Hr0 & Hall & Hrest).
  apply Forall_cons in Hcfg1 as [[Hl Hcs] Hcfg1]. rewrite Hall in Hcons.
  assert (conserves limit (all_messages w) (combined root)) as Hfin.
  { transitivity (m_messages root); [done|]. unfold combined. rewrite Hl. by apply combine_all_conserves. }
  destruct (Hfin (ft_storable _ _ Hf)) as [_ _ Hcount Hcov Hlist].
  exists (combineMessages root), (combine_world rest). unfold pushMessagesFully. rewrite Hk. cbn [mbind option_bind].
  rewrite Hw1. cbn [mbind option_bind]. split_and!; [done| | |done| |intros t; apply Hcount| |apply Hlist|].
  - unfold ranks_of. rewrite <- Hr1. cbn. f_equal. unfold combine_world. by rewrite <- list_fmap_compose.
  - rewrite <- Hcs1. cbn. f_equal. unfold combine_world. by rewrite <- list_fmap_compose.
  - intros lj' (lj & -> & Hlj)%list_elem_of_fmap. cbn. by rewrite Hrest.
  - intros t r (m & Hm & Ht & Hrm). apply Hcov. exists m. auto.
  - intros Hin. cbn. by apply combine_all_keys.
Qed.


(** C6: Pushing fully delivers the messages that can be packed.  Let the ranks have one
    limit between 1 and [INT_MAX] on listed ranks, the communicator be the root or binary
    tree one, and the combiners join only equal texts, keep text and tag and conserve
    counts and ranks, as the two combiners of the library do.  Let no file name or tag
    have the delimiter ['*'], no text, file name or tag a zero character, and let the
    numbers, the sum of the counts and a bound on the size of all packed messages fit an
    [int].  Then, in any order of arrival, all ranks return; afterwards only the root has
    messages, every text is counted there as often as it was logged on all ranks, every
    rank that logged it is listed unless the list is full, no rank is listed that did not
    log it, and with the default combiner no two messages have the same text and tag. *)
Theorem lumberjack_flush_delivers arrive w :
  (forall i r l, arrive i r l ≡ₚ l) -> 0 < n -> ranks_of w -> Forall config_ok w -> fits limit (all_messages w) ->
  exists root rest, pushMessagesFully arrive w = Some (root :: rest) /\ lj_rank root = 0 /\
    (forall lj, lj ∈ rest -> m_messages lj = []) /\
    (forall t, count_where (String.eqb t) (m_messages root) = count_where (String.eqb t) (all_messages w)) /\
    (forall t r, listed (all_messages w) t r -> covers limit (m_messages root) t r) /\
    (forall t r, listed (m_messages root) t r -> listed (all_messages w) t r) /\
    (TextTagCombiner ∈ m_combiners root -> NoDup (keys (m_messages root))).
Proof using Type*.
  intros Harr Hn Hw Hcfg Hf. destruct (flush_delivers arrive w Harr Hn Hw Hcfg Hf) as (root & rest & H1 & _ & _ & H2).
  by exists root, rest.
Qed.

End Push.

(** ** A world of five ranks *)

Definition sample_rank (r : Z) (ms : list (string * string)) : Lumberjack BinaryTreeCommunicator :=
  foldl (fun lj tg => queueMessage lj tg.1 "main.cpp" 7 2 tg.2)
    (Lumberjack_initialize (initialize r 5 3) 3) ms.

Definition sample_world : list (Lumberjack BinaryTreeCommunicator) :=
  [sample_rank 0 [("hello", "a")]; sample_rank 1 [("hello", "a"); ("x*y", "b")]; sample_rank 2 [];
   sample_rank 3 [("hello", "a"); ("hello", "a")]; sample_rank 4 [("hello", "b")]]%string.

Lemma sample_message_storable t r tag :
  0 <= r < 2 ^ 31 -> contains_char tag memberDelimiter = false -> contains_char (t ++ "main.cpp" ++ tag) Ascii.zero = false ->
  storable 3 (Message_new t r "main.cpp" 7 2 tag).
Proof.
  intros Hr Htag Hnul. split; [|done]. constructor; try done.
  - apply NoDup_singleton.
  - apply Forall_singleton. unfold is_int. cbn. lia.
Qed.

Lemma sample_world_fits : fits 3 (all_messages sample_world).
Proof.
  constructor; [|vm_compute; done..]. unfold all_messages, sample_world, sample_rank. cbn.
  repeat (apply Forall_cons; split; [apply sample_message_storable; [cbn; lia|done|done]|]). constructor.
Qed.

Lemma sample_world_config : Forall (config_ok 3) sample_world.
Proof.
  repeat (apply Forall_cons; split; [split; [done|apply Forall_singleton, TextTagCombiner_ok]|]). constructor.
Qed.

Lemma lumberjack_flush_delivers_witness :
  exists root rest, pushMessagesFully (fun _ _ => reverse) sample_world = Some (root :: rest) /\
    count_where (String.eqb "hello") (m_messages root) = 5.
Proof.
  destruct (lumberjack_flush_delivers 5 3 ltac:(lia) (fun _ _ => reverse) sample_world)
    as (root & rest & Hrun & _ & _ & Hcount & _).
  - intros _ _ l. apply reverse_Permutation.
  - lia.
  - reflexivity.
  - exact sample_world_config.
  - exact sample_world_fits.
  - exists root, rest. split; [exact Hrun|]. rewrite Hcount. reflexivity.
Defined.

(** C40: Messages that contain no delimiter in file name or tag, and no null character,
    arrive as they were packed, up to what the format does not carry: the array has room
    for them, its length as a string is its size, and unpacking gives the messages with
    line numbers that are not positive set to zero. *)
Theorem message_roundtrip limit ms acc :
  Forall (sendable limit) ms -> total_weight limit ms < 2 ^ 31 -> 1 <= limit < 2 ^ 31 ->
  exists s, packMessages ms = Some s /\ c_str s = s /\ unpackMessages acc s limit = Some (acc ++ (received limit <$> ms)).
Proof.
  intros Hms Hw Hl. destruct (unpack_packMessages limit ms Hms Hw Hl) as (s & Hs & Hc & _ & Hu).
  exists s. auto.
Qed.

Definition sample_messages : list Message :=
  [mkMessage "a*b" [4; 17; 2147483647] false 12 "f.cpp" (-1) (-5) "t"; Message_new EmptyString 0 EmptyString 33 0 EmptyString].

Lemma message_roundtrip_witness :
  exists s, packMessages sample_messages = Some s /\ c_str s = s /\
    unpackMessages [] s 4 = Some ([] ++ (received 4 <$> sample_messages)).
Proof.
  apply (message_roundtrip 4 sample_messages []); [|reflexivity|lia].
  repeat constructor; try done; try (by vm_compute); unfold is_int; cbn; try lia; try set_solver.
Defined.

(** The delimiter in a file name is not escaped: the receiver throws. *)
Example star_in_file_name_throws :
  unpack Message_default (pack (Message_new "text" 0 "a*b" 1 0 EmptyString)) 1 = None.
Proof. reflexivity. Qed.

End LumberjackTheorems.
