(* ===== verification/SlicLumberjack.v ===== *)
(** * The log stream over Lumberjack

    [slic/streams/LumberjackStream.cpp]: messages are queued in a [Lumberjack]; a flush
    pushes them to the output node, which writes them.  Flushing and pushing are
    collective, so they are functions on the list of all ranks.  What a flush reports is
    what the ranks have logged: the theorem composes formatting, the console and the
    delivery of [LumberjackTheorems]. *)

From S2P Require Import Prelude PathStrings StdStrings StringUtilities LumberjackMessage Lumberjack LumberjackTheorems SlicStreams SlicLogger SlicTheorems SlicGeneric SlicSynchronized.
From Stdlib Require Import Ascii String.

Module SlicLumberjack.
Import PathStrings StdStrings StringUtilities Message Lumberjack LumberjackTheorems.
Import SlicStreams SlicSynchronized.
Open Scope string_scope.
Open Scope Z_scope.

(** ** State *)

(** [m_lj] is a key of the Lumberjacks of the process; the communicator is in these. *)
Record LumberjackStream := mkLJ {
  lj_formatString : string; m_lj : option Z; m_isLJOwnedBySLIC : bool; lj_isOstreamOwnedBySLIC : bool;
  lj_stream : option ostream_ptr; lj_file_name : string; lj_opened : bool }.

Definition with_lj_format (s : LumberjackStream) (format : string) : LumberjackStream :=
  mkLJ format (m_lj s) (m_isLJOwnedBySLIC s) (lj_isOstreamOwnedBySLIC s) (lj_stream s) (lj_file_name s) (lj_opened s).
Definition with_lj_opened (s : LumberjackStream) : LumberjackStream :=
  mkLJ (lj_formatString s) (m_lj s) (m_isLJOwnedBySLIC s) (lj_isOstreamOwnedBySLIC s) (lj_stream s) (lj_file_name s) true.

Record Process (C : Type) := mkProcess { p_ljs : gmap Z (Lumberjack C); p_next : Z }.
#[global] Arguments mkProcess {_} _ _.
#[global] Arguments p_ljs {_} _.
#[global] Arguments p_next {_} _.

Definition with_lj {C} (pr : Process C) (k : Z) (lj : Lumberjack C) : Process C := mkProcess (<[k := lj]> (p_ljs pr)) (p_next pr).

(** ** Construction *)

(** From a stream and a Lumberjack. *)
Definition LJ_os_lj (os : option ostream_ptr) (lj : option Z) : LumberjackStream := mkLJ default_format lj false false os "" true.
Definition LJ_os_lj_format (os : option ostream_ptr) (lj : option Z) (format : string) : LumberjackStream :=
  mkLJ format lj false false os "" true.

(** The choice of the stream by a name. *)
Definition name_stream (stream : string) (lj : option Z) (owned : bool) (w : Output) : LumberjackStream * Output :=
  if String.eqb stream "cout" then (mkLJ default_format lj owned false (Some Cout) "" true, w)
  else if String.eqb stream "cerr" then (mkLJ default_format lj owned false (Some Cerr) "" true, w)
  else let '(w, p) := new_object w unopened in (mkLJ default_format lj owned true (Some p) stream false, w).

Definition fix_format (s : LumberjackStream) (format : string) (w : Output) : option (LumberjackStream * Output) :=
  f ← replaceAllInstances format "\n" nl;
  format_fixed ← replaceAllInstances f "\t" tab;
  Some (with_lj_format s format_fixed, w).

Definition LJ_name_lj (stream : string) (lj : option Z) (w : Output) : LumberjackStream * Output := name_stream stream lj false w.
Definition LJ_name_lj_format (stream : string) (lj : option Z) (format : string) (w : Output) : option (LumberjackStream * Output) :=
  let '(s, w) := LJ_name_lj stream lj w in fix_format s format w.

(** A Lumberjack of the stream's own; [comm] is the rank of the process and the number of
    ranks. *)
Definition initializeLumberjack (comm : Z * Z) (ranksLimit : Z) (pr : Process BinaryTreeCommunicator) :
    Z * Process BinaryTreeCommunicator :=
  let lj := Lumberjack_initialize (BinaryTree_initialize comm.1 comm.2 ranksLimit) ranksLimit in
  (p_next pr, mkProcess (<[p_next pr := lj]> (p_ljs pr)) (p_next pr + 1)).

Definition LJ_os_comm (os : option ostream_ptr) (comm : Z * Z) (ranksLimit : Z) (pr : Process BinaryTreeCommunicator) :
    LumberjackStream * Process BinaryTreeCommunicator :=
  let '(k, pr) := initializeLumberjack comm ranksLimit pr in (mkLJ default_format (Some k) true false os "" true, pr).

Definition LJ_os_comm_format (os : option ostream_ptr) (comm : Z * Z) (ranksLimit : Z) (format : string)
    (pr : Process BinaryTreeCommunicator) : LumberjackStream * Process BinaryTreeCommunicator :=
  let '(k, pr) := initializeLumberjack comm ranksLimit pr in (mkLJ format (Some k) true false os "" true, pr).

Definition LJ_name_comm (stream : string) (comm : Z * Z) (ranksLimit : Z) (pr : Process BinaryTreeCommunicator) (w : Output) :
    (LumberjackStream * Output) * Process BinaryTreeCommunicator :=
  let '(k, pr) := initializeLumberjack comm ranksLimit pr in (name_stream stream (Some k) true w, pr).

Definition LJ_name_comm_format (stream : string) (comm : Z * Z) (ranksLimit : Z) (format : string)
    (pr : Process BinaryTreeCommunicator) (w : Output) : option ((LumberjackStream * Output) * Process BinaryTreeCommunicator) :=
  let '((s, w), pr) := LJ_name_comm stream comm ranksLimit pr w in
  x ← fix_format s format w; Some (x, pr).

Section stream.
Context `{!Platform} {C : Type} `{!Communicator C}.
Implicit Types (s : LumberjackStream) (pr : Process C) (w : Output).

(** ** Operations of one rank *)

(** [finalizeLumberjack] finalizes and deletes the Lumberjack, with its messages. *)
Definition finalizeLumberjack (s : LumberjackStream) (pr : Process C) : option (Process C) :=
  k ← m_lj s; _ ← p_ljs pr !! k; Some (mkProcess (delete k (p_ljs pr)) (p_next pr)).

Definition LJ_delete (s : LumberjackStream) (pr : Process C) (w : Output) : option (Process C * Output) :=
  pr ← (if m_isLJOwnedBySLIC s then finalizeLumberjack s pr else Some pr);
  w ← (if lj_isOstreamOwnedBySLIC s then match lj_stream s with Some p => delete_stream w p | None => Some w end else Some w);
  Some (pr, w).

Definition null_lumberjack (name : string) (w : Output) : Output :=
  write_cerr ("ERROR: NULL Lumberjack instance in LumberjackStream::" ++ name ++ "!" ++ nl) w.

Definition LJ_append (s : LumberjackStream) (msgLevel : Z) (message tagName fileName : string) (line : Z)
    (pr : Process C) (w : Output) : option (Process C * Output) :=
  match m_lj s with
  | None => Some (pr, null_lumberjack "append" w)
  | Some k => lj ← p_ljs pr !! k; Some (with_lj pr k (queueMessage lj message fileName line msgLevel tagName), w)
  end.

(** Opening the file at the first message. *)
Definition lj_open (s : LumberjackStream) (w : Output) : option (LumberjackStream * Output) :=
  if lj_isOstreamOwnedBySLIC s && negb (lj_opened s) then
    match lj_stream s with
    | Some (Object k) =>
      x ← o_objects w !! k;
      match x with
      | Ofstream _ _ _ _ => Some (with_lj_opened s, open_stream w k x (lj_file_name s))
      | Ostringstream _ => Some (s, w)
      end
    | _ => Some (s, w)
    end
  else Some (s, w).

Definition lj_format (s : LumberjackStream) (timestamp : string) (m : Message) : option string :=
  getFormatedMessage (lj_formatString s) timestamp (getLevelAsString (m_level m)) (m_text m) (m_tag m)
    (stringOfRanks m rankDelimiter) (to_string (m_count m)) (m_fileName m) (m_lineNumber m).

(** The loop over the messages, none of which is null. *)
Fixpoint write_loop (s : LumberjackStream) (messages : list Message) (w : Output) : option (LumberjackStream * Output) :=
  match messages with
  | [] => Some (s, w)
  | m :: messages =>
    '(s, w) ← lj_open s w;
    text ← lj_format s (asctime (o_clock w)) m;
    p ← lj_stream s;
    w ← insert_text (tick w) p text; write_loop s messages w
  end.

Definition LJ_write (local : bool) (s : LumberjackStream) (pr : Process C) (w : Output) :
    option (LumberjackStream * Process C * Output) :=
  match m_lj s with
  | None => Some (s, pr, null_lumberjack "write" w)
  | Some k =>
    lj ← p_ljs pr !! k;
    if isOutputNode (m_communicator lj) || local then
      '(s, w) ← write_loop s (m_messages lj) w;
      p ← lj_stream s;
      w ← flush_stream w p;
      Some (s, with_lj pr k (clearMessages lj), w)
    else Some (s, pr, w)
  end.

(** The message names [flush]. *)
Definition LJ_outputLocal (s : LumberjackStream) (pr : Process C) (w : Output) : option (LumberjackStream * Process C * Output) :=
  match m_lj s with None => Some (s, pr, null_lumberjack "flush" w) | Some _ => LJ_write true s pr w end.

(** ** Collective operations

    All ranks of a communicator in order, each with its stream and its process.  A rank
    without Lumberjack returns at once; the others then wait for it, unless all have
    none. *)

Definition no_lumberjack (ranks : list (LumberjackStream * Process C)) : bool :=
  forallb (fun x => bool_decide (m_lj x.1 = None)) ranks.

Definition null_errors (name : string) (ranks : list (LumberjackStream * Process C)) (w : Output) : Output :=
  foldr (fun _ w => null_lumberjack name w) w ranks.

(** The Lumberjack of a rank, and the rank after a push. *)
Definition lumberjack_of (x : LumberjackStream * Process C) : option (Lumberjack C) := k ← m_lj x.1; p_ljs x.2 !! k.

Definition store (x : LumberjackStream * Process C) (lj : Lumberjack C) : LumberjackStream * Process C :=
  match m_lj x.1 with Some k => (x.1, with_lj x.2 k lj) | None => x end.

Definition push_streams (push : list (Lumberjack C) -> option (list (Lumberjack C)))
    (ranks : list (LumberjackStream * Process C)) : option (list (LumberjackStream * Process C)) :=
  ljs ← mapM lumberjack_of ranks; ljs ← push ljs; Some (zip_with store ranks ljs).

(** Each rank calls [write]; only the output nodes write. *)
Fixpoint write_all (ranks : list (LumberjackStream * Process C)) (w : Output) :
    option (list (LumberjackStream * Process C) * Output) :=
  match ranks with
  | [] => Some ([], w)
  | (s, pr) :: ranks => '(s, pr, w) ← LJ_write false s pr w; '(ranks, w) ← write_all ranks w; Some ((s, pr) :: ranks, w)
  end.

Definition LJ_flush (arrive : nat -> Z -> list string -> list string) (ranks : list (LumberjackStream * Process C)) (w : Output) :
    option (list (LumberjackStream * Process C) * Output) :=
  if no_lumberjack ranks then Some (ranks, null_errors "flush" ranks w)
  else ranks ← push_streams (pushMessagesFully arrive) ranks; write_all ranks w.

Definition LJ_push (arrive : Z -> list string -> list string) (ranks : list (LumberjackStream * Process C)) (w : Output) :
    option (list (LumberjackStream * Process C) * Output) :=
  if no_lumberjack ranks then Some (ranks, null_errors "push" ranks w)
  else ranks ← push_streams (pushMessagesOnce arrive) ranks; Some (ranks, w).

(** ** What is written *)

(** The text of messages that are formatted from a point in time on. *)
Fixpoint report (s : LumberjackStream) (clock : nat) (messages : list Message) : option string :=
  match messages with
  | [] => Some ""
  | m :: messages => text ← lj_format s (asctime clock) m; rest ← report s (S clock) messages; Some (text ++ rest)
  end.

Lemma report_total s clock ms : (forall n, asctime n <> "") -> exists text, report s clock ms = Some text.
Proof.
  intros Ht. revert clock. induction ms as [|m ms IH]; intros clock; cbn; [by eexists|].
  destruct (SlicGeneric.format_total (lj_formatString s) (asctime clock) (getLevelAsString (m_level m)) (m_text m) (m_tag m)
    (stringOfRanks m rankDelimiter) (to_string (m_count m)) (m_fileName m) (m_lineNumber m) (Ht _)) as [t Hf].
  unfold lj_format. rewrite Hf. cbn. destruct (IH (S clock)) as [r ->]. by eexists.
Qed.

Lemma iter_tick_console n p t w : Nat.iter n tick (console_write p t w) = console_write p t (Nat.iter n tick w).
Proof. induction n as [|n IH]; [done|]. rewrite !Nat.iter_succ, IH. by destruct p. Qed.

(** Streams to the console. *)
Definition to_console (p : ostream_ptr) s : Prop := is_console p /\ lj_stream s = Some p /\ lj_isOstreamOwnedBySLIC s = false.

Lemma write_loop_console p s ms w text : to_console p s -> report s (o_clock w) ms = Some text ->
  write_loop s ms w = Some (s, console_write p text (Nat.iter (List.length ms) tick w)).
Proof.
  intros (Hp & Hs & Ho). revert w text. induction ms as [|m ms IH]; intros w text; cbn [report write_loop].
  - intros [= <-]. cbn. by rewrite console_write_empty.
  - unfold lj_open. rewrite Ho. cbn [andb mbind option_bind]. destruct (lj_format s (asctime (o_clock w)) m) as [t|]; [|done]. cbn.
    destruct (report s (S (o_clock w)) ms) as [r|] eqn:Hr; [|done]. intros [= <-]. rewrite Hs. cbn.
    rewrite insert_text_console by done. cbn. rewrite (IH _ r) by (by destruct p).
    rewrite iter_tick_console, console_write_app, <- Nat.iter_succ_r. done.
Qed.

Lemma write_output p s pr k lj w text : to_console p s -> m_lj s = Some k -> p_ljs pr !! k = Some lj -> isOutputNode (m_communicator lj) = true ->
  report s (o_clock w) (m_messages lj) = Some text ->
  LJ_write false s pr w = Some (s, with_lj pr k (clearMessages lj), console_write p text (Nat.iter (List.length (m_messages lj)) tick w)).
Proof.
  intros Hc Hk Hlj Hout Hr. unfold LJ_write. rewrite Hk, Hlj. cbn [mbind option_bind]. rewrite Hout. cbn [orb].
  rewrite (write_loop_console p s _ w text Hc Hr). destruct Hc as (Hp & Hs & _). cbn. rewrite Hs. cbn. by rewrite flush_console.
Qed.

(** ** Ranks and their Lumberjacks *)

Lemma lumberjack_of_store x lj lj' : lumberjack_of x = Some lj -> lumberjack_of (store x lj') = Some lj'.
Proof.
  destruct x as [s pr]. unfold lumberjack_of, store. cbn. destruct (m_lj s) as [k|] eqn:Ek; [|done]. cbn. rewrite Ek. cbn. by rewrite lookup_insert_eq.
Qed.

Lemma store_all ranks ljs ljs' : mapM lumberjack_of ranks = Some ljs -> List.length ljs' = List.length ljs ->
  mapM lumberjack_of (zip_with store ranks ljs') = Some ljs'.
Proof.
  intros Hm%mapM_Some_1 Hl. apply mapM_Some_2. revert ljs' Hl. induction Hm as [|x lj ranks ljs Hx _ IH]; intros [|lj' ljs'] Hl; try done; cbn.
  constructor; [by eapply lumberjack_of_store|]. apply IH. cbn in Hl. lia.
Qed.

Lemma write_silent ranks ljs w : mapM lumberjack_of ranks = Some ljs -> Forall (fun lj => isOutputNode (m_communicator lj) = false) ljs ->
  write_all ranks w = Some (ranks, w).
Proof.
  intros Hm%mapM_Some_1. induction Hm as [|[s pr] lj ranks ljs Hx _ IH]; [done|]. intros [Hout Hrest]%Forall_cons. cbn.
  unfold lumberjack_of in Hx. cbn in Hx. unfold LJ_write. destruct (m_lj s) as [k|]; [|done]. cbn in Hx. rewrite Hx. cbn. rewrite Hout. cbn.
  by rewrite IH.
Qed.

Lemma lumberjacks_some ranks ljs : mapM lumberjack_of ranks = Some ljs -> ljs <> [] -> no_lumberjack ranks = false.
Proof.
  intros Hm%mapM_Some_1 Hne. destruct Hm as [|[s pr] lj ranks ljs Hx _]; [done|]. cbn. unfold lumberjack_of in Hx. cbn in Hx.
  by destruct (m_lj s).
Qed.

(** The ranks after the root do not write. *)
Lemma others_silent `{!CommunicatorLaws C} n limit (root : Lumberjack C) rest : 1 <= limit < 2 ^ 31 -> 0 < n -> ranks_of n limit (root :: rest) -> lj_rank root = 0 ->
  isOutputNode (m_communicator root) = true /\ Forall (fun lj => isOutputNode (m_communicator lj) = false) rest.
Proof.
  intros Hlim Hn Hw H0. split; [rewrite (node_output n limit Hlim _ root Hw) by left; by rewrite H0|]. apply Forall_forall. intros lj Hlj.
  rewrite (node_output n limit Hlim _ lj Hw) by (by right). apply Z.eqb_neq. pose proof (ranks_of_NoDup n limit Hlim _ Hw) as Hr.
  rewrite seqZ_cons in Hr by lia. cbn in Hr. injection Hr as _ Hr.
  assert (lj_rank lj ∈ seqZ (Z.succ 0) (Z.pred n)) as Hin%elem_of_seqZ by (rewrite <- Hr; apply list_elem_of_fmap; eauto). lia.
Qed.

(** A flush of ranks whose root writes to the console. *)
Lemma flush_reports `{!CommunicatorLaws C} n limit arrive p s pr rest ljs w : 1 <= limit < 2 ^ 31 -> 0 < n -> (forall n, asctime n <> "") ->
  (forall i r l, arrive i r l ≡ₚ l) -> to_console p s -> mapM lumberjack_of ((s, pr) :: rest) = Some ljs ->
  ranks_of n limit ljs -> Forall (config_ok limit) ljs -> fits limit (all_messages ljs) ->
  exists (root : Lumberjack C) text ranks' ljs',
    LJ_flush arrive ((s, pr) :: rest) w = Some (ranks', console_write p text (Nat.iter (List.length (m_messages root)) tick w)) /\
    report s (o_clock w) (m_messages root) = Some text /\ mapM lumberjack_of ranks' = Some ljs' /\ all_messages ljs' = [] /\
    head (m_combiners <$> ljs) = Some (m_combiners root) /\
    (forall t, count_where (String.eqb t) (m_messages root) = count_where (String.eqb t) (all_messages ljs)) /\
    (forall t r, listed (all_messages ljs) t r -> covers limit (m_messages root) t r) /\
    (forall t r, listed (m_messages root) t r -> listed (all_messages ljs) t r) /\
    (TextTagCombiner ∈ m_combiners root -> NoDup (keys (m_messages root))).
Proof.
  intros Hlim Hn Htime Harr Hcons Hm Hw Hcfg Hf.
  destruct (flush_delivers n limit Hlim arrive ljs Harr Hn Hw Hcfg Hf) as (root & others & Hpush & Hw' & Hcomb & H0 & Hrest & Hres).
  destruct (others_silent n limit root others Hlim Hn Hw' H0) as [Hout Hsilent].
  destruct (report_total s (o_clock w) (m_messages root) Htime) as [text Hrep].
  assert (List.length (root :: others) = List.length ljs) as Hlen.
  { apply (f_equal List.length) in Hw, Hw'. rewrite !length_fmap in Hw, Hw'. congruence. }
  pose proof (store_all _ ljs (root :: others) Hm Hlen) as Hstore. cbn [zip_with mapM] in Hstore.
  assert (no_lumberjack ((s, pr) :: rest) = false) as Hno by (apply (lumberjacks_some _ ljs); [done|by destruct ljs]).
  pose proof (mapM_Some_1 _ _ _ Hm) as Hd. apply Forall2_cons_inv_l in Hd as (lj & ljr & Hd & Hdr & ->).
  unfold lumberjack_of in Hd. cbn in Hd. destruct (m_lj s) as [k|] eqn:Hk; [|done]. cbn in Hd.
  assert (mapM lumberjack_of (zip_with store rest others) = Some others) as Hstore'.
  { apply (store_all _ ljr); [by apply mapM_Some_2|cbn in Hlen; lia]. }
  exists root, text, ((s, with_lj (with_lj pr k root) k (clearMessages root)) :: zip_with store rest others), (clearMessages root :: others).
  split_and!; [|done| | | |apply Hres..].
  - unfold LJ_flush, push_streams. rewrite Hno, Hm. cbn [mbind option_bind]. rewrite Hpush. cbn [mbind option_bind zip_with]. unfold store at 1. cbn [fst snd].
    rewrite Hk. cbn [write_all]. rewrite (write_output p s (with_lj pr k root) k root w text Hcons Hk) by (done || cbn; by rewrite lookup_insert_eq).
    cbn [mbind option_bind]. by rewrite (write_silent _ others).
  - apply mapM_Some_2. constructor; [|by apply mapM_Some_1]. unfold lumberjack_of. cbn. rewrite Hk. cbn. by rewrite lookup_insert_eq.
  - unfold all_messages. cbn. apply join_nil. exact Hrest.
  - rewrite <- Hcomb. done.
Qed.

(** ** Logging on all ranks *)

Record entry := mkEntry { e_level : Z; e_text : string; e_tag : string; e_file : string; e_line : Z }.

Fixpoint append_all s (es : list entry) pr w : option (Process C * Output) :=
  match es with
  | [] => Some (pr, w)
  | e :: es => '(pr, w) ← LJ_append s (e_level e) (e_text e) (e_tag e) (e_file e) (e_line e) pr w; append_all s es pr w
  end.

Definition entry_message (r : Z) (e : entry) : Message := Message_new (e_text e) r (e_file e) (e_line e) (e_level e) (e_tag e).

Lemma append_all_queues s k es : forall pr lj w, m_lj s = Some k -> p_ljs pr !! k = Some lj ->
  append_all s es pr w = Some (with_lj pr k (with_messages lj (m_messages lj ++ (entry_message (rank (m_communicator lj)) <$> es))%list), w).
Proof.
  induction es as [|e es IH]; intros pr lj w Hk Hlj.
  - cbn. unfold with_lj. rewrite app_nil_r. destruct pr, lj; cbn in *. by rewrite insert_id.
  - cbn [append_all]. unfold LJ_append. rewrite Hk, Hlj. cbn [mbind option_bind].
    rewrite (IH _ (queueMessage lj (e_text e) (e_file e) (e_line e) (e_level e) (e_tag e))) by (done || cbn; by rewrite lookup_insert_eq).
    unfold with_lj. cbn. rewrite insert_insert_eq. by rewrite <- (assoc_L (++)%list).
Qed.

End stream.

(** Rank [r] of [n] makes a stream to the console and logs some messages. *)
Definition log_rank `{!Platform} (os : option ostream_ptr) (n limit : Z) (format : string) (r : Z) (es : list entry) (w : Output) :
    option ((LumberjackStream * Process BinaryTreeCommunicator) * Output) :=
  let '(s, pr) := LJ_os_comm_format os (r, n) limit format (mkProcess ∅ 0) in
  '(pr, w) ← append_all s es pr w; Some ((s, pr), w).

Fixpoint log_ranks `{!Platform} (os : option ostream_ptr) (n limit : Z) (format : string) (r : Z) (logs : list (list entry)) (w : Output) :
    option (list (LumberjackStream * Process BinaryTreeCommunicator) * Output) :=
  match logs with
  | [] => Some ([], w)
  | es :: logs =>
    '(x, w) ← log_rank os n limit format r es w; '(ranks, w) ← log_ranks os n limit format (r + 1) logs w; Some (x :: ranks, w)
  end.

(** The messages of all ranks. *)
Fixpoint logged_messages (r : Z) (logs : list (list entry)) : list Message :=
  match logs with [] => [] | es :: logs => (entry_message r <$> es) ++ logged_messages (r + 1) logs end.

(** How often a text was logged, and by which ranks. *)
Definition times_logged (logs : list (list entry)) (t : string) : Z := Z.of_nat (List.length (filter (fun e => e_text e = t) (mjoin logs))).

Definition logged_by (logs : list (list entry)) (t : string) (r : Z) : Prop :=
  exists es e, logs.[r] = Some es /\ e ∈ es /\ e_text e = t.

Section program.
Context `{!Platform} (os : option ostream_ptr) (n limit : Z) (format : string).

Definition program_stream : LumberjackStream := mkLJ format (Some 0) true false os "" true.

Lemma log_rank_spec r es w : exists pr lj, log_rank os n limit format r es w = Some ((program_stream, pr), w) /\
  lumberjack_of (program_stream, pr) = Some lj /\ m_communicator lj = initialize r n limit /\ m_ranksLimit lj = limit /\
  m_combiners lj = [TextTagCombiner] /\ m_messages lj = entry_message r <$> es.
Proof.
  unfold log_rank, LJ_os_comm_format, initializeLumberjack. cbn [p_next p_ljs fst snd].
  set (lj := Lumberjack_initialize (BinaryTree_initialize r n limit) limit).
  rewrite (append_all_queues _ 0 es _ lj w) by (done || apply lookup_insert_eq). eexists _, _.
  split_and!; [reflexivity|unfold lumberjack_of; cbn; by rewrite lookup_insert_eq|done..].
Qed.

Lemma log_ranks_spec logs r w : exists ranks ljs, log_ranks os n limit format r logs w = Some (ranks, w) /\
  ranks.*1 = replicate (List.length logs) program_stream /\ mapM lumberjack_of ranks = Some ljs /\
  m_communicator <$> ljs = (fun r => initialize r n limit) <$> seqZ r (Z.of_nat (List.length logs)) /\
  Forall (fun lj => m_ranksLimit lj = limit /\ m_combiners lj = [TextTagCombiner]) ljs /\ all_messages ljs = logged_messages r logs.
Proof.
  revert r. induction logs as [|es logs IH]; intros r; [by exists [], []|]. cbn [log_ranks].
  destruct (log_rank_spec r es w) as (pr & lj & -> & Hd & Hc & Hl & Hcs & Hm). cbn [mbind option_bind].
  destruct (IH (r + 1)) as (ranks & ljs & -> & Hs & Hds & Hcomm & Hcfg & Hms). cbn [mbind option_bind].
  exists ((program_stream, pr) :: ranks), (lj :: ljs). split_and!; [done|by cbn; rewrite Hs| | |by constructor|].
  - apply mapM_Some_2. constructor; [done|by apply mapM_Some_1].
  - cbn [List.length]. rewrite seqZ_cons by lia. cbn. rewrite Hc, Hcomm. repeat f_equal; lia.
  - unfold all_messages in *. rewrite fmap_cons, join_cons, Hm, Hms. done.
Qed.

End program.

Lemma count_logged logs t : forall r, count_where (String.eqb t) (logged_messages r logs) = times_logged logs t.
Proof.
  unfold times_logged. induction logs as [|es logs IH]; intros r; [done|]. cbn [logged_messages mjoin list_join].
  rewrite count_where_app, IH, filter_app, length_app, Nat2Z.inj_add. f_equal. clear. induction es as [|e es IH]; [done|].
  rewrite filter_cons. unfold count_where in *. cbn [fmap list_fmap foldr]. rewrite IH. cbn [m_text m_count entry_message Message_new].
  destruct (String.eqb_spec t (e_text e)) as [->|Hne]; [rewrite decide_True by done; cbn [List.length]; lia|rewrite decide_False by congruence; lia].
Qed.

Lemma zlookup_later {A} (x : A) l i : 0 < i -> (x :: l).[i] = l.[i - 1].
Proof. intros Hi. rewrite !zlookup_to_nat by lia. replace (Z.to_nat i) with (S (Z.to_nat (i - 1))) by lia. done. Qed.

Lemma listed_logged logs t q : forall r, listed (logged_messages r logs) t q <-> logged_by logs t (q - r).
Proof.
  unfold listed, logged_by. induction logs as [|es logs IH]; intros r; cbn [logged_messages].
  - split; [intros (m & Hm & _); by apply not_elem_of_nil in Hm|]. intros (es & e & He & _). apply zlookup_Some_bounds in He. cbn in He. lia.
  - split.
    + intros (m & [Hm|Hm]%elem_of_app & Ht & Hq).
      * apply list_elem_of_fmap in Hm as (e & -> & He). cbn in Hq. apply list_elem_of_singleton in Hq as ->. exists es, e.
        split_and!; [by rewrite Z.sub_diag|done|done].
      * destruct (proj1 (IH (r + 1))) as (es' & e & He & ? & ?); [by exists m|]. exists es', e. split_and!; [|done|done].
        pose proof (zlookup_Some_bounds _ _ _ He). rewrite <- He, zlookup_later by lia. f_equal. lia.
    + intros (es' & e & He & Hin & Ht). destruct (decide (q = r)) as [->|Hne].
      * rewrite Z.sub_diag in He. change (Some es = Some es') in He. simplify_eq. exists (entry_message r e). split_and!; [|done|by left].
        apply elem_of_app. left. apply list_elem_of_fmap. by exists e.
      * pose proof (zlookup_Some_bounds _ _ _ He). rewrite zlookup_later in He by lia.
        destruct (proj2 (IH (r + 1))) as (m & Hm & ? & ?); [exists es', e; split_and!; [rewrite <- He; f_equal; lia|done|done]|].
        exists m. split_and!; [|done|done]. apply elem_of_app. by right.
Qed.

(** C8: The report of a flush is what the ranks have logged.  For every program in which at
    least one rank makes a stream on the console with a communicator and a limit between 1
    and [INT_MAX], logs messages that can be packed and flushes, in any order in which
    pushed messages arrive, the console gets the formatted messages of a list in
    which no text and tag occurs twice, every text is counted as often as it was logged on
    all ranks, every rank that logged it is named unless the list of ranks is full, and no
    rank is named that did not; afterwards no rank has messages left.  Messages can be
    packed when no file name or tag has the delimiter ['*'] (otherwise the flush throws,
    as [star_in_file_name_throws] shows), there is no zero character, and lines, levels,
    counts and a bound on the size of all packed messages fit an [int].  Time stamps are
    taken to be non-empty. *)
Theorem lumberjack_stream_reports `{!Platform} p limit format logs arrive w :
  (forall n, asctime n <> "") -> is_console p -> 1 <= limit < 2 ^ 31 -> logs <> [] ->
  (forall i r l, arrive i r l ≡ₚ l) -> fits limit (logged_messages 0 logs) ->
  exists ranks ms text ranks' ljs,
    log_ranks (Some p) (Z.of_nat (List.length logs)) limit format 0 logs w = Some (ranks, w) /\
    LJ_flush arrive ranks w = Some (ranks', console_write p text (Nat.iter (List.length ms) tick w)) /\
    report (program_stream (Some p) format) (o_clock w) ms = Some text /\ NoDup (keys ms) /\
    (forall t, count_where (String.eqb t) ms = times_logged logs t) /\
    (forall t r, logged_by logs t r -> covers limit ms t r) /\ (forall t r, listed ms t r -> logged_by logs t r) /\
    mapM lumberjack_of ranks' = Some ljs /\ all_messages ljs = [].
Proof.
  intros Htime Hp Hlim Hne Harr Hf.
  destruct (log_ranks_spec (Some p) (Z.of_nat (List.length logs)) limit format logs 0 w) as (ranks & ljs & Hrun & Hs & Hd & Hcomm & Hcfg & Hms).
  destruct logs as [|es logs]; [done|]. destruct ranks as [|[s pr] rest]; [done|]. cbn in Hs. injection Hs as -> _.
  rewrite <- Hms in Hf.
  destruct (flush_reports (Z.of_nat (List.length (es :: logs))) limit arrive p (program_stream (Some p) format) pr rest ljs w)
    as (root & text & ranks' & ljs' & Hflush & Hrep & Hd' & Hm' & Hhead & Hcount & Hcov & Hlist & Hkeys); [done|done|done|done|done|done|done| |done|].
  { eapply Forall_impl; [exact Hcfg|]. intros lj [Hl Hc]. split; [done|]. rewrite Hc. apply Forall_singleton, TextTagCombiner_ok. }
  rewrite Hms in *. exists ((program_stream (Some p) format, pr) :: rest), (m_messages root), text, ranks', ljs'.
  split_and!; [done|done|done| | | | |done|done].
  - apply Hkeys. destruct Hcfg as [|lj ljr [_ Hc] _]; [done|]. cbn in Hhead. injection Hhead as <-. rewrite Hc. by left.
  - intros t. by rewrite Hcount, count_logged.
  - intros t r Hl. apply Hcov, listed_logged. by rewrite Z.sub_0_r.
  - intros t r Hl. apply Hlist, listed_logged in Hl. by rewrite Z.sub_0_r in Hl.
Qed.

(** ** Examples *)

#[local] Existing Instance sample_platform.

Definition sample_logs : list (list entry) :=
  [[mkEntry 2 "hello" "a" "main.cpp" 7]; [mkEntry 2 "hello" "a" "main.cpp" 7; mkEntry 1 "slow" "" "main.cpp" 9]; [];
   [mkEntry 2 "hello" "a" "main.cpp" 7]].

Definition sample_lj_format : string := "<LEVEL> <MESSAGE> (<RANK>: <RANK_COUNT>) ".

Lemma sample_logs_fit : fits 3 (logged_messages 0 sample_logs).
Proof.
  constructor; [|vm_compute; done..].
  repeat (apply Forall_cons; split; [split; [constructor; first [done|apply NoDup_singleton|apply Forall_singleton; unfold is_int; cbn; lia|unfold is_int; cbn; lia]|done]|]).
  constructor.
Qed.

Lemma lumberjack_stream_reports_witness :
  exists ranks ms text ranks' ljs,
    log_ranks (Some Cout) 4 3 sample_lj_format 0 sample_logs no_output = Some (ranks, no_output) /\
    LJ_flush (fun _ _ => reverse) ranks no_output = Some (ranks', console_write Cout text (Nat.iter (List.length ms) tick no_output)) /\
    report (program_stream (Some Cout) sample_lj_format) 0 ms = Some text /\ NoDup (keys ms) /\
    (forall t, count_where (String.eqb t) ms = times_logged sample_logs t) /\
    (forall t r, logged_by sample_logs t r -> covers 3 ms t r) /\ (forall t r, listed ms t r -> logged_by sample_logs t r) /\
    mapM lumberjack_of ranks' = Some ljs /\ all_messages ljs = [].
Proof.
  apply (lumberjack_stream_reports Cout 3 sample_lj_format sample_logs (fun _ _ => reverse) no_output);
    [intros n; done|exact I|lia|done|intros _ _ l; apply reverse_Permutation|exact sample_logs_fit].
Defined.

Example sample_report :
  ('(ranks, w) ← log_ranks (Some Cout) 4 3 sample_lj_format 0 sample_logs no_output;
   '(ranks, w) ← LJ_flush (fun _ _ l => l) ranks w; Some (o_cout w)) =
  Some "INFO hello (0,1,3...: 3) WARNING slow (1: 1) ".
Proof. by vm_compute. Qed.

(** Destroying the stream of a rank without a flush loses its messages. *)
Example unflushed_lumberjack_is_lost :
  ('(ranks, w) ← log_ranks (Some Cout) 4 3 sample_lj_format 0 sample_logs no_output;
   '(s, pr) ← ranks !! O; '(pr, w) ← LJ_delete s pr w; Some (bool_decide (p_ljs pr = ∅), o_cout w)) = Some (true, "").
Proof. by vm_compute. Qed.

End SlicLumberjack.
