(* ===== verification/SidreCollections.v ===== *)
(** * The item collections of Sidre ([src/axom/sidre/core/*Collection.hpp])

    Sidre keeps its buffers, attributes, groups and views in collections that give
    every item an index that does not change while the item stays in the
    collection.  [IndexedCollection] holds buffers, [MapCollection] named items and
    [ListCollection] unnamed ones.  All of them are a vector of pointers with
    recycled holes; [ItemCollection] is the abstract base class, modelled as a
    class of operations with the laws its clients rely on.

    A pointer is [Some item], the null pointer [None].  The stack of recycled
    indices is a list whose head is the top. *)

From S2P Require Import Prelude.

Module Collections.

(** ** Definitions *)

Definition InvalidIndex : Z := -1.
Definition InvalidName : string := "".
Definition indexIsValid (idx : Z) : bool := negb (idx =? InvalidIndex).
Definition nameIsValid (name : string) : bool := negb (bool_decide (name = InvalidName)).

(** The cast [static_cast<unsigned>] of an index. *)
Definition u32 (idx : Z) : Z := wrap 32 idx.

Definition vsize {A} (l : list A) : Z := Z.of_nat (length l).

Section items.
Context {T : Type}.
Implicit Types items : list (option T).

Definition is_null items (i : Z) : bool := match items.[i] with Some None => true | _ => false end.

(** The loop [while(idx < size && items[idx] == nullptr) ++idx]; [None] when the
    bound on its iterations is reached. *)
Fixpoint skip_null (n : nat) items (idx : Z) : option Z :=
  match n with
  | O => None
  | S n =>
    if (u32 idx <? vsize items) && is_null items (u32 idx) then skip_null n items (idx + 1)
    else Some idx
  end.

Definition valid_or_invalid items (idx : Z) : Z :=
  if u32 idx <? vsize items then idx else InvalidIndex.

Definition first_valid items : option Z :=
  idx ← skip_null (S (length items)) items 0; Some (valid_or_invalid items idx).

Definition next_valid items (idx : Z) : option Z :=
  if idx =? InvalidIndex then Some InvalidIndex else
  idx ← skip_null (S (length items)) items (idx + 1); Some (valid_or_invalid items idx).

(** What an index holds. *)
Definition item_at items (idx : Z) : option T := mjoin (items.[idx]).

End items.

(** *** IndexedCollection *)

Module IndexedCollection.
Section IndexedCollection.
Context {T : Type}.

Record t := mk {
  m_items : list (option T);
  m_free_ids : list Z;
  m_num_items : Z
}.

Definition empty : t := mk [] [] 0.

Definition getLastAvailableEmptyIndex (c : t) : Z := vsize (m_items c).

Definition isInHalfOpenRange (c : t) (idx : Z) : bool :=
  (0 <=? idx) && (idx <? getLastAvailableEmptyIndex c).

Definition isInClosedRange (c : t) (idx : Z) : bool :=
  (0 <=? idx) && (idx <=? getLastAvailableEmptyIndex c).

Definition getNumItems (c : t) : Z := m_num_items c.

Definition hasItem (c : t) (idx : Z) : bool :=
  isInHalfOpenRange c idx && bool_decide (is_Some (item_at (m_items c) (u32 idx))).

Definition getItem (c : t) (idx : Z) : option T :=
  if hasItem c idx then item_at (m_items c) (u32 idx) else None.

Definition getFirstValidIndex (c : t) : option Z := first_valid (m_items c).
Definition getNextValidIndex (c : t) (idx : Z) : option Z := next_valid (m_items c) idx.

(** The loop of [insertItem] that extends the vector up to [idx]. *)
Definition grow (c : t) (idx : Z) : t :=
  let new := seqZ (getLastAvailableEmptyIndex c) (idx - getLastAvailableEmptyIndex c) in
  foldl (fun c i => mk (m_items c ++ [None]) (i :: m_free_ids c) (m_num_items c)) c new.

Definition insertItem_at (c : t) (item : T) (idx : Z) : t * Z :=
  if hasItem c idx then (c, InvalidIndex) else
  if idx <? 0 then (c, InvalidIndex) else
  let c := if negb (isInHalfOpenRange c idx) then grow c idx else c in
  if idx =? getLastAvailableEmptyIndex c then
    (mk (m_items c ++ [Some item]) (m_free_ids c) (m_num_items c + 1), idx)
  else
    let free := match m_free_ids c with
                | top :: rest => if top =? idx then rest else m_free_ids c
                | [] => []
                end in
    let num := if is_null (m_items c) idx then m_num_items c + 1 else m_num_items c in
    (mk (<[Z.to_nat idx := Some item]> (m_items c)) free num, idx).

(** The loop of [getValidEmptyIndex]: pops the occupied indices. *)
Fixpoint pop_occupied (c : t) (free : list Z) : list Z * option Z :=
  match free with
  | [] => ([], None)
  | top :: rest => if hasItem c top then pop_occupied c rest else (free, Some top)
  end.

Definition getValidEmptyIndex (c : t) : t * Z :=
  let '(free, found) := pop_occupied c (m_free_ids c) in
  (mk (m_items c) free (m_num_items c),
   match found with Some idx => idx | None => getLastAvailableEmptyIndex c end).

Definition insertItem (c : t) (item : T) : t * Z :=
  let '(c, idx) := getValidEmptyIndex c in insertItem_at c item idx.

Definition removeItem (c : t) (idx : Z) : t * option T :=
  if hasItem c idx then
    (mk (<[Z.to_nat idx := None]> (m_items c)) (idx :: m_free_ids c) (m_num_items c - 1),
     item_at (m_items c) idx)
  else (c, None).

Definition removeAllItems (c : t) : t := mk [] [] 0.

End IndexedCollection.
Arguments t : clear implicits.
End IndexedCollection.

(** *** MapCollection *)

Module MapCollection.
Section MapCollection.
(** [getName] reads the name of an item. *)
Context {T : Type} (getName : T -> string).

Record t := mk {
  m_items : list (option T);
  m_free_ids : list Z;
  m_name2idx_map : gmap string Z
}.

Definition empty : t := mk [] [] ∅.

Definition getNumItems (c : t) : Z := vsize (m_items c) - vsize (m_free_ids c).
Definition getFirstValidIndex (c : t) : option Z := first_valid (m_items c).
Definition getNextValidIndex (c : t) (idx : Z) : option Z := next_valid (m_items c) idx.

Definition hasItem_name (c : t) (name : string) : bool :=
  bool_decide (is_Some (m_name2idx_map c !! name)).

Definition hasItem (c : t) (idx : Z) : bool :=
  (0 <=? idx) && (u32 idx <? vsize (m_items c)) &&
  bool_decide (is_Some (item_at (m_items c) (u32 idx))).

Definition getItem_name (c : t) (name : string) : option T :=
  match m_name2idx_map c !! name with Some idx => item_at (m_items c) idx | None => None end.

Definition getItem (c : t) (idx : Z) : option T :=
  if hasItem c idx then item_at (m_items c) (u32 idx) else None.

Definition getItemName (c : t) (idx : Z) : string :=
  match getItem c idx with Some item => getName item | None => InvalidName end.

Definition getItemIndex (c : t) (name : string) : Z :=
  match m_name2idx_map c !! name with Some idx => idx | None => InvalidIndex end.

Definition insertItem (c : t) (item : T) (name : string) : t * Z :=
  let '(idx, free, use_recycled_index) :=
    match m_free_ids c with
    | top :: rest => (top, rest, true)
    | [] => (vsize (m_items c), [], false)
    end in
  match m_name2idx_map c !! name with
  | None =>
    (mk (if (use_recycled_index : bool) then <[Z.to_nat idx := Some item]> (m_items c)
         else m_items c ++ [Some item])
        free (<[name := idx]> (m_name2idx_map c)), idx)
  | Some _ =>
    (mk (m_items c) (if use_recycled_index then idx :: free else free) (m_name2idx_map c),
     InvalidIndex)
  end.

Definition removeItem_name (c : t) (name : string) : t * option T :=
  match m_name2idx_map c !! name with
  | Some idx =>
    (mk (<[Z.to_nat idx := None]> (m_items c)) (idx :: m_free_ids c)
        (delete name (m_name2idx_map c)),
     item_at (m_items c) idx)
  | None => (c, None)
  end.

Definition removeItem (c : t) (idx : Z) : t * option T :=
  if hasItem c idx then
    match item_at (m_items c) idx with
    | Some item => removeItem_name c (getName item)
    | None => (c, None)
    end
  else (c, None).

Definition removeAllItems (c : t) : t := mk [] [] ∅.

End MapCollection.
Arguments t : clear implicits.
End MapCollection.

(** *** ListCollection *)

Module ListCollection.
Section ListCollection.
Context {T : Type}.

Record t := mk {
  m_items : list (option T);
  m_free_ids : list Z;
  m_index_list : list Z
}.

Definition empty : t := mk [] [] [].

Definition getNumItems (c : t) : Z := vsize (m_items c) - vsize (m_free_ids c).
Definition getFirstValidIndex (c : t) : option Z := first_valid (m_items c).
Definition getNextValidIndex (c : t) (idx : Z) : option Z := next_valid (m_items c) idx.

Definition hasItem (c : t) (idx : Z) : bool :=
  (0 <=? idx) && (u32 idx <? vsize (m_items c)) &&
  bool_decide (is_Some (item_at (m_items c) (u32 idx))).

Definition getItem (c : t) (idx : Z) : option T :=
  if hasItem c idx then item_at (m_items c) (u32 idx) else None.

Definition insertItem (c : t) (item : T) (name : string) : t * Z :=
  let '(idx, free, use_recycled_index) :=
    match m_free_ids c with
    | top :: rest => (top, rest, true)
    | [] => (vsize (m_items c), [], false)
    end in
  (mk (if (use_recycled_index : bool) then <[Z.to_nat idx := Some item]> (m_items c)
       else m_items c ++ [Some item])
      free (m_index_list c ++ [idx]), idx).

(** The loop of [removeItem]: erases the first occurrence of [idx], if any. *)
Fixpoint erase_first (l : list Z) (idx : Z) : option (list Z) :=
  match l with
  | [] => None
  | x :: l => if x =? idx then Some l else cons x <$> erase_first l idx
  end.

Definition removeItem (c : t) (idx : Z) : t * option T :=
  if hasItem c idx then
    match erase_first (m_index_list c) idx with
    | Some l =>
      (mk (<[Z.to_nat idx := None]> (m_items c)) (idx :: m_free_ids c) l,
       item_at (m_items c) idx)
    | None => (c, None)
    end
  else (c, None).

Definition removeAllItems (c : t) : t := mk [] [] [].

End ListCollection.
Arguments t : clear implicits.
End ListCollection.

(** *** The abstract base class

    The operations a client of [ItemCollection] calls. *)
Class ItemCollection (C T : Type) := {
  getNumItems : C -> Z;
  getFirstValidIndex : C -> option Z;
  getNextValidIndex : C -> Z -> option Z;
  hasItem : C -> Z -> bool;
  getItem : C -> Z -> option T;
  insertItem : C -> T -> string -> C * Z;
  removeItem : C -> Z -> C * option T;
  removeAllItems : C -> C
}.

(** Iteration with [ItemCollection::iterator]: from the first valid index, with
    [advance], until the invalid index. *)
Fixpoint iterate_from `{ItemCollection C T} (n : nat) (c : C) (pos : Z) : option (list (Z * T)) :=
  match n with
  | O => None
  | S n =>
    if negb (indexIsValid pos) then Some [] else
    item ← getItem c pos; pos' ← getNextValidIndex c pos; rest ← iterate_from n c pos';
    Some ((pos, item) :: rest)
  end.

Definition iterate `{ItemCollection C T} (n : nat) (c : C) : option (list (Z * T)) :=
  pos ← getFirstValidIndex c; iterate_from n c pos.

(** The loops of the clients that empty a collection: remove the item at the
    current index, then advance. *)
Fixpoint drain_from `{ItemCollection C T} (n : nat) (c : C) (pos : Z) : option (C * list T) :=
  match n with
  | O => None
  | S n =>
    if negb (indexIsValid pos) then Some (c, []) else
    let '(c, item) := removeItem c pos in
    item ← item; pos' ← getNextValidIndex c pos; r ← drain_from n c pos';
    Some (r.1, item :: r.2)
  end.

Definition drain `{ItemCollection C T} (n : nat) (c : C) : option (C * list T) :=
  pos ← getFirstValidIndex c; drain_from n c pos.

#[export] Instance IndexedCollection_ItemCollection {T} : ItemCollection (IndexedCollection.t T) T := {
  getNumItems := IndexedCollection.getNumItems;
  getFirstValidIndex := IndexedCollection.getFirstValidIndex;
  getNextValidIndex := IndexedCollection.getNextValidIndex;
  hasItem := IndexedCollection.hasItem;
  getItem := IndexedCollection.getItem;
  insertItem c item _ := IndexedCollection.insertItem c item;
  removeItem := IndexedCollection.removeItem;
  removeAllItems := IndexedCollection.removeAllItems
}.

#[export] Instance MapCollection_ItemCollection {T} (getName : T -> string)
    : ItemCollection (MapCollection.t T) T := {
  getNumItems := MapCollection.getNumItems;
  getFirstValidIndex := MapCollection.getFirstValidIndex;
  getNextValidIndex := MapCollection.getNextValidIndex;
  hasItem := MapCollection.hasItem;
  getItem := MapCollection.getItem;
  insertItem := MapCollection.insertItem;
  removeItem := MapCollection.removeItem getName;
  removeAllItems := MapCollection.removeAllItems
}.

#[export] Instance ListCollection_ItemCollection {T} : ItemCollection (ListCollection.t T) T := {
  getNumItems := ListCollection.getNumItems;
  getFirstValidIndex := ListCollection.getFirstValidIndex;
  getNextValidIndex := ListCollection.getNextValidIndex;
  hasItem := ListCollection.hasItem;
  getItem := ListCollection.getItem;
  insertItem := ListCollection.insertItem;
  removeItem := ListCollection.removeItem;
  removeAllItems := ListCollection.removeAllItems
}.

(** ** Scanning for valid indices *)

(** [r] is the first index after [idx] that holds an item, or the invalid index. *)
Definition is_next {T} (at_ : Z -> option T) (idx r : Z) : Prop :=
  (r = InvalidIndex /\ forall j, idx < j -> at_ j = None) \/
  (idx < r /\ is_Some (at_ r) /\ forall j, idx < j < r -> at_ j = None).

Section items_lemmas.
Context {T : Type}.
Implicit Types (items : list (option T)) (i j idx : Z).

Lemma item_at_Some items i x : item_at items i = Some x <-> items.[i] = Some (Some x).
Proof. unfold item_at. destruct (items.[i]) as [[?|]|]; naive_solver. Qed.

Lemma item_at_range items i x : item_at items i = Some x -> 0 <= i < vsize items.
Proof. intros Hi%item_at_Some. by eapply zlookup_Some_bounds. Qed.

Lemma item_at_out items i : i < 0 \/ vsize items <= i -> item_at items i = None.
Proof. intros Hi. unfold item_at. by rewrite (proj2 (zlookup_None items i)). Qed.

Lemma is_null_spec items i : 0 <= i < vsize items -> is_null items i = true <-> item_at items i = None.
Proof.
  intros Hi. unfold is_null, item_at. destruct (zlookup_lt items i Hi) as [[x|] ->]; naive_solver.
Qed.

Lemma item_at_insert items i j o :
  0 <= i < vsize items ->
  item_at (<[Z.to_nat i := o]> items) j = if decide (j = i) then o else item_at items j.
Proof.
  intros Hi. unfold item_at. rewrite zlookup_insert by done.
  destruct (decide (j = i)) as [->|]; [by rewrite decide_True|by rewrite decide_False].
Qed.

Lemma item_at_snoc items j o :
  item_at (items ++ [o]) j = if decide (j = vsize items) then o else item_at items j.
Proof.
  unfold item_at, vsize. destruct (decide (j < 0)) as [Hj|Hj].
  { rewrite decide_False by lia. by rewrite !(proj2 (zlookup_None _ j)) by lia. }
  rewrite !zlookup_to_nat by lia. case_decide as E.
  - subst. by rewrite Nat2Z.id, lookup_app_r, Nat.sub_diag by lia.
  - destruct (decide (j < Z.of_nat (length items))).
    + by rewrite lookup_app_l by lia.
    + rewrite (lookup_ge_None_2 items) by lia. by rewrite lookup_ge_None_2 by (rewrite length_app; cbn; lia).
Qed.

Lemma u32_id i : 0 <= i < 2 ^ 31 -> u32 i = i.
Proof. intros Hi. apply wrap_id; unfold in_word; lia. Qed.

Lemma skip_null_spec n items idx :
  vsize items < 2 ^ 31 -> 0 <= idx -> vsize items - idx < Z.of_nat n -> idx <= vsize items ->
  exists r, skip_null n items idx = Some r /\ idx <= r <= vsize items /\
    (forall j, idx <= j < r -> item_at items j = None) /\
    (r < vsize items -> is_Some (item_at items r)).
Proof.
  intros Hsz. revert idx. induction n as [|n IH]; intros idx H0 Hn Hle; [lia|].
  cbn [skip_null]. destruct (decide (idx < vsize items)) as [Hlt|Hge].
  - rewrite u32_id by lia. rewrite (proj2 (Z.ltb_lt _ _)) by done. cbn [andb].
    destruct (is_null items idx) eqn:Hnull.
    + destruct (IH (idx + 1)) as (r & Hr & Hb & Hlow & Hs); [lia..|]. exists r.
      split_and!; [done|lia|lia| |done]. intros j Hj. destruct (decide (j = idx)) as [->|].
      * by apply is_null_spec.
      * apply Hlow. lia.
    + exists idx. split_and!; [done|lia|lia|intros; lia|]. intros _.
      destruct (item_at items idx) eqn:E; [done|]. apply is_null_spec in E; [congruence|lia].
  - rewrite u32_id by lia. rewrite (proj2 (Z.ltb_ge _ _)) by lia. cbn [andb].
    exists idx. split_and!; [done|lia|lia|intros; lia|lia].
Qed.

Lemma scan_next items idx r0 :
  vsize items < 2 ^ 31 -> -1 <= idx -> idx < vsize items ->
  skip_null (S (length items)) items (idx + 1) = Some r0 ->
  is_next (item_at items) idx (valid_or_invalid items r0).
Proof.
  intros Hsz H1 Hlt Hr0.
  destruct (skip_null_spec (S (length items)) items (idx + 1)) as (r & Hr & Hb & Hlow & Hs);
    [done|lia|unfold vsize in *; lia|lia|]. rewrite Hr in Hr0. injection Hr0 as <-.
  unfold valid_or_invalid. rewrite u32_id by lia. destruct (Z.ltb_spec r (vsize items)) as [Hl|Hg].
  - right. split_and!; [lia|by apply Hs|]. intros j Hj. apply Hlow. lia.
  - left. split; [done|]. intros j Hj. destruct (decide (j < vsize items)).
    + apply Hlow. lia.
    + apply item_at_out. lia.
Qed.

Lemma first_valid_spec items :
  vsize items < 2 ^ 31 -> exists r, first_valid items = Some r /\ is_next (item_at items) (-1) r.
Proof.
  intros Hsz. unfold first_valid.
  destruct (skip_null_spec (S (length items)) items 0) as (r0 & Hr & _); [done|lia|unfold vsize; lia|unfold vsize; lia|].
  rewrite Hr. cbn [mbind option_bind]. eexists. split; [done|].
  apply (scan_next items (-1)); [done|lia|unfold vsize; lia|done].
Qed.

Lemma next_valid_spec items idx :
  vsize items < 2 ^ 31 -> 0 <= idx < vsize items ->
  exists r, next_valid items idx = Some r /\ is_next (item_at items) idx r.
Proof.
  intros Hsz Hi. unfold next_valid, InvalidIndex. rewrite (proj2 (Z.eqb_neq _ _)) by lia.
  destruct (skip_null_spec (S (length items)) items (idx + 1)) as (r0 & Hr & _);
    [done|lia|unfold vsize in *; lia|lia|].
  rewrite Hr. cbn [mbind option_bind]. eexists. split; [done|]. by apply scan_next; [|lia|lia|].
Qed.

(** The items and the holes of a vector together are its entries. *)
Lemma holes_count items (free : list Z) :
  NoDup free -> (forall i, i ∈ free <-> items.[i] = Some None) ->
  vsize items - vsize free = Z.of_nat (length (omap id items)).
Proof.
  revert free. induction items as [|o items IH] using rev_ind; intros free Hnd Hf.
  { destruct free as [|i free]; [done|]. exfalso. assert (i ∈ i :: free) as Hi by left.
    apply Hf in Hi. by destruct (zlookup_Some_bounds _ _ _ Hi) as [? ?]; cbn in *; lia. }
  assert (forall i, i ∈ free <-> (i = vsize items /\ o = None) \/ items.[i] = Some None) as Hf'.
  { intros i. rewrite Hf. unfold vsize. destruct (decide (i < 0)).
    { rewrite !(proj2 (zlookup_None _ i)) by lia. split; [done|]. intros [[? _]|?]; [lia|done]. }
    rewrite !zlookup_to_nat by lia. destruct (decide (i < Z.of_nat (length items))).
    - rewrite lookup_app_l by lia. split; [by right|]. intros [[? _]|?]; [lia|done].
    - rewrite (lookup_ge_None_2 items) by lia. rewrite lookup_app_r by lia.
      destruct (decide (i = Z.of_nat (length items))) as [->|].
      + rewrite Nat2Z.id, Nat.sub_diag. cbn. naive_solver.
      + rewrite lookup_ge_None_2 by (cbn; lia). naive_solver lia. }
  assert (items.[vsize items] = None) as Hlast by (apply zlookup_None; unfold vsize; lia).
  rewrite omap_app, length_app. unfold vsize at 1. rewrite length_app. destruct o as [x|].
  - specialize (IH free Hnd). assert (length (omap id [Some x]) = 1%nat) by done.
    assert (forall i, i ∈ free <-> items.[i] = Some None) as Hf2
      by (intros i; rewrite Hf'; naive_solver).
    specialize (IH Hf2). cbn [length]. unfold vsize in *. lia.
  - assert (vsize items ∈ free) as [free' Hp]%elem_of_Permutation by (apply Hf'; by left).
    rewrite Hp in Hnd. inversion_clear Hnd as [|? ? Hnin Hnd'].
    specialize (IH free' Hnd'). assert (length (omap id [@None T]) = 0%nat) by done.
    assert (length free = S (length free')) as Hl by (by rewrite Hp).
    assert (forall i, i ∈ free' <-> items.[i] = Some None) as Hf2.
    { intros i. specialize (Hf' i). rewrite Hp, elem_of_cons in Hf'. split.
      - intros Hi. destruct (proj1 Hf' (or_intror Hi)) as [[-> _]|]; done.
      - intros Hi. destruct (proj2 Hf' (or_intror Hi)) as [->|]; [congruence|done]. }
    specialize (IH Hf2). cbn [length]. unfold vsize in *. lia.
Qed.

End items_lemmas.

(** ** The laws of the abstract base class

    [slots] is the vector of a collection, [coll_inv] its invariant and
    [goes_by item name] what an item and the name it is inserted with satisfy. *)
Class CollectionLaws (C T : Type) {IC : ItemCollection C T} := {
  slots : C -> list (option T);
  coll_inv : C -> Prop;
  goes_by : T -> string -> Prop;
  law_first c : getFirstValidIndex c = first_valid (slots c);
  law_next c idx : getNextValidIndex c idx = next_valid (slots c) idx;
  law_num c : coll_inv c -> getNumItems c = Z.of_nat (length (omap id (slots c)));
  law_get c idx : vsize (slots c) < 2 ^ 31 -> idx < 2 ^ 31 -> getItem c idx = item_at (slots c) idx;
  law_has c idx : vsize (slots c) < 2 ^ 31 -> idx < 2 ^ 31 ->
    hasItem c idx = bool_decide (is_Some (item_at (slots c) idx));
  law_insert c item name c' idx :
    coll_inv c -> vsize (slots c) < 2 ^ 31 -> goes_by item name -> insertItem c item name = (c', idx) ->
    coll_inv c' /\
    ((idx = InvalidIndex /\ slots c' = slots c) \/
     (0 <= idx /\ item_at (slots c) idx = None /\ vsize (slots c') <= vsize (slots c) + 1 /\
      forall j, item_at (slots c') j = if decide (j = idx) then Some item else item_at (slots c) j));
  law_remove c idx c' r :
    coll_inv c -> vsize (slots c) < 2 ^ 31 -> idx < 2 ^ 31 -> removeItem c idx = (c', r) ->
    coll_inv c' /\ r = item_at (slots c) idx /\ vsize (slots c') = vsize (slots c) /\
    forall j, item_at (slots c') j = if decide (j = idx) then None else item_at (slots c) j;
  law_clear c : coll_inv (removeAllItems c) /\ slots (removeAllItems c) = []
}.

(** Removing the item at a recycled or fresh index of a vector. *)
Section recycled.
Context {T : Type}.
Implicit Types (items : list (option T)) (free : list Z).

(** The holes of the vector are exactly the recycled indices. *)
Definition exact_holes items free : Prop :=
  NoDup free /\ forall i, i ∈ free <-> items.[i] = Some None.

Lemma null_item_at items i : items.[i] = Some None <-> 0 <= i < vsize items /\ item_at items i = None.
Proof.
  unfold item_at. split.
  - intros Hi. split; [by eapply zlookup_Some_bounds|]. by rewrite Hi.
  - intros [Hr Hi]. destruct (zlookup_lt items i Hr) as [[x|] Hx]; rewrite Hx in Hi; done.
Qed.

Lemma exact_holes_remove items free i x :
  exact_holes items free -> item_at items i = Some x ->
  exact_holes (<[Z.to_nat i := None]> items) (i :: free).
Proof.
  intros [Hnd Hf] Hi. pose proof (item_at_range _ _ _ Hi) as Hr. apply item_at_Some in Hi. split.
  - constructor; [|done]. rewrite Hf. congruence.
  - intros j. rewrite elem_of_cons, Hf, zlookup_insert by done.
    destruct (decide (i = j)) as [->|]; naive_solver.
Qed.

Lemma exact_holes_recycle items free i x :
  exact_holes items (i :: free) -> exact_holes (<[Z.to_nat i := Some x]> items) free /\
  0 <= i < vsize items /\ item_at items i = None.
Proof.
  intros [Hnd Hf]. inversion_clear Hnd as [|? ? Hnin Hnd'].
  assert (items.[i] = Some None) as Hi by (apply Hf; left).
  pose proof (proj1 (null_item_at items i) Hi) as [Hr Hn]. split_and!; [|lia|lia|done].
  split; [done|]. intros j. rewrite zlookup_insert by done. specialize (Hf j).
  rewrite elem_of_cons in Hf. destruct (decide (i = j)) as [->|]; naive_solver.
Qed.

Lemma exact_holes_push items x : exact_holes items [] -> exact_holes (items ++ [Some x]) [].
Proof.
  intros [Hnd Hf]. split; [done|]. intros i. rewrite null_item_at, item_at_snoc.
  split; [intros Hi; inversion Hi|]. intros [Hr Hn]. case_decide; [done|].
  apply Hf, null_item_at. split; [|done]. unfold vsize in *. rewrite length_app in Hr. cbn in Hr. lia.
Qed.

End recycled.

(** *** MapCollection *)

Section MapCollection_laws.
Context {T : Type} (getName : T -> string).
Import MapCollection.
Implicit Types (c : t T) (name : string) (idx : Z).

Record map_inv c : Prop := {
  mi_holes : exact_holes (m_items c) (m_free_ids c);
  mi_names name idx : m_name2idx_map c !! name = Some idx <->
                      exists x, item_at (m_items c) idx = Some x /\ getName x = name
}.

Lemma map_remove_name_spec c name :
  map_inv c ->
  exists r, removeItem_name c name = r /\ map_inv r.1 /\
    match m_name2idx_map c !! name with
    | Some idx => r.2 = item_at (m_items c) idx /\
        m_items r.1 = <[Z.to_nat idx := None]> (m_items c) /\
        m_name2idx_map r.1 = delete name (m_name2idx_map c)
    | None => r = (c, None)
    end.
Proof.
  intros Hi. unfold removeItem_name. destruct (m_name2idx_map c !! name) as [idx|] eqn:E; [|eauto].
  eexists. split; [done|]. split; [|done]. cbn [fst].
  destruct (proj1 (mi_names c Hi name idx) E) as (x & Hx & Hnx). split; cbn.
  - eapply exact_holes_remove; [apply Hi|done].
  - intros name' idx'. rewrite item_at_insert by (by eapply item_at_range).
    rewrite lookup_delete_Some, (mi_names c Hi). case_decide as Heq.
    + subst. split; [intros [Hne (y & Hy & <-)]|naive_solver].
      rewrite Hx in Hy. injection Hy as <-. done.
    + split; [naive_solver|]. intros (y & Hy & <-). split; [|eauto]. intros Hn.
      apply Heq. assert (m_name2idx_map c !! getName y = Some idx') as E'
        by (apply (mi_names c Hi); eauto). rewrite <- Hn, E in E'. congruence.
Qed.

Lemma map_insert_spec c item c' idx :
  map_inv c -> insertItem c item (getName item) = (c', idx) ->
  map_inv c' /\
  match m_name2idx_map c !! getName item with
  | Some _ => idx = InvalidIndex /\ m_items c' = m_items c /\ m_name2idx_map c' = m_name2idx_map c
  | None => 0 <= idx /\ item_at (m_items c) idx = None /\ vsize (m_items c') <= vsize (m_items c) + 1 /\
      m_name2idx_map c' = <[getName item := idx]> (m_name2idx_map c) /\
      forall j, item_at (m_items c') j = if decide (j = idx) then Some item else item_at (m_items c) j
  end.
Proof.
  intros Hi. destruct c as [items free names]. unfold insertItem. cbn in *.
  assert (forall j items', item_at items j = None ->
    (forall k, item_at items' k = if decide (k = j) then Some item else item_at items k) ->
    names !! getName item = None -> forall name k,
    <[getName item := j]> names !! name = Some k <->
    exists x, item_at items' k = Some x /\ getName x = name) as Hnames.
  { intros j items' Hj Hat Habs name k. rewrite lookup_insert_Some, Hat.
    pose proof (mi_names _ Hi name k) as Hm. cbn in Hm. rewrite Hm. case_decide as Hkj.
    - subst k. split; [intros [[<- _]|[_ (x & Hx & _)]]; [eauto|congruence]|].
      intros (x & [= <-] & <-). by left.
    - split; [intros [[_ <-]|[_ ?]]; done|]. intros (x & Hx & <-). right. split; [|eauto].
      intros Heq. rewrite Heq in Habs.
      assert (names !! getName x = Some k) by (apply (mi_names _ Hi); eauto). congruence. }
  destruct Hi as [Hh Hm]. cbn in *.
  destruct free as [|top rest]; destruct (names !! getName item) as [old|] eqn:E; intros [= <- <-];
    (split; [split; cbn|cbn]); try done.
  - by apply exact_holes_push.
  - apply Hnames; [apply item_at_out; lia|intros k; apply item_at_snoc|done].
  - split_and!; [unfold vsize; lia|apply item_at_out; lia| |done|intros k; apply item_at_snoc].
    unfold vsize. rewrite length_app. cbn. lia.
  - by apply exact_holes_recycle.
  - destruct (exact_holes_recycle items rest top item Hh) as (_ & Hr & Hn).
    apply Hnames; [done|intros k; by apply item_at_insert|done].
  - destruct (exact_holes_recycle items rest top item Hh) as (_ & Hr & Hn).
    split_and!; [lia|done| |done|intros k; by apply item_at_insert].
    unfold vsize. rewrite length_insert. lia.
Qed.

Lemma map_hasItem_spec c idx :
  vsize (m_items c) < 2 ^ 31 -> idx < 2 ^ 31 ->
  hasItem c idx = bool_decide (is_Some (item_at (m_items c) idx)).
Proof.
  intros Hsz Hidx. unfold hasItem. destruct (Z.leb_spec 0 idx) as [H0|H0]; cbn [andb].
  - rewrite u32_id by lia. destruct (Z.ltb_spec idx (vsize (m_items c))); cbn [andb]; [done|].
    rewrite item_at_out by lia. by rewrite bool_decide_false by (by intros [? ?]).
  - rewrite item_at_out by lia. by rewrite bool_decide_false by (by intros [? ?]).
Qed.

End MapCollection_laws.

#[export] Instance MapCollection_laws {T} (getName : T -> string) :
  CollectionLaws (MapCollection.t T) T (IC := MapCollection_ItemCollection getName).
Proof.
  refine (Build_CollectionLaws _ _ (MapCollection_ItemCollection getName)
    MapCollection.m_items (map_inv getName) (fun item name => getName item = name)
    _ _ _ _ _ _ _ _).
  - done.
  - done.
  - intros c Hi. apply holes_count; apply Hi.
  - intros c idx Hsz Hidx. cbn. unfold MapCollection.getItem. rewrite map_hasItem_spec by done.
    case_bool_decide as Hs; [|symmetry; by apply eq_None_not_Some].
    destruct Hs as [x Hx]. pose proof (item_at_range _ _ _ Hx). by rewrite u32_id by lia.
  - intros c idx Hsz Hidx. by apply map_hasItem_spec.
  - intros c item name c' idx Hi Hsz <- Hins. destruct (map_insert_spec getName _ _ _ _ Hi Hins) as [Hi' Hc].
    split; [done|]. destruct (MapCollection.m_name2idx_map c !! getName item); naive_solver.
  - intros c idx c' r Hi Hsz Hidx. cbn. unfold MapCollection.removeItem.
    rewrite map_hasItem_spec by done. destruct (item_at (MapCollection.m_items c) idx) as [x|] eqn:Hx.
    + rewrite bool_decide_true by done. destruct (map_remove_name_spec getName c (getName x) Hi)
        as (r' & -> & Hi' & Hc). rewrite (proj2 (mi_names getName c Hi (getName x) idx)) in Hc by eauto.
      destruct Hc as (Hr & Hit & _). intros ->. cbn in *. split_and!; [done|congruence| |].
      * rewrite Hit. unfold vsize. by rewrite length_insert.
      * intros j. rewrite Hit. apply item_at_insert. by eapply item_at_range.
    + rewrite bool_decide_false by (by intros [? ?]). intros [= <- <-]. split_and!; [done..|].
      intros j. by case_decide; subst.
  - intros c. split; [|done]. split; cbn.
    + split; [constructor|]. intros i. split; [intros Hi; inversion Hi|].
      intros Hi. destruct (zlookup_Some_bounds _ _ _ Hi). cbn in *. lia.
    + intros name idx. split; [done|]. intros (x & Hx & _). destruct (item_at_range _ _ _ Hx). unfold vsize in *. cbn in *. lia.
Defined.

(** *** ListCollection *)

Section ListCollection_laws.
Context {T : Type}.
Import ListCollection.
Implicit Types (c : t T) (idx : Z).

Record list_inv c : Prop := {
  li_holes : exact_holes (m_items c) (m_free_ids c);
  li_index idx : idx ∈ m_index_list c <-> is_Some (item_at (m_items c) idx);
  li_nodup : NoDup (m_index_list c)
}.

Lemma erase_first_spec (l : list Z) idx :
  idx ∈ l -> NoDup l ->
  exists l', erase_first l idx = Some l' /\ NoDup l' /\ forall j, j ∈ l' <-> j <> idx /\ j ∈ l.
Proof.
  induction l as [|x l IH]; intros Hin Hnd; [inversion Hin|].
  inversion_clear Hnd as [|? ? Hnin Hnd']. cbn [erase_first]. destruct (Z.eqb_spec x idx) as [->|Hne].
  - exists l. split_and!; [done|done|]. intros j. rewrite elem_of_cons. naive_solver.
  - apply elem_of_cons in Hin as [->|Hin]; [done|].
    destruct (IH Hin Hnd') as (l' & -> & Hnd2 & Hel). exists (x :: l'). split_and!; [done| |].
    + constructor; [|done]. rewrite Hel. naive_solver.
    + intros j. rewrite !elem_of_cons, Hel. naive_solver.
Qed.

Lemma list_insert_spec c item name c' idx :
  list_inv c -> insertItem c item name = (c', idx) ->
  list_inv c' /\ 0 <= idx /\ item_at (m_items c) idx = None /\
  vsize (m_items c') <= vsize (m_items c) + 1 /\
  forall j, item_at (m_items c') j = if decide (j = idx) then Some item else item_at (m_items c) j.
Proof.
  intros Hi. destruct c as [items free l]. unfold insertItem. cbn in *.
  assert (forall k items', item_at items k = None ->
    (forall j, item_at items' j = if decide (j = k) then Some item else item_at items j) ->
    (forall j, j ∈ l ++ [k] <-> is_Some (item_at items' j)) /\ NoDup (l ++ [k])) as Hl.
  { intros k items' Hk Hat. split.
    - intros j. rewrite elem_of_app, list_elem_of_singleton, (li_index _ Hi), Hat.
      cbn. case_decide; naive_solver.
    - apply NoDup_app. split_and!; [apply Hi| |by apply NoDup_singleton].
      intros j Hj ->%list_elem_of_singleton. apply (li_index _ Hi) in Hj. cbn in Hj. rewrite Hk in Hj.
      by destruct Hj. }
  destruct Hi as [Hh _ _]. cbn in *. destruct free as [|top rest]; intros [= <- <-]; cbn.
  - assert (item_at items (vsize items) = None) as Hn by (apply item_at_out; lia).
    destruct (Hl _ (items ++ [Some item]) Hn) as [Hl1 Hl2]; [intros j; apply item_at_snoc|].
    split_and!; [split; [by apply exact_holes_push|done|done]|unfold vsize; lia|done| |].
    + unfold vsize. rewrite length_app. cbn. lia.
    + intros j. apply item_at_snoc.
  - destruct (exact_holes_recycle items rest top item Hh) as (Hh' & Hr & Hn).
    destruct (Hl _ (<[Z.to_nat top := Some item]> items) Hn) as [Hl1 Hl2];
      [intros j; by apply item_at_insert|].
    split_and!; [split; done|lia|done| |intros j; by apply item_at_insert].
    unfold vsize. rewrite length_insert. lia.
Qed.

Lemma list_hasItem_spec c idx :
  vsize (m_items c) < 2 ^ 31 -> idx < 2 ^ 31 ->
  hasItem c idx = bool_decide (is_Some (item_at (m_items c) idx)).
Proof. exact (map_hasItem_spec (MapCollection.mk (m_items c) [] ∅) idx). Qed.

End ListCollection_laws.

#[export] Instance ListCollection_laws {T} : CollectionLaws (ListCollection.t T) T.
Proof.
  refine (Build_CollectionLaws _ _ _ ListCollection.m_items list_inv (fun _ _ => True) _ _ _ _ _ _ _ _).
  - done.
  - done.
  - intros c Hi. apply holes_count; apply Hi.
  - intros c idx Hsz Hidx. cbn. unfold ListCollection.getItem. rewrite list_hasItem_spec by done.
    case_bool_decide as Hs; [|symmetry; by apply eq_None_not_Some].
    destruct Hs as [x Hx]. pose proof (item_at_range _ _ _ Hx). by rewrite u32_id by lia.
  - intros c idx Hsz Hidx. by apply list_hasItem_spec.
  - intros c item name c' idx Hi Hsz _ Hins.
    destruct (list_insert_spec _ _ _ _ _ Hi Hins) as (Hi' & Hc). split; [done|]. by right.
  - intros c idx c' r Hi Hsz Hidx. cbn. unfold ListCollection.removeItem.
    rewrite list_hasItem_spec by done. destruct (item_at (ListCollection.m_items c) idx) as [x|] eqn:Hx.
    + rewrite bool_decide_true by done.
      destruct (erase_first_spec (ListCollection.m_index_list c) idx) as (l & -> & Hnd & Hl).
      { apply (li_index c Hi). by rewrite Hx. } { apply Hi. }
      intros [= <- <-]. pose proof (item_at_range _ _ _ Hx). split_and!; [|done| |].
      * split; cbn; [by eapply exact_holes_remove; [apply Hi|]| |done].
        intros j. rewrite Hl, (li_index c Hi), item_at_insert by done.
        case_decide; [|naive_solver]. split; [naive_solver|by intros [? ?]].
      * cbn. unfold vsize. by rewrite length_insert.
      * intros j. cbn. by apply item_at_insert.
    + rewrite bool_decide_false by (by intros [? ?]). intros [= <- <-]. split_and!; [done..|].
      intros j. by case_decide; subst.
  - intros c. split; [|done]. split; cbn.
    + split; [constructor|]. intros i. split; [intros Hi; inversion Hi|].
      intros Hi. destruct (zlookup_Some_bounds _ _ _ Hi). cbn in *. lia.
    + intros idx. rewrite item_at_out by (unfold vsize; cbn; lia).
      split; [intros Hi; inversion Hi|by intros [? ?]].
    + constructor.
Defined.

(** *** IndexedCollection *)

Section IndexedCollection_laws.
Context {T : Type}.
Import IndexedCollection.
Implicit Types (c : t T) (idx : Z).

(** Recycled indices may be stale: an index that was filled by an insertion at a
    given index stays on the stack until it is popped.  But every hole is there. *)
Record idx_inv c : Prop := {
  ii_range idx : idx ∈ m_free_ids c -> 0 <= idx < vsize (m_items c);
  ii_holes idx : 0 <= idx < vsize (m_items c) -> item_at (m_items c) idx = None -> idx ∈ m_free_ids c;
  ii_num : m_num_items c = Z.of_nat (length (omap id (m_items c)))
}.

Lemma idx_hasItem_spec c idx :
  vsize (m_items c) < 2 ^ 31 -> hasItem c idx = bool_decide (is_Some (item_at (m_items c) idx)).
Proof.
  intros Hsz. unfold hasItem, isInHalfOpenRange, getLastAvailableEmptyIndex.
  destruct (Z.leb_spec 0 idx) as [H0|H0], (Z.ltb_spec idx (vsize (m_items c))) as [H1|H1]; cbn [andb].
  1: by rewrite u32_id by lia.
  all: rewrite item_at_out by lia; by rewrite bool_decide_false by (by intros [? ?]).
Qed.

Lemma pop_occupied_spec c free free' found :
  vsize (m_items c) < 2 ^ 31 -> pop_occupied c free = (free', found) ->
  (forall i, i ∈ free' -> i ∈ free) /\
  (forall i, i ∈ free -> item_at (m_items c) i = None -> i ∈ free') /\
  match found with
  | Some idx => idx ∈ free /\ item_at (m_items c) idx = None
  | None => forall i, i ∈ free -> is_Some (item_at (m_items c) i)
  end.
Proof.
  intros Hsz. induction free as [|top rest IH]; cbn [pop_occupied].
  { intros [= <- <-]. split_and!; [done|done|]. intros i Hi. inversion Hi. }
  rewrite idx_hasItem_spec by done. case_bool_decide as Hs.
  - intros (H1 & H2 & H3)%IH. split_and!.
    + intros i Hi. right. by apply H1.
    + intros i [->|Hi]%elem_of_cons Hn; [rewrite Hn in Hs; by destruct Hs|by apply H2].
    + destruct found as [idx|].
      * destruct H3. split; [by right|done].
      * intros i [->|Hi]%elem_of_cons; [done|by apply H3].
  - intros [= <- <-]. split_and!; [done|done|left|by apply eq_None_not_Some].
Qed.

(** [getValidEmptyIndex] returns an empty index, and a hole if there is one. *)
Lemma getValidEmptyIndex_spec c c' idx :
  idx_inv c -> vsize (m_items c) < 2 ^ 31 -> getValidEmptyIndex c = (c', idx) ->
  idx_inv c' /\ m_items c' = m_items c /\ 0 <= idx <= vsize (m_items c) /\
  item_at (m_items c) idx = None /\
  (idx = vsize (m_items c) -> forall i, 0 <= i < idx -> is_Some (item_at (m_items c) i)).
Proof.
  intros Hi Hsz. unfold getValidEmptyIndex.
  destruct (pop_occupied c (m_free_ids c)) as [free found] eqn:E.
  apply pop_occupied_spec in E as (H1 & H2 & H3); [|done]. intros [= <- <-]. cbn.
  split; [|split; [done|]].
  - split; cbn.
    + intros i Hf. by apply (ii_range c Hi), H1.
    + intros i Hr Hn. by apply H2; [apply (ii_holes c Hi)|].
    + apply Hi.
  - destruct found as [idx|].
    + destruct H3 as [Hin Hn]. apply (ii_range c Hi) in Hin. split_and!; [lia|lia|done|]. lia.
    + unfold getLastAvailableEmptyIndex. split_and!; [unfold vsize; lia|lia|apply item_at_out; lia|].
      intros _ i Hr. destruct (item_at (m_items c) i) eqn:E; [done|].
      rewrite <- E. apply H3. by apply (ii_holes c Hi).
Qed.

(** Growing keeps every item and records the new holes. *)
Lemma grow_spec c idx :
  idx_inv c -> vsize (m_items c) <= idx ->
  idx_inv (grow c idx) /\ vsize (m_items (grow c idx)) = idx /\
  forall j, item_at (m_items (grow c idx)) j = item_at (m_items c) j.
Proof.
  intros Hi Hle. unfold grow, getLastAvailableEmptyIndex.
  assert (exists n : nat, idx = vsize (m_items c) + Z.of_nat n) as [n ->]
    by (exists (Z.to_nat (idx - vsize (m_items c))); lia). clear Hle.
  replace (vsize (m_items c) + Z.of_nat n - vsize (m_items c)) with (Z.of_nat n) by lia.
  revert c Hi. induction n as [|n IH]; intros c Hi.
  { rewrite seqZ_nil by lia. cbn [foldl]. split_and!; [done|lia|done]. }
  rewrite seqZ_cons by lia. cbn [foldl].
  set (c1 := mk (m_items c ++ [None]) (vsize (m_items c) :: m_free_ids c) (m_num_items c)).
  assert (vsize (m_items c1) = vsize (m_items c) + 1) as Hsz1
    by (unfold vsize; cbn; rewrite length_app; cbn; lia).
  assert (forall j, item_at (m_items c1) j = item_at (m_items c) j) as Hat.
  { intros j. cbn. rewrite item_at_snoc. case_decide; [|done]. subst. by rewrite item_at_out by lia. }
  assert (idx_inv c1) as Hi1.
  { split.
    - intros j [->|Hj]%elem_of_cons; [unfold vsize in *; lia|]. apply (ii_range c Hi) in Hj. lia.
    - intros j Hr Hn. rewrite Hat in Hn. destruct (decide (j = vsize (m_items c))) as [->|]; [left|right].
      apply (ii_holes c Hi); [lia|done].
    - cbn. rewrite omap_app, app_nil_r. apply Hi. }
  specialize (IH c1 Hi1). replace (Z.pred (Z.of_nat (S n))) with (Z.of_nat n) by lia.
  replace (Z.succ (vsize (m_items c))) with (vsize (m_items c1)) by lia.
  destruct IH as (H1 & H2 & H3). split_and!; [done|lia|]. intros j. by rewrite H3, Hat.
Qed.

Lemma omap_id_fill (items : list (option T)) idx x :
  0 <= idx < vsize items -> item_at items idx = None ->
  length (omap id (<[Z.to_nat idx := Some x]> items)) = S (length (omap id items)).
Proof.
  intros Hr Hn. assert (items !! Z.to_nat idx = Some None) as Hi.
  { rewrite <- zlookup_to_nat by lia. by apply null_item_at. }
  rewrite (omap_id_insert _ _ _ _ Hi), (omap_id_split _ _ _ Hi), !length_app. cbn. lia.
Qed.

Lemma insertItem_at_spec c item idx c' r :
  idx_inv c -> vsize (m_items c) < 2 ^ 31 -> insertItem_at c item idx = (c', r) ->
  idx_inv c' /\
  ((r = InvalidIndex /\ c' = c /\ (idx < 0 \/ is_Some (item_at (m_items c) idx))) \/
   (r = idx /\ 0 <= idx /\ item_at (m_items c) idx = None /\
    vsize (m_items c') = Z.max (vsize (m_items c)) (idx + 1) /\
    forall j, item_at (m_items c') j = if decide (j = idx) then Some item else item_at (m_items c) j)).
Proof.
  intros Hi Hsz. unfold insertItem_at. rewrite idx_hasItem_spec by done. case_bool_decide as Hs.
  { intros [= <- <-]. split; [done|]. left. split_and!; [done|done|by right]. }
  apply eq_None_not_Some in Hs. destruct (Z.ltb_spec idx 0) as [Hneg|H0].
  { intros [= <- <-]. split; [done|]. left. split_and!; [done|done|by left]. }
  destruct (decide (vsize (m_items c) <= idx)) as [Hge|Hlt].
  - assert (isInHalfOpenRange c idx = false) as ->.
    { unfold isInHalfOpenRange, getLastAvailableEmptyIndex. rewrite (proj2 (Z.ltb_ge _ _)) by lia.
      apply andb_false_r. }
    cbn [negb]. destruct (grow_spec c idx Hi Hge) as (Hi1 & Hsz1 & Hat).
    unfold getLastAvailableEmptyIndex. rewrite Hsz1, Z.eqb_refl. intros [= <- <-].
    split; [|right; split_and!; [done|done|done| |]].
    + split; cbn.
      * intros j Hj. apply (ii_range _ Hi1) in Hj. unfold vsize in *. rewrite length_app. cbn. lia.
      * intros j Hr Hn. rewrite item_at_snoc in Hn. case_decide; [done|].
        apply (ii_holes _ Hi1); [|done]. unfold vsize in *. rewrite length_app in Hr. cbn in Hr. lia.
      * rewrite omap_app, length_app, (ii_num _ Hi1). cbn. lia.
    + unfold vsize in *. cbn. rewrite length_app. cbn. lia.
    + intros j. cbn. rewrite item_at_snoc, Hsz1, Hat. done.
  - assert (isInHalfOpenRange c idx = true) as ->.
    { unfold isInHalfOpenRange, getLastAvailableEmptyIndex.
      rewrite (proj2 (Z.leb_le _ _)), (proj2 (Z.ltb_lt _ _)) by lia. done. }
    cbn [negb]. unfold getLastAvailableEmptyIndex. rewrite (proj2 (Z.eqb_neq _ _)) by lia.
    assert (is_null (m_items c) idx = true) as -> by (apply is_null_spec; [lia|done]).
    intros [= <- <-]. split; [|right; split_and!; [done|done|done| |]].
    + split; cbn.
      * intros j Hj. unfold vsize. rewrite length_insert. apply (ii_range c Hi).
        destruct (m_free_ids c) as [|top rest]; [done|]. destruct (top =? idx); [by right|done].
      * intros j Hr Hn. unfold vsize in Hr. rewrite length_insert in Hr.
        rewrite item_at_insert in Hn by lia. case_decide as Hne; [done|].
        pose proof (ii_holes c Hi j Hr Hn) as Hf. destruct (m_free_ids c) as [|top rest]; [done|].
        destruct (Z.eqb_spec top idx) as [->|]; [|done]. by apply elem_of_cons in Hf as [->|].
      * rewrite omap_id_fill by (done || lia). rewrite (ii_num c Hi). lia.
    + cbn. unfold vsize in *. rewrite length_insert. lia.
    + intros j. cbn. apply item_at_insert. lia.
Qed.

End IndexedCollection_laws.

#[export] Instance IndexedCollection_laws {T} : CollectionLaws (IndexedCollection.t T) T.
Proof.
  refine (Build_CollectionLaws _ _ _ IndexedCollection.m_items idx_inv (fun _ _ => True) _ _ _ _ _ _ _ _).
  - done.
  - done.
  - intros c Hi. apply Hi.
  - intros c idx Hsz Hidx. cbn. unfold IndexedCollection.getItem. rewrite idx_hasItem_spec by done.
    case_bool_decide as Hs; [|symmetry; by apply eq_None_not_Some].
    destruct Hs as [x Hx]. pose proof (item_at_range _ _ _ Hx). by rewrite u32_id by lia.
  - intros c idx Hsz Hidx. by apply idx_hasItem_spec.
  - intros c item name c' idx Hi Hsz _. cbn. unfold IndexedCollection.insertItem.
    destruct (IndexedCollection.getValidEmptyIndex c) as [c1 idx1] eqn:E.
    apply getValidEmptyIndex_spec in E as (Hi1 & Hit & Hr & Hn & _); [|done|done]. intros Hins.
    apply insertItem_at_spec in Hins as [Hi' Hc]; [|done|by rewrite Hit]. split; [done|].
    rewrite Hit in Hc. destruct Hc as [(_ & _ & [?|Hs])|(-> & H0 & Hn' & Hv & Hat)]; [lia| |].
    + rewrite Hn in Hs. by destruct Hs.
    + right. split_and!; [done|done|lia|done].
  - intros c idx c' r Hi Hsz Hidx. cbn. unfold IndexedCollection.removeItem.
    rewrite idx_hasItem_spec by done.
    destruct (item_at (IndexedCollection.m_items c) idx) as [x|] eqn:Hx.
    + rewrite bool_decide_true by done. intros [= <- <-]. pose proof (item_at_range _ _ _ Hx) as Hr.
      split_and!; [|done| |].
      * split; cbn.
        -- intros j [->|Hj]%elem_of_cons; unfold vsize; rewrite length_insert; [done|by apply Hi].
        -- intros j Hj Hn. unfold vsize in Hj. rewrite length_insert in Hj.
           rewrite item_at_insert in Hn by done. case_decide as Hne; [subst; left|right].
           by apply (ii_holes c Hi).
        -- assert (IndexedCollection.m_items c !! Z.to_nat idx = Some (Some x)) as Hl.
           { rewrite <- zlookup_to_nat by lia. by apply item_at_Some. }
           rewrite (ii_num c Hi), (omap_id_insert _ _ _ _ Hl), (omap_id_split _ _ _ Hl), !length_app.
           cbn. lia.
      * cbn. unfold vsize. by rewrite length_insert.
      * intros j. cbn. by apply item_at_insert.
    + rewrite bool_decide_false by (by intros [? ?]). intros [= <- <-]. split_and!; [done..|].
      intros j. by case_decide; subst.
  - intros c. split; [|done]. split; cbn; [|unfold vsize; cbn; lia|done].
    intros idx Hi. inversion Hi.
Defined.

(** ** Clients of the interface *)

Section clients.
Context {C T : Type} `{CL : CollectionLaws C T}.
Implicit Types c : C.

(** The items of a vector from an index on, with their indices. *)
Definition items_from (items : list (option T)) (lo : Z) : list (Z * T) :=
  omap (fun i => pair i <$> item_at items i) (seqZ lo (vsize items - lo)).

Lemma items_from_skip items lo hi :
  0 <= lo <= hi -> (forall j, lo <= j < hi -> item_at items j = None) ->
  items_from items lo = items_from items hi.
Proof.
  intros Hle. assert (exists n : nat, hi = lo + Z.of_nat n) as [n ->]
    by (exists (Z.to_nat (hi - lo)); lia). clear Hle.
  revert lo. induction n as [|n IH]; intros lo Hn; [by replace (lo + Z.of_nat 0) with lo by lia|].
  replace (lo + Z.of_nat (S n)) with (Z.succ lo + Z.of_nat n) by lia. rewrite <- IH by (intros; apply Hn; lia).
  unfold items_from. destruct (decide (lo < vsize items)).
  - rewrite (seqZ_cons lo) by lia. cbn. rewrite Hn by lia. cbn.
    by replace (Z.pred (vsize items - lo)) with (vsize items - Z.succ lo) by lia.
  - by rewrite !seqZ_nil by lia.
Qed.

Lemma items_from_hit items idx x :
  item_at items idx = Some x -> items_from items idx = (idx, x) :: items_from items (idx + 1).
Proof.
  intros Hx. pose proof (item_at_range _ _ _ Hx). unfold items_from. rewrite (seqZ_cons idx) by lia.
  cbn. rewrite Hx. cbn. by replace (Z.pred (vsize items - idx)) with (vsize items - (idx + 1)) by lia.
Qed.

Lemma items_from_none items lo :
  0 <= lo -> (forall j, lo <= j -> item_at items j = None) -> items_from items lo = [].
Proof.
  intros H0 Hn. destruct (decide (lo <= vsize items)) as [Hle|Hgt].
  - rewrite (items_from_skip items lo (vsize items)); [|lia|intros; apply Hn; lia].
    unfold items_from. by rewrite seqZ_nil by lia.
  - unfold items_from. by rewrite seqZ_nil by lia.
Qed.

(** The items after an index start with the next valid one. *)
Lemma items_from_next items idx r :
  -1 <= idx -> is_next (item_at items) idx r ->
  items_from items (idx + 1) =
  if decide (r = InvalidIndex) then [] else
  match item_at items r with Some x => (r, x) :: items_from items (r + 1) | None => [] end.
Proof.
  intros H1 [[-> Hn]|(Hlt & [x Hx] & Hn)].
  - rewrite decide_True by done. apply items_from_none; [lia|]. intros j Hj. apply Hn. lia.
  - rewrite decide_False by (unfold InvalidIndex; lia). rewrite Hx.
    rewrite (items_from_skip items (idx + 1) r); [by apply items_from_hit|lia|].
    intros j Hj. apply Hn. lia.
Qed.

Lemma next_item items idx r :
  -1 <= idx -> is_next (item_at items) idx r -> r <> InvalidIndex ->
  exists x, item_at items r = Some x /\ idx < r < vsize items /\
    items_from items (idx + 1) = (r, x) :: items_from items (r + 1).
Proof.
  intros H1 Hnx Hr. pose proof (items_from_next _ _ _ H1 Hnx) as Hif.
  rewrite decide_False in Hif by done. destruct Hnx as [[? _]|(Hlt & [x Hx] & _)]; [done|].
  exists x. rewrite Hx in Hif. pose proof (item_at_range _ _ _ Hx). split_and!; [done|lia|lia|done].
Qed.

Lemma iterate_from_S n c pos :
  iterate_from (S n) c pos =
  if negb (indexIsValid pos) then Some [] else
  item ← getItem c pos; pos' ← getNextValidIndex c pos; rest ← iterate_from n c pos';
  Some ((pos, item) :: rest).
Proof. done. Qed.

Lemma drain_from_S n c pos :
  drain_from (S n) c pos =
  if negb (indexIsValid pos) then Some (c, []) else
  let '(c, item) := removeItem c pos in
  item ← item; pos' ← getNextValidIndex c pos; r ← drain_from n c pos';
  Some (r.1, item :: r.2).
Proof. done. Qed.

Lemma iterate_from_spec n c idx pos :
  vsize (slots c) < 2 ^ 31 -> -1 <= idx -> vsize (slots c) - idx <= Z.of_nat n ->
  is_next (item_at (slots c)) idx pos ->
  iterate_from (S n) c pos = Some (items_from (slots c) (idx + 1)).
Proof.
  intros Hsz. revert idx pos. induction n as [|n IH]; intros idx pos H1 Hn Hnx.
  all: rewrite iterate_from_S; unfold indexIsValid.
  all: destruct (Z.eqb_spec pos InvalidIndex) as [->|Hne]; cbn [negb].
  1,3: rewrite (items_from_next _ _ _ H1 Hnx); by rewrite decide_True.
  all: destruct (next_item _ _ _ H1 Hnx Hne) as (x & Hx & Hr & Hif); [].
  - lia.
  - rewrite law_get by lia. rewrite Hx. cbn [mbind option_bind]. rewrite law_next.
    destruct (next_valid_spec (slots c) pos Hsz) as (r & -> & Hnx'); [lia|]. cbn [mbind option_bind].
    rewrite (IH pos r) by (done || lia). cbn. by rewrite Hif.
Qed.

(** Iteration visits the items in index order. *)
Lemma iterate_spec c :
  vsize (slots c) < 2 ^ 31 ->
  iterate (S (S (length (slots c)))) c = Some (items_from (slots c) 0).
Proof.
  intros Hsz. unfold iterate. rewrite law_first.
  destruct (first_valid_spec (slots c) Hsz) as (r & -> & Hnx). cbn [mbind option_bind].
  apply (iterate_from_spec _ c (-1)); [done|lia|unfold vsize; lia|done].
Qed.

Lemma is_next_ext (at1 at2 : Z -> option T) idx r :
  (forall j, idx < j -> at1 j = at2 j) -> is_next at1 idx r -> is_next at2 idx r.
Proof.
  intros Heq [[-> Hn]|(Hlt & Hs & Hn)]; [left|right].
  - split; [done|]. intros j Hj. rewrite <- Heq by done. by apply Hn.
  - split_and!; [done|by rewrite <- Heq|]. intros j Hj. rewrite <- Heq by lia. by apply Hn.
Qed.

Lemma items_from_ext items1 items2 lo :
  vsize items1 = vsize items2 -> (forall j, lo <= j -> item_at items1 j = item_at items2 j) ->
  items_from items1 lo = items_from items2 lo.
Proof.
  intros Hsz Heq. unfold items_from. rewrite Hsz.
  assert (forall l : list Z, (forall j, j ∈ l -> lo <= j) ->
    omap (fun i => pair i <$> item_at items1 i) l = omap (fun i => pair i <$> item_at items2 i) l) as Hgen.
  { induction l as [|j l IH]; intros Hl; [done|]. cbn. rewrite Heq by (apply Hl; left).
    rewrite IH; [done|]. intros k Hk. apply Hl. by right. }
  apply Hgen. intros j Hj%elem_of_seqZ. lia.
Qed.

Lemma drain_from_spec n c idx pos :
  coll_inv c -> vsize (slots c) < 2 ^ 31 -> -1 <= idx -> vsize (slots c) - idx <= Z.of_nat n ->
  (forall j, j <= idx -> item_at (slots c) j = None) -> is_next (item_at (slots c)) idx pos ->
  exists c', drain_from (S n) c pos = Some (c', (items_from (slots c) (idx + 1)).*2) /\
    coll_inv c' /\ vsize (slots c') = vsize (slots c) /\ forall j, item_at (slots c') j = None.
Proof.
  revert c idx pos. induction n as [|n IH]; intros c idx pos Hi Hsz H1 Hn Hlow Hnx.
  all: rewrite drain_from_S; unfold indexIsValid.
  all: destruct (Z.eqb_spec pos InvalidIndex) as [->|Hne]; cbn [negb].
  1,3: exists c; rewrite (items_from_next _ _ _ H1 Hnx), decide_True by done; split_and!; [done..|].
  1,2: intros j; destruct (decide (j <= idx)); [by apply Hlow|];
       destruct Hnx as [[_ Hnx]|[? _]]; [apply Hnx; lia|unfold InvalidIndex in *; lia].
  all: destruct (next_item _ _ _ H1 Hnx Hne) as (x & Hx & Hr & Hif); [].
  - lia.
  - destruct (removeItem c pos) as [c1 r] eqn:Hrm.
    apply law_remove in Hrm as (Hi1 & -> & Hsz1 & Hat); [|done|done|lia].
    rewrite Hx. cbn [mbind option_bind]. rewrite law_next.
    destruct (next_valid_spec (slots c1) pos) as (r & -> & Hnx'); [lia|lia|]. cbn [mbind option_bind].
    destruct (IH c1 pos r) as (c' & -> & Hi' & Hsz' & Hat'); [done|lia|lia|lia| |done|].
    + intros j Hj. rewrite Hat. case_decide; [done|]. destruct (decide (j <= idx)); [by apply Hlow|].
      destruct Hnx as [[? _]|(_ & _ & Hnx)]; [done|]. apply Hnx. lia.
    + exists c'. cbn. rewrite Hif. cbn. split_and!; [|done|lia|done].
      rewrite (items_from_ext (slots c1) (slots c)); [done|lia|].
      intros j Hj. rewrite Hat. by rewrite decide_False by lia.
Qed.

Lemma drain_spec c :
  coll_inv c -> vsize (slots c) < 2 ^ 31 ->
  exists c', drain (S (S (length (slots c)))) c = Some (c', (items_from (slots c) 0).*2) /\
    coll_inv c' /\ getNumItems c' = 0 /\ getFirstValidIndex c' = Some InvalidIndex.
Proof.
  intros Hi Hsz. unfold drain. rewrite law_first.
  destruct (first_valid_spec (slots c) Hsz) as (r & -> & Hnx). cbn [mbind option_bind].
  destruct (drain_from_spec (S (length (slots c))) c (-1) r) as (c' & -> & Hi' & Hsz' & Hat);
    [done|done|lia|unfold vsize; lia| |done|].
  { intros j Hj. apply item_at_out. lia. }
  exists c'. split_and!; [done|done| |].
  - rewrite law_num by done. destruct (omap id (slots c')) as [|x l] eqn:E; [done|]. exfalso.
    assert (x ∈ omap id (slots c')) as Hx by (rewrite E; left).
    apply elem_of_omap_id, list_elem_of_lookup in Hx as [i Hx]. specialize (Hat (Z.of_nat i)).
    unfold item_at in Hat. rewrite zlookup_of_nat, Hx in Hat. done.
  - rewrite law_first. destruct (first_valid_spec (slots c')) as (r' & -> & Hnx'); [lia|].
    destruct Hnx' as [[-> _]|(_ & [x Hx] & _)]; [done|]. by rewrite Hat in Hx.
Qed.

Lemma items_from_all (items : list (option T)) : (items_from items 0).*2 = omap id items.
Proof.
  assert (forall n : nat, (n <= length items)%nat ->
    (items_from items (vsize items - Z.of_nat n)).*2 = omap id (drop (length items - n) items)) as Hgen.
  { induction n as [|n IH]; intros Hn.
    - rewrite Nat.sub_0_r, drop_all. unfold items_from. by rewrite seqZ_nil by lia.
    - set (k := (length items - S n)%nat). destruct (lookup_lt_is_Some_2 items k) as [o Ho]; [lia|].
      rewrite (drop_S _ _ _ Ho). replace (S k) with (length items - n)%nat by lia.
      replace (vsize items - Z.of_nat (S n)) with (Z.of_nat k) by (unfold vsize; lia).
      assert (item_at items (Z.of_nat k) = o) as Hat by (unfold item_at; by rewrite zlookup_of_nat, Ho).
      assert (Z.of_nat k + 1 = vsize items - Z.of_nat n) as Hk by (unfold vsize; lia).
      destruct o as [x|].
      + rewrite (items_from_hit _ _ _ Hat), Hk. cbn. by rewrite IH by lia.
      + rewrite (items_from_skip items (Z.of_nat k) (Z.of_nat k + 1)), Hk; [cbn; apply IH; lia|lia|].
        intros j Hj. by replace j with (Z.of_nat k) by lia. }
  specialize (Hgen (length items)). rewrite Nat.sub_diag in Hgen. unfold vsize in Hgen.
  rewrite Z.sub_diag in Hgen. by apply Hgen.
Qed.

Lemma elem_of_items_from (items : list (option T)) idx x :
  (idx, x) ∈ items_from items 0 <-> item_at items idx = Some x.
Proof.
  unfold items_from. rewrite list_elem_of_omap. split.
  - intros (j & _ & Hj). by destruct (item_at items j) eqn:E; cbn in Hj; simplify_eq.
  - intros Hx. exists idx. pose proof (item_at_range _ _ _ Hx). rewrite elem_of_seqZ, Hx. split; [lia|done].
Qed.

Lemma items_from_sorted (items : list (option T)) lo : StronglySorted Z.lt (items_from items lo).*1.
Proof.
  unfold items_from. assert (forall n : nat, forall lo, StronglySorted Z.lt
    (omap (fun i => pair i <$> item_at items i) (seqZ lo (Z.of_nat n))).*1 /\
    Forall (fun i => lo <= i) (omap (fun i => pair i <$> item_at items i) (seqZ lo (Z.of_nat n))).*1) as Hgen.
  { induction n as [|n IH]; intros k; [split; constructor|]. rewrite seqZ_cons by lia.
    replace (Z.pred (Z.of_nat (S n))) with (Z.of_nat n) by lia. destruct (IH (Z.succ k)) as [H1 H2].
    cbn. destruct (item_at items k); cbn.
    - split; [constructor; [done|]|constructor; [lia|]]; eapply Forall_impl; eauto; cbn; intros; lia.
    - split; [done|]. eapply Forall_impl; eauto; cbn; intros; lia. }
  destruct (decide (0 <= vsize items - lo)).
  - destruct (Hgen (Z.to_nat (vsize items - lo)) lo) as [Hs _]. by rewrite Z2Nat.id in Hs by lia.
  - rewrite seqZ_nil by lia. constructor.
Qed.

Lemma StronglySorted_NoDup_lt (l : list Z) : StronglySorted Z.lt l -> NoDup l.
Proof.
  induction 1 as [|x l _ IH Hl]; constructor; [|done]. intros Hin.
  rewrite Forall_forall in Hl. specialize (Hl x Hin). lia.
Qed.

(** Iterating over any collection with the base-class iterator yields its
    items in the order of their indices, each exactly once, and [getNumItems] is
    their number. *)
Theorem collection_iteration c :
  coll_inv c -> vsize (slots c) < 2 ^ 31 ->
  exists l, iterate (S (S (length (slots c)))) c = Some l /\
    StronglySorted Z.lt l.*1 /\ (forall idx x, (idx, x) ∈ l <-> item_at (slots c) idx = Some x) /\
    getNumItems c = Z.of_nat (length l).
Proof.
  intros Hi Hsz. exists (items_from (slots c) 0). split_and!.
  - by apply iterate_spec.
  - apply items_from_sorted.
  - intros idx x. apply elem_of_items_from. 
  - rewrite law_num by done. by rewrite <- items_from_all, length_fmap.
Qed.

(** The loops that remove the item at the current index and then advance
    (as in [destroyViews] or [destroyAllBuffers]) remove every item exactly once, in
    index order, terminate, and leave the collection empty. *)
Theorem collection_drain c :
  coll_inv c -> vsize (slots c) < 2 ^ 31 ->
  exists c', drain (S (S (length (slots c)))) c = Some (c', omap id (slots c)) /\
    coll_inv c' /\ getNumItems c' = 0 /\ getFirstValidIndex c' = Some InvalidIndex.
Proof. intros Hi Hsz. rewrite <- items_from_all. by apply drain_spec. Qed.

End clients.

(** *** Programs on a MapCollection *)

Section map_program.
Context {T : Type} (getName : T -> string).
Import MapCollection.

Inductive mop := MInsert (item : T) | MRemoveName (name : string) | MRemoveIdx (idx : Z) | MClear.

Definition mexec (c : t T) (o : mop) : t T :=
  match o with
  | MInsert item => (insertItem c item (getName item)).1
  | MRemoveName name => (removeItem_name c name).1
  | MRemoveIdx idx => (removeItem getName c idx).1
  | MClear => removeAllItems c
  end.

Definition mrun (ops : list mop) : t T := foldl mexec empty ops.

(** The effect of an operation on the lookup by name. *)
Definition mspec (c : t T) (o : mop) (name : string) : option T :=
  let old := getItem_name c name in
  match o with
  | MInsert item =>
    if decide (name = getName item) then match old with Some x => Some x | None => Some item end
    else old
  | MRemoveName name' => if decide (name = name') then None else old
  | MRemoveIdx idx => if decide (is_Some (getItem c idx) /\ name = getItemName getName c idx) then None else old
  | MClear => None
  end.

Definition mop_ok (o : mop) : Prop := match o with MRemoveIdx idx => idx < 2 ^ 31 | _ => True end.

Lemma getItem_name_spec c name x :
  map_inv getName c ->
  getItem_name c name = Some x <-> exists idx, item_at (m_items c) idx = Some x /\ getName x = name.
Proof.
  intros Hi. unfold getItem_name. destruct (m_name2idx_map c !! name) as [idx|] eqn:E.
  - apply (mi_names _ _ Hi) in E as (y & Hy & Hn). rewrite Hy. split.
    + intros [= <-]. eauto.
    + intros (j & Hj & Hn'). assert (m_name2idx_map c !! name = Some j) as E1
        by (apply (mi_names _ _ Hi); eauto).
      assert (m_name2idx_map c !! name = Some idx) as E2 by (apply (mi_names _ _ Hi); eauto). congruence.
  - split; [done|]. intros (j & Hj & Hn). assert (m_name2idx_map c !! name = Some j) as E1
      by (apply (mi_names _ _ Hi); eauto). congruence.
Qed.

Lemma lookup_size (c : t T) :
  map_inv getName c -> Z.of_nat (size (m_name2idx_map c)) = getNumItems c.
Proof.
  intros Hi. unfold getNumItems. rewrite (holes_count _ _ (proj1 (mi_holes _ _ Hi)) (proj2 (mi_holes _ _ Hi))).
  f_equal. rewrite <- items_from_all, length_fmap, <- length_map_to_list.
  rewrite <- (length_fmap (fun p => (getName p.2, p.1)) (items_from (m_items c) 0)).
  apply Permutation_length, NoDup_Permutation.
  - apply NoDup_map_to_list.
  - apply NoDup_fmap_2_strong; [|apply (NoDup_fmap_1 fst), StronglySorted_NoDup_lt, items_from_sorted].
    intros [i x] [j y] Hx%elem_of_items_from Hy%elem_of_items_from [= Hn ->]. congruence.
  - intros [name idx]. rewrite elem_of_map_to_list, (mi_names _ _ Hi), list_elem_of_fmap.
    split.
    + intros (x & Hx & <-). exists (idx, x). split; [done|]. by apply elem_of_items_from.
    + intros ([k x] & [= -> ->] & Hx). exists x. split; [|done]. by apply elem_of_items_from.
Qed.

(** The lookup by name after the removal of one name. *)
Lemma remove_name_effect c name0 name :
  map_inv getName c ->
  let c' := (removeItem_name c name0).1 in
  map_inv getName c' /\ vsize (m_items c') = vsize (m_items c) /\
  getItem_name c' name = (if decide (name = name0) then None else getItem_name c name) /\
  (name <> name0 -> getItemIndex c' name = getItemIndex c name).
Proof.
  intros Hi. destruct (map_remove_name_spec getName c name0 Hi) as (r & -> & Hi' & Hr). cbn.
  split; [done|]. unfold getItemIndex, getItem_name.
  destruct (m_name2idx_map c !! name0) as [idx|] eqn:E.
  - destruct Hr as (_ & Hit & Hmap). rewrite Hit, Hmap. split; [unfold vsize; by rewrite length_insert|].
    destruct (decide (name = name0)) as [->|Hne]; [by rewrite lookup_delete_eq|].
    rewrite lookup_delete_ne by done. split; [|done].
    destruct (m_name2idx_map c !! name) as [j|] eqn:Ej; [|done].
    apply (mi_names _ _ Hi) in E as (x & Hx & Hnx). apply (mi_names _ _ Hi) in Ej as (y & Hy & Hny).
    rewrite item_at_insert by (by eapply item_at_range). rewrite decide_False; [done|]. congruence.
  - subst r. cbn. split_and!; [done| |done]. case_decide; [|done]. subst. by rewrite E.
Qed.

Lemma mexec_spec c o :
  map_inv getName c -> vsize (m_items c) < 2 ^ 31 -> mop_ok o ->
  map_inv getName (mexec c o) /\ vsize (m_items (mexec c o)) <= vsize (m_items c) + 1 /\
  forall name, getItem_name (mexec c o) name = mspec c o name /\
    (is_Some (getItem_name c name) -> is_Some (getItem_name (mexec c o) name) ->
     getItemIndex (mexec c o) name = getItemIndex c name).
Proof.
  intros Hi Hsz Hok. destruct o as [item|name0|idx|]; cbn [mexec mspec].
  - destruct (insertItem c item (getName item)) as [c' idx] eqn:E. cbn [fst].
    destruct (map_insert_spec getName _ _ _ _ Hi E) as [Hi' Hc].
    split; [done|]. unfold getItem_name, getItemIndex.
    destruct (m_name2idx_map c !! getName item) as [old|] eqn:Eo.
    + destruct Hc as (_ & -> & ->). split; [lia|]. intros name. split; [|done].
      case_decide; [subst; rewrite Eo|done].
      apply (mi_names _ _ Hi) in Eo as (x & -> & _). done.
    + destruct Hc as (H0 & Hn & Hv & Hmap & Hat). rewrite Hmap. split; [done|]. intros name.
      destruct (decide (name = getName item)) as [->|Hne].
      * rewrite lookup_insert_eq, Eo, Hat, decide_True by done. split; [done|]. by intros [? ?].
      * rewrite lookup_insert_ne by congruence. split; [|done].
        destruct (m_name2idx_map c !! name) as [j|] eqn:Ej; [|done].
        apply (mi_names _ _ Hi) in Ej as (y & Hy & _). rewrite Hat, decide_False; [done|congruence].
  - destruct (remove_name_effect c name0 "" Hi) as (Hi' & Hv & _). split_and!; [done|lia|]. intros name.
    destruct (remove_name_effect c name0 name Hi) as (_ & _ & Hg & Hix). split; [done|].
    intros _. rewrite Hg. case_decide; [by intros [? ?]|by intros _; apply Hix].
  - unfold removeItem, getItemName.
    assert (getItem c idx = item_at (m_items c) idx) as Hget
      by exact (law_get (IC := MapCollection_ItemCollection getName) c idx Hsz Hok).
    rewrite Hget, map_hasItem_spec by done. destruct (item_at (m_items c) idx) as [x|] eqn:Ex.
    + rewrite bool_decide_true by done. destruct (remove_name_effect c (getName x) "" Hi) as (Hi' & Hv & _).
      split_and!; [done|lia|]. intros name.
      destruct (remove_name_effect c (getName x) name Hi) as (_ & _ & Hg & Hix). split.
      * rewrite Hg. case_decide; [by rewrite decide_True|by rewrite decide_False by naive_solver].
      * intros _. rewrite Hg. case_decide; [by intros [? ?]|by intros _; apply Hix].
    + rewrite bool_decide_false by (by intros [? ?]). cbn [fst]. split_and!; [done|lia|]. intros name.
      split; [|done]. rewrite decide_False; [done|]. by intros [[? ?] _].
  - split; [exact (proj1 (law_clear (IC := MapCollection_ItemCollection getName) c))|]. split.
    + unfold vsize. cbn. lia.
    + intros name. split; [done|]. by intros _ [? ?].
Qed.

Lemma mrun_inv ops :
  Forall mop_ok ops -> Z.of_nat (length ops) < 2 ^ 31 ->
  map_inv getName (mrun ops) /\ vsize (m_items (mrun ops)) <= Z.of_nat (length ops).
Proof.
  induction ops as [|o ops IH] using rev_ind; intros Hok Hlen.
  - split; [|unfold vsize; cbn; lia]. exact (proj1 (law_clear (IC := MapCollection_ItemCollection getName) empty)).
  - apply Forall_app in Hok as [Hok Ho]. inversion_clear Ho as [|? ? Ho' _].
    rewrite length_app in *. cbn [length] in *. unfold mrun in *. rewrite foldl_snoc.
    destruct IH as [Hi Hv]; [done|lia|].
    destruct (mexec_spec _ o Hi ltac:(lia) Ho') as (Hi' & Hv' & _). split; [done|]. lia.
Qed.

(** In every named collection a program can build, names and indices are in
    bijection and [getNumItems] is the number of names; a further operation has the
    specified effect on the lookup by name (an insertion under a taken name is
    refused), and every name that stays keeps its index. *)
Theorem map_collection_correct ops o :
  Forall mop_ok (ops ++ [o]) -> Z.of_nat (length ops) < 2 ^ 31 - 1 ->
  let c := mrun ops in let c' := mexec c o in
  (forall name idx, m_name2idx_map c' !! name = Some idx <->
     exists x, item_at (m_items c') idx = Some x /\ getName x = name) /\
  Z.of_nat (size (m_name2idx_map c')) = getNumItems c' /\
  forall name, getItem_name c' name = mspec c o name /\
    (is_Some (getItem_name c name) -> is_Some (getItem_name c' name) ->
     getItemIndex c' name = getItemIndex c name).
Proof.
  intros Hok Hlen c c'. apply Forall_app in Hok as [Hok Ho]. inversion_clear Ho as [|? ? Ho' _].
  destruct (mrun_inv ops Hok) as [Hi Hv]; [lia|].
  destruct (mexec_spec c o Hi) as (Hi' & _ & Heff); [unfold c; lia|done|].
  split_and!; [apply Hi'|by apply lookup_size|done].
Qed.

End map_program.

(** ** Witnesses *)

(** A list of three unnamed items with a hole at index 1. *)
Definition sample_list : ListCollection.t nat :=
  (ListCollection.removeItem
     (fold_left (fun c x => (ListCollection.insertItem c x "").1) [10%nat; 11%nat; 12%nat]
        ListCollection.empty) 1).1.

Lemma sample_list_inv : list_inv sample_list.
Proof.
  split.
  - split; [repeat constructor; set_solver|]. intros i. split.
    + intros ->%list_elem_of_singleton. done.
    + intros Hi. pose proof (zlookup_Some_bounds _ _ _ Hi) as Hr.
      assert (0 <= i < 3) by exact Hr. assert (i = 0 \/ i = 1 \/ i = 2) as [->|[->| ->]] by lia; [done|left|done].
  - intros idx. cbn. split.
    + intros [->|[->|Hi]%elem_of_cons]%elem_of_cons; [done|done|]. inversion Hi.
    + intros [x Hx]. pose proof (item_at_range _ _ _ Hx) as Hr.
      assert (0 <= idx < 3) by exact Hr. assert (idx = 0 \/ idx = 1 \/ idx = 2) as [->|[->| ->]] by lia; [left|done|right; left].
  - repeat constructor; set_solver.
Qed.

Lemma collection_iteration_witness :
  exists l, iterate 5 sample_list = Some l /\ getNumItems sample_list = Z.of_nat (length l).
Proof.
  destruct (collection_iteration (CL := ListCollection_laws) sample_list sample_list_inv) as (l & Hl & _ & _ & Hn); [done|].
  exists l. split; [exact Hl|exact Hn].
Defined.

Lemma collection_drain_witness :
  exists c', drain 5 sample_list = Some (c', [10%nat; 12%nat]) /\ getNumItems c' = 0.
Proof.
  destruct (collection_drain (CL := ListCollection_laws) sample_list sample_list_inv) as (c' & Hc & _ & Hn & _); [done|].
  exists c'. split; [exact Hc|exact Hn].
Defined.

(** Named items: pairs of a name and a value. *)
Definition sample_ops : list (mop (T := string * nat)) :=
  [MInsert ("a", 1%nat); MInsert ("b", 2%nat); MInsert ("a", 3%nat); MRemoveName "a";
   MInsert ("c", 4%nat)].

Lemma map_collection_correct_witness :
  MapCollection.getItem_name (mexec fst (mrun fst sample_ops) (MRemoveIdx 0)) "c" = None.
Proof.
  destruct (map_collection_correct fst sample_ops (MRemoveIdx 0)) as (_ & _ & Heff);
    [repeat constructor|done|].
  destruct (Heff "c") as [-> _]. reflexivity.
Defined.

End Collections.
