(* ===== verification/SidreState.v ===== *)
(** * The object store of Sidre

    Sidre's objects ([Buffer], [View], [Group], [DataStore] of
    [src/axom/sidre/core]) point to each other; their state is one record of heaps,
    [DS], in which a pointer is a key.  Objects are never given the key of a deleted
    one, and an operation that dereferences a null or dangling pointer, frees memory
    that is not allocated or hits a fatal [SLIC_ERROR] is [None].  [SLIC_CHECK] and
    [SLIC_ASSERT] only log in the builds that are modelled.

    Two libraries outside the repository are parameters: Conduit, whose data types
    describe arrays, and the memory allocator behind [axom::allocate]. *)

From S2P Require Import Prelude SidreCollections.

Module Sidre.
Import Collections.

(** ** Conduit and the allocator *)

(** The operations of [conduit::DataType] and [conduit::Node] Sidre uses. *)
Class Conduit := {
  DataType : Type;
  Value : Type;
  EMPTY_ID : Z;
  dt_empty : DataType;
  dt_id : DataType -> Z;
  number_of_elements : DataType -> Z;
  element_bytes : DataType -> Z;
  strided_bytes : DataType -> Z;
  dt_offset : DataType -> Z;
  dt_stride : DataType -> Z;
  valid_type : Z -> Prop;   (** the ids of the leaf types *)
  default_dtype : Z -> DataType;
  set_number_of_elements : DataType -> Z -> DataType;
  set_offset : DataType -> Z -> DataType;
  set_stride : DataType -> Z -> DataType;
  value_dtype : Value -> DataType
}.

(** The behaviour of Conduit that Sidre relies on. *)
Class ConduitLaws `{Conduit} : Prop := {
  empty_id : dt_id dt_empty = EMPTY_ID;
  set_number_of_elements_id d n : dt_id (set_number_of_elements d n) = dt_id d;
  valid_type_id t : valid_type t -> dt_id (default_dtype t) = t /\ t <> EMPTY_ID;
  number_of_elements_set d n : number_of_elements (set_number_of_elements d n) = n;
  default_strided_bytes t n :
    valid_type t -> 0 <= n ->
    strided_bytes (set_number_of_elements (default_dtype t) n) = n * element_bytes (default_dtype t);
  element_bytes_nonneg d : 0 <= element_bytes d;
  value_described v : dt_id (value_dtype v) <> EMPTY_ID
}.

(** Live memory blocks and their bytes, by base address. *)
Notation Mem := (gmap Z (list Z)).

(** The allocator: an address and the initial bytes, or failure. *)
Class Allocator := { alloc : Mem -> Z -> option (Z * list Z) }.

Class AllocatorLaws `{Allocator} : Prop := {
  alloc_fresh m n a bs : alloc m n = Some (a, bs) -> a <> 0 /\ m !! a = None /\ Z.of_nat (length bs) = n
}.

(** ** Objects *)

Inductive State := EMPTY | BUFFER | EXTERNAL | SCALAR | STRING.

#[export] Instance State_eq_dec : EqDecision State.
Proof. solve_decision. Defined.

Notation ptr := positive.

Section objects.
Context `{Conduit}.

Definition NO_TYPE_ID : Z := EMPTY_ID.
Definition is_empty (d : DataType) : bool := dt_id d =? EMPTY_ID.

(** The node of a view: reset, describing memory it does not own, or holding the
    value of a scalar or a string. *)
Inductive Node := NEmpty | NExternal (d : DataType) (data : Z) | NValue (v : Value).

Definition node_dtype (n : Node) : DataType :=
  match n with NEmpty => dt_empty | NExternal d _ => d | NValue v => value_dtype v end.

Record Buffer := mkBuffer {
  b_index : Z;
  b_views : gset ptr;
  b_dtype : DataType;   (** [m_node.dtype()] *)
  b_data : Z            (** [m_node.data_ptr()], 0 when null *)
}.

Record View := mkView {
  m_name : string;
  m_index : Z;
  m_owning_group : option ptr;
  m_data_buffer : option ptr;
  m_schema : DataType;
  m_node : Node;
  m_shape : list Z;
  m_external_ptr : Z;
  m_state : State;
  m_is_applied : bool
}.

(** The collections of a group are of the class its list flag says. *)
Inductive Coll :=
  | CMap (c : MapCollection.t ptr)
  | CList (c : ListCollection.t ptr).

Record Group := mkGroup {
  g_name : string;
  g_index : Z;
  g_parent : option ptr;
  g_is_list : bool;
  g_views : Coll;
  g_groups : Coll
}.

Record DS := mkDS {
  bufs : gmap ptr Buffer;
  views : gmap ptr View;
  groups : gmap ptr Group;
  mem : Mem;
  next_ptr : ptr;
  buffer_coll : IndexedCollection.t ptr;
  m_RootGroup : ptr
}.

(** ** Updates of the state *)

Definition set_buf (s : DS) (p : ptr) (b : Buffer) : DS :=
  mkDS (<[p := b]> (bufs s)) (views s) (groups s) (mem s) (next_ptr s) (buffer_coll s) (m_RootGroup s).
Definition set_view (s : DS) (p : ptr) (v : View) : DS :=
  mkDS (bufs s) (<[p := v]> (views s)) (groups s) (mem s) (next_ptr s) (buffer_coll s) (m_RootGroup s).
Definition set_group (s : DS) (p : ptr) (g : Group) : DS :=
  mkDS (bufs s) (views s) (<[p := g]> (groups s)) (mem s) (next_ptr s) (buffer_coll s) (m_RootGroup s).
Definition set_mem (s : DS) (m : Mem) : DS :=
  mkDS (bufs s) (views s) (groups s) m (next_ptr s) (buffer_coll s) (m_RootGroup s).
Definition set_buffer_coll (s : DS) (c : IndexedCollection.t ptr) : DS :=
  mkDS (bufs s) (views s) (groups s) (mem s) (next_ptr s) c (m_RootGroup s).
Definition new_buf (s : DS) (b : Buffer) : DS * ptr :=
  (mkDS (<[next_ptr s := b]> (bufs s)) (views s) (groups s) (mem s) (Pos.succ (next_ptr s))
     (buffer_coll s) (m_RootGroup s), next_ptr s).
Definition new_view (s : DS) (v : View) : DS * ptr :=
  (mkDS (bufs s) (<[next_ptr s := v]> (views s)) (groups s) (mem s) (Pos.succ (next_ptr s))
     (buffer_coll s) (m_RootGroup s), next_ptr s).
Definition new_group (s : DS) (g : Group) : DS * ptr :=
  (mkDS (bufs s) (views s) (<[next_ptr s := g]> (groups s)) (mem s) (Pos.succ (next_ptr s))
     (buffer_coll s) (m_RootGroup s), next_ptr s).
Definition del_buf (s : DS) (p : ptr) : DS :=
  mkDS (delete p (bufs s)) (views s) (groups s) (mem s) (next_ptr s) (buffer_coll s) (m_RootGroup s).
Definition del_view (s : DS) (p : ptr) : DS :=
  mkDS (bufs s) (delete p (views s)) (groups s) (mem s) (next_ptr s) (buffer_coll s) (m_RootGroup s).
Definition del_group (s : DS) (p : ptr) : DS :=
  mkDS (bufs s) (views s) (delete p (groups s)) (mem s) (next_ptr s) (buffer_coll s) (m_RootGroup s).

(** ** Memory *)

(** [axom::copy], with [memcpy]: bytes [soff, soff + n) of block [src] to offset
    [doff] of block [dst]. *)
Definition mem_read (m : Mem) (a off n : Z) : option (list Z) :=
  blk ← m !! a;
  if (0 <=? off) && (0 <=? n) && (off + n <=? vsize blk)
  then Some (take (Z.to_nat n) (drop (Z.to_nat off) blk)) else None.

Definition mem_write (m : Mem) (a off : Z) (bs : list Z) : option Mem :=
  blk ← m !! a;
  if (0 <=? off) && (off + vsize bs <=? vsize blk)
  then Some (<[a := list_inserts (Z.to_nat off) bs blk]> m) else None.

Definition mem_copy (m : Mem) (dst doff src soff n : Z) : option Mem :=
  bs ← mem_read m src soff n; mem_write m dst doff bs.

(** [axom::deallocate]: freeing a pointer that is not allocated is an error. *)
Definition mem_free (m : Mem) (a : Z) : option Mem :=
  if a =? 0 then Some m else _ ← m !! a; Some (delete a m).

Context `{Allocator}.

(** [axom::allocate]: the null pointer when the allocator fails. *)
Definition mem_alloc (m : Mem) (n : Z) : Mem * Z :=
  match alloc m n with Some (a, bs) => (<[a := bs]> m, a) | None => (m, 0) end.

(** [axom::reallocate]: the bytes that fit are kept; a failed reallocation to a
    positive size leaves the old block in place, one to size zero has freed it. *)
Definition mem_realloc (m : Mem) (a n : Z) : option (Mem * Z) :=
  if a =? 0 then Some (mem_alloc m n) else
  old ← m !! a;
  match alloc (delete a m) n with
  | Some (a', bs) =>
    Some (<[a' := take (Z.to_nat n) old ++ drop (length old) bs]> (delete a m), a')
  | None => Some (if n =? 0 then delete a m else m, 0)
  end.

End objects.

End Sidre.
