(* ===== verification/SidreView.v ===== *)
(** * Buffers and views of Sidre

    [Buffer] ([Buffer.cpp], [Buffer.hpp]), the buffer part of [DataStore]
    ([DataStore.cpp]) and [View] ([View.cpp], [View.hpp]).  A view refers to data in
    one of five states; a view with a buffer and its buffer point to each other. *)

From S2P Require Import Prelude SidreCollections SidreState.

Module SidreView.
Import Collections Sidre.

Section SidreView.
Context `{Conduit} `{Allocator}.

(** [IndexType] is the default one, of 32 bits, where Conduit counts with 64: a result
    of Conduit that is returned or stored as an [IndexType] is converted with
    [to_int32], and a product of [IndexType] that overflows is [None]. *)

(** ** Buffer *)

Definition Buffer_new (uid : Z) : Buffer := mkBuffer uid ∅ dt_empty 0.

Definition Buffer_getNumViews (b : Buffer) : Z := Z.of_nat (size (b_views b)).
Definition Buffer_getTotalBytes (b : Buffer) : Z := to_int32 (strided_bytes (b_dtype b)).
Definition Buffer_getNumElements (b : Buffer) : Z := to_int32 (number_of_elements (b_dtype b)).
Definition Buffer_getTypeID (b : Buffer) : Z := dt_id (b_dtype b).
Definition Buffer_isAllocated (b : Buffer) : bool := negb (b_data b =? 0).
Definition Buffer_isDescribed (b : Buffer) : bool := negb (is_empty (b_dtype b)).

Definition with_data (b : Buffer) (d : DataType) (a : Z) : Buffer :=
  mkBuffer (b_index b) (b_views b) d a.
Definition with_views (b : Buffer) (vs : gset ptr) : Buffer :=
  mkBuffer (b_index b) vs (b_dtype b) (b_data b).

Definition Buffer_describe (s : DS) (p : ptr) (type num_elems : Z) : option DS :=
  b ← bufs s !! p;
  if Buffer_isAllocated b || (num_elems <? 0) then Some s else
  Some (set_buf s p (with_data b (set_number_of_elements (default_dtype type) num_elems) (b_data b))).

Definition Buffer_allocate0 (s : DS) (p : ptr) : option DS :=
  b ← bufs s !! p;
  if negb (Buffer_isDescribed b) || Buffer_isAllocated b then Some s else
  let '(m, data) := mem_alloc (mem s) (Buffer_getTotalBytes b) in
  let s := set_mem s m in
  if negb (data =? 0) then Some (set_buf s p (with_data b (b_dtype b) data)) else Some s.

Definition Buffer_allocate (s : DS) (p : ptr) (type num_elems : Z) : option DS :=
  b ← bufs s !! p;
  if Buffer_isAllocated b then Some s else
  s ← Buffer_describe s p type num_elems; Buffer_allocate0 s p.

Definition Buffer_reallocate (s : DS) (p : ptr) (num_elems : Z) : option DS :=
  b ← bufs s !! p;
  if negb (Buffer_isDescribed b) then Some s else
  if num_elems <? 0 then Some s else
  let dtype := set_number_of_elements (b_dtype b) num_elems in
  r ← mem_realloc (mem s) (b_data b) (to_int32 (strided_bytes dtype));
  let '(m, new_data_ptr) := r in
  let s := set_mem s m in
  if (num_elems =? 0) || negb (new_data_ptr =? 0) then Some (set_buf s p (with_data b dtype new_data_ptr))
  else Some s.

(** [View::unapply] and [View::setBufferViewToEmpty], which buffers call. *)
Definition unapply (v : View) : View :=
  mkView (m_name v) (m_index v) (m_owning_group v) (m_data_buffer v) (m_schema v) NEmpty (m_shape v)
    (m_external_ptr v) (m_state v) false.

Definition setBufferViewToEmpty (v : View) : View :=
  unapply (mkView (m_name v) (m_index v) (m_owning_group v) None (m_schema v) (m_node v) (m_shape v)
    (m_external_ptr v) EMPTY (m_is_applied v)).

(** A loop over the views of a buffer. *)
Definition for_views (f : View -> View) (s : DS) (vs : gset ptr) : option DS :=
  foldl (fun acc q => s ← acc; v ← views s !! q; Some (set_view s q (f v))) (Some s) (elements vs).

Definition Buffer_deallocate (s : DS) (p : ptr) : option DS :=
  b ← bufs s !! p;
  if negb (Buffer_isAllocated b) then Some s else
  m ← mem_free (mem s) (b_data b);
  let s := set_buf (set_mem s m) p (with_data b (b_dtype b) 0) in
  for_views unapply s (b_views b).

(** [copyBytesIntoBuffer(src, nbytes)], from offset 0 of the block [src]. *)
Definition Buffer_copyBytesIntoBuffer (s : DS) (p : ptr) (src nbytes : Z) : option DS :=
  b ← bufs s !! p;
  if (src =? 0) || (nbytes <? 0) || (Buffer_getTotalBytes b <? nbytes) then Some s else
  m ← mem_copy (mem s) (b_data b) 0 src 0 nbytes; Some (set_mem s m).

Definition Buffer_attachToView (s : DS) (p v : ptr) : option DS :=
  b ← bufs s !! p; vw ← views s !! v;
  if bool_decide (m_data_buffer vw = Some p) then Some (set_buf s p (with_views b ({[v]} ∪ b_views b)))
  else Some s.

Definition Buffer_detachFromView (s : DS) (p v : ptr) : option DS :=
  b ← bufs s !! p; vw ← views s !! v;
  if bool_decide (m_data_buffer vw = Some p) && bool_decide (v ∈ b_views b) then
    Some (set_view (set_buf s p (with_views b (b_views b ∖ {[v]}))) v (setBufferViewToEmpty vw))
  else Some s.

Definition Buffer_detachFromAllViews (s : DS) (p : ptr) : option DS :=
  b ← bufs s !! p;
  s ← for_views setBufferViewToEmpty s (b_views b);
  b ← bufs s !! p; Some (set_buf s p (with_views b ∅)).

(** [~Buffer] and [delete]. *)
Definition Buffer_delete (s : DS) (p : ptr) : option DS :=
  b ← bufs s !! p; m ← mem_free (mem s) (b_data b); Some (del_buf (set_mem s m) p).

(** ** The buffers of the DataStore *)

Definition getNumBuffers (s : DS) : Z := IndexedCollection.getNumItems (buffer_coll s).
Definition hasBuffer_idx (s : DS) (idx : Z) : bool := IndexedCollection.hasItem (buffer_coll s) idx.
Definition getBuffer_idx (s : DS) (idx : Z) : option ptr := IndexedCollection.getItem (buffer_coll s) idx.

(** The buffers in the order of iteration. *)
Definition buffers (s : DS) : option (list (Z * ptr)) :=
  iterate (S (S (length (IndexedCollection.m_items (buffer_coll s))))) (buffer_coll s).

Definition sum_buffers (f : Buffer -> Z) (s : DS) : option Z :=
  l ← buffers s;
  foldl (fun acc q => n ← acc; b ← bufs s !! q.2; int32 (n + f b)) (Some 0) l.

Definition getNumReferencedBuffers : DS -> option Z :=
  sum_buffers (fun b => if 0 <? Buffer_getNumViews b then 1 else 0).

Definition getTotalAllocatedBytesInBuffers : DS -> option Z :=
  sum_buffers (fun b => if Buffer_isAllocated b then Buffer_getTotalBytes b else 0).

Definition createBuffer (s : DS) : DS * ptr :=
  let '(c, newIndex) := IndexedCollection.getValidEmptyIndex (buffer_coll s) in
  let '(s, buff) := new_buf (set_buffer_coll s c) (Buffer_new newIndex) in
  let '(c, _) := IndexedCollection.insertItem_at (buffer_coll s) buff newIndex in
  (set_buffer_coll s c, buff).

Definition createBuffer_described (s : DS) (type num_elems : Z) : option (DS * ptr) :=
  let '(s, buffer) := createBuffer s in
  s ← Buffer_describe s buffer type num_elems; Some (s, buffer).

Definition destroyBuffer (s : DS) (buff : option ptr) : option DS :=
  match buff with
  | None => Some s
  | Some p =>
    s ← Buffer_detachFromAllViews s p;
    b ← bufs s !! p;
    let '(c, _) := IndexedCollection.removeItem (buffer_coll s) (b_index b) in
    Buffer_delete (set_buffer_coll s c) p
  end.

Definition destroyBuffer_idx (s : DS) (idx : Z) : option DS := destroyBuffer s (getBuffer_idx s idx).

Fixpoint destroyAllBuffers_loop (n : nat) (s : DS) (bidx : Z) : option DS :=
  match n with
  | O => None
  | S n =>
    if negb (indexIsValid bidx) then Some s else
    s ← destroyBuffer_idx s bidx;
    bidx ← IndexedCollection.getNextValidIndex (buffer_coll s) bidx;
    destroyAllBuffers_loop n s bidx
  end.

Definition destroyAllBuffers (s : DS) : option DS :=
  bidx ← IndexedCollection.getFirstValidIndex (buffer_coll s);
  destroyAllBuffers_loop (S (S (length (IndexedCollection.m_items (buffer_coll s))))) s bidx.

(** ** View: queries *)

Definition View_new (name : string) : View :=
  mkView name InvalidIndex None None dt_empty NEmpty [] 0 EMPTY false.

Definition hasBuffer (v : View) : bool := bool_decide (is_Some (m_data_buffer v)).
Definition isDescribed (v : View) : bool := negb (is_empty (m_schema v)).
Definition isExternal (v : View) : bool := bool_decide (m_state v = EXTERNAL).
Definition isEmpty (v : View) : bool := bool_decide (m_state v = EMPTY).
Definition isOpaque (v : View) : bool := isExternal v && negb (m_is_applied v).
Definition isScalar (v : View) : bool := bool_decide (m_state v = SCALAR).
Definition isString (v : View) : bool := bool_decide (m_state v = STRING).
Definition getTypeID (v : View) : Z := if isDescribed v then dt_id (m_schema v) else NO_TYPE_ID.
Definition getTotalBytes (v : View) : Z := to_int32 (strided_bytes (m_schema v)).
Definition getNumElements (v : View) : Z := to_int32 (number_of_elements (m_schema v)).
Definition getBytesPerElement (v : View) : Z := to_int32 (element_bytes (m_schema v)).
Definition getNumDimensions (v : View) : Z := Z.of_nat (length (m_shape v)).

(** [getOffset] and [getStride]; a byte count that is not a multiple of the element
    size is a fatal error. *)
Definition in_elements (v : View) (bytes : Z) : option Z :=
  let bytes_per_elem := getBytesPerElement v in
  if bytes_per_elem =? 0 then Some bytes else
  if negb (Z.rem bytes bytes_per_elem =? 0) then None else Some (Z.quot bytes bytes_per_elem).

Definition getOffset (v : View) : option Z :=
  if isDescribed v then in_elements v (to_int32 (dt_offset (m_schema v))) else Some 0.

Definition getStride (v : View) : option Z :=
  if isDescribed v then in_elements v (to_int32 (dt_stride (m_schema v))) else Some 1.

(** [getShape(ndims, shape)]: the return value and the array that is filled in. *)
Definition getShape (v : View) (ndims : Z) : Z * option (list Z) :=
  if wrap 32 ndims <? vsize (m_shape v) then (-1, None)
  else (vsize (m_shape v), Some (m_shape v ++ replicate (Z.to_nat (ndims - vsize (m_shape v))) 0)).

Definition isAllocated (s : DS) (v : View) : option bool :=
  match m_state v with
  | EMPTY => Some false
  | BUFFER =>
    if isDescribed v then p ← m_data_buffer v; b ← bufs s !! p; Some (Buffer_isAllocated b)
    else Some false
  | EXTERNAL | STRING | SCALAR => Some true
  end.

Definition isAllocateValid (s : DS) (v : View) : option bool :=
  match m_state v with
  | EMPTY => Some (isDescribed v)
  | STRING | SCALAR | EXTERNAL => Some false
  | BUFFER =>
    if isDescribed v then p ← m_data_buffer v; b ← bufs s !! p; Some (Buffer_getNumViews b =? 1)
    else Some false
  end.

Definition isApplyValid (s : DS) (v : View) : option bool :=
  if negb (isDescribed v) then Some false else
  match m_state v with
  | EMPTY | STRING | SCALAR => Some false
  | EXTERNAL => Some (isDescribed v)
  | BUFFER =>
    p ← m_data_buffer v; b ← bufs s !! p;
    Some ((0 <=? getTotalBytes v) && (getTotalBytes v <=? Buffer_getTotalBytes b))
  end.

(** The pointer to the data of a view: an address, or the storage of its node. *)
Inductive VoidPtr := Addr (a : Z) | NodeStorage (n : Node).

Definition node_data (n : Node) : VoidPtr :=
  match n with NExternal _ a => Addr a | NEmpty => Addr 0 | NValue _ => NodeStorage n end.

Definition getVoidPtr (v : View) : VoidPtr :=
  match m_state v with
  | EMPTY => Addr 0
  | EXTERNAL => if m_is_applied v then node_data (m_node v) else Addr (m_external_ptr v)
  | BUFFER => if m_is_applied v then node_data (m_node v) else Addr 0
  | STRING | SCALAR => node_data (m_node v)
  end.

Definition isEquivalentTo (v other : View) : bool :=
  bool_decide (m_name v = m_name other) && (getTypeID v =? getTypeID other) &&
  eqb (m_is_applied v) (m_is_applied other) && eqb (hasBuffer v) (hasBuffer other) &&
  (getTotalBytes v =? getTotalBytes other).

Definition isUpdateableFrom (v other : View) : option bool :=
  let valid_state := bool_decide (m_state v = BUFFER) || bool_decide (m_state v = EXTERNAL) in
  let other_valid_state := bool_decide (m_state other = BUFFER) || bool_decide (m_state other = EXTERNAL) in
  let same_length := getTotalBytes v =? getTotalBytes other in
  stride ← getStride v;
  unit_stride ← (if stride =? 1 then o ← getStride other; Some (o =? 1) else Some false);
  Some (valid_state && other_valid_state && same_length && unit_stride).

Definition getStateStringName (st : State) : string :=
  match st with
  | EMPTY => "EMPTY" | BUFFER => "BUFFER" | EXTERNAL => "EXTERNAL" | SCALAR => "SCALAR"
  | STRING => "STRING"
  end.

Definition getStateId (name : string) : State :=
  if bool_decide (name = "EMPTY") then EMPTY
  else if bool_decide (name = "BUFFER") then BUFFER
  else if bool_decide (name = "EXTERNAL") then EXTERNAL
  else if bool_decide (name = "SCALAR") then SCALAR
  else if bool_decide (name = "STRING") then STRING
  else EMPTY.

(** ** View: description *)

Definition set_description (v : View) (d : DataType) (shape : list Z) (applied : bool) : View :=
  mkView (m_name v) (m_index v) (m_owning_group v) (m_data_buffer v) d (m_node v) shape
    (m_external_ptr v) (m_state v) applied.

(** [describe(dtype)], with [describeShape()]. *)
Definition describe_dtype (v : View) (d : DataType) : View :=
  set_description v d [to_int32 (number_of_elements d)] false.

Definition describe (v : View) (type num_elems : Z) : View :=
  describe_dtype v (set_number_of_elements (default_dtype type) num_elems).

(** [describeShape(ndims, shape)] of an array with [ndims] entries. *)
Definition describeShape (v : View) (shape : list Z) : View :=
  set_description v (m_schema v) shape (m_is_applied v).

(** The number of elements of a shape. *)
Definition shape_elems (shape : list Z) : option Z :=
  match shape with
  | [] => Some 0
  | x :: l => foldl (fun acc y => num_elems ← acc; int32 (num_elems * y)) (Some x) l
  end.

(** [describe(type, ndims, shape)]; the argument [None] is the null pointer.  An
    array argument has [ndims] entries. *)
Definition describe_shape (v : View) (type : Z) (shape : option (list Z)) : option View :=
  match shape with
  | None => Some v
  | Some sh => num_elems ← shape_elems sh; Some (describeShape (describe v type num_elems) sh)
  end.

Definition undescribe (v : View) : View := set_description v dt_empty [] (m_is_applied v).

(** ** View: operations that change the state *)

Definition View_apply (s : DS) (p : ptr) : option DS :=
  v ← views s !! p;
  valid ← isApplyValid s v;
  if negb valid then Some s else
  data_pointer ← (match m_data_buffer v with
                  | Some q => b ← bufs s !! q; Some (b_data b)
                  | None => Some (m_external_ptr v)
                  end);
  Some (set_view s p (mkView (m_name v) (m_index v) (m_owning_group v) (m_data_buffer v) (m_schema v)
    (NExternal (m_schema v) data_pointer) (m_shape v) (m_external_ptr v) (m_state v) true)).

(** A view with a new buffer and state. *)
Definition set_buffer_state (v : View) (b : option ptr) (st : State) : View :=
  mkView (m_name v) (m_index v) (m_owning_group v) b (m_schema v) (m_node v) (m_shape v)
    (m_external_ptr v) st (m_is_applied v).

Definition View_allocate0 (s : DS) (p : ptr) : option DS :=
  v ← views s !! p;
  valid ← isAllocateValid s v;
  if negb valid then Some s else
  s ← (if bool_decide (m_state v = EMPTY) then
         _ ← m_owning_group v;
         let '(s, b) := createBuffer s in
         let s := set_view s p (set_buffer_state v (Some b) (m_state v)) in
         s ← Buffer_attachToView s b p;
         v ← views s !! p; Some (set_view s p (set_buffer_state v (m_data_buffer v) BUFFER))
       else Some s);
  v ← views s !! p;
  b ← m_data_buffer v;
  s ← Buffer_allocate s b (dt_id (m_schema v)) (to_int32 (number_of_elements (m_schema v)));
  View_apply s p.

Definition View_allocate (s : DS) (p : ptr) (type num_elems : Z) : option DS :=
  if (type =? NO_TYPE_ID) || (num_elems <? 0) then Some s else
  v ← views s !! p; View_allocate0 (set_view s p (describe v type num_elems)) p.

(** The product of the shape, stopping at the first value that is not positive. *)
Fixpoint shape_product (n : Z) (shape : list Z) : option Z :=
  match shape with
  | [] => Some n
  | x :: l => n ← int32 (n * x); if n <=? 0 then Some n else shape_product n l
  end.

Definition View_allocate_shape (s : DS) (p : ptr) (type : Z) (shape : option (list Z)) : option DS :=
  match shape with
  | None => Some s
  | Some sh =>
    num_elems ← shape_product 1 sh;
    if (0 <? vsize sh) && (0 <? num_elems) && negb (type =? NO_TYPE_ID) then
      v ← views s !! p; v ← describe_shape v type shape; View_allocate0 (set_view s p v) p
    else Some s
  end.

Definition View_allocate_dtype (s : DS) (p : ptr) (d : DataType) : option DS :=
  if is_empty d then Some s else
  v ← views s !! p; View_allocate0 (set_view s p (describe_dtype v d)) p.

Definition View_reallocate (s : DS) (p : ptr) (num_elems : Z) : option DS :=
  v ← views s !! p;
  let vtype := dt_id (m_schema v) in
  if num_elems <? 0 then Some s else
  valid ← isAllocateValid s v;
  if negb valid then Some s else
  if bool_decide (m_state v = EMPTY) then View_allocate s p vtype num_elems else
  q ← m_data_buffer v; b ← bufs s !! q;
  if Buffer_isAllocated b then
    s ← Buffer_reallocate (set_view s p (describe v vtype num_elems)) q num_elems; View_apply s p
  else View_allocate s p vtype num_elems.

Definition View_deallocate (s : DS) (p : ptr) : option DS :=
  v ← views s !! p;
  valid ← isAllocateValid s v;
  if negb valid then Some s else
  match m_data_buffer v with Some q => Buffer_deallocate s q | None => Some s end.

Definition View_reallocate_dtype (s : DS) (p : ptr) (d : DataType) : option DS :=
  v ← views s !! p;
  allocated ← isAllocated s v;
  if negb allocated then View_allocate_dtype s p d else
  valid ← isAllocateValid s v;
  if is_empty d || negb valid || negb (dt_id d =? dt_id (m_schema v)) then Some s else
  q ← m_data_buffer v;
  s ← Buffer_reallocate (set_view s p (describe_dtype v d)) q (to_int32 (number_of_elements d)); View_apply s p.

Definition View_detachBuffer (s : DS) (p : ptr) : option (DS * option ptr) :=
  v ← views s !! p;
  if bool_decide (m_state v = BUFFER) then
    q ← m_data_buffer v; s ← Buffer_detachFromView s q p; Some (s, Some q)
  else Some (s, None).

Definition View_attachBuffer (s : DS) (p : ptr) (buff : option ptr) : option DS :=
  v ← views s !! p;
  match m_state v, buff with
  | BUFFER, None =>
    r ← View_detachBuffer s p;
    let '(s, old) := r in
    q ← old; b ← bufs s !! q;
    s ← (if Buffer_getNumViews b =? 0 then _ ← m_owning_group v; destroyBuffer s (Some q) else Some s);
    v ← views s !! p; Some (set_view s p (unapply v))
  | EMPTY, Some q =>
    let s := set_view s p (set_buffer_state v (Some q) (m_state v)) in
    s ← Buffer_attachToView s q p;
    v ← views s !! p;
    let v := set_buffer_state v (m_data_buffer v) BUFFER in
    let s := set_view s p v in
    b ← bufs s !! q;
    if isDescribed v && Buffer_isAllocated b then View_apply s p else Some s
  | _, _ => Some s
  end.

Definition View_attachBuffer_described (s : DS) (p : ptr) (type num_elems : Z) (buff : option ptr)
    : option DS :=
  v ← views s !! p; View_attachBuffer (set_view s p (describe v type num_elems)) p buff.

Definition View_attachBuffer_shape (s : DS) (p : ptr) (type : Z) (shape : option (list Z))
    (buff : option ptr) : option DS :=
  match shape with
  | None => Some s
  | Some _ => v ← views s !! p; v ← describe_shape v type shape; View_attachBuffer (set_view s p v) p buff
  end.

Definition set_external (v : View) (a : Z) (st : State) : View :=
  mkView (m_name v) (m_index v) (m_owning_group v) (m_data_buffer v) (m_schema v) (m_node v) (m_shape v)
    a st (m_is_applied v).

Definition View_setExternalDataPtr (s : DS) (p : ptr) (external_ptr : Z) : option DS :=
  v ← views s !! p;
  match m_state v with
  | EMPTY | EXTERNAL =>
    if external_ptr =? 0 then Some (set_view s p (set_external (unapply v) 0 EMPTY)) else
    let v := set_external v external_ptr EXTERNAL in
    let s := set_view s p v in
    if isDescribed v then View_apply s p else Some s
  | _ => Some s
  end.

Definition View_setExternalDataPtr_described (s : DS) (p : ptr) (type num_elems external_ptr : Z)
    : option DS :=
  v ← views s !! p; View_setExternalDataPtr (set_view s p (describe v type num_elems)) p external_ptr.

Definition View_setExternalDataPtr_shape (s : DS) (p : ptr) (type : Z) (shape : option (list Z))
    (external_ptr : Z) : option DS :=
  match shape with
  | None => Some s
  | Some _ =>
    v ← views s !! p; v ← describe_shape v type shape; View_setExternalDataPtr (set_view s p v) p external_ptr
  end.

(** [setScalar] and [setString] differ in the state they need and set. *)
Definition set_value (v : View) (st : State) (value : Value) : View :=
  mkView (m_name v) (m_index v) (m_owning_group v) (m_data_buffer v) (value_dtype value) (NValue value)
    [to_int32 (number_of_elements (value_dtype value))] (m_external_ptr v) st true.

Definition View_setScalar (s : DS) (p : ptr) (value : Value) : option DS :=
  v ← views s !! p;
  match m_state v with EMPTY | SCALAR => Some (set_view s p (set_value v SCALAR value)) | _ => Some s end.

Definition View_setString (s : DS) (p : ptr) (value : Value) : option DS :=
  v ← views s !! p;
  match m_state v with EMPTY | STRING => Some (set_view s p (set_value v STRING value)) | _ => Some s end.

(** [clear]; the attribute values, which it also clears, are not in the state. *)
Definition View_clear (s : DS) (p : ptr) : option DS :=
  v ← views s !! p;
  s ← (match m_state v with
       | EMPTY => Some s
       | BUFFER => View_attachBuffer s p None
       | EXTERNAL => View_setExternalDataPtr s p 0
       | STRING | SCALAR => Some (set_view s p (unapply v))
       end);
  v ← views s !! p;
  let v := undescribe v in
  Some (set_view s p (set_buffer_state v (m_data_buffer v) EMPTY)).

(** [apply(num_elems, offset, stride)]. *)
Definition View_apply_elems (s : DS) (p : ptr) (num_elems offset stride : Z) : option DS :=
  if num_elems <? 0 then Some s else
  v ← views s !! p;
  d ← (if is_empty (m_schema v) then
         q ← m_data_buffer v; b ← bufs s !! q; Some (default_dtype (Buffer_getTypeID b))
       else Some (m_schema v));
  let bytes_per_elem := element_bytes d in
  let d := set_number_of_elements d num_elems in
  let d := set_offset d (offset * bytes_per_elem) in
  let d := set_stride d (stride * bytes_per_elem) in
  View_apply (set_view s p (describe_dtype v d)) p.

Definition View_apply_type (s : DS) (p : ptr) (type num_elems offset stride : Z) : option DS :=
  if (type =? NO_TYPE_ID) || (num_elems <? 0) then Some s else
  v ← views s !! p;
  let d := default_dtype type in
  let bytes_per_elem := element_bytes d in
  let d := set_number_of_elements d num_elems in
  let d := set_offset d (offset * bytes_per_elem) in
  let d := set_stride d (stride * bytes_per_elem) in
  View_apply (set_view s p (describe_dtype v d)) p.

Definition View_apply_shape (s : DS) (p : ptr) (type : Z) (shape : option (list Z)) : option DS :=
  match shape with
  | None => Some s
  | Some sh =>
    if (type =? NO_TYPE_ID) || (vsize sh <? 1) then Some s else
    v ← views s !! p; v ← describe_shape v type shape; View_apply (set_view s p v) p
  end.

Definition View_apply_dtype (s : DS) (p : ptr) (d : DataType) : option DS :=
  if is_empty d then Some s else
  v ← views s !! p; View_apply (set_view s p (describe_dtype v d)) p.

Definition View_updateFrom (s : DS) (p other : ptr) : option DS :=
  v ← views s !! p; o ← views s !! other;
  ok ← isUpdateableFrom v o;
  if negb ok then Some s else
  doff ← getOffset v; soff ← getOffset o;
  match getVoidPtr v, getVoidPtr o with
  | Addr d, Addr a =>
    dst ← int32 (doff * getBytesPerElement v); src ← int32 (soff * getBytesPerElement o);
    m ← mem_copy (mem s) d dst a src (getTotalBytes v);
    Some (set_mem s m)
  | _, _ => None
  end.

(** [~View] and [delete]. *)
Definition View_delete (s : DS) (p : ptr) : option DS :=
  v ← views s !! p;
  s ← (match m_data_buffer v with Some q => Buffer_detachFromView s q p | None => Some s end);
  Some (del_view s p).

(** [View::copyView(copy)]. *)
Definition View_copyView (s : DS) (p copy : ptr) : option DS :=
  v ← views s !! p; c ← views s !! copy;
  let s := set_view s copy (if isDescribed v then describe_dtype c (m_schema v) else c) in
  match m_state v with
  | EMPTY => Some s
  | STRING | SCALAR =>
    c ← views s !! copy;
    Some (set_view s copy (mkView (m_name c) (m_index c) (m_owning_group c) (m_data_buffer c) (m_schema c)
      (m_node v) (m_shape c) (m_external_ptr c) (m_state v) true))
  | EXTERNAL => View_setExternalDataPtr s copy (m_external_ptr v)
  | BUFFER => View_attachBuffer s copy (m_data_buffer v)
  end.

(** The element-wise copy of [deepCopyView], with [j = i * stride]. *)
Definition copy_elements (s : DS) (v c : View) : option DS :=
  stride ← getStride v; src_offset ← getOffset v; dst_offset ← getOffset c;
  let num_bytes := getBytesPerElement v in
  for_range 0 (getNumElements v) (fun i s =>
    match getVoidPtr c, getVoidPtr v with
    | Addr d, Addr a =>
      dst ← int32 (dst_offset + i); dst ← int32 (dst * num_bytes);
      src ← int32 (src_offset + i * stride); src ← int32 (src * num_bytes);
      m ← mem_copy (mem s) d dst a src num_bytes;
      _ ← int32 (i * stride + stride);
      Some (set_mem s m)
    | _, _ => None
    end) s.

Definition View_deepCopyView (s : DS) (p copy : ptr) : option DS :=
  v ← views s !! p; c ← views s !! copy;
  s ← (if isDescribed v then
         if hasBuffer v || isExternal v then View_allocate_shape s copy (getTypeID v) (Some (m_shape v))
         else c ← describe_shape c (getTypeID v) (Some (m_shape v)); Some (set_view s copy c)
       else Some s);
  c ← views s !! copy;
  match m_state v with
  | EMPTY => Some s
  | STRING | SCALAR =>
    Some (set_view s copy (mkView (m_name c) (m_index c) (m_owning_group c) (m_data_buffer c) (m_schema c)
      (m_node v) (m_shape c) (m_external_ptr c) (m_state v) true))
  | EXTERNAL | BUFFER =>
    v_alloc ← isAllocated s v;
    c_alloc ← isAllocated s c;
    s ← (if (v_alloc : bool) && negb c_alloc then View_allocate0 s copy else Some s);
    s ← (if m_is_applied v then View_apply s copy else Some s);
    c ← views s !! copy;
    if isExternal v || hasBuffer v then copy_elements s v c else Some s
  end.

(** [importArrayNode] of a numeric array with the bytes of its elements, compacted. *)
Definition View_importArrayNode (s : DS) (p : ptr) (type num_ele : Z) (bytes : list Z) : option DS :=
  v ← views s !! p;
  let s := if bool_decide (m_state v = BUFFER) then set_view s p (setBufferViewToEmpty v) else s in
  v ← views s !! p;
  if bool_decide (m_state v = EMPTY) then
    _ ← m_owning_group v;
    let '(s, buff) := createBuffer s in
    s ← Buffer_allocate s buff type (to_int32 num_ele);
    b ← bufs s !! buff;
    m ← (if (num_ele <=? 0) then Some (mem s) else mem_write (mem s) (b_data b) 0 bytes);
    s ← View_attachBuffer (set_mem s m) p (Some buff);
    View_apply_type s p type (to_int32 num_ele) 0 1
  else Some s.

End SidreView.

End SidreView.
