(* ===== verification/SidreViewProofs.v ===== *)
(** * The invariant of Sidre's buffers and views

    Every buffer and view operation, called on live objects, returns (it neither
    dereferences a dangling pointer nor frees memory twice) and keeps the
    invariant below. *)

From S2P Require Import Prelude SidreCollections SidreState SidreView.

Module SidreInv.
Import Collections Sidre SidreView.

Section SidreInv.
Context `{Conduit} `{!ConduitLaws} `{Allocator} `{!AllocatorLaws}.
Implicit Types (s : DS) (v : View) (b : Buffer) (p q : ptr).

(** ** The invariant *)

(** What a view in the store satisfies: it has a buffer exactly in state [BUFFER],
    and its buffer knows it; an external pointer exactly in state [EXTERNAL]; a
    value in its node in states [SCALAR] and [STRING]; and it is applied only when it
    is described and not empty. *)
Record view_ok (s : DS) (p : ptr) (v : View) : Prop := {
  vo_buffer q : m_data_buffer v = Some q ->
    m_state v = BUFFER /\ exists b, bufs s !! q = Some b /\ p ∈ b_views b;
  vo_state : m_state v = BUFFER -> is_Some (m_data_buffer v);
  vo_external : m_external_ptr v <> 0 <-> m_state v = EXTERNAL;
  vo_empty : m_state v = EMPTY -> m_is_applied v = false;
  vo_applied : m_is_applied v = true -> isDescribed v = true;
  vo_ext_node : m_state v = EXTERNAL -> m_is_applied v = true ->
    m_node v = NExternal (m_schema v) (m_external_ptr v);
  vo_value : m_state v = SCALAR \/ m_state v = STRING -> exists x, m_node v = NValue x
}.

(** The buffers, their collection and the memory: a buffer sits at its index, and an
    allocated one owns a block of [getTotalBytes()] bytes. *)
Record data_inv (bs : gmap ptr Buffer) (c : IndexedCollection.t ptr) (m : Mem) : Prop := {
  di_coll : idx_inv c;
  di_small : vsize (IndexedCollection.m_items c) < 2 ^ 31;
  di_index p b : bs !! p = Some b -> item_at (IndexedCollection.m_items c) (b_index b) = Some p;
  di_items i p : item_at (IndexedCollection.m_items c) i = Some p ->
    exists b, bs !! p = Some b /\ b_index b = i;
  di_mem p b : bs !! p = Some b -> b_data b <> 0 ->
    exists blk, m !! b_data b = Some blk /\ vsize blk = Buffer_getTotalBytes b;
  di_own p q b c : bs !! p = Some b -> bs !! q = Some c -> b_data b <> 0 -> b_data b = b_data c -> p = q
}.

Record inv (s : DS) : Prop := {
  inv_next p : is_Some (bufs s !! p) \/ is_Some (views s !! p) \/ is_Some (groups s !! p) ->
    (p < next_ptr s)%positive;
  inv_views p v : views s !! p = Some v -> view_ok s p v;
  inv_attached p b q : bufs s !! p = Some b -> q ∈ b_views b ->
    exists v, views s !! q = Some v /\ m_data_buffer v = Some p;
  inv_data : data_inv (bufs s) (buffer_coll s) (mem s)
}.

(** The part of the state that belongs to the tree of groups. *)
Definition tree_part (v : View) : string * Z * option ptr := (m_name v, m_index v, m_owning_group v).

Record frame (s s' : DS) : Prop := {
  fr_groups : groups s' = groups s;
  fr_root : m_RootGroup s' = m_RootGroup s;
  fr_next : (next_ptr s <= next_ptr s')%positive;
  fr_views p : tree_part <$> views s' !! p = tree_part <$> views s !! p
}.

#[export] Instance frame_preorder : PreOrder frame.
Proof.
  split.
  - intros s. split; [done|done|lia|done].
  - intros s1 s2 s3 [? ? ? Hv1] [? ? ? Hv2]. split; [congruence|congruence|lia|].
    intros p. by rewrite Hv2, Hv1.
Qed.

(** A step that succeeds, keeps the invariant and leaves the tree alone. *)
Definition steps_to (s : DS) (r : option DS) : Prop := exists s', r = Some s' /\ inv s' /\ frame s s'.

Lemma steps_to_refl s : inv s -> steps_to s (Some s).
Proof. intros Hi. exists s. by split_and!. Qed.

(** Composition of steps: the second one may use what the first one left. *)
Lemma steps_to_bind s r (k : DS -> option DS) :
  steps_to s r -> (forall s', r = Some s' -> inv s' -> frame s s' -> steps_to s' (k s')) ->
  steps_to s (r ≫= k).
Proof.
  intros (s' & -> & Hi & Hf) Hk. destruct (Hk s' eq_refl Hi Hf) as (s2 & Hs2 & Hi2 & Hf2).
  exists s2. cbn. split_and!; [done|done|]. by trans s'.
Qed.

Lemma frame_view s s' p v :
  frame s s' -> views s !! p = Some v ->
  exists v', views s' !! p = Some v' /\ m_owning_group v' = m_owning_group v.
Proof.
  intros Hf Hv. pose proof (fr_views _ _ Hf p) as Hp. rewrite Hv in Hp.
  destruct (views s' !! p) as [v'|]; [|done]. cbn in Hp. injection Hp as _ _ Ho. eauto.
Qed.

(** ** Updating a view *)

Lemma view_ok_bufs s s' p v : bufs s' = bufs s -> view_ok s p v -> view_ok s' p v.
Proof. intros Heq Hv. split; try apply Hv. rewrite Heq. apply Hv. Qed.

(** A view may change as long as it keeps its buffer and stays well-formed. *)
Lemma set_view_ok s p v v' :
  inv s -> views s !! p = Some v -> m_data_buffer v' = m_data_buffer v -> tree_part v' = tree_part v ->
  view_ok s p v' -> steps_to s (Some (set_view s p v')).
Proof.
  intros Hi Hv Hb Ht Hok. exists (set_view s p v'). split_and!; [done| |].
  - split; cbn; try apply Hi.
    + intros q Hq. apply (inv_next s Hi). destruct Hq as [Hq|[Hq|Hq]]; [by left| |by right; right].
      right; left. destruct (decide (p = q)) as [<-|]; simplify_map_eq; done.
    + intros q w Hw. destruct (decide (p = q)) as [<-|Hne]; simplify_map_eq.
      * by apply (view_ok_bufs s).
      * apply (view_ok_bufs s); [done|]. by apply Hi.
    + intros q c w Hc Hw. destruct (inv_attached s Hi q c w Hc Hw) as (v0 & Hv0 & Hd).
      destruct (decide (p = w)) as [<-|Hne]; simplify_map_eq; eauto. exists v'. split; [done|congruence].
  - split; [done|done|cbn; lia|]. intros q. cbn. destruct (decide (p = q)) as [<-|].
    + rewrite lookup_insert_eq, Hv. cbn. by rewrite Ht.
    + by rewrite lookup_insert_ne.
Qed.

(** ** Descriptions *)

(** A view that is described anew is not applied and keeps everything else. *)
Lemma set_description_ok s p v d shape :
  view_ok s p v -> view_ok s p (set_description v d shape false).
Proof. intros Hv. split; cbn; try apply Hv; try done. Qed.

Lemma describe_dtype_step s p v d :
  inv s -> views s !! p = Some v -> steps_to s (Some (set_view s p (describe_dtype v d))).
Proof.
  intros Hi Hv. apply (set_view_ok s p v); try done. apply set_description_ok. by apply Hi.
Qed.

Lemma describe_step s p v t n :
  inv s -> views s !! p = Some v -> steps_to s (Some (set_view s p (describe v t n))).
Proof. apply describe_dtype_step. Qed.

(** The number of elements of a shape is an [IndexType]. *)
Definition shape_fits (sh : option (list Z)) : Prop :=
  forall l, sh = Some l -> Forall (fun x => - 2 ^ 31 <= x < 2 ^ 31) l /\ is_Some (shape_elems l).

Lemma describe_shape_step s p v t sh :
  inv s -> views s !! p = Some v -> shape_fits sh ->
  exists v', describe_shape v t sh = Some v' /\ m_owning_group v' = m_owning_group v /\
    steps_to s (Some (set_view s p v')).
Proof.
  intros Hi Hv Hsh. unfold describe_shape. destruct sh as [sh|].
  - destruct (Hsh sh eq_refl) as [_ [n ->]]. cbn [mbind option_bind]. eexists. split_and!; [done|done|].
    apply (set_view_ok s p v); try done. apply (set_description_ok s p v). by apply Hi.
  - exists v. split_and!; [done|done|]. apply (set_view_ok s p v); try done. by apply Hi.
Qed.

Lemma product_of_none l : foldl (fun acc y => n ← acc; int32 (n * y)) None l = None.
Proof. by induction l. Qed.

Lemma shape_product_total n l :
  is_Some (foldl (fun acc y => n ← acc; int32 (n * y)) (Some n) l) -> is_Some (shape_product n l).
Proof.
  revert n. induction l as [|x l IH]; intros n; [done|]. cbn [foldl shape_product mbind option_bind].
  destruct (int32 (n * x)) as [k|]; cbn [mbind option_bind]; [|by rewrite product_of_none].
  intros Hk. destruct (k <=? 0); [done|]. by apply IH.
Qed.

Lemma shape_fits_product sh : shape_fits (Some sh) -> is_Some (shape_product 1 sh).
Proof.
  intros Hsh. destruct (Hsh sh eq_refl) as [Hr He]. destruct sh as [|x sh]; [done|].
  apply Forall_cons in Hr as [Hx _]. cbn [shape_product]. rewrite Z.mul_1_l, int32_id by done.
  cbn [mbind option_bind]. destruct (x <=? 0); [done|]. by apply shape_product_total.
Qed.

Lemma unapply_ok s p v : m_state v <> SCALAR -> m_state v <> STRING -> view_ok s p v -> view_ok s p (unapply v).
Proof. intros Hn1 Hn2 Hv. split; cbn; try apply Hv; try done. intros [?|?]; done. Qed.

(** ** Applying a description *)

Lemma isApplyValid_total s p v :
  inv s -> views s !! p = Some v -> exists r, isApplyValid s v = Some r /\
    (r = true -> isDescribed v = true /\ (m_state v = BUFFER \/ m_state v = EXTERNAL)).
Proof.
  intros Hi Hv. unfold isApplyValid. destruct (isDescribed v) eqn:Hd; cbn [negb].
  2: { eexists. split; [done|]. done. }
  destruct (m_state v) eqn:Hst; try (eexists; split; [done|naive_solver]).
  destruct (vo_state s p v (inv_views s Hi p v Hv) Hst) as [q Hq]. rewrite Hq. cbn [mbind option_bind].
  destruct (vo_buffer s p v (inv_views s Hi p v Hv) q Hq) as (_ & b & -> & _). cbn [mbind option_bind].
  eexists. split; [done|]. naive_solver.
Qed.

Lemma apply_step s p v : inv s -> views s !! p = Some v -> steps_to s (View_apply s p).
Proof.
  intros Hi Hv. unfold View_apply. rewrite Hv. cbn [mbind option_bind].
  destruct (isApplyValid_total s p v Hi Hv) as (r & -> & Hr). cbn [mbind option_bind].
  destruct r; cbn [negb]; [|by apply steps_to_refl]. destruct (Hr eq_refl) as [Hd Hst].
  pose proof (inv_views s Hi p v Hv) as Hok.
  destruct (m_data_buffer v) as [q|] eqn:Hq.
  - destruct (vo_buffer s p v Hok q Hq) as (HB & b & Hb & Hin). rewrite Hb. cbn [mbind option_bind].
    apply (set_view_ok s p v); try done. destruct Hok. split; cbn; naive_solver congruence.
  - cbn [mbind option_bind]. apply (set_view_ok s p v); try done.
    destruct Hok. split; cbn; naive_solver congruence.
Qed.

(** ** Buffers: description and memory *)

Lemma set_mem_id s : set_mem s (mem s) = s.
Proof. by destruct s. Qed.

(** The views stay well-formed when buffers keep their set of views. *)
Lemma view_ok_set_buf s s' p b b' q v :
  bufs s !! p = Some b -> bufs s' = <[p := b']> (bufs s) -> b_views b ⊆ b_views b' ->
  view_ok s q v -> view_ok s' q v.
Proof.
  intros Hb Heq Hsub Hok. split; try apply Hok. intros q' Hq'.
  destruct (vo_buffer s q v Hok q' Hq') as (Hst & c & Hc & Hin). split; [done|]. rewrite Heq.
  destruct (decide (p = q')) as [<-|Hne]; simplify_map_eq; [exists b'; set_solver|eauto].
Qed.

(** A buffer may change its data type and memory block, if the block has the size
    [getTotalBytes()] gives and the blocks of the other buffers are left alone. *)
Lemma set_data_ok s p b d a m :
  inv s -> bufs s !! p = Some b ->
  (forall q c, q <> p -> bufs s !! q = Some c -> b_data c <> 0 ->
     m !! b_data c = mem s !! b_data c /\ b_data c <> a) ->
  (a <> 0 -> exists blk, m !! a = Some blk /\ vsize blk = to_int32 (strided_bytes d)) ->
  steps_to s (Some (set_buf (set_mem s m) p (with_data b d a))).
Proof.
  intros Hi Hb Hother Ha. eexists. split; [done|]. split; [|split; [done|done|cbn; lia|done]].
  split; cbn; try apply Hi.
  - intros q Hq. apply (inv_next s Hi). destruct Hq as [Hq|Hq]; [left|by right].
    destruct (decide (p = q)) as [<-|]; simplify_map_eq; done.
  - intros q v Hv. apply (view_ok_set_buf s _ p b (with_data b d a)); [done..|]. by apply Hi.
  - intros q c w Hc Hw. destruct (decide (p = q)) as [<-|]; simplify_map_eq.
    + by apply (inv_attached s Hi p b).
    + by apply (inv_attached s Hi q c).
  - destruct (inv_data s Hi) as [Hc Hsm Hix Hit Hm Ho]. split; [done|done|..].
    + intros q c Hq. destruct (decide (p = q)) as [<-|]; simplify_map_eq; by apply Hix.
    + intros i q Hq. destruct (Hit i q Hq) as (c & Hqc & Hci).
      destruct (decide (p = q)) as [<-|]; simplify_map_eq; eauto.
    + intros q c Hqc Hne. destruct (decide (p = q)) as [<-|Hpq]; simplify_map_eq; [by apply Ha|].
      destruct (Hother q c) as [-> _]; [done|done|done|]. by apply (Hm q).
    + intros q1 q2 c1 c2 Hc1 Hc2 Hne Heq.
      destruct (decide (p = q1)) as [<-|Hn1], (decide (p = q2)) as [<-|Hn2]; simplify_map_eq; [done|..].
      * destruct (Hother q2 c2) as [_ ?]; [done|done|congruence|]. congruence.
      * destruct (Hother q1 c1) as [_ ?]; [done|done|congruence|]. congruence.
      * by apply (Ho q1 q2 c1 c2).
Qed.

Lemma other_block s p q b c :
  inv s -> bufs s !! p = Some b -> bufs s !! q = Some c -> q <> p -> b_data c <> 0 -> b_data c <> b_data b.
Proof. intros Hi Hb Hc Hne Hd Heq. apply Hne. symmetry. by eapply (di_own _ _ _ (inv_data s Hi) p q b c); congruence. Qed.

Lemma block_live s p b : inv s -> bufs s !! p = Some b -> b_data b <> 0 -> is_Some (mem s !! b_data b).
Proof. intros Hi Hb Hd. destruct (di_mem _ _ _ (inv_data s Hi) p b Hb Hd) as (blk & -> & _). done. Qed.

Lemma buffer_describe_step s p b t n :
  inv s -> bufs s !! p = Some b -> steps_to s (Buffer_describe s p t n).
Proof.
  intros Hi Hb. unfold Buffer_describe. rewrite Hb. cbn [mbind option_bind].
  destruct (Buffer_isAllocated b) eqn:Ha; cbn [orb]; [by apply steps_to_refl|].
  destruct (n <? 0); [by apply steps_to_refl|].
  assert (b_data b = 0) as Hd by (unfold Buffer_isAllocated in Ha; lia).
  rewrite <- (set_mem_id s) at 2. apply set_data_ok; [done|done| |by rewrite Hd].
  intros q c Hq Hc Hne. split; [done|]. by eapply other_block.
Qed.

(** Allocation gives a block that no buffer owns. *)
Lemma mem_alloc_fresh s n m a :
  inv s -> mem_alloc (mem s) n = (m, a) ->
  (forall q c, bufs s !! q = Some c -> b_data c <> 0 -> m !! b_data c = mem s !! b_data c /\ b_data c <> a) /\
  (a <> 0 -> exists blk, m !! a = Some blk /\ vsize blk = n) /\ (a = 0 -> m = mem s).
Proof.
  intros Hi. unfold mem_alloc. destruct (alloc (mem s) n) as [[a' bs]|] eqn:E; intros [= <- <-].
  - apply alloc_fresh in E as (Ha & Hfree & Hlen). split_and!.
    + intros q c Hc Hne. destruct (block_live s q c Hi Hc Hne) as [blk Hblk].
      assert (b_data c <> a') by congruence. by rewrite lookup_insert_ne.
    + intros _. exists bs. by rewrite lookup_insert_eq.
    + done.
  - split_and!; [|done|done]. done.
Qed.

Lemma buffer_allocate0_step s p b :
  inv s -> bufs s !! p = Some b -> steps_to s (Buffer_allocate0 s p).
Proof.
  intros Hi Hb. unfold Buffer_allocate0. rewrite Hb. cbn [mbind option_bind].
  destruct (negb (Buffer_isDescribed b) || Buffer_isAllocated b); [by apply steps_to_refl|].
  destruct (mem_alloc (mem s) (Buffer_getTotalBytes b)) as [m a] eqn:E.
  destruct (mem_alloc_fresh s _ _ _ Hi E) as (Hoth & Hblk & Hz).
  destruct (Z.eqb_spec a 0) as [->|Hne]; cbn [negb].
  - rewrite Hz, set_mem_id by done. by apply steps_to_refl.
  - apply set_data_ok; [done|done| |done]. intros q c _. apply Hoth.
Qed.

Lemma buffer_describe_live s p t n s' q :
  Buffer_describe s p t n = Some s' -> is_Some (bufs s !! q) -> is_Some (bufs s' !! q).
Proof.
  unfold Buffer_describe. destruct (bufs s !! p) as [b|] eqn:Hb; [|done]. cbn [mbind option_bind].
  destruct (_ || _); intros [= <-]; [done|]. cbn. intros Hq.
  destruct (decide (p = q)) as [<-|]; simplify_map_eq; done.
Qed.

Lemma buffer_allocate_step s p b t n :
  inv s -> bufs s !! p = Some b -> steps_to s (Buffer_allocate s p t n).
Proof.
  intros Hi Hb. unfold Buffer_allocate. rewrite Hb. cbn [mbind option_bind].
  destruct (Buffer_isAllocated b); [by apply steps_to_refl|].
  apply steps_to_bind; [by eapply buffer_describe_step|]. intros s' Hs' Hi' _.
  destruct (buffer_describe_live _ _ _ _ _ p Hs') as [b' Hb']; [by rewrite Hb|].
  by eapply buffer_allocate0_step.
Qed.

Lemma mem_realloc_ok s p b n :
  inv s -> bufs s !! p = Some b -> 
  exists m a, mem_realloc (mem s) (b_data b) n = Some (m, a) /\
    (forall q c, q <> p -> bufs s !! q = Some c -> b_data c <> 0 ->
       m !! b_data c = mem s !! b_data c /\ b_data c <> a) /\
    (a <> 0 -> exists blk, m !! a = Some blk /\ vsize blk = n) /\
    (a = 0 -> n <> 0 -> m = mem s).
Proof.
  intros Hi Hb. unfold mem_realloc. destruct (Z.eqb_spec (b_data b) 0) as [Hd|Hd].
  { destruct (mem_alloc (mem s) n) as [m a] eqn:E. exists m, a.
    destruct (mem_alloc_fresh s _ _ _ Hi E) as (Hoth & Hblk & Hz). split_and!; [done| |done|naive_solver].
    intros q c _. apply Hoth. }
  destruct (block_live s p b Hi Hb Hd) as [old Hold]. rewrite Hold. cbn [mbind option_bind].
  destruct (alloc (delete (b_data b) (mem s)) n) as [[a bs]|] eqn:E.
  - apply alloc_fresh in E as (Ha & Hfree & Hlen). do 2 eexists. split; [done|]. split_and!.
    + intros q c Hq Hc Hne. pose proof (other_block s p q b c Hi Hb Hc Hq Hne) as Hbc.
      destruct (block_live s q c Hi Hc Hne) as [blk Hblk].
      assert (b_data c <> a) as Hca by (intros <-; rewrite lookup_delete_ne in Hfree; congruence).
      by rewrite lookup_insert_ne, lookup_delete_ne by congruence.
    + intros _. eexists. rewrite lookup_insert_eq. split; [done|].
      unfold vsize. rewrite length_app, length_take, length_drop. lia.
    + done.
  - do 2 eexists. split; [done|]. split_and!; [|done|].
    + intros q c Hq Hc Hne. pose proof (other_block s p q b c Hi Hb Hc Hq Hne) as Hbc.
      destruct (n =? 0); [by rewrite lookup_delete_ne by congruence|done].
    + intros _ Hn. by rewrite (proj2 (Z.eqb_neq n 0)).
Qed.

(** Some elements of a buffer have a size, also as an [IndexType]. *)
Definition sized (b : Buffer) (n : Z) : Prop :=
  0 < n -> to_int32 (strided_bytes (set_number_of_elements (b_dtype b) n)) <> 0.

Lemma buffer_reallocate_step s p b n :
  inv s -> bufs s !! p = Some b -> sized b n -> steps_to s (Buffer_reallocate s p n).
Proof.
  intros Hi Hb Hsz. unfold Buffer_reallocate. rewrite Hb. cbn [mbind option_bind].
  destruct (Buffer_isDescribed b); cbn [negb]; [|by apply steps_to_refl].
  destruct (Z.ltb_spec n 0); [by apply steps_to_refl|].
  destruct (mem_realloc_ok s p b (to_int32 (strided_bytes (set_number_of_elements (b_dtype b) n))) Hi Hb)
    as (m & a & -> & Hoth & Hblk & Hz). cbn [mbind option_bind].
  destruct (Z.eqb_spec n 0) as [->|Hn]; cbn [orb]; [by apply set_data_ok|].
  destruct (Z.eqb_spec a 0) as [->|Ha]; cbn [negb]; [|by apply set_data_ok].
  rewrite Hz, set_mem_id; [by apply steps_to_refl|done|]. apply Hsz. lia.
Qed.

(** A loop over views that keeps their buffers. *)
Definition keeps (f : View -> View) : Prop :=
  forall s p v, view_ok s p v -> m_data_buffer v <> None ->
    m_data_buffer (f v) = m_data_buffer v /\ tree_part (f v) = tree_part v /\ view_ok s p (f v).

Lemma unapply_keeps : keeps unapply.
Proof.
  intros s p v Hok Hd. split_and!; [done|done|]. destruct (m_data_buffer v) as [q|] eqn:Hq; [|done].
  destruct (vo_buffer s p v Hok q Hq) as [Hst _]. apply unapply_ok; [congruence|congruence|done].
Qed.

Lemma for_views_keeps f s (l : list ptr) :
  keeps f -> inv s ->
  (forall q, q ∈ l -> exists v, views s !! q = Some v /\ m_data_buffer v <> None) ->
  steps_to s (foldl (fun acc q => s ← acc; v ← views s !! q; Some (set_view s q (f v))) (Some s) l).
Proof.
  intros Hf. revert s. induction l as [|q l IH]; intros s Hi Hl; [by apply steps_to_refl|].
  cbn [foldl mbind option_bind]. destruct (Hl q) as (v & Hv & Hd); [left|]. rewrite Hv. cbn [mbind option_bind].
  destruct (Hf s q v (inv_views s Hi q v Hv) Hd) as (Hb & Ht & Hok).
  destruct (set_view_ok s q v (f v) Hi Hv Hb Ht Hok) as (s1 & [= <-] & Hi1 & Hf1).
  destruct (IH (set_view s q (f v)) Hi1) as (s2 & Hs2 & Hi2 & Hf2).
  { intros q' Hq'. cbn. destruct (decide (q = q')) as [<-|].
    - rewrite lookup_insert_eq. exists (f v). split; [done|congruence].
    - rewrite lookup_insert_ne by done. apply Hl. by right. }
  exists s2. split_and!; [done|done|]. by trans (set_view s q (f v)).
Qed.

Lemma attached_views s p b :
  inv s -> bufs s !! p = Some b ->
  forall q, q ∈ elements (b_views b) -> exists v, views s !! q = Some v /\ m_data_buffer v <> None.
Proof.
  intros Hi Hb q Hq%elem_of_elements. destruct (inv_attached s Hi p b q Hb Hq) as (v & Hv & Hd).
  exists v. split; [done|congruence].
Qed.

Lemma buffer_deallocate_step s p b : inv s -> bufs s !! p = Some b -> steps_to s (Buffer_deallocate s p).
Proof.
  intros Hi Hb. unfold Buffer_deallocate. rewrite Hb. cbn [mbind option_bind].
  destruct (Buffer_isAllocated b) eqn:Ha; cbn [negb]; [|by apply steps_to_refl].
  assert (b_data b <> 0) as Hd by (unfold Buffer_isAllocated in Ha; lia).
  unfold mem_free. rewrite (proj2 (Z.eqb_neq _ _)) by done.
  destruct (block_live s p b Hi Hb Hd) as [blk Hblk]. rewrite Hblk. cbn [mbind option_bind].
  destruct (set_data_ok s p b (b_dtype b) 0 (delete (b_data b) (mem s)) Hi Hb) as (s1 & [= <-] & Hi1 & Hf1).
  { intros q c Hq Hc Hne. pose proof (other_block s p q b c Hi Hb Hc Hq Hne).
    by rewrite lookup_delete_ne by congruence. }
  { done. }
  destruct (for_views_keeps unapply _ (elements (b_views b)) unapply_keeps Hi1) as (s2 & Hs2 & Hi2 & Hf2).
  { by apply (attached_views s p b). }
  exists s2. split_and!; [done|done|]. etrans; done.
Qed.

(** ** Attaching and detaching *)

Lemma data_inv_with_views bs c m q b vs :
  data_inv bs c m -> bs !! q = Some b -> data_inv (<[q := with_views b vs]> bs) c m.
Proof.
  intros [Hc Hsm Hix Hit Hm Ho] Hb. split; [done|done|..].
  - intros r d Hr. destruct (decide (q = r)) as [<-|]; simplify_map_eq; by apply Hix.
  - intros i r Hr. destruct (Hit i r Hr) as (d & Hd & Hi).
    destruct (decide (q = r)) as [<-|]; simplify_map_eq; eauto.
  - intros r d Hr Hne. destruct (decide (q = r)) as [<-|]; simplify_map_eq; [by apply (Hm q b)|by apply (Hm r d)].
  - intros r1 r2 d1 d2 H1' H2' Hne Heq. destruct (decide (q = r1)) as [<-|], (decide (q = r2)) as [<-|];
      simplify_map_eq; [done|..].
    + by apply (Ho q r2 b d2).
    + by apply (Ho r1 q d1 b).
    + by apply (Ho r1 r2 d1 d2).
Qed.

(** [p] gets buffer [q] in the view and in the buffer at once. *)
Lemma attach_ok s p v q b :
  inv s -> views s !! p = Some v -> m_state v = EMPTY -> bufs s !! q = Some b ->
  steps_to s (Some (set_view (set_buf s q (with_views b ({[p]} ∪ b_views b))) p
                      (set_buffer_state v (Some q) BUFFER))).
Proof.
  intros Hi Hv Hst Hb. pose proof (inv_views s Hi p v Hv) as Hok.
  set (v' := set_buffer_state v (Some q) BUFFER). set (b' := with_views b ({[p]} ∪ b_views b)).
  assert (m_data_buffer v = None) as Hnone.
  { destruct (m_data_buffer v) as [r|] eqn:Hr; [|done].
    destruct (vo_buffer s p v Hok r Hr). congruence. }
  eexists. split; [done|]. split.
  - split; cbn; try apply Hi.
    + intros r Hr. apply (inv_next s Hi). destruct (decide (q = r)) as [Eq|], (decide (p = r)) as [Ep|]; subst;
        simplify_map_eq; naive_solver.
    + intros r w Hw. destruct (decide (p = r)) as [<-|Hne]; simplify_map_eq.
      * split; cbn; [|done| |done|apply Hok|done|by intros [?|?]].
        -- intros q' [= <-]. split; [done|]. exists b'. rewrite lookup_insert_eq. split; [done|]. set_solver.
        -- rewrite (vo_external s p v Hok), Hst. done.
      * apply (view_ok_set_buf s _ q b b'); [done|done|set_solver|]. by apply Hi.
    + intros r c w Hc Hw. destruct (decide (q = r)) as [<-|Hne]; simplify_map_eq.
      * destruct (decide (p = w)) as [<-|Hpw]; [exists v'; by simplify_map_eq|].
        rewrite lookup_insert_ne by done. apply (inv_attached s Hi q b); [done|]. cbn in Hw. set_solver.
      * destruct (inv_attached s Hi r c w Hc Hw) as (w' & Hw' & Hd).
        destruct (decide (p = w)) as [<-|]; [congruence|]. rewrite lookup_insert_ne by done. eauto.
    + apply data_inv_with_views; [apply Hi|done].
  - split; [done|done|cbn; lia|]. intros r. cbn. destruct (decide (p = r)) as [<-|].
    + by rewrite lookup_insert_eq, Hv.
    + by rewrite lookup_insert_ne.
Qed.

Lemma setBufferViewToEmpty_ok s q v : m_external_ptr v = 0 -> view_ok s q (setBufferViewToEmpty v).
Proof.
  intros He. split; cbn; try done.
  by intros [?|?].
Qed.

Lemma buffer_view_external s p v q : view_ok s p v -> m_data_buffer v = Some q -> m_external_ptr v = 0.
Proof.
  intros Hok Hq. destruct (vo_buffer s p v Hok q Hq) as [Hst _].
  destruct (decide (m_external_ptr v = 0)) as [|Hne]; [done|].
  apply (vo_external s p v Hok) in Hne. congruence.
Qed.

Lemma detach_ok s p v q b :
  inv s -> views s !! p = Some v -> m_data_buffer v = Some q -> bufs s !! q = Some b ->
  steps_to s (Some (set_view (set_buf s q (with_views b (b_views b ∖ {[p]}))) p (setBufferViewToEmpty v))).
Proof.
  intros Hi Hv Hd Hb. pose proof (inv_views s Hi p v Hv) as Hok.
  pose proof (buffer_view_external s p v q Hok Hd) as Hext.
  eexists. split; [done|]. split.
  - split; cbn.
    + intros r Hr. apply (inv_next s Hi). destruct (decide (q = r)) as [Eq|], (decide (p = r)) as [Ep|]; subst;
        simplify_map_eq; naive_solver.
    + intros r w Hw. destruct (decide (p = r)) as [<-|Hne]; simplify_map_eq.
      * by apply setBufferViewToEmpty_ok.
      * pose proof (inv_views s Hi r w Hw) as Hokw. split; try apply Hokw. intros q' Hq'.
        destruct (vo_buffer s r w Hokw q' Hq') as (Hst & c & Hc & Hin). split; [done|]. cbn.
        destruct (decide (q = q')) as [<-|]; simplify_map_eq; [eexists; split; [done|]; cbn; set_solver|eauto].
    + intros r c w Hc Hw. destruct (decide (p = w)) as [<-|Hpw].
      * exfalso. destruct (decide (q = r)) as [<-|]; simplify_map_eq; [cbn in Hw; set_solver|].
        destruct (inv_attached s Hi r c p Hc Hw) as (v' & Hv' & Hd'). congruence.
      * rewrite lookup_insert_ne by done. destruct (decide (q = r)) as [<-|]; simplify_map_eq.
        -- apply (inv_attached s Hi q b); [done|]. cbn in Hw. set_solver.
        -- by apply (inv_attached s Hi r c).
    + apply data_inv_with_views; [apply Hi|done].
  - split; [done|done|cbn; lia|]. intros r. cbn. destruct (decide (p = r)) as [<-|].
    + by rewrite lookup_insert_eq, Hv.
    + by rewrite lookup_insert_ne.
Qed.

Lemma detachFromView_step s p v q :
  inv s -> views s !! p = Some v -> m_data_buffer v = Some q ->
  exists b, bufs s !! q = Some b /\
    Buffer_detachFromView s q p =
      Some (set_view (set_buf s q (with_views b (b_views b ∖ {[p]}))) p (setBufferViewToEmpty v)).
Proof.
  intros Hi Hv Hd. destruct (vo_buffer s p v (inv_views s Hi p v Hv) q Hd) as (_ & b & Hb & Hin).
  exists b. split; [done|]. unfold Buffer_detachFromView. rewrite Hb, Hv. cbn [mbind option_bind].
  by rewrite !bool_decide_true.
Qed.

(** The state after a loop over a set of views. *)
Lemma for_views_eq f s vs :
  (forall q, q ∈ vs -> is_Some (views s !! q)) ->
  exists vm, for_views f s vs =
      Some (mkDS (bufs s) vm (groups s) (mem s) (next_ptr s) (buffer_coll s) (m_RootGroup s)) /\
    forall q, vm !! q = if decide (q ∈ vs) then f <$> views s !! q else views s !! q.
Proof.
  intros Hvs. unfold for_views.
  assert (forall l s0, NoDup l -> (forall q, q ∈ l -> is_Some (views s0 !! q)) ->
    exists vm, foldl (fun acc q => s ← acc; v ← views s !! q; Some (set_view s q (f v))) (Some s0) l =
      Some (mkDS (bufs s0) vm (groups s0) (mem s0) (next_ptr s0) (buffer_coll s0) (m_RootGroup s0)) /\
    forall q, vm !! q = if decide (q ∈ l) then f <$> views s0 !! q else views s0 !! q) as Hgen.
  { induction l as [|x l IH]; intros s0 Hnd Hl.
    - exists (views s0). split; [by destruct s0|]. intros q. by rewrite decide_False by (apply not_elem_of_nil).
    - inversion_clear Hnd as [|? ? Hnin Hnd']. destruct (Hl x) as [v Hv]; [left|].
      cbn [foldl mbind option_bind]. rewrite Hv. cbn [mbind option_bind].
      destruct (IH (set_view s0 x (f v)) Hnd') as (vm & -> & Hvm).
      { intros q Hq. cbn. destruct (decide (x = q)) as [<-|]; [congruence|].
        rewrite lookup_insert_ne by done. apply Hl. by right. }
      exists vm. split; [done|]. intros q. rewrite Hvm. cbn. destruct (decide (x = q)) as [<-|Hne].
      + rewrite decide_False by done. rewrite decide_True by left. by rewrite lookup_insert_eq, Hv.
      + rewrite lookup_insert_ne by done. destruct (decide (q ∈ l)).
        * by rewrite decide_True by (by right).
        * rewrite decide_False; [done|]. intros [->|?]%elem_of_cons; done. }
  destruct (Hgen (elements vs) s) as (vm & -> & Hvm).
  { apply NoDup_elements. } { intros q Hq%elem_of_elements. by apply Hvs. }
  exists vm. split; [done|]. intros q. rewrite Hvm. destruct (decide (q ∈ vs)).
  - by rewrite decide_True by (by apply elem_of_elements).
  - by rewrite decide_False by (by rewrite elem_of_elements).
Qed.

Lemma data_inv_delete bs c m p b c' r m' :
  data_inv bs c m -> bs !! p = Some b -> IndexedCollection.removeItem c (b_index b) = (c', r) ->
  (forall q d, q <> p -> bs !! q = Some d -> b_data d <> 0 -> m' !! b_data d = m !! b_data d) ->
  data_inv (delete p bs) c' m'.
Proof.
  intros Hdi Hb Hrm Hm'. destruct Hdi as [Hc Hsm Hix Hit Hm Ho]. pose proof (Hix p b Hb) as Hat.
  pose proof (item_at_range _ _ _ Hat) as Hr.
  destruct (law_remove (CollectionLaws := IndexedCollection_laws) c (b_index b) c' r Hc Hsm ltac:(lia) Hrm)
    as (Hc' & _ & Hsz & Hat'). cbn in Hc', Hsz, Hat'. split; [done|lia|..].
  - intros q d [Hne Hq]%lookup_delete_Some. rewrite Hat', decide_False; [by apply Hix|].
    intros Heq. apply Hne. pose proof (Hix q d Hq) as Hq'. rewrite Heq in Hq'. congruence.
  - intros i q Hq. rewrite Hat' in Hq. case_decide as Hi; [done|].
    destruct (Hit i q Hq) as (d & Hd & Hdi). exists d. rewrite lookup_delete_ne; [done|]. intros ->. congruence.
  - intros q d [Hne Hq]%lookup_delete_Some Hd. rewrite (Hm' q d) by (done || congruence). by apply (Hm q).
  - intros q1 q2 d1 d2 [_ Hq1]%lookup_delete_Some [_ Hq2]%lookup_delete_Some. by apply Ho.
Qed.

Lemma destroyBuffer_step s p b :
  inv s -> bufs s !! p = Some b ->
  exists s', destroyBuffer s (Some p) = Some s' /\ inv s' /\ frame s s' /\ bufs s' !! p = None /\
    (forall q, q <> p -> bufs s' !! q = bufs s !! q) /\
    (forall q, views s' !! q = if decide (q ∈ b_views b) then setBufferViewToEmpty <$> views s !! q
                               else views s !! q) /\
    vsize (IndexedCollection.m_items (buffer_coll s')) = vsize (IndexedCollection.m_items (buffer_coll s)) /\
    forall i, item_at (IndexedCollection.m_items (buffer_coll s')) i =
      if decide (i = b_index b) then None else item_at (IndexedCollection.m_items (buffer_coll s)) i.
Proof.
  intros Hi Hb. cbn [destroyBuffer]. unfold Buffer_detachFromAllViews. rewrite Hb. cbn [mbind option_bind].
  destruct (for_views_eq setBufferViewToEmpty s (b_views b)) as (vm & -> & Hvm).
  { intros q Hq. destruct (inv_attached s Hi p b q Hb Hq) as (v & -> & _). done. }
  cbn [mbind option_bind bufs]. rewrite Hb. cbn [mbind option_bind]. cbn [bufs set_buf].
  rewrite lookup_insert_eq. cbn [mbind option_bind buffer_coll set_buf b_index with_views].
  destruct (IndexedCollection.removeItem (buffer_coll s) (b_index b)) as [c' r] eqn:Hrm.
  unfold Buffer_delete. cbn [bufs set_buf set_buffer_coll]. rewrite lookup_insert_eq.
  cbn [mbind option_bind set_buffer_coll set_buf mem b_data with_views].
  assert (exists m', mem_free (mem s) (b_data b) = Some m' /\
    forall q d, q <> p -> bufs s !! q = Some d -> b_data d <> 0 -> m' !! b_data d = mem s !! b_data d)
    as (m' & -> & Hm').
  { unfold mem_free. destruct (Z.eqb_spec (b_data b) 0) as [Hz|Hz]; [eauto|].
    destruct (block_live s p b Hi Hb Hz) as [blk ->]. cbn [mbind option_bind]. eexists. split; [done|].
    intros q d Hq Hd Hne. pose proof (other_block s p q b d Hi Hb Hd Hq Hne).
    by rewrite lookup_delete_ne by congruence. }
  cbn [mbind option_bind]. eexists. split; [done|].
  assert (delete p (<[p := with_views b ∅]> (bufs s)) = delete p (bufs s)) as Hdel
    by apply delete_insert_eq.
  unfold del_buf, set_mem. cbn [bufs views groups mem next_ptr buffer_coll m_RootGroup]. cbn. rewrite Hdel.
  pose proof (inv_data s Hi) as Hdi. pose proof (di_index _ _ _ Hdi p b Hb) as Hat.
  pose proof (item_at_range _ _ _ Hat) as Hr. pose proof (di_small _ _ _ Hdi) as Hsm.
  destruct (law_remove (CollectionLaws := IndexedCollection_laws) (buffer_coll s) (b_index b) c' r
    (di_coll _ _ _ Hdi) Hsm ltac:(lia) Hrm) as (_ & _ & Hsz & Hat').
  split_and!; [|split; [done|done|cbn; lia|]|apply lookup_delete_eq| |done|done|done].
  - split; cbn.
    + intros q Hq. apply (inv_next s Hi). destruct Hq as [[? [_ Hq]%lookup_delete_Some]|[Hq|Hq]]; [eauto| |eauto].
      right; left. rewrite Hvm in Hq. case_decide; [|done]. by destruct (views s !! q); [|destruct Hq].
    + intros q v Hv. rewrite Hvm in Hv. case_decide as Hin.
      * destruct (inv_attached s Hi p b q Hb Hin) as (w & Hw & Hd). rewrite Hw in Hv. injection Hv as <-.
        apply setBufferViewToEmpty_ok. by eapply (buffer_view_external s q w p); [apply Hi|].
      * pose proof (inv_views s Hi q v Hv) as Hok. split; try apply Hok. intros q' Hq'.
        destruct (vo_buffer s q v Hok q' Hq') as (Hst & d & Hd & Hind). split; [done|]. exists d. cbn.
        rewrite lookup_delete_ne; [done|]. intros ->. congruence.
    + intros q d w [Hne Hq]%lookup_delete_Some Hw.
      destruct (inv_attached s Hi q d w Hq Hw) as (v & Hv & Hd). exists v. rewrite Hvm, decide_False; [done|].
      intros Hin. destruct (inv_attached s Hi p b w Hb Hin) as (v' & Hv' & Hd'). congruence.
    + by eapply data_inv_delete.
  - intros q. cbn. rewrite Hvm. case_decide; [|done]. by destruct (views s !! q).
  - intros q Hq. by apply lookup_delete_ne.
Qed.

(** ** Creating buffers *)

(** There is room for another buffer. *)
Definition room (s : DS) : Prop := vsize (IndexedCollection.m_items (buffer_coll s)) + 1 < 2 ^ 31.

Lemma createBuffer_step s s' q :
  inv s -> room s -> createBuffer s = (s', q) ->
  inv s' /\ frame s s' /\ q = next_ptr s /\ views s' = views s /\ mem s' = mem s /\
  (exists idx, bufs s' = <[q := Buffer_new idx]> (bufs s)) /\ bufs s !! q = None /\
  vsize (IndexedCollection.m_items (buffer_coll s')) <=
    vsize (IndexedCollection.m_items (buffer_coll s)) + 1.
Proof.
  intros Hi Hroom. unfold createBuffer, room in *. pose proof (inv_data s Hi) as Hdi.
  destruct (IndexedCollection.getValidEmptyIndex (buffer_coll s)) as [c1 idx] eqn:E1.
  destruct (getValidEmptyIndex_spec _ _ _ (di_coll _ _ _ Hdi) (di_small _ _ _ Hdi) E1)
    as (Hc1 & Hit1 & Hr & Hn & _).
  cbn [new_buf set_buffer_coll bufs views groups mem next_ptr buffer_coll m_RootGroup].
  destruct (IndexedCollection.insertItem_at c1 (next_ptr s) idx) as [c2 r] eqn:E2. cbn.
  destruct (insertItem_at_spec c1 (next_ptr s) idx c2 r Hc1) as [Hc2 Hcase];
    [rewrite Hit1; lia|done|]. rewrite Hit1 in Hcase.
  destruct Hcase as [(_ & _ & [?|[? Hs]])|(-> & H0' & _ & Hv2 & Hat2)]; [lia|congruence|].
  intros [= <- <-]. cbn. assert (bufs s !! next_ptr s = None) as Hfresh.
  { destruct (bufs s !! next_ptr s) eqn:Hx; [|done].
    assert (next_ptr s < next_ptr s)%positive; [apply (inv_next s Hi); rewrite Hx; eauto|lia]. }
  split_and!; [|split; [done|done|cbn; lia|done]|done|done|done|eauto|done|lia].
  split; cbn.
  - intros p Hp. destruct (decide (next_ptr s = p)) as [<-|Hne]; [lia|].
    rewrite lookup_insert_ne in Hp by done. pose proof (inv_next s Hi p Hp). lia.
  - intros p v Hv. pose proof (inv_views s Hi p v Hv) as Hok. split; try apply Hok. intros q Hq.
    destruct (vo_buffer s p v Hok q Hq) as (Hst & b & Hb & Hin). split; [done|]. exists b. cbn.
    rewrite lookup_insert_ne; [done|congruence].
  - intros p b w Hb Hw. destruct (decide (next_ptr s = p)) as [<-|Hne]; simplify_map_eq; [set_solver|].
    by apply (inv_attached s Hi p b).
  - destruct Hdi as [Hc Hsm Hix Hit Hm Ho]. split; [done|lia|..].
    + intros p b Hb. destruct (decide (next_ptr s = p)) as [<-|Hne]; simplify_map_eq.
      * cbn. by rewrite Hat2, decide_True.
      * rewrite Hat2. pose proof (Hix p b Hb) as Hp. rewrite decide_False; [done|]. congruence.
    + intros i p Hp. rewrite Hat2 in Hp. case_decide as Hii; [injection Hp as <-; subst; simplify_map_eq; eauto|].
      destruct (Hit i p Hp) as (b & Hb & Hbi). exists b. rewrite lookup_insert_ne; [done|congruence].
    + intros p b Hb Hd. destruct (decide (next_ptr s = p)) as [<-|Hne]; simplify_map_eq. by apply (Hm p).
    + intros p1 p2 b1 b2 Hb1 Hb2 Hd Heq.
      destruct (decide (next_ptr s = p1)) as [<-|Hn1]; simplify_map_eq.
      destruct (decide (next_ptr s = p2)) as [<-|Hn2]; simplify_map_eq. by apply (Ho p1 p2 b1 b2).
Qed.

(** ** Attaching a buffer and allocating through a view *)

(** The two assignments and the bookkeeping call of [attachBuffer]. *)
Lemma attach_sequence s p v q b :
  inv s -> views s !! p = Some v -> m_state v = EMPTY -> bufs s !! q = Some b ->
  exists s1, Buffer_attachToView (set_view s p (set_buffer_state v (Some q) (m_state v))) q p = Some s1 /\
    views s1 !! p = Some (set_buffer_state v (Some q) EMPTY) /\
    set_view s1 p (set_buffer_state v (Some q) BUFFER) =
      set_view (set_buf s q (with_views b ({[p]} ∪ b_views b))) p (set_buffer_state v (Some q) BUFFER).
Proof.
  intros Hi Hv Hst Hb. unfold Buffer_attachToView. cbn [bufs set_view views]. rewrite Hb.
  cbn [mbind option_bind]. rewrite lookup_insert_eq. cbn [mbind option_bind set_buffer_state m_data_buffer].
  rewrite bool_decide_true by done. eexists. split; [done|]. rewrite Hst. split.
  - cbn. apply lookup_insert_eq.
  - unfold set_view, set_buf. cbn. by rewrite insert_insert_eq.
Qed.

(** [attachBuffer(nullptr)] on a view with a buffer: the view ends up empty, and the
    buffer is destroyed when it was its last view. *)
Lemma attachBuffer_null_step s p v :
  inv s -> views s !! p = Some v -> is_Some (m_owning_group v) -> m_state v = BUFFER ->
  exists s', View_attachBuffer s p None = Some s' /\ inv s' /\ frame s s' /\
    views s' !! p = Some (setBufferViewToEmpty v).
Proof.
  intros Hi Hv Hown Hst. unfold View_attachBuffer. rewrite Hv. cbn [mbind option_bind]. rewrite Hst.
  destruct (vo_state s p v (inv_views s Hi p v Hv) Hst) as [q Hq].
  destruct (detachFromView_step s p v q Hi Hv Hq) as (b & Hb & Hdet).
  unfold View_detachBuffer. rewrite Hv. cbn [mbind option_bind]. rewrite bool_decide_true by done.
  rewrite Hq. cbn [mbind option_bind]. rewrite Hdet. cbn [mbind option_bind].
  destruct (detach_ok s p v q b Hi Hv Hq Hb) as (s1 & [= <-] & Hi1 & Hf1).
  set (s1 := set_view (set_buf s q (with_views b (b_views b ∖ {[p]}))) p (setBufferViewToEmpty v)) in *.
  assert (bufs s1 !! q = Some (with_views b (b_views b ∖ {[p]}))) as Hb1 by (cbn; apply lookup_insert_eq).
  rewrite Hb1. cbn [mbind option_bind]. destruct Hown as [g Hg]. rewrite Hg. cbn [mbind option_bind].
  assert (forall s2, inv s2 -> frame s s2 -> views s2 !! p = Some (setBufferViewToEmpty v) ->
    exists s', (v ← views s2 !! p; Some (set_view s2 p (unapply v))) = Some s' /\ inv s' /\ frame s s' /\
      views s' !! p = Some (setBufferViewToEmpty v)) as Hend.
  { intros s2 Hi2 Hf2 Hv2. rewrite Hv2. cbn [mbind option_bind].
    destruct (set_view_ok s2 p _ (unapply (setBufferViewToEmpty v)) Hi2 Hv2) as (s3 & [= <-] & Hi3 & Hf3);
      [done|done|by apply unapply_ok; [done..|apply Hi2]|].
    eexists. split; [done|]. split_and!; [done|by trans s2|cbn; apply lookup_insert_eq]. }
  assert (views s1 !! p = Some (setBufferViewToEmpty v)) as Hv1 by (cbn; apply lookup_insert_eq).
  destruct (Buffer_getNumViews _ =? 0).
  - destruct (destroyBuffer_step s1 q _ Hi1 Hb1) as (s2 & -> & Hi2 & Hf2 & _ & _ & Hvs & _).
    cbn [mbind option_bind]. apply Hend; [done|by trans s1|].
    rewrite Hvs, Hv1. rewrite decide_False; [done|]. cbn. set_solver.
  - cbn [mbind option_bind]. by apply Hend.
Qed.

Lemma attachBuffer_step s p v buff :
  inv s -> views s !! p = Some v -> is_Some (m_owning_group v) ->
  (forall q, buff = Some q -> is_Some (bufs s !! q)) -> steps_to s (View_attachBuffer s p buff).
Proof.
  intros Hi Hv Hown Hbuff. unfold View_attachBuffer. rewrite Hv. cbn [mbind option_bind].
  destruct (m_state v) eqn:Hst; destruct buff as [q|]; try by apply steps_to_refl.
  - destruct (Hbuff q eq_refl) as [b Hb]. rewrite <- Hst.
    destruct (attach_sequence s p v q b Hi Hv Hst Hb) as (s1 & -> & Hv1 & Heq).
    cbn [mbind option_bind]. rewrite Hv1. cbn [mbind option_bind].
    change (set_buffer_state (set_buffer_state v (Some q) EMPTY)
      (m_data_buffer (set_buffer_state v (Some q) EMPTY)) BUFFER) with (set_buffer_state v (Some q) BUFFER).
    rewrite Heq. destruct (attach_ok s p v q b Hi Hv Hst Hb) as (s2 & [= <-] & Hi2 & Hf2).
    set (s2 := set_view (set_buf s q (with_views b ({[p]} ∪ b_views b))) p
      (set_buffer_state v (Some q) BUFFER)) in *.
    assert (bufs s2 !! q = Some (with_views b ({[p]} ∪ b_views b))) as -> by (cbn; apply lookup_insert_eq).
    cbn [mbind option_bind]. destruct (_ && _).
    + destruct (apply_step s2 p (set_buffer_state v (Some q) BUFFER) Hi2) as (s3 & Hs3 & Hi3 & Hf3).
      { cbn. apply lookup_insert_eq. }
      exists s3. split_and!; [done|done|]. by trans s2.
    + exists s2. by split_and!.
  - destruct (attachBuffer_null_step s p v Hi Hv Hown Hst) as (s' & Hs' & Hi' & Hf' & _).
    unfold View_attachBuffer in Hs'. rewrite Hv in Hs'. cbn [mbind option_bind] in Hs'. rewrite Hst in Hs'.
    exists s'. by split_and!.
Qed.

Lemma isAllocateValid_total s p v :
  inv s -> views s !! p = Some v -> exists r, isAllocateValid s v = Some r /\
    (r = true -> isDescribed v = true /\ (m_state v = EMPTY \/ m_state v = BUFFER)).
Proof.
  intros Hi Hv. unfold isAllocateValid. destruct (m_state v) eqn:Hst;
    try (eexists; split; [done|naive_solver]).
  destruct (isDescribed v) eqn:Hd; [|eexists; split; [done|naive_solver]].
  destruct (vo_state s p v (inv_views s Hi p v Hv) Hst) as [q Hq]. rewrite Hq. cbn [mbind option_bind].
  destruct (vo_buffer s p v (inv_views s Hi p v Hv) q Hq) as (_ & b & -> & _). cbn [mbind option_bind].
  eexists. split; [done|]. naive_solver.
Qed.

Lemma buffer_of_view s p v :
  inv s -> views s !! p = Some v -> m_state v = BUFFER ->
  exists q b, m_data_buffer v = Some q /\ bufs s !! q = Some b.
Proof.
  intros Hi Hv Hst. destruct (vo_state s p v (inv_views s Hi p v Hv) Hst) as [q Hq].
  destruct (vo_buffer s p v (inv_views s Hi p v Hv) q Hq) as (_ & b & Hb & _). eauto.
Qed.

(** The end of [allocate]: allocate the buffer of the view, then apply. *)
Lemma allocate_tail s p v :
  inv s -> views s !! p = Some v -> m_state v = BUFFER ->
  steps_to s (v ← views s !! p; b ← m_data_buffer v;
              s ← Buffer_allocate s b (dt_id (m_schema v)) (to_int32 (number_of_elements (m_schema v)));
              View_apply s p).
Proof.
  intros Hi Hv Hst. destruct (buffer_of_view s p v Hi Hv Hst) as (q & b & Hq & Hb).
  rewrite Hv. cbn [mbind option_bind]. rewrite Hq. cbn [mbind option_bind].
  apply steps_to_bind; [by eapply buffer_allocate_step|]. intros s' _ Hi' Hf'.
  destruct (frame_view _ _ _ _ Hf' Hv) as (v' & Hv' & _). by eapply apply_step.
Qed.

(** The first part of [allocate] on an empty view: a new buffer is attached. *)
Lemma allocate0_empty s p v s1 q :
  inv s -> room s -> views s !! p = Some v -> is_Some (m_owning_group v) -> m_state v = EMPTY ->
  isDescribed v = true -> createBuffer s = (s1, q) ->
  exists idx, bufs s1 = <[q := Buffer_new idx]> (bufs s) /\ bufs s !! q = None /\ mem s1 = mem s /\
    let s3 := set_view (set_buf s1 q (with_views (Buffer_new idx) ({[p]} ∪ ∅))) p
                (set_buffer_state v (Some q) BUFFER) in
    inv s3 /\ frame s s3 /\ views s3 !! p = Some (set_buffer_state v (Some q) BUFFER) /\
    View_allocate0 s p =
      (v ← views s3 !! p; b ← m_data_buffer v;
       s ← Buffer_allocate s3 b (dt_id (m_schema v)) (to_int32 (number_of_elements (m_schema v)));
       View_apply s p).
Proof.
  intros Hi Hroom Hv [g Hg] Hst Hd Hc. unfold View_allocate0. rewrite Hv. cbn [mbind option_bind].
  unfold isAllocateValid. rewrite Hst, Hd. cbn [mbind option_bind negb].
  rewrite bool_decide_true by done. rewrite Hg. cbn [mbind option_bind]. rewrite Hc.
  destruct (createBuffer_step s s1 q Hi Hroom Hc) as (Hi1 & Hf1 & _ & Hvs & Hms & (idx & Hbs) & Hfr & _).
  exists idx. split; [done|]. split; [done|]. split; [done|].
  assert (bufs s1 !! q = Some (Buffer_new idx)) as Hb by (rewrite Hbs; apply lookup_insert_eq).
  rewrite <- Hvs in Hv.
  destruct (attach_sequence s1 p v q _ Hi1 Hv Hst Hb) as (s2 & Hs2 & Hv2 & Heq). rewrite Hst in Hs2.
  rewrite Hs2. cbn [mbind option_bind]. rewrite Hv2. cbn [mbind option_bind].
  change (set_buffer_state (set_buffer_state v (Some q) EMPTY)
    (m_data_buffer (set_buffer_state v (Some q) EMPTY)) BUFFER) with (set_buffer_state v (Some q) BUFFER).
  rewrite Heq. destruct (attach_ok s1 p v q _ Hi1 Hv Hst Hb) as (s3 & [= <-] & Hi3 & Hf3).
  cbv zeta. split; [exact Hi3|]. split; [by trans s1|]. split; [cbn; apply lookup_insert_eq|done].
Qed.

Lemma allocate0_step s p v :
  inv s -> room s -> views s !! p = Some v -> is_Some (m_owning_group v) ->
  steps_to s (View_allocate0 s p).
Proof.
  intros Hi Hroom Hv Hown.
  destruct (isAllocateValid_total s p v Hi Hv) as (r & Hval & Hr).
  destruct r.
  2: { unfold View_allocate0. rewrite Hv. cbn [mbind option_bind]. rewrite Hval. by apply steps_to_refl. }
  destruct (Hr eq_refl) as [Hd [Hst|Hst]].
  - destruct (createBuffer s) as [s1 q] eqn:Hc.
    destruct (allocate0_empty s p v s1 q) as (idx & _ & _ & _ & Hi3 & Hf3 & Hv3 & ->); [done..|].
    destruct (allocate_tail _ p _ Hi3 Hv3) as (s4 & Hs4 & Hi4 & Hf4); [done|].
    exists s4. split_and!; [exact Hs4|done|]. by etrans.
  - unfold View_allocate0. rewrite Hv. cbn [mbind option_bind]. rewrite Hval. cbn [mbind option_bind negb].
    rewrite bool_decide_false by congruence. by eapply allocate_tail.
Qed.

(** ** The remaining operations of a view *)

(** An operation that first changes the description of its view. *)
Lemma redescribe_then s p v' (k : DS -> option DS) :
  steps_to s (Some (set_view s p v')) ->
  (inv (set_view s p v') -> views (set_view s p v') !! p = Some v' -> steps_to (set_view s p v') (k (set_view s p v'))) ->
  steps_to s (k (set_view s p v')).
Proof.
  intros (s1 & [= <-] & Hi1 & Hf1) Hk. destruct Hk as (s2 & Hs2 & Hi2 & Hf2); [done|cbn; apply lookup_insert_eq|].
  exists s2. split_and!; [done|done|]. by trans (set_view s p v').
Qed.

Section view_ops.
Context (s : DS) (p : ptr) (v : View).
Context (Hi : inv s) (Hv : views s !! p = Some v) (Hown : is_Some (m_owning_group v)).

Lemma allocate_step t n : room s -> steps_to s (View_allocate s p t n).
Proof using All.
  intros Hroom. unfold View_allocate. destruct (_ || _); [by apply steps_to_refl|]. rewrite Hv.
  cbn [mbind option_bind]. apply (redescribe_then s p _ (fun s => View_allocate0 s p)); [by apply describe_step|].
  intros Hi1 Hv1. by eapply allocate0_step.
Qed.

Lemma allocate_shape_step t sh : room s -> shape_fits sh -> steps_to s (View_allocate_shape s p t sh).
Proof using All.
  intros Hroom Hsh. unfold View_allocate_shape. destruct sh as [sh|]; [|by apply steps_to_refl].
  destruct (shape_fits_product sh Hsh) as [n ->]. cbn [mbind option_bind].
  destruct (_ && _); [|by apply steps_to_refl]. rewrite Hv. cbn [mbind option_bind].
  destruct (describe_shape_step s p v t _ Hi Hv Hsh) as (v' & -> & Ho & Hd). cbn [mbind option_bind].
  apply (redescribe_then s p _ (fun s => View_allocate0 s p)); [done|].
  intros Hi1 Hv1. eapply allocate0_step; [done|done|done|]. by rewrite Ho.
Qed.

Lemma allocate_dtype_step d : room s -> steps_to s (View_allocate_dtype s p d).
Proof using All.
  intros Hroom. unfold View_allocate_dtype. destruct (is_empty d); [by apply steps_to_refl|]. rewrite Hv.
  cbn [mbind option_bind].
  apply (redescribe_then s p _ (fun s => View_allocate0 s p)); [by apply describe_dtype_step|].
  intros Hi1 Hv1. by eapply allocate0_step.
Qed.

(** Reallocating the buffer of a view that has just been described anew. *)
Lemma realloc_tail v' q b n :
  steps_to s (Some (set_view s p v')) -> bufs s !! q = Some b -> sized b n ->
  steps_to s (s ← Buffer_reallocate (set_view s p v') q n; View_apply s p).
Proof using All.
  intros Hd Hb Hsz.
  apply (redescribe_then s p v' (fun s => s ← Buffer_reallocate s q n; View_apply s p)); [done|].
  intros Hi1 Hv1. apply steps_to_bind; [by eapply buffer_reallocate_step|]. intros s2 _ Hi2 Hf2.
  destruct (frame_view _ _ _ _ Hf2 Hv1) as (v2 & Hv2 & _). by eapply apply_step.
Qed.

Definition sized_buffer (n : Z) : Prop :=
  forall q b, m_data_buffer v = Some q -> bufs s !! q = Some b -> sized b n.

Lemma reallocate_step n : room s -> sized_buffer n -> steps_to s (View_reallocate s p n).
Proof using All.
  intros Hroom Hsz. unfold View_reallocate. rewrite Hv. cbn [mbind option_bind].
  destruct (n <? 0); [by apply steps_to_refl|].
  destruct (isAllocateValid_total s p v Hi Hv) as (r & -> & Hr). cbn [mbind option_bind].
  destruct r; cbn [negb]; [|by apply steps_to_refl]. destruct (Hr eq_refl) as [Hd [Hst|Hst]].
  - rewrite bool_decide_true by done. by apply allocate_step.
  - rewrite bool_decide_false by congruence.
    destruct (buffer_of_view s p v Hi Hv Hst) as (q & b & Hq & Hb). rewrite Hq. cbn [mbind option_bind].
    rewrite Hb. cbn [mbind option_bind]. destruct (Buffer_isAllocated b); [|by apply allocate_step].
    apply (realloc_tail _ q b); [by apply describe_step|done|by eapply Hsz].
Qed.

Lemma deallocate_step : steps_to s (View_deallocate s p).
Proof using All.
  unfold View_deallocate. rewrite Hv. cbn [mbind option_bind].
  destruct (isAllocateValid_total s p v Hi Hv) as (r & -> & Hr). cbn [mbind option_bind].
  destruct r; cbn [negb]; [|by apply steps_to_refl].
  destruct (m_data_buffer v) as [q|] eqn:Hq; [|by apply steps_to_refl].
  destruct (vo_buffer s p v (inv_views s Hi p v Hv) q Hq) as (_ & b & Hb & _).
  by eapply buffer_deallocate_step.
Qed.

Lemma isAllocated_total : exists r, isAllocated s v = Some r.
Proof using All.
  unfold isAllocated. destruct (m_state v) eqn:Hst; eauto. destruct (isDescribed v); eauto.
  destruct (buffer_of_view s p v Hi Hv Hst) as (q & b & -> & Hb). cbn [mbind option_bind].
  rewrite Hb. cbn [mbind option_bind]. eauto.
Qed.

Lemma reallocate_dtype_step d :
  room s -> sized_buffer (to_int32 (number_of_elements d)) -> steps_to s (View_reallocate_dtype s p d).
Proof using All.
  intros Hroom Hsz. unfold View_reallocate_dtype. rewrite Hv. cbn [mbind option_bind].
  destruct isAllocated_total as [al Hal]. rewrite Hal. cbn [mbind option_bind].
  destruct al; cbn [negb]; [|by apply allocate_dtype_step].
  destruct (isAllocateValid_total s p v Hi Hv) as (r & -> & Hr). cbn [mbind option_bind].
  destruct r; cbn [negb].
  - destruct (is_empty d); cbn [orb]; [by apply steps_to_refl|].
    destruct (negb _); [by apply steps_to_refl|]. destruct (Hr eq_refl) as [Hd [Hst|Hst]].
    { unfold isAllocated in Hal. rewrite Hst in Hal. done. }
    destruct (buffer_of_view s p v Hi Hv Hst) as (q & b & Hq & Hb). rewrite Hq. cbn [mbind option_bind].
    apply (realloc_tail _ q b); [by apply describe_dtype_step|done|by eapply Hsz].
  - rewrite orb_true_r. by apply steps_to_refl.
Qed.

Lemma detachBuffer_step : exists s' r, View_detachBuffer s p = Some (s', r) /\ inv s' /\ frame s s'.
Proof using All.
  unfold View_detachBuffer. rewrite Hv. cbn [mbind option_bind].
  destruct (decide (m_state v = BUFFER)) as [Hst|Hst].
  - rewrite bool_decide_true by done. destruct (buffer_of_view s p v Hi Hv Hst) as (q & b & Hq & Hb).
    rewrite Hq. cbn [mbind option_bind]. destruct (detachFromView_step s p v q Hi Hv Hq) as (b' & Hb' & ->).
    cbn [mbind option_bind]. destruct (detach_ok s p v q b' Hi Hv Hq Hb') as (s1 & [= <-] & Hi1 & Hf1). eauto 10.
  - rewrite bool_decide_false by done. exists s, None. by split_and!.
Qed.

Lemma attachBuffer_described_step t n buff :
  (forall q, buff = Some q -> is_Some (bufs s !! q)) -> steps_to s (View_attachBuffer_described s p t n buff).
Proof using All.
  intros Hb. unfold View_attachBuffer_described. rewrite Hv. cbn [mbind option_bind].
  apply (redescribe_then s p _ (fun s => View_attachBuffer s p buff)); [by apply describe_step|].
  intros Hi1 Hv1. by eapply attachBuffer_step.
Qed.

Lemma attachBuffer_shape_step t sh buff :
  (forall q, buff = Some q -> is_Some (bufs s !! q)) -> shape_fits sh ->
  steps_to s (View_attachBuffer_shape s p t sh buff).
Proof using All.
  intros Hb Hsh. unfold View_attachBuffer_shape. destruct sh as [sh|]; [|by apply steps_to_refl].
  rewrite Hv. cbn [mbind option_bind].
  destruct (describe_shape_step s p v t _ Hi Hv Hsh) as (v' & -> & Ho & Hd). cbn [mbind option_bind].
  apply (redescribe_then s p _ (fun s => View_attachBuffer s p buff)); [done|].
  intros Hi1 Hv1. eapply attachBuffer_step; [done|done| |done]. by rewrite Ho.
Qed.

Lemma no_buffer : m_state v <> BUFFER -> m_data_buffer v = None.
Proof using All.
  intros Hst. destruct (m_data_buffer v) as [q|] eqn:Hq; [|done].
  destruct (vo_buffer s p v (inv_views s Hi p v Hv) q Hq). done.
Qed.

Lemma setExternalDataPtr_step a : steps_to s (View_setExternalDataPtr s p a).
Proof using All.
  pose proof (inv_views s Hi p v Hv) as Hok. unfold View_setExternalDataPtr. rewrite Hv.
  cbn [mbind option_bind].
  assert (m_state v = EMPTY \/ m_state v = EXTERNAL -> steps_to s (
    if a =? 0 then Some (set_view s p (set_external (unapply v) 0 EMPTY)) else
    let v := set_external v a EXTERNAL in
    let s := set_view s p v in if isDescribed v then View_apply s p else Some s)) as Hgo.
  { intros Hst. assert (m_data_buffer v = None) as Hnb by (apply no_buffer; naive_solver congruence).
    destruct (Z.eqb_spec a 0) as [->|Ha].
    - apply (set_view_ok s p v); try done. split; cbn; try done; [by rewrite Hnb|by intros [?|?]].
    - cbv zeta. change (isDescribed (set_external v a EXTERNAL)) with (isDescribed v).
      destruct (isDescribed v) eqn:Hd.
      + unfold View_apply. cbn [views set_view]. rewrite lookup_insert_eq. cbn [mbind option_bind].
        unfold isApplyValid. change (isDescribed (set_external v a EXTERNAL)) with (isDescribed v).
        rewrite Hd. cbn [negb set_external m_state mbind option_bind m_data_buffer]. rewrite Hnb.
        cbn [mbind option_bind]. unfold set_view. cbn. rewrite insert_insert_eq.
        apply (set_view_ok s p v _ Hi Hv); cbn; [done|done|]. split; cbn; try done. by intros [?|?].
      + apply (set_view_ok s p v); try done.
        assert (m_is_applied v = false) as Hap.
        { destruct (m_is_applied v) eqn:E; [|done]. apply (vo_applied s p v Hok) in E. congruence. }
        split; cbn; try done; [by rewrite Hnb|by rewrite Hap|by rewrite Hap|by intros [?|?]]. }
  destruct (m_state v) eqn:Hst; try by apply steps_to_refl. all: apply Hgo; auto.
Qed.

Lemma set_value_step st value :
  m_state v = EMPTY \/ m_state v = st -> st = SCALAR \/ st = STRING ->
  steps_to s (Some (set_view s p (set_value v st value))).
Proof using All.
  intros Hst Hval. pose proof (inv_views s Hi p v Hv) as Hok.
  assert (m_data_buffer v = None) as Hnb by (apply no_buffer; naive_solver congruence).
  assert (m_external_ptr v = 0) as Hext.
  { destruct (decide (m_external_ptr v = 0)) as [|Hne]; [done|].
    apply (vo_external s p v Hok) in Hne. naive_solver congruence. }
  apply (set_view_ok s p v); try done. split; cbn.
  - by rewrite Hnb.
  - naive_solver congruence.
  - rewrite Hext. naive_solver congruence.
  - naive_solver congruence.
  - intros _. unfold isDescribed, is_empty. cbn. apply negb_true_iff, Z.eqb_neq, value_described.
  - naive_solver congruence.
  - eauto.
Qed.

Lemma setScalar_step value : steps_to s (View_setScalar s p value).
Proof using All.
  unfold View_setScalar. rewrite Hv. cbn [mbind option_bind].
  destruct (m_state v) eqn:Hst; try by apply steps_to_refl. all: apply set_value_step; auto.
Qed.

Lemma setString_step value : steps_to s (View_setString s p value).
Proof using All.
  unfold View_setString. rewrite Hv. cbn [mbind option_bind].
  destruct (m_state v) eqn:Hst; try by apply steps_to_refl. all: apply set_value_step; auto.
Qed.

(** The three [apply] overloads that describe first. *)
Lemma describe_apply_step v' :
  steps_to s (Some (set_view s p v')) -> steps_to s (View_apply (set_view s p v') p).
Proof using All.
  intros Hd. apply (redescribe_then s p v' (fun s => View_apply s p)); [done|].
  intros Hi1 Hv1. by eapply apply_step.
Qed.

Lemma apply_elems_step n off str :
  (is_empty (m_schema v) = true -> m_state v = BUFFER) -> steps_to s (View_apply_elems s p n off str).
Proof using All.
  intros Hbuf. unfold View_apply_elems. destruct (n <? 0); [by apply steps_to_refl|]. rewrite Hv.
  cbn [mbind option_bind]. destruct (is_empty (m_schema v)) eqn:He.
  - destruct (buffer_of_view s p v Hi Hv (Hbuf eq_refl)) as (q & b & -> & Hb). cbn [mbind option_bind].
    rewrite Hb. cbn [mbind option_bind]. by apply describe_apply_step, describe_dtype_step.
  - cbn [mbind option_bind]. by apply describe_apply_step, describe_dtype_step.
Qed.

Lemma apply_type_step t n off str : steps_to s (View_apply_type s p t n off str).
Proof using All.
  unfold View_apply_type. destruct (_ || _); [by apply steps_to_refl|]. rewrite Hv.
  cbn [mbind option_bind]. by apply describe_apply_step, describe_dtype_step.
Qed.

Lemma apply_shape_step t sh : shape_fits sh -> steps_to s (View_apply_shape s p t sh).
Proof using All.
  intros Hsh. unfold View_apply_shape. destruct sh as [sh|]; [|by apply steps_to_refl].
  destruct (_ || _); [by apply steps_to_refl|]. rewrite Hv. cbn [mbind option_bind].
  destruct (describe_shape_step s p v t _ Hi Hv Hsh) as (v' & -> & Ho & Hd). cbn [mbind option_bind].
  by apply describe_apply_step.
Qed.

Lemma apply_dtype_step d : steps_to s (View_apply_dtype s p d).
Proof using All.
  unfold View_apply_dtype. destruct (is_empty d); [by apply steps_to_refl|]. rewrite Hv.
  cbn [mbind option_bind]. by apply describe_apply_step, describe_dtype_step.
Qed.

End view_ops.

Lemma setExternalDataPtr_described_step s p v t n a :
  inv s -> views s !! p = Some v -> is_Some (m_owning_group v) ->
  steps_to s (View_setExternalDataPtr_described s p t n a).
Proof.
  intros Hi Hv Hown. unfold View_setExternalDataPtr_described. rewrite Hv. cbn [mbind option_bind].
  apply (redescribe_then s p _ (fun s => View_setExternalDataPtr s p a)); [by apply describe_step|].
  intros Hi1 Hv1. by eapply setExternalDataPtr_step.
Qed.

Lemma setExternalDataPtr_shape_step s p v t sh a :
  inv s -> views s !! p = Some v -> is_Some (m_owning_group v) -> shape_fits sh ->
  steps_to s (View_setExternalDataPtr_shape s p t sh a).
Proof.
  intros Hi Hv Hown Hsh. unfold View_setExternalDataPtr_shape. destruct sh as [sh|]; [|by apply steps_to_refl].
  rewrite Hv. cbn [mbind option_bind].
  destruct (describe_shape_step s p v t _ Hi Hv Hsh) as (v' & -> & Ho & Hd). cbn [mbind option_bind].
  apply (redescribe_then s p _ (fun s => View_setExternalDataPtr s p a)); [done|].
  intros Hi1 Hv1. eapply setExternalDataPtr_step; [done|done|]. by rewrite Ho.
Qed.

(** Clearing: afterwards the view is empty, without buffer, description or data. *)
Lemma clear_step s p v :
  inv s -> views s !! p = Some v -> is_Some (m_owning_group v) ->
  exists s', View_clear s p = Some s' /\ inv s' /\ frame s s' /\
    exists v', views s' !! p = Some v' /\ m_state v' = EMPTY /\ m_schema v' = dt_empty /\
      m_shape v' = [] /\ m_data_buffer v' = None /\ m_external_ptr v' = 0 /\ m_is_applied v' = false.
Proof.
  intros Hi Hv Hown. unfold View_clear. rewrite Hv. cbn [mbind option_bind].
  pose proof (inv_views s Hi p v Hv) as Hok.
  assert (exists s1 w w0 s0, match m_state v with
      | EMPTY => Some s | BUFFER => View_attachBuffer s p None | EXTERNAL => View_setExternalDataPtr s p 0
      | _ => Some (set_view s p (unapply v)) end = Some s1 /\ views s1 !! p = Some w /\
    inv s0 /\ frame s s0 /\ views s0 !! p = Some w0 /\ m_data_buffer w0 = None /\
    (forall v', set_view s1 p v' = set_view s0 p v') /\ tree_part w = tree_part w0 /\
    m_data_buffer w = None /\ m_external_ptr w = 0 /\ m_is_applied w = false)
    as (s1 & w & w0 & s0 & -> & Hw & Hi0 & Hf0 & Hw0 & Hb0 & Heq & Ht & Hb & He & Ha).
  { assert (m_state v <> EXTERNAL -> m_external_ptr v = 0) as Hext.
    { intros Hne. destruct (decide (m_external_ptr v = 0)) as [|Hnz]; [done|].
      by apply (vo_external s p v Hok) in Hnz. }
    destruct (m_state v) eqn:Hst.
    - exists s, v, v, s. pose proof (no_buffer s p v Hi Hv Hown ltac:(congruence)).
      split_and!; try done; [by apply Hext|by apply (vo_empty s p v Hok)].
    - destruct (attachBuffer_null_step s p v Hi Hv Hown Hst) as (s1 & Hs1 & Hi1 & Hf1 & Hv1).
      exists s1, (setBufferViewToEmpty v), (setBufferViewToEmpty v), s1. split_and!; try done. by apply Hext.
    - pose proof (no_buffer s p v Hi Hv Hown ltac:(congruence)) as Hnb.
      destruct (setExternalDataPtr_step s p v Hi Hv Hown 0) as (s1 & Hs1 & Hi1 & Hf1). exists s1.
      assert (s1 = set_view s p (set_external (unapply v) 0 EMPTY)) as ->.
      { unfold View_setExternalDataPtr in Hs1. rewrite Hv in Hs1. cbn [mbind option_bind] in Hs1.
        rewrite Hst in Hs1. cbn in Hs1. by injection Hs1 as <-. }
      do 2 exists (set_external (unapply v) 0 EMPTY). eexists. split; [exact Hs1|].
      split_and!; try done; cbn; apply lookup_insert_eq.
    - exists (set_view s p (unapply v)), (unapply v), v, s.
      pose proof (no_buffer s p v Hi Hv Hown ltac:(congruence)).
      split_and!; try done; [cbn; apply lookup_insert_eq| |by apply Hext].
      intros v'. unfold set_view. cbn. by rewrite insert_insert_eq.
    - exists (set_view s p (unapply v)), (unapply v), v, s.
      pose proof (no_buffer s p v Hi Hv Hown ltac:(congruence)).
      split_and!; try done; [cbn; apply lookup_insert_eq| |by apply Hext].
      intros v'. unfold set_view. cbn. by rewrite insert_insert_eq. }
  cbn [mbind option_bind]. rewrite Hw. cbn [mbind option_bind]. rewrite Heq.
  set (v' := set_buffer_state (undescribe w) (m_data_buffer (undescribe w)) EMPTY).
  destruct (set_view_ok s0 p w0 v' Hi0 Hw0) as (s2 & [= <-] & Hi2 & Hf2).
  - cbn. congruence.
  - cbn. rewrite <- Ht. done.
  - split; cbn; rewrite ?Hb, ?He, ?Ha; try done. by intros [?|?].
  - eexists. split; [done|]. split_and!; [done|by trans s0|]. exists v'. cbn. rewrite lookup_insert_eq.
    by split_and!.
Qed.

(** Deleting a view. *)
Lemma delete_view_step s p v :
  inv s -> views s !! p = Some v ->
  exists s', View_delete s p = Some s' /\ inv s' /\ groups s' = groups s /\ m_RootGroup s' = m_RootGroup s /\
    next_ptr s' = next_ptr s /\ views s' !! p = None /\ dom (bufs s') = dom (bufs s) /\
    (forall q, q <> p -> views s' !! q = views s !! q).
Proof.
  intros Hi Hv. unfold View_delete. rewrite Hv. cbn [mbind option_bind].
  assert (exists s1, (match m_data_buffer v with Some q => Buffer_detachFromView s q p | None => Some s end) =
    Some s1 /\ inv s1 /\ groups s1 = groups s /\ m_RootGroup s1 = m_RootGroup s /\ next_ptr s1 = next_ptr s /\
    dom (bufs s1) = dom (bufs s) /\ (forall q, q <> p -> views s1 !! q = views s !! q) /\
    forall v1, views s1 !! p = Some v1 -> m_data_buffer v1 = None)
    as (s1 & -> & Hi1 & Hg & Hr & Hn & Hdom & Hvs & Hnb).
  { destruct (m_data_buffer v) as [q|] eqn:Hq.
    - destruct (detachFromView_step s p v q Hi Hv Hq) as (b & Hb & ->).
      destruct (detach_ok s p v q b Hi Hv Hq Hb) as (s1 & [= <-] & Hi1 & Hf1). eexists. split; [done|].
      split_and!; [done|done|done|done| | |].
      + cbn. rewrite dom_insert_L. assert (q ∈ dom (bufs s)) by (apply elem_of_dom; eauto). set_solver.
      + intros r Hr. cbn. by rewrite lookup_insert_ne.
      + intros v1. cbn. rewrite lookup_insert_eq. intros [= <-]. done.
    - exists s. split_and!; try done. intros v1 Hv1. congruence. }
  cbn [mbind option_bind]. eexists. split; [done|].
  split_and!; [|done|done|done|cbn; apply lookup_delete_eq|done|].
  - split; cbn.
    + intros q Hq. apply (inv_next s1 Hi1). destruct Hq as [Hq|[[w [_ Hq]%lookup_delete_Some]|Hq]]; eauto.
    + intros q w [Hne Hw]%lookup_delete_Some. apply (view_ok_bufs s1); [done|]. by apply Hi1.
    + intros q b w Hb Hw. destruct (inv_attached s1 Hi1 q b w Hb Hw) as (v1 & Hv1 & Hd1). exists v1.
      rewrite lookup_delete_ne; [done|]. intros ->. apply Hnb in Hv1. congruence.
    + apply Hi1.
  - intros q Hq. cbn. rewrite lookup_delete_ne by done. by apply Hvs.
Qed.

(** Copying the value of a scalar or string view. *)
Lemma copy_value_step s p copy v c1 :
  inv s -> views s !! p = Some v -> steps_to s (Some (set_view s copy c1)) -> m_state c1 = EMPTY ->
  isDescribed c1 = true -> m_state v = SCALAR \/ m_state v = STRING ->
  steps_to s (c ← views (set_view s copy c1) !! copy;
    Some (set_view (set_view s copy c1) copy (mkView (m_name c) (m_index c) (m_owning_group c)
      (m_data_buffer c) (m_schema c) (m_node v) (m_shape c) (m_external_ptr c) (m_state v) true))).
Proof.
  intros Hi Hv (s1 & [= <-] & Hi1 & Hf1) Hst Hd Hval.
  assert (views (set_view s copy c1) !! copy = Some c1) as Hc1 by (cbn; apply lookup_insert_eq).
  rewrite Hc1. cbn [mbind option_bind]. pose proof (inv_views _ Hi1 copy c1 Hc1) as Hok.
  destruct (vo_value s p v (inv_views s Hi p v Hv) Hval) as [x Hx].
  assert (m_data_buffer c1 = None) as Hnb.
  { destruct (m_data_buffer c1) as [q|] eqn:Hq; [|done].
    destruct (vo_buffer _ _ _ Hok q Hq). congruence. }
  assert (m_external_ptr c1 = 0) as Hext.
  { destruct (decide (m_external_ptr c1 = 0)) as [|Hne]; [done|].
    apply (vo_external _ _ _ Hok) in Hne. congruence. }
  destruct (set_view_ok (set_view s copy c1) copy c1 (mkView (m_name c1) (m_index c1) (m_owning_group c1)
    (m_data_buffer c1) (m_schema c1) (m_node v) (m_shape c1) (m_external_ptr c1) (m_state v) true) Hi1 Hc1)
    as (s2 & Hs2 & Hi2 & Hf2); [done|done| |].
  { split; cbn; rewrite ?Hnb, ?Hext, ?Hx; try done; try naive_solver congruence. }
  exists s2. split_and!; [done|done|]. by trans (set_view s copy c1).
Qed.

(** Copying a view into a new one, which shares the buffer or the external data. *)
Lemma copyView_step s p copy v c :
  inv s -> p <> copy -> views s !! p = Some v -> views s !! copy = Some c -> m_state c = EMPTY ->
  is_Some (m_owning_group c) -> (m_state v = SCALAR \/ m_state v = STRING -> isDescribed v = true) ->
  steps_to s (View_copyView s p copy).
Proof.
  intros Hi Hne Hv Hc Hst Hown Hdesc. unfold View_copyView. rewrite Hv, Hc. cbn [mbind option_bind].
  set (c1 := if isDescribed v then describe_dtype c (m_schema v) else c).
  assert (steps_to s (Some (set_view s copy c1))) as Hs1.
  { unfold c1. destruct (isDescribed v); [by apply describe_dtype_step|].
    apply (set_view_ok s copy c); try done. by apply Hi. }
  assert (m_state c1 = EMPTY /\ is_Some (m_owning_group c1)) as [Hst1 Hown1]
    by (unfold c1; destruct (isDescribed v); done).
  destruct (m_state v) eqn:Hstv; [done|..].
  - apply (redescribe_then s copy c1 (fun s => View_attachBuffer s copy (m_data_buffer v))); [done|].
    intros Hi1 Hv1. eapply attachBuffer_step; [done|done|done|].
    intros q Hq. destruct (vo_buffer s p v (inv_views s Hi p v Hv) q Hq) as (_ & b & Hb & _). cbn. by rewrite Hb.
  - apply (redescribe_then s copy c1 (fun s => View_setExternalDataPtr s copy (m_external_ptr v))); [done|].
    intros Hi1 Hv1. by eapply setExternalDataPtr_step.
  - pose proof (copy_value_step s p copy v c1 Hi Hv Hs1 Hst1) as Hcp. rewrite Hstv in Hcp.
    apply Hcp; [unfold c1; rewrite Hdesc by auto; by apply Hdesc; auto|auto].
  - pose proof (copy_value_step s p copy v c1 Hi Hv Hs1 Hst1) as Hcp. rewrite Hstv in Hcp.
    apply Hcp; [unfold c1; rewrite Hdesc by auto; by apply Hdesc; auto|auto].
Qed.

Lemma destroyBuffer_idx_step s idx :
  inv s -> idx < 2 ^ 31 -> steps_to s (destroyBuffer_idx s idx).
Proof.
  intros Hi Hidx. unfold destroyBuffer_idx, getBuffer_idx. pose proof (inv_data s Hi) as Hdi.
  assert (IndexedCollection.getItem (buffer_coll s) idx = item_at (IndexedCollection.m_items (buffer_coll s)) idx)
    as -> by exact (law_get (CollectionLaws := IndexedCollection_laws) _ _ (di_small _ _ _ Hdi) Hidx).
  destruct (item_at _ idx) as [p|] eqn:Hp; [|by apply steps_to_refl].
  destruct (di_items _ _ _ Hdi idx p Hp) as (b & Hb & _).
  destruct (destroyBuffer_step s p b Hi Hb) as (s' & Hs' & Hi' & Hf' & _). exists s'. by split_and!.
Qed.

(** The vector of the buffer collection. *)
Notation bslots s := (IndexedCollection.m_items (buffer_coll s)).

Lemma destroyAllBuffers_loop_S n s bidx :
  destroyAllBuffers_loop (S n) s bidx =
  if negb (indexIsValid bidx) then Some s else
  s ← destroyBuffer_idx s bidx;
  bidx ← IndexedCollection.getNextValidIndex (buffer_coll s) bidx;
  destroyAllBuffers_loop n s bidx.
Proof. done. Qed.

Lemma destroyAllBuffers_loop_spec n s idx pos :
  inv s -> -1 <= idx -> vsize (bslots s) - idx <= Z.of_nat n ->
  (forall j, j <= idx -> item_at (bslots s) j = None) -> is_next (item_at (bslots s)) idx pos ->
  exists s', destroyAllBuffers_loop (S n) s pos = Some s' /\ inv s' /\ frame s s' /\
    forall j, item_at (bslots s') j = None.
Proof.
  revert s idx pos. induction n as [|n IH]; intros s idx pos Hi H1' Hn Hlow Hnx.
  all: rewrite destroyAllBuffers_loop_S; unfold indexIsValid.
  all: destruct (Z.eqb_spec pos InvalidIndex) as [->|Hne]; cbn [negb].
  1,3: exists s; split_and!; [done|done|done|].
  1,2: intros j; destruct (decide (j <= idx)); [by apply Hlow|];
       destruct Hnx as [[_ Hnx]|[? _]]; [apply Hnx; lia|unfold InvalidIndex in *; lia].
  all: destruct (next_item _ _ _ H1' Hnx Hne) as (q & Hq & Hr & _); [].
  - lia.
  - pose proof (inv_data s Hi) as Hdi. pose proof (di_small _ _ _ Hdi) as Hsm.
    destruct (di_items _ _ _ Hdi pos q Hq) as (b & Hb & Hbi).
    destruct (destroyBuffer_step s q b Hi Hb) as (s1 & Hs1 & Hi1 & Hf1 & _ & _ & _ & Hsz & Hat).
    assert (destroyBuffer_idx s pos = Some s1) as ->.
    { unfold destroyBuffer_idx, getBuffer_idx.
      assert (IndexedCollection.getItem (buffer_coll s) pos = Some q) as ->; [|done]. rewrite <- Hq.
      apply (law_get (CollectionLaws := IndexedCollection_laws) (buffer_coll s) pos Hsm). cbn. lia. }
    cbn [mbind option_bind]. unfold IndexedCollection.getNextValidIndex.
    destruct (next_valid_spec (bslots s1) pos) as (r & -> & Hnx'); [lia|lia|]. cbn [mbind option_bind].
    destruct (IH s1 pos r) as (s' & Hs' & Hi' & Hf' & Hat'); [done|lia|lia| |done|].
    { intros j Hj. rewrite Hat. case_decide; [done|]. destruct (decide (j <= idx)); [by apply Hlow|].
      destruct Hnx as [[? _]|(_ & _ & Hnx)]; [done|]. apply Hnx. lia. }
    exists s'. split_and!; [done|done|by trans s1|done].
Qed.

Lemma destroyAllBuffers_step s :
  inv s -> exists s', destroyAllBuffers s = Some s' /\ inv s' /\ frame s s' /\ bufs s' = ∅.
Proof.
  intros Hi. unfold destroyAllBuffers, IndexedCollection.getFirstValidIndex.
  pose proof (inv_data s Hi) as Hdi.
  destruct (first_valid_spec (bslots s)) as (r & -> & Hnx); [apply Hdi|]. cbn [mbind option_bind].
  destruct (destroyAllBuffers_loop_spec (S (length (bslots s))) s (-1) r) as (s' & Hs' & Hi' & Hf' & Hat);
    [done|lia|unfold vsize; lia| |done|].
  { intros j Hj. apply item_at_out. lia. }
  exists s'. split_and!; [done|done|done|]. apply map_eq. intros q. rewrite lookup_empty.
  destruct (bufs s' !! q) as [b|] eqn:Hb; [|done].
  pose proof (di_index _ _ _ (inv_data s' Hi') q b Hb) as Hx. by rewrite Hat in Hx.
Qed.

(** ** One step of a client *)

Inductive op :=
  | BDescribe (b : ptr) (t n : Z) | BAllocate0 (b : ptr) | BAllocate (b : ptr) (t n : Z)
  | BReallocate (b : ptr) (n : Z) | BDeallocate (b : ptr)
  | DCreateBuffer | DDestroyBuffer (b : option ptr) | DDestroyBufferIdx (idx : Z) | DDestroyAllBuffers
  | VAllocate0 (p : ptr) | VAllocate (p : ptr) (t n : Z)
  | VAllocateShape (p : ptr) (t : Z) (sh : option (list Z)) | VAllocateDtype (p : ptr) (d : DataType)
  | VReallocate (p : ptr) (n : Z) | VReallocateDtype (p : ptr) (d : DataType) | VDeallocate (p : ptr)
  | VAttachBuffer (p : ptr) (b : option ptr) | VAttachBufferDesc (p : ptr) (t n : Z) (b : option ptr)
  | VAttachBufferShape (p : ptr) (t : Z) (sh : option (list Z)) (b : option ptr) | VDetachBuffer (p : ptr)
  | VSetExternal (p : ptr) (a : Z) | VSetExternalDesc (p : ptr) (t n a : Z)
  | VSetExternalShape (p : ptr) (t : Z) (sh : option (list Z)) (a : Z)
  | VSetScalar (p : ptr) (x : Value) | VSetString (p : ptr) (x : Value) | VClear (p : ptr)
  | VApply (p : ptr) | VApplyElems (p : ptr) (n off str : Z) | VApplyType (p : ptr) (t n off str : Z)
  | VApplyShape (p : ptr) (t : Z) (sh : option (list Z)) | VApplyDtype (p : ptr) (d : DataType)
  | VCopyView (p copy : ptr).

Definition exec (s : DS) (o : op) : option DS :=
  match o with
  | BDescribe b t n => Buffer_describe s b t n | BAllocate0 b => Buffer_allocate0 s b
  | BAllocate b t n => Buffer_allocate s b t n | BReallocate b n => Buffer_reallocate s b n
  | BDeallocate b => Buffer_deallocate s b
  | DCreateBuffer => Some (createBuffer s).1 | DDestroyBuffer b => destroyBuffer s b
  | DDestroyBufferIdx idx => destroyBuffer_idx s idx | DDestroyAllBuffers => destroyAllBuffers s
  | VAllocate0 p => View_allocate0 s p | VAllocate p t n => View_allocate s p t n
  | VAllocateShape p t sh => View_allocate_shape s p t sh | VAllocateDtype p d => View_allocate_dtype s p d
  | VReallocate p n => View_reallocate s p n | VReallocateDtype p d => View_reallocate_dtype s p d
  | VDeallocate p => View_deallocate s p
  | VAttachBuffer p b => View_attachBuffer s p b
  | VAttachBufferDesc p t n b => View_attachBuffer_described s p t n b
  | VAttachBufferShape p t sh b => View_attachBuffer_shape s p t sh b
  | VDetachBuffer p => fst <$> View_detachBuffer s p
  | VSetExternal p a => View_setExternalDataPtr s p a
  | VSetExternalDesc p t n a => View_setExternalDataPtr_described s p t n a
  | VSetExternalShape p t sh a => View_setExternalDataPtr_shape s p t sh a
  | VSetScalar p x => View_setScalar s p x | VSetString p x => View_setString s p x
  | VClear p => View_clear s p
  | VApply p => View_apply s p | VApplyElems p n off str => View_apply_elems s p n off str
  | VApplyType p t n off str => View_apply_type s p t n off str
  | VApplyShape p t sh => View_apply_shape s p t sh | VApplyDtype p d => View_apply_dtype s p d
  | VCopyView p copy => View_copyView s p copy
  end.

Definition live_buf (s : DS) (b : ptr) : Prop := is_Some (bufs s !! b).
Definition live_opt (s : DS) (b : option ptr) : Prop := forall q, b = Some q -> live_buf s q.
(** A view in the tree. *)
Definition live_view (s : DS) (p : ptr) : Prop :=
  exists v, views s !! p = Some v /\ is_Some (m_owning_group v).
(** Some elements of the buffer of a view have a size. *)
Definition sized_view (s : DS) (p : ptr) (n : Z) : Prop :=
  forall v q b, views s !! p = Some v -> m_data_buffer v = Some q -> bufs s !! q = Some b -> sized b n.

(** The arguments are live, there is room for the buffers that are created, the
    elements that are reallocated have a size, and the number of elements of a shape is
    an [IndexType]. *)
Definition legal (s : DS) (o : op) : Prop :=
  match o with
  | BDescribe b _ _ | BAllocate0 b | BAllocate b _ _ | BDeallocate b => live_buf s b
  | BReallocate b n => exists x, bufs s !! b = Some x /\ sized x n
  | DCreateBuffer => room s
  | DDestroyBuffer b => live_opt s b
  | DDestroyBufferIdx idx => idx < 2 ^ 31
  | DDestroyAllBuffers => True
  | VAllocate0 p | VAllocate p _ _ | VAllocateDtype p _ => live_view s p /\ room s
  | VAllocateShape p _ sh => live_view s p /\ room s /\ shape_fits sh
  | VReallocate p n => live_view s p /\ room s /\ sized_view s p n
  | VReallocateDtype p d => live_view s p /\ room s /\ sized_view s p (to_int32 (number_of_elements d))
  | VAttachBuffer p b | VAttachBufferDesc p _ _ b => live_view s p /\ live_opt s b
  | VAttachBufferShape p _ sh b => live_view s p /\ live_opt s b /\ shape_fits sh
  | VSetExternalShape p _ sh _ | VApplyShape p _ sh => live_view s p /\ shape_fits sh
  | VApplyElems p _ _ _ => live_view s p /\
      forall v, views s !! p = Some v -> is_empty (m_schema v) = true -> m_state v = BUFFER
  | VCopyView p copy => live_view s p /\ live_view s copy /\ p <> copy /\
      (forall c, views s !! copy = Some c -> m_state c = EMPTY) /\
      (forall v, views s !! p = Some v -> m_state v = SCALAR \/ m_state v = STRING -> isDescribed v = true)
  | VDeallocate p | VDetachBuffer p | VSetExternal p _ | VSetExternalDesc p _ _ _
  | VSetScalar p _ | VSetString p _ | VClear p | VApply p | VApplyType p _ _ _ _ | VApplyDtype p _ => live_view s p
  end.

Lemma exec_step s o : inv s -> legal s o -> steps_to s (exec s o).
Proof.
  intros Hi. destruct o; cbn [legal exec].
  - intros [? ?]. by eapply buffer_describe_step.
  - intros [? ?]. by eapply buffer_allocate0_step.
  - intros [? ?]. by eapply buffer_allocate_step.
  - intros (x & Hx & Hs). by eapply buffer_reallocate_step.
  - intros [? ?]. by eapply buffer_deallocate_step.
  - intros Hroom. destruct (createBuffer s) as [s' q] eqn:E.
    destruct (createBuffer_step s s' q Hi Hroom E) as (Hi' & Hf' & _). exists s'. by split_and!.
  - destruct b as [q|]; intros Hl; [|by apply steps_to_refl]. destruct (Hl q eq_refl) as [b Hb].
    destruct (destroyBuffer_step s q b Hi Hb) as (s' & Hs' & Hi' & Hf' & _). exists s'. by split_and!.
  - intros ?. apply destroyBuffer_idx_step; [done|lia].
  - intros _. destruct (destroyAllBuffers_step s Hi) as (s' & Hs' & Hi' & Hf' & _). exists s'. by split_and!.
  - intros [(v & Hv & Ho) Hr]. by eapply allocate0_step.
  - intros [(v & Hv & Ho) Hr]. by eapply allocate_step.
  - intros ((v & Hv & Ho) & Hr & Hsh). by eapply allocate_shape_step.
  - intros [(v & Hv & Ho) Hr]. by eapply allocate_dtype_step.
  - intros ((v & Hv & Ho) & Hr & Hs). eapply reallocate_step; [done..|]. intros q b. by apply Hs.
  - intros ((v & Hv & Ho) & Hr & Hs). eapply reallocate_dtype_step; [done..|]. intros q b. by apply Hs.
  - intros (v & Hv & Ho). by eapply deallocate_step.
  - intros [(v & Hv & Ho) Hb]. by eapply attachBuffer_step.
  - intros [(v & Hv & Ho) Hb]. by eapply attachBuffer_described_step.
  - intros ((v & Hv & Ho) & Hb & Hsh). by eapply attachBuffer_shape_step.
  - intros (v & Hv & Ho). destruct (detachBuffer_step s p v Hi Hv Ho) as (s' & r & -> & Hi' & Hf').
    exists s'. by split_and!.
  - intros (v & Hv & Ho). by eapply setExternalDataPtr_step.
  - intros (v & Hv & Ho). by eapply setExternalDataPtr_described_step.
  - intros [(v & Hv & Ho) Hsh]. by eapply setExternalDataPtr_shape_step.
  - intros (v & Hv & Ho). by eapply setScalar_step.
  - intros (v & Hv & Ho). by eapply setString_step.
  - intros (v & Hv & Ho). destruct (clear_step s p v Hi Hv Ho) as (s' & Hs' & Hi' & Hf' & _).
    exists s'. by split_and!.
  - intros (v & Hv & Ho). by eapply apply_step.
  - intros [(v & Hv & Ho) He]. eapply apply_elems_step; [done..|]. by apply He.
  - intros (v & Hv & Ho). by eapply apply_type_step.
  - intros [(v & Hv & Ho) Hsh]. by eapply apply_shape_step.
  - intros (v & Hv & Ho). by eapply apply_dtype_step.
  - intros ((v & Hv & Ho) & (c & Hc & Hoc) & Hne & He & Hd).
    eapply copyView_step; [done|done|done|done|by apply He|done|by apply Hd].
Qed.

End SidreInv.

End SidreInv.
