(* ===== verification/SidreTheorems.v ===== *)
(** * Properties of Sidre's buffers and views

    The safety theorem over sequences of client operations, the functional
    behaviour of the main operations, and what the code does where its
    documentation says otherwise.  The witnesses use a concrete instance of the
    Conduit data types and of the allocator. *)

From S2P Require Import Prelude SidreCollections SidreState SidreView SidreViewProofs.

Module SidreTheorems.
Import Collections Sidre SidreView SidreInv.

(** ** A concrete Conduit and allocator *)

Record dtype := mkDtype { d_id : Z; d_num : Z; d_off : Z; d_str : Z; d_bytes : Z }.

(** The sizes of the leaf types: int8 to int64, uint8 to uint64, float32, float64 and
    characters, numbered from 3. *)
Definition leaf_bytes (t : Z) : Z := default 0 ([0; 0; 0; 1; 2; 4; 8; 1; 2; 4; 8; 4; 8; 1].[t]).

Definition leaf (t : Z) : dtype := mkDtype t 1 0 (leaf_bytes t) (leaf_bytes t).

#[export] Instance sample_conduit : Conduit := {
  DataType := dtype;
  Value := Z;
  EMPTY_ID := 0;
  dt_empty := mkDtype 0 0 0 0 0;
  dt_id := d_id;
  number_of_elements := d_num;
  element_bytes := fun d => Z.abs (d_bytes d);
  strided_bytes := fun d => d_str d * (d_num d - 1) + d_bytes d;
  dt_offset := d_off;
  dt_stride := d_str;
  valid_type := fun t => 3 <= t <= 13;
  default_dtype := leaf;
  set_number_of_elements := fun d n => mkDtype (d_id d) n (d_off d) (d_str d) (d_bytes d);
  set_offset := fun d o => mkDtype (d_id d) (d_num d) o (d_str d) (d_bytes d);
  set_stride := fun d k => mkDtype (d_id d) (d_num d) (d_off d) k (d_bytes d);
  value_dtype := fun _ => leaf 6
}.

#[export] Instance sample_conduit_laws : ConduitLaws.
Proof.
  split; cbn; try done.
  - intros t Ht. split; [done|lia].
  - intros t n Ht Hn. assert (0 <= leaf_bytes t).
    { unfold leaf_bytes. assert (t = 3 \/ t = 4 \/ t = 5 \/ t = 6 \/ t = 7 \/ t = 8 \/ t = 9 \/ t = 10 \/
        t = 11 \/ t = 12 \/ t = 13) as Hc by lia.
      repeat (destruct Hc as [->|Hc]; [by vm_compute|]). subst. by vm_compute. }
    rewrite Z.abs_eq by done. ring.
  - intros d. lia.
Qed.

Definition top_address (m : Mem) : Z := foldr Z.max 0 (map_to_list m).*1.

#[export] Instance sample_allocator : Allocator := {
  alloc := fun m n => if n <? 0 then None else Some (top_address m + 1, replicate (Z.to_nat n) 0)
}.

Lemma top_address_ge (m : Mem) a : is_Some (m !! a) -> a <= top_address m.
Proof.
  intros [bs Hbs%elem_of_map_to_list]. unfold top_address. revert Hbs.
  generalize (map_to_list m) as l. induction l as [|[k x] l IH]; intros Hin; [inversion Hin|].
  apply elem_of_cons in Hin as [[= -> ->]|Hin]; cbn; [lia|]. specialize (IH Hin). lia.
Qed.

#[export] Instance sample_allocator_laws : AllocatorLaws.
Proof.
  split. cbn. intros m n a bs. destruct (Z.ltb_spec n 0); [done|]. intros [= <- <-].
  assert (0 <= top_address m).
  { unfold top_address. generalize (map_to_list m).*1 as l. induction l; cbn; lia. }
  split_and!; [lia| |rewrite length_replicate; lia].
  destruct (m !! (top_address m + 1)) eqn:E; [|done].
  assert (top_address m + 1 <= top_address m); [apply top_address_ge; by rewrite E|lia].
Qed.

(** ** Sequences of client operations *)

Section theorems.
Context `{Conduit} `{!ConduitLaws} `{Allocator} `{!AllocatorLaws}.

(** Every operation of the sequence is legal in the state it is called in. *)
Fixpoint legal_run (s : DS) (ops : list op) : Prop :=
  match ops with
  | [] => True
  | o :: ops => legal s o /\ forall s', exec s o = Some s' -> legal_run s' ops
  end.

Fixpoint run (s : DS) (ops : list op) : option DS :=
  match ops with [] => Some s | o :: ops => s ← exec s o; run s ops end.

Lemma sidre_run_inv s ops :
  inv s -> legal_run s ops -> exists s', run s ops = Some s' /\ inv s' /\ frame s s'.
Proof.
  revert s. induction ops as [|o ops IH]; intros s Hi Hl; [by exists s|].
  destruct Hl as [Ho Hl]. destruct (exec_step s o Hi Ho) as (s1 & Hs1 & Hi1 & Hf1).
  destruct (IH s1 Hi1 (Hl s1 Hs1)) as (s2 & Hs2 & Hi2 & Hf2). exists s2.
  cbn [run]. rewrite Hs1. split_and!; [done|done|]. by trans s1.
Qed.


(** Clearing a view in any state leaves it [EMPTY], without buffer, external
    pointer, description or shape, and keeps the invariant. *)
Theorem view_clear_empties s p v :
  inv s -> views s !! p = Some v -> is_Some (m_owning_group v) ->
  exists s', View_clear s p = Some s' /\ inv s' /\ frame s s' /\
    exists v', views s' !! p = Some v' /\ m_state v' = EMPTY /\ m_schema v' = dt_empty /\
      m_shape v' = [] /\ m_data_buffer v' = None /\ m_external_ptr v' = 0 /\ m_is_applied v' = false.
Proof. apply clear_step. Qed.

(** Destroying a buffer removes it, frees its index, and sets exactly the views
    that were attached to it to [EMPTY] without data; every other buffer and view
    stays as it was. *)
Theorem destroy_buffer_detaches s p b :
  inv s -> bufs s !! p = Some b ->
  exists s', destroyBuffer s (Some p) = Some s' /\ inv s' /\ bufs s' !! p = None /\
    (forall q, q <> p -> bufs s' !! q = bufs s !! q) /\
    (forall q, views s' !! q = if decide (q ∈ b_views b) then setBufferViewToEmpty <$> views s !! q
                               else views s !! q) /\
    forall i, item_at (IndexedCollection.m_items (buffer_coll s')) i =
      if decide (i = b_index b) then None else item_at (IndexedCollection.m_items (buffer_coll s)) i.
Proof.
  intros Hi Hb. destruct (destroyBuffer_step s p b Hi Hb) as (s' & Hs' & Hi' & _ & Hp & Hb' & Hv' & _ & Hat).
  eauto 10.
Qed.

(** [destroyAllBuffers], which destroys while it iterates over the collection,
    terminates and leaves no buffer and no view with a buffer. *)
Theorem destroy_all_buffers s :
  inv s -> exists s', destroyAllBuffers s = Some s' /\ inv s' /\ bufs s' = ∅ /\
    forall p v, views s' !! p = Some v -> m_data_buffer v = None /\ m_state v <> BUFFER.
Proof.
  intros Hi. destruct (destroyAllBuffers_step s Hi) as (s' & Hs' & Hi' & _ & Hb). exists s'.
  split_and!; [done|done|done|]. intros p v Hv. pose proof (inv_views s' Hi' p v Hv) as Hok.
  assert (m_data_buffer v = None) as Hn.
  { destruct (m_data_buffer v) as [q|] eqn:Hq; [|done].
    destruct (vo_buffer s' p v Hok q Hq) as (_ & b & Hbq & _). by rewrite Hb, lookup_empty in Hbq. }
  split; [done|]. intros Hst. apply (vo_state s' p v Hok) in Hst. rewrite Hn in Hst. by destruct Hst.
Qed.

(** Allocating and applying a buffer that has no memory yet. *)
Lemma allocate_new s p v q b t n a bs :
  let d := set_number_of_elements (default_dtype t) n in
  views s !! p = Some v -> m_data_buffer v = Some q -> m_state v = BUFFER -> m_schema v = d ->
  bufs s !! q = Some b -> b_data b = 0 -> 0 <= n -> is_empty d = false -> 0 <= strided_bytes d < 2 ^ 31 ->
  alloc (mem s) (strided_bytes d) = Some (a, bs) -> a <> 0 ->
  exists s', (s ← Buffer_allocate s q t n; View_apply s p) = Some s' /\
    bufs s' !! q = Some (with_data b d a) /\ mem s' !! a = Some bs /\
    exists v', views s' !! p = Some v' /\ m_state v' = BUFFER /\ m_is_applied v' = true /\
      m_data_buffer v' = Some q /\ m_node v' = NExternal d a.
Proof.
  intros d Hv Hq Hst Hsc Hb Hz Hn Hde Hsb Hal Ha.
  unfold Buffer_allocate, Buffer_describe, Buffer_allocate0, Buffer_isAllocated, Buffer_isDescribed.
  rewrite Hb. cbn [mbind option_bind]. rewrite Hz. cbn [Z.eqb negb orb].
  rewrite (proj2 (Z.ltb_ge _ _)) by done. cbn [mbind option_bind].
  fold d. cbn [bufs set_buf]. rewrite lookup_insert_eq. cbn [mbind option_bind b_dtype b_data with_data].
  rewrite Hde. cbn [Z.eqb negb orb]. unfold Buffer_getTotalBytes, mem_alloc. cbn [b_dtype mem set_buf with_data].
  rewrite to_int32_id, Hal by lia.
  rewrite (proj2 (Z.eqb_neq a 0)) by done. cbn [negb]. cbn [mbind option_bind].
  match goal with |- exists s', View_apply ?x p = _ /\ _ => set (s2 := x) end.
  assert (bufs s2 !! q = Some (with_data b d a)) as Hb2 by (cbn; apply lookup_insert_eq).
  assert (views s2 !! p = Some v) as Hv2 by exact Hv.
  assert (mem s2 !! a = Some bs) as Hm2 by (cbn; apply lookup_insert_eq).
  unfold View_apply. rewrite Hv2. cbn [mbind option_bind]. unfold isApplyValid, isDescribed.
  rewrite Hsc, Hde. cbn [negb]. rewrite Hst, Hq. cbn [mbind option_bind]. rewrite Hb2. cbn [mbind option_bind].
  unfold getTotalBytes, Buffer_getTotalBytes. rewrite Hsc. cbn [b_dtype with_data]. rewrite to_int32_id by lia.
  rewrite (proj2 (Z.leb_le 0 _)), (proj2 (Z.leb_le (strided_bytes d) _)) by lia. cbn [andb negb mbind option_bind].
  eexists. split; [done|]. split; [done|]. split; [done|].
  eexists. split; [cbn; apply lookup_insert_eq|]. by split_and!.
Qed.

(** Allocating an empty view of [n] elements of a leaf type creates a buffer of
    that description that only this view is attached to; when memory is available,
    the view is applied, reads the new block, and the block has [n] times the
    element size bytes.  The number of elements and the bytes fit an [IndexType]. *)
Theorem view_allocate_correct s p v t n :
  inv s -> room s -> views s !! p = Some v -> is_Some (m_owning_group v) -> m_state v = EMPTY ->
  valid_type t -> 0 <= n < 2 ^ 31 -> n * element_bytes (default_dtype t) < 2 ^ 31 ->
  is_Some (alloc (mem s) (n * element_bytes (default_dtype t))) ->
  exists s' v' q b blk, View_allocate s p t n = Some s' /\ inv s' /\ views s' !! p = Some v' /\
    m_state v' = BUFFER /\ m_is_applied v' = true /\ m_data_buffer v' = Some q /\
    bufs s !! q = None /\ bufs s' !! q = Some b /\ b_views b = {[p]} /\
    Buffer_getTypeID b = t /\ Buffer_getNumElements b = n /\
    getVoidPtr v' = Addr (b_data b) /\ b_data b <> 0 /\ mem s' !! b_data b = Some blk /\
    vsize blk = n * element_bytes (default_dtype t).
Proof.
  intros Hi Hroom Hv Hg Hst Ht Hn Hbytes [[a bs] Hal]. destruct (valid_type_id t Ht) as [Hid Hne].
  pose proof (alloc_fresh _ _ _ _ Hal) as (Ha & _ & Hlen).
  set (d := set_number_of_elements (default_dtype t) n).
  assert (dt_id d = t) as Hdt by (unfold d; by rewrite set_number_of_elements_id).
  assert (is_empty d = false) as Hde by (unfold is_empty; rewrite Hdt; by apply Z.eqb_neq).
  assert (strided_bytes d = n * element_bytes (default_dtype t)) as Hsb by (apply default_strided_bytes; [done|lia]).
  pose proof (element_bytes_nonneg (default_dtype t)) as Heb.
  destruct (allocate_step s p v Hi Hv Hg t n Hroom) as (s' & Hs' & Hi' & _).
  destruct (describe_dtype_step s p v d Hi Hv) as (s0 & [= <-] & Hi0 & _).
  assert (isDescribed (describe_dtype v d) = true) as Hd0 by (unfold isDescribed; cbn; by rewrite Hde).
  destruct (createBuffer (set_view s p (describe_dtype v d))) as [s1 q] eqn:Hc.
  destruct (allocate0_empty _ p (describe_dtype v d) s1 q Hi0)
    as (idx & Hbs & Hfr & Hms & _ & _ & Hv3 & Heq); [done|cbn; apply lookup_insert_eq|done..|].
  destruct (allocate_new _ p _ q (with_views (Buffer_new idx) ({[p]} ∪ ∅)) t n a bs Hv3)
    as (s4 & Hs4 & Hb4 & Hm4 & v4 & Hv4 & Hst4 & Hap4 & Hq4 & Hn4); try done; try lia.
  { cbn. apply lookup_insert_eq. } { fold d. rewrite Hsb. nia. } { fold d. cbn. rewrite Hms, Hsb. exact Hal. }
  assert (View_allocate s p t n = Some s4) as Hs4'.
  { unfold View_allocate, NO_TYPE_ID. rewrite (proj2 (Z.eqb_neq _ _)), (proj2 (Z.ltb_ge _ _)) by (done || lia).
    cbn [orb]. rewrite Hv. cbn [mbind option_bind]. unfold describe. fold d. rewrite Heq, Hv3.
    cbn [mbind option_bind]. change (m_schema (set_buffer_state (describe_dtype v d) (Some q) BUFFER)) with d.
    rewrite Hdt. replace (number_of_elements d) with n by (symmetry; apply number_of_elements_set).
    rewrite to_int32_id by lia. exact Hs4. }
  assert (s' = s4) as -> by congruence.
  exists s4, v4, q, (with_data (with_views (Buffer_new idx) ({[p]} ∪ ∅)) d a), bs.
  split_and!; try done.
  - cbn. set_solver.
  - unfold Buffer_getNumElements. cbn [b_dtype with_data with_views]. unfold d.
    rewrite number_of_elements_set. apply to_int32_id. lia.
  - unfold getVoidPtr. by rewrite Hst4, Hap4, Hn4.
Qed.

(** [allocate(type, num_elems)] on a view that holds external data, a scalar or a
    string does not allocate, but replaces the description of the view and marks it
    as not applied. *)
Theorem allocate_overwrites_description s p v t n :
  views s !! p = Some v -> m_state v = EXTERNAL \/ m_state v = SCALAR \/ m_state v = STRING ->
  t <> NO_TYPE_ID -> 0 <= n ->
  exists v', View_allocate s p t n = Some (set_view s p v') /\ m_is_applied v' = false /\
    m_schema v' = set_number_of_elements (default_dtype t) n /\ m_shape v' = [to_int32 (number_of_elements (m_schema v'))] /\
    m_state v' = m_state v /\ m_node v' = m_node v.
Proof.
  intros Hv Hst Ht Hn. exists (describe v t n). split; [|by split_and!].
  unfold View_allocate. rewrite (proj2 (Z.eqb_neq _ _)), (proj2 (Z.ltb_ge _ _)) by done. cbn [orb].
  rewrite Hv. cbn [mbind option_bind]. unfold View_allocate0. cbn [views set_view]. rewrite lookup_insert_eq.
  cbn [mbind option_bind]. unfold isAllocateValid. cbn [m_state describe describe_dtype set_description].
  by destruct Hst as [->|[->| ->]].
Qed.

(** Attaching a buffer to an empty view that has no description leaves the view
    without description and not applied, whatever the description of the buffer. *)
Theorem attach_keeps_undescribed s p v q b :
  inv s -> views s !! p = Some v -> m_state v = EMPTY -> isDescribed v = false -> bufs s !! q = Some b ->
  exists s' v', View_attachBuffer s p (Some q) = Some s' /\ views s' !! p = Some v' /\
    m_state v' = BUFFER /\ m_data_buffer v' = Some q /\ isDescribed v' = false /\ m_is_applied v' = false.
Proof.
  intros Hi Hv Hst Hd Hb. unfold View_attachBuffer. rewrite Hv. cbn [mbind option_bind]. rewrite Hst.
  destruct (attach_sequence s p v q b Hi Hv Hst Hb) as (s1 & Hs1 & Hv1 & Heq). rewrite Hst in Hs1. rewrite Hs1.
  cbn [mbind option_bind]. rewrite Hv1. cbn [mbind option_bind].
  change (set_buffer_state (set_buffer_state v (Some q) EMPTY)
    (m_data_buffer (set_buffer_state v (Some q) EMPTY)) BUFFER) with (set_buffer_state v (Some q) BUFFER).
  rewrite Heq. cbn [bufs set_view set_buf]. rewrite lookup_insert_eq. cbn [mbind option_bind].
  change (isDescribed (set_buffer_state v (Some q) BUFFER)) with (isDescribed v). rewrite Hd. cbn [andb].
  do 2 eexists. split; [done|]. split; [cbn; apply lookup_insert_eq|]. split_and!; [done|done|done|].
  cbn. by apply (vo_empty s p v (inv_views s Hi p v Hv)).
Qed.

(** ** Stores without buffers *)

(** A view as [createView] leaves it in group [g]. *)
Definition created (name : string) (idx : Z) (g : ptr) : View :=
  mkView name idx (Some g) None dt_empty NEmpty [] 0 EMPTY false.

Lemma created_store_inv (vs : gmap ptr View) (gs : gmap ptr Group) nxt root :
  (forall p v, vs !! p = Some v -> exists name idx g, v = created name idx g) ->
  (forall p, is_Some (vs !! p) \/ is_Some (gs !! p) -> (p < nxt)%positive) ->
  inv (mkDS ∅ vs gs ∅ nxt IndexedCollection.empty root).
Proof.
  intros Hvs Hnxt. split; cbn.
  - intros p [[b Hb]|Hp]; [by rewrite lookup_empty in Hb|]. by apply Hnxt.
  - intros p v Hv. destruct (Hvs p v Hv) as (name & idx & g & ->). split; cbn; try done. by intros [?|?].
  - intros p b q Hb. by rewrite lookup_empty in Hb.
  - split; cbn.
    + apply (law_clear (CollectionLaws := IndexedCollection_laws) (IndexedCollection.empty (T := ptr))).
    + done.
    + intros p b Hb. by rewrite lookup_empty in Hb.
    + intros i p Hp. destruct (item_at_range _ _ _ Hp). unfold vsize in *. cbn in *. lia.
    + intros p b Hb. by rewrite lookup_empty in Hb.
    + intros p q b c Hb. by rewrite lookup_empty in Hb.
Qed.

End theorems.

(** ** A concrete store *)

(** A root group with two views, at pointers 1, 2 and 3. *)
Definition sample_store : DS :=
  mkDS ∅ {[2%positive := created "a" 0 1; 3%positive := created "b" 1 1]}
    {[1%positive := mkGroup "" InvalidIndex (Some 1%positive) false (CMap MapCollection.empty)
       (CMap MapCollection.empty)]} ∅ 4 IndexedCollection.empty 1.

Lemma sample_store_inv : inv sample_store.
Proof.
  apply created_store_inv.
  - intros p v Hv. destruct (decide (p = 2%positive)) as [->|]; simplify_map_eq; by do 3 eexists.
  - intros p [[v Hv]|[g Hg]].
    + destruct (decide (p = 2%positive)) as [->|]; [lia|]. destruct (decide (p = 3%positive)) as [->|]; [lia|].
      by simplify_map_eq.
    + destruct (decide (p = 1%positive)) as [->|]; [lia|]. by simplify_map_eq.
Qed.

(** Allocate both views, clear the first one and destroy all buffers. *)
Definition sample_ops : list op := [VAllocate 2 5 3; VAllocate 3 6 2; VClear 2; DDestroyAllBuffers].

Lemma sample_ops_legal : legal_run sample_store sample_ops.
Proof.
  cbn [legal_run sample_ops legal]. split.
  { split; [eexists; split; [vm_compute; reflexivity|done]|]. done. }
  intros s1 Hs1. vm_compute in Hs1. injection Hs1 as <-. split.
  { split; [eexists; split; [vm_compute; reflexivity|done]|]. done. }
  intros s2 Hs2. vm_compute in Hs2. injection Hs2 as <-. split.
  { eexists. split; [vm_compute; reflexivity|done]. }
  intros s3 Hs3. done.
Qed.


(** The store after the first view has been allocated: its buffer is at pointer 4. *)
Definition allocated_store : DS := default sample_store (exec sample_store (VAllocate 2 5 3)).

Lemma allocated_store_inv : inv allocated_store.
Proof.
  destruct (exec_step sample_store (VAllocate 2 5 3) sample_store_inv) as (s & Hs & Hi & _).
  - split; [eexists; split; [vm_compute; reflexivity|done]|done].
  - unfold allocated_store. by rewrite Hs.
Qed.

Lemma view_clear_empties_witness :
  exists s', View_clear allocated_store 2 = Some s' /\ inv s' /\ frame allocated_store s' /\
    exists v', views s' !! 2%positive = Some v' /\ m_state v' = EMPTY /\ m_schema v' = dt_empty /\
      m_shape v' = [] /\ m_data_buffer v' = None /\ m_external_ptr v' = 0 /\ m_is_applied v' = false.
Proof.
  eapply (view_clear_empties allocated_store 2); [exact allocated_store_inv|vm_compute; reflexivity|].
  eexists. reflexivity.
Defined.

Lemma destroy_buffer_detaches_witness :
  exists s', destroyBuffer allocated_store (Some 4%positive) = Some s' /\ inv s' /\
    bufs s' !! 4%positive = None.
Proof.
  edestruct (destroy_buffer_detaches allocated_store 4) as (s' & Hs & Hi & Hb & _);
    [exact allocated_store_inv|vm_compute; reflexivity|].
  exists s'. split; [exact Hs|]. split; [exact Hi|exact Hb].
Defined.

Lemma destroy_all_buffers_witness :
  exists s', destroyAllBuffers allocated_store = Some s' /\ bufs s' = ∅.
Proof.
  destruct (destroy_all_buffers allocated_store allocated_store_inv) as (s' & Hs & _ & Hb & _).
  exists s'. split; [exact Hs|exact Hb].
Defined.

Lemma view_allocate_correct_witness :
  exists s' q b, View_allocate sample_store 3 6 10 = Some s' /\ bufs s' !! q = Some b /\
    Buffer_getNumElements b = 10.
Proof.
  edestruct (view_allocate_correct sample_store 3) with (t := 6) (n := 10)
    as (s' & v' & q & b & blk & Hs & _ & _ & _ & _ & _ & _ & Hb & _ & _ & Hn & _).
  - exact sample_store_inv.
  - done.
  - vm_compute. reflexivity.
  - eexists. reflexivity.
  - reflexivity.
  - cbn. lia.
  - lia.
  - vm_compute. reflexivity.
  - eexists. vm_compute. reflexivity.
  - exists s', q, b. split; [exact Hs|]. split; [exact Hb|exact Hn].
Defined.

(** The second view holds a scalar. *)
Definition scalar_store : DS := default sample_store (View_setScalar sample_store 3 42).

Lemma allocate_overwrites_description_witness :
  exists v', View_allocate scalar_store 3 5 7 = Some (set_view scalar_store 3 v') /\ m_is_applied v' = false /\
    m_state v' = SCALAR.
Proof.
  edestruct (allocate_overwrites_description scalar_store 3) with (t := 5) (n := 7)
    as (v' & Hs & Ha & _ & _ & Hst & _);
    [vm_compute; reflexivity|right; left; reflexivity|discriminate|lia|].
  exists v'. split; [exact Hs|]. split; [exact Ha|exact Hst].
Defined.

Lemma attach_keeps_undescribed_witness :
  exists s' v', View_attachBuffer allocated_store 3 (Some 4%positive) = Some s' /\
    views s' !! 3%positive = Some v' /\ m_state v' = BUFFER /\ isDescribed v' = false.
Proof.
  edestruct (attach_keeps_undescribed allocated_store 3) with (q := 4%positive)
    as (s' & v' & Hs & Hv & Hst & _ & Hd & _);
    [exact allocated_store_inv|vm_compute; reflexivity|reflexivity|reflexivity|vm_compute; reflexivity|].
  exists s', v'. split; [exact Hs|]. split; [exact Hv|]. split; [exact Hst|exact Hd].
Defined.

(** ** Behaviour that leaves stale pointers *)

(** Allocating 2^29 elements of 8 bytes succeeds with a block of no bytes: the 2^32
    bytes of the data type are 0 as an [IndexType], and [apply] compares 0 with 0. *)
Example allocate_truncates :
  exists s' v b, exec sample_store (VAllocate 2 6 (2 ^ 29)) = Some s' /\
    views s' !! 2%positive = Some v /\ m_is_applied v = true /\ getNumElements v = 2 ^ 29 /\
    strided_bytes (m_schema v) = 2 ^ 32 /\
    m_data_buffer v = Some 4%positive /\ bufs s' !! 4%positive = Some b /\ b_data b <> 0 /\
    mem s' !! b_data b = Some [].
Proof.
  do 3 eexists. split; [vm_compute; reflexivity|]. split; [vm_compute; reflexivity|].
  split; [reflexivity|]. split; [vm_compute; reflexivity|]. split; [vm_compute; reflexivity|].
  split; [reflexivity|]. split; [vm_compute; reflexivity|]. split; [discriminate|vm_compute; reflexivity].
Qed.

(** [Buffer::reallocate] moves the data without telling the attached views: a view
    that was applied keeps, as applied, a pointer to the freed block. *)
Theorem reallocate_leaves_dangling_view :
  exists s' v b a,
    run sample_store [VAllocate 2 5 3; VAllocate 3 6 2; BReallocate 4 100] = Some s' /\
    views s' !! 2%positive = Some v /\ m_is_applied v = true /\ m_data_buffer v = Some 4%positive /\
    bufs s' !! 4%positive = Some b /\ getVoidPtr v = Addr a /\ a <> b_data b /\ mem s' !! a = None.
Proof.
  do 4 eexists. split; [vm_compute; reflexivity|].
  split; [vm_compute; reflexivity|]. split; [reflexivity|]. split; [reflexivity|].
  split; [vm_compute; reflexivity|]. split; [reflexivity|]. split; [discriminate|vm_compute; reflexivity].
Qed.

(** [importArrayNode] on a view that already has a buffer does not detach it from
    that buffer: the old buffer still lists the view, which now has another buffer,
    so the invariant is broken. *)
Theorem importArrayNode_breaks_attachment :
  exists s' v b,
    View_importArrayNode allocated_store 2 5 2 (replicate 8 1) = Some s' /\
    views s' !! 2%positive = Some v /\ bufs s' !! 4%positive = Some b /\ 2%positive ∈ b_views b /\
    m_data_buffer v <> Some 4%positive /\ ~ inv s'.
Proof.
  do 3 eexists. split; [vm_compute; reflexivity|].
  split; [vm_compute; reflexivity|]. split; [vm_compute; reflexivity|].
  split; [by apply (bool_decide_unpack _); vm_compute|]. split; [discriminate|].
  intros Hi. edestruct (inv_attached _ Hi 4%positive) with (q := 2%positive) as (v & Hv & Hd);
    [vm_compute; reflexivity|by apply (bool_decide_unpack _); vm_compute|].
  vm_compute in Hv. injection Hv as <-. discriminate.
Qed.

(** Deep-copying a described view whose buffer is not allocated does not return:
    it reads the elements through the null pointer of the view. *)
Theorem deepCopyView_unallocated_fails :
  exists s b,
    run sample_store [DCreateBuffer; BDescribe 4 5 3; VAttachBufferDesc 2 5 3 (Some 4%positive)] = Some s /\
    inv s /\ bufs s !! 4%positive = Some b /\ Buffer_isAllocated b = false /\
    View_deepCopyView s 2 3 = None.
Proof.
  destruct (sidre_run_inv sample_store
    [DCreateBuffer; BDescribe 4 5 3; VAttachBufferDesc 2 5 3 (Some 4%positive)] sample_store_inv)
    as (s & Hs & Hi & _).
  { cbn [legal_run legal]. split; [done|]. intros s1 Hs1. vm_compute in Hs1. injection Hs1 as <-.
    split; [eexists; vm_compute; reflexivity|]. intros s2 Hs2. vm_compute in Hs2. injection Hs2 as <-.
    split; [|done]. split; [eexists; split; [vm_compute; reflexivity|done]|].
    intros q [= <-]. eexists. vm_compute. reflexivity. }
  exists s. vm_compute in Hs. injection Hs as <-.
  eexists. split; [vm_compute; reflexivity|]. split; [exact Hi|]. split; [vm_compute; reflexivity|].
  split; [reflexivity|vm_compute; reflexivity].
Qed.

End SidreTheorems.
