(* ===== verification/SidreGroup.v ===== *)
(** * Groups of Sidre

    [Group] ([Group.cpp], [Group.hpp]), the renaming and the path of [View]
    ([View.cpp]) and the constructor and destructor of [DataStore]
    ([DataStore.cpp]).  A group owns its views and child groups through two
    collections, which find items by name unless the group uses the list format; the
    paths of its methods are walked from group to group.

    A function that returns a pointer gives an [option ptr], [None] being null, inside
    the [option] whose [None] is undefined behaviour: a null or dangling pointer that is
    dereferenced, or the cast of a list collection to a named one. *)

From Stdlib Require Import Ascii.
From S2P Require Import Prelude PathStrings SidreCollections SidreState SidreView.

Module SidreGroup.
Import PathStrings Collections Sidre SidreView.

(** ** The collections of a group *)

(** The calls through [ItemCollection] on the class a collection has. *)
Definition coll_slots (c : Coll) : list (option ptr) :=
  match c with CMap c => MapCollection.m_items c | CList c => ListCollection.m_items c end.
Definition coll_getNumItems (c : Coll) : Z :=
  match c with CMap c => MapCollection.getNumItems c | CList c => ListCollection.getNumItems c end.
Definition coll_first (c : Coll) : option Z :=
  match c with
  | CMap c => MapCollection.getFirstValidIndex c
  | CList c => ListCollection.getFirstValidIndex c
  end.
Definition coll_next (c : Coll) (idx : Z) : option Z :=
  match c with
  | CMap c => MapCollection.getNextValidIndex c idx
  | CList c => ListCollection.getNextValidIndex c idx
  end.
Definition coll_hasItem (c : Coll) (idx : Z) : bool :=
  match c with CMap c => MapCollection.hasItem c idx | CList c => ListCollection.hasItem c idx end.
Definition coll_getItem (c : Coll) (idx : Z) : option ptr :=
  match c with CMap c => MapCollection.getItem c idx | CList c => ListCollection.getItem c idx end.
Definition coll_insertItem (c : Coll) (item : ptr) (name : string) : Coll * Z :=
  match c with
  | CMap c => let '(c, idx) := MapCollection.insertItem c item name in (CMap c, idx)
  | CList c => let '(c, idx) := ListCollection.insertItem c item name in (CList c, idx)
  end.
Definition coll_removeAllItems (c : Coll) : Coll :=
  match c with
  | CMap c => CMap (MapCollection.removeAllItems c)
  | CList c => CList (ListCollection.removeAllItems c)
  end.

(** Removal by index; a named collection reads the name of the item, [name] of it. *)
Definition coll_removeItem (name : ptr -> option string) (c : Coll) (idx : Z) : option (Coll * option ptr) :=
  match c with
  | CMap c =>
    match MapCollection.getItem c idx with
    | Some item =>
      nm ← name item;
      let '(c, r) := MapCollection.removeItem (fun _ => nm) c idx in Some (CMap c, r)
    | None => Some (CMap c, None)
    end
  | CList c => let '(c, r) := ListCollection.removeItem c idx in Some (CList c, r)
  end.

(** ** Group: state *)

Section SidreGroup.
Context `{Conduit} `{Allocator}.

Definition Group_new (name : string) (is_list : bool) : Group :=
  if is_list then
    mkGroup name InvalidIndex None is_list (CList ListCollection.empty) (CList ListCollection.empty)
  else
    mkGroup name InvalidIndex None is_list (CMap MapCollection.empty) (CMap MapCollection.empty).

Definition with_gviews (g : Group) (c : Coll) : Group :=
  mkGroup (g_name g) (g_index g) (g_parent g) (g_is_list g) c (g_groups g).
Definition with_ggroups (g : Group) (c : Coll) : Group :=
  mkGroup (g_name g) (g_index g) (g_parent g) (g_is_list g) (g_views g) c.
Definition with_gname (g : Group) (name : string) : Group :=
  mkGroup name (g_index g) (g_parent g) (g_is_list g) (g_views g) (g_groups g).
Definition with_parent (g : Group) (p : option ptr) (idx : Z) : Group :=
  mkGroup (g_name g) idx p (g_is_list g) (g_views g) (g_groups g).
Definition with_owner (v : View) (g : option ptr) (idx : Z) : View :=
  mkView (m_name v) idx g (m_data_buffer v) (m_schema v) (m_node v) (m_shape v) (m_external_ptr v)
    (m_state v) (m_is_applied v).
Definition with_vname (v : View) (name : string) : View :=
  mkView name (m_index v) (m_owning_group v) (m_data_buffer v) (m_schema v) (m_node v) (m_shape v)
    (m_external_ptr v) (m_state v) (m_is_applied v).

Definition view_name (s : DS) (p : ptr) : option string := v ← views s !! p; Some (m_name v).
Definition group_name (s : DS) (p : ptr) : option string := g ← groups s !! p; Some (g_name g).

(** ** Group: queries *)

Definition isUsingMap (g : Group) : bool := negb (g_is_list g).
Definition isUsingList (g : Group) : bool := g_is_list g.
Definition isRoot (g : ptr) (gr : Group) : bool := bool_decide (g_parent gr = Some g).

Definition as_named (c : Coll) : option (MapCollection.t ptr) :=
  match c with CMap c => Some c | CList _ => None end.
Definition getNamedViews (g : Group) : option (MapCollection.t ptr) := as_named (g_views g).
Definition getNamedGroups (g : Group) : option (MapCollection.t ptr) := as_named (g_groups g).

Definition coll_hasName (c : Coll) (name : string) : bool :=
  match as_named c with Some c => MapCollection.hasItem_name c name | None => false end.
Definition hasChildView (g : Group) (name : string) : bool :=
  if isUsingMap g then coll_hasName (g_views g) name else false.
Definition hasChildGroup (g : Group) (name : string) : bool :=
  if isUsingMap g then coll_hasName (g_groups g) name else false.

Definition getNumViews (g : Group) : Z := coll_getNumItems (g_views g).
Definition getNumGroups (g : Group) : Z := coll_getNumItems (g_groups g).
Definition hasView_idx (g : Group) (idx : Z) : bool := coll_hasItem (g_views g) idx.
Definition hasGroup_idx (g : Group) (idx : Z) : bool := coll_hasItem (g_groups g) idx.
Definition getView_idx (g : Group) (idx : Z) : option ptr := coll_getItem (g_views g) idx.
Definition getGroup_idx (g : Group) (idx : Z) : option ptr := coll_getItem (g_groups g) idx.
Definition getFirstValidViewIndex (g : Group) : option Z := coll_first (g_views g).
Definition getNextValidViewIndex (g : Group) (idx : Z) : option Z := coll_next (g_views g) idx.
Definition getFirstValidGroupIndex (g : Group) : option Z := coll_first (g_groups g).
Definition getNextValidGroupIndex (g : Group) (idx : Z) : option Z := coll_next (g_groups g) idx.
Definition getViewIndex (g : Group) (name : string) : option Z :=
  c ← getNamedViews g; Some (MapCollection.getItemIndex c name).
Definition getGroupIndex (g : Group) (name : string) : option Z :=
  c ← getNamedGroups g; Some (MapCollection.getItemIndex c name).
Definition getViewName (s : DS) (g : Group) (idx : Z) : option string :=
  c ← getNamedViews g;
  match MapCollection.getItem c idx with Some v => view_name s v | None => Some InvalidName end.
Definition getGroupName (s : DS) (g : Group) (idx : Z) : option string :=
  c ← getNamedGroups g;
  match MapCollection.getItem c idx with Some q => group_name s q | None => Some InvalidName end.

(** *** Paths *)

Definition s_path_delimiter : Ascii.ascii := "/"%char.
Definition path_parts (path : string) : list string := m_components (Path_of path s_path_delimiter).

(** The child group of a name that [hasChildGroup] has found. *)
Definition childGroup (g : Group) (name : string) : option ptr :=
  c ← getNamedGroups g; MapCollection.getItem_name c name.

(** The loop of the const [walkPath] over all parts but the last. *)
Fixpoint walk_const (s : DS) (g : ptr) (parts : list string) : option (option ptr) :=
  match parts with
  | [] | [_] => Some (Some g)
  | x :: rest =>
    gr ← groups s !! g;
    if hasChildGroup gr x then g' ← childGroup gr x; walk_const s g' rest else Some None
  end.

Definition walkPath_const (s : DS) (g : ptr) (path : string) : option (option ptr * string) :=
  match path_parts path with
  | [] => Some (Some g, path)
  | parts => r ← walk_const s g parts; Some (r, List.last parts EmptyString)
  end.

Definition hasView (s : DS) (g : ptr) (path : string) : option bool :=
  '(group, intpath) ← walkPath_const s g path;
  match group with None => Some false | Some q => gr ← groups s !! q; Some (hasChildView gr intpath) end.

Definition hasGroup (s : DS) (g : ptr) (path : string) : option bool :=
  '(group, intpath) ← walkPath_const s g path;
  match group with None => Some false | Some q => gr ← groups s !! q; Some (hasChildGroup gr intpath) end.

Definition getView_const (s : DS) (g : ptr) (path : string) : option (option ptr) :=
  '(group, intpath) ← walkPath_const s g path;
  match group with
  | None => Some None
  | Some q => gr ← groups s !! q; c ← getNamedViews gr; Some (MapCollection.getItem_name c intpath)
  end.

Definition getGroup_const (s : DS) (g : ptr) (path : string) : option (option ptr) :=
  '(group, intpath) ← walkPath_const s g path;
  match group with
  | None => Some None
  | Some q => gr ← groups s !! q; c ← getNamedGroups gr; Some (MapCollection.getItem_name c intpath)
  end.

(** [getPath]: the loop ends at the root group. *)
Fixpoint getPath_loop (n : nat) (s : DS) (curr : ptr) (thePath : string) : option string :=
  match n with
  | O => None
  | S n =>
    if bool_decide (curr = m_RootGroup s) then Some thePath else
    cr ← groups s !! curr; next ← g_parent cr;
    getPath_loop n s next (g_name cr ++ String s_path_delimiter thePath)%string
  end.

Definition getPath (n : nat) (s : DS) (g : ptr) : option string :=
  gr ← groups s !! g; curr ← g_parent gr; cr ← groups s !! curr; next ← g_parent cr;
  getPath_loop n s next (g_name cr).

Definition path_then_name (path name : string) : string :=
  if String.eqb path EmptyString then name else (path ++ String s_path_delimiter name)%string.

Definition getPathName (n : nat) (s : DS) (g : ptr) : option string :=
  gr ← groups s !! g; path ← getPath n s g; Some (path_then_name path (g_name gr)).

Definition View_getPath (n : nat) (s : DS) (p : ptr) : option string :=
  v ← views s !! p; g ← m_owning_group v; getPathName n s g.

Definition View_getPathName (n : nat) (s : DS) (p : ptr) : option string :=
  v ← views s !! p; path ← View_getPath n s p; Some (path_then_name path (m_name v)).

(** ** Attaching and detaching *)

Definition attachView (s : DS) (g : ptr) (view : option ptr) : option (DS * option ptr) :=
  match view with
  | None => Some (s, None)
  | Some p =>
    gr ← groups s !! g; v ← views s !! p;
    if str_nonempty (m_name v) && hasChildView gr (m_name v) then Some (s, None) else
    let '(c, idx) := coll_insertItem (g_views gr) p (m_name v) in
    Some (set_view (set_group s g (with_gviews gr c)) p (with_owner v (Some g) idx), Some p)
  end.

(** The view a removal returned is told that it has no owner. *)
Definition orphan_view (s : DS) (view : option ptr) : option (DS * option ptr) :=
  match view with
  | None => Some (s, None)
  | Some p => v ← views s !! p; Some (set_view s p (with_owner v None InvalidIndex), Some p)
  end.

Definition detachView (s : DS) (g : ptr) (name : string) : option (DS * option ptr) :=
  gr ← groups s !! g; c ← getNamedViews gr;
  let '(c, view) := MapCollection.removeItem_name c name in
  orphan_view (set_group s g (with_gviews gr (CMap c))) view.

Definition detachView_idx (s : DS) (g : ptr) (idx : Z) : option (DS * option ptr) :=
  gr ← groups s !! g;
  '(c, view) ← coll_removeItem (view_name s) (g_views gr) idx;
  orphan_view (set_group s g (with_gviews gr c)) view.

Definition attachGroup (s : DS) (g : ptr) (group : option ptr) : option (DS * option ptr) :=
  match group with
  | None => Some (s, None)
  | Some q =>
    gr ← groups s !! g; qr ← groups s !! q;
    if str_nonempty (g_name qr) && hasChildGroup gr (g_name qr) then Some (s, None) else
    let '(c, idx) := coll_insertItem (g_groups gr) q (g_name qr) in
    let s := set_group s g (with_ggroups gr c) in
    qr ← groups s !! q;
    Some (set_group s q (with_parent qr (Some g) idx), Some q)
  end.

Definition orphan_group (s : DS) (group : option ptr) : option (DS * option ptr) :=
  match group with
  | None => Some (s, None)
  | Some q => qr ← groups s !! q; Some (set_group s q (with_parent qr None InvalidIndex), Some q)
  end.

Definition detachGroup (s : DS) (g : ptr) (name : string) : option (DS * option ptr) :=
  gr ← groups s !! g; c ← getNamedGroups gr;
  let '(c, group) := MapCollection.removeItem_name c name in
  orphan_group (set_group s g (with_ggroups gr (CMap c))) group.

Definition detachGroup_idx (s : DS) (g : ptr) (idx : Z) : option (DS * option ptr) :=
  gr ← groups s !! g;
  '(c, group) ← coll_removeItem (group_name s) (g_groups gr) idx;
  orphan_group (set_group s g (with_ggroups gr c)) group.

(** ** Creating groups, and walking a path *)

(** [createGroup] once the group that gets the child is found.  A part of a path has
    no delimiter, so that [createGroup] of a part is this function. *)
Definition createGroup_in (s : DS) (group : ptr) (intpath : string) (is_list : bool)
    : option (DS * option ptr) :=
  gr ← groups s !! group;
  if negb (str_nonempty intpath) || hasChildGroup gr intpath || hasChildView gr intpath then Some (s, None)
  else let '(s, new_group) := new_group s (Group_new intpath is_list) in
       attachGroup s group (Some new_group).

(** The loop of [walkPath] over all parts but the last. *)
Fixpoint walk_loop (s : DS) (g : ptr) (parts : list string) (create_groups_in_path : bool)
    : option (DS * option ptr) :=
  match parts with
  | [] | [_] => Some (s, Some g)
  | x :: rest =>
    gr ← groups s !! g;
    if hasChildGroup gr x then g' ← childGroup gr x; walk_loop s g' rest create_groups_in_path
    else if create_groups_in_path then
      '(s, group) ← createGroup_in s g x false;
      match group with Some g' => walk_loop s g' rest create_groups_in_path | None => Some (s, None) end
    else Some (s, None)
  end.

Definition walkPath (s : DS) (g : ptr) (path : string) (create_groups_in_path : bool)
    : option (DS * (option ptr * string)) :=
  gr ← groups s !! g;
  match path_parts path with
  | [] => Some (s, (Some g, path))
  | parts =>
    if g_is_list gr && (1 <? length parts)%nat then Some (s, (None, path)) else
    '(s, group) ← walk_loop s g parts create_groups_in_path;
    Some (s, (group, List.last parts EmptyString))
  end.

Definition createGroup (s : DS) (g : ptr) (path : string) (is_list : bool) : option (DS * option ptr) :=
  '(s, r) ← walkPath s g path true;
  let '(group, intpath) := r in
  match group with None => Some (s, None) | Some q => createGroup_in s q intpath is_list end.

Definition createUnnamedGroup (s : DS) (g : ptr) (is_list : bool) : option (DS * option ptr) :=
  gr ← groups s !! g;
  if g_is_list gr then
    let '(s, new_group) := new_group s (Group_new EmptyString is_list) in attachGroup s g (Some new_group)
  else Some (s, None).

(** The lookups of the non-const group: they walk without creating groups. *)
Definition getView (s : DS) (g : ptr) (path : string) : option (option ptr) :=
  '(s, r) ← walkPath s g path false;
  let '(group, intpath) := r in
  match group with
  | None => Some None
  | Some q => gr ← groups s !! q; c ← getNamedViews gr; Some (MapCollection.getItem_name c intpath)
  end.

Definition getGroup (s : DS) (g : ptr) (path : string) : option (option ptr) :=
  '(s, r) ← walkPath s g path false;
  let '(group, intpath) := r in
  match group with
  | None => Some None
  | Some q => gr ← groups s !! q; c ← getNamedGroups gr; Some (MapCollection.getItem_name c intpath)
  end.

(** ** Creating views *)

Definition createView_in (s : DS) (group : ptr) (intpath : string) : option (DS * option ptr) :=
  let '(s, view) := new_view s (View_new intpath) in
  '(s, _attached) ← attachView s group (Some view); Some (s, Some view).

Definition createView (s : DS) (g : ptr) (path : string) : option (DS * option ptr) :=
  gr ← groups s !! g;
  if negb (str_nonempty path) then
    if g_is_list gr then createView_in s g path else Some (s, None)
  else
    '(s, r) ← walkPath s g path true;
    let '(group, intpath) := r in
    match group with
    | None => Some (s, None)
    | Some q =>
      qr ← groups s !! q;
      if negb (str_nonempty intpath) || hasChildView qr intpath || hasChildGroup qr intpath then Some (s, None)
      else createView_in s q intpath
    end.

(** The overloads create a view and then call a method of it. *)
Definition then_view (r : option (DS * option ptr)) (k : DS -> ptr -> option DS) : option (DS * option ptr) :=
  '(s, view) ← r;
  match view with None => Some (s, None) | Some p => s ← k s p; Some (s, view) end.

Definition on_view (f : View -> option View) (s : DS) (p : ptr) : option DS :=
  v ← views s !! p; v ← f v; Some (set_view s p v).

Definition createView_described (s : DS) (g : ptr) (path : string) (type num_elems : Z)
    : option (DS * option ptr) :=
  if (type =? NO_TYPE_ID) || (num_elems <? 0) then Some (s, None) else
  then_view (createView s g path) (on_view (fun v => Some (describe v type num_elems))).

(** An array argument has [ndims] entries, which are not negative in number. *)
Definition createViewWithShape (s : DS) (g : ptr) (path : string) (type : Z) (shape : option (list Z))
    : option (DS * option ptr) :=
  if (type =? NO_TYPE_ID) || negb (bool_decide (is_Some shape)) then Some (s, None) else
  then_view (createView s g path) (on_view (fun v => describe_shape v type shape)).

Definition createView_dtype (s : DS) (g : ptr) (path : string) (dtype : DataType) : option (DS * option ptr) :=
  then_view (createView s g path) (on_view (fun v => Some (describe_dtype v dtype))).

Definition createView_buffer (s : DS) (g : ptr) (path : string) (buff : option ptr) : option (DS * option ptr) :=
  then_view (createView s g path) (fun s p => View_attachBuffer s p buff).
Definition createView_described_buffer (s : DS) (g : ptr) (path : string) (type num_elems : Z)
    (buff : option ptr) : option (DS * option ptr) :=
  then_view (createView_described s g path type num_elems) (fun s p => View_attachBuffer s p buff).
Definition createViewWithShape_buffer (s : DS) (g : ptr) (path : string) (type : Z) (shape : option (list Z))
    (buff : option ptr) : option (DS * option ptr) :=
  then_view (createViewWithShape s g path type shape) (fun s p => View_attachBuffer s p buff).
Definition createView_dtype_buffer (s : DS) (g : ptr) (path : string) (dtype : DataType) (buff : option ptr)
    : option (DS * option ptr) :=
  then_view (createView_dtype s g path dtype) (fun s p => View_attachBuffer s p buff).

Definition createView_external (s : DS) (g : ptr) (path : string) (external_ptr : Z) : option (DS * option ptr) :=
  then_view (createView s g path) (fun s p => View_setExternalDataPtr s p external_ptr).
Definition createView_described_external (s : DS) (g : ptr) (path : string) (type num_elems external_ptr : Z)
    : option (DS * option ptr) :=
  then_view (createView_described s g path type num_elems)
    (fun s p => View_setExternalDataPtr s p external_ptr).
Definition createViewWithShape_external (s : DS) (g : ptr) (path : string) (type : Z) (shape : option (list Z))
    (external_ptr : Z) : option (DS * option ptr) :=
  then_view (createViewWithShape s g path type shape) (fun s p => View_setExternalDataPtr s p external_ptr).
Definition createView_dtype_external (s : DS) (g : ptr) (path : string) (dtype : DataType) (external_ptr : Z)
    : option (DS * option ptr) :=
  then_view (createView_dtype s g path dtype) (fun s p => View_setExternalDataPtr s p external_ptr).

Definition createViewAndAllocate (s : DS) (g : ptr) (path : string) (type num_elems : Z)
    : option (DS * option ptr) :=
  then_view (createView_described s g path type num_elems) View_allocate0.
Definition createViewWithShapeAndAllocate (s : DS) (g : ptr) (path : string) (type : Z)
    (shape : option (list Z)) : option (DS * option ptr) :=
  then_view (createViewWithShape s g path type shape) View_allocate0.
Definition createViewAndAllocate_dtype (s : DS) (g : ptr) (path : string) (dtype : DataType)
    : option (DS * option ptr) :=
  then_view (createView_dtype s g path dtype) View_allocate0.

Definition createViewString (s : DS) (g : ptr) (path : string) (value : Value) : option (DS * option ptr) :=
  then_view (createView s g path) (fun s p => View_setString s p value).

(** [createViewScalar] ([Group.hpp]). *)
Definition createViewScalar (s : DS) (g : ptr) (path : string) (value : Value) : option (DS * option ptr) :=
  then_view (createView s g path) (fun s p => View_setScalar s p value).

(** ** Loops over a collection that is read anew in each step *)

(** [sel] is the collection of the group [g]; the body gets the current index. *)
Fixpoint coll_loop (n : nat) (sel : Group -> Coll) (g : ptr) (body : DS -> Z -> option DS) (s : DS) (idx : Z)
    : option DS :=
  match n with
  | O => None
  | S n =>
    if negb (indexIsValid idx) then Some s else
    s ← body s idx;
    gr ← groups s !! g; idx ← coll_next (sel gr) idx;
    coll_loop n sel g body s idx
  end.

Definition for_coll (n : nat) (sel : Group -> Coll) (g : ptr) (body : DS -> Z -> option DS) (s : DS)
    : option DS :=
  gr ← groups s !! g; idx ← coll_first (sel gr); coll_loop n sel g body s idx.

(** A bound on the steps of a loop that does not insert. *)
Definition coll_fuel (c : Coll) : nat := S (S (length (coll_slots c))).

Definition clear_views (s : DS) (g : ptr) : option DS :=
  gr ← groups s !! g; Some (set_group s g (with_gviews gr (coll_removeAllItems (g_views gr)))).
Definition clear_groups (s : DS) (g : ptr) : option DS :=
  gr ← groups s !! g; Some (set_group s g (with_ggroups gr (coll_removeAllItems (g_groups gr)))).

(** ** Destroying views *)

Definition delete_opt (s : DS) (view : option ptr) : option DS :=
  match view with None => Some s | Some p => View_delete s p end.

Definition destroyView (s : DS) (g : ptr) (path : string) : option DS :=
  '(s, r) ← walkPath s g path false;
  let '(group, intpath) := r in
  match group with
  | None => Some s
  | Some q => '(s, view) ← detachView s q intpath; delete_opt s view
  end.

Definition destroyView_idx (s : DS) (g : ptr) (idx : Z) : option DS :=
  '(s, view) ← detachView_idx s g idx; delete_opt s view.

Definition destroyViews (s : DS) (g : ptr) : option DS :=
  gr ← groups s !! g;
  s ← for_coll (coll_fuel (g_views gr)) g_views g (fun s idx => destroyView_idx s g idx) s;
  clear_views s g.

(** The private [destroyViewAndData(view)]. *)
Definition destroyViewAndData (s : DS) (view : option ptr) : option DS :=
  match view with
  | None => Some s
  | Some p =>
    v ← views s !! p; g ← m_owning_group v;
    '(s, _detached) ← detachView s g (m_name v);
    '(s, buffer) ← View_detachBuffer s p;
    s ← (match buffer with
         | Some q => b ← bufs s !! q; if Buffer_getNumViews b =? 0 then destroyBuffer s (Some q) else Some s
         | None => Some s
         end);
    View_delete s p
  end.

Definition destroyViewAndData_path (s : DS) (g : ptr) (path : string) : option DS :=
  view ← getView s g path; destroyViewAndData s view.

Definition destroyViewAndData_idx (s : DS) (g : ptr) (idx : Z) : option DS :=
  gr ← groups s !! g; destroyViewAndData s (getView_idx gr idx).

Definition destroyViewsAndData (s : DS) (g : ptr) : option DS :=
  gr ← groups s !! g;
  s ← for_coll (coll_fuel (g_views gr)) g_views g (fun s idx => destroyViewAndData_idx s g idx) s;
  clear_views s g.

(** ** Destroying groups *)

(** [destroyGroups]: the children are deleted with [del] while they are still in the
    collection. *)
Definition destroyGroups_with (del : DS -> ptr -> option DS) (s : DS) (g : ptr) : option DS :=
  gr ← groups s !! g;
  s ← for_coll (coll_fuel (g_groups gr)) g_groups g
        (fun s idx => gr ← groups s !! g;
                      match getGroup_idx gr idx with Some q => del s q | None => Some s end) s;
  clear_groups s g.

(** [~Group] and [delete]; the recursion is as deep as the tree. *)
Fixpoint Group_delete (n : nat) (s : DS) (g : ptr) : option DS :=
  match n with
  | O => None
  | S n =>
    s ← destroyViews s g;
    s ← destroyGroups_with (Group_delete n) s g;
    Some (del_group s g)
  end.

(** A bound on the depth of the tree. *)
Definition tree_fuel (s : DS) : nat := S (size (groups s)).

Definition destroyGroups (s : DS) (g : ptr) : option DS := destroyGroups_with (Group_delete (tree_fuel s)) s g.

Definition delete_group_opt (s : DS) (group : option ptr) : option DS :=
  match group with None => Some s | Some q => Group_delete (tree_fuel s) s q end.

Definition destroyGroup (s : DS) (g : ptr) (path : string) : option DS :=
  '(s, r) ← walkPath s g path false;
  let '(group, intpath) := r in
  match group with
  | None => Some s
  | Some q => '(s, target) ← detachGroup s q intpath; delete_group_opt s target
  end.

Definition destroyGroup_idx (s : DS) (g : ptr) (idx : Z) : option DS :=
  '(s, group) ← detachGroup_idx s g idx; delete_group_opt s group.

(** [destroyGroupAndData(idx)] and [destroyGroupSubtreeAndData] call each other. *)
Fixpoint destroyGroupSubtreeAndData (n : nat) (s : DS) (g : ptr) : option DS :=
  match n with
  | O => None
  | S n =>
    s ← destroyViewsAndData s g;
    gr ← groups s !! g;
    s ← for_coll (coll_fuel (g_groups gr)) g_groups g
          (fun s idx => '(s, group) ← detachGroup_idx s g idx;
                        match group with
                        | None => Some s
                        | Some q => s ← destroyGroupSubtreeAndData n s q; Group_delete n s q
                        end) s;
    clear_groups s g
  end.

Definition destroy_group_data_opt (s : DS) (group : option ptr) : option DS :=
  match group with
  | None => Some s
  | Some q => s ← destroyGroupSubtreeAndData (tree_fuel s) s q; Group_delete (tree_fuel s) s q
  end.

Definition destroyGroupAndData (s : DS) (g : ptr) (path : string) : option DS :=
  '(s, r) ← walkPath s g path false;
  let '(group, intpath) := r in
  match group with
  | None => Some s
  | Some q => '(s, target) ← detachGroup s q intpath; destroy_group_data_opt s target
  end.

Definition destroyGroupAndData_idx (s : DS) (g : ptr) (idx : Z) : option DS :=
  '(s, group) ← detachGroup_idx s g idx; destroy_group_data_opt s group.

Definition destroyGroupsAndData (s : DS) (g : ptr) : option DS :=
  gr ← groups s !! g;
  s ← for_coll (coll_fuel (g_groups gr)) g_groups g (fun s idx => destroyGroupAndData_idx s g idx) s;
  clear_groups s g.

(** ** Moving and copying *)

Definition moveView (s : DS) (g : ptr) (view : option ptr) : option (DS * option ptr) :=
  match view with
  | None => Some (s, None)
  | Some p =>
    v ← views s !! p; gr ← groups s !! g;
    if bool_decide (m_owning_group v = Some g) then Some (s, Some p) else
    if hasChildView gr (m_name v) then Some (s, None) else
    curr ← m_owning_group v;
    '(s, _detached) ← detachView s curr (m_name v);
    '(s, _attached) ← attachView s g (Some p);
    Some (s, Some p)
  end.

Definition copyView (s : DS) (g : ptr) (view : option ptr) : option (DS * option ptr) :=
  match view with
  | None => Some (s, None)
  | Some p =>
    v ← views s !! p; gr ← groups s !! g;
    if hasChildView gr (m_name v) then Some (s, None) else
    '(s, copy) ← createView s g (m_name v);
    c ← copy; s ← View_copyView s p c; Some (s, Some c)
  end.

Definition deepCopyView (s : DS) (g : ptr) (view : option ptr) : option (DS * option ptr) :=
  match view with
  | None => Some (s, None)
  | Some p =>
    v ← views s !! p; gr ← groups s !! g;
    if hasChildView gr (m_name v) then Some (s, None) else
    '(s, copy) ← createView s g (m_name v);
    c ← copy; s ← View_deepCopyView s p c; Some (s, Some c)
  end.

Definition moveGroup (s : DS) (g : ptr) (group : option ptr) : option (DS * option ptr) :=
  match group with
  | None => Some (s, None)
  | Some q =>
    gr ← groups s !! g; qr ← groups s !! q;
    if hasChildGroup gr (g_name qr) then Some (s, None) else
    curr ← g_parent qr;
    '(s, _detached) ← detachGroup s curr (g_name qr);
    '(s, _attached) ← attachGroup s g (Some q);
    Some (s, Some q)
  end.

(** [copyGroup] and [deepCopyGroup], which differ in how they copy the views; the
    loops iterate over the source while the copy grows. *)
Fixpoint copyGroup_with (copy : DS -> ptr -> option ptr -> option (DS * option ptr)) (n : nat) (s : DS)
    (g : ptr) (group : option ptr) : option (DS * option ptr) :=
  match n with
  | O => None
  | S n =>
    match group with
    | None => Some (s, None)
    | Some q =>
      gr ← groups s !! g; qr ← groups s !! q;
      if hasChildGroup gr (g_name qr) then Some (s, None) else
      '(s, res) ← createGroup s g (g_name qr) false;
      s ← for_coll n g_groups q
            (fun s idx => qr ← groups s !! q; grp ← getGroup_idx qr idx; r ← res;
                          '(s, _copied) ← copyGroup_with copy n s r (Some grp); Some s) s;
      s ← for_coll n g_views q
            (fun s idx => qr ← groups s !! q; view ← getView_idx qr idx; r ← res;
                          '(s, _copied) ← copy s r (Some view); Some s) s;
      Some (s, res)
    end
  end.

Definition copyGroup : nat -> DS -> ptr -> option ptr -> option (DS * option ptr) := copyGroup_with copyView.
Definition deepCopyGroup : nat -> DS -> ptr -> option ptr -> option (DS * option ptr) :=
  copyGroup_with deepCopyView.

(** ** Renaming *)

Definition View_rename (s : DS) (p : ptr) (new_name : string) : option (DS * bool) :=
  v ← views s !! p;
  if bool_decide (new_name = m_name v) then Some (s, true) else
  if negb (str_nonempty new_name) then Some (s, false) else
  parent ← m_owning_group v;
  if contains_char new_name s_path_delimiter then Some (s, false) else
  hasg ← hasGroup s parent new_name;
  clash ← (if (hasg : bool) then Some true else hasView s parent new_name);
  if (clash : bool) then Some (s, false) else
  '(s, detached) ← detachView s parent (m_name v);
  v ← views s !! p;
  let s := set_view s p (with_vname v new_name) in
  '(s, _attached) ← attachView s parent detached;
  Some (s, true).

Definition Group_rename (s : DS) (g : ptr) (new_name : string) : option (DS * bool) :=
  gr ← groups s !! g;
  if bool_decide (new_name = g_name gr) then Some (s, true) else
  if negb (str_nonempty new_name) then Some (s, false) else
  if contains_char new_name s_path_delimiter then Some (s, false) else
  match g_parent gr with
  | Some parent =>
    if bool_decide (g = m_RootGroup s) then Some (set_group s g (with_gname gr new_name), true) else
    hasg ← hasGroup s parent new_name;
    clash ← (if (hasg : bool) then Some true else hasView s parent new_name);
    if (clash : bool) then Some (s, false) else
    '(s, detached) ← detachGroup s parent (g_name gr);
    gr ← groups s !! g;
    let s := set_group s g (with_gname gr new_name) in
    '(s, _attached) ← attachGroup s parent detached;
    Some (s, true)
  | None => Some (set_group s g (with_gname gr new_name), true)
  end.

(** ** Queries over a subtree *)

(** The items of a collection in the order of iteration. *)
Definition coll_iterate (c : Coll) : option (list (Z * ptr)) :=
  match c with
  | CMap m => iterate (H := MapCollection_ItemCollection (fun _ => EmptyString)) (coll_fuel c) m
  | CList l => iterate (coll_fuel c) l
  end.

(** A conjunction over the items, with the loop's early exit. *)
Fixpoint all_items (f : ptr -> option bool) (l : list (Z * ptr)) : option bool :=
  match l with
  | [] => Some true
  | x :: l => b ← f x.2; if (b : bool) then all_items f l else Some false
  end.

Fixpoint Group_isEquivalentTo (n : nat) (s : DS) (g other : ptr) (checkName : bool) : option bool :=
  match n with
  | O => None
  | S n =>
    gr ← groups s !! g; or ← groups s !! other;
    if checkName && negb (bool_decide (g_name gr = g_name or)) then Some false else
    if negb ((getNumViews gr =? getNumViews or) && (getNumGroups gr =? getNumGroups or)) then Some false else
    vs ← coll_iterate (g_views gr);
    same_views ← all_items (fun p =>
      v ← views s !! p;
      if hasChildView or (m_name v) then
        o ← getView_const s other (m_name v); o ← o; ov ← views s !! o; Some (isEquivalentTo v ov)
      else Some false) vs;
    if negb same_views then Some false else
    gs ← coll_iterate (g_groups gr);
    all_items (fun p =>
      c ← groups s !! p;
      if hasChildGroup or (g_name c) then
        o ← getGroup_const s other (g_name c); o ← o; Group_isEquivalentTo n s p o true
      else Some false) gs
  end.

(** The fields of the node that [getDataInfo] fills in. *)
Record DataInfo := mkInfo {
  num_groups : Z;
  num_views : Z;
  num_views_empty : Z;
  num_views_buffer : Z;
  num_views_external : Z;
  num_views_scalar : Z;
  num_views_string : Z;
  num_bytes_assoc_with_views : Z;
  num_bytes_external : Z;
  buffer_ids : gset Z
}.

(** The loop body over the views of a group. *)
Definition add_view_info (s : DS) (n : DataInfo) (v : View) : option DataInfo :=
  let 'mkInfo ng nv ne nb nx nsc nst ba be ids := n in
  if isExternal v then Some (mkInfo ng nv ne nb (nx + 1) nsc nst ba (be + getTotalBytes v) ids)
  else if isScalar v then Some (mkInfo ng nv ne nb nx (nsc + 1) nst (ba + getTotalBytes v) be ids)
  else if isString v then Some (mkInfo ng nv ne nb nx nsc (nst + 1) (ba + getTotalBytes v) be ids)
  else if hasBuffer v then
    q ← m_data_buffer v; b ← bufs s !! q;
    if Buffer_isAllocated b
    then Some (mkInfo ng nv ne (nb + 1) nx nsc nst (ba + getTotalBytes v) be ({[b_index b]} ∪ ids))
    else Some (mkInfo ng nv ne (nb + 1) nx nsc nst ba be ids)
  else Some (mkInfo ng nv (ne + 1) nb nx nsc nst ba be ids).

Fixpoint getDataInfoHelper (fuel : nat) (s : DS) (g : ptr) (n : DataInfo) (recursive : bool) : option DataInfo :=
  match fuel with
  | O => None
  | S fuel =>
    gr ← groups s !! g;
    let n := mkInfo (num_groups n + 1) (num_views n + getNumViews gr) (num_views_empty n) (num_views_buffer n)
      (num_views_external n) (num_views_scalar n) (num_views_string n) (num_bytes_assoc_with_views n)
      (num_bytes_external n) (buffer_ids n) in
    vs ← coll_iterate (g_views gr);
    n ← foldl (fun acc x => n ← acc; v ← views s !! x.2; add_view_info s n v) (Some n) vs;
    if (recursive : bool) then
      gs ← coll_iterate (g_groups gr);
      foldl (fun acc x => n ← acc; getDataInfoHelper fuel s x.2 n recursive) (Some n) gs
    else Some n
  end.

(** The node and its field [num_bytes_in_buffers]. *)
Definition getDataInfo (fuel : nat) (s : DS) (g : ptr) (recursive : bool) : option (DataInfo * Z) :=
  n ← getDataInfoHelper fuel s g (mkInfo 0 0 0 0 0 0 0 0 0 ∅) recursive;
  num_bytes_in_buffers ← foldl (fun acc idx => t ← acc; q ← getBuffer_idx s idx; b ← bufs s !! q;
                                Some (t + Buffer_getTotalBytes b)) (Some 0) (elements (buffer_ids n));
  Some (n, num_bytes_in_buffers).

(** ** The DataStore *)

Definition DataStore_new : DS :=
  mkDS ∅ ∅ {[1%positive := with_parent (Group_new EmptyString false) (Some 1%positive) InvalidIndex]} ∅ 2%positive
    IndexedCollection.empty 1%positive.

Definition DataStore_delete (s : DS) : option DS :=
  s ← Group_delete (tree_fuel s) s (m_RootGroup s); destroyAllBuffers s.

End SidreGroup.

End SidreGroup.
