(* ===== verification/SidreTree.v ===== *)
(** * Ownership in Sidre's tree

    Views and child groups are owned by groups in the same way: the owner keeps the
    item in a collection, the item its owner and its index there.  This file states
    that relation once, for any items and collections, and shows what attaching,
    detaching, creating and deleting do to it. *)

From S2P Require Import Prelude SidreCollections SidreState SidreView SidreGroup.

Module SidreTree.
Import Collections Sidre SidreView SidreGroup.

(** ** Collections of a group *)

(** [name] gives the names of the items. *)
Definition coll_ok (name : ptr -> string) (is_list : bool) (c : Coll) : Prop :=
  vsize (coll_slots c) < 2 ^ 31 /\
  match c with
  | CMap c => is_list = false /\ map_inv name c
  | CList c => is_list = true /\ list_inv c
  end.

Notation at_index c := (item_at (coll_slots c)).

Lemma coll_getItem_spec c idx :
  vsize (coll_slots c) < 2 ^ 31 -> idx < 2 ^ 31 -> coll_getItem c idx = at_index c idx.
Proof.
  destruct c as [c|c]; intros Hsz Hidx.
  - exact (law_get (IC := MapCollection_ItemCollection (fun _ => EmptyString)) c idx Hsz Hidx).
  - exact (law_get (CollectionLaws := ListCollection_laws) c idx Hsz Hidx).
Qed.

Lemma coll_first_spec c :
  vsize (coll_slots c) < 2 ^ 31 -> exists r, coll_first c = Some r /\ is_next (at_index c) (-1) r.
Proof. destruct c as [c|c]; intros Hsz; apply (first_valid_spec _ Hsz). Qed.

Lemma coll_next_spec c idx :
  vsize (coll_slots c) < 2 ^ 31 -> 0 <= idx < vsize (coll_slots c) ->
  exists r, coll_next c idx = Some r /\ is_next (at_index c) idx r.
Proof. destruct c as [c|c]; intros Hsz Hidx; apply (next_valid_spec _ _ Hsz Hidx). Qed.

(** The collection only depends on the names of its items. *)
Lemma map_inv_ext {T} (name name' : T -> string) c :
  (forall i p, item_at (MapCollection.m_items c) i = Some p -> name' p = name p) ->
  map_inv name c -> map_inv name' c.
Proof.
  intros Hn [Hh Hm]. split; [done|]. intros nm idx. rewrite Hm.
  split; intros (x & Hx & <-); exists x; (split; [done|]); [|symmetry]; by eapply Hn.
Qed.

Lemma coll_ok_ext name name' l c :
  (forall i p, at_index c i = Some p -> name' p = name p) -> coll_ok name l c -> coll_ok name' l c.
Proof.
  intros Hn [Hsz Hc]. split; [done|]. destruct c as [c|c]; [|done]. destruct Hc as [-> Hc].
  split; [done|]. by eapply map_inv_ext.
Qed.

(** The names of a collection that has names. *)
Lemma coll_hasName_spec name l c nm :
  coll_ok name l c -> l = false ->
  coll_hasName c nm = true <-> exists i p, at_index c i = Some p /\ name p = nm.
Proof.
  intros [_ Hc] ->. destruct c as [c|c]; [|by destruct Hc]. destruct Hc as [_ Hc].
  unfold coll_hasName, as_named, MapCollection.hasItem_name. rewrite bool_decide_eq_true. split.
  - intros [i Hi]. apply (mi_names _ _ Hc) in Hi as (x & Hx & Hn). eauto.
  - intros (i & p & Hp & Hn). exists i. apply (mi_names _ _ Hc). eauto.
Qed.

(** The item of a name. *)
Definition coll_named (c : Coll) (nm : string) : option ptr := c ← as_named c; MapCollection.getItem_name c nm.

Lemma coll_named_spec name l c nm p :
  coll_ok name l c -> coll_named c nm = Some p <-> l = false /\ exists i, at_index c i = Some p /\ name p = nm.
Proof.
  intros [_ Hc]. destruct c as [c|c]; destruct Hc as [-> Hc]; cbn.
  - rewrite (getItem_name_spec name c nm p Hc). naive_solver.
  - split; [done|]. by intros [? _].
Qed.

Lemma coll_hasName_named name l c nm :
  coll_ok name l c -> coll_hasName c nm = bool_decide (is_Some (coll_named c nm)).
Proof.
  intros Hok. apply eq_true_iff_eq. rewrite bool_decide_eq_true. destruct l.
  - destruct c as [c|c]; [by destruct Hok as [_ [? _]]|]. cbn. split; [done|by intros [? ?]].
  - rewrite (coll_hasName_spec name false c nm Hok eq_refl). split.
    + intros (i & p & Hp). exists p. apply (coll_named_spec name false c nm p Hok). eauto.
    + intros [p Hp]. apply (coll_named_spec name false c nm p Hok) in Hp as (_ & i & Hi). eauto.
Qed.

Lemma coll_name_unique name l c i j p q :
  coll_ok name l c -> l = false -> at_index c i = Some p -> at_index c j = Some q -> name p = name q -> p = q.
Proof.
  intros [_ Hc] -> Hp Hq Hn. destruct c as [c|c]; [|by destruct Hc]. destruct Hc as [_ Hc]. cbn in *.
  assert (MapCollection.m_name2idx_map c !! name p = Some i) as E1 by (apply (mi_names _ _ Hc); eauto).
  assert (MapCollection.m_name2idx_map c !! name p = Some j) as E2 by (apply (mi_names _ _ Hc); eauto).
  congruence.
Qed.

Lemma coll_insert_spec name l c item nm c' idx :
  coll_ok name l c -> vsize (coll_slots c) + 1 < 2 ^ 31 -> name item = nm -> coll_hasName c nm = false ->
  coll_insertItem c item nm = (c', idx) ->
  coll_ok name l c' /\ 0 <= idx /\ at_index c idx = None /\ vsize (coll_slots c') <= vsize (coll_slots c) + 1 /\
  forall j, at_index c' j = if decide (j = idx) then Some item else at_index c j.
Proof.
  intros [Hsz Hc] Hroom <- Hfree. destruct c as [c|c]; destruct Hc as [-> Hc]; cbn [coll_insertItem].
  - destruct (MapCollection.insertItem c item (name item)) as [c1 i] eqn:E. intros [= <- <-].
    destruct (map_insert_spec name c item c1 i Hc E) as [Hc1 Hm].
    unfold coll_hasName, as_named, MapCollection.hasItem_name in Hfree. apply bool_decide_eq_false in Hfree.
    apply eq_None_not_Some in Hfree. rewrite Hfree in Hm. cbn [coll_slots] in *.
    destruct Hm as (H0 & Hn & Hv & _ & Hat). split_and!; try done. split; cbn; [lia|done].
  - destruct (ListCollection.insertItem c item (name item)) as [c1 i] eqn:E. intros [= <- <-].
    destruct (list_insert_spec c item _ c1 i Hc E) as (Hc1 & H0 & Hn & Hv & Hat).
    cbn [coll_slots] in *. split_and!; try done. split; cbn; [lia|done].
Qed.

Lemma coll_insert_named name l c item nm c' idx x :
  coll_ok name l c -> vsize (coll_slots c) + 1 < 2 ^ 31 -> name item = nm -> coll_hasName c nm = false ->
  coll_insertItem c item nm = (c', idx) ->
  coll_named c' x = if decide (x = nm /\ l = false) then Some item else coll_named c x.
Proof.
  intros Hok Hroom Hn Hfree Hins.
  destruct (coll_insert_spec name l c item nm c' idx Hok Hroom Hn Hfree Hins) as (Hok' & H0 & Hnone & _ & Hat).
  apply option_eq. intros p. rewrite (coll_named_spec name l c' x p Hok'). case_decide as Hx.
  - destruct Hx as [-> ->]. split.
    + intros (_ & i & Hi & Hp). rewrite Hat in Hi. case_decide; [done|].
      exfalso. assert (coll_hasName c nm = true); [|congruence].
      apply (coll_hasName_spec name false c nm Hok eq_refl). eauto.
    + intros [= <-]. split; [done|]. exists idx. by rewrite Hat, decide_True.
  - rewrite (coll_named_spec name l c x p Hok). split.
    + intros (-> & i & Hi & Hp). rewrite Hat in Hi. case_decide; [|eauto].
      injection Hi as <-. exfalso. apply Hx. split; congruence.
    + intros (-> & i & Hi & Hp). split; [done|]. exists i. rewrite Hat, decide_False; [done|]. congruence.
Qed.

Definition removed (name : ptr -> string) (l : bool) (c c' : Coll) (i : Z) : Prop :=
  coll_ok name l c' /\ vsize (coll_slots c') = vsize (coll_slots c) /\
  forall j, at_index c' j = if decide (j = i) then None else at_index c j.

Lemma removed_hasName name l c c' i nm :
  coll_ok name l c -> removed name l c c' i -> coll_hasName c nm = false -> coll_hasName c' nm = false.
Proof.
  intros Hok (Hok' & _ & Hat) Hn. apply not_true_iff_false. intros Hn'.
  rewrite (coll_hasName_named name l c' nm Hok') in Hn'. apply bool_decide_eq_true in Hn' as [p Hp].
  apply (coll_named_spec name l c' nm p Hok') in Hp as (-> & j & Hj & Hpn). rewrite Hat in Hj. case_decide; [done|].
  assert (coll_hasName c nm = true); [|congruence]. apply (coll_hasName_spec name false c nm Hok eq_refl). eauto.
Qed.

Lemma coll_remove_spec (name : ptr -> string) oname l c idx :
  coll_ok name l c -> (forall i p, at_index c i = Some p -> oname p = Some (name p)) -> idx < 2 ^ 31 ->
  exists c', coll_removeItem oname c idx = Some (c', at_index c idx) /\ removed name l c c' idx /\
    (at_index c idx = None -> c' = c).
Proof.
  intros [Hsz Hc] Hn Hidx. destruct c as [c|c]; destruct Hc as [-> Hc]; cbn [coll_removeItem].
  - pose proof (coll_getItem_spec (CMap c) idx Hsz Hidx) as Hg. cbn [coll_getItem] in Hg. rewrite Hg.
    cbn [coll_slots] in *. destruct (item_at (MapCollection.m_items c) idx) as [p|] eqn:Hp.
    + rewrite (Hn _ _ Hp). cbn [mbind option_bind].
      assert (MapCollection.removeItem (fun _ => name p) c idx = MapCollection.removeItem name c idx) as ->.
      { unfold MapCollection.removeItem. destruct (MapCollection.hasItem c idx); [|done]. by rewrite Hp. }
      destruct (MapCollection.removeItem name c idx) as [c1 r] eqn:E.
      destruct (law_remove (CollectionLaws := MapCollection_laws name) c idx c1 r Hc Hsz Hidx E)
        as (Hc1 & -> & Hv & Hat). cbn in *. exists (CMap c1). rewrite Hp.
      split_and!; [done|split_and!; [split; cbn; [lia|done]|done|done]|done].
    + exists (CMap c). split_and!; [done| |done]. split_and!; [done|done|]. intros j. cbn. by case_decide; subst.
  - destruct (ListCollection.removeItem c idx) as [c1 r] eqn:E.
    destruct (law_remove (CollectionLaws := ListCollection_laws) c idx c1 r Hc Hsz Hidx E)
      as (Hc1 & -> & Hv & Hat). cbn in *. exists (CList c1).
    split_and!; [done|split_and!; [split; cbn; [lia|done]|done|done]|].
    intros Hnone. unfold ListCollection.removeItem in E. rewrite list_hasItem_spec in E by done.
    rewrite Hnone in E. cbn in E. by injection E as <-.
Qed.

(** Removal by name from a collection that has names. *)
Lemma coll_remove_name_spec name c nm :
  coll_ok name false (CMap c) ->
  (exists i p, at_index (CMap c) i = Some p /\ name p = nm /\
     MapCollection.getItem_name c nm = Some p /\
     exists c', MapCollection.removeItem_name c nm = (c', Some p) /\ removed name false (CMap c) (CMap c') i) \/
  (coll_hasName (CMap c) nm = false /\ MapCollection.getItem_name c nm = None /\
   MapCollection.removeItem_name c nm = (c, None)).
Proof.
  intros [Hsz [_ Hc]]. destruct (map_remove_name_spec name c nm Hc) as (r & Hr & Hc' & Hm).
  unfold coll_hasName, as_named, MapCollection.hasItem_name, MapCollection.getItem_name.
  destruct (MapCollection.m_name2idx_map c !! nm) as [i|] eqn:E.
  - left. destruct (proj1 (mi_names name c Hc nm i) E) as (p & Hp & Hn). exists i, p. cbn in *.
    split_and!; [done|done|done|]. destruct r as [c' o]. cbn in *. destruct Hm as (-> & Hit & _).
    exists c'. rewrite Hr, Hp. split; [done|].
    split_and!; [split; cbn; [|done]| |]; rewrite ?Hit; unfold vsize in *; cbn; rewrite ?Hit, ?length_insert; try done.
    intros j. apply item_at_insert. by eapply item_at_range.
  - right. subst r. rewrite bool_decide_false by (by intros [? ?]). done.
Qed.

Lemma coll_clear_spec name l c : coll_ok name l c -> coll_ok name l (coll_removeAllItems c) /\
  coll_slots (coll_removeAllItems c) = [].
Proof.
  intros [_ Hc]. destruct c as [c|c]; destruct Hc as [-> Hc]; (split; [split; [done|]|done]); (split; [done|]).
  - exact (proj1 (law_clear (CollectionLaws := MapCollection_laws name) c)).
  - exact (proj1 (law_clear (CollectionLaws := ListCollection_laws) c)).
Qed.

(** Iteration visits every item of a collection once. *)
Lemma coll_iterate_spec name l c :
  coll_ok name l c ->
  exists its, coll_iterate c = Some its /\ coll_getNumItems c = Z.of_nat (length its) /\
    forall i p, (i, p) ∈ its <-> at_index c i = Some p.
Proof.
  intros [Hsz Hc]. exists (items_from (coll_slots c) 0). split_and!; [| |intros i p; apply elem_of_items_from].
  - destruct c as [c|c]; [exact (iterate_spec (CL := MapCollection_laws (fun _ => EmptyString)) c Hsz)|].
    exact (iterate_spec (CL := ListCollection_laws) c Hsz).
  - rewrite <- (length_fmap snd (items_from (coll_slots c) 0)), items_from_all. destruct c as [c|c]; destruct Hc as [_ Hc].
    + exact (law_num (CollectionLaws := MapCollection_laws name) c Hc).
    + exact (law_num (CollectionLaws := ListCollection_laws) c Hc).
Qed.

Definition coll_new (is_list : bool) : Coll :=
  if is_list then CList ListCollection.empty else CMap MapCollection.empty.

Lemma coll_new_ok name l : coll_ok name l (coll_new l) /\ coll_slots (coll_new l) = [].
Proof.
  destruct l; (split; [split; [done|]|done]); (split; [done|]).
  - exact (proj1 (law_clear (CollectionLaws := ListCollection_laws) ListCollection.empty)).
  - exact (proj1 (law_clear (CollectionLaws := MapCollection_laws name) MapCollection.empty)).
Qed.

(** ** Ownership *)

(** What an item knows: its name, its index and its owner; what an owner has: the
    list flag and the collection. *)
Notation items_of := (ptr -> option (string * Z * option ptr)).
Notation colls_of := (ptr -> option (bool * Coll)).
Implicit Types (it : items_of) (co : colls_of).

Definition iname (it : items_of) (p : ptr) : string :=
  match it p with Some (nm, _, _) => nm | None => EmptyString end.

Record owned (it : items_of) (co : colls_of) : Prop := {
  ow_coll g l c : co g = Some (l, c) -> coll_ok (iname it) l c;
  ow_item g l c i p : co g = Some (l, c) -> at_index c i = Some p -> exists nm, it p = Some (nm, i, Some g);
  ow_owner p nm i g : it p = Some (nm, i, Some g) -> exists l c, co g = Some (l, c) /\ at_index c i = Some p
}.

(** An item without owner; also an item that does not exist. *)
Definition unowned (it : items_of) (p : ptr) : Prop := forall nm i g, it p <> Some (nm, i, Some g).

Lemma owned_ext it co it' co' :
  owned it co -> (forall p, it' p = it p) -> (forall g, co' g = co g) -> owned it' co'.
Proof.
  intros [Hc Hi Ho] Eit Eco. split.
  - intros g l c. rewrite Eco. intros Hg. apply (coll_ok_ext (iname it)); [|by eapply Hc].
    intros i p _. unfold iname. by rewrite Eit.
  - intros g l c i p. rewrite Eco, Eit. apply Hi.
  - intros p nm i g. rewrite Eit. intros Hp. destruct (Ho p nm i g Hp) as (l & c & Hg & Hat).
    exists l, c. by rewrite Eco.
Qed.

(** An item without owner may change, appear and disappear. *)
Lemma owned_orphan it co it' p :
  owned it co -> unowned it p -> unowned it' p -> (forall q, q <> p -> it' q = it q) -> owned it' co.
Proof.
  intros [Hc Hi Ho] Hp Hp' Eit. split.
  - intros g l c Hg. apply (coll_ok_ext (iname it)); [|by eapply Hc]. intros i q Hq.
    destruct (Hi g l c i q Hg Hq) as [nm Hnm]. unfold iname. rewrite Eit; [done|]. intros ->. by eapply Hp.
  - intros g l c i q Hg Hq. destruct (Hi g l c i q Hg Hq) as [nm Hnm]. exists nm. rewrite Eit; [done|].
    intros ->. by eapply Hp.
  - intros q nm i g Hq. destruct (decide (q = p)) as [->|Hne]; [by apply Hp' in Hq|].
    rewrite Eit in Hq by done. by eapply Ho.
Qed.

(** Attaching an item that has no owner. *)
Lemma owned_attach it co it' co' g l c p nm i0 c' idx :
  owned it co -> co g = Some (l, c) -> it p = Some (nm, i0, None) -> vsize (coll_slots c) + 1 < 2 ^ 31 ->
  coll_hasName c nm = false -> coll_insertItem c p nm = (c', idx) ->
  (forall q, it' q = if decide (q = p) then Some (nm, idx, Some g) else it q) ->
  (forall h, co' h = if decide (h = g) then Some (l, c') else co h) ->
  owned it' co' /\ vsize (coll_slots c') <= vsize (coll_slots c) + 1 /\
  forall j, at_index c' j = if decide (j = idx) then Some p else at_index c j.
Proof.
  intros [Hc Hi Ho] Hg Hp Hroom Hfree Hins Eit Eco.
  assert (forall q, iname it' q = iname it q) as En.
  { intros q. unfold iname. rewrite Eit. case_decide; subst; [by rewrite Hp|done]. }
  assert (iname it p = nm) as Hnm by (unfold iname; by rewrite Hp).
  destruct (coll_insert_spec (iname it) l c p nm c' idx (Hc g l c Hg) Hroom Hnm Hfree Hins)
    as (Hok & H0 & Hnone & Hv & Hat).
  split_and!; [|done|done]. split.
  - intros h l1 c1. rewrite Eco. case_decide as Hh; [intros [= <- <-]|intros Hco].
    + apply (coll_ok_ext (iname it)); [intros ? ? _; apply En|done].
    + apply (coll_ok_ext (iname it)); [intros ? ? _; apply En|by eapply Hc].
  - intros h l1 c1 i q. rewrite Eco, Eit. case_decide as Hh.
    + intros [= <- <-]. rewrite Hat. case_decide as Hj; [intros [= <-]|intros Hq].
      * rewrite decide_True by done. subst. eauto.
      * destruct (Hi g l c i q Hg Hq) as [nm' Hq']. rewrite decide_False by congruence. subst. eauto.
    + intros Hco Hq. destruct (Hi h l1 c1 i q Hco Hq) as [nm' Hq']. rewrite decide_False by congruence. eauto.
  - intros q nm' i h. rewrite Eit. case_decide as Hq; [intros [= <- <- <-]|intros Hit].
    + exists l, c'. subst q. rewrite Eco, Hat. by rewrite !decide_True by done.
    + destruct (Ho q nm' i h Hit) as (l1 & c1 & Hco & Hat1). rewrite Eco.
      destruct (decide (h = g)) as [->|]; [|eauto]. exists l, c'. split; [done|]. rewrite Hg in Hco.
      injection Hco as <- <-. rewrite Hat, decide_False; [done|]. congruence.
Qed.

(** Detaching the item at an index. *)
Lemma owned_detach it co it' co' g l c p nm i c' i' :
  owned it co -> co g = Some (l, c) -> it p = Some (nm, i, Some g) -> removed (iname it) l c c' i ->
  (forall q, it' q = if decide (q = p) then Some (nm, i', None) else it q) ->
  (forall h, co' h = if decide (h = g) then Some (l, c') else co h) -> owned it' co'.
Proof.
  intros [Hc Hi Ho] Hg Hp (Hok & Hv & Hat) Eit Eco.
  assert (forall q, iname it' q = iname it q) as En.
  { intros q. unfold iname. rewrite Eit. case_decide; subst; [by rewrite Hp|done]. }
  destruct (Ho p nm i g Hp) as (l1 & c1 & Hco1 & Hpi). rewrite Hg in Hco1. injection Hco1 as <- <-. split.
  - intros h l1 c1. rewrite Eco. case_decide as Hh; [intros [= <- <-]|intros Hco].
    + apply (coll_ok_ext (iname it)); [intros ? ? _; apply En|done].
    + apply (coll_ok_ext (iname it)); [intros ? ? _; apply En|by eapply Hc].
  - intros h l1 c1 j q. rewrite Eco, Eit. case_decide as Hh.
    + intros [= <- <-]. rewrite Hat. case_decide as Hj; [done|intros Hq].
      destruct (Hi g l c j q Hg Hq) as [nm' Hq']. rewrite decide_False by congruence. subst. eauto.
    + intros Hco Hq. destruct (Hi h l1 c1 j q Hco Hq) as [nm' Hq']. rewrite decide_False by congruence. eauto.
  - intros q nm' j h. rewrite Eit. case_decide as Hq; [done|intros Hit].
    destruct (Ho q nm' j h Hit) as (l1 & c1 & Hco & Hat1). rewrite Eco.
    destruct (decide (h = g)) as [->|]; [|eauto]. exists l, c'. split; [done|]. rewrite Hg in Hco.
    injection Hco as <- <-. rewrite Hat, decide_False; [done|]. congruence.
Qed.

(** A collection without items may be replaced, created and deleted. *)
Lemma owned_empty it co co' g :
  owned it co -> (forall l c i, co g = Some (l, c) -> at_index c i = None) ->
  (forall l c, co' g = Some (l, c) -> coll_ok (iname it) l c /\ forall i, at_index c i = None) ->
  (forall h, h <> g -> co' h = co h) -> owned it co'.
Proof.
  intros [Hc Hi Ho] He He' Eco. split.
  - intros h l c Hh. destruct (decide (h = g)) as [->|Hne]; [by eapply He'|].
    rewrite Eco in Hh by done. by eapply Hc.
  - intros h l c i p Hh Hp. destruct (decide (h = g)) as [->|Hne].
    + destruct (He' l c Hh) as [_ Hn]. congruence.
    + rewrite Eco in Hh by done. by eapply Hi.
  - intros p nm i h Hp. destruct (Ho p nm i h Hp) as (l & c & Hco & Hat). exists l, c.
    rewrite Eco; [done|]. intros ->. rewrite (He l c i Hco) in Hat. done.
Qed.

(** ** Acyclicity *)

(** The number of owners above an item. *)
Inductive depth (it : items_of) : ptr -> nat -> Prop :=
  | depth_top q : unowned it q -> depth it q 0
  | depth_child q nm i g n : it q = Some (nm, i, Some g) -> depth it g n -> depth it q (S n).

Definition acyclic (it : items_of) : Prop := forall q, exists n, depth it q n.

(** [below it p q]: [q] is [p] or an item below it. *)
Inductive below (it : items_of) (p : ptr) : ptr -> Prop :=
  | below_refl : below it p p
  | below_child q nm i g : it q = Some (nm, i, Some g) -> below it p g -> below it p q.

Lemma depth_fun it q n m : depth it q n -> depth it q m -> n = m.
Proof.
  intros Hn. revert m. induction Hn as [q Hq|q nm i g n Hq Hn IH]; intros m Hm;
    inversion Hm as [q' Hq'|q' nm' i' g' m' Hq' Hm']; subst; try done.
  - by apply Hq in Hq'.
  - by apply Hq' in Hq.
  - rewrite Hq in Hq'. injection Hq' as <- <- <-. f_equal. by apply IH.
Qed.

Lemma depth_ext it it' q n : (forall p, it' p = it p) -> depth it q n -> depth it' q n.
Proof.
  intros Eit Hn. induction Hn as [q Hq|q nm i g n Hq Hn IH].
  - apply depth_top. intros nm i g. rewrite Eit. apply Hq.
  - eapply depth_child; [by rewrite Eit|done].
Qed.

Lemma below_ext it it' p x : (forall q, it' q = it q) -> below it p x -> below it' p x.
Proof.
  intros Eit Hb. induction Hb as [|x nm i g Hx Hb IH]; [apply below_refl|]. eapply below_child; [by rewrite Eit|done].
Qed.

Lemma below_depth it p q n m : below it p q -> depth it p n -> depth it q m -> (n <= m)%nat /\ (q <> p -> n < m)%nat.
Proof.
  intros Hb Hn. revert m. induction Hb as [|q nm i g Hq Hb IH]; intros m Hm.
  - rewrite (depth_fun _ _ _ _ Hn Hm). split; [lia|done].
  - inversion Hm as [q' Hq'|q' nm' i' g' m' Hq' Hm']; subst; [by apply Hq' in Hq|].
    rewrite Hq in Hq'. injection Hq' as <- <- <-. destruct (IH m' Hm'). lia.
Qed.

(** What is below an item does not depend on the owner of the item. *)
Lemma below_orphan it it' p x :
  unowned it' p -> (forall q, q <> p -> it' q = it q) -> below it' p x -> below it p x.
Proof.
  intros Hp Eit Hb. induction Hb as [|q nm i g Hq Hb IH]; [apply below_refl|].
  destruct (decide (q = p)) as [->|Hne]; [apply below_refl|]. rewrite Eit in Hq by done. by eapply below_child.
Qed.

(** An owner is not below its item. *)
Lemma owner_not_below it p nm i g : acyclic it -> it p = Some (nm, i, Some g) -> ~ below it p g.
Proof.
  intros Ha Hp Hb. destruct (Ha g) as [n Hn]. pose proof (depth_child _ _ _ _ _ _ Hp Hn) as Hpn.
  destruct (below_depth it p g (S n) n Hb Hpn Hn). lia.
Qed.

Lemma acyclic_orphan it it' p :
  acyclic it -> unowned it' p -> (forall q, q <> p -> it' q = it q) -> acyclic it'.
Proof.
  intros Ha Hp Eit q. destruct (Ha q) as [n Hn]. induction Hn as [q Hq|q nm i g n Hq Hn [m IH]].
  - exists O. apply depth_top. destruct (decide (q = p)) as [->|Hne]; [done|].
    intros nm i g. rewrite Eit by done. apply Hq.
  - destruct (decide (q = p)) as [->|Hne]; [exists O; by apply depth_top|].
    exists (S m). eapply depth_child; [by rewrite Eit|done].
Qed.

(** Items may lose their owner. *)
Lemma acyclic_sub it it' : acyclic it -> (forall q, it' q = it q \/ unowned it' q) -> acyclic it'.
Proof.
  intros Ha Hsub q. destruct (Ha q) as [n Hn]. induction Hn as [q Hq|q nm i g n Hq Hn [m IH]].
  - exists O. apply depth_top. destruct (Hsub q) as [E|]; [|done]. intros nm i g. rewrite E. apply Hq.
  - destruct (Hsub q) as [E|]; [|exists O; by apply depth_top]. exists (S m). eapply depth_child; [by rewrite E|done].
Qed.

Lemma below_trans it p q x : below it p q -> below it q x -> below it p x.
Proof. intros Hp Hq. induction Hq as [|x nm i g Hx Hq IH]; [done|]. by eapply below_child. Qed.

(** The owners of an item are comparable. *)
Lemma below_linear it p q x : below it p x -> below it q x -> below it p q \/ below it q p.
Proof.
  intros Hp. induction Hp as [|x nm i g Hx Hp IH]; intros Hq; [by right|].
  inversion Hq as [|x' nm' i' g' Hx' Hq']; subst.
  - left. by eapply below_child.
  - rewrite Hx in Hx'. injection Hx' as <- <- <-. by apply IH.
Qed.

Lemma below_inv it p x nm i g : below it p x -> it x = Some (nm, i, Some g) -> x = p \/ below it p g.
Proof.
  intros Hb Hx. inversion Hb as [|x' nm' i' g' Hx' Hb']; subst; [by left|].
  rewrite Hx in Hx'. injection Hx' as <- <- <-. by right.
Qed.

(** Two items of one owner have nothing below them in common. *)
Lemma below_siblings it p q nm nm' i j g x :
  acyclic it -> it p = Some (nm, i, Some g) -> it q = Some (nm', j, Some g) -> below it p x -> below it q x -> p = q.
Proof.
  intros Ha Hp Hq Hpx Hqx. destruct (below_linear it p q x Hpx Hqx) as [Hb|Hb].
  - destruct (below_inv _ _ _ _ _ _ Hb Hq) as [->|Hg]; [done|]. by apply (owner_not_below it p nm i g) in Hg.
  - destruct (below_inv _ _ _ _ _ _ Hb Hp) as [->|Hg]; [done|]. by apply (owner_not_below it q nm' j g) in Hg.
Qed.

Lemma below_cases it g x :
  below it g x -> x = g \/ exists q nm i, it q = Some (nm, i, Some g) /\ below it q x.
Proof.
  intros Hb. induction Hb as [|x nm i h Hx Hb IH]; [by left|]. right. destruct IH as [->|(q & nm' & j & Hq & Hqh)].
  - exists x, nm, i. split; [done|apply below_refl].
  - exists q, nm', j. split; [done|]. by eapply below_child.
Qed.

Lemma acyclic_attach it it' p nm i g :
  acyclic it -> it' p = Some (nm, i, Some g) -> ~ below it p g ->
  (forall q, q <> p -> it' q = it q) -> acyclic it'.
Proof.
  intros Ha Hp Hb Eit.
  assert (forall q n, depth it q n -> ~ below it p q -> depth it' q n) as Hout.
  { intros q n Hn. induction Hn as [q Hq|q nm' i' h n Hq Hn IH]; intros Hbq.
    - apply depth_top. intros nm' i' h. rewrite Eit; [apply Hq|]. intros ->. apply Hbq, below_refl.
    - eapply depth_child; [rewrite Eit; [done|]|].
      + intros ->. apply Hbq, below_refl.
      + apply IH. intros Hh. by eapply Hbq, below_child. }
  intros q. destruct (Ha q) as [n Hn]. induction Hn as [q Hq|q nm' i' h n Hq Hn [m IH]].
  - destruct (decide (q = p)) as [->|Hne].
    + destruct (Ha g) as [k Hk]. exists (S k). eapply depth_child; [done|]. by apply Hout.
    + exists O. apply depth_top. intros nm' i' h. rewrite Eit by done. apply Hq.
  - destruct (decide (q = p)) as [->|Hne].
    + destruct (Ha g) as [k Hk]. exists (S k). eapply depth_child; [done|]. by apply Hout.
    + exists (S m). eapply depth_child; [by rewrite Eit|done].
Qed.

End SidreTree.
