(* ===== verification/SidreTreeProofs.v ===== *)
(** * The tree of Sidre's groups and views

    The invariant of the tree, and that the operations of [Group] called on live
    objects return and keep it together with the invariant of buffers and views. *)

From S2P Require Import Prelude PathStrings SidreCollections SidreState SidreView SidreViewProofs SidreGroup.
From S2P Require Import SidreTree.

Module SidreTreeInv.
Import PathStrings Collections Sidre SidreView SidreInv SidreGroup SidreTree.

Section SidreTreeInv.
Context `{Conduit} `{!ConduitLaws} `{Allocator} `{!AllocatorLaws}.
Implicit Types (s : DS) (v : View) (gr : Group) (p q g : ptr).

(** ** The invariant *)

Definition vitem s : ptr -> option (string * Z * option ptr) := fun p => tree_part <$> views s !! p.
Definition vcoll s : ptr -> option (bool * Coll) := fun g => (fun gr => (g_is_list gr, g_views gr)) <$> groups s !! g.
Definition group_part (gr : Group) : string * Z * option ptr := (g_name gr, g_index gr, g_parent gr).

(** The root group, which is its own parent, is no item. *)
Definition gitem s : ptr -> option (string * Z * option ptr) :=
  fun q => if decide (q = m_RootGroup s) then None else group_part <$> groups s !! q.
Definition gcoll s : ptr -> option (bool * Coll) := fun g => (fun gr => (g_is_list gr, g_groups gr)) <$> groups s !! g.

Record tree_inv s : Prop := {
  ti_views : owned (vitem s) (vcoll s);
  ti_groups : owned (gitem s) (gcoll s);
  ti_acyclic : acyclic (gitem s);
  ti_root : exists r, groups s !! m_RootGroup s = Some r /\ g_parent r = Some (m_RootGroup s)
}.

Definition full s : Prop := inv s /\ tree_inv s.

(** Every collection has room for [k] more items. *)
Definition room_for (gr : Group) (k : Z) : Prop :=
  vsize (coll_slots (g_views gr)) + k < 2 ^ 31 /\ vsize (coll_slots (g_groups gr)) + k < 2 ^ 31.
Definition tree_room s (k : Z) : Prop := forall g gr, groups s !! g = Some gr -> room_for gr k.

Definition live_group s g : Prop := is_Some (groups s !! g).

(** ** The two invariants and changes of the other half of the state *)

(** The operations of buffers and views leave the tree alone. *)
Lemma frame_tree s s' : frame s s' -> tree_inv s -> tree_inv s'.
Proof.
  intros [Hg Hr Hn Hv] [Hvs Hgs Ha Hroot].
  assert (forall q, gitem s' q = gitem s q) as Egi by (intros q; unfold gitem; by rewrite Hr, Hg).
  split.
  - apply (owned_ext (vitem s) (vcoll s)); [done|done|]. intros g. unfold vcoll. by rewrite Hg.
  - apply (owned_ext (gitem s) (gcoll s)); [done|done|]. intros g. unfold gcoll. by rewrite Hg.
  - intros q. destruct (Ha q) as [n Hq]. exists n. by eapply depth_ext.
  - by rewrite Hr, Hg.
Qed.

(** The part of a view that is not about the tree. *)
Definition data_part (v : View) := (m_data_buffer v, m_schema v, m_node v, m_external_ptr v, m_state v, m_is_applied v).

Lemma view_ok_data s p v v' : data_part v' = data_part v -> view_ok s p v -> view_ok s p v'.
Proof.
  intros Hd [Hb Hst Hx He Ha Hxn Hval]. unfold data_part in Hd. injection Hd as E1 E2 E3 E4 E5 E6.
  split; unfold isDescribed in *; rewrite ?E1, ?E2, ?E3, ?E4, ?E5, ?E6; done.
Qed.

(** The operations of the tree leave buffers and the data of views alone. *)
Lemma inv_same_data s s' :
  inv s -> bufs s' = bufs s -> buffer_coll s' = buffer_coll s -> mem s' = mem s ->
  (forall p, data_part <$> views s' !! p = data_part <$> views s !! p) ->
  (next_ptr s <= next_ptr s')%positive ->
  (forall p, is_Some (groups s' !! p) -> (p < next_ptr s')%positive) -> inv s'.
Proof.
  intros Hi Eb Ec Em Ev Hn Hg. split.
  - intros p [Hp|[[v Hp]|Hp]]; [| |by apply Hg].
    + rewrite Eb in Hp. pose proof (inv_next s Hi p (or_introl Hp)). lia.
    + specialize (Ev p). rewrite Hp in Ev. destruct (views s !! p) eqn:Hv; [|done].
      pose proof (inv_next s Hi p (or_intror (or_introl (mk_is_Some _ _ Hv)))). lia.
  - intros p v Hv. specialize (Ev p). rewrite Hv in Ev. destruct (views s !! p) as [v0|] eqn:Hv0; [|done].
    cbn in Ev. assert (data_part v = data_part v0) as Hd by congruence.
    apply (view_ok_bufs s); [done|]. apply (view_ok_data s p v0 v Hd). by apply Hi.
  - intros p b q. rewrite Eb. intros Hb Hq. destruct (inv_attached s Hi p b q Hb Hq) as (v0 & Hv0 & Hd0).
    specialize (Ev q). rewrite Hv0 in Ev. destruct (views s' !! q) as [v|]; [|done]. cbn in Ev.
    exists v. split; [done|]. injection Ev. congruence.
  - rewrite Eb, Ec, Em. apply Hi.
Qed.

Lemma set_group_inv s g gr : inv s -> live_group s g -> inv (set_group s g gr).
Proof.
  intros Hi Hg. apply (inv_same_data s); cbn; try done. intros p Hp. apply (inv_next s Hi). right; right.
  destruct (decide (g = p)) as [<-|]; [done|]. by rewrite lookup_insert_ne in Hp.
Qed.

Lemma set_view_inv s p v v' : inv s -> views s !! p = Some v -> data_part v' = data_part v -> inv (set_view s p v').
Proof.
  intros Hi Hv Hd. apply (inv_same_data s); cbn; try done.
  - intros q. destruct (decide (p = q)) as [<-|]; [by rewrite lookup_insert_eq, Hv; cbn; rewrite Hd|].
    by rewrite lookup_insert_ne.
  - intros q Hq. apply (inv_next s Hi). by right; right.
Qed.

(** ** Lookups in the changed state *)

Lemma vitem_set_view s p v q : vitem (set_view s p v) q = if decide (q = p) then Some (tree_part v) else vitem s q.
Proof. unfold vitem. cbn. case_decide; subst; [by rewrite lookup_insert_eq|by rewrite lookup_insert_ne]. Qed.

Lemma vcoll_set_group s g gr h :
  vcoll (set_group s g gr) h = if decide (h = g) then Some (g_is_list gr, g_views gr) else vcoll s h.
Proof. unfold vcoll. cbn. case_decide; subst; [by rewrite lookup_insert_eq|by rewrite lookup_insert_ne]. Qed.

Lemma gcoll_set_group s g gr h :
  gcoll (set_group s g gr) h = if decide (h = g) then Some (g_is_list gr, g_groups gr) else gcoll s h.
Proof. unfold gcoll. cbn. case_decide; subst; [by rewrite lookup_insert_eq|by rewrite lookup_insert_ne]. Qed.

Lemma gitem_set_group s g gr q :
  gitem (set_group s g gr) q =
  if decide (q = g) then (if decide (q = m_RootGroup s) then None else Some (group_part gr)) else gitem s q.
Proof.
  unfold gitem. cbn. repeat case_decide; subst; try done; [by rewrite lookup_insert_eq|by rewrite lookup_insert_ne].
Qed.

(** A group may change as long as it keeps its place, its list flag and the other
    collection. *)
Lemma groups_same s s' :
  (forall q, gitem s' q = gitem s q) -> (forall g, gcoll s' g = gcoll s g) -> owned (gitem s) (gcoll s) ->
  acyclic (gitem s) -> owned (gitem s') (gcoll s') /\ acyclic (gitem s').
Proof.
  intros Ei Ec Ho Ha. split; [by apply (owned_ext (gitem s) (gcoll s))|].
  intros q. destruct (Ha q) as [n Hq]. exists n. by eapply depth_ext.
Qed.

(** The groups of a store in which only the views of [g] and the view [p] changed. *)
Lemma tree_views_changed s g gr c p v :
  tree_inv s -> groups s !! g = Some gr ->
  let s' := set_view (set_group s g (with_gviews gr c)) p v in
  owned (vitem s') (vcoll s') -> tree_inv s'.
Proof.
  intros [Hvs Hgs Ha (r & Hr & Hrp)] Hg s' Hvs'.
  assert (forall q, gitem s' q = gitem s q) as Ei.
  { intros q. unfold gitem, s'. cbn. case_decide; [done|]. destruct (decide (g = q)) as [<-|].
    - by rewrite lookup_insert_eq, Hg.
    - by rewrite lookup_insert_ne. }
  destruct (groups_same s s' Ei) as [Ho' Ha']; [|done|done|].
  { intros h. unfold gcoll, s'. cbn. destruct (decide (g = h)) as [<-|].
    - by rewrite lookup_insert_eq, Hg.
    - by rewrite lookup_insert_ne. }
  split; [done|done|done|]. unfold s'. cbn. destruct (decide (g = m_RootGroup s)) as [->|].
  - rewrite lookup_insert_eq. rewrite Hg in Hr. injection Hr as ->. eauto.
  - rewrite lookup_insert_ne by done. eauto.
Qed.

Lemma set_group_id s g gr : groups s !! g = Some gr -> set_group s g gr = s.
Proof. intros Hg. unfold set_group. rewrite insert_id by done. by destruct s. Qed.

Lemma set_group_views_id s g gr : groups s !! g = Some gr -> set_group s g (with_gviews gr (g_views gr)) = s.
Proof. intros Hg. apply set_group_id. rewrite Hg. by destruct gr. Qed.

Lemma set_group_groups_id s g gr : groups s !! g = Some gr -> set_group s g (with_ggroups gr (g_groups gr)) = s.
Proof. intros Hg. apply set_group_id. rewrite Hg. by destruct gr. Qed.

(** ** Attaching and detaching a view *)

Lemma attachView_step s g gr p v :
  full s -> groups s !! g = Some gr -> views s !! p = Some v -> m_owning_group v = None -> room_for gr 1 ->
  coll_hasName (g_views gr) (m_name v) = false ->
  exists c idx, attachView s g (Some p) =
      Some (set_view (set_group s g (with_gviews gr c)) p (with_owner v (Some g) idx), Some p) /\
    full (set_view (set_group s g (with_gviews gr c)) p (with_owner v (Some g) idx)) /\
    coll_insertItem (g_views gr) p (m_name v) = (c, idx) /\
    vsize (coll_slots c) <= vsize (coll_slots (g_views gr)) + 1.
Proof.
  intros [Hi Ht] Hg Hv Hown [Hroom _] Hfree.
  destruct (coll_insertItem (g_views gr) p (m_name v)) as [c idx] eqn:E. exists c, idx.
  assert (attachView s g (Some p) =
    Some (set_view (set_group s g (with_gviews gr c)) p (with_owner v (Some g) idx), Some p)) as ->.
  { unfold attachView. rewrite Hg, Hv. cbn [mbind option_bind]. unfold hasChildView. rewrite Hfree, E.
    destruct (isUsingMap gr); by rewrite andb_false_r. }
  set (s' := set_view _ _ _).
  destruct (owned_attach (vitem s) (vcoll s) (vitem s') (vcoll s') g (g_is_list gr) (g_views gr) p
    (m_name v) (m_index v) c idx) as (Ho & Hsz & Hat); try done.
  - apply Ht.
  - unfold vcoll. by rewrite Hg.
  - unfold vitem. rewrite Hv. cbn. unfold tree_part. by rewrite Hown.
  - intros q. unfold s'. rewrite vitem_set_view. by case_decide.
  - intros h. unfold s'. exact (vcoll_set_group s g (with_gviews gr c) h).
  - split_and!; [done| |done|done]. split; [|by apply tree_views_changed].
    apply (set_view_inv _ _ v); [|done|done]. apply set_group_inv; [done|]. by eexists.
Qed.

(** The items of the views of a group are live views of it. *)
Lemma owned_view_at s g gr i p :
  owned (vitem s) (vcoll s) -> groups s !! g = Some gr -> item_at (coll_slots (g_views gr)) i = Some p ->
  exists v, views s !! p = Some v /\ m_owning_group v = Some g /\ m_index v = i.
Proof.
  intros Ho Hg Hat. destruct (ow_item _ _ Ho g (g_is_list gr) (g_views gr) i p) as [nm Hnm]; [|done|].
  - unfold vcoll. by rewrite Hg.
  - unfold vitem in Hnm. destruct (views s !! p) as [v|]; [|done]. injection Hnm as Hn Hi Hown. eauto.
Qed.

Lemma owned_view_coll s g gr :
  owned (vitem s) (vcoll s) -> groups s !! g = Some gr -> coll_ok (iname (vitem s)) (g_is_list gr) (g_views gr).
Proof. intros Ho Hg. apply (ow_coll _ _ Ho g). unfold vcoll. by rewrite Hg. Qed.

(** Where a view sits in its group. *)
Lemma owned_view_place s p v g :
  owned (vitem s) (vcoll s) -> views s !! p = Some v -> m_owning_group v = Some g ->
  exists gr, groups s !! g = Some gr /\ item_at (coll_slots (g_views gr)) (m_index v) = Some p.
Proof.
  intros Ho Hv Hown. destruct (ow_owner _ _ Ho p (m_name v) (m_index v) g) as (l & c & Hco & Hat).
  { unfold vitem. rewrite Hv. cbn. unfold tree_part. by rewrite Hown. }
  unfold vcoll in Hco. destruct (groups s !! g) as [gr|]; [|done]. injection Hco as <- <-. eauto.
Qed.

Definition view_place s p v g (Ht : tree_inv s) := owned_view_place s p v g (ti_views s Ht).
Definition view_at s g gr i p (Ht : tree_inv s) := owned_view_at s g gr i p (ti_views s Ht).
Definition view_coll_ok s g gr (Ht : tree_inv s) := owned_view_coll s g gr (ti_views s Ht).

Lemma view_iname s p v : views s !! p = Some v -> iname (vitem s) p = m_name v.
Proof. intros Hv. unfold iname, vitem. by rewrite Hv. Qed.

(** Group [g] after it lost the view [p]. *)
Notation detached_view s g gr c p v :=
  (set_view (set_group s g (with_gviews gr c)) p (with_owner v None InvalidIndex)).

(** Detaching the view [p] that group [g] has at the index of [p]. *)
Lemma detach_view_owned s g gr p v c :
  inv s -> owned (vitem s) (vcoll s) -> groups s !! g = Some gr -> views s !! p = Some v -> m_owning_group v = Some g ->
  removed (iname (vitem s)) (g_is_list gr) (g_views gr) c (m_index v) ->
  let s' := detached_view s g gr c p v in inv s' /\ owned (vitem s') (vcoll s').
Proof.
  intros Hi Ho Hg Hv Hown Hrem s'. split.
  - apply (set_view_inv _ _ v); [|done|done]. apply set_group_inv; [done|]. by eexists.
  - apply (owned_detach (vitem s) (vcoll s) _ _ g (g_is_list gr) (g_views gr) p (m_name v) (m_index v) c InvalidIndex);
      try done.
    + unfold vcoll. by rewrite Hg.
    + unfold vitem. rewrite Hv. cbn. unfold tree_part. by rewrite Hown.
    + intros q. unfold s'. rewrite vitem_set_view. by case_decide.
    + intros h. exact (vcoll_set_group s g (with_gviews gr c) h).
Qed.

Lemma detach_view_ok s g gr p v c :
  full s -> groups s !! g = Some gr -> views s !! p = Some v -> m_owning_group v = Some g ->
  removed (iname (vitem s)) (g_is_list gr) (g_views gr) c (m_index v) ->
  full (set_view (set_group s g (with_gviews gr c)) p (with_owner v None InvalidIndex)).
Proof.
  intros [Hi Ht] Hg Hv Hown Hrem.
  destruct (detach_view_owned s g gr p v c Hi (ti_views s Ht) Hg Hv Hown Hrem) as [Hi' Ho'].
  split; [done|]. by apply tree_views_changed.
Qed.

Lemma detachView_idx_step s g gr idx :
  full s -> groups s !! g = Some gr -> idx < 2 ^ 31 ->
  (exists p v c, item_at (coll_slots (g_views gr)) idx = Some p /\ views s !! p = Some v /\
     detachView_idx s g idx =
       Some (set_view (set_group s g (with_gviews gr c)) p (with_owner v None InvalidIndex), Some p) /\
     full (set_view (set_group s g (with_gviews gr c)) p (with_owner v None InvalidIndex)) /\
     removed (iname (vitem s)) (g_is_list gr) (g_views gr) c idx) \/
  (item_at (coll_slots (g_views gr)) idx = None /\ detachView_idx s g idx = Some (s, None)).
Proof.
  intros [Hi Ht] Hg Hidx. pose proof (view_coll_ok s g gr Ht Hg) as Hok.
  destruct (coll_remove_spec (iname (vitem s)) (view_name s) (g_is_list gr) (g_views gr) idx)
    as (c & Hc & Hrem & Hnone); [done| |done|].
  { intros i p Hp. destruct (view_at s g gr i p Ht Hg Hp) as (v & Hv & _).
    unfold view_name. by rewrite Hv, (view_iname s p v Hv). }
  unfold detachView_idx. rewrite Hg. cbn [mbind option_bind]. rewrite Hc. cbn [mbind option_bind].
  destruct (item_at (coll_slots (g_views gr)) idx) as [p|] eqn:Hp.
  - left. destruct (view_at s g gr idx p Ht Hg Hp) as (v & Hv & Hown & Hix). exists p, v, c.
    cbn [orphan_view views set_group]. rewrite Hv. cbn [mbind option_bind]. split_and!; try done.
    apply detach_view_ok; [done|done|done|done|]. by rewrite Hix.
  - right. split; [done|]. rewrite (Hnone eq_refl). cbn. by rewrite set_group_views_id.
Qed.

Lemma detachView_step s g gr nm :
  full s -> groups s !! g = Some gr -> g_is_list gr = false ->
  (exists p v c, views s !! p = Some v /\ m_name v = nm /\ m_owning_group v = Some g /\
     detachView s g nm = Some (detached_view s g gr c p v, Some p) /\ full (detached_view s g gr c p v) /\
     removed (iname (vitem s)) (g_is_list gr) (g_views gr) c (m_index v)) \/
  (coll_hasName (g_views gr) nm = false /\ detachView s g nm = Some (s, None)).
Proof.
  intros [Hi Ht] Hg Hl. pose proof (view_coll_ok s g gr Ht Hg) as Hok. rewrite Hl in Hok.
  unfold detachView. rewrite Hg. cbn [mbind option_bind]. unfold getNamedViews.
  destruct (g_views gr) as [c|c] eqn:Hc; [|by destruct Hok as [_ [? _]]]. cbn [as_named mbind option_bind].
  destruct (coll_remove_name_spec _ c nm Hok) as [(i & p & Hp & Hn & _ & c' & -> & Hrem)|(Hf & _ & ->)].
  - left. destruct (view_at s g gr i p Ht Hg) as (v & Hv & Hown & Hix); [by rewrite Hc|].
    exists p, v, (CMap c'). cbn [orphan_view views set_group]. rewrite Hv. cbn [mbind option_bind].
    assert (removed (iname (vitem s)) (g_is_list gr) (g_views gr) (CMap c') (m_index v)) as Hrem'
      by (by rewrite Hl, Hix, Hc).
    split_and!; try done; [by rewrite <- Hn, (view_iname s p v Hv)|by apply detach_view_ok|by rewrite Hc in Hrem'].
  - right. split; [done|]. cbn. rewrite <- Hc. by rewrite set_group_views_id.
Qed.

(** The name of a view finds the view. *)
Lemma detachView_self s g gr p v :
  full s -> groups s !! g = Some gr -> g_is_list gr = false -> views s !! p = Some v -> m_owning_group v = Some g ->
  exists c, detachView s g (m_name v) = Some (detached_view s g gr c p v, Some p) /\
    full (detached_view s g gr c p v) /\ removed (iname (vitem s)) (g_is_list gr) (g_views gr) c (m_index v).
Proof.
  intros [Hi Ht] Hg Hl Hv Hown. pose proof (view_coll_ok s g gr Ht Hg) as Hok.
  destruct (ow_owner _ _ (ti_views s Ht) p (m_name v) (m_index v) g) as (l & c0 & Hco & Hat).
  { unfold vitem. rewrite Hv. cbn. unfold tree_part. by rewrite Hown. }
  unfold vcoll in Hco. rewrite Hg in Hco. injection Hco as <- <-.
  destruct (detachView_step s g gr (m_name v)) as [(p' & v' & c & Hv' & Hn & Hown' & Hd & Hf & Hr)|[Hn _]]; try done.
  - assert (p' = p) as ->; [|exists c; by simplify_eq].
    destruct (ow_owner _ _ (ti_views s Ht) p' (m_name v') (m_index v') g) as (l & c0 & Hco & Hat').
    { unfold vitem. rewrite Hv'. cbn. unfold tree_part. by rewrite Hown'. }
    unfold vcoll in Hco. rewrite Hg in Hco. injection Hco as <- <-.
    eapply (coll_name_unique (iname (vitem s))); [done|done|done|done|].
    by rewrite (view_iname s p v Hv), (view_iname s p' v' Hv').
  - exfalso. assert (coll_hasName (g_views gr) (m_name v) = true); [|congruence].
    apply (coll_hasName_spec (iname (vitem s)) (g_is_list gr)); [done|done|]. exists (m_index v), p.
    by rewrite (view_iname s p v Hv).
Qed.

(** ** Creating and deleting views *)

Lemma fresh_ptr s : inv s -> bufs s !! next_ptr s = None /\ views s !! next_ptr s = None /\ groups s !! next_ptr s = None.
Proof.
  intros Hi. pose proof (inv_next s Hi (next_ptr s)) as Hn.
  split_and!; apply eq_None_not_Some; intros Hs; (assert (next_ptr s < next_ptr s)%positive by eauto; lia).
Qed.

(** A change of views without owner leaves the tree alone. *)
Lemma tree_orphan_view s s' p :
  tree_inv s -> groups s' = groups s -> m_RootGroup s' = m_RootGroup s -> unowned (vitem s) p ->
  unowned (vitem s') p -> (forall q, q <> p -> views s' !! q = views s !! q) -> tree_inv s'.
Proof.
  intros [Hvs Hgs Ha Hr] Eg Er Hu Hu' Ev.
  assert (forall q, gitem s' q = gitem s q) as Ei by (intros q; unfold gitem; by rewrite Er, Eg).
  destruct (groups_same s s' Ei) as [Ho' Ha']; [intros h; unfold gcoll; by rewrite Eg|done|done|].
  split; [|done|done|by rewrite Er, Eg].
  apply (owned_ext (vitem s') (vcoll s)); [|done|intros h; unfold vcoll; by rewrite Eg].
  apply (owned_orphan (vitem s) _ _ p); [done|done|done|]. intros q Hq. unfold vitem. by rewrite Ev.
Qed.

Lemma new_view_step s nm :
  full s -> full (new_view s (View_new nm)).1.
Proof.
  intros [Hi Ht]. destruct (fresh_ptr s Hi) as (Hfb & Hfv & Hfg). split.
  - split; cbn.
    + intros p Hp. destruct (decide (p = next_ptr s)) as [->|Hne]; [lia|].
      rewrite lookup_insert_ne in Hp by done. pose proof (inv_next s Hi p Hp). lia.
    + intros p v. destruct (decide (p = next_ptr s)) as [->|Hne].
      * rewrite lookup_insert_eq. intros [= <-]. split; cbn; try done. by intros [?|?].
      * rewrite lookup_insert_ne by done. intros Hv. apply (view_ok_bufs s); [done|]. by apply Hi.
    + intros p b q Hb Hq. destruct (inv_attached s Hi p b q Hb Hq) as (v & Hv & Hd). exists v.
      rewrite lookup_insert_ne; [done|]. intros <-. congruence.
    + apply Hi.
  - apply (tree_orphan_view s _ (next_ptr s)); cbn; try done.
    + intros nm' i g. unfold vitem. by rewrite Hfv.
    + intros nm' i g. unfold vitem. cbn. by rewrite lookup_insert_eq.
    + intros q Hq. by rewrite lookup_insert_ne.
Qed.

Lemma View_delete_step s p v :
  full s -> views s !! p = Some v -> m_owning_group v = None ->
  exists s', View_delete s p = Some s' /\ full s' /\ groups s' = groups s /\ m_RootGroup s' = m_RootGroup s /\
    next_ptr s' = next_ptr s /\ views s' !! p = None /\ dom (bufs s') = dom (bufs s) /\
    (forall q, q <> p -> views s' !! q = views s !! q).
Proof.
  intros [Hi Ht] Hv Hown.
  destruct (delete_view_step s p v Hi Hv) as (s' & Hs' & Hi' & Eg & Er & En & Hp & Eb & Ev).
  exists s'. split_and!; try done. split; [done|]. apply (tree_orphan_view s _ p); try done.
  - intros nm i g. unfold vitem. rewrite Hv. cbn. unfold tree_part. by rewrite Hown.
  - intros nm i g. unfold vitem. by rewrite Hp.
Qed.

Lemma room_for_le gr k k' : room_for gr k -> k' <= k -> room_for gr k'.
Proof. intros [? ?] ?. split; lia. Qed.

Lemma tree_room_le s k k' : tree_room s k -> k' <= k -> tree_room s k'.
Proof. intros Hr Hk g gr Hg. by apply (room_for_le gr k); [apply (Hr g)|]. Qed.

(** A new view in a group that has no view of that name. *)
Lemma createView_in_step s g gr nm :
  full s -> groups s !! g = Some gr -> room_for gr 1 -> coll_hasName (g_views gr) nm = false ->
  exists s' p v c idx, createView_in s g nm = Some (s', Some p) /\ full s' /\ views s !! p = None /\ v = View_new nm /\
    coll_insertItem (g_views gr) p nm = (c, idx) /\ p = next_ptr s /\ next_ptr s' = Pos.succ p /\
    views s' = <[p := with_owner v (Some g) idx]> (views s) /\ groups s' = <[g := with_gviews gr c]> (groups s) /\
    m_RootGroup s' = m_RootGroup s /\ vsize (coll_slots c) <= vsize (coll_slots (g_views gr)) + 1 /\
    bufs s' = bufs s /\ buffer_coll s' = buffer_coll s.
Proof.
  intros Hf Hg Hroom Hfree. destruct (fresh_ptr s (proj1 Hf)) as (_ & Hfv & _).
  pose proof (new_view_step s nm Hf) as Hf1. unfold createView_in.
  destruct (attachView_step (new_view s (View_new nm)).1 g gr (next_ptr s) (View_new nm)) as (c & idx & Ha & Hf2 & Hins & Hv);
    try done; [cbn; apply lookup_insert_eq|].
  cbn [new_view fst] in *. rewrite Ha. cbn [mbind option_bind].
  do 5 eexists. split; [done|]. cbn in *. split_and!; try done. by rewrite insert_insert_eq.
Qed.

(** ** Attaching and detaching a group *)

(** The views of a store in which only groups changed. *)
Lemma tree_groups_changed s s' :
  tree_inv s -> views s' = views s -> m_RootGroup s' = m_RootGroup s -> (forall h, vcoll s' h = vcoll s h) ->
  owned (gitem s') (gcoll s') -> acyclic (gitem s') ->
  (forall r, groups s !! m_RootGroup s = Some r ->
     exists r', groups s' !! m_RootGroup s = Some r' /\ g_parent r' = g_parent r) -> tree_inv s'.
Proof.
  intros [Hvs _ _ (r & Hr & Hp)] Ev Er Evc Hgs Ha Hroot. split; [|done|done|].
  - apply (owned_ext (vitem s) (vcoll s)); [done| |done]. intros p. unfold vitem. by rewrite Ev.
  - rewrite Er. destruct (Hroot r Hr) as (r' & Hr' & Hp'). exists r'. split; [done|congruence].
Qed.

(** Two groups change: [g] its child groups, [q] its place. *)
Notation regrouped s g gr c q qr parent idx :=
  (set_group (set_group s g (with_ggroups gr c)) q (with_parent qr parent idx)).

Lemma regrouped_spec s g gr c q qr parent idx :
  groups s !! g = Some gr -> groups s !! q = Some qr -> q <> g -> q <> m_RootGroup s ->
  let s' := regrouped s g gr c q qr parent idx in
  (forall p, gitem s' p = if decide (p = q) then Some (g_name qr, idx, parent) else gitem s p) /\
  (forall h, gcoll s' h = if decide (h = g) then Some (g_is_list gr, c) else gcoll s h) /\
  (forall h, vcoll s' h = vcoll s h) /\
  (forall r, groups s !! m_RootGroup s = Some r ->
     exists r', groups s' !! m_RootGroup s = Some r' /\ g_parent r' = g_parent r).
Proof.
  intros Hg Hq Hne Hroot s'. split_and!.
  - intros p. unfold s'. rewrite !gitem_set_group. cbn. unfold gitem. repeat case_decide; subst; try done. by rewrite Hg.
  - intros h. unfold s'. rewrite !gcoll_set_group. cbn. unfold gcoll. repeat case_decide; subst; try done. by rewrite Hq.
  - intros h. unfold s'. rewrite !vcoll_set_group. cbn. unfold vcoll.
    repeat case_decide; subst; try done; [by rewrite Hq|by rewrite Hg].
  - intros r Hr. unfold s'. cbn. rewrite lookup_insert_ne by done. destruct (decide (g = m_RootGroup s)) as [->|].
    + rewrite lookup_insert_eq. rewrite Hg in Hr. injection Hr as ->. eauto.
    + rewrite lookup_insert_ne by done. eauto.
Qed.

Lemma regrouped_inv s g gr c q qr parent idx :
  inv s -> groups s !! g = Some gr -> groups s !! q = Some qr -> inv (regrouped s g gr c q qr parent idx).
Proof.
  intros Hi Hg Hq. apply set_group_inv; [apply set_group_inv; [done|by eexists]|].
  unfold live_group. cbn. destruct (decide (g = q)) as [->|]; [by rewrite lookup_insert_eq|].
  rewrite lookup_insert_ne by done. by eexists.
Qed.

Lemma orphan_not_root s q qr : tree_inv s -> groups s !! q = Some qr -> g_parent qr = None -> q <> m_RootGroup s.
Proof. intros Ht Hq Hp ->. destruct (ti_root s Ht) as (r & Hr & Hrp). congruence. Qed.

Lemma attachGroup_step s g gr q qr :
  full s -> groups s !! g = Some gr -> groups s !! q = Some qr -> g_parent qr = None -> room_for gr 1 ->
  coll_hasName (g_groups gr) (g_name qr) = false -> ~ below (gitem s) q g ->
  exists c idx, attachGroup s g (Some q) = Some (regrouped s g gr c q qr (Some g) idx, Some q) /\
    full (regrouped s g gr c q qr (Some g) idx) /\ coll_insertItem (g_groups gr) q (g_name qr) = (c, idx) /\
    vsize (coll_slots c) <= vsize (coll_slots (g_groups gr)) + 1.
Proof.
  intros [Hi Ht] Hg Hq Hown [_ Hroom] Hfree Hnb.
  assert (q <> g) as Hne by (intros ->; apply Hnb, below_refl).
  pose proof (orphan_not_root s q qr Ht Hq Hown) as Hnr.
  destruct (coll_insertItem (g_groups gr) q (g_name qr)) as [c idx] eqn:E. exists c, idx.
  assert (attachGroup s g (Some q) = Some (regrouped s g gr c q qr (Some g) idx, Some q)) as ->.
  { unfold attachGroup. rewrite Hg, Hq. cbn [mbind option_bind]. unfold hasChildGroup. rewrite Hfree, E.
    destruct (isUsingMap gr); rewrite andb_false_r; cbn; by rewrite lookup_insert_ne, Hq by done. }
  destruct (regrouped_spec s g gr c q qr (Some g) idx Hg Hq Hne Hnr) as (Ei & Ec & Evc & Er).
  set (s' := regrouped s g gr c q qr (Some g) idx) in *.
  destruct (owned_attach (gitem s) (gcoll s) (gitem s') (gcoll s') g (g_is_list gr) (g_groups gr) q (g_name qr)
    (g_index qr) c idx (ti_groups s Ht)) as (Ho & Hsz & _); try done.
  - unfold gcoll. by rewrite Hg.
  - unfold gitem. rewrite decide_False, Hq by done. cbn. unfold group_part. by rewrite Hown.
  - split_and!; [done| |done|done]. split; [by apply regrouped_inv|].
    apply (tree_groups_changed s); try done.
    apply (acyclic_attach (gitem s) _ q (g_name qr) idx g); [apply Ht| |done|].
    + by rewrite Ei, decide_True.
    + intros p Hp. by rewrite Ei, decide_False.
Qed.

(** The child groups of a group are live groups below it. *)
Lemma group_at s g gr i q :
  tree_inv s -> groups s !! g = Some gr -> item_at (coll_slots (g_groups gr)) i = Some q ->
  exists qr, groups s !! q = Some qr /\ g_parent qr = Some g /\ g_index qr = i /\ q <> m_RootGroup s /\ q <> g.
Proof.
  intros Ht Hg Hat. destruct (ow_item _ _ (ti_groups s Ht) g (g_is_list gr) (g_groups gr) i q) as [nm Hnm]; [|done|].
  - unfold gcoll. by rewrite Hg.
  - assert (q <> g) as Hne.
    { intros ->. destruct (ti_acyclic s Ht g) as [n Hn].
      pose proof (depth_fun _ _ _ _ Hn (depth_child _ _ _ _ _ _ Hnm Hn)). lia. }
    unfold gitem in Hnm. case_decide; [done|]. destruct (groups s !! q) as [qr|]; [|done].
    injection Hnm as Hn Hi Hp. eauto 10.
Qed.

Lemma group_coll_ok s g gr : tree_inv s -> groups s !! g = Some gr -> coll_ok (iname (gitem s)) (g_is_list gr) (g_groups gr).
Proof. intros Ht Hg. apply (ow_coll _ _ (ti_groups s Ht) g). unfold gcoll. by rewrite Hg. Qed.

Lemma group_iname s q qr : groups s !! q = Some qr -> q <> m_RootGroup s -> iname (gitem s) q = g_name qr.
Proof. intros Hq Hne. unfold iname, gitem. by rewrite decide_False, Hq. Qed.

Lemma detach_group_ok s g gr q qr c :
  full s -> groups s !! g = Some gr -> groups s !! q = Some qr -> g_parent qr = Some g -> q <> m_RootGroup s -> q <> g ->
  removed (iname (gitem s)) (g_is_list gr) (g_groups gr) c (g_index qr) ->
  full (regrouped s g gr c q qr None InvalidIndex).
Proof.
  intros [Hi Ht] Hg Hq Hp Hnr Hne Hrem.
  destruct (regrouped_spec s g gr c q qr None InvalidIndex Hg Hq Hne Hnr) as (Ei & Ec & Evc & Er).
  split; [by apply regrouped_inv|]. apply (tree_groups_changed s); try done.
  - apply (owned_detach (gitem s) (gcoll s) _ _ g (g_is_list gr) (g_groups gr) q (g_name qr) (g_index qr) c InvalidIndex);
      try done; [apply Ht|unfold gcoll; by rewrite Hg|].
    unfold gitem. rewrite decide_False, Hq by done. cbn. unfold group_part. by rewrite Hp.
  - apply (acyclic_orphan (gitem s) _ q); [apply Ht| |].
    + intros nm i h. rewrite Ei, decide_True by done. done.
    + intros p Hpq. by rewrite Ei, decide_False.
Qed.

Notation detached_group s g gr c q qr := (regrouped s g gr c q qr None InvalidIndex).

Lemma detachGroup_idx_step s g gr idx :
  full s -> groups s !! g = Some gr -> idx < 2 ^ 31 ->
  (exists q qr c, item_at (coll_slots (g_groups gr)) idx = Some q /\ groups s !! q = Some qr /\ q <> g /\
     g_parent qr = Some g /\ q <> m_RootGroup s /\
     detachGroup_idx s g idx = Some (detached_group s g gr c q qr, Some q) /\
     full (detached_group s g gr c q qr) /\
     removed (iname (gitem s)) (g_is_list gr) (g_groups gr) c idx) \/
  (item_at (coll_slots (g_groups gr)) idx = None /\ detachGroup_idx s g idx = Some (s, None)).
Proof.
  intros [Hi Ht] Hg Hidx. pose proof (group_coll_ok s g gr Ht Hg) as Hok.
  destruct (coll_remove_spec (iname (gitem s)) (group_name s) (g_is_list gr) (g_groups gr) idx)
    as (c & Hc & Hrem & Hnone); [done| |done|].
  { intros i q Hq. destruct (group_at s g gr i q Ht Hg Hq) as (qr & Hqr & _ & _ & Hnr & _).
    unfold group_name. by rewrite Hqr, (group_iname s q qr Hqr Hnr). }
  unfold detachGroup_idx. rewrite Hg. cbn [mbind option_bind]. rewrite Hc. cbn [mbind option_bind].
  destruct (item_at (coll_slots (g_groups gr)) idx) as [q|] eqn:Hq.
  - left. destruct (group_at s g gr idx q Ht Hg Hq) as (qr & Hqr & Hp & Hix & Hnr & Hne). exists q, qr, c.
    cbn [orphan_group groups set_group]. rewrite lookup_insert_ne, Hqr by done. cbn [mbind option_bind].
    split_and!; try done. apply detach_group_ok; try done. by rewrite Hix.
  - right. split; [done|]. rewrite (Hnone eq_refl). cbn. by rewrite set_group_groups_id.
Qed.

Lemma detachGroup_step s g gr nm :
  full s -> groups s !! g = Some gr -> g_is_list gr = false ->
  (exists q qr c, groups s !! q = Some qr /\ g_name qr = nm /\ g_parent qr = Some g /\ q <> g /\ q <> m_RootGroup s /\
     detachGroup s g nm = Some (detached_group s g gr c q qr, Some q) /\ full (detached_group s g gr c q qr) /\
     removed (iname (gitem s)) (g_is_list gr) (g_groups gr) c (g_index qr) /\
     childGroup gr nm = Some q) \/
  (coll_hasName (g_groups gr) nm = false /\ detachGroup s g nm = Some (s, None)).
Proof.
  intros [Hi Ht] Hg Hl. pose proof (group_coll_ok s g gr Ht Hg) as Hok. rewrite Hl in Hok.
  unfold detachGroup. rewrite Hg. cbn [mbind option_bind]. unfold getNamedGroups.
  destruct (g_groups gr) as [c|c] eqn:Hc; [|by destruct Hok as [_ [? _]]]. cbn [as_named mbind option_bind].
  destruct (coll_remove_name_spec _ c nm Hok) as [(i & q & Hq & Hn & Hget & c' & -> & Hrem)|(Hf & _ & ->)].
  - left. destruct (group_at s g gr i q Ht Hg) as (qr & Hqr & Hp & Hix & Hnr & Hne); [by rewrite Hc|].
    exists q, qr, (CMap c'). cbn [orphan_group groups set_group]. rewrite lookup_insert_ne, Hqr by done.
    cbn [mbind option_bind].
    assert (removed (iname (gitem s)) (g_is_list gr) (g_groups gr) (CMap c') (g_index qr)) as Hrem'
      by (by rewrite Hl, Hix, Hc).
    split_and!; try done; [by rewrite <- Hn, (group_iname s q qr Hqr Hnr)|by apply detach_group_ok|by rewrite Hc in Hrem'|].
    unfold childGroup, getNamedGroups. by rewrite Hc.
  - right. split; [done|]. cbn. rewrite <- Hc. by rewrite set_group_groups_id.
Qed.

(** Where a group sits in its parent. *)
Lemma group_place s q qr g :
  tree_inv s -> groups s !! q = Some qr -> g_parent qr = Some g -> q <> m_RootGroup s ->
  exists gr, groups s !! g = Some gr /\ item_at (coll_slots (g_groups gr)) (g_index qr) = Some q.
Proof.
  intros Ht Hq Hp Hnr. destruct (ow_owner _ _ (ti_groups s Ht) q (g_name qr) (g_index qr) g) as (l & c & Hco & Hat).
  { unfold gitem. rewrite decide_False, Hq by done. cbn. unfold group_part. by rewrite Hp. }
  unfold gcoll in Hco. destruct (groups s !! g) as [gr|]; [|done]. injection Hco as <- <-. eauto.
Qed.


Lemma detachGroup_self s g gr q qr :
  full s -> groups s !! g = Some gr -> g_is_list gr = false -> groups s !! q = Some qr -> g_parent qr = Some g ->
  q <> m_RootGroup s ->
  exists c, detachGroup s g (g_name qr) = Some (detached_group s g gr c q qr, Some q) /\ q <> g /\
    full (detached_group s g gr c q qr) /\ removed (iname (gitem s)) (g_is_list gr) (g_groups gr) c (g_index qr).
Proof.
  intros [Hi Ht] Hg Hl Hq Hp Hnr. pose proof (group_coll_ok s g gr Ht Hg) as Hok.
  destruct (group_place s q qr g Ht Hq Hp Hnr) as (gr0 & Hg0 & Hat). rewrite Hg in Hg0. injection Hg0 as <-.
  destruct (detachGroup_step s g gr (g_name qr))
    as [(q' & qr' & c & Hq' & Hn & Hp' & Hne & Hnr' & Hd & Hf & Hr & _)|[Hn _]]; try done.
  - assert (q' = q) as ->; [|exists c; by simplify_eq].
    destruct (group_place s q' qr' g Ht Hq' Hp' Hnr') as (gr0 & Hg0 & Hat'). rewrite Hg in Hg0. injection Hg0 as <-.
    eapply (coll_name_unique (iname (gitem s))); [done|done|done|done|].
    by rewrite (group_iname s q qr Hq Hnr), (group_iname s q' qr' Hq' Hnr').
  - exfalso. assert (coll_hasName (g_groups gr) (g_name qr) = true); [|congruence].
    apply (coll_hasName_spec (iname (gitem s)) (g_is_list gr)); [done|done|]. exists (g_index qr), q.
    by rewrite (group_iname s q qr Hq Hnr).
Qed.

(** ** Creating groups *)

Lemma new_group_step s nm l :
  full s -> full (new_group s (Group_new nm l)).1 /\
    forall q, q <> next_ptr s -> ~ below (gitem (new_group s (Group_new nm l)).1) (next_ptr s) q.
Proof.
  intros [Hi Ht]. destruct (fresh_ptr s Hi) as (Hfb & Hfv & Hfg). set (s' := (new_group s (Group_new nm l)).1).
  assert (groups s' = <[next_ptr s := Group_new nm l]> (groups s)) as Eg by done.
  assert (next_ptr s <> m_RootGroup s) as Hnr by (intros Heq; destruct (ti_root s Ht) as (r & Hr & _); congruence).
  assert (g_views (Group_new nm l) = coll_new l /\ g_groups (Group_new nm l) = coll_new l /\
    g_is_list (Group_new nm l) = l /\ g_parent (Group_new nm l) = None) as (Ev & Egg & El & Ep)
    by (unfold Group_new; by destruct l).
  assert (unowned (gitem s) (next_ptr s)) as Hu.
  { intros nm' i g. unfold gitem. case_decide; [done|]. by rewrite Hfg. }
  assert (unowned (gitem s') (next_ptr s)) as Hu'.
  { intros nm' i g. unfold gitem. case_decide; [done|]. rewrite Eg, lookup_insert_eq. cbn. unfold group_part.
    by rewrite Ep. }
  assert (forall q, q <> next_ptr s -> gitem s' q = gitem s q) as Ei.
  { intros q Hq. unfold gitem. rewrite Eg, lookup_insert_ne by done. done. }
  assert (forall (sel : Group -> Coll) it, sel (Group_new nm l) = coll_new l ->
    owned it (fun g => (fun gr => (g_is_list gr, sel gr)) <$> groups s !! g) ->
    owned it (fun g => (fun gr => (g_is_list gr, sel gr)) <$> groups s' !! g)) as Hcoll.
  { intros sel it Hsel Ho. eapply (owned_empty it _ _ (next_ptr s)); [done|..].
    - intros l' c i. cbv beta. by rewrite Hfg.
    - intros l' c. cbv beta. rewrite Eg, lookup_insert_eq. cbn. rewrite El, Hsel. intros [= <- <-].
      destruct (coll_new_ok (iname it) l) as [Hok ->]. split; [done|]. intros i. apply item_at_out. unfold vsize. cbn. lia.
    - intros h Hh. cbv beta. by rewrite Eg, lookup_insert_ne. }
  split; [split|].
  - apply (inv_same_data s); try done; [cbn; lia|]. intros p. rewrite Eg. cbn.
    destruct (decide (next_ptr s = p)) as [<-|Hne]; [lia|]. rewrite lookup_insert_ne by done. intros Hp.
    pose proof (inv_next s Hi p (or_intror (or_intror Hp))). lia.
  - destruct Ht as [Hvs Hgs Ha Hr]. split.
    + by apply (Hcoll g_views).
    + apply (Hcoll g_groups); [done|]. by apply (owned_orphan (gitem s) _ _ (next_ptr s)).
    + by apply (acyclic_orphan (gitem s) _ (next_ptr s)).
    + rewrite Eg. cbn. by rewrite lookup_insert_ne.
  - (* no group has the new one as its parent *)
    intros q Hq Hb. assert (forall x, below (gitem s') (next_ptr s) x -> x = next_ptr s) as Hb'; [|by apply Hq, Hb'].
    clear q Hq Hb. intros x Hb. induction Hb as [|q nm' i g Hit Hb ->]; [done|].
    destruct (decide (q = next_ptr s)) as [|Hq]; [done|]. rewrite Ei in Hit by done.
    destruct (ow_owner _ _ (ti_groups s Ht) q nm' i _ Hit) as (l' & c & Hco & _). unfold gcoll in Hco.
    by rewrite Hfg in Hco.
Qed.

(** What creating groups leaves alone: groups keep their place, their views and the
    child groups they have. *)
Record grows s s' : Prop := {
  gw_root : m_RootGroup s' = m_RootGroup s;
  gw_next : (next_ptr s <= next_ptr s')%positive;
  gw_views : views s' = views s;
  gw_bufs : bufs s' = bufs s;
  gw_coll : buffer_coll s' = buffer_coll s;
  gw_groups g gr : groups s !! g = Some gr -> exists gr', groups s' !! g = Some gr' /\
    g_is_list gr' = g_is_list gr /\ group_part gr' = group_part gr /\ g_views gr' = g_views gr /\
    forall x c, coll_named (g_groups gr) x = Some c -> coll_named (g_groups gr') x = Some c
}.

#[export] Instance grows_preorder : PreOrder grows.
Proof.
  split.
  - intros s. split; try done. eauto 10.
  - intros s1 s2 s3 [Hr1 Hn1 Hv1 Hb1 Hc1 Hg1] [Hr2 Hn2 Hv2 Hb2 Hc2 Hg2]. split; try congruence; [lia|].
    intros g gr Hg. destruct (Hg1 g gr Hg) as (gr' & Hg' & E1 & E2 & E3 & E4).
    destruct (Hg2 g gr' Hg') as (gr2 & Hg2' & F1 & F2 & F3 & F4). exists gr2.
    split_and!; [done|congruence|congruence|congruence|]. intros x c Hx. by apply F4, E4.
Qed.

Lemma hasChildGroup_name s g gr nm :
  tree_inv s -> groups s !! g = Some gr -> hasChildGroup gr nm = coll_hasName (g_groups gr) nm.
Proof.
  intros Ht Hg. destruct (group_coll_ok s g gr Ht Hg) as [_ Hc]. unfold hasChildGroup, isUsingMap.
  destruct (g_is_list gr) eqn:El; [|done]. by destruct (g_groups gr); [destruct Hc|].
Qed.

Lemma hasChildView_name s g gr nm :
  tree_inv s -> groups s !! g = Some gr -> hasChildView gr nm = coll_hasName (g_views gr) nm.
Proof.
  intros Ht Hg. destruct (view_coll_ok s g gr Ht Hg) as [_ Hc]. unfold hasChildView, isUsingMap.
  destruct (g_is_list gr) eqn:El; [|done]. by destruct (g_views gr); [destruct Hc|].
Qed.

Lemma hasChildGroup_named s g gr nm :
  tree_inv s -> groups s !! g = Some gr -> hasChildGroup gr nm = bool_decide (is_Some (coll_named (g_groups gr) nm)).
Proof.
  intros Ht Hg. rewrite (hasChildGroup_name s g gr nm Ht Hg). eapply coll_hasName_named. by eapply group_coll_ok.
Qed.

Lemma hasChildView_named s g gr nm :
  tree_inv s -> groups s !! g = Some gr -> hasChildView gr nm = bool_decide (is_Some (coll_named (g_views gr) nm)).
Proof.
  intros Ht Hg. rewrite (hasChildView_name s g gr nm Ht Hg). eapply coll_hasName_named. by eapply view_coll_ok.
Qed.

(** A child group found by name is live. *)
Lemma named_group s g gr nm q :
  tree_inv s -> groups s !! g = Some gr -> coll_named (g_groups gr) nm = Some q ->
  exists qr, groups s !! q = Some qr /\ g_name qr = nm /\ g_parent qr = Some g /\ g_is_list gr = false /\
    q <> m_RootGroup s /\ item_at (coll_slots (g_groups gr)) (g_index qr) = Some q.
Proof.
  intros Ht Hg Hn. apply (coll_named_spec _ _ _ _ _ (group_coll_ok s g gr Ht Hg)) in Hn as (Hl & i & Hi & Hnm).
  destruct (group_at s g gr i q Ht Hg Hi) as (qr & Hq & Hp & Hix & Hnr & _). exists qr.
  rewrite (group_iname s q qr Hq Hnr) in Hnm. subst i. eauto 10.
Qed.

Lemma named_view s g gr nm p :
  tree_inv s -> groups s !! g = Some gr -> coll_named (g_views gr) nm = Some p ->
  exists v, views s !! p = Some v /\ m_name v = nm /\ m_owning_group v = Some g /\ g_is_list gr = false /\
    item_at (coll_slots (g_views gr)) (m_index v) = Some p.
Proof.
  intros Ht Hg Hn. apply (coll_named_spec _ _ _ _ _ (view_coll_ok s g gr Ht Hg)) in Hn as (Hl & i & Hi & Hnm).
  destruct (view_at s g gr i p Ht Hg Hi) as (v & Hv & Hown & Hix). exists v.
  rewrite (view_iname s p v Hv) in Hnm. subst i. eauto 10.
Qed.

(** A new child group of [g]. *)
Lemma createGroup_in_step s g gr nm l :
  full s -> groups s !! g = Some gr -> room_for gr 1 ->
  (createGroup_in s g nm l = Some (s, None) /\
   (nm = EmptyString \/ hasChildGroup gr nm = true \/ hasChildView gr nm = true)) \/
  (nm <> EmptyString /\ coll_hasName (g_groups gr) nm = false /\ coll_hasName (g_views gr) nm = false /\
   exists s' q c idx, createGroup_in s g nm l = Some (s', Some q) /\ full s' /\ grows s s' /\ q = next_ptr s /\
     groups s' = <[q := with_parent (Group_new nm l) (Some g) idx]> (<[g := with_ggroups gr c]> (groups s)) /\
     coll_insertItem (g_groups gr) q nm = (c, idx) /\ vsize (coll_slots c) <= vsize (coll_slots (g_groups gr)) + 1 /\
     forall x, coll_named c x = if decide (x = nm /\ g_is_list gr = false) then Some q else coll_named (g_groups gr) x).
Proof.
  intros Hf Hg Hroom. pose proof Hf as [Hi Ht]. pose proof (view_coll_ok s g gr Ht Hg) as Hvok.
  pose proof (group_coll_ok s g gr Ht Hg) as Hgok. unfold createGroup_in. rewrite Hg. cbn [mbind option_bind].
  pose proof (hasChildGroup_name s g gr nm Ht Hg) as Ehg. pose proof (hasChildView_name s g gr nm Ht Hg) as Ehv.
  destruct (str_nonempty nm) eqn:Hne; cbn [negb orb]; [|left; split; [done|left; by destruct nm]].
  destruct (hasChildGroup gr nm) eqn:E1; cbn [orb]; [left; naive_solver|].
  destruct (hasChildView gr nm) eqn:E2; cbn [orb]; [left; naive_solver|].
  right. split; [by intros ->|]. do 2 (split; [done|]).
  destruct (fresh_ptr s Hi) as (_ & _ & Hfg). destruct (new_group_step s nm l Hf) as [Hf1 Hnb].
  assert (g <> next_ptr s) as Hgq by congruence.
  destruct (attachGroup_step (new_group s (Group_new nm l)).1 g gr (next_ptr s) (Group_new nm l))
    as (c & idx & Ha & Hf2 & Hins & Hsz); try done.
  - cbn. by rewrite lookup_insert_ne.
  - cbn. by rewrite lookup_insert_eq.
  - unfold Group_new. by destruct l.
  - unfold Group_new. by destruct l.
  - by apply Hnb.
  - cbn [new_group fst] in *. rewrite Ha. assert (g_name (Group_new nm l) = nm) as En by (unfold Group_new; by destruct l).
    rewrite En in Hins. eexists _, (next_ptr s), c, idx. split; [done|]. split; [done|].
    pose proof (fun x => coll_insert_named (fun p => if decide (p = next_ptr s) then nm else iname (gitem s) p)
      (g_is_list gr) (g_groups gr) (next_ptr s) nm c idx x) as Hnamed.
    assert (coll_ok (fun p => if decide (p = next_ptr s) then nm else iname (gitem s) p) (g_is_list gr) (g_groups gr)) as Hok2.
    { apply (coll_ok_ext (iname (gitem s))); [|done]. intros i p Hp. rewrite decide_False; [done|]. intros ->.
      destruct (group_at s g gr i (next_ptr s) Ht Hg Hp) as (qr & Hq & _). congruence. }
    specialize (fun x => Hnamed x Hok2 (proj2 Hroom) ltac:(cbv beta; by rewrite decide_True) ltac:(congruence) Hins).
    split_and!; [|done| |done|done|done].
    + split; try done; [cbn; lia|]. intros h hr Hh. cbn. destruct (decide (h = g)) as [->|Hhg].
      * exists (with_ggroups gr c). rewrite lookup_insert_ne by done. rewrite lookup_insert_eq.
        rewrite Hg in Hh. injection Hh as <-. split_and!; try done. intros x d Hx. cbn. rewrite Hnamed.
        destruct (decide (x = nm /\ g_is_list gr = false)) as [[-> _]|_]; [|exact Hx]. exfalso.
        rewrite (coll_hasName_named _ _ _ _ Hgok), Hx in Ehg. done.
      * exists hr. rewrite !lookup_insert_ne by congruence. eauto 10.
    + cbn. rewrite (insert_insert_ne _ g) by done. by rewrite insert_insert_eq.
Qed.

Lemma createGroup_in_room s g gr nm l s' q c idx k :
  groups s !! g = Some gr -> tree_room s (k + 1) -> 0 <= k ->
  groups s' = <[q := with_parent (Group_new nm l) (Some g) idx]> (<[g := with_ggroups gr c]> (groups s)) ->
  vsize (coll_slots c) <= vsize (coll_slots (g_groups gr)) + 1 -> tree_room s' k.
Proof.
  intros Hg Hr Hk Eg Hc h hr. rewrite Eg. destruct (Hr g gr Hg) as [Hgv Hgg].
  assert (0 <= vsize (coll_slots (g_views gr))) by (unfold vsize; lia).
  intros [[_ <-]|[_ [[_ <-]|[_ Hh]]%lookup_insert_Some]]%lookup_insert_Some.
  - unfold Group_new. destruct l; split; unfold vsize; cbn; lia.
  - split; cbn; lia.
  - destruct (Hr h hr Hh). split; lia.
Qed.

(** ** Walking a path *)

Lemma walk_loop_cons s g x y rest create :
  walk_loop s g (x :: y :: rest) create =
  (gr ← groups s !! g;
   if hasChildGroup gr x then g' ← childGroup gr x; walk_loop s g' (y :: rest) create
   else if create then
     '(s, group) ← createGroup_in s g x false;
     match group with Some g' => walk_loop s g' (y :: rest) create | None => Some (s, None) end
   else Some (s, None)).
Proof. done. Qed.

Lemma walk_const_cons s g x y rest :
  walk_const s g (x :: y :: rest) =
  (gr ← groups s !! g;
   if hasChildGroup gr x then g' ← childGroup gr x; walk_const s g' (y :: rest) else Some None).
Proof. done. Qed.

Lemma walk_const_child s g gr x q y rest :
  tree_inv s -> groups s !! g = Some gr -> coll_named (g_groups gr) x = Some q ->
  walk_const s g (x :: y :: rest) = walk_const s q (y :: rest).
Proof.
  intros Ht Hg Hx. rewrite walk_const_cons, Hg. cbn [mbind option_bind].
  rewrite (hasChildGroup_named s g gr x Ht Hg), Hx, bool_decide_true by done.
  change (childGroup gr x) with (coll_named (g_groups gr) x). by rewrite Hx.
Qed.

(** The groups that a walk meets use the map format. *)
Fixpoint walk_named s g (parts : list string) : Prop :=
  match groups s !! g with
  | Some gr =>
    g_is_list gr = false /\
    match parts with
    | x :: rest => match coll_named (g_groups gr) x with Some q => walk_named s q rest | None => True end
    | [] => True
    end
  | None => False
  end.

Lemma walk_loop_step parts s g create k :
  full s -> live_group s g -> 0 <= k -> tree_room s (Z.of_nat (length parts) + k) ->
  exists s' r, walk_loop s g parts create = Some (s', r) /\ full s' /\ grows s s' /\ tree_room s' k /\
    (create = false -> s' = s) /\ (forall q, r = Some q -> live_group s' q) /\
    (walk_named s g parts -> forall q, r = Some q -> walk_const s' g parts = Some (Some q) /\
       forall qr, groups s' !! q = Some qr -> g_is_list qr = false).
Proof.
  revert s g k. induction parts as [|x [|y rest] IH]; intros s g k Hf Hg Hk Hroom.
  - exists s, (Some g). split_and!; try done; [by intros q [= <-]|].
    intros Hn q [= <-]. split; [done|]. intros qr Hq. cbn in Hn. rewrite Hq in Hn. by destruct Hn.
  - exists s, (Some g). split_and!; try done; [eapply tree_room_le; [exact Hroom|cbn [length]; lia]|by intros q [= <-]|].
    intros Hn q [= <-]. split; [done|]. intros qr Hq. cbn in Hn. rewrite Hq in Hn. by destruct Hn.
  - rewrite walk_loop_cons. destruct Hg as [gr Hg]. rewrite Hg. cbn [mbind option_bind].
    rewrite (hasChildGroup_named s g gr x (proj2 Hf) Hg).
    change (childGroup gr x) with (coll_named (g_groups gr) x).
    destruct (coll_named (g_groups gr) x) as [q|] eqn:Hx.
    + rewrite bool_decide_true by done. cbn [mbind option_bind].
      destruct (named_group s g gr x q (proj2 Hf) Hg Hx) as (qr & Hq & _).
      destruct (IH s q k) as (s' & r & Hw & Hf' & Hgw & Hr' & Hc & Hl & Hn); [done|by eexists|done| |].
      { eapply tree_room_le; [done|]. cbn [length]. lia. }
      exists s', r. split_and!; try done. intros Hnm q' Hq'.
      cbn [walk_named] in Hnm. rewrite Hg, Hx in Hnm. destruct Hnm as [_ Hnm].
      destruct (Hn Hnm q' Hq') as [Hwc Hlist]. split; [|done].
      destruct (gw_groups _ _ Hgw g gr Hg) as (gr' & Hg' & _ & _ & _ & Hnamed).
      by rewrite (walk_const_child s' g gr' x q y rest (proj2 Hf') Hg' (Hnamed x q Hx)).
    + rewrite bool_decide_false by (by intros [? ?]).
      destruct create; [|exists s, None; split_and!; try done; eapply tree_room_le; [exact Hroom|cbn [length]; lia]].
      destruct (createGroup_in_step s g gr x false) as
        [[-> _]|(_ & _ & _ & s1 & q & c & idx & -> & Hf1 & Hgw1 & Hqn & Eg & _ & Hc & Hnamed)]; [done|done| | |].
      { eapply room_for_le; [by apply (Hroom g)|]. cbn [length]. lia. }
      { cbn [mbind option_bind]. exists s, None. split_and!; try done. eapply tree_room_le; [exact Hroom|cbn [length]; lia]. }
      cbn [mbind option_bind].
      assert (groups s1 !! q = Some (with_parent (Group_new x false) (Some g) idx)) as Hq1
        by (rewrite Eg; apply lookup_insert_eq).
      destruct (IH s1 q k) as (s' & r & Hw & Hf' & Hgw & Hr' & _ & Hl & Hn); [done|by eexists|done| |].
      { eapply (createGroup_in_room s g gr x false); [done| |lia|done|done].
        eapply tree_room_le; [done|]. cbn [length]. lia. }
      exists s', r. split_and!; try done; [by trans s1|]. intros Hnm q' Hq'.
      cbn [walk_named] in Hnm. rewrite Hg in Hnm. destruct Hnm as [Hlist _].
      destruct (Hn ltac:(cbn [walk_named]; by rewrite Hq1) q' Hq') as [Hwc Hlist']. split; [|done].
      assert (exists gr1, groups s1 !! g = Some gr1 /\ g_groups gr1 = c) as (gr1 & Hg1 & Hgc).
      { rewrite Eg. exists (with_ggroups gr c). rewrite lookup_insert_ne; [by rewrite lookup_insert_eq|].
        intros Heq. destruct (fresh_ptr s (proj1 Hf)) as (_ & _ & Hfr). congruence. }
      destruct (gw_groups _ _ Hgw g gr1 Hg1) as (gr' & Hg' & _ & _ & _ & Hnm').
      rewrite (walk_const_child s' g gr' x q y rest (proj2 Hf') Hg'); [done|]. apply Hnm'.
      rewrite Hgc, Hnamed. by destruct (decide (x = x /\ g_is_list gr = false)) as [|[]].
Qed.

(** The name at the end of a path. *)
Definition path_last (path : string) : string :=
  match path_parts path with [] => path | parts => List.last parts EmptyString end.

(** The room that creating an object at a path needs. *)
Definition path_room s (path : string) : Prop := tree_room s (Z.of_nat (length (path_parts path)) + 1).

Lemma walkPath_step s g path create k :
  full s -> live_group s g -> 0 <= k -> tree_room s (Z.of_nat (length (path_parts path)) + k) ->
  exists s' r nm, walkPath s g path create = Some (s', (r, nm)) /\ full s' /\ grows s s' /\ tree_room s' k /\
    (create = false -> s' = s) /\ (forall q, r = Some q -> live_group s' q /\ nm = path_last path) /\
    (walk_named s g (path_parts path) -> forall q, r = Some q ->
       walkPath_const s' g path = Some (Some q, path_last path) /\
       forall qr, groups s' !! q = Some qr -> g_is_list qr = false).
Proof.
  intros Hf Hg Hk Hroom.
  destruct (walk_loop_step (path_parts path) s g create k Hf Hg Hk Hroom)
    as (s' & r & Hw & Hf' & Hgw & Hr & Hc & Hl & Hn).
  unfold walkPath, walkPath_const, path_last in *. destruct Hg as [gr Hg]. rewrite Hg. cbn [mbind option_bind].
  destruct (path_parts path) as [|x rest] eqn:Hp.
  - cbn in Hw. injection Hw as <- <-. exists s, (Some g), path. split_and!; try done; [intros q [= <-]; by split; [eexists|]|].
    intros Hnm q [= <-]. split; [done|]. intros qr Hq. cbn in Hnm. rewrite Hq in Hnm. by destruct Hnm.
  - destruct (g_is_list gr && _).
    + exists s, None, path. split_and!; try done. eapply tree_room_le; [done|]. lia.
    + rewrite Hw. cbn [mbind option_bind]. exists s', r, (List.last (x :: rest) EmptyString). split_and!; try done.
      * intros q Hq. split; [by apply Hl|done].
      * intros Hnm q Hq. destruct (Hn Hnm q Hq) as [Hwc Hlist]. by rewrite Hwc.
Qed.

Lemma createGroup_step s g path l :
  full s -> live_group s g -> path_room s path ->
  exists s' r, createGroup s g path l = Some (s', r) /\ full s' /\ grows s s' /\
    (forall q, r = Some q -> live_group s' q).
Proof.
  intros Hf Hg Hroom.
  destruct (walkPath_step s g path true 1 Hf Hg ltac:(lia) Hroom) as (s1 & r & nm & Hw & Hf1 & Hgw & Hr1 & _ & Hl & _).
  unfold createGroup. rewrite Hw. cbn [mbind option_bind]. destruct r as [q|]; [|exists s1, None; by split_and!].
  destruct (Hl q eq_refl) as [[qr Hq] _].
  destruct (createGroup_in_step s1 q qr nm l Hf1 Hq (Hr1 q qr Hq))
    as [[-> _]|(_ & _ & _ & s' & c & ? & ? & -> & Hf' & Hgw' & _ & Eg & _)]; [exists s1, None; by split_and!|].
  exists s', (Some c). split_and!; try done; [by trans s1|]. intros c' [= <-]. eexists. rewrite Eg. apply lookup_insert_eq.
Qed.

Lemma createUnnamedGroup_step s g l :
  full s -> live_group s g -> tree_room s 1 ->
  exists s' r, createUnnamedGroup s g l = Some (s', r) /\ full s'.
Proof.
  intros Hf [gr Hg] Hroom. unfold createUnnamedGroup. rewrite Hg. cbn [mbind option_bind].
  destruct (g_is_list gr) eqn:Hlist; [|exists s, None; by split_and!].
  destruct (new_group_step s EmptyString l Hf) as [Hf1 Hnb].
  destruct (fresh_ptr s (proj1 Hf)) as (_ & _ & Hfg). assert (g <> next_ptr s) as Hne by congruence.
  destruct (attachGroup_step (new_group s (Group_new EmptyString l)).1 g gr (next_ptr s) (Group_new EmptyString l))
    as (c & idx & Ha & Hf2 & _).
  - done.
  - cbn. by rewrite lookup_insert_ne.
  - cbn. by rewrite lookup_insert_eq.
  - unfold Group_new. by destruct l.
  - by apply (Hroom g).
  - destruct (group_coll_ok s g gr (proj2 Hf) Hg) as [_ Hc]. rewrite Hlist in Hc. by destruct (g_groups gr); [destruct Hc|].
  - by apply Hnb.
  - cbn [new_group fst] in *. rewrite Ha. eauto.
Qed.

(** Creating a view: null, or a new view in the tree; existing views stay. *)
Definition view_created s s' (r : option ptr) : Prop :=
  full s' /\ bufs s' = bufs s /\ buffer_coll s' = buffer_coll s /\
  (forall p, is_Some (views s !! p) -> views s' !! p = views s !! p) /\
  forall p, r = Some p -> views s !! p = None /\
    exists v q, views s' !! p = Some v /\ m_owning_group v = Some q /\ m_state v = EMPTY.

Lemma view_not_created s s' : full s' -> grows s s' -> view_created s s' None.
Proof. intros Hf Hg. refine (conj Hf (conj _ (conj _ (conj _ _)))); [apply Hg|apply Hg| |done]. intros p _. by rewrite (gw_views _ _ Hg). Qed.

Lemma createView_in_created s s1 q qr nm :
  full s1 -> grows s s1 -> groups s1 !! q = Some qr -> room_for qr 1 -> coll_hasName (g_views qr) nm = false ->
  exists s' r, createView_in s1 q nm = Some (s', r) /\ view_created s s' r.
Proof.
  intros Hf1 Hgw Hq Hr Hn. destruct (createView_in_step s1 q qr nm Hf1 Hq Hr Hn)
    as (s' & p & v & c & idx & Hs' & Hf' & Hfr & -> & _ & _ & _ & Ev & _ & _ & _ & Eb & Ec).
  rewrite (gw_views _ _ Hgw) in Hfr, Ev. exists s', (Some p). split; [done|].
  refine (conj Hf' (conj _ (conj _ (conj _ _)))).
  - by rewrite Eb, (gw_bufs _ _ Hgw).
  - by rewrite Ec, (gw_coll _ _ Hgw).
  - intros p' [v' Hp']. rewrite Ev, lookup_insert_ne; [done|]. congruence.
  - intros p' [= <-]. split; [done|]. eexists _, q. rewrite Ev, lookup_insert_eq. done.
Qed.

Lemma createView_step s g path :
  full s -> live_group s g -> path_room s path ->
  exists s' r, createView s g path = Some (s', r) /\ view_created s s' r.
Proof.
  intros Hf [gr Hg] Hroom. unfold createView. rewrite Hg. cbn [mbind option_bind].
  destruct (str_nonempty path) eqn:Hpath; cbn [negb].
  - destruct (walkPath_step s g path true 1 Hf ltac:(by eexists) ltac:(lia) Hroom)
      as (s1 & r & nm & Hw & Hf1 & Hgw & Hr1 & _ & Hl & _). rewrite Hw. cbn [mbind option_bind].
    pose proof (view_not_created s s1 Hf1 Hgw) as Hnull.
    destruct r as [q|]; [|by exists s1, None]. destruct (Hl q eq_refl) as [[qr Hq] _]. rewrite Hq. cbn [mbind option_bind].
    destruct (negb (str_nonempty nm)); cbn [orb]; [by exists s1, None|].
    destruct (hasChildView qr nm) eqn:Ev; cbn [orb]; [by exists s1, None|].
    destruct (hasChildGroup qr nm); cbn [orb]; [by exists s1, None|].
    eapply createView_in_created; [done|done|done|by apply (Hr1 q)|].
    by rewrite <- (hasChildView_name s1 q qr nm (proj2 Hf1) Hq).
  - destruct (g_is_list gr) eqn:Hlist; [|exists s, None; split; [done|by apply view_not_created]].
    eapply createView_in_created; [done|done|done|eapply room_for_le; [by apply (Hroom g)|lia]|].
    destruct (view_coll_ok s g gr (proj2 Hf) Hg) as [_ Hc]. rewrite Hlist in Hc. by destruct (g_views gr); [destruct Hc|].
Qed.

(** ** Loops over a collection *)

Section loop.
Context (sel : Group -> Coll) (g : ptr) (body : DS -> Z -> option DS).
(** [P lo s]: the items up to index [lo] are processed; [items] is the vector at the
    start. *)
Context (items : list (option ptr)) (P : Z -> DS -> Prop).
Context (items_small : vsize items < 2 ^ 31).
Context (P_items : forall lo s, P lo s -> exists gr, groups s !! g = Some gr /\
  vsize (coll_slots (sel gr)) = vsize items /\ forall j, lo < j -> item_at (coll_slots (sel gr)) j = item_at items j).
Context (P_skip : forall lo lo' s, P lo s -> lo <= lo' -> (forall j, lo < j <= lo' -> item_at items j = None) -> P lo' s).
Context (P_body : forall lo s q, P lo s -> item_at items (lo + 1) = Some q ->
  exists s', body s (lo + 1) = Some s' /\ P (lo + 1) s').

Lemma coll_loop_S n s idx :
  coll_loop (S n) sel g body s idx =
  if negb (indexIsValid idx) then Some s else
  s ← body s idx; gr ← groups s !! g; idx ← coll_next (sel gr) idx; coll_loop n sel g body s idx.
Proof. done. Qed.

Lemma coll_loop_spec n s lo idx :
  P lo s -> -1 <= lo < vsize items -> is_next (item_at items) lo idx -> vsize items - lo <= Z.of_nat n ->
  exists s', coll_loop (S n) sel g body s idx = Some s' /\ P (vsize items) s'.
Proof using All.
  revert s lo idx. induction n as [|n IH]; intros s lo idx HP Hlo Hnx Hn; [lia|].
  rewrite coll_loop_S. unfold indexIsValid. destruct (Z.eqb_spec idx InvalidIndex) as [->|Hne]; cbn [negb].
  - exists s. split; [done|]. apply (P_skip lo); [done|lia|]. intros j Hj.
    destruct Hnx as [[_ Hx]|[? _]]; [apply Hx; lia|unfold InvalidIndex in *; lia].
  - destruct (next_item _ _ _ (proj1 Hlo) Hnx Hne) as (q & Hq & Hr & _).
    assert (P (idx - 1) s) as HP'.
    { apply (P_skip lo); [done|lia|]. intros j Hj. destruct Hnx as [[? _]|(_ & _ & Hx)]; [done|]. apply Hx. lia. }
    destruct (P_body (idx - 1) s q) as (s' & Hs' & HPs'); [done|by rewrite Z.sub_add|].
    rewrite Z.sub_add in Hs', HPs'. rewrite Hs'. cbn [mbind option_bind].
    destruct (P_items idx s' HPs') as (gr & -> & Hsz & Hat). cbn [mbind option_bind].
    destruct (coll_next_spec (sel gr) idx) as (r & -> & Hnx'); [lia|lia|]. cbn [mbind option_bind].
    apply (IH s' idx r); [done|lia| |lia]. by eapply is_next_ext.
Qed.

Lemma for_coll_spec s :
  P (-1) s -> exists s', for_coll (S (S (length items))) sel g body s = Some s' /\ P (vsize items) s'.
Proof using All.
  intros HP. destruct (P_items (-1) s HP) as (gr & Hg & Hsz & Hat). unfold for_coll. rewrite Hg.
  cbn [mbind option_bind]. destruct (coll_first_spec (sel gr)) as (r & -> & Hnx); [lia|]. cbn [mbind option_bind].
  destruct (decide (items = [])) as [->|Hnil].
  - exists s. assert (r = InvalidIndex) as ->.
    { destruct Hnx as [[? _]|(Hr & [x Hx] & _)]; [done|]. apply item_at_range in Hx. unfold vsize in *. cbn in *. lia. }
    split; [done|]. apply (P_skip (-1)); [done|unfold vsize; lia|]. intros j Hj. apply item_at_out. unfold vsize in *. cbn in *. lia.
  - apply (coll_loop_spec (S (length items)) s (-1) r); [done| |by eapply is_next_ext|unfold vsize; lia].
    destruct items; [done|]. unfold vsize. cbn. lia.
Qed.

End loop.

(** ** Destroying views *)

(** One view of [g] is detached and deleted. *)
Lemma destroyView_idx_owned s g gr idx :
  inv s -> owned (vitem s) (vcoll s) -> groups s !! g = Some gr -> idx < 2 ^ 31 ->
  exists s' c, destroyView_idx s g idx = Some s' /\ inv s' /\ owned (vitem s') (vcoll s') /\
    groups s' = <[g := with_gviews gr c]> (groups s) /\ m_RootGroup s' = m_RootGroup s /\
    next_ptr s' = next_ptr s /\ dom (bufs s') = dom (bufs s) /\
    removed (iname (vitem s)) (g_is_list gr) (g_views gr) c idx /\
    forall q, views s' !! q = if decide (item_at (coll_slots (g_views gr)) idx = Some q) then None else views s !! q.
Proof.
  intros Hi Ho Hg Hidx. pose proof (owned_view_coll s g gr Ho Hg) as Hok.
  destruct (coll_remove_spec (iname (vitem s)) (view_name s) (g_is_list gr) (g_views gr) idx)
    as (c & Hc & Hrem & Hnone); [done| |done|].
  { intros i p Hp. destruct (owned_view_at s g gr i p Ho Hg Hp) as (v & Hv & _).
    unfold view_name. by rewrite Hv, (view_iname s p v Hv). }
  unfold destroyView_idx, detachView_idx. rewrite Hg. cbn [mbind option_bind]. rewrite Hc. cbn [mbind option_bind].
  destruct (item_at (coll_slots (g_views gr)) idx) as [p|] eqn:Hp.
  - destruct (owned_view_at s g gr idx p Ho Hg Hp) as (v & Hv & Hown & Hix).
    cbn [orphan_view views set_group]. rewrite Hv. cbn [mbind option_bind delete_opt].
    destruct (detach_view_owned s g gr p v c Hi Ho Hg Hv Hown) as [Hi1 Ho1]; [by rewrite Hix|].
    set (s1 := set_view _ _ _) in *.
    assert (views s1 !! p = Some (with_owner v None InvalidIndex)) as Hv1 by apply lookup_insert_eq.
    destruct (delete_view_step s1 p _ Hi1 Hv1) as (s' & Hs' & Hi' & Eg & Er & En & Hp' & Eb & Ev).
    exists s', c. split_and!; try done.
    + apply (owned_ext (vitem s') (vcoll s1)); [|done|intros h; unfold vcoll; by rewrite Eg].
      apply (owned_orphan (vitem s1) _ _ p); [done| | |].
      * intros nm i h. unfold vitem. by rewrite Hv1.
      * intros nm i h. unfold vitem. by rewrite Hp'.
      * intros q Hq. unfold vitem. by rewrite Ev.
    + intros q. case_decide as Hq; [by simplify_eq|]. assert (q <> p) as Hqp by congruence.
      rewrite Ev by done. cbn. by rewrite lookup_insert_ne.
  - rewrite (Hnone eq_refl). cbn [orphan_view mbind option_bind delete_opt]. exists s, (g_views gr).
    rewrite set_group_views_id by done. rewrite Hnone in Hrem by done. split_and!; try done.
    rewrite insert_id; [done|]. rewrite Hg. by destruct gr.
Qed.

(** The tree when only the views of the group [g] changed. *)
Lemma tree_of_views s s' g gr c :
  tree_inv s -> groups s !! g = Some gr -> groups s' = <[g := with_gviews gr c]> (groups s) ->
  m_RootGroup s' = m_RootGroup s -> owned (vitem s') (vcoll s') -> tree_inv s'.
Proof.
  intros [Hvs Hgs Ha (r & Hr & Hrp)] Hg Eg Er Hvs'.
  assert (forall q, gitem s' q = gitem s q) as Ei.
  { intros q. unfold gitem. rewrite Er, Eg. case_decide; [done|]. destruct (decide (g = q)) as [<-|].
    - by rewrite lookup_insert_eq, Hg.
    - by rewrite lookup_insert_ne. }
  destruct (groups_same s s' Ei) as [Ho' Ha']; [|done|done|].
  { intros h. unfold gcoll. rewrite Eg. destruct (decide (g = h)) as [<-|].
    - by rewrite lookup_insert_eq, Hg.
    - by rewrite lookup_insert_ne. }
  split; [done|done|done|]. rewrite Er, Eg. destruct (decide (g = m_RootGroup s)) as [->|].
  - rewrite lookup_insert_eq. rewrite Hg in Hr. injection Hr as ->. eauto.
  - rewrite lookup_insert_ne by done. eauto.
Qed.

Lemma destroyView_idx_step s g idx :
  full s -> live_group s g -> idx < 2 ^ 31 -> exists s', destroyView_idx s g idx = Some s' /\ full s'.
Proof.
  intros [Hi Ht] [gr Hg] Hidx.
  destruct (destroyView_idx_owned s g gr idx Hi (ti_views s Ht) Hg Hidx)
    as (s' & c & Hs' & Hi' & Ho' & Eg & Er & _). exists s'. split; [done|]. split; [done|]. by eapply tree_of_views.
Qed.

(** The loop of [destroyViews]: the views at indices up to [lo] are gone. *)
Record views_gone s g gr (lo : Z) s1 (c : Coll) : Prop := {
  vg_inv : inv s1;
  vg_owned : owned (vitem s1) (vcoll s1);
  vg_groups : groups s1 = <[g := with_gviews gr c]> (groups s);
  vg_root : m_RootGroup s1 = m_RootGroup s;
  vg_next : next_ptr s1 = next_ptr s;
  vg_bufs : dom (bufs s1) = dom (bufs s);
  vg_size : vsize (coll_slots c) = vsize (coll_slots (g_views gr));
  vg_items j : item_at (coll_slots c) j = if decide (j <= lo) then None else item_at (coll_slots (g_views gr)) j;
  vg_gone j q : j <= lo -> item_at (coll_slots (g_views gr)) j = Some q -> views s1 !! q = None;
  vg_kept q : (forall j, j <= lo -> item_at (coll_slots (g_views gr)) j <> Some q) -> views s1 !! q = views s !! q
}.

Lemma views_gone_start s g gr :
  inv s -> owned (vitem s) (vcoll s) -> groups s !! g = Some gr -> views_gone s g gr (-1) s (g_views gr).
Proof.
  intros Hi Ho Hg. split; try done.
  - rewrite insert_id; [done|]. rewrite Hg. by destruct gr.
  - intros j. case_decide; [|done]. by rewrite item_at_out by lia.
  - intros j q Hj Hq. apply item_at_range in Hq. lia.
Qed.

Lemma views_gone_skip s g gr lo lo' s1 c :
  views_gone s g gr lo s1 c -> lo <= lo' ->
  (forall j, lo < j <= lo' -> item_at (coll_slots (g_views gr)) j = None) -> views_gone s g gr lo' s1 c.
Proof.
  intros [? ? ? ? ? ? ? Hat Hgone Hkept] Hle Hnone. split; try done.
  - intros j. rewrite Hat. repeat case_decide; try done; [lia|]. apply Hnone. lia.
  - intros j q Hj Hq. apply (Hgone j); [|done]. destruct (decide (j <= lo)); [done|]. rewrite Hnone in Hq by lia. done.
  - intros q Hq. apply Hkept. intros j Hj. apply Hq. lia.
Qed.

Lemma views_gone_step s g gr lo s1 c q :
  vsize (coll_slots (g_views gr)) < 2 ^ 31 -> views_gone s g gr lo s1 c ->
  item_at (coll_slots (g_views gr)) (lo + 1) = Some q ->
  exists s2 c2, destroyView_idx s1 g (lo + 1) = Some s2 /\ views_gone s g gr (lo + 1) s2 c2.
Proof.
  intros Hsmall [Hi1 Ho1 Eg Er En Eb Hsz Hat Hgone Hkept] Hq. pose proof (item_at_range _ _ _ Hq) as Hrange.
  destruct (destroyView_idx_owned s1 g (with_gviews gr c) (lo + 1) Hi1 Ho1)
    as (s2 & c2 & Hs2 & Hi2 & Ho2 & Eg2 & Er2 & En2 & Eb2 & (_ & Hsz2 & Hat2) & Hv2);
    [rewrite Eg; apply lookup_insert_eq|lia|].
  exists s2, c2. cbn [g_views with_gviews] in *. split; [done|].
  assert (item_at (coll_slots c) (lo + 1) = Some q) as Hcq by (rewrite Hat, decide_False by lia; done).
  split; try congruence.
  - by rewrite Eg2, Eg, insert_insert_eq.
  - intros j. rewrite Hat2, Hat. repeat case_decide; try done; lia.
  - intros j p Hj Hp. rewrite Hv2. case_decide as Hpq; [done|].
    apply (Hgone j); [|done]. destruct (decide (j = lo + 1)) as [->|]; [congruence|lia].
  - intros p Hp. rewrite Hv2. case_decide as Hpq; [exfalso; apply (Hp (lo + 1)); [lia|congruence]|].
    apply Hkept. intros j Hj. apply Hp. lia.
Qed.

(** [destroyViews] empties the group and deletes exactly its views. *)
Lemma destroyViews_owned s g gr :
  inv s -> owned (vitem s) (vcoll s) -> groups s !! g = Some gr ->
  exists s' c, destroyViews s g = Some s' /\ inv s' /\ owned (vitem s') (vcoll s') /\
    groups s' = <[g := with_gviews gr c]> (groups s) /\ coll_slots c = [] /\
    m_RootGroup s' = m_RootGroup s /\ next_ptr s' = next_ptr s /\ dom (bufs s') = dom (bufs s) /\
    (forall p v, views s !! p = Some v -> m_owning_group v = Some g -> views s' !! p = None) /\
    (forall p, (forall v, views s !! p = Some v -> m_owning_group v <> Some g) -> views s' !! p = views s !! p).
Proof.
  intros Hi Ho Hg. pose proof (owned_view_coll s g gr Ho Hg) as Hok.
  destruct (for_coll_spec g_views g (fun s idx => destroyView_idx s g idx) (coll_slots (g_views gr))
    (fun lo s1 => exists c, views_gone s g gr lo s1 c)) with (s := s) as (s1 & Hs1 & c & [Hi1 Ho1 Eg Er En Eb _ Hat Hgone Hkept]).
  - apply Hok.
  - intros lo s1 [c Hc]. exists (with_gviews gr c). rewrite (vg_groups _ _ _ _ _ _ Hc), lookup_insert_eq.
    split_and!; [done|by apply Hc|]. intros j Hj. cbn. by rewrite (vg_items _ _ _ _ _ _ Hc), decide_False by lia.
  - intros lo lo' s1 [c Hc] Hle Hnone. exists c. by eapply views_gone_skip.
  - intros lo s1 q [c Hc] Hq. destruct (views_gone_step s g gr lo s1 c q (proj1 Hok) Hc Hq) as (s2 & c2 & Hs2 & Hc2). eauto.
  - exists (g_views gr). by apply views_gone_start.
  - assert (groups s1 !! g = Some (with_gviews gr c)) as Hg1 by (rewrite Eg; apply lookup_insert_eq).
    unfold destroyViews. rewrite Hg. cbn [mbind option_bind]. unfold coll_fuel. rewrite Hs1.
    cbn [mbind option_bind]. unfold clear_views. rewrite Hg1. cbn [mbind option_bind g_views with_gviews].
    destruct (coll_clear_spec _ _ _ (owned_view_coll s1 g _ Ho1 Hg1)) as [Hok2 Hslots]. cbn in Hok2, Hslots.
    eexists _, (coll_removeAllItems c). split; [done|].
    change (with_gviews (with_gviews gr c) (coll_removeAllItems c)) with (with_gviews gr (coll_removeAllItems c)).
    split_and!; try done.
    + apply set_group_inv; [done|]. by eexists.
    + apply (owned_empty _ (vcoll s1) _ g); [done| | |].
      * intros l c1 i. unfold vcoll. rewrite Hg1. intros [= <- <-]. cbn. rewrite Hat. case_decide; [done|].
        apply item_at_out. lia.
      * intros l c1. rewrite vcoll_set_group, decide_True by done. intros [= <- <-]. cbn. split; [done|].
        intros i. rewrite Hslots. apply item_at_out. unfold vsize. cbn. lia.
      * intros h Hh. by rewrite vcoll_set_group, decide_False.
    + cbn. by rewrite Eg, insert_insert_eq.
    + intros p v Hp Hown. cbn. destruct (owned_view_place s p v g Ho Hp Hown) as (gr0 & Hg0 & Hjp).
      rewrite Hg in Hg0. injection Hg0 as <-. apply (Hgone (m_index v)); [|done]. apply item_at_range in Hjp. lia.
    + intros p Hp. cbn. apply Hkept. intros j _ Hjp.
      destruct (owned_view_at s g gr j p Ho Hg Hjp) as (v & Hvp & Hown & _). by apply (Hp v).
Qed.

Lemma destroyViews_step s g : full s -> live_group s g -> exists s', destroyViews s g = Some s' /\ full s'.
Proof.
  intros [Hi Ht] [gr Hg]. destruct (destroyViews_owned s g gr Hi (ti_views s Ht) Hg)
    as (s' & c & Hs' & Hi' & Ho' & Eg & _ & Er & _). exists s'. split; [done|]. split; [done|]. by eapply tree_of_views.
Qed.

(** ** Walks that create nothing *)

Lemma walk_loop_false parts s g :
  tree_inv s -> live_group s g ->
  exists r, walk_loop s g parts false = Some (s, r) /\ walk_const s g parts = Some r /\
    (forall q, r = Some q -> live_group s q) /\
    (walk_named s g parts -> forall q qr, r = Some q -> groups s !! q = Some qr -> g_is_list qr = false).
Proof.
  intros Ht. revert g. induction parts as [|x [|y rest] IH]; intros g Hg.
  1,2: exists (Some g); split_and!; [done|done|by intros q [= <-]|].
  1,2: intros Hn q qr [= <-] Hq; cbn in Hn; rewrite Hq in Hn; by destruct Hn.
  rewrite walk_loop_cons, walk_const_cons. destruct Hg as [gr Hg]. cbn [walk_named]. rewrite Hg. cbn [mbind option_bind].
  rewrite (hasChildGroup_named s g gr x Ht Hg). change (childGroup gr x) with (coll_named (g_groups gr) x).
  destruct (coll_named (g_groups gr) x) as [q|] eqn:Hx; cbn [mbind option_bind].
  - rewrite bool_decide_true by done. destruct (named_group s g gr x q Ht Hg Hx) as (qr & Hq & _).
    destruct (IH q) as (r & Hr & Hc & Hl & Hn); [by eexists|]. exists r. split_and!; try done. intros [_ Hnm]. by apply Hn.
  - rewrite bool_decide_false by (by intros [? ?]). by exists None.
Qed.

Lemma walkPath_const_total s g path :
  tree_inv s -> live_group s g -> exists r nm, walkPath_const s g path = Some (r, nm) /\ (forall q, r = Some q -> live_group s q).
Proof.
  intros Ht Hg. destruct (walk_loop_false (path_parts path) s g Ht Hg) as (r & _ & Hc & Hl & _).
  unfold walkPath_const. destruct (path_parts path) as [|x rest].
  - cbn in Hc. injection Hc as <-. eauto.
  - rewrite Hc. cbn. eauto.
Qed.

Lemma walkPath_false s g path :
  tree_inv s -> live_group s g -> walk_named s g (path_parts path) ->
  exists r, walkPath s g path false = Some (s, (r, path_last path)) /\ walkPath_const s g path = Some (r, path_last path) /\
    (forall q, r = Some q -> exists qr, groups s !! q = Some qr /\ g_is_list qr = false).
Proof.
  intros Ht Hg Hnm. destruct (walk_loop_false (path_parts path) s g Ht Hg) as (r & Hw & Hc & Hl & Hn).
  unfold walkPath, walkPath_const, path_last. destruct Hg as [gr Hg]. rewrite Hg. cbn [mbind option_bind].
  exists r. assert (g_is_list gr = false) as Hlist
    by (destruct (path_parts path); cbn in Hnm; rewrite Hg in Hnm; by destruct Hnm).
  split_and!.
  - destruct (path_parts path) as [|x rest]; [cbn in Hw; by injection Hw as <-|]. rewrite Hlist, Hw. done.
  - destruct (path_parts path) as [|x rest]; [cbn in Hc; by injection Hc as <-|]. by rewrite Hc.
  - intros q Hq. destruct (Hl q Hq) as [qr Hqr]. exists qr. split; [done|]. by eapply Hn.
Qed.

Lemma path_parts_join l : Forall (part_ok s_path_delimiter) l -> path_parts (join_with s_path_delimiter l) = l.
Proof.
  intros Hl. unfold path_parts. pose proof (path_of_to_string (mkPath l s_path_delimiter false) Hl) as Hp.
  change (Path_to_string _) with (join_with s_path_delimiter l) in Hp. cbn [m_delim] in Hp. by rewrite Hp.
Qed.

Lemma path_parts_name x : part_ok s_path_delimiter x -> path_parts x = [x] /\ path_last x = x.
Proof.
  intros Hx. assert (path_parts x = [x]) as Hp by (apply (path_parts_join [x]); by apply Forall_singleton).
  unfold path_last. by rewrite Hp.
Qed.

(** A name is looked up in the group itself. *)
Lemma hasView_here s g gr x :
  groups s !! g = Some gr -> part_ok s_path_delimiter x -> hasView s g x = Some (hasChildView gr x).
Proof.
  intros Hg Hx. unfold hasView, walkPath_const. rewrite (proj1 (path_parts_name x Hx)). cbn. by rewrite Hg.
Qed.

Lemma hasGroup_here s g gr x :
  groups s !! g = Some gr -> part_ok s_path_delimiter x -> hasGroup s g x = Some (hasChildGroup gr x).
Proof.
  intros Hg Hx. unfold hasGroup, walkPath_const. rewrite (proj1 (path_parts_name x Hx)). cbn. by rewrite Hg.
Qed.

(** The guards of the renames. *)
Lemma name_ok x : str_nonempty x = true -> contains_char x s_path_delimiter = false -> part_ok s_path_delimiter x.
Proof. intros Hne Hc. split; [by intros ->|done]. Qed.

(** ** Destroying, moving and renaming views *)

Lemma destroyView_step s g path :
  full s -> live_group s g -> walk_named s g (path_parts path) -> exists s', destroyView s g path = Some s' /\ full s'.
Proof.
  intros Hf Hg Hn. destruct (walkPath_false s g path (proj2 Hf) Hg Hn) as (r & Hw & _ & Hl).
  unfold destroyView. rewrite Hw. cbn [mbind option_bind]. destruct r as [q|]; [|eauto].
  destruct (Hl q eq_refl) as (qr & Hq & Hlist).
  destruct (detachView_step s q qr (path_last path) Hf Hq Hlist)
    as [(p & v & c & Hv & _ & _ & -> & Hf1 & _)|[_ ->]]; cbn [mbind option_bind delete_opt]; [|eauto].
  destruct (View_delete_step _ p (with_owner v None InvalidIndex) Hf1) as (s' & Hs' & Hf' & _);
    [apply lookup_insert_eq|done|]. eauto.
Qed.

Lemma moveView_step s g p :
  full s -> live_group s g -> tree_room s 1 ->
  (exists v curr cr, views s !! p = Some v /\ m_owning_group v = Some curr /\ groups s !! curr = Some cr /\ g_is_list cr = false) ->
  exists s' r, moveView s g (Some p) = Some (s', r) /\ full s'.
Proof.
  intros Hf [gr Hg] Hroom (v & curr & cr & Hv & Hown & Hc & Hlist).
  unfold moveView. rewrite Hv, Hg. cbn [mbind option_bind]. case_bool_decide as Hself; [eauto|].
  destruct (hasChildView gr (m_name v)) eqn:Hn; [eauto|]. rewrite Hown. cbn [mbind option_bind].
  destruct (detachView_self s curr cr p v Hf Hc Hlist Hv Hown) as (c & -> & Hf1 & _). cbn [mbind option_bind].
  assert (g <> curr) as Hne by congruence.
  destruct (attachView_step _ g gr p (with_owner v None InvalidIndex) Hf1) as (c' & idx & -> & Hf2 & _).
  - cbn. by rewrite lookup_insert_ne.
  - apply lookup_insert_eq.
  - done.
  - by apply (Hroom g).
  - by rewrite <- (hasChildView_name s g gr _ (proj2 Hf) Hg).
  - cbn [mbind option_bind]. eauto.
Qed.

Lemma View_rename_step s p new_name :
  full s -> tree_room s 1 ->
  (exists v g gr, views s !! p = Some v /\ m_owning_group v = Some g /\ groups s !! g = Some gr /\ g_is_list gr = false) ->
  exists s' b, View_rename s p new_name = Some (s', b) /\ full s'.
Proof.
  intros Hf Hroom (v & g & gr & Hv & Hown & Hg & Hlist). unfold View_rename. rewrite Hv. cbn [mbind option_bind].
  case_bool_decide; [eauto|]. destruct (str_nonempty new_name) eqn:Hne; cbn [negb]; [|eauto].
  rewrite Hown. cbn [mbind option_bind]. destruct (contains_char new_name s_path_delimiter) eqn:Hc; [eauto|].
  pose proof (name_ok _ Hne Hc) as Hok. rewrite (hasGroup_here s g gr), (hasView_here s g gr) by done. cbn [mbind option_bind].
  destruct (hasChildGroup gr new_name); cbn [mbind option_bind]; [eauto|].
  destruct (hasChildView gr new_name) eqn:Hnv; cbn [mbind option_bind]; [eauto|].
  destruct (detachView_self s g gr p v Hf Hg Hlist Hv Hown) as (c & -> & Hf1 & Hrem). cbn [mbind option_bind].
  set (s1 := set_view _ _ _) in *.
  assert (views s1 !! p = Some (with_owner v None InvalidIndex)) as Hv1 by apply lookup_insert_eq.
  rewrite Hv1. cbn [mbind option_bind]. set (v2 := with_vname _ _).
  assert (full (set_view s1 p v2)) as Hf2.
  { split; [by apply (set_view_inv s1 p _ _ (proj1 Hf1) Hv1)|].
    apply (tree_orphan_view s1 _ p (proj2 Hf1)); try done.
    - intros nm i h. unfold vitem. by rewrite Hv1.
    - intros nm i h. unfold vitem. cbn. by rewrite lookup_insert_eq.
    - intros q Hq. cbn. by rewrite !lookup_insert_ne. }
  destruct (attachView_step _ g (with_gviews gr c) p v2 Hf2) as (c' & idx & -> & Hf3 & _).
  - cbn. by rewrite lookup_insert_eq.
  - apply lookup_insert_eq.
  - done.
  - destruct (Hroom g gr Hg). destruct Hrem as (_ & Hsz & _). split; cbn; lia.
  - cbn. eapply removed_hasName; [by eapply view_coll_ok; [apply Hf|]|done|].
    by rewrite <- (hasChildView_name s g gr _ (proj2 Hf) Hg).
  - cbn [mbind option_bind]. eauto.
Qed.

End SidreTreeInv.

End SidreTreeInv.
