(* ===== verification/SidreTreeOps.v ===== *)
(** * Operations on whole groups of Sidre's tree

    Moving and renaming groups, copying views, and destroying groups with everything
    below them: these keep the invariants of the tree, of the buffers and of the
    views. *)

From S2P Require Import Prelude PathStrings SidreCollections SidreState SidreView SidreViewProofs SidreGroup.
From S2P Require Import SidreTree SidreTreeProofs.

Module SidreTreeOps.
Import PathStrings Collections Sidre SidreView SidreInv SidreGroup SidreTree SidreTreeInv.

Section SidreTreeOps.
Context `{Conduit} `{!ConduitLaws} `{Allocator} `{!AllocatorLaws}.
Implicit Types (s : DS) (v : View) (gr : Group) (p q g : ptr).

(** ** Moving and renaming groups *)

(** A group [q] that is not the root and that its parent can find by name. *)
Definition movable s q : Prop :=
  q <> m_RootGroup s /\
  exists qr g gr, groups s !! q = Some qr /\ g_parent qr = Some g /\ groups s !! g = Some gr /\ g_is_list gr = false.

(** After the detachment of [q] the same groups are below it. *)
Lemma detached_below s g gr c q qr x :
  groups s !! g = Some gr -> groups s !! q = Some qr -> q <> g -> q <> m_RootGroup s -> ~ below (gitem s) q x ->
  ~ below (gitem (set_group (set_group s g (with_ggroups gr c)) q (with_parent qr None InvalidIndex))) q x.
Proof.
  intros Hg Hq Hne Hnr Hb Hb'. apply Hb. eapply below_orphan; [| |exact Hb'];
    destruct (regrouped_spec s g gr c q qr None InvalidIndex Hg Hq Hne Hnr) as (Ei & _).
  - intros nm i h. rewrite Ei, decide_True by done. done.
  - intros p Hp. by rewrite Ei, decide_False.
Qed.

Lemma moveGroup_step s g q :
  full s -> live_group s g -> tree_room s 1 -> movable s q -> ~ below (gitem s) q g ->
  exists s' r, moveGroup s g (Some q) = Some (s', r) /\ full s'.
Proof.
  intros Hf [gr Hg] Hroom (Hnr & qr & h & hr & Hq & Hp & Hh & Hlist) Hnb.
  unfold moveGroup. rewrite Hg, Hq. cbn [mbind option_bind].
  destruct (hasChildGroup gr (g_name qr)) eqn:Hn; [eauto|]. rewrite Hp. cbn [mbind option_bind].
  rewrite (hasChildGroup_name s g gr _ (proj2 Hf) Hg) in Hn.
  assert (g <> h) as Hgh.
  { intros ->. rewrite Hh in Hg. injection Hg as <-.
    assert (coll_hasName (g_groups hr) (g_name qr) = true); [|congruence].
    apply (coll_hasName_spec (iname (gitem s)) (g_is_list hr)); [by eapply group_coll_ok; [apply Hf|]|done|].
    destruct (group_place s q qr h (proj2 Hf) Hq Hp Hnr) as (hr' & Hh' & Hat).
    rewrite Hh in Hh'. injection Hh' as <-. exists (g_index qr), q. by rewrite (group_iname s q qr Hq Hnr). }
  assert (g <> q) as Hgq by (intros ->; apply Hnb, below_refl).
  destruct (detachGroup_self s h hr q qr Hf Hh Hlist Hq Hp Hnr) as (c & -> & Hqh & Hf1 & _). cbn [mbind option_bind].
  destruct (attachGroup_step _ g gr q (with_parent qr None InvalidIndex) Hf1) as (c' & idx & -> & Hf2 & _).
  - cbn. by rewrite !lookup_insert_ne.
  - apply lookup_insert_eq.
  - done.
  - by apply (Hroom g).
  - done.
  - by apply detached_below.
  - cbn [mbind option_bind]. eauto.
Qed.

(** A group without parent may change its name. *)
Lemma rename_orphan s q qr nm :
  full s -> groups s !! q = Some qr -> g_parent qr = None ->
  full (set_group s q (with_gname qr nm)) /\
  forall x, below (gitem (set_group s q (with_gname qr nm))) q x -> below (gitem s) q x.
Proof.
  intros [Hi Ht] Hq Hp. pose proof (orphan_not_root s q qr Ht Hq Hp) as Hnr. set (s' := set_group _ _ _).
  assert (unowned (gitem s) q) as Hu.
  { intros n i h. unfold gitem. rewrite decide_False, Hq by done. cbn. unfold group_part. by rewrite Hp. }
  assert (unowned (gitem s') q) as Hu'.
  { intros n i h. unfold s'. rewrite gitem_set_group, decide_True, decide_False by done. cbn. unfold group_part. cbn.
    by rewrite Hp. }
  assert (forall x, x <> q -> gitem s' x = gitem s x) as Ei.
  { intros x Hx. unfold s'. by rewrite gitem_set_group, decide_False. }
  split; [|intros x; by apply below_orphan]. split; [apply set_group_inv; [done|by eexists]|].
  apply (tree_groups_changed s); try done.
  - intros h. unfold s'. rewrite vcoll_set_group. unfold vcoll. case_decide; subst; [by rewrite Hq|done].
  - apply (owned_ext (gitem s') (gcoll s)); [|done|].
    + apply (owned_orphan (gitem s) _ _ q); [apply Ht|done|done|done].
    + intros h. unfold s'. rewrite gcoll_set_group. unfold gcoll. case_decide; subst; [by rewrite Hq|done].
  - apply (acyclic_orphan (gitem s) _ q); [apply Ht|done|done].
  - intros r Hr. exists r. cbn. by rewrite lookup_insert_ne.
Qed.

(** The name of the root group is not part of the tree. *)
Lemma rename_root s qr nm :
  full s -> groups s !! m_RootGroup s = Some qr -> full (set_group s (m_RootGroup s) (with_gname qr nm)).
Proof.
  intros [Hi Ht] Hq. set (s' := set_group _ _ _). split; [apply set_group_inv; [done|by eexists]|].
  assert (forall x, gitem s' x = gitem s x) as Ei.
  { intros x. unfold s'. rewrite gitem_set_group. unfold gitem. repeat case_decide; done. }
  destruct (groups_same s s' Ei) as [Ho' Ha']; [|apply Ht|apply Ht|].
  { intros h. unfold s'. rewrite gcoll_set_group. unfold gcoll. case_decide; subst; [by rewrite Hq|done]. }
  apply (tree_groups_changed s); try done.
  - intros h. unfold s'. rewrite vcoll_set_group. unfold vcoll. case_decide; subst; [by rewrite Hq|done].
  - intros r Hr. unfold s'. cbn. rewrite lookup_insert_eq. eexists. split; [done|]. cbn. congruence.
Qed.

Lemma Group_rename_step s q new_name :
  full s -> tree_room s 1 -> q = m_RootGroup s \/ movable s q ->
  exists s' b, Group_rename s q new_name = Some (s', b) /\ full s'.
Proof.
  intros Hf Hroom Hq0. unfold Group_rename.
  assert (exists qr g gr, groups s !! q = Some qr /\ g_parent qr = Some g /\ groups s !! g = Some gr /\
    (q <> m_RootGroup s -> g_is_list gr = false)) as (qr & g & gr & Hq & Hp & Hg & Hlist).
  { destruct Hq0 as [->|[Hnr (qr & g & gr & ? & ? & ? & ?)]]; [|eauto 10].
    destruct (ti_root s (proj2 Hf)) as (r & Hr & Hrp). exists r, (m_RootGroup s), r. by split_and!. }
  rewrite Hq. cbn [mbind option_bind]. case_bool_decide; [eauto|].
  destruct (str_nonempty new_name) eqn:Hne; cbn [negb]; [|eauto].
  destruct (contains_char new_name s_path_delimiter) eqn:Hc; [eauto|]. rewrite Hp.
  case_bool_decide as Hroot; [subst q; eexists _, _; split; [done|]; by apply rename_root|].
  pose proof (name_ok _ Hne Hc) as Hok. rewrite (hasGroup_here s g gr), (hasView_here s g gr) by done. cbn [mbind option_bind].
  destruct (hasChildGroup gr new_name) eqn:Hng; cbn [mbind option_bind]; [eauto|].
  destruct (hasChildView gr new_name); cbn [mbind option_bind]; [eauto|].
  destruct (detachGroup_self s g gr q qr Hf Hg (Hlist Hroot) Hq Hp Hroot) as (c & -> & Hqg & Hf1 & Hrem).
  cbn [mbind option_bind]. set (s1 := set_group _ q _) in *.
  assert (groups s1 !! q = Some (with_parent qr None InvalidIndex)) as Hq1 by apply lookup_insert_eq.
  rewrite Hq1. cbn [mbind option_bind].
  destruct (rename_orphan s1 q _ new_name Hf1 Hq1 eq_refl) as [Hf2 Hb2]. set (q2 := with_gname _ _) in *.
  destruct (attachGroup_step _ g (with_ggroups gr c) q q2 Hf2) as (c' & idx & -> & Hf3 & _).
  - cbn. by rewrite !lookup_insert_ne, lookup_insert_eq by done.
  - apply lookup_insert_eq.
  - done.
  - destruct (Hroom g gr Hg). destruct Hrem as (_ & Hsz & _). split; cbn; lia.
  - cbn. eapply removed_hasName; [by eapply group_coll_ok; [apply Hf|]|done|].
    by rewrite <- (hasChildGroup_name s g gr _ (proj2 Hf) Hg).
  - intros Hb. apply Hb2 in Hb. revert Hb. apply detached_below; try done.
    eapply owner_not_below; [apply Hf|]. unfold gitem. rewrite decide_False, Hq by done. cbn. unfold group_part. by rewrite Hp.
  - cbn [mbind option_bind]. eauto.
Qed.

(** ** Copying a view into a group *)

Lemma copyView_group_step s g gr p v :
  full s -> groups s !! g = Some gr -> tree_room s 2 -> views s !! p = Some v ->
  part_ok s_path_delimiter (m_name v) -> hasChildGroup gr (m_name v) = false ->
  (m_state v = SCALAR \/ m_state v = STRING -> isDescribed v = true) ->
  exists s' r, SidreGroup.copyView s g (Some p) = Some (s', r) /\ full s'.
Proof.
  intros Hf Hg Hroom Hv Hname Hng Hdesc. unfold SidreGroup.copyView. rewrite Hv, Hg. cbn [mbind option_bind].
  destruct (hasChildView gr (m_name v)) eqn:Hnv; [eauto|].
  assert (createView s g (m_name v) = createView_in s g (m_name v)) as ->.
  { unfold createView, walkPath. rewrite Hg. cbn [mbind option_bind].
    rewrite (proj1 (path_parts_name _ Hname)). destruct Hname as [Hne _].
    destruct (m_name v) eqn:En; [done|]. rewrite <- En in *. assert (str_nonempty (m_name v) = true) as -> by (by rewrite En).
    cbn [negb length walk_loop List.last mbind option_bind]. rewrite andb_false_r. cbn [mbind option_bind]. rewrite Hg.
    cbn [mbind option_bind]. assert (str_nonempty (m_name v) = true) as -> by (by rewrite En). by rewrite Hnv, Hng. }
  destruct (createView_in_created s s g gr (m_name v)) as (s1 & r & Hs1 & Hf1 & Eb & _ & Ev & Hr); try done.
  { by eapply room_for_le; [apply (Hroom g)|]. }
  { by rewrite <- (hasChildView_name s g gr _ (proj2 Hf) Hg). }
  assert (is_Some r) as [c ->].
  { destruct (createView_in_step s g gr (m_name v)) as (s2 & p2 & ? & ? & ? & Hs2 & _); try done.
    - by eapply room_for_le; [apply (Hroom g)|].
    - by rewrite <- (hasChildView_name s g gr _ (proj2 Hf) Hg).
    - rewrite Hs2 in Hs1. injection Hs1 as <- <-. done. }
  rewrite Hs1. cbn [mbind option_bind]. destruct (Hr c eq_refl) as (Hfr & cv & q & Hc & Hown & Hst).
  assert (p <> c) as Hpc by congruence.
  destruct (copyView_step s1 p c v cv (proj1 Hf1) Hpc ltac:(by rewrite Ev by eauto) Hc Hst ltac:(by rewrite Hown) Hdesc)
    as (s2 & -> & Hi2 & Hf2).
  cbn [mbind option_bind]. do 2 eexists. split; [done|]. split; [done|]. by eapply frame_tree; [|apply Hf1].
Qed.

(** ** Erasing groups *)

(** The groups in [B] and their views are gone; nothing else of the tree changed. *)
Record erased (B : ptr -> Prop) s s' : Prop := {
  er_root : m_RootGroup s' = m_RootGroup s;
  er_next : next_ptr s' = next_ptr s;
  er_bufs : dom (bufs s') = dom (bufs s);
  er_group_gone x : B x -> groups s' !! x = None;
  er_group_kept x : ~ B x -> groups s' !! x = groups s !! x;
  er_view_gone p v x : views s !! p = Some v -> m_owning_group v = Some x -> B x -> views s' !! p = None;
  er_view_kept p : (forall v x, views s !! p = Some v -> m_owning_group v = Some x -> ~ B x) ->
    views s' !! p = views s !! p
}.

Lemma erased_iff B B' s s' : (forall x, B x <-> B' x) -> erased B s s' -> erased B' s s'.
Proof.
  intros HB [Hr Hn Hb Hgg Hgk Hvg Hvk]. split; try done.
  - intros x Hx. by apply Hgg, HB.
  - intros x Hx. apply Hgk. by rewrite HB.
  - intros p v x Hp Hv Hx. eapply Hvg; [done|done|]. by apply HB.
  - intros p Hp. apply Hvk. intros v x Hv Hx. rewrite HB. by eapply Hp.
Qed.

Lemma erased_nothing s : erased (fun _ => False) s s.
Proof. by split. Qed.

(** What is live afterwards was not in [B] and did not change. *)
Lemma erased_group B s s' x gr : erased B s s' -> groups s' !! x = Some gr -> ~ B x /\ groups s !! x = Some gr.
Proof.
  intros He Hx. assert (~ B x) as Hn by (intros HB; rewrite (er_group_gone _ _ _ He x HB) in Hx; done).
  split; [done|]. by rewrite <- (er_group_kept _ _ _ He x Hn).
Qed.

Lemma erased_view B s s' p v :
  erased B s s' -> views s' !! p = Some v -> views s !! p = Some v /\ forall x, m_owning_group v = Some x -> ~ B x.
Proof.
  intros He Hp.
  assert (forall v0 x, views s !! p = Some v0 -> m_owning_group v0 = Some x -> ~ B x) as Hn.
  { intros v0 x Hv0 Hx HB. rewrite (er_view_gone _ _ _ He p v0 x Hv0 Hx HB) in Hp. done. }
  rewrite (er_view_kept _ _ _ He p Hn) in Hp. eauto.
Qed.

Lemma erased_trans B1 B2 s1 s2 s3 : erased B1 s1 s2 -> erased B2 s2 s3 -> erased (fun x => B1 x \/ B2 x) s1 s3.
Proof.
  intros He1 He2. split.
  1-3: etrans; [apply He2|apply He1].
  - intros x HB. destruct (groups s3 !! x) as [gr|] eqn:Hx; [|done].
    destruct (erased_group _ _ _ _ _ He2 Hx) as [H2x Hx2]. destruct (erased_group _ _ _ _ _ He1 Hx2) as [H1x _]. naive_solver.
  - intros x HB. rewrite (er_group_kept _ _ _ He2), (er_group_kept _ _ _ He1); [done|naive_solver..].
  - intros p v x Hp Hown HB. destruct (views s3 !! p) as [v3|] eqn:Hp3; [|done].
    destruct (erased_view _ _ _ _ _ He2 Hp3) as [Hp2 Hn2]. destruct (erased_view _ _ _ _ _ He1 Hp2) as [Hp1 Hn1].
    rewrite Hp in Hp1. injection Hp1 as <-. destruct HB; [by apply Hn1 in Hown|by apply Hn2 in Hown].
  - intros p Hp. assert (views s2 !! p = views s1 !! p) as E12.
    { apply (er_view_kept _ _ _ He1). intros v x Hv Hx HB. by apply (Hp v x Hv Hx); left. }
    rewrite <- E12. apply (er_view_kept _ _ _ He2). intros v x Hv Hx HB. rewrite E12 in Hv. by apply (Hp v x Hv Hx); right.
Qed.

Lemma erased_gitem B s s' x : erased B s s' -> gitem s' x = gitem s x \/ unowned (gitem s') x.
Proof.
  intros He. unfold unowned, gitem. rewrite (er_root _ _ _ He). case_decide; [by left|].
  destruct (groups s' !! x) as [gr|] eqn:Hx; [|by right].
  destruct (erased_group _ _ _ _ _ He Hx) as [_ ->]. by left.
Qed.

Lemma erased_gitem_kept B s s' x : erased B s s' -> ~ B x -> gitem s' x = gitem s x.
Proof. intros He Hx. unfold gitem. by rewrite (er_root _ _ _ He), (er_group_kept _ _ _ He x Hx). Qed.

Lemma erased_gitem_live B s s' x nm i (g : option ptr) : erased B s s' -> gitem s' x = Some (nm, i, g) -> ~ B x /\ gitem s x = Some (nm, i, g).
Proof.
  intros He. unfold gitem. rewrite (er_root _ _ _ He). case_decide; [done|].
  destruct (groups s' !! x) as [gr|] eqn:Hx; [|done]. destruct (erased_group _ _ _ _ _ He Hx) as [? ->]. done.
Qed.

Lemma erased_views_owned B s s' : erased B s s' -> owned (vitem s) (vcoll s) -> owned (vitem s') (vcoll s').
Proof.
  intros He Ho.
  assert (forall h gr i p, groups s' !! h = Some gr -> item_at (coll_slots (g_views gr)) i = Some p ->
    views s' !! p = views s !! p /\ exists v, views s !! p = Some v /\ m_owning_group v = Some h /\ m_index v = i) as Hkept.
  { intros h gr i p Hh Hp. destruct (erased_group _ _ _ _ _ He Hh) as [HB Hh0].
    destruct (owned_view_at s h gr i p Ho Hh0 Hp) as (v & Hv & Hown & Hix). split; [|eauto].
    apply (er_view_kept _ _ _ He). intros v' x Hv' Hx. congruence. }
  assert (forall h l c, vcoll s' h = Some (l, c) -> exists gr, groups s' !! h = Some gr /\ l = g_is_list gr /\ c = g_views gr) as Hvc.
  { intros h l c. unfold vcoll. destruct (groups s' !! h) as [gr|]; [|done]. intros [= <- <-]. eauto. }
  split.
  - intros h l c (gr & Hh & -> & ->)%Hvc. destruct (erased_group _ _ _ _ _ He Hh) as [_ Hh0].
    apply (coll_ok_ext (iname (vitem s))); [|by eapply owned_view_coll].
    intros i p Hp. destruct (Hkept h gr i p Hh Hp) as [E _]. unfold iname, vitem. by rewrite E.
  - intros h l c i p (gr & Hh & -> & ->)%Hvc Hp. destruct (Hkept h gr i p Hh Hp) as (E & v & Hv & Hown & Hix).
    exists (m_name v). unfold vitem. rewrite E, Hv. cbn. unfold tree_part. by rewrite Hown, Hix.
  - intros p nm i h Hp. unfold vitem in Hp. destruct (views s' !! p) as [v|] eqn:Hv; [|done]. injection Hp as <- <- Hown.
    destruct (erased_view _ _ _ _ _ He Hv) as [Hv0 HB]. destruct (owned_view_place s p v h Ho Hv0 Hown) as (gr & Hg & Hat).
    exists (g_is_list gr), (g_views gr). unfold vcoll. rewrite (er_group_kept _ _ _ He h (HB h Hown)), Hg. done.
Qed.

(** Erasing a group without parent and everything below it keeps the tree. *)
Lemma erased_tree s s' q :
  tree_inv s -> q <> m_RootGroup s -> unowned (gitem s) q -> erased (below (gitem s) q) s s' -> tree_inv s'.
Proof.
  intros Ht Hnr Hu He.
  assert (forall h gr i x, groups s' !! h = Some gr -> item_at (coll_slots (g_groups gr)) i = Some x ->
    gitem s' x = gitem s x /\ exists nm, gitem s x = Some (nm, i, Some h)) as Hkept.
  { intros h gr i x Hh Hx. destruct (erased_group _ _ _ _ _ He Hh) as [HB Hh0].
    destruct (ow_item _ _ (ti_groups s Ht) h (g_is_list gr) (g_groups gr) i x) as [nm Hnm]; [unfold gcoll; by rewrite Hh0|done|].
    split; [|eauto]. apply (erased_gitem_kept _ _ _ _ He). intros Hb.
    destruct (below_inv _ _ _ _ _ _ Hb Hnm) as [->|?]; [by apply Hu in Hnm|done]. }
  assert (forall h l c, gcoll s' h = Some (l, c) -> exists gr, groups s' !! h = Some gr /\ l = g_is_list gr /\ c = g_groups gr) as Hgc.
  { intros h l c. unfold gcoll. destruct (groups s' !! h) as [gr|]; [|done]. intros [= <- <-]. eauto. }
  split.
  - eapply erased_views_owned; [done|apply Ht].
  - split.
    + intros h l c (gr & Hh & -> & ->)%Hgc. destruct (erased_group _ _ _ _ _ He Hh) as [_ Hh0].
      apply (coll_ok_ext (iname (gitem s))); [|by eapply group_coll_ok]. intros i x Hx.
      destruct (Hkept h gr i x Hh Hx) as [E _]. unfold iname. by rewrite E.
    + intros h l c i x (gr & Hh & -> & ->)%Hgc Hx. destruct (Hkept h gr i x Hh Hx) as [E [nm Hnm]]. exists nm. congruence.
    + intros x nm i h Hx. destruct (erased_gitem_live _ _ _ _ _ _ _ He Hx) as [HB Hx0].
      destruct (ow_owner _ _ (ti_groups s Ht) x nm i h Hx0) as (l & c & Hco & Hat). exists l, c. split; [|done].
      unfold gcoll in *. rewrite (er_group_kept _ _ _ He h); [done|]. intros Hb. apply HB. by eapply below_child.
  - eapply acyclic_sub; [apply Ht|]. intros x. by eapply erased_gitem.
  - rewrite (er_root _ _ _ He). destruct (ti_root s Ht) as (r & Hr & Hrp). exists r. split; [|done].
    rewrite (er_group_kept _ _ _ He); [done|]. intros Hb. inversion Hb as [|x nm i g Hx _]; subst; [done|].
    unfold gitem in Hx. by rewrite decide_True in Hx.
Qed.

(** ** The destructor of Group

    While groups are deleted, the groups in [V] that are being destroyed hold pointers
    to children that are gone. *)
Record loose (V : gset ptr) s : Prop := {
  lo_inv : inv s;
  lo_views : owned (vitem s) (vcoll s);
  lo_small g gr : groups s !! g = Some gr -> vsize (coll_slots (g_groups gr)) < 2 ^ 31;
  lo_live g gr i q : groups s !! g = Some gr -> item_at (coll_slots (g_groups gr)) i = Some q -> g ∉ V ->
    exists nm, gitem s q = Some (nm, i, Some g);
  lo_item g gr i q : groups s !! g = Some gr -> item_at (coll_slots (g_groups gr)) i = Some q ->
    groups s !! q = None \/ exists nm, gitem s q = Some (nm, i, Some g);
  lo_owner q nm i g : gitem s q = Some (nm, i, Some g) ->
    exists gr, groups s !! g = Some gr /\ item_at (coll_slots (g_groups gr)) i = Some q;
  lo_acyclic : acyclic (gitem s)
}.

Lemma full_loose s : full s -> loose ∅ s.
Proof.
  intros [Hi Ht]. assert (forall g gr i q, groups s !! g = Some gr -> item_at (coll_slots (g_groups gr)) i = Some q ->
    exists nm, gitem s q = Some (nm, i, Some g)) as Hit.
  { intros g gr i q Hg. apply (ow_item _ _ (ti_groups s Ht) g (g_is_list gr)). unfold gcoll. by rewrite Hg. }
  split; [done|apply Ht| |eauto|eauto| |apply Ht].
  - intros g gr Hg. apply (group_coll_ok s g gr Ht Hg).
  - intros q nm i g Hq. destruct (ow_owner _ _ (ti_groups s Ht) q nm i g Hq) as (l & c & Hco & Hat). unfold gcoll in Hco.
    destruct (groups s !! g) as [gr|]; [|done]. injection Hco as <- <-. eauto.
Qed.

Lemma loose_weaken V V' s : V ⊆ V' -> loose V s -> loose V' s.
Proof. intros HV [? ? ? Hl ? ? ?]. split; try done. intros g gr i q Hg Hq Hn. eapply Hl; [done|done|]. set_solver. Qed.

(** Erasing [g] and everything below it, when the parent of [g] is in [V]. *)
Lemma erased_loose V s s' g :
  loose V s -> inv s' -> erased (below (gitem s) g) s s' ->
  (forall nm i h, gitem s g = Some (nm, i, Some h) -> h ∈ V) -> loose V s'.
Proof.
  intros [Hi Hv Hsm Hl Hit Ho Ha] Hi' He HV. split; [done|by eapply erased_views_owned|..].
  - intros h gr Hh. destruct (erased_group _ _ _ _ _ He Hh) as [_ Hh0]. by eapply Hsm.
  - intros h gr i q Hh Hq HhV. destruct (erased_group _ _ _ _ _ He Hh) as [HB Hh0].
    destruct (Hl h gr i q Hh0 Hq HhV) as [nm Hnm]. exists nm. rewrite (erased_gitem_kept _ _ _ _ He); [done|]. intros Hb.
    destruct (below_inv _ _ _ _ _ _ Hb Hnm) as [->|?]; [by apply HV in Hnm|done].
  - intros h gr i q Hh Hq. destruct (erased_group _ _ _ _ _ He Hh) as [HB Hh0].
    destruct (groups s' !! q) as [qr|] eqn:Hqs; [|by left]. right.
    destruct (erased_group _ _ _ _ _ He Hqs) as [HBq Hq0].
    destruct (Hit h gr i q Hh0 Hq) as [?|[nm Hnm]]; [congruence|]. exists nm. by rewrite (erased_gitem_kept _ _ _ _ He).
  - intros q nm i h Hq. destruct (erased_gitem_live _ _ _ _ _ _ _ He Hq) as [HB Hq0].
    destruct (Ho q nm i h Hq0) as (gr & Hg & Hat). exists gr. rewrite (er_group_kept _ _ _ He h); [done|].
    intros Hb. apply HB. by eapply below_child.
  - eapply acyclic_sub; [done|]. intros x. by eapply erased_gitem.
Qed.

(** What is erased below other items does not change what is below or above [x]. *)
Lemma erased_below B s s' a x :
  erased B s s' -> below (gitem s) a x -> (forall y, below (gitem s) a y -> below (gitem s) y x -> ~ B y) ->
  below (gitem s') a x.
Proof.
  intros He Hb. induction Hb as [|x nm i h Hx Hb IH]; intros HB; [apply below_refl|].
  eapply below_child.
  - rewrite (erased_gitem_kept _ _ _ _ He); [done|]. apply HB; [by eapply below_child|apply below_refl].
  - apply IH. intros y Hy Hyh. apply HB; [done|]. by eapply below_child.
Qed.

Lemma erased_below_sub B s s' a x : erased B s s' -> below (gitem s') a x -> below (gitem s) a x.
Proof.
  intros He Hb. induction Hb as [|x nm i h Hx Hb IH]; [apply below_refl|].
  destruct (erased_gitem_live _ _ _ _ _ _ _ He Hx) as [_ Hx0]. by eapply below_child.
Qed.

(** The groups below the children of [g] at indices up to [lo]. *)
Definition under s (items : list (option ptr)) (lo : Z) (x : ptr) : Prop :=
  exists j q, j <= lo /\ item_at items j = Some q /\ below (gitem s) q x.

(** The loop of [destroyGroups]. *)
Record children_gone (V : gset ptr) s g gr (lo : Z) s1 : Prop := {
  cg_loose : loose ({[g]} ∪ V) s1;
  cg_erased : erased (under s (coll_slots (g_groups gr)) lo) s s1
}.

(** What deleting a group does, as the recursion and the loop need it. *)
Definition deletes (del : DS -> ptr -> option DS) (V : gset ptr) s0 : Prop :=
  forall s q qr, loose V s -> groups s !! q = Some qr -> q ∉ V -> V ⊆ dom (groups s) -> dom (groups s) ⊆ dom (groups s0) ->
    (forall nm i h, gitem s q = Some (nm, i, Some h) -> h ∈ V) -> (forall a, a ∈ V -> below (gitem s) a q) ->
    exists s', del s q = Some s' /\ inv s' /\ erased (below (gitem s) q) s s'.

Section children.
Context (V : gset ptr) (s : DS) (g : ptr) (gr : Group).
Context (Hlo : loose V s) (Hg : groups s !! g = Some gr) (HgV : g ∉ V) (HV : V ⊆ dom (groups s)).
Context (Hanc : forall a, a ∈ V -> below (gitem s) a g).
Notation items := (coll_slots (g_groups gr)).

Lemma child_item j q : item_at items j = Some q -> exists nm, gitem s q = Some (nm, j, Some g).
Proof using All. intros Hq. by eapply (lo_live V s). Qed.

(** Neither [g] nor a group above it is below a child. *)
Lemma above_not_under lo y : below (gitem s) y g -> ~ under s items lo y.
Proof using All.
  intros Hy (j & q & _ & Hq & Hb). destruct (child_item j q Hq) as [nm Hnm].
  eapply (owner_not_below (gitem s) q); [apply Hlo|done|]. by eapply below_trans.
Qed.

Lemma gone_group lo s1 : children_gone V s g gr lo s1 -> groups s1 !! g = Some gr.
Proof using All.
  intros [_ He]. rewrite (er_group_kept _ _ _ He); [done|]. apply above_not_under, below_refl.
Qed.

Lemma children_gone_skip lo lo' s1 :
  children_gone V s g gr lo s1 -> lo <= lo' -> (forall j, lo < j <= lo' -> item_at items j = None) ->
  children_gone V s g gr lo' s1.
Proof using All.
  intros [Hl He] Hle Hnone. split; [done|]. eapply erased_iff; [|done]. intros x.
  split; intros (j & q & Hj & Hq & Hb); exists j, q; (split; [|done]); [lia|].
  destruct (decide (j <= lo)); [done|]. rewrite Hnone in Hq by lia. done.
Qed.

Lemma children_gone_step del lo s1 q :
  deletes del ({[g]} ∪ V) s -> children_gone V s g gr lo s1 -> item_at items (lo + 1) = Some q ->
  exists s2, (gr ← groups s1 !! g; match getGroup_idx gr (lo + 1) with Some q => del s1 q | None => Some s1 end) = Some s2 /\
    children_gone V s g gr (lo + 1) s2.
Proof using All.
  intros Hdel Hc Hq. pose proof Hc as [Hl1 He]. destruct (child_item (lo + 1) q Hq) as [nm Hnm].
  pose proof (item_at_range _ _ _ Hq) as Hr. pose proof (lo_small V s Hlo g gr Hg) as Hsm.
  rewrite (gone_group lo s1 Hc). cbn [mbind option_bind]. unfold getGroup_idx. rewrite coll_getItem_spec, Hq by lia.
  assert (forall y, below (gitem s) q y -> ~ under s items lo y) as Hsib.
  { intros y Hy (j & q' & Hj & Hq' & Hb). destruct (child_item j q' Hq') as [nm' Hnm'].
    pose proof (below_siblings (gitem s) q q' nm nm' (lo + 1) j g y (lo_acyclic V s Hlo) Hnm Hnm' Hy Hb). subst q'.
    rewrite Hnm in Hnm'. injection Hnm' as _ Heq. lia. }
  assert (groups s1 !! q = groups s !! q) as Eq by (apply (er_group_kept _ _ _ He), Hsib, below_refl).
  assert (gitem s1 q = Some (nm, lo + 1, Some g)) as Hnm1
    by (rewrite (erased_gitem_kept _ _ _ _ He); [done|apply Hsib, below_refl]).
  assert (forall a, a ∈ {[g]} ∪ V -> below (gitem s) a g) as Hanc'.
  { intros a [->%elem_of_singleton|Ha]%elem_of_union; [apply below_refl|by apply Hanc]. }
  assert (forall a, a ∈ {[g]} ∪ V -> below (gitem s1) a q) as Hanc1.
  { intros a Ha. eapply below_child; [exact Hnm1|]. eapply erased_below; [done|by apply Hanc'|].
    intros y _ Hy. by apply above_not_under. }
  destruct (groups s1 !! q) as [qr|] eqn:Hq1.
  2: { unfold gitem in Hnm1. rewrite Hq1 in Hnm1. by case_decide. }
  destruct (Hdel s1 q qr) as (s2 & Hs2 & Hi2 & He2); try done.
  - intros Hin. apply Hanc' in Hin. by apply (owner_not_below (gitem s) q nm (lo + 1) g (lo_acyclic V s Hlo) Hnm).
  - intros a Ha. apply elem_of_dom. rewrite (er_group_kept _ _ _ He); [|by apply above_not_under, Hanc'].
    apply elem_of_dom. apply elem_of_union in Ha as [->%elem_of_singleton|Ha]; [|by apply HV]. apply elem_of_dom. by eexists.
  - intros x Hx. apply elem_of_dom in Hx as [xr Hx]. apply elem_of_dom. exists xr. by eapply erased_group.
  - intros nm' i h Hh. rewrite Hnm1 in Hh. injection Hh as _ _ <-. set_solver.
  - exists s2. split; [done|]. split.
    + eapply erased_loose; [done|done|done|]. intros nm' i h Hh. rewrite Hnm1 in Hh. injection Hh as _ _ <-. set_solver.
    + eapply erased_iff; [|by eapply erased_trans]. intros x. split.
      * intros [(j & q' & Hj & Hx)|Hx]; [exists j, q'; split; [lia|done]|].
        exists (lo + 1), q. split_and!; [lia|done|]. by eapply erased_below_sub.
      * intros (j & q' & Hj & Hq' & Hb). destruct (decide (j = lo + 1)) as [->|]; [right|left; exists j, q'; split; [lia|done]].
        rewrite Hq in Hq'. injection Hq' as <-. eapply erased_below; [done|done|]. intros y Hy _. by apply Hsib.
Qed.

(** [destroyGroups] erases what is below [g] and empties its collection. *)
Lemma destroyGroups_with_spec del :
  deletes del ({[g]} ∪ V) s ->
  exists s1, destroyGroups_with del s g =
      Some (set_group s1 g (with_ggroups gr (coll_removeAllItems (g_groups gr)))) /\
    children_gone V s g gr (vsize items) s1.
Proof using All.
  intros Hdel. destruct (for_coll_spec g_groups g
    (fun s idx => gr ← groups s !! g; match getGroup_idx gr idx with Some q => del s q | None => Some s end) items
    (fun lo s1 => children_gone V s g gr lo s1)) with (s := s) as (s1 & Hs1 & Hc).
  - by apply (lo_small V s Hlo g).
  - intros lo s1 Hc. exists gr. split_and!; [by eapply gone_group|done|done].
  - intros lo lo' s1. apply children_gone_skip.
  - intros lo s1 q Hc Hq. by eapply children_gone_step.
  - split; [by eapply loose_weaken; [|done]; set_solver|]. eapply erased_iff; [|apply erased_nothing].
    intros x. split; [done|]. intros (j & q & Hj & Hq & _). apply item_at_range in Hq. lia.
  - unfold destroyGroups_with. rewrite Hg. cbn [mbind option_bind]. unfold coll_fuel. rewrite Hs1. cbn [mbind option_bind].
    unfold clear_groups. rewrite (gone_group _ _ Hc). cbn [mbind option_bind]. eauto.
Qed.

End children.

(** The views of a group are not part of the groups below it. *)
Lemma loose_views_changed V s s1 g gr c :
  loose V s -> groups s !! g = Some gr -> groups s1 = <[g := with_gviews gr c]> (groups s) ->
  m_RootGroup s1 = m_RootGroup s -> inv s1 -> owned (vitem s1) (vcoll s1) ->
  loose V s1 /\ forall q, gitem s1 q = gitem s q.
Proof.
  intros [Hi Hv Hsm Hl Hit Ho Ha] Hg Eg Er Hi1 Ho1.
  assert (forall q, gitem s1 q = gitem s q) as Ei.
  { intros q. unfold gitem. rewrite Er, Eg. case_decide; [done|]. destruct (decide (g = q)) as [<-|].
    - by rewrite lookup_insert_eq, Hg.
    - by rewrite lookup_insert_ne. }
  assert (forall h hr, groups s1 !! h = Some hr -> exists hr0, groups s !! h = Some hr0 /\ g_groups hr = g_groups hr0) as Hgr.
  { intros h hr. rewrite Eg. intros [[<- <-]|[_ Hh]]%lookup_insert_Some; eauto. }
  split; [|done]. split; [done|done|..].
  - intros h hr (hr0 & Hh & ->)%Hgr. by eapply Hsm.
  - intros h hr i q (hr0 & Hh & ->)%Hgr. rewrite Ei. by eapply Hl.
  - intros h hr i q (hr0 & Hh & ->)%Hgr Hq. rewrite Ei. destruct (Hit h hr0 i q Hh Hq) as [Hn|?]; [|by right].
    left. rewrite Eg, lookup_insert_ne; [done|]. congruence.
  - intros q nm i h. rewrite Ei. intros Hq. destruct (Ho q nm i h Hq) as (hr & Hh & Hat). rewrite Eg.
    destruct (decide (g = h)) as [<-|].
    + exists (with_gviews gr c). rewrite lookup_insert_eq. rewrite Hg in Hh. injection Hh as <-. done.
    + exists hr. by rewrite lookup_insert_ne.
  - intros q. destruct (Ha q) as [n Hn]. exists n. by eapply depth_ext.
Qed.

Lemma subset_size (V : gset ptr) g s :
  V ⊆ dom (groups s) -> groups s !! g <> None -> g ∉ V -> (S (size V) <= size (groups s))%nat.
Proof.
  intros HV Hg Hn. rewrite <- size_dom. change (S (size V)) with (1 + size V)%nat.
  rewrite <- (size_singleton (C := gset ptr) g), <- size_union by set_solver. apply subseteq_size.
  intros x [->%elem_of_singleton|Hx]%elem_of_union; [|by apply HV]. by apply elem_of_dom, not_eq_None_Some.
Qed.

Lemma Group_delete_S n s g :
  Group_delete (S n) s g =
  (s ← destroyViews s g; s ← destroyGroups_with (Group_delete n) s g; Some (del_group s g)).
Proof. done. Qed.

(** Putting the pieces together: the views of [g] are gone in [s1], everything below
    [g] in [s2], and then [g] is deleted. *)
Lemma delete_pieces V s s1 s2 g gr c c' :
  loose V s -> groups s !! g = Some gr -> g ∉ V ->
  groups s1 = <[g := with_gviews gr c]> (groups s) -> (forall q, gitem s1 q = gitem s q) ->
  m_RootGroup s1 = m_RootGroup s -> next_ptr s1 = next_ptr s -> dom (bufs s1) = dom (bufs s) ->
  (forall p v, views s !! p = Some v -> m_owning_group v = Some g -> views s1 !! p = None) ->
  (forall p, (forall v, views s !! p = Some v -> m_owning_group v <> Some g) -> views s1 !! p = views s !! p) ->
  erased (under s1 (coll_slots (g_groups gr)) (vsize (coll_slots (g_groups gr)))) s1 s2 ->
  erased (below (gitem s) g) s (del_group (set_group s2 g c') g).
Proof.
  intros Hlo Hg HgV Eg Ei Er En Eb Hvg Hvk He. set (B := under _ _ _) in He.
  assert (forall x, B x <-> below (gitem s) g x /\ x <> g) as HB.
  { intros x. split.
    - intros (j & q & _ & Hq & Hb). destruct (lo_live V s Hlo g gr j q Hg Hq HgV) as [nm Hnm].
      assert (below (gitem s) q x) as Hqx by (eapply below_ext; [|exact Hb]; intros y; by rewrite Ei). split.
      + eapply below_trans; [|done]. eapply below_child; [done|apply below_refl].
      + intros ->. by apply (owner_not_below (gitem s) q nm j g (lo_acyclic V s Hlo) Hnm).
    - intros [Hb Hne]. destruct (below_cases _ _ _ Hb) as [?|(q & nm & i & Hq & Hqx)]; [done|].
      destruct (lo_owner V s Hlo q nm i g Hq) as (gr0 & Hg0 & Hat). rewrite Hg in Hg0. injection Hg0 as <-.
      exists i, q. pose proof (item_at_range _ _ _ Hat). split_and!; [lia|done|]. by eapply below_ext. }
  split; cbn.
  - by rewrite (er_root _ _ _ He).
  - by rewrite (er_next _ _ _ He).
  - by rewrite (er_bufs _ _ _ He).
  - intros x Hx. destruct (decide (x = g)) as [->|Hne]; [apply lookup_delete_eq|].
    rewrite lookup_delete_ne, lookup_insert_ne by congruence. apply (er_group_gone _ _ _ He). by apply HB.
  - intros x Hx. assert (x <> g) as Hne by (intros ->; apply Hx, below_refl).
    rewrite lookup_delete_ne, lookup_insert_ne by congruence. rewrite (er_group_kept _ _ _ He); [|rewrite HB; naive_solver].
    by rewrite Eg, lookup_insert_ne.
  - intros p v x Hp Hown Hx. destruct (decide (x = g)) as [->|Hne].
    + pose proof (Hvg p v Hp Hown) as Hn. rewrite (er_view_kept _ _ _ He); [done|]. intros v' x' Hv'. congruence.
    + apply (er_view_gone _ _ _ He p v x); [|done|by apply HB]. rewrite Hvk; [done|]. intros v' Hv'. congruence.
  - intros p Hp. rewrite <- Hvk; [apply (er_view_kept _ _ _ He)|].
    + intros v x Hv Hx Hbx. apply HB in Hbx as [Hbx Hne]. rewrite Hvk in Hv; [by eapply Hp|].
      intros v' Hv' Hg'. by apply (Hp v' g Hv' Hg'), below_refl.
    + intros v Hv Hg'. by apply (Hp v g Hv Hg'), below_refl.
Qed.

(** The destructor erases the group and everything below it; fuel for every group
    that is not an ancestor is enough. *)
Lemma Group_delete_spec n V s g gr :
  loose V s -> groups s !! g = Some gr -> g ∉ V -> V ⊆ dom (groups s) -> (size (groups s) <= n + size V)%nat ->
  (forall nm i h, gitem s g = Some (nm, i, Some h) -> h ∈ V) -> (forall a, a ∈ V -> below (gitem s) a g) ->
  exists s', Group_delete n s g = Some s' /\ inv s' /\ erased (below (gitem s) g) s s'.
Proof.
  revert V s g gr. induction n as [|n IH]; intros V s g gr Hlo Hg HgV HV Hn Hpar Hanc.
  all: pose proof (subset_size V g s HV ltac:(by rewrite Hg) HgV) as Hsize.
  { lia. }
  rewrite Group_delete_S. destruct (destroyViews_owned s g gr (lo_inv V s Hlo) (lo_views V s Hlo) Hg)
    as (s1 & c & -> & Hi1 & Ho1 & Eg & _ & Er & En & Eb & Hvg & Hvk). cbn [mbind option_bind].
  destruct (loose_views_changed V s s1 g gr c Hlo Hg Eg Er Hi1 Ho1) as [Hlo1 Ei].
  assert (groups s1 !! g = Some (with_gviews gr c)) as Hg1 by (rewrite Eg; apply lookup_insert_eq).
  assert (dom (groups s1) = dom (groups s)) as Edom.
  { rewrite Eg, dom_insert_L. assert (g ∈ dom (groups s)) by (apply elem_of_dom; by eexists). set_solver. }
  destruct (destroyGroups_with_spec V s1 g (with_gviews gr c) Hlo1 Hg1 HgV) with (del := Group_delete n)
    as (s2 & -> & Hc).
  - by rewrite Edom.
  - intros a Ha. eapply below_ext; [exact Ei|]. by apply Hanc.
  - intros s' q qr Hlo' Hq HqV HV' Hsub Hp Ha. eapply IH; try done.
    apply subseteq_size in Hsub. rewrite Edom, !size_dom in Hsub. rewrite size_union, size_singleton by set_solver. lia.
  - cbn [mbind option_bind]. eexists. split; [done|]. split.
    + pose proof (lo_inv _ _ (cg_loose _ _ _ _ _ _ Hc)) as Hi2. apply (inv_same_data s2); cbn; try done.
      intros p [pr [_ Hp]%lookup_delete_Some]. apply (inv_next s2 Hi2). right; right.
      apply lookup_insert_Some in Hp as [[<- _]|[_ Hp]]; [|by eexists].
      rewrite (gone_group V s1 g (with_gviews gr c) Hlo1 Hg1 HgV ltac:(by rewrite Edom)
        ltac:(intros a Ha; eapply below_ext; [exact Ei|by apply Hanc]) _ _ Hc). by eexists.
    + by eapply delete_pieces; try done; apply Hc.
Qed.

(** ** Destroying groups *)

Lemma delete_group_step s q qr :
  full s -> groups s !! q = Some qr -> g_parent qr = None ->
  exists s', Group_delete (tree_fuel s) s q = Some s' /\ full s' /\ erased (below (gitem s) q) s s'.
Proof.
  intros Hf Hq Hp. pose proof (orphan_not_root s q qr (proj2 Hf) Hq Hp) as Hnr.
  assert (unowned (gitem s) q) as Hu.
  { intros nm i h. unfold gitem. rewrite decide_False, Hq by done. cbn. unfold group_part. by rewrite Hp. }
  destruct (Group_delete_spec (tree_fuel s) ∅ s q qr (full_loose s Hf) Hq) as (s' & Hs' & Hi' & He).
  - set_solver.
  - set_solver.
  - unfold tree_fuel. lia.
  - intros nm i h Hh. by apply Hu in Hh.
  - set_solver.
  - exists s'. split; [done|]. split; [|done]. split; [done|]. by eapply erased_tree; [apply Hf|..].
Qed.

Lemma destroyGroup_step s g path :
  full s -> live_group s g -> walk_named s g (path_parts path) -> exists s', destroyGroup s g path = Some s' /\ full s'.
Proof.
  intros Hf Hg Hn. destruct (walkPath_false s g path (proj2 Hf) Hg Hn) as (r & Hw & _ & Hl).
  unfold destroyGroup. rewrite Hw. cbn [mbind option_bind]. destruct r as [q|]; [|eauto].
  destruct (Hl q eq_refl) as (qr & Hq & Hlist).
  destruct (detachGroup_step s q qr (path_last path) Hf Hq Hlist)
    as [(x & xr & c & _ & _ & _ & _ & _ & -> & Hf1 & _)|[_ ->]]; cbn [mbind option_bind delete_group_opt]; [|eauto].
  edestruct (delete_group_step _ x (with_parent xr None InvalidIndex) Hf1) as (s' & Hs' & Hf' & _);
    [apply lookup_insert_eq|done|]. eauto.
Qed.

Lemma destroyGroup_idx_step s g idx :
  full s -> live_group s g -> idx < 2 ^ 31 -> exists s', destroyGroup_idx s g idx = Some s' /\ full s'.
Proof.
  intros Hf [gr Hg] Hidx. unfold destroyGroup_idx. destruct (detachGroup_idx_step s g gr idx Hf Hg Hidx)
    as [(x & xr & c & _ & _ & _ & _ & _ & -> & Hf1 & _)|[_ ->]]; cbn [mbind option_bind delete_group_opt]; [|eauto].
  edestruct (delete_group_step _ x (with_parent xr None InvalidIndex) Hf1) as (s' & Hs' & Hf' & _);
    [apply lookup_insert_eq|done|]. eauto.
Qed.

(** The tree after the children of [g] were erased and its collection cleared. *)
Lemma erased_children_tree s s1 g gr :
  full s -> groups s !! g = Some gr -> children_gone ∅ s g gr (vsize (coll_slots (g_groups gr))) s1 ->
  groups s1 !! g = Some gr -> full (set_group s1 g (with_ggroups gr (coll_removeAllItems (g_groups gr)))).
Proof.
  intros [Hi Ht] Hg [Hlo He] Hg1. pose proof (full_loose s (conj Hi Ht)) as Hlo0. set (s' := set_group _ _ _).
  set (B := under _ _ _) in He.
  assert (forall x nm i h, gitem s x = Some (nm, i, Some h) -> B x -> h = g \/ B h) as Hup.
  { intros x nm i h Hx (j & q & Hj & Hq & Hb). destruct (below_inv _ _ _ _ _ _ Hb Hx) as [->|Hbh].
    - left. destruct (lo_live _ _ Hlo0 g gr j q Hg Hq ltac:(set_solver)) as [nm' Hnm]. congruence.
    - right. exists j, q. done. }
  destruct (coll_clear_spec _ _ _ (group_coll_ok s g gr Ht Hg)) as [Hcl Hslots].
  split; [apply set_group_inv; [apply Hlo|by eexists]|].
  assert (forall x, gitem s' x = gitem s1 x) as Ei.
  { intros x. unfold s'. rewrite gitem_set_group. unfold gitem. repeat case_decide; subst; try done. by rewrite Hg1. }
  assert (forall h, h <> g -> gcoll s' h = gcoll s1 h) as Ec.
  { intros h Hh. unfold s'. by rewrite gcoll_set_group, decide_False. }
  assert (forall h hr i x, h <> g -> groups s1 !! h = Some hr -> item_at (coll_slots (g_groups hr)) i = Some x ->
    gitem s1 x = gitem s x /\ exists nm, gitem s x = Some (nm, i, Some h)) as Hkept.
  { intros h hr i x Hhg Hh Hx. destruct (erased_group _ _ _ _ _ He Hh) as [HB Hh0].
    destruct (lo_live _ _ Hlo0 h hr i x Hh0 Hx ltac:(set_solver)) as [nm Hnm]. split; [|eauto].
    apply (erased_gitem_kept _ _ _ _ He). intros Hb. destruct (Hup x nm i h Hnm Hb); done. }
  split.
  - apply (owned_ext (vitem s1) (vcoll s1)); [apply Hlo|done|]. intros h. unfold s'. rewrite vcoll_set_group. unfold vcoll.
    case_decide; subst; [by rewrite Hg1|done].
  - split.
    + intros h l c Hc. destruct (decide (h = g)) as [->|Hh].
      * unfold s' in Hc. rewrite gcoll_set_group, decide_True in Hc by done. injection Hc as <- <-.
        apply (coll_ok_ext (iname (gitem s))); [|done]. intros i x. cbn. rewrite Hslots.
        intros Hx%item_at_range. unfold vsize in Hx. cbn in Hx. lia.
      * rewrite Ec in Hc by done. unfold gcoll in Hc. destruct (groups s1 !! h) as [hr|] eqn:Hhr; [|done].
        injection Hc as <- <-. destruct (erased_group _ _ _ _ _ He Hhr) as [_ Hh0].
        apply (coll_ok_ext (iname (gitem s))); [|by eapply group_coll_ok]. intros i x Hx.
        destruct (Hkept h hr i x Hh Hhr Hx) as [E _]. unfold iname. by rewrite Ei, E.
    + intros h l c i x Hc Hx. destruct (decide (h = g)) as [->|Hh].
      * unfold s' in Hc. rewrite gcoll_set_group, decide_True in Hc by done. injection Hc as <- <-. cbn in Hx.
        rewrite Hslots in Hx. apply item_at_range in Hx. unfold vsize in Hx. cbn in Hx. lia.
      * rewrite Ec in Hc by done. unfold gcoll in Hc. destruct (groups s1 !! h) as [hr|] eqn:Hhr; [|done].
        injection Hc as <- <-. destruct (Hkept h hr i x Hh Hhr Hx) as [E [nm Hnm]]. exists nm. by rewrite Ei, E.
    + intros x nm i h. rewrite Ei. intros Hx. destruct (erased_gitem_live _ _ _ _ _ _ _ He Hx) as [HB Hx0].
      destruct (lo_owner _ _ Hlo x nm i h Hx) as (hr & Hh & Hat). assert (h <> g) as Hhg.
      { intros ->. rewrite Hg1 in Hh. injection Hh as <-. apply HB. exists i, x. pose proof (item_at_range _ _ _ Hat).
        split_and!; [lia|done|apply below_refl]. }
      exists (g_is_list hr), (g_groups hr). rewrite Ec by done. unfold gcoll. by rewrite Hh.
  - intros x. destruct (lo_acyclic _ _ Hlo x) as [n Hn]. exists n. by eapply depth_ext.
  - destruct (ti_root s Ht) as (r & Hr & Hrp). unfold s'. cbn. rewrite (er_root _ _ _ He).
    destruct (decide (g = m_RootGroup s)) as [->|Hne].
    + rewrite lookup_insert_eq. eexists. split; [done|]. cbn. congruence.
    + rewrite lookup_insert_ne by done. exists r. split; [|done]. rewrite (er_group_kept _ _ _ He); [done|].
      intros (j & q & _ & Hq & Hb). destruct (lo_live _ _ Hlo0 g gr j q Hg Hq ltac:(set_solver)) as [nm Hnm].
      inversion Hb as [|y ? ? ? Hy _]; subst; [|unfold gitem in Hy; by rewrite decide_True in Hy].
      unfold gitem in Hnm. by rewrite decide_True in Hnm.
Qed.

Lemma destroyGroups_step s g : full s -> live_group s g -> exists s', destroyGroups s g = Some s' /\ full s'.
Proof.
  intros Hf [gr Hg].
  destruct (destroyGroups_with_spec ∅ s g gr (full_loose s Hf) Hg ltac:(set_solver) ltac:(set_solver) ltac:(set_solver)
    (Group_delete (tree_fuel s))) as (s1 & Hs1 & Hc).
  - intros s' q qr Hlo Hq HqV HV Hsub Hp Ha. eapply Group_delete_spec; try done.
    apply subseteq_size in Hsub. rewrite !size_dom in Hsub. unfold tree_fuel. lia.
  - eexists. split; [exact Hs1|]. eapply erased_children_tree; [done|done|done|].
    eapply (gone_group ∅ s g gr (full_loose s Hf) Hg); [set_solver..|done].
Qed.

End SidreTreeOps.

End SidreTreeOps.
