(* ===== verification/SidreTreeTheorems.v ===== *)
(** * Properties of Sidre's tree

    The safety theorem over sequences of operations on groups, views and buffers,
    starting from a new [DataStore]; the behaviour of lookups, paths and destruction;
    and what some operations do to the tree that their callers do not expect. *)

From S2P Require Import Prelude PathStrings SidreCollections SidreState SidreView SidreViewProofs SidreTheorems.
From S2P Require Import SidreGroup SidreTree SidreTreeProofs SidreTreeOps.

Module SidreTreeTheorems.
Import PathStrings Collections Sidre SidreView SidreInv SidreTheorems SidreGroup SidreTree SidreTreeInv SidreTreeOps.

#[local] Open Scope list_scope.

Section theorems.
Context `{Conduit} `{!ConduitLaws} `{Allocator} `{!AllocatorLaws}.
Implicit Types (s : DS) (v : View) (gr : Group) (p q g : ptr).

(** ** A new DataStore *)

Lemma DataStore_new_full : full DataStore_new.
Proof.
  set (r := with_parent (Group_new EmptyString false) (Some 1%positive) InvalidIndex).
  assert (groups DataStore_new = {[1%positive := r]}) as Eg by done.
  split.
  - apply created_store_inv.
    + intros p v Hv. by rewrite lookup_empty in Hv.
    + intros p [[v Hv]|[gr Hg]]; [by rewrite lookup_empty in Hv|]. apply lookup_singleton_Some in Hg as [<- _]. lia.
  - assert (forall q, gitem DataStore_new q = None) as Hgi.
    { intros q. unfold gitem. case_decide as Hq; [done|]. rewrite Eg, lookup_singleton_ne; [done|]. cbn in Hq. congruence. }
    assert (forall (sel : Group -> Coll) it, sel r = coll_new false -> (forall q, it q = None) ->
      owned it (fun g => (fun gr => (g_is_list gr, sel gr)) <$> groups DataStore_new !! g)) as Ho.
    { intros sel it Hsel Hit. assert (forall g l c, (fun gr => (g_is_list gr, sel gr)) <$> groups DataStore_new !! g = Some (l, c) ->
        l = false /\ c = coll_new false) as Hc.
      { intros g l c. rewrite Eg. destruct (decide (g = 1%positive)) as [->|Hne].
        - rewrite lookup_singleton_eq. cbn. rewrite Hsel. by intros [= <- <-].
        - by rewrite lookup_singleton_ne. }
      split.
      - intros g l c [-> ->]%Hc. apply coll_new_ok.
      - intros g l c i p [-> ->]%Hc Hp. apply item_at_range in Hp. unfold vsize in Hp. cbn in Hp. lia.
      - intros p nm i g. by rewrite Hit. }
    split.
    + apply (Ho g_views); [done|]. intros q. done.
    + by apply (Ho g_groups).
    + intros q. exists O. apply depth_top. intros nm i g. by rewrite Hgi.
    + exists r. split; [|done]. rewrite Eg. apply lookup_singleton_eq.
Qed.

(** ** Sequences of operations *)

(** The operations on groups, besides those on buffers and views. *)
Inductive gop :=
  | GData (o : op)
  | GCreateGroup (g : ptr) (path : string) (is_list : bool)
  | GCreateUnnamedGroup (g : ptr) (is_list : bool)
  | GCreateView (g : ptr) (path : string)
  | GCreateViewDescribed (g : ptr) (path : string) (t n : Z)
  | GCreateViewBuffer (g : ptr) (path : string) (b : option ptr)
  | GCreateViewExternal (g : ptr) (path : string) (a : Z)
  | GCreateViewAndAllocate (g : ptr) (path : string) (t n : Z)
  | GCreateViewString (g : ptr) (path : string) (x : Value)
  | GCreateViewScalar (g : ptr) (path : string) (x : Value)
  | GDestroyView (g : ptr) (path : string)
  | GDestroyViewIdx (g : ptr) (idx : Z)
  | GDestroyViews (g : ptr)
  | GDestroyGroup (g : ptr) (path : string)
  | GDestroyGroupIdx (g : ptr) (idx : Z)
  | GDestroyGroups (g : ptr)
  | GMoveView (g p : ptr)
  | GMoveGroup (g q : ptr)
  | GRenameView (p : ptr) (name : string)
  | GRenameGroup (q : ptr) (name : string)
  | GCopyView (g p : ptr).

Definition gexec (s : DS) (o : gop) : option DS :=
  match o with
  | GData o => exec s o
  | GCreateGroup g path l => fst <$> createGroup s g path l
  | GCreateUnnamedGroup g l => fst <$> createUnnamedGroup s g l
  | GCreateView g path => fst <$> createView s g path
  | GCreateViewDescribed g path t n => fst <$> createView_described s g path t n
  | GCreateViewBuffer g path b => fst <$> createView_buffer s g path b
  | GCreateViewExternal g path a => fst <$> createView_external s g path a
  | GCreateViewAndAllocate g path t n => fst <$> createViewAndAllocate s g path t n
  | GCreateViewString g path x => fst <$> createViewString s g path x
  | GCreateViewScalar g path x => fst <$> createViewScalar s g path x
  | GDestroyView g path => destroyView s g path
  | GDestroyViewIdx g idx => destroyView_idx s g idx
  | GDestroyViews g => destroyViews s g
  | GDestroyGroup g path => destroyGroup s g path
  | GDestroyGroupIdx g idx => destroyGroup_idx s g idx
  | GDestroyGroups g => destroyGroups s g
  | GMoveView g p => fst <$> moveView s g (Some p)
  | GMoveGroup g q => fst <$> moveGroup s g (Some q)
  | GRenameView p name => fst <$> View_rename s p name
  | GRenameGroup q name => fst <$> Group_rename s q name
  | GCopyView g p => fst <$> SidreGroup.copyView s g (Some p)
  end.

(** A view that its group can find by name. *)
Definition movable_view s p : Prop :=
  exists v g gr, views s !! p = Some v /\ m_owning_group v = Some g /\ groups s !! g = Some gr /\ g_is_list gr = false.

(** The arguments are live and collections have room; a lookup by name happens in
    groups that use the map format; a group does not move below itself; and a copied
    view has a name that no child group has. *)
Definition glegal (s : DS) (o : gop) : Prop :=
  match o with
  | GData o => legal s o
  | GCreateGroup g path _ | GCreateView g path | GCreateViewDescribed g path _ _ | GCreateViewExternal g path _
  | GCreateViewString g path _ | GCreateViewScalar g path _ => live_group s g /\ path_room s path
  | GCreateViewBuffer g path b => live_group s g /\ path_room s path /\ live_opt s b
  | GCreateViewAndAllocate g path _ _ => live_group s g /\ path_room s path /\ room s
  | GCreateUnnamedGroup g _ => live_group s g /\ tree_room s 1
  | GDestroyView g path | GDestroyGroup g path => live_group s g /\ walk_named s g (path_parts path)
  | GDestroyViewIdx g idx | GDestroyGroupIdx g idx => live_group s g /\ idx < 2 ^ 31
  | GDestroyViews g | GDestroyGroups g => live_group s g
  | GMoveView g p => live_group s g /\ tree_room s 1 /\ movable_view s p
  | GMoveGroup g q => live_group s g /\ tree_room s 1 /\ movable s q /\ ~ below (gitem s) q g
  | GRenameView p _ => tree_room s 1 /\ movable_view s p
  | GRenameGroup q _ => tree_room s 1 /\ (q = m_RootGroup s \/ movable s q)
  | GCopyView g p => tree_room s 2 /\ exists gr v, groups s !! g = Some gr /\ views s !! p = Some v /\
      part_ok s_path_delimiter (m_name v) /\ hasChildGroup gr (m_name v) = false /\
      (m_state v = SCALAR \/ m_state v = STRING -> isDescribed v = true)
  end.

(** Creating a view and then calling a method of it. *)
Lemma then_view_step s g path (k : DS -> ptr -> option DS) :
  full s -> live_group s g -> path_room s path ->
  (forall s1 p v, inv s1 -> views s1 !! p = Some v -> is_Some (m_owning_group v) -> m_state v = EMPTY ->
     bufs s1 = bufs s -> buffer_coll s1 = buffer_coll s -> steps_to s1 (k s1 p)) ->
  exists s' r, then_view (createView s g path) k = Some (s', r) /\ full s'.
Proof.
  intros Hf Hg Hroom Hk. destruct (createView_step s g path Hf Hg Hroom) as (s1 & r & -> & Hf1 & Eb & Ec & _ & Hr).
  unfold then_view. cbn [mbind option_bind]. destruct r as [p|]; [|eauto].
  destruct (Hr p eq_refl) as (_ & v & q & Hv & Hown & Hst).
  destruct (Hk s1 p v (proj1 Hf1) Hv ltac:(by rewrite Hown) Hst Eb Ec) as (s2 & -> & Hi2 & Hf2).
  cbn [mbind option_bind]. do 2 eexists. split; [done|]. split; [done|]. by eapply frame_tree; [|apply Hf1].
Qed.

Lemma on_view_step s p v f :
  views s !! p = Some v -> steps_to s (Some (set_view s p (f v))) ->
  steps_to s (on_view (fun v => Some (f v)) s p).
Proof. intros Hv Hs. unfold on_view. by rewrite Hv. Qed.

(** [then_view] of [then_view] is one call of both methods. *)
Lemma then_view_twice r k1 k2 :
  then_view (then_view r k1) k2 = then_view r (fun s p => s ← k1 s p; k2 s p).
Proof.
  unfold then_view. destruct r as [[s [p|]]|]; cbn; [|done|done]. destruct (k1 s p) as [s1|]; cbn; [|done].
  by destruct (k2 s1 p).
Qed.

Lemma full_fst {A} (r : option (DS * A)) :
  (exists s' x, r = Some (s', x) /\ full s') -> exists s', fst <$> r = Some s' /\ full s'.
Proof. intros (s' & x & -> & Hf). by exists s'. Qed.

Lemma create_overload_step s o :
  full s -> glegal s o ->
  match o with
  | GCreateViewDescribed _ _ _ _ | GCreateViewBuffer _ _ _ | GCreateViewExternal _ _ _
  | GCreateViewAndAllocate _ _ _ _ | GCreateViewString _ _ _ | GCreateViewScalar _ _ _ =>
    exists s', gexec s o = Some s' /\ full s'
  | _ => True
  end.
Proof.
  intros Hf. destruct o; try done; cbn [glegal gexec].
  - intros [Hg Hr]. unfold createView_described. destruct (_ || _); [by exists s|]. apply full_fst, then_view_step; try done.
    intros s1 p v Hi Hv _ _ _ _. apply (on_view_step s1 p v (fun v => describe v t n)); [done|]. by apply describe_step.
  - intros (Hg & Hr & Hb). apply full_fst, then_view_step; try done.
    intros s1 p v Hi Hv Hown _ Eb _. eapply attachBuffer_step; [done|done|done|].
    intros q Hq. unfold live_buf. rewrite Eb. by apply Hb.
  - intros [Hg Hr]. apply full_fst, then_view_step; try done.
    intros s1 p v Hi Hv Hown _ _ _. by eapply setExternalDataPtr_step.
  - intros (Hg & Hr & Hroom). apply full_fst. unfold createViewAndAllocate, createView_described.
    destruct (_ || _); [by exists s, None|]. rewrite then_view_twice. apply then_view_step; try done.
    intros s1 p v Hi Hv Hown _ _ Ec. apply steps_to_bind; [apply (on_view_step s1 p v (fun v => describe v t n)); [done|]; by apply describe_step|].
    intros s2 Hs2 Hi2 _. unfold on_view in Hs2. rewrite Hv in Hs2. cbn in Hs2. injection Hs2 as <-.
    eapply (allocate0_step _ p (describe v t n)); [done| |cbn; apply lookup_insert_eq|done]. unfold room. cbn. by rewrite Ec.
  - intros [Hg Hr]. apply full_fst, then_view_step; try done. intros s1 p v Hi Hv Hown _ _ _. by eapply setString_step.
  - intros [Hg Hr]. apply full_fst, then_view_step; try done. intros s1 p v Hi Hv Hown _ _ _. by eapply setScalar_step.
Qed.

Lemma gexec_step s o : full s -> glegal s o -> exists s', gexec s o = Some s' /\ full s'.
Proof.
  intros Hf Hl. pose proof (create_overload_step s o Hf Hl) as Hover.
  destruct o; try exact Hover; clear Hover; revert Hl; cbn [glegal gexec].
  - intros Hl. destruct (exec_step s o (proj1 Hf) Hl) as (s' & Hs' & Hi' & Hfr). exists s'. split; [done|].
    split; [done|]. by eapply frame_tree; [|apply Hf].
  - intros [Hg Hr]. apply full_fst. destruct (createGroup_step s g path is_list Hf Hg Hr) as (s' & r & Hs' & Hf' & _). eauto.
  - intros [Hg Hr]. by apply full_fst, createUnnamedGroup_step.
  - intros [Hg Hr]. apply full_fst. destruct (createView_step s g path Hf Hg Hr) as (s' & r & Hs' & Hf' & _). eauto.
  - intros [Hg Hn]. by apply destroyView_step.
  - intros [Hg Hn]. by apply destroyView_idx_step.
  - intros Hg. by apply destroyViews_step.
  - intros [Hg Hn]. by apply destroyGroup_step.
  - intros [Hg Hn]. by apply destroyGroup_idx_step.
  - intros Hg. by apply destroyGroups_step.
  - intros (Hg & Hr & Hm). by apply full_fst, moveView_step.
  - intros (Hg & Hr & Hm & Hb). by apply full_fst, moveGroup_step.
  - intros (Hr & Hm). by apply full_fst, View_rename_step.
  - intros (Hr & Hm). by apply full_fst, Group_rename_step.
  - intros (Hr & gr & v & Hg & Hv & Hn & Hng & Hd). by eapply full_fst, copyView_group_step.
Qed.

Fixpoint grun (s : DS) (ops : list gop) : option DS :=
  match ops with [] => Some s | o :: ops => s ← gexec s o; grun s ops end.

(** Every operation of the sequence is legal in the state it is called in. *)
Fixpoint glegal_run (s : DS) (ops : list gop) : Prop :=
  match ops with
  | [] => True
  | o :: ops => glegal s o /\ forall s', gexec s o = Some s' -> glegal_run s' ops
  end.

Lemma grun_full s ops : full s -> glegal_run s ops -> exists s', grun s ops = Some s' /\ full s'.
Proof.
  revert s. induction ops as [|o ops IH]; intros s Hf Hl; [by exists s|].
  destruct Hl as [Ho Hl]. destruct (gexec_step s o Hf Ho) as (s1 & Hs1 & Hf1). cbn [grun]. rewrite Hs1. by apply IH, Hl.
Qed.


(** ** Creating and finding *)

Lemma walk_loop_found parts s g create q :
  tree_inv s -> walk_const s g parts = Some (Some q) -> walk_loop s g parts create = Some (s, Some q).
Proof.
  intros Ht. revert g. induction parts as [|x [|y rest] IH]; intros g.
  1,2: by intros [= <-].
  rewrite walk_const_cons, walk_loop_cons. destruct (groups s !! g) as [gr|]; [|done]. cbn [mbind option_bind].
  destruct (hasChildGroup gr x); [|done]. destruct (childGroup gr x) as [c|]; [|done]. cbn [mbind option_bind]. apply IH.
Qed.

Lemma walkPath_found s g gr path create q :
  tree_inv s -> groups s !! g = Some gr -> g_is_list gr = false ->
  walkPath_const s g path = Some (Some q, path_last path) -> walkPath s g path create = Some (s, (Some q, path_last path)).
Proof.
  intros Ht Hg Hl. unfold walkPath_const, walkPath, path_last. rewrite Hg. cbn [mbind option_bind].
  destruct (path_parts path) as [|x rest]; [by intros [= <-]|]. rewrite Hl. cbn [andb].
  destruct (walk_const s g (x :: rest)) as [r|] eqn:Hw; [|done]. cbn [mbind option_bind]. intros [= ->].
  by rewrite (walk_loop_found _ s g create q Ht Hw).
Qed.

(** A walk only reads the child groups. *)
Lemma walk_const_gcoll parts s s' g :
  (forall h, gcoll s' h = gcoll s h) -> walk_const s' g parts = walk_const s g parts.
Proof.
  intros E. revert g. induction parts as [|x [|y rest] IH]; intros g; [done|done|].
  rewrite !walk_const_cons. specialize (E g). unfold gcoll in E.
  destruct (groups s' !! g) as [gr'|], (groups s !! g) as [gr|]; try done. cbn in E. injection E as El Eg.
  cbn [mbind option_bind]. unfold hasChildGroup, isUsingMap, childGroup, getNamedGroups. rewrite El, Eg.
  destruct (if negb (g_is_list gr) then _ else _); [|done].
  destruct (as_named (g_groups gr)) as [c|]; [|done]. cbn [mbind option_bind].
  destruct (MapCollection.getItem_name c x); [|done]. cbn [mbind option_bind]. apply IH.
Qed.

(** The views of the group at the end of the walk after a view was created there. *)
Lemma created_in_view s q qr nm s' p c idx :
  full s -> groups s !! q = Some qr -> g_is_list qr = false -> room_for qr 1 -> coll_hasName (g_views qr) nm = false ->
  views s !! p = None -> coll_insertItem (g_views qr) p nm = (c, idx) -> coll_named c nm = Some p.
Proof.
  intros Hf Hq Hl [Hr _] Hn Hfr Hins. pose proof (view_coll_ok s q qr (proj2 Hf) Hq) as Hok.
  rewrite (coll_insert_named (fun x => if decide (x = p) then nm else iname (vitem s) x) (g_is_list qr) (g_views qr) p nm c idx);
    [|apply (coll_ok_ext (iname (vitem s))); [|done]|done|by cbv beta; rewrite decide_True|done|done].
  - by destruct (decide (nm = nm /\ g_is_list qr = false)) as [|[]].
  - intros i x Hx. rewrite decide_False; [done|]. intros ->.
    destruct (view_at s q qr i p (proj2 Hf) Hq Hx) as (v & Hv & _). congruence.
Qed.

(** The group where a walk of names starts is not a list. *)
Lemma walk_named_group s g parts :
  walk_named s g parts -> exists gr, groups s !! g = Some gr /\ g_is_list gr = false.
Proof. intros Hn. destruct parts; cbn in Hn; destruct (groups s !! g) as [gr|]; try done; destruct Hn; eauto. Qed.

(** C31: When the group and the groups of the path that exist use the map format (not the
    list format, where children have no names) and collections have room, and
    [createView] of the path returns a view, then the view is new, empty and named by the
    last part of the path; the groups of the path now exist, so that [getView] and
    [hasView] of the same path find it; and creating the path again is refused and
    changes nothing. *)
Theorem create_view_lookup s g path s' p :
  full s -> path_room s path -> walk_named s g (path_parts path) -> createView s g path = Some (s', Some p) ->
  views s !! p = None /\ (exists v, views s' !! p = Some v /\ m_name v = path_last path /\ m_state v = EMPTY) /\
  (forall q, q <> p -> views s' !! q = views s !! q) /\
  getView s' g path = Some (Some p) /\ hasView s' g path = Some true /\ createView s' g path = Some (s', None).
Proof.
  intros Hf Hroom Hnm Hcr.
  destruct (walk_named_group _ _ _ Hnm) as (gr & Hg & Hlist).
  unfold createView in Hcr. rewrite Hg in Hcr. cbn [mbind option_bind] in Hcr. rewrite Hlist in Hcr.
  destruct (str_nonempty path) eqn:Hpath; cbn [negb] in Hcr; [|done].
  destruct (walkPath_step s g path true 1 Hf ltac:(by eexists) ltac:(lia) Hroom)
    as (s1 & r & nm & Hw & Hf1 & Hgw & Hr1 & _ & Hl & Hn). rewrite Hw in Hcr. cbn [mbind option_bind] in Hcr.
  destruct r as [q|]; [|done]. destruct (Hl q eq_refl) as [[qr Hq] ->]. destruct (Hn Hnm q eq_refl) as [Hwc Hql].
  rewrite Hq in Hcr. cbn [mbind option_bind] in Hcr.
  destruct (negb (str_nonempty (path_last path))) eqn:Hne; cbn [orb] in Hcr; [done|].
  destruct (hasChildView qr (path_last path)) eqn:Hv; cbn [orb] in Hcr; [done|].
  destruct (hasChildGroup qr (path_last path)) eqn:Hgr; cbn [orb] in Hcr; [done|].
  rewrite (hasChildView_name s1 q qr _ (proj2 Hf1) Hq) in Hv.
  destruct (createView_in_step s1 q qr (path_last path) Hf1 Hq (Hr1 q qr Hq) Hv)
    as (s2 & p2 & v & c & idx & Hs2 & Hf2 & Hfr & -> & Hins & _ & _ & Ev & Eg & _ & _ & _ & _).
  rewrite Hs2 in Hcr. injection Hcr as -> ->.
  assert (coll_named c (path_last path) = Some p) as Hnamed
    by (by eapply (created_in_view s1 q qr); try done; [apply Hql|apply (Hr1 q)]).
  rewrite (gw_views _ _ Hgw) in Hfr, Ev.
  assert (groups s' !! q = Some (with_gviews qr c)) as Hq' by (rewrite Eg; apply lookup_insert_eq).
  assert (walkPath_const s' g path = Some (Some q, path_last path)) as Hwc'.
  { rewrite <- Hwc. unfold walkPath_const. destruct (path_parts path); [done|]. rewrite (walk_const_gcoll _ s1); [done|].
    intros h. unfold gcoll. rewrite Eg. destruct (decide (q = h)) as [<-|]; [by rewrite lookup_insert_eq, Hq|by rewrite lookup_insert_ne]. }
  assert (exists gr', groups s' !! g = Some gr' /\ g_is_list gr' = false) as (gr' & Hg' & Hlist').
  { destruct (gw_groups _ _ Hgw g gr Hg) as (gr1 & Hg1 & El & _). rewrite Eg. destruct (decide (q = g)) as [<-|].
    - rewrite lookup_insert_eq. exists (with_gviews qr c). split; [done|]. cbn. by apply Hql.
    - rewrite lookup_insert_ne by done. exists gr1. split; [done|congruence]. }
  pose proof (fun create => walkPath_found s' g gr' path create q (proj2 Hf2) Hg' Hlist' Hwc') as Hwp.
  assert (hasChildView (with_gviews qr c) (path_last path) = true) as Hhv.
  { rewrite (hasChildView_named s' q _ _ (proj2 Hf2) Hq'). cbn. by rewrite Hnamed. }
  split_and!.
  - done.
  - eexists. rewrite Ev, lookup_insert_eq. done.
  - intros x Hx. by rewrite Ev, lookup_insert_ne.
  - unfold getView. rewrite Hwp. cbn [mbind option_bind]. rewrite Hq'. cbn [mbind option_bind].
    unfold getNamedViews. cbn [g_views with_gviews]. unfold coll_named in Hnamed. destruct (as_named c); [|done]. cbn in *. congruence.
  - unfold hasView. rewrite Hwc'. cbn [mbind option_bind]. rewrite Hq'. cbn [mbind option_bind]. by rewrite Hhv.
  - unfold createView. rewrite Hg'. cbn [mbind option_bind]. rewrite Hpath. cbn [negb]. rewrite Hwp. cbn [mbind option_bind].
    rewrite Hq'. cbn [mbind option_bind]. by rewrite Hhv, orb_true_r.
Qed.

(** ** Path names *)

(** The names on the way from the root to a group. *)
Inductive chain s : ptr -> list string -> Prop :=
  | chain_root : chain s (m_RootGroup s) []
  | chain_child q qr g ns :
      groups s !! q = Some qr -> q <> m_RootGroup s -> g_parent qr = Some g -> chain s g ns ->
      chain s q (ns ++ [g_name qr]).

(** A store in which every group uses the map format, the root has no name and the
    other groups have names that are parts of paths. *)
Definition well_named s : Prop :=
  forall q qr, groups s !! q = Some qr -> g_is_list qr = false /\
    if decide (q = m_RootGroup s) then g_name qr = EmptyString else part_ok s_path_delimiter (g_name qr).

Lemma chain_parts s q ns : well_named s -> chain s q ns -> Forall (part_ok s_path_delimiter) ns.
Proof.
  intros Hw Hc. induction Hc as [|q qr g ns Hq Hnr Hp Hc IH]; [constructor|]. apply Forall_app. split; [done|].
  apply Forall_singleton. destruct (Hw q qr Hq) as [_ Hn]. by rewrite decide_False in Hn.
Qed.

(** A group below the root has a chain of at most as many names as there are groups. *)
Lemma below_chain s q :
  full s -> below (gitem s) (m_RootGroup s) q ->
  exists ns (V : gset ptr), chain s q ns /\ size V = S (length ns) /\ V ⊆ dom (groups s) /\
    forall a, a ∈ V -> below (gitem s) a q.
Proof.
  intros [Hi Ht] Hb. induction Hb as [|q nm i g Hq Hb (ns & V & Hc & Hsz & Hsub & Hanc)].
  - destruct (ti_root s Ht) as (r & Hr & _). exists [], {[m_RootGroup s]}. split_and!.
    + constructor.
    + apply size_singleton.
    + intros a ->%elem_of_singleton. apply elem_of_dom. by eexists.
    + intros a ->%elem_of_singleton. apply below_refl.
  - pose proof Hq as Hq0. unfold gitem in Hq0. case_decide as Hnr; [done|].
    destruct (groups s !! q) as [qr|] eqn:Hqr; [|done]. cbn in Hq0. injection Hq0 as Hn Hix Hp.
    exists (ns ++ [g_name qr]), ({[q]} ∪ V). split_and!.
    + by eapply chain_child.
    + rewrite size_union, size_singleton, length_app; [cbn; lia|].
      intros a ->%elem_of_singleton Ha. by apply (owner_not_below (gitem s) q nm i g (ti_acyclic s Ht) Hq), Hanc.
    + intros a [->%elem_of_singleton|Ha]%elem_of_union; [apply elem_of_dom; by eexists|by apply Hsub].
    + intros a [->%elem_of_singleton|Ha]%elem_of_union; [apply below_refl|]. eapply below_child; [done|]. by apply Hanc.
Qed.

Lemma join_snoc2 d l x y : join_with d (l ++ [x; y]) = join_with d (l ++ [(x ++ String d y)%string]).
Proof.
  induction l as [|z l IH]; [done|]. cbn [app]. destruct l as [|z' l]; [done|]. cbn [app join_with] in *. by rewrite IH.
Qed.

Lemma string_app_assoc a b c : ((a ++ b) ++ c = a ++ (b ++ c))%string.
Proof. induction a as [|x a IH]; [done|]. exact (f_equal (String x) IH). Qed.

Lemma join_app d l x y : (join_with d (l ++ [x])%list ++ String d y)%string = join_with d (l ++ [x; y]).
Proof.
  induction l as [|z l IH]; [done|].
  assert (exists a m, l ++ [x] = a :: m) as (a & m & Hm) by (destruct l; cbn; eauto).
  assert (exists m', l ++ [x; y] = a :: m') as (m' & Hm') by (destruct l; cbn in *; injection Hm as -> _; eauto).
  cbn [app]. rewrite Hm, Hm'.
  change (join_with d (z :: a :: m)) with (z ++ String d (join_with d (a :: m)))%string.
  change (join_with d (z :: a :: m')) with (z ++ String d (join_with d (a :: m')))%string.
  rewrite <- Hm, <- Hm', <- IH. by rewrite string_app_assoc.
Qed.

Lemma getPath_loop_chain n s q ns acc :
  full s -> chain s q ns -> (length ns < n)%nat ->
  getPath_loop n s q acc = Some (join_with s_path_delimiter (ns ++ [acc])).
Proof.
  intros Hf Hc. revert n acc. induction Hc as [|q qr g ns Hq Hnr Hp Hc IH]; intros n acc Hn.
  - destruct n; [lia|]. cbn. by rewrite bool_decide_true.
  - rewrite length_app in Hn. cbn in Hn. destruct n as [|n]; [lia|]. cbn [getPath_loop].
    rewrite bool_decide_false, Hq by done. cbn [mbind option_bind]. rewrite Hp. cbn [mbind option_bind].
    rewrite IH by lia. by rewrite <- join_snoc2, <- app_assoc.
Qed.

Lemma join_not_empty l : l <> [] -> Forall (part_ok s_path_delimiter) l -> String.eqb (join_with s_path_delimiter l) EmptyString = false.
Proof. intros Hne Hl. destruct (join_nonempty _ l Hne Hl) as (c & x & -> & _). done. Qed.

Lemma getPathName_chain s q qr g ns :
  full s -> well_named s -> groups s !! q = Some qr -> q <> m_RootGroup s -> g_parent qr = Some g -> chain s g ns ->
  (length ns <= size (groups s))%nat ->
  getPathName (tree_fuel s) s q = Some (join_with s_path_delimiter (ns ++ [g_name qr])).
Proof.
  intros Hf Hw Hq Hnr Hp Hc Hsz. unfold getPathName, getPath. rewrite Hq. cbn [mbind option_bind]. rewrite Hp.
  cbn [mbind option_bind]. pose proof (chain_parts s g ns Hw Hc) as Hparts. inversion Hc as [|g' gr h ns' Hg Hgr Hgp Hc']; subst.
  - destruct (ti_root s (proj2 Hf)) as (r & Hr & Hrp). rewrite Hr. cbn [mbind option_bind]. rewrite Hrp. cbn [mbind option_bind].
    destruct (Hw _ r Hr) as [_ Hname]. rewrite decide_True in Hname by done.
    rewrite (getPath_loop_chain _ s (m_RootGroup s) []); [|done|constructor|unfold tree_fuel; cbn; lia].
    cbn [app join_with mbind option_bind]. unfold path_then_name. by rewrite Hname.
  - rewrite Hg. cbn [mbind option_bind]. rewrite Hgp. cbn [mbind option_bind].
    rewrite (getPath_loop_chain _ s h ns'); [|done|done|rewrite length_app in Hsz; cbn in Hsz; unfold tree_fuel; lia].
    cbn [mbind option_bind]. unfold path_then_name. rewrite join_not_empty; [|by destruct ns'|done].
    by rewrite join_app, <- app_assoc.
Qed.

(** A walk along the names arrives. *)
Lemma walk_const_snoc s g ns h hr x q y :
  tree_inv s -> walk_const s g (ns ++ [x]) = Some (Some h) -> groups s !! h = Some hr ->
  coll_named (g_groups hr) x = Some q -> walk_const s g (ns ++ [x; y]) = Some (Some q).
Proof.
  intros Ht. revert g. induction ns as [|z ns IH]; intros g Hw Hh Hx.
  - cbn in Hw. injection Hw as ->. cbn [app]. by rewrite (walk_const_child s h hr x q y [] Ht Hh Hx).
  - assert (exists a l, ns ++ [x] = a :: l) as (a & l & Hl) by (destruct ns; cbn; eauto).
    assert (exists l', ns ++ [x; y] = a :: l') as (l' & Hl') by (destruct ns; cbn in *; injection Hl as -> _; eauto).
    cbn [app] in *. rewrite Hl in Hw. rewrite Hl'. rewrite walk_const_cons in *.
    destruct (groups s !! g) as [gr|]; [|done]. cbn [mbind option_bind] in *.
    destruct (hasChildGroup gr z); [|done]. destruct (childGroup gr z) as [c|]; [|done]. cbn [mbind option_bind] in *.
    rewrite <- Hl'. apply IH; [by rewrite Hl|done|done].
Qed.

Lemma chain_walk s q ns x : full s -> well_named s -> chain s q ns -> walk_const s (m_RootGroup s) (ns ++ [x]) = Some (Some q).
Proof.
  intros Hf Hw Hc. revert x. induction Hc as [|q qr g ns Hq Hnr Hp Hc IH]; intros x; [done|].
  destruct (group_place s q qr g (proj2 Hf) Hq Hp Hnr) as (gr & Hg & Hat).
  rewrite <- app_assoc. eapply walk_const_snoc; [apply Hf|apply IH|exact Hg|].
  apply (coll_named_spec (iname (gitem s)) (g_is_list gr)); [by eapply group_coll_ok; [apply Hf|]|].
  split; [by eapply Hw|]. exists (g_index qr). by rewrite (group_iname s q qr Hq Hnr).
Qed.

(** C32: The path name of a group leads back to it: in a store whose root has the empty
    name it is created with (it has not been renamed), whose groups use the map format
    and whose other groups have names that are parts of paths, [getPathName] of any group
    below the root returns a path, and [getGroup] of that path at the root finds the
    group. *)
Theorem group_path_roundtrip s q :
  full s -> well_named s -> below (gitem s) (m_RootGroup s) q -> q <> m_RootGroup s ->
  exists path, getPathName (tree_fuel s) s q = Some path /\ getGroup s (m_RootGroup s) path = Some (Some q).
Proof.
  intros Hf Hw Hb Hnr. destruct (below_chain s q Hf Hb) as (ns & V & Hc & Hsz & Hsub & _).
  apply subseteq_size in Hsub. rewrite size_dom in Hsub. pose proof (chain_parts s q ns Hw Hc) as Hparts.
  inversion Hc as [|q' qr g ns' Hq _ Hp Hc']; subst; [done|]. rewrite length_app in Hsz. cbn in Hsz.
  exists (join_with s_path_delimiter (ns' ++ [g_name qr])). split; [by eapply getPathName_chain; try done; lia|].
  destruct (ti_root s (proj2 Hf)) as (r & Hr & Hrp). unfold getGroup.
  assert (path_last (join_with s_path_delimiter (ns' ++ [g_name qr])) = g_name qr /\
    walkPath_const s (m_RootGroup s) (join_with s_path_delimiter (ns' ++ [g_name qr])) = Some (Some g, g_name qr)) as [Hlast Hwc].
  { unfold path_last, walkPath_const. rewrite path_parts_join by done.
    destruct (ns' ++ [g_name qr]) as [|a l] eqn:E; [by destruct ns'|].
    rewrite <- E, last_last, (chain_walk s g ns' _ Hf Hw Hc'). done. }
  rewrite (walkPath_found s _ r _ false g (proj2 Hf) Hr); [|by eapply Hw|by rewrite Hlast]. rewrite Hlast.
  cbn [mbind option_bind]. destruct (group_place s q qr g (proj2 Hf) Hq Hp Hnr) as (gr & Hg & Hat). rewrite Hg.
  cbn [mbind option_bind]. assert (coll_named (g_groups gr) (g_name qr) = Some q) as Hnamed.
  { apply (coll_named_spec (iname (gitem s)) (g_is_list gr)); [by eapply group_coll_ok; [apply Hf|]|].
    split; [by eapply Hw|]. exists (g_index qr). by rewrite (group_iname s q qr Hq Hnr). }
  unfold coll_named in Hnamed. unfold getNamedGroups. destruct (as_named (g_groups gr)); [|done]. cbn in *. by rewrite Hnamed.
Qed.

(** ** Destroying a subtree *)

(** Detaching [q] does not change what is below it. *)
Lemma detached_same_below s g gr c q qr x :
  groups s !! g = Some gr -> groups s !! q = Some qr -> q <> g -> q <> m_RootGroup s ->
  below (gitem (set_group (set_group s g (with_ggroups gr c)) q (with_parent qr None InvalidIndex))) q x <->
  below (gitem s) q x.
Proof.
  intros Hg Hq Hne Hnr. destruct (regrouped_spec s g gr c q qr None InvalidIndex Hg Hq Hne Hnr) as (Ei & _). split.
  - apply below_orphan.
    + intros nm i h. rewrite Ei, decide_True by done. done.
    + intros p Hp. by rewrite Ei, decide_False.
  - intros Hb. induction Hb as [|x nm i h Hx Hb IH]; [apply below_refl|].
    destruct (decide (x = q)) as [->|Hxq]; [apply below_refl|]. eapply below_child; [|done]. by rewrite Ei, decide_False.
Qed.

(** C33: Destroying the group that a path leads to removes that group, every group
    below it and all their views, and nothing else: all other groups and views stay, and
    so do all buffers. *)
Theorem destroy_group_erases_subtree s g path q :
  full s -> live_group s g -> walk_named s g (path_parts path) -> getGroup s g path = Some (Some q) ->
  exists s', destroyGroup s g path = Some s' /\ full s' /\ dom (bufs s') = dom (bufs s) /\
    (forall x, below (gitem s) q x -> groups s' !! x = None) /\
    (forall x, ~ below (gitem s) q x -> is_Some (groups s !! x) -> is_Some (groups s' !! x)) /\
    (forall p v x, views s !! p = Some v -> m_owning_group v = Some x -> below (gitem s) q x -> views s' !! p = None) /\
    (forall p v x, views s !! p = Some v -> m_owning_group v = Some x -> ~ below (gitem s) q x -> views s' !! p = Some v).
Proof.
  intros Hf Hg Hn Hget. destruct (walkPath_false s g path (proj2 Hf) Hg Hn) as (r & Hw & _ & Hl).
  unfold getGroup in Hget. unfold destroyGroup. rewrite Hw in *. cbn [mbind option_bind] in *.
  destruct r as [h|]; [|done]. destruct (Hl h eq_refl) as (hr & Hh & Hlist). rewrite Hh in Hget. cbn [mbind option_bind] in Hget.
  assert (childGroup hr (path_last path) = Some q) as Hchild.
  { unfold childGroup. destruct (getNamedGroups hr) as [c|]; [|done]. cbn in *. by injection Hget. }
  destruct (detachGroup_step s h hr (path_last path) Hf Hh Hlist)
    as [(x & xr & c & Hx & _ & Hp & Hne & Hnr & -> & Hf1 & _ & Hc)|[Hno _]].
  2: { rewrite (coll_hasName_named _ _ _ _ (group_coll_ok s h hr (proj2 Hf) Hh)) in Hno.
       change (coll_named (g_groups hr) (path_last path)) with (childGroup hr (path_last path)) in Hno. by rewrite Hchild in Hno. }
  assert (x = q) as -> by congruence. cbn [mbind option_bind delete_group_opt].
  pose proof (fun y => detached_same_below s h hr c q xr y Hh Hx Hne Hnr) as Hsame. set (s1 := set_group _ q _) in *.
  destruct (delete_group_step s1 q (with_parent xr None InvalidIndex) Hf1) as (s' & Hs' & Hf' & He);
    [apply lookup_insert_eq|done|].
  exists s'. split; [done|]. split; [done|]. split_and!.
  - exact (er_bufs _ _ _ He).
  - intros y Hy. apply (er_group_gone _ _ _ He). by apply Hsame.
  - intros y Hy Hlive. rewrite (er_group_kept _ _ _ He) by (by rewrite Hsame). unfold s1. cbn.
    destruct (decide (q = y)) as [<-|]; [by rewrite lookup_insert_eq|]. rewrite lookup_insert_ne by done.
    destruct (decide (h = y)) as [<-|]; [by rewrite lookup_insert_eq|]. by rewrite lookup_insert_ne.
  - intros p v y Hv Hown Hy. eapply (er_view_gone _ _ _ He p v y); [exact Hv|done|]. by apply Hsame.
  - intros p v y Hv Hown Hy. rewrite (er_view_kept _ _ _ He); [exact Hv|]. intros v' y' Hv' Hown'.
    change (views s !! p = Some v') in Hv'. rewrite Hsame. congruence.
Qed.

(** Every group and every view is in the tree. *)
Definition in_tree s : Prop :=
  (forall q, live_group s q -> below (gitem s) (m_RootGroup s) q) /\
  (forall p v, views s !! p = Some v -> is_Some (m_owning_group v)).

(** C34: The destructor of a [DataStore] whose groups and views are all in the tree
    returns: it deletes every group and view, although children are deleted while their
    parent still lists them, and then every buffer. *)
Theorem datastore_delete_empties s :
  full s -> in_tree s ->
  exists s', DataStore_delete s = Some s' /\ groups s' = ∅ /\ views s' = ∅ /\ bufs s' = ∅.
Proof.
  intros Hf [Hgs Hvs]. destruct (ti_root s (proj2 Hf)) as (r & Hr & _).
  assert (unowned (gitem s) (m_RootGroup s)) as Hu by (intros nm i h; unfold gitem; by rewrite decide_True).
  destruct (Group_delete_spec (tree_fuel s) ∅ s (m_RootGroup s) r (full_loose s Hf) Hr) as (s1 & Hs1 & Hi1 & He);
    [set_solver|set_solver|unfold tree_fuel; lia|intros nm i h Hh; by apply Hu in Hh|set_solver|].
  assert (forall q, groups s1 !! q = None) as Hg1.
  { intros q. destruct (groups s1 !! q) as [qr|] eqn:Hq; [|done]. destruct (erased_group _ _ _ _ _ He Hq) as [Hn Hq0].
    exfalso. apply Hn, Hgs. by eexists. }
  assert (forall p, views s1 !! p = None) as Hv1.
  { intros p. destruct (views s1 !! p) as [v|] eqn:Hp; [|done]. destruct (erased_view _ _ _ _ _ He Hp) as [Hp0 Hn].
    destruct (Hvs p v Hp0) as [x Hx]. exfalso. apply (Hn x Hx), Hgs.
    destruct (view_place s p v x (proj2 Hf) Hp0 Hx) as (gr & Hg & _). by eexists. }
  destruct (destroyAllBuffers_step s1 Hi1) as (s' & Hs' & Hi' & [Eg _ _ Ev] & Hb).
  exists s'. unfold DataStore_delete. rewrite Hs1. cbn [mbind option_bind]. split_and!; [done| | |done].
  - rewrite Eg. by apply map_empty.
  - apply map_empty. intros p. specialize (Ev p). rewrite Hv1 in Ev. by destruct (views s' !! p).
Qed.

(** ** Data info *)

(** The number of views that were put in a category. *)
Definition counted (n : DataInfo) : Z :=
  num_views_empty n + num_views_buffer n + num_views_external n + num_views_scalar n + num_views_string n.

(** The indices that were collected belong to buffers. *)
Definition info_ok s (n : DataInfo) : Prop :=
  forall i, i ∈ buffer_ids n -> exists q b, bufs s !! q = Some b /\ b_index b = i.

Lemma add_view_info_spec s n p v :
  inv s -> views s !! p = Some v -> info_ok s n ->
  exists n', add_view_info s n v = Some n' /\ num_views n' = num_views n /\ counted n' = counted n + 1 /\
    num_groups n' = num_groups n /\ info_ok s n'.
Proof.
  intros Hi Hv Hok. destruct n as [ng nv ne nb nx nsc nst ba be ids]. unfold add_view_info, counted.
  destruct (isExternal v); [eexists; split; [done|]; cbn; split_and!; try done; lia|].
  destruct (isScalar v); [eexists; split; [done|]; cbn; split_and!; try done; lia|].
  destruct (isString v); [eexists; split; [done|]; cbn; split_and!; try done; lia|].
  unfold hasBuffer. destruct (m_data_buffer v) as [q|] eqn:Hq.
  - rewrite bool_decide_true by done. cbn [mbind option_bind].
    destruct (vo_buffer s p v (inv_views s Hi p v Hv) q Hq) as (_ & b & Hb & _). rewrite Hb. cbn [mbind option_bind].
    destruct (Buffer_isAllocated b); (eexists; split; [done|]; cbn; split_and!; try done; try lia).
    intros i. cbn. rewrite elem_of_union, elem_of_singleton. intros [->|Hin]; [eauto|by apply Hok].
  - rewrite bool_decide_false by (by intros [? ?]). eexists; split; [done|]; cbn; split_and!; try done; lia.
Qed.

Lemma fold_view_info s l n :
  inv s -> (forall x, x ∈ l -> is_Some (views s !! x.2)) -> info_ok s n ->
  exists n', foldl (fun acc x => n ← acc; v ← views s !! x.2; add_view_info s n v) (Some n) (l : list (Z * ptr)) = Some n' /\
    num_views n' = num_views n /\ counted n' = counted n + Z.of_nat (length l) /\ num_groups n' = num_groups n /\ info_ok s n'.
Proof.
  intros Hi. revert n. induction l as [|x l IH]; intros n Hl Hok; [exists n; cbn; split_and!; try done; lia|].
  destruct (Hl x) as [v Hv]; [by left|]. cbn [foldl mbind option_bind]. rewrite Hv. cbn [mbind option_bind].
  destruct (add_view_info_spec s n x.2 v Hi Hv Hok) as (n1 & -> & En & Ec & Eg & Hok1).
  destruct (IH n1) as (n' & Hn' & En' & Ec' & Eg' & Hok'); [intros y Hy; apply Hl; by right|done|].
  exists n'. split_and!; try done; [congruence|cbn [length]; lia|congruence].
Qed.

(** The helper returns when it has fuel for the groups that are not above [g], and it
    puts every view it counts in exactly one category. *)
Lemma getDataInfoHelper_spec fuel (V : gset ptr) s g n recursive :
  full s -> live_group s g -> V ⊆ dom (groups s) -> g ∉ V -> (forall a, a ∈ V -> below (gitem s) a g) ->
  (size (groups s) <= fuel + size V)%nat -> info_ok s n ->
  exists n', getDataInfoHelper fuel s g n recursive = Some n' /\ num_views n' - counted n' = num_views n - counted n /\
    num_groups n < num_groups n' /\ info_ok s n'.
Proof.
  intros Hf. revert V g n. induction fuel as [|fuel IH]; intros V g n [gr Hg] HV HgV Hanc Hsz Hok.
  all: pose proof (subset_size V g s HV ltac:(by rewrite Hg) HgV) as Hsize.
  { lia. }
  cbn [getDataInfoHelper]. rewrite Hg. cbn [mbind option_bind]. set (n0 := mkInfo _ _ _ _ _ _ _ _ _ _).
  destruct (coll_iterate_spec _ _ _ (view_coll_ok s g gr (proj2 Hf) Hg)) as (vs & -> & Hnum & Hvs). cbn [mbind option_bind].
  destruct (fold_view_info s vs n0 (proj1 Hf)) as (n1 & -> & En & Ec & Eg & Hok1); [|done|].
  { intros [i p] Hp%Hvs. destruct (view_at s g gr i p (proj2 Hf) Hg Hp) as (v & Hv & _). by eexists. }
  cbn [mbind option_bind]. assert (num_views n1 - counted n1 = num_views n - counted n /\ num_groups n < num_groups n1) as [Hn1 Hg1].
  { rewrite En, Ec, Eg. unfold n0, counted, getNumViews in *. cbn in *. lia. }
  destruct recursive; [|exists n1; by split_and!].
  destruct (coll_iterate_spec _ _ _ (group_coll_ok s g gr (proj2 Hf) Hg)) as (gs & -> & _ & Hgs). cbn [mbind option_bind].
  assert (forall l m, (forall x, x ∈ l -> x ∈ gs) -> info_ok s m ->
    exists m', foldl (fun acc x => n ← acc; getDataInfoHelper fuel s x.2 n true) (Some m) l = Some m' /\
      num_views m' - counted m' = num_views m - counted m /\ num_groups m <= num_groups m' /\ info_ok s m') as Hfold.
  { induction l as [|[i q] l IHl]; intros m Hl Hm; [exists m; split_and!; try done; lia|].
    assert (item_at (coll_slots (g_groups gr)) i = Some q) as Hq by (apply Hgs, Hl; left).
    destruct (group_at s g gr i q (proj2 Hf) Hg Hq) as (qr & Hqr & Hp & Hix & Hnr & Hne).
    assert (gitem s q = Some (g_name qr, i, Some g)) as Hit
      by (unfold gitem; rewrite decide_False, Hqr by done; cbn; unfold group_part; by rewrite Hp, Hix).
    destruct (IH ({[g]} ∪ V) q m) as (m1 & Hm1 & En1 & Eg1 & Hok1'); [by eexists|..]; try done.
    - intros a [->%elem_of_singleton|Ha]%elem_of_union; [apply elem_of_dom; by eexists|by apply HV].
    - intros Hin. apply (owner_not_below (gitem s) q (g_name qr) i g (ti_acyclic s (proj2 Hf)) Hit).
      apply elem_of_union in Hin as [->%elem_of_singleton|Ha]; [apply below_refl|by apply Hanc].
    - intros a Ha. eapply below_child; [exact Hit|].
      apply elem_of_union in Ha as [->%elem_of_singleton|Ha]; [apply below_refl|by apply Hanc].
    - rewrite size_union, size_singleton by set_solver. lia.
    - cbn [foldl mbind option_bind snd]. rewrite Hm1.
      destruct (IHl m1) as (m' & Hm' & En' & Eg' & Hok'); [intros y Hy; apply Hl; by right|done|].
      exists m'. split_and!; try done; lia. }
  destruct (Hfold gs n1 ltac:(done) Hok1) as (m' & -> & En' & Eg' & Hok'). exists m'. split_and!; try done; lia.
Qed.

(** [getDataInfo] of any group of a consistent store returns, and counts each of
    the views it reports in exactly one of the five categories; it reports at least
    one group. *)
Theorem data_info_partition s g recursive :
  full s -> live_group s g ->
  exists n bytes, getDataInfo (tree_fuel s) s g recursive = Some (n, bytes) /\ 1 <= num_groups n /\
    num_views n = num_views_empty n + num_views_buffer n + num_views_external n + num_views_scalar n + num_views_string n.
Proof.
  intros Hf Hg. destruct (getDataInfoHelper_spec (tree_fuel s) ∅ s g (mkInfo 0 0 0 0 0 0 0 0 0 ∅) recursive Hf Hg)
    as (n & Hn & Hc & Hng & Hok); [set_solver|set_solver|set_solver|unfold tree_fuel; lia|intros i Hi; cbn in Hi; set_solver|].
  unfold getDataInfo. rewrite Hn. cbn [mbind option_bind].
  assert (forall l t, (forall i, i ∈ l -> i ∈ buffer_ids n) ->
    exists t', foldl (fun acc idx => t ← acc; q ← getBuffer_idx s idx; b ← bufs s !! q; Some (t + Buffer_getTotalBytes b)) (Some t) l = Some t') as Hsum.
  { induction l as [|i l IH]; intros t Hl; [by exists t|]. cbn [foldl mbind option_bind].
    destruct (Hok i) as (q & b & Hb & Hi); [apply Hl; by left|]. pose proof (inv_data s (proj1 Hf)) as Hdi.
    pose proof (di_index _ _ _ Hdi q b Hb) as Hat. rewrite Hi in Hat. pose proof (item_at_range _ _ _ Hat).
    pose proof (di_small _ _ _ Hdi).
    assert (getBuffer_idx s i = Some q) as ->.
    { rewrite <- Hat. apply (law_get (CollectionLaws := IndexedCollection_laws) (buffer_coll s) i); [done|cbn; lia]. }
    cbn [mbind option_bind]. rewrite Hb. cbn [mbind option_bind]. apply IH. intros j Hj. apply Hl. by right. }
  destruct (Hsum (elements (buffer_ids n)) 0) as [t ->]; [intros i Hi; by apply elem_of_elements|].
  exists n, t. cbn [mbind option_bind]. unfold counted in Hc. cbn in Hc, Hng. split_and!; [done|lia|lia].
Qed.

End theorems.

(** ** Checks of concrete stores *)

Section checks.
Context `{Conduit}.
Implicit Types (s : DS) (q : ptr).

Lemma map_check {A} (P : ptr -> A -> bool) (m : gmap ptr A) :
  forallb (fun x => P x.1 x.2) (map_to_list m) = true -> forall k x, m !! k = Some x -> P k x = true.
Proof.
  rewrite forallb_forall. intros Hc k x Hk. apply (Hc (k, x)), list_elem_of_In, elem_of_map_to_list, Hk.
Qed.

Definition room_check (k : Z) (gr : Group) : bool :=
  (vsize (coll_slots (g_views gr)) + k <? 2 ^ 31) && (vsize (coll_slots (g_groups gr)) + k <? 2 ^ 31).

Lemma tree_room_check s k :
  forallb (fun x => room_check k x.2) (map_to_list (groups s)) = true -> tree_room s k.
Proof.
  intros Hc g gr Hg. pose proof (map_check (fun _ => room_check k) _ Hc g gr Hg) as Hr. unfold room_check in Hr.
  apply andb_true_iff in Hr as [Hv Hgg]. split; lia.
Qed.

(** Whether a group is below the root. *)
Fixpoint climb (n : nat) s q : bool :=
  if decide (q = m_RootGroup s) then true else
  match n, gitem s q with S n, Some (_, _, Some g) => climb n s g | _, _ => false end.

Lemma climb_below n s q : climb n s q = true -> below (gitem s) (m_RootGroup s) q.
Proof.
  revert q. induction n as [|n IH]; intros q; cbn; (case_decide as Hq; [intros _; subst; apply below_refl|]); [done|].
  destruct (gitem s q) as [[[nm i] [g|]]|] eqn:Hg; try done. intros Hc. eapply below_child; [done|]. by apply IH.
Qed.

Lemma in_tree_check s n :
  forallb (fun x => climb n s x.1) (map_to_list (groups s)) &&
  forallb (fun x => bool_decide (is_Some (m_owning_group x.2))) (map_to_list (views s)) = true -> in_tree s.
Proof.
  intros [Hg Hv]%andb_true_iff. split.
  - intros q [qr Hq]. eapply climb_below. exact (map_check (fun q _ => climb n s q) _ Hg q qr Hq).
  - intros p v Hp. exact (bool_decide_eq_true_1 _ (map_check (fun _ v => bool_decide (is_Some (m_owning_group v))) _ Hv p v Hp)).
Qed.

Definition name_check s q (qr : Group) : bool :=
  negb (g_is_list qr) &&
  if decide (q = m_RootGroup s) then negb (str_nonempty (g_name qr))
  else str_nonempty (g_name qr) && negb (contains_char (g_name qr) s_path_delimiter).

Lemma well_named_check s : forallb (fun x => name_check s x.1 x.2) (map_to_list (groups s)) = true -> well_named s.
Proof.
  intros Hc q qr Hq. pose proof (map_check (name_check s) _ Hc q qr Hq) as Hn. unfold name_check in Hn.
  apply andb_true_iff in Hn as [Hl Hn]. split; [by destruct (g_is_list qr)|]. case_decide.
  - by destruct (g_name qr).
  - apply andb_true_iff in Hn as [Hne Hd]. apply name_ok; [done|]. by destruct (contains_char _ _).
Qed.

End checks.

(** The side conditions of one operation on a concrete store. *)
Ltac solve_legal :=
  repeat match goal with
  | |- _ /\ _ => split
  | |- live_group _ _ => eexists; vm_compute; reflexivity
  | |- path_room _ _ => apply tree_room_check; vm_compute; reflexivity
  | |- tree_room _ _ => apply tree_room_check; vm_compute; reflexivity
  | |- movable_view _ _ => do 3 eexists; split; [vm_compute; reflexivity|]; split; [reflexivity|];
                           split; [vm_compute; reflexivity|reflexivity]
  | |- walk_named _ _ _ => vm_compute; repeat split
  | |- room _ => vm_compute; reflexivity
  end.

(** The rest of a sequence after one operation. *)
Ltac next_op := let s := fresh "s" in let Hs := fresh "Hs" in
  intros s Hs; vm_compute in Hs; injection Hs as <-.

(** Two views in nested groups, the second one allocated; groups 2 and 3, views 4 and 5,
    buffer 6. *)
Definition sample_build : list gop := [GCreateView 1 "a/b/v"; GCreateViewAndAllocate 1 "a/w" 6 10].
Definition sample_tree : DS := default DataStore_new (grun DataStore_new sample_build).

Lemma sample_build_legal : glegal_run DataStore_new sample_build.
Proof. cbn [glegal_run sample_build glegal]. split; [solve_legal|]. next_op. split; [solve_legal|]. done. Qed.

Lemma sample_tree_full : full sample_tree.
Proof.
  destruct (grun_full DataStore_new sample_build DataStore_new_full sample_build_legal) as (s & Hs & Hf).
  unfold sample_tree. by rewrite Hs.
Qed.

(** Then rename, move, and destroy a group. *)
Definition sample_gops : list gop :=
  sample_build ++ [GRenameView 4 "u"; GMoveView 1 4; GDestroyGroup 1 "a"; GDestroyViews 1].

Lemma sample_gops_legal : glegal_run DataStore_new sample_gops.
Proof.
  unfold sample_gops, sample_build. cbn [glegal_run app glegal].
  split; [solve_legal|]. next_op. split; [solve_legal|]. next_op. split; [solve_legal|]. next_op.
  split; [solve_legal|]. next_op. split; [solve_legal|]. next_op. split; [solve_legal|]. done.
Qed.


(** The store after the first view was created. *)
Definition first_view : DS := default DataStore_new (gexec DataStore_new (GCreateView 1 "a/b/v")).

Lemma first_view_created : createView DataStore_new 1 "a/b/v" = Some (first_view, Some 4%positive).
Proof. vm_compute. reflexivity. Qed.

Lemma first_view_room : path_room DataStore_new "a/b/v".
Proof. solve_legal. Qed.

Lemma first_view_named : walk_named DataStore_new 1 (path_parts "a/b/v").
Proof. solve_legal. Qed.

Lemma create_view_lookup_witness :
  views DataStore_new !! 4%positive = None /\
  (exists v, views first_view !! 4%positive = Some v /\ m_name v = path_last "a/b/v" /\ m_state v = EMPTY) /\
  (forall q, q <> 4%positive -> views first_view !! q = views DataStore_new !! q) /\
  getView first_view 1 "a/b/v" = Some (Some 4%positive) /\ hasView first_view 1 "a/b/v" = Some true /\
  createView first_view 1 "a/b/v" = Some (first_view, None).
Proof.
  exact (create_view_lookup DataStore_new 1 "a/b/v" first_view 4 DataStore_new_full first_view_room first_view_named
    first_view_created).
Defined.

Lemma group_path_roundtrip_witness :
  exists path, getPathName (tree_fuel sample_tree) sample_tree 3 = Some path /\
    getGroup sample_tree (m_RootGroup sample_tree) path = Some (Some 3%positive).
Proof.
  apply (group_path_roundtrip sample_tree 3 sample_tree_full).
  - apply well_named_check. vm_compute. reflexivity.
  - apply (climb_below 5). vm_compute. reflexivity.
  - vm_compute. discriminate.
Defined.

Lemma destroy_group_erases_subtree_witness :
  exists s', destroyGroup sample_tree 1 "a" = Some s' /\ groups s' !! 3%positive = None /\ views s' !! 4%positive = None /\
    dom (bufs s') = dom (bufs sample_tree).
Proof.
  edestruct (destroy_group_erases_subtree sample_tree 1 "a" 2 sample_tree_full)
    as (s' & Hs' & _ & Hb & Hg & _ & Hv & _); [solve_legal|solve_legal|vm_compute; reflexivity|].
  exists s'. split; [exact Hs'|]. assert (below (gitem sample_tree) 2 3) as Hb3
    by (eapply below_child; [vm_compute; reflexivity|apply below_refl]).
  split; [by apply Hg|]. split; [|exact Hb]. eapply Hv; [vm_compute; reflexivity|reflexivity|exact Hb3].
Defined.

Lemma datastore_delete_empties_witness :
  exists s', DataStore_delete sample_tree = Some s' /\ groups s' = ∅ /\ views s' = ∅ /\ bufs s' = ∅.
Proof.
  apply (datastore_delete_empties sample_tree sample_tree_full). apply (in_tree_check sample_tree 5).
  vm_compute. reflexivity.
Defined.

Lemma data_info_partition_witness :
  exists n bytes, getDataInfo (tree_fuel sample_tree) sample_tree 1 true = Some (n, bytes) /\ 1 <= num_groups n /\
    num_views n = num_views_empty n + num_views_buffer n + num_views_external n + num_views_scalar n + num_views_string n.
Proof. apply (data_info_partition sample_tree 1 true sample_tree_full). solve_legal. Defined.

(** ** Behaviour that breaks the tree *)

(** In a group that uses the list format [destroyViewsAndData] does not return: it
    detaches each view by name, which casts the list collection to a named one;
    [destroyViews], which detaches by index, does return there. *)
Theorem list_destroyViewsAndData_fails :
  exists s, grun DataStore_new [GCreateGroup 1 "l" true; GCreateView 2 EmptyString] = Some s /\
    destroyViewsAndData s 2 = None /\ is_Some (destroyViews s 2).
Proof.
  eexists. split; [vm_compute; reflexivity|]. split; [vm_compute; reflexivity|]. eexists. vm_compute. reflexivity.
Qed.

(** [moveView] only looks for a view of the same name: it moves a view next to a
    child group of that name, which [createView] and [createGroup] refuse to create. *)
Theorem moveView_name_clash :
  exists s s' gr, grun DataStore_new [GCreateView 1 "a/x"; GCreateGroup 1 "b/x" false] = Some s /\
    moveView s 4 (Some 3%positive) = Some (s', Some 3%positive) /\ groups s' !! 4%positive = Some gr /\
    hasChildView gr "x" = true /\ hasChildGroup gr "x" = true.
Proof.
  do 3 eexists. split; [vm_compute; reflexivity|]. split; [vm_compute; reflexivity|].
  split; [vm_compute; reflexivity|]. split; vm_compute; reflexivity.
Qed.

(** A loop of [getPath] between two groups that are each other's parent. *)
Lemma getPath_cycle n s g h gr hr acc :
  groups s !! g = Some gr -> groups s !! h = Some hr -> g_parent gr = Some h -> g_parent hr = Some g ->
  g <> m_RootGroup s -> h <> m_RootGroup s -> getPath_loop n s g acc = None.
Proof.
  revert g h gr hr acc. induction n as [|n IH]; intros g h gr hr acc Hg Hh Hgp Hhp Hgr Hhr; [done|].
  cbn [getPath_loop]. rewrite bool_decide_false, Hg by done. cbn [mbind option_bind]. rewrite Hgp. cbn [mbind option_bind].
  by eapply (IH h g).
Qed.

Lemma getPath_never n s g h gr hr :
  groups s !! g = Some gr -> groups s !! h = Some hr -> g_parent gr = Some h -> g_parent hr = Some g ->
  g <> m_RootGroup s -> h <> m_RootGroup s -> getPath n s g = None.
Proof.
  intros Hg Hh Hgp Hhp Hgr Hhr. unfold getPath. rewrite Hg. cbn [mbind option_bind]. rewrite Hgp. cbn [mbind option_bind].
  rewrite Hh. cbn [mbind option_bind]. rewrite Hhp. cbn [mbind option_bind]. by eapply getPath_cycle.
Qed.

(** [moveGroup] does not check that the destination is outside the group it moves:
    moving a group into its own child returns the group, takes both out of the tree,
    makes each the parent of the other, and [getPath] then never returns. *)
Theorem moveGroup_makes_cycle :
  exists s s', grun DataStore_new [GCreateGroup 1 "a/b" false] = Some s /\
    moveGroup s 3 (Some 2%positive) = Some (s', Some 2%positive) /\
    hasGroup s 1 "a" = Some true /\ hasGroup s' 1 "a" = Some false /\ (forall n, getPath n s' 2 = None).
Proof.
  do 2 eexists. split; [vm_compute; reflexivity|]. split; [vm_compute; reflexivity|].
  split; [vm_compute; reflexivity|]. split; [vm_compute; reflexivity|]. intros n.
  eapply (getPath_never n _ 2 3); [vm_compute; reflexivity|vm_compute; reflexivity|reflexivity|reflexivity|discriminate|discriminate].
Qed.

(** [copyView] into a group that has a child group of the view's name does not
    return: [createView] refuses the name and the null pointer is used as the copy. *)
Theorem copyView_onto_group_fails :
  exists s, grun DataStore_new [GCreateView 1 "a/x"; GCreateGroup 1 "b/x" false] = Some s /\
    SidreGroup.copyView s 4 (Some 3%positive) = None.
Proof. eexists. split; [vm_compute; reflexivity|]. vm_compute. reflexivity. Qed.

End SidreTreeTheorems.
