(* ===== verification/OffsetLists.v ===== *)
(** * Lists stored one after the other

    Several components of [mint] keep lists of different lengths in one array with an array
    of offsets.  Here: what such a pair of arrays stores, and how it changes when lists are
    added. *)

From S2P Require Import Prelude.

Module OffsetLists.
#[local] Open Scope list_scope.

Section slices.
Context {A : Type}.
Implicit Types (ls : list (list A)) (x : list A).

(** The elements of list [i] of several lists that are stored one after the other. *)
Definition slice_of (data : list A) (offsets : list Z) (i : Z) : option (list A) :=
  a ← offsets.[i]; b ← offsets.[i + 1]; Some (takeZ (b - a) (dropZ a data)).

Fixpoint offsets_from (n : Z) ls : list Z :=
  match ls with [] => [] | x :: ls => n :: offsets_from (n + Z.of_nat (length x)) ls end.

Definition offsets_all ls : list Z := offsets_from 0 ls ++ [Z.of_nat (length (mjoin ls))].

Lemma offsets_from_app n ls ls' : offsets_from n (ls ++ ls') = offsets_from n ls ++ offsets_from (n + Z.of_nat (length (mjoin ls))) ls'.
Proof.
  revert n. induction ls as [|x ls IH]; intros n; cbn [app offsets_from]; [by rewrite Z.add_0_r|].
  by rewrite IH, join_cons, length_app, Nat2Z.inj_add, Z.add_assoc.
Qed.

Lemma offsets_from_length n ls : length (offsets_from n ls) = length ls.
Proof. revert n. induction ls as [|x ls IH]; intros n; [done|]. cbn. by rewrite IH. Qed.

Lemma offsets_all_lookup ls (i : nat) : (i <= length ls)%nat -> offsets_all ls !! i = Some (Z.of_nat (length (mjoin (take i ls)))).
Proof.
  intros Hi. unfold offsets_all. destruct (decide (i < length ls)%nat) as [Hlt|Hge].
  - rewrite lookup_app_l by (by rewrite offsets_from_length). rewrite <- (take_drop i ls) at 1. rewrite offsets_from_app.
    rewrite lookup_app_r by (rewrite offsets_from_length, length_take; lia). rewrite offsets_from_length, length_take, Nat.min_l, Nat.sub_diag by lia.
    destruct (drop i ls) as [|x r] eqn:E; [|done]. apply (f_equal length) in E. rewrite length_drop in E. cbn in E. lia.
  - assert (i = length ls) as -> by lia. rewrite lookup_app_r by (by rewrite offsets_from_length). by rewrite offsets_from_length, Nat.sub_diag, firstn_all.
Qed.

Lemma slice_of_join ls i x : ls.[i] = Some x -> slice_of (mjoin ls) (offsets_all ls) i = Some x.
Proof.
  intros Hx. pose proof (zlookup_Some_bounds _ _ _ Hx) as Hi. rewrite zlookup_to_nat in Hx by lia. unfold slice_of.
  rewrite !zlookup_to_nat by lia. rewrite !offsets_all_lookup by lia. cbn. f_equal.
  replace (Z.to_nat (i + 1)) with (S (Z.to_nat i)) by lia. rewrite (take_S_r _ _ x) by done. rewrite join_app, length_app.
  assert (mjoin ls = mjoin (take (Z.to_nat i) ls) ++ x ++ mjoin (drop (S (Z.to_nat i)) ls)) as ->.
  { by rewrite <- join_cons, <- join_app, take_drop_middle. }
  unfold takeZ, dropZ. rewrite Nat2Z.id, drop_app_length.
  cbn. rewrite app_nil_r. replace (Z.to_nat _) with (length x) by lia. by rewrite take_app_length.
Qed.

End slices.

(** The offsets only depend on the lengths. *)
Lemma offsets_all_ext {A B} (ls : list (list A)) (ls' : list (list B)) : length <$> ls = length <$> ls' -> offsets_all ls = offsets_all ls'.
Proof.
  intros E. assert (length (mjoin ls) = length (mjoin ls') /\ forall n, offsets_from n ls = offsets_from n ls') as [Hl Hf].
  { revert ls' E. induction ls as [|x ls IH]; intros [|x' ls']; cbn [fmap list_fmap]; try done. intros [= Hx E]. destruct (IH ls' E) as [H1 H2].
    rewrite !join_cons, !length_app, H1, Hx. split; [done|]. intros n. cbn. by rewrite Hx, H2. }
  unfold offsets_all. by rewrite Hl, Hf.
Qed.

(** ** Where the lists end *)

Section ends.
Context {A : Type}.
Implicit Types (ls : list (list A)).

Definition total ls : Z := Z.of_nat (length (mjoin ls)).

Fixpoint ends_from (n : Z) ls : list Z :=
  match ls with [] => [] | x :: ls => n + Z.of_nat (length x) :: ends_from (n + Z.of_nat (length x)) ls end.

Definition ends ls : list Z := ends_from 0 ls.

Lemma ends_from_bounds n ls : Forall (fun o => n <= o <= n + total ls) (ends_from n ls).
Proof.
  revert n. induction ls as [|x ls IH]; intros n; cbn [ends_from]; constructor; unfold total in *; rewrite join_cons, length_app; [lia|].
  eapply Forall_impl; [apply IH|]. cbn. lia.
Qed.

Lemma join_total_app ls ls' : total (ls ++ ls') = total ls + total ls'.
Proof. unfold total. rewrite join_app, length_app. lia. Qed.

Lemma total_cons x ls : total (x :: ls) = Z.of_nat (length x) + total ls.
Proof. unfold total. rewrite join_cons, length_app. lia. Qed.

Lemma total_nonneg ls : 0 <= total ls.
Proof. unfold total. lia. Qed.

Lemma ends_from_shift a n ls : ends_from (n + a) ls = (fun o => o + a) <$> ends_from n ls.
Proof.
  revert n. induction ls as [|x ls IH]; intros n; [done|]. cbn. rewrite <- IH. by replace (n + a + Z.of_nat (length x)) with (n + Z.of_nat (length x) + a) by lia.
Qed.

Lemma ends_from_app n ls ls' : ends_from n (ls ++ ls') = ends_from n ls ++ ends_from (n + total ls) ls'.
Proof.
  revert n. induction ls as [|x ls IH]; intros n; [cbn; by rewrite Z.add_0_r|]. cbn. rewrite IH, total_cons. by replace (n + Z.of_nat (length x) + total ls) with (n + (Z.of_nat (length x) + total ls)) by lia.
Qed.

Lemma ends_app ls ls' : ends (ls ++ ls') = ends ls ++ ((fun o => o + total ls) <$> ends ls').
Proof. unfold ends. by rewrite ends_from_app, ends_from_shift. Qed.

Lemma length_ends ls : length (ends ls) = length ls.
Proof. unfold ends. generalize 0. induction ls as [|x ls IH]; intros n; [done|]. cbn. by rewrite IH. Qed.

Lemma offsets_all_ends ls : offsets_all ls = 0 :: ends ls.
Proof.
  assert (forall n, offsets_from n ls ++ [n + total ls] = n :: ends_from n ls) as H.
  { induction ls as [|x ls IH]; intros n; cbn; [by rewrite Z.add_0_r|]. rewrite <- IH, total_cons. by replace (n + Z.of_nat (length x) + total ls) with (n + (Z.of_nat (length x) + total ls)) by lia. }
  unfold offsets_all. specialize (H 0). unfold total in H. by rewrite Z.add_0_l in H.
Qed.

Lemma offsets_all_last ls : (offsets_all ls).[Z.of_nat (length ls)] = Some (total ls).
Proof. rewrite zlookup_of_nat, offsets_all_lookup by done. by rewrite firstn_all. Qed.

Lemma offsets_all_app ls ls' : offsets_all (ls ++ ls') = offsets_all ls ++ ((fun o => o + total ls) <$> ends ls').
Proof. by rewrite !offsets_all_ends, ends_app. Qed.

Lemma length_offsets_all ls : length (offsets_all ls) = S (length ls).
Proof. rewrite offsets_all_ends. cbn. by rewrite length_ends. Qed.

End ends.

(** Lists of pairs. *)
Lemma join_pairs {A} (ls : list (list A)) i a b : Forall (fun x => length x = 2%nat) ls -> ls.[i] = Some [a; b] ->
  (mjoin ls).[2 * i] = Some a /\ (mjoin ls).[2 * i + 1] = Some b.
Proof.
  intros Hl Hi. pose proof (zlookup_Some_bounds _ _ _ Hi) as Hb. rewrite zlookup_to_nat in Hi by lia. rewrite !zlookup_to_nat by lia.
  replace (Z.to_nat (2 * i)) with (2 * Z.to_nat i)%nat by lia. replace (Z.to_nat (2 * i + 1)) with (S (2 * Z.to_nat i)) by lia.
  revert Hi. clear Hb. generalize (Z.to_nat i). clear i. induction Hl as [|x ls Hx _ IH]; intros n; [done|]. rewrite join_cons.
  destruct x as [|x1 [|x2 [|]]]; try done. destruct n as [|n]; cbn [lookup list_lookup].
  - by intros [= -> ->].
  - intros Hn. destruct (IH n Hn) as [H1 H2]. replace (2 * S n)%nat with (S (S (2 * n))) by lia. done.
Qed.

End OffsetLists.
