(* ===== verification/MintCells.v ===== *)
(** * Cell types of Mint

    [mint/mesh/CellTypes.hpp]: the types of cells with their registered information, in
    particular which nodes of a cell form its faces.  The theorem says that the tables
    describe closed surfaces with consistent orientation. *)

From S2P Require Import Prelude.

Module MintCells.
#[local] Open Scope list_scope.

(** ** Definitions *)

Inductive CellType :=
  | UNDEFINED_CELL | VERTEX | SEGMENT | TRIANGLE | QUAD | TET | HEX | PRISM | PYRAMID | QUAD9 | HEX27.

#[export] Instance CellType_eq_dec : EqDecision CellType.
Proof. solve_decision. Defined.

Definition cellTypeToInt (type : CellType) : Z :=
  match type with
  | UNDEFINED_CELL => -1 | VERTEX => 0 | SEGMENT => 1 | TRIANGLE => 2 | QUAD => 3 | TET => 4 | HEX => 5
  | PRISM => 6 | PYRAMID => 7 | QUAD9 => 8 | HEX27 => 9
  end.

(** The entries of the arrays that are registered. *)
Record CellInfo := mkCellInfo {
  cell_type : CellType; name : string; blueprint_name : string; vtk_type : Z; num_nodes : Z; num_faces : Z;
  face_nodecount : list Z; face_types : list CellType; face_nodes : list Z }.

Definition VERTEX_INFO : CellInfo := mkCellInfo VERTEX "VERTEX" "point" 1 1 0 [0] [UNDEFINED_CELL] [0].

Definition SEGMENT_INFO : CellInfo := mkCellInfo SEGMENT "SEGMENT" "line" 3 2 0 [0] [UNDEFINED_CELL] [0; 1].

Definition TRIANGLE_INFO : CellInfo :=
  mkCellInfo TRIANGLE "TRIANGLE" "tri" 5 3 3 [2; 2; 2] [SEGMENT; SEGMENT; SEGMENT] [0; 1; 1; 2; 2; 0].

Definition QUAD_INFO : CellInfo :=
  mkCellInfo QUAD "QUAD" "quad" 9 4 4 [2; 2; 2; 2] [SEGMENT; SEGMENT; SEGMENT; SEGMENT] [0; 1; 1; 2; 2; 3; 3; 0].

Definition TET_INFO : CellInfo :=
  mkCellInfo TET "TET" "tet" 10 4 4 [3; 3; 3; 3] [TRIANGLE; TRIANGLE; TRIANGLE; TRIANGLE]
    [0; 2; 1; 0; 3; 2; 0; 1; 3; 1; 2; 3].

Definition HEX_INFO : CellInfo :=
  mkCellInfo HEX "HEX" "hex" 12 8 6 [4; 4; 4; 4; 4; 4] [QUAD; QUAD; QUAD; QUAD; QUAD; QUAD]
    [0; 3; 2; 1; 1; 2; 6; 5; 1; 5; 4; 0; 0; 4; 7; 3; 7; 6; 2; 3; 4; 5; 6; 7].

Definition PRISM_INFO : CellInfo :=
  mkCellInfo PRISM "PRISM" "prism-no-bp" 13 6 5 [3; 4; 4; 4; 3] [TRIANGLE; QUAD; QUAD; QUAD; TRIANGLE]
    [0; 1; 2; 0; 2; 5; 3; 0; 3; 4; 1; 1; 4; 5; 2; 3; 5; 4].

Definition PYRAMID_INFO : CellInfo :=
  mkCellInfo PYRAMID "PYRAMID" "pyramid-no-bp" 14 5 5 [4; 3; 3; 3; 3] [QUAD; TRIANGLE; TRIANGLE; TRIANGLE; TRIANGLE]
    [0; 3; 2; 1; 0; 1; 4; 1; 2; 4; 2; 3; 4; 3; 0; 4].

Definition QUAD9_INFO : CellInfo :=
  mkCellInfo QUAD9 "QUAD9" "quad9-no-bp" 28 9 4 [2; 2; 2; 2] [SEGMENT; SEGMENT; SEGMENT; SEGMENT] [0; 1; 1; 2; 2; 3; 3; 0].

Definition HEX27_INFO : CellInfo :=
  mkCellInfo HEX27 "HEX27" "hex27-no-bp" 29 27 6 [9; 9; 9; 9; 9; 9] [QUAD9; QUAD9; QUAD9; QUAD9; QUAD9; QUAD9]
    [0; 3; 2; 1; 11; 10; 9; 8; 24; 1; 2; 6; 5; 9; 18; 13; 17; 21; 1; 5; 4; 0; 17; 12; 16; 8; 22;
     0; 4; 7; 3; 16; 15; 19; 11; 20; 7; 6; 2; 3; 14; 18; 10; 19; 23; 4; 5; 6; 7; 12; 13; 14; 15; 25].

Definition cell_info : list CellInfo :=
  [VERTEX_INFO; SEGMENT_INFO; TRIANGLE_INFO; QUAD_INFO; TET_INFO; HEX_INFO; PRISM_INFO; PYRAMID_INFO; QUAD9_INFO; HEX27_INFO].

(** The undefined type is outside of the array. *)
Definition getCellInfo (type : CellType) : option CellInfo := cell_info.[cellTypeToInt type].

(** ** Faces of a cell *)

(** The local nodes of each face, as the loops over a cell read them. *)
Fixpoint split_faces (counts : list Z) (nodes : list Z) : list (list Z) :=
  match counts with
  | [] => []
  | n :: counts => take (Z.to_nat n) nodes :: split_faces counts (drop (Z.to_nat n) nodes)
  end.

Definition cell_faces (info : CellInfo) : list (list Z) :=
  split_faces (take (Z.to_nat (num_faces info)) (face_nodecount info)) (face_nodes info).

(** The corners of a face; the other nodes of quadratic faces follow them. *)
Definition corners (type : CellType) (face : list Z) : list Z := match type with QUAD9 => take 4 face | _ => face end.

(** The directed edges around a face. *)
Definition boundary (face : list Z) : list (Z * Z) :=
  match face with [] => [] | a :: l => zip face (l ++ [a]) end.

Definition all_edges (info : CellInfo) : list (Z * Z) :=
  mjoin (boundary <$> zip_with corners (face_types info) (cell_faces info)).

Definition solid (type : CellType) : bool :=
  match type with TET | HEX | PRISM | PYRAMID | HEX27 => true | _ => false end.

Definition types : list CellType := [VERTEX; SEGMENT; TRIANGLE; QUAD; TET; HEX; PRISM; PYRAMID; QUAD9; HEX27].

(** What the tables promise: as many faces and nodes as they say, each node one of the
    cell and listed once per face, faces of the registered type. *)
Definition info_ok (type : CellType) : Prop :=
  match getCellInfo type with
  | None => type = UNDEFINED_CELL
  | Some info =>
    cell_type info = type /\ Z.of_nat (length (cell_faces info)) = num_faces info /\
    Forall (fun f => NoDup f /\ Forall (fun n => 0 <= n < num_nodes info) f) (cell_faces info) /\
    Forall2 (fun t f => match getCellInfo t with Some i => Z.of_nat (length f) = num_nodes i | None => False end)
      (take (Z.to_nat (num_faces info)) (face_types info)) (cell_faces info)
  end.

Lemma cell_info_ok type : info_ok type.
Proof.
  unfold info_ok. destruct type; cbn; [done|..]; (split_and!; [done|done|apply (bool_decide_unpack _); by vm_compute|]);
    repeat first [apply Forall2_nil_2|apply Forall2_cons_2; [reflexivity|]].
Qed.

Lemma cell_info_small type info : getCellInfo type = Some info -> 0 < num_nodes info <= 27.
Proof. destruct type; cbn; [done|..]; intros [= <-]; cbn; lia. Qed.

(** The registered cells are well formed.  Each type has the entry of its own number,
    the faces of a cell consist of different nodes of the cell and have as many nodes as
    the cell type of the face; and the faces of each solid cell close up with one
    orientation: every edge is run through once in each direction. *)
Theorem cell_info_closed type :
  info_ok type /\
  (solid type = true -> exists info, getCellInfo type = Some info /\ NoDup (all_edges info) /\
    forall a b, (a, b) ∈ all_edges info -> a <> b /\ (b, a) ∈ all_edges info).
Proof.
  split; [apply cell_info_ok|]. intros Hs.
  assert (exists info, getCellInfo type = Some info) as [info Hi] by (destruct type; try discriminate Hs; by eexists). exists info. split; [done|].
  assert (NoDup (all_edges info) /\ Forall (fun e => e.1 <> e.2 /\ (e.2, e.1) ∈ all_edges info) (all_edges info)) as [Hnd Hall].
  { destruct type; try done; cbn in Hi; injection Hi as <-; (split; apply (bool_decide_unpack _); by vm_compute). }
  split; [done|]. intros a b Hab. rewrite Forall_forall in Hall. by apply (Hall (a, b)).
Qed.

Lemma cell_info_closed_witness : solid PRISM = true /\
  exists info, getCellInfo PRISM = Some info /\ NoDup (all_edges info) /\
    forall a b, (a, b) ∈ all_edges info -> a <> b /\ (b, a) ∈ all_edges info.
Proof. split; [reflexivity|]. apply (cell_info_closed PRISM). reflexivity. Defined.

End MintCells.
