(* ===== verification/MintStructured.v ===== *)
(** * Structured meshes of Mint

    [mint/mesh/StructuredMesh.hpp] and [StructuredMesh.cpp]: the numbering of the nodes,
    cells and faces of a grid with one to three dimensions.  The coordinates and fields of
    the mesh are not modelled.

    The arithmetic on [IndexType] wraps around, as it does on the machines the library
    runs on; [structuredInit] relies on this for meshes with fewer than three dimensions
    (see [offsets_overflow]).  Buffers that a function fills are its result. *)

From S2P Require Import Prelude Outcome MintCells.

Module MintStructured.
Import Outcome MintCells.
#[local] Open Scope list_scope.

(** ** State *)

Record Triple := mkTriple { t_i : Z; t_j : Z; t_k : Z }.

(** [MeshTypes.hpp]. *)
Inductive MeshType :=
  | UNDEFINED_MESH | UNSTRUCTURED_MESH | STRUCTURED_CURVILINEAR_MESH | STRUCTURED_RECTILINEAR_MESH | STRUCTURED_UNIFORM_MESH | PARTICLE_MESH.

Record StructuredMesh := mkStructured {
  m_ndims : Z; m_node_dims : Triple; m_node_jp : Z; m_node_kp : Z;
  m_cell_dims : Triple; m_cell_jp : Z; m_cell_kp : Z; m_cell_node_offsets : list Z;
  m_total_faces : Triple; m_total_IJ_faces : Z; m_num_I_faces_in_k_slice : Z; m_num_J_faces_in_k_slice : Z;
  m_num_edges : Z; m_node_extent : list Z }.

Section structured.
Context {IB : IndexBits}.

(** The value of an expression of type [IndexType]. *)
Definition ixw (z : Z) : Z := (z + 2 ^ (index_bits - 1)) mod 2 ^ index_bits - 2 ^ (index_bits - 1).

(** ** Construction *)

Definition validStructuredMeshType (type : MeshType) : bool := match type with STRUCTURED_CURVILINEAR_MESH | STRUCTURED_RECTILINEAR_MESH | STRUCTURED_UNIFORM_MESH => true | _ => false end.

Definition dim (Ni Nj Nk : Z) : Z := if 1 <=? Nk then 3 else if 1 <=? Nj then 2 else 1.

(** [structuredInit] without the fields; the extents are checked before. *)
Definition structuredInit (ndims : Z) (n : Triple) : StructuredMesh :=
  let node_jp := if 1 <? ndims then t_i n else index_max in
  let node_kp := if 2 <? ndims then ixw (node_jp * t_j n) else index_max in
  let c := mkTriple (ixw (t_i n - 1)) (if 1 <? ndims then ixw (t_j n - 1) else 0) (if 2 <? ndims then ixw (t_k n - 1) else 0) in
  let cell_jp := if 1 <? ndims then t_i c else index_max in
  let cell_kp := if 2 <? ndims then ixw (cell_jp * t_j c) else index_max in
  let offsets := [0; 1; ixw (1 + node_jp); node_jp; node_kp; ixw (1 + node_kp); ixw (1 + node_jp + node_kp); ixw (node_jp + node_kp)] in
  let faces :=
    if ndims =? 2 then mkTriple (ixw (t_i n * t_j c)) (ixw (t_i c * t_j n)) 0
    else if ndims =? 3 then mkTriple (ixw (t_i n * t_j c * t_k c)) (ixw (t_i c * t_j n * t_k c)) (ixw (t_i c * t_j c * t_k n))
    else mkTriple 0 0 0 in
  let edges :=
    if ndims =? 3 then ixw (t_i c * t_j n * t_k n + t_i c * t_k n * t_j n + t_j c * t_k n * t_i n) else 0 in
  mkStructured ndims n node_jp node_kp c cell_jp cell_kp offsets faces (ixw (t_i faces + t_j faces))
    (ixw (t_i n * t_j c)) (ixw (t_i c * t_j n)) edges [0; 0; 0; 0; 0; 0].

(** The errors end the process. *)
Definition StructuredMesh_make (meshType : MeshType) (Ni Nj Nk : Z) : outcome StructuredMesh :=
  let ndims := dim Ni Nj Nk in
  if negb (validStructuredMeshType meshType) then Aborted
  else if Ni <=? 1 then Aborted
  else if (1 <? ndims) && (Nj <=? 1) then Aborted
  else if (2 <? ndims) && (Nk <=? 1) then Aborted
  else Done (structuredInit ndims (mkTriple Ni (if 1 <? ndims then Nj else 0) (if 2 <? ndims then Nk else 0))).

(** [setExtent] copies the bounds of the first [ndims] directions; [None] is an array that
    is too short, or more than three directions. *)
Definition setExtent (m : StructuredMesh) (ndims : Z) (extent : list Z) : option StructuredMesh :=
  let n := (2 * Z.to_nat ndims)%nat in
  if (3 <? ndims) || (Z.of_nat (length extent) <? Z.of_nat n) then None
  else Some (mkStructured (m_ndims m) (m_node_dims m) (m_node_jp m) (m_node_kp m) (m_cell_dims m) (m_cell_jp m) (m_cell_kp m)
    (m_cell_node_offsets m) (m_total_faces m) (m_total_IJ_faces m) (m_num_I_faces_in_k_slice m) (m_num_J_faces_in_k_slice m)
    (m_num_edges m) (take n extent ++ replicate (6 - n) 0)).

(** ** Queries *)

Implicit Types (m : StructuredMesh).

(** Only the first three directions can be asked for. *)
Definition t_get (t : Triple) (direction : Z) : option Z :=
  if direction =? 0 then Some (t_i t) else if direction =? 1 then Some (t_j t) else if direction =? 2 then Some (t_k t) else None.

Definition getNodeResolution m (direction : Z) : option Z := t_get (m_node_dims m) direction.
Definition getCellResolution m (direction : Z) : option Z := t_get (m_cell_dims m) direction.
Definition getTotalNumFaces m (direction : Z) : option Z := t_get (m_total_faces m) direction.

(** The product of the first [m_ndims] extents. *)
Definition extent_product (ndims : Z) (t : Triple) : Z :=
  ixw (ixw (t_i t * (if 1 <? ndims then t_j t else 1)) * (if 2 <? ndims then t_k t else 1)).

Definition getNumberOfCells m : Z := extent_product (m_ndims m) (m_cell_dims m).
Definition getNumberOfNodes m : Z := extent_product (m_ndims m) (m_node_dims m).
Definition getNumberOfFaces m : Z := ixw (m_total_IJ_faces m + t_k (m_total_faces m)).
Definition getNumberOfEdges m : Z := m_num_edges m.

Definition getCellType m : CellType := if m_ndims m =? 1 then SEGMENT else if m_ndims m =? 2 then QUAD else HEX.
Definition getNumberOfCellNodes m : Z := if m_ndims m =? 1 then 2 else if m_ndims m =? 2 then 4 else 8.
Definition getNumberOfCellFaces m : option Z := num_faces <$> getCellInfo (getCellType m).
Definition getFaceType m : CellType := if m_ndims m =? 2 then SEGMENT else if m_ndims m =? 3 then QUAD else UNDEFINED_CELL.
Definition getNumberOfFaceNodes m : Z := if m_ndims m =? 2 then 2 else if m_ndims m =? 3 then 4 else 0.

(** ** Indices *)

Definition nodeJp m : Z := m_node_jp m.
Definition nodeKp m : Z := m_node_kp m.
Definition cellJp m : Z := m_cell_jp m.
Definition cellKp m : Z := m_cell_kp m.

Definition getNodeLinearIndex m (i j k : Z) : Z := ixw (i + j * nodeJp m + k * nodeKp m).
Definition getCellLinearIndex m (i j k : Z) : Z := ixw (i + j * cellJp m + k * cellKp m).

Definition getNodeGridIndex m (nodeID : Z) : Z * Z * Z :=
  let k := nodeID `quot` nodeKp m in
  let temp := ixw (nodeID - k * nodeKp m) in
  let j := temp `quot` nodeJp m in
  (ixw (temp - j * nodeJp m), j, k).

Definition getNodeGridIndex2 m (nodeID : Z) : Z * Z :=
  let j := nodeID `quot` nodeJp m in (ixw (nodeID - j * nodeJp m), j).

Definition getCellGridIndex m (cellID : Z) : Z * Z * Z :=
  let k := cellID `quot` cellKp m in
  let rest := ixw (cellID - k * cellKp m) in
  let j := rest `quot` cellJp m in
  (ixw (rest - j * cellJp m), j, k).

Definition getCellGridIndex2 m (cellID : Z) : Z * Z := (cellID `rem` cellJp m, cellID `quot` cellJp m).

Definition getIFaceLinearIndex m (i j k : Z) : Z := ixw (i + j * t_i (m_node_dims m) + k * m_num_I_faces_in_k_slice m).
Definition getJFaceLinearIndex m (i j k : Z) : Z :=
  ixw (t_i (m_total_faces m) + i + j * t_i (m_cell_dims m) + k * m_num_J_faces_in_k_slice m).
Definition getKFaceLinearIndex m (i j k : Z) : Z := ixw (m_total_IJ_faces m + i + j * t_i (m_cell_dims m) + k * cellKp m).

Definition getFaceLinearIndex m (dir i j k : Z) : Z :=
  if dir =? 0 then getIFaceLinearIndex m i j k
  else if dir =? 1 then getJFaceLinearIndex m i j k else getKFaceLinearIndex m i j k.

Definition shiftJFaceID m (faceID : Z) : Z := ixw (faceID - t_i (m_total_faces m)).
Definition shiftKFaceID m (faceID : Z) : Z := ixw (faceID - t_i (m_total_faces m) - t_j (m_total_faces m)).
Definition getIFaceKIndex m (faceID : Z) : Z := faceID `quot` m_num_I_faces_in_k_slice m.
Definition getJFaceKIndex m (shiftedID : Z) : Z := shiftedID `quot` m_num_J_faces_in_k_slice m.
Definition getJFaceJIndex m (shiftedID k : Z) : Z :=
  ixw (shiftedID - m_num_J_faces_in_k_slice m * k) `quot` t_i (m_cell_dims m).
Definition getKFaceKIndex m (shiftedID : Z) : Z := shiftedID `quot` cellKp m.
Definition getKFaceJIndex m (shiftedID k : Z) : Z := ixw (shiftedID - cellKp m * k) `quot` cellJp m.

Definition getIFaceGridIndex m (faceID : Z) : Z * Z * Z :=
  let k := getIFaceKIndex m faceID in
  let rest := ixw (m_num_I_faces_in_k_slice m * k) in
  let j := ixw (faceID - rest) `quot` t_i (m_node_dims m) in
  (ixw (faceID - t_i (m_node_dims m) * j - rest), j, k).

Definition getJFaceGridIndex m (faceID : Z) : Z * Z * Z :=
  let shiftedID := shiftJFaceID m faceID in
  let k := getJFaceKIndex m shiftedID in
  let j := getJFaceJIndex m shiftedID k in
  (ixw (shiftedID - j * t_i (m_cell_dims m) - k * m_num_J_faces_in_k_slice m), j, k).

Definition getKFaceGridIndex m (faceID : Z) : Z * Z * Z :=
  let shiftedID := shiftKFaceID m faceID in
  let k := getKFaceKIndex m shiftedID in
  let j := getKFaceJIndex m shiftedID k in
  (ixw (shiftedID - cellJp m * j - cellKp m * k), j, k).

(** The versions for two dimensions. *)
Definition getIFaceGridIndex2 m (faceID : Z) : Z * Z :=
  let j := faceID `quot` t_i (m_node_dims m) in (ixw (faceID - t_i (m_node_dims m) * j), j).

Definition getJFaceGridIndex2 m (faceID : Z) : Z * Z :=
  let shiftedID := shiftJFaceID m faceID in
  let j := shiftedID `quot` t_i (m_cell_dims m) in (ixw (shiftedID - t_i (m_cell_dims m) * j), j).

(** ** Nodes and faces of cells *)

Definition offset m (i : Z) : Z := default 0 (m_cell_node_offsets m).[i].

Definition getCellNodeIDs_ijk m (i j k : Z) : list Z :=
  let n0 := getNodeLinearIndex m i j k in
  (fun off => ixw (n0 + off)) <$> take (Z.to_nat (getNumberOfCellNodes m)) (m_cell_node_offsets m).

Definition getCellNodeIDs m (cellID : Z) : list Z := let '(i, j, k) := getCellGridIndex m cellID in getCellNodeIDs_ijk m i j k.

Definition getCellFaceIDsInternal2 m (cellID j : Z) : list Z :=
  let f0 := ixw (cellID + j) in
  let f2 := ixw (cellID + t_i (m_total_faces m)) in
  [f0; ixw (f0 + 1); f2; ixw (f2 + t_i (m_cell_dims m))].

Definition getCellFaceIDsInternal3 m (cellID j k : Z) : list Z :=
  let f0 := ixw (cellID + j + t_j (m_cell_dims m) * k) in
  let f2 := ixw (cellID + t_i (m_total_faces m) + t_i (m_cell_dims m) * k) in
  let f4 := ixw (cellID + m_total_IJ_faces m) in
  [f0; ixw (f0 + 1); f2; ixw (f2 + t_i (m_cell_dims m)); f4; ixw (f4 + cellKp m)].

Definition getCellFaceIDs_ij m (i j : Z) : list Z := getCellFaceIDsInternal2 m (getCellLinearIndex m i j 0) j.
Definition getCellFaceIDs_ijk m (i j k : Z) : list Z := getCellFaceIDsInternal3 m (getCellLinearIndex m i j k) j k.

Definition getCellFaceIDs m (cellID : Z) : list Z :=
  if m_ndims m =? 2 then getCellFaceIDsInternal2 m cellID (cellID `quot` cellJp m)
  else if m_ndims m =? 3 then
    let k := cellID `quot` cellKp m in
    getCellFaceIDsInternal3 m cellID (ixw (cellID - k * cellKp m) `quot` cellJp m) k
  else [].

(** ** Nodes and cells of faces *)

Definition getIFaceNodeIDs m (faceID : Z) : list Z :=
  if m_ndims m =? 2 then [faceID; ixw (faceID + offset m 3)]
  else if m_ndims m =? 3 then
    let n0 := ixw (faceID + t_i (m_node_dims m) * getIFaceKIndex m faceID) in
    [n0; ixw (n0 + offset m 4); ixw (n0 + offset m 7); ixw (n0 + offset m 3)]
  else [].

Definition getJFaceNodeIDs m (faceID : Z) : list Z :=
  let shiftedID := shiftJFaceID m faceID in
  if m_ndims m =? 2 then
    let n0 := ixw (shiftedID + getJFaceJIndex m shiftedID 0) in [n0; ixw (n0 + 1)]
  else
    let k := getJFaceKIndex m shiftedID in
    let j := getJFaceJIndex m shiftedID k in
    let n0 := ixw (shiftedID + j + t_j (m_node_dims m) * k) in
    [n0; ixw (n0 + 1); ixw (n0 + offset m 5); ixw (n0 + offset m 4)].

Definition getKFaceNodeIDs m (faceID : Z) : list Z :=
  let shiftedID := shiftKFaceID m faceID in
  let k := getKFaceKIndex m shiftedID in
  let j := getKFaceJIndex m shiftedID k in
  let n0 := ixw (shiftedID + j + (t_i (m_cell_dims m) + t_j (m_cell_dims m) + 1) * k) in
  [n0; ixw (n0 + 1); ixw (n0 + offset m 2); ixw (n0 + offset m 3)].

Definition getFaceNodeIDs m (faceID : Z) : list Z :=
  if faceID <? t_i (m_total_faces m) then getIFaceNodeIDs m faceID
  else if faceID <? m_total_IJ_faces m then getJFaceNodeIDs m faceID else getKFaceNodeIDs m faceID.

(** The two cells of a face; -1 where the face is at the boundary. *)
Definition face_cells (one two index last : Z) : Z * Z :=
  if index =? 0 then (two, -1) else if index =? last then (one, -1) else (one, two).

Definition getIFaceCellIDs m (faceID : Z) : Z * Z :=
  let '(i, j, k) := getIFaceGridIndex m faceID in
  face_cells (getCellLinearIndex m (i - 1) j k) (getCellLinearIndex m i j k) i (t_i (m_cell_dims m)).

Definition getJFaceCellIDs m (faceID : Z) : Z * Z :=
  let '(i, j, k) := getJFaceGridIndex m faceID in
  face_cells (getCellLinearIndex m i (j - 1) k) (getCellLinearIndex m i j k) j (t_j (m_cell_dims m)).

Definition getKFaceCellIDs m (faceID : Z) : Z * Z :=
  let '(i, j, k) := getKFaceGridIndex m faceID in
  face_cells (getCellLinearIndex m i j (k - 1)) (getCellLinearIndex m i j k) k (t_k (m_cell_dims m)).

Definition getFaceCellIDs m (faceID : Z) : Z * Z :=
  if faceID <? t_i (m_total_faces m) then getIFaceCellIDs m faceID
  else if faceID <? m_total_IJ_faces m then getJFaceCellIDs m faceID else getKFaceCellIDs m faceID.

End structured.
End MintStructured.
