(* ===== verification/MintStructuredTheorems.v ===== *)
(** * Theorems on structured meshes

    The numbers of cells, nodes and faces correspond to their places in the grid, and the
    relations between cells, faces and nodes that are computed from the numbers are those
    of the grid. *)

From S2P Require Import Prelude Outcome MintCells MintStructured.

Module MintStructuredTheorems.
Import Outcome MintCells MintStructured.
#[local] Open Scope list_scope.

(** ** Numbers with three digits *)

Definition join3 (a b i j k : Z) : Z := i + j * a + k * (a * b).

(** [P] is the number of places in a slice; with one slice it may be larger. *)
Definition slice (a b K P : Z) : Prop := P = a * b \/ K = 1 /\ a * b <= P.

Lemma join3_bound a b K i j k : 0 <= i < a -> 0 <= j < b -> 0 <= k < K -> 0 <= join3 a b i j k < a * b * K.
Proof.
  intros Hi Hj Hk. unfold join3. assert (0 <= i + j * a < a * b) by nia. assert (k * (a * b) + a * b <= a * b * K) by nia. nia.
Qed.

Lemma join3_split a b K x : 0 < a -> 0 < b -> 0 <= x < a * b * K ->
  exists i j k, x = join3 a b i j k /\ 0 <= i < a /\ 0 <= j < b /\ 0 <= k < K.
Proof.
  intros Ha Hb Hx. assert (0 < a * b) as Hab by nia. pose proof (Z.div_mod x (a * b) ltac:(lia)) as H1. pose proof (Z.mod_pos_bound x (a * b) Hab) as H2.
  set (k := x / (a * b)) in *. set (r := x mod (a * b)) in *. pose proof (Z.div_mod r a ltac:(lia)) as H3. pose proof (Z.mod_pos_bound r a Ha) as H4.
  exists (r mod a), (r / a), k. unfold join3. split_and!; [lia|lia|lia|apply Z.div_pos; lia|apply Z.div_lt_upper_bound; lia| |].
  - apply Z.div_pos; lia.
  - apply Z.div_lt_upper_bound; lia.
Qed.

(** How the code takes a number apart. *)
Lemma join3_quot a b K P i j k : 0 <= i < a -> 0 <= j < b -> 0 <= k < K -> slice a b K P ->
  join3 a b i j k `quot` P = k /\ k * P = k * (a * b) /\ (join3 a b i j k - k * P) `quot` a = j /\
  0 <= join3 a b i j k - k * P < a * b /\ join3 a b i j k - k * P - j * a = i.
Proof.
  intros Hi Hj Hk HP. assert (0 <= i + j * a < a * b) as Hr by nia. pose proof (join3_bound a b K i j k Hi Hj Hk) as Hb.
  assert (k * P = k * (a * b)) as Hkp by (destruct HP as [->|[-> _]]; [done|]; replace k with 0 by lia; lia).
  split_and!; [|done| |unfold join3; lia..].
  - rewrite Z.quot_div_nonneg by (destruct HP as [->|[-> ?]]; lia). symmetry. apply (Z.div_unique _ _ _ (i + j * a)); [left|].
    + destruct HP as [->|[-> ?]]; lia.
    + unfold join3. lia.
  - rewrite Hkp. unfold join3. replace (i + j * a + k * (a * b) - k * (a * b)) with (i + j * a) by lia.
    rewrite Z.quot_div_nonneg by lia. symmetry. apply (Z.div_unique _ _ _ i); lia.
Qed.

Lemma join3_inj a b K i j k i' j' k' : 0 <= i < a -> 0 <= j < b -> 0 <= k < K -> 0 <= i' < a -> 0 <= j' < b -> 0 <= k' < K ->
  join3 a b i j k = join3 a b i' j' k' -> i = i' /\ j = j' /\ k = k'.
Proof.
  intros Hi Hj Hk Hi' Hj' Hk' He. assert (slice a b K (a * b)) as HP by (by left).
  destruct (join3_quot a b K (a * b) i j k) as (H1 & _ & H2 & _); [done..|]. destruct (join3_quot a b K (a * b) i' j' k') as (H1' & _ & H2' & _); [done..|].
  rewrite He in H1, H2. assert (k = k') by congruence. subst k'. assert (j = j') by congruence. subst j'. unfold join3 in He. lia.
Qed.

Section grid.
Context {IB : IndexBits}.

Lemma ixw_id z : - index_max - 1 <= z <= index_max -> ixw z = z.
Proof.
  unfold ixw, index_max. intros Hz. assert (2 ^ index_bits = 2 * 2 ^ (index_bits - 1)) as Hp.
  { destruct index_bits_ok as [-> | ->]; done. }
  rewrite Z.mod_small by lia. lia.
Qed.

(** ** A grid of [A] times [B] times [K] cells

    A mesh with two dimensions has one layer of cells. *)

Context (d A B K : Z).

Definition N_I : Z := (A + 1) * B * K.
Definition N_J : Z := A * (B + 1) * K.
Definition N_K : Z := if d =? 3 then A * B * (K + 1) else 0.

Record grid_ok : Prop := {
  gr_dim : d = 2 /\ K = 1 \/ d = 3;
  gr_A : 1 <= A; gr_B : 1 <= B; gr_K : 1 <= K;
  gr_nodes : (A + 1) * (B + 1) * (if d =? 3 then K + 1 else 1) < index_max;
  gr_faces : N_I + N_J + N_K < index_max }.

Definition mesh : StructuredMesh := structuredInit d (mkTriple (A + 1) (B + 1) (if d =? 3 then K + 1 else 0)).

(** What [structuredInit] computes. *)
Record mesh_facts (m : StructuredMesh) : Prop := {
  mf_dim : m_ndims m = d;
  mf_nodes : m_node_dims m = mkTriple (A + 1) (B + 1) (if d =? 3 then K + 1 else 0);
  mf_cells : m_cell_dims m = mkTriple A B (if d =? 3 then K else 0);
  mf_node_jp : m_node_jp m = A + 1;
  mf_node_kp : slice (A + 1) (B + 1) (if d =? 3 then K + 1 else 1) (m_node_kp m);
  mf_cell_jp : m_cell_jp m = A;
  mf_cell_kp : slice A B K (m_cell_kp m);
  mf_faces : m_total_faces m = mkTriple N_I N_J N_K;
  mf_IJ : m_total_IJ_faces m = N_I + N_J;
  mf_slice_I : m_num_I_faces_in_k_slice m = (A + 1) * B;
  mf_slice_J : m_num_J_faces_in_k_slice m = A * (B + 1);
  mf_offsets : take 4 (m_cell_node_offsets m) = [0; 1; A + 2; A + 1];
  mf_offsets3 : d = 3 -> m_cell_node_offsets m = [0; 1; A + 2; A + 1; (A + 1) * (B + 1); 1 + (A + 1) * (B + 1);
    A + 2 + (A + 1) * (B + 1); A + 1 + (A + 1) * (B + 1)];
  mf_kp3 : d = 3 -> m_cell_kp m = A * B /\ m_node_kp m = (A + 1) * (B + 1) }.

Lemma mesh_ok : grid_ok -> mesh_facts mesh.
Proof.
  intros [Hd HA HB HK Hn Hf]. unfold mesh, structuredInit, N_I, N_J, N_K in *. cbn [t_i t_j t_k].
  assert (1 <= B * K) by nia. assert (1 <= A * K) by nia. assert (1 <= A * B) by nia. assert (A * B <= A * B * K) by nia.
  destruct Hd as [[Hd HK1]|Hd]; rewrite Hd, ?HK1 in *; cbn -[ixw Z.mul Z.add] in Hn, Hf |- *.
  - rewrite !(ixw_id (A + 1 - 1)), !(ixw_id (B + 1 - 1)) by lia. rewrite !Z.add_simpl_r.
    rewrite !(ixw_id ((A + 1) * B)), !(ixw_id (A * (B + 1))) by nia. rewrite (ixw_id ((A + 1) * B + A * (B + 1))) by nia. rewrite (ixw_id (1 + (A + 1))) by nia.
    replace (1 + (A + 1)) with (A + 2) by lia. constructor; cbn -[Z.mul Z.add]; unfold slice, N_I, N_J, N_K; rewrite ?Hd, ?HK1, ?Z.mul_1_r; cbn -[Z.mul Z.add]; try done; right; nia.
  - rewrite !(ixw_id (A + 1 - 1)), !(ixw_id (B + 1 - 1)), !(ixw_id (K + 1 - 1)) by nia. rewrite !Z.add_simpl_r.
    rewrite !(ixw_id ((A + 1) * (B + 1))), !(ixw_id (A * B)) by nia.
    rewrite !(ixw_id ((A + 1) * B * K)), !(ixw_id (A * (B + 1) * K)), !(ixw_id (A * B * (K + 1))) by nia.
    rewrite !(ixw_id ((A + 1) * B)), !(ixw_id (A * (B + 1))) by nia. rewrite (ixw_id ((A + 1) * B * K + A * (B + 1) * K)) by nia.
    rewrite (ixw_id (1 + (A + 1))), (ixw_id (1 + (A + 1) * (B + 1))), (ixw_id (1 + (A + 1) + (A + 1) * (B + 1))), (ixw_id (A + 1 + (A + 1) * (B + 1))) by nia.
    replace (1 + (A + 1)) with (A + 2) by lia. constructor; cbn -[Z.mul Z.add]; unfold slice, N_I, N_J, N_K; rewrite ?Hd; cbn -[Z.mul Z.add]; try done; by left.
Qed.

(** ** Numbers of places *)

Definition KN : Z := if d =? 3 then K + 1 else 1.

Definition cell (i j k : Z) : Z := join3 A B i j k.
Definition node (i j k : Z) : Z := join3 (A + 1) (B + 1) i j k.
Definition IF (i j k : Z) : Z := join3 (A + 1) B i j k.
Definition JF (i j k : Z) : Z := N_I + join3 A (B + 1) i j k.
Definition KF (i j k : Z) : Z := N_I + N_J + join3 A B i j k.

Definition box (a b c i j k : Z) : Prop := 0 <= i < a /\ 0 <= j < b /\ 0 <= k < c.

Lemma totals : grid_ok ->
  0 < A * B * K /\ A * B * K <= N_I /\ 0 < N_I /\ 0 < N_J /\ 0 <= N_K /\ N_I + N_J + N_K < index_max /\
  (A + 1) * (B + 1) * KN < index_max /\ A * B < index_max /\ (A + 1) * (B + 1) < index_max /\ A + 1 < index_max /\ B + 1 < index_max.
Proof.
  intros [Hd HA HB HK Hn Hf]. unfold N_I, N_J, N_K, KN in *. assert (1 <= A * B) by nia. assert (1 <= B * K) by nia. assert (1 <= A * K) by nia.
  destruct (d =? 3); split_and!; nia.
Qed.

Context (m : StructuredMesh) (Hg : grid_ok) (Hm : mesh_facts m).

Lemma cell_bound i j k : box A B K i j k -> 0 <= cell i j k < A * B * K.
Proof using Type. intros (? & ? & ?). by apply join3_bound. Qed.

Lemma node_bound i j k : box (A + 1) (B + 1) KN i j k -> 0 <= node i j k < (A + 1) * (B + 1) * KN.
Proof using Type. intros (? & ? & ?). by apply join3_bound. Qed.

Lemma IF_bound i j k : box (A + 1) B K i j k -> 0 <= IF i j k < N_I.
Proof using Type. intros (? & ? & ?). by apply join3_bound. Qed.

Lemma JF_bound i j k : box A (B + 1) K i j k -> N_I <= JF i j k < N_I + N_J.
Proof using Type. intros (? & ? & ?). unfold JF, N_J. pose proof (join3_bound A (B + 1) K i j k). lia. Qed.

Lemma KF_bound i j k : d = 3 -> box A B (K + 1) i j k -> N_I + N_J <= KF i j k < N_I + N_J + N_K.
Proof using Type. intros Hd (? & ? & ?). unfold KF, N_K. rewrite Hd. cbn [Z.eqb Pos.eqb]. pose proof (join3_bound A B (K + 1) i j k). lia. Qed.

Lemma slice_mul a b c P k : slice a b c P -> 0 <= k < c -> k * P = k * (a * b).
Proof using Type. intros [->|[-> _]] Hk; [done|]. replace k with 0 by lia. lia. Qed.

Lemma cell_linear i j k : box A B K i j k -> getCellLinearIndex m i j k = cell i j k.
Proof using Hg Hm.
  intros Hb. pose proof (totals Hg) as Htot. pose proof (cell_bound i j k Hb). unfold getCellLinearIndex, cellJp, cellKp.
  rewrite (mf_cell_jp _ Hm), (slice_mul A B K (m_cell_kp m) k) by (apply Hm || apply Hb). apply ixw_id. unfold cell, join3 in *. lia.
Qed.

Lemma node_linear i j k : box (A + 1) (B + 1) KN i j k -> getNodeLinearIndex m i j k = node i j k.
Proof using Hg Hm.
  intros Hb. pose proof (totals Hg) as Htot. pose proof (node_bound i j k Hb). unfold getNodeLinearIndex, nodeJp, nodeKp.
  rewrite (mf_node_jp _ Hm), (slice_mul (A + 1) (B + 1) KN (m_node_kp m) k) by (apply Hm || apply Hb). apply ixw_id. unfold node, join3 in *. lia.
Qed.

Lemma IF_linear i j k : box (A + 1) B K i j k -> getIFaceLinearIndex m i j k = IF i j k.
Proof using Hg Hm.
  intros Hb. pose proof (totals Hg) as Htot. pose proof (IF_bound i j k Hb). unfold getIFaceLinearIndex.
  rewrite (mf_nodes _ Hm), (mf_slice_I _ Hm). cbn [t_i]. apply ixw_id. unfold IF, join3 in *. lia.
Qed.

Lemma JF_linear i j k : box A (B + 1) K i j k -> getJFaceLinearIndex m i j k = JF i j k.
Proof using Hg Hm.
  intros Hb. pose proof (totals Hg) as Htot. pose proof (JF_bound i j k Hb). unfold getJFaceLinearIndex.
  rewrite (mf_faces _ Hm), (mf_cells _ Hm), (mf_slice_J _ Hm). cbn [t_i]. rewrite ixw_id; unfold JF, join3 in *; lia.
Qed.

Lemma KF_linear i j k : d = 3 -> box A B (K + 1) i j k -> getKFaceLinearIndex m i j k = KF i j k.
Proof using Hg Hm.
  intros Hd Hb. pose proof (totals Hg) as Htot. pose proof (KF_bound i j k Hd Hb). unfold getKFaceLinearIndex, cellKp.
  rewrite (mf_IJ _ Hm), (mf_cells _ Hm), (proj1 (mf_kp3 _ Hm Hd)). cbn [t_i]. rewrite ixw_id; unfold KF, join3 in *; lia.
Qed.

(** Taking numbers apart again. *)
Lemma cell_grid i j k : box A B K i j k -> getCellGridIndex m (cell i j k) = (i, j, k).
Proof using Hg Hm.
  intros Hb. pose proof (totals Hg) as Htot. destruct Hb as (Hi & Hj & Hk). unfold getCellGridIndex, cellJp, cellKp. rewrite (mf_cell_jp _ Hm).
  destruct (join3_quot A B K (m_cell_kp m) i j k) as (H1 & H2 & H3 & H4 & H5); [done..|apply Hm|]. unfold cell. rewrite H1, (ixw_id (join3 A B i j k - k * m_cell_kp m)), H3 by lia.
  by rewrite H5, ixw_id by lia.
Qed.

Lemma node_grid i j k : box (A + 1) (B + 1) KN i j k -> getNodeGridIndex m (node i j k) = (i, j, k).
Proof using Hg Hm.
  intros Hb. pose proof (totals Hg) as Htot. destruct Hb as (Hi & Hj & Hk). unfold getNodeGridIndex, nodeJp, nodeKp. rewrite (mf_node_jp _ Hm).
  destruct (join3_quot (A + 1) (B + 1) KN (m_node_kp m) i j k) as (H1 & H2 & H3 & H4 & H5); [done..|apply Hm|]. unfold node. rewrite H1, (ixw_id (join3 (A + 1) (B + 1) i j k - k * m_node_kp m)), H3 by lia.
  by rewrite H5, ixw_id by lia.
Qed.

Lemma IF_grid i j k : box (A + 1) B K i j k -> getIFaceGridIndex m (IF i j k) = (i, j, k).
Proof using Hg Hm.
  intros Hb. pose proof (totals Hg) as Htot. pose proof (IF_bound i j k Hb) as Hbd. destruct Hb as (Hi & Hj & Hk). unfold getIFaceGridIndex, getIFaceKIndex.
  rewrite (mf_slice_I _ Hm), (mf_nodes _ Hm). cbn [t_i].
  destruct (join3_quot (A + 1) B K ((A + 1) * B) i j k) as (H1 & H2 & H3 & H4 & H5); [done..|by left|]. unfold IF in *. rewrite H1.
  assert (0 <= k * ((A + 1) * B)) by (pose proof (gr_A Hg); pose proof (gr_B Hg); nia).
  rewrite (ixw_id ((A + 1) * B * k)), (Z.mul_comm ((A + 1) * B) k), (ixw_id (join3 (A + 1) B i j k - k * ((A + 1) * B))), H3 by lia.
  replace (join3 (A + 1) B i j k - (A + 1) * j - k * ((A + 1) * B)) with i by lia. by rewrite ixw_id by lia.
Qed.

Lemma JF_shift i j k : box A (B + 1) K i j k -> shiftJFaceID m (JF i j k) = join3 A (B + 1) i j k /\
  getJFaceKIndex m (join3 A (B + 1) i j k) = k /\ getJFaceJIndex m (join3 A (B + 1) i j k) k = j.
Proof using Hg Hm.
  intros Hb. pose proof (totals Hg) as Htot. pose proof (JF_bound i j k Hb) as Hbd. destruct Hb as (Hi & Hj & Hk). unfold shiftJFaceID, getJFaceKIndex, getJFaceJIndex.
  rewrite (mf_slice_J _ Hm), (mf_cells _ Hm), (mf_faces _ Hm). cbn [t_i].
  destruct (join3_quot A (B + 1) K (A * (B + 1)) i j k) as (H1 & H2 & H3 & H4 & H5); [done..|by left|]. unfold JF in *.
  split_and!; [rewrite ixw_id; lia|done|]. rewrite (Z.mul_comm (A * (B + 1)) k), ixw_id by lia. done.
Qed.

Lemma JF_grid i j k : box A (B + 1) K i j k -> getJFaceGridIndex m (JF i j k) = (i, j, k).
Proof using Hg Hm.
  intros Hb. pose proof (totals Hg) as Htot. destruct (JF_shift i j k Hb) as (H1 & H2 & H3). pose proof (JF_bound i j k Hb) as Hbd. unfold JF in Hbd. unfold getJFaceGridIndex.
  rewrite H1, H2, H3, (mf_slice_J _ Hm), (mf_cells _ Hm). cbn [t_i]. destruct Hb as (Hi & Hj & Hk).
  replace (join3 A (B + 1) i j k - j * A - k * (A * (B + 1))) with i by (unfold join3; lia). by rewrite ixw_id by lia.
Qed.

Lemma KF_shift i j k : d = 3 -> box A B (K + 1) i j k -> shiftKFaceID m (KF i j k) = join3 A B i j k /\
  getKFaceKIndex m (join3 A B i j k) = k /\ getKFaceJIndex m (join3 A B i j k) k = j.
Proof using Hg Hm.
  intros Hd Hb. pose proof (totals Hg) as Htot. pose proof (KF_bound i j k Hd Hb) as Hbd. destruct Hb as (Hi & Hj & Hk). unfold shiftKFaceID, getKFaceKIndex, getKFaceJIndex, cellKp, cellJp.
  rewrite (mf_cell_jp _ Hm), (proj1 (mf_kp3 _ Hm Hd)), (mf_faces _ Hm). cbn [t_i t_j].
  destruct (join3_quot A B (K + 1) (A * B) i j k) as (H1 & H2 & H3 & H4 & H5); [done..|by left|]. unfold KF in *.
  split_and!; [rewrite ixw_id; lia|done|]. rewrite (Z.mul_comm (A * B) k), ixw_id by lia. done.
Qed.

Lemma KF_grid i j k : d = 3 -> box A B (K + 1) i j k -> getKFaceGridIndex m (KF i j k) = (i, j, k).
Proof using Hg Hm.
  intros Hd Hb. pose proof (totals Hg) as Htot. destruct (KF_shift i j k Hd Hb) as (H1 & H2 & H3). pose proof (KF_bound i j k Hd Hb) as Hbd. unfold KF in Hbd. unfold getKFaceGridIndex, cellJp, cellKp.
  rewrite H1, H2, H3, (mf_cell_jp _ Hm), (proj1 (mf_kp3 _ Hm Hd)). destruct Hb as (Hi & Hj & Hk).
  replace (join3 A B i j k - A * j - A * B * k) with i by (unfold join3; lia). by rewrite ixw_id by lia.
Qed.

(** ** Faces of cells *)

Lemma dim_cases : d = 2 /\ K = 1 \/ d = 3.
Proof using Hg. apply Hg. Qed.

Definition faces_at (i j k : Z) : list Z :=
  [IF i j k; IF (i + 1) j k; JF i j k; JF i (j + 1) k] ++ if d =? 3 then [KF i j k; KF i j (k + 1)] else [].

Lemma faces_of_cell i j k : box A B K i j k -> getCellFaceIDs m (cell i j k) = faces_at i j k.
Proof using Hg Hm.
  intros Hb. pose proof (totals Hg) as Htot. pose proof Hb as (Hi & Hj & Hk).
  pose proof (IF_bound i j k ltac:(unfold box; lia)) as B1. pose proof (IF_bound (i + 1) j k ltac:(unfold box; lia)) as B2.
  pose proof (JF_bound i j k ltac:(unfold box; lia)) as B3. pose proof (JF_bound i (j + 1) k ltac:(unfold box; lia)) as B4.
  destruct (join3_quot A B K (m_cell_kp m) i j k) as (H1 & H2 & H3 & H4 & H5); [done..|apply Hm|].
  unfold getCellFaceIDs, faces_at. rewrite (mf_dim _ Hm). unfold cellJp, cellKp. rewrite (mf_cell_jp _ Hm).
  destruct dim_cases as [[Hd HK]|Hd]; rewrite Hd; cbn [Z.eqb Pos.eqb app].
  - assert (k = 0) as -> by lia. rewrite Z.mul_0_l, Z.sub_0_r in *. unfold getCellFaceIDsInternal2, cell. rewrite H3, (mf_faces _ Hm), (mf_cells _ Hm). cbn [t_i].
    unfold IF, JF, join3 in *. rewrite (ixw_id (i + j * A + 0 * (A * B) + j)), (ixw_id (i + j * A + 0 * (A * B) + N_I)) by lia.
    rewrite !ixw_id by lia. repeat first [apply f_equal2; [lia|]|done].
  - pose proof (KF_bound i j k Hd ltac:(unfold box; lia)) as B5. pose proof (KF_bound i j (k + 1) Hd ltac:(unfold box; lia)) as B6.
    unfold getCellFaceIDsInternal3, cellKp, cell. rewrite H1, (ixw_id (join3 A B i j k - k * m_cell_kp m)), H3 by lia.
    rewrite (proj1 (mf_kp3 _ Hm Hd)), (mf_faces _ Hm), (mf_cells _ Hm), (mf_IJ _ Hm). cbn [t_i t_j].
    unfold IF, JF, KF, join3 in *.
    rewrite (ixw_id (i + j * A + k * (A * B) + j + B * k)), (ixw_id (i + j * A + k * (A * B) + N_I + A * k)), (ixw_id (i + j * A + k * (A * B) + (N_I + N_J))) by lia.
    rewrite !ixw_id by lia. repeat first [apply f_equal2; [lia|]|done].
Qed.

(** Which faces a cell has. *)
Lemma IF_in_faces i j k i' j' k' : box A B K i j k -> box (A + 1) B K i' j' k' ->
  IF i' j' k' ∈ faces_at i j k <-> (i' = i \/ i' = i + 1) /\ j' = j /\ k' = k.
Proof using Hg.
  intros Hb Hb'. pose proof (totals Hg) as Htot. pose proof (IF_bound i' j' k' Hb') as B0. pose proof Hb as (Hi & Hj & Hk). pose proof Hb' as (Hi' & Hj' & Hk').
  pose proof (JF_bound i j k ltac:(unfold box; lia)) as B3. pose proof (JF_bound i (j + 1) k ltac:(unfold box; lia)) as B4.
  unfold faces_at. rewrite elem_of_app, !elem_of_cons, elem_of_nil. split.
  - intros [[E|[E|[E|[E|[]]]]]|E].
    + apply (join3_inj (A + 1) B K) in E; lia.
    + apply (join3_inj (A + 1) B K) in E; lia.
    + lia.
    + lia.
    + exfalso. destruct dim_cases as [[Hd HK]|Hd]; rewrite Hd in E; cbn [Z.eqb Pos.eqb] in E; [by apply not_elem_of_nil in E|].
      pose proof (KF_bound i j k Hd ltac:(unfold box; lia)). pose proof (KF_bound i j (k + 1) Hd ltac:(unfold box; lia)).
      rewrite !elem_of_cons, elem_of_nil in E. lia.
  - intros ([-> | ->] & -> & ->); left; [by left|right; by left].
Qed.

Lemma JF_in_faces i j k i' j' k' : box A B K i j k -> box A (B + 1) K i' j' k' ->
  JF i' j' k' ∈ faces_at i j k <-> i' = i /\ (j' = j \/ j' = j + 1) /\ k' = k.
Proof using Hg.
  intros Hb Hb'. pose proof (totals Hg) as Htot. pose proof (JF_bound i' j' k' Hb') as B0. pose proof Hb as (Hi & Hj & Hk). pose proof Hb' as (Hi' & Hj' & Hk').
  pose proof (IF_bound i j k ltac:(unfold box; lia)) as B3. pose proof (IF_bound (i + 1) j k ltac:(unfold box; lia)) as B4.
  unfold faces_at. rewrite elem_of_app, !elem_of_cons, elem_of_nil. split.
  - intros [[E|[E|[E|[E|[]]]]]|E].
    + lia.
    + lia.
    + assert (join3 A (B + 1) i' j' k' = join3 A (B + 1) i j k) as E' by (unfold JF in E; lia). apply (join3_inj A (B + 1) K) in E'; lia.
    + assert (join3 A (B + 1) i' j' k' = join3 A (B + 1) i (j + 1) k) as E' by (unfold JF in E; lia). apply (join3_inj A (B + 1) K) in E'; lia.
    + exfalso. destruct dim_cases as [[Hd HK]|Hd]; rewrite Hd in E; cbn [Z.eqb Pos.eqb] in E; [by apply not_elem_of_nil in E|].
      pose proof (KF_bound i j k Hd ltac:(unfold box; lia)). pose proof (KF_bound i j (k + 1) Hd ltac:(unfold box; lia)).
      rewrite !elem_of_cons, elem_of_nil in E. lia.
  - intros (-> & [-> | ->] & ->); left; right; right; [by left|right; by left].
Qed.

Lemma KF_in_faces i j k i' j' k' : d = 3 -> box A B K i j k -> box A B (K + 1) i' j' k' ->
  KF i' j' k' ∈ faces_at i j k <-> i' = i /\ j' = j /\ (k' = k \/ k' = k + 1).
Proof using Hg.
  intros Hd Hb Hb'. pose proof (totals Hg) as Htot. pose proof (KF_bound i' j' k' Hd Hb') as B0. pose proof Hb as (Hi & Hj & Hk). pose proof Hb' as (Hi' & Hj' & Hk').
  pose proof (IF_bound i j k ltac:(unfold box; lia)) as B3. pose proof (IF_bound (i + 1) j k ltac:(unfold box; lia)) as B4.
  pose proof (JF_bound i j k ltac:(unfold box; lia)) as B5. pose proof (JF_bound i (j + 1) k ltac:(unfold box; lia)) as B6.
  unfold faces_at. rewrite Hd. cbn [Z.eqb Pos.eqb app]. rewrite !elem_of_cons, elem_of_nil. split.
  - intros [E|[E|[E|[E|[E|[E|[]]]]]]]; [lia..| |].
    + assert (join3 A B i' j' k' = join3 A B i j k) as E' by (unfold KF in E; lia). apply (join3_inj A B (K + 1)) in E'; lia.
    + assert (join3 A B i' j' k' = join3 A B i j (k + 1)) as E' by (unfold KF in E; lia). apply (join3_inj A B (K + 1)) in E'; lia.
  - intros (-> & -> & [-> | ->]); do 4 right; [by left|right; by left].
Qed.

(** ** Cells of faces *)

(** The cells on the two sides of a face are given by what differs in one direction. *)
Lemma face_cells_in one two index last (P : Z -> Prop) : (forall c, P c <-> (0 < index /\ c = one) \/ (index < last /\ c = two)) ->
  0 <= index <= last -> 0 < last -> (0 < index -> 0 <= one) -> (index < last -> 0 <= two) -> (0 < index -> index < last -> one < two) ->
  let '(c1, c2) := face_cells one two index last in
  P c1 /\ (forall c, P c -> c = c1 \/ c = c2 /\ c2 <> -1) /\ (c2 = -1 \/ P c2 /\ c1 < c2).
Proof using Type.
  intros HP Hi Hl H1 H2 Hne. unfold face_cells. repeat case_zbool; rewrite !HP; (split_and!; [lia| |lia]); intros c [[? ->]|[? ->]]%HP; lia.
Qed.

Lemma IF_cells i j k : box (A + 1) B K i j k ->
  getFaceCellIDs m (IF i j k) = face_cells (getCellLinearIndex m (i - 1) j k) (getCellLinearIndex m i j k) i A.
Proof using Hg Hm.
  intros Hb. pose proof (IF_bound i j k Hb) as B0. unfold getFaceCellIDs, getIFaceCellIDs. rewrite (mf_faces _ Hm), (mf_cells _ Hm), IF_grid by done. cbn [t_i].
  by rewrite (proj2 (Z.ltb_lt _ _)) by lia.
Qed.

Lemma JF_cells i j k : box A (B + 1) K i j k ->
  getFaceCellIDs m (JF i j k) = face_cells (getCellLinearIndex m i (j - 1) k) (getCellLinearIndex m i j k) j B.
Proof using Hg Hm.
  intros Hb. pose proof (JF_bound i j k Hb) as B0. unfold getFaceCellIDs, getJFaceCellIDs. rewrite (mf_faces _ Hm), (mf_cells _ Hm), (mf_IJ _ Hm), JF_grid by done. cbn [t_i t_j].
  by rewrite (proj2 (Z.ltb_ge _ _)), (proj2 (Z.ltb_lt _ _)) by lia.
Qed.

Lemma KF_cells i j k : d = 3 -> box A B (K + 1) i j k ->
  getFaceCellIDs m (KF i j k) = face_cells (getCellLinearIndex m i j (k - 1)) (getCellLinearIndex m i j k) k K.
Proof using Hg Hm.
  intros Hd Hb. pose proof (totals Hg). pose proof (KF_bound i j k Hd Hb) as B0. unfold getFaceCellIDs, getKFaceCellIDs.
  rewrite (mf_faces _ Hm), (mf_cells _ Hm), (mf_IJ _ Hm), KF_grid by done. cbn [t_i t_k]. rewrite Hd.
  by rewrite !(proj2 (Z.ltb_ge _ _)) by lia.
Qed.

(** ** Nodes of cells and faces *)

Definition nodes_at (i j k : Z) : list Z :=
  let layer k := [node i j k; node (i + 1) j k; node (i + 1) (j + 1) k; node i (j + 1) k] in
  layer k ++ if d =? 3 then layer (k + 1) else [].

Lemma node_layers i j k : box A B K i j k -> forall i' j' k', (i' = i \/ i' = i + 1) -> (j' = j \/ j' = j + 1) -> (k' = k \/ d = 3 /\ k' = k + 1) ->
  box (A + 1) (B + 1) KN i' j' k'.
Proof using Hg.
  intros (Hi & Hj & Hk) i' j' k' Hi' Hj' Hk'. unfold box, KN. destruct dim_cases as [[Hd HK]|Hd]; rewrite Hd in *; cbn [Z.eqb Pos.eqb]; lia.
Qed.

Lemma nodes_of_cell i j k : box A B K i j k -> getCellNodeIDs m (cell i j k) = nodes_at i j k.
Proof using Hg Hm.
  intros Hb. pose proof (totals Hg) as Htot. pose proof (node_layers i j k Hb) as HL. unfold getCellNodeIDs. rewrite cell_grid by done.
  unfold getCellNodeIDs_ijk, getNumberOfCellNodes, nodes_at. rewrite (mf_dim _ Hm), node_linear by (apply HL; tauto).
  assert (forall i' j' k', (i' = i \/ i' = i + 1) -> (j' = j \/ j' = j + 1) -> (k' = k \/ d = 3 /\ k' = k + 1) ->
    forall off, node i j k + off = node i' j' k' -> ixw (node i j k + off) = node i' j' k') as Hoff.
  { intros i' j' k' H1 H2 H3 off E. pose proof (node_bound i' j' k' (HL _ _ _ H1 H2 H3)). rewrite E, ixw_id; lia. }
  destruct dim_cases as [[Hd HK]|Hd]; rewrite Hd; cbn [Z.eqb Pos.eqb app].
  - change (Z.to_nat 4) with 4%nat. rewrite (mf_offsets _ Hm). cbn [fmap list_fmap].
    repeat (apply f_equal2; [apply Hoff; [tauto..|unfold node, join3; lia]|]). done.
  - change (Z.to_nat 8) with 8%nat. rewrite (mf_offsets3 _ Hm Hd). cbn [fmap list_fmap take].
    repeat (apply f_equal2; [apply Hoff; [tauto..|unfold node, join3; lia]|]). done.
Qed.

(** The nodes of a face as functions of its place. *)
Definition IF_nodes (i j k : Z) : list Z :=
  if d =? 2 then [node i j k; node i (j + 1) k]
  else [node i j k; node i j (k + 1); node i (j + 1) (k + 1); node i (j + 1) k].
Definition JF_nodes (i j k : Z) : list Z :=
  if d =? 2 then [node i j k; node (i + 1) j k]
  else [node i j k; node (i + 1) j k; node (i + 1) j (k + 1); node i j (k + 1)].
Definition KF_nodes (i j k : Z) : list Z := [node i j k; node (i + 1) j k; node (i + 1) (j + 1) k; node i (j + 1) k].

Lemma offsets_known : offset m 2 = A + 2 /\ offset m 3 = A + 1 /\
  (d = 3 -> offset m 4 = (A + 1) * (B + 1) /\ offset m 5 = 1 + (A + 1) * (B + 1) /\ offset m 7 = A + 1 + (A + 1) * (B + 1)).
Proof using Hm.
  pose proof (mf_offsets _ Hm) as Ho. unfold offset.
  destruct (m_cell_node_offsets m) as [|o0 [|o1 [|o2 [|o3 l]]]] eqn:El; cbn [take] in Ho; try discriminate Ho. injection Ho as -> -> -> ->.
  split_and!; [done|done|]. intros Hd. pose proof (mf_offsets3 _ Hm Hd) as H3. rewrite El in H3. rewrite H3. done.
Qed.

Ltac node_at := rewrite ixw_id; unfold node, join3 in *; lia.

Lemma IF_node_ids i j k : box (A + 1) B K i j k -> getFaceNodeIDs m (IF i j k) = IF_nodes i j k.
Proof using Hg Hm.
  intros Hb. pose proof (totals Hg) as Htot. pose proof (IF_bound i j k Hb) as B0. pose proof Hb as (Hi & Hj & Hk). destruct offsets_known as (_ & O3 & O).
  unfold getFaceNodeIDs, getIFaceNodeIDs, IF_nodes. rewrite (mf_faces _ Hm), (mf_dim _ Hm), (mf_nodes _ Hm). cbn [t_i]. rewrite (proj2 (Z.ltb_lt _ _)) by lia.
  destruct dim_cases as [[Hd HK]|Hd]; rewrite Hd; cbn [Z.eqb Pos.eqb].
  - pose proof (node_bound i (j + 1) k ltac:(unfold box, KN; rewrite Hd; cbn; lia)) as N1. rewrite O3. assert (k = 0) as -> by lia.
    unfold IF, join3 in *. apply f_equal2; [unfold node, join3; lia|]. apply f_equal2; [node_at|done].
  - destruct (O Hd) as (O4 & O5 & O7). rewrite O3, O4, O7. unfold getIFaceKIndex. rewrite (mf_slice_I _ Hm).
    destruct (join3_quot (A + 1) B K ((A + 1) * B) i j k) as (H1 & _); [done..|by left|]. unfold IF. rewrite H1.
    assert (KN = K + 1) as HKN by (unfold KN; by rewrite Hd).
    pose proof (node_bound i j k ltac:(unfold box; lia)) as N0. pose proof (node_bound i j (k + 1) ltac:(unfold box; lia)) as N1.
    pose proof (node_bound i (j + 1) (k + 1) ltac:(unfold box; lia)) as N2. pose proof (node_bound i (j + 1) k ltac:(unfold box; lia)) as N3.
    replace (join3 (A + 1) B i j k + (A + 1) * k) with (node i j k) by (unfold node, join3; lia). rewrite (ixw_id (node i j k)) by lia.
    apply f_equal2; [done|]. repeat (apply f_equal2; [node_at|]). done.
Qed.

Lemma JF_node_ids i j k : box A (B + 1) K i j k -> getFaceNodeIDs m (JF i j k) = JF_nodes i j k.
Proof using Hg Hm.
  intros Hb. pose proof (totals Hg) as Htot. pose proof (JF_bound i j k Hb) as B0. pose proof Hb as (Hi & Hj & Hk). destruct offsets_known as (_ & O3 & O).
  destruct (JF_shift i j k Hb) as (S1 & S2 & S3).
  unfold getFaceNodeIDs, getJFaceNodeIDs, JF_nodes. rewrite (mf_faces _ Hm), (mf_dim _ Hm), (mf_IJ _ Hm), (mf_nodes _ Hm). cbn [t_i t_j].
  rewrite (proj2 (Z.ltb_ge _ _)), (proj2 (Z.ltb_lt _ _)), S1 by lia.
  destruct dim_cases as [[Hd HK]|Hd]; rewrite Hd; cbn [Z.eqb Pos.eqb].
  - assert (k = 0) as -> by lia. rewrite S3. assert (KN = 1) as HKN by (unfold KN; by rewrite Hd).
    pose proof (node_bound i j 0 ltac:(unfold box; lia)) as N0. pose proof (node_bound (i + 1) j 0 ltac:(unfold box; lia)) as N1.
    replace (join3 A (B + 1) i j 0 + j) with (node i j 0) by (unfold node, join3; lia). rewrite (ixw_id (node i j 0)) by lia.
    apply f_equal2; [done|]. repeat (apply f_equal2; [node_at|]). done.
  - destruct (O Hd) as (O4 & O5 & O7). rewrite O4, O5, S2, S3. assert (KN = K + 1) as HKN by (unfold KN; by rewrite Hd).
    pose proof (node_bound i j k ltac:(unfold box; lia)) as N0. pose proof (node_bound (i + 1) j k ltac:(unfold box; lia)) as N1.
    pose proof (node_bound (i + 1) j (k + 1) ltac:(unfold box; lia)) as N2. pose proof (node_bound i j (k + 1) ltac:(unfold box; lia)) as N3.
    replace (join3 A (B + 1) i j k + j + (B + 1) * k) with (node i j k) by (unfold node, join3; lia). rewrite (ixw_id (node i j k)) by lia.
    apply f_equal2; [done|]. repeat (apply f_equal2; [node_at|]). done.
Qed.

Lemma KF_node_ids i j k : d = 3 -> box A B (K + 1) i j k -> getFaceNodeIDs m (KF i j k) = KF_nodes i j k.
Proof using Hg Hm.
  intros Hd Hb. pose proof (totals Hg) as Htot. pose proof (KF_bound i j k Hd Hb) as B0. pose proof Hb as (Hi & Hj & Hk). destruct offsets_known as (O2 & O3 & O).
  destruct (KF_shift i j k Hd Hb) as (S1 & S2 & S3).
  unfold getFaceNodeIDs, getKFaceNodeIDs, KF_nodes. rewrite (mf_faces _ Hm), (mf_IJ _ Hm), (mf_cells _ Hm). cbn [t_i t_j].
  rewrite !(proj2 (Z.ltb_ge _ _)), S1, S2, S3, O2, O3 by lia. assert (KN = K + 1) as HKN by (unfold KN; by rewrite Hd).
  pose proof (node_bound i j k ltac:(unfold box; lia)) as N0. pose proof (node_bound (i + 1) j k ltac:(unfold box; lia)) as N1.
  pose proof (node_bound (i + 1) (j + 1) k ltac:(unfold box; lia)) as N2. pose proof (node_bound i (j + 1) k ltac:(unfold box; lia)) as N3.
  replace (join3 A B i j k + j + (A + B + 1) * k) with (node i j k) by (unfold node, join3; lia). rewrite (ixw_id (node i j k)) by lia.
  apply f_equal2; [done|]. repeat (apply f_equal2; [node_at|]). done.
Qed.

(** ** Counts *)

Lemma counts : getNumberOfCells m = A * B * K /\ getNumberOfNodes m = (A + 1) * (B + 1) * KN /\ getNumberOfFaces m = N_I + N_J + N_K.
Proof using Hg Hm.
  pose proof (totals Hg) as Htot. unfold getNumberOfCells, getNumberOfNodes, getNumberOfFaces, extent_product.
  rewrite (mf_dim _ Hm), (mf_cells _ Hm), (mf_nodes _ Hm), (mf_faces _ Hm), (mf_IJ _ Hm). cbn [t_i t_j t_k]. unfold KN in *.
  assert (0 < A * B) by (pose proof (gr_A Hg); pose proof (gr_B Hg); nia). assert (0 < (A + 1) * (B + 1)) by (pose proof (gr_A Hg); pose proof (gr_B Hg); nia).
  destruct dim_cases as [[Hd HK]|Hd]; rewrite Hd in *; cbn [Z.eqb Z.ltb Z.compare Pos.eqb Pos.compare Pos.compare_cont] in *; rewrite ?HK, ?Z.mul_1_r in *.
  - split_and!; rewrite ?Z.mul_1_r, ?(ixw_id (A * B)), ?(ixw_id ((A + 1) * (B + 1))) by lia; rewrite ?ixw_id; try done; lia.
  - assert (0 < (A + 1) * (B + 1) * (K + 1)) by (pose proof (gr_K Hg); nia).
    split_and!; rewrite ?(ixw_id (A * B)), ?(ixw_id ((A + 1) * (B + 1))) by lia; rewrite ?ixw_id; try done; lia.
Qed.

(** Every face has a place. *)
Lemma face_place f : 0 <= f < N_I + N_J + N_K ->
  (exists i j k, f = IF i j k /\ box (A + 1) B K i j k) \/ (exists i j k, f = JF i j k /\ box A (B + 1) K i j k) \/
  (d = 3 /\ exists i j k, f = KF i j k /\ box A B (K + 1) i j k).
Proof using Hg.
  intros Hf. pose proof (gr_A Hg). pose proof (gr_B Hg). destruct (decide (f < N_I)); [left|right; destruct (decide (f < N_I + N_J)); [left|right]].
  - destruct (join3_split (A + 1) B K f) as (i & j & k & -> & ?); [lia|lia|unfold N_I in *; lia|]. by exists i, j, k.
  - destruct (join3_split A (B + 1) K (f - N_I)) as (i & j & k & E & ?); [lia|lia|unfold N_J in *; lia|]. exists i, j, k. split; [unfold JF; lia|done].
  - unfold N_K in Hf. destruct dim_cases as [[Hd HK]|Hd]; rewrite Hd in Hf; cbn [Z.eqb Pos.eqb] in Hf; [lia|]. split; [done|].
    destruct (join3_split A B (K + 1) (f - N_I - N_J)) as (i & j & k & E & ?); [lia..|]. exists i, j, k. split; [unfold KF; lia|done].
Qed.

Lemma cell_place c : 0 <= c < A * B * K -> exists i j k, c = cell i j k /\ box A B K i j k.
Proof using Hg.
  intros Hc. pose proof (gr_A Hg). pose proof (gr_B Hg). destruct (join3_split A B K c) as (i & j & k & -> & ?); [lia..|]. by exists i, j, k.
Qed.

Lemma node_place n : 0 <= n < (A + 1) * (B + 1) * KN -> exists i j k, n = node i j k /\ box (A + 1) (B + 1) KN i j k.
Proof using Hg.
  intros Hn. pose proof (gr_A Hg). pose proof (gr_B Hg). destruct (join3_split (A + 1) (B + 1) KN n) as (i & j & k & -> & ?); [lia..|]. by exists i, j, k.
Qed.

Lemma cell_inj i j k i' j' k' : box A B K i j k -> box A B K i' j' k' -> cell i j k = cell i' j' k' -> i = i' /\ j = j' /\ k = k'.
Proof using Type. intros (? & ? & ?) (? & ? & ?). by apply (join3_inj A B K). Qed.

(** The cells that have a face. *)
Definition has_face (f c : Z) : Prop := 0 <= c < A * B * K /\ f ∈ getCellFaceIDs m c.

Lemma has_face_at f c : has_face f c <-> exists i j k, c = cell i j k /\ box A B K i j k /\ f ∈ faces_at i j k.
Proof using Hg Hm.
  split.
  - intros [Hc Hf]. destruct (cell_place c Hc) as (i & j & k & -> & Hb). exists i, j, k. by rewrite faces_of_cell in Hf.
  - intros (i & j & k & -> & Hb & Hf). split; [by apply cell_bound|]. by rewrite faces_of_cell.
Qed.

Ltac has_face_sides lemma :=
  pose proof lemma as HL; intros Hb; pose proof Hb as (Hi & Hj & Hk); intros c; rewrite has_face_at; split;
  [intros (i & j & k & -> & Hc & Hin); rewrite HL in Hin by done; pose proof Hc as (? & ? & ?)
  |intros [[? ->]|[? ->]]; rewrite cell_linear by (unfold box; lia); eexists _, _, _; (split; [reflexivity|split; [unfold box; lia|]]); rewrite HL by (done || unfold box; lia); lia].

Lemma IF_sides i' j' k' : box (A + 1) B K i' j' k' -> forall c,
  has_face (IF i' j' k') c <-> 0 < i' /\ c = getCellLinearIndex m (i' - 1) j' k' \/ i' < A /\ c = getCellLinearIndex m i' j' k'.
Proof using Hg Hm.
  has_face_sides IF_in_faces. destruct Hin as ([-> | ->] & -> & ->); [right|left]; (split; [lia|]); rewrite cell_linear by (unfold box; lia); [done|f_equal; lia].
Qed.

Lemma JF_sides i' j' k' : box A (B + 1) K i' j' k' -> forall c,
  has_face (JF i' j' k') c <-> 0 < j' /\ c = getCellLinearIndex m i' (j' - 1) k' \/ j' < B /\ c = getCellLinearIndex m i' j' k'.
Proof using Hg Hm.
  has_face_sides JF_in_faces. destruct Hin as (-> & [-> | ->] & ->); [right|left]; (split; [lia|]); rewrite cell_linear by (unfold box; lia); [done|f_equal; lia].
Qed.

Lemma KF_sides i' j' k' : d = 3 -> box A B (K + 1) i' j' k' -> forall c,
  has_face (KF i' j' k') c <-> 0 < k' /\ c = getCellLinearIndex m i' j' (k' - 1) \/ k' < K /\ c = getCellLinearIndex m i' j' k'.
Proof using Hg Hm.
  intros Hd. has_face_sides (fun i j k a b c => KF_in_faces i j k a b c Hd).
  destruct Hin as (-> & -> & [-> | ->]); [right|left]; (split; [lia|]); rewrite cell_linear by (unfold box; lia); [done|f_equal; lia].
Qed.

(** ** The relations between cells, faces and nodes *)

Lemma face_cells_of f : 0 <= f < N_I + N_J + N_K ->
  let '(c1, c2) := getFaceCellIDs m f in
  has_face f c1 /\ (forall c, has_face f c -> c = c1 \/ c = c2 /\ c2 <> -1) /\ (c2 = -1 \/ has_face f c2 /\ c1 < c2).
Proof using Hg Hm.
  intros Hf. pose proof (gr_A Hg) as HA. pose proof (gr_B Hg) as HB. pose proof (gr_K Hg) as HK. assert (forall i j k, box A B K i j k -> 0 <= getCellLinearIndex m i j k) as Hn.
  { intros i j k Hb. rewrite cell_linear by done. by apply cell_bound. }
  destruct (face_place f Hf) as [(i & j & k & -> & Hb)|[(i & j & k & -> & Hb)|(Hd & i & j & k & -> & Hb)]]; pose proof Hb as (Hi & Hj & Hk).
  - rewrite IF_cells by done. apply face_cells_in; [by apply IF_sides|lia|lia|intros; apply Hn; unfold box; lia..|].
    intros ? ?. rewrite !cell_linear by (unfold box; lia). unfold cell, join3. nia.
  - rewrite JF_cells by done. apply face_cells_in; [by apply JF_sides|lia|lia|intros; apply Hn; unfold box; lia..|].
    intros ? ?. rewrite !cell_linear by (unfold box; lia). unfold cell, join3. nia.
  - rewrite KF_cells by done. apply face_cells_in; [by apply KF_sides|lia|lia|intros; apply Hn; unfold box; lia..|].
    intros ? ?. rewrite !cell_linear by (unfold box; lia). unfold cell, join3. nia.
Qed.

(** The faces of a cell in the order of [getCellFaceIDs], as the numbers of the faces in
    the information on the type of the cell. *)
Definition sides : list nat := if d =? 3 then [3; 1; 2; 4; 0; 5]%nat else [3; 1; 0; 2]%nat.

Definition cell_info_faces : list (list Z) := if d =? 3 then cell_faces HEX_INFO else cell_faces QUAD_INFO.

(** The nodes of a cell at the places that a face of its type lists. *)
Definition pick (nodes local : list Z) : list Z := (fun n => default (-1) nodes.[n]) <$> local.

Lemma faces_at_nodes i j k : box A B K i j k ->
  Forall2 (fun f s => exists local, cell_info_faces !! s = Some local /\ getFaceNodeIDs m f ≡ₚ pick (nodes_at i j k) local) (faces_at i j k) sides.
Proof using Hg Hm.
  intros (Hi & Hj & Hk). unfold faces_at, sides, cell_info_faces.
  destruct dim_cases as [[Hd HK]|Hd]; rewrite Hd; cbn [Z.eqb Pos.eqb app]; repeat (apply Forall2_cons_2; [|]); try apply Forall2_nil_2;
    (eexists; split; [vm_compute; reflexivity|]);
    first [rewrite IF_node_ids by (unfold box; lia)|rewrite JF_node_ids by (unfold box; lia)|rewrite KF_node_ids by first [done|unfold box; lia]];
    unfold IF_nodes, JF_nodes, KF_nodes, nodes_at, pick; rewrite ?Hd; cbn; solve_Permutation.
Qed.

End grid.

(** ** Meshes from their constructor *)

Section made.
Context {IB : IndexBits} (type : MeshType) (d A B K : Z) (m : StructuredMesh).

(** A mesh that is made for a grid: a mesh with two dimensions is given no third extent. *)
Definition made : Prop := grid_ok d A B K /\ StructuredMesh_make type (A + 1) (B + 1) (if d =? 3 then K + 1 else -1) = Done m.

Lemma made_facts : made -> grid_ok d A B K /\ mesh_facts d A B K m.
Proof.
  intros [Hg Hm]. split; [done|]. unfold StructuredMesh_make, MintStructured.dim in Hm. pose proof (gr_A _ _ _ _ Hg) as HA. pose proof (gr_B _ _ _ _ Hg) as HB. pose proof (gr_K _ _ _ _ Hg) as HK.
  replace m with (mesh d A B K); [by apply mesh_ok|]. unfold mesh. destruct (validStructuredMeshType type); cbn [negb] in Hm; [|done].
  rewrite (proj2 (Z.leb_gt (A + 1) 1)) in Hm by lia.
  destruct (gr_dim _ _ _ _ Hg) as [[Hd HK1]|Hd]; rewrite Hd in Hm |- *; cbn [Z.eqb Pos.eqb] in Hm |- *.
  - rewrite (proj2 (Z.leb_gt 1 (-1))), (proj2 (Z.leb_le 1 (B + 1))), (proj2 (Z.leb_gt (B + 1) 1)) in Hm by lia. by injection Hm as <-.
  - rewrite (proj2 (Z.leb_le 1 (K + 1))), (proj2 (Z.leb_gt (B + 1) 1)), (proj2 (Z.leb_gt (K + 1) 1)) in Hm by lia. by injection Hm as <-.
Qed.

(** The mesh can be made. *)
Lemma make_ok : grid_ok d A B K -> validStructuredMeshType type = true ->
  StructuredMesh_make type (A + 1) (B + 1) (if d =? 3 then K + 1 else -1) = Done (mesh d A B K).
Proof.
  intros Hg Ht. unfold StructuredMesh_make, MintStructured.dim, mesh. rewrite Ht. pose proof (gr_A _ _ _ _ Hg) as HA. pose proof (gr_B _ _ _ _ Hg) as HB. pose proof (gr_K _ _ _ _ Hg) as HK.
  rewrite (proj2 (Z.leb_gt (A + 1) 1)) by lia. destruct (gr_dim _ _ _ _ Hg) as [[Hd HK1]|Hd]; rewrite Hd; cbn [Z.eqb Pos.eqb negb].
  - by rewrite (proj2 (Z.leb_gt 1 (-1))), (proj2 (Z.leb_le 1 (B + 1))), (proj2 (Z.leb_gt (B + 1) 1)) by lia.
  - by rewrite (proj2 (Z.leb_le 1 (K + 1))), (proj2 (Z.leb_gt (B + 1) 1)), (proj2 (Z.leb_gt (K + 1) 1)) by lia.
Qed.

End made.

(** C13: A face of a structured mesh has one or two cells: [getFaceCellIDs] gives a cell of
    the mesh and either a later cell of it or -1, and these are exactly the cells that
    have the face among their faces ([getCellFaceIDs]), for all grids with two or three
    dimensions whose nodes and faces can be counted. *)
Theorem structured_incidence {IB : IndexBits} type d A B K m f : made type d A B K m -> 0 <= f < getNumberOfFaces m ->
  let '(c1, c2) := getFaceCellIDs m f in
  0 <= c1 < getNumberOfCells m /\ (c2 = -1 \/ c1 < c2 < getNumberOfCells m) /\
  forall c, 0 <= c < getNumberOfCells m -> f ∈ getCellFaceIDs m c <-> c = c1 \/ c = c2.
Proof.
  intros [Hg Hm]%made_facts. destruct (counts d A B K m Hg Hm) as (Ec & _ & Ef). rewrite Ec, Ef. intros Hf.
  pose proof (face_cells_of d A B K m Hg Hm f Hf) as H. destruct (getFaceCellIDs m f) as [c1 c2]. destruct H as ([H1 H1f] & H2 & H3).
  split_and!; [lia..| |].
  - destruct H3 as [->|[[? _] ?]]; [by left|right; lia].
  - intros c Hc. split.
    + intros Hin. destruct (H2 c (conj Hc Hin)) as [->|[-> _]]; auto.
    + intros [->| ->]; [done|]. destruct H3 as [->|[[_ ?] _]]; [lia|done].
Qed.

(** C37: On a structured mesh with two or three dimensions whose nodes and faces can be
    counted by the [IndexType], the numbers of the cells, nodes and faces and their places
    in the grid determine each other: the linear index of each place is taken apart to the
    same place again, and each number of a cell, node or face is the linear index of a
    place.  The faces across the first direction have the first numbers, as many as
    [getTotalNumFaces] counts for it, those across the second direction the next ones, and
    those across the third the last. *)
Theorem structured_numbering {IB : IndexBits} type d A B K m : made type d A B K m ->
  (forall i j k, box A B K i j k -> 0 <= getCellLinearIndex m i j k < getNumberOfCells m /\ getCellGridIndex m (getCellLinearIndex m i j k) = (i, j, k)) /\
  (forall c, 0 <= c < getNumberOfCells m -> exists i j k, c = getCellLinearIndex m i j k /\ box A B K i j k) /\
  (forall i j k, box (A + 1) (B + 1) (KN d K) i j k ->
    0 <= getNodeLinearIndex m i j k < getNumberOfNodes m /\ getNodeGridIndex m (getNodeLinearIndex m i j k) = (i, j, k)) /\
  (forall n, 0 <= n < getNumberOfNodes m -> exists i j k, n = getNodeLinearIndex m i j k /\ box (A + 1) (B + 1) (KN d K) i j k) /\
  (exists nI nJ nK, getTotalNumFaces m 0 = Some nI /\ getTotalNumFaces m 1 = Some nJ /\ getTotalNumFaces m 2 = Some nK /\
    getNumberOfFaces m = nI + nJ + nK /\
    (forall i j k, box (A + 1) B K i j k ->
      0 <= getIFaceLinearIndex m i j k < nI /\ getIFaceGridIndex m (getIFaceLinearIndex m i j k) = (i, j, k)) /\
    (forall i j k, box A (B + 1) K i j k ->
      nI <= getJFaceLinearIndex m i j k < nI + nJ /\ getJFaceGridIndex m (getJFaceLinearIndex m i j k) = (i, j, k)) /\
    (d = 3 -> forall i j k, box A B (K + 1) i j k ->
      nI + nJ <= getKFaceLinearIndex m i j k < nI + nJ + nK /\ getKFaceGridIndex m (getKFaceLinearIndex m i j k) = (i, j, k))) /\
  (forall f, 0 <= f < getNumberOfFaces m ->
    (exists i j k, f = getFaceLinearIndex m 0 i j k /\ box (A + 1) B K i j k) \/
    (exists i j k, f = getFaceLinearIndex m 1 i j k /\ box A (B + 1) K i j k) \/
    (d = 3 /\ exists i j k, f = getFaceLinearIndex m 2 i j k /\ box A B (K + 1) i j k)).
Proof.
  intros [Hg Hm]%made_facts. destruct (counts d A B K m Hg Hm) as (-> & -> & ->). unfold getFaceLinearIndex. cbn [Z.eqb Pos.eqb].
  split; [|split; [|split; [|split; [|split]]]].
  - intros i j k Hb. rewrite (cell_linear d A B K) by done. split; [by apply cell_bound|by apply (cell_grid d A B K)].
  - intros c Hc. destruct (cell_place d A B K Hg c Hc) as (i & j & k & -> & Hb). exists i, j, k. by rewrite (cell_linear d A B K).
  - intros i j k Hb. rewrite (node_linear d A B K) by done. split; [by apply node_bound|by apply (node_grid d A B K)].
  - intros n Hn. destruct (node_place d A B K Hg n Hn) as (i & j & k & -> & Hb). exists i, j, k. by rewrite (node_linear d A B K).
  - exists (N_I A B K), (N_J A B K), (N_K d A B K). unfold getTotalNumFaces. rewrite (mf_faces _ _ _ _ _ Hm). do 4 (split; [done|]). split; [|split].
    + intros i j k Hb. rewrite (IF_linear d A B K) by done. split; [by apply IF_bound|by apply (IF_grid d A B K)].
    + intros i j k Hb. rewrite (JF_linear d A B K) by done. split; [by apply JF_bound|by apply (JF_grid d A B K)].
    + intros Hd i j k Hb. rewrite (KF_linear d A B K) by done. split; [by apply KF_bound|by apply (KF_grid d A B K)].
  - intros f Hf. destruct (face_place d A B K Hg f Hf) as [(i & j & k & -> & Hb)|[(i & j & k & -> & Hb)|(Hd & i & j & k & -> & Hb)]].
    + left. exists i, j, k. by rewrite (IF_linear d A B K).
    + right; left. exists i, j, k. by rewrite (JF_linear d A B K).
    + right; right. split; [done|]. exists i, j, k. by rewrite (KF_linear d A B K).
Qed.

(** The two ways to the nodes of a face agree.  The nodes that a structured mesh
    computes for a face from its number are, for each cell with the face, the nodes of the
    cell at the places that the table of its cell type lists for that side. *)
Theorem structured_face_nodes {IB : IndexBits} type d A B K m c : made type d A B K m -> 0 <= c < getNumberOfCells m ->
  exists info, getCellInfo (getCellType m) = Some info /\ Z.of_nat (length (getCellFaceIDs m c)) = num_faces info /\
  Forall2 (fun f s => exists local, cell_faces info !! s = Some local /\ getFaceNodeIDs m f ≡ₚ pick (getCellNodeIDs m c) local)
    (getCellFaceIDs m c) (sides d).
Proof.
  intros [Hg Hm]%made_facts. destruct (counts d A B K m Hg Hm) as (-> & _ & _). intros Hc. destruct (cell_place d A B K Hg c Hc) as (i & j & k & -> & Hb).
  rewrite (faces_of_cell d A B K), (nodes_of_cell d A B K) by done. pose proof (faces_at_nodes d A B K m Hg Hm i j k Hb) as H.
  unfold getCellType. rewrite (mf_dim _ _ _ _ _ Hm). unfold cell_info_faces in H.
  destruct (gr_dim _ _ _ _ Hg) as [[Hd HK]|Hd]; rewrite Hd in H |- *; cbn [Z.eqb Pos.eqb] in H |- *; by eexists.
Qed.

(** ** Witnesses *)

#[local] Instance bits : IndexBits := IndexType32.

Definition brick : StructuredMesh := structuredInit 3 (mkTriple 4 3 3).

Lemma brick_made : made STRUCTURED_UNIFORM_MESH 3 3 2 2 brick.
Proof. split; [|reflexivity]. constructor; [by right|done..]. Qed.

Lemma structured_incidence_witness : 0 <= 20 < getNumberOfFaces brick /\ getFaceCellIDs brick 20 = (1, 4) /\
  forall c, 0 <= c < getNumberOfCells brick -> 20 ∈ getCellFaceIDs brick c <-> c = 1 \/ c = 4.
Proof.
  assert (0 <= 20 < getNumberOfFaces brick) as Hf by (by vm_compute). assert (getFaceCellIDs brick 20 = (1, 4)) as E by (by vm_compute).
  pose proof (structured_incidence STRUCTURED_UNIFORM_MESH 3 3 2 2 brick 20 brick_made Hf) as H. rewrite E in H. split; [exact Hf|split; [exact E|]]. apply H.
Defined.

Lemma structured_numbering_witness : getCellGridIndex brick 7 = (1, 0, 1).
Proof.
  assert (getCellLinearIndex brick 1 0 1 = 7) as <- by (by vm_compute). destruct (structured_numbering STRUCTURED_UNIFORM_MESH 3 3 2 2 brick brick_made) as (H & _).
  apply H. by vm_compute.
Defined.

Lemma structured_face_nodes_witness : exists info, getCellInfo (getCellType brick) = Some info /\
  Z.of_nat (length (getCellFaceIDs brick 5)) = num_faces info /\
  Forall2 (fun f s => exists local, cell_faces info !! s = Some local /\ getFaceNodeIDs brick f ≡ₚ pick (getCellNodeIDs brick 5) local)
    (getCellFaceIDs brick 5) (sides 3).
Proof. apply (structured_face_nodes STRUCTURED_UNIFORM_MESH 3 3 2 2 brick 5); [apply brick_made|by vm_compute]. Defined.

(** ** What the constructor computes besides *)

(** A mesh with two dimensions adds one to the largest index: the offsets that only cells
    with three dimensions use are past the range of the type. *)
Example offsets_overflow : m_node_kp (structuredInit 2 (mkTriple 4 3 0)) = index_max /\
  m_cell_node_offsets (structuredInit 2 (mkTriple 4 3 0)) = [0; 1; 5; 4; index_max; - index_max - 1; - index_max + 3; - index_max + 2].
Proof. vm_compute. done. Qed.

(** The edges along the first direction are counted twice and those along the third are
    left out: a mesh of 1 by 1 by 2 cells has 20 edges, and a mesh with two dimensions
    has no edges at all. *)
Example edges_miscounted : getNumberOfEdges (structuredInit 3 (mkTriple 2 2 3)) = 18 /\ (* along i and j *) 2 * 3 + 2 * 3 + (* along k *) 2 * (2 * 2) = 20 /\
  getNumberOfEdges (structuredInit 2 (mkTriple 4 3 0)) = 0.
Proof. vm_compute. done. Qed.

End MintStructuredTheorems.
