(* ===== verification/MintFaces.v ===== *)
(** * Faces of a mesh from its cells

    [mint/mesh/internal/MeshHelpers.cpp]: [initFaces] numbers the faces of a mesh that is
    given by the nodes and types of its cells, and computes the relations between faces,
    cells and nodes.  Faces are the same when they have the same nodes; the faces are kept
    in a map that is ordered by the sorted nodes ([LexiComparator] of
    [core/utilities/Utilities.hpp]).

    Counters of type [int] and [IndexType] are checked where they are increased: a value
    outside of the type is undefined behaviour.  An array that is resized to its final
    length and filled in order is a list that grows, and the counter of the next free
    position is its length. *)

From S2P Require Import Prelude Outcome MintCells.

Module MintFaces.
Import Outcome MintCells.
#[local] Open Scope list_scope.

Section faces.
Context {IB : IndexBits}.

(** ** Interface of the mesh

    What [initFaces] asks a mesh: the number of cells, and the nodes and the type of each. *)

Record Mesh := mkMesh { mesh_cells : Z; mesh_nodes : Z -> list Z; mesh_type : Z -> CellType }.

Definition MAX_CELL_NODES : Z := 27.

(** ** Maps of faces *)

Fixpoint LexiComparator (v1 v2 : list Z) : bool :=
  match v1, v2 with
  | x :: l1, y :: l2 => if x <? y then true else if y <? x then false else LexiComparator l1 l2
  | [], _ :: _ => true
  | _, [] => false
  end.

Record FaceTypeCellsNodes := mkFace { facetype : CellType; facecells : list Z; facenodes : list Z }.

Definition no_face : FaceTypeCellsNodes := mkFace UNDEFINED_CELL [] [].

(** [std::map] with this comparison: keys in ascending order, no two equivalent. *)
Definition FaceBuilder : Type := list (list Z * FaceTypeCellsNodes).

Fixpoint wf_get (k : list Z) (w : FaceBuilder) : option FaceTypeCellsNodes :=
  match w with
  | [] => None
  | (k', v) :: w => if LexiComparator k k' then None else if LexiComparator k' k then wf_get k w else Some v
  end.

Fixpoint wf_put (k : list Z) (v : FaceTypeCellsNodes) (w : FaceBuilder) : FaceBuilder :=
  match w with
  | [] => [(k, v)]
  | (k', v') :: w' =>
    if LexiComparator k k' then (k, v) :: w
    else if LexiComparator k' k then (k', v') :: wf_put k v w' else (k', v) :: w'
  end.

(** [workface[key]] for a key of the map. *)
Definition wf_at (w : FaceBuilder) (k : list Z) : FaceTypeCellsNodes := default no_face (wf_get k w).

(** ** Steps 1 and 2: faces with their cells *)

Definition sort_nodes (l : list Z) : list Z := merge_sort Z.le l.

Definition add_face (c : Z) (w : FaceBuilder) (t : CellType) (inorder : list Z) : FaceBuilder :=
  let k := sort_nodes inorder in
  let e := match wf_get k w with Some e => e | None => mkFace t [] inorder end in
  wf_put k (mkFace (facetype e) (facecells e ++ [c]) (facenodes e)) w.

(** The loop over the faces of one cell. *)
Fixpoint add_faces (c : Z) (nodes : list Z) (faces : list (CellType * list Z)) (w : FaceBuilder) : outcome FaceBuilder :=
  match faces with
  | [] => Done w
  | (t, local) :: faces =>
    inorder ← ub (mapM (fun n => nodes.[n]) local);
    add_faces c nodes faces (add_face c w t inorder)
  end.

Definition add_cell (M : Mesh) (c : Z) (w : FaceBuilder) : outcome FaceBuilder :=
  let nodes := mesh_nodes M c in
  if MAX_CELL_NODES <? Z.of_nat (length nodes) then Undefined
  else
    thisCell ← ub (getCellInfo (mesh_type M c));
    w' ← add_faces c nodes (zip (face_types thisCell) (cell_faces thisCell)) w;
    _ ← as_int (c + 1);
    Done w'.

Definition collect (M : Mesh) : outcome FaceBuilder := for_each (up 0 (mesh_cells M)) (add_cell M) [].

(** ** Step 3: cells and nodes of faces *)

Record FaceData := mkFaceData {
  f2c : list Z; c2f : list Z; c2n : list Z; c2foffsets : list Z; f2n : list Z; f2noffsets : list Z; f2ntypes : list CellType }.

(** [faceCellCount], a conversion to [int]. *)
Definition few_cells (e : FaceTypeCellsNodes) : bool :=
  let faceCellCount := to_int32 (Z.of_nat (length (facecells e))) in (1 <=? faceCellCount) && (faceCellCount <=? 2).

Definition cell_pair (e : FaceTypeCellsNodes) : list Z :=
  match facecells e with c1 :: c2 :: _ => [c1; c2] | [c1] => [c1; -1] | [] => [0; 0] end.

(** The counters [faceID] and [faceNodeTotal] of the loop over the map. *)
Definition count_face (theFace : FaceTypeCellsNodes) (acc : Z * Z) : outcome (Z * Z) :=
  let '(faceID, faceNodeTotal) := acc in
  faceNodeTotal ← ix_add faceNodeTotal (Z.of_nat (length (facenodes theFace)));
  base ← ix_mul 2 faceID; _ ← ix_add base 1;
  faceID ← ix_add faceID 1;
  Done (faceID, faceNodeTotal).

(** The nodes of the faces with their offsets and types. *)
Definition face_nodes_step (workface : FaceBuilder) (fk : Z * list Z) (acc : list Z * list Z * list CellType)
    : outcome (list Z * list Z * list CellType) :=
  let '(nodes, offsets, types) := acc in
  let theFace := wf_at workface fk.2 in
  let faceNodeOffset := Z.of_nat (length nodes) in
  _ ← as_int (faceNodeOffset + Z.of_nat (length (facenodes theFace)));
  _ ← as_int (fk.1 + 1);
  Done (nodes ++ facenodes theFace, offsets ++ [faceNodeOffset], types ++ [facetype theFace]).

(** ** Step 4: faces and neighbors of cells *)

(** [cell_to_face] and [cellFaceCount]. *)
Definition push_face (f c : Z) (acc : gmap Z (list Z) * Z) : outcome (gmap Z (list Z) * Z) :=
  let '(m, cellFaceCount) := acc in
  cellFaceCount ← as_int (cellFaceCount + 1);
  Done (<[c := default [] (m !! c) ++ [f]]> m, cellFaceCount).

Definition face_to_cells (w : FaceBuilder) (fk : Z * list Z) (acc : gmap Z (list Z) * Z) : outcome (gmap Z (list Z) * Z) :=
  acc ← for_each (facecells (wf_at w fk.2)) (push_face fk.1) acc;
  _ ← as_int (fk.1 + 1);
  Done acc.

Definition otherSide (cells : list Z) (f thisSide : Z) : option Z :=
  one ← cells.[2 * f]; two ← cells.[2 * f + 1]; Some (if one =? thisSide then two else one).

Definition cell_faces_step (cells : list Z) (m : gmap Z (list Z)) (c : Z) (acc : list Z * list Z * list Z) : outcome (list Z * list Z * list Z) :=
  let '(faces, neighbors, offsets) := acc in
  let cellFaceCount := Z.of_nat (length faces) in
  let offsets := offsets ++ [cellFaceCount] in
  match m !! c with
  | None => Done (faces, neighbors, offsets)
  | Some ids =>
    others ← ub (mapM (fun f => otherSide cells f c) ids);
    _ ← as_int (cellFaceCount + Z.of_nat (length ids));
    Done (faces ++ ids, neighbors ++ others, offsets)
  end.

(** The result, the number of faces and the arrays, which hold [old] before. *)
Definition initFaces (M : Mesh) (old : FaceData) : outcome (bool * Z * FaceData) :=
  workface ← collect M;
  let keys := workface.*1 in
  let cells := mjoin (cell_pair <$> workface.*2) in
  _ ← ix_mul 2 (Z.of_nat (length workface));
  '(faceID, faceNodeTotal) ← for_each workface.*2 count_face (0, 0);
  if negb (forallb few_cells workface.*2) then
    Done (false, 0, mkFaceData [] (c2f old) (c2n old) (c2foffsets old) (f2n old) (f2noffsets old) (f2ntypes old))
  else
    let facecount := faceID in
    _ ← ix_add facecount 1;
    '(nodes, offsets, types) ← for_each (zip (up 0 facecount) keys) (face_nodes_step workface) ([], [], []);
    '(cell_to_face, cellFaceCount) ← for_each (zip (up 0 facecount) keys) (face_to_cells workface) (∅, 0);
    _ ← ix_add (mesh_cells M) 1;
    '(faces, neighbors, foffsets) ← for_each (up 0 (mesh_cells M)) (cell_faces_step cells cell_to_face) ([], [], []);
    Done (true, facecount, mkFaceData cells faces neighbors (foffsets ++ [Z.of_nat (length faces)])
      nodes (offsets ++ [Z.of_nat (length nodes)]) types).

End faces.

End MintFaces.
