(* ===== verification/MintFacesTheorems.v ===== *)
(** * Theorems on the faces of a mesh

    [initFaces] fails exactly when a face belongs to more than two cells, and otherwise
    the relations it computes are those of the faces of the cells. *)

From S2P Require Import Prelude OffsetLists Outcome MintCells MintFaces.

Module MintFacesTheorems.
Import OffsetLists Outcome MintCells MintFaces.
#[local] Open Scope list_scope.

(** ** The order of the keys *)

Definition lexi_lt (a b : list Z) : Prop := LexiComparator a b = true.

Lemma lexi_irrefl a : LexiComparator a a = false.
Proof. induction a as [|x a IH]; [done|]. cbn. by rewrite Z.ltb_irrefl. Qed.

Lemma lexi_total a b : LexiComparator a b = false -> LexiComparator b a = false -> a = b.
Proof.
  revert b. induction a as [|x a IH]; intros [|y b]; cbn; try done.
  repeat case_zbool; try done. intros H1 H2. assert (x = y) as -> by lia. f_equal. by apply IH.
Qed.

#[export] Instance lexi_lt_trans : Transitive lexi_lt.
Proof.
  unfold lexi_lt. intros a. induction a as [|x a IH]; intros [|y b] [|z c]; cbn; try done.
  repeat case_zbool; try done; try lia. intros Hab Hbc. by apply (IH b).
Qed.

Lemma lexi_asym a b : lexi_lt a b -> ~ lexi_lt b a.
Proof. intros H1 H2. pose proof (transitivity H1 H2) as H. unfold lexi_lt in H. by rewrite lexi_irrefl in H. Qed.

(** The three cases of a comparison. *)
Ltac case_lexi k k' :=
  destruct (LexiComparator k k') eqn:?Hlt; [|destruct (LexiComparator k' k) eqn:?Hgt; [|assert (k = k') as -> by (by apply lexi_total)]].

(** ** The map of faces *)

Definition wf_sorted (w : FaceBuilder) : Prop := StronglySorted lexi_lt w.*1.

Lemma wf_sorted_NoDup w : wf_sorted w -> NoDup w.*1.
Proof.
  unfold wf_sorted. generalize w.*1. induction 1 as [|k l _ IH Hf]; constructor; [|done]. intros Hin.
  rewrite Forall_forall in Hf. pose proof (Hf k Hin) as H. unfold lexi_lt in H. by rewrite lexi_irrefl in H.
Qed.

Lemma wf_get_below k w : Forall (lexi_lt k) w.*1 -> wf_get k w = None.
Proof. destruct w as [|[k' v] w]; [done|]. cbn. intros [H _]%Forall_cons_1. by rewrite H. Qed.

Lemma wf_get_elem k v w : wf_sorted w -> wf_get k w = Some v <-> (k, v) ∈ w.
Proof.
  unfold wf_sorted. induction w as [|[k' v'] w IH]; cbn; [intros _; split; [done|by intros ?%not_elem_of_nil]|].
  intros [Hs Hf]%StronglySorted_inv. rewrite elem_of_cons.
  assert ((k, v) ∈ w -> lexi_lt k' k) as Hin.
  { intros Hin. rewrite Forall_forall in Hf. apply Hf. by apply (list_elem_of_fmap_2 fst _ (k, v)). }
  case_lexi k k'.
  - split; [done|]. intros [[= <- <-]|H]; [by rewrite lexi_irrefl in Hlt|]. by destruct (lexi_asym k k' Hlt (Hin H)).
  - rewrite IH by done. split; [auto|]. intros [[= <- <-]|H]; [by rewrite lexi_irrefl in Hgt|done].
  - split; [intros [= ->]; auto|]. intros [[= <-]|H]; [done|]. apply Hin in H. unfold lexi_lt in H. by rewrite lexi_irrefl in H.
Qed.

Lemma wf_put_keys k v w k' : k' ∈ (wf_put k v w).*1 -> k' = k \/ k' ∈ w.*1.
Proof.
  induction w as [|[k1 v1] w IH]; cbn; [rewrite list_elem_of_singleton; auto|]. case_lexi k k1; cbn; rewrite !elem_of_cons; [tauto| |tauto].
  intros [->|H]; [auto|]. destruct (IH H); auto.
Qed.

Lemma wf_put_sorted k v w : wf_sorted w -> wf_sorted (wf_put k v w).
Proof.
  unfold wf_sorted. induction w as [|[k1 v1] w IH]; cbn; [intros _; constructor; constructor|].
  intros Hs. pose proof Hs as [Hs' Hf]%StronglySorted_inv. case_lexi k k1; cbn.
  - constructor; [done|]. constructor; [done|]. eapply Forall_impl; [done|]. intros k2 Hk2. by apply (transitivity (y := k1)).
  - constructor; [by apply IH|]. apply Forall_forall. intros k2 [->|Hk2]%wf_put_keys; [done|]. rewrite Forall_forall in Hf. by apply Hf.
  - by constructor.
Qed.

Lemma wf_get_put k v w k' : wf_sorted w -> wf_get k' (wf_put k v w) = if decide (k' = k) then Some v else wf_get k' w.
Proof.
  unfold wf_sorted. induction w as [|[k1 v1] w IH]; cbn.
  { intros _. case_decide as Hk; [subst; by rewrite lexi_irrefl|]. case_lexi k' k; done. }
  intros [Hs Hf]%StronglySorted_inv. case_lexi k k1; cbn.
  - case_decide as Hk; [subst; by rewrite lexi_irrefl|]. case_lexi k' k.
    + by rewrite (transitivity (R := lexi_lt) (x := k') (y := k) (z := k1)).
    + done.
    + done.
  - rewrite IH by done. case_lexi k' k1; [|done|].
    + rewrite decide_False; [done|]. intros ->. by destruct (lexi_asym k1 k).
    + rewrite decide_False; [done|]. intros ->. by rewrite lexi_irrefl in Hgt.
  - case_lexi k' k1; [..|by rewrite decide_True].
    + rewrite decide_False; [done|]. intros ->. by rewrite lexi_irrefl in Hlt0.
    + rewrite decide_False; [done|]. intros ->. by rewrite lexi_irrefl in Hgt0.
Qed.

(** ** The faces of the cells

    The faces of a cell with their types and their nodes in the order that the type of the
    cell lists them, and all pairs of a cell and a face of it. *)

Definition cell_sides (M : Mesh) (c : Z) : option (list (CellType * list Z)) :=
  info ← getCellInfo (mesh_type M c);
  mapM (fun tl => nodes ← mapM (fun n => (mesh_nodes M c).[n]) tl.2; Some (tl.1, nodes)) (zip (face_types info) (cell_faces info)).

Definition sides_of (M : Mesh) (c : Z) : list (CellType * list Z) := default [] (cell_sides M c).

(** Every cell has its nodes. *)
Definition mesh_valid (M : Mesh) : Prop := forall c, 0 <= c < mesh_cells M ->
  Z.of_nat (length (mesh_nodes M c)) <= MAX_CELL_NODES /\ is_Some (cell_sides M c).

Definition Incidence : Type := Z * (CellType * list Z).

Definition i_key (i : Incidence) : list Z := sort_nodes i.2.2.

Definition incidences (M : Mesh) : list Incidence := mjoin ((fun c => pair c <$> sides_of M c) <$> up 0 (mesh_cells M)).

(** The pairs whose face has the nodes [k]. *)
Definition at_key (k : list Z) (l : list Incidence) : list Incidence := filter (fun i => i_key i = k) l.

Definition add_incidence (w : FaceBuilder) (i : Incidence) : FaceBuilder := add_face i.1 w i.2.1 i.2.2.

Definition built (l : list Incidence) : FaceBuilder := foldl add_incidence [] l.

Lemma add_faces_ok c nodes faces sides w :
  mapM (fun tl => ns ← mapM (fun n => nodes.[n]) tl.2; Some (tl.1, ns)) faces = Some sides ->
  add_faces c nodes faces w = Done (foldl add_incidence w (pair c <$> sides)).
Proof.
  revert sides w. induction faces as [|[t local] faces IH]; intros sides w; cbn; [by intros [= <-]|].
  destruct (mapM (fun n => nodes.[n]) local) as [ns|]; cbn; [|done].
  intros (sides' & Hs & [= <-])%bind_Some. cbn. by apply IH.
Qed.

Lemma add_cell_ok M c w : mesh_valid M -> mesh_cells M < 2 ^ 31 -> 0 <= c < mesh_cells M -> add_cell M c w = Done (foldl add_incidence w (pair c <$> sides_of M c)).
Proof.
  intros HM Hsz Hc. destruct (HM c Hc) as [Hn [sides Hs]]. unfold add_cell, sides_of. rewrite Hs. unfold cell_sides in Hs.
  destruct (Z.ltb_spec MAX_CELL_NODES (Z.of_nat (length (mesh_nodes M c)))); [lia|]. destruct (getCellInfo (mesh_type M c)) as [info|]; [|done].
  cbn [ub]. rewrite bind_Done, (add_faces_ok _ _ _ sides) by done. rewrite bind_Done, as_int_small by lia. done.
Qed.

Lemma collect_ok M : mesh_valid M -> mesh_cells M < 2 ^ 31 -> collect M = Done (built (incidences M)).
Proof.
  intros HM Hsz. unfold collect, built, incidences. assert (forall c, c ∈ up 0 (mesh_cells M) -> 0 <= c < mesh_cells M) as Hin by (intros c; by rewrite elem_of_up).
  revert Hin. generalize (@nil (list Z * FaceTypeCellsNodes)). generalize (up 0 (mesh_cells M)). intros l. induction l as [|c l IH]; intros w Hin; [done|].
  cbn [for_each fmap list_fmap]. rewrite join_cons, foldl_app, add_cell_ok by (done || apply Hin; left). apply IH. intros c' Hc'. apply Hin. by right.
Qed.

(** The entry of the map for the pairs of a cell and a face with the same nodes. *)
Definition face_of (l : list Incidence) : option FaceTypeCellsNodes :=
  match l with [] => None | i :: r => Some (mkFace i.2.1 (i.1 :: r.*1) i.2.2) end.

Lemma built_sorted l : wf_sorted (built l).
Proof.
  unfold built. assert (wf_sorted []) as Hw by constructor. revert Hw. generalize (@nil (list Z * FaceTypeCellsNodes)).
  induction l as [|i l IH]; intros w Hw; [done|]. cbn. by apply IH, wf_put_sorted.
Qed.

Lemma built_get l k : wf_get k (built l) = face_of (at_key k l).
Proof.
  induction l as [|i l IH] using rev_ind; [done|]. unfold built, at_key in *. rewrite foldl_app, filter_app. cbn [foldl].
  pose proof (built_sorted l) as Hs. unfold built in Hs. unfold add_incidence at 1, add_face. rewrite wf_get_put by done.
  rewrite filter_cons, filter_nil. fold (i_key i). destruct (decide (k = i_key i)) as [->|Hne].
  - rewrite decide_True by done. rewrite IH. destruct (filter _ l) as [|j r]; [done|]. cbn. by rewrite fmap_app.
  - rewrite decide_False by done. by rewrite app_nil_r.
Qed.

Lemma built_keys l k : k ∈ (built l).*1 <-> exists i, i ∈ l /\ i_key i = k.
Proof.
  split.
  - intros ([k' v] & -> & Hin)%list_elem_of_fmap. apply wf_get_elem in Hin; [|apply built_sorted]. rewrite built_get in Hin. cbn.
    destruct (at_key k' l) as [|i r] eqn:E; [done|]. exists i. assert (i ∈ at_key k' l) as [? ?]%list_elem_of_filter by (rewrite E; left). done.
  - intros (i & Hi & Hk). assert (i ∈ at_key k l) as Hik by (by apply list_elem_of_filter).
    destruct (at_key k l) as [|j r] eqn:E; [by apply not_elem_of_nil in Hik|].
    apply (list_elem_of_fmap_2 fst _ (k, mkFace j.2.1 (j.1 :: r.*1) j.2.2)), wf_get_elem; [apply built_sorted|]. by rewrite built_get, E.
Qed.

(** The entries in the order of the keys. *)
Lemma built_entries l : (built l).*2 = wf_at (built l) <$> (built l).*1.
Proof.
  rewrite <- list_fmap_compose. apply list_fmap_ext. intros n [k v] Hn. cbn. unfold wf_at.
  by rewrite (proj2 (wf_get_elem k v (built l) (built_sorted l))) by (by apply list_elem_of_lookup_2 in Hn).
Qed.

(** ** The loops that fill the arrays *)

Lemma count_loop {IB : IndexBits} es i t : 0 <= i -> 0 <= t -> 2 * (i + Z.of_nat (length es)) < 2 ^ 31 ->
  t + total (facenodes <$> es) < 2 ^ 31 -> for_each es count_face (i, t) = Done (i + Z.of_nat (length es), t + total (facenodes <$> es)).
Proof.
  pose proof index_max_lower as Hmax. revert i t. induction es as [|e es IH]; intros i t Hi Ht Hn Hs; cbn [for_each].
  - unfold total. cbn. by rewrite !Z.add_0_r.
  - unfold total in *. cbn [length] in Hn. rewrite fmap_cons, join_cons, length_app in Hs |- *. cbn [count_face].
    rewrite (ix_add_small t), bind_Done, (ix_mul_small 2 i), bind_Done, (ix_add_small (2 * i)), bind_Done, (ix_add_small i), !bind_Done, IH by lia. do 2 f_equal; cbn [length]; lia.
Qed.

Lemma face_nodes_loop {IB : IndexBits} w fks nodes offsets types :
  Forall (fun fk => 0 <= fk.1 < 2 ^ 31 - 1) fks -> Z.of_nat (length nodes) + total ((fun fk => facenodes (wf_at w fk.2)) <$> fks) < 2 ^ 31 ->
  for_each fks (face_nodes_step w) (nodes, offsets, types) =
  Done (nodes ++ mjoin ((fun fk => facenodes (wf_at w fk.2)) <$> fks),
    offsets ++ offsets_from (Z.of_nat (length nodes)) ((fun fk => facenodes (wf_at w fk.2)) <$> fks), types ++ ((fun fk => facetype (wf_at w fk.2)) <$> fks)).
Proof.
  intros Hf. revert nodes offsets types. induction Hf as [|fk fks Hfk _ IH]; intros nodes offsets types Hs; cbn [for_each].
  - by rewrite !app_nil_r.
  - unfold total in *. rewrite fmap_cons, join_cons, length_app in Hs. cbn [face_nodes_step]. rewrite (as_int_small (_ + Z.of_nat _)), bind_Done, (as_int_small (fk.1 + 1)) by lia.
    rewrite !bind_Done, IH by (rewrite length_app; lia). rewrite <- !app_assoc. cbn [app fmap list_fmap offsets_from]. by rewrite length_app, Nat2Z.inj_add.
Qed.

Lemma push_faces f cs (m : gmap Z (list Z)) n : 0 <= n -> n + Z.of_nat (length cs) < 2 ^ 31 ->
  exists m', for_each cs (push_face f) (m, n) = Done (m', n + Z.of_nat (length cs)) /\
    forall c, default [] (m' !! c) = default [] (m !! c) ++ ((fun _ => f) <$> filter (fun c' => c' = c) cs).
Proof.
  revert m n. induction cs as [|c' cs IH]; intros m n Hn Hs; cbn [for_each].
  - exists m. rewrite Z.add_0_r. split; [done|]. intros c. by rewrite app_nil_r.
  - cbn [length] in Hs. cbn [push_face]. rewrite as_int_small by lia. rewrite !bind_Done.
    destruct (IH (<[c' := default [] (m !! c') ++ [f]]> m) (n + 1)) as (m' & -> & Hm'); [lia|lia|]. exists m'. split; [do 2 f_equal; cbn [length]; lia|].
    intros c. rewrite Hm', filter_cons. destruct (decide (c' = c)) as [->|Hne]; [rewrite lookup_insert_eq; cbn; by rewrite <- app_assoc|by rewrite lookup_insert_ne].
Qed.

(** The faces of a cell in the order of their numbers. *)
Definition cell_ids (w : FaceBuilder) (fks : list (Z * list Z)) (c : Z) : list Z :=
  mjoin ((fun fk => (fun _ => fk.1) <$> filter (fun c' => c' = c) (facecells (wf_at w fk.2))) <$> fks).

Lemma cell_to_face_loop w fks (m : gmap Z (list Z)) n : Forall (fun fk => 0 <= fk.1 < 2 ^ 31 - 1) fks -> 0 <= n ->
  n + total ((fun fk => facecells (wf_at w fk.2)) <$> fks) < 2 ^ 31 ->
  exists m', for_each fks (face_to_cells w) (m, n) = Done (m', n + total ((fun fk => facecells (wf_at w fk.2)) <$> fks)) /\
    forall c, default [] (m' !! c) = default [] (m !! c) ++ cell_ids w fks c.
Proof.
  intros Hf. revert m n. induction Hf as [|fk fks Hfk _ IH]; intros m n Hn Hs; cbn [for_each].
  - exists m. unfold total. cbn. rewrite Z.add_0_r. split; [done|]. intros c. by rewrite app_nil_r.
  - unfold total in *. rewrite fmap_cons, join_cons, length_app in Hs |- *.
    destruct (push_faces fk.1 (facecells (wf_at w fk.2)) m n) as (m1 & Hp & Hm1); [lia|lia|].
    assert (face_to_cells w fk (m, n) = Done (m1, n + Z.of_nat (length (facecells (wf_at w fk.2))))) as ->.
    { unfold face_to_cells. by rewrite Hp, bind_Done, as_int_small by lia. }
    rewrite bind_Done.
    destruct (IH m1 (n + Z.of_nat (length (facecells (wf_at w fk.2))))) as (m' & -> & Hm'); [lia|lia|]. exists m'. split; [do 2 f_equal; lia|].
    intros c. rewrite Hm', Hm1, <- app_assoc. done.
Qed.

Lemma cell_faces_step_ok cells (m : gmap Z (list Z)) c o faces neighbors offsets :
  mapM (fun f => otherSide cells f c) (default [] (m !! c)) = Some o ->
  Z.of_nat (length faces) + Z.of_nat (length (default [] (m !! c))) < 2 ^ 31 ->
  cell_faces_step cells m c (faces, neighbors, offsets) = Done (faces ++ default [] (m !! c), neighbors ++ o, offsets ++ [Z.of_nat (length faces)]).
Proof.
  unfold cell_faces_step. destruct (m !! c) as [ids|].
  - change (default [] (Some ids)) with ids. intros -> Hs. cbn [ub]. by rewrite bind_Done, as_int_small by lia.
  - change (default [] None) with (@nil Z). intros [= <-] _. by rewrite !app_nil_r.
Qed.

Lemma cell_faces_loop cells (m : gmap Z (list Z)) (others : Z -> list Z) l faces neighbors offsets :
  (forall c, c ∈ l -> mapM (fun f => otherSide cells f c) (default [] (m !! c)) = Some (others c)) ->
  Z.of_nat (length faces) + total ((fun c => default [] (m !! c)) <$> l) < 2 ^ 31 ->
  for_each l (cell_faces_step cells m) (faces, neighbors, offsets) =
  Done (faces ++ mjoin ((fun c => default [] (m !! c)) <$> l), neighbors ++ mjoin (others <$> l),
    offsets ++ offsets_from (Z.of_nat (length faces)) ((fun c => default [] (m !! c)) <$> l)).
Proof.
  revert faces neighbors offsets. induction l as [|c l IH]; intros faces neighbors offsets Ho Hs; cbn [for_each]; [by rewrite !app_nil_r|].
  unfold total in *. rewrite fmap_cons, join_cons, length_app in Hs.
  rewrite (cell_faces_step_ok _ _ _ (others c)) by first [apply Ho; left|lia]. rewrite bind_Done, IH by first [intros; apply Ho; by right|rewrite length_app; lia].
  rewrite !fmap_cons, !join_cons. cbn [offsets_from]. by rewrite length_app, Nat2Z.inj_add, <- !app_assoc.
Qed.

(** ** The relations *)

Lemma mapM_ext_Some {A B} (f : A -> option B) (g : A -> B) l : (forall x, x ∈ l -> f x = Some (g x)) -> mapM f l = Some (g <$> l).
Proof.
  induction l as [|x l IH]; intros Hf; [done|]. cbn. rewrite Hf by left. cbn. by rewrite IH by (intros; apply Hf; by right).
Qed.

Lemma fmap_join {A B C} (h : B -> C) (g : A -> list B) l : h <$> mjoin (g <$> l) = mjoin ((fun x => h <$> g x) <$> l).
Proof. induction l as [|x l IH]; [done|]. by rewrite !fmap_cons, !join_cons, fmap_app, IH. Qed.

Lemma elem_of_join_fmap {A B} (g : A -> list B) l y : y ∈ mjoin (g <$> l) -> exists x, x ∈ l /\ y ∈ g x.
Proof. rewrite list_elem_of_join. intros (ys & Hy & (x & -> & Hx)%list_elem_of_fmap). by exists x. Qed.

Lemma zip_up_keys {A} (l : list A) n : Forall (fun ik => l.[ik.1 - n] = Some ik.2) (zip (up n (n + Z.of_nat (length l))) l) /\
  (zip (up n (n + Z.of_nat (length l))) l).*2 = l.
Proof.
  revert n. induction l as [|x l IH]; intros n; [by destruct (up _ _)|]. rewrite up_cons by (cbn [length]; lia). cbn [zip_with fmap list_fmap].
  replace (n + Z.of_nat (length (x :: l))) with (n + 1 + Z.of_nat (length l)) by (cbn [length]; lia). destruct (IH (n + 1)) as [H1 H2]. split; [|cbn; by rewrite H2].
  constructor; [cbn; by rewrite Z.sub_diag|]. eapply Forall_impl; [exact H1|]. intros [i y]. cbn. intros Hi. pose proof (zlookup_Some_bounds _ _ _ Hi).
  rewrite zlookup_to_nat in Hi |- * by lia. by replace (Z.to_nat (i - n)) with (S (Z.to_nat (i - (n + 1)))) by lia.
Qed.

Lemma group_keys k c (l : list Incidence) :
  (fun _ => Some k) <$> filter (fun c' => c' = c) (at_key k l).*1 = (fun i => Some (i_key i)) <$> filter (fun i => Some (i_key i) = Some k) (filter (fun i => i.1 = c) l).
Proof.
  unfold at_key. induction l as [|i l IH]; [done|]. rewrite !(filter_cons _ i). destruct (decide (i_key i = k)) as [Hk|Hk], (decide (i.1 = c)) as [Hc|Hc].
  - rewrite fmap_cons, !filter_cons, !decide_True by congruence. rewrite !fmap_cons, IH. by rewrite Hk.
  - by rewrite fmap_cons, filter_cons, decide_False.
  - by rewrite (filter_cons _ i), decide_False by congruence.
  - done.
Qed.

Section relations.
Context (M : Mesh).

Definition incs : list Incidence := incidences M.
Definition work : FaceBuilder := built incs.
Definition keys : list (list Z) := work.*1.
Definition numbered : list (Z * list Z) := zip (up 0 (Z.of_nat (length keys))) keys.
Definition pairs : list Z := mjoin (cell_pair <$> work.*2).

Lemma cells_at k : facecells (wf_at work k) = (at_key k incs).*1.
Proof. unfold wf_at, work. rewrite built_get. by destruct (at_key k incs). Qed.

Lemma numbered_keys : Forall (fun fk => keys.[fk.1] = Some fk.2) numbered /\ numbered.*2 = keys.
Proof.
  unfold numbered. destruct (zip_up_keys keys 0) as [H1 H2]. rewrite Z.add_0_l in H1, H2. split; [|done].
  eapply Forall_impl; [exact H1|]. intros [f k]. cbn. by rewrite Z.sub_0_r.
Qed.

Lemma cell_ids_elem f c : f ∈ cell_ids work numbered c -> exists k, keys.[f] = Some k /\ c ∈ (at_key k incs).*1.
Proof.
  unfold cell_ids. intros ([f' k] & Hfk & Hf)%elem_of_join_fmap. cbn in Hf. apply list_elem_of_fmap in Hf as (c' & -> & [-> Hc']%list_elem_of_filter).
  exists k. rewrite cells_at in Hc'. split; [|done]. destruct numbered_keys as [H _]. rewrite Forall_forall in H. by apply (H (f', k)).
Qed.

(** The faces found for a cell are the faces of its pairs. *)
Lemma cell_ids_keys c : (fun f => keys.[f]) <$> cell_ids work numbered c ≡ₚ (fun i => Some (i_key i)) <$> filter (fun i => i.1 = c) incs.
Proof.
  unfold cell_ids. rewrite fmap_join. destruct numbered_keys as [H1 H2].
  transitivity (mjoin ((fun k => (fun i => Some (i_key i)) <$> filter (fun i => Some (i_key i) = Some k) (filter (fun i => i.1 = c) incs)) <$> numbered.*2)).
  - rewrite <- list_fmap_compose. apply join_perm. intros [f k] Hfk. rewrite Forall_forall in H1. specialize (H1 _ Hfk). cbn [fst snd] in H1 |- *.
    rewrite cells_at, <- list_fmap_compose. apply Permutation_refl'. etransitivity; [|apply group_keys]. apply list_fmap_ext. intros ? ? _. exact H1.
  - rewrite H2, <- fmap_join. apply fmap_Permutation. rewrite (join_groups (fun i => Some (i_key i))).
    + by rewrite filter_all by (by eexists).
    + apply wf_sorted_NoDup, built_sorted.
    + intros i k [_ Hi]%list_elem_of_filter [= <-]. apply built_keys. by exists i.
Qed.

Lemma incs_of_cell c : 0 <= c < mesh_cells M -> filter (fun i => i.1 = c) incs = pair c <$> sides_of M c.
Proof.
  intros Hc. unfold incs, incidences. assert (c ∈ up 0 (mesh_cells M)) as Hin by (by apply elem_of_up). assert (NoDup (up 0 (mesh_cells M))) as Hnd by apply NoDup_seqZ.
  revert Hin Hnd. generalize (up 0 (mesh_cells M)). intros l.
  assert (forall c', filter (fun i : Incidence => i.1 = c) (pair c' <$> sides_of M c') = if decide (c' = c) then pair c' <$> sides_of M c' else []) as Hf.
  { intros c'. case_decide as E; [apply filter_all|apply filter_none]; intros i (s & -> & _)%list_elem_of_fmap; done. }
  induction l as [|c' l IH]; [by intros ?%not_elem_of_nil|]. intros Hin [Hni Hnd]%NoDup_cons. rewrite fmap_cons, join_cons, filter_app, Hf. case_decide as E.
  - subst c'. rewrite filter_none; [by rewrite app_nil_r|]. intros i (c' & Hc' & Hi)%elem_of_join_fmap Ei. apply list_elem_of_fmap in Hi as (s & -> & _). cbn in Ei. by subst.
  - apply elem_of_cons in Hin as [->|Hin]; [done|]. exact (IH Hin Hnd).
Qed.

Lemma key_used f k : keys.[f] = Some k -> exists i r, at_key k incs = i :: r.
Proof.
  intros Hk. pose proof (zlookup_Some_bounds _ _ _ Hk). rewrite zlookup_to_nat in Hk by lia. apply list_elem_of_lookup_2, built_keys in Hk as (i & Hi & Hik).
  assert (i ∈ at_key k incs) as Hin by (by apply list_elem_of_filter). destruct (at_key k incs) as [|j r]; [by apply not_elem_of_nil in Hin|by eexists _, _].
Qed.

Lemma work_entries : work.*2 = wf_at work <$> keys.
Proof. apply built_entries. Qed.

Lemma pairs_at f k i r : keys.[f] = Some k -> at_key k incs = i :: r ->
  pairs.[2 * f] = Some i.1 /\ pairs.[2 * f + 1] = Some (match r with [] => -1 | j :: _ => j.1 end).
Proof.
  intros Hf Hk. unfold pairs. apply join_pairs.
  - apply Forall_fmap, Forall_forall. intros e _. unfold cell_pair. cbn. by destruct (facecells e) as [|? [|? ?]].
  - rewrite work_entries, !zlookup_fmap, Hf. cbn. unfold cell_pair. rewrite cells_at, Hk.
    by destruct r.
Qed.

Lemma few_cells_at k : Z.of_nat (length incs) < 2 ^ 31 ->
  few_cells (wf_at work k) = true <-> (1 <= length (at_key k incs) <= 2)%nat.
Proof.
  intros Hs. unfold few_cells. rewrite cells_at, length_fmap. assert (length (at_key k incs) <= length incs)%nat by apply length_filter.
  unfold Incidence in *.
  rewrite to_int32_id by lia. rewrite andb_true_iff, !Z.leb_le. lia.
Qed.

Lemma few_cells_all : Z.of_nat (length incs) < 2 ^ 31 -> forallb few_cells work.*2 = true <-> forall k, (length (at_key k incs) <= 2)%nat.
Proof.
  intros Hs.
  rewrite work_entries, forallb_forall. split.
  - intros H k. destruct (at_key k incs) as [|i r] eqn:Ek; [cbn; lia|]. rewrite <- Ek.
    assert (few_cells (wf_at work k) = true) as Hf.
    { apply H, list_elem_of_In, list_elem_of_fmap_2, built_keys. exists i. assert (i ∈ at_key k incs) as [? ?]%list_elem_of_filter by (rewrite Ek; left). done. }
    apply few_cells_at in Hf; [|done]. lia.
  - intros H e (k & -> & Hk)%list_elem_of_In%list_elem_of_fmap. apply few_cells_at; [done|]. split; [|apply H].
    apply list_elem_of_lookup in Hk as [n Hn]. destruct (key_used (Z.of_nat n) k) as (i & r & E); [by rewrite zlookup_of_nat|]. rewrite E. cbn. lia.
Qed.

(** The faces and the neighbors of each cell. *)
Definition ids (c : Z) : list Z := cell_ids work numbered c.
Definition others (c : Z) : list Z := (fun f => default (-1) (otherSide pairs f c)) <$> ids c.

Lemma other_sides c f : f ∈ ids c -> exists o, otherSide pairs f c = Some o /\
  (pairs.[2 * f] = Some c /\ pairs.[2 * f + 1] = Some o \/ pairs.[2 * f] = Some o /\ ((forall k, (length (at_key k incs) <= 2)%nat) -> pairs.[2 * f + 1] = Some c)).
Proof.
  intros (k & Hk & Hc)%cell_ids_elem. destruct (key_used f k Hk) as (i & r & E). destruct (pairs_at f k i r Hk E) as [H1 H2]. unfold otherSide. rewrite H1, H2. cbn.
  destruct (Z.eqb_spec i.1 c) as [Hi|Hi]; (eexists; split; [done|]).
  - left. by rewrite Hi.
  - right. split; [done|]. intros Hfew. specialize (Hfew k). rewrite E in Hfew, Hc. cbn in Hc. apply elem_of_cons in Hc as [->|Hc]; [done|].
    destruct r as [|j [|j' r]]; [by apply not_elem_of_nil in Hc| |cbn in Hfew; lia]. cbn in Hc. apply list_elem_of_singleton in Hc. by subst.
Qed.

Definition node_lists : list (list Z) := (fun k => facenodes (wf_at work k)) <$> keys.

(** ** What is counted *)

(** The counters fit: the cells, twice the pairs of a cell and a face, and their nodes. *)
Definition mesh_fits : Prop :=
  0 <= mesh_cells M < 2 ^ 31 - 1 /\ 2 * Z.of_nat (length incs) < 2 ^ 31 /\ total ((fun i => i.2.2) <$> incs) < 2 ^ 31.

Lemma keys_groups : mjoin ((fun k => at_key k incs) <$> keys) ≡ₚ incs.
Proof.
  transitivity (mjoin ((fun k => filter (fun i => Some (i_key i) = Some k) incs) <$> keys)).
  { apply join_perm. intros k _. unfold at_key. apply Permutation_refl', list_filter_iff. intros i. split; [by intros ->|by intros [= ->]]. }
  rewrite (join_groups (fun i => Some (i_key i))).
  - by rewrite filter_all by (by eexists).
  - apply wf_sorted_NoDup, built_sorted.
  - intros i k Hi [= <-]. apply built_keys. by exists i.
Qed.

Lemma keys_few : (length keys <= length incs)%nat.
Proof.
  rewrite <- (length_fmap i_key incs). apply submseteq_length, NoDup_submseteq; [apply wf_sorted_NoDup, built_sorted|].
  intros k (i & Hi & <-)%built_keys. by apply list_elem_of_fmap_2.
Qed.

Lemma facecells_total ks : total ((fun k => facecells (wf_at work k)) <$> ks) = Z.of_nat (length (mjoin ((fun k => at_key k incs) <$> ks))).
Proof.
  induction ks as [|k ks IH]; [done|]. rewrite !fmap_cons, total_cons, join_cons, length_app, IH, cells_at, length_fmap, Nat2Z.inj_add. done.
Qed.

Lemma node_lists_total : total node_lists <= total ((fun i => i.2.2) <$> incs).
Proof.
  transitivity (total ((fun i => i.2.2) <$> mjoin ((fun k => at_key k incs) <$> keys))).
  - unfold node_lists. induction keys as [|k ks IH]; [done|]. rewrite !fmap_cons, total_cons, join_cons, fmap_app, join_total_app.
    assert (Z.of_nat (length (facenodes (wf_at work k))) <= total ((fun i => i.2.2) <$> at_key k incs)); [|lia].
    unfold wf_at, work. rewrite built_get. destruct (at_key k incs) as [|i r]; [done|]. rewrite fmap_cons, total_cons. cbn. pose proof (total_nonneg ((fun i => i.2.2) <$> r)). lia.
  - apply Z.eq_le_incl. unfold total. f_equal. apply Permutation_length. by rewrite keys_groups.
Qed.

Lemma ids_total : total (ids <$> up 0 (mesh_cells M)) = Z.of_nat (length incs).
Proof.
  unfold incs, incidences. assert (forall c, c ∈ up 0 (mesh_cells M) -> 0 <= c < mesh_cells M) as Hin by (intros c; by rewrite elem_of_up). revert Hin.
  generalize (up 0 (mesh_cells M)) as l. induction l as [|c l IH]; intros Hin; [done|].
  rewrite !fmap_cons, total_cons, join_cons, length_app, IH by (intros; apply Hin; by right).
  pose proof (Permutation_length (cell_ids_keys c)) as Hp. rewrite !length_fmap, incs_of_cell, length_fmap in Hp by (apply Hin; left).
  unfold ids. rewrite Hp, length_fmap, Nat2Z.inj_add. done.
Qed.

Lemma numbered_small : mesh_fits -> Forall (fun fk => 0 <= fk.1 < 2 ^ 31 - 1) numbered.
Proof.
  intros (_ & Hi & _). apply Forall_forall. intros [f k] Hfk. destruct numbered_keys as [H1 _]. rewrite Forall_forall in H1. specialize (H1 _ Hfk).
  apply zlookup_Some_bounds in H1. cbn in H1 |- *. pose proof keys_few. lia.
Qed.

(** The result of the function. *)
Lemma initFaces_run {IB : IndexBits} old : mesh_valid M -> mesh_fits -> initFaces M old =
  Done (if forallb few_cells work.*2
    then (true, Z.of_nat (length keys), mkFaceData pairs (mjoin (ids <$> up 0 (mesh_cells M))) (mjoin (others <$> up 0 (mesh_cells M)))
      (offsets_all (ids <$> up 0 (mesh_cells M))) (mjoin node_lists) (offsets_all node_lists) ((fun k => facetype (wf_at work k)) <$> keys))
    else (false, 0, mkFaceData [] (c2f old) (c2n old) (c2foffsets old) (f2n old) (f2noffsets old) (f2ntypes old))).
Proof.
  intros HM Hfit. pose proof Hfit as (Hcells & Hincs & Hnodes). pose proof keys_few as Hk. pose proof node_lists_total as Hnt. pose proof index_max_lower as Hmax.
  pose proof (numbered_small Hfit) as Hsm. pose proof numbered_keys as [_ Hnk].
  assert (length work = length keys) as Hlw by (unfold keys; by rewrite length_fmap).
  unfold initFaces. rewrite collect_ok by (done || lia). rewrite bind_Done. fold incs work keys pairs.
  rewrite ix_mul_small, bind_Done, count_loop; rewrite ?work_entries, ?length_fmap, <- ?list_fmap_compose.
  all: try lia.
  2: { change (0 + total node_lists < 2 ^ 31). lia. }
  rewrite bind_Done, <- work_entries, !Z.add_0_l. destruct (forallb few_cells work.*2); [|done]. cbn [negb].
  rewrite (ix_add_small (Z.of_nat (length keys))), bind_Done by lia. fold numbered. unfold node_lists in *. rewrite <- Hnk in Hnt |- *. rewrite <- !list_fmap_compose in Hnt |- *. unfold compose in *.
  rewrite face_nodes_loop; [|done|cbn [length]; lia]. rewrite bind_Done.
  destruct (cell_to_face_loop work numbered ∅ 0 Hsm ltac:(lia)) as (m & -> & Hids).
  { pose proof (facecells_total numbered.*2) as Ht. rewrite <- list_fmap_compose in Ht. unfold compose in Ht. rewrite Ht, Hnk, keys_groups. lia. }
  rewrite bind_Done, ix_add_small, bind_Done by lia.
  assert (((fun c => default [] (m !! c)) <$> up 0 (mesh_cells M)) = ids <$> up 0 (mesh_cells M)) as Em.
  { apply list_fmap_ext. intros _ c _. by rewrite Hids. }
  rewrite (cell_faces_loop pairs m others).
  - rewrite bind_Done. cbn [app]. rewrite Em. unfold offsets_all. by rewrite <- !list_fmap_compose.
  - intros c _. rewrite Hids. unfold others. apply mapM_ext_Some. intros f Hf. destruct (other_sides c f Hf) as (x & -> & _). done.
  - rewrite Em, ids_total. cbn [length]. lia.
Qed.

End relations.
(** ** What is computed *)

(** The arrays are the relations of the mesh when its faces have the numbers of their sets
    of nodes in [keys]. *)
Record face_relations (M : Mesh) (keys : list (list Z)) (fd : FaceData) : Prop := {
  fr_distinct : NoDup keys;
  fr_all k : k ∈ keys <-> exists i, i ∈ incidences M /\ i_key i = k;
  fr_face f k : keys.[f] = Some k -> exists i r, at_key k (incidences M) = i :: r /\ (length r <= 1)%nat /\
    (f2c fd).[2 * f] = Some i.1 /\ (f2c fd).[2 * f + 1] = Some (match r with [] => -1 | j :: _ => j.1 end) /\
    slice_of (f2n fd) (f2noffsets fd) f = Some i.2.2 /\ (f2ntypes fd).[f] = Some i.2.1;
  fr_cell c : 0 <= c < mesh_cells M -> exists faces neighbors,
    slice_of (c2f fd) (c2foffsets fd) c = Some faces /\ slice_of (c2n fd) (c2foffsets fd) c = Some neighbors /\
    (fun f => keys.[f]) <$> faces ≡ₚ (fun s => Some (sort_nodes s.2)) <$> sides_of M c /\
    Forall2 (fun f o => (f2c fd).[2 * f] = Some c /\ (f2c fd).[2 * f + 1] = Some o \/
      (f2c fd).[2 * f] = Some o /\ (f2c fd).[2 * f + 1] = Some c) faces neighbors }.

Definition few_incidences (M : Mesh) : Prop := forall k, (length (at_key k (incidences M)) <= 2)%nat.

Lemma initFaces_face M f k : few_incidences M -> (keys M).[f] = Some k -> exists i r, at_key k (incs M) = i :: r /\ (length r <= 1)%nat /\
  (pairs M).[2 * f] = Some i.1 /\ (pairs M).[2 * f + 1] = Some (match r with [] => -1 | j :: _ => j.1 end) /\
  slice_of (mjoin (node_lists M)) (offsets_all (node_lists M)) f = Some i.2.2 /\ ((fun k => facetype (wf_at (work M) k)) <$> keys M).[f] = Some i.2.1.
Proof.
  intros Hfew Hf. destruct (key_used M f k Hf) as (i & r & E). destruct (pairs_at M f k i r Hf E) as [H1 H2]. exists i, r. split; [done|].
  split; [specialize (Hfew k); fold (incs M) in Hfew; rewrite E in Hfew; cbn in Hfew; lia|]. split; [done|]. split; [done|]. unfold node_lists.
  split; [apply slice_of_join|]; rewrite zlookup_fmap, Hf; cbn; unfold wf_at, work; by rewrite built_get, E.
Qed.

Lemma fits_few M : mesh_fits M -> Z.of_nat (length (incs M)) < 2 ^ 31.
Proof. intros (_ & H & _). lia. Qed.

Lemma initFaces_ok {IB : IndexBits} M old : mesh_valid M -> mesh_fits M -> few_incidences M ->
  exists fd, initFaces M old = Done (true, Z.of_nat (length (keys M)), fd) /\ face_relations M (keys M) fd.
Proof.
  intros HM Hfit Hfew. eexists. split; [rewrite initFaces_run by done; by rewrite (proj2 (few_cells_all M (fits_few M Hfit)) Hfew)|].
  split; cbn [f2c c2f c2n c2foffsets f2n f2noffsets f2ntypes].
  - apply wf_sorted_NoDup, built_sorted.
  - apply built_keys.
  - intros f k. by apply initFaces_face.
  - intros c Hc. exists (ids M c), (others M c). assert ((up 0 (mesh_cells M)).[c] = Some c) as Hup.
    { rewrite zlookup_to_nat by lia. unfold up. rewrite lookup_seqZ_lt by lia. f_equal. lia. }
    split; [apply slice_of_join; by rewrite zlookup_fmap, Hup|]. split; [|split].
    + assert (offsets_all (ids M <$> up 0 (mesh_cells M)) = offsets_all (others M <$> up 0 (mesh_cells M))) as ->; [|apply slice_of_join; by rewrite zlookup_fmap, Hup].
      apply offsets_all_ext. rewrite <- !list_fmap_compose. apply list_fmap_ext. intros ? c' _. unfold compose, others. by rewrite length_fmap.
    + unfold ids. rewrite cell_ids_keys, incs_of_cell, <- list_fmap_compose by done. done.
    + unfold others. apply Forall2_fmap_r, Forall_Forall2_diag, Forall_forall. intros f Hf. unfold compose. destruct (other_sides M c f Hf) as (o & -> & [?|[? H]]); [by left|right]. auto.
Qed.

(** A mesh fits when its cells have at most [a] faces, these have at most [b] nodes, and
    there are not too many cells. *)
Lemma mesh_fits_cells M a b : 0 <= mesh_cells M < 2 ^ 31 - 1 -> 0 <= a -> 0 <= b ->
  (forall c, 0 <= c < mesh_cells M -> Z.of_nat (length (sides_of M c)) <= a /\ total (sides_of M c).*2 <= b) ->
  2 * a * mesh_cells M < 2 ^ 31 -> b * mesh_cells M < 2 ^ 31 -> mesh_fits M.
Proof.
  intros Hn Ha0 Hb0 Hc Ha Hb. assert (forall l, (forall c, c ∈ l -> 0 <= c < mesh_cells M) ->
    Z.of_nat (length (mjoin ((fun c => pair c <$> sides_of M c) <$> l))) <= a * Z.of_nat (length l) /\
    total ((fun i : Incidence => i.2.2) <$> mjoin ((fun c => pair c <$> sides_of M c) <$> l)) <= b * Z.of_nat (length l)) as H.
  { induction l as [|c l IH]; intros Hl; [unfold total; cbn; lia|]. destruct IH as [H1 H2]; [intros; apply Hl; by right|]. destruct (Hc c) as [H3 H4]; [apply Hl; left|].
    rewrite fmap_cons, join_cons, length_app, length_fmap, fmap_app, join_total_app, <- list_fmap_compose. cbn [length]. split; [nia|].
    change (snd ∘ snd ∘ pair c <$> sides_of M c) with ((sides_of M c).*2). change (_ <$> sides_of M c) with ((sides_of M c).*2). nia. }
  destruct (H (up 0 (mesh_cells M))) as [H1 H2]; [intros c; by rewrite elem_of_up|]. unfold up in H1, H2. rewrite length_seqZ in H1, H2.
  rewrite Z2Nat.id, Z.sub_0_r in H1, H2 by lia.
  unfold mesh_fits, incs, incidences, up. rewrite Z.sub_0_r. unfold Incidence in *. split; [done|]. split; [|lia].
  lia.
Qed.

(** The faces of a cell have as many nodes as the type of the cell lists. *)
Lemma cell_sides_bound M c a b : 0 <= a -> 0 <= b ->
  (forall info, getCellInfo (mesh_type M c) = Some info ->
    Z.of_nat (length (zip (face_types info) (cell_faces info))) <= a /\ total (zip (face_types info) (cell_faces info)).*2 <= b) ->
  Z.of_nat (length (sides_of M c)) <= a /\ total (sides_of M c).*2 <= b.
Proof.
  intros Ha Hb Hinfo. unfold sides_of, cell_sides. destruct (getCellInfo (mesh_type M c)) as [info|] eqn:Hi; [|by cbn]. cbn [mbind option_bind].
  destruct (mapM _ _) as [sides|] eqn:Es; [|by cbn]. cbn [default]. apply mapM_Some_1 in Es.
  destruct (Hinfo info eq_refl) as [H1 H2].
  assert (length <$> sides.*2 = length <$> (zip (face_types info) (cell_faces info)).*2) as El.
  { clear -Es. induction Es as [|tl s l k Hs _ IH]; [done|]. rewrite !fmap_cons, IH. f_equal. apply bind_Some in Hs as (ns & Hn & [= <-]). apply mapM_Some_1, Forall2_length in Hn. by rewrite Hn. }
  apply Forall2_length in Es. split; [cbn; by rewrite <- Es|]. assert (forall ls ls' : list (list Z), length <$> ls = length <$> ls' -> total ls = total ls') as Ht.
  { clear. induction ls as [|x ls IH]; intros [|y ls']; cbn [fmap list_fmap]; try done. intros [= H1 H2]. rewrite !total_cons, (IH _ H2), H1. done. }
  cbn. by rewrite (Ht _ _ El).
Qed.

(** Every registered cell has at most 6 faces with 54 nodes, so that meshes of fewer than
    2^31 / 54 cells fit. *)
Lemma cell_sides_small M c : Z.of_nat (length (sides_of M c)) <= 6 /\ total (sides_of M c).*2 <= 54.
Proof.
  apply cell_sides_bound; [lia|lia|]. intros info Hi. destruct (mesh_type M c); cbn in Hi; try done; injection Hi as <-; by vm_compute.
Qed.

Lemma mesh_fits_small M : 0 <= mesh_cells M -> 54 * mesh_cells M < 2 ^ 31 -> mesh_fits M.
Proof. intros H0 Hn. apply (mesh_fits_cells M 6 54); [lia|lia|lia| |lia|lia]. intros c _. apply cell_sides_small. Qed.

(** C38: [initFaces] returns for every mesh whose cells have their nodes and whose counts fit
    its [int] counters (fewer than 2^31 - 1 cells, 2^30 pairs of a cell and a face of it,
    and 2^31 nodes of all these faces), and it succeeds exactly when no face, taken as a
    set of nodes, occurs more than twice among the faces of the cells.  When it fails, no
    faces are counted and the cells of faces are cleared, but the other arrays keep what
    they held, where the documentation in [MeshHelpers.hpp] says that all arrays are set
    to [nullptr]. *)
Theorem init_faces_result {IB : IndexBits} M old : mesh_valid M -> mesh_fits M ->
  exists ok n fd, initFaces M old = Done (ok, n, fd) /\ (ok = true <-> few_incidences M) /\
    (ok = false -> n = 0 /\ fd = mkFaceData [] (c2f old) (c2n old) (c2foffsets old) (f2n old) (f2noffsets old) (f2ntypes old)).
Proof.
  intros HM Hfit. rewrite initFaces_run by done. pose proof (few_cells_all M (fits_few M Hfit)) as Hfew.
  destruct (forallb few_cells (work M).*2); eexists _, _, _; (split; [done|]).
  - split; [|done]. split; [|done]. intros _. exact (proj1 Hfew eq_refl).
  - split; [|done]. split; [done|]. intros H. apply Hfew in H. done.
Qed.

(** C11: When [initFaces] succeeds on a mesh whose counts fit its [int] counters (fewer than
    2^31 - 1 cells, 2^30 pairs of a cell and a face of it, and 2^31 nodes of all these
    faces), its arrays are the relations of the mesh.  The faces are numbered without
    repetition by the sets of nodes that occur in cells; the cells of a face are the one
    or two cells where it occurs, and its nodes and type are those of the first, in the
    order that points outward from that cell; the faces stored for a cell are exactly the
    faces of the cell; and the neighbor stored beside each is the cell on its other side,
    or -1. *)
Theorem init_faces_relations {IB : IndexBits} M old n fd : mesh_valid M -> mesh_fits M -> initFaces M old = Done (true, n, fd) ->
  exists keys : list (list Z), Z.of_nat (length keys) = n /\ face_relations M keys fd.
Proof.
  intros HM Hfit Hr. assert (few_incidences M) as Hfew.
  { pose proof (proj1 (few_cells_all M (fits_few M Hfit))) as Hfew. rewrite initFaces_run in Hr by done.
    destruct (forallb few_cells (work M).*2); [exact (Hfew eq_refl)|done]. }
  destruct (initFaces_ok M old HM Hfit Hfew) as (fd' & Hr' & Hrel). rewrite Hr' in Hr. injection Hr as <- <-. by exists (keys M).
Qed.

(** ** Witnesses: two triangles with a common side *)

Definition two_triangles : Mesh := mkMesh 2 (fun c => if c =? 0 then [0; 1; 2] else [2; 1; 3]) (fun _ => TRIANGLE).
Definition no_faces : FaceData := mkFaceData [] [] [] [] [] [] [].

#[local] Instance bits : IndexBits := IndexType32.

Lemma two_triangles_fit : mesh_fits two_triangles.
Proof. apply mesh_fits_small; cbn; lia. Qed.

Lemma two_triangles_valid : mesh_valid two_triangles.
Proof. intros c Hc. cbn in Hc. assert (c = 0 \/ c = 1) as [-> | ->] by lia; (split; [done|by eexists]). Qed.

Lemma init_faces_result_witness : initFaces two_triangles no_faces =
    Done (true, 5, mkFaceData [0; -1; 0; -1; 0; 1; 1; -1; 1; -1] [0; 1; 2; 2; 3; 4] [-1; -1; 1; 0; -1; -1] [0; 3; 6]
      [0; 1; 2; 0; 1; 2; 1; 3; 3; 2] [0; 2; 4; 6; 8; 10] [SEGMENT; SEGMENT; SEGMENT; SEGMENT; SEGMENT]) /\
  few_incidences two_triangles.
Proof.
  destruct (init_faces_result two_triangles no_faces two_triangles_valid two_triangles_fit) as (ok & n & fd & E & Hok & _).
  assert (initFaces two_triangles no_faces = Done (true, 5, mkFaceData [0; -1; 0; -1; 0; 1; 1; -1; 1; -1] [0; 1; 2; 2; 3; 4] [-1; -1; 1; 0; -1; -1] [0; 3; 6]
      [0; 1; 2; 0; 1; 2; 1; 3; 3; 2] [0; 2; 4; 6; 8; 10] [SEGMENT; SEGMENT; SEGMENT; SEGMENT; SEGMENT])) as E' by (by vm_compute).
  split; [exact E'|]. rewrite E' in E. injection E as <- <- <-. by apply Hok.
Defined.

Lemma init_faces_relations_witness : exists fd keys, initFaces two_triangles no_faces = Done (true, 5, fd) /\ Z.of_nat (length keys) = 5 /\
  face_relations two_triangles keys fd.
Proof.
  assert (exists fd, initFaces two_triangles no_faces = Done (true, 5, fd)) as [fd E] by (eexists; by vm_compute).
  destruct (init_faces_relations two_triangles no_faces 5 fd two_triangles_valid two_triangles_fit E) as (keys & Hl & Hr). by exists fd, keys.
Defined.

(** Three triangles at one edge. *)
Example init_faces_fails : initFaces (mkMesh 3 (fun c => [0; 1; c + 2]) (fun _ => TRIANGLE)) (mkFaceData [7] [7] [7] [7] [7] [7] [SEGMENT]) =
  Done (false, 0, mkFaceData [] [7] [7] [7] [7] [7] [SEGMENT]).
Proof. by vm_compute. Qed.

End MintFacesTheorems.
