(* ===== verification/MintMeshFaces.v ===== *)
(** * Faces of structured meshes, computed and enumerated

    A structured mesh knows its faces from their numbers ([StructuredMesh.cpp]); for any
    mesh, [initFaces] finds the faces from the cells.  Here: the faces of the cells are the
    enumerated ones, and no two of these have the same nodes.  [MintMeshTheorems] concludes
    that the two ways agree. *)

From S2P Require Import Prelude Outcome MintCells MintStructured MintStructuredTheorems MintFaces MintFacesTheorems.

Module MintMeshFaces.
Import Outcome MintCells MintStructured MintStructuredTheorems MintFaces MintFacesTheorems.
#[local] Open Scope list_scope.

(** The virtual functions of a structured mesh that [initFaces] calls. *)
Definition structured_cells {IB : IndexBits} (m : StructuredMesh) : Mesh :=
  mkMesh (getNumberOfCells m) (getCellNodeIDs m) (fun _ => getCellType m).

Definition face_key {IB : IndexBits} (m : StructuredMesh) (f : Z) : list Z := sort_nodes (getFaceNodeIDs m f).

Lemma sort_nodes_perm l l' : sort_nodes l = sort_nodes l' <-> l ≡ₚ l'.
Proof.
  unfold sort_nodes. split.
  - intros E. by rewrite <- (merge_sort_Permutation Z.le l), E, merge_sort_Permutation.
  - intros Hp. apply (StronglySorted_unique Z.le).
    + apply StronglySorted_merge_sort; apply _.
    + apply StronglySorted_merge_sort; apply _.
    + by rewrite !merge_sort_Permutation.
Qed.

Lemma Forall2_fmap_eq {X Y W} (R : X -> Y -> Prop) (g : X -> W) (h : Y -> W) l k :
  Forall2 R l k -> (forall x y, R x y -> g x = h y) -> g <$> l = h <$> k.
Proof. intros HR Hgh. induction HR as [|x y l k Hxy _ IH]; [done|]. rewrite !fmap_cons, IH. f_equal. by apply Hgh. Qed.

Section structured.
Context {IB : IndexBits} (d A B K : Z) (m : StructuredMesh) (Hg : grid_ok d A B K) (Hm : mesh_facts d A B K m).

(** ** The faces of a cell *)

Lemma info_faces_perm : cell_info_faces d ≡ₚ (fun s => default [] (cell_info_faces d !! s)) <$> MintStructuredTheorems.sides d.
Proof using Hg.
  unfold cell_info_faces, MintStructuredTheorems.sides. destruct (gr_dim _ _ _ _ Hg) as [[Hd HK]|Hd]; rewrite Hd; apply (bool_decide_unpack _); by vm_compute.
Qed.

Lemma structured_sides i j k : box A B K i j k -> exists sides, cell_sides (structured_cells m) (cell A B i j k) = Some sides /\
  (fun s => sort_nodes s.2) <$> sides = (fun local => sort_nodes (pick (nodes_at d A B i j k) local)) <$> cell_info_faces d.
Proof using Hg Hm.
  intros Hb. unfold cell_sides, cell_info_faces. cbn [structured_cells mesh_type mesh_nodes]. unfold getCellType. rewrite (mf_dim _ _ _ _ _ Hm), (nodes_of_cell d A B K) by done.
  unfold nodes_at. destruct (gr_dim _ _ _ _ Hg) as [[Hd HK]|Hd]; rewrite Hd; cbn [Z.eqb Pos.eqb app]; (eexists; split; reflexivity).
Qed.

(** The nodes of the faces of a cell are those of the faces that the mesh computes. *)
Lemma structured_side_keys c : 0 <= c < A * B * K ->
  is_Some (cell_sides (structured_cells m) c) /\ (fun s => sort_nodes s.2) <$> sides_of (structured_cells m) c ≡ₚ face_key m <$> getCellFaceIDs m c.
Proof using Hg Hm.
  intros Hc. destruct (cell_place d A B K Hg c Hc) as (i & j & k & -> & Hb). destruct (structured_sides i j k Hb) as (l & Hl & E).
  unfold sides_of. rewrite Hl. split; [done|]. change (default [] (Some l)) with l. rewrite E, (faces_of_cell d A B K) by done.
  rewrite info_faces_perm, <- list_fmap_compose.
  rewrite (Forall2_fmap_eq _ (face_key m) (fun s => sort_nodes (pick (nodes_at d A B i j k) (default [] (cell_info_faces d !! s)))) _ _ (faces_at_nodes d A B K m Hg Hm i j k Hb)); [done|].
  intros f s (local & -> & Hp). cbn. by apply sort_nodes_perm.
Qed.

(** ** Different faces have different nodes *)

Lemma node_inj i j k i' j' k' : box (A + 1) (B + 1) (KN d K) i j k -> box (A + 1) (B + 1) (KN d K) i' j' k' -> node A B i j k = node A B i' j' k' -> i = i' /\ j = j' /\ k = k'.
Proof using Type. intros (? & ? & ?) (? & ? & ?). by apply (join3_inj (A + 1) (B + 1) (KN d K)). Qed.

(** Nodes as places of the grid. *)
Definition node3 (p : Z * Z * Z) : Z := node A B p.1.1 p.1.2 p.2.
Definition in_grid (p : Z * Z * Z) : Prop := box (A + 1) (B + 1) (KN d K) p.1.1 p.1.2 p.2.

Definition I_points (i j k : Z) : list (Z * Z * Z) :=
  if d =? 2 then [(i, j, k); (i, j + 1, k)] else [(i, j, k); (i, j, k + 1); (i, j + 1, k + 1); (i, j + 1, k)].
Definition J_points (i j k : Z) : list (Z * Z * Z) :=
  if d =? 2 then [(i, j, k); (i + 1, j, k)] else [(i, j, k); (i + 1, j, k); (i + 1, j, k + 1); (i, j, k + 1)].
Definition K_points (i j k : Z) : list (Z * Z * Z) := [(i, j, k); (i + 1, j, k); (i + 1, j + 1, k); (i, j + 1, k)].

Lemma same_points l l' : Forall in_grid l -> Forall in_grid l' -> node3 <$> l ≡ₚ node3 <$> l' -> Forall (fun p => p ∈ l') l.
Proof using Type.
  rewrite !Forall_forall. intros Hl Hl' Hp [[i j] k] Hin. assert (node3 (i, j, k) ∈ node3 <$> l') as ([[i' j'] k'] & E & Hin')%list_elem_of_fmap.
  { rewrite <- Hp. by apply list_elem_of_fmap_2. }
  destruct (node_inj i j k i' j' k') as (-> & -> & ->); [by apply (Hl (i, j, k))|by apply (Hl' (i', j', k'))|done|done].
Qed.

Definition placed (f : Z) (l : list (Z * Z * Z)) : Prop :=
  (exists i j k, f = IF A B i j k /\ l = I_points i j k) \/ (exists i j k, f = JF A B K i j k /\ l = J_points i j k) \/
  (d = 3 /\ exists i j k, f = KF A B K i j k /\ l = K_points i j k).

Lemma face_points f : 0 <= f < N_I A B K + N_J A B K + N_K d A B K -> exists l, getFaceNodeIDs m f = node3 <$> l /\ Forall in_grid l /\ placed f l.
Proof using Hg Hm.
  intros Hf. destruct (face_place d A B K Hg f Hf) as [(i & j & k & -> & Hb)|[(i & j & k & -> & Hb)|(Hd & i & j & k & -> & Hb)]]; pose proof Hb as (Hi & Hj & Hk).
  - exists (I_points i j k). rewrite (IF_node_ids d A B K) by done. unfold IF_nodes, I_points, in_grid, KN. split; [by destruct (d =? 2)|]. split; [|left; by exists i, j, k].
    destruct (gr_dim _ _ _ _ Hg) as [[Hd HK]|Hd]; rewrite Hd; cbn [Z.eqb Pos.eqb]; rewrite ?Forall_cons, ?Forall_nil; unfold box; cbn; lia.
  - exists (J_points i j k). rewrite (JF_node_ids d A B K) by done. unfold JF_nodes, J_points, in_grid, KN. split; [by destruct (d =? 2)|]. split; [|right; left; by exists i, j, k].
    destruct (gr_dim _ _ _ _ Hg) as [[Hd HK]|Hd]; rewrite Hd; cbn [Z.eqb Pos.eqb]; rewrite ?Forall_cons, ?Forall_nil; unfold box; cbn; lia.
  - exists (K_points i j k). rewrite (KF_node_ids d A B K) by done. unfold KF_nodes, K_points, in_grid, KN. split; [done|]. split; [|right; right; split; [done|]; by exists i, j, k].
    rewrite Hd; cbn [Z.eqb Pos.eqb]; rewrite ?Forall_cons, ?Forall_nil; unfold box; cbn; lia.
Qed.

Lemma face_key_inj f f' : 0 <= f < N_I A B K + N_J A B K + N_K d A B K -> 0 <= f' < N_I A B K + N_J A B K + N_K d A B K -> face_key m f = face_key m f' -> f = f'.
Proof using Hg Hm.
  intros Hf Hf' E%sort_nodes_perm. destruct (face_points f Hf) as (l & El & Hl & Pl). destruct (face_points f' Hf') as (l' & El' & Hl' & Pl').
  rewrite El, El' in E. pose proof (same_points l l' Hl Hl' E) as H1. symmetry in E. pose proof (same_points l' l Hl' Hl E) as H2. clear Hl Hl' El El' E Hf Hf'.
  destruct Pl as [(i & j & k & -> & ->)|[(i & j & k & -> & ->)|(Hd & i & j & k & -> & ->)]], Pl' as [(i' & j' & k' & -> & ->)|[(i' & j' & k' & -> & ->)|(Hd' & i' & j' & k' & -> & ->)]];
    unfold I_points, J_points, K_points in *; (destruct (gr_dim _ _ _ _ Hg) as [[Hd2 HK]|Hd2]; rewrite Hd2 in *; cbn [Z.eqb Pos.eqb] in *; try lia);
    rewrite !Forall_cons, !elem_of_cons, !elem_of_nil, !pair_eq in H1, H2;
    first [assert (i = i' /\ j = j' /\ k = k') as (-> & -> & ->) by lia; reflexivity|exfalso; lia].
Qed.

End structured.
End MintMeshFaces.
