(* ===== verification/MintMeshTheorems.v ===== *)
(** * Theorem on the faces of structured meshes

    [initFaces] finds the faces of a structured mesh with the same cells and nodes as the
    mesh computes from their numbers. *)

From S2P Require Import Prelude OffsetLists Outcome MintCells MintStructured MintStructuredTheorems MintFaces MintFacesTheorems MintMeshFaces.

Module MintMeshTheorems.
Import OffsetLists Outcome MintCells MintStructured MintStructuredTheorems MintFaces MintFacesTheorems MintMeshFaces.
#[local] Open Scope list_scope.

(** Permuted images under a function that is injective on the lists. *)
Lemma fmap_perm_inj {X Y} (F : X -> Y) (l k : list X) : (forall x y, x ∈ l -> y ∈ k -> F x = F y -> x = y) -> F <$> l ≡ₚ F <$> k -> l ≡ₚ k.
Proof.
  intros Hinj (k' & E & Hk)%Permutation_map_inv. rewrite Hk. assert (forall x y, x ∈ l -> y ∈ k' -> F x = F y -> x = y) as Hinj' by (intros x y Hx Hy; apply Hinj; [done|by rewrite Hk]).
  clear Hk Hinj. apply Permutation_refl'. revert k' E Hinj'. induction l as [|x l IH]; intros [|y k'] E Hinj; try done. cbn in E. injection E as E1 E2.
  f_equal; [apply Hinj; [left..|done]|]. apply IH; [done|]. intros x' y' Hx Hy. apply Hinj; by right.
Qed.

Section structured.
Context {IB : IndexBits} (d A B K : Z) (m : StructuredMesh) (Hg : grid_ok d A B K) (Hm : mesh_facts d A B K m).

(** ** The cells of a set of nodes *)

Lemma cell_faces_distinct c : 0 <= c < A * B * K ->
  NoDup (getCellFaceIDs m c) /\ Forall (fun f => 0 <= f < N_I A B K + N_J A B K + N_K d A B K) (getCellFaceIDs m c).
Proof using Hg Hm.
  intros Hc. destruct (cell_place d A B K Hg c Hc) as (i & j & k & -> & Hb). rewrite (faces_of_cell d A B K) by done. pose proof Hb as (Hi & Hj & Hk).
  pose proof (totals d A B K Hg) as Htot. assert (0 < A * B) by nia.
  pose proof (IF_bound A B K i j k ltac:(unfold box; lia)). pose proof (IF_bound A B K (i + 1) j k ltac:(unfold box; lia)).
  pose proof (JF_bound A B K i j k ltac:(unfold box; lia)). pose proof (JF_bound A B K i (j + 1) k ltac:(unfold box; lia)).
  assert (IF A B (i + 1) j k = IF A B i j k + 1) by (unfold IF, join3; lia). assert (JF A B K i (j + 1) k = JF A B K i j k + A) by (unfold JF, join3; lia).
  unfold faces_at. destruct (gr_dim _ _ _ _ Hg) as [[Hd HK]|Hd].
  - rewrite Hd in *. cbn [Z.eqb Pos.eqb app] in *. split; [repeat (apply NoDup_cons_2; [rewrite ?elem_of_cons, elem_of_nil; lia|]); constructor|].
    rewrite !Forall_cons, Forall_nil. lia.
  - pose proof (KF_bound d A B K i j k Hd ltac:(unfold box; lia)). pose proof (KF_bound d A B K i j (k + 1) Hd ltac:(unfold box; lia)).
    assert (KF A B K i j (k + 1) = KF A B K i j k + A * B) by (unfold KF, join3; lia).
    rewrite Hd in *. cbn [Z.eqb Pos.eqb app] in *. split; [repeat (apply NoDup_cons_2; [rewrite ?elem_of_cons, elem_of_nil; lia|]); constructor|].
    rewrite !Forall_cons, Forall_nil. lia.
Qed.

Lemma filter_eq_NoDup {X} `{EqDecision X} (l : list X) x : NoDup l -> filter (fun y => y = x) l = if decide (x ∈ l) then [x] else [].
Proof using Type.
  intros Hnd. induction Hnd as [|y l Hy Hnd IH]; [done|]. rewrite filter_cons, IH. destruct (decide (y = x)) as [->|Hne].
  - rewrite decide_False by done. by rewrite decide_True by left.
  - apply decide_ext. rewrite elem_of_cons. split; [auto|]. intros [->|?]; done.
Qed.

Lemma filter_const_fst k c (l : list (CellType * list Z)) :
  (at_key k (pair c <$> l)).*1 = replicate (length (filter (fun k' => k' = k) ((fun s => sort_nodes s.2) <$> l))) c.
Proof using Type.
  unfold at_key. induction l as [|s l IH]; [done|]. rewrite !fmap_cons, !filter_cons. change (i_key (c, s)) with (sort_nodes s.2). case_decide; [|done]. cbn. by rewrite <- IH.
Qed.

(** In each cell a face of the mesh occurs once or not at all. *)
Lemma cell_key_count f c : 0 <= f < N_I A B K + N_J A B K + N_K d A B K -> 0 <= c < A * B * K ->
  (at_key (face_key m f) (pair c <$> sides_of (structured_cells m) c)).*1 = if decide (f ∈ getCellFaceIDs m c) then [c] else [].
Proof using Hg Hm.
  intros Hf Hc. destruct (structured_side_keys d A B K m Hg Hm c Hc) as [_ Hp]. destruct (cell_faces_distinct c Hc) as [Hnd Hall]. rewrite Forall_forall in Hall.
  rewrite filter_const_fst, Hp. rewrite (filter_fmap_length _ (fun f' => f' = f)), filter_eq_NoDup by
    first [done|intros f' Hf'; split; [intros E; apply (face_key_inj d A B K m); auto|by intros ->]]. by case_decide.
Qed.

Lemma key_cells f : 0 <= f < N_I A B K + N_J A B K + N_K d A B K ->
  (at_key (face_key m f) (incidences (structured_cells m))).*1 = filter (fun c => f ∈ getCellFaceIDs m c) (up 0 (A * B * K)).
Proof using Hg Hm.
  intros Hf. unfold incidences. cbn [structured_cells mesh_cells]. rewrite (proj1 (counts d A B K m Hg Hm)).
  assert (forall c, c ∈ up 0 (A * B * K) -> 0 <= c < A * B * K) as Hin by (intros c; by rewrite elem_of_up).
  revert Hin. generalize (up 0 (A * B * K)). intros l. induction l as [|c l IH]; intros Hin; [done|].
  rewrite fmap_cons, join_cons, filter_cons. unfold at_key in *. rewrite filter_app, fmap_app, IH by (intros; apply Hin; by right).
  pose proof (cell_key_count f c Hf (Hin c ltac:(left))) as E. unfold at_key in E. rewrite E. by case_decide.
Qed.

(** The cells in order are the two cells that the mesh computes. *)
Lemma filter_two c1 c2 n (P : Z -> Prop) `{!forall c, Decision (P c)} : 0 <= c1 < n -> (c2 = -1 \/ c1 < c2 < n) ->
  (forall c, 0 <= c < n -> P c <-> c = c1 \/ c = c2) -> filter P (up 0 n) = c1 :: (if c2 =? -1 then [] else [c2]).
Proof using Type.
  intros H1 H2 HP. assert (forall lo hi, 0 <= lo -> hi <= n -> (forall c, lo <= c < hi -> c <> c1 /\ c <> c2) -> filter P (up lo hi) = []) as Hno.
  { intros lo hi Hlo Hhi Hc. apply filter_none. intros c Hin%elem_of_up. rewrite HP by lia. specialize (Hc c Hin). lia. }
  assert (forall a b, 0 <= a <= b -> up 0 b = up 0 a ++ up a b) as Hsplit.
  { intros a b Hab. unfold up. rewrite <- (Z.add_0_l a) at 3. replace (b - 0) with ((a - 0) + (b - a)) by lia. rewrite seqZ_app by lia. by rewrite Z.sub_0_r, Z.add_0_l. }
  rewrite (Hsplit c1 n), filter_app, (Hno 0 c1), app_nil_l, up_cons, filter_cons, decide_True by (try apply HP; lia). f_equal.
  destruct (Z.eqb_spec c2 (-1)) as [->|Hne]; [apply Hno; lia|].
  assert (up (c1 + 1) n = up (c1 + 1) c2 ++ up c2 n) as ->.
  { unfold up. replace (n - (c1 + 1)) with ((c2 - (c1 + 1)) + (n - c2)) by lia. rewrite seqZ_app by lia. by replace (c1 + 1 + (c2 - (c1 + 1))) with c2 by lia. }
  rewrite filter_app, (Hno (c1 + 1) c2), app_nil_l, up_cons, filter_cons, decide_True by (try apply HP; lia). f_equal. apply Hno; lia.
Qed.

(** ** All faces *)

Definition face_count : Z := N_I A B K + N_J A B K + N_K d A B K.

Lemma face_cells_found f : 0 <= f < face_count -> let '(c1, c2) := getFaceCellIDs m f in
  (at_key (face_key m f) (incidences (structured_cells m))).*1 = c1 :: (if c2 =? -1 then [] else [c2]).
Proof using Hg Hm.
  intros Hf. rewrite key_cells by done. pose proof (face_cells_of d A B K m Hg Hm f Hf) as H. destruct (getFaceCellIDs m f) as [c1 c2].
  destruct H as ([H1 H1f] & H2 & H3). apply filter_two; [done|destruct H3 as [->|[[? _] ?]]; [by left|right; lia]|].
  intros c Hc. split.
  - intros Hin. destruct (H2 c (conj Hc Hin)) as [->|[-> _]]; auto.
  - intros [->| ->]; [done|]. destruct H3 as [->|[[_ ?] _]]; [lia|done].
Qed.

Lemma structured_valid : mesh_valid (structured_cells m).
Proof using Hg Hm.
  intros c. cbn [structured_cells mesh_cells]. rewrite (proj1 (counts d A B K m Hg Hm)). intros Hc. split; [|exact (proj1 (structured_side_keys d A B K m Hg Hm c Hc))].
  cbn [structured_cells mesh_nodes]. destruct (cell_place d A B K Hg c Hc) as (i & j & k & -> & Hb). rewrite (nodes_of_cell d A B K) by done.
  unfold nodes_at. by destruct (d =? 3).
Qed.

Lemma structured_fits : 24 * (A * B * K) < 2 ^ 31 -> mesh_fits (structured_cells m).
Proof using Hg Hm.
  intros Hn. pose proof (totals d A B K Hg). assert (mesh_cells (structured_cells m) = A * B * K) as Ec by exact (proj1 (counts d A B K m Hg Hm)).
  apply (mesh_fits_cells _ 6 24); rewrite ?Ec; try lia. intros c Hc. apply cell_sides_bound; [lia|lia|].
  intros info. cbn [structured_cells mesh_type]. unfold getCellType. destruct (_ =? 1); [|destruct (_ =? 2)]; intros [= <-]; by vm_compute.
Qed.

(** Each face of a cell is one of the mesh. *)
Lemma structured_key i : i ∈ incidences (structured_cells m) -> exists f, 0 <= f < face_count /\ i_key i = face_key m f.
Proof using Hg Hm.
  intros (c & Hc & Hi)%elem_of_join_fmap. rewrite elem_of_up in Hc. cbn [structured_cells mesh_cells] in Hc. rewrite (proj1 (counts d A B K m Hg Hm)) in Hc.
  destruct (structured_side_keys d A B K m Hg Hm c Hc) as [_ Hp]. destruct (cell_faces_distinct c Hc) as [_ Hall]. rewrite Forall_forall in Hall.
  apply list_elem_of_fmap in Hi as (s & -> & Hs). assert (sort_nodes s.2 ∈ face_key m <$> getCellFaceIDs m c) as (f & E & Hf)%list_elem_of_fmap.
  { rewrite <- Hp. by apply (list_elem_of_fmap_2 (fun s => sort_nodes s.2)). }
  exists f. split; [by apply Hall|done].
Qed.

Lemma structured_few : few_incidences (structured_cells m).
Proof using Hg Hm.
  intros k. destruct (at_key k (incidences (structured_cells m))) as [|i r] eqn:E; [cbn; lia|].
  assert (i ∈ at_key k (incidences (structured_cells m))) as [Hk Hi]%list_elem_of_filter by (rewrite E; left).
  destruct (structured_key i Hi) as (f & Hf & Ef). pose proof (face_cells_found f Hf) as Hc. rewrite <- Ef, Hk, E in Hc. destruct (getFaceCellIDs m f) as [c1 c2].
  apply (f_equal length) in Hc. rewrite length_fmap in Hc. etransitivity; [apply Nat.eq_le_incl, Hc|]. destruct (c2 =? -1); cbn; lia.
Qed.

(** The numbers that the faces have in the order of [initFaces]. *)
Lemma structured_numbers : exists num, keys (structured_cells m) = face_key m <$> num /\ num ≡ₚ up 0 face_count.
Proof using Hg Hm.
  assert (keys (structured_cells m) ≡ₚ face_key m <$> up 0 face_count) as Hp.
  { apply NoDup_Permutation.
    - apply wf_sorted_NoDup, built_sorted.
    - apply NoDup_fmap_2_strong; [|apply NoDup_seqZ]. intros f f' Hf Hf'. rewrite elem_of_up in Hf, Hf'. by apply (face_key_inj d A B K m).
    - intros k. unfold keys, work. rewrite built_keys, list_elem_of_fmap. split.
      + intros (i & Hi & <-). destruct (structured_key i Hi) as (f & Hf & ->). exists f. by rewrite elem_of_up.
      + intros (f & -> & Hf). rewrite elem_of_up in Hf. pose proof (face_cells_found f Hf) as Hc. destruct (getFaceCellIDs m f) as [c1 c2].
        destruct (at_key (face_key m f) (incidences (structured_cells m))) as [|i r] eqn:E; [done|]. exists i.
        assert (i ∈ at_key (face_key m f) (incidences (structured_cells m))) as [? ?]%list_elem_of_filter by (rewrite E; left). done. }
  apply Permutation_map_inv in Hp as (num & E & Hn). exists num. by split.
Qed.

End structured.

(** C10: [initFaces] agrees with the faces of a structured mesh.  Run on any structured mesh
    with two or three dimensions whose nodes and faces fit the [IndexType] and that has
    fewer than 2^31 / 24 cells, so that the [int] counters of [initFaces] do not overflow,
    it succeeds, finds as many faces as the mesh counts, and
    up to one renumbering of all faces gives each face the cells and, up to order, the
    nodes that the mesh computes from its number, and each cell the same faces. *)
Theorem structured_init_faces {IB : IndexBits} type d A B K m old : made type d A B K m -> 24 * getNumberOfCells m < 2 ^ 31 ->
  exists fd num, initFaces (structured_cells m) old = Done (true, getNumberOfFaces m, fd) /\ num ≡ₚ up 0 (getNumberOfFaces m) /\
  (forall n f, num.[n] = Some f ->
    let '(c1, c2) := getFaceCellIDs m f in (f2c fd).[2 * n] = Some c1 /\ (f2c fd).[2 * n + 1] = Some c2 /\
    exists nodes, slice_of (f2n fd) (f2noffsets fd) n = Some nodes /\ nodes ≡ₚ getFaceNodeIDs m f) /\
  (forall c, 0 <= c < getNumberOfCells m -> exists faces, slice_of (c2f fd) (c2foffsets fd) c = Some faces /\
    (fun n => num.[n]) <$> faces ≡ₚ Some <$> getCellFaceIDs m c).
Proof.
  intros [Hg Hm]%made_facts Hsize. destruct (counts d A B K m Hg Hm) as (Ec & _ & Ef). rewrite Ec in Hsize.
  destruct (initFaces_ok (structured_cells m) old (structured_valid d A B K m Hg Hm) (structured_fits d A B K m Hg Hm Hsize) (structured_few d A B K m Hg Hm)) as (fd & Hr & Hrel).
  destruct (structured_numbers d A B K m Hg Hm) as (num & Hk & Hnum). rewrite Ef. fold (face_count d A B K). exists fd, num.
  assert (Z.of_nat (length (keys (structured_cells m))) = face_count d A B K) as Hlen.
  { rewrite Hk, length_fmap, Hnum. unfold up. rewrite length_seqZ. pose proof (totals d A B K Hg). unfold face_count. lia. }
  assert (forall n f, num.[n] = Some f -> 0 <= f < face_count d A B K) as Hnumin.
  { intros n f Hn. pose proof (zlookup_Some_bounds _ _ _ Hn). rewrite zlookup_to_nat in Hn by lia. apply list_elem_of_lookup_2 in Hn. by rewrite Hnum, elem_of_up in Hn. }
  split; [by rewrite Hr, Hlen|]. split; [done|]. split.
  - intros n f Hn. pose proof (Hnumin n f Hn) as Hf.
    destruct (fr_face _ _ _ Hrel n (face_key m f)) as (i & r & E & Hl & H1 & H2 & H3 & _); [by rewrite Hk, zlookup_fmap, Hn|].
    pose proof (face_cells_found d A B K m Hg Hm f Hf) as Hc. rewrite E in Hc. destruct (getFaceCellIDs m f) as [c1 c2]. injection Hc as Hc1 Hc2.
    rewrite H1, H2. split; [by rewrite Hc1|]. split; [|exists i.2.2; split; [done|]].
    + f_equal. destruct (Z.eqb_spec c2 (-1)) as [->|Hne]; destruct r as [|x r]; try done. by injection Hc2.
    + apply sort_nodes_perm. assert (i ∈ at_key (face_key m f) (incidences (structured_cells m))) as [? _]%list_elem_of_filter by (rewrite E; left). done.
  - intros c Hc. destruct (fr_cell _ _ _ Hrel c) as (faces & _ & H1 & _ & H2 & _); [done|]. exists faces. split; [done|].
    rewrite Ec in Hc. destruct (structured_side_keys d A B K m Hg Hm c Hc) as [_ Hp].
    destruct (cell_faces_distinct d A B K m Hg Hm c Hc) as [_ Hall]. rewrite Forall_forall in Hall.
    apply (fmap_perm_inj (fmap (face_key m))).
    + intros x y (n & -> & _)%list_elem_of_fmap (f & -> & Hf)%list_elem_of_fmap. destruct (num.[n]) as [f'|] eqn:Hn; cbn; [|done]. intros [= E]. f_equal.
      apply (face_key_inj d A B K m); [done|done|by apply Hnumin in Hn|by apply Hall|done].
    + rewrite <- !list_fmap_compose. transitivity ((fun s => Some (sort_nodes s.2)) <$> sides_of (structured_cells m) c).
      * rewrite <- H2. apply Permutation_refl'. apply list_fmap_ext. intros ? n _. unfold compose. by rewrite Hk, zlookup_fmap.
      * transitivity (Some <$> (face_key m <$> getCellFaceIDs m c)); [|by rewrite <- list_fmap_compose].
        rewrite <- Hp, <- list_fmap_compose. done.
Qed.

#[local] Existing Instance MintStructuredTheorems.bits.

Lemma structured_init_faces_witness : exists fd num, initFaces (structured_cells brick) no_faces = Done (true, getNumberOfFaces brick, fd) /\
  num ≡ₚ up 0 (getNumberOfFaces brick) /\ getNumberOfFaces brick = 52.
Proof.
  destruct (structured_init_faces STRUCTURED_UNIFORM_MESH 3 3 2 2 brick no_faces brick_made) as (fd & num & E & Hn & _); [by vm_compute|].
  exists fd, num. split; [exact E|]. split; [exact Hn|]. by vm_compute.
Defined.

End MintMeshTheorems.
