(* ===== verification/MintConnectivity.v ===== *)
(** * Connectivity arrays of Mint

    [mint/mesh/ConnectivityArray.hpp] and
    [mint/mesh/internal/ConnectivityArray_typed_indirection.hpp] with the helpers of
    [ConnectivityArrayHelpers.hpp]: the nodes of the cells of a mesh, for cells of one type
    with a stride and for cells of several types with offsets.

    The arrays are given by their contents, as the theorems on [Array] describe its
    operations; where a capacity enters a result it is an argument.  Pointers to buffers are
    lists, and reading past their end is undefined, as are accesses outside of the arrays
    and sums, differences and sizes outside of the [IndexType].  A failed [SLIC_ASSERT]
    aborts, as in a build that checks it. *)

From Stdlib Require Import Floats.SpecFloat.
From S2P Require Import Prelude Outcome Array ArrayOperations MintCells MintFaces.

Module MintConnectivity.
Import Outcome Array ArrayOperations MintCells MintFaces.
#[local] Open Scope list_scope.

(** The first [n] elements of a buffer. *)
Definition read_buf {A} (n : Z) (buf : list A) : option (list A) :=
  if (0 <=? n) && (n <=? Z.of_nat (length buf)) then Some (takeZ n buf) else None.

(** [Array::insert] and [Array::set] on the contents. *)
Definition insert_at {A} (pos : Z) (new l : list A) : option (list A) :=
  if (0 <=? pos) && (pos <=? Z.of_nat (length l)) then Some (takeZ pos l ++ new ++ dropZ pos l) else None.

Definition set_at {A} (pos : Z) (new l : list A) : option (list A) :=
  if (0 <=? pos) && (pos + Z.of_nat (length new) <=? Z.of_nat (length l))
  then Some (takeZ pos l ++ new ++ dropZ (pos + Z.of_nat (length new)) l) else None.

Section arrays.
Context {IB : IndexBits}.

(** [Array::insert]: the new size is an [IndexType]. *)
Definition arr_insert {A} (pos : Z) (new l : list A) : outcome (list A) :=
  _ ← ix_add (Z.of_nat (length l)) (Z.of_nat (length new)); ub (insert_at pos new l).

Definition arr_append {A} (new l : list A) : outcome (list A) := arr_insert (Z.of_nat (length l)) new l.

(** A loop that assigns to every element of an array. *)
Definition map_all (f : Z -> Z) (l : list Z) : outcome (list Z) :=
  if forallb (fun v => fits (f v)) l then Done (f <$> l) else Undefined.

Definition add_all (k : Z) : list Z -> outcome (list Z) := map_all (fun o => o + k).

End arrays.

Definition USE_DEFAULT : Z := -1.

End MintConnectivity.

(** ** Cells of several types *)

Module Typed.
Import Outcome Array ArrayOperations MintCells MintFaces MintConnectivity.
#[local] Open Scope list_scope.

Record ConnectivityArray := mkTyped { m_values : list Z; m_types : list CellType; m_offsets : list Z }.

Implicit Types (c : ConnectivityArray).

Section typed.
Context {IB : IndexBits}.

Definition make : ConnectivityArray := mkTyped [] [] [0].

(** The constructor on arrays of the caller. *)
Definition make_external (n_IDs : Z) (values offsets : list Z) (types : list CellType) : outcome ConnectivityArray :=
  if n_IDs <? 0 then Aborted
  else
    ts ← ub (read_buf n_IDs types);
    n_offsets ← ix_add n_IDs 1;
    os ← ub (read_buf n_offsets offsets);
    let os := if n_IDs =? 0 then [0] else os in
    if negb (default (-1) (os.[0]) =? 0) then Aborted
    else
      n_values ← ub (os.[n_IDs]);
      vs ← ub (read_buf n_values values);
      Done (mkTyped vs ts os).

Definition getNumberOfIDs c : Z := Z.of_nat (length (m_offsets c)) - 1.
Definition getNumberOfValues c : Z := Z.of_nat (length (m_values c)).
Definition empty c : bool := bool_decide (m_values c = []).

Definition getNumberOfValuesForID c (ID : Z) : option Z :=
  b ← (m_offsets c).[ID + 1]; a ← (m_offsets c).[ID]; Some (b - a).

Definition getIDType c (ID : Z) : option CellType := if ID <? 0 then Some UNDEFINED_CELL else (m_types c).[ID].

(** The values behind the pointer that [operator[]] gives, as many as the ID has. *)
Definition getValues c (ID : Z) : option (list Z) :=
  a ← (m_offsets c).[ID]; n ← getNumberOfValuesForID c ID; read_buf n (dropZ a (m_values c)).

Definition append c (values : list Z) (n_values : Z) (type : CellType) : outcome ConnectivityArray :=
  _ ← assert_ (negb (bool_decide (type = UNDEFINED_CELL)));
  vs ← ub (read_buf n_values values);
  values' ← arr_append vs (m_values c);
  offsets' ← arr_append [Z.of_nat (length values')] (m_offsets c);
  types' ← arr_append [type] (m_types c);
  Done (mkTyped values' types' offsets').

(** [internal::append] and the types. *)
Definition appendM c (values : list Z) (n_IDs : Z) (offsets : list Z) (types : list CellType) : outcome ConnectivityArray :=
  o_n ← ub (offsets.[n_IDs]); o_0 ← ub (offsets.[0]);
  n_values_to_add ← ix_sub o_n o_0;
  new_offsets ← ub (read_buf n_IDs (dropZ 1 offsets));
  vs ← ub (read_buf n_values_to_add values);
  values' ← arr_append vs (m_values c);
  correction ← ix_sub (getNumberOfValues c) o_0;
  corrected ← add_all correction new_offsets;
  offsets' ← arr_append corrected (m_offsets c);
  ts ← ub (read_buf n_IDs types);
  types' ← arr_append ts (m_types c);
  Done (mkTyped values' types' offsets').

(** [internal::set]. *)
Definition setM c (values : list Z) (start_ID n_IDs : Z) : outcome ConnectivityArray :=
  _ ← assert_ (0 <=? start_ID);
  end_ID ← ix_add start_ID n_IDs;
  _ ← assert_ (end_ID <=? getNumberOfIDs c);
  offset ← ub ((m_offsets c).[start_ID]);
  e ← ub ((m_offsets c).[end_ID]);
  n_values ← ix_sub e offset;
  vs ← ub (read_buf n_values values);
  values' ← ub (set_at offset vs (m_values c));
  Done (mkTyped values' (m_types c) (m_offsets c)).

Definition set_ c (values : list Z) (ID : Z) : outcome ConnectivityArray := setM c values ID 1.

(** [internal::insert] and the types. *)
Definition insertM c (values : list Z) (start_ID n_IDs : Z) (offsets : list Z) (types : list CellType) : outcome ConnectivityArray :=
  _ ← assert_ ((0 <=? start_ID) && (start_ID <=? getNumberOfIDs c) && (0 <=? n_IDs));
  o_n ← ub (offsets.[n_IDs]); o_0 ← ub (offsets.[0]);
  n_values ← ix_sub o_n o_0;
  insert_pos ← ub ((m_offsets c).[start_ID]);
  later ← add_all n_values (dropZ (start_ID + 1) (m_offsets c));
  new_offsets ← ub (read_buf n_IDs (dropZ 1 offsets));
  correction ← ix_sub insert_pos o_0;
  corrected ← add_all correction new_offsets;
  offsets' ← arr_insert (start_ID + 1) corrected (takeZ (start_ID + 1) (m_offsets c) ++ later);
  vs ← ub (read_buf n_values values);
  values' ← arr_insert insert_pos vs (m_values c);
  ts ← ub (read_buf n_IDs types);
  types' ← arr_insert start_ID ts (m_types c);
  Done (mkTyped values' types' offsets').

Definition insert_ c (values : list Z) (start_ID n_values : Z) (type : CellType) : outcome ConnectivityArray :=
  _ ← assert_ ((0 <=? start_ID) && (0 <=? n_values) && (start_ID <=? getNumberOfIDs c));
  insertM c values start_ID 1 [0; n_values] [type].

(** [internal::calcValueCapacity], in double precision. *)
Definition d_ceil (x : spec_float) : outcome Z :=
  t ← double_to_index x; if SFltb (double_of t) x then ix (t + 1) else Done t.

Definition calcValueCapacity (n_IDs ID_capacity n_values value_capacity : Z) : outcome Z :=
  if value_capacity =? USE_DEFAULT then
    if n_IDs =? 0 then ix_mul ID_capacity MAX_CELL_NODES
    else d_ceil (dmul (SFdiv 53 1024 (double_of n_values) (double_of n_IDs)) (double_of n_IDs))
  else Done value_capacity.

(** [getIDCapacity] after the types have been resized is an argument. *)
Definition resize c (ID_capacity ID_size value_size : Z) : outcome ConnectivityArray :=
  if ID_size <? 0 then Undefined
  else
    n_offsets ← ix_add ID_size 1;
    let offsets' := resized (m_offsets c) n_offsets 0 in
    let types' := resized (m_types c) ID_size VERTEX in
    newValueSize ← calcValueCapacity (Z.of_nat (length offsets') - 1) ID_capacity (getNumberOfValues c) value_size;
    if newValueSize <? 0 then Undefined
    else Done (mkTyped (resized (m_values c) newValueSize 0) types' offsets').

End typed.

End Typed.

(** ** Cells of one type *)

Module Strided.
Import Outcome Array ArrayOperations MintCells MintFaces MintConnectivity.
#[local] Open Scope list_scope.

Record ConnectivityArray := mkStrided { m_cell_type : CellType; m_stride : Z; m_values : list Z }.

Implicit Types (c : ConnectivityArray).

Section strided.
Context {IB : IndexBits}.

(** With a cell type, and with a stride. *)
Definition make_type (cell_type : CellType) : outcome ConnectivityArray :=
  match getCellInfo cell_type with
  | None => Aborted
  | Some info => Done (mkStrided cell_type (num_nodes info) [])
  end.

Definition make_stride (stride : Z) : outcome ConnectivityArray :=
  if stride <=? 0 then Aborted else Done (mkStrided UNDEFINED_CELL stride []).

(** The first extent of the array. *)
Definition getNumberOfIDs c : Z := Z.of_nat (length (m_values c)) / m_stride c.
Definition getNumberOfValues c : Z := Z.of_nat (length (m_values c)).
Definition getNumberOfValuesForID c (ID : Z) : Z := m_stride c.
Definition getIDType c (ID : Z) : CellType := m_cell_type c.

Definition getValues c (ID : Z) : option (list Z) :=
  if ID * m_stride c <? 0 then None else read_buf (m_stride c) (dropZ (ID * m_stride c) (m_values c)).

Definition appendM c (values : list Z) (n_IDs : Z) : outcome ConnectivityArray :=
  _ ← assert_ (0 <=? n_IDs);
  n ← ix_mul n_IDs (m_stride c);
  vs ← ub (read_buf n values);
  values' ← arr_append vs (m_values c);
  Done (mkStrided (m_cell_type c) (m_stride c) values').

Definition append c (values : list Z) : outcome ConnectivityArray := appendM c values 1.

Definition setM c (values : list Z) (start_ID n_IDs : Z) : outcome ConnectivityArray :=
  _ ← assert_ (0 <=? start_ID);
  end_ID ← ix_add start_ID n_IDs;
  _ ← assert_ (end_ID <=? getNumberOfIDs c);
  n ← ix_mul n_IDs (m_stride c); pos ← ix_mul start_ID (m_stride c);
  vs ← ub (read_buf n values);
  values' ← ub (set_at pos vs (m_values c));
  Done (mkStrided (m_cell_type c) (m_stride c) values').

Definition set_ c (values : list Z) (ID : Z) : outcome ConnectivityArray :=
  _ ← assert_ ((0 <=? ID) && (ID <? getNumberOfIDs c));
  pos ← ix_mul ID (m_stride c);
  vs ← ub (read_buf (m_stride c) values);
  values' ← ub (set_at pos vs (m_values c));
  Done (mkStrided (m_cell_type c) (m_stride c) values').

Definition insertM c (values : list Z) (start_ID n_IDs : Z) : outcome ConnectivityArray :=
  _ ← assert_ ((0 <=? start_ID) && (start_ID <=? getNumberOfIDs c));
  n ← ix_mul n_IDs (m_stride c); pos ← ix_mul start_ID (m_stride c);
  vs ← ub (read_buf n values);
  values' ← arr_insert pos vs (m_values c);
  Done (mkStrided (m_cell_type c) (m_stride c) values').

Definition insert_ c (values : list Z) (start_ID : Z) : outcome ConnectivityArray := insertM c values start_ID 1.

Definition resize c (ID_size : Z) : outcome ConnectivityArray :=
  if ID_size <? 0 then Undefined
  else n ← ix_mul ID_size (m_stride c); Done (mkStrided (m_cell_type c) (m_stride c) (resized (m_values c) n 0)).

End strided.

End Strided.
