(* ===== verification/MintConnectivityTheorems.v ===== *)
(** * Theorems on connectivity arrays

    Both kinds of connectivity arrays hold a list of cells, and their operations are those
    of lists of cells. *)

From S2P Require Import Prelude OffsetLists Outcome Array ArrayOperations MintCells MintFaces MintConnectivity.

Module MintConnectivityTheorems.
Import OffsetLists Outcome Array ArrayOperations MintCells MintFaces MintConnectivity.
#[local] Open Scope list_scope.

(** A cell: its type and its nodes. *)
Notation Cell := (CellType * list Z)%type.

(** ** Buffers *)

Lemma read_buf_app {A} (l r : list A) : read_buf (Z.of_nat (length l)) (l ++ r) = Some l.
Proof.
  unfold read_buf. rewrite (proj2 (Z.leb_le _ _)), (proj2 (Z.leb_le _ _)) by (rewrite ?length_app; lia). cbn. unfold takeZ. by rewrite Nat2Z.id, take_app_length.
Qed.

Lemma read_buf_app_n {A} n (l r : list A) : n = Z.of_nat (length l) -> read_buf n (l ++ r) = Some l.
Proof. intros ->. apply read_buf_app. Qed.

Lemma insert_at_app {A} n (l r new : list A) : n = Z.of_nat (length l) -> insert_at n new (l ++ r) = Some (l ++ new ++ r).
Proof.
  intros ->. unfold insert_at. rewrite (proj2 (Z.leb_le _ _)), (proj2 (Z.leb_le _ _)) by (rewrite ?length_app; lia). cbn.
  unfold takeZ, dropZ. by rewrite Nat2Z.id, take_app_length, drop_app_length.
Qed.

Lemma set_at_app {A} n (l old r new : list A) : n = Z.of_nat (length l) -> length new = length old -> set_at n new (l ++ old ++ r) = Some (l ++ new ++ r).
Proof.
  intros -> Hl. unfold set_at. rewrite (proj2 (Z.leb_le _ _)), (proj2 (Z.leb_le _ _)) by (rewrite ?length_app; lia). cbn.
  unfold takeZ, dropZ. rewrite Nat2Z.id, take_app_length. replace (Z.to_nat _) with (length (l ++ old)) by (rewrite length_app; lia). by rewrite (app_assoc l old r), drop_app_length.
Qed.

Section sizes.
Context {IB : IndexBits}.

Lemma arr_insert_app {A} n (l r new : list A) : n = Z.of_nat (length l) ->
  Z.of_nat (length l) + Z.of_nat (length r) + Z.of_nat (length new) <= index_max -> arr_insert n new (l ++ r) = Done (l ++ new ++ r).
Proof. intros Hn Hs. unfold arr_insert. rewrite ix_add_small, bind_Done, insert_at_app by (done || rewrite length_app; lia). done. Qed.

Lemma arr_append_app {A} (l new : list A) : Z.of_nat (length l) + Z.of_nat (length new) <= index_max -> arr_append new l = Done (l ++ new).
Proof.
  intros Hs. unfold arr_append. rewrite <- (app_nil_r l) at 2. rewrite arr_insert_app by (done || cbn [length]; lia). by rewrite app_nil_r.
Qed.

Lemma map_all_ok f l : Forall (fun v => 0 <= f v <= index_max) l -> map_all f l = Done (f <$> l).
Proof.
  intros Hl. unfold map_all. assert (forallb (fun v => fits (f v)) l = true) as ->; [|done].
  apply forallb_forall. intros v Hv%list_elem_of_In. rewrite Forall_forall in Hl. by apply fits_small, Hl.
Qed.

(** The difference of two values that are not negative. *)
Lemma fits_diff a b : 0 <= a <= index_max -> 0 <= b <= index_max -> fits (a - b) = true.
Proof. intros Ha Hb. unfold fits. apply andb_true_intro. split; apply Z.leb_le; lia. Qed.

(** The cells can be stored: their number and the number of their nodes are values of the
    [IndexType], also when capacities are doubled. *)
Definition cells_fit (cells : list Cell) : Prop :=
  2 * (total cells.*2 + 1) <= index_max /\ 2 * (Z.of_nat (length cells) + 2) <= index_max.

End sizes.

Lemma zlookup_app_l {A} (l r : list A) i : i < Z.of_nat (length l) -> (l ++ r).[i] = l.[i].
Proof. intros Hi. unfold zlookup. case_decide; [|done]. apply lookup_app_l. lia. Qed.

(** Buffers that describe the cells [new], with offsets that begin at [o_0], and may
    go on after that. *)
Definition encodes {IB : IndexBits} (new : list Cell) (values offsets : list Z) (types : list CellType) : Prop :=
  exists o_0 ev eo et, 0 <= o_0 /\ total new.*2 + o_0 <= index_max /\ values = mjoin new.*2 ++ ev /\ offsets = ((fun o => o + o_0) <$> offsets_all new.*2) ++ eo /\ types = new.*1 ++ et.

Lemma encodes_read {IB : IndexBits} new values offsets types : encodes new values offsets types -> exists o_0, 0 <= o_0 /\ total new.*2 + o_0 <= index_max /\
  offsets.[Z.of_nat (length new)] = Some (total new.*2 + o_0) /\ offsets.[0] = Some o_0 /\
  read_buf (Z.of_nat (length new)) (dropZ 1 offsets) = Some ((fun o => o + o_0) <$> ends new.*2) /\
  read_buf (total new.*2) values = Some (mjoin new.*2) /\ read_buf (Z.of_nat (length new)) types = Some new.*1.
Proof.
  intros (o_0 & ev & eo & et & H0 & Hmax & -> & -> & ->). exists o_0. split; [done|]. split; [done|]. split_and!.
  - rewrite zlookup_app_l, zlookup_fmap by (rewrite length_fmap, length_offsets_all, length_fmap; lia).
    pose proof (offsets_all_last new.*2) as H. rewrite length_fmap in H. by rewrite H.
  - by rewrite offsets_all_ends.
  - rewrite offsets_all_ends. cbn. apply read_buf_app_n. by rewrite length_fmap, length_ends, length_fmap.
  - by apply read_buf_app_n.
  - apply read_buf_app_n. by rewrite length_fmap.
Qed.

(** ** Cells of several types *)

Module T.
Import Typed.

Section T.
Context {IB : IndexBits}.

Definition represents (c : ConnectivityArray) (cells : list Cell) : Prop :=
  m_values c = mjoin cells.*2 /\ m_types c = cells.*1 /\ m_offsets c = offsets_all cells.*2.

(** The operations, with the buffers they are given. *)
Inductive op :=
  | Append (values : list Z) (n_values : Z) (type : CellType)
  | AppendM (values : list Z) (n_IDs : Z) (offsets : list Z) (types : list CellType)
  | SetM (values : list Z) (start_ID n_IDs : Z)
  | InsertM (values : list Z) (start_ID n_IDs : Z) (offsets : list Z) (types : list CellType)
  | Insert (values : list Z) (start_ID n_values : Z) (type : CellType).

Definition run (o : op) (c : ConnectivityArray) : outcome ConnectivityArray :=
  match o with
  | Append values n_values type => append c values n_values type
  | AppendM values n_IDs offsets types => appendM c values n_IDs offsets types
  | SetM values start_ID n_IDs => setM c values start_ID n_IDs
  | InsertM values start_ID n_IDs offsets types => insertM c values start_ID n_IDs offsets types
  | Insert values start_ID n_values type => insert_ c values start_ID n_values type
  end.

(** What they do to the list of cells. *)
Inductive spec : op -> list Cell -> list Cell -> Prop :=
  | spec_append cells nodes more type : type <> UNDEFINED_CELL ->
      spec (Append (nodes ++ more) (Z.of_nat (length nodes)) type) cells (cells ++ [(type, nodes)])
  | spec_appendM cells new values offsets types : encodes new values offsets types ->
      spec (AppendM values (Z.of_nat (length new)) offsets types) cells (cells ++ new)
  | spec_setM pre mid post nodes more : length <$> nodes = length <$> mid.*2 ->
      spec (SetM (mjoin nodes ++ more) (Z.of_nat (length pre)) (Z.of_nat (length mid))) (pre ++ mid ++ post) (pre ++ zip mid.*1 nodes ++ post)
  | spec_insertM pre post new values offsets types : encodes new values offsets types ->
      spec (InsertM values (Z.of_nat (length pre)) (Z.of_nat (length new)) offsets types) (pre ++ post) (pre ++ new ++ post)
  | spec_insert pre post nodes more type :
      spec (Insert (nodes ++ more) (Z.of_nat (length pre)) (Z.of_nat (length nodes)) type) (pre ++ post) (pre ++ [(type, nodes)] ++ post).

Lemma make_represents : represents make [].
Proof. done. Qed.

Lemma represents_sizes c cells : represents c cells ->
  Z.of_nat (length (m_values c)) = total cells.*2 /\ Z.of_nat (length (m_types c)) = Z.of_nat (length cells) /\
  Z.of_nat (length (m_offsets c)) = Z.of_nat (length cells) + 1.
Proof. intros (-> & -> & ->). rewrite length_offsets_all, !length_fmap. unfold total. lia. Qed.

Lemma cells_fit_app l1 l2 : cells_fit (l1 ++ l2) ->
  2 * (total l1.*2 + total l2.*2 + 1) <= index_max /\ 2 * (Z.of_nat (length l1) + Z.of_nat (length l2) + 2) <= index_max.
Proof. unfold cells_fit. rewrite fmap_app, join_total_app, length_app. lia. Qed.

(** Offsets that are moved by a correction stay in the range. *)
Lemma add_ends_ok (ls : list (list Z)) (a k : Z) : 0 <= a + k -> a + total ls + k <= index_max ->
  add_all k ((fun o => o + a) <$> ends ls) = Done ((fun o => o + (a + k)) <$> ends ls).
Proof.
  intros Ha Hb. unfold add_all. rewrite map_all_ok.
  - rewrite <- list_fmap_compose. f_equal. apply list_fmap_ext. intros _ o _. unfold compose. lia.
  - apply Forall_fmap. eapply Forall_impl; [apply ends_from_bounds|]. cbn. lia.
Qed.

Lemma append_ok c cells nodes more type : represents c cells -> type <> UNDEFINED_CELL -> cells_fit (cells ++ [(type, nodes)]) ->
  exists c', append c (nodes ++ more) (Z.of_nat (length nodes)) type = Done c' /\ represents c' (cells ++ [(type, nodes)]).
Proof.
  intros Hr Hty Hfit. pose proof (represents_sizes c cells Hr) as (Sv & St & So). destruct (cells_fit_app _ _ Hfit) as [F1 F2].
  destruct Hr as (Hv & Ht & Ho). pose proof (total_nonneg cells.*2). cbn [fmap list_fmap snd] in F1. rewrite total_cons in F1. cbn [length] in F2. pose proof (total_nonneg (@nil (list Z))).
  unfold append. rewrite bool_decide_false by done. cbn [negb assert_]. rewrite bind_Done, read_buf_app. cbn [ub].
  rewrite bind_Done, (arr_append_app (m_values c)), bind_Done, (arr_append_app (m_offsets c)), bind_Done, (arr_append_app (m_types c)), bind_Done by (cbn [length]; lia).
  eexists. split; [done|]. unfold represents. cbn [m_values m_types m_offsets]. rewrite Hv, Ht, Ho, !fmap_app, join_app, offsets_all_app. cbn.
  rewrite app_nil_r. split_and!; [done|done|]. do 2 f_equal. unfold total. rewrite length_app. lia.
Qed.

Lemma appendM_ok c cells new values offsets types : represents c cells -> encodes new values offsets types -> cells_fit (cells ++ new) ->
  exists c', appendM c values (Z.of_nat (length new)) offsets types = Done c' /\ represents c' (cells ++ new).
Proof.
  intros Hr (o_0 & H0 & Hmax & E1 & E2 & E3 & E4 & E5)%encodes_read Hfit. pose proof (represents_sizes c cells Hr) as (Sv & St & So).
  destruct (cells_fit_app _ _ Hfit) as [F1 F2]. destruct Hr as (Hv & Ht & Ho). pose proof (total_nonneg cells.*2). pose proof (total_nonneg new.*2).
  unfold appendM. rewrite E1, E2. cbn [ub]. rewrite !bind_Done, (ix_sub_small (total new.*2 + o_0)), bind_Done by lia. rewrite E3. cbn [ub]. rewrite bind_Done.
  replace (total new.*2 + o_0 - o_0) with (total new.*2) by lia. rewrite E4. cbn [ub]. rewrite bind_Done, (arr_append_app (m_values c)), bind_Done by (unfold total in *; lia).
  unfold getNumberOfValues. rewrite Sv. unfold ix_sub, ix at 1. rewrite fits_diff by lia. rewrite bind_Done, add_ends_ok, bind_Done by lia.
  rewrite (arr_append_app (m_offsets c)), bind_Done by (rewrite length_fmap, length_ends, length_fmap; lia). rewrite E5. cbn [ub]. rewrite bind_Done, (arr_append_app (m_types c)), bind_Done by (rewrite length_fmap; lia).
  eexists. split; [done|]. unfold represents. cbn [m_values m_types m_offsets]. rewrite Hv, Ht, Ho, !fmap_app, join_app, offsets_all_app. split_and!; [done|done|]. f_equal.
  apply list_fmap_ext. intros _ o _. lia.
Qed.

Lemma insertM_ok c pre post new values offsets types : represents c (pre ++ post) -> encodes new values offsets types -> cells_fit (pre ++ new ++ post) ->
  exists c', insertM c values (Z.of_nat (length pre)) (Z.of_nat (length new)) offsets types = Done c' /\ represents c' (pre ++ new ++ post).
Proof.
  intros Hr (o_0 & H0 & Hmax & E1 & E2 & E3 & E4 & E5)%encodes_read Hfit. pose proof (represents_sizes c _ Hr) as (Sv & St & So).
  destruct (cells_fit_app _ _ Hfit) as [F1 F2]. destruct Hr as (Hv & Ht & Ho). rewrite fmap_app, join_total_app in F1. rewrite length_app in F2, So.
  pose proof (total_nonneg pre.*2). pose proof (total_nonneg new.*2). pose proof (total_nonneg post.*2).
  unfold insertM, getNumberOfIDs. rewrite So. rewrite assert_true by (apply andb_true_intro; split; [apply andb_true_intro; split|]; apply Z.leb_le; lia).
  rewrite bind_Done, E1, E2. cbn [ub]. rewrite !bind_Done, (ix_sub_small (total new.*2 + o_0)), bind_Done by lia. replace (total new.*2 + o_0 - o_0) with (total new.*2) by lia.
  rewrite fmap_app in Hv. rewrite fmap_app in Ht. rewrite fmap_app in Ho. rewrite join_app in Hv. rewrite offsets_all_app in Ho.
  assert ((m_offsets c).[Z.of_nat (length pre)] = Some (total pre.*2)) as E.
  { rewrite Ho, zlookup_app_l by (rewrite length_offsets_all, length_fmap; lia). pose proof (offsets_all_last pre.*2) as H'. by rewrite length_fmap in H'. }
  rewrite E. cbn [ub]. rewrite bind_Done, Ho. unfold takeZ, dropZ.
  replace (Z.to_nat (Z.of_nat (length pre) + 1)) with (length (offsets_all pre.*2)) by (rewrite length_offsets_all, length_fmap; lia).
  rewrite take_app_length, drop_app_length, add_ends_ok, bind_Done by lia. fold (dropZ 1 offsets). rewrite E3. cbn [ub]. rewrite bind_Done.
  unfold ix_sub, ix at 1. rewrite fits_diff by lia. rewrite bind_Done, add_ends_ok, bind_Done by lia.
  rewrite arr_insert_app, bind_Done by (rewrite length_offsets_all, ?length_fmap, ?length_ends, ?length_fmap; lia).
  rewrite E4, Hv. cbn [ub]. rewrite bind_Done, arr_insert_app, bind_Done by (unfold total in *; lia).
  rewrite E5, Ht. cbn [ub]. rewrite bind_Done, arr_insert_app, bind_Done by (rewrite !length_fmap; lia).
  eexists. split; [done|]. unfold represents. cbn. rewrite !fmap_app, !join_app, !offsets_all_app, ends_app, fmap_app. split_and!; [done|done|]. f_equal. f_equal.
  - apply list_fmap_ext. intros _ o _. lia.
  - rewrite <- list_fmap_compose. apply list_fmap_ext. intros _ o _. unfold compose. lia.
Qed.

Lemma setM_ok c pre mid post nodes more : represents c (pre ++ mid ++ post) -> length <$> nodes = length <$> mid.*2 -> cells_fit (pre ++ mid ++ post) ->
  exists c', setM c (mjoin nodes ++ more) (Z.of_nat (length pre)) (Z.of_nat (length mid)) = Done c' /\ represents c' (pre ++ zip mid.*1 nodes ++ post).
Proof.
  intros Hr Hl Hfit. pose proof (represents_sizes c _ Hr) as (_ & _ & So). destruct (cells_fit_app _ _ Hfit) as [F1 F2]. rewrite fmap_app, join_total_app in F1. rewrite length_app in F2. rewrite !length_app in So.
  pose proof (total_nonneg pre.*2). pose proof (total_nonneg mid.*2). pose proof (total_nonneg post.*2).
  destruct Hr as (Hv & Ht & Ho). rewrite !fmap_app in Hv. rewrite !fmap_app in Ht. rewrite !fmap_app in Ho. rewrite !join_app in Hv. unfold setM, getNumberOfIDs.
  assert (length nodes = length mid) as Hlen by (apply (f_equal length) in Hl; by rewrite !length_fmap in Hl).
  assert (total nodes = total mid.*2) as Htot.
  { apply offsets_all_ext in Hl. pose proof (offsets_all_last nodes) as H1'. pose proof (offsets_all_last mid.*2) as H2'. rewrite length_fmap in H2'. rewrite Hl, Hlen, H2' in H1'. by injection H1'. }
  assert ((m_offsets c).[Z.of_nat (length pre)] = Some (total pre.*2)) as E1.
  { rewrite Ho, offsets_all_app, zlookup_app_l by (rewrite length_offsets_all, length_fmap; lia). pose proof (offsets_all_last pre.*2) as H'. by rewrite length_fmap in H'. }
  assert ((m_offsets c).[Z.of_nat (length pre) + Z.of_nat (length mid)] = Some (total pre.*2 + total mid.*2)) as E2.
  { rewrite Ho, app_assoc, offsets_all_app, zlookup_app_l by (rewrite length_offsets_all, length_app, !length_fmap; lia).
    pose proof (offsets_all_last (pre.*2 ++ mid.*2)) as H'. rewrite length_app, !length_fmap, join_total_app in H'. by replace (Z.of_nat (length pre) + Z.of_nat (length mid)) with (Z.of_nat (length pre + length mid)) by lia. }
  rewrite assert_true, bind_Done, ix_add_small, bind_Done, assert_true, bind_Done by (try apply Z.leb_le; lia).
  rewrite E1, E2. cbn [ub]. rewrite !bind_Done, ix_sub_small, bind_Done by lia. rewrite read_buf_app_n by (unfold total in *; lia). cbn [ub]. rewrite bind_Done, Hv, set_at_app by (unfold total in *; done || lia). cbn.
  eexists. split; [done|]. unfold represents. cbn. rewrite !fmap_app, !join_app, fst_zip, snd_zip by (rewrite length_fmap; lia). split_and!; [done|done|].
  rewrite Ho. apply offsets_all_ext. by rewrite !fmap_app, Hl.
Qed.

Lemma typed_insert_ok c pre post nodes more type : represents c (pre ++ post) -> cells_fit (pre ++ [(type, nodes)] ++ post) ->
  exists c', insert_ c (nodes ++ more) (Z.of_nat (length pre)) (Z.of_nat (length nodes)) type = Done c' /\ represents c' (pre ++ [(type, nodes)] ++ post).
Proof.
  intros Hc Hfit. pose proof (represents_sizes c _ Hc) as (_ & _ & So). rewrite length_app in So. destruct (cells_fit_app _ _ Hfit) as [F1 _]. rewrite fmap_app, join_total_app in F1. cbn [fmap list_fmap snd] in F1. rewrite total_cons in F1.
  pose proof (total_nonneg pre.*2). pose proof (total_nonneg post.*2). pose proof (total_nonneg (@nil (list Z))).
  unfold insert_, getNumberOfIDs. rewrite assert_true, bind_Done by (apply andb_true_intro; split; [apply andb_true_intro; split|]; apply Z.leb_le; lia).
  apply (insertM_ok c pre post [(type, nodes)]); [done| |done]. exists 0, more, [], []. cbn. rewrite app_nil_r, !Z.add_0_r. split_and!; [done| |done..].
  unfold total. cbn. rewrite app_nil_r. lia.
Qed.

Lemma typed_run_ok o c cells cells' : represents c cells -> spec o cells cells' -> cells_fit cells -> cells_fit cells' ->
  exists c', run o c = Done c' /\ represents c' cells'.
Proof.
  intros Hc Hs Hf Hf'. destruct Hs; cbn [run]; [by apply append_ok|by apply appendM_ok|by apply setM_ok|by apply insertM_ok|by apply typed_insert_ok].
Qed.

(** What can be read back. *)
Lemma reads_ok c cells ID type nodes : represents c cells -> cells.[ID] = Some (type, nodes) ->
  getIDType c ID = Some type /\ getNumberOfValuesForID c ID = Some (Z.of_nat (length nodes)) /\ getValues c ID = Some nodes.
Proof.
  intros (Hv & Ht & Ho) Hi. pose proof (zlookup_Some_bounds _ _ _ Hi) as Hb. rewrite zlookup_to_nat in Hi by lia.
  assert (forall n, (n <= length cells)%nat -> (m_offsets c).[Z.of_nat n] = Some (total (take n cells.*2))) as Hoff.
  { intros n Hn. rewrite Ho, zlookup_of_nat, offsets_all_lookup by (by rewrite length_fmap). done. }
  pose proof (take_drop_middle cells (Z.to_nat ID) (type, nodes) Hi) as Hcells.
  assert ((m_offsets c).[ID] = Some (total (take (Z.to_nat ID) cells.*2))) as E1 by (rewrite <- Hoff by lia; f_equal; lia).
  assert ((m_offsets c).[ID + 1] = Some (total (take (Z.to_nat ID) cells.*2) + Z.of_nat (length nodes))) as E2.
  { replace (ID + 1) with (Z.of_nat (S (Z.to_nat ID))) by lia. rewrite Hoff by lia. rewrite (take_S_r _ _ nodes) by (by rewrite list_lookup_fmap, Hi).
    rewrite join_total_app. f_equal. unfold total at 2. cbn. rewrite app_nil_r. lia. }
  assert (getNumberOfValuesForID c ID = Some (Z.of_nat (length nodes))) as E3 by (unfold getNumberOfValuesForID; rewrite E1, E2; cbn; f_equal; lia).
  split_and!; [|done|].
  - unfold getIDType. rewrite (proj2 (Z.ltb_ge _ _)) by lia. by rewrite Ht, zlookup_fmap, zlookup_to_nat, Hi by lia.
  - unfold getValues. rewrite E1, E3. cbn. rewrite Hv. rewrite <- Hcells at 2. rewrite fmap_app, join_app, fmap_take. unfold dropZ, total. rewrite Nat2Z.id, drop_app_length.
    cbn. apply read_buf_app.
Qed.

Lemma ids_ok c cells : represents c cells -> getNumberOfIDs c = Z.of_nat (length cells).
Proof. intros (_ & _ & Ho). unfold getNumberOfIDs. rewrite Ho, length_offsets_all, length_fmap. lia. Qed.

End T.

End T.
(** ** Cells of one type *)

Module S1.
Import Strided.

Section S1.
Context {IB : IndexBits}.

Definition represents (c : ConnectivityArray) (cells : list Cell) : Prop :=
  0 < m_stride c /\ m_values c = mjoin cells.*2 /\ Forall (fun x => x.1 = m_cell_type c /\ Z.of_nat (length x.2) = m_stride c) cells.

Lemma strided_length k (cells : list Cell) : Forall (fun x => Z.of_nat (length x.2) = k) cells -> Z.of_nat (length (mjoin cells.*2)) = Z.of_nat (length cells) * k.
Proof. induction 1 as [|x l Hx _ IH]; [done|]. rewrite fmap_cons, join_cons, length_app. cbn [length]. lia. Qed.

Lemma represents_length c cells : represents c cells -> Z.of_nat (length (mjoin cells.*2)) = Z.of_nat (length cells) * m_stride c.
Proof. intros (_ & _ & Hf). apply strided_length. eapply Forall_impl; [exact Hf|]. by intros x []. Qed.

Lemma represents_app c l1 l2 : represents c (l1 ++ l2) -> Z.of_nat (length (mjoin l1.*2)) = Z.of_nat (length l1) * m_stride c.
Proof. intros (_ & _ & [Hf _]%Forall_app). apply strided_length. eapply Forall_impl; [exact Hf|]. by intros x []. Qed.

(** Cells of the kind of the array. *)
Definition suits (c : ConnectivityArray) (new : list Cell) : Prop := Forall (fun x => x.1 = m_cell_type c /\ Z.of_nat (length x.2) = m_stride c) new.

Lemma suits_length c new : suits c new -> Z.of_nat (length new) * m_stride c = Z.of_nat (length (mjoin new.*2)).
Proof. intros Hf. symmetry. apply strided_length. eapply Forall_impl; [exact Hf|]. by intros x []. Qed.

Lemma represents_ids c cells : represents c cells -> getNumberOfIDs c = Z.of_nat (length cells).
Proof. intros Hr. pose proof (represents_length c cells Hr) as Hl. destruct Hr as (Hs & Hv & _). unfold getNumberOfIDs. rewrite Hv, Hl. apply Z.div_mul. lia. Qed.

Lemma appendM_ok1 c cells new more : represents c cells -> suits c new -> cells_fit (cells ++ new) ->
  exists c', appendM c (mjoin new.*2 ++ more) (Z.of_nat (length new)) = Done c' /\ represents c' (cells ++ new).
Proof.
  intros (Hs & Hv & Hc) Hf [F1 _]%T.cells_fit_app. unfold total in F1. unfold appendM. rewrite assert_true, bind_Done by (apply Z.leb_le; lia).
  pose proof (suits_length c new Hf) as Hl. rewrite ix_mul_small, bind_Done by lia. rewrite Hl, read_buf_app. cbn [ub].
  rewrite bind_Done, arr_append_app, bind_Done by (rewrite Hv; lia). eexists. split; [done|]. unfold represents. cbn.
  rewrite Hv, fmap_app, join_app. split_and!; [done|done|]. by apply Forall_app.
Qed.

Lemma insertM_ok1 c pre post new more : represents c (pre ++ post) -> suits c new -> cells_fit (pre ++ new ++ post) ->
  exists c', insertM c (mjoin new.*2 ++ more) (Z.of_nat (length pre)) (Z.of_nat (length new)) = Done c' /\ represents c' (pre ++ new ++ post).
Proof.
  intros Hr Hf [F1 _]%T.cells_fit_app. rewrite fmap_app, join_total_app in F1. unfold total in F1. pose proof (represents_app _ _ _ Hr) as Hl. pose proof (represents_ids _ _ Hr) as Hids. rewrite length_app in Hids.
  destruct Hr as (Hs & Hv & Hc). unfold insertM. rewrite assert_true, bind_Done by (apply andb_true_intro; split; apply Z.leb_le; lia).
  pose proof (suits_length c new Hf) as Hln. rewrite (ix_mul_small (Z.of_nat (length new))), bind_Done, (ix_mul_small (Z.of_nat (length pre))), bind_Done by lia. rewrite Hln, read_buf_app. cbn [ub].
  rewrite fmap_app, join_app in Hv. rewrite bind_Done, Hv, arr_insert_app, bind_Done by lia.
  eexists. split; [done|]. unfold represents. cbn. rewrite !fmap_app, !join_app. split_and!; [done|done|].
  apply Forall_app in Hc as [H1 H2]. rewrite !Forall_app. done.
Qed.

Lemma setM_ok1 c pre mid post new more : represents c (pre ++ mid ++ post) -> suits c new -> length new = length mid -> cells_fit (pre ++ mid ++ post) ->
  exists c', setM c (mjoin new.*2 ++ more) (Z.of_nat (length pre)) (Z.of_nat (length mid)) = Done c' /\ represents c' (pre ++ new ++ post).
Proof.
  intros Hr Hf Hn [F1 F2]%T.cells_fit_app. rewrite fmap_app, join_total_app in F1. rewrite length_app in F2. unfold total in F1.
  pose proof (represents_app _ _ _ Hr) as Hl. pose proof (represents_ids _ _ Hr) as Hids. rewrite !length_app in Hids. destruct Hr as (Hs & Hv & Hc). rewrite !Forall_app in Hc. destruct Hc as (H1 & H2 & H3).
  pose proof (suits_length c new Hf) as Hln. pose proof (suits_length c mid H2) as Hlm. unfold setM. rewrite <- Hn in *.
  rewrite (assert_true (0 <=? _)), bind_Done, ix_add_small, bind_Done, assert_true, bind_Done by (try apply Z.leb_le; lia).
  rewrite (ix_mul_small (Z.of_nat (length new))), bind_Done, (ix_mul_small (Z.of_nat (length pre))), bind_Done by lia. rewrite Hln, read_buf_app. cbn [ub]. rewrite bind_Done.
  rewrite Hv, !fmap_app, !join_app, set_at_app by lia. cbn.
  eexists. split; [done|]. unfold represents. cbn. rewrite !fmap_app, !join_app, !Forall_app. done.
Qed.

Lemma reads_ok1 c cells ID type nodes : represents c cells -> cells.[ID] = Some (type, nodes) ->
  getIDType c ID = type /\ getNumberOfValuesForID c ID = Z.of_nat (length nodes) /\ getValues c ID = Some nodes.
Proof.
  intros Hr Hi. pose proof (zlookup_Some_bounds _ _ _ Hi) as Hb. rewrite zlookup_to_nat in Hi by lia.
  pose proof (take_drop_middle cells (Z.to_nat ID) (type, nodes) Hi) as Hcells. rewrite <- Hcells in Hr. pose proof (represents_app _ _ _ Hr) as Hl. destruct Hr as (Hs & Hv & Hc).
  rewrite Forall_app, Forall_cons in Hc. destruct Hc as (_ & [Ht Hn] & _). cbn in Ht, Hn. rewrite length_take in Hl.
  split_and!; [done|done|]. unfold getValues. rewrite (proj2 (Z.ltb_ge _ _)) by nia. rewrite Hv, fmap_app, join_app. unfold dropZ.
  replace (Z.to_nat (ID * m_stride c)) with (length (mjoin (take (Z.to_nat ID) cells).*2)) by lia. rewrite drop_app_length. cbn. by apply read_buf_app_n.
Qed.

End S1.

End S1.
(** ** Sequences of operations *)

Import Typed T.

(** Every list of cells on the way can be stored. *)
Inductive spec_all {IB : IndexBits} : list op -> list Cell -> list Cell -> Prop :=
  | spec_all_nil cells : spec_all [] cells cells
  | spec_all_cons o os cells1 cells2 cells3 : spec o cells1 cells2 -> cells_fit cells2 -> spec_all os cells2 cells3 -> spec_all (o :: os) cells1 cells3.

Fixpoint run_all {IB : IndexBits} (os : list op) (c : ConnectivityArray) : outcome ConnectivityArray :=
  match os with [] => Done c | o :: os => c' ← run o c; run_all os c' end.

(** C14: A connectivity array with offsets is a list of cells.  Starting from the empty
    array, every sequence of appended, inserted and changed cells, one at a time (appended
    with a type other than [UNDEFINED_CELL]) or many with offsets that start at any number
    that is not negative, succeeds and leaves the cells that the same steps leave in a
    list: as many IDs, and for each the type, number of nodes and nodes.  After each step
    twice the number of cells and twice the number of their nodes, plus a small constant,
    are values of the [IndexType], as are the offsets that are given. *)
Theorem connectivity_refines {IB : IndexBits} os cells : spec_all os [] cells ->
  exists c, run_all os make = Done c /\ getNumberOfIDs c = Z.of_nat (length cells) /\
  forall ID type nodes, cells.[ID] = Some (type, nodes) ->
    getIDType c ID = Some type /\ getNumberOfValuesForID c ID = Some (Z.of_nat (length nodes)) /\ getValues c ID = Some nodes.
Proof.
  intros Hs. pose proof make_represents as Hr. assert (cells_fit []) as Hf by (pose proof index_max_lower; unfold cells_fit, total; cbn; lia).
  revert Hr Hf Hs. generalize make. generalize (@nil Cell). intros cells0 c Hr Hf Hs.
  revert c Hr Hf. induction Hs as [cells'|o os cells1 cells2 cells3 Ho Hfit _ IH]; intros c Hr Hf.
  - exists c. split; [done|]. split; [by apply ids_ok|]. intros ID type nodes. by apply reads_ok.
  - destruct (typed_run_ok _ _ _ _ Hr Ho Hf Hfit) as (c' & Hc' & Hr'). cbn [run_all]. rewrite Hc', bind_Done. by apply IH.
Qed.

#[local] Instance bits : IndexBits := IndexType64.

(** Two cells, a third between them with offsets that start at 5, and new nodes for two. *)
Lemma connectivity_refines_witness : exists c,
  run_all [Append [0; 1; 2; 9; 9] 3 TRIANGLE; Append [2; 1; 3; 4] 4 QUAD; InsertM [7; 8] 1 1 [5; 7] [SEGMENT]; SetM [6; 5; 1; 1; 1; 1] 1 2] make = Done c /\
  getNumberOfIDs c = 3 /\ getValues c 1 = Some [6; 5] /\ getIDType c 2 = Some QUAD.
Proof.
  destruct (connectivity_refines
    [Append [0; 1; 2; 9; 9] 3 TRIANGLE; Append [2; 1; 3; 4] 4 QUAD; InsertM [7; 8] 1 1 [5; 7] [SEGMENT]; SetM [6; 5; 1; 1; 1; 1] 1 2]
    [(TRIANGLE, [0; 1; 2]); (SEGMENT, [6; 5]); (QUAD, [1; 1; 1; 1])]) as (c & Hc & Hn & H).
  - eapply spec_all_cons; [exact (spec_append [] [0; 1; 2] [9; 9] TRIANGLE ltac:(done))|by vm_compute|].
    eapply spec_all_cons; [exact (spec_append _ [2; 1; 3; 4] [] QUAD ltac:(done))|by vm_compute|].
    eapply spec_all_cons; [apply (spec_insertM [(TRIANGLE, [0; 1; 2])] [(QUAD, [2; 1; 3; 4])] [(SEGMENT, [7; 8])]); by exists 5, [], [], []|by vm_compute|].
    eapply spec_all_cons; [exact (spec_setM [(TRIANGLE, [0; 1; 2])] [(SEGMENT, [7; 8]); (QUAD, [2; 1; 3; 4])] [] [[6; 5]; [1; 1; 1; 1]] [] eq_refl)|by vm_compute|]. apply spec_all_nil.
  - exists c. split; [exact Hc|]. split; [exact Hn|]. split; [by apply (H 1 SEGMENT [6; 5])|by apply (H 2 QUAD [1; 1; 1; 1])].
Defined.

(** An offset that a correction moves past the largest [IndexType]. *)
Example offsets_overflow_appendM : run_all [Append [0; 1; 2] 3 TRIANGLE; AppendM [4; 5] 1 [- index_max; - index_max + 2] [SEGMENT]] make = Undefined.
Proof. by vm_compute. Qed.

(** ** Resizing *)

(** After two of three cells are dropped their nodes are kept, so that the next cell that
    is appended gets them as well. *)
Example resize_keeps_values :
  (c ← resize (mkTyped [0; 1; 2; 3; 4; 5; 6; 7; 8] [TRIANGLE; SEGMENT; QUAD] [0; 3; 5; 9]) 32 1 USE_DEFAULT;
   c' ← append c [10; 11] 2 SEGMENT;
   vs ← ub (getValues c' 1); Done (getNumberOfIDs c', getIDType c' 1, vs)) = Done (2, Some SEGMENT, [3; 4; 5; 6; 7; 8; 10; 11]).
Proof. by vm_compute. Qed.

(** When all cells are dropped, room for the capacity becomes values of the next cell. *)
Example resize_to_empty :
  (c ← resize (mkTyped [0; 1; 2] [TRIANGLE] [0; 3]) 2 0 USE_DEFAULT;
   c' ← append c [10; 11] 2 SEGMENT; ub (getNumberOfValuesForID c' 0)) = Done 56.
Proof. by vm_compute. Qed.

(** New IDs have offset zero, less than the offsets before them. *)
Example resize_grows_offsets :
  (c ← resize (mkTyped [0; 1; 2] [TRIANGLE] [0; 3]) 4 2 USE_DEFAULT; ub (getNumberOfValuesForID c 1)) = Done (-3).
Proof. by vm_compute. Qed.

End MintConnectivityTheorems.
