(* ===== verification/MintUnstructured.v ===== *)
(** * Unstructured meshes of Mint

    [mint/mesh/UnstructuredMesh.hpp]: a mesh holds the nodes of its cells in a connectivity
    array and computes the faces on demand ([initializeFaceConnectivity]).  The mesh is the
    same code for both kinds of connectivity arrays, so that it is modelled over an
    interface that both implement; where the code has one version for each kind, the
    interface has a function.

    Coordinates are represented by their number and fields are not modelled.  A failed
    [SLIC_ASSERT] aborts, as in a build that checks it, and a value outside of the
    [IndexType] is undefined behaviour. *)

From S2P Require Import Prelude OffsetLists Outcome MintCells MintFaces MintConnectivity MintConnectivityTheorems.

Module MintUnstructured.
Import OffsetLists Outcome MintCells MintFaces MintConnectivity MintConnectivityTheorems.
#[local] Open Scope list_scope.

(** ** The interface of connectivity arrays *)

Class CellStore (C : Type) := {
  cs_append : C -> list Z -> Z -> CellType -> outcome C;
  cs_insert : C -> list Z -> Z -> Z -> CellType -> outcome C;
  (** A loop that assigns to all values. *)
  cs_map : (Z -> Z) -> C -> outcome C;
  cs_ids : C -> Z;
  cs_type : C -> Z -> option CellType;
  cs_nodes : C -> Z -> option (list Z);
  (** The faces of a cell in the arrays of [initFaces]: [updateFaceRelations] binds them
      with a stride for cells of one type and with offsets otherwise. *)
  cs_faces : C -> FaceData -> Z -> option (list Z) }.

Definition map_nodes (f : Z -> Z) (cells : list Cell) : list Cell := (fun x : Cell => (x.1, f <$> x.2)) <$> cells.

(** The arrays store [faces] for the cells, as many for each as its type has. *)
Definition faces_stored (cells : list Cell) (fd : FaceData) (faces : Z -> list Z) : Prop :=
  let stored := faces <$> up 0 (Z.of_nat (length cells)) in
  c2f fd = mjoin stored /\ c2foffsets fd = offsets_all stored /\
  forall c x, cells.[c] = Some x -> exists info, getCellInfo x.1 = Some info /\ Z.of_nat (length (faces c)) = num_faces info.

(** What the mesh relies on. *)
Class CellStoreLaws {IB : IndexBits} (C : Type) `{CellStore C} := {
  cs_holds : C -> list Cell -> Prop;
  (** The arguments of [append] and [insert] that make a cell. *)
  cs_makes : C -> Z -> CellType -> Cell -> Prop;
  cs_append_ok c cells n type x more : cs_holds c cells -> cs_makes c n type x -> cells_fit (cells ++ [x]) ->
    exists c', cs_append c (x.2 ++ more) n type = Done c' /\ cs_holds c' (cells ++ [x]);
  cs_insert_ok c pre post n type x more : cs_holds c (pre ++ post) -> cs_makes c n type x -> cells_fit (pre ++ [x] ++ post) ->
    exists c', cs_insert c (x.2 ++ more) (Z.of_nat (length pre)) n type = Done c' /\ cs_holds c' (pre ++ [x] ++ post);
  cs_map_ok f c cells : cs_holds c cells -> Forall (fun x : Cell => Forall (fun v => 0 <= f v <= index_max) x.2) cells ->
    exists c', cs_map f c = Done c' /\ cs_holds c' (map_nodes f cells);
  cs_ids_ok c cells : cs_holds c cells -> cs_ids c = Z.of_nat (length cells);
  cs_reads_ok c cells ID x : cs_holds c cells -> cells.[ID] = Some x -> cs_type c ID = Some x.1 /\ cs_nodes c ID = Some x.2;
  cs_faces_ok c cells fd (faces : Z -> list Z) ID : cs_holds c cells -> faces_stored cells fd faces ->
    0 <= ID < Z.of_nat (length cells) -> cs_faces c fd ID = Some (faces ID) }.

(** ** The two connectivity arrays *)

(** [MIXED_SHAPE]. *)
#[export] Instance typed_store {IB : IndexBits} : CellStore Typed.ConnectivityArray := {|
  cs_append := Typed.append;
  cs_insert := Typed.insert_;
  cs_map f c := vs ← map_all f (Typed.m_values c); Done (Typed.mkTyped vs (Typed.m_types c) (Typed.m_offsets c));
  cs_ids := Typed.getNumberOfIDs;
  cs_type := Typed.getIDType;
  cs_nodes := Typed.getValues;
  cs_faces _ fd ID := slice_of (c2f fd) (c2foffsets fd) ID |}.

(** [SINGLE_SHAPE]. *)
#[export] Instance strided_store {IB : IndexBits} : CellStore Strided.ConnectivityArray := {|
  cs_append c values _ _ := Strided.append c values;
  cs_insert c values ID _ _ := Strided.insert_ c values ID;
  cs_map f c := vs ← map_all f (Strided.m_values c); Done (Strided.mkStrided (Strided.m_cell_type c) (Strided.m_stride c) vs);
  cs_ids := Strided.getNumberOfIDs;
  cs_type c ID := Some (Strided.getIDType c ID);
  cs_nodes := Strided.getValues;
  cs_faces c fd ID :=
    info ← getCellInfo (Strided.getIDType c 0);
    if ID * num_faces info <? 0 then None else read_buf (num_faces info) (dropZ (ID * num_faces info) (c2f fd)) |}.

(** ** Meshes *)

Record UnstructuredMesh (C : Type) := mkUnstructured {
  u_ndims : Z; u_nodes : Z; u_cells : C; u_faces : Z; u_faceData : FaceData }.
Arguments mkUnstructured {C}.
Arguments u_ndims {C}.
Arguments u_nodes {C}.
Arguments u_cells {C}.
Arguments u_faces {C}.
Arguments u_faceData {C}.

Section mesh.
Context {IB : IndexBits} {C : Type} `{CellStore C}.
Implicit Types (m : UnstructuredMesh C).

Definition with_cells m (c : C) : UnstructuredMesh C := mkUnstructured (u_ndims m) (u_nodes m) c (u_faces m) (u_faceData m).

Definition getNumberOfCells m : Z := cs_ids (u_cells m).
Definition getNumberOfNodes m : Z := u_nodes m.
Definition getNumberOfFaces m : Z := u_faces m.
Definition getCellType m (cellID : Z) : option CellType := cs_type (u_cells m) cellID.
Definition getCellNodeIDs m (cellID : Z) : option (list Z) := cs_nodes (u_cells m) cellID.
Definition getNumberOfCellFaces m (cellID : Z) : option Z := t ← getCellType m cellID; num_faces <$> getCellInfo t.
Definition getCellFaceIDs m (cellID : Z) : option (list Z) := cs_faces (u_cells m) (u_faceData m) cellID.
Definition getFaceType m (faceID : Z) : option CellType := (f2ntypes (u_faceData m)).[faceID].
Definition getFaceNodeIDs m (faceID : Z) : option (list Z) := slice_of (f2n (u_faceData m)) (f2noffsets (u_faceData m)) faceID.

Definition getFaceCellIDs m (faceID : Z) : option (Z * Z) :=
  one ← (f2c (u_faceData m)).[2 * faceID]; two ← (f2c (u_faceData m)).[2 * faceID + 1]; Some (one, two).

(** The number of nodes that the cell type asks for. *)
Definition n_values (type : CellType) : option Z :=
  match type with UNDEFINED_CELL => Some 0 | _ => num_nodes <$> getCellInfo type end.

Definition appendCell m (connec : list Z) (type : CellType) : outcome (UnstructuredMesh C) :=
  n ← ub (n_values type); c ← cs_append (u_cells m) connec n type; Done (with_cells m c).

Definition insertCell m (connec : list Z) (ID : Z) (type : CellType) : outcome (UnstructuredMesh C) :=
  n ← ub (n_values type); c ← cs_insert (u_cells m) connec ID n type; Done (with_cells m c).

(** [appendNodes] and [insertNodes]; of the coordinates, [MeshCoordinates::append] and
    [MeshCoordinates::insert] check the arguments and set the new number. *)
Definition with_nodes m (n : Z) : UnstructuredMesh C := mkUnstructured (u_ndims m) n (u_cells m) (u_faces m) (u_faceData m).

Definition appendNodes m (n : Z) : outcome (UnstructuredMesh C) :=
  _ ← assert_ (0 <=? n); nodes ← ix_add (u_nodes m) n; Done (with_nodes m nodes).

Definition cellConnectivityUpdateInsert m (pos n : Z) : outcome (UnstructuredMesh C) :=
  _ ← assert_ ((0 <=? pos) && (pos <? getNumberOfNodes m));
  c ← cs_map (fun v => if pos <=? v then v + n else v) (u_cells m);
  Done (with_cells m c).

Definition insertNodes m (nodeID n : Z) (update_connectivity : bool) : outcome (UnstructuredMesh C) :=
  _ ← assert_ ((0 <=? n) && (0 <=? nodeID) && (nodeID <=? u_nodes m));
  nodes ← ix_add (u_nodes m) n;
  let m := with_nodes m nodes in
  if update_connectivity then cellConnectivityUpdateInsert m nodeID n else Done m.

(** What [initFaces] sees of the mesh.  It only asks for cells of the mesh. *)
Definition as_mesh m : Mesh :=
  mkMesh (getNumberOfCells m) (fun c => default [] (getCellNodeIDs m c)) (fun c => default UNDEFINED_CELL (getCellType m c)).

Definition initializeFaceConnectivity m (force : bool) : outcome (bool * UnstructuredMesh C) :=
  if u_ndims m =? 1 then Done (true, m)
  else if negb force && (0 <? getNumberOfFaces m) then Done (true, m)
  else
    '(retval, facecount, fd) ← initFaces (as_mesh m) (u_faceData m);
    Done (retval, mkUnstructured (u_ndims m) (u_nodes m) (u_cells m) (if retval : bool then facecount else u_faces m) fd).

End mesh.
End MintUnstructured.
