(* ===== verification/MintUnstructuredTheorems.v ===== *)
(** * Theorems on unstructured meshes

    Both connectivity arrays implement the interface of the mesh; the operations on cells
    and nodes keep the mesh well formed, and the faces that a mesh initializes are those of
    its cells. *)

From S2P Require Import Prelude OffsetLists Outcome MintCells MintFaces MintFacesTheorems MintConnectivity MintConnectivityTheorems MintUnstructured.

Module MintUnstructuredTheorems.
Import OffsetLists Outcome MintCells MintFaces MintFacesTheorems MintConnectivity MintConnectivityTheorems MintUnstructured.
#[local] Open Scope list_scope.

(** ** The interface is implemented *)

Lemma up_lookup n c : 0 <= c < n -> (up 0 n).[c] = Some c.
Proof. intros Hc. rewrite zlookup_to_nat by lia. unfold up. rewrite lookup_seqZ_lt by lia. f_equal. lia. Qed.

Lemma map_nodes_fst f cells : (map_nodes f cells).*1 = cells.*1.
Proof. unfold map_nodes. by rewrite <- list_fmap_compose. Qed.

Lemma map_nodes_snd f cells : (map_nodes f cells).*2 = (fun l : list Z => f <$> l) <$> cells.*2.
Proof. unfold map_nodes. by rewrite <- !list_fmap_compose. Qed.

Lemma map_nodes_join f cells : mjoin (map_nodes f cells).*2 = f <$> mjoin cells.*2.
Proof. rewrite map_nodes_snd. induction cells.*2 as [|x l IH]; [done|]. by rewrite fmap_cons, !join_cons, fmap_app, IH. Qed.

Lemma Forall_nodes (P : Z -> Prop) (cells : list Cell) : Forall (fun x : Cell => Forall P x.2) cells -> Forall P (mjoin cells.*2).
Proof. induction 1 as [|x l Hx _ IH]; [constructor|]. rewrite fmap_cons, join_cons. by apply Forall_app. Qed.

Lemma map_nodes_lengths f cells : length <$> (map_nodes f cells).*2 = length <$> cells.*2.
Proof. induction cells as [|x l IH]; [done|]. cbn. rewrite length_fmap. f_equal. apply IH. Qed.

#[export, refine] Instance typed_laws {IB : IndexBits} : CellStoreLaws Typed.ConnectivityArray := {|
  cs_holds := T.represents;
  cs_makes c n type x := type = x.1 /\ type <> UNDEFINED_CELL /\ n = Z.of_nat (length x.2) |}.
Proof.
  - intros c cells n type [t nodes] more Hc (-> & Ht & ->) Hf. by apply T.append_ok.
  - intros c pre post n type [t nodes] more Hc (-> & Ht & ->) Hf. by apply T.typed_insert_ok.
  - intros f c cells (Hv & Ht & Ho) Hf. cbn. rewrite Hv, map_all_ok by (by apply Forall_nodes). eexists. split; [done|].
    unfold T.represents. cbn. rewrite (map_nodes_join f cells), (map_nodes_fst f cells). split_and!; [done|done|].
    rewrite Ho. apply offsets_all_ext. symmetry. apply map_nodes_lengths.
  - intros c cells. apply T.ids_ok.
  - intros c cells ID [t nodes] Hc Hi. destruct (T.reads_ok c cells ID t nodes Hc Hi) as (? & _ & ?). done.
  - intros c cells fd faces ID _ (Hf & Ho & _) Hi. cbn. rewrite Hf, Ho. apply slice_of_join. by rewrite zlookup_fmap, up_lookup.
Defined.

Lemma strided_slice {A} k (ls : list (list A)) i x : Forall (fun l => Z.of_nat (length l) = k) ls -> ls.[i] = Some x ->
  (i * k <? 0) = false /\ read_buf k (dropZ (i * k) (mjoin ls)) = Some x.
Proof.
  intros Hl Hi. pose proof (zlookup_Some_bounds _ _ _ Hi) as Hb. rewrite zlookup_to_nat in Hi by lia. pose proof (take_drop_middle ls (Z.to_nat i) x Hi) as E.
  rewrite <- E in Hl. rewrite Forall_app, Forall_cons in Hl. destruct Hl as (H1 & Hx & _).
  assert (Z.of_nat (length (mjoin (take (Z.to_nat i) ls))) = i * k) as Hlen.
  { transitivity (Z.of_nat (length (take (Z.to_nat i) ls)) * k); [|rewrite length_take; lia]. clear -H1. induction H1 as [|y l Hy _ IH]; [done|]. rewrite join_cons, length_app. cbn [length]. lia. }
  split; [apply Z.ltb_ge; lia|]. rewrite <- E, join_app, join_cons. unfold dropZ. replace (Z.to_nat (i * k)) with (length (mjoin (take (Z.to_nat i) ls))) by lia.
  rewrite drop_app_length. by apply read_buf_app_n.
Qed.

#[export, refine] Instance strided_laws {IB : IndexBits} : CellStoreLaws Strided.ConnectivityArray := {|
  cs_holds := S1.represents;
  cs_makes c n type x := x.1 = Strided.m_cell_type c /\ Z.of_nat (length x.2) = Strided.m_stride c |}.
Proof.
  - intros c cells n type x more Hc Hx Hf. destruct (S1.appendM_ok1 c cells [x] more Hc) as (c' & E & ?); [by apply Forall_singleton|done|]. exists c'. split; [|done]. cbn [fmap list_fmap mjoin list_join app] in E. rewrite app_nil_r in E. exact E.
  - intros c pre post n type x more Hc Hx Hf. destruct (S1.insertM_ok1 c pre post [x] more Hc) as (c' & E & ?); [by apply Forall_singleton|done|]. exists c'. split; [|done]. cbn [fmap list_fmap mjoin list_join app] in E. rewrite app_nil_r in E. exact E.
  - intros f c cells (Hs & Hv & Hf) Hall. cbn. rewrite Hv, map_all_ok by (by apply Forall_nodes). eexists. split; [done|].
    unfold S1.represents. cbn. rewrite map_nodes_join. split_and!; [done|done|]. unfold map_nodes. apply Forall_fmap. eapply Forall_impl; [exact Hf|].
    intros x [? ?]. cbn. by rewrite length_fmap.
  - intros c cells. apply S1.represents_ids.
  - intros c cells ID [t nodes] Hc Hi. destruct (S1.reads_ok1 c cells ID t nodes Hc Hi) as (H1 & _ & ?). cbn. by rewrite H1.
  - intros c cells fd faces ID (Hs & Hv & Hf) (Hc & _ & Hn) Hi. cbn. unfold Strided.getIDType. rewrite Forall_forall in Hf.
    assert (forall i x, cells.[i] = Some x -> x.1 = Strided.m_cell_type c) as Ht.
    { intros i x Hx. pose proof (zlookup_Some_bounds _ _ _ Hx). rewrite zlookup_to_nat in Hx by lia. by apply list_elem_of_lookup_2, Hf in Hx as [? _]. }
    destruct (zlookup_lt cells ID Hi) as [x Hx]. destruct (Hn ID x Hx) as (info & Hinfo & _). rewrite (Ht ID x Hx) in Hinfo. rewrite Hinfo. cbn.
    destruct (strided_slice (num_faces info) (faces <$> up 0 (Z.of_nat (length cells))) ID (faces ID)) as [-> E].
    + apply Forall_fmap, Forall_forall. intros i Hi'%elem_of_up. destruct (zlookup_lt cells i Hi') as [y Hy]. destruct (Hn i y Hy) as (info' & Hinfo' & E). cbn.
      rewrite (Ht i y Hy), Hinfo in Hinfo'. injection Hinfo' as <-. done.
    + by rewrite zlookup_fmap, up_lookup.
    + by rewrite Hc.
Defined.

(** ** Well-formed meshes *)

(** A cell with the nodes that its type asks for. *)
Definition cell_good (x : Cell) : Prop := exists info, getCellInfo x.1 = Some info /\ Z.of_nat (length x.2) = num_nodes info.

Lemma cell_faces_info type info : getCellInfo type = Some info ->
  Z.of_nat (length (zip (face_types info) (cell_faces info))) = num_faces info /\
  Forall (fun local => Forall (fun n => 0 <= n < num_nodes info) local) (cell_faces info).
Proof.
  intros Hi. pose proof (cell_info_ok type) as Hok. unfold info_ok in Hok. rewrite Hi in Hok. destruct Hok as (_ & Hl & Hf & H2). split.
  - apply Forall2_length in H2. rewrite length_take in H2. rewrite length_zip_with. lia.
  - eapply Forall_impl; [exact Hf|]. by intros local [_ ?].
Qed.

Section mesh.
Context {IB : IndexBits} {C : Type} `{!CellStore C} `{!CellStoreLaws C} (m : UnstructuredMesh C) (cells : list Cell).
Context (Hc : cs_holds (u_cells m) cells) (Hg : Forall cell_good cells).

Lemma as_mesh_cells : mesh_cells (as_mesh m) = Z.of_nat (length cells).
Proof using Hc. cbn. unfold getNumberOfCells. by apply cs_ids_ok. Qed.

Lemma as_mesh_reads c x : cells.[c] = Some x -> mesh_nodes (as_mesh m) c = x.2 /\ mesh_type (as_mesh m) c = x.1 /\ cell_good x.
Proof using Hc Hg.
  intros Hx. destruct (cs_reads_ok _ _ c x Hc Hx) as [Ht Hn]. cbn. unfold getCellNodeIDs, getCellType. rewrite Ht, Hn. split_and!; [done|done|]. by eapply zlookup_Forall.
Qed.

Lemma as_mesh_sides c x : cells.[c] = Some x -> exists info sides, getCellInfo x.1 = Some info /\ cell_sides (as_mesh m) c = Some sides /\
  Z.of_nat (length sides) = num_faces info /\ Z.of_nat (length x.2) <= MAX_CELL_NODES.
Proof using Hc Hg.
  intros Hx. destruct (as_mesh_reads c x Hx) as (En & Et & info & Hi & Hl). destruct (cell_faces_info _ _ Hi) as [Hlen Hin]. unfold cell_sides. rewrite Et, Hi, En. cbn [mbind option_bind].
  destruct (mapM_Forall2 (fun tl : CellType * list Z => nodes ← mapM (fun n => x.2.[n]) tl.2; Some (tl.1, nodes)) (fun _ _ => True) (zip (face_types info) (cell_faces info))) as (sides & Hs & H2).
  - intros [t local] Hloc. apply elem_of_zip_r in Hloc. rewrite Forall_forall in Hin. specialize (Hin local Hloc). rewrite Forall_forall in Hin. cbn.
    destruct (mapM_Forall2 (fun n => x.2.[n]) (fun _ _ => True) local) as (ns & -> & _); [|by eexists].
    intros n Hn. destruct (zlookup_lt x.2 n) as [v Hv]; [rewrite Hl; by apply Hin|by exists v].
  - exists info, sides. apply Forall2_length in H2. pose proof (cell_info_small _ _ Hi). rewrite H2 in Hlen. unfold MAX_CELL_NODES. split_and!; [done|done|done|lia].
Qed.

Lemma as_mesh_valid : mesh_valid (as_mesh m).
Proof using Hc Hg.
  intros c Hcr. rewrite as_mesh_cells in Hcr. destruct (zlookup_lt cells c Hcr) as [x Hx]. destruct (as_mesh_sides c x Hx) as (info & sides & _ & Hs & _ & Hl).
  destruct (as_mesh_reads c x Hx) as [-> _]. split; [done|by exists sides].
Qed.

(** As many faces are found for a cell as its type has. *)
Lemma ids_stored : faces_stored cells (mkFaceData (pairs (as_mesh m)) (mjoin (ids (as_mesh m) <$> up 0 (mesh_cells (as_mesh m)))) (mjoin (others (as_mesh m) <$> up 0 (mesh_cells (as_mesh m))))
  (offsets_all (ids (as_mesh m) <$> up 0 (mesh_cells (as_mesh m)))) (mjoin (node_lists (as_mesh m))) (offsets_all (node_lists (as_mesh m))) ((fun k => facetype (wf_at (work (as_mesh m)) k)) <$> keys (as_mesh m)))
  (ids (as_mesh m)).
Proof using Hc Hg.
  unfold faces_stored. cbn [c2f c2foffsets]. rewrite as_mesh_cells. split; [done|]. split; [done|]. intros c x Hx. pose proof (zlookup_Some_bounds _ _ _ Hx) as Hb.
  destruct (as_mesh_sides c x Hx) as (info & sides & Hi & Hs & Hl & _). exists info. split; [done|]. pose proof (cell_ids_keys (as_mesh m) c) as Hp. apply Permutation_length in Hp.
  rewrite incs_of_cell in Hp by (by rewrite as_mesh_cells). rewrite !length_fmap in Hp. unfold sides_of in Hp. rewrite Hs in Hp. unfold ids. rewrite Hp. done.
Qed.

(** The mesh after its faces have been found. *)
Definition with_faces (n : Z) (fd : FaceData) : UnstructuredMesh C := mkUnstructured (u_ndims m) (u_nodes m) (u_cells m) n fd.

Lemma initialize_faces force : mesh_fits (as_mesh m) -> u_ndims m <> 1 -> force = true \/ u_faces m <= 0 -> exists ok n fd,
  initFaces (as_mesh m) (u_faceData m) = Done (ok, n, fd) /\ initializeFaceConnectivity m force = Done (ok, with_faces (if ok then n else u_faces m) fd).
Proof using Hc Hg.
  intros Hfit Hd Hforce. pose proof (initFaces_run (as_mesh m) (u_faceData m) as_mesh_valid Hfit) as E. unfold initializeFaceConnectivity. rewrite (proj2 (Z.eqb_neq _ _) Hd).
  assert (negb force && (0 <? getNumberOfFaces m) = false) as ->.
  { unfold getNumberOfFaces. destruct Hforce as [->|Hf]; [done|]. by rewrite (proj2 (Z.ltb_ge _ _) Hf), andb_false_r. }
  rewrite E. destruct (forallb _ _); by eexists _, _, _.
Qed.

End mesh.


(** The cells have the nodes of their types, and these are nodes of the mesh. *)
Definition mesh_wf {IB : IndexBits} {C : Type} `{!CellStore C} `{!CellStoreLaws C} (m : UnstructuredMesh C) (cells : list Cell) : Prop :=
  cs_holds (u_cells m) cells /\ Forall cell_good cells /\ Forall (fun x => Forall (fun v => 0 <= v < u_nodes m) x.2) cells.

(** Where a node goes when [n] nodes are inserted at [pos]. *)
Definition shift (pos n v : Z) : Z := if pos <=? v then v + n else v.

Lemma map_nodes_wf (P Q : Z -> Prop) f cells : (forall v, P v -> Q (f v)) -> Forall cell_good cells -> Forall (fun x => Forall P x.2) cells ->
  Forall cell_good (map_nodes f cells) /\ Forall (fun x => Forall Q x.2) (map_nodes f cells).
Proof.
  intros HPQ Hg Hp. unfold map_nodes. split; apply Forall_fmap.
  - eapply Forall_impl; [exact Hg|]. intros x (info & Hi & Hl). exists info. cbn. by rewrite length_fmap.
  - eapply Forall_impl; [exact Hp|]. intros x Hx. cbn. apply Forall_fmap. eapply Forall_impl; [exact Hx|]. intros v. apply HPQ.
Qed.


(** ** Witnesses: a triangle and a quadrilateral *)

Definition mixed : UnstructuredMesh Typed.ConnectivityArray :=
  mkUnstructured 2 5 (Typed.mkTyped [0; 1; 2; 1; 3; 4; 2] [TRIANGLE; QUAD] [0; 3; 7]) 0 no_faces.

#[local] Instance bits : IndexBits := IndexType32.

Lemma mixed_wf : mesh_wf mixed [(TRIANGLE, [0; 1; 2]); (QUAD, [1; 3; 4; 2])].
Proof.
  split; [by split_and!|]. split; [repeat (apply Forall_cons_2; [by eexists|]); apply Forall_nil_2|].
  apply (bool_decide_unpack _). by vm_compute.
Qed.



(** ** Faces that are out of date *)

(** Faces are not found again after a cell has been added, unless this is forced. *)
Example faces_stale :
  ('(_, m1) ← initializeFaceConnectivity mixed false; m2 ← appendCell m1 [0; 2; 3] TRIANGLE;
   '(ok, m3) ← initializeFaceConnectivity m2 false; Done (ok, getNumberOfCells m3, getNumberOfFaces m3, getCellFaceIDs m3 2)) = Done (true, 3, 6, None).
Proof. by vm_compute. Qed.

(** When finding them again fails, the old faces are still counted, but without cells. *)
Example faces_after_failure :
  ('(_, m1) ← initializeFaceConnectivity mixed false; m2 ← appendCell m1 [1; 2; 4] TRIANGLE; m2 ← appendCell m2 [1; 2; 3] TRIANGLE;
   '(ok, m3) ← initializeFaceConnectivity m2 true; Done (ok, getNumberOfFaces m3, getFaceCellIDs m3 0)) = Done (false, 6, None).
Proof. by vm_compute. Qed.

End MintUnstructuredTheorems.
